(* ===== verification/_CoqProject ===== *)
-Q . S2P
Prelude.v
Bits.v
Errors.v
UniSchema.v
UniSchemaFacts.v
UniPath.v
Lineage.v
Caps.v
CapsStore.v
PhysAlloc.v
PhysAllocFacts.v
BlockDev.v
Ntfs.v
NtfsFacts.v
NtfsSpec.v
Fat32.v
Fat32Facts.v
Fat32Spec.v
FatAlloc.v
FatAllocFacts.v
FatChain.v
FatVolumeFacts.v
FatFiles.v
FatAllocSpec.v
FatData.v
Calendar.v
FatDirent.v
FatFile.v
FatFileFacts.v
FatFileSpec.v
LibcTime.v
LibcTimeFacts.v
FatDirentFacts.v
FatDir.v
FatDirFacts.v
FatDirVolume.v
FatDirSpec.v
FatNode.v
FatNodeFacts.v
FatNodeSpec.v
Heap.v
HeapFacts.v
HeapInv.v
HeapGrow.v
HeapSpec.v
HeapSafe.v
InputQueue.v
InputQueueFacts.v
Keymap.v
InputCore.v
BlockIo.v
BlockCache.v
BlockCacheFacts.v
Partition.v
PartitionFacts.v
PartitionSafe.v
Tmpfs.v
TmpfsFacts.v
TmpfsSpec.v
Vfs.v
VfsFacts.v
VfsSpec.v
VfsTmpfs.v
State.v
Vmm.v
UserMem.v
ElfLoad.v
VmmFacts.v
VmmTree.v
VmmInv.v
VmmKeep.v
VmmMap.v
VmmRange.v
VmmClone.v
VmmSafe.v
VmmBoot.v
UserMemSafe.v
ElfLoadSafe.v
Processes.v
