(* ===== verification/Prelude.v ===== *)
(** * BedrockOS: a verification library of the kernel's core logic

    BedrockOS is a Rust kernel in which every service is an object in one name
    space ("unispace").  A process reaches an object by a path; the path is
    parsed, the caller's capabilities decide whether it may be opened, and the
    payload travels in a self-describing wire format.  Processes form a lineage
    that capability propagation follows; each has an address space of page
    tables, regions and shared frames, which the loader fills from an ELF image
    and which forks copy on write.  Below that sit the frame allocator and the
    kernel heap.  Files are reached through a virtual file system over FAT32,
    NTFS and a file system in memory, and these over partitions, a block cache
    and block devices whose contents are not trusted.  Input events go through a
    queue shared by interrupt handlers.  This library models those parts as
    executable functions and proves what the rest of the kernel relies on.

    ** Conventions

    A fallible function returns [res E A]: a value, an error of the code, or
    [Panic], which stands for every abort of a Rust computation (index out of
    range, failed assertion, arithmetic overflow where the build checks it).
    [Profile] says whether overflow and debug assertions are checked; theorems
    that do not name a profile hold in both.  Integers are [Z] with the width
    written out at each operation ([u64_op], [checked_add_u64], [sat_sub_u64],
    [to_signed]); bytes are [Z] in [0..255] ([bytes_ok]).  Maps and sets are
    stdpp's [gmap] and [gset].  Code under a lock is one step, except in the
    heap, whose critical sections interleave, and in the input queue, where
    each atomic access is a step.  Serial log lines and diagnostic strings are
    left out.  The x86_64 configuration is modelled.

    ** Files and the code they model

    Names are relative to kernel/src unless they start with user.

    - Prelude: results, machine integers, little-endian bytes, checked indexing,
      UTF-8, the tactics and the hint database.  Bits: bit scans and masks.
      State: computations that change a state and may fail, with the rules of
      their weakest preconditions ([wpp]).
    - Errors: [VfsError], [UnispaceError] and the errno mapping of the syscall
      layer (filesystems/vfs/error.rs, unispace/mod.rs,
      arch/x86_64/syscall.rs).
    - UniSchema, UniSchemaFacts: the wire format (unispace/schema.rs).  Schema
      and value codecs in their static and owned forms, and the text rendering.
    - UniPath: the path parser (unispace/path.rs).
    - Lineage: the pid-to-parent map (task/mod.rs).
    - Caps: capability matching, the two forms of the path check, the listing
      filters and the checks of a spawn (caps/mod.rs, unispace/provider/proc.rs).
      CapsStore: grants, propagation to ancestors, INIT's table and the window
      page user space reads (caps/mod.rs, task/mod.rs).  A task's capability
      state is [TaskCaps]; the page allocator is the parameter [installed].
    - PhysAlloc, PhysAllocFacts: the bitmap frame allocator
      (mm/phys_alloc.rs).  The state is [BitmapAllocator]; the bitmap is one
      non-negative integer.
    - Heap, HeapFacts, HeapInv, HeapGrow, HeapSpec, HeapSafe: the kernel heap
      (mm/heap.rs) over physical memory in words, which it reaches through its
      mapping and which faults outside of it.
    - Vmm: page tables (mm/vmm), frame reference counts (mm/framecnt.rs) and the
      mapper of the x86_64 crate.  Memory is words by physical address; the
      frame allocator is a class.  VmmFacts, VmmTree, VmmInv, VmmKeep, VmmMap,
      VmmRange and VmmClone hold the invariant and the lemmas of each
      operation, VmmSafe the theorems, VmmBoot the instance with the bitmap
      allocator and a run of two processes.
    - UserMem, UserMemSafe: regions, brk, mmap, munmap, protection keys, fork,
      exit and page faults (mm/usermem.rs, mm/fault.rs) over Vmm.
    - ElfLoad, ElfLoadSafe: the program loader (task/load.rs).
    - Processes: loaded programs and their calls in any order, from boot on.
    - BlockDev: the block-device trait (filesystems/blockdriver/traits.rs) as a
      type class whose law is that a fully successful read filled the buffer
      with the addressed sectors; errors are unconstrained.  [WriteDevice] adds
      writes: a successful one stores its sectors and nothing else, a failed one
      may have damaged the sectors it addressed.  [MemDisk] is an instance.
      BlockIo: the same trait with batches of requests, for the layers below.
    - BlockCache, BlockCacheFacts: the sector cache (blockdriver/block_cache.rs).
    - Partition, PartitionFacts, PartitionSafe: MBR and GPT tables and the
      partition as a device (filesystems/partition).
    - Ntfs, NtfsFacts, NtfsSpec: the read-only NTFS driver
      (filesystems/fstypes/ntfs: boot.rs, runs.rs, record.rs, attr.rs, io.rs),
      its lemmas, and its theorems with a sample volume.
    - FAT32 (filesystems/fstypes/fat32).  Fat32, Fat32Facts, Fat32Spec: the
      parameter block, the write-back cache of the FAT and the entry reads and
      writes through it (bpb.rs, cache.rs, fat.rs, io.rs); the state is the
      device with the [FatCache], operations are state transformers ([cmd]).
      FatAlloc, FatAllocFacts, FatChain, FatVolumeFacts, FatFiles, FatAllocSpec,
      FatData: allocation, chains and mounting (alloc.rs, cluster.rs, mount.rs).
      FatFile, FatFileFacts, FatFileSpec: reads and writes of file data
      (inode.rs).  FatDirent, FatDirentFacts: directory entries (dirent.rs).
      FatDir, FatDirFacts, FatDirVolume, FatDirSpec: directories (dir.rs).
      FatNode, FatNodeFacts, FatNodeSpec: the inode operations (inode.rs).
    - Tmpfs, TmpfsFacts, TmpfsSpec: the file system in memory
      (filesystems/fstypes/tmpfs), a store of reference-counted inodes.
    - Vfs, VfsFacts, VfsSpec: directory entries and their cache, drives, mounts
      and the walk of a path (filesystems/vfs) over any file systems of an
      interface; VfsTmpfs is the composition with Tmpfs.
    - InputQueue, InputQueueFacts, Keymap, InputCore: the event queue, the key
      map and the registry and delivery of events (input).
    - Calendar: day numbers, dates and the clock registers
      (services/wallclock.rs, drivers/rtc.rs).  LibcTime, LibcTimeFacts: calendar
      time of the C library (user/libc/src/time.rs).

    ** What the theorems show

    - Processes: whatever programs are loaded and whatever the others do, a
      process keeps its regions and reads the same at every user address.  Page
      tables with shared frames, reference counts and copy on write implement
      one memory per address space.  A loaded program finds the bytes of its
      file, code executable and everything else writable, also segments that the
      file marks read-only; no page is both writable and executable.  The range check of user buffers is
      exact.  The isolation theorem is about the user half, forks that succeed
      while the writable pages are in writable regions, and exits of processes
      other than the first: a fork that fails frees pages its parent still maps
      ([failed_fork_frees_parent]), a region of code can become writable
      ([code_made_writable]), and the first process has no address space of its
      own in the code's sense ([first_process_unserved]).  Other defects:
      [brk_into_region], [unaligned_segment_shifted].
    - Capabilities: a spawned child never gains authority; the string and the
      component form of the checks agree on canonical capabilities; the window
      image reads back to the capabilities that fit; a grant adds exactly what
      it says and a failed one changes nothing; propagation reaches the whole
      chain; INIT's table is canonical, duplicate-free and usable.
    - Paths and lineage: parsing normalises and is stable; [is_ancestor] decides
      the parent relation also on cyclic maps; collection of dead entries keeps
      the ancestors of every live process.
    - Wire format: values, with lengths of 32 bits and [F32] exact in single
      precision, and schemas round-trip; the owned codecs agree with
      the static ones; decoding hostile bytes does not panic, and schema
      decoding needs one stack frame per input byte at most, and sometimes that
      many.  The 16-bit integers do not round-trip.
    - Frame allocator: boot leaves exactly the usable frames free; [alloc]
      refines removal of one element from the set of free frames; over every
      sequence of single-frame operations no owned or reserved frame is handed
      out and the count is exact; the contiguous search terminates in bounds.  It also
      returns frames that are in use: [contiguous_returns_hole] and
      [contiguous_extends_over_used] exhibit how.
    - Heap: in every interleaving of the CPUs allocations are disjoint, aligned
      and mapped and keep their bytes, every byte is accounted for, the searches
      of up to 1 GiB end, and null means that the heap could not grow.  This is so
      while the frames given to the heap back no other page of it, which the search
      for contiguous frames does not ensure: [growth_shares_frames] is a growth into
      frames of the heap.  A request of 2 GiB or more hangs ([heap_alloc_hangs]).
    - Block cache and partitions: a batch through the cache is the batch on the
      device, reads served from the cache included; accepted tables list disjoint partitions on the
      disk, no batch leaves its partition, and damage to a GPT is detected.
    - NTFS: no parser panics on any disk content; accepted boot sectors have a
      sound geometry; mapping pairs decode to what they encode; extent lookup is
      exact; a read returns exactly the mapped bytes, and succeeds on a device
      that serves the volume; record reads detect torn writes, but the fixup
      restores the wrong tails ([usa_fixup_shifts_tails]).
    - FAT32: with evictions and device failures at any point, the cached table
      behaves as the map of last written entries and a flush makes it durable,
      mirrors included;
      no two files share a cluster; allocation takes exactly the clusters asked
      for or rolls back; the free count is exact; a clean shutdown mounts again;
      reads return the bytes of the file, where the cached chain and, on small
      volumes, the FAT on the device are up to date; a directory is the list of its
      entries; inode numbers identify names.  FatNodeSpec runs the defects of
      writes, renames and new directories.
    - Tmpfs and VFS: the budget is exact and no inode dangles or is lost; a
      write takes effect as a whole or not at all.  Two calls stop the kernel: a
      write whose end overflows ([write_end_overflows]) and [rmdir] of a directory
      inside itself ([rmdir_of_itself]).  While the entries agree with
      the file systems and inode numbers are unique over the drives, a walk is the
      lookups of its components, whatever is cached.  VfsTmpfs runs the cases where the code breaks that agreement.
    - Input: the queue is a bounded FIFO for any number of producers, without
      races on the slots, and waits only for an operation under way; the key
      map is the US layout with its modifiers and locks.
    - Time: the day count is the calendar; [gmtime_r] and [mktime] agree with
      it, and [strptime] reads what [strftime] writes.

    ** Fuel

    Loops whose recursion is not structural carry fuel and return [Panic] (or
    [false], in Lineage) when it runs out, so a theorem of panic-freedom also
    states that the fuel suffices.  Lineage walks use two more than the number
    of entries, since a visited set guards them; [probe] uses the 64 bits of a
    word; the contiguous search twice the number of frames plus four, since each
    of its two passes only moves up; [decode_loop] one more than the bytes of
    the pairs, each pair taking at least two; [read_loop] of NTFS the bytes
    asked for, each chunk reading at least one; [fixup_loop] the sectors of the
    record; the attribute walks 257, one more than the cap [MAX_ATTRS] of the
    code; [sweep_loop] one more than the clock, each step dropping a sector or
    counting a dirty one; [flush_run] the sectors of the run.  FAT32 chain and
    directory walks use the clusters of the volume plus four, past the bound at
    which the code gives up; the file loops the length of the chain; groups of
    directory entries the number of entries.  The heap's walks use the bound of
    the code plus two ([WALK_FUEL]), its search more rounds than the arena has
    room for blocks ([ALLOC_FUEL]), and its caches 65, one more than they hold.  Eviction uses the length of the clock; [ebr_chain] the 100
    records the code allows; [drop_arcs] the worklist and all references; the
    walks up the tree of entries one more than the entries; links are followed
    at most [SYMLINK_MAX] times.  Loops over pages use the pages of the range;
    [fit_loop] one more than the regions, each retry passing one.  Schema
    decoding has the recursion depth as an explicit argument.

    ** Not modelled

    Code whose meaning is in hardware or assembly: device registers and DMA,
    interrupts, context switches, the flushes and shootdowns of the TLB, spin
    locks, UEFI, pixels and sound.  Weak memory: atomics are sequentially
    consistent.  Of the NTFS driver, the directory index, the inode layer and
    mounting.  The heap's chunk reclaim, which is switched off.  The unispace
    dispatch and its providers, the timers and the scheduler, ACPI, the random
    number generator, and the C library apart from calendar time. *)

From stdpp Require Export base numbers list strings gmap.
From Stdlib Require Export ZArith Lia ZifyBool.

Declare Scope bedrock_scope.
Delimit Scope bedrock_scope with bedrock.
Global Open Scope bedrock_scope.
Local Open Scope Z_scope.

(** ** Results: a value, an error of the code, or a panic

    [Panic] stands for every way a Rust computation can abort: a failed
    [assert!], a slice index out of range, an arithmetic overflow in a build
    with overflow checks. *)

Inductive res (E A : Type) : Type :=
| Ok (a : A)
| Err (e : E)
| Panic.
Arguments Ok {E A} a.
Arguments Err {E A} e.
Arguments Panic {E A}.

Definition res_bind {E A B} (m : res E A) (f : A -> res E B) : res E B :=
  match m with
  | Ok a => f a
  | Err e => Err e
  | Panic => Panic
  end.

Notation "'let?' x := m 'in' k" := (res_bind m (fun x => k))
  (at level 10, x binder, m at level 100, k at level 200,
   format "'[v' 'let?'  x  :=  m  'in' '/' k ']'") : bedrock_scope.

Definition res_map {E A B} (f : A -> B) (m : res E A) : res E B :=
  let? x := m in Ok (f x).

(** [opt.ok_or(e)?] *)
Definition ok_or {E A} (o : option A) (e : E) : res E A :=
  match o with Some a => Ok a | None => Err e end.

(** [assert!(b)] *)
Definition assert_ {E} (b : bool) : res E unit := if b then Ok tt else Panic.

Definition is_ok {E A} (m : res E A) : bool :=
  match m with Ok _ => true | _ => false end.

Definition no_panic {E A} (m : res E A) : Prop := m <> Panic.

Lemma res_bind_assoc {E A B C} (m : res E A) (f : A -> res E B) (g : B -> res E C) :
  res_bind (res_bind m f) g = res_bind m (fun a => res_bind (f a) g).
Proof. by destruct m. Qed.

Lemma res_bind_Ok {E A B} (m : res E A) (f : A -> res E B) b :
  res_bind m f = Ok b <-> exists a, m = Ok a /\ f a = Ok b.
Proof. destruct m; naive_solver. Qed.

Lemma res_bind_Err {E A B} (m : res E A) (f : A -> res E B) e :
  res_bind m f = Err e <-> m = Err e \/ exists a, m = Ok a /\ f a = Err e.
Proof. destruct m; naive_solver. Qed.

Lemma res_bind_no_panic {E A B} (m : res E A) (f : A -> res E B) :
  no_panic m -> (forall a, m = Ok a -> no_panic (f a)) -> no_panic (res_bind m f).
Proof. unfold no_panic. destruct m; naive_solver. Qed.

Lemma no_panic_Ok {E A} (a : A) : no_panic (E := E) (Ok a).
Proof. by unfold no_panic. Qed.

Lemma no_panic_Err {E A} (e : E) : no_panic (A := A) (Err e).
Proof. by unfold no_panic. Qed.

Lemma no_panic_ok_or {E A} (o : option A) (e : E) : no_panic (ok_or o e).
Proof. by destruct o. Qed.

(** Linear arithmetic with [/] and [mod] by constants. *)
Ltac mlia := Z.to_euclidean_division_equations; lia.

Create HintDb bedrock.
#[export] Hint Resolve no_panic_Ok no_panic_Err no_panic_ok_or : bedrock.

(** Invert every hypothesis [res_bind m f = Ok b]. *)
Ltac res_inv :=
  repeat match goal with
  | H : res_bind _ _ = Ok _ |- _ =>
      apply res_bind_Ok in H; destruct H as (? & ? & H)
  | H : Ok _ = Ok _ |- _ => injection H as H; subst
  | H : Err _ = Ok _ |- _ => discriminate H
  | H : Panic = Ok _ |- _ => discriminate H
  | H : ok_or ?o _ = Ok _ |- _ =>
      destruct o eqn:?; [simpl in H | discriminate H]
  end.

(** ** Build profile

    [build_image.py] builds the [dev] profile by default and [release] on
    request.  They differ in arithmetic: [dev] checks overflow and runs
    [debug_assert!], [release] wraps and skips them.  Every theorem of the
    library quantifies over the profile. *)
Class Profile := debug_profile : bool.

Definition u8_max : Z := 255.
Definition u32_max : Z := 4294967295.
Definition u64_max : Z := 18446744073709551615.
Definition i64_max : Z := 9223372036854775807.
Definition i64_min : Z := -9223372036854775808.

(** [a + b], [a - b] and [a * b] at type [u64]/[usize]. *)
Definition u64_op {E} `{Profile} (z : Z) : res E Z :=
  if (0 <=? z) && (z <=? u64_max) then Ok z
  else if debug_profile then Panic else Ok (z mod 2 ^ 64).
Definition u64_add {E} `{Profile} (a b : Z) : res E Z := u64_op (a + b).
Definition u64_sub {E} `{Profile} (a b : Z) : res E Z := u64_op (a - b).
Definition u64_mul {E} `{Profile} (a b : Z) : res E Z := u64_op (a * b).
Definition u32_op {E} `{Profile} (z : Z) : res E Z :=
  if (0 <=? z) && (z <=? u32_max) then Ok z
  else if debug_profile then Panic else Ok (z mod 2 ^ 32).
Definition u32_add {E} `{Profile} (a b : Z) : res E Z := u32_op (a + b).
Definition u32_sub {E} `{Profile} (a b : Z) : res E Z := u32_op (a - b).
Definition u32_mul {E} `{Profile} (a b : Z) : res E Z := u32_op (a * b).

(** [debug_assert!(b)] *)
Definition debug_assert {E} `{Profile} (b : bool) : res E unit :=
  if debug_profile && negb b then Panic else Ok tt.

Definition checked_add_u64 (a b : Z) : option Z :=
  if a + b <=? u64_max then Some (a + b) else None.
Definition checked_sub_u64 (a b : Z) : option Z :=
  if b <=? a then Some (a - b) else None.
Definition checked_mul_u64 (a b : Z) : option Z :=
  if a * b <=? u64_max then Some (a * b) else None.
Definition checked_i64 (z : Z) : option Z :=
  if (i64_min <=? z) && (z <=? i64_max) then Some z else None.
Definition sat_add_u64 (a b : Z) : Z := Z.min (a + b) u64_max.
Definition sat_sub_u64 (a b : Z) : Z := Z.max (a - b) 0.

Lemma checked_add_Some a b c : checked_add_u64 a b = Some c -> c = a + b /\ a + b <= u64_max.
Proof. unfold checked_add_u64. intros E. destruct (Z.leb_spec (a + b) u64_max); [|done]. by injection E as <-. Qed.

Lemma checked_mul_Some a b c : checked_mul_u64 a b = Some c -> c = a * b /\ a * b <= u64_max.
Proof. unfold checked_mul_u64. intros E. destruct (Z.leb_spec (a * b) u64_max); [|done]. by injection E as <-. Qed.

(** [z as i8], [as i16], [as i32], [as i64]: two's complement reinterpretation. *)
Definition to_signed (w z : Z) : Z :=
  let u := z mod 2 ^ w in if u <? 2 ^ (w - 1) then u else u - 2 ^ w.

Lemma u64_op_Ok {E} `{Profile} z :
  0 <= z <= u64_max -> u64_op (E := E) z = Ok z.
Proof.
  intros Hz. unfold u64_op.
  by rewrite (proj2 (Z.leb_le 0 z)), (proj2 (Z.leb_le z u64_max)) by lia.
Qed.

Lemma u32_op_Ok {E} `{Profile} z :
  0 <= z <= u32_max -> u32_op (E := E) z = Ok z.
Proof.
  intros Hz. unfold u32_op.
  by rewrite (proj2 (Z.leb_le 0 z)), (proj2 (Z.leb_le z u32_max)) by lia.
Qed.

Lemma to_signed_small w z :
  0 < w -> - 2 ^ (w - 1) <= z < 2 ^ (w - 1) -> to_signed w (z mod 2 ^ w) = z.
Proof.
  intros Hw Hz. unfold to_signed.
  assert (2 ^ w = 2 * 2 ^ (w - 1)) as Hp.
  { rewrite <- Z.pow_succ_r by lia. f_equal; lia. }
  rewrite Z.mod_mod by lia.
  destruct (Z.ltb_spec z 0) as [Hneg | Hpos].
  - replace (z mod 2 ^ w) with (z + 2 ^ w).
    + destruct (Z.ltb_spec (z + 2 ^ w) (2 ^ (w - 1))); lia.
    + apply Z.mod_unique_pos with (-1); lia.
  - rewrite Z.mod_small by lia.
    destruct (Z.ltb_spec z (2 ^ (w - 1))); lia.
Qed.

(** ** Bytes and little-endian integers

    A byte buffer is a [list Z] with every element in [0, 255]. *)

Definition byte_ok (b : Z) : Prop := 0 <= b <= 255.
Definition bytes_ok (l : list Z) : Prop := Forall byte_ok l.

(** [uN::from_le_bytes]: byte [i] weighs [256^i]. *)
Fixpoint le_val (l : list Z) : Z :=
  match l with
  | [] => 0
  | b :: r => b + 256 * le_val r
  end.

(** [uN::to_le_bytes] of the low [n] bytes. *)
Fixpoint le_bytes (n : nat) (z : Z) : list Z :=
  match n with
  | O => []
  | S n => (z mod 256) :: le_bytes n (z / 256)
  end.

Lemma length_le_bytes n z : length (le_bytes n z) = n.
Proof. revert z; induction n; simpl; auto. Qed.

Lemma le_bytes_ok n z : bytes_ok (le_bytes n z).
Proof.
  revert z; induction n as [|n IH]; intros z; simpl; constructor; [|apply IH].
  pose proof (Z.mod_pos_bound z 256). unfold byte_ok. lia.
Qed.

Lemma le_val_le_bytes n z : le_val (le_bytes n z) = z mod 256 ^ Z.of_nat n.
Proof.
  revert z; induction n as [|n IH]; intros z; simpl le_bytes; simpl le_val.
  - by rewrite Z.mod_1_r.
  - rewrite IH, Nat2Z.inj_succ, Z.pow_succ_r by lia.
    rewrite Z.rem_mul_r by lia. lia.
Qed.

Lemma le_val_bound l : bytes_ok l -> 0 <= le_val l < 256 ^ Z.of_nat (length l).
Proof.
  induction 1 as [|b r Hb _ IH]; simpl length; simpl le_val; [lia|].
  rewrite Nat2Z.inj_succ, Z.pow_succ_r by lia. unfold byte_ok in Hb. nia.
Qed.

Lemma le_bytes_le_val l : bytes_ok l -> le_bytes (length l) (le_val l) = l.
Proof.
  induction 1 as [|b r Hb Hr IH]; simpl; [done|].
  assert ((b + 256 * le_val r) mod 256 = b) as ->.
  { rewrite Z.mul_comm, Z.mod_add by lia. apply Z.mod_small.
    unfold byte_ok in Hb. lia. }
  assert ((b + 256 * le_val r) / 256 = le_val r) as ->.
  { rewrite Z.mul_comm, Z.div_add by lia. rewrite Z.div_small; [lia|].
    unfold byte_ok in Hb. lia. }
  by rewrite IH.
Qed.

#[global] Arguments le_val : simpl never.
#[global] Arguments le_bytes : simpl never.

(** [d.get(off..off + n)] with a bounds check. *)
Definition get_range (d : list Z) (off n : Z) : option (list Z) :=
  if (0 <=? off) && (0 <=? n) && (off + n <=? Z.of_nat (length d))
  then Some (take (Z.to_nat n) (drop (Z.to_nat off) d)) else None.

(** [d.get(i)] *)
Definition get_byte (d : list Z) (i : Z) : option Z :=
  if 0 <=? i then d !! Z.to_nat i else None.

(** [d[i]]: an index out of range panics. *)
Definition index {E A} (d : list A) (i : Z) : res E A :=
  match (if 0 <=? i then d !! Z.to_nat i else None) with
  | Some b => Ok b
  | None => Panic
  end.

(** [d[i] = v] *)
Definition index_set {E A} (d : list A) (i : Z) (v : A) : res E (list A) :=
  if (0 <=? i) && (i <? Z.of_nat (length d)) then Ok (<[Z.to_nat i := v]> d)
  else Panic.

Lemma get_range_length d off n s :
  get_range d off n = Some s -> Z.of_nat (length s) = n.
Proof.
  unfold get_range. intros H. case_match eqn:C; [|done]. simplify_eq.
  rewrite length_take, length_drop. lia.
Qed.

Lemma get_range_bytes_ok d off n s :
  bytes_ok d -> get_range d off n = Some s -> bytes_ok s.
Proof.
  unfold get_range, bytes_ok. intros Hd H. case_match; [|done]. simplify_eq.
  by apply Forall_take, Forall_drop.
Qed.

Lemma get_range_app pre bs post :
  get_range (pre ++ bs ++ post) (Z.of_nat (length pre)) (Z.of_nat (length bs))
  = Some bs.
Proof.
  unfold get_range. rewrite !length_app.
  destruct (_ && _) eqn:C; [|lia].
  rewrite !Nat2Z.id, drop_app_length, take_app_length. done.
Qed.

Lemma get_range_is_Some d off n :
  0 <= off -> 0 <= n -> off + n <= Z.of_nat (length d) ->
  is_Some (get_range d off n).
Proof. intros. unfold get_range. destruct (_ && _) eqn:C; [done|lia]. Qed.

(** *** Reasoning about checked reads

    A predicate on results holds of a computation that starts with a read when
    it holds of the rest for every value the read can give. *)

Lemma index_Ok {E} (d : list Z) i : 0 <= i < Z.of_nat (length d) ->
  exists b, index (E := E) d i = Ok b /\ d !! Z.to_nat i = Some b.
Proof.
  intros Hi. unfold index. rewrite (proj2 (Z.leb_le 0 i)) by lia.
  destruct (lookup_lt_is_Some_2 d (Z.to_nat i)) as [b Hb]; [lia|]. rewrite Hb. by exists b.
Qed.

Lemma index_byte {E} (d : list Z) i b : bytes_ok d -> index (E := E) d i = Ok b -> byte_ok b.
Proof.
  unfold index, bytes_ok. intros Hd Hi.
  destruct (if 0 <=? i then d !! Z.to_nat i else None) eqn:Hl; [|done]. simplify_eq.
  destruct (0 <=? i); [|done]. rewrite Forall_lookup in Hd. by eapply Hd.
Qed.

Lemma index_bind {E B} (s : list Z) i (k : Z -> res E B) (Q : res E B -> Prop) :
  bytes_ok s -> 0 <= i < Z.of_nat (length s) ->
  (forall b, byte_ok b -> Q (k b)) -> Q (let? b := index s i in k b).
Proof.
  intros Hs Hi Hk. destruct (index_Ok (E := E) s i Hi) as (b & Hb & _). rewrite Hb.
  apply Hk. by eapply index_byte.
Qed.

Lemma ok_or_bind {E A B} (o : option A) (e : E) (k : A -> res E B) (Q : res E B -> Prop) :
  Q (Err e) -> (forall v, o = Some v -> Q (k v)) -> Q (let? v := ok_or o e in k v).
Proof. intros He Hk. destruct o; [by apply Hk|done]. Qed.

(** ** Lists *)

Lemma filter_agree {A} (P Q : A -> Prop) `{forall x, Decision (P x)} `{forall x, Decision (Q x)} (l : list A) :
  (forall x, x ∈ l -> P x <-> Q x) -> filter P l = filter Q l.
Proof.
  induction l as [|x l IH]; intros Hx; [done|]. rewrite !filter_cons, IH by set_solver.
  pose proof (Hx x ltac:(set_solver)). destruct (decide (P x)), (decide (Q x)); tauto.
Qed.

Lemma length_filter_fmap {A B} (f : A -> B) (P : B -> Prop) (Q : A -> Prop)
  `{forall x, Decision (P x)} `{forall x, Decision (Q x)} (l : list A) :
  (forall x, x ∈ l -> P (f x) <-> Q x) -> length (filter P (f <$> l)) = length (filter Q l).
Proof.
  induction l as [|x l IH]; intros Hx; [done|]. simpl. rewrite !filter_cons.
  specialize (IH ltac:(set_solver)). pose proof (Hx x ltac:(set_solver)).
  destruct (decide (P (f x))), (decide (Q x)); simpl; auto; tauto.
Qed.

(** ** Strings as UTF-8 byte sequences *)

Definition byte_of_ascii (a : Ascii.ascii) : Z := Z.of_N (Ascii.N_of_ascii a).
Definition ascii_of_byte (b : Z) : Ascii.ascii := Ascii.ascii_of_N (Z.to_N b).

Fixpoint bytes_of_string (s : string) : list Z :=
  match s with
  | EmptyString => []
  | String a r => byte_of_ascii a :: bytes_of_string r
  end.

Fixpoint string_of_bytes (l : list Z) : string :=
  match l with
  | [] => EmptyString
  | b :: r => String (ascii_of_byte b) (string_of_bytes r)
  end.

Lemma string_of_bytes_of_string s : string_of_bytes (bytes_of_string s) = s.
Proof.
  induction s as [|a s IH]; simpl; [done|].
  unfold ascii_of_byte, byte_of_ascii.
  by rewrite N2Z.id, Ascii.ascii_N_embedding, IH.
Qed.

Lemma bytes_of_string_ok s : bytes_ok (bytes_of_string s).
Proof.
  induction s as [|a s IH]; simpl; constructor; [|done].
  unfold byte_ok, byte_of_ascii.
  pose proof (Ascii.N_ascii_bounded a). lia.
Qed.

Lemma length_bytes_of_string s : length (bytes_of_string s) = String.length s.
Proof. induction s; simpl; auto. Qed.

Definition utf8_cont (b : Z) : bool := (128 <=? b) && (b <=? 191).

(** [core::str::from_utf8]'s acceptance test: no overlong form, no surrogate,
    nothing above U+10FFFF. *)
Fixpoint utf8_valid (l : list Z) : bool :=
  match l with
  | [] => true
  | b0 :: r0 =>
      if b0 <? 128 then utf8_valid r0 else
      match r0 with
      | [] => false
      | b1 :: r1 =>
          if (194 <=? b0) && (b0 <=? 223) then utf8_cont b1 && utf8_valid r1 else
          match r1 with
          | [] => false
          | b2 :: r2 =>
              if b0 =? 224 then
                (160 <=? b1) && (b1 <=? 191) && utf8_cont b2 && utf8_valid r2
              else if b0 =? 237 then
                (128 <=? b1) && (b1 <=? 159) && utf8_cont b2 && utf8_valid r2
              else if (225 <=? b0) && (b0 <=? 239) then
                utf8_cont b1 && utf8_cont b2 && utf8_valid r2
              else
              match r2 with
              | [] => false
              | b3 :: r3 =>
                  if b0 =? 240 then
                    (144 <=? b1) && (b1 <=? 191) && utf8_cont b2 && utf8_cont b3
                    && utf8_valid r3
                  else if b0 =? 244 then
                    (128 <=? b1) && (b1 <=? 143) && utf8_cont b2 && utf8_cont b3
                    && utf8_valid r3
                  else if (241 <=? b0) && (b0 <=? 243) then
                    utf8_cont b1 && utf8_cont b2 && utf8_cont b3 && utf8_valid r3
                  else false
              end
          end
      end
  end.

(** [String::from_utf8] *)
Definition from_utf8 (l : list Z) : option string :=
  if utf8_valid l then Some (string_of_bytes l) else None.

(** ** Iteration

    [iter_pos p f s] runs the body of a loop at most [p] times; [inl] is the
    state of a loop that has not returned yet.  The count is binary, so that a
    bound of millions costs nothing to write down. *)

Fixpoint iter_pos {S R : Type} (p : positive) (f : S -> S + R) (s : S) : S + R :=
  match p with
  | xH => f s
  | xO p => match iter_pos p f s with inl s => iter_pos p f s | inr r => inr r end
  | xI p =>
      match f s with
      | inl s => match iter_pos p f s with inl s => iter_pos p f s | inr r => inr r end
      | inr r => inr r
      end
  end.

Fixpoint iter_nat {S R : Type} (n : nat) (f : S -> S + R) (s : S) : S + R :=
  match n with
  | O => inl s
  | Datatypes.S n => match f s with inl s => iter_nat n f s | inr r => inr r end
  end.

Lemma iter_nat_S {S R} (f : S -> S + R) n s :
  iter_nat (Datatypes.S n) f s = match f s with inl s => iter_nat n f s | inr r => inr r end.
Proof. done. Qed.

Lemma iter_nat_add {S R} (f : S -> S + R) n m s :
  iter_nat (n + m) f s = match iter_nat n f s with inl s => iter_nat m f s | inr r => inr r end.
Proof. revert s. induction n as [|n IH]; intros s; simpl; [done|]. destruct (f s); [apply IH|done]. Qed.

Lemma iter_pos_nat {S R} (f : S -> S + R) p s : iter_pos p f s = iter_nat (Pos.to_nat p) f s.
Proof.
  revert s. induction p as [p IH|p IH|]; intros s; cbn [iter_pos].
  - rewrite Pos2Nat.inj_xI. cbn [iter_nat]. destruct (f s) as [s'|r]; [|done].
    replace (2 * Pos.to_nat p)%nat with (Pos.to_nat p + Pos.to_nat p)%nat by lia.
    rewrite iter_nat_add, IH. destruct (iter_nat _ f s'); [apply IH|done].
  - rewrite Pos2Nat.inj_xO. replace (2 * Pos.to_nat p)%nat with (Pos.to_nat p + Pos.to_nat p)%nat by lia.
    rewrite iter_nat_add, IH. destruct (iter_nat _ f s); [apply IH|done].
  - simpl. by destruct (f s).
Qed.

(** A loop that returns within [n] rounds returns within any larger bound. *)
Lemma iter_pos_done {S R} (f : S -> S + R) n p s r :
  iter_nat n f s = inr r -> Z.of_nat n <= Zpos p -> iter_pos p f s = inr r.
Proof.
  intros E Hn. rewrite iter_pos_nat. replace (Pos.to_nat p) with (n + (Pos.to_nat p - n))%nat by lia.
  by rewrite iter_nat_add, E.
Qed.

(** A loop that returns gives what its invariant promises of the last round. *)
Lemma iter_pos_inv {S R} (f : S -> S + R) (P : S -> Prop) (Q : R -> Prop) p s r :
  P s -> (forall s s', P s -> f s = inl s' -> P s') -> (forall s r, P s -> f s = inr r -> Q r) -> iter_pos p f s = inr r -> Q r.
Proof.
  intros Hs Hl Hr. rewrite iter_pos_nat. revert s Hs. induction (Pos.to_nat p) as [|n IH]; intros s Hs; simpl; [done|].
  destruct (f s) as [s'|r'] eqn:E; [apply IH; eauto|]. intros [= <-]. eauto.
Qed.

(** A loop whose body always goes on never returns. *)
Lemma iter_pos_diverges {S R} (f : S -> S + R) (P : S -> Prop) p s :
  P s -> (forall s, P s -> exists s', f s = inl s' /\ P s') -> exists s', iter_pos p f s = inl s'.
Proof.
  intros Hs Hf. rewrite iter_pos_nat. revert s Hs. induction (Pos.to_nat p) as [|n IH]; intros s Hs; simpl; [by exists s|].
  destruct (Hf s Hs) as (s' & -> & Hs'). by apply IH.
Qed.
