(* ===== verification/Bits.v ===== *)
(** * Bit-level lemmas on machine words

    [u64::trailing_zeros], [u64::count_ones], single-bit updates and masks, as
    functions on [Z], with the lemmas the bitmap allocators share. *)

From S2P Require Import Prelude.
Local Open Scope Z_scope.

(** ** Trailing zeros *)

Fixpoint ctz_pos (p : positive) : Z :=
  match p with
  | xO p => 1 + ctz_pos p
  | _ => 0
  end.

(** [z.trailing_zeros()] of a [w]-bit word. *)
Definition trailing_zeros (w z : Z) : Z :=
  match z with Zpos p => ctz_pos p | _ => w end.

Lemma ctz_pos_spec p :
  0 <= ctz_pos p /\ Z.testbit (Zpos p) (ctz_pos p) = true
  /\ forall i, 0 <= i < ctz_pos p -> Z.testbit (Zpos p) i = false.
Proof.
  induction p as [p IH|p IH|]; simpl ctz_pos.
  - split_and!; [lia|done|intros; lia].
  - destruct IH as (H0 & H1 & H2). split_and!; [lia| |].
    + change (Zpos p~0) with (2 * Zpos p). replace (1 + ctz_pos p) with (Z.succ (ctz_pos p)) by lia.
      by rewrite Z.testbit_even_succ by lia.
    + intros i Hi. change (Zpos p~0) with (2 * Zpos p).
      destruct (decide (i = 0)) as [->|]; [apply Z.testbit_even_0|].
      replace i with (Z.succ (i - 1)) by lia. rewrite Z.testbit_even_succ by lia.
      apply H2. lia.
  - split_and!; [lia|done|intros; lia].
Qed.

(** ** Words and masks *)

Lemma testbit_ones n i : 0 <= n -> 0 <= i -> Z.testbit (Z.ones n) i = (i <? n).
Proof.
  intros Hn Hi. rewrite Z.testbit_ones_nonneg by lia. done.
Qed.

Lemma testbit_out w z i : 0 <= z < 2 ^ w -> w <= i -> Z.testbit z i = false.
Proof.
  intros Hz Hi. destruct (decide (z = 0)) as [->|]; [apply Z.testbit_0_l|].
  destruct (decide (0 <= w)); [|rewrite Z.pow_neg_r in Hz by lia; lia].
  apply Z.bits_above_log2; [lia|].
  assert (Z.log2 z < w) by (apply Z.log2_lt_pow2; lia). lia.
Qed.

Lemma bits_in z i w : 0 <= z < 2 ^ w -> Z.testbit z i = true -> 0 <= i < w.
Proof.
  intros Hz Hb. split.
  - destruct (decide (0 <= i)); [done|]. by rewrite Z.testbit_neg_r in Hb by lia.
  - destruct (decide (i < w)); [done|]. by rewrite (testbit_out w) in Hb by lia.
Qed.

Lemma trailing_zeros_spec w z : 0 < z < 2 ^ w ->
  0 <= trailing_zeros w z < w /\ Z.testbit z (trailing_zeros w z) = true
  /\ forall i, 0 <= i < trailing_zeros w z -> Z.testbit z i = false.
Proof.
  intros Hz. destruct z as [|p|p]; [lia| |lia]. simpl.
  destruct (ctz_pos_spec p) as (H0 & H1 & H2). split_and!; [done| |done..].
  eapply bits_in; [|done]. lia.
Qed.

Lemma zero_no_bits z : 0 <= z -> (forall i, 0 <= i -> Z.testbit z i = false) -> z = 0.
Proof. intros Hz H. apply Z.bits_inj_0. intros i. destruct (decide (0 <= i)); [by apply H|].
  apply Z.testbit_neg_r. lia. Qed.

Lemma clearbit_lt w z b : 0 <= w -> 0 <= z < 2 ^ w -> 0 <= b -> 0 <= Z.clearbit z b < 2 ^ w.
Proof.
  intros Hw Hz Hb.
  assert (0 <= Z.clearbit z b) by (rewrite Z.clearbit_spec'; apply Z.ldiff_nonneg; lia).
  split; [done|]. apply Z.bounded_iff_bits_nonneg; [done..|]. intros l Hl.
  by rewrite Z.clearbit_eqb, (testbit_out w).
Qed.

Lemma setbit_nonneg z b : 0 <= z -> 0 <= Z.setbit z b.
Proof. intros Hz. unfold Z.setbit. apply Z.lor_nonneg. rewrite Z.shiftl_nonneg. lia. Qed.

Lemma clearbit_nonneg z b : 0 <= z -> 0 <= Z.clearbit z b.
Proof. intros Hz. unfold Z.clearbit. apply Z.ldiff_nonneg. by left. Qed.

(** ** Population count *)

Fixpoint popcount_pos (p : positive) : Z :=
  match p with
  | xH => 1
  | xO p => popcount_pos p
  | xI p => 1 + popcount_pos p
  end.

(** [z.count_ones()] *)
Definition count_ones (z : Z) : Z := match z with Zpos p => popcount_pos p | _ => 0 end.

(** [x.is_power_of_two()] *)
Definition is_power_of_two (x : Z) : bool := count_ones x =? 1.

(** The number of indices below [n] that satisfy [f]. *)
Fixpoint countb (f : Z -> bool) (n : nat) : Z :=
  match n with
  | O => 0
  | S n => countb f n + Z.b2z (f (Z.of_nat n))
  end.

Lemma countb_ext f g n : (forall i, 0 <= i < Z.of_nat n -> f i = g i) -> countb f n = countb g n.
Proof.
  induction n as [|n IH]; intros H; simpl; [done|].
  rewrite IH by (intros; apply H; lia). by rewrite H by lia.
Qed.

Lemma countb_bound f n : 0 <= countb f n <= Z.of_nat n.
Proof. induction n as [|n IH]; simpl countb; [lia|]. destruct (f _); simpl; lia. Qed.

Lemma countb_false n : countb (fun _ => false) n = 0.
Proof. induction n as [|n IH]; simpl; lia. Qed.

Lemma countb_shift f n : countb f (S n) = Z.b2z (f 0) + countb (fun i => f (i + 1)) n.
Proof.
  induction n as [|n IH]; [cbn [countb]; change (Z.of_nat 0) with 0; lia|].
  cbn [countb] in *. rewrite IH.
  replace (Z.of_nat (S n)) with (Z.of_nat n + 1) by lia. lia.
Qed.

Lemma countb_app f n k :
  countb f (n + k) = countb f n + countb (fun i => f (Z.of_nat n + i)) k.
Proof.
  induction k as [|k IH]; [rewrite Nat.add_0_r; cbn [countb]; lia|].
  replace (n + S k)%nat with (S (n + k)) by lia. cbn [countb]. rewrite IH.
  replace (Z.of_nat (n + k)) with (Z.of_nat n + Z.of_nat k) by lia. lia.
Qed.

Lemma countb_negb f n : countb (fun i => negb (f i)) n = Z.of_nat n - countb f n.
Proof. induction n as [|n IH]; cbn [countb]; [lia|]. rewrite IH. destruct (f _); simpl; lia. Qed.

(** Changing [f] at one index. *)
Lemma countb_update f g n k :
  0 <= k < Z.of_nat n -> (forall i, i <> k -> g i = f i) ->
  countb g n = countb f n - Z.b2z (f k) + Z.b2z (g k).
Proof.
  induction n as [|n IH]; intros Hk H; [lia|]. cbn [countb].
  destruct (decide (k = Z.of_nat n)) as [->|Hne].
  - rewrite (countb_ext g f) by (intros; apply H; lia). lia.
  - rewrite IH by (done || lia). rewrite (H (Z.of_nat n)) by lia. lia.
Qed.

Lemma popcount_countb p n : Zpos p < 2 ^ Z.of_nat n ->
  popcount_pos p = countb (Z.testbit (Zpos p)) n.
Proof.
  revert n. induction p as [p IH|p IH|]; intros n Hn;
    (destruct n as [|n]; [simpl in Hn; lia|]);
    rewrite countb_shift; rewrite Nat2Z.inj_succ, Z.pow_succ_r in Hn by lia; cbn [popcount_pos].
  - rewrite (IH n) by lia. change (Z.testbit (Zpos p~1) 0) with true. simpl Z.b2z. f_equal.
    apply countb_ext. intros i Hi. change (Zpos p~1) with (2 * Zpos p + 1).
    replace (i + 1) with (Z.succ i) by lia. by rewrite Z.testbit_odd_succ by lia.
  - rewrite (IH n) by lia. change (Z.testbit (Zpos p~0) 0) with false. simpl Z.b2z. rewrite Z.add_0_l.
    apply countb_ext. intros i Hi. change (Zpos p~0) with (2 * Zpos p).
    replace (i + 1) with (Z.succ i) by lia. by rewrite Z.testbit_even_succ by lia.
  - change (Z.testbit 1 0) with true. simpl Z.b2z.
    rewrite (countb_ext _ (fun _ => false)); [rewrite countb_false; lia|].
    intros i Hi. apply (testbit_out 1); [lia|lia].
Qed.

Lemma count_ones_countb z n : 0 <= z < 2 ^ Z.of_nat n ->
  count_ones z = countb (Z.testbit z) n.
Proof.
  intros Hz. destruct z as [|p|p]; [|by apply popcount_countb, Hz|lia].
  simpl. rewrite (countb_ext _ (fun _ => false)); [by rewrite countb_false|].
  intros. apply Z.testbit_0_l.
Qed.

Lemma countb_diff f m n :
  countb m n - countb (fun i => f i && m i) n = countb (fun i => negb (f i) && m i) n.
Proof.
  induction n as [|n IH]; cbn [countb]; [lia|]. rewrite <- IH.
  destruct (f (Z.of_nat n)), (m (Z.of_nat n)); cbn [andb negb Z.b2z]; lia.
Qed.

Lemma countb_tail f n k : (forall i, Z.of_nat n <= i -> f i = false) ->
  countb f (n + k) = countb f n.
Proof.
  intros Hf. rewrite countb_app.
  rewrite (countb_ext (fun i => f (Z.of_nat n + i)) (fun _ => false)).
  - rewrite countb_false. lia.
  - intros i Hi. apply Hf. lia.
Qed.

Lemma power_of_two_pow z : is_power_of_two z = true -> exists k, 0 <= k /\ z = 2 ^ k.
Proof.
  assert (forall p, 1 <= popcount_pos p) as Hpos by (induction p; simpl; lia).
  unfold is_power_of_two, count_ones. destruct z as [|p|p]; [done| |done].
  induction p as [p IH|p IH|]; simpl; intros H.
  - specialize (Hpos p). lia.
  - destruct (IH H) as (k & Hk & Hp). exists (k + 1). split; [lia|].
    rewrite Z.pow_add_r by lia. rewrite <- Hp. lia.
  - by exists 0.
Qed.
