(* ===== verification/Errors.v ===== *)
(** * Error types shared by the kernel's subsystems

    [VfsError] (kernel/src/filesystems/vfs/error.rs), [UnispaceError] and
    [ObjectKind] (kernel/src/unispace/mod.rs) and the errno mapping of the
    syscall layer (kernel/src/arch/x86_64/syscall.rs). *)

From S2P Require Import Prelude.
Local Open Scope Z_scope.

Module Vfs.
Inductive VfsError :=
| NotFound | AlreadyExists | NotADirectory | IsADirectory | IOError | NoSpace
| CrossDeviceLink | InvalidInput | NameTooLong | NotEmpty | BadFileDescriptor
| MountBusy | InvalidDevice | FileTooLarge | ReadOnly | NotSupported | Loop.

#[global] Instance VfsError_eq_dec : EqDecision VfsError.
Proof. solve_decision. Defined.

Definition discriminant_name (e : VfsError) : string :=
  match e with
  | NotFound => "NotFound"
  | AlreadyExists => "AlreadyExists"
  | NotADirectory => "NotADirectory"
  | IsADirectory => "IsADirectory"
  | IOError => "IOError"
  | NoSpace => "NoSpace"
  | CrossDeviceLink => "CrossDeviceLink"
  | InvalidInput => "InvalidInput"
  | NameTooLong => "NameTooLong"
  | NotEmpty => "NotEmpty"
  | BadFileDescriptor => "BadFileDescriptor"
  | MountBusy => "MountBusy"
  | InvalidDevice => "InvalidDevice"
  | FileTooLarge => "FileTooLarge"
  | ReadOnly => "ReadOnly"
  | NotSupported => "NotSupported"
  | Loop => "Loop"
  end.

Definition discriminant_value (e : VfsError) : Z :=
  match e with
  | NotFound => 0
  | AlreadyExists => 1
  | NotADirectory => 2
  | IsADirectory => 3
  | IOError => 4
  | NoSpace => 5
  | CrossDeviceLink => 6
  | InvalidInput => 7
  | NameTooLong => 8
  | NotEmpty => 9
  | BadFileDescriptor => 10
  | MountBusy => 11
  | InvalidDevice => 12
  | FileTooLarge => 13
  | ReadOnly => 14
  | NotSupported => 15
  | Loop => 16
  end.

Definition vfs_error_name (e : VfsError) : string := discriminant_name e.
End Vfs.

Module Uni.
Inductive UnispaceError :=
| InvalidPath | NotFound | NotADirectory | IsADirectory | MethodNotFound
| DecodeError | SchemaMismatch | Unsupported | OutOfMemory | BadAddress
| InvalidArgument | AccessDenied
| Vfs (e : Vfs.VfsError).

#[global] Instance UnispaceError_eq_dec : EqDecision UnispaceError.
Proof. solve_decision. Defined.

(** [errno] of the syscall layer: the value returned in [rax]. *)
Definition errno (e : UnispaceError) : Z :=
  match e with
  | NotFound => -2
  | IsADirectory => -21
  | NotADirectory => -20
  | Unsupported => -38
  | InvalidPath | DecodeError | SchemaMismatch => -22
  | OutOfMemory => -12
  | BadAddress => -14
  | InvalidArgument => -22
  | AccessDenied => -13
  | MethodNotFound => -38
  | Vfs _ => -5
  end.

Inductive ObjectKind := File | Dir | Device | Service.

Definition tag (k : ObjectKind) : Z :=
  match k with File => 0 | Dir => 1 | Device => 2 | Service => 3 end.

Definition from_tag (t : Z) : option ObjectKind :=
  if t =? 0 then Some File
  else if t =? 1 then Some Dir
  else if t =? 2 then Some Device
  else if t =? 3 then Some Service
  else None.

Definition as_str (k : ObjectKind) : string :=
  match k with
  | File => "file" | Dir => "dir" | Device => "device" | Service => "service"
  end.

Record ListingEntry := { name : string; kind : ObjectKind }.
End Uni.
