(* ===== verification/UniSchema.v ===== *)
(** * The unispace wire format: schemas and values

    Model of kernel/src/unispace/schema.rs: the self-describing schema
    encoding ([encode_schema], [decode_schema_bytes]), the payload codec
    ([encode_value], [decode_value]), their owned-schema twins, and the textual
    rendering of schemas.  A Rust [String] is a [string] whose bytes are its
    UTF-8 encoding; [Vec<u8>] is a [list Z]; an [f64] is its bit pattern. *)

From S2P Require Import Prelude Errors.
Import Errors.Uni.
Local Open Scope Z_scope.

(** ** Schemas, owned schemas and values *)

(** [Schema]; a [Field] is the pair of its name and type, an [EnumVariant]
    the pair of its name and value. *)
Inductive Schema :=
| Unit | Bool | U8 | U16 | U32 | U64 | I8 | I16 | I32 | I64 | F32 | F64
| Str | Bytes | Blob
| Struct (fields : list (string * Schema))
| List (elem : Schema)
| Enum (vars : list (string * Z)).

Definition TAG_UNIT : Z := 0.
Definition TAG_BOOL : Z := 1.
Definition TAG_U8 : Z := 2.
Definition TAG_U16 : Z := 3.
Definition TAG_U32 : Z := 4.
Definition TAG_U64 : Z := 5.
Definition TAG_I8 : Z := 6.
Definition TAG_I16 : Z := 7.
Definition TAG_I32 : Z := 8.
Definition TAG_I64 : Z := 9.
Definition TAG_F32 : Z := 10.
Definition TAG_F64 : Z := 11.
Definition TAG_STR : Z := 12.
Definition TAG_BYTES : Z := 13.
Definition TAG_BLOB : Z := 14.
Definition TAG_STRUCT : Z := 15.
Definition TAG_LIST : Z := 16.
Definition TAG_ENUM : Z := 17.

Definition schema_tag (s : Schema) : Z :=
  match s with
  | Unit => TAG_UNIT
  | Bool => TAG_BOOL
  | U8 => TAG_U8
  | U16 => TAG_U16
  | U32 => TAG_U32
  | U64 => TAG_U64
  | I8 => TAG_I8
  | I16 => TAG_I16
  | I32 => TAG_I32
  | I64 => TAG_I64
  | F32 => TAG_F32
  | F64 => TAG_F64
  | Str => TAG_STR
  | Bytes => TAG_BYTES
  | Blob => TAG_BLOB
  | Struct _ => TAG_STRUCT
  | List _ => TAG_LIST
  | Enum _ => TAG_ENUM
  end.

Record MethodDesc := { md_name : string; input : Schema; output : Schema }.

Inductive OwnedSchema :=
| OUnit | OBool | OU8 | OU16 | OU32 | OU64 | OI8 | OI16 | OI32 | OI64 | OF32
| OF64 | OStr | OBytes | OBlob
| OStruct (fields : list (string * OwnedSchema))
| OList (elem : OwnedSchema)
| OEnum (vars : list (string * Z)).

Inductive Value :=
| VUnit
| VBool (b : bool)
| VU64 (n : Z)
| VI64 (n : Z)
| VF64 (bits : Z)
| VStr (s : string)
| VBytes (b : list Z)
| VList (items : list Value)
| VStruct (vals : list Value)
| VEnum (d : Z).

(** [f32 as f64] and [f64 as f32] on IEEE-754 bit patterns (round to nearest
    even; a NaN keeps its high payload bits and becomes quiet). *)
Definition f32_to_f64 (b : Z) : Z :=
  let sign := Z.shiftl (Z.shiftr b 31) 63 in
  let e := Z.land (Z.shiftr b 23) 255 in
  let m := Z.land b 8388607 in
  if e =? 255 then
    Z.lor sign (Z.lor (Z.shiftl 2047 52)
      (if m =? 0 then 0 else Z.lor (Z.shiftl 1 51) (Z.shiftl m 29)))
  else if e =? 0 then
    if m =? 0 then sign
    else let k := Z.log2 m in
      Z.lor sign (Z.lor (Z.shiftl (k + 874) 52)
        (Z.shiftl (m - 2 ^ k) (52 - k)))
  else Z.lor sign (Z.lor (Z.shiftl (e + 896) 52) (Z.shiftl m 29)).

(** Divide by [2^k], rounding to nearest, ties to even. *)
Definition round_half_even (m k : Z) : Z :=
  let q := Z.shiftr m k in
  let r := m - Z.shiftl q k in
  let half := 2 ^ (k - 1) in
  if r <? half then q
  else if half <? r then q + 1
  else if Z.even q then q else q + 1.

Definition f64_to_f32 (b : Z) : Z :=
  let sign := Z.shiftl (Z.shiftr b 63) 31 in
  let e := Z.land (Z.shiftr b 52) 2047 in
  let m := Z.land b 4503599627370495 in
  if e =? 2047 then
    Z.lor sign (Z.lor (Z.shiftl 255 23)
      (if m =? 0 then 0 else Z.lor (Z.shiftl 1 22) (Z.shiftr m 29)))
  else if e <=? 896 then
    let k := 29 + (897 - e) in
    if 54 <? k then sign
    else Z.lor sign (round_half_even (Z.lor (if e =? 0 then 0 else 2 ^ 52) m) k)
  else
    let r := round_half_even (Z.lor (Z.shiftl (e - 896) 52) m) 29 in
    if Z.shiftl 255 23 <=? r then Z.lor sign (Z.shiftl 255 23)
    else Z.lor sign r.

#[global] Arguments f32_to_f64 : simpl never.
#[global] Arguments f64_to_f32 : simpl never.

(** ** The bounds-checked reader *)

Record Cursor := mkCursor { data : list Z; pos : Z }.

Definition set_pos (c : Cursor) (p : Z) : Cursor := mkCursor (data c) p.

Definition read (c : Cursor) (n : Z) : res UnispaceError (list Z * Cursor) :=
  let? end_ := ok_or (checked_add_u64 (pos c) n) DecodeError in
  if Z.of_nat (length (data c)) <? end_ then Err DecodeError
  else match get_range (data c) (pos c) n with
       | Some s => Ok (s, set_pos c end_)
       | None => Panic
       end.

Definition read_u8 (c : Cursor) : res UnispaceError (Z * Cursor) :=
  let? '(b, c) := read c 1 in
  let? v := index b 0 in
  Ok (v, c).

Definition read_u32 (c : Cursor) : res UnispaceError (Z * Cursor) :=
  let? '(b, c) := read c 4 in
  Ok (le_val b, c).

Definition read_u64 (c : Cursor) : res UnispaceError (Z * Cursor) :=
  let? '(b, c) := read c 8 in
  Ok (le_val b, c).

Definition read_string (c : Cursor) : res UnispaceError (string * Cursor) :=
  let? '(len, c) := read_u32 c in
  let? '(b, c) := read c len in
  let? s := ok_or (from_utf8 b) DecodeError in
  Ok (s, c).

Definition write_len_string (out : list Z) (s : string) : list Z :=
  out ++ le_bytes 4 (Z.of_nat (String.length s)) ++ bytes_of_string s.

(** The value encoders append to [out] and may fail after a partial append, so
    they return the buffer together with the result. *)
Definition outcome : Type := list Z * res UnispaceError unit.
Definition put (out bs : list Z) : outcome := (out ++ bs, Ok tt).
Definition mismatch (out : list Z) : outcome := (out, Err SchemaMismatch).

#[global] Arguments put : simpl never.
#[global] Arguments mismatch : simpl never.

(** ** Loops shared by the codecs *)

(** [for _ in 0..n { v.push(step(c)?); }] *)
Fixpoint read_many {A} (n : nat) (step : Cursor -> res UnispaceError (A * Cursor))
  (c : Cursor) (acc : list A) : res UnispaceError (list A * Cursor) :=
  match n with
  | O => Ok (acc, c)
  | S n => let? '(a, c) := step c in read_many n step c (acc ++ [a])
  end.

Section FieldLoops.
Context {S : Type}.

(** [for f in fields { write_len_string(out, f.name); encode(f.ty, out); }] *)
Definition write_fields (enc : S -> list Z -> list Z)
  : list (string * S) -> list Z -> list Z :=
  fix go fs out :=
    match fs with
    | [] => out
    | (name, ty) :: fs => go fs (enc ty (write_len_string out name))
    end.

(** [for f in fields { vals.push(decode(c, f.ty)?); }] *)
Definition read_fields (dec : S -> Cursor -> res UnispaceError (Value * Cursor))
  : list (string * S) -> Cursor -> list Value
    -> res UnispaceError (list Value * Cursor) :=
  fix go fs c acc :=
    match fs with
    | [] => Ok (acc, c)
    | (_, ty) :: fs => let? '(v, c) := dec ty c in go fs c (acc ++ [v])
    end.

(** [for (f, val) in fields.iter().zip(vals) { encode(val, f.ty, out)?; } Ok(())] *)
Definition put_fields (enc : Value -> S -> list Z -> outcome)
  : list (string * S) -> list Value -> list Z -> outcome :=
  fix go fs vs out :=
    match fs, vs with
    | (_, ty) :: fs, val :: vs =>
        match enc val ty out with
        | (out, Ok _) => go fs vs out
        | (out, r) => (out, r)
        end
    | _, _ => (out, Ok tt)
    end.
End FieldLoops.

(** ** Schema encoding and decoding *)

Definition encode_vars (vars : list (string * Z)) (out : list Z) : list Z :=
  fold_left (fun out v => write_len_string (out ++ le_bytes 4 v.2) v.1) vars out.

Fixpoint encode_schema (s : Schema) (out : list Z) : list Z :=
  let out := out ++ [schema_tag s] in
  match s with
  | Struct fields =>
      let out := out ++ le_bytes 4 (Z.of_nat (length fields)) in
      write_fields encode_schema fields out
  | List elem => encode_schema elem out
  | Enum vars => encode_vars vars (out ++ le_bytes 4 (Z.of_nat (length vars)))
  | _ => out
  end.

Fixpoint encode_schema_owned (s : OwnedSchema) (out : list Z) : list Z :=
  match s with
  | OUnit => out ++ [TAG_UNIT]
  | OBool => out ++ [TAG_BOOL]
  | OU8 => out ++ [TAG_U8]
  | OU16 => out ++ [TAG_U16]
  | OU32 => out ++ [TAG_U32]
  | OU64 => out ++ [TAG_U64]
  | OI8 => out ++ [TAG_I8]
  | OI16 => out ++ [TAG_I16]
  | OI32 => out ++ [TAG_I32]
  | OI64 => out ++ [TAG_I64]
  | OF32 => out ++ [TAG_F32]
  | OF64 => out ++ [TAG_F64]
  | OStr => out ++ [TAG_STR]
  | OBytes => out ++ [TAG_BYTES]
  | OBlob => out ++ [TAG_BLOB]
  | OStruct fields =>
      let out := out ++ [TAG_STRUCT] in
      let out := out ++ le_bytes 4 (Z.of_nat (length fields)) in
      write_fields encode_schema_owned fields out
  | OList elem => encode_schema_owned elem (out ++ [TAG_LIST])
  | OEnum vars =>
      encode_vars vars (out ++ [TAG_ENUM] ++ le_bytes 4 (Z.of_nat (length vars)))
  end.

(** The arms of [decode_schema_at], with the recursive call abstracted. *)
Definition decode_schema_body
  (rec : Cursor -> res UnispaceError (OwnedSchema * Cursor))
  (tag : Z) (c : Cursor) : res UnispaceError (OwnedSchema * Cursor) :=
  if tag =? TAG_UNIT then Ok (OUnit, c)
  else if tag =? TAG_BOOL then Ok (OBool, c)
  else if tag =? TAG_U8 then Ok (OU8, c)
  else if tag =? TAG_U16 then Ok (OU16, c)
  else if tag =? TAG_U32 then Ok (OU32, c)
  else if tag =? TAG_U64 then Ok (OU64, c)
  else if tag =? TAG_I8 then Ok (OI8, c)
  else if tag =? TAG_I16 then Ok (OI16, c)
  else if tag =? TAG_I32 then Ok (OI32, c)
  else if tag =? TAG_I64 then Ok (OI64, c)
  else if tag =? TAG_F32 then Ok (OF32, c)
  else if tag =? TAG_F64 then Ok (OF64, c)
  else if tag =? TAG_STR then Ok (OStr, c)
  else if tag =? TAG_BYTES then Ok (OBytes, c)
  else if tag =? TAG_BLOB then Ok (OBlob, c)
  else if tag =? TAG_STRUCT then
    let? '(n, c) := read_u32 c in
    let? '(fields, c) :=
      read_many (Z.to_nat n) (fun c =>
        let? '(name, c) := read_string c in
        let? '(ty, c) := rec c in
        Ok ((name, ty), c)) c [] in
    Ok (OStruct fields, c)
  else if tag =? TAG_LIST then
    let? '(elem, c) := rec c in
    Ok (OList elem, c)
  else if tag =? TAG_ENUM then
    let? '(n, c) := read_u32 c in
    let? '(vars, c) :=
      read_many (Z.to_nat n) (fun c =>
        let? '(val, c) := read_u32 c in
        let? '(name, c) := read_string c in
        Ok ((name, val), c)) c [] in
    Ok (OEnum vars, c)
  else Err DecodeError.

(** [decode_schema_at] recurses once per nested schema; [depth] is the number
    of stack frames available, and running out of them is a [Panic]. *)
Fixpoint decode_schema_at (depth : nat) (c : Cursor)
  : res UnispaceError (OwnedSchema * Cursor) :=
  match depth with
  | O => Panic
  | S depth =>
      let? '(tag, c) := read_u8 c in
      decode_schema_body (decode_schema_at depth) tag c
  end.

Definition decode_schema_bytes (depth : nat) (d : list Z)
  : res UnispaceError OwnedSchema :=
  let? '(s, c) := decode_schema_at depth (mkCursor d 0) in
  if negb (pos c =? Z.of_nat (length d)) then Err DecodeError else Ok s.

Definition decode_method_at (depth : nat) (c : Cursor)
  : res UnispaceError (string * OwnedSchema * OwnedSchema * Cursor) :=
  let? '(name, c) := read_string c in
  let? '(i, c) := decode_schema_at depth c in
  let? '(o, c) := decode_schema_at depth c in
  Ok (name, i, o, c).

Definition decode_method_bytes (depth : nat) (d : list Z)
  : res UnispaceError (string * OwnedSchema * OwnedSchema) :=
  let? '(m, c) := decode_method_at depth (mkCursor d 0) in
  if negb (pos c =? Z.of_nat (length d)) then Err DecodeError else Ok m.

Definition decode_object_bytes (depth : nat) (d : list Z)
  : res UnispaceError
      (Z * OwnedSchema * list (string * OwnedSchema * OwnedSchema)) :=
  let? '(kind, c) := read_u8 (mkCursor d 0) in
  let? '(value, c) := decode_schema_at depth c in
  let? '(n, c) := read_u32 c in
  let? '(methods, c) := read_many (Z.to_nat n) (decode_method_at depth) c [] in
  if negb (pos c =? Z.of_nat (length d)) then Err DecodeError
  else Ok (kind, value, methods).

(** ** Value decoding *)

Fixpoint decode_value_at (schema : Schema) (c : Cursor)
  : res UnispaceError (Value * Cursor) :=
  match schema with
  | Unit => Ok (VUnit, c)
  | Bool => let? '(b, c) := read_u8 c in Ok (VBool (negb (b =? 0)), c)
  | U8 => let? '(b, c) := read_u8 c in Ok (VU64 b, c)
  | U16 => let? '(n, c) := read_u32 c in Ok (VU64 (Z.land n 65535), c)
  | U32 => let? '(n, c) := read_u32 c in Ok (VU64 n, c)
  | U64 => let? '(n, c) := read_u64 c in Ok (VU64 n, c)
  | I8 => let? '(b, c) := read_u8 c in Ok (VI64 (to_signed 8 b), c)
  | I16 => let? '(n, c) := read_u32 c in Ok (VI64 (to_signed 16 n), c)
  | I32 => let? '(n, c) := read_u32 c in Ok (VI64 (to_signed 32 n), c)
  | I64 => let? '(n, c) := read_u64 c in Ok (VI64 (to_signed 64 n), c)
  | F32 => let? '(n, c) := read_u32 c in Ok (VF64 (f32_to_f64 n), c)
  | F64 => let? '(n, c) := read_u64 c in Ok (VF64 n, c)
  | Str => let? '(s, c) := read_string c in Ok (VStr s, c)
  | Bytes =>
      let? '(len, c) := read_u32 c in
      let? '(b, c) := read c len in
      Ok (VBytes b, c)
  | Blob =>
      let? '(b, c) := read c (Z.of_nat (length (data c)) - pos c) in
      Ok (VBytes b, c)
  | Struct fields =>
      let? '(vals, c) := read_fields decode_value_at fields c [] in
      Ok (VStruct vals, c)
  | List elem =>
      let? '(n, c) := read_u32 c in
      let? '(items, c) := read_many (Z.to_nat n) (decode_value_at elem) c [] in
      Ok (VList items, c)
  | Enum vars =>
      let? '(disc, c) := read_u32 c in
      if negb (existsb (fun v => v.2 =? disc) vars) then Err SchemaMismatch
      else Ok (VEnum disc, c)
  end.

Definition decode_value (d : list Z) (schema : Schema) : res UnispaceError Value :=
  let? '(v, c) := decode_value_at schema (mkCursor d 0) in
  if negb (pos c =? Z.of_nat (length d)) then Err DecodeError else Ok v.

Fixpoint decode_value_owned_at (schema : OwnedSchema) (c : Cursor)
  : res UnispaceError (Value * Cursor) :=
  match schema with
  | OUnit => Ok (VUnit, c)
  | OBool => let? '(b, c) := read_u8 c in Ok (VBool (negb (b =? 0)), c)
  | OU8 => let? '(b, c) := read_u8 c in Ok (VU64 b, c)
  | OU16 => let? '(n, c) := read_u32 c in Ok (VU64 (Z.land n 65535), c)
  | OU32 => let? '(n, c) := read_u32 c in Ok (VU64 n, c)
  | OU64 => let? '(n, c) := read_u64 c in Ok (VU64 n, c)
  | OI8 => let? '(b, c) := read_u8 c in Ok (VI64 (to_signed 8 b), c)
  | OI16 => let? '(n, c) := read_u32 c in Ok (VI64 (to_signed 16 n), c)
  | OI32 => let? '(n, c) := read_u32 c in Ok (VI64 (to_signed 32 n), c)
  | OI64 => let? '(n, c) := read_u64 c in Ok (VI64 (to_signed 64 n), c)
  | OF32 => let? '(n, c) := read_u32 c in Ok (VF64 (f32_to_f64 n), c)
  | OF64 => let? '(n, c) := read_u64 c in Ok (VF64 n, c)
  | OStr => let? '(s, c) := read_string c in Ok (VStr s, c)
  | OBytes =>
      let? '(len, c) := read_u32 c in
      let? '(b, c) := read c len in
      Ok (VBytes b, c)
  | OBlob =>
      let? '(b, c) := read c (Z.of_nat (length (data c)) - pos c) in
      Ok (VBytes b, c)
  | OStruct fields =>
      let? '(vals, c) := read_fields decode_value_owned_at fields c [] in
      Ok (VStruct vals, c)
  | OList elem =>
      let? '(n, c) := read_u32 c in
      let? '(items, c) :=
        read_many (Z.to_nat n) (decode_value_owned_at elem) c [] in
      Ok (VList items, c)
  | OEnum vars =>
      let? '(disc, c) := read_u32 c in
      if negb (existsb (fun v => v.2 =? disc) vars) then Err SchemaMismatch
      else Ok (VEnum disc, c)
  end.

Definition decode_value_owned (d : list Z) (schema : OwnedSchema)
  : res UnispaceError Value :=
  let? '(v, c) := decode_value_owned_at schema (mkCursor d 0) in
  if negb (pos c =? Z.of_nat (length d)) then Err DecodeError else Ok v.

(** ** Value encoding *)

(** [for it in items { enc(it, out)?; } Ok(())] *)
Fixpoint put_many {A} (enc : A -> list Z -> outcome) (items : list A)
  (out : list Z) : outcome :=
  match items with
  | [] => (out, Ok tt)
  | it :: items =>
      match enc it out with
      | (out, Ok _) => put_many enc items out
      | (out, r) => (out, r)
      end
  end.

Definition in_range (lo n hi : Z) : bool := (lo <=? n) && (n <=? hi).

Fixpoint encode_value_owned (v : Value) (schema : OwnedSchema) (out : list Z)
  {struct schema} : outcome :=
  match schema with
  | OUnit => match v with VUnit => (out, Ok tt) | _ => mismatch out end
  | OBool =>
      match v with VBool b => put out [Z.b2z b] | _ => mismatch out end
  | OU8 =>
      match v with
      | VU64 n => if n <=? 255 then put out [n mod 2 ^ 8] else mismatch out
      | _ => mismatch out
      end
  | OU16 =>
      match v with
      | VU64 n => if n <=? 65535 then put out (le_bytes 2 n) else mismatch out
      | _ => mismatch out
      end
  | OU32 =>
      match v with
      | VU64 n => if n <=? u32_max then put out (le_bytes 4 n) else mismatch out
      | _ => mismatch out
      end
  | OU64 => match v with VU64 n => put out (le_bytes 8 n) | _ => mismatch out end
  | OI8 =>
      match v with
      | VI64 n => if in_range (-128) n 127 then put out [n mod 2 ^ 8]
                  else mismatch out
      | _ => mismatch out
      end
  | OI16 =>
      match v with
      | VI64 n => if in_range (-32768) n 32767 then put out (le_bytes 2 n)
                  else mismatch out
      | _ => mismatch out
      end
  | OI32 =>
      match v with
      | VI64 n => if in_range (-2147483648) n 2147483647
                  then put out (le_bytes 4 n) else mismatch out
      | _ => mismatch out
      end
  | OI64 => match v with VI64 n => put out (le_bytes 8 n) | _ => mismatch out end
  | OF32 =>
      match v with
      | VF64 f => put out (le_bytes 4 (f64_to_f32 f))
      | _ => mismatch out
      end
  | OF64 => match v with VF64 f => put out (le_bytes 8 f) | _ => mismatch out end
  | OStr =>
      match v with VStr s => (write_len_string out s, Ok tt) | _ => mismatch out end
  | OBytes =>
      match v with
      | VBytes b => put out (le_bytes 4 (Z.of_nat (length b)) ++ b)
      | _ => mismatch out
      end
  | OBlob => match v with VBytes b => put out b | _ => mismatch out end
  | OStruct fields =>
      match v with
      | VStruct vals =>
          if negb (Nat.eqb (length vals) (length fields)) then mismatch out
          else put_fields encode_value_owned fields vals out
      | _ => mismatch out
      end
  | OList elem =>
      match v with
      | VList items =>
          put_many (fun it out => encode_value_owned it elem out) items
            (out ++ le_bytes 4 (Z.of_nat (length items)))
      | _ => mismatch out
      end
  | OEnum vars =>
      match v with
      | VEnum disc =>
          if negb (existsb (fun var => var.2 =? disc) vars) then mismatch out
          else put out (le_bytes 4 disc)
      | _ => mismatch out
      end
  end.

Fixpoint encode_value (v : Value) (schema : Schema) (out : list Z)
  {struct schema} : outcome :=
  match schema with
  | Unit => match v with VUnit => (out, Ok tt) | _ => mismatch out end
  | Bool =>
      match v with VBool b => put out [Z.b2z b] | _ => mismatch out end
  | U8 =>
      match v with
      | VU64 n => if n <=? 255 then put out [n mod 2 ^ 8] else mismatch out
      | _ => mismatch out
      end
  | U16 =>
      match v with
      | VU64 n => if n <=? 65535 then put out (le_bytes 2 n) else mismatch out
      | _ => mismatch out
      end
  | U32 =>
      match v with
      | VU64 n => if n <=? u32_max then put out (le_bytes 4 n) else mismatch out
      | _ => mismatch out
      end
  | U64 => match v with VU64 n => put out (le_bytes 8 n) | _ => mismatch out end
  | I8 =>
      match v with
      | VI64 n => if in_range (-128) n 127 then put out [n mod 2 ^ 8]
                  else mismatch out
      | _ => mismatch out
      end
  | I16 =>
      match v with
      | VI64 n => if in_range (-32768) n 32767 then put out (le_bytes 2 n)
                  else mismatch out
      | _ => mismatch out
      end
  | I32 =>
      match v with
      | VI64 n => if in_range (-2147483648) n 2147483647
                  then put out (le_bytes 4 n) else mismatch out
      | _ => mismatch out
      end
  | I64 => match v with VI64 n => put out (le_bytes 8 n) | _ => mismatch out end
  | F32 =>
      match v with
      | VF64 f => put out (le_bytes 4 (f64_to_f32 f))
      | _ => mismatch out
      end
  | F64 => match v with VF64 f => put out (le_bytes 8 f) | _ => mismatch out end
  | Str =>
      match v with VStr s => (write_len_string out s, Ok tt) | _ => mismatch out end
  | Bytes =>
      match v with
      | VBytes b => put out (le_bytes 4 (Z.of_nat (length b)) ++ b)
      | _ => mismatch out
      end
  | Blob => match v with VBytes b => put out b | _ => mismatch out end
  | Struct fields =>
      match v with
      | VStruct vals =>
          if negb (Nat.eqb (length vals) (length fields)) then mismatch out
          else put_fields encode_value fields vals out
      | _ => mismatch out
      end
  | List elem =>
      match v with
      | VList items =>
          put_many (fun it out => encode_value it elem out) items
            (out ++ le_bytes 4 (Z.of_nat (length items)))
      | _ => mismatch out
      end
  | Enum vars =>
      match v with
      | VEnum disc =>
          if negb (existsb (fun var => var.2 =? disc) vars) then mismatch out
          else put out (le_bytes 4 disc)
      | _ => mismatch out
      end
  end.

(** ** Text rendering *)

(** The digit loop of [u64_str]: [room] is the index [i] into the 20-byte
    buffer; a 21st digit would underflow it. *)
Fixpoint u64_str_loop (room : nat) (v : Z) (acc : string)
  : res UnispaceError string :=
  if v >? 0 then
    match room with
    | O => Panic
    | S room => u64_str_loop room (v / 10) (String (ascii_of_byte (48 + v mod 10)) acc)
    end
  else Ok acc.

Definition u64_str (n : Z) : res UnispaceError string :=
  if n =? 0 then Ok "0"%string else u64_str_loop 20 n EmptyString.

Definition i64_str (n : Z) : res UnispaceError string :=
  if n <? 0 then let? s := u64_str (Z.abs n) in Ok ("-" +:+ s)%string
  else u64_str n.

Fixpoint text_of_owned (s : OwnedSchema) : res UnispaceError string :=
  match s with
  | OUnit => Ok "unit"
  | OBool => Ok "bool"
  | OU8 => Ok "u8"
  | OU16 => Ok "u16"
  | OU32 => Ok "u32"
  | OU64 => Ok "u64"
  | OI8 => Ok "i8"
  | OI16 => Ok "i16"
  | OI32 => Ok "i32"
  | OI64 => Ok "i64"
  | OF32 => Ok "f32"
  | OF64 => Ok "f64"
  | OStr => Ok "str"
  | OBytes => Ok "bytes"
  | OBlob => Ok "blob"
  | OStruct fields =>
      (fix go (first : bool) (fs : list (string * OwnedSchema)) (t : string)
         : res UnispaceError string :=
         match fs with
         | [] => Ok (t +:+ "}")
         | (name, ty) :: fs =>
             let t := if first then t else t +:+ ", " in
             let? x := text_of_owned ty in
             go false fs (t +:+ name +:+ ": " +:+ x)
         end) true fields "struct{"
  | OList elem => let? x := text_of_owned elem in Ok ("list<" +:+ x +:+ ">")
  | OEnum vars =>
      (fix go (first : bool) (vs : list (string * Z)) (t : string)
         : res UnispaceError string :=
         match vs with
         | [] => Ok (t +:+ "}")
         | (name, val) :: vs =>
             let t := if first then t else t +:+ ", " in
             let? x := u64_str val in
             go false vs (t +:+ name +:+ "=" +:+ x)
         end) true vars "enum{"
  end%string.

Example text_ex :
  text_of_owned (OStruct [("pid", OU64); ("k", OEnum [("a", 0); ("b", 12)])])
  = Ok "struct{pid: u64, k: enum{a=0, b=12}}"%string.
Proof. vm_compute. reflexivity. Qed.

Example f32_one : f32_to_f64 1065353216 = 4607182418800017408
  /\ f64_to_f32 4607182418800017408 = 1065353216
  /\ f64_to_f32 (f32_to_f64 1) = 1 /\ f64_to_f32 (f32_to_f64 8388607) = 8388607.
Proof. vm_compute. auto. Qed.
