(* ===== verification/UniSchemaFacts.v ===== *)
(** * Properties of the unispace wire format

    Round trips of the schema and value codecs, agreement of the static and
    owned twins, absence of panics on hostile input, and the 16-bit asymmetry
    of the value codec. *)

From S2P Require Import Prelude Errors UniSchema.
Import Errors.Uni.
Local Open Scope Z_scope.

(** ** Induction over nested schemas *)

Section SchemaInd.
Context (P : Schema -> Prop).
Context (Hleaf : forall s,
  match s with Struct _ | List _ => False | _ => True end -> P s).
Context (Hstruct : forall fs, Forall (fun f => P f.2) fs -> P (Struct fs)).
Context (Hlist : forall s, P s -> P (List s)).

Fixpoint Schema_nested_ind (s : Schema) : P s :=
  match s with
  | Struct fs =>
      Hstruct fs ((fix go (l : list (string * Schema)) : Forall (fun f => P f.2) l :=
        match l with
        | [] => Forall_nil_2 _
        | f :: l => Forall_cons_2 _ _ _ (Schema_nested_ind f.2) (go l)
        end) fs)
  | List e => Hlist e (Schema_nested_ind e)
  | s => Hleaf s I
  end.
End SchemaInd.

(** The owned image of a static schema. *)
Fixpoint to_owned (s : Schema) : OwnedSchema :=
  match s with
  | Unit => OUnit | Bool => OBool | U8 => OU8 | U16 => OU16 | U32 => OU32
  | U64 => OU64 | I8 => OI8 | I16 => OI16 | I32 => OI32 | I64 => OI64
  | F32 => OF32 | F64 => OF64 | Str => OStr | Bytes => OBytes | Blob => OBlob
  | Struct fields => OStruct (map (fun f => (f.1, to_owned f.2)) fields)
  | List elem => OList (to_owned elem)
  | Enum vars => OEnum vars
  end.

(** ** The two copies of the codec agree *)

Lemma write_fields_ext {S T} (g : S -> T) enc1 enc2 fs out :
  Forall (fun f => forall out, enc1 f.2 out = enc2 (g f.2) out) fs ->
  write_fields enc1 fs out = write_fields enc2 (map (fun f => (f.1, g f.2)) fs) out.
Proof.
  intros H. revert out.
  induction H as [|[nm ty] fs Hf _ IH]; intros out; simpl; [done|].
  simpl in Hf. by rewrite Hf, IH.
Qed.

Lemma read_fields_ext {S T} (g : S -> T) dec1 dec2 fs c acc :
  Forall (fun f => forall c, dec1 f.2 c = dec2 (g f.2) c) fs ->
  read_fields dec1 fs c acc = read_fields dec2 (map (fun f => (f.1, g f.2)) fs) c acc.
Proof.
  intros H. revert c acc.
  induction H as [|[nm ty] fs Hf _ IH]; intros c acc; simpl; [done|].
  simpl in Hf. rewrite Hf. destruct (dec2 _ _) as [[v c']| |]; simpl; auto.
Qed.

Lemma put_fields_ext {S T} (g : S -> T) enc1 enc2 fs vs out :
  Forall (fun f => forall v out, enc1 v f.2 out = enc2 v (g f.2) out) fs ->
  put_fields enc1 fs vs out = put_fields enc2 (map (fun f => (f.1, g f.2)) fs) vs out.
Proof.
  intros H. revert vs out.
  induction H as [|[nm ty] fs Hf _ IH]; intros [|v vs] out; simpl; try done.
  simpl in Hf. rewrite Hf. destruct (enc2 _ _ _) as [o [[]| |]]; auto.
Qed.

Lemma read_many_ext {A} n (f g : Cursor -> res UnispaceError (A * Cursor)) c acc :
  (forall c, f c = g c) -> read_many n f c acc = read_many n g c acc.
Proof.
  intros H. revert c acc. induction n as [|n IH]; intros c acc; simpl; [done|].
  rewrite H. destruct (g c) as [[a c']| |]; simpl; auto.
Qed.

Lemma put_many_ext {A} (f g : A -> list Z -> outcome) items out :
  (forall a out, f a out = g a out) -> put_many f items out = put_many g items out.
Proof.
  intros H. revert out. induction items as [|a l IH]; intros out; simpl; [done|].
  rewrite H. destruct (g a out) as [o [[]| |]]; auto.
Qed.

Lemma encode_schema_to_owned s out :
  encode_schema_owned (to_owned s) out = encode_schema s out.
Proof.
  revert out. induction s as [s Hs|fs IH|e IH] using Schema_nested_ind; intros out.
  - destruct s; try done. simpl. by rewrite <- app_assoc.
  - simpl. rewrite length_map. symmetry. apply write_fields_ext.
    eapply Forall_impl; [exact IH|]. intros f Hf o. by rewrite Hf.
  - simpl. apply IH.
Qed.

Lemma decode_value_at_to_owned s c :
  decode_value_owned_at (to_owned s) c = decode_value_at s c.
Proof.
  revert c. induction s as [s Hs|fs IH|e IH] using Schema_nested_ind; intros c.
  - by destruct s.
  - simpl. f_equal. symmetry. apply read_fields_ext.
    eapply Forall_impl; [exact IH|]. intros f Hf c'. by rewrite Hf.
  - simpl. destruct (read_u32 c) as [[n c']| |]; simpl; [|done..].
    by rewrite (read_many_ext _ _ _ _ _ IH).
Qed.

Lemma encode_value_to_owned s v out :
  encode_value_owned v (to_owned s) out = encode_value v s out.
Proof.
  revert v out. induction s as [s Hs|fs IH|e IH] using Schema_nested_ind; intros v out.
  - by destruct s.
  - simpl. destruct v; try done. rewrite length_map.
    destruct (negb _); [done|]. symmetry. apply put_fields_ext.
    eapply Forall_impl; [exact IH|]. intros f Hf v o. by rewrite Hf.
  - simpl. destruct v; try done. apply put_many_ext. intros; apply IH.
Qed.

(** A runtime-declared object that carries the owned copy of a schema
    behaves on the wire exactly like the statically declared one: the schema
    bytes, the decoded payloads (errors included) and the encoded payloads
    (partial output on error included) coincide. *)
Theorem owned_codec_equiv (s : Schema) :
  (forall out, encode_schema_owned (to_owned s) out = encode_schema s out)
  /\ (forall d, decode_value_owned d (to_owned s) = decode_value d s)
  /\ (forall v out, encode_value_owned v (to_owned s) out = encode_value v s out).
Proof.
  split_and!; intros.
  - apply encode_schema_to_owned.
  - unfold decode_value_owned, decode_value. by rewrite decode_value_at_to_owned.
  - apply encode_value_to_owned.
Qed.

(** ** Reading what was written *)

(** A cursor standing after [pre], with [rest] left to read. *)
Definition at_ (pre rest : list Z) : Cursor :=
  mkCursor (pre ++ rest) (Z.of_nat (length pre)).

(** [dec] consumes exactly [enc] and yields [a]; with [tail], only when nothing
    follows (a [Blob] takes the whole remaining payload). *)
Definition reads {A} (tail : bool) (dec : Cursor -> res UnispaceError (A * Cursor))
  (enc : list Z) (a : A) : Prop :=
  forall pre rest, (tail = true -> rest = []) ->
    Z.of_nat (length (pre ++ enc ++ rest)) <= u64_max ->
    dec (at_ pre (enc ++ rest)) = Ok (a, at_ (pre ++ enc) rest).

Lemma read_at (pre bs rest : list Z) :
  Z.of_nat (length (pre ++ bs ++ rest)) <= u64_max ->
  read (at_ pre (bs ++ rest)) (Z.of_nat (length bs)) = Ok (bs, at_ (pre ++ bs) rest).
Proof.
  intros Hfit. rewrite !length_app in Hfit. unfold read, at_, checked_add_u64; simpl.
  destruct (_ <=? _) eqn:C1; [|lia]. simpl. rewrite !length_app.
  destruct (_ <? _) eqn:C2; [lia|]. rewrite get_range_app.
  unfold set_pos; simpl. by rewrite <- app_assoc, Nat2Z.inj_add.
Qed.

Lemma reads_pure {A} t (a : A) : reads t (fun c => Ok (a, c)) [] a.
Proof. intros pre rest _ _. by rewrite app_nil_r. Qed.

Lemma reads_bind {A B} t (dec : Cursor -> res UnispaceError (A * Cursor))
  (k : A -> Cursor -> res UnispaceError (B * Cursor)) e1 e2 a b :
  reads false dec e1 a -> reads t (k a) e2 b ->
  reads t (fun c => let? '(x, c) := dec c in k x c) (e1 ++ e2) b.
Proof.
  intros H1 H2 pre rest Ht Hfit. rewrite <- app_assoc in *.
  rewrite H1 by done. simpl.
  rewrite H2; [by rewrite app_assoc | done | by rewrite <- app_assoc].
Qed.

(** A decoder followed by a pure map of its result. *)
Lemma reads_ret {A B} t (dec : Cursor -> res UnispaceError (A * Cursor)) (f : A -> B) e a :
  reads t dec e a -> reads t (fun c => let? '(x, c) := dec c in Ok (f x, c)) e (f a).
Proof. intros H pre rest Ht Hfit. by rewrite H. Qed.

Lemma reads_weaken {A} t (dec : Cursor -> res UnispaceError (A * Cursor)) e a :
  reads false dec e a -> reads t dec e a.
Proof. intros H pre rest _ Hfit. by apply H. Qed.

Lemma reads_read n (bs : list Z) :
  n = Z.of_nat (length bs) -> reads false (fun c => read c n) bs bs.
Proof. intros -> pre rest _ Hfit. by apply read_at. Qed.

Lemma reads_u8 b : reads false read_u8 [b] b.
Proof.
  intros pre rest Ht Hfit. unfold read_u8.
  by rewrite (reads_read 1 [b]) by done.
Qed.

Lemma reads_u32 n : 0 <= n <= u32_max -> reads false read_u32 (le_bytes 4 n) n.
Proof.
  intros Hn pre rest Ht Hfit. unfold read_u32.
  rewrite (reads_read 4 (le_bytes 4 n)) by done. cbn [res_bind].
  rewrite le_val_le_bytes, Z.mod_small; [done|]. unfold u32_max in Hn. lia.
Qed.

Lemma reads_u64_raw n : reads false read_u64 (le_bytes 8 n) (n mod 2 ^ 64).
Proof.
  intros pre rest Ht Hfit. unfold read_u64.
  rewrite (reads_read 8 (le_bytes 8 n)) by done. cbn [res_bind].
  by rewrite le_val_le_bytes.
Qed.

Lemma reads_u32_raw n : reads false read_u32 (le_bytes 4 n) (n mod 2 ^ 32).
Proof.
  intros pre rest Ht Hfit. unfold read_u32.
  rewrite (reads_read 4 (le_bytes 4 n)) by done. cbn [res_bind].
  by rewrite le_val_le_bytes.
Qed.

(** Strings the wire can carry: valid UTF-8 of at most [u32::MAX] bytes. *)
Definition wire_string (s : string) : bool :=
  utf8_valid (bytes_of_string s) && (Z.of_nat (String.length s) <=? u32_max).

Lemma reads_string s : wire_string s = true ->
  reads false read_string (write_len_string [] s) s.
Proof.
  unfold wire_string. intros Hs. apply andb_true_iff in Hs as [Hu Hl].
  unfold read_string, write_len_string. rewrite app_nil_l.
  eapply reads_bind; [apply reads_u32; lia|].
  rewrite <- (app_nil_r (bytes_of_string s)). eapply reads_bind.
  - apply reads_read. by rewrite length_bytes_of_string.
  - unfold from_utf8. rewrite Hu. cbn [ok_or res_bind].
    rewrite string_of_bytes_of_string. apply reads_pure.
Qed.

Lemma write_len_string_app out s :
  write_len_string out s = out ++ write_len_string [] s.
Proof. done. Qed.

(** Reading [n] elements one after the other. *)
Lemma reads_many {A} (step : Cursor -> res UnispaceError (A * Cursor))
  (encs : list (list Z)) (items acc : list A) n :
  n = length items -> Forall2 (fun e a => reads false step e a) encs items ->
  reads false (fun c => read_many n step c acc) (concat encs) (acc ++ items).
Proof.
  intros -> H. revert acc.
  induction H as [|e a encs items He _ IH]; intros acc; simpl.
  - rewrite app_nil_r. apply reads_pure.
  - apply (reads_bind (A := A) _ step (fun a c => read_many _ step c (acc ++ [a])))
      with (a := a); [done|].
    replace (acc ++ a :: items) with ((acc ++ [a]) ++ items) by by rewrite <- app_assoc.
    apply IH.
Qed.

(** ** Value round trip *)

Section FieldPreds.
Context {S : Type}.

(** Every field but the last satisfies [p false], the last [p tail]. *)
Definition tail_fields (p : bool -> S -> bool) (tail : bool)
  : list (string * S) -> bool :=
  fix go fs :=
    match fs with
    | [] => true
    | f :: fs => p (match fs with [] => tail | _ => false end) f.2 && go fs
    end.

(** Fields and values pairwise satisfy [p]. *)
Definition fields_forall2 (p : S -> Value -> bool)
  : list (string * S) -> list Value -> bool :=
  fix go fs vs :=
    match fs, vs with
    | f :: fs, v :: vs => p f.2 v && go fs vs
    | _, _ => true
    end.
End FieldPreds.

(** Schemas whose encoding is self-delimiting up to a final [Blob], and which
    do not use the 16-bit integers. *)
Fixpoint wire_schema (tail : bool) (s : Schema) : bool :=
  match s with
  | U16 | I16 => false
  | Blob => tail
  | Struct fs => tail_fields wire_schema tail fs
  | List e => wire_schema false e
  | _ => true
  end.

(** The ranges the Rust types of a [Value] guarantee, lengths that fit the
    wire's 32-bit length prefix, and, at [F32], a value that is exact in single
    precision. *)
Fixpoint wire_value (s : Schema) (v : Value) : bool :=
  match s, v with
  | U8, VU64 n | U32, VU64 n | U64, VU64 n => in_range 0 n u64_max
  | I8, VI64 n | I32, VI64 n | I64, VI64 n => in_range i64_min n i64_max
  | F32, VF64 f => in_range 0 (f64_to_f32 f) u32_max && (f32_to_f64 (f64_to_f32 f) =? f)
  | F64, VF64 f => in_range 0 f u64_max
  | Str, VStr s => wire_string s
  | Bytes, VBytes b => Z.of_nat (length b) <=? u32_max
  | Struct fs, VStruct vs => fields_forall2 wire_value fs vs
  | List e, VList l => (Z.of_nat (length l) <=? u32_max) && forallb (wire_value e) l
  | Enum _, VEnum d => in_range 0 d u32_max
  | _, _ => true
  end.

(** [enc] is what encoding [v] appends, and decoding it gives [v] back. *)
Definition roundtrips (tail : bool) (s : Schema) (v : Value) : Prop :=
  forall out out', encode_value v s out = (out', Ok tt) ->
  exists enc, out' = out ++ enc /\ reads tail (decode_value_at s) enc v.

Lemma put_Ok out bs out' : put out bs = (out', Ok tt) -> out' = out ++ bs.
Proof. unfold put. congruence. Qed.

Lemma mismatch_Ok out out' : mismatch out = (out', Ok tt) -> False.
Proof. unfold mismatch. congruence. Qed.

Lemma put_many_Ok {A} (enc : A -> list Z -> outcome) (step : Cursor -> _) items :
  Forall (fun a => forall out out', enc a out = (out', Ok tt) ->
     exists e, out' = out ++ e /\ reads false step e a) items ->
  forall out out', put_many enc items out = (out', Ok tt) ->
  exists encs, out' = out ++ concat encs
    /\ Forall2 (fun e a => reads false step e a) encs items.
Proof.
  induction 1 as [|a l Ha _ IH]; intros out out' H; simpl in H.
  - exists []. simplify_eq. by rewrite app_nil_r.
  - destruct (enc a out) as [o [[]| |]] eqn:E; [|done..].
    apply Ha in E as (e & -> & He). apply IH in H as (es & -> & Hes).
    exists (e :: es). split; [by rewrite <- app_assoc|by constructor].
Qed.

Lemma put_fields_Ok tail (fs : list (string * Schema)) :
  Forall (fun f => forall t v, wire_schema t f.2 = true -> wire_value f.2 v = true ->
     roundtrips t f.2 v) fs ->
  tail_fields wire_schema tail fs = true ->
  forall vs acc out out', length vs = length fs ->
  fields_forall2 wire_value fs vs = true ->
  put_fields encode_value fs vs out = (out', Ok tt) ->
  exists enc, out' = out ++ enc
    /\ reads tail (fun c => read_fields decode_value_at fs c acc) enc (acc ++ vs).
Proof.
  induction 1 as [|[nm ty] fs Hf _ IH]; intros Ht [|v vs] acc out out' Hlen Hv H;
    try done; simpl in *.
  - exists []. simplify_eq. rewrite !app_nil_r. split; [done|apply reads_pure].
  - apply andb_true_iff in Ht as [Ht1 Ht2]. apply andb_true_iff in Hv as [Hv1 Hv2].
    destruct (encode_value v ty out) as [o [[]| |]] eqn:E; [|done..].
    apply (Hf _ _ Ht1 Hv1) in E as (e & -> & He).
    injection Hlen as Hlen.
    specialize (IH Ht2 vs (acc ++ [v]) _ _ Hlen Hv2 H) as (e2 & -> & He2).
    exists (e ++ e2). split; [by rewrite <- app_assoc|].
    replace (acc ++ v :: vs) with ((acc ++ [v]) ++ vs) by by rewrite <- app_assoc.
    destruct fs as [|f fs].
    + destruct vs; [|done]. simpl in H. apply (f_equal fst) in H. simpl in H.
      assert (e2 = []) as -> by (apply (app_inv_head (out ++ e)); by rewrite app_nil_r).
      rewrite !app_nil_r. intros pre rest Hr Hfit. simpl.
      rewrite He by done. done.
    + eapply reads_bind; [exact He|exact He2].
Qed.

Lemma reads_signed w n (read_w : Cursor -> res UnispaceError (Z * Cursor)) enc :
  0 < w -> - 2 ^ (w - 1) <= n < 2 ^ (w - 1) -> reads false read_w enc (n mod 2 ^ w) ->
  reads false (fun c => let? '(x, c) := read_w c in Ok (VI64 (to_signed w x), c))
    enc (VI64 n).
Proof.
  intros Hw Hn H. replace (VI64 n) with (VI64 (to_signed w (n mod 2 ^ w)))
    by (by rewrite to_signed_small).
  by apply reads_ret with (f := fun x => VI64 (to_signed w x)).
Qed.

Lemma leaf_roundtrips t s v :
  match s with Struct _ | List _ => False | _ => True end ->
  wire_schema t s = true -> wire_value s v = true -> roundtrips t s v.
Proof.
  intros Hs Ht Hv out out' H.
  destruct s; try contradiction; try discriminate Ht;
    destruct v; cbn [encode_value wire_schema wire_value] in *;
    try (exfalso; exact (mismatch_Ok _ _ H));
    repeat match type of H with
    | (if ?b then _ else _) = _ =>
        let C := fresh "C" in destruct b eqn:C; [|destruct (mismatch_Ok _ _ H)]
    end; try apply put_Ok in H.
  - exists []. simplify_eq. rewrite app_nil_r. split; [done|apply reads_pure].
  - exists [Z.b2z b]. split; [done|]. apply reads_weaken.
    replace (VBool b) with (VBool (negb (Z.b2z b =? 0))) by by destruct b.
    exact (reads_ret _ _ (fun x => VBool (negb (x =? 0))) _ _ (reads_u8 _)).
  - eexists; split; [done|]. apply reads_weaken. unfold in_range in Hv.
    rewrite Z.mod_small by lia. exact (reads_ret _ _ VU64 _ _ (reads_u8 _)).
  - eexists; split; [done|]. apply reads_weaken. unfold in_range in Hv.
    apply reads_ret with (f := VU64), reads_u32. lia.
  - eexists; split; [done|]. apply reads_weaken. unfold in_range, u64_max in Hv.
    rewrite <- (Z.mod_small n (2 ^ 64)) at 2 by lia.
    apply reads_ret with (f := VU64), reads_u64_raw.
  - eexists; split; [done|]. apply reads_weaken. unfold in_range in C.
    apply reads_signed; [lia..|]. apply reads_u8.
  - eexists; split; [done|]. apply reads_weaken. unfold in_range in C.
    apply reads_signed; [lia..|]. apply reads_u32_raw.
  - eexists; split; [done|]. apply reads_weaken.
    unfold in_range, i64_min, i64_max in Hv.
    apply reads_signed; [lia..|]. apply reads_u64_raw.
  - eexists; split; [done|]. apply reads_weaken.
    apply andb_true_iff in Hv as [Hr Hv]. apply Z.eqb_eq in Hv.
    rewrite <- Hv at 2.
    apply reads_ret with (f := fun x => VF64 (f32_to_f64 x)), reads_u32. unfold in_range in Hr. lia.
  - eexists; split; [done|]. apply reads_weaken. unfold in_range, u64_max in Hv.
    rewrite <- (Z.mod_small bits (2 ^ 64)) at 2 by lia.
    apply reads_ret with (f := VF64), reads_u64_raw.
  - simplify_eq. eexists; split; [apply write_len_string_app|]. apply reads_weaken.
    by apply reads_ret with (f := VStr), reads_string.
  - eexists; split; [done|]. apply reads_weaken.
    eapply reads_bind; [apply reads_u32; lia|].
    by apply reads_ret with (f := VBytes), reads_read.
  - eexists; split; [done|]. destruct t; [|done].
    intros pre rest Hr Hfit. specialize (Hr eq_refl) as ->.
    pose proof (reads_read _ b eq_refl pre [] ltac:(done) Hfit) as HR.
    rewrite app_nil_r in *. cbn [decode_value_at].
    replace (Z.of_nat (length (data (at_ pre b))) - pos (at_ pre b))
      with (Z.of_nat (length b)) by (unfold at_; simpl; rewrite length_app; lia).
    by rewrite HR.
  - destruct (negb _) eqn:C'; [by apply mismatch_Ok in H|]. apply put_Ok in H.
    eexists; split; [done|]. apply reads_weaken. unfold in_range in Hv.
    rewrite <- (app_nil_r (le_bytes 4 d)).
    eapply reads_bind; [apply reads_u32; lia|]. simpl. rewrite C'. apply reads_pure.
Qed.

Lemma all_roundtrip s t v :
  wire_schema t s = true -> wire_value s v = true -> roundtrips t s v.
Proof.
  revert t v. induction s as [s Hs|fs IH|e IH] using Schema_nested_ind; intros t v Ht Hv.
  - by apply leaf_roundtrips.
  - intros out out' H. simpl in *. destruct v; try by apply mismatch_Ok in H.
    destruct (negb _) eqn:C; [by apply mismatch_Ok in H|].
    apply negb_false_iff, Nat.eqb_eq in C.
    eapply (put_fields_Ok t fs IH Ht _ []) in H as (enc & -> & He); [|done..].
    exists enc. split; [done|]. by apply reads_ret with (f := VStruct).
  - intros out out' H. simpl in *. destruct v; try by apply mismatch_Ok in H.
    apply andb_true_iff in Hv as [Hl Hv].
    apply (put_many_Ok _ (decode_value_at e)) in H as (encs & -> & He).
    + exists (le_bytes 4 (Z.of_nat (length items)) ++ concat encs).
      split; [by rewrite <- app_assoc|]. apply reads_weaken.
      eapply reads_bind; [apply reads_u32; lia|].
      apply reads_ret with (f := VList), (reads_many _ _ _ []); [by rewrite Nat2Z.id|done].
    + rewrite forallb_forall in Hv. apply Forall_forall. intros a Ha o o'.
      apply IH; [done|]. by apply Hv, list_elem_of_In.
Qed.

(** C18: the payload codec round-trips: whatever value [encode_value] accepts
    for a schema without 16-bit integers and with [Blob] only in final
    position, [decode_value] reads the produced bytes back to the same value
    and consumes them all.  Integers are in the ranges of their Rust types, the lengths
    of strings, byte strings and lists fit the 32 bits of the wire, and a value for [F32]
    is exact in single precision. *)
Theorem value_roundtrip (s : Schema) (v : Value) (bs : list Z) :
  wire_schema true s = true -> wire_value s v = true ->
  encode_value v s [] = (bs, Ok tt) -> Z.of_nat (length bs) <= u64_max ->
  decode_value bs s = Ok v.
Proof.
  intros Hs Hv H Hfit. apply all_roundtrip with (t := true) in H as (enc & -> & He); [|done..].
  specialize (He [] [] (fun _ => eq_refl)). simpl in He. rewrite !app_nil_r in He.
  unfold decode_value. unfold at_ in He. rewrite app_nil_r in He.
  change (Z.of_nat (length [])) with 0 in He. rewrite app_nil_l in *.
  rewrite He by done. cbn [res_bind pos]. by rewrite Z.eqb_refl.
Qed.

Lemma value_roundtrip_witness :
  decode_value (encode_value
    (VStruct [VU64 7; VI64 (-2); VStr "ab"; VList [VBool true; VBool false]; VBytes [9; 8]])
    (Struct [("pid", U64); ("d", I32); ("n", Str); ("l", List Bool); ("b", Blob)]) []).1
    (Struct [("pid", U64); ("d", I32); ("n", Str); ("l", List Bool); ("b", Blob)])
  = Ok (VStruct [VU64 7; VI64 (-2); VStr "ab"; VList [VBool true; VBool false]; VBytes [9; 8]]).
Proof.
  eapply value_roundtrip; [reflexivity|vm_compute; reflexivity|reflexivity|].
  vm_compute. discriminate.
Defined.

(** The 16-bit integers do not round-trip: [encode_value] writes two bytes
    for [U16]/[I16] and [decode_value] reads four, so every encoded 16-bit
    value is rejected by the decoder. *)
Theorem u16_i16_do_not_roundtrip (n : Z) :
  (0 <= n <= 65535 -> encode_value (VU64 n) U16 [] = (le_bytes 2 n, Ok tt)
     /\ decode_value (le_bytes 2 n) U16 = Err DecodeError)
  /\ (-32768 <= n <= 32767 -> encode_value (VI64 n) I16 [] = (le_bytes 2 n, Ok tt)
     /\ decode_value (le_bytes 2 n) I16 = Err DecodeError).
Proof.
  split; intros Hn; split; try reflexivity; simpl.
  - by rewrite (proj2 (Z.leb_le n 65535)) by lia.
  - unfold in_range. rewrite (proj2 (Z.leb_le _ n)), (proj2 (Z.leb_le n _)) by lia. done.
Qed.

(** ** No panic on hostile payloads *)

Definition cursor_ok (c : Cursor) : Prop :=
  bytes_ok (data c) /\ 0 <= pos c <= Z.of_nat (length (data c)).

(** [c'] reads the same buffer as [c], at least [k] bytes further. *)
Definition advanced (k : Z) (c c' : Cursor) : Prop :=
  cursor_ok c' /\ data c' = data c /\ pos c + k <= pos c'.

(** From [c], [m] is not a panic, and success advances by at least [k]. *)
Definition safe {A} (k : Z) (c : Cursor) (m : res UnispaceError (A * Cursor)) : Prop :=
  match m with Ok (_, c') => advanced k c c' | Err _ => True | Panic => False end.
#[local] Arguments safe : simpl never.

Lemma safe_no_panic {A} k c (m : res UnispaceError (A * Cursor)) : safe k c m -> no_panic m.
Proof. by destruct m. Qed.

Lemma safe_mono {A} j k c (m : res UnispaceError (A * Cursor)) : j <= k -> safe k c m -> safe j c m.
Proof. destruct m as [[a c']| |]; unfold safe, advanced; intuition lia. Qed.

Lemma safe_bind {A B} j k c (m : res UnispaceError (A * Cursor)) (f : A * Cursor -> res UnispaceError (B * Cursor)) :
  safe j c m -> (forall a c', m = Ok (a, c') -> advanced j c c' -> safe k c' (f (a, c'))) ->
  safe (j + k) c (res_bind m f).
Proof.
  destruct m as [[a c']| |]; simpl; try done. intros Hm Hf.
  specialize (Hf a c' eq_refl Hm). unfold safe in *.
  destruct (f (a, c')) as [[b c'']| |]; try done.
  destruct Hm as (_ & Hd & Hp). destruct Hf as (Hok & Hd' & Hp').
  split_and!; [done|congruence|lia].
Qed.

Lemma safe_ret {A} c (a : A) : cursor_ok c -> safe 0 c (Ok (a, c)).
Proof. unfold safe, advanced. intuition lia. Qed.

Lemma read_safe c n : cursor_ok c -> 0 <= n ->
  match read c n with
  | Ok (bs, c') => advanced n c c' /\ bytes_ok bs /\ Z.of_nat (length bs) = n
  | Err _ => True
  | Panic => False
  end.
Proof.
  intros [Hb Hp] Hn. unfold read, checked_add_u64.
  destruct (_ <=? _) eqn:C1; simpl; [|done].
  destruct (_ <? _) eqn:C2; [done|].
  destruct (get_range_is_Some (data c) (pos c) n) as [s Hs]; [lia..|]. rewrite Hs.
  unfold advanced, cursor_ok, set_pos; simpl.
  split_and!; [done|lia..|done|lia| |].
  - by eapply get_range_bytes_ok.
  - by eapply get_range_length.
Qed.

Lemma read_u8_safe c : cursor_ok c -> safe 1 c (read_u8 c).
Proof.
  intros Hc. pose proof (read_safe c 1 Hc ltac:(lia)) as H. unfold read_u8.
  destruct (read c 1) as [[bs c']| |]; simpl; try done. destruct H as (Ha & _ & Hl).
  destruct bs as [|b [|]]; simpl in *; [lia|done|lia].
Qed.

(** The integers read are non-negative, as [u32]/[u64] are. *)
Lemma read_le_safe c n : cursor_ok c -> 0 <= n ->
  match read c n with
  | Ok (bs, c') => advanced n c c' /\ 0 <= le_val bs
  | Err _ => True
  | Panic => False
  end.
Proof.
  intros Hc Hn. pose proof (read_safe c n Hc Hn) as H.
  destruct (read c n) as [[bs c']| |]; try done. destruct H as (Ha & Hb & _).
  split; [done|]. pose proof (le_val_bound bs Hb). lia.
Qed.

Lemma read_u32_safe c : cursor_ok c ->
  safe 4 c (read_u32 c) /\ forall n c', read_u32 c = Ok (n, c') -> 0 <= n.
Proof.
  intros Hc. pose proof (read_le_safe c 4 Hc ltac:(lia)) as H. unfold read_u32.
  destruct (read c 4) as [[bs c']| |]; simpl; try done. destruct H. naive_solver.
Qed.

Lemma read_u64_safe c : cursor_ok c -> safe 8 c (read_u64 c).
Proof.
  intros Hc. pose proof (read_le_safe c 8 Hc ltac:(lia)) as H. unfold read_u64.
  destruct (read c 8) as [[bs c']| |]; simpl; try done. by destruct H.
Qed.

Lemma read_bytes_safe c n : cursor_ok c -> 0 <= n -> safe 0 c (read c n).
Proof.
  intros Hc Hn. pose proof (read_safe c n Hc Hn) as H.
  destruct (read c n) as [[bs c']| |]; simpl; try done. destruct H as (Ha & _ & _).
  unfold safe, advanced in *. intuition lia.
Qed.

Lemma read_string_safe c : cursor_ok c -> safe 4 c (read_string c).
Proof.
  intros Hc. destruct (read_u32_safe c Hc) as [Hs Hn]. unfold read_string.
  apply (safe_bind 4 0); [done|]. intros n c' E Ha. specialize (Hn _ _ E).
  apply (safe_bind 0 0); [apply read_bytes_safe; [apply Ha|done]|].
  intros bs c'' _ Ha'. destruct (from_utf8 bs); cbn [ok_or res_bind]; [|done].
  apply safe_ret, Ha'.
Qed.

Lemma read_many_safe {A} n (step : Cursor -> res UnispaceError (A * Cursor)) c acc :
  (forall c', advanced 0 c c' -> safe 0 c' (step c')) -> cursor_ok c ->
  safe 0 c (read_many n step c acc).
Proof.
  revert c acc. induction n as [|n IH]; intros c acc Hstep Hc; simpl; [by apply safe_ret|].
  apply (safe_bind 0 0).
  - apply Hstep. unfold advanced. intuition lia.
  - intros a c' _ Ha. apply IH; [|apply Ha]. intros c'' Ha'. apply Hstep.
    destruct Ha as (_ & Hd & Hp), Ha' as (Hok & Hd' & Hp').
    split_and!; [done|congruence|lia].
Qed.

Lemma read_fields_safe {S} (dec : S -> Cursor -> res UnispaceError (Value * Cursor)) fs c acc :
  Forall (fun f => forall c, cursor_ok c -> safe 0 c (dec f.2 c)) fs -> cursor_ok c ->
  safe 0 c (read_fields dec fs c acc).
Proof.
  intros H. revert c acc. induction H as [|[nm ty] fs Hf _ IH]; intros c acc Hc; simpl;
    [by apply safe_ret|].
  apply (safe_bind 0 0); [by apply Hf|]. intros v c' _ Ha. apply IH, Ha.
Qed.

(** A reader of an integer followed by a pure conversion. *)
Lemma safe_then_ret {A B} k c (m : res UnispaceError (A * Cursor)) (f : A -> B) :
  0 <= k -> safe k c m -> safe 0 c (let? '(x, c) := m in Ok (f x, c)).
Proof.
  intros Hk H. apply (safe_mono _ (k + 0)); [lia|]. apply (safe_bind k 0); [done|].
  intros a c' _ Ha. apply safe_ret, Ha.
Qed.

Lemma decode_value_at_safe s c : cursor_ok c -> safe 0 c (decode_value_at s c).
Proof.
  revert c. induction s as [s Hs|fs IH|e IH] using Schema_nested_ind; intros c Hc.
  - pose proof (read_u8_safe c Hc) as H8. destruct (read_u32_safe c Hc) as [H32 Hn].
    pose proof (read_u64_safe c Hc) as H64. pose proof (read_string_safe c Hc) as HS.
    destruct s; try contradiction; cbn [decode_value_at];
      try (eapply safe_then_ret; [|eassumption]; lia).
    + by apply safe_ret.
    + apply (safe_mono _ (4 + 0)); [lia|]. apply safe_bind; [done|]. intros n c' E Ha.
      eapply safe_then_ret; [|apply read_bytes_safe; [apply Ha|by eapply Hn]]; lia.
    + eapply safe_then_ret; [|apply read_bytes_safe; [done|]]; [done|].
      destruct Hc; lia.
    + apply (safe_mono _ (4 + 0)); [lia|]. apply safe_bind; [done|]. intros n c' E Ha.
      destruct (negb _); [done|]. apply safe_ret, Ha.
  - cbn [decode_value_at]. apply (safe_then_ret 0); [done|]. by apply read_fields_safe.
  - cbn [decode_value_at]. destruct (read_u32_safe c Hc) as [H32 _].
    apply (safe_mono _ (4 + 0)); [lia|]. apply safe_bind; [done|]. intros n c' E Ha.
    apply (safe_then_ret 0); [done|]. apply read_many_safe; [|apply Ha].
    intros c'' Ha'. apply IH, Ha'.
Qed.

(** Decoding a payload never panics: for every schema and every byte
    string a caller can submit, [decode_value] returns a value or an error. *)
Theorem decode_value_no_panic (s : Schema) (d : list Z) :
  bytes_ok d -> no_panic (decode_value d s).
Proof.
  intros Hd. unfold decode_value.
  assert (cursor_ok (mkCursor d 0)) as Hc by (split; simpl; [done|lia]).
  apply res_bind_no_panic; [eapply safe_no_panic, decode_value_at_safe, Hc|].
  intros [v c] _. destruct (negb _); auto with bedrock.
Qed.

Lemma decode_value_no_panic_witness :
  no_panic (decode_value [255; 255; 255; 255; 3] (List (Struct [("s", Str); ("n", I64)]))).
Proof.
  apply decode_value_no_panic. repeat constructor; unfold byte_ok; lia.
Defined.

(** ** Schema decoding: stack depth and round trip *)

Definition remaining (c : Cursor) : Z := Z.of_nat (length (data c)) - pos c.

Lemma advanced_remaining k c c' : advanced k c c' -> remaining c' <= remaining c - k.
Proof. unfold advanced, remaining. intros (_ & -> & ?). lia. Qed.

Lemma advanced_trans j k c c' c'' : advanced j c c' -> advanced k c' c'' -> advanced (j + k) c c''.
Proof. intros (_ & Hd & Hp) (Hok & Hd' & Hp'). split_and!; [done|congruence|lia]. Qed.

Lemma decode_schema_at_safe depth c :
  cursor_ok c -> remaining c < Z.of_nat depth -> safe 1 c (decode_schema_at depth c).
Proof.
  revert c. induction depth as [|depth IH]; intros c Hc Hr;
    [destruct Hc; unfold remaining in Hr; simpl in Hr; lia|].
  cbn [decode_schema_at]. apply (safe_bind 1 0); [by apply read_u8_safe|].
  intros tag c1 _ Ha1. pose proof (advanced_remaining _ _ _ Ha1) as Hr1.
  destruct Ha1 as [Hc1 _]. unfold decode_schema_body.
  repeat (case_match; [by apply safe_ret|]).
  destruct (read_u32_safe c1 Hc1) as [H32 _].
  case_match; [|case_match; [|case_match; [|done]]].
  - apply (safe_mono _ (4 + 0)); [lia|]. apply safe_bind; [done|]. intros n c2 _ Ha2.
    pose proof (advanced_remaining _ _ _ Ha2) as Hr2.
    apply (safe_then_ret 0); [done|]. apply read_many_safe; [|apply Ha2].
    intros c3 Ha3. pose proof (advanced_remaining _ _ _ Ha3) as Hr3.
    apply (safe_mono _ (4 + (1 + 0))); [lia|].
    apply safe_bind; [apply read_string_safe, Ha3|]. intros nm c4 _ Ha4.
    pose proof (advanced_remaining _ _ _ Ha4) as Hr4.
    apply safe_bind; [apply IH; [apply Ha4|lia]|].
    intros ty c5 _ Ha5. apply safe_ret, Ha5.
  - apply (safe_then_ret 1); [lia|]. apply IH; [done|lia].
  - apply (safe_mono _ (4 + 0)); [lia|]. apply safe_bind; [done|]. intros n c2 _ Ha2.
    apply (safe_then_ret 0); [done|]. apply read_many_safe; [|apply Ha2].
    intros c3 Ha3. apply (safe_mono _ (4 + (4 + 0))); [lia|].
    apply safe_bind; [by apply read_u32_safe; destruct Ha3|]. intros val c4 _ Ha4.
    apply safe_bind; [apply read_string_safe, Ha4|]. intros nm c5 _ Ha5.
    apply safe_ret, Ha5.
Qed.

Lemma decode_schema_at_deep k pre :
  Z.of_nat (length pre + k) <= u64_max ->
  decode_schema_at k (at_ pre (repeat TAG_LIST k)) = Panic.
Proof.
  revert pre. induction k as [|k IH]; intros pre Hfit; [done|].
  cbn [repeat decode_schema_at].
  change (TAG_LIST :: repeat TAG_LIST k) with ([TAG_LIST] ++ repeat TAG_LIST k).
  rewrite reads_u8; [|done|rewrite !length_app, repeat_length; simpl; lia].
  cbn [res_bind]. unfold decode_schema_body. simpl (TAG_LIST =? _). cbv iota.
  rewrite IH; [done|]. rewrite length_app. simpl. lia.
Qed.

(** Schema decoding terminates without panic on every byte string as long
    as the stack has one frame per input byte, and no smaller bound works:
    a string of [depth] list tags exhausts [depth] frames. *)
Theorem decode_schema_depth (d : list Z) (depth : nat) :
  bytes_ok d -> Z.of_nat depth <= u64_max ->
  (Z.of_nat (length d) < Z.of_nat depth -> no_panic (decode_schema_bytes depth d))
  /\ decode_schema_bytes depth (repeat TAG_LIST depth) = Panic.
Proof.
  intros Hd Hdepth. unfold decode_schema_bytes. split.
  - intros Hlt. apply res_bind_no_panic.
    + eapply safe_no_panic, decode_schema_at_safe; [split; simpl; [done|lia]|].
      unfold remaining; simpl; lia.
    + intros [s c] _. destruct (negb _); auto with bedrock.
  - change (mkCursor (repeat TAG_LIST depth) 0) with (at_ [] (repeat TAG_LIST depth)).
    by rewrite decode_schema_at_deep.
Qed.

Lemma decode_schema_depth_witness :
  no_panic (decode_schema_bytes 8 [15; 1; 0; 0; 0; 9; 0])
  /\ decode_schema_bytes 8 (repeat TAG_LIST 8) = Panic.
Proof.
  destruct (decode_schema_depth [15; 1; 0; 0; 0; 9; 0] 8) as [H1 H2].
  - repeat constructor; unfold byte_ok; lia.
  - unfold u64_max; lia.
  - split; [apply H1; reflexivity|exact H2].
Defined.

(** Frames needed to decode the encoding of a schema. *)
Fixpoint schema_depth (s : Schema) : nat :=
  match s with
  | Struct fs => S (list_max (map (fun f => schema_depth f.2) fs))
  | List e => S (schema_depth e)
  | _ => 1
  end.

(** Names are UTF-8 and counts, name lengths and discriminants fit 32 bits, as
    the static tables of the kernel do. *)
Fixpoint wire_names (s : Schema) : bool :=
  match s with
  | Struct fs =>
      (Z.of_nat (length fs) <=? u32_max)
      && forallb (fun f => wire_string f.1 && wire_names f.2) fs
  | List e => wire_names e
  | Enum vars =>
      (Z.of_nat (length vars) <=? u32_max)
      && forallb (fun v => wire_string v.1 && in_range 0 v.2 u32_max) vars
  | _ => true
  end.

Lemma encode_vars_app vars out :
  encode_vars vars out
  = out ++ concat (map (fun v => le_bytes 4 v.2 ++ write_len_string [] v.1) vars).
Proof.
  revert out. induction vars as [|[nm val] vars IH]; intros out; simpl;
    [by rewrite app_nil_r|].
  unfold encode_vars in *. simpl. rewrite IH, write_len_string_app.
  by rewrite <- !app_assoc.
Qed.

Lemma write_fields_app {S} (enc : S -> list Z -> list Z) fs out :
  Forall (fun f => forall out, enc f.2 out = out ++ enc f.2 []) fs ->
  write_fields enc fs out
  = out ++ concat (map (fun f => write_len_string [] f.1 ++ enc f.2 []) fs).
Proof.
  intros H. revert out. induction H as [|[nm ty] fs Hf _ IH]; intros out; simpl;
    [by rewrite app_nil_r|].
  simpl in Hf. rewrite IH, Hf, write_len_string_app. by rewrite <- !app_assoc.
Qed.

Lemma encode_schema_app s out : encode_schema s out = out ++ encode_schema s [].
Proof.
  revert out. induction s as [s Hs|fs IH|e IH] using Schema_nested_ind; intros out.
  - destruct s; try contradiction; try done.
    cbn [encode_schema]. rewrite !encode_vars_app. by rewrite <- !app_assoc.
  - cbn [encode_schema]. rewrite !(write_fields_app _ _ _ IH). by rewrite <- !app_assoc.
  - cbn [encode_schema]. rewrite IH. rewrite (IH ([] ++ _)). by rewrite <- !app_assoc.
Qed.

Lemma reads_tagged {depth tag e s} :
  reads false (decode_schema_body (decode_schema_at depth) tag) e s ->
  reads false (decode_schema_at (S depth)) ([tag] ++ e) s.
Proof. intros H. cbn [decode_schema_at]. eapply reads_bind; [apply reads_u8|exact H]. Qed.

Lemma decode_schema_reads s depth :
  wire_names s = true -> (schema_depth s <= depth)%nat ->
  reads false (decode_schema_at depth) (encode_schema s []) (to_owned s).
Proof.
  revert depth. induction s as [s Hs|fs IH|e IH] using Schema_nested_ind;
    intros [|depth] Hn Hd; try (exfalso; destruct s; simpl in Hd; lia);
    try (exfalso; simpl in Hd; lia); cbn [encode_schema].
  - destruct s; try contradiction;
      try (refine (reads_tagged (e := []) _); apply reads_pure).
    cbn [wire_names encode_schema schema_tag] in *. apply andb_true_iff in Hn as [Hl Hv].
    rewrite encode_vars_app, <- app_assoc. apply reads_tagged.
    eapply reads_bind; [apply reads_u32; lia|].
    apply reads_ret with (f := OEnum), (reads_many _ _ _ []); [by rewrite Nat2Z.id|].
    rewrite forallb_forall in Hv. apply Forall2_fmap_l, Forall_Forall2_diag, Forall_forall.
    intros [nm val] Hin. apply list_elem_of_In, Hv in Hin. simpl in Hin.
    apply andb_true_iff in Hin as [H1 H2]. unfold in_range in H2.
    eapply reads_bind; [apply reads_u32; simpl; lia|].
    by apply reads_ret with (f := fun x => (x, val)), reads_string.
  - cbn [wire_names] in Hn. apply andb_true_iff in Hn as [Hl Hv].
    rewrite write_fields_app, <- app_assoc
      by (apply Forall_forall; intros; apply encode_schema_app).
    apply reads_tagged. eapply reads_bind; [apply reads_u32; lia|].
    apply reads_ret with (f := OStruct), (reads_many _ _ _ []);
      [by rewrite Nat2Z.id; symmetry; apply length_map|].
    apply Forall2_fmap_l, Forall2_fmap_r, Forall_Forall2_diag, Forall_forall.
    rewrite forallb_forall in Hv. rewrite Forall_forall in IH.
    intros f Hin. specialize (IH f Hin depth).
    assert (schema_depth f.2 <= depth)%nat.
    { cbn [schema_depth] in Hd. apply le_S_n in Hd. rewrite list_max_le in Hd.
      rewrite Forall_forall in Hd. apply Hd, list_elem_of_In, in_map_iff.
      exists f. by rewrite <- list_elem_of_In. }
    apply list_elem_of_In, Hv, andb_true_iff in Hin as [H1 H2].
    eapply reads_bind; [by apply reads_string|].
    apply reads_ret with (f := fun x => (f.1, x)), IH; [done|lia].
  - cbn [wire_names schema_depth] in *. rewrite encode_schema_app.
    apply (reads_tagged (tag := TAG_LIST)).
    apply reads_ret with (f := OList), IH; [done|lia].
Qed.

(** The schema codec round-trips: a client that decodes the bytes a
    [:desc] read returns for a schema recovers that schema, field order, names
    and enum discriminants included. *)
Theorem schema_roundtrip (s : Schema) (depth : nat) :
  wire_names s = true -> (schema_depth s <= depth)%nat ->
  Z.of_nat (length (encode_schema s [])) <= u64_max ->
  decode_schema_bytes depth (encode_schema s []) = Ok (to_owned s).
Proof.
  intros Hn Hd Hfit.
  pose proof (decode_schema_reads s depth Hn Hd [] [] ltac:(done)) as H.
  unfold at_, decode_schema_bytes in *. rewrite !app_nil_r, !app_nil_l in H.
  change (Z.of_nat (length [])) with 0 in H.
  rewrite H by done. cbn [res_bind pos]. by rewrite Z.eqb_refl.
Qed.

Lemma schema_roundtrip_witness :
  decode_schema_bytes 4
    (encode_schema (Struct [("pid", U64); ("st", Enum [("run", 0); ("dead", 7)]);
                            ("l", List (Struct [("x", I16)]))]) [])
  = Ok (OStruct [("pid", OU64); ("st", OEnum [("run", 0); ("dead", 7)]);
                 ("l", OList (OStruct [("x", OI16)]))]).
Proof.
  apply (schema_roundtrip (Struct [("pid", U64); ("st", Enum [("run", 0); ("dead", 7)]);
                            ("l", List (Struct [("x", I16)]))]) 4).
  - vm_compute. reflexivity.
  - simpl. lia.
  - vm_compute. discriminate.
Defined.
