(* ===== verification/UniPath.v ===== *)
(** * Unispace paths

    Model of kernel/src/unispace/path.rs, with the string primitives it and
    the capability system use ([split], [join], [strip_prefix], [find]).
    Components contain no separator, so joining and splitting are inverse. *)

From S2P Require Import Prelude Errors.
Import Errors.Uni.
Local Open Scope Z_scope.

(** ** String primitives *)

Definition slash : Ascii.ascii := ascii_of_byte 47.
Definition colon : Ascii.ascii := ascii_of_byte 58.

(** [s.split(c)]: the empty string splits into one empty piece. *)
Fixpoint split_on (c : Ascii.ascii) (s : string) : list string :=
  match s with
  | EmptyString => [EmptyString]
  | String a r =>
      if bool_decide (a = c) then EmptyString :: split_on c r
      else match split_on c r with
           | [] => [String a EmptyString]
           | x :: xs => String a x :: xs
           end
  end.

(** [l.join("/")] *)
Fixpoint join_slash (l : list string) : string :=
  match l with
  | [] => EmptyString
  | [x] => x
  | x :: xs => x +:+ String slash (join_slash xs)
  end.

(** [s.contains(c)] *)
Fixpoint str_contains (c : Ascii.ascii) (s : string) : bool :=
  match s with
  | EmptyString => false
  | String a r => bool_decide (a = c) || str_contains c r
  end.

Definition is_empty (s : string) : bool :=
  match s with EmptyString => true | _ => false end.

(** [s.strip_prefix(c).unwrap_or(s)] *)
Definition strip_prefix_or (c : Ascii.ascii) (s : string) : string :=
  match s with
  | String a r => if bool_decide (a = c) then r else s
  | EmptyString => s
  end.

(** [s.find(c)] followed by the two slices around the position found. *)
Fixpoint split_at_first (c : Ascii.ascii) (s : string) : option (string * string) :=
  match s with
  | EmptyString => None
  | String a r =>
      if bool_decide (a = c) then Some (EmptyString, r)
      else match split_at_first c r with
           | Some (x, y) => Some (String a x, y)
           | None => None
           end
  end.

Definition nonempty_pieces (s : string) : list string :=
  List.filter (fun x => negb (is_empty x)) (split_on slash s).

(** ** The parser *)

Record ParsedPath := { components : list string; method : option string }.

(** [for seg in &raw { if . or .. or contains ':' { return Err } }] *)
Definition bad_segment (seg : string) : bool :=
  bool_decide (seg = ".") || bool_decide (seg = "..") || str_contains colon seg.

(** The final component, with its [:method] selector split off. *)
Definition split_selector (last : string)
  : res UnispaceError (string * option string) :=
  match split_at_first colon last with
  | Some (name, sel) =>
      if is_empty name then Err InvalidPath
      else if is_empty name || is_empty sel then Err InvalidPath
      else Ok (name, Some sel)
  | None => Ok (last, None)
  end.

Definition parse (path : string) : res UnispaceError ParsedPath :=
  let trimmed := strip_prefix_or slash path in
  if is_empty trimmed then Ok {| components := []; method := None |}
  else
    let raw := nonempty_pieces trimmed in
    match last raw with
    | None => Ok {| components := []; method := None |}
    | Some l =>
        let? '(name, m) := split_selector l in
        let raw := removelast raw ++ [name] in
        if existsb bad_segment raw then Err InvalidPath
        else Ok {| components := raw; method := m |}
    end.

Example parse_ex : parse "/a/b/c:m" = Ok {| components := ["a"; "b"; "c"]; method := Some "m" |}
  /\ parse "//" = Ok {| components := []; method := None |}
  /\ parse "a:x/b" = Err InvalidPath /\ parse "/a/.." = Err InvalidPath.
Proof. vm_compute. auto. Qed.

(** ** Splitting and joining *)

Lemma str_contains_app c x y :
  str_contains c (x +:+ y) = str_contains c x || str_contains c y.
Proof. induction x as [|a x IH]; simpl; [done|]. by rewrite IH, orb_assoc. Qed.

Lemma split_on_nonempty c s : split_on c s <> [].
Proof. destruct s; simpl; [done|]. case_bool_decide; [done|]. by destruct (split_on c s). Qed.

Lemma split_on_no_sep c s : str_contains c s = false -> split_on c s = [s].
Proof.
  induction s as [|a s IH]; simpl; [done|]. case_bool_decide; [done|]. simpl.
  intros Hs. by rewrite IH.
Qed.

Lemma split_on_app c x y : str_contains c x = false ->
  split_on c (x +:+ String c y) = x :: split_on c y.
Proof.
  induction x as [|a x IH]; simpl; intros H.
  - by rewrite bool_decide_true.
  - apply orb_false_iff in H as [H1 H2]. rewrite H1, IH by done. done.
Qed.

(** A component as the parser produces it. *)
Definition seg_ok (s : string) : bool := negb (is_empty s) && negb (str_contains slash s).

Lemma split_join l : l <> [] -> Forall (fun s => seg_ok s = true) l ->
  split_on slash (join_slash l) = l.
Proof.
  intros Hne H. induction H as [|x l Hx Hl IH]; [done|].
  unfold seg_ok in Hx. apply andb_true_iff in Hx as [_ Hx]. apply negb_true_iff in Hx.
  destruct l as [|y l].
  - simpl. by apply split_on_no_sep.
  - change (join_slash (x :: y :: l)) with (x +:+ String slash (join_slash (y :: l))).
    rewrite split_on_app by done. by rewrite IH.
Qed.

Lemma pieces_join l : Forall (fun s => seg_ok s = true) l ->
  nonempty_pieces (join_slash l) = l.
Proof.
  intros H. destruct (decide (l = [])) as [->|Hne]; [done|].
  unfold nonempty_pieces. rewrite split_join by done.
  clear Hne. induction H as [|x l Hx _ IH]; simpl; [done|].
  unfold seg_ok in Hx. apply andb_true_iff in Hx as [-> _]. by rewrite IH.
Qed.

Lemma join_split s : join_slash (split_on slash s) = s.
Proof.
  induction s as [|a s IH]; simpl; [done|]. pose proof (split_on_nonempty slash s) as Hne.
  case_bool_decide as Ha.
  - subst a. destruct (split_on slash s) as [|x xs]; [done|].
    change (join_slash (EmptyString :: x :: xs)) with (EmptyString +:+ String slash (join_slash (x :: xs))).
    by rewrite IH.
  - destruct (split_on slash s) as [|x xs]; [done|]. destruct xs as [|y ys]; simpl in *;
      by rewrite <- IH.
Qed.

Lemma split_on_seg c s : Forall (fun x => str_contains c x = false) (split_on c s).
Proof.
  induction s as [|a s IH]; simpl; [by repeat constructor|].
  case_bool_decide as Ha; [by constructor|].
  destruct (split_on c s) as [|x xs]; [by repeat constructor; simpl; rewrite bool_decide_false|].
  inversion IH; subst. constructor; [|done]. simpl. by rewrite bool_decide_false.
Qed.

Lemma nonempty_pieces_ok s : Forall (fun x => seg_ok x = true) (nonempty_pieces s).
Proof.
  unfold nonempty_pieces. pose proof (split_on_seg slash s) as H.
  induction H as [|x l Hx _ IH]; simpl; [constructor|].
  destruct (is_empty x) eqn:E; simpl; [done|]. constructor; [|done].
  unfold seg_ok. by rewrite E, Hx.
Qed.

Lemma split_at_first_None c s : split_at_first c s = None <-> str_contains c s = false.
Proof.
  induction s as [|a s IH]; simpl; [done|]. case_bool_decide; simpl; [done|].
  rewrite <- IH. destruct (split_at_first c s) as [[]|]; naive_solver.
Qed.

Lemma split_at_first_app c x y : str_contains c x = false ->
  split_at_first c (x +:+ String c y) = Some (x, y).
Proof.
  induction x as [|a x IH]; simpl; intros H.
  - by rewrite bool_decide_true.
  - apply orb_false_iff in H as [H1 H2]. by rewrite H1, IH.
Qed.

Lemma split_at_first_Some c s x y : split_at_first c s = Some (x, y) ->
  s = x +:+ String c y /\ str_contains c x = false.
Proof.
  revert x y. induction s as [|a s IH]; simpl; intros x y H; [done|].
  case_bool_decide; simplify_eq; [done|].
  destruct (split_at_first c s) as [[x' y']|]; [|done]. simplify_eq.
  destruct (IH x' y eq_refl) as [-> Hx]. simpl. by rewrite Hx, bool_decide_false.
Qed.

(** ** The parser's contract *)

(** Components the namespace can hold. *)
Definition comp_ok (s : string) : bool := seg_ok s && negb (bad_segment s).

Definition path_ok (p : ParsedPath) : bool :=
  forallb comp_ok (components p)
  && match method p with
     | None => true
     | Some m => negb (is_empty m) && negb (str_contains slash m)
                 && negb (bool_decide (components p = []))
     end.

(** The canonical spelling of a parsed path. *)
Definition render (p : ParsedPath) : string :=
  String slash (join_slash (components p)
    +:+ match method p with None => EmptyString | Some m => String colon m end).

Lemma last_snoc_removelast {A} (l : list A) x : last l = Some x -> l = removelast l ++ [x].
Proof.
  induction l as [|a l IH]; [done|]. destruct l as [|b l].
  - simpl. naive_solver.
  - intros H. change (removelast (a :: b :: l)) with (a :: removelast (b :: l)).
    simpl app. f_equal. by apply IH.
Qed.

Lemma string_app_nil_r s : s +:+ EmptyString = s.
Proof. induction s as [|a s IH]; [done|]. exact (f_equal (String a) IH). Qed.

Lemma string_app_assoc x y z : (x +:+ y) +:+ z = x +:+ (y +:+ z).
Proof. induction x as [|a x IH]; [done|]. exact (f_equal (String a) IH). Qed.

Lemma split_selector_ok l name m :
  seg_ok l = true -> split_selector l = Ok (name, m) ->
  seg_ok name = true /\ str_contains colon name = false
  /\ l = name +:+ match m with None => EmptyString | Some s => String colon s end
  /\ match m with
     | None => True
     | Some s => is_empty s = false /\ str_contains slash s = false
     end.
Proof.
  unfold split_selector, seg_ok. intros Hl H.
  destruct (split_at_first colon l) as [[x y]|] eqn:E.
  - apply split_at_first_Some in E as [-> Hx].
    destruct (is_empty x) eqn:Ex; [done|]. simpl in H.
    destruct (is_empty y) eqn:Ey; [done|]. simplify_eq.
    rewrite str_contains_app in Hl. simpl in Hl.
    destruct (str_contains slash name); [by rewrite andb_false_r in Hl|].
    simpl in Hl. destruct (str_contains slash y) eqn:Hy.
    + exfalso. by rewrite ?orb_true_r, ?andb_false_r in Hl.
    + rewrite Ex. done.
  - simplify_eq. apply split_at_first_None in E. split_and!; [done..| |done].
    by rewrite string_app_nil_r.
Qed.

Lemma join_slash_snoc l x y : join_slash (l ++ [x]) +:+ y = join_slash (l ++ [x +:+ y]).
Proof.
  induction l as [|a l IH]; [done|]. destruct l as [|b l].
  - simpl. by rewrite string_app_assoc.
  - change (join_slash ((a :: b :: l) ++ [x]))
      with (a +:+ String slash (join_slash ((b :: l) ++ [x]))).
    change (join_slash ((a :: b :: l) ++ [x +:+ y]))
      with (a +:+ String slash (join_slash ((b :: l) ++ [x +:+ y]))).
    by rewrite <- IH, string_app_assoc.
Qed.

Lemma parse_render p : path_ok p = true -> parse (render p) = Ok p.
Proof.
  destruct p as [cs m]. unfold path_ok, render, parse; simpl. intros H.
  apply andb_true_iff in H as [Hc Hm].
  assert (Forall (fun s => comp_ok s = true) cs) as Hcs.
  { apply Forall_forall. intros x Hx. rewrite forallb_forall in Hc.
    by apply Hc, list_elem_of_In. }
  destruct (decide (cs = [])) as [->|Hne].
  { destruct m; [|done]. rewrite bool_decide_true in Hm by done.
    by rewrite andb_false_r in Hm. }
  destruct (exists_last Hne) as (l & x & ->).
  apply Forall_app in Hcs as [Hl Hx]. rewrite Forall_singleton in Hx.
  unfold comp_ok in Hx. apply andb_true_iff in Hx as [Hx Hbx]. apply negb_true_iff in Hbx.
  pose proof Hbx as Hcol. unfold bad_segment in Hcol. apply orb_false_iff in Hcol as [_ Hcol].
  set (sel := match m with None => EmptyString | Some s => String colon s end).
  rewrite join_slash_snoc.
  assert (seg_ok (x +:+ sel) = true) as Hxs.
  { unfold seg_ok in *. rewrite str_contains_app. destruct x; [done|]. simpl in *.
    apply negb_true_iff in Hx. rewrite Hx. simpl. destruct m; [|done]. simpl.
    apply andb_true_iff in Hm as [Hm _]. by apply andb_true_iff in Hm as [_ ->]. }
  assert (Forall (fun s => seg_ok s = true) (l ++ [x +:+ sel])) as Hall.
  { apply Forall_app; split; [|by constructor]. eapply Forall_impl; [exact Hl|].
    intros y Hy. unfold comp_ok in Hy. by apply andb_true_iff in Hy as [Hy _]. }
  simpl. rewrite pieces_join by done.
  assert (is_empty (join_slash (l ++ [x +:+ sel])) = false) as ->.
  { destruct (join_slash _) eqn:E; [|done]. exfalso.
    pose proof (pieces_join _ Hall) as HP. rewrite E in HP. by destruct l. }
  rewrite last_snoc, removelast_last. unfold split_selector.
  assert (existsb bad_segment (l ++ [x]) = false) as Hex.
  { rewrite existsb_app. simpl. rewrite Hbx, !orb_false_r. apply not_true_is_false.
    intros (y & Hy & Hby)%existsb_exists. rewrite Forall_forall in Hl.
    apply list_elem_of_In, Hl in Hy. unfold comp_ok in Hy. rewrite Hby in Hy.
    by rewrite andb_false_r in Hy. }
  destruct m as [s|]; unfold sel.
  - rewrite split_at_first_app by done. unfold seg_ok in Hx.
    apply andb_true_iff in Hx as [Hx _]. apply negb_true_iff in Hx. rewrite Hx. simpl.
    apply andb_true_iff in Hm as [Hm _]. apply andb_true_iff in Hm as [Hm _].
    apply negb_true_iff in Hm. rewrite Hm. cbn [res_bind]. by rewrite Hex.
  - rewrite string_app_nil_r, (proj2 (split_at_first_None colon x)) by done.
    cbn [res_bind]. by rewrite Hex.
Qed.

Lemma parse_ok p r : parse p = Ok r -> path_ok r = true.
Proof.
  unfold parse. destruct (is_empty _); [naive_solver|].
  pose proof (nonempty_pieces_ok (strip_prefix_or slash p)) as Hraw.
  destruct (last _) as [l|] eqn:El; [|naive_solver].
  apply last_snoc_removelast in El. rewrite El in Hraw.
  apply Forall_app in Hraw as [Hinit Hl]. rewrite Forall_singleton in Hl.
  intros H. res_inv. destruct x as [name m].
  destruct (existsb _ _) eqn:Hex; [done|]. simplify_eq.
  edestruct split_selector_ok as (Hn & Hcol & _ & Hm); [exact Hl|done|].
  unfold path_ok; simpl. apply andb_true_iff. split.
  - apply forallb_forall. intros x Hx. unfold comp_ok. apply andb_true_iff. split.
    + apply in_app_or in Hx as [Hx|[<-|[]]]; [|done].
      rewrite Forall_forall in Hinit. by apply Hinit, list_elem_of_In.
    + apply negb_true_iff, not_true_is_false. intros Hb.
      enough (existsb bad_segment (removelast (nonempty_pieces
        (strip_prefix_or slash p)) ++ [name]) = true) by congruence.
      apply existsb_exists. by exists x.
  - destruct m as [s|]; [|done]. destruct Hm as [-> ->]. simpl.
    by rewrite bool_decide_false by by destruct (removelast _).
Qed.

(** The path parser is a normaliser: what it accepts is a list of
    non-empty components without separators, selectors or dot entries, with a
    non-empty method only on a non-root object, and printing the result and
    parsing it again gives the same components and method. *)
Theorem parse_normalises (p : string) (r : ParsedPath) :
  parse p = Ok r -> path_ok r = true /\ parse (render r) = Ok r.
Proof. intros H%parse_ok. split; [done|by apply parse_render]. Qed.

Lemma parse_normalises_witness :
  parse "A//b.txt/c:stat" = Ok {| components := ["A"; "b.txt"; "c"]; method := Some "stat" |}
  /\ parse (render {| components := ["A"; "b.txt"; "c"]; method := Some "stat" |})
     = Ok {| components := ["A"; "b.txt"; "c"]; method := Some "stat" |}.
Proof.
  assert (parse "A//b.txt/c:stat"
    = Ok {| components := ["A"; "b.txt"; "c"]; method := Some "stat" |}) as H
    by (vm_compute; reflexivity).
  split; [exact H|]. exact (proj2 (parse_normalises _ _ H)).
Defined.
