(* ===== verification/Lineage.v ===== *)
(** * Process lineage

    Model of the durable pid-to-parent map of kernel/src/task/mod.rs
    ([lineage_insert], [lineage_chain], [is_ancestor], [lineage_gc]).  The
    walks are guarded by a set of visited pids; the recursion below carries a
    fuel of two more than the number of entries, which the guard never
    exhausts (see [is_ancestor_spec] and [lineage_gc_preserves]). *)

From S2P Require Import Prelude.
Local Open Scope Z_scope.

Definition lineage_insert (map : gmap Z Z) (pid parent : Z) : gmap Z Z :=
  <[pid := parent]> map.

Fixpoint chain_loop (fuel : nat) (map : gmap Z Z) (pid : Z) (seen : gset Z)
  (out : list Z) : list Z :=
  match fuel with
  | O => out
  | S fuel =>
      if bool_decide (pid ∈ seen) then out
      else
        let seen := {[pid]} ∪ seen in
        match map !! pid with
        | Some ppid =>
            if ppid =? 0 then out
            else chain_loop fuel map ppid seen (out ++ [ppid])
        | None => out
        end
  end.

Definition lineage_chain (map : gmap Z Z) (pid : Z) : list Z :=
  chain_loop (S (S (size map))) map pid ∅ [].

Fixpoint ancestor_loop (fuel : nat) (map : gmap Z Z) (ancestor cur : Z)
  (seen : gset Z) : bool :=
  match fuel with
  | O => false
  | S fuel =>
      if bool_decide (cur ∈ seen) then false
      else
        let seen := {[cur]} ∪ seen in
        match map !! cur with
        | Some ppid =>
            if ppid =? ancestor then true
            else if ppid =? 0 then false
            else ancestor_loop fuel map ancestor ppid seen
        | None => false
        end
  end.

Definition is_ancestor (map : gmap Z Z) (ancestor descendant : Z) : bool :=
  if ancestor =? descendant then true
  else ancestor_loop (S (S (size map))) map ancestor descendant ∅.

(** The marking walk of [lineage_gc] from one live pid. *)
Fixpoint mark_loop (fuel : nat) (map : gmap Z Z) (cur : Z)
  (seen needed : gset Z) : gset Z :=
  match fuel with
  | O => needed
  | S fuel =>
      if bool_decide (cur ∈ seen) then needed
      else
        let seen := {[cur]} ∪ seen in
        match map !! cur with
        | Some ppid =>
            if ppid =? 0 then needed
            else mark_loop fuel map ppid seen ({[ppid]} ∪ needed)
        | None => needed
        end
  end.

(** [live] is the list of task ids gathered from the scheduler's queues. *)
Definition lineage_gc (map : gmap Z Z) (live : list Z) : gmap Z Z :=
  let needed :=
    fold_left (fun needed pid => mark_loop (S (S (size map))) map pid ∅ needed)
      live (∅ : gset Z) in
  filter (fun kv => kv.1 ∈ live \/ kv.1 ∈ needed) map.

Example is_ancestor_ex :
  let m := list_to_map [(5, 4); (4, 2); (2, 1); (1, 0); (9, 8); (8, 9)] : gmap Z Z in
  is_ancestor m 1 5 = true /\ is_ancestor m 5 1 = false /\ is_ancestor m 7 8 = false
  /\ lineage_chain m 5 = [4; 2; 1] /\ lineage_gc m [4] !! 5 = None.
Proof. vm_compute. auto. Qed.

(** ** The ancestor relation *)

(** [ancestor m a d]: following parent links from [d] reaches [a]; pid 0 (no
    parent) ends a chain. *)
Inductive ancestor (m : gmap Z Z) (a : Z) : Z -> Prop :=
| ancestor_parent d : m !! d = Some a -> ancestor m a d
| ancestor_step d p : m !! d = Some p -> p <> 0 -> ancestor m a p -> ancestor m a d.

(** The visited set is always a set of keys, so it outgrows the fuel never. *)
Lemma seen_bound (m : gmap Z Z) (seen : gset Z) : seen ⊆ dom m -> (size seen <= size m)%nat.
Proof. intros H. rewrite <- size_dom. by apply subseteq_size. Qed.

Lemma seen_grow (m : gmap Z Z) (seen : gset Z) cur p :
  seen ⊆ dom m -> cur ∉ seen -> m !! cur = Some p ->
  {[cur]} ∪ seen ⊆ dom m /\ size ({[cur]} ∪ seen) = S (size seen).
Proof.
  intros Hs Hc Hm. assert (cur ∈ dom m) by (by apply elem_of_dom_2 in Hm).
  split; [set_solver|]. rewrite size_union by set_solver. by rewrite size_singleton.
Qed.

(** A set closed under non-zero parent links in which no member has parent [a]
    contains no descendant of [a]. *)
Lemma closed_no_ancestor (m : gmap Z Z) (S : gset Z) a d :
  (forall s p, s ∈ S -> m !! s = Some p -> p <> a /\ (p = 0 \/ p ∈ S)) ->
  d ∈ S -> ~ ancestor m a d.
Proof.
  intros HS Hd Ha. induction Ha as [d Hm|d p Hm Hp _ IH].
  - by destruct (HS _ _ Hd Hm).
  - destruct (HS _ _ Hd Hm) as [_ [?|?]]; auto.
Qed.

Lemma ancestor_loop_sound fuel m a cur seen :
  ancestor_loop fuel m a cur seen = true -> ancestor m a cur.
Proof.
  revert cur seen. induction fuel as [|fuel IH]; intros cur seen H; simpl in H; [done|].
  case_bool_decide; [done|]. destruct (m !! cur) as [p|] eqn:E; [|done].
  destruct (Z.eqb_spec p a); [subst; by constructor|].
  destruct (Z.eqb_spec p 0); [done|]. eapply ancestor_step; eauto.
Qed.

Lemma ancestor_loop_complete fuel m a cur seen :
  seen ⊆ dom m -> (size m < size seen + fuel)%nat ->
  (forall s p, s ∈ seen -> m !! s = Some p -> p <> a /\ (p = 0 \/ p = cur \/ p ∈ seen)) ->
  ancestor_loop fuel m a cur seen = false ->
  forall d, d = cur \/ d ∈ seen -> ~ ancestor m a d.
Proof.
  revert cur seen. induction fuel as [|fuel IH]; intros cur seen Hs Hf HI H d Hd; simpl in H.
  { pose proof (seen_bound m seen Hs). lia. }
  case_bool_decide as Hin.
  { apply (closed_no_ancestor m seen); [|set_solver].
    intros s p Hsn Hm. destruct (HI s p Hsn Hm) as [? [?|[->|?]]]; auto. }
  assert (forall P : Prop, P -> d ∈ ({[cur]} ∪ seen : gset Z)) as Hd'
    by (intros; set_solver).
  destruct (m !! cur) as [p|] eqn:E.
  - destruct (Z.eqb_spec p a) as [|Hpa]; [done|].
    destruct (Z.eqb_spec p 0) as [->|Hp0].
    + apply (closed_no_ancestor m ({[cur]} ∪ seen)); [|by apply (Hd' True)].
      intros s q Hsn Hm. apply elem_of_union in Hsn as [Hsn|Hsn].
      * apply elem_of_singleton in Hsn as ->. rewrite E in Hm. simplify_eq. auto.
      * destruct (HI s q Hsn Hm) as [? [?|[->|?]]]; set_solver.
    + destruct (seen_grow m seen cur p Hs Hin E) as [Hs' Hsz].
      apply (IH p ({[cur]} ∪ seen)); [done|lia| |done|right; by apply (Hd' True)].
      intros s q Hsn Hm. apply elem_of_union in Hsn as [Hsn|Hsn].
      * apply elem_of_singleton in Hsn as ->. rewrite E in Hm. simplify_eq. auto.
      * destruct (HI s q Hsn Hm) as [? [?|[->|?]]]; set_solver.
  - apply (closed_no_ancestor m ({[cur]} ∪ seen)); [|by apply (Hd' True)].
    intros s q Hsn Hm. apply elem_of_union in Hsn as [Hsn|Hsn].
    + apply elem_of_singleton in Hsn as ->. congruence.
    + destruct (HI s q Hsn Hm) as [? [?|[->|?]]]; set_solver.
Qed.

Lemma is_ancestor_true m a d : is_ancestor m a d = true <-> a = d \/ ancestor m a d.
Proof.
  unfold is_ancestor. destruct (Z.eqb_spec a d) as [|Hne]; [by subst; split; auto|].
  split.
  - intros H. right. by eapply ancestor_loop_sound.
  - intros [?|H]; [done|]. apply not_false_iff_true. intros Hf.
    refine (ancestor_loop_complete _ m a d ∅ _ _ _ Hf d (or_introl eq_refl) H);
      [set_solver|lia|set_solver].
Qed.

(** [is_ancestor] decides the ancestor relation of the lineage map: it
    answers [true] exactly for the process itself and for the processes its
    parent links lead to, and it terminates on every map, cyclic ones
    included. *)
Theorem is_ancestor_spec (m : gmap Z Z) (a d : Z) :
  is_ancestor m a d = true <-> a = d \/ ancestor m a d.
Proof. apply is_ancestor_true. Qed.

(** ** Garbage collection keeps the lineage of live processes *)

(** [linked m d p]: [p] is a non-zero ancestor-or-parent of [d]. *)
Definition linked (m : gmap Z Z) (d p : Z) : Prop := ancestor m p d /\ p <> 0.

Lemma mark_loop_mono fuel m cur seen needed : needed ⊆ mark_loop fuel m cur seen needed.
Proof.
  revert cur seen needed. induction fuel as [|fuel IH]; intros cur seen needed; simpl; [done|].
  case_bool_decide; [done|]. destruct (m !! cur) as [p|]; [|done].
  destruct (p =? 0); [done|]. etransitivity; [|apply IH]. set_solver.
Qed.

Lemma closed_marked (m : gmap Z Z) (S N : gset Z) d p :
  (forall s q, s ∈ S -> m !! s = Some q -> q = 0 \/ (q ∈ S /\ q ∈ N)) ->
  d ∈ S -> linked m d p -> p ∈ N.
Proof.
  intros HS Hd [Ha Hp]. induction Ha as [d Hm|d q Hm Hq _ IH].
  - destruct (HS _ _ Hd Hm) as [?|[? ?]]; done.
  - destruct (HS _ _ Hd Hm) as [?|[? ?]]; auto. done.
Qed.

Lemma mark_loop_complete fuel m cur seen needed :
  seen ⊆ dom m -> (size m < size seen + fuel)%nat ->
  (forall s q, s ∈ seen -> m !! s = Some q ->
     q = 0 \/ ((q = cur \/ q ∈ seen) /\ q ∈ needed)) ->
  forall d p, d = cur \/ d ∈ seen -> linked m d p -> p ∈ mark_loop fuel m cur seen needed.
Proof.
  revert cur seen needed.
  induction fuel as [|fuel IH]; intros cur seen needed Hs Hf HI d p Hd Hl; simpl.
  { pose proof (seen_bound m seen Hs). lia. }
  case_bool_decide as Hin.
  { apply (closed_marked m seen needed d p); [|set_solver|done].
    intros s q Hsn Hm. destruct (HI s q Hsn Hm) as [?|[[->|?] ?]]; auto. }
  assert (d ∈ ({[cur]} ∪ seen : gset Z)) as Hd' by set_solver.
  destruct (m !! cur) as [q|] eqn:E.
  - destruct (Z.eqb_spec q 0) as [->|Hq0].
    + apply (closed_marked m ({[cur]} ∪ seen) needed d p); [|done|done].
      intros s r Hsn Hm. apply elem_of_union in Hsn as [Hsn|Hsn].
      * apply elem_of_singleton in Hsn as ->. rewrite E in Hm. simplify_eq. auto.
      * destruct (HI s r Hsn Hm) as [?|[[->|?] ?]]; set_solver.
    + destruct (seen_grow m seen cur q Hs Hin E) as [Hs' Hsz].
      apply (IH q ({[cur]} ∪ seen) _ Hs' ltac:(lia)) with (d := d); [|by right|done].
      intros s r Hsn Hm. apply elem_of_union in Hsn as [Hsn|Hsn].
      * apply elem_of_singleton in Hsn as ->. rewrite E in Hm. simplify_eq. set_solver.
      * destruct (HI s r Hsn Hm) as [?|[[->|?] ?]]; set_solver.
  - apply (closed_marked m ({[cur]} ∪ seen) needed d p); [|done|done].
    intros s r Hsn Hm. apply elem_of_union in Hsn as [Hsn|Hsn].
    + apply elem_of_singleton in Hsn as ->. congruence.
    + destruct (HI s r Hsn Hm) as [?|[[->|?] ?]]; set_solver.
Qed.

Lemma marked_all m live N d p :
  d ∈ live -> linked m d p ->
  p ∈ fold_left (fun needed pid => mark_loop (S (S (size m))) m pid ∅ needed) live N.
Proof.
  intros Hd Hl. revert N. induction live as [|x live IH]; intros N; [set_solver|]. cbn [fold_left].
  apply elem_of_cons in Hd as [->|Hd]; [|by apply IH].
  assert (forall l M, M ⊆ fold_left
    (fun needed pid => mark_loop (S (S (size m))) m pid ∅ needed) l M) as Hmono.
  { induction l as [|y l IHl]; intros M; [done|]. cbn [fold_left].
    etransitivity; [apply mark_loop_mono|apply IHl]. }
  apply Hmono. eapply mark_loop_complete; [set_solver| |set_solver|by left|done]. lia.
Qed.

Lemma ancestor_mono (m1 m2 : gmap Z Z) a d : m1 ⊆ m2 -> ancestor m1 a d -> ancestor m2 a d.
Proof.
  intros Hsub. induction 1 as [d Hm|d p Hm Hp _ IH];
    [apply ancestor_parent|eapply ancestor_step; [|done..]]; by eapply lookup_weaken.
Qed.

Lemma ancestor_snoc m d0 d p : ancestor m d d0 -> d <> 0 -> m !! d = Some p -> ancestor m p d0.
Proof.
  intros Ha Hd Hm. induction Ha as [x Hx|x q Hx Hq _ IH];
    [eapply ancestor_step; [done..|by constructor]|by eapply ancestor_step].
Qed.

Lemma linked_parent m (live : list Z) d p :
  (d ∈ live \/ exists d0, d0 ∈ live /\ linked m d0 d) -> m !! d = Some p -> p <> 0 ->
  exists d0, d0 ∈ live /\ linked m d0 p.
Proof.
  intros [Hd|(d0 & Hd0 & Ha & Hd)] Hm Hp.
  - exists d. repeat split; [done|by constructor|done].
  - exists d0. repeat split; [done|by eapply ancestor_snoc|done].
Qed.

Lemma gc_lookup m (live : list Z) d p :
  (d ∈ live \/ exists d0, d0 ∈ live /\ linked m d0 d) -> m !! d = Some p ->
  lineage_gc m live !! d = Some p.
Proof.
  intros Hd Hm. apply map_lookup_filter_Some. split; [done|]. simpl.
  destruct Hd as [?|(d0 & Hd0 & Hl)]; [by left|right]. by eapply marked_all.
Qed.

Lemma ancestor_gc m (live : list Z) a d :
  (d ∈ live \/ exists d0, d0 ∈ live /\ linked m d0 d) ->
  ancestor m a d -> ancestor (lineage_gc m live) a d.
Proof.
  intros Hd Ha. induction Ha as [d Hm|d p Hm Hp _ IH].
  - by apply ancestor_parent, gc_lookup.
  - eapply ancestor_step; [by apply gc_lookup|done|].
    apply IH. right. by eapply linked_parent.
Qed.

(** [lineage_gc] is invisible to live processes: for every live pid the
    answers of [is_ancestor] are the same before and after a collection. *)
Theorem lineage_gc_preserves (m : gmap Z Z) (live : list Z) (a d : Z) :
  d ∈ live -> is_ancestor (lineage_gc m live) a d = is_ancestor m a d.
Proof.
  intros Hd. apply eq_true_iff_eq. rewrite !is_ancestor_true.
  enough (ancestor (lineage_gc m live) a d <-> ancestor m a d) by tauto. split.
  - apply ancestor_mono, map_filter_subseteq.
  - apply ancestor_gc. by left.
Qed.

Lemma lineage_gc_preserves_witness :
  is_ancestor (lineage_gc (list_to_map [(5, 4); (4, 2); (7, 4); (2, 1)]) [5]) 1 5
  = is_ancestor (list_to_map [(5, 4); (4, 2); (7, 4); (2, 1)]) 1 5.
Proof. apply lineage_gc_preserves. apply list_elem_of_In. simpl. auto. Defined.
