(* ===== verification/Caps.v ===== *)
(** * The capability system

    Model of kernel/src/caps/mod.rs: exact [(path, method)] capabilities,
    traversal checks in their string form ([check_path]) and their
    allocation-free component form ([check_path_on]), listing filters and the
    insertion checks of a spawn (kernel/src/unispace/provider/proc.rs).  The
    x86_64 configuration is modelled: the [proc/<pid>] alias consults the
    running task and the lineage map.  Grants, INIT's table and the supervisor
    window image are in CapsStore. *)

From S2P Require Import Prelude Errors UniSchema UniPath Lineage.
Import Errors.Uni.
Local Open Scope Z_scope.

(** ** Permissions and capabilities *)

Inductive Perm := R | RW.

#[global] Instance Perm_eq_dec : EqDecision Perm.
Proof. solve_decision. Defined.

Definition from_u8 (v : Z) : option Perm :=
  if v =? 1 then Some R else if v =? 3 then Some RW else None.

Definition covers (self want : Perm) : bool :=
  match self, want with
  | RW, _ => true
  | R, R => true
  | _, _ => false
  end.

Definition as_u8 (p : Perm) : Z := match p with R => 1 | RW => 3 end.

Record Cap := mkCap { path : string; cap_method : option string; perm : Perm }.

#[global] Instance Cap_eq_dec : EqDecision Cap.
Proof. solve_decision. Defined.

Definition MAX_CAP_PATH_LEN : Z := 256.
Definition MAX_CAP_METHOD_LEN : Z := 64.
Definition MAX_CAPS_PER_TASK : Z := 8192.
Definition CAP_SLOT_SIZE : Z := 16384.

(** ** String-keyed lookups *)

Fixpoint has_perm (caps : list Cap) (p : string) (m : option string) (want : Perm)
  : bool :=
  match caps with
  | [] => false
  | c :: caps =>
      if bool_decide (path c = p) && bool_decide (cap_method c = m)
         && covers (perm c) want
      then true else has_perm caps p m want
  end.

Definition join_path (components : list string) : string := join_slash components.

(** [for i in 0..len-1 { join(components[..=i]) ... }] *)
Definition has_ancestor_r (caps : list Cap) (components : list string) : bool :=
  match components with
  | [] => true
  | _ =>
      forallb (fun i => has_perm caps (join_slash (take (S i) components)) None R)
        (seq 0 (length components - 1))
  end.

(** ** The proc alias *)

Definition is_ascii_digit (b : Z) : bool := (48 <=? b) && (b <=? 57).

Definition is_numeric_pid (s : string) : bool :=
  if is_empty s || (20 <? Z.of_nat (String.length s)) then false
  else forallb is_ascii_digit (bytes_of_string s).

(** [v.checked_mul(10)?.checked_add(b - b'0')?] over the bytes. *)
Fixpoint parse_digits (bs : list Z) (v : Z) : option Z :=
  match bs with
  | [] => Some v
  | b :: bs =>
      match checked_mul_u64 v 10 with
      | Some v => match checked_add_u64 v (b - 48) with
                  | Some v => parse_digits bs v
                  | None => None
                  end
      | None => None
      end
  end.

Definition parse_pid (s : string) : option Z :=
  if negb (is_numeric_pid s) then None else parse_digits (bytes_of_string s) 0.

(** What the alias reads of the scheduler: the running task's pid and the
    lineage map. *)
Record Env := { current_pid : option Z; lineage : gmap Z Z }.

Definition canonicalize_proc_alias (env : Env) (components : list string)
  : res UnispaceError (option (list string)) :=
  match components with
  | c0 :: c1 :: rest =>
      if bool_decide (c0 = "proc") && negb (bool_decide (c1 = "self")) then
        match parse_pid c1 with
        | Some target =>
            match current_pid env with
            | Some caller =>
                if is_ancestor (lineage env) caller target
                then Ok (Some (c0 :: "self" :: rest))
                else Err NotFound
            | None => Ok None
            end
        | None => Ok None
        end
      else Ok None
  | _ => Ok None
  end.

(** ** Component-wise lookups *)

Definition segs (p : string) : list string := nonempty_pieces p.

Definition cap_matches_components (c : Cap) (components : list string)
  (m : option string) : bool :=
  if negb (bool_decide (cap_method c = m)) then false
  else bool_decide (segs (path c) = components).

(** The iterator walk of [cap_matches_prefix]: every one of the first [n]
    components in turn, then exhaustion. *)
Fixpoint walk_segs (it comps : list string) : option (list string) :=
  match comps with
  | [] => Some it
  | comp :: comps =>
      match it with
      | s :: it => if bool_decide (s = comp) then walk_segs it comps else None
      | [] => None
      end
  end.

Definition cap_matches_prefix (c : Cap) (components : list string) (n : nat) : bool :=
  match walk_segs (segs (path c)) (take n components) with
  | Some [] => true
  | _ => false
  end.

Definition has_perm_on (caps : list Cap) (components : list string)
  (m : option string) (want : Perm) : bool :=
  existsb (fun c => cap_matches_components c components m && covers (perm c) want) caps.

Definition has_ancestor_r_on (caps : list Cap) (components : list string) : bool :=
  forallb (fun n =>
      existsb (fun c => cap_matches_prefix c components n && covers (perm c) R) caps)
    (seq 1 (length components - 1)).

(** ** Path checks *)

(** The leaf and method tests shared by [check_path] and [check_path_on],
    over their respective lookup. *)
Definition check_leaf (has : option string -> Perm -> bool) (m : option string)
  (leaf_want : Perm) : res UnispaceError unit :=
  match m with
  | Some _ =>
      if negb (has None R) then Err NotFound
      else if negb (has m leaf_want) then
        if has m R && bool_decide (leaf_want = RW) then Err AccessDenied
        else Err MethodNotFound
      else Ok tt
  | None =>
      if negb (has None leaf_want) then
        if has None R && bool_decide (leaf_want = RW) then Err AccessDenied
        else Err NotFound
      else Ok tt
  end.

Definition check_path_on (env : Env) (caps : option (list Cap))
  (components : list string) (m : option string) (leaf_want : Perm)
  : res UnispaceError unit :=
  match caps with
  | None => Ok tt
  | Some caps =>
      if bool_decide (caps = []) && negb (bool_decide (components = []))
      then Err NotFound
      else
        let? canon_opt := canonicalize_proc_alias env components in
        let comp_ref := match canon_opt with Some v => v | None => components end in
        if negb (has_ancestor_r_on caps comp_ref) then Err NotFound
        else check_leaf (has_perm_on caps comp_ref) m leaf_want
  end.

Definition check_path (env : Env) (caps : option (list Cap))
  (components : list string) (m : option string) (leaf_want : Perm)
  : res UnispaceError unit :=
  match caps with
  | None => Ok tt
  | Some caps =>
      if bool_decide (caps = []) && negb (bool_decide (components = []))
      then Err NotFound
      else
        let? canon_opt := canonicalize_proc_alias env components in
        let comp_ref := match canon_opt with Some v => v | None => components end in
        if negb (has_ancestor_r caps comp_ref) then Err NotFound
        else check_leaf (has_perm caps (join_path comp_ref)) m leaf_want
  end.

(** ** Listing filters *)

(** [true] when [name] is the pid of a process the caller is an ancestor of. *)
Definition alias_allows (env : Env) (name : string) : bool :=
  match parse_pid name with
  | Some pid =>
      match current_pid env with
      | Some caller => is_ancestor (lineage env) caller pid
      | None => false
      end
  | None => false
  end.

Definition filter_listing_on (env : Env) (caps : list Cap)
  (dir_components : list string) (names : list ListingEntry) : list ListingEntry :=
  List.filter (fun e =>
    let is_proc_numeric_child :=
      bool_decide (dir_components = ["proc"]) && is_numeric_pid (name e) in
    let ancestor_allows :=
      if is_proc_numeric_child then alias_allows env (name e) else false in
    let want := if is_proc_numeric_child && ancestor_allows then "self"%string
                else name e in
    existsb (fun c =>
      bool_decide (cap_method c = None) && covers (perm c) R
      && match walk_segs (segs (path c)) dir_components with
         | Some [s] => bool_decide (s = want)
         | _ => false
         end) caps) names.

Definition filter_listing (env : Env) (caps : list Cap) (dir_path : string)
  (names : list ListingEntry) : list ListingEntry :=
  List.filter (fun e =>
    if bool_decide (dir_path = "proc") && is_numeric_pid (name e)
       && alias_allows env (name e)
    then has_perm caps "proc/self" None R
    else
      let child_path := if is_empty dir_path then name e
                        else dir_path +:+ String slash (name e) in
      has_perm caps child_path None R) names.

Definition filter_methods_by_perm (caps : list Cap) (leaf_path : string)
  (methods : list MethodDesc) : list MethodDesc :=
  List.filter (fun m => has_perm caps leaf_path (Some (md_name m)) R) methods.

Record OwnedMethodDesc :=
  { omd_name : string; omd_input : OwnedSchema; omd_output : OwnedSchema }.

Definition filter_owned_methods_by_perm (caps : list Cap) (leaf_path : string)
  (methods : list OwnedMethodDesc) : list OwnedMethodDesc :=
  List.filter (fun m => has_perm caps leaf_path (Some (omd_name m)) R) methods.

(** ** Insertion checks *)

Definition is_control (b : Z) : bool := (b <? 32) || (b =? 127).

Fixpoint ends_with (c : Ascii.ascii) (s : string) : bool :=
  match s with
  | EmptyString => false
  | String a EmptyString => bool_decide (a = c)
  | String _ r => ends_with c r
  end.

Definition starts_with (c : Ascii.ascii) (s : string) : bool :=
  match s with String a _ => bool_decide (a = c) | EmptyString => false end.

(** [s.contains("//")] *)
Fixpoint has_double_slash (s : string) : bool :=
  match s with
  | String a ((String b _) as r) =>
      (bool_decide (a = slash) && bool_decide (b = slash)) || has_double_slash r
  | _ => false
  end.

Definition bad_method (m : string) : bool :=
  is_empty m || (MAX_CAP_METHOD_LEN <? Z.of_nat (String.length m))
  || str_contains slash m || str_contains colon m
  || existsb is_control (bytes_of_string m).

Definition bad_cap_segment (seg : string) : bool :=
  is_empty seg || bool_decide (seg = ".") || bool_decide (seg = "..")
  || str_contains colon seg || existsb is_control (bytes_of_string seg).

Definition validate_cap (cap : Cap) : res UnispaceError unit :=
  if MAX_CAP_PATH_LEN <? Z.of_nat (String.length (path cap)) then Err InvalidArgument
  else if match cap_method cap with Some m => bad_method m | None => false end
  then Err InvalidArgument
  else if negb (is_empty (path cap))
          && (starts_with slash (path cap) || ends_with slash (path cap)
              || has_double_slash (path cap)
              || existsb bad_cap_segment (split_on slash (path cap)))
  then Err InvalidArgument
  else Ok tt.

Definition is_subset (parent child : list Cap) : bool :=
  forallb (fun c => has_perm parent (path c) (cap_method c) (perm c)) child.

(** The capability part of [spawn_proc]: [parent] is [current_caps()], [None]
    for a kernel caller. *)
Definition spawn_caps (parent : option (list Cap)) (provided : list Cap)
  : res UnispaceError (list Cap) :=
  let? _ :=
    (fix go (l : list Cap) : res UnispaceError unit :=
       match l with
       | [] => Ok tt
       | c :: l =>
           let? _ := validate_cap c in
           if as_u8 (perm c) =? 2 then Err InvalidArgument else go l
       end) provided in
  if MAX_CAPS_PER_TASK <? Z.of_nat (length provided) then Err OutOfMemory
  else
    match parent with
    | Some pc => if negb (is_subset pc provided) then Err InvalidArgument else Ok provided
    | None => Ok provided
    end.

(** ** Lookups as existential statements *)

Definition grants (p : string) (m : option string) (want : Perm) (c : Cap) : bool :=
  bool_decide (path c = p) && bool_decide (cap_method c = m) && covers (perm c) want.

Lemma has_perm_existsb caps p m want :
  has_perm caps p m want = existsb (grants p m want) caps.
Proof.
  induction caps as [|c caps IH]; simpl; [done|]. unfold grants at 1.
  destruct (_ && covers _ _); simpl; [done|exact IH].
Qed.

Lemma has_perm_true caps p m want :
  has_perm caps p m want = true <->
  exists c, c ∈ caps /\ path c = p /\ cap_method c = m /\ covers (perm c) want = true.
Proof.
  rewrite has_perm_existsb, existsb_exists. split.
  - intros (c & Hc & H). exists c. unfold grants in H.
    apply andb_true_iff in H as [[H1 H2]%andb_true_iff H3].
    apply list_elem_of_In in Hc. by apply bool_decide_eq_true in H1, H2.
  - intros (c & Hc & H1 & H2 & H3). exists c. split; [by apply list_elem_of_In|].
    unfold grants. by rewrite !bool_decide_true, H3.
Qed.

Lemma covers_trans a b c : covers a b = true -> covers b c = true -> covers a c = true.
Proof. by destruct a, b, c. Qed.

Lemma covers_refl a : covers a a = true.
Proof. by destruct a. Qed.

Lemma walk_segs_end it cs :
  (match walk_segs it cs with Some [] => true | _ => false end) = bool_decide (it = cs).
Proof.
  revert it. induction cs as [|x cs IH]; intros [|s it]; simpl; try done.
  case_bool_decide as Hs; subst.
  - rewrite IH. apply bool_decide_ext. naive_solver.
  - symmetry. apply bool_decide_eq_false. naive_solver.
Qed.

Lemma walk_segs_last it cs x :
  (match walk_segs it cs with Some [s] => bool_decide (s = x) | _ => false end)
  = bool_decide (it = cs ++ [x]).
Proof.
  revert it. induction cs as [|y cs IH]; intros [|s it]; simpl; try done.
  - destruct it; simpl; [apply bool_decide_ext; naive_solver|].
    symmetry. apply bool_decide_eq_false. naive_solver.
  - case_bool_decide as Hs; subst.
    + rewrite IH. apply bool_decide_ext. naive_solver.
    + symmetry. apply bool_decide_eq_false. naive_solver.
Qed.

Lemma cap_matches_prefix_eq c comps n :
  cap_matches_prefix c comps n = bool_decide (segs (path c) = take n comps).
Proof. apply walk_segs_end. Qed.

Lemma existsb_ext_Forall {A} (f g : A -> bool) l :
  Forall (fun x => f x = g x) l -> existsb f l = existsb g l.
Proof. induction 1 as [|x l Hx _ IH]; simpl; [done|]. by rewrite Hx, IH. Qed.

Lemma forallb_mono {A} (f g : A -> bool) l :
  (forall x, f x = true -> g x = true) -> forallb f l = true -> forallb g l = true.
Proof. rewrite !forallb_forall. auto. Qed.

Lemma existsb_mono {A} (f g : A -> bool) l :
  (forall x, f x = true -> g x = true) -> existsb f l = true -> existsb g l = true.
Proof. rewrite !existsb_exists. intros H (x & ? & ?). eauto. Qed.

(** ** Attenuation *)

Lemma is_subset_spec parent child :
  is_subset parent child = true <->
  forall c, c ∈ child -> has_perm parent (path c) (cap_method c) (perm c) = true.
Proof.
  unfold is_subset. rewrite forallb_forall. setoid_rewrite <- list_elem_of_In. done.
Qed.

Lemma subset_cap parent child c :
  is_subset parent child = true -> c ∈ child ->
  exists c', c' ∈ parent /\ path c' = path c /\ cap_method c' = cap_method c
             /\ covers (perm c') (perm c) = true.
Proof. intros H Hc. by apply has_perm_true, (proj1 (is_subset_spec _ _) H). Qed.

Lemma subset_has_perm parent child p m want :
  is_subset parent child = true ->
  has_perm child p m want = true -> has_perm parent p m want = true.
Proof.
  intros Hs (c & Hc & <- & <- & Hp)%has_perm_true.
  destruct (subset_cap _ _ _ Hs Hc) as (c' & ? & ? & ? & ?).
  apply has_perm_true. exists c'. eauto using covers_trans.
Qed.

(** A lookup that depends on path and method only, and is monotone in the
    permission. *)
Lemma subset_existsb parent child (f : string -> option string -> bool) want :
  is_subset parent child = true ->
  existsb (fun c => f (path c) (cap_method c) && covers (perm c) want) child = true ->
  existsb (fun c => f (path c) (cap_method c) && covers (perm c) want) parent = true.
Proof.
  rewrite !existsb_exists. intros Hs (c & Hc & [Hf Hp]%andb_true_iff).
  apply list_elem_of_In in Hc. destruct (subset_cap _ _ _ Hs Hc) as (c' & Hc' & E1 & E2 & ?).
  exists c'. split; [by apply list_elem_of_In|].
  rewrite E1, E2, Hf. simpl. eauto using covers_trans.
Qed.

Lemma subset_has_perm_on parent child comps m want :
  is_subset parent child = true ->
  has_perm_on child comps m want = true -> has_perm_on parent comps m want = true.
Proof.
  intros Hs. apply (subset_existsb _ _ (fun p m' =>
    cap_matches_components (mkCap p m' R) comps m)); done.
Qed.

Lemma subset_has_ancestor_r parent child comps :
  is_subset parent child = true ->
  has_ancestor_r child comps = true -> has_ancestor_r parent comps = true.
Proof.
  intros Hs. unfold has_ancestor_r. destruct comps; [done|].
  apply forallb_mono. intros i. by apply subset_has_perm.
Qed.

Lemma subset_has_ancestor_r_on parent child comps :
  is_subset parent child = true ->
  has_ancestor_r_on child comps = true -> has_ancestor_r_on parent comps = true.
Proof.
  intros Hs. apply forallb_mono. intros n.
  by apply (subset_existsb _ _ (fun p m' => cap_matches_prefix (mkCap p m' R) comps n)).
Qed.

Lemma check_leaf_mono (f g : option string -> Perm -> bool) m want :
  (forall m w, f m w = true -> g m w = true) ->
  check_leaf f m want = Ok tt -> check_leaf g m want = Ok tt.
Proof.
  intros H. unfold check_leaf. destruct m as [m|].
  - destruct (f None R) eqn:E1; simpl; [|done]. rewrite (H _ _ E1). simpl.
    destruct (f (Some m) want) eqn:E2; simpl; [by rewrite (H _ _ E2)|].
    by destruct (f (Some m) R && _).
  - destruct (f None want) eqn:E1; simpl; [by rewrite (H _ _ E1)|].
    by destruct (f None R && _).
Qed.

Lemma subset_nil child : is_subset [] child = true -> child = [].
Proof. by destruct child. Qed.

Lemma check_path_mono env parent child comps m want :
  is_subset parent child = true ->
  check_path env (Some child) comps m want = Ok tt ->
  check_path env (Some parent) comps m want = Ok tt.
Proof.
  intros Hs. destruct (decide (parent = [])) as [->|Hne]; [by rewrite (subset_nil _ Hs)|].
  unfold check_path. rewrite (bool_decide_false (parent = [])) by done.
  rewrite andb_false_l.
  case_bool_decide; [case_bool_decide; [|done]|];
    (destruct (canonicalize_proc_alias env comps); simpl; [|done..];
     destruct (has_ancestor_r child _) eqn:E; simpl; [|done];
     rewrite (subset_has_ancestor_r _ _ _ Hs E); simpl;
     apply check_leaf_mono; intros ??; by apply subset_has_perm).
Qed.

Lemma check_path_on_mono env parent child comps m want :
  is_subset parent child = true ->
  check_path_on env (Some child) comps m want = Ok tt ->
  check_path_on env (Some parent) comps m want = Ok tt.
Proof.
  intros Hs. destruct (decide (parent = [])) as [->|Hne]; [by rewrite (subset_nil _ Hs)|].
  unfold check_path_on. rewrite (bool_decide_false (parent = [])) by done.
  rewrite andb_false_l.
  case_bool_decide; [case_bool_decide; [|done]|];
    (destruct (canonicalize_proc_alias env comps); simpl; [|done..];
     destruct (has_ancestor_r_on child _) eqn:E; simpl; [|done];
     rewrite (subset_has_ancestor_r_on _ _ _ Hs E); simpl;
     apply check_leaf_mono; intros ??; by apply subset_has_perm_on).
Qed.

Lemma filter_mono {A} (f g : A -> bool) l x :
  (forall y, f y = true -> g y = true) -> x ∈ List.filter f l -> x ∈ List.filter g l.
Proof. intros H. rewrite !list_elem_of_In, !filter_In. naive_solver. Qed.

Lemma filter_listing_mono env parent child dir names e :
  is_subset parent child = true ->
  e ∈ filter_listing env child dir names -> e ∈ filter_listing env parent dir names.
Proof.
  intros Hs. apply filter_mono. intros y. destruct (_ && alias_allows _ _);
    by apply subset_has_perm.
Qed.

Lemma spawn_caps_Ok parent provided child :
  spawn_caps (Some parent) provided = Ok child ->
  child = provided /\ is_subset parent child = true
  /\ Forall (fun c => validate_cap c = Ok tt) child
  /\ Z.of_nat (length child) <= MAX_CAPS_PER_TASK.
Proof.
  unfold spawn_caps. intros H. res_inv.
  destruct (MAX_CAPS_PER_TASK <? _) eqn:Hlen; [done|].
  destruct (is_subset parent provided) eqn:Hs; [|done]. simplify_eq/=.
  split_and!; [done..| |lia]. clear Hs Hlen. destruct x.
  induction child as [|c l IH]; [constructor|]. cbn beta iota in *. res_inv.
  destruct (as_u8 (perm c) =? 2); [done|]. destruct x. constructor; auto.
Qed.

(** C3: a spawned process never gains authority: when the capability checks of
    a spawn accept a list for the child of a restricted caller, every object or
    method the child may open, by either form of the path check, is one the
    caller may open, and every directory entry the child sees the caller sees;
    the accepted capabilities are canonical and at most [MAX_CAPS_PER_TASK]. *)
Theorem spawn_attenuates env parent provided child :
  spawn_caps (Some parent) provided = Ok child ->
  (forall comps m want,
     check_path env (Some child) comps m want = Ok tt ->
     check_path env (Some parent) comps m want = Ok tt)
  /\ (forall comps m want,
     check_path_on env (Some child) comps m want = Ok tt ->
     check_path_on env (Some parent) comps m want = Ok tt)
  /\ (forall dir names e,
     e ∈ filter_listing env child dir names ->
     e ∈ filter_listing env parent dir names)
  /\ Forall (fun c => validate_cap c = Ok tt) child
  /\ Z.of_nat (length child) <= MAX_CAPS_PER_TASK.
Proof.
  intros (_ & Hs & Hv & Hlen)%spawn_caps_Ok.
  split_and!; [..|exact Hv|exact Hlen].
  - intros ???. by apply check_path_mono.
  - intros ???. by apply check_path_on_mono.
  - intros ???. by apply filter_listing_mono.
Qed.

Definition env0 : Env := {| current_pid := Some 7; lineage := {[9 := 7; 7 := 1]} |}.

Lemma spawn_attenuates_witness :
  check_path env0 (Some [mkCap "A" None RW; mkCap "A/x" None RW; mkCap "B" None R])
    ["A"; "x"] None R = Ok tt.
Proof.
  apply (spawn_attenuates env0 [mkCap "A" None RW; mkCap "A/x" None RW; mkCap "B" None R]
           [mkCap "A" None R; mkCap "A/x" None R] [mkCap "A" None R; mkCap "A/x" None R]).
  - vm_compute. reflexivity.
  - vm_compute. reflexivity.
Defined.

(** ** The two forms of the path check *)

Definition cap_valid (c : Cap) : Prop := validate_cap c = Ok tt.
Definition seg_list (l : list string) : Prop := Forall (fun s => seg_ok s = true) l.

Lemma segs_canonical c : cap_valid c -> join_slash (segs (path c)) = path c.
Proof.
  unfold cap_valid, validate_cap, segs, nonempty_pieces. intros H.
  destruct (MAX_CAP_PATH_LEN <? _); [done|].
  destruct (match cap_method c with Some m => bad_method m | None => false end); [done|].
  destruct (is_empty (path c)) eqn:He; [by destruct (path c)|]. simpl in H.
  destruct (existsb bad_cap_segment (split_on slash (path c))) eqn:Hb;
    [by rewrite orb_true_r in H|].
  etrans; [|apply join_split]. f_equal.
  induction (split_on slash (path c)) as [|x l IH]; simpl; [done|].
  simpl in Hb. apply orb_false_iff in Hb as [Hx Hb].
  unfold bad_cap_segment in Hx. destruct (is_empty x); [done|]. simpl. by rewrite IH.
Qed.

Lemma cap_path_iff c comps : cap_valid c -> seg_list comps ->
  path c = join_slash comps <-> segs (path c) = comps.
Proof.
  intros Hc Hs. split.
  - intros ->. by apply pieces_join.
  - intros <-. by rewrite segs_canonical.
Qed.

Lemma has_perm_on_eq caps comps m want :
  Forall cap_valid caps -> seg_list comps ->
  has_perm_on caps comps m want = has_perm caps (join_path comps) m want.
Proof.
  intros Hv Hs. rewrite has_perm_existsb. apply existsb_ext_Forall.
  eapply Forall_impl; [exact Hv|]. intros c Hc. simpl.
  unfold cap_matches_components, grants, join_path.
  rewrite (bool_decide_ext (path c = join_slash comps) (segs (path c) = comps))
    by by apply cap_path_iff.
  by destruct (bool_decide (cap_method c = m)), (bool_decide (segs (path c) = comps)).
Qed.

Lemma seg_list_take n l : seg_list l -> seg_list (take n l).
Proof. apply Forall_take. Qed.

(** Traversal: the component form accepts whatever the string form does, and no
    more when the object of every capability is itself readable. *)
Definition objects_readable (caps : list Cap) : Prop :=
  Forall (fun c => has_perm caps (path c) None R = true) caps.

Lemma prefix_readable caps comps n :
  Forall cap_valid caps -> seg_list comps ->
  has_perm caps (join_slash (take n comps)) None R = true ->
  existsb (fun c => cap_matches_prefix c comps n && covers (perm c) R) caps = true.
Proof.
  intros Hv Hs (c & Hc & Hp & _ & Hr)%has_perm_true. apply existsb_exists. exists c.
  split; [by apply list_elem_of_In|]. rewrite cap_matches_prefix_eq, Hr, andb_true_r.
  apply bool_decide_eq_true, cap_path_iff; [|by apply seg_list_take|done].
  rewrite Forall_forall in Hv. by apply Hv.
Qed.

Lemma prefix_readable_inv caps comps n :
  Forall cap_valid caps -> seg_list comps -> objects_readable caps ->
  existsb (fun c => cap_matches_prefix c comps n && covers (perm c) R) caps = true ->
  has_perm caps (join_slash (take n comps)) None R = true.
Proof.
  intros Hv Hs Hr (c & Hc & [Hm _]%andb_true_iff)%existsb_exists.
  apply list_elem_of_In in Hc. rewrite cap_matches_prefix_eq in Hm.
  apply bool_decide_eq_true in Hm. unfold objects_readable in Hr.
  rewrite Forall_forall in Hv, Hr. specialize (Hr _ Hc). simpl in Hr.
  by rewrite <- Hm, segs_canonical by by apply Hv.
Qed.

Lemma has_ancestor_r_shift caps comps :
  has_ancestor_r caps comps
  = forallb (fun n => has_perm caps (join_slash (take n comps)) None R)
      (seq 1 (length comps - 1)).
Proof.
  unfold has_ancestor_r. destruct comps as [|x l]; [done|].
  rewrite <- (seq_shift _ 0). generalize (x :: l) as cs. intros cs.
  induction (seq 0 (length cs - 1)) as [|i ns IH]; simpl; [done|]. by rewrite IH.
Qed.

Lemma has_ancestor_r_on_weaker caps comps :
  Forall cap_valid caps -> seg_list comps ->
  has_ancestor_r caps comps = true -> has_ancestor_r_on caps comps = true.
Proof.
  intros Hv Hs. rewrite has_ancestor_r_shift. apply forallb_mono.
  intros n. by apply prefix_readable.
Qed.

Lemma has_ancestor_r_on_eq caps comps :
  Forall cap_valid caps -> seg_list comps -> objects_readable caps ->
  has_ancestor_r_on caps comps = has_ancestor_r caps comps.
Proof.
  intros Hv Hs Hr. apply eq_true_iff_eq. split; [|by apply has_ancestor_r_on_weaker].
  rewrite has_ancestor_r_shift. apply forallb_mono.
  intros n. by apply prefix_readable_inv.
Qed.

Lemma alias_seg_list env comps v :
  seg_list comps -> canonicalize_proc_alias env comps = Ok (Some v) -> seg_list v.
Proof.
  intros Hs. unfold canonicalize_proc_alias.
  destruct comps as [|c0 [|c1 rest]]; try done.
  destruct (_ && _); [|done]. destruct (parse_pid c1); [|done].
  destruct (current_pid env); [|done]. destruct (is_ancestor _ _ _); [|done].
  intros [= <-]. inversion Hs as [|? ? H0 Hs']; subst. inversion Hs'; subst.
  by repeat constructor.
Qed.

Lemma check_leaf_ext (f g : option string -> Perm -> bool) m want :
  (forall m w, f m w = g m w) -> check_leaf f m want = check_leaf g m want.
Proof. intros H. unfold check_leaf. destruct m; by rewrite !H. Qed.

(** The components the check is about, after the alias. *)
Lemma alias_ref_seg_list env comps o :
  seg_list comps -> canonicalize_proc_alias env comps = Ok o ->
  seg_list (match o with Some v => v | None => comps end).
Proof. intros Hs. destruct o as [v|]; [by apply alias_seg_list|done]. Qed.

Lemma check_path_on_weaker env caps comps m want :
  Forall cap_valid caps -> seg_list comps ->
  check_path env (Some caps) comps m want = Ok tt ->
  check_path_on env (Some caps) comps m want = Ok tt.
Proof.
  intros Hv Hs. unfold check_path, check_path_on.
  destruct (bool_decide (caps = []) && _); [done|].
  destruct (canonicalize_proc_alias env comps) as [o|e|] eqn:E; cbn [res_bind]; [|done..].
  pose proof (alias_ref_seg_list _ _ _ Hs E) as Hs'.
  destruct (has_ancestor_r caps _) eqn:Ha; [|done].
  rewrite (has_ancestor_r_on_weaker _ _ Hv Hs' Ha). simpl.
  intros <-. apply check_leaf_ext. intros. by apply has_perm_on_eq.
Qed.

(** C22: on canonical capabilities and parsed components, the allocation-free
    path check grants everything the string form grants; when the object of
    every capability held is itself readable (no method capability stands
    alone), the two forms return the same result, errors included. *)
Theorem check_path_on_equiv env caps comps m want :
  Forall cap_valid caps -> seg_list comps ->
  (check_path env (Some caps) comps m want = Ok tt ->
   check_path_on env (Some caps) comps m want = Ok tt)
  /\ (objects_readable caps ->
      check_path_on env (Some caps) comps m want
      = check_path env (Some caps) comps m want).
Proof.
  intros Hv Hs. split; [by apply check_path_on_weaker|]. intros Hr.
  unfold check_path, check_path_on. destruct (bool_decide (caps = []) && _); [done|].
  destruct (canonicalize_proc_alias env comps) as [o|e|] eqn:E; cbn [res_bind]; [|done..].
  pose proof (alias_ref_seg_list _ _ _ Hs E) as Hs'.
  rewrite has_ancestor_r_on_eq by done. destruct (negb _); [done|].
  apply check_leaf_ext. intros. by apply has_perm_on_eq.
Qed.

Lemma check_path_on_equiv_witness :
  check_path_on env0 (Some [mkCap "proc" None R; mkCap "proc/self" None R]) ["proc"; "9"] None RW
  = Err AccessDenied.
Proof.
  rewrite (proj2 (check_path_on_equiv env0
    [mkCap "proc" None R; mkCap "proc/self" None R] ["proc"; "9"] None RW
    ltac:(repeat constructor) ltac:(repeat constructor))).
  - vm_compute. reflexivity.
  - repeat constructor.
Defined.

(** The two forms of the check differ on a method capability whose object
    is not granted: [has_ancestor_r_on] ignores the method of the capabilities
    it scans, so a capability for [A:stat] alone makes [A] traversable for the
    component form (which the system call path uses) while the string form
    answers [NotFound]. *)
Theorem method_cap_grants_traversal :
  let caps := [mkCap "A" (Some "stat"%string) R; mkCap "A/x" None R] in
  Forall cap_valid caps /\
  forall env,
    check_path_on env (Some caps) ["A"; "x"] None R = Ok tt
    /\ check_path env (Some caps) ["A"; "x"] None R = Err NotFound.
Proof. split; [repeat constructor|]. intros env. vm_compute. auto. Qed.

(** ** Listings *)

Lemma join_snoc l x : l <> [] -> join_slash (l ++ [x]) = join_slash l +:+ String slash x.
Proof.
  induction l as [|a l IH]; [done|]. intros _. destruct l as [|b l]; [done|].
  change (join_slash ((a :: b :: l) ++ [x]))
    with (a +:+ String slash (join_slash ((b :: l) ++ [x]))).
  change (join_slash (a :: b :: l)) with (a +:+ String slash (join_slash (b :: l))).
  rewrite IH by done. by rewrite string_app_assoc.
Qed.

Lemma child_path_join dir n : seg_list dir ->
  (if is_empty (join_slash dir) then n else join_slash dir +:+ String slash n)
  = join_slash (dir ++ [n]).
Proof.
  intros Hd. destruct (decide (dir = [])) as [->|Hne]; [done|].
  rewrite join_snoc by done. destruct (join_slash dir) eqn:E; [|done].
  pose proof (pieces_join _ Hd) as HP. rewrite E in HP. by destruct dir.
Qed.

Lemma child_lookup caps dir n :
  Forall cap_valid caps -> seg_list (dir ++ [n]) ->
  existsb (fun c => bool_decide (cap_method c = None) && covers (perm c) R
      && match walk_segs (segs (path c)) dir with
         | Some [s] => bool_decide (s = n)
         | _ => false
         end) caps
  = has_perm caps (join_slash (dir ++ [n])) None R.
Proof.
  intros Hv Hs. rewrite has_perm_existsb. apply existsb_ext_Forall.
  eapply Forall_impl; [exact Hv|]. intros c Hc. simpl. rewrite walk_segs_last.
  unfold grants. rewrite (bool_decide_ext (path c = _) (segs (path c) = dir ++ [n]))
    by by apply cap_path_iff.
  apply eq_true_iff_eq. rewrite !andb_true_iff, !bool_decide_eq_true. naive_solver.
Qed.

Lemma join_proc dir : seg_list dir ->
  bool_decide (dir = ["proc"]) = bool_decide (join_slash dir = "proc").
Proof.
  intros Hd. apply bool_decide_ext. split; [by intros ->|]. intros H.
  rewrite <- (pieces_join _ Hd), H. reflexivity.
Qed.

(** On canonical capabilities the component-wise listing filter returns
    exactly the entries the string-keyed one does, in the same order, for any
    directory and any entries whose names are single components, the
    [proc/<pid>] alias included. *)
Theorem filter_listing_on_equiv env caps dir (names : list ListingEntry) :
  Forall cap_valid caps -> seg_list dir ->
  Forall (fun e => seg_ok (name e) = true) names ->
  filter_listing_on env caps dir names
  = filter_listing env caps (join_path dir) names.
Proof.
  intros Hv Hd Hn. unfold filter_listing_on, filter_listing, join_path.
  rewrite (join_proc dir) by done.
  induction Hn as [|e l He _ IH]; simpl; [done|]. rewrite IH. clear IH.
  match goal with |- (if ?a then _ else _) = (if ?b then _ else _) => assert (a = b) as ->; [|done] end.
  rewrite child_path_join by done.
  destruct (bool_decide (join_slash dir = "proc") && is_numeric_pid (name e)
            && alias_allows env (name e)) eqn:E.
  - apply andb_true_iff in E as [E1 E2]. rewrite E1, E2. simpl.
    apply andb_true_iff in E1 as [E1 _].
    rewrite <- join_proc in E1 by done. apply bool_decide_eq_true in E1 as ->.
    rewrite child_lookup by (done || by repeat constructor). reflexivity.
  - rewrite child_lookup.
    + do 2 f_equal. destruct (bool_decide _ && is_numeric_pid _); simpl in *; [|done].
      by rewrite E.
    + done.
    + destruct (bool_decide _ && is_numeric_pid _); simpl in *; [rewrite E|];
        apply Forall_app; (split; [done|by constructor]).
Qed.

Lemma filter_listing_on_equiv_witness :
  let ls := [{| name := "9"; kind := Dir |}; {| name := "4"; kind := Dir |};
             {| name := "self"; kind := Dir |}] in
  filter_listing_on env0 [mkCap "proc" None R; mkCap "proc/self" None R] ["proc"] ls
  = [{| name := "9"; kind := Dir |}; {| name := "self"; kind := Dir |}].
Proof.
  intros ls. rewrite (filter_listing_on_equiv env0 _ ["proc"] ls).
  - vm_compute. reflexivity.
  - repeat constructor.
  - repeat constructor.
  - repeat constructor.
Defined.
