(* ===== verification/CapsStore.v ===== *)
(** * Capability storage: grants, INIT's table, the supervisor window

    Model of the stateful half of kernel/src/caps/mod.rs ([current_caps],
    [grant_to_current], [full_caps_for_init], [serialize_to_page]), of the
    grants of kernel/src/task/mod.rs ([grant_cap_to_pid],
    [propagate_cap_to_parents]) and of [arg_caps] in
    kernel/src/unispace/provider/proc.rs. *)

From S2P Require Import Prelude Errors UniSchema UniPath Lineage Caps.
Import Errors.Uni.
Local Open Scope Z_scope.

(** ** The supervisor window image

    [serialize_to_page] fills a zeroed bounce buffer strictly left to right, so
    the buffer is modelled by the bytes written so far; the raw pointer writes
    have no bounds check of their own, and a write past [size] is a [Panic]. *)

Definition emit (acc bs : list Z) : res UnispaceError (list Z) :=
  if Z.of_nat (length acc) + Z.of_nat (length bs) <=? CAP_SLOT_SIZE
  then Ok (acc ++ bs) else Panic.

(** [while off % 4 != 0 { bounce[off] = 0; off += 1; }]; at most 3 rounds. *)
Fixpoint pad4 (fuel : nat) (acc : list Z) : res UnispaceError (list Z) :=
  if Z.of_nat (length acc) mod 4 =? 0 then Ok acc
  else match fuel with
       | O => Panic
       | S fuel => let? acc := emit acc [0] in pad4 fuel acc
       end.

Definition method_len (c : Cap) : Z :=
  match cap_method c with Some m => Z.of_nat (String.length m) | None => 0 end.

Definition emit_cap (acc : list Z) (c : Cap) : res UnispaceError (list Z) :=
  let? acc := emit acc (le_bytes 4 (Z.of_nat (String.length (path c)))) in
  let? acc := emit acc (bytes_of_string (path c)) in
  let? acc := pad4 3 acc in
  let? acc :=
    match cap_method c with
    | Some m =>
        let? acc := emit acc (le_bytes 4 (Z.of_nat (String.length m))) in
        let? acc := emit acc (bytes_of_string m) in
        pad4 3 acc
    | None => emit acc (le_bytes 4 4294967295)
    end in
  let? acc := emit acc [as_u8 (perm c)] in
  emit acc [0; 0; 0].

Fixpoint emit_caps (caps : list Cap) (acc : list Z) (n_written : Z)
  : res UnispaceError (list Z * Z) :=
  match caps with
  | [] => Ok (acc, n_written)
  | c :: caps =>
      if CAP_SLOT_SIZE <? Z.of_nat (length acc) + 8
           + Z.of_nat (String.length (path c)) + 8 + method_len c + 4
      then Ok (acc, n_written)
      else
        let? acc := emit_cap acc c in
        let? n := u32_add (H := true) n_written 1 in
        emit_caps caps acc n
  end.

(** The window contents after the copy-out. *)
Definition serialize_to_page (caps : list Cap) : res UnispaceError (list Z) :=
  let? '(acc, n) := emit_caps caps [0; 0; 0; 0] 0 in
  Ok (le_bytes 4 n ++ drop 4 acc
      ++ replicate (Z.to_nat CAP_SLOT_SIZE - length acc) 0).

(** ** Grants *)

(** The capability fields of [Task]; [window] is the content of the physical
    window at [caps_phys] (0 when none is mapped). *)
Record TaskCaps := mkTask {
  caps_arc : option (list Cap);
  vm : Z;
  caps_phys : Z;
  window : list Z
}.

(** [current_caps()]: [None] (bypass) for no task and for kernel roots. *)
Definition current_caps (t : option TaskCaps) : option (list Cap) :=
  match t with
  | None => None
  | Some t =>
      match caps_arc t with
      | None => if vm t =? 0 then None else Some []
      | Some arc => Some arc
      end
  end.

(** [c.perm] upgraded at the first entry for [(p, m)]; [None]: no such entry,
    [Some None]: that entry already covers [pm]. *)
Fixpoint upgrade (caps : list Cap) (p : string) (m : option string) (pm : Perm)
  : option (option (list Cap)) :=
  match caps with
  | [] => None
  | c :: caps =>
      if bool_decide (path c = p) && bool_decide (cap_method c = m) then
        if covers (perm c) pm then Some None
        else Some (Some (mkCap (path c) (cap_method c) pm :: caps))
      else
        match upgrade caps p m pm with
        | Some (Some l) => Some (Some (c :: l))
        | r => r
        end
  end.

(** Store [caps] and refresh the mirror when one is mapped. *)
Definition store_caps (t : TaskCaps) (caps : list Cap)
  : TaskCaps * res UnispaceError unit :=
  if caps_phys t =? 0 then (mkTask (Some caps) (vm t) (caps_phys t) (window t), Ok tt)
  else
    match serialize_to_page caps with
    | Ok w => (mkTask (Some caps) (vm t) (caps_phys t) w, Ok tt)
    | _ => (t, Panic)
    end.

(** [grant_to_current]; [installed] is the physical base [install_caps]
    allocates and maps, [None] when memory is exhausted. *)
Definition grant_to_current (installed : option Z) (t : option TaskCaps)
  (p : string) (m : option string) (pm : Perm)
  : option TaskCaps * res UnispaceError unit :=
  match t with
  | None => (None, Ok tt)
  | Some t =>
      match caps_arc t with
      | None =>
          let cap := mkCap p m pm in
          match validate_cap cap with
          | Ok _ =>
              match installed with
              | Some phys =>
                  match serialize_to_page [cap] with
                  | Ok w => (Some (mkTask (Some [cap]) (vm t) phys w), Ok tt)
                  | _ => (Some t, Panic)
                  end
              | None => (Some t, Err OutOfMemory)
              end
          | Err e => (Some t, Err e)
          | Panic => (Some t, Panic)
          end
      | Some caps =>
          if MAX_CAPS_PER_TASK <=? Z.of_nat (length caps)
          then (Some t, Err OutOfMemory)
          else
            match upgrade caps p m pm with
            | Some None => (Some t, Ok tt)
            | Some (Some caps) =>
                let '(t, r) := store_caps t caps in (Some t, r)
            | None =>
                let cap := mkCap p m pm in
                match validate_cap cap with
                | Ok _ => let '(t, r) := store_caps t (caps ++ [cap]) in (Some t, r)
                | Err e => (Some t, Err e)
                | Panic => (Some t, Panic)
                end
            end
      end
  end.

(** [do_grant]: an absent vector is installed empty first. *)
Definition do_grant (installed : option Z) (t : TaskCaps) (cap : Cap)
  : TaskCaps * res UnispaceError unit :=
  let '(t, ready) :=
    match caps_arc t with
    | Some _ => (t, Ok tt)
    | None =>
        match installed with
        | Some phys =>
            match serialize_to_page [] with
            | Ok w => (mkTask (Some []) (vm t) phys w, Ok tt)
            | _ => (t, Panic)
            end
        | None => (t, Err OutOfMemory)
        end
    end in
  match ready, caps_arc t with
  | Ok _, Some caps =>
      if MAX_CAPS_PER_TASK <=? Z.of_nat (length caps) then (t, Err OutOfMemory)
      else
        match upgrade caps (path cap) (cap_method cap) (perm cap) with
        | Some None => (t, Ok tt)
        | Some (Some caps) => store_caps t caps
        | None => store_caps t (caps ++ [cap])
        end
  | Ok _, None => (t, Err OutOfMemory)
  | Err e, _ => (t, Err e)
  | Panic, _ => (t, Panic)
  end.

(** The tasks [with_task_mut] can reach, by pid. *)
Notation Tasks := (gmap Z TaskCaps).

Definition grant_cap_to_pid (installed : Z -> option Z) (ts : Tasks) (pid : Z)
  (cap : Cap) : Tasks * res UnispaceError unit :=
  match validate_cap cap with
  | Ok _ =>
      match ts !! pid with
      | Some t =>
          let '(t, r) := do_grant (installed pid) t cap in (<[pid := t]> ts, r)
      | None => (ts, Err NotFound)
      end
  | Err e => (ts, Err e)
  | Panic => (ts, Panic)
  end.

(** Results of the individual grants are discarded ([let _ = ...]). *)
Definition propagate_cap_to_parents (installed : Z -> option Z)
  (current : option Z) (lin : gmap Z Z) (ts : Tasks)
  (p : string) (m : option string) (pm : Perm) : Tasks :=
  match current with
  | None => ts
  | Some start =>
      let ts :=
        match grant_to_current (installed start) (ts !! start) p m pm with
        | (Some t, _) => <[start := t]> ts
        | (None, _) => ts
        end in
      fold_left (fun ts ppid =>
          fst (grant_cap_to_pid installed ts ppid (mkCap p m pm)))
        (lineage_chain lin start) ts
  end.

(** ** Capabilities on the wire *)

Definition arg_cap (item : Value) : res UnispaceError Cap :=
  match item with
  | VStruct [f0; f1; f2] =>
      match f0 with
      | VStr p =>
          match f1 with
          | VStr method_raw =>
              let m := if is_empty method_raw then None else Some method_raw in
              match f2 with
              | VU64 n =>
                  let perm_u32 := n mod 2 ^ 32 in
                  if perm_u32 =? 1 then Ok (mkCap p m R)
                  else if perm_u32 =? 3 then Ok (mkCap p m RW)
                  else Err InvalidArgument
              | _ => Err SchemaMismatch
              end
          | _ => Err SchemaMismatch
          end
      | _ => Err SchemaMismatch
      end
  | _ => Err SchemaMismatch
  end.

Fixpoint arg_cap_list (items : list Value) : res UnispaceError (list Cap) :=
  match items with
  | [] => Ok []
  | item :: items =>
      let? c := arg_cap item in
      let? l := arg_cap_list items in
      Ok (c :: l)
  end.

Definition arg_caps (v : Value) (idx : nat) : res UnispaceError (list Cap) :=
  match v with
  | VStruct fields =>
      match fields !! idx with
      | Some (VList items) => arg_cap_list items
      | _ => Err SchemaMismatch
      end
  | _ => Err SchemaMismatch
  end.

(** ** INIT's table *)

(** The [add] closure. *)
Fixpoint add (caps : list Cap) (p : string) (m : option string) (pm : Perm)
  : list Cap :=
  match caps with
  | [] => [mkCap p m pm]
  | c :: caps =>
      if bool_decide (path c = p) && bool_decide (cap_method c = m) then
        if covers (perm c) pm then c :: caps
        else if covers pm (perm c) then mkCap (path c) (cap_method c) pm :: caps
        else c :: add caps p m pm
      else c :: add caps p m pm
  end.

Section InitTable.
Local Open Scope string_scope.
Local Open Scope list_scope.

(** The arguments of the [add] calls in program order; every permission is
    [Perm::RW]. *)
Definition init_adds : list (string * option string) :=
  [(EmptyString, None)]
  ++ flat_map (fun d =>
      [(d, None)])
      ["A"; "B"; "sys"; "dev"; "drivers"; "driver"; "input"; "kernel";
       "proc"]
  ++ flat_map (fun f =>
      [(f, None)])
      ["sys/version"; "sys/phys_mem"; "sys/cpus"; "sys/features"]
  ++ [("dev/fb", None)]
  ++ flat_map (fun m => [("dev/fb", Some m)]) ["mode"; "clear"]
  ++ [("dev/random", None)]
  ++ [("dev/urandom", None)]
  ++ flat_map (fun d =>
      [(d, None)])
      ["sys/mm"; "sys/arch"; "sys/pci"; "sys/platform"; "sys/smp";
       "sys/sched"; "sys/acpi"; "sys/fs"; "sys/input"; "kernel/mm";
       "kernel/mm/heap"; "kernel/mm/vmm"; "kernel/smp"; "kernel/sched";
       "kernel/acpi"; "kernel/dump"; "kernel/arch"; "kernel/platform";
       "dev/pci"; "dev/block"; "dev/usb"; "dev/input"]
  ++ [("sys/arch/satp", None)]
  ++ flat_map (fun prefix =>
      [((prefix +:+ "/debugserial"), None)]
      ++ [((prefix +:+ "/audio"), None)]
      ++ flat_map (fun m => [((prefix +:+ "/audio"), Some m)])
       ["play_tone"; "play_pcm"]
      ++ [((prefix +:+ "/ps2"), None)]
      ++ [((prefix +:+ "/usb"), None)])
      ["drivers"; "driver"]
  ++ flat_map (fun p =>
      [(p, None)])
      ["dev/pci"; "dev/pci/count"; "dev/pci_count"; "dev/block";
       "dev/block/count"; "dev/block_count"; "dev/usb"; "dev/usb/count";
       "dev/input"; "dev/input/devices"; "dev/input/events";
       "dev/input/overflows"; "dev/input/kbd"]
  ++ flat_map (fun m => [("dev/input/kbd", Some m)]) ["get"; "flush"]
  ++ flat_map (fun f => [(f, None)]) ["input/devices"; "input/events";
       "input/overflows"; "input/kbd"]
  ++ flat_map (fun m => [("input/kbd", Some m)]) ["get"; "flush"]
  ++ flat_map (fun p =>
      [(p, None)])
      ["sys/mm/layout"; "sys/mm/physmap"; "sys/arch/cpufeat";
       "sys/arch/paging"; "sys/arch/lapic"; "sys/arch/satp";
       "sys/pci/ecam"; "sys/platform/apic"; "sys/platform/ioapic";
       "sys/platform/pit"; "sys/platform/interrupts"; "sys/smp/count";
       "sys/sched/counts"; "sys/acpi/cpus"; "sys/acpi/mcfg";
       "sys/acpi/dmar"; "sys/acpi/tables"; "sys/fs/mounts";
       "sys/input/ps2"]
  ++ flat_map (fun p =>
      [(p, None)])
      ["kernel/mm/heap"; "kernel/mm/heap/chunks"; "kernel/mm/heap_chunks";
       "kernel/mm/phys"; "kernel/mm/vmm"; "kernel/mm/vmm/clones";
       "kernel/mm/vmm_clones"; "kernel/mm/vmm/cpu_roots";
       "kernel/mm/vmm_cpu_roots"; "kernel/mm/fault"]
  ++ flat_map (fun m => [("kernel/mm/vmm", Some m)]) ["translate"]
  ++ flat_map (fun p => [(p, None)]) ["kernel/arch/syscall";
       "kernel/arch/gdt"]
  ++ flat_map (fun p =>
      [(p, None)])
      ["kernel/smp/cpus"; "kernel/smp/states"; "kernel/smp/ap_ready";
       "kernel/sched/snapshot"; "kernel/sched/queue";
       "kernel/sched/lineage"; "kernel/sched/kstacks"]
  ++ flat_map (fun p => [(p, None)]) ["kernel/acpi/platform"]
  ++ flat_map (fun p => [(p, None)]) ["kernel/dump/in_progress";
       "kernel/dump/last"]
  ++ flat_map (fun p => [(p, None)]) ["kernel/platform/apic"]
  ++ [("kernel/timer", None)]
  ++ flat_map (fun m => [("kernel/timer", Some m)]) ["sleep"; "sleep_ms";
       "until"; "epoch_secs"]
  ++ [("kernel/bootargs", None)]
  ++ flat_map (fun p =>
      [(p, None)])
      ["proc/self"; "proc/self/status"; "proc/self/mem"; "proc/self/args";
       "proc/self/caps"; "proc/self/std"; "proc/self/std/in";
       "proc/self/std/out"; "proc/self/std/err"]
  ++ flat_map (fun m =>
      [("proc/self", Some m)])
      ["exit"; "kill"; "spawn_caps"; "brk"; "mmap"; "munmap"; "wait"]
  ++ [("proc/self/std/out", Some "get")]
  ++ [("proc/self/std/err", Some "get")]
  ++ [("proc/self/std/in", Some "get")]
  ++ flat_map (fun dir =>
      [(dir, None)]
      ++ flat_map (fun m => [(dir, Some m)]) ["create"; "mkdir"; "rmdir";
       "unlink"; "rename"; "symlink"; "link"; "mkfifo"; "mknod"; "stat";
       "lstat"; "readlink"; "truncate"; "chmod"; "chown"; "utimens"])
      ["A"; "B"; "A/init"; "B/EFI"; "B/EFI/BEDROCK"]
  ++ flat_map (fun f =>
      [(f, None)]
      ++ flat_map (fun m => [(f, Some m)]) ["stat"; "truncate"; "chmod";
       "chown"; "utimens"; "readlink"])
      ["A/init/test"; "A/init"; "B/EFI/BEDROCK/INIT";
       "B/EFI/BEDROCK/STARTUP.WAV"; "B/EFI/BEDROCK/DOOM";
       "B/EFI/BEDROCK/FREEDOOM.WAD"; "B/EFI/BEDROCK/POSIXCHECK"].

End InitTable.

Definition full_caps_for_init : list Cap :=
  take (Z.to_nat MAX_CAPS_PER_TASK)
    (fold_left (fun caps '(p, m) => add caps p m RW) init_adds []).

(** ** The window image as a function of the entries written *)

Definition padlen (n : Z) : nat := Z.to_nat ((- n) mod 4).

Definition field_image (s : string) : list Z :=
  le_bytes 4 (Z.of_nat (String.length s)) ++ bytes_of_string s
  ++ replicate (padlen (Z.of_nat (String.length s))) 0.

Definition cap_image (c : Cap) : list Z :=
  field_image (path c)
  ++ match cap_method c with
     | Some m => field_image m
     | None => le_bytes 4 4294967295
     end
  ++ [as_u8 (perm c); 0; 0; 0].

Definition caps_image (caps : list Cap) : list Z := flat_map cap_image caps.

(** The size test made before an entry at offset [off]. *)
Definition fits (off : Z) (c : Cap) : bool :=
  off + 8 + Z.of_nat (String.length (path c)) + 8 + method_len c + 4 <=? CAP_SLOT_SIZE.

(** The number of leading entries the window holds. *)
Fixpoint fitting (caps : list Cap) (off : Z) : nat :=
  match caps with
  | [] => O
  | c :: caps =>
      if fits off c then S (fitting caps (off + Z.of_nat (length (cap_image c)))) else O
  end.

Lemma emit_Ok acc bs :
  Z.of_nat (length acc) + Z.of_nat (length bs) <= CAP_SLOT_SIZE ->
  emit acc bs = Ok (acc ++ bs).
Proof. intros H. unfold emit. by rewrite (proj2 (Z.leb_le _ _) H). Qed.

Lemma padlen_bound n : Z.of_nat (padlen n) = (- n) mod 4 /\ (n + Z.of_nat (padlen n)) mod 4 = 0.
Proof. unfold padlen. split; mlia. Qed.

Lemma pad4_Ok acc k :
  (padlen (Z.of_nat (length acc)) <= k)%nat ->
  Z.of_nat (length acc) <= CAP_SLOT_SIZE ->
  pad4 k acc = Ok (acc ++ replicate (padlen (Z.of_nat (length acc))) 0).
Proof.
  revert acc. induction k as [|k IH]; intros acc Hk Hs; simpl.
  - destruct (_ mod 4 =? 0) eqn:E; unfold padlen in *; [|mlia].
    replace (Z.to_nat _) with O by mlia. simpl. by rewrite app_nil_r.
  - destruct (_ mod 4 =? 0) eqn:E.
    + unfold padlen. replace (Z.to_nat _) with O by mlia. simpl. by rewrite app_nil_r.
    + unfold CAP_SLOT_SIZE in *.
      rewrite emit_Ok by (unfold CAP_SLOT_SIZE; simpl length; mlia). cbn [res_bind].
      assert (padlen (Z.of_nat (length acc))
              = S (padlen (Z.of_nat (length (acc ++ [0]))))) as Hp.
      { rewrite length_app. simpl length. unfold padlen. mlia. }
      rewrite IH.
      * rewrite Hp. simpl. by rewrite <- app_assoc.
      * lia.
      * rewrite length_app. simpl length. mlia.
Qed.

Lemma length_field_image s :
  Z.of_nat (length (field_image s))
  = 4 + Z.of_nat (String.length s) + Z.of_nat (padlen (Z.of_nat (String.length s))).
Proof.
  unfold field_image. rewrite !length_app, length_le_bytes, length_bytes_of_string,
    length_replicate. lia.
Qed.

Lemma emit_field acc s :
  Z.of_nat (length acc) mod 4 = 0 ->
  Z.of_nat (length acc) + 4 + Z.of_nat (String.length s) <= CAP_SLOT_SIZE ->
  (let? acc := emit acc (le_bytes 4 (Z.of_nat (String.length s))) in
   let? acc := emit acc (bytes_of_string s) in
   pad4 3 acc) = Ok (acc ++ field_image s).
Proof.
  intros Hm Hs. rewrite emit_Ok by (rewrite length_le_bytes; lia). cbn [res_bind].
  rewrite emit_Ok by (rewrite length_app, length_le_bytes, length_bytes_of_string; lia).
  cbn [res_bind].
  assert (padlen (Z.of_nat (length ((acc ++ le_bytes 4 (Z.of_nat (String.length s)))
     ++ bytes_of_string s))) = padlen (Z.of_nat (String.length s))) as Hp.
  { rewrite !length_app, length_le_bytes, length_bytes_of_string. unfold padlen. mlia. }
  rewrite pad4_Ok.
  - rewrite Hp. unfold field_image. by rewrite <- !app_assoc.
  - rewrite Hp. unfold padlen. mlia.
  - rewrite !length_app, length_le_bytes, length_bytes_of_string. lia.
Qed.

Lemma length_field_image_mod s :
  Z.of_nat (length (field_image s)) mod 4 = 0
  /\ 4 <= Z.of_nat (length (field_image s)) <= 7 + Z.of_nat (String.length s).
Proof.
  rewrite length_field_image.
  destruct (padlen_bound (Z.of_nat (String.length s))) as [-> _]. mlia.
Qed.

Lemma method_len_nonneg c : 0 <= method_len c.
Proof. unfold method_len. destruct (cap_method c); lia. Qed.

Lemma length_cap_image c :
  Z.of_nat (length (cap_image c)) mod 4 = 0
  /\ 12 <= Z.of_nat (length (cap_image c))
     <= 18 + Z.of_nat (String.length (path c)) + method_len c.
Proof.
  unfold cap_image, method_len. rewrite !length_app.
  change (length [as_u8 (perm c); 0; 0; 0]) with 4%nat.
  pose proof (length_field_image_mod (path c)).
  destruct (cap_method c) as [m|].
  - pose proof (length_field_image_mod m). mlia.
  - rewrite length_le_bytes. mlia.
Qed.

Lemma emit_field_k acc s (k : list Z -> res UnispaceError (list Z)) :
  Z.of_nat (length acc) mod 4 = 0 ->
  Z.of_nat (length acc) + 4 + Z.of_nat (String.length s) <= CAP_SLOT_SIZE ->
  (let? acc := emit acc (le_bytes 4 (Z.of_nat (String.length s))) in
   let? acc := emit acc (bytes_of_string s) in
   let? acc := pad4 3 acc in k acc) = k (acc ++ field_image s).
Proof.
  intros Hm Hs. pose proof (emit_field acc s Hm Hs) as H.
  apply (f_equal (fun m => res_bind m k)) in H.
  rewrite !res_bind_assoc in H. cbn [res_bind] in H. rewrite <- H.
  destruct (emit acc _); [|done..]. cbn [res_bind]. by rewrite res_bind_assoc.
Qed.

Lemma emit_cap_Ok acc c :
  Z.of_nat (length acc) mod 4 = 0 -> fits (Z.of_nat (length acc)) c = true ->
  emit_cap acc c = Ok (acc ++ cap_image c).
Proof.
  unfold fits. intros Hm Hf%Z.leb_le. pose proof (method_len_nonneg c).
  unfold emit_cap, cap_image, method_len in *.
  pose proof (length_field_image_mod (path c)) as Hp.
  rewrite emit_field_k by lia.
  set (acc1 := acc ++ field_image (path c)).
  assert (Z.of_nat (length acc1) mod 4 = 0
          /\ Z.of_nat (length acc1) <= Z.of_nat (length acc) + 7
             + Z.of_nat (String.length (path c))) as [Hm1 Hl1]
    by (unfold acc1; rewrite length_app; mlia).
  destruct (cap_method c) as [m|].
  - rewrite emit_field by lia. cbn [res_bind].
    pose proof (length_field_image_mod m).
    rewrite emit_Ok by (rewrite length_app; simpl length in *; lia). cbn [res_bind].
    rewrite emit_Ok by (rewrite !length_app; change (length [_]) with 1%nat;
      change (length [0; 0; 0]) with 3%nat; lia).
    unfold acc1. by rewrite <- !app_assoc.
  - rewrite emit_Ok by (rewrite length_le_bytes; lia). cbn [res_bind].
    rewrite emit_Ok by (rewrite length_app, length_le_bytes;
      change (length [_]) with 1%nat; lia). cbn [res_bind].
    rewrite emit_Ok by (rewrite !length_app, length_le_bytes;
      change (length [_]) with 1%nat; change (length [0; 0; 0]) with 3%nat; lia).
    unfold acc1. by rewrite <- !app_assoc.
Qed.

Lemma emit_caps_Ok caps acc n :
  Z.of_nat (length acc) mod 4 = 0 -> 0 <= n -> n <= Z.of_nat (length acc) <= CAP_SLOT_SIZE ->
  let k := fitting caps (Z.of_nat (length acc)) in
  emit_caps caps acc n = Ok (acc ++ caps_image (take k caps), n + Z.of_nat k)
  /\ n + Z.of_nat k <= Z.of_nat (length (acc ++ caps_image (take k caps)))
     <= CAP_SLOT_SIZE.
Proof.
  revert acc n. induction caps as [|c caps IH]; intros acc n Hm H0 Hn; simpl fitting.
  { simpl. rewrite app_nil_r, Z.add_0_r. split; [done|lia]. }
  cbn [emit_caps]. destruct (fits (Z.of_nat (length acc)) c) eqn:Hf.
  - pose proof (length_cap_image c) as [Hcm Hcl]. unfold fits in Hf.
    rewrite (proj2 (Z.ltb_ge _ _)) by lia.
    rewrite emit_cap_Ok by done. cbn [res_bind]. unfold u32_add.
    rewrite u32_op_Ok by (unfold u32_max; unfold CAP_SLOT_SIZE in *; lia). cbn [res_bind].
    edestruct (IH (acc ++ cap_image c) (n + 1)) as [HE HL];
      [rewrite length_app; mlia|lia|rewrite length_app; lia|].
    replace (Z.of_nat (length (acc ++ cap_image c))) with
      (Z.of_nat (length acc) + Z.of_nat (length (cap_image c))) in HE, HL
      by (rewrite length_app; lia).
    set (k := fitting caps _) in *. clearbody k. rewrite HE.
    change (caps_image (take (S k) (c :: caps)))
      with (cap_image c ++ caps_image (take k caps)).
    rewrite <- app_assoc in HL |- *. split; [do 2 f_equal; lia|lia].
  - unfold fits in Hf. rewrite (proj2 (Z.ltb_lt _ _)) by lia. simpl.
    rewrite app_nil_r, Z.add_0_r. split; [done|lia].
Qed.

(** ** Reading the window *)

Definition read_field (bs : list Z) : option string * list Z :=
  let len := le_val (take 4 bs) in
  if len =? 4294967295 then (None, drop 4 bs)
  else (Some (string_of_bytes (take (Z.to_nat len) (drop 4 bs))),
        drop (4 + Z.to_nat len + padlen len) bs).

Definition read_entry (bs : list Z) : option (Cap * list Z) :=
  match read_field bs with
  | (Some p, bs) =>
      let '(m, bs) := read_field bs in
      match bs with
      | b :: _ =>
          match from_u8 b with
          | Some pm => Some (mkCap p m pm, drop 4 bs)
          | None => None
          end
      | [] => None
      end
  | (None, _) => None
  end.

Fixpoint read_entries (n : nat) (bs : list Z) : option (list Cap) :=
  match n with
  | O => Some []
  | S n =>
      match read_entry bs with
      | Some (c, bs) => match read_entries n bs with
                        | Some l => Some (c :: l)
                        | None => None
                        end
      | None => None
      end
  end.

(** A reader of the documented layout: u32 count, then per entry u32 path_len,
    path, padding, u32 method_len (0xFFFFFFFF = None), method, padding, u8 perm,
    3 pad. *)
Definition read_window (w : list Z) : option (list Cap) :=
  read_entries (Z.to_nat (le_val (take 4 w))) (drop 4 w).

Lemma take_drop_app {A} n (l r : list A) : length l = n ->
  take n (l ++ r) = l /\ drop n (l ++ r) = r.
Proof. intros <-. by rewrite take_app_length, drop_app_length. Qed.

Lemma read_field_image s post :
  Z.of_nat (String.length s) < 4294967295 ->
  read_field (field_image s ++ post) = (Some s, post).
Proof.
  intros Hs. pose proof (length_field_image s) as Hlen.
  unfold read_field. set (n := Z.of_nat (String.length s)) in *.
  assert (take 4 (field_image s ++ post) = le_bytes 4 n
          /\ drop 4 (field_image s ++ post)
             = bytes_of_string s ++ replicate (padlen n) 0 ++ post) as [-> ->].
  { unfold field_image. rewrite <- !app_assoc. apply take_drop_app, length_le_bytes. }
  rewrite le_val_le_bytes, Z.mod_small by (simpl; lia).
  rewrite (proj2 (Z.eqb_neq _ _)) by lia. unfold n at 1. rewrite Nat2Z.id.
  rewrite (proj1 (take_drop_app _ (bytes_of_string s) _ (length_bytes_of_string s))).
  rewrite string_of_bytes_of_string. f_equal.
  refine (proj2 (take_drop_app _ (field_image s) post _)). lia.
Qed.

Lemma read_field_none post : read_field (le_bytes 4 4294967295 ++ post) = (None, post).
Proof.
  unfold read_field.
  destruct (take_drop_app 4 (le_bytes 4 4294967295) post (length_le_bytes _ _)) as [-> ->].
  reflexivity.
Qed.

Lemma from_as_u8 p : from_u8 (as_u8 p) = Some p.
Proof. by destruct p. Qed.

Lemma read_entry_image c off post : 0 <= off -> fits off c = true ->
  read_entry (cap_image c ++ post) = Some (c, post).
Proof.
  unfold fits. intros H0 Hf%Z.leb_le. pose proof (method_len_nonneg c).
  unfold read_entry, cap_image, CAP_SLOT_SIZE in *. rewrite <- !app_assoc.
  rewrite read_field_image by lia. unfold method_len in *. destruct c as [p [m|] pm]; cbn [path cap_method perm] in *.
  - rewrite read_field_image by lia. cbn. by rewrite from_as_u8.
  - rewrite read_field_none. cbn. by rewrite from_as_u8.
Qed.

Lemma read_entries_image caps off post : 0 <= off ->
  let k := fitting caps off in
  (k <= length caps)%nat /\ read_entries k (caps_image (take k caps) ++ post) = Some (take k caps).
Proof.
  revert off. induction caps as [|c caps IH]; intros off H0; [done|]. simpl fitting.
  destruct (fits off c) eqn:Hf; [|simpl; split; [lia|done]].
  specialize (IH (off + Z.of_nat (length (cap_image c))) ltac:(lia)) as [Hk IH].
  set (k := fitting caps _) in *. clearbody k. split; [simpl; lia|].
  change (caps_image (take (S k) (c :: caps)))
    with (cap_image c ++ caps_image (take k caps)).
  rewrite <- app_assoc. cbn [read_entries]. rewrite (read_entry_image _ off) by done.
  by rewrite IH.
Qed.

Lemma fitting_maximal caps off c : caps !! fitting caps off = Some c ->
  fits (off + Z.of_nat (length (caps_image (take (fitting caps off) caps)))) c = false.
Proof.
  revert off. induction caps as [|d caps IH]; intros off H; [done|]. simpl fitting in *.
  destruct (fits off d) eqn:Hf.
  - apply IH in H. etrans; [|exact H]. f_equal. simpl. unfold caps_image at 1. simpl.
    rewrite length_app. fold (caps_image). unfold caps_image. lia.
  - simpl in *. simplify_eq. by rewrite Z.add_0_r.
Qed.

Lemma serialize_fitting caps :
  let k := fitting caps 4 in
  exists w, serialize_to_page caps = Ok w
  /\ Z.of_nat (length w) = CAP_SLOT_SIZE /\ read_window w = Some (take k caps).
Proof.
  intros k. destruct (emit_caps_Ok caps [0; 0; 0; 0] 0) as [HE HL];
    [done..|unfold CAP_SLOT_SIZE; simpl; lia|].
  change (Z.of_nat (length [0; 0; 0; 0])) with 4 in HE, HL. fold k in HE, HL.
  unfold serialize_to_page. rewrite HE. cbn [res_bind]. rewrite Z.add_0_l.
  change (drop 4 ([0; 0; 0; 0] ++ ?l)) with l.
  set (img := caps_image (take k caps)) in *.
  rewrite length_app in HL. change (length [0; 0; 0; 0]) with 4%nat in HL.
  eexists. split; [reflexivity|].
  pose proof (read_entries_image caps 4
    (replicate (Z.to_nat CAP_SLOT_SIZE - length ([0; 0; 0; 0] ++ img)) 0) ltac:(lia)) as [Hk HR].
  fold k in Hk, HR. fold img in HR. split.
  - rewrite !length_app, length_le_bytes, length_replicate.
    change (length [0; 0; 0; 0]) with 4%nat. unfold CAP_SLOT_SIZE in *. lia.
  - unfold read_window.
    destruct (take_drop_app 4 (le_bytes 4 (Z.of_nat k))
      (img ++ replicate (Z.to_nat CAP_SLOT_SIZE - length ([0; 0; 0; 0] ++ img)) 0)
      (length_le_bytes _ _)) as [-> ->].
    rewrite le_val_le_bytes, Z.mod_small, Nat2Z.id; [exact HR|].
    change (256 ^ Z.of_nat 4) with 4294967296. unfold CAP_SLOT_SIZE in *. lia.
Qed.

Lemma serialize_Ok caps :
  exists k w, serialize_to_page caps = Ok w
  /\ Z.of_nat (length w) = CAP_SLOT_SIZE
  /\ read_window w = Some (take k caps) /\ (k <= length caps)%nat
  /\ (forall c, caps !! k = Some c ->
      fits (4 + Z.of_nat (length (caps_image (take k caps)))) c = false).
Proof.
  destruct (serialize_fitting caps) as (w & H1 & H2 & H3). exists (fitting caps 4), w.
  split_and!; [done..| |by apply fitting_maximal].
  by apply (read_entries_image caps 4 []).
Qed.

(** C27: the supervisor window is a faithful bounded mirror: for any capability
    list the unchecked writes stay inside the 16 KiB bounce buffer, the window
    is filled entirely, and reading it back by the documented layout gives the
    longest initial segment of the list whose entries pass the size test. *)
Theorem window_roundtrip caps :
  exists k w, serialize_to_page caps = Ok w
  /\ Z.of_nat (length w) = CAP_SLOT_SIZE
  /\ read_window w = Some (take k caps) /\ (k <= length caps)%nat
  /\ (forall c, caps !! k = Some c ->
      fits (4 + Z.of_nat (length (caps_image (take k caps)))) c = false).
Proof. exact (serialize_Ok caps). Qed.

(** ** Grants *)

Definition adds (p : string) (m : option string) (pm : Perm)
  (p' : string) (m' : option string) (want : Perm) : bool :=
  bool_decide (p = p') && bool_decide (m = m') && covers pm want.

(** [l] holds exactly the authority of [caps] plus [pm] on [(p, m)]. *)
Definition extends (caps : list Cap) p m pm (l : list Cap) : Prop :=
  forall p' m' want,
    has_perm l p' m' want = has_perm caps p' m' want || adds p m pm p' m' want.

Lemma extends_snoc caps p m pm : extends caps p m pm (caps ++ [mkCap p m pm]).
Proof.
  intros p' m' want. rewrite !has_perm_existsb, existsb_app. simpl.
  by rewrite orb_false_r.
Qed.

Lemma extends_covered caps p m pm :
  has_perm caps p m pm = true -> extends caps p m pm caps.
Proof.
  intros (c & Hc & <- & <- & Hcov)%has_perm_true p' m' want.
  destruct (adds _ _ _ _ _ _) eqn:E; [|by rewrite orb_false_r].
  unfold adds in E. apply andb_true_iff in E as [[H1 H2]%andb_true_iff H3].
  apply bool_decide_eq_true in H1 as <-. apply bool_decide_eq_true in H2 as <-.
  rewrite orb_true_r. apply has_perm_true. exists c. eauto using covers_trans.
Qed.

Lemma upgrade_spec caps p m pm :
  match upgrade caps p m pm with
  | None => True
  | Some None => has_perm caps p m pm = true
  | Some (Some l) =>
      extends caps p m pm l /\ length l = length caps
      /\ map (fun c => (path c, cap_method c)) l
         = map (fun c => (path c, cap_method c)) caps
  end.
Proof.
  induction caps as [|c caps IH]; [done|]. cbn [upgrade].
  destruct (bool_decide (path c = p) && bool_decide (cap_method c = m)) eqn:E.
  - destruct (covers (perm c) pm) eqn:Hc; [simpl; by rewrite E, Hc|].
    split_and!; [|done..]. intros p' m' want.
    apply andb_true_iff in E as [<-%bool_decide_eq_true <-%bool_decide_eq_true].
    rewrite !has_perm_existsb. simpl. unfold grants at 1 3, adds. simpl.
    destruct (bool_decide (path c = p')), (bool_decide (cap_method c = m')); simpl;
      [|by rewrite ?orb_false_r..].
    destruct (perm c), pm, want; simpl in *; try done; by rewrite ?orb_true_r, ?orb_false_r.
  - destruct (upgrade caps p m pm) as [[l|]|]; [|simpl; by rewrite E|done].
    destruct IH as (He & Hl & Hm). split_and!; [|simpl; congruence..].
    intros p' m' want. simpl. rewrite He. by destruct (_ && covers (perm c) want).
Qed.

(** The capability fields of a task agree: canonical entries within the quota,
    and a mapped window that is the image of the vector. *)
Definition task_ok (t : TaskCaps) : Prop :=
  match caps_arc t with
  | None => True
  | Some caps =>
      Forall cap_valid caps /\ Z.of_nat (length caps) <= MAX_CAPS_PER_TASK
      /\ (caps_phys t <> 0 -> serialize_to_page caps = Ok (window t))
  end.

Definition task_caps (t : TaskCaps) : list Cap :=
  match caps_arc t with Some caps => caps | None => [] end.

Lemma validate_no_panic c : no_panic (validate_cap c).
Proof. unfold no_panic, validate_cap. repeat case_match; done. Qed.

Lemma validate_perm_irrel p m pm pm' : cap_valid (mkCap p m pm) -> cap_valid (mkCap p m pm').
Proof. done. Qed.

Lemma valid_map (l l' : list Cap) :
  map (fun c => (path c, cap_method c)) l = map (fun c => (path c, cap_method c)) l' ->
  Forall cap_valid l' -> Forall cap_valid l.
Proof.
  revert l'. induction l as [|[p m pm] l IH]; intros [|[p' m' pm'] l'] H Hv; simplify_eq/=;
    [done|]. inversion Hv; subst. constructor; [by eapply validate_perm_irrel|eauto].
Qed.

Lemma store_caps_spec t caps :
  exists t', store_caps t caps = (t', Ok tt) /\ caps_arc t' = Some caps
  /\ vm t' = vm t /\ caps_phys t' = caps_phys t
  /\ (caps_phys t' <> 0 -> serialize_to_page caps = Ok (window t')).
Proof.
  unfold store_caps. destruct (caps_phys t =? 0) eqn:E.
  - eexists. split; [reflexivity|]. simpl. split_and!; [done..|lia].
  - destruct (serialize_Ok caps) as (k & w & -> & _). eexists. split; [reflexivity|]. done.
Qed.

(** What a grant promises of the task it is applied to. *)
Definition grant_post (t : TaskCaps) p m pm (t' : TaskCaps)
  (r : res UnispaceError unit) : Prop :=
  task_ok t' /\ vm t' = vm t /\ no_panic r
  /\ match r with
     | Ok _ => extends (task_caps t) p m pm (task_caps t')
     | _ => t' = t
     end.

Lemma store_post t caps p m pm l :
  caps_arc t = Some caps -> extends caps p m pm l -> Forall cap_valid l ->
  Z.of_nat (length l) <= MAX_CAPS_PER_TASK ->
  grant_post t p m pm (fst (store_caps t l)) (snd (store_caps t l)).
Proof.
  intros Ha He Hv Hlen. destruct (store_caps_spec t l) as (t' & -> & H1 & H2 & H3 & H4).
  simpl. unfold grant_post, task_ok, task_caps. by rewrite H1, Ha.
Qed.

(** The vector part shared by the two grant functions: [push] is what happens
    when no entry for [(p, m)] exists. *)
Lemma vector_post t caps p m pm push :
  caps_arc t = Some caps -> task_ok t ->
  (Z.of_nat (length caps) < MAX_CAPS_PER_TASK ->
   grant_post t p m pm (fst push) (snd push)) ->
  let out :=
    if MAX_CAPS_PER_TASK <=? Z.of_nat (length caps) then (t, Err OutOfMemory)
    else match upgrade caps p m pm with
         | Some None => (t, Ok tt)
         | Some (Some l) => store_caps t l
         | None => push
         end in
  grant_post t p m pm (fst out) (snd out).
Proof.
  intros Ha Hok Hpush. simpl. destruct (MAX_CAPS_PER_TASK <=? _) eqn:Hlen.
  { unfold grant_post. split_and!; done. }
  pose proof (upgrade_spec caps p m pm) as Hu.
  unfold task_ok in Hok. rewrite Ha in Hok. destruct Hok as (Hv & Hmax & Hw).
  destruct (upgrade caps p m pm) as [[l|]|].
  - destruct Hu as (He & Hl & Hm). eapply store_post; [done..| |lia]. by eapply valid_map.
  - simpl. unfold grant_post, task_ok, task_caps. rewrite Ha.
    split_and!; try done. by apply extends_covered.
  - apply Hpush. lia.
Qed.

Lemma push_post t caps p m pm :
  caps_arc t = Some caps -> task_ok t -> cap_valid (mkCap p m pm) ->
  Z.of_nat (length caps) < MAX_CAPS_PER_TASK ->
  grant_post t p m pm (fst (store_caps t (caps ++ [mkCap p m pm])))
    (snd (store_caps t (caps ++ [mkCap p m pm]))).
Proof.
  intros Ha Hok Hc Hlen. unfold task_ok in Hok. rewrite Ha in Hok.
  eapply store_post; [done|by apply extends_snoc| |].
  - apply Forall_app. split; [apply Hok|by constructor].
  - rewrite length_app. simpl. lia.
Qed.

Lemma do_grant_post installed t cap :
  task_ok t -> cap_valid cap ->
  grant_post t (path cap) (cap_method cap) (perm cap)
    (fst (do_grant installed t cap)) (snd (do_grant installed t cap)).
Proof.
  intros Hok Hc. unfold do_grant. destruct (caps_arc t) as [caps|] eqn:Ha.
  - rewrite Ha. eapply (vector_post t caps); [done..|].
    intros Hlen. destruct cap. by apply push_post.
  - destruct installed as [phys|].
    + destruct (serialize_Ok []) as (k & w & Hw & _). rewrite Hw.
      set (t0 := mkTask (Some []) (vm t) phys w).
      change (grant_post t (path cap) (cap_method cap) (perm cap)
        (fst (store_caps t0 [cap])) (snd (store_caps t0 [cap]))).
      destruct (store_caps_spec t0 [cap]) as (t' & -> & H1 & H2 & H3 & H4).
      cbn [fst snd]. unfold grant_post, task_ok, task_caps. rewrite H1, Ha. destruct cap. simpl.
      split_and!; try done; [by constructor|]. apply (extends_snoc []).
    + unfold grant_post. split_and!; done.
Qed.

Lemma grant_to_current_post installed t p m pm :
  task_ok t ->
  exists t' r, grant_to_current installed (Some t) p m pm = (Some t', r)
  /\ grant_post t p m pm t' r.
Proof.
  intros Hok. unfold grant_to_current. destruct (caps_arc t) as [caps|] eqn:Ha.
  - pose proof (vector_post t caps p m pm
      (match validate_cap (mkCap p m pm) with
       | Ok _ => store_caps t (caps ++ [mkCap p m pm])
       | Err e => (t, Err e)
       | Panic => (t, Panic)
       end) Ha Hok) as H.
    destruct (validate_cap (mkCap p m pm)) as [[]|e|] eqn:Hv.
    + specialize (H (fun Hl => push_post _ _ _ _ _ Ha Hok Hv Hl)). simpl in H.
      destruct (MAX_CAPS_PER_TASK <=? _); [by eauto|].
      destruct (upgrade caps p m pm) as [[l|]|]; [|by eauto|];
        destruct (store_caps t _); by eauto.
    + specialize (H ltac:(by intros; unfold grant_post; split_and!)). simpl in H.
      destruct (MAX_CAPS_PER_TASK <=? _); [by eauto|].
      destruct (upgrade caps p m pm) as [[l|]|]; [|by eauto..].
      destruct (store_caps t _); by eauto.
    + exfalso. by apply (validate_no_panic (mkCap p m pm)).
  - destruct (validate_cap (mkCap p m pm)) as [[]|e|] eqn:Hv.
    + destruct installed as [phys|].
      * destruct (serialize_Ok [mkCap p m pm]) as (k & w & Hw & _). rewrite Hw.
        do 2 eexists. split; [reflexivity|]. unfold grant_post, task_caps, task_ok. simpl.
        rewrite Ha. split_and!; try done; [by constructor|].
        apply (extends_snoc [] p m pm).
      * do 2 eexists. split; [reflexivity|]. unfold grant_post. by split_and!.
    + do 2 eexists. split; [reflexivity|]. unfold grant_post. by split_and!.
    + exfalso. by apply (validate_no_panic (mkCap p m pm)).
Qed.

(** C36: a grant to the running task is exact: on a consistent task it never
    panics, an error leaves the task as it was, and on success the task holds
    precisely its former authority plus the granted permission; entries stay
    canonical and within [MAX_CAPS_PER_TASK], and a mapped window still mirrors
    the vector. *)
Theorem grant_exact installed t p m pm :
  task_ok t ->
  exists t' r, grant_to_current installed (Some t) p m pm = (Some t', r)
  /\ task_ok t' /\ vm t' = vm t /\ no_panic r
  /\ match r with
     | Ok _ => forall p' m' want,
         has_perm (task_caps t') p' m' want
         = has_perm (task_caps t) p' m' want || adds p m pm p' m' want
     | _ => t' = t
     end.
Proof. exact (grant_to_current_post installed t p m pm). Qed.

Lemma grant_exact_witness :
  exists t' r,
    grant_to_current None (Some (mkTask (Some [mkCap "A" None R]) 1 0 [])) "A" None RW
    = (Some t', r) /\ no_panic r.
Proof.
  destruct (grant_exact None (mkTask (Some [mkCap "A" None R]) 1 0 []) "A" None RW)
    as (t' & r & H & _ & _ & Hp & _).
  - unfold task_ok, MAX_CAPS_PER_TASK. simpl. split_and!; [by repeat constructor|lia|done].
  - exists t', r. split; assumption.
Defined.

(** ** Propagation to the ancestors *)

Section Propagate.
Context (installed : Z -> option Z) (p : string) (m : option string) (pm : Perm).
Context (Hcap : cap_valid (mkCap p m pm)).

Definition room (t : TaskCaps) : Prop :=
  exists caps, caps_arc t = Some caps /\ Z.of_nat (length caps) < MAX_CAPS_PER_TASK.

Definition granted (t t' : TaskCaps) : Prop :=
  extends (task_caps t) p m pm (task_caps t').

Definition ready (t : TaskCaps) : Prop := room t \/ has_perm (task_caps t) p m pm = true.

(** What one grant does to the task of a pid. *)
Definition kept (t t' : TaskCaps) : Prop :=
  task_ok t' /\ (t' = t \/ granted t t') /\ (ready t -> granted t t').

Lemma granted_ready t t' : granted t t' -> ready t'.
Proof.
  intros H. right. rewrite H. unfold adds. by rewrite !bool_decide_true, covers_refl, orb_true_r.
Qed.

Lemma granted_trans t1 t2 t3 : granted t1 t2 -> granted t2 t3 -> granted t1 t3.
Proof.
  intros H1 H2 p' m' want. rewrite H2, H1. by destruct (has_perm _ _ _ _), (adds _ _ _ _ _ _).
Qed.

Lemma post_kept t t' r :
  grant_post t p m pm t' r -> (room t -> r = Ok tt) -> kept t t'.
Proof.
  intros (Hok & _ & _ & Hr) Hroom. unfold kept. split; [done|].
  destruct r as [[]|e|]; [by auto|..]; subst t'; (split; [by left|]); intros [H|H];
    try (by apply Hroom in H); by apply extends_covered.
Qed.

Lemma do_grant_kept t pid : task_ok t ->
  kept t (fst (do_grant (installed pid) t (mkCap p m pm))).
Proof.
  intros Hok. eapply post_kept; [by apply (do_grant_post _ _ (mkCap p m pm))|].
  intros (caps & Ha & Hl). unfold do_grant. rewrite Ha, Ha. cbn [path cap_method perm].
  rewrite (proj2 (Z.leb_gt _ _)) by lia.
  destruct (upgrade caps p m pm) as [[l|]|]; [|done|];
    (edestruct store_caps_spec as (? & -> & _); done).
Qed.

Lemma grant_to_current_kept t pid : task_ok t ->
  exists t' r, grant_to_current (installed pid) (Some t) p m pm = (Some t', r) /\ kept t t'.
Proof.
  intros Hok. destruct (grant_to_current_post (installed pid) t p m pm Hok)
    as (t' & r & HE & Hp). exists t', r. split; [done|]. eapply post_kept; [done|].
  intros (caps & Ha & Hl). unfold grant_to_current in HE. rewrite Ha in HE.
  rewrite (proj2 (Z.leb_gt _ _)) in HE by lia.
  destruct (upgrade caps p m pm) as [[l|]|]; [|naive_solver|rewrite Hcap in HE];
    (edestruct store_caps_spec as (? & Hs & _); rewrite Hs in HE; naive_solver).
Qed.

Definition weak (t t' : TaskCaps) : Prop := task_ok t' /\ (t' = t \/ granted t t').

Lemma weak_kept t1 t2 t3 : weak t1 t2 -> kept t2 t3 -> kept t1 t3.
Proof.
  intros [Hok1 [->|H1]] (Hok2 & H2 & R2); [done|]. pose proof (granted_ready _ _ H1) as Hr.
  assert (granted t1 t3) by (eapply granted_trans; [done|by apply R2]).
  split; [done|]. split; [by right|done].
Qed.

Lemma kept_weak t1 t2 t3 : kept t1 t2 -> weak t2 t3 -> kept t1 t3.
Proof.
  intros (Hok1 & H1 & R1) [Hok2 [->|H2]]; [done|]. split; [done|]. split.
  - right. destruct H1 as [->|H1]; [done|by eapply granted_trans].
  - intros Hr. eapply granted_trans; eauto.
Qed.

Lemma weak_trans t1 t2 t3 : weak t1 t2 -> weak t2 t3 -> weak t1 t3.
Proof.
  intros [Hok1 [->|H1]] [Hok2 [->|H2]]; split; auto.
  right. by eapply granted_trans.
Qed.

(** The effect on a whole task table of granting to the pids of [ks]. *)
Definition table_step (ks : list Z) (ts ts' : Tasks) : Prop :=
  forall pid,
    match ts !! pid with
    | None => ts' !! pid = None
    | Some t => exists t', ts' !! pid = Some t' /\ weak t t'
        /\ (pid ∈ ks -> kept t t') /\ (pid ∉ ks -> t' = t)
    end.

Definition table_ok (ts : Tasks) : Prop := forall pid t, ts !! pid = Some t -> task_ok t.

Lemma table_step_ok ks ts ts' : table_ok ts -> table_step ks ts ts' -> table_ok ts'.
Proof.
  intros Hok Hs pid t' H'. specialize (Hs pid). destruct (ts !! pid) as [t|] eqn:E.
  - destruct Hs as (t2 & H2 & [Hw _] & _). congruence.
  - congruence.
Qed.

Lemma table_step_insert ts k t t' :
  table_ok ts -> ts !! k = Some t -> kept t t' -> table_step [k] ts (<[k := t']> ts).
Proof.
  intros Hok Hk Hkept pid. destruct (decide (pid = k)) as [->|Hne].
  - rewrite Hk. exists t'. rewrite lookup_insert_eq.
    split_and!; [done|by split; apply Hkept|done|set_solver].
  - rewrite lookup_insert_ne by done. destruct (ts !! pid) as [t0|] eqn:E; [|done].
    exists t0. split_and!; [done|split; [by eapply Hok|by left]|set_solver|done].
Qed.

Lemma table_step_refl ts k :
  table_ok ts -> ts !! k = None -> table_step [k] ts ts.
Proof.
  intros Hok Hk pid. destruct (ts !! pid) as [t0|] eqn:E; [|done]. exists t0.
  split_and!; [done|split; [by eapply Hok|by left]| |done].
  intros ->%list_elem_of_singleton. congruence.
Qed.

Lemma table_step_trans k ks ts1 ts2 ts3 :
  table_step [k] ts1 ts2 -> table_step ks ts2 ts3 -> table_step (k :: ks) ts1 ts3.
Proof.
  intros H1 H2 pid. specialize (H1 pid). specialize (H2 pid).
  destruct (ts1 !! pid) as [t1|]; [|by rewrite H1 in H2].
  destruct H1 as (t2 & E2 & W1 & K1 & N1). rewrite E2 in H2.
  destruct H2 as (t3 & E3 & W2 & K2 & N2). exists t3. split_and!; [done|by eapply weak_trans|..].
  - intros [->|Hin]%elem_of_cons.
    + eapply kept_weak; [|done]. apply K1. set_solver.
    + eapply weak_kept; [done|by apply K2].
  - intros [Hn Hin]%not_elem_of_cons. rewrite N2 by done. apply N1. set_solver.
Qed.

Lemma grant_cap_to_pid_step ts k : table_ok ts ->
  table_step [k] ts (fst (grant_cap_to_pid installed ts k (mkCap p m pm))).
Proof.
  intros Hok. unfold grant_cap_to_pid. rewrite Hcap.
  destruct (ts !! k) as [t|] eqn:Hk; [|by apply table_step_refl].
  pose proof (do_grant_kept t k (Hok _ _ Hk)) as H.
  destruct (do_grant _ _ _) as [t' r]. by eapply table_step_insert.
Qed.

Lemma grants_step ks ts : table_ok ts ->
  table_step ks ts (fold_left (fun ts ppid =>
      fst (grant_cap_to_pid installed ts ppid (mkCap p m pm))) ks ts).
Proof.
  revert ts. induction ks as [|k ks IH]; intros ts Hok; simpl.
  - intros pid. destruct (ts !! pid) as [t|] eqn:E; [|done]. exists t.
    split_and!; [done|split; [by eapply Hok|by left]|set_solver|done].
  - pose proof (grant_cap_to_pid_step ts k Hok) as H1.
    eapply table_step_trans; [exact H1|]. apply IH. by eapply table_step_ok.
Qed.

Lemma propagate_step start lin ts : table_ok ts ->
  table_step (start :: lineage_chain lin start) ts
    (propagate_cap_to_parents installed (Some start) lin ts p m pm).
Proof.
  intros Hok. cbn [propagate_cap_to_parents].
  set (ts1 := match grant_to_current _ _ _ _ _ with (Some t, _) => _ | (None, _) => _ end).
  assert (table_step [start] ts ts1) as H1.
  { unfold ts1. destruct (ts !! start) as [t|] eqn:E; [|by apply table_step_refl].
    destruct (grant_to_current_kept t start (Hok _ _ E)) as (t' & r & -> & Hk).
    by eapply table_step_insert. }
  eapply table_step_trans; [done|]. by eapply grants_step, table_step_ok.
Qed.
End Propagate.

(** Creating an object grants it to the creator and to every ancestor on
    its lineage chain: after [propagate_cap_to_parents] with a canonical
    capability, each task of the chain that has a vector with room holds exactly
    its former authority plus the grant, no task outside the chain changes, and
    every task stays consistent. *)
Theorem propagate_reaches installed p m pm start lin ts :
  cap_valid (mkCap p m pm) -> table_ok ts ->
  let ts' := propagate_cap_to_parents installed (Some start) lin ts p m pm in
  table_ok ts' /\
  forall pid t, ts !! pid = Some t ->
    exists t', ts' !! pid = Some t'
    /\ (pid ∉ start :: lineage_chain lin start -> t' = t)
    /\ (pid ∈ start :: lineage_chain lin start -> room t ->
        forall p' m' want,
          has_perm (task_caps t') p' m' want
          = has_perm (task_caps t) p' m' want || adds p m pm p' m' want).
Proof.
  intros Hc Hok ts'. pose proof (propagate_step installed p m pm Hc start lin ts Hok) as Hs.
  split; [by eapply table_step_ok|]. intros pid t Ht. specialize (Hs pid).
  rewrite Ht in Hs. destruct Hs as (t' & H' & _ & Hk & Hn). exists t'.
  split_and!; [done|done|]. intros Hin Hroom. apply (Hk Hin). by left.
Qed.

Lemma propagate_reaches_witness :
  let ts : Tasks := {[7 := mkTask (Some []) 1 0 []; 1 := mkTask (Some []) 1 0 []]} in
  exists t', propagate_cap_to_parents (fun _ => None) (Some 7) {[7 := 1; 1 := 0]} ts
               "A/new" None RW !! 1 = Some t'
    /\ has_perm (task_caps t') "A/new" None RW = true.
Proof.
  intros ts.
  destruct (propagate_reaches (fun _ => None) "A/new" None RW 7 {[7 := 1; 1 := 0]} ts)
    as [_ H].
  - reflexivity.
  - intros pid t Ht. unfold ts in Ht.
    apply lookup_insert_Some in Ht as [[_ <-]|[_ Ht]].
    + unfold task_ok, MAX_CAPS_PER_TASK. simpl. split_and!; [constructor|lia|done].
    + apply lookup_singleton_Some in Ht as [_ <-].
      unfold task_ok, MAX_CAPS_PER_TASK. simpl. split_and!; [constructor|lia|done].
  - destruct (H 1 (mkTask (Some []) 1 0 []) ltac:(reflexivity)) as (t' & E & _ & Hg).
    exists t'. split; [exact E|]. rewrite Hg; [reflexivity| |].
    + vm_compute. right. left.
    + exists []. split; [reflexivity|]. unfold MAX_CAPS_PER_TASK. simpl. lia.
Defined.

(** ** INIT's authority *)

Definition res_is_ok {E A} (r : res E A) : bool :=
  match r with Ok _ => true | _ => false end.

(** Executable form of the table's consistency. *)
Definition table_check (caps : list Cap) : bool :=
  forallb (fun c => res_is_ok (validate_cap c)) caps
  && bool_decide (NoDup (map (fun c => (path c, cap_method c)) caps))
  && forallb (fun c => has_perm caps (path c) None R) caps
  && forallb (fun c => has_ancestor_r caps (segs (path c))) caps
  && (fitting caps 4 =? length caps)%nat
  && forallb (fun c => negb (bool_decide (head (segs (path c)) = Some "proc"%string))
       || match segs (path c) with
          | _ :: c1 :: _ => bool_decide (c1 = "self"%string)
          | _ => true
          end) caps
  && forallb (fun c => covers (perm c) RW) caps.

Lemma init_table_check : table_check full_caps_for_init = true.
Proof. vm_compute. reflexivity. Qed.

Lemma forallb_Forall {A} (f : A -> bool) l : forallb f l = true <-> Forall (fun x => f x = true) l.
Proof. rewrite forallb_forall, Forall_forall. by setoid_rewrite list_elem_of_In. Qed.

Lemma no_alias env comps :
  negb (bool_decide (head comps = Some "proc"%string))
  || match comps with _ :: c1 :: _ => bool_decide (c1 = "self"%string) | _ => true end = true ->
  canonicalize_proc_alias env comps = Ok None.
Proof.
  unfold canonicalize_proc_alias. destruct comps as [|c0 [|c1 rest]]; [done..|]. simpl.
  case_bool_decide as H1; case_bool_decide as H2; simpl; intros H3;
    case_bool_decide as H4; simpl; try done; by subst.
Qed.

Lemma table_check_usable caps env c :
  table_check caps = true -> c ∈ caps ->
  check_path env (Some caps) (segs (path c)) (cap_method c) RW = Ok tt.
Proof.
  unfold table_check. rewrite !andb_true_iff, !forallb_Forall, !Forall_forall.
  intros [[[[[[Hv _] Hr] Ha] _] Hp] Hrw] Hc. unfold check_path.
  rewrite (bool_decide_false (caps = [])) by (intros ->; set_solver). simpl.
  rewrite (no_alias env) by by apply (Hp c). cbn [res_bind].
  rewrite (Ha c) by done. simpl. unfold join_path.
  rewrite segs_canonical by (specialize (Hv c Hc); unfold cap_valid;
    destruct (validate_cap c) as [[]|?|]; done).
  assert (has_perm caps (path c) (cap_method c) RW = true) as Hleaf.
  { apply has_perm_true. exists c. split_and!; [done..|by apply (Hrw c)]. }
  unfold check_leaf. destruct (cap_method c) as [m|].
  - rewrite (Hr c) by done. simpl. by rewrite Hleaf.
  - by rewrite Hleaf.
Qed.

(** INIT's hand-written table is consistent and usable as a whole: every
    entry is canonical, no [(path, method)] appears twice, the object of every
    entry is readable, the supervisor window holds the complete table, and
    every entry can be opened for RW through the full ancestor check. *)
Theorem init_table_usable :
  let caps := full_caps_for_init in
  Forall cap_valid caps
  /\ NoDup (map (fun c => (path c, cap_method c)) caps)
  /\ objects_readable caps
  /\ (exists w, serialize_to_page caps = Ok w /\ read_window w = Some caps)
  /\ forall env c, c ∈ caps ->
       check_path env (Some caps) (segs (path c)) (cap_method c) RW = Ok tt
       /\ check_path_on env (Some caps) (segs (path c)) (cap_method c) RW = Ok tt.
Proof.
  pose proof init_table_check as H. revert H. generalize full_caps_for_init as caps.
  intros caps H. pose proof H as HT. unfold table_check in HT.
  rewrite !andb_true_iff, !forallb_Forall in HT.
  destruct HT as [[[[[[Hv Hnd%bool_decide_eq_true] Hr] _] Hfit%Nat.eqb_eq] _] _].
  assert (Forall cap_valid caps) as Hv'.
  { eapply Forall_impl; [exact Hv|]. intros c. unfold cap_valid. simpl.
    by destruct (validate_cap c) as [[]|?|]. }
  split_and!; [done|done|done| |].
  - destruct (serialize_fitting caps) as (w & Hw & _ & HR). exists w. split; [done|].
    by rewrite HR, Hfit, firstn_all.
  - intros env c Hc. pose proof (table_check_usable caps env c H Hc) as HP.
    split; [done|]. apply check_path_on_weaker; [done|apply nonempty_pieces_ok|done].
Qed.
