(* ===== verification/PhysAlloc.v ===== *)
(** * The physical frame allocator

    Model of kernel/src/mm/phys_alloc.rs.  The bitmap memory is one
    non-negative integer, bit [i] of which is bit [i mod 8] of byte [i / 8]; the
    bytes after the bitmap, which the 64-bit reads of the last word reach, are
    its higher bits and hold anything.  Every operation runs under [inner] and
    is one step; [usize] and [u64] coincide. *)

From S2P Require Import Prelude Bits.
Local Open Scope Z_scope.

Inductive AllocError := NoFrames | InvalidCount.

Inductive MemoryRegionKind :=
| Usable | Reserved | AcpiReclaimable | AcpiNvs | BootServicesCode
| BootServicesData | LoaderCode | LoaderData.

#[global] Instance MemoryRegionKind_eq_dec : EqDecision MemoryRegionKind.
Proof. solve_decision. Defined.

Record MemoryRegion := { r_base : Z; r_size : Z; r_kind : MemoryRegionKind }.

Definition MAX_USABLE_REGIONS : Z := 32.

Record BitmapAllocator := mkAlloc {
  bitmap : Z;
  total_frames : Z;
  alloc_end : Z;
  kernel_start : Z;
  kernel_end : Z;
  usable_regions : list (Z * Z);
  free_count : Z;
  next_free_hint : Z;
  next_free : Z
}.

Definition u64_mask : Z := Z.ones 64.

(** [*bitmap_u64.add(wi)] *)
Definition word_at (bm wi : Z) : Z := Z.land (Z.shiftr bm (64 * wi)) u64_mask.

(** [!w] on [u64]. *)
Definition not64 (w : Z) : Z := Z.lxor w u64_mask.

Definition set_bitmap (s : BitmapAllocator) (bm : Z) : BitmapAllocator :=
  mkAlloc bm (total_frames s) (alloc_end s) (kernel_start s) (kernel_end s)
    (usable_regions s) (free_count s) (next_free_hint s) (next_free s).

Definition set_used (s : BitmapAllocator) (idx : Z) : BitmapAllocator :=
  set_bitmap s (Z.setbit (bitmap s) idx).

Definition set_free (s : BitmapAllocator) (idx : Z) : BitmapAllocator :=
  set_bitmap s (Z.clearbit (bitmap s) idx).

(** The cursor and its advisory copy. *)
Definition set_next (s : BitmapAllocator) (n : Z) : BitmapAllocator :=
  mkAlloc (bitmap s) (total_frames s) (alloc_end s) (kernel_start s) (kernel_end s)
    (usable_regions s) (free_count s) n n.

(** [fetch_add] and [fetch_sub] wrap. *)
Definition add_free_count (s : BitmapAllocator) (d : Z) : BitmapAllocator :=
  mkAlloc (bitmap s) (total_frames s) (alloc_end s) (kernel_start s) (kernel_end s)
    (usable_regions s) ((free_count s + d) mod 2 ^ 64) (next_free_hint s) (next_free s).

Section Allocator.
Context `{Profile}.

(** ** Construction *)

Definition find_max_addr (memory_map : list MemoryRegion) : Z :=
  fold_left (fun a r => if bool_decide (r_kind r = Usable)
                        then Z.max a (sat_add_u64 (r_base r) (r_size r)) else a)
    memory_map 0.

(** The exclusive frame bound of a region ending at [e]. *)
Definition end_frame (e total : Z) : res AllocError Z :=
  if e =? u64_max then Ok total
  else let? x := u64_add e 4095 in Ok (Z.min (x / 4096) total).

(** [for frame in start..end { bit op }] *)
Definition for_frames (f : Z -> Z -> Z) (start stop bm : Z) : Z :=
  fold_left f (seqZ start (stop - start)) bm.

Definition clear_region (bm : Z) (region : MemoryRegion) (total : Z) : res AllocError Z :=
  let start_frame := r_base region / 4096 in
  let? e := end_frame (sat_add_u64 (r_base region) (r_size region)) total in
  Ok (for_frames Z.clearbit start_frame e bm).

Definition mark_region_used (bm : Z) (region : MemoryRegion) (total : Z)
  : res AllocError Z :=
  let start_frame := r_base region / 4096 in
  let? e := end_frame (sat_add_u64 (r_base region) (r_size region)) total in
  Ok (for_frames Z.setbit start_frame e bm).

Fixpoint clear_usable (memory_map : list MemoryRegion) (total bm : Z)
  : res AllocError Z :=
  match memory_map with
  | [] => Ok bm
  | r :: rs =>
      let? bm := if bool_decide (r_kind r = Usable) then clear_region bm r total else Ok bm in
      clear_usable rs total bm
  end.

(** [assert!] panics in every profile. *)
Definition assert (b : bool) : res AllocError unit := if b then Ok tt else Panic.

Fixpoint collect_usable (memory_map : list MemoryRegion) (acc : list (Z * Z))
  : res AllocError (list (Z * Z)) :=
  match memory_map with
  | [] => Ok acc
  | r :: rs =>
      if bool_decide (r_kind r = Usable) && (0 <? r_size r) then
        let? _ := assert (Z.of_nat (length acc) <? MAX_USABLE_REGIONS) in
        collect_usable rs (acc ++ [(r_base r, r_size r)])
      else collect_usable rs acc
  end.

(** The mask of word [wi]: the bits of frames below [total_frames]. *)
Definition count_mask (total wi : Z) : Z :=
  if wi =? (total + 63) / 64 - 1 then
    let rem := total mod 64 in
    if rem =? 0 then u64_mask else Z.shiftl 1 rem - 1
  else u64_mask.

Definition count_free_locked (s : BitmapAllocator) : Z :=
  fold_left (fun free wi =>
      let mask := count_mask (total_frames s) wi in
      let w := Z.land (word_at (bitmap s) wi) mask in
      free + (count_ones mask - count_ones w))
    (seqZ 0 ((total_frames s + 63) / 64)) 0.

Definition with_seeded_free_count (s : BitmapAllocator) : BitmapAllocator :=
  mkAlloc (bitmap s) (total_frames s) (alloc_end s) (kernel_start s) (kernel_end s)
    (usable_regions s) (count_free_locked s) (next_free_hint s) (next_free s).

(** [(x + 4095) & !4095] *)
Definition page_up (x : Z) : res AllocError Z :=
  let? y := u64_add x 4095 in Ok (Z.ldiff y 4095).

(** [mem] is the content of the memory the bitmap is placed on. *)
Definition new (mem : Z) (bitmap_region : Z * Z) (memory_map : list MemoryRegion)
  (kstart kend : Z) : res AllocError BitmapAllocator :=
  let '(region_base, region_size) := bitmap_region in
  let? _ := assert (0 <? region_size) in
  let? region_end := u64_add region_base region_size in
  let max_addr := find_max_addr memory_map in
  let? t := u64_add max_addr 4095 in
  let total := t / 4096 in
  let bitmap_len := (total + 7) / 8 in
  let? b := if region_base <? kend then page_up kend else Ok region_base in
  let? bend := (if region_base <=? b then u64_add b bitmap_len else Ok 0) in
  let? _ := assert ((region_base <=? b) && (bend <=? region_end)) in
  let bm := Z.lor mem (Z.ones (8 * bitmap_len)) in
  let? bm := clear_usable memory_map total bm in
  let? bm := mark_region_used bm {| r_base := b; r_size := bitmap_len; r_kind := Reserved |} total in
  let bm := if 0 <? total then Z.setbit bm 0 else bm in
  let ks := Z.ldiff kstart 4095 in
  let? ke := page_up kend in
  let? bm :=
    if ks <? ke
    then mark_region_used bm {| r_base := ks; r_size := ke - ks; r_kind := Reserved |} total
    else Ok bm in
  let hint := b / 4096 in
  let? usable := collect_usable memory_map [] in
  Ok (with_seeded_free_count (mkAlloc bm total max_addr ks ke usable 0 hint hint)).

(** ** Single frames *)

Definition is_used (s : BitmapAllocator) (idx : Z) : bool := Z.testbit (bitmap s) idx.

Definition is_reserved_frame (s : BitmapAllocator) (idx : Z) : bool :=
  if idx =? 0 then true
  else let addr := idx * 4096 in (kernel_start s <=? addr) && (addr <? kernel_end s).

(** [while candidates != 0 { ... }] over one word; every round clears a bit. *)
Fixpoint probe (fuel : nat) (s : BitmapAllocator) (wi candidates : Z)
  : res AllocError (BitmapAllocator * option Z) :=
  match fuel with
  | O => if candidates =? 0 then Ok (s, None) else Panic
  | S fuel =>
      if candidates =? 0 then Ok (s, None)
      else
        let bit := trailing_zeros 64 candidates in
        let idx := wi * 64 + bit in
        if is_reserved_frame s idx then probe fuel s wi (Z.clearbit candidates bit)
        else
          let s := set_next (set_used s idx) (idx + 1) in
          let addr := idx * 4096 in
          let? _ := debug_assert ((addr <? kernel_start s) || (kernel_end s <=? addr)) in
          if (kernel_start s <=? addr) && (addr <? kernel_end s)
          then probe fuel (set_free s idx) wi (Z.clearbit candidates bit)
          else Ok (add_free_count s (-1), Some addr)
  end.

(** The candidates of word [wi] in the forward pass and in the wrap-around. *)
Definition tail_mask (s : BitmapAllocator) (wi : Z) : Z :=
  if (wi =? (total_frames s + 63) / 64 - 1) && negb (total_frames s mod 64 =? 0)
  then Z.shiftl 1 (total_frames s mod 64) - 1 else u64_mask.

Definition first_candidates (s : BitmapAllocator) (start_idx wi : Z) : Z :=
  Z.land (Z.land (not64 (word_at (bitmap s) wi))
    (if (wi =? start_idx / 64) && (0 <? start_idx mod 64)
     then not64 (Z.shiftl 1 (start_idx mod 64) - 1) else u64_mask))
    (tail_mask s wi).

Definition wrap_candidates (s : BitmapAllocator) (wi : Z) : Z :=
  Z.land (not64 (word_at (bitmap s) wi)) (tail_mask s wi).

Fixpoint scan (cands : BitmapAllocator -> Z -> Z) (s : BitmapAllocator) (wis : list Z)
  : res AllocError (BitmapAllocator * option Z) :=
  match wis with
  | [] => Ok (s, None)
  | wi :: wis =>
      let? '(s, r) := probe 64 s wi (cands s wi) in
      match r with
      | Some addr => Ok (s, Some addr)
      | None => scan cands s wis
      end
  end.

Definition alloc (s : BitmapAllocator) : res AllocError (BitmapAllocator * option Z) :=
  let start_idx := Z.max (next_free_hint s) (next_free s) in
  let total_words := (total_frames s + 63) / 64 in
  let start_word := start_idx / 64 in
  let? '(s, r) := scan (fun s => first_candidates s start_idx) s
                    (seqZ start_word (total_words - start_word)) in
  match r with
  | Some addr => Ok (s, Some addr)
  | None => scan wrap_candidates s (seqZ 0 start_word)
  end.

(** The compare-exchange loop on the hint runs without contention. *)
Definition free (s : BitmapAllocator) (addr : Z) : res AllocError BitmapAllocator :=
  let idx := addr / 4096 in
  if total_frames s <=? idx then Ok s
  else if (idx =? 0) || ((kernel_start s <=? idx * 4096) && (idx * 4096 <? kernel_end s)) then
    let? _ := debug_assert false in Ok s
  else
    let s := add_free_count (set_free s idx) 1 in
    Ok (mkAlloc (bitmap s) (total_frames s) (alloc_end s) (kernel_start s) (kernel_end s)
          (usable_regions s) (free_count s)
          (if idx <? next_free_hint s then idx else next_free_hint s)
          (if idx <? next_free s then idx else next_free s)).

Definition reserve_frame (s : BitmapAllocator) (frame : Z) : BitmapAllocator :=
  if (frame <? total_frames s) && negb (is_used s frame)
  then add_free_count (set_used s frame) (-1) else s.

Definition reserve_region (s : BitmapAllocator) (start stop : Z)
  : res AllocError BitmapAllocator :=
  let? _ := debug_assert (start <=? stop) in
  let start_frame := start / 4096 in
  let? e := end_frame stop (total_frames s) in
  Ok (fold_left reserve_frame (seqZ start_frame (e - start_frame)) s).

Definition reserve_range (s : BitmapAllocator) (addr sz : Z) : res AllocError BitmapAllocator :=
  reserve_region s addr (sat_add_u64 addr sz).

(** ** Contiguous runs *)

Definition range_overlaps_kernel (s : BitmapAllocator) (start_idx count : Z)
  : res AllocError bool :=
  if start_idx =? 0 then Ok true
  else
    let? addr := u64_mul start_idx 4096 in
    let? len := u64_mul count 4096 in
    let? e := u64_add addr len in
    Ok ((kernel_start s <? e) && (addr <? kernel_end s)).

Section Run.
Variables (bm total count align_pages : Z).

(** First aligned window of [count] frames inside the run [rs .. rs+rl). *)
Definition emit (rs rl : Z) : option Z :=
  if rl <? count then None
  else
    let off := (align_pages - rs mod align_pages) mod align_pages in
    if off + count <=? rl then Some (rs + off) else None.

(** The inner [while i < nbits && bit clear { i += 1 }]. *)
Fixpoint skip_free (fuel : nat) (w nbits i : Z) : Z :=
  match fuel with
  | O => i
  | S fuel =>
      if (i <? nbits) && negb (Z.testbit w i) then skip_free fuel w nbits (i + 1) else i
  end.

(** [inl a]: return [Some a]; [inr (run_start, run_len)]: fall through. *)
Fixpoint bits_loop (fuel : nat) (w nbits wi i run_start run_len : Z) : Z + (Z * Z) :=
  match fuel with
  | O => inr (run_start, run_len)
  | S fuel =>
      if i <? nbits then
        if negb (Z.testbit w i) then
          let j := skip_free 64 w nbits i in
          match emit (wi * 64 + i) (j - i) with
          | Some a => inl a
          | None => bits_loop fuel w nbits wi j (wi * 64 + i) (j - i)
          end
        else bits_loop fuel w nbits wi (i + 1) run_start run_len
      else inr (run_start, run_len)
  end.

Definition word_bits (wi : Z) : Z :=
  if wi =? (total + 63) / 64 - 1
  then (if total mod 64 =? 0 then 64 else total mod 64) else 64.

(** The word with the bits outside [lo, hi) treated as used. *)
Definition window_word (lo hi wi start_word end_word : Z) : Z :=
  let nbits := word_bits wi in
  let word_mask := if nbits =? 64 then u64_mask else Z.shiftl 1 nbits - 1 in
  let w := Z.land (word_at bm wi) word_mask in
  let w := if (wi =? start_word) && negb (lo mod 64 =? 0)
           then Z.lor w (Z.shiftl 1 (lo mod 64) - 1) else w in
  if (wi =? end_word - 1) && negb (hi mod 64 =? 0)
  then Z.lor w (Z.land (not64 (Z.shiftl 1 (hi mod 64) - 1)) word_mask) else w.

Definition run_word (w nbits wi run_start run_len : Z) : Z + (Z * Z) :=
  if w =? 0 then
    let run_start := if run_len =? 0 then wi * 64 else run_start in
    let run_len := run_len + nbits in
    match emit run_start run_len with
    | Some a => inl a
    | None => inr (run_start, run_len)
    end
  else if 0 <? run_len then
    let lead := trailing_zeros 64 (not64 w) in
    match emit run_start (run_len + lead) with
    | Some a => inl a
    | None => bits_loop 65 w nbits wi (lead + 1) run_start 0
    end
  else bits_loop 65 w nbits wi 0 run_start run_len.

Fixpoint run_words (lo hi start_word end_word : Z) (wis : list Z) (run_start run_len : Z)
  : option Z :=
  match wis with
  | [] => None
  | wi :: wis =>
      match run_word (window_word lo hi wi start_word end_word) (word_bits wi) wi
              run_start run_len with
      | inl a => Some a
      | inr (rs, rl) => run_words lo hi start_word end_word wis rs rl
      end
  end.

Definition find_run (lo hi : Z) : option Z :=
  if hi <=? lo then None
  else
    let start_word := lo / 64 in
    let end_word := hi / 64 + (if hi mod 64 =? 0 then 0 else 1) in
    run_words lo hi start_word end_word (seqZ start_word (end_word - start_word)) 0 0.
End Run.

Definition set_used_range (s : BitmapAllocator) (start count : Z) : BitmapAllocator :=
  fold_left set_used (seqZ start count) s.
Definition set_free_range (s : BitmapAllocator) (start count : Z) : BitmapAllocator :=
  fold_left set_free (seqZ start count) s.

(** The search loop; [next] is the cursor read at entry, [hi] is [hi_cap] until
    the wrap-around and [next] after it. *)
Fixpoint contig_loop (fuel : nat) (s : BitmapAllocator) (count align_pages hi_cap next : Z)
  (lo hi : Z) (tried_wrap : bool) : res AllocError (BitmapAllocator * Z) :=
  match fuel with
  | O => Panic
  | S fuel =>
      match find_run (bitmap s) (total_frames s) count align_pages lo hi with
      | Some run_start =>
          let? overlap := range_overlaps_kernel s run_start count in
          if overlap then
            let lo := run_start + 1 in
            if hi <? lo + count then
              if negb tried_wrap && (hi =? hi_cap)
              then contig_loop fuel s count align_pages hi_cap next 0 next true
              else Err NoFrames
            else contig_loop fuel s count align_pages hi_cap next lo hi tried_wrap
          else
            let s := set_next (set_used_range s run_start count) (run_start + count) in
            let? addr := u64_mul run_start 4096 in
            let? len := u64_mul count 4096 in
            let? end_addr := u64_add addr len in
            let? _ := debug_assert ((end_addr <=? kernel_start s) || (kernel_end s <=? addr)) in
            if (kernel_start s <? end_addr) && (addr <? kernel_end s)
            then contig_loop fuel (set_free_range s run_start count) count align_pages hi_cap next
                   (run_start + 1) hi tried_wrap
            else Ok (add_free_count s (- count), addr)
      | None =>
          if negb tried_wrap && (hi =? hi_cap)
          then contig_loop fuel s count align_pages hi_cap next 0 next true
          else Err NoFrames
      end
  end.

(** On an error the allocator is unchanged. *)
Definition alloc_contig_core (s : BitmapAllocator) (count align_pages hi_cap : Z)
  : res AllocError (BitmapAllocator * Z) :=
  if (count =? 0) || (total_frames s <? count) || (hi_cap <? count) then Err InvalidCount
  else if (align_pages =? 0) || negb (is_power_of_two align_pages) then Err InvalidCount
  else
    let next := Z.max (next_free_hint s) (next_free s) in
    contig_loop (2 * Z.to_nat (total_frames s) + 4) s count align_pages hi_cap next
      next hi_cap false.

Definition try_alloc_contiguous (s : BitmapAllocator) (count : Z) :=
  alloc_contig_core s count 1 (total_frames s).

Definition try_alloc_contiguous_aligned (s : BitmapAllocator) (count align_pages : Z) :=
  alloc_contig_core s count align_pages (total_frames s).

Definition try_alloc_contiguous_below (s : BitmapAllocator) (count max_paddr : Z) :=
  let hi_cap := Z.min (max_paddr / 4096) (total_frames s) in
  if (hi_cap =? 0) || (hi_cap <? count) then Err NoFrames
  else alloc_contig_core s count 1 hi_cap.

(** [.ok()] *)
Definition alloc_contiguous (s : BitmapAllocator) (count : Z)
  : res AllocError (BitmapAllocator * option Z) :=
  match try_alloc_contiguous s count with
  | Ok (s, a) => Ok (s, Some a)
  | Err _ => Ok (s, None)
  | Panic => Panic
  end.

(** The [PhysicalMemoryAllocator] service. *)
Definition alloc_frames (s : BitmapAllocator) (count : Z)
  : res AllocError (BitmapAllocator * option Z) :=
  if count =? 1 then alloc s else alloc_contiguous s count.

Fixpoint free_loop (addr : Z) (js : list Z) (s : BitmapAllocator) : res AllocError BitmapAllocator :=
  match js with
  | [] => Ok s
  | i :: js =>
      let? off := u64_mul i 4096 in
      let? frame := u64_add addr off in
      let? s := free s frame in
      free_loop addr js s
  end.

Definition free_frames (s : BitmapAllocator) (addr count : Z) : res AllocError BitmapAllocator :=
  if count =? 0 then Ok s
  else
    let? _ := debug_assert (addr mod 4096 =? 0) in
    free_loop addr (seqZ 0 count) s.
End Allocator.
