(* ===== verification/PhysAllocFacts.v ===== *)
(** * Correctness of the physical frame allocator

    Bit-level characterisation of the scans of PhysAlloc, the allocator
    invariant, the specifications of [alloc], [free], [reserve_region] and
    [new] against the abstract set of free frames, exclusivity of single-frame
    ownership over every reachable state, and the behaviour of the contiguous
    search. *)

From S2P Require Import Prelude Bits PhysAlloc.
Local Open Scope Z_scope.

(** ** Words of the bitmap *)

Lemma testbit_word_at bm wi b : 0 <= wi -> 0 <= b ->
  Z.testbit (word_at bm wi) b = Z.testbit bm (64 * wi + b) && (b <? 64).
Proof.
  intros Hwi Hb. unfold word_at, u64_mask.
  rewrite Z.land_spec, Z.shiftr_spec, testbit_ones by lia. do 2 f_equal. lia.
Qed.

Lemma word_at_range bm wi : 0 <= word_at bm wi < 2 ^ 64.
Proof.
  unfold word_at, u64_mask. rewrite Z.land_ones by lia. apply Z.mod_pos_bound. lia.
Qed.

Lemma testbit_not64 w b : 0 <= w < 2 ^ 64 -> 0 <= b ->
  Z.testbit (not64 w) b = negb (Z.testbit w b) && (b <? 64).
Proof.
  intros Hw Hb. unfold not64, u64_mask. rewrite Z.lxor_spec, testbit_ones by lia.
  destruct (b <? 64) eqn:E; [by destruct (Z.testbit w b)|].
  rewrite (testbit_out 64) by lia. done.
Qed.

Lemma not64_range w : 0 <= w < 2 ^ 64 -> 0 <= not64 w < 2 ^ 64.
Proof.
  intros Hw. assert (0 <= not64 w) as H0.
  { unfold not64. apply Z.lxor_nonneg. unfold u64_mask. rewrite Z.ones_equiv. lia. }
  split; [done|]. apply Z.bounded_iff_bits_nonneg; [lia|done|]. intros l Hl.
  rewrite testbit_not64 by lia. rewrite (proj2 (Z.ltb_ge _ _)) by lia. apply andb_false_r.
Qed.

(** [(1 << n) - 1] *)
Lemma testbit_low_mask n b : 0 <= n -> 0 <= b -> Z.testbit (Z.shiftl 1 n - 1) b = (b <? n).
Proof.
  intros Hn Hb. rewrite Z.shiftl_1_l.
  replace (2 ^ n - 1) with (Z.ones n) by (rewrite Z.ones_equiv; lia).
  by apply testbit_ones.
Qed.

Lemma low_mask_range n : 0 <= n <= 64 -> 0 <= Z.shiftl 1 n - 1 < 2 ^ 64.
Proof.
  intros Hn. rewrite Z.shiftl_1_l.
  pose proof (Z.pow_le_mono_r 2 n 64). pose proof (Z.pow_pos_nonneg 2 n). lia.
Qed.

Lemma testbit_u64_mask b : 0 <= b -> Z.testbit u64_mask b = (b <? 64).
Proof. intros. by apply testbit_ones. Qed.

Lemma land_range x y : 0 <= x < 2 ^ 64 -> 0 <= y -> 0 <= Z.land x y < 2 ^ 64.
Proof.
  intros Hx Hy. assert (0 <= Z.land x y) by (apply Z.land_nonneg; lia). split; [done|].
  apply Z.bounded_iff_bits_nonneg; [lia|done|]. intros l Hl.
  by rewrite Z.land_spec, (testbit_out 64).
Qed.

Lemma div64_range i k : 64 * k <= i < 64 * k + 64 <-> i / 64 = k.
Proof. mlia. Qed.

Lemma testbit_tail_mask s wi b :
  0 <= total_frames s -> 0 <= wi < (total_frames s + 63) / 64 -> 0 <= b < 64 ->
  Z.testbit (tail_mask s wi) b = (64 * wi + b <? total_frames s).
Proof.
  intros Ht Hwi Hb. unfold tail_mask.
  destruct (wi =? _) eqn:E1; simpl; [destruct (total_frames s mod 64 =? 0) eqn:E2; simpl|].
  - rewrite testbit_u64_mask by lia. mlia.
  - rewrite testbit_low_mask by mlia. mlia.
  - rewrite testbit_u64_mask by lia. mlia.
Qed.

Lemma tail_mask_nonneg s wi : 0 <= total_frames s -> 0 <= tail_mask s wi.
Proof.
  intros Ht. unfold tail_mask. destruct (_ && _).
  - apply low_mask_range. mlia.
  - unfold u64_mask. rewrite Z.ones_equiv. lia.
Qed.

(** ** The allocator's abstract state *)

(** Frame [i] is managed and its bit is clear. *)
Definition frame_free (s : BitmapAllocator) (i : Z) : Prop :=
  0 <= i < total_frames s /\ Z.testbit (bitmap s) i = false.

Definition free_frames_of (s : BitmapAllocator) : Z :=
  countb (fun i => negb (Z.testbit (bitmap s) i)) (Z.to_nat (total_frames s)).

(** INV-PA: cursor in range and equal to its copy, count exact. *)
Record inv (s : BitmapAllocator) : Prop := {
  inv_bitmap : 0 <= bitmap s;
  inv_total : 0 <= total_frames s < 2 ^ 52;
  inv_hint : next_free_hint s = next_free s;
  inv_next : 0 <= next_free s <= total_frames s;
  inv_count : free_count s = free_frames_of s
}.

(** What handing out frame [idx] does. *)
Definition take_frame (s : BitmapAllocator) (idx : Z) : BitmapAllocator :=
  add_free_count (set_next (set_used s idx) (idx + 1)) (-1).

Section Single.
Context `{Profile}.

Lemma not_reserved_kernel s idx : is_reserved_frame s idx = false ->
  (kernel_start s <=? idx * 4096) && (idx * 4096 <? kernel_end s) = false.
Proof. unfold is_reserved_frame. by destruct (idx =? 0). Qed.

Lemma debug_assert_true {E} b : b = true -> debug_assert (E := E) b = Ok tt.
Proof. intros ->. unfold debug_assert. by rewrite andb_false_r. Qed.

Lemma not_reserved_assert s idx : is_reserved_frame s idx = false ->
  (idx * 4096 <? kernel_start s) || (kernel_end s <=? idx * 4096) = true.
Proof. intros Hr%not_reserved_kernel. lia. Qed.

Lemma countb_zero f n : countb f n = 0 -> forall i, 0 <= i < Z.of_nat n -> f i = false.
Proof.
  induction n as [|n IH]; intros Hc i Hi; [lia|]. cbn [countb] in Hc.
  pose proof (countb_bound f n). destruct (f (Z.of_nat n)) eqn:E; simpl in Hc; [lia|].
  destruct (decide (i = Z.of_nat n)) as [->|]; [done|]. apply IH; lia.
Qed.

(** The candidate loop finds the first unreserved candidate of its word. *)
Lemma probe_spec fuel s wi c :
  0 <= c < 2 ^ 64 -> countb (Z.testbit c) 64 <= Z.of_nat fuel ->
  exists s' r, probe fuel s wi c = Ok (s', r) /\
  match r with
  | None => s' = s /\ forall b, Z.testbit c b = true -> is_reserved_frame s (wi * 64 + b) = true
  | Some a => exists b, Z.testbit c b = true
      /\ is_reserved_frame s (wi * 64 + b) = false
      /\ a = (wi * 64 + b) * 4096 /\ s' = take_frame s (wi * 64 + b)
  end.
Proof.
  revert c. induction fuel as [|fuel IH]; intros c Hc Hn; cbn [probe].
  { assert (c = 0) as ->.
    { pose proof (countb_bound (Z.testbit c) 64). apply zero_no_bits; [lia|]. intros i Hi.
      destruct (decide (i < 64)); [|apply (testbit_out 64); lia].
      apply (countb_zero _ 64); lia. }
    rewrite Z.eqb_refl. exists s, None. split; [done|]. split; [done|].
    intros b. by rewrite Z.testbit_0_l. }
  destruct (c =? 0) eqn:Ec.
  { assert (c = 0) as -> by lia. exists s, None. split; [done|]. split; [done|].
    intros b. by rewrite Z.testbit_0_l. }
  destruct (trailing_zeros_spec 64 c) as (Hb & Hbit & _); [lia|].
  set (b := trailing_zeros 64 c) in *.
  destruct (is_reserved_frame s (wi * 64 + b)) eqn:Er.
  - destruct (IH (Z.clearbit c b)) as (s' & r & -> & Hr).
    + apply clearbit_lt; lia.
    + rewrite (countb_update (Z.testbit c) _ 64 b).
      * rewrite Hbit, Z.clearbit_eq. simpl Z.b2z. lia.
      * lia.
      * intros i Hi. by rewrite Z.clearbit_neq.
    + exists s', r. split; [done|]. destruct r as [a|].
      * destruct Hr as (b' & H1 & H2 & H3 & H4). exists b'. split_and!; [|done..].
        rewrite Z.clearbit_eqb in H1. by apply andb_true_iff in H1 as [H1 _].
      * destruct Hr as [-> Hr]. split; [done|]. intros b' Hb'.
        destruct (decide (b' = b)) as [->|Hne]; [done|]. apply Hr.
        by rewrite Z.clearbit_neq.
  - set (s1 := set_next _ _). change (kernel_start s1) with (kernel_start s).
    change (kernel_end s1) with (kernel_end s).
    rewrite debug_assert_true by by apply not_reserved_assert. cbn [res_bind].
    rewrite not_reserved_kernel by done. eexists _, (Some _). split; [reflexivity|].
    exists b. split_and!; done.
Qed.

(** The pass over words: [Q] says which frames are candidates. *)
Lemma scan_spec (cands : BitmapAllocator -> Z -> Z) (Q : Z -> Prop) s wis :
  (forall wi, wi ∈ wis -> 0 <= cands s wi < 2 ^ 64) ->
  (forall wi b, wi ∈ wis -> Z.testbit (cands s wi) b = true <-> 0 <= b < 64 /\ Q (wi * 64 + b)) ->
  exists s' r, scan cands s wis = Ok (s', r) /\
  match r with
  | None => s' = s /\ forall i, i / 64 ∈ wis -> Q i -> is_reserved_frame s i = true
  | Some a => exists idx, idx / 64 ∈ wis /\ Q idx /\ is_reserved_frame s idx = false
      /\ a = idx * 4096 /\ s' = take_frame s idx
  end.
Proof.
  intros Hrange HQ. induction wis as [|wi wis IH]; cbn [scan].
  { exists s, None. split; [done|]. split; [done|]. set_solver. }
  destruct (probe_spec 64 s wi (cands s wi)) as (s' & r & -> & Hr).
  { apply Hrange. set_solver. }
  { apply countb_bound. }
  cbn [res_bind]. destruct r as [a|].
  - exists s', (Some a). split; [done|]. destruct Hr as (b & Hb & Hres & -> & ->).
    apply HQ in Hb as [Hb HQb]; [|set_solver]. exists (wi * 64 + b).
    split_and!; [|done..]. replace ((wi * 64 + b) / 64) with wi by mlia. set_solver.
  - destruct Hr as [-> Hr]. destruct IH as (s' & r & -> & IH').
    { intros. apply Hrange. set_solver. }
    { intros. apply HQ. set_solver. }
    exists s', r. split; [done|]. destruct r as [a|].
    + destruct IH' as (idx & ? & ?). exists idx. split; [set_solver|done].
    + destruct IH' as [-> IH']. split; [done|]. intros i [Hi|Hi]%elem_of_cons HQi; [|by apply IH'].
      replace i with (wi * 64 + (i - wi * 64)) by lia. apply Hr, HQ; [set_solver|].
      split; [mlia|]. by replace (wi * 64 + (i - wi * 64)) with i by lia.
Qed.

Lemma wrap_candidates_spec s wi :
  0 <= total_frames s -> 0 <= wi < (total_frames s + 63) / 64 ->
  0 <= wrap_candidates s wi < 2 ^ 64
  /\ forall b, Z.testbit (wrap_candidates s wi) b = true
     <-> 0 <= b < 64 /\ frame_free s (wi * 64 + b).
Proof.
  intros Ht Hwi. unfold wrap_candidates.
  pose proof (word_at_range (bitmap s) wi) as Hw. pose proof (not64_range _ Hw) as Hn.
  pose proof (land_range _ (tail_mask s wi) Hn (tail_mask_nonneg s wi Ht)) as Hr.
  split; [done|]. intros b. destruct (decide (0 <= b < 64)) as [Hb|Hb].
  - rewrite Z.land_spec, testbit_not64, testbit_word_at, testbit_tail_mask by lia.
    unfold frame_free. rewrite (Z.mul_comm wi 64).
    rewrite (proj2 (Z.ltb_lt b 64)) by lia. rewrite !andb_true_r.
    rewrite andb_true_iff, negb_true_iff, Z.ltb_lt.
    split; [intros [H1 H2]|intros (H1 & H2 & H3)]; split_and!; (lia || done).
  - split; [|lia]. intros Hbit. by apply (bits_in _ _ 64) in Hbit.
Qed.

Lemma first_candidates_spec s st wi :
  0 <= total_frames s -> 0 <= st -> st / 64 <= wi < (total_frames s + 63) / 64 ->
  0 <= first_candidates s st wi < 2 ^ 64
  /\ forall b, Z.testbit (first_candidates s st wi) b = true
     <-> 0 <= b < 64 /\ frame_free s (wi * 64 + b) /\ st <= wi * 64 + b.
Proof.
  intros Ht Hst Hwi. unfold first_candidates. rewrite <- Z.land_assoc, (Z.land_comm _ (tail_mask _ _)),
    Z.land_assoc. fold (wrap_candidates s wi).
  destruct (wrap_candidates_spec s wi Ht) as [Hr Hbits]; [mlia|].
  set (m := if (wi =? st / 64) && (0 <? st mod 64) then _ else _).
  assert (0 <= m /\ forall b, 0 <= b < 64 -> Z.testbit m b = (st <=? wi * 64 + b)) as [Hm Hmb].
  { unfold m. destruct (wi =? st / 64) eqn:E1; simpl.
    - destruct (0 <? st mod 64) eqn:E2.
      + pose proof (low_mask_range (st mod 64) ltac:(mlia)) as Hl.
        split; [by apply not64_range|]. intros b Hb.
        rewrite testbit_not64, testbit_low_mask by (done || mlia). mlia.
      + split; [unfold u64_mask; rewrite Z.ones_equiv; lia|].
        intros b Hb. rewrite testbit_u64_mask by lia. mlia.
    - split; [unfold u64_mask; rewrite Z.ones_equiv; lia|].
      intros b Hb. rewrite testbit_u64_mask by lia. mlia. }
  split; [by apply land_range|]. intros b. rewrite Z.land_spec, andb_true_iff, Hbits.
  split.
  - intros [[Hb Hf] H1]. rewrite Hmb in H1 by done. split_and!; [lia..|done|lia].
  - intros (Hb & Hf & Hs). split; [done|]. rewrite Hmb by done. lia.
Qed.

Lemma frame_free_take s idx i : 0 <= idx ->
  frame_free (take_frame s idx) i <-> frame_free s i /\ i <> idx.
Proof.
  intros Hidx. unfold frame_free, take_frame; simpl. rewrite Z.setbit_eqb by lia.
  destruct (idx =? i) eqn:E; simpl.
  - split; [by intros [_ ?]|lia].
  - split; [intros [? ?]; split_and!; (done || lia)|by intros [? _]].
Qed.

Lemma free_frames_take s idx : frame_free s idx ->
  free_frames_of (take_frame s idx) = free_frames_of s - 1.
Proof.
  intros [Hi Hf]. unfold free_frames_of, take_frame; simpl.
  rewrite (countb_update (fun i => negb (Z.testbit (bitmap s) i)) _ _ idx).
  - rewrite Hf, Z.setbit_eq by lia. simpl. lia.
  - lia.
  - intros i Hne. by rewrite Z.setbit_eqb, (proj2 (Z.eqb_neq _ _)) by lia.
Qed.

Lemma free_frames_range s : 0 <= total_frames s -> 0 <= free_frames_of s <= total_frames s.
Proof. intros. unfold free_frames_of. pose proof (countb_bound (fun i => negb (Z.testbit (bitmap s) i)) (Z.to_nat (total_frames s))). lia. Qed.

Lemma inv_take s idx : inv s -> frame_free s idx -> inv (take_frame s idx).
Proof.
  intros [Hb Ht Hh Hn Hc] Hf. pose proof (free_frames_take s idx Hf) as Hcount.
  pose proof (free_frames_range (take_frame s idx)) as Hr. simpl in Hr.
  destruct Hf as [Hi _]. constructor; [by apply setbit_nonneg|done|done|simpl; lia|].
  change (free_count (take_frame s idx)) with ((free_count s + -1) mod 2 ^ 64).
  rewrite Hc, Z.mod_small; lia.
Qed.

(** The frames that a search from the cursor does not look at: those before it in
    its own word. *)
Definition skipped s i : Prop := 64 * (next_free s / 64) <= i < next_free s.

(** The frames that [alloc] may hand out. *)
Definition servable s i : Prop := frame_free s i /\ is_reserved_frame s i = false /\ ~ skipped s i.

Lemma alloc_search s : inv s ->
  exists s' r, alloc s = Ok (s', r) /\
  match r with
  | Some a => exists idx, a = idx * 4096 /\ servable s idx /\ s' = take_frame s idx
  | None => s' = s /\ forall i, ~ servable s i
  end.
Proof.
  intros [Hb Ht Hh Hn Hc]. unfold alloc. rewrite Hh, Z.max_id. set (st := next_free s) in *.
  set (tw := (total_frames s + 63) / 64).
  destruct (scan_spec (fun s => first_candidates s st)
    (fun i => frame_free s i /\ st <= i) s (seqZ (st / 64) (tw - st / 64)))
    as (s1 & r1 & -> & H1).
  { intros wi Hwi%elem_of_seqZ. apply first_candidates_spec; lia. }
  { intros wi b Hwi%elem_of_seqZ. apply first_candidates_spec; lia. }
  cbn [res_bind]. destruct r1 as [a|].
  { exists s1, (Some a). split; [done|]. destruct H1 as (idx & _ & [Hf Hge] & Hr & -> & ->).
    exists idx. split_and!; [done|split_and!; [done|done|unfold skipped; fold st; lia]|done]. }
  destruct H1 as [-> H1].
  destruct (scan_spec wrap_candidates (frame_free s) s (seqZ 0 (st / 64))) as (s2 & r2 & -> & H2).
  { intros wi Hwi%elem_of_seqZ. apply wrap_candidates_spec; mlia. }
  { intros wi b Hwi%elem_of_seqZ. apply wrap_candidates_spec; mlia. }
  exists s2, r2. split; [done|]. destruct r2 as [a|].
  - destruct H2 as (idx & Hw%elem_of_seqZ & Hf & Hr & -> & ->). exists idx.
    split_and!; [done|split_and!; [done|done|unfold skipped; fold st; mlia]|done].
  - destruct H2 as [-> H2]. split; [done|]. intros i (Hf & Hr & Hs). unfold skipped in Hs. fold st in Hs.
    destruct (decide (i / 64 < st / 64)).
    { rewrite H2 in Hr; [done| |done]. apply elem_of_seqZ. destruct Hf. mlia. }
    rewrite H1 in Hr; [done| |split; [done|mlia]]. apply elem_of_seqZ. destruct Hf. unfold tw. mlia.
Qed.

Lemma alloc_ok s : inv s ->
  exists s' r, alloc s = Ok (s', r) /\
  match r with
  | Some a => exists idx, a = idx * 4096 /\ frame_free s idx
      /\ is_reserved_frame s idx = false /\ s' = take_frame s idx
  | None => s' = s
  end.
Proof.
  intros Hinv. destruct (alloc_search s Hinv) as (s' & r & E & Hr). exists s', r. split; [done|].
  destruct r as [a|]; [|by destruct Hr]. destruct Hr as (idx & -> & (Hf & Hres & _) & ->). by exists idx.
Qed.

(** ** Freeing and reserving *)

Lemma free_ok s idx :
  inv s -> 0 <= idx < total_frames s -> Z.testbit (bitmap s) idx = true ->
  is_reserved_frame s idx = false ->
  exists s', free s (idx * 4096) = Ok s' /\ inv s'
  /\ bitmap s' = Z.clearbit (bitmap s) idx /\ total_frames s' = total_frames s
  /\ kernel_start s' = kernel_start s /\ kernel_end s' = kernel_end s
  /\ free_count s' = free_count s + 1 /\ next_free s' = Z.min idx (next_free s).
Proof.
  intros [Hb Ht Hh Hn Hc] Hi Hbit Hr. unfold free. rewrite Z.div_mul by lia.
  rewrite (proj2 (Z.leb_gt _ _)) by lia.
  pose proof (not_reserved_kernel s idx Hr) as Hk. unfold is_reserved_frame in Hr.
  destruct (idx =? 0) eqn:E0; [done|]. rewrite Hk. cbn [orb].
  assert (free_frames_of (set_free s idx) = free_frames_of s + 1) as Hcount.
  { unfold free_frames_of; simpl.
    rewrite (countb_update (fun i => negb (Z.testbit (bitmap s) i)) _ _ idx).
    - rewrite Hbit, Z.clearbit_eq. simpl. lia.
    - lia.
    - intros i Hne. by rewrite Z.clearbit_neq by lia. }
  pose proof (free_frames_range (set_free s idx)) as Hrange. simpl in Hrange.
  assert ((free_count s + 1) mod 2 ^ 64 = free_count s + 1) as Hmod
    by (rewrite Hc, Z.mod_small; lia).
  eexists. split; [reflexivity|]. cbn. rewrite Hmod, Hh.
  split_and!; [|done..|by destruct (idx <? next_free s) eqn:?; lia].
  constructor; cbn; [by apply clearbit_nonneg|done|done| |].
  - destruct (idx <? next_free s) eqn:?; lia.
  - change (free_count s + 1 = free_frames_of (set_free s idx)). lia.
Qed.

Lemma reserve_frame_ok s f : inv s -> 0 <= f ->
  inv (reserve_frame s f) /\ total_frames (reserve_frame s f) = total_frames s
  /\ kernel_start (reserve_frame s f) = kernel_start s
  /\ kernel_end (reserve_frame s f) = kernel_end s
  /\ (forall i, frame_free (reserve_frame s f) i <-> frame_free s i /\ i <> f).
Proof.
  intros Hinv Hf. unfold reserve_frame, is_used.
  destruct (f <? total_frames s) eqn:E1; simpl; [destruct (Z.testbit (bitmap s) f) eqn:E2; simpl|].
  - split_and!; try done. intros i. split; [|by intros [? _]].
    intros Hfree. split; [done|]. intros ->. destruct Hfree. congruence.
  - assert (frame_free s f) as Hff by (split; [lia|done]).
    pose proof (inv_take s f Hinv Hff) as [H1 H2 H3 H4 H5]. split_and!; try done.
    + destruct Hinv. constructor; try done.
    + intros i. apply (frame_free_take s f i Hf).
  - split_and!; try done. intros i. split; [|by intros [? _]].
    intros Hfree. split; [done|]. intros ->. destruct Hfree. lia.
Qed.

Lemma reserve_fold_ok js s : inv s -> (forall j, j ∈ js -> 0 <= j) ->
  let s' := fold_left reserve_frame js s in
  inv s' /\ total_frames s' = total_frames s
  /\ kernel_start s' = kernel_start s /\ kernel_end s' = kernel_end s
  /\ (forall i, frame_free s' i <-> frame_free s i /\ i ∉ js).
Proof.
  revert s. induction js as [|j js IH]; intros s Hinv Hj; simpl.
  { split_and!; try done. set_solver. }
  destruct (reserve_frame_ok s j Hinv) as (H1 & H2 & H3 & H4 & H5); [set_solver|].
  destruct (IH (reserve_frame s j) H1) as (I1 & I2 & I3 & I4 & I5); [set_solver|].
  split_and!; [done|congruence..|]. intros i. rewrite I5, H5. set_solver.
Qed.

Lemma end_frame_bound e total x : end_frame e total = Ok x -> x <= total.
Proof.
  unfold end_frame. destruct (e =? u64_max); intros; simplify_eq; [lia|]. res_inv. lia.
Qed.

(** ** The seeded count *)

Lemma testbit_count_mask total wi b :
  0 <= total -> 0 <= wi < (total + 63) / 64 -> 0 <= b < 64 ->
  Z.testbit (count_mask total wi) b = (64 * wi + b <? total).
Proof.
  intros Ht Hwi Hb. unfold count_mask.
  destruct (wi =? _) eqn:E1; [destruct (total mod 64 =? 0) eqn:E2|].
  - rewrite testbit_u64_mask by lia. mlia.
  - rewrite testbit_low_mask by mlia. mlia.
  - rewrite testbit_u64_mask by lia. mlia.
Qed.

Lemma count_mask_range total wi : 0 <= count_mask total wi < 2 ^ 64.
Proof.
  unfold count_mask, u64_mask.
  destruct (wi =? _); [destruct (total mod 64 =? 0)|];
    try (rewrite Z.ones_equiv; lia). apply low_mask_range. mlia.
Qed.

Lemma word_free_count bm total wi :
  0 <= total -> 0 <= wi < (total + 63) / 64 ->
  count_ones (count_mask total wi) - count_ones (Z.land (word_at bm wi) (count_mask total wi))
  = countb (fun b => negb (Z.testbit bm (64 * wi + b)) && (64 * wi + b <? total)) 64.
Proof.
  intros Ht Hwi. pose proof (count_mask_range total wi) as Hm.
  pose proof (land_range _ (count_mask total wi) (word_at_range bm wi) ltac:(lia)) as Hl.
  rewrite !(count_ones_countb _ 64) by done. rewrite <- countb_diff. f_equal.
  - apply countb_ext. intros b Hb. by apply testbit_count_mask.
  - apply countb_ext. intros b Hb.
    rewrite Z.land_spec, testbit_word_at, testbit_count_mask by lia.
    by rewrite (proj2 (Z.ltb_lt b 64)), andb_true_r by lia.
Qed.

Lemma count_free_words s k : 0 <= total_frames s ->
  Z.of_nat k <= (total_frames s + 63) / 64 ->
  fold_left (fun free wi =>
      let mask := count_mask (total_frames s) wi in
      let w := Z.land (word_at (bitmap s) wi) mask in
      free + (count_ones mask - count_ones w))
    (seqZ 0 (Z.of_nat k)) 0
  = countb (fun i => negb (Z.testbit (bitmap s) i) && (i <? total_frames s)) (k * 64).
Proof.
  intros Ht. induction k as [|k IH]; intros Hk; [done|].
  rewrite Nat2Z.inj_succ, <- Z.add_1_r, seqZ_app by lia. rewrite fold_left_app, IH by lia.
  change (seqZ (0 + Z.of_nat k) 1) with [0 + Z.of_nat k]. cbn [fold_left].
  rewrite Z.add_0_l, word_free_count by lia.
  replace (S k * 64)%nat with (k * 64 + 64)%nat by lia. rewrite (countb_app _ (k * 64) 64). f_equal.
  apply countb_ext. intros b Hb. by replace (Z.of_nat (k * 64) + b) with (64 * Z.of_nat k + b) by lia.
Qed.

Lemma count_free_locked_ok s : 0 <= total_frames s -> count_free_locked s = free_frames_of s.
Proof.
  intros Ht. unfold count_free_locked. set (tw := (total_frames s + 63) / 64).
  assert (0 <= tw) by (unfold tw; mlia).
  rewrite <- (Z2Nat.id tw) at 1 by done. rewrite count_free_words by (unfold tw in *; lia).
  assert (exists k, Z.to_nat tw * 64 = Z.to_nat (total_frames s) + k)%nat as [k ->].
  { exists (Z.to_nat tw * 64 - Z.to_nat (total_frames s))%nat. unfold tw in *. mlia. }
  rewrite countb_tail.
  - apply countb_ext. intros i Hi. rewrite (proj2 (Z.ltb_lt i _)) by lia. by rewrite andb_true_r.
  - intros i Hi. rewrite (proj2 (Z.ltb_ge i _)) by lia. apply andb_false_r.
Qed.

(** ** Region loops *)

Lemma seqZ_fold_set js bm i : (forall j, j ∈ js -> 0 <= j) -> 0 <= i ->
  Z.testbit (fold_left Z.setbit js bm) i = Z.testbit bm i || bool_decide (i ∈ js).
Proof.
  revert bm. induction js as [|j js IH]; intros bm Hj Hi; cbn [fold_left].
  - rewrite bool_decide_false, orb_false_r by set_solver. done.
  - rewrite IH by set_solver. rewrite Z.setbit_eqb by (apply Hj; set_solver).
    destruct (j =? i) eqn:E; simpl.
    + rewrite (bool_decide_true (i ∈ j :: js)), orb_true_r by (apply elem_of_cons; lia). done.
    + f_equal. apply bool_decide_ext. rewrite elem_of_cons. split; [by right|].
      intros [?|?]; [lia|done].
Qed.

Lemma seqZ_fold_clear js bm i : (forall j, j ∈ js -> 0 <= j) -> 0 <= i ->
  Z.testbit (fold_left Z.clearbit js bm) i = Z.testbit bm i && negb (bool_decide (i ∈ js)).
Proof.
  revert bm. induction js as [|j js IH]; intros bm Hj Hi; cbn [fold_left].
  - rewrite bool_decide_false by set_solver. by rewrite andb_true_r.
  - rewrite IH by set_solver. rewrite Z.clearbit_eqb.
    destruct (j =? i) eqn:E; simpl.
    + rewrite (bool_decide_true (i ∈ j :: js)) by (apply elem_of_cons; lia).
      by rewrite !andb_false_r.
    + rewrite andb_true_r. do 2 f_equal. apply bool_decide_ext. rewrite elem_of_cons.
      split; [by right|]. intros [?|?]; [lia|done].
Qed.

Lemma for_frames_set a b bm i : 0 <= a -> 0 <= i ->
  Z.testbit (for_frames Z.setbit a b bm) i = Z.testbit bm i || ((a <=? i) && (i <? b)).
Proof.
  intros Ha Hi. unfold for_frames. rewrite seqZ_fold_set; [|intros j; rewrite elem_of_seqZ; lia|done].
  f_equal. apply eq_true_iff_eq. rewrite bool_decide_eq_true, elem_of_seqZ. lia.
Qed.

Lemma for_frames_clear a b bm i : 0 <= a -> 0 <= i ->
  Z.testbit (for_frames Z.clearbit a b bm) i
  = Z.testbit bm i && negb ((a <=? i) && (i <? b)).
Proof.
  intros Ha Hi. unfold for_frames. rewrite seqZ_fold_clear; [|intros j; rewrite elem_of_seqZ; lia|done].
  do 2 f_equal. apply eq_true_iff_eq. rewrite bool_decide_eq_true, elem_of_seqZ. lia.
Qed.

Lemma for_frames_nonneg (f : Z -> Z -> Z) a b bm :
  (forall z i, 0 <= z -> 0 <= f z i) -> 0 <= bm -> 0 <= for_frames f a b bm.
Proof.
  intros Hf. unfold for_frames. generalize (seqZ a (b - a)). intros js.
  revert bm. induction js as [|j js IH]; intros bm Hb; simpl; [done|]. by apply IH, Hf.
Qed.

(** ** Construction *)

(** Frame [i] is one of the frames a region loop visits. *)
Definition region_frame (r : MemoryRegion) (total i : Z) : Prop :=
  exists e, end_frame (sat_add_u64 (r_base r) (r_size r)) total = Ok e
            /\ r_base r / 4096 <= i < e.

Lemma clear_region_spec bm r total bm' i :
  clear_region bm r total = Ok bm' -> 0 <= r_base r -> 0 <= i ->
  Z.testbit bm' i = false <-> Z.testbit bm i = false \/ region_frame r total i.
Proof.
  unfold clear_region, region_frame. intros Hc Hb Hi. res_inv. simplify_eq.
  rewrite for_frames_clear by mlia.
  split.
  - intros [?|?]%andb_false_iff; [by left|]. right. eexists. split; [done|lia].
  - intros [->|(e & He & Hr)]; [done|]. assert (x = e) as <- by congruence.
    apply andb_false_iff. right. lia.
Qed.

Lemma mark_region_used_spec bm r total bm' i :
  mark_region_used bm r total = Ok bm' -> 0 <= r_base r -> 0 <= i ->
  Z.testbit bm' i = false <-> Z.testbit bm i = false /\ ~ region_frame r total i.
Proof.
  unfold mark_region_used, region_frame. intros Hc Hb Hi. res_inv. simplify_eq.
  rewrite for_frames_set, orb_false_iff by mlia. split.
  - intros [? ?]. split; [done|]. intros (e & He & Hr).
    assert (x = e) as <- by congruence. lia.
  - intros [? Hn]. split; [done|]. apply not_true_is_false. intros Ht. apply Hn.
    eexists. split; [done|lia].
Qed.

Lemma region_nonneg f bm r total bm' :
  (f = clear_region \/ f = mark_region_used) -> f bm r total = Ok bm' -> 0 <= bm -> 0 <= bm'.
Proof.
  intros [-> | ->] Hf Hb; unfold clear_region, mark_region_used in Hf; res_inv; simplify_eq;
    apply for_frames_nonneg; auto using setbit_nonneg, clearbit_nonneg.
Qed.

Lemma clear_usable_spec mm total bm bm' :
  clear_usable mm total bm = Ok bm' -> 0 <= bm -> (forall r, r ∈ mm -> 0 <= r_base r) ->
  0 <= bm' /\ forall i, 0 <= i ->
  Z.testbit bm' i = false <-> Z.testbit bm i = false
    \/ exists r, r ∈ mm /\ r_kind r = Usable /\ region_frame r total i.
Proof.
  revert bm. induction mm as [|r mm IH]; intros bm Hc Hb Hr; cbn [clear_usable] in Hc.
  { simplify_eq. split; [done|]. intros i Hi. split; [by left|]. intros [?|(r & ? & _)]; [done|set_solver]. }
  res_inv. rename x into bm1.
  assert (0 <= bm1) as Hb1.
  { case_bool_decide; [|by simplify_eq]. eapply (region_nonneg clear_region); eauto. }
  destruct (IH bm1) as [IH1 IH2]; [done..|intros; apply Hr; set_solver|].
  split; [done|]. intros i Hi. rewrite IH2 by done.
  assert (Z.testbit bm1 i = false <-> Z.testbit bm i = false
    \/ (r_kind r = Usable /\ region_frame r total i)) as H1.
  { case_bool_decide as Hk.
    - rewrite (clear_region_spec _ _ _ _ _ H0) by (done || apply Hr; set_solver). naive_solver.
    - simplify_eq. naive_solver. }
  rewrite H1. setoid_rewrite elem_of_cons. naive_solver.
Qed.

Lemma u64_op_range {E} z x : u64_op (E := E) z = Ok x -> 0 <= x <= u64_max.
Proof.
  unfold u64_op, u64_max. intros Hx. repeat case_match; simplify_eq; try lia;
    pose proof (Z.mod_pos_bound z (2 ^ 64)); lia.
Qed.

Lemma ldiff_4095 y : Z.ldiff y 4095 = 4096 * (y / 4096).
Proof.
  change 4095 with (Z.ones 12). rewrite Z.ldiff_ones_r by lia.
  rewrite Z.shiftl_mul_pow2, Z.shiftr_div_pow2 by lia. change (2 ^ 12) with 4096. lia.
Qed.

Lemma page_up_range x y : page_up x = Ok y ->
  exists z, y = 4096 * z /\ 0 <= y <= u64_max.
Proof.
  unfold page_up. intros Hp. res_inv. simplify_eq. unfold u64_add in *.
  apply u64_op_range in H0. rewrite ldiff_4095. exists (x0 / 4096). split; [done|]. mlia.
Qed.

Lemma aligned_end_frame z total : 0 <= 4096 * z <= u64_max ->
  end_frame (4096 * z) total = Ok (Z.min z total).
Proof.
  unfold end_frame, u64_max. intros Hz. rewrite (proj2 (Z.eqb_neq _ _)) by lia.
  unfold u64_add. rewrite u64_op_Ok by (unfold u64_max; lia). cbn [res_bind].
  do 2 f_equal. mlia.
Qed.

Lemma kernel_region_frame ks ke total i : 0 <= 4096 * ks -> 4096 * ks < 4096 * ke <= u64_max ->
  0 <= i < total ->
  region_frame {| r_base := 4096 * ks; r_size := 4096 * ke - 4096 * ks; r_kind := Reserved |} total i
  <-> 4096 * ks <= i * 4096 < 4096 * ke.
Proof.
  intros H1 H2 Hi. unfold region_frame; simpl. unfold sat_add_u64.
  replace (Z.min (4096 * ks + (4096 * ke - 4096 * ks)) u64_max) with (4096 * ke) by lia.
  rewrite aligned_end_frame by lia. rewrite (Z.mul_comm 4096 ks), Z.div_mul by lia. split.
  - intros (e & [= <-] & He). lia.
  - intros He. exists (Z.min ke total). split; [done|lia].
Qed.

(** The stages of [new]. *)
Lemma new_stages mem rb rsz mm kstart kend s :
  new mem (rb, rsz) mm kstart kend = Ok s ->
  exists region_end t b bend bm1 bm2 bm3 ke usable,
    let total := t / 4096 in
    let blen := (total + 7) / 8 in
    u64_add (E := AllocError) rb rsz = Ok region_end
    /\ u64_add (E := AllocError) (find_max_addr mm) 4095 = Ok t
    /\ (if rb <? kend then page_up kend else Ok rb) = Ok b
    /\ rb <= b /\ u64_add (E := AllocError) b blen = Ok bend /\ bend <= region_end
    /\ clear_usable mm total (Z.lor mem (Z.ones (8 * blen))) = Ok bm1
    /\ mark_region_used bm1 {| r_base := b; r_size := blen; r_kind := Reserved |} total = Ok bm2
    /\ page_up kend = Ok ke
    /\ (let bm2' := if 0 <? total then Z.setbit bm2 0 else bm2 in
        if Z.ldiff kstart 4095 <? ke
        then mark_region_used bm2' {| r_base := Z.ldiff kstart 4095;
               r_size := ke - Z.ldiff kstart 4095; r_kind := Reserved |} total
        else Ok bm2') = Ok bm3
    /\ s = with_seeded_free_count (mkAlloc bm3 total (find_max_addr mm)
             (Z.ldiff kstart 4095) ke usable 0 (b / 4096) (b / 4096)).
Proof.
  unfold new. intros Hn. res_inv. unfold assert in *.
  repeat match goal with
  | H : (if ?c then Ok tt else Panic) = Ok _ |- _ => destruct c eqn:?; [|done]; clear H
  end.
  match goal with H : (rb <=? _) && _ = true |- _ =>
    apply andb_true_iff in H as [Hb1 Hb2] end.
  rewrite Hb1 in *. do 9 eexists. split_and!; try eassumption; try done; lia.
Qed.

(** The documented precondition of [new]: a map of physical spans, and a bitmap
    region inside the managed memory. *)
Record boot_ok (mem rb rsz : Z) (mm : list MemoryRegion) (kstart kend : Z) : Prop := {
  boot_mem : 0 <= mem;
  boot_map : forall r, r ∈ mm -> 0 <= r_base r;
  boot_region : 0 <= rb /\ 0 < rsz /\ rb + rsz <= find_max_addr mm;
  boot_max : find_max_addr mm < 2 ^ 63;
  boot_kernel : 0 <= kstart /\ 0 <= kend < 2 ^ 63
}.

Lemma find_max_addr_nonneg mm : 0 <= find_max_addr mm.
Proof.
  unfold find_max_addr. assert (forall a, 0 <= a -> 0 <= fold_left (fun a r =>
    if bool_decide (r_kind r = Usable) then Z.max a (sat_add_u64 (r_base r) (r_size r)) else a) mm a) as Hf.
  { induction mm as [|r mm IH]; intros a Ha; simpl; [done|]. apply IH. case_bool_decide; lia. }
  by apply Hf.
Qed.

Lemma fill_bit mem n i : 0 <= i < n -> Z.testbit (Z.lor mem (Z.ones n)) i = true.
Proof.
  intros Hi. rewrite Z.lor_spec, testbit_ones by lia. rewrite (proj2 (Z.ltb_lt i n)) by lia.
  apply orb_true_r.
Qed.

(** The memory the bitmap itself occupies. *)
Definition bitmap_span (s : BitmapAllocator) (b : Z) : MemoryRegion :=
  {| r_base := b; r_size := (total_frames s + 7) / 8; r_kind := Reserved |}.

(** The bit of a managed frame after the marking stages. *)
Lemma stage_bits mm total bm0 bm1 bm2 bm3 blen b ks kz i :
  0 <= bm0 -> (forall r, r ∈ mm -> 0 <= r_base r) -> 0 <= b -> 0 <= ks ->
  0 <= 4096 * kz <= u64_max -> 0 <= i < total -> Z.testbit bm0 i = true ->
  clear_usable mm total bm0 = Ok bm1 ->
  mark_region_used bm1 {| r_base := b; r_size := blen; r_kind := Reserved |} total = Ok bm2 ->
  (let bm2' := if 0 <? total then Z.setbit bm2 0 else bm2 in
   if 4096 * ks <? 4096 * kz
   then mark_region_used bm2' {| r_base := 4096 * ks; r_size := 4096 * kz - 4096 * ks;
          r_kind := Reserved |} total
   else Ok bm2') = Ok bm3 ->
  Z.testbit bm3 i = false <->
    i <> 0 /\ ~ (4096 * ks <= i * 4096 < 4096 * kz)
    /\ (exists r, r ∈ mm /\ r_kind r = Usable /\ region_frame r total i)
    /\ ~ region_frame {| r_base := b; r_size := blen; r_kind := Reserved |} total i.
Proof.
  intros Hb0 Hmap Hb Hks Hkz Hi Hbit Hc1 Hm2 Hm3.
  destruct (clear_usable_spec _ _ _ _ Hc1 Hb0 Hmap) as [Hb1 Hbits1].
  rewrite (proj2 (Z.ltb_lt 0 total)) in Hm3 by lia. cbn zeta in Hm3.
  assert (Z.testbit (Z.setbit bm2 0) i = false <-> i <> 0 /\ Z.testbit bm2 i = false) as Hset.
  { rewrite Z.setbit_eqb, orb_false_iff by lia. rewrite Z.eqb_neq. naive_solver. }
  assert (Z.testbit bm3 i = false <-> Z.testbit (Z.setbit bm2 0) i = false
    /\ ~ (4096 * ks <= i * 4096 < 4096 * kz)) as Hk.
  { destruct (4096 * ks <? 4096 * kz) eqn:E.
    - rewrite (mark_region_used_spec _ _ _ _ _ Hm3) by (simpl; lia).
      by rewrite kernel_region_frame by lia.
    - simplify_eq. split; [|by intros [? _]]. intros ->. split; [done|lia]. }
  rewrite Hk, Hset, (mark_region_used_spec _ _ _ _ _ Hm2) by (simpl; lia).
  rewrite Hbits1 by lia. rewrite Hbit. naive_solver.
Qed.

Lemma new_free_frames mem rb rsz mm kstart kend s :
  boot_ok mem rb rsz mm kstart kend -> new mem (rb, rsz) mm kstart kend = Ok s ->
  exists b, rb <= b /\ inv s /\ forall i, frame_free s i <->
    0 <= i < total_frames s /\ is_reserved_frame s i = false
    /\ (exists r, r ∈ mm /\ r_kind r = Usable /\ region_frame r (total_frames s) i)
    /\ ~ region_frame (bitmap_span s b) (total_frames s) i.
Proof.
  intros [Hmem Hmap (Hrb & Hrsz & Hregion) Hmax [Hks Hke]] Hnew.
  destruct (new_stages _ _ _ _ _ _ _ Hnew)
    as (region_end & t & b & bend & bm1 & bm2 & bm3 & ke & usable & Hre & Ht & Hb & Hrbb & Hbend
        & Hfit & Hc1 & Hm2 & Hpu & Hm3 & ->).
  pose proof (find_max_addr_nonneg mm) as Hm0. set (total := t / 4096) in *.
  set (blen := (total + 7) / 8) in *.
  unfold u64_add in Ht, Hre, Hbend. rewrite u64_op_Ok in Ht by (unfold u64_max; lia).
  rewrite u64_op_Ok in Hre by (unfold u64_max; lia). injection Ht as <-. injection Hre as <-.
  assert (0 <= total < 2 ^ 52 /\ 0 <= blen < 2 ^ 50 /\ total <= 8 * blen) as (Htot & Hblen & Hcov)
    by (unfold total, blen; mlia).
  assert (0 <= b < 2 ^ 63 + 8192) as Hbr.
  { destruct (rb <? kend); [|simplify_eq; lia]. unfold page_up, u64_add in Hb.
    rewrite u64_op_Ok in Hb by (unfold u64_max; lia). cbn [res_bind] in Hb.
    injection Hb as <-. rewrite ldiff_4095. mlia. }
  rewrite u64_op_Ok in Hbend by (unfold u64_max; lia). injection Hbend as <-.
  destruct (page_up_range _ _ Hpu) as (kz & -> & Hkz).
  assert (0 <= Z.lor mem (Z.ones (8 * blen))) as Hfill
    by (apply Z.lor_nonneg; split; [done|]; rewrite Z.ones_equiv; lia).
  rewrite ldiff_4095 in *. exists b. split; [done|]. split.
  - constructor; try done; simpl; [|unfold total; mlia|by rewrite count_free_locked_ok by (simpl; lia)].
    destruct (clear_usable_spec _ _ _ _ Hc1 Hfill Hmap) as [Hb1 _].
    pose proof (region_nonneg mark_region_used _ _ _ _ ltac:(by right) Hm2 Hb1) as Hb2.
    pose proof (setbit_nonneg bm2 0 Hb2) as Hb2'.
    assert (0 <= if 0 <? total then Z.setbit bm2 0 else bm2) by by destruct (0 <? total).
    cbn zeta in Hm3. destruct (_ <? 4096 * kz); [|by injection Hm3 as <-].
    eapply (region_nonneg mark_region_used); [by right|exact Hm3|done].
  - intros i. unfold frame_free, bitmap_span; simpl. fold blen.
    pose proof (fun Hi : 0 <= i < total =>
      stage_bits mm total _ bm1 bm2 bm3 blen b (kstart / 4096) kz i Hfill Hmap ltac:(lia)
        ltac:(mlia) Hkz Hi (fill_bit mem (8 * blen) i ltac:(lia)) Hc1 Hm2 Hm3) as HS.
    unfold is_reserved_frame; simpl. split.
    + intros [Hi Hbit]. apply (HS Hi) in Hbit as (H1 & H2 & H3 & H4).
      rewrite (proj2 (Z.eqb_neq _ _)) by done. split_and!; try done; lia.
    + intros (Hi & Hr & Hu & Hnb). split; [done|]. apply (HS Hi).
      destruct (i =? 0) eqn:E; [done|]. split_and!; try done; lia.
Qed.

(** ** The contiguous search *)

Section RunFacts.
Variables (bm total count align_pages lo hi : Z).
Hypotheses (Htotal : 0 < total) (Hcount : 1 <= count) (Halign : 0 < align_pages)
  (Hlo : 0 <= lo).

(** A start the search may return. *)
Definition run_ok (a : Z) : Prop :=
  lo <= a /\ a + count <= total /\ a mod align_pages = 0.

(** The carried run ends at or before frame [limit]. *)
Definition carry_ok (limit rs rl : Z) : Prop :=
  0 <= rl /\ (0 < rl -> lo <= rs /\ rs + rl <= limit).

Lemma emit_spec rs rl a : emit count align_pages rs rl = Some a ->
  rs <= a /\ a + count <= rs + rl /\ a mod align_pages = 0.
Proof.
  unfold emit. intros He. destruct (rl <? count); [done|].
  set (off := (align_pages - rs mod align_pages) mod align_pages) in *.
  destruct (off + count <=? rl) eqn:E; simplify_eq.
  assert (0 <= off < align_pages) by (apply Z.mod_pos_bound; lia). split_and!; [lia..|].
  unfold off. rewrite Zplus_mod_idemp_r.
  replace (rs + (align_pages - rs mod align_pages)) with (rs - rs mod align_pages + 1 * align_pages) by lia.
  rewrite Z.mod_add, Zminus_mod_idemp_r by lia. by rewrite Z.sub_diag.
Qed.

Lemma emit_run_ok limit rs rl a : limit <= total -> lo <= rs -> rs + rl <= limit ->
  emit count align_pages rs rl = Some a -> run_ok a.
Proof. intros Hl H1 H2 (? & ? & ?)%emit_spec. unfold run_ok. split_and!; (lia || done). Qed.

Lemma skip_free_bound fuel w nbits i : i <= nbits ->
  i <= skip_free fuel w nbits i <= nbits.
Proof.
  revert i. induction fuel as [|fuel IH]; intros i Hi; cbn [skip_free]; [lia|].
  destruct (_ && _) eqn:E; [|lia]. specialize (IH (i + 1)). lia.
Qed.

Lemma bits_loop_spec fuel w nbits wi i rs rl :
  (forall b, 0 <= b < nbits -> Z.testbit w b = false -> lo <= wi * 64 + b) ->
  wi * 64 + nbits <= total -> 0 <= i -> carry_ok (wi * 64 + nbits) rs rl ->
  match bits_loop count align_pages fuel w nbits wi i rs rl with
  | inl a => run_ok a
  | inr (rs', rl') => carry_ok (wi * 64 + nbits) rs' rl'
  end.
Proof.
  intros Hfree Hn. revert i rs rl. induction fuel as [|fuel IH]; intros i rs rl Hi Hc;
    cbn [bits_loop]; [done|].
  destruct (i <? nbits) eqn:E1; [|done].
  destruct (Z.testbit w i) eqn:E2; cbn [negb]; [apply IH; [lia|done]|].
  pose proof (skip_free_bound 64 w nbits i ltac:(lia)) as Hs.
  set (j := skip_free 64 w nbits i) in *.
  pose proof (Hfree i ltac:(lia) E2) as Hlow.
  destruct (emit _ _ _ _) as [a|] eqn:Ee.
  - eapply (emit_run_ok (wi * 64 + nbits)); [..|exact Ee]; lia.
  - apply IH; [lia|]. unfold carry_ok. lia.
Qed.

Lemma word_bits_bound wi : 0 <= wi < (total + 63) / 64 ->
  1 <= word_bits total wi <= 64 /\ wi * 64 + word_bits total wi <= total.
Proof.
  intros Hwi. unfold word_bits.
  destruct (wi =? _) eqn:E; [destruct (total mod 64 =? 0) eqn:E2|]; mlia.
Qed.

Lemma lead_bound w nbits : 0 <= w < 2 ^ 64 -> 0 <= nbits ->
  (forall b, Z.testbit w b = true -> b < nbits) ->
  0 <= trailing_zeros 64 (not64 w) <= nbits.
Proof.
  intros Hw Hn Hb. pose proof (not64_range w Hw) as Hr.
  set (c := not64 w) in *. set (l := trailing_zeros 64 c).
  assert (0 <= l <= 64 /\ forall i, 0 <= i < l -> Z.testbit c i = false) as [Hl Hz].
  { unfold l. destruct (decide (c = 0)) as [->|Hc].
    - simpl. split; [lia|]. intros. apply Z.testbit_0_l.
    - destruct (trailing_zeros_spec 64 c) as (? & _ & ?); [lia|]. split; [lia|done]. }
  split; [lia|]. destruct (decide (l <= nbits)); [done|]. exfalso.
  specialize (Hz (l - 1) ltac:(lia)). unfold c in Hz.
  rewrite testbit_not64, (proj2 (Z.ltb_lt (l - 1) 64)), andb_true_r in Hz by lia.
  apply negb_false_iff, Hb in Hz. lia.
Qed.

Lemma run_word_spec w nbits wi rs rl :
  0 <= w < 2 ^ 64 -> 1 <= nbits -> (forall b, Z.testbit w b = true -> b < nbits) ->
  (forall b, 0 <= b < nbits -> Z.testbit w b = false -> lo <= wi * 64 + b) ->
  wi * 64 + nbits <= total -> carry_ok (wi * 64) rs rl ->
  match run_word count align_pages w nbits wi rs rl with
  | inl a => run_ok a
  | inr (rs', rl') => carry_ok (wi * 64 + nbits) rs' rl'
  end.
Proof.
  intros Hw Hn Hused Hfree Ht [Hc0 Hc]. unfold run_word. destruct (w =? 0) eqn:E0.
  - assert (w = 0) as -> by lia.
    pose proof (Hfree 0 ltac:(lia) ltac:(apply Z.testbit_0_l)) as Hlow.
    destruct (emit _ _ _ _) as [a|] eqn:Ee.
    + eapply (emit_run_ok (wi * 64 + nbits)); [lia| | |exact Ee];
        destruct (rl =? 0) eqn:?; lia.
    + unfold carry_ok. destruct (rl =? 0) eqn:?; lia.
  - destruct (0 <? rl) eqn:E1.
    + pose proof (lead_bound w nbits Hw ltac:(lia) Hused) as Hl.
      destruct (emit _ _ _ _) as [a|] eqn:Ee.
      * eapply (emit_run_ok (wi * 64 + nbits)); [lia| | |exact Ee]; lia.
      * apply bits_loop_spec; [done|done|lia|]. unfold carry_ok. lia.
    + apply bits_loop_spec; [done|done|lia|]. unfold carry_ok. lia.
Qed.

Lemma lor_range x y : 0 <= x < 2 ^ 64 -> 0 <= y < 2 ^ 64 -> 0 <= Z.lor x y < 2 ^ 64.
Proof.
  intros Hx Hy. assert (0 <= Z.lor x y) by (apply Z.lor_nonneg; lia). split; [done|].
  apply Z.bounded_iff_bits_nonneg; [lia|done|]. intros l Hl.
  by rewrite Z.lor_spec, !(testbit_out 64).
Qed.

Definition word_mask (nbits : Z) : Z := if nbits =? 64 then u64_mask else Z.shiftl 1 nbits - 1.

Lemma word_mask_spec nbits : 1 <= nbits <= 64 ->
  0 <= word_mask nbits < 2 ^ 64 /\ forall b, 0 <= b -> Z.testbit (word_mask nbits) b = (b <? nbits).
Proof.
  intros Hn. unfold word_mask. destruct (nbits =? 64) eqn:E.
  - split; [unfold u64_mask; rewrite Z.ones_equiv; lia|]. intros b Hb.
    rewrite testbit_u64_mask by lia. f_equal. lia.
  - split; [apply low_mask_range; lia|]. intros b Hb. apply testbit_low_mask; lia.
Qed.

Lemma window_word_spec wi ew :
  lo < hi <= total -> lo / 64 <= wi < (total + 63) / 64 ->
  let w := window_word bm total lo hi wi (lo / 64) ew in
  0 <= w < 2 ^ 64
  /\ (forall b, Z.testbit w b = true -> b < word_bits total wi)
  /\ (forall b, 0 <= b < word_bits total wi -> Z.testbit w b = false -> lo <= wi * 64 + b).
Proof.
  intros Hhi Hwi. pose proof (word_bits_bound wi ltac:(mlia)) as [Hn Ht].
  unfold window_word. fold (word_mask (word_bits total wi)).
  destruct (word_mask_spec _ Hn) as [Hm Hmb]. set (wm := word_mask _) in *.
  pose proof (land_range (word_at bm wi) wm (word_at_range _ _) ltac:(lia)) as Hw0.
  set (w0 := Z.land _ wm) in *.
  assert (forall b, Z.testbit w0 b = true -> b < word_bits total wi) as Hb0.
  { intros b Hb. pose proof (bits_in _ _ _ Hw0 Hb). unfold w0 in Hb.
    rewrite Z.land_spec, Hmb in Hb by lia. lia. }
  set (w1 := if (wi =? lo / 64) && _ then _ else w0).
  assert (0 <= w1 < 2 ^ 64 /\ (forall b, Z.testbit w1 b = true -> b < word_bits total wi)
    /\ (forall b, 0 <= b < word_bits total wi -> Z.testbit w1 b = false -> lo <= wi * 64 + b))
    as (Hr1 & Hu1 & Hf1).
  { unfold w1. destruct ((wi =? lo / 64) && negb (lo mod 64 =? 0)) eqn:E.
    - pose proof (low_mask_range (lo mod 64) ltac:(mlia)) as Hl.
      split; [by apply lor_range|split].
      + intros b Hb. pose proof (bits_in _ _ _ (lor_range _ _ Hw0 Hl) Hb).
        rewrite Z.lor_spec, testbit_low_mask in Hb by mlia.
        apply orb_true_iff in Hb as [Hb|Hb]; [by apply Hb0|].
        clear -Hb E Hhi Htotal Hlo. unfold word_bits.
        destruct (wi =? (total + 63) / 64 - 1) eqn:?; [destruct (total mod 64 =? 0) eqn:?|]; mlia.
      + intros b Hb Hf. rewrite Z.lor_spec, testbit_low_mask in Hf by mlia. mlia.
    - split; [done|split; [done|]]. intros b Hb _. mlia. }
  cbn zeta. destruct ((wi =? ew - 1) && _); [|done].
  set (m2 := Z.land _ wm). assert (0 <= m2 < 2 ^ 64) as Hr2.
  { apply land_range; [|lia]. apply not64_range, low_mask_range. mlia. }
  split; [by apply lor_range|split].
  - intros b Hb. pose proof (bits_in _ _ _ (lor_range _ _ Hr1 Hr2) Hb).
    rewrite Z.lor_spec in Hb. apply orb_true_iff in Hb as [Hb|Hb]; [by apply Hu1|].
    unfold m2 in Hb. rewrite Z.land_spec, Hmb in Hb by lia. lia.
  - intros b Hb Hf. rewrite Z.lor_spec in Hf. apply orb_false_iff in Hf as [Hf _]. by apply Hf1.
Qed.

Lemma run_words_spec ew k wi0 rs rl :
  lo < hi <= total -> lo / 64 <= wi0 -> wi0 + Z.of_nat k <= (total + 63) / 64 ->
  carry_ok (wi0 * 64) rs rl ->
  match run_words bm total count align_pages lo hi (lo / 64) ew (seqZ wi0 (Z.of_nat k)) rs rl with
  | Some a => run_ok a
  | None => True
  end.
Proof.
  intros Hhi. revert wi0 rs rl. induction k as [|k IH]; intros wi0 rs rl Hlow Hk Hc; [done|].
  rewrite seqZ_cons by lia. cbn [run_words].
  destruct (window_word_spec wi0 ew Hhi ltac:(lia)) as (H1 & H2 & H3).
  pose proof (word_bits_bound wi0 ltac:(mlia)) as [Hn Ht].
  pose proof (run_word_spec (window_word bm total lo hi wi0 (lo / 64) ew) (word_bits total wi0)
    wi0 rs rl H1 ltac:(lia) H2 H3 ltac:(lia) Hc) as Hr.
  destruct (run_word _ _ _ _ _ _ _) as [a|[rs' rl']]; [done|].
  replace (Z.pred (Z.of_nat (S k))) with (Z.of_nat k) by lia.
  replace (Z.succ wi0) with (wi0 + 1) by lia. apply IH; [lia..|].
  destruct Hr as [? Hr]. split; [done|]. intros Hp. specialize (Hr Hp). lia.
Qed.

Lemma find_run_spec a : hi <= total ->
  find_run bm total count align_pages lo hi = Some a -> run_ok a.
Proof.
  intros Hhi. unfold find_run. destruct (hi <=? lo) eqn:E; [done|].
  set (ew := hi / 64 + _). intros Hr.
  assert (lo / 64 <= ew <= (total + 63) / 64) as Hew
    by (unfold ew; destruct (hi mod 64 =? 0) eqn:?; mlia).
  pose proof (run_words_spec ew (Z.to_nat (ew - lo / 64)) (lo / 64) 0 0 ltac:(lia) ltac:(lia)
    ltac:(lia) ltac:(unfold carry_ok; lia)) as Hs.
  rewrite Z2Nat.id in Hs by lia. by rewrite Hr in Hs.
Qed.
End RunFacts.

(** Marking [count] frames used. *)
Lemma set_used_fold js s :
  fold_left set_used js s = set_bitmap s (fold_left Z.setbit js (bitmap s)).
Proof.
  revert s. induction js as [|j js IH]; intros s; cbn [fold_left]; [by destruct s|].
  rewrite IH. by destruct s.
Qed.

(** What the contiguous search promises of its result. *)
Definition contig_post (s : BitmapAllocator) (count align_pages : Z)
  (out : BitmapAllocator * Z) : Prop :=
  exists start, snd out = start * 4096 /\ start mod align_pages = 0
  /\ 0 < start /\ start + count <= total_frames s
  /\ ((start + count) * 4096 <= kernel_start s \/ kernel_end s <= start * 4096)
  /\ next_free (fst out) = start + count
  /\ forall i, 0 <= i -> Z.testbit (bitmap (fst out)) i
       = Z.testbit (bitmap s) i || ((start <=? i) && (i <? start + count)).

Lemma contig_accept s start count align_pages :
  0 <= start -> 1 <= count -> 0 < start -> start mod align_pages = 0 ->
  start + count <= total_frames s ->
  ((start + count) * 4096 <= kernel_start s \/ kernel_end s <= start * 4096) ->
  contig_post s count align_pages
    (add_free_count (set_next (set_used_range s start count) (start + count)) (- count),
     start * 4096).
Proof.
  intros H0 Hc Hs Ha Hb Hk. exists start. split_and!; try done. intros i Hi. simpl.
  unfold set_used_range. rewrite set_used_fold. simpl.
  pose proof (for_frames_set start (start + count) (bitmap s) i H0 Hi) as Hf.
  unfold for_frames in Hf. by replace (start + count - start) with count in Hf by lia.
Qed.

Lemma contig_loop_ok s count align_pages hi_cap next fuel lo hi tried :
  0 <= total_frames s < 2 ^ 52 -> 1 <= count <= total_frames s -> 0 < align_pages ->
  0 <= next <= total_frames s -> hi_cap <= total_frames s -> hi <= total_frames s ->
  0 <= lo <= total_frames s ->
  total_frames s - lo + 1 + (if (tried : bool) then 0 else total_frames s + 2) <= Z.of_nat fuel ->
  let r := contig_loop fuel s count align_pages hi_cap next lo hi tried in
  no_panic r /\ forall out, r = Ok out -> contig_post s count align_pages out.
Proof.
  intros Ht Hc Ha Hn Hcap. revert lo hi tried.
  induction fuel as [|fuel IH]; intros lo hi tried Hhi Hlo Hf;
    [destruct tried; lia|]. cbn [contig_loop].
  assert (negb tried && (hi =? hi_cap) = true ->
    let r := contig_loop fuel s count align_pages hi_cap next 0 next true in
    no_panic r /\ forall out, r = Ok out -> contig_post s count align_pages out) as Hwrap.
  { intros Hw. apply IH; [lia|lia|]. destruct tried; [done|lia]. }
  destruct (find_run _ _ _ _ lo hi) as [start|] eqn:Ef.
  - apply find_run_spec in Ef as (Hs1 & Hs2 & Hs3); [|lia..].
    unfold range_overlaps_kernel, u64_mul, u64_add.
    destruct (start =? 0) eqn:E0; cbn [res_bind].
    + destruct (hi <? _) eqn:Eh; [|apply IH; [lia..|destruct tried; lia]].
      destruct (negb tried && (hi =? hi_cap)); [by apply Hwrap|done].
    + rewrite !u64_op_Ok by (unfold u64_max; lia). cbn [res_bind].
      rewrite !u64_op_Ok by (unfold u64_max; lia). cbn [res_bind].
      destruct ((kernel_start s <? _) && _) eqn:Ek.
      * destruct (hi <? _) eqn:Eh; [|apply IH; [lia..|destruct tried; lia]].
        destruct (negb tried && (hi =? hi_cap)); [by apply Hwrap|done].
      * change (kernel_start (set_next _ _)) with (kernel_start (set_used_range s start count)).
        change (kernel_end (set_next _ _)) with (kernel_end (set_used_range s start count)).
        assert (kernel_start (set_used_range s start count) = kernel_start s
          /\ kernel_end (set_used_range s start count) = kernel_end s) as [-> ->]
          by (unfold set_used_range; by rewrite set_used_fold).
        rewrite debug_assert_true by lia. cbn [res_bind]. rewrite Ek.
        split; [done|]. intros out [= <-]. apply contig_accept; lia.
  - destruct (negb tried && (hi =? hi_cap)); [by apply Hwrap|done].
Qed.
End Single.

(** ** Properties *)

(** The boot constructor leaves free exactly the managed frames that lie in
    a usable region of the firmware map and belong neither to the bitmap, nor to
    the kernel image, nor to frame 0 (INV-PA-04); the free count it seeds is the
    number of clear bits and the cursor is in range. *)
Theorem new_spec `{Profile} mem rb rsz mm kstart kend s :
  boot_ok mem rb rsz mm kstart kend -> new mem (rb, rsz) mm kstart kend = Ok s ->
  exists b, rb <= b /\ inv s /\ forall i, frame_free s i <->
    0 <= i < total_frames s /\ is_reserved_frame s i = false
    /\ (exists r, r ∈ mm /\ r_kind r = Usable /\ region_frame r (total_frames s) i)
    /\ ~ region_frame (bitmap_span s b) (total_frames s) i.
Proof. exact (new_free_frames mem rb rsz mm kstart kend s). Qed.


(** A small machine: 128 frames of which frames 11 to 63 are not usable RAM; the
    bitmap takes frame 2. *)
Definition mm_hole : list MemoryRegion :=
  [{| r_base := 0; r_size := 45056; r_kind := Usable |};
   {| r_base := 262144; r_size := 262144; r_kind := Usable |}].

Lemma mm_hole_ok : boot_ok 0 4096 40960 mm_hole 8192 8192.
Proof.
  constructor; try (vm_compute; intuition congruence).
  intros r [->|[->|[]%elem_of_nil]%elem_of_cons]%elem_of_cons; simpl; lia.
Qed.

Definition unwrap (r : res AllocError BitmapAllocator) : BitmapAllocator :=
  match r with Ok s => s | _ => mkAlloc 0 0 0 0 0 [] 0 0 0 end.

Lemma new_spec_witness :
  inv (unwrap (new (H := true) 0 (4096, 40960) mm_hole 8192 8192)).
Proof.
  destruct (new_spec (H := true) 0 4096 40960 mm_hole 8192 8192
    (unwrap (new (H := true) 0 (4096, 40960) mm_hole 8192 8192))) as (b & _ & Hi & _).
  - exact mm_hole_ok.
  - vm_compute. reflexivity.
  - exact Hi.
Defined.

Definition boot_state : BitmapAllocator :=
  Eval vm_compute in unwrap (new (H := true) 0 (4096, 40960) mm_hole 8192 8192).

Lemma boot_state_inv : inv boot_state.
Proof. constructor; vm_compute; intuition congruence. Qed.


(** ** Ownership over time *)

(** The managed frames that a region touches. *)
Definition region_frames s (start stop : Z) : gset Z :=
  list_to_set (seqZ (start / 4096) (Z.min ((stop + 4095) / 4096) (total_frames s) - start / 4096)).

(** The allocator with the set of frames handed out and not yet returned, and
    the set of frames reserved by [reserve_region]; a caller frees only frames it
    owns.  A frame that is owned when its region is reserved is its owner's still. *)
Inductive step `{Profile} : BitmapAllocator * gset Z * gset Z -> BitmapAllocator * gset Z * gset Z -> Prop :=
| step_alloc s o R s' a : alloc s = Ok (s', Some a) -> step (s, o, R) (s', {[a / 4096]} ∪ o, R)
| step_none s o R s' : alloc s = Ok (s', None) -> step (s, o, R) (s', o, R)
| step_free s o R s' i : i ∈ o -> free s (i * 4096) = Ok s' -> step (s, o, R) (s', o ∖ {[i]}, R)
| step_reserve s o R s' start stop : 0 <= start -> 0 <= stop -> stop + 4095 <= u64_max \/ stop = u64_max ->
    reserve_region s start stop = Ok s' -> step (s, o, R) (s', o, R ∪ (region_frames s start stop ∖ o)).

(** Every owned frame is a managed, used, unreserved frame, and every reserved
    frame is used and nobody's. *)
Record owned_ok (s : BitmapAllocator) (o R : gset Z) : Prop := {
  ow_inv : inv s;
  ow_owned i : i ∈ o -> 0 <= i < total_frames s /\ Z.testbit (bitmap s) i = true /\ is_reserved_frame s i = false;
  ow_reserved i : i ∈ R -> ~ frame_free s i /\ i ∉ o
}.

Lemma is_reserved_ext s s' i : kernel_start s' = kernel_start s -> kernel_end s' = kernel_end s ->
  is_reserved_frame s' i = is_reserved_frame s i.
Proof. unfold is_reserved_frame. by intros -> ->. Qed.

Lemma reserve_region_ok `{Profile} s s' start stop : inv s -> 0 <= start -> 0 <= stop -> stop + 4095 <= u64_max \/ stop = u64_max ->
  reserve_region s start stop = Ok s' ->
  inv s' /\ total_frames s' = total_frames s /\ kernel_start s' = kernel_start s /\ kernel_end s' = kernel_end s
  /\ forall i, frame_free s' i <-> frame_free s i /\ i ∉ region_frames s start stop.
Proof.
  intros Hi H0 H1 H2 E. unfold reserve_region in E.
  assert (end_frame stop (total_frames s) = Ok (Z.min ((stop + 4095) / 4096) (total_frames s))) as Ee.
  { unfold end_frame, u64_add. pose proof (inv_total _ Hi) as Ht. destruct (Z.eqb_spec stop u64_max) as [->|Hs].
    - change ((u64_max + 4095) / 4096) with (2 ^ 52). by rewrite Z.min_r by lia.
    - by rewrite u64_op_Ok by lia. }
  destruct (debug_assert _) as [[]|?|]; cbn [res_bind] in E; [|done..]. rewrite Ee in E. cbn [res_bind] in E.
  injection E as <-. destruct (reserve_fold_ok (seqZ (start / 4096)
    (Z.min ((stop + 4095) / 4096) (total_frames s) - start / 4096)) s Hi) as (G1 & G2 & G3 & G4 & G5).
  { intros j. rewrite elem_of_seqZ. mlia. }
  split_and!; [done..|]. intros i. rewrite G5. unfold region_frames. by rewrite elem_of_list_to_set.
Qed.

Lemma step_owned `{Profile} st st' : owned_ok st.1.1 st.1.2 st.2 -> step st st' -> owned_ok st'.1.1 st'.1.2 st'.2.
Proof.
  intros [Hinv Ho HR] Hs. destruct Hs as [s o R s' a Ha|s o R s' Ha|s o R s' i Hi Hf|s o R s' start stop H0 H1 H2 Hr];
    cbn [fst snd] in *.
  - destruct (alloc_ok s Hinv) as (s1 & r & E & Hr). rewrite Ha in E. simplify_eq.
    destruct Hr as (idx & -> & Hfree & Hres & ->). rewrite Z.div_mul by lia. constructor; [by apply inv_take|..].
    + intros i [->%elem_of_singleton|Hi]%elem_of_union; simpl.
      * destruct Hfree. split_and!; try lia; [|done]. by rewrite Z.setbit_eq by lia.
      * destruct (Ho i Hi) as (? & Hb & ?). destruct Hfree. split_and!; try lia; [|done].
        by rewrite Z.setbit_eqb, Hb, orb_true_r by lia.
    + intros i Hi. destruct (HR i Hi) as [Hn Hno]. rewrite frame_free_take by (destruct Hfree; lia). set_solver.
  - destruct (alloc_ok s Hinv) as (s1 & r & E & Hr). rewrite Ha in E. simplify_eq. by constructor.
  - destruct (Ho i Hi) as (H1 & H2 & H3).
    destruct (free_ok s i Hinv H1 H2 H3) as (s1 & E & Hi1 & Hb & Ht & Hk1 & Hk2 & _).
    rewrite Hf in E. simplify_eq. constructor; [done|..].
    + intros j [Hj Hne]%elem_of_difference. destruct (Ho j Hj) as (? & ? & ?). rewrite Ht, Hb, (is_reserved_ext s) by done.
      split; [done|]. split; [|done]. rewrite Z.clearbit_neq by set_solver. done.
    + intros j Hj. destruct (HR j Hj) as [Hn Hno]. split; [|set_solver]. unfold frame_free in *. rewrite Ht, Hb.
      rewrite Z.clearbit_neq by (intros ->; done). done.
  - destruct (reserve_region_ok s s' start stop Hinv H0 H1 H2 Hr) as (Hi & Ht & Hk1 & Hk2 & Hfree). constructor; [done|..].
    + intros i Hio. destruct (Ho i Hio) as (? & Hb & ?). rewrite Ht, (is_reserved_ext s) by done. split; [done|]. split; [|done].
      apply not_false_is_true. intros Hbit. destruct (proj1 (Hfree i)) as [[_ ?] _]; [|congruence].
      split; [by rewrite Ht|done].
    + intros i Hi'. rewrite Hfree. set_solver.
Qed.

Lemma reach_owned `{Profile} st st' : owned_ok st.1.1 st.1.2 st.2 -> rtc step st st' -> owned_ok st'.1.1 st'.1.2 st'.2.
Proof. intros H0 Hr. induction Hr as [|st1 st2 st3 Hs _ IH]; [done|]. eauto using step_owned. Qed.

(** C20: single-frame ownership is exclusive for ever (INV-PA-05): along any
    sequence of [alloc], [free] of an owned frame and [reserve_region] (of a region
    that ends below the last page of the 64-bit addresses or at their end), the free count stays exact, the cursor in
    range, and the next [alloc] never returns a frame that is already owned, nor one
    of a reserved region unless it was owned when the region was reserved, nor one of
    the kernel image, nor frame 0, nor an address outside managed memory. *)
Theorem frames_exclusive `{Profile} s0 s o R s' a :
  inv s0 -> rtc step (s0, ∅, ∅) (s, o, R) -> alloc s = Ok (s', Some a) ->
  inv s' /\ a mod 4096 = 0 /\ 0 < a / 4096 < total_frames s /\ a / 4096 ∉ o /\ a / 4096 ∉ R
  /\ (a < kernel_start s \/ kernel_end s <= a).
Proof.
  intros Hinv Hr Ha. destruct (reach_owned (s0, ∅, ∅) (s, o, R)) as [Hi Ho HR]; [by constructor|done|].
  cbn [fst snd] in *. destruct (alloc_ok s Hi) as (s1 & r & E & Hp). rewrite Ha in E. simplify_eq.
  destruct Hp as (idx & -> & Hf & Hres & ->). rewrite Z.div_mul, Z.mod_mul by lia.
  pose proof (not_reserved_kernel s idx Hres) as Hk. unfold is_reserved_frame in Hres.
  destruct (idx =? 0) eqn:E0; [done|]. pose proof Hf as [Hidx Hbit].
  split_and!; [by apply inv_take|done|lia|lia| | |lia].
  - intros Hin. destruct (Ho idx Hin) as (_ & Hb & _). congruence.
  - intros Hin. by destruct (HR idx Hin).
Qed.

Definition after_alloc (s : BitmapAllocator) : BitmapAllocator :=
  match alloc (H := true) s with Ok (s, _) => s | _ => s end.

(** The first frame is handed out, and the next three are reserved. *)
Definition after_reserve (s : BitmapAllocator) : BitmapAllocator := unwrap (reserve_region (H := true) s 16384 26000).

Lemma frames_exclusive_witness :
  alloc (H := true) (after_reserve (after_alloc boot_state)) = Ok (after_alloc (after_reserve (after_alloc boot_state)), Some 28672)
  /\ 28672 / 4096 ∉ ({[3]} ∪ ∅ : gset Z)
  /\ 28672 / 4096 ∉ ∅ ∪ (region_frames (after_alloc boot_state) 16384 26000 ∖ ({[3]} ∪ ∅ : gset Z)).
Proof.
  assert (alloc (H := true) boot_state = Ok (after_alloc boot_state, Some 12288)) as E1
    by (vm_compute; reflexivity).
  assert (reserve_region (H := true) (after_alloc boot_state) 16384 26000 = Ok (after_reserve (after_alloc boot_state))) as E2
    by (vm_compute; reflexivity).
  assert (alloc (H := true) (after_reserve (after_alloc boot_state))
    = Ok (after_alloc (after_reserve (after_alloc boot_state)), Some 28672)) as E3 by (vm_compute; reflexivity).
  split; [exact E3|].
  assert (rtc (step (H := true)) (boot_state, ∅, ∅) (after_reserve (after_alloc boot_state), {[3]} ∪ ∅,
    ∅ ∪ (region_frames (after_alloc boot_state) 16384 26000 ∖ ({[3]} ∪ ∅)))) as Hr.
  { eapply rtc_l; [exact (step_alloc _ ∅ ∅ _ 12288 E1)|]. apply rtc_once.
    apply (step_reserve _ ({[3]} ∪ ∅) ∅ _ 16384 26000); [lia|lia|left; vm_compute; congruence|exact E2]. }
  destruct (frames_exclusive (H := true) boot_state _ _ _ _ 28672 boot_state_inv Hr E3) as (_ & _ & _ & Ho & HR & _).
  exact (conj Ho HR).
Defined.

(** [alloc] then [free] of the frame it returned restores the free set and
    the count (INV-PA-03). *)
Theorem alloc_free_roundtrip `{Profile} s s' a :
  inv s -> alloc s = Ok (s', Some a) ->
  exists s'', free s' a = Ok s'' /\ inv s'' /\ free_count s'' = free_count s
  /\ forall i, frame_free s'' i <-> frame_free s i.
Proof.
  intros Hinv Ha. destruct (alloc_ok s Hinv) as (s1 & r & E & Hp). rewrite Ha in E. simplify_eq.
  destruct Hp as (idx & -> & Hf & Hres & ->). pose proof (inv_take s idx Hinv Hf) as Hi.
  pose proof Hf as [Hidx Hbit].
  destruct (free_ok (take_frame s idx) idx Hi Hidx) as (s2 & E & H1 & Hb & Ht & _ & _ & Hc & _);
    [simpl; by rewrite Z.setbit_eq by lia|done|].
  exists s2. do 2 (split; [done|]). split.
  - rewrite Hc, (inv_count _ Hi), free_frames_take, (inv_count _ Hinv) by done. lia.
  - intros i. unfold frame_free. rewrite Ht, Hb. simpl. destruct (decide (i = idx)) as [->|Hne].
    + rewrite Z.clearbit_eq, Hbit. done.
    + rewrite Z.clearbit_neq, Z.setbit_neq by lia. done.
Qed.

Lemma alloc_free_roundtrip_witness :
  exists s'', free (H := true) (after_alloc boot_state) 12288 = Ok s''
  /\ free_count s'' = free_count boot_state.
Proof.
  destruct (alloc_free_roundtrip (H := true) boot_state (after_alloc boot_state) 12288)
    as (s'' & E & _ & Hc & _).
  - exact boot_state_inv.
  - vm_compute. reflexivity.
  - exists s''. split; assumption.
Defined.

(** The contiguous search terminates without panicking, and what it returns
    is aligned as asked, inside managed memory, disjoint from the kernel image
    and from frame 0, and marked used; on every other frame the bitmap is
    unchanged. *)
Theorem contiguous_in_bounds `{Profile} s count align_pages hi_cap :
  inv s -> 0 <= count -> 0 <= hi_cap <= total_frames s ->
  no_panic (alloc_contig_core s count align_pages hi_cap)
  /\ forall out, alloc_contig_core s count align_pages hi_cap = Ok out ->
     contig_post s count align_pages out.
Proof.
  intros [Hb Ht Hh Hn _] Hc Hcap. unfold alloc_contig_core.
  destruct ((count =? 0) || _ || _) eqn:E1; [done|].
  destruct ((align_pages =? 0) || negb (is_power_of_two align_pages)) eqn:E2; [done|].
  rewrite Hh, Z.max_id. apply contig_loop_ok; try lia.
  destruct align_pages; try done; lia.
Qed.

Lemma contiguous_in_bounds_witness :
  exists out, alloc_contig_core (H := true) boot_state 4 4 128 = Ok out
  /\ contig_post boot_state 4 4 out.
Proof.
  destruct (alloc_contig_core (H := true) boot_state 4 4 128) as [out|e|] eqn:E.
  - exists out. split; [reflexivity|].
    refine (proj2 (contiguous_in_bounds (H := true) boot_state 4 4 128 boot_state_inv _ _) out E);
      vm_compute; intuition congruence.
  - exfalso. vm_compute in E. discriminate E.
  - exfalso. vm_compute in E. discriminate E.
Defined.

(** A contiguous allocation can hand out frames that are not free.  A run of
    free frames that a used bit ends inside a 64-frame word stays recorded as the
    current run, and a fully free next word extends it over the gap: on a
    machine with usable frames 0-10 and 64-127, the first request for 10
    contiguous frames after boot returns frames 3-12, of which 11 and 12 are not
    usable memory. *)
Theorem contiguous_returns_hole (P : Profile) :
  exists s s', new 0 (4096, 40960) mm_hole 8192 8192 = Ok s
  /\ try_alloc_contiguous s 10 = Ok (s', 3 * 4096)
  /\ Z.testbit (bitmap s) 11 = true /\ Z.testbit (bitmap s) 12 = true
  /\ forall r, r ∈ mm_hole -> ~ region_frame r (total_frames s) 11.
Proof.
  exists boot_state.
  exists (match try_alloc_contiguous boot_state 10 with Ok (s, _) => s | _ => boot_state end).
  split_and!; [by destruct P; vm_compute..|].
  intros r [->|[->|[]%elem_of_nil]%elem_of_cons]%elem_of_cons (e & He & Hr).
  - destruct P; vm_compute in He; injection He as <-; lia.
  - vm_compute in Hr. intuition congruence.
Qed.

(** The other carry-over defect of the contiguous search: at a word that
    starts with used frames, [(!w).trailing_zeros()] counts those used frames as
    a continuation of the run carried from the previous word.  With frames 61-63
    free and 64-69 used, a request for 9 frames is answered with frames 61-69. *)
Theorem contiguous_extends_over_used (P : Profile) :
  let s := mkAlloc (Z.lor (Z.ones 61) (Z.shiftl (Z.ones 6) 64)) 70 286720 4096 8192
             [(0, 286720)] 3 61 61 in
  inv s /\ exists s', try_alloc_contiguous s 9 = Ok (s', 61 * 4096)
  /\ forall i, 64 <= i < 70 -> Z.testbit (bitmap s) i = true.
Proof.
  intros s. split; [constructor; vm_compute; intuition congruence|].
  exists (match try_alloc_contiguous s 9 with Ok (s, _) => s | _ => s end).
  split; [by destruct P; vm_compute|]. intros i Hi.
  assert (i = 64 \/ i = 65 \/ i = 66 \/ i = 67 \/ i = 68 \/ i = 69) as Hi' by lia.
  by destruct Hi' as [->|[->|[->|[->|[->| ->]]]]].
Qed.

(** Usable frames 64-127 only, bitmap at frame 70. *)
Definition mm_high : list MemoryRegion :=
  [{| r_base := 262144; r_size := 262144; r_kind := Usable |}].

(** [try_alloc_contiguous_below] can return a span above its ceiling: the
    wrap-around searches up to the cursor instead of up to the cap.  On a machine
    whose memory starts at frame 64, a request for 4 frames below 32 KiB made
    right after boot returns frames 64-67. *)
Theorem contiguous_below_exceeds_ceiling (P : Profile) :
  exists s s', new 0 (286720, 237568) mm_high 4096 8192 = Ok s
  /\ try_alloc_contiguous_below s 4 32768 = Ok (s', 262144).
Proof.
  exists (unwrap (new 0 (286720, 237568) mm_high 4096 8192)).
  exists (match try_alloc_contiguous_below (unwrap (new 0 (286720, 237568) mm_high 4096 8192)) 4 32768
          with Ok (s, _) => s | _ => mkAlloc 0 0 0 0 0 [] 0 0 0 end).
  split; by destruct P; vm_compute.
Qed.

(** [alloc] can report exhaustion while frames are free: the wrap-around
    stops before the cursor's own word, so free frames below the cursor in that
    word are never probed.  On a machine with frames 0-8 usable and the bitmap in
    frame 8, the first [alloc] after boot returns [None] with seven frames free. *)
Theorem alloc_misses_free_frames (P : Profile) :
  exists s, new 0 (32768, 4096) [{| r_base := 0; r_size := 36864; r_kind := Usable |}] 0 0 = Ok s
  /\ alloc s = Ok (s, None) /\ free_count s = 7
  /\ forall i, 1 <= i <= 7 -> frame_free s i /\ is_reserved_frame s i = false.
Proof.
  exists (unwrap (new 0 (32768, 4096)
    [{| r_base := 0; r_size := 36864; r_kind := Usable |}] 0 0)).
  split_and!; [by destruct P; vm_compute..|]. intros i Hi.
  assert (i = 1 \/ i = 2 \/ i = 3 \/ i = 4 \/ i = 5 \/ i = 6 \/ i = 7) as Hi' by lia.
  destruct Hi' as [->|[->|[->|[->|[->|[->| ->]]]]]]; destruct P; vm_compute; intuition congruence.
Qed.
