(* ===== verification/BlockDev.v ===== *)
(** * The block-device interface

    kernel/src/filesystems/blockdriver/traits.rs: what the file systems use of a
    device.  A device is any type with a [submit] for one read request; the law
    is that a fully successful completion has filled the buffer with the
    addressed sectors.  Errors are arbitrary.  [WriteDevice] adds writes.  The
    file-system theorems are proved against the classes; [MemDisk] is an
    implementation of both. *)

From S2P Require Import Prelude Errors.
Import Errors.Vfs.
Local Open Scope Z_scope.

Record IoCompletions := { completed : Z; errors : Z }.

Definition all_ok (c : IoCompletions) : bool := (errors c =? 0) && negb (completed c =? 0).

Class BlockDevice (D : Type) := {
  (** content of sector [lba]: 512 bytes *)
  sector : D -> Z -> list Z;
  sector_count : D -> Z;
  (** [submit] of one read of [count] sectors at [lba], with the buffer *)
  submit_read : D -> Z -> Z -> option (IoCompletions * list Z);
  sector_length d lba : length (sector d lba) = 512%nat;
  sector_bytes d lba : bytes_ok (sector d lba);
  submit_read_ok d lba count c buf :
    submit_read d lba count = Some (c, buf) -> all_ok c = true ->
    buf = flat_map (sector d) (seqZ lba count)
}.

Section ReadSectors.
Context `{BlockDevice D}.

(** [read_sectors] of the file systems' io modules. *)
Definition read_sectors (device : D) (lba count : Z) : res VfsError (list Z) :=
  match submit_read device lba count with
  | None => Err IOError
  | Some (c, buf) => if negb (all_ok c) then Err IOError else Ok buf
  end.

(** Byte [off] of the device. *)
Definition disk_byte (device : D) (off : Z) : Z :=
  nth (Z.to_nat (off mod 512)) (sector device (off / 512)) 0.

Lemma read_sectors_ok device lba count buf :
  read_sectors device lba count = Ok buf ->
  buf = flat_map (sector device) (seqZ lba count).
Proof.
  unfold read_sectors. destruct (submit_read device lba count) as [[c b]|] eqn:E; [|done].
  destruct (all_ok c) eqn:Ec; [|done]. intros [= <-]. by eapply submit_read_ok.
Qed.

Lemma read_sectors_no_panic device lba count : no_panic (read_sectors device lba count).
Proof.
  unfold read_sectors, no_panic. destruct (submit_read _ _ _) as [[c b]|]; [|done].
  by destruct (negb _).
Qed.

Lemma sectors_length device lba count : 0 <= count ->
  Z.of_nat (length (flat_map (sector device) (seqZ lba count))) = 512 * count.
Proof.
  intros Hc. rewrite <- (Z2Nat.id count) by done. generalize (Z.to_nat count). clear Hc.
  intros n. revert lba. induction n as [|n IH]; intros lba; [done|].
  rewrite seqZ_cons by lia. simpl flat_map. rewrite length_app, sector_length.
  replace (Z.pred (Z.of_nat (S n))) with (Z.of_nat n) by lia.
  rewrite Nat2Z.inj_add, IH. lia.
Qed.

Lemma sectors_bytes_ok device lba count :
  bytes_ok (flat_map (sector device) (seqZ lba count)).
Proof.
  unfold bytes_ok. apply Forall_forall. intros b Hb.
  apply list_elem_of_In, in_flat_map in Hb as (l & _ & Hb).
  pose proof (sector_bytes device l) as Hs. unfold bytes_ok in Hs.
  rewrite Forall_forall in Hs. by apply Hs, list_elem_of_In.
Qed.

(** Byte [i] of a multi-sector read. *)
Lemma sectors_nth device lba count i : 0 <= lba -> 0 <= i < 512 * count ->
  nth (Z.to_nat i) (flat_map (sector device) (seqZ lba count)) 0
  = disk_byte device (512 * lba + i).
Proof.
  intros Hl Hi. assert (0 <= count) as Hc by lia. revert lba i Hl Hi.
  rewrite <- (Z2Nat.id count) by done. generalize (Z.to_nat count). clear Hc.
  intros n. induction n as [|n IH]; intros lba i Hl Hi; [lia|].
  rewrite seqZ_cons by lia. simpl flat_map.
  replace (Z.pred (Z.of_nat (S n))) with (Z.of_nat n) by lia.
  destruct (decide (i < 512)) as [Hlt|Hge].
  - rewrite app_nth1 by (rewrite sector_length; lia). unfold disk_byte.
    f_equal; [|f_equal]; mlia.
  - rewrite app_nth2 by (rewrite sector_length; lia). rewrite sector_length.
    replace (Z.to_nat i - 512)%nat with (Z.to_nat (i - 512)) by lia.
    rewrite IH by lia. f_equal. lia.
Qed.
End ReadSectors.

(** ** A device in memory *)

Record MemDisk := { image : list Z; image_ok : bytes_ok image }.

Definition mem_sector (d : MemDisk) (lba : Z) : list Z :=
  let s := if 0 <=? lba then take 512 (drop (Z.to_nat (512 * lba)) (image d)) else [] in
  s ++ replicate (512 - length s) 0.

Definition mem_sector_count (d : MemDisk) : Z := (Z.of_nat (length (image d)) + 511) / 512.

Lemma mem_sector_length d lba : length (mem_sector d lba) = 512%nat.
Proof.
  unfold mem_sector. rewrite length_app, length_replicate.
  destruct (0 <=? lba); [rewrite length_take|simpl]; lia.
Qed.

Lemma mem_sector_bytes d lba : bytes_ok (mem_sector d lba).
Proof.
  unfold mem_sector, bytes_ok. apply Forall_app. split.
  - destruct (0 <=? lba); [|constructor]. apply Forall_take, Forall_drop, image_ok.
  - apply Forall_replicate. unfold byte_ok. lia.
Qed.

(** Requests past the end fail. *)
Definition mem_submit_read (d : MemDisk) (lba count : Z) : option (IoCompletions * list Z) :=
  if (0 <=? lba) && (lba + count <=? mem_sector_count d)
  then Some ({| completed := 1; errors := 0 |}, flat_map (mem_sector d) (seqZ lba count))
  else None.

#[global, refine] Instance MemDisk_device : BlockDevice MemDisk := {
  sector := mem_sector;
  sector_count := mem_sector_count;
  submit_read := mem_submit_read;
  sector_length := mem_sector_length;
  sector_bytes := mem_sector_bytes
}.
Proof.
  intros d lba count c buf. unfold mem_submit_read.
  destruct (_ && _); [|done]. by intros [= <- <-].
Defined.

(** ** Writing *)

(** [submit] of one write of the sectors in [buf] at [lba].  A fully successful
    write stores them and nothing else; a failed one leaves the sectors it was
    not addressed to alone. *)
Class WriteDevice (D : Type) `{BlockDevice D} := {
  submit_write : D -> Z -> Z -> list Z -> D * option IoCompletions;
  submit_write_frame d lba count buf l :
    ~ lba <= l < lba + count ->
    sector (submit_write d lba count buf).1 l = sector d l;
  submit_write_ok d lba count buf c l :
    bytes_ok buf -> Z.of_nat (length buf) = 512 * count -> 0 <= lba ->
    (submit_write d lba count buf).2 = Some c -> all_ok c = true ->
    lba <= l < lba + count ->
    sector (submit_write d lba count buf).1 l
    = take 512 (drop (Z.to_nat (512 * (l - lba))) buf)
}.

(** [write_sectors] of the FAT32 io module. *)
Definition write_sectors `{WriteDevice D} (device : D) (lba count : Z) (buf : list Z)
  : D * res VfsError unit :=
  match submit_write device lba count buf with
  | (device, None) => (device, Err IOError)
  | (device, Some c) => (device, if negb (all_ok c) then Err IOError else Ok tt)
  end.

Section WriteSectors.
Context `{WriteDevice D}.

Lemma write_sectors_frame (d : D) lba count buf l : ~ lba <= l < lba + count ->
  sector (write_sectors d lba count buf).1 l = sector d l.
Proof.
  intros Hl. pose proof (submit_write_frame d lba count buf l Hl) as Hf.
  unfold write_sectors. by destruct (submit_write d lba count buf) as [d' [c|]].
Qed.

Lemma write_sectors_ok (d : D) lba count buf l :
  bytes_ok buf -> Z.of_nat (length buf) = 512 * count -> 0 <= lba ->
  (write_sectors d lba count buf).2 = Ok tt -> lba <= l < lba + count ->
  sector (write_sectors d lba count buf).1 l
  = take 512 (drop (Z.to_nat (512 * (l - lba))) buf).
Proof.
  intros Hb Hn Hl. unfold write_sectors.
  pose proof (submit_write_ok d lba count buf) as Hok.
  destruct (submit_write d lba count buf) as [d' [c|]]; [|done]. simpl in *.
  destruct (all_ok c) eqn:Ec; [|done]. intros _ Hr. by apply (Hok c).
Qed.

Lemma write_sectors_no_panic (d : D) lba count buf : no_panic (write_sectors d lba count buf).2.
Proof.
  unfold write_sectors. destruct (submit_write d lba count buf) as [d' [c|]]; [|done].
  simpl. by destruct (negb _).
Qed.
End WriteSectors.

(** Overwrite [buf] at byte [off] of an image. *)
Definition splice (img : list Z) (off : nat) (buf : list Z) : list Z :=
  take off img ++ buf ++ drop (off + length buf) img.

Lemma splice_bytes img off buf : bytes_ok img -> bytes_ok buf -> bytes_ok (splice img off buf).
Proof.
  intros Hi Hb. unfold splice, bytes_ok in *.
  apply Forall_app. split; [by apply Forall_take|]. apply Forall_app. split; [done|].
  by apply Forall_drop.
Qed.

Definition mem_submit_write (d : MemDisk) (lba count : Z) (buf : list Z)
  : MemDisk * option IoCompletions :=
  match decide (bytes_ok buf) with
  | left H =>
      if (0 <=? lba) && (Z.of_nat (length buf) =? 512 * count)
         && (512 * (lba + count) <=? Z.of_nat (length (image d)))
      then ({| image := splice (image d) (Z.to_nat (512 * lba)) buf;
               image_ok := splice_bytes _ _ _ (image_ok d) H |},
            Some {| completed := 1; errors := 0 |})
      else (d, None)
  | right _ => (d, None)
  end.

Lemma splice_lookup img off buf (i : nat) : (off + length buf <= length img)%nat ->
  splice img off buf !! i
  = if decide (off <= i < off + length buf)%nat then buf !! (i - off)%nat else img !! i.
Proof.
  intros Hl. unfold splice. destruct (decide _) as [Hi|Hi].
  - rewrite lookup_app_r by (rewrite length_take; lia). rewrite length_take.
    rewrite lookup_app_l by lia. f_equal. lia.
  - destruct (decide (i < off)%nat).
    + rewrite lookup_app_l by (rewrite length_take; lia). by rewrite lookup_take_lt by lia.
    + rewrite lookup_app_r by (rewrite length_take; lia). rewrite length_take.
      rewrite lookup_app_r by lia. rewrite lookup_drop. f_equal. lia.
Qed.

Lemma splice_length img off buf : (off + length buf <= length img)%nat ->
  length (splice img off buf) = length img.
Proof. intros Hl. unfold splice. rewrite !length_app, length_take, length_drop. lia. Qed.

Lemma splice_outside n img off buf l : (off + length buf <= length img)%nat ->
  (l + n <= off \/ off + length buf <= l)%nat ->
  take n (drop l (splice img off buf)) = take n (drop l img).
Proof.
  intros Hl Ho. apply list_eq. intros i.
  destruct (decide (i < n)%nat); [|by rewrite !lookup_take_ge by lia].
  rewrite !lookup_take_lt, !lookup_drop by lia. rewrite splice_lookup by done.
  destruct (decide _); [lia|done].
Qed.

Lemma splice_inside n img off buf j : (off + length buf <= length img)%nat ->
  (j + n <= length buf)%nat ->
  take n (drop (off + j) (splice img off buf)) = take n (drop j buf).
Proof.
  intros Hl Hj. apply list_eq. intros i.
  destruct (decide (i < n)%nat); [|by rewrite !lookup_take_ge by lia].
  rewrite !lookup_take_lt, !lookup_drop by lia. rewrite splice_lookup by done.
  destruct (decide _); [|lia]. f_equal. lia.
Qed.

Lemma mem_write_frame d lba count buf l : ~ lba <= l < lba + count ->
  mem_sector (mem_submit_write d lba count buf).1 l = mem_sector d l.
Proof.
  intros Hl. unfold mem_submit_write. destruct (decide _) as [Hb|]; [|done].
  destruct (_ && _) eqn:E; [|done]. unfold mem_sector. simpl.
  destruct (0 <=? l) eqn:El; [|done]. rewrite splice_outside by lia. done.
Qed.

Lemma mem_write_ok d lba count buf c l :
  bytes_ok buf -> Z.of_nat (length buf) = 512 * count -> 0 <= lba ->
  (mem_submit_write d lba count buf).2 = Some c -> all_ok c = true ->
  lba <= l < lba + count ->
  mem_sector (mem_submit_write d lba count buf).1 l
  = take 512 (drop (Z.to_nat (512 * (l - lba))) buf).
Proof.
  intros Hb Hn Hl. unfold mem_submit_write. destruct (decide _) as [Hb'|]; [|done].
  destruct (_ && _) eqn:E; [|done]. intros _ _ Hr. unfold mem_sector. simpl.
  rewrite (proj2 (Z.leb_le 0 l)) by lia.
  replace (Z.to_nat (512 * l)) with (Z.to_nat (512 * lba) + Z.to_nat (512 * (l - lba)))%nat by lia.
  rewrite splice_inside by lia. rewrite length_take, length_drop.
  replace (512 - _)%nat with 0%nat by lia. by rewrite app_nil_r.
Qed.

#[global] Instance MemDisk_write_device : WriteDevice MemDisk := {
  submit_write := mem_submit_write;
  submit_write_frame := mem_write_frame;
  submit_write_ok := mem_write_ok
}.

(** ** Devices that serve every request

    [healthy] devices complete all requests within their size and stay so.  On
    other devices [healthy] is empty: [unreliable]. *)
Class ReliableDevice (D : Type) `{WriteDevice D} := {
  healthy : D -> Prop;
  healthy_read d lba count : healthy d -> 0 <= lba -> 1 <= count -> lba + count <= sector_count d ->
    exists buf, read_sectors d lba count = Ok buf;
  healthy_write d lba count buf : healthy d -> 0 <= lba -> 1 <= count ->
    lba + count <= sector_count d -> bytes_ok buf -> Z.of_nat (length buf) = 512 * count ->
    (write_sectors d lba count buf).2 = Ok tt;
  healthy_kept d lba count buf : healthy d ->
    healthy (write_sectors d lba count buf).1
    /\ sector_count (write_sectors d lba count buf).1 = sector_count d
}.

Definition unreliable (D : Type) `{WriteDevice D} : ReliableDevice D.
Proof. refine {| healthy := fun _ => False |}; done. Defined.

Definition mem_healthy (d : MemDisk) : Prop := Z.of_nat (length (image d)) mod 512 = 0.

Lemma mem_write_length d lba count buf :
  length (image (mem_submit_write d lba count buf).1) = length (image d).
Proof.
  unfold mem_submit_write. destruct (decide _); [|done]. destruct (_ && _) eqn:E; [|done].
  simpl. apply splice_length. lia.
Qed.

Lemma mem_write_sectors d lba count buf :
  (write_sectors d lba count buf).1 = (mem_submit_write d lba count buf).1.
Proof.
  unfold write_sectors. change submit_write with mem_submit_write.
  by destruct (mem_submit_write d lba count buf) as [d' [c|]].
Qed.

#[global, refine] Instance MemDisk_reliable : ReliableDevice MemDisk := {
  healthy := mem_healthy
}.
Proof.
  - intros d lba count _ Hl Hc Hs. simpl in Hs. eexists. unfold read_sectors.
    change submit_read with mem_submit_read. unfold mem_submit_read.
    rewrite (proj2 (andb_true_iff _ _)) by lia. reflexivity.
  - intros d lba count buf Hh Hl Hc Hs Hb Hn. unfold mem_healthy in Hh. simpl in Hs. unfold mem_sector_count in Hs.
    unfold write_sectors. change submit_write with mem_submit_write. unfold mem_submit_write.
    destruct (decide (bytes_ok buf)) as [Hb'|]; [|done]. destruct (_ && _) eqn:E; [done|]. mlia.
  - intros d lba count buf Hh. rewrite mem_write_sectors. simpl. unfold mem_healthy, mem_sector_count in *.
    by rewrite mem_write_length.
Defined.

(** ** Batches

    [submit] of several read requests at once, [(lba, count)] each, with their
    buffers.  A fully successful completion has filled all of them. *)
Class BatchDevice (D : Type) `{ReliableDevice D} := {
  submit_reads : D -> list (Z * Z) -> option (IoCompletions * list (list Z));
  submit_reads_ok d reqs c bufs :
    submit_reads d reqs = Some (c, bufs) -> all_ok c = true ->
    bufs = map (fun r => flat_map (sector d) (seqZ r.1 r.2)) reqs;
  healthy_reads d reqs : healthy d -> reqs <> [] ->
    Forall (fun r => 0 <= r.1 /\ 1 <= r.2 /\ r.1 + r.2 <= sector_count d) reqs ->
    exists c bufs, submit_reads d reqs = Some (c, bufs) /\ all_ok c = true
}.

(** [read_sectors_batch] of the FAT32 io module. *)
Definition read_sectors_batch `{BatchDevice D} (device : D) (reqs : list (Z * Z)) : res VfsError (list (list Z)) :=
  if bool_decide (reqs = []) then Ok []
  else
    match submit_reads device reqs with
    | None => Err IOError
    | Some (c, bufs) => if negb (all_ok c) then Err IOError else Ok bufs
    end.

Section Batches.
Context `{BatchDevice D}.

Lemma read_sectors_batch_ok (d : D) reqs bufs : read_sectors_batch d reqs = Ok bufs ->
  bufs = map (fun r => flat_map (sector d) (seqZ r.1 r.2)) reqs.
Proof.
  unfold read_sectors_batch. case_bool_decide as E; [by intros [= <-]; subst|].
  destruct (submit_reads d reqs) as [[c b]|] eqn:Es; [|done].
  destruct (all_ok c) eqn:Ec; [|done]. intros [= <-]. by eapply submit_reads_ok.
Qed.

Lemma read_sectors_batch_no_panic (d : D) reqs : no_panic (read_sectors_batch d reqs).
Proof.
  unfold read_sectors_batch, no_panic. case_bool_decide; [done|].
  destruct (submit_reads d reqs) as [[c b]|]; [|done]. by destruct (negb _).
Qed.

Lemma read_sectors_batch_live (d : D) reqs : healthy d ->
  Forall (fun r => 0 <= r.1 /\ 1 <= r.2 /\ r.1 + r.2 <= sector_count d) reqs ->
  exists bufs, read_sectors_batch d reqs = Ok bufs.
Proof.
  intros Hh Hr. unfold read_sectors_batch. case_bool_decide as E; [by eexists|].
  destruct (healthy_reads d reqs Hh E Hr) as (c & bufs & -> & ->). by eexists.
Qed.
End Batches.

Definition mem_submit_reads (d : MemDisk) (reqs : list (Z * Z)) : option (IoCompletions * list (list Z)) :=
  if forallb (fun r => (0 <=? r.1) && (r.1 + r.2 <=? mem_sector_count d)) reqs
  then Some ({| completed := Z.of_nat (length reqs); errors := 0 |},
             map (fun r => flat_map (mem_sector d) (seqZ r.1 r.2)) reqs)
  else None.

#[global, refine] Instance MemDisk_batch : BatchDevice MemDisk := {
  submit_reads := mem_submit_reads
}.
Proof.
  - intros d reqs c bufs. unfold mem_submit_reads. destruct (forallb _ _); [|done]. by intros [= <- <-].
  - intros d reqs _ Hne Hr. unfold mem_submit_reads. rewrite (proj2 (forallb_forall _ _)).
    + do 2 eexists. split; [reflexivity|]. unfold all_ok. simpl. destruct reqs; [done|]. simpl. lia.
    + intros r Hin%list_elem_of_In. rewrite Forall_forall in Hr. specialize (Hr r Hin). simpl in Hr. lia.
Defined.

(** ** Batches of writes

    [submit] of several write requests at once: buffer, sector and count of
    each.  A fully successful completion has stored all of them, in whatever
    order; a failed one leaves the sectors none was addressed to alone. *)

Definition WriteReq : Type := list Z * Z * Z.

Definition req_sectors (r : WriteReq) : list Z := seqZ r.1.2 r.2.

(** A buffer that fills its sectors, inside the device. *)
Definition write_req_ok (size : Z) (r : WriteReq) : Prop :=
  bytes_ok r.1.1 /\ Z.of_nat (length r.1.1) = 512 * r.2 /\ 0 <= r.1.2 /\ 1 <= r.2 /\ r.1.2 + r.2 <= size.

Class BatchWriteDevice (D : Type) `{BatchDevice D} := {
  submit_writes : D -> list WriteReq -> D * option IoCompletions;
  submit_writes_frame d reqs l : l ∉ flat_map req_sectors reqs -> sector (submit_writes d reqs).1 l = sector d l;
  submit_writes_ok d reqs c : Forall (write_req_ok (sector_count d)) reqs -> NoDup (flat_map req_sectors reqs) ->
    (submit_writes d reqs).2 = Some c -> all_ok c = true ->
    forall r l, r ∈ reqs -> l ∈ req_sectors r ->
    sector (submit_writes d reqs).1 l = take 512 (drop (Z.to_nat (512 * (l - r.1.2))) r.1.1);
  healthy_writes d reqs : healthy d -> reqs <> [] -> Forall (write_req_ok (sector_count d)) reqs ->
    exists c, (submit_writes d reqs).2 = Some c /\ all_ok c = true;
  healthy_writes_kept d reqs : healthy d ->
    healthy (submit_writes d reqs).1 /\ sector_count (submit_writes d reqs).1 = sector_count d
}.

(** [write_sectors_batch] of the FAT32 io module. *)
Definition write_sectors_batch `{BatchWriteDevice D} (device : D) (reqs : list WriteReq) : D * res VfsError unit :=
  if bool_decide (reqs = []) then (device, Ok tt)
  else
    match submit_writes device reqs with
    | (device, None) => (device, Err IOError)
    | (device, Some c) => (device, if negb (all_ok c) then Err IOError else Ok tt)
    end.

Definition mem_submit_writes (d : MemDisk) (reqs : list WriteReq) : MemDisk * option IoCompletions :=
  if forallb (fun r => bool_decide (bytes_ok r.1.1) && (0 <=? r.1.2) && (Z.of_nat (length r.1.1) =? 512 * r.2)
                       && (512 * (r.1.2 + r.2) <=? Z.of_nat (length (image d)))) reqs
  then (foldl (fun d r => (mem_submit_write d r.1.2 r.2 r.1.1).1) d reqs,
        Some {| completed := Z.of_nat (length reqs); errors := 0 |})
  else (d, None).

Lemma mem_fold_frame reqs l : forall d, l ∉ flat_map req_sectors reqs ->
  mem_sector (foldl (fun d r => (mem_submit_write d r.1.2 r.2 r.1.1).1) d reqs) l = mem_sector d l.
Proof.
  induction reqs as [|r reqs IH]; intros d Hl; cbn [foldl flat_map] in *; [done|].
  rewrite elem_of_app in Hl. rewrite IH by tauto. apply mem_write_frame. unfold req_sectors in Hl.
  rewrite elem_of_seqZ in Hl. lia.
Qed.

Lemma mem_fold_length reqs : forall d,
  length (image (foldl (fun d r => (mem_submit_write d r.1.2 r.2 r.1.1).1) d reqs)) = length (image d).
Proof. induction reqs as [|r reqs IH]; intros d; cbn [foldl]; [done|]. rewrite IH. apply mem_write_length. Qed.

Lemma mem_fold_ok reqs : forall d r l, NoDup (flat_map req_sectors reqs) ->
  Forall (fun r => bytes_ok r.1.1 /\ 0 <= r.1.2 /\ Z.of_nat (length r.1.1) = 512 * r.2
                   /\ 512 * (r.1.2 + r.2) <= Z.of_nat (length (image d))) reqs ->
  r ∈ reqs -> l ∈ req_sectors r ->
  mem_sector (foldl (fun d r => (mem_submit_write d r.1.2 r.2 r.1.1).1) d reqs) l
  = take 512 (drop (Z.to_nat (512 * (l - r.1.2))) r.1.1).
Proof.
  induction reqs as [|r0 reqs IH]; intros d r l Hnd Hok Hr Hl; [by apply elem_of_nil in Hr|]. cbn [foldl flat_map] in *.
  apply NoDup_app in Hnd as (_ & Hdis & Hnd). apply Forall_cons in Hok as [(Hb & H0 & Hn & Hs) Hok].
  apply elem_of_cons in Hr as [->|Hr].
  - rewrite mem_fold_frame by auto. unfold req_sectors in Hl. rewrite elem_of_seqZ in Hl.
    apply (mem_write_ok d r0.1.2 r0.2 r0.1.1 {| completed := 1; errors := 0 |}); try done. unfold mem_submit_write.
    destruct (decide _); [|done]. by rewrite (proj2 (andb_true_iff _ _)) by (rewrite andb_true_iff; lia).
  - apply IH; [done| |done|done]. eapply Forall_impl; [exact Hok|]. intros q (? & ? & ? & ?). by rewrite mem_write_length.
Qed.

#[global, refine] Instance MemDisk_batch_write : BatchWriteDevice MemDisk := {
  submit_writes := mem_submit_writes
}.
Proof.
  - intros d reqs l Hl. unfold mem_submit_writes. case_match; [|done]. by apply mem_fold_frame.
  - intros d reqs c Hok Hnd. unfold mem_submit_writes. destruct (forallb _ _) eqn:E; [|done].
    intros _ _ r l Hr Hl. cbn [fst]. apply mem_fold_ok; [done| |done|done]. rewrite forallb_forall in E.
    apply Forall_forall. intros q Hq%list_elem_of_In%E. rewrite !andb_true_iff, bool_decide_eq_true in Hq.
    destruct Hq as [[[? ?] ?] ?]. split_and!; [done|lia..].
  - intros d reqs Hh Hne Hok. unfold mem_submit_writes. rewrite (proj2 (forallb_forall _ _)).
    + eexists. split; [reflexivity|]. unfold all_ok. simpl. destruct reqs; [done|]. simpl. lia.
    + intros r Hr%list_elem_of_In. rewrite Forall_forall in Hok. destruct (Hok r Hr) as (Hb & Hl & H0 & H1 & Hs).
      change (sector_count d) with (mem_sector_count d) in Hs. unfold mem_sector_count in Hs.
      change (healthy d) with (mem_healthy d) in Hh. unfold mem_healthy in Hh.
      rewrite bool_decide_eq_true_2 by done. mlia.
  - intros d reqs Hh. change (healthy d) with (mem_healthy d) in Hh. unfold mem_healthy in Hh.
    assert (length (image (mem_submit_writes d reqs).1) = length (image d)) as El.
    { unfold mem_submit_writes. case_match; [|done]. apply mem_fold_length. }
    split; [change (mem_healthy (mem_submit_writes d reqs).1); unfold mem_healthy; by rewrite El|].
    change (mem_sector_count (mem_submit_writes d reqs).1 = mem_sector_count d). unfold mem_sector_count. by rewrite El.
Defined.

Section WriteBatches.
Context `{BatchWriteDevice D}.

Lemma write_sectors_batch_frame (d : D) reqs l : l ∉ flat_map req_sectors reqs ->
  sector (write_sectors_batch d reqs).1 l = sector d l.
Proof.
  intros Hl. unfold write_sectors_batch. case_bool_decide; [done|]. pose proof (submit_writes_frame d reqs l Hl) as Hf.
  by destruct (submit_writes d reqs) as [d' [c|]].
Qed.

Lemma write_sectors_batch_ok (d : D) reqs : Forall (write_req_ok (sector_count d)) reqs -> NoDup (flat_map req_sectors reqs) ->
  (write_sectors_batch d reqs).2 = Ok tt -> forall r l, r ∈ reqs -> l ∈ req_sectors r ->
  sector (write_sectors_batch d reqs).1 l = take 512 (drop (Z.to_nat (512 * (l - r.1.2))) r.1.1).
Proof.
  intros Hok Hnd. unfold write_sectors_batch. case_bool_decide as E; [subst; intros _ r l Hr; by apply elem_of_nil in Hr|].
  pose proof (submit_writes_ok d reqs) as Hs. destruct (submit_writes d reqs) as [d' [c|]]; [|done]. simpl in *.
  destruct (all_ok c) eqn:Ec; [|done]. intros _ r l. by apply (Hs c).
Qed.

Lemma write_sectors_batch_no_panic (d : D) reqs : no_panic (write_sectors_batch d reqs).2.
Proof.
  unfold write_sectors_batch. case_bool_decide; [done|]. destruct (submit_writes d reqs) as [d' [c|]]; [|done].
  simpl. by destruct (negb _).
Qed.

Lemma write_sectors_batch_live (d : D) reqs : healthy d ->
  (Forall (write_req_ok (sector_count d)) reqs -> (write_sectors_batch d reqs).2 = Ok tt)
  /\ healthy (write_sectors_batch d reqs).1 /\ sector_count (write_sectors_batch d reqs).1 = sector_count d.
Proof.
  intros Hh. unfold write_sectors_batch. case_bool_decide as E; [done|].
  pose proof (healthy_writes_kept d reqs Hh) as Hk. pose proof (healthy_writes d reqs Hh E) as Hw.
  destruct (submit_writes d reqs) as [d' o]. simpl in *. split; [|by destruct o as [c|]].
  intros Hok. destruct (Hw Hok) as (c & -> & Hc). simpl. by rewrite Hc.
Qed.
End WriteBatches.
