(* ===== verification/Ntfs.v ===== *)
(** * The read-only NTFS driver: on-disk structures

    Model of kernel/src/filesystems/fstypes/ntfs: the boot sector (boot.rs),
    mapping pairs and extent reads (runs.rs), MFT records and their update
    sequence (record.rs), attributes and attribute lists (attr.rs).  Input bytes
    come from an untrusted disk; an index out of range is a [Panic].  The
    diagnostic strings of [set_last_error_if_none] are not modelled. *)

From S2P Require Import Prelude Errors Bits BlockDev.
Import Errors.Vfs.
Local Open Scope Z_scope.

(** ** Little-endian readers *)

Definition u16_at (d : list Z) (o : Z) : option Z := option_map le_val (get_range d o 2).
Definition u32_at (d : list Z) (o : Z) : option Z := option_map le_val (get_range d o 4).
Definition u64_at (d : list Z) (o : Z) : option Z := option_map le_val (get_range d o 8).

(** [d[a..b]]: out of range panics. *)
Definition slice {E} (d : list Z) (a b : Z) : res E (list Z) :=
  match get_range d a (b - a) with Some s => Ok s | None => Panic end.

(** ** Boot sector *)

Definition BYTES_PER_SECTOR : Z := 512.

Record BootSector := {
  total_sectors : Z;
  mft_lcn : Z;
  sectors_per_cluster : Z;
  bytes_per_sector : Z;
  record_size : Z;
  index_size : Z;
  max_records : Z
}.

(** [value] is the raw byte of an [i8]. *)
Definition unit_size (value cluster_size : Z) : res VfsError Z :=
  let v := to_signed 8 value in
  if 0 <? v then ok_or (checked_mul_u64 cluster_size v) InvalidInput
  else if v <? 0 then
    let shift := - v in
    if 16 <? shift then Err InvalidInput else Ok (Z.shiftl 1 shift)
  else Err InvalidInput.

Definition bad_unit (sz bps : Z) : bool :=
  (sz <? BYTES_PER_SECTOR) || (65536 <? sz) || negb (is_power_of_two sz)
  || negb (sz mod bps =? 0).

(** "NTFS    " *)
Definition ntfs_magic : list Z := [78; 84; 70; 83; 32; 32; 32; 32].

Section Driver.
Context `{Profile} `{BlockDevice D}.

Definition parse_boot (device : D) : res VfsError BootSector :=
  let? sector := read_sectors device 0 1 in
  let? magic := slice sector 3 11 in
  if negb (bool_decide (magic = ntfs_magic)) then Err InvalidDevice
  else
    let? bps_bytes := slice sector 11 13 in
    let bps := le_val bps_bytes in
    if negb (bps =? BYTES_PER_SECTOR) then Err InvalidInput
    else
      let? spc := index sector 13 in
      if (spc =? 0) || negb (is_power_of_two spc) || (128 <? spc) then Err InvalidInput
      else
        let? ts_bytes := slice sector 40 48 in
        let ts := le_val ts_bytes in
        if (ts =? 0) || (sector_count device <? ts) then Err InvalidInput
        else
          let? lcn_bytes := slice sector 48 56 in
          let lcn := le_val lcn_bytes in
          if match checked_mul_u64 lcn spc with
             | None => true
             | Some lba => ts <=? lba
             end then Err InvalidInput
          else
            let? cluster_size := u64_mul bps spc in
            let? b40 := index sector 64 in
            let? rsz := unit_size b40 cluster_size in
            if bad_unit rsz bps then Err InvalidInput
            else
              let? b44 := index sector 68 in
              let? isz := unit_size b44 cluster_size in
              if bad_unit isz bps then Err InvalidInput
              else
                let n := Z.min (ts * bps) u64_max / rsz in
                if n =? 0 then Err InvalidInput
                else Ok {| total_sectors := ts; mft_lcn := lcn; sectors_per_cluster := spc;
                           bytes_per_sector := bps; record_size := rsz; index_size := isz;
                           max_records := n |}.

Definition cluster_size (b : BootSector) : res VfsError Z :=
  u64_mul (bytes_per_sector b) (sectors_per_cluster b).

Definition cluster_to_lba (b : BootSector) (cluster : Z) : res VfsError Z :=
  u64_mul cluster (sectors_per_cluster b).

(** ** Runs *)

Record Run := mkRun { vcn : Z; lcn : Z; len : Z }.

Definition MAX_READ_BYTES : Z := 252 * 1024.
Definition MAX_RUNS : Z := 1000000.

(** [runs.partition_point(p)] on a partitioned slice: the length of the leading
    part that satisfies [p]. *)
Fixpoint partition_point (p : Run -> bool) (l : list Run) : nat :=
  match l with
  | [] => O
  | r :: l => if p r then S (partition_point p l) else O
  end.

Definition find (runs : list Run) (offset csize : Z) : option Run :=
  let v := offset / csize in
  match partition_point (fun r => vcn r <=? v) runs with
  | O => None
  | S i =>
      match runs !! i with
      | Some r => if v <? sat_add_u64 (vcn r) (len r) then Some r else None
      | None => None
      end
  end.

(** Little-endian accumulation of [n] bytes at [pos]. *)
Definition read_le (data : list Z) (pos n : Z) : res VfsError Z :=
  let? bs := slice data pos (pos + n) in Ok (le_val bs).

(** One iteration of [decode_mapping_pairs] after a non-zero header: the run and
    the new [vcn], [lcn] and [pos]. *)
Definition decode_pair (data : list Z) (base_vcn hdr vcn lcn pos : Z)
  : res VfsError (Run * Z * Z * Z) :=
  let len_len := Z.land hdr 15 in
  let off_len := Z.shiftr hdr 4 in
  if (len_len =? 0) || (8 <? len_len) || (8 <? off_len) then Err IOError
  else if Z.of_nat (length data) <? pos + len_len + off_len then Err IOError
  else
    let? length := read_le data pos len_len in
    if (length =? 0) || (i64_max <? length) then Err IOError
    else
      let? lcn' :=
        if off_len =? 0 then Ok lcn
        else
          let? raw := read_le data (pos + len_len) off_len in
          ok_or (checked_i64 (lcn + to_signed (8 * off_len) raw)) IOError in
      let? abs := ok_or (checked_add_u64 base_vcn vcn) IOError in
      let run := mkRun abs (if off_len =? 0 then -1 else lcn') length in
      let? vcn := ok_or (checked_i64 (vcn + length)) IOError in
      Ok (run, vcn, lcn', pos + len_len + off_len).

(** Every round consumes at least two bytes or ends; [fuel] is the input length
    plus one. *)
Fixpoint decode_loop (fuel : nat) (data : list Z) (base_vcn : Z) (runs : list Run)
  (vcn lcn pos : Z) : res VfsError (list Run) :=
  match fuel with
  | O => Panic
  | S fuel =>
      if MAX_RUNS <=? Z.of_nat (length runs) then Err IOError
      else
        match get_byte data pos with
        | None => Err IOError
        | Some hdr =>
            if hdr =? 0 then Ok runs
            else
              let? '(run, vcn, lcn, pos) := decode_pair data base_vcn hdr vcn lcn (pos + 1) in
              decode_loop fuel data base_vcn (runs ++ [run]) vcn lcn pos
        end
  end.

Definition decode_mapping_pairs (data : list Z) (base_vcn : Z) : res VfsError (list Run) :=
  decode_loop (S (length data)) data base_vcn [] 0 0 0.

(** ** Extent reads *)

(** The LBA of byte [in_run] of an allocated run:
    [lcn.checked_mul(spc).and_then(|v| v.checked_add(..)).filter(v >= 0)]. *)
Definition run_lba (boot : BootSector) (run : Run) (in_run : Z) : option Z :=
  match checked_i64 (lcn run * sectors_per_cluster boot) with
  | Some v =>
      match checked_i64 (v + to_signed 64 (in_run / bytes_per_sector boot)) with
      | Some v => if 0 <=? v then Some v else None
      | None => None
      end
  | None => None
  end.

(** One chunk: the bytes copied into the buffer for [left] bytes at [pos];
    [None] past the last run. *)
Definition read_chunk (device : D) (boot : BootSector) (runs : list Run)
  (csize pos left : Z) : res VfsError (option (list Z)) :=
  match find runs pos csize with
  | None => Ok None
  | Some run =>
      let? run_start := ok_or (checked_mul_u64 (vcn run) csize) IOError in
      let? in_run := ok_or (checked_sub_u64 pos run_start) IOError in
      let? span := ok_or (checked_mul_u64 (len run) csize) IOError in
      let avail := sat_sub_u64 span in_run in
      let want := Z.min (Z.min avail left) MAX_READ_BYTES in
      if lcn run <? 0 then Ok (Some (replicate (Z.to_nat want) 0))
      else
        let? lba := ok_or (run_lba boot run in_run) IOError in
        let sector_off := in_run mod bytes_per_sector boot in
        let total := sector_off + want in
        let secs := (total + bytes_per_sector boot - 1) / bytes_per_sector boot in
        if (total_sectors boot <=? lba) || (sat_sub_u64 (total_sectors boot) lba <? secs)
        then Err IOError
        else
          let? tmp := read_sectors device lba secs in
          let? bs := slice tmp sector_off (sector_off + want) in
          Ok (Some bs)
  end.

(** [buf_len] is [buf.len()]; [done] the bytes filled so far. *)
Fixpoint read_loop (fuel : nat) (device : D) (boot : BootSector) (runs : list Run)
  (csize buf_len pos : Z) (done : list Z) : res VfsError (list Z) :=
  if Z.of_nat (length done) <? buf_len then
    match fuel with
    | O => Panic
    | S fuel =>
        let? chunk := read_chunk device boot runs csize pos (buf_len - Z.of_nat (length done)) in
        match chunk with
        | None => Ok done
        | Some bs =>
            let? pos := ok_or (checked_add_u64 pos (Z.of_nat (length bs))) IOError in
            read_loop fuel device boot runs csize buf_len pos (done ++ bs)
        end
    end
  else Ok done.

(** The bytes written to the front of the buffer; their number is the result.
    Every chunk fills at least one byte. *)
Definition read_file_at (device : D) (boot : BootSector) (runs : list Run)
  (offset buf_len : Z) : res VfsError (list Z) :=
  let? csize := cluster_size boot in
  read_loop (Z.to_nat buf_len) device boot runs csize buf_len offset [].

(** ** MFT records *)

Definition RECORD_MAGIC : Z := 1162627398.

(** The loop over sectors 1..sectors of [usa_fixup]. *)
Fixpoint fixup_loop (fuel : nat) (data : list Z) (sector_size usn : Z) (sectors sector idx : Z)
  : res VfsError (list Z) :=
  if sector <? sectors then
    match fuel with
    | O => Panic
    | S fuel =>
        let tail := sector * sector_size + sector_size - 2 in
        if Z.of_nat (length data) <? tail + 2 then Err IOError
        else
          let? tail_val := ok_or (u16_at data tail) IOError in
          if negb (tail_val =? usn) then Err IOError
          else
            let? saved := ok_or (u16_at data idx) IOError in
            let? data := index_set data tail (Z.land saved 255) in
            let? data := index_set data (tail + 1) (Z.shiftr saved 8) in
            fixup_loop fuel data sector_size usn sectors (sector + 1) (idx + 2)
    end
  else Ok data.

Definition usa_fixup (data : list Z) (sector_size : Z) : res VfsError (list Z) :=
  let? usa_off := ok_or (u16_at data 4) IOError in
  let? usa_count := ok_or (u16_at data 6) IOError in
  if (usa_off <? 8) || (usa_count <? 1) then Err IOError
  else if sector_size =? 0 then Panic
  else
    let n := Z.of_nat (length data) in
    if negb (n mod sector_size =? 0) || (n <? sector_size) then Err IOError
    else if n <? usa_off + usa_count * 2 then Err IOError
    else
      let? usn := ok_or (u16_at data usa_off) IOError in
      let? tail_pos := u64_sub sector_size 2 in
      let? tail0 := ok_or (u16_at data tail_pos) IOError in
      if negb (tail0 =? usn) then Err IOError
      else
        let sectors := n / sector_size in
        if usa_count <? sectors + 1 then Err IOError
        else
          let tails_available := (usa_off + usa_count * 2 - (usa_off + 2)) / 2 in
          if tails_available <? sectors then Err IOError
          else fixup_loop (Z.to_nat sectors) data sector_size usn sectors 1 (usa_off + 2).

Definition read_record_at (device : D) (boot : BootSector) (runs : list Run)
  (offset rsize : Z) : res VfsError (list Z) :=
  let? got := read_file_at device boot runs offset rsize in
  if Z.of_nat (length got) <? rsize then Err IOError
  else
    let? buf := usa_fixup got (bytes_per_sector boot) in
    let? magic := ok_or (u32_at buf 0) IOError in
    if negb (magic =? RECORD_MAGIC) then Err IOError else Ok buf.

Record NtfsSuperBlock := { device : D; boot : BootSector; mft_runs : list Run }.

Definition read_mft_record (sb : NtfsSuperBlock) (mft_no : Z) : res VfsError (list Z) :=
  if max_records (boot sb) <=? mft_no then Err NotFound
  else
    let? offset := ok_or (checked_mul_u64 mft_no (record_size (boot sb))) IOError in
    read_record_at (device sb) (boot sb) (mft_runs sb) offset (record_size (boot sb)).

(** ** Attributes *)

Definition ATTR_END : Z := 4294967295.
Definition MAX_ATTRS : Z := 256.

Definition is_high (u : Z) : bool := (55296 <=? u) && (u <? 56320).
Definition is_low (u : Z) : bool := (56320 <=? u) && (u <? 57344).

(** [String::from_utf16_lossy] as code points. *)
Fixpoint decode_utf16 (us : list Z) : list Z :=
  match us with
  | [] => []
  | u :: rest =>
      if is_high u then
        match rest with
        | v :: rest' =>
            if is_low v then (65536 + (u - 55296) * 1024 + (v - 56320)) :: decode_utf16 rest'
            else 65533 :: decode_utf16 rest
        | [] => [65533]
        end
      else if is_low u then 65533 :: decode_utf16 rest
      else u :: decode_utf16 rest
  end.

(** [chunks_exact(2)] of little-endian words. *)
Fixpoint words_le (d : list Z) : list Z :=
  match d with
  | a :: b :: d => (a + 256 * b) :: words_le d
  | _ => []
  end.

(** Names are kept as code points. *)
Definition decode_utf16le (units : list Z) : list Z := decode_utf16 (words_le units).

Record Attr := {
  attr_type : Z;
  attr_name : option (list Z);
  attr_flags : Z;
  resident : bool;
  value : list Z;
  lowest_vcn : Z;
  highest_vcn : Z;
  map_off : Z;
  map_end : Z;
  real_size : Z;
  init_size : Z
}.

Definition attr_name_at (record : list Z) (pos len name_len name_off : Z)
  : res VfsError (option (list Z)) :=
  if name_len =? 0 then Ok None
  else if len <? name_off + name_len * 2 then Err IOError
  else
    let? bs := slice record (pos + name_off) (pos + name_off + name_len * 2) in
    Ok (Some (decode_utf16le bs)).

(** The attribute at [pos] of length [len]. *)
Definition parse_attr (record : list Z) (pos t len : Z) : res VfsError Attr :=
  let? nonresident := index record (pos + 8) in
  let? name_len := index record (pos + 9) in
  let? name_off := ok_or (u16_at record (pos + 10)) IOError in
  let? flags := ok_or (u16_at record (pos + 12)) IOError in
  let? name := attr_name_at record pos len name_len name_off in
  if negb (nonresident =? 0) then
    if len <? 64 then Err IOError
    else
      let? lowest := ok_or (u64_at record (pos + 16)) IOError in
      let? highest := ok_or (u64_at record (pos + 24)) IOError in
      let? moff := ok_or (u16_at record (pos + 32)) IOError in
      let? real := ok_or (u64_at record (pos + 48)) IOError in
      let? init := ok_or (u64_at record (pos + 56)) IOError in
      if (moff <? 64) || (len <=? moff) then Err IOError
      else Ok {| attr_type := t; attr_name := name; attr_flags := flags; resident := false;
                 value := []; lowest_vcn := lowest; highest_vcn := highest;
                 map_off := pos + moff; map_end := pos + len;
                 real_size := real; init_size := init |}
  else
    let? vlen := ok_or (u32_at record (pos + 16)) IOError in
    let? voff := ok_or (u16_at record (pos + 20)) IOError in
    if len <? voff + vlen then Err IOError
    else
      let? v := slice record (pos + voff) (pos + voff + vlen) in
      Ok {| attr_type := t; attr_name := name; attr_flags := flags; resident := true;
            value := v; lowest_vcn := 0; highest_vcn := 0; map_off := 0; map_end := 0;
            real_size := vlen; init_size := vlen |}.

(** At most [MAX_ATTRS] attributes are collected. *)
Fixpoint attrs_loop (fuel : nat) (record : list Z) (stop pos : Z) (out : list Attr)
  : res VfsError (list Attr) :=
  if pos + 8 <=? stop then
    match fuel with
    | O => Panic
    | S fuel =>
        if MAX_ATTRS <=? Z.of_nat (length out) then Err IOError
        else
          let? t := ok_or (u32_at record pos) IOError in
          if t =? ATTR_END then Ok out
          else
            let? len := ok_or (u32_at record (pos + 4)) IOError in
            if (len <? 24) || (stop <? pos + len) then Err IOError
            else
              let? a := parse_attr record pos t len in
              attrs_loop fuel record stop (pos + len) (out ++ [a])
    end
  else Ok out.

Definition iter_attrs (record : list Z) : res VfsError (list Attr) :=
  if Z.of_nat (length record) <? 44 then Err IOError
  else
    let? first := ok_or (u16_at record 20) IOError in
    let? alloc := ok_or (u32_at record 28) IOError in
    let stop := Z.min alloc (Z.of_nat (length record)) in
    if (first <? 24) || (stop <=? first) then Err IOError
    else attrs_loop 257 record stop first [].

Record FileName := {
  parent_ref : Z;
  mtime : Z;
  fn_size : Z;
  fn_flags : Z;
  namespace : Z;
  fn_name : list Z
}.

Definition filetime_to_epoch (ft : Z) : Z := sat_sub_u64 (ft / 10000000) 11644473600.

Definition parse_file_name (value : list Z) : res VfsError FileName :=
  if Z.of_nat (length value) <? 66 then Err IOError
  else
    let? parent := ok_or (u64_at value 0) IOError in
    let? mtime_ft := ok_or (u64_at value 16) IOError in
    let? sz := ok_or (u64_at value 48) IOError in
    let? flags := ok_or (u32_at value 56) IOError in
    let? name_len := index value 64 in
    let? ns := index value 65 in
    if Z.of_nat (length value) <? 66 + name_len * 2 then Err IOError
    else
      let? bs := slice value 66 (66 + name_len * 2) in
      Ok {| parent_ref := parent; mtime := filetime_to_epoch mtime_ft; fn_size := sz;
            fn_flags := flags; namespace := ns; fn_name := decode_utf16le bs |}.

Record AttrListEntry := {
  ale_type : Z;
  ale_name : option (list Z);
  ale_lowest_vcn : Z;
  mft_ref : Z
}.

Fixpoint attr_list_loop (fuel : nat) (value : list Z) (pos : Z) (out : list AttrListEntry)
  : res VfsError (list AttrListEntry) :=
  if pos + 24 <=? Z.of_nat (length value) then
    match fuel with
    | O => Panic
    | S fuel =>
        if MAX_ATTRS <=? Z.of_nat (length out) then Err IOError
        else
          let? t := ok_or (u32_at value pos) IOError in
          if t =? ATTR_END then Ok out
          else
            let? len := ok_or (u16_at value (pos + 4)) IOError in
            if (len <? 26) || (Z.of_nat (length value) <? pos + len) then Err IOError
            else
              let? name_len := index value (pos + 6) in
              let? name_off := index value (pos + 7) in
              let? lowest := ok_or (u64_at value (pos + 8)) IOError in
              let? mref := ok_or (u64_at value (pos + 16)) IOError in
              let? name := attr_name_at value pos len name_len name_off in
              attr_list_loop fuel value (pos + len)
                (out ++ [{| ale_type := t; ale_name := name; ale_lowest_vcn := lowest;
                            mft_ref := mref |}])
    end
  else Ok out.

Definition parse_attr_list (value : list Z) : res VfsError (list AttrListEntry) :=
  attr_list_loop 257 value 0 [].

(** A non-resident value is read into a buffer of the capped size, zeroed
    beforehand. *)
Definition read_attr_value (device : D) (boot : BootSector) (record : list Z) (attr : Attr)
  (cap : Z) : res VfsError (list Z) :=
  if resident attr then Ok (value attr)
  else
    let? pairs := ok_or (get_range record (map_off attr) (map_end attr - map_off attr)) IOError in
    let? runs := decode_mapping_pairs pairs (lowest_vcn attr) in
    let want := Z.min (real_size attr) cap in
    let? got := read_file_at device boot runs 0 want in
    Ok (got ++ replicate (Z.to_nat want - length got) 0).
End Driver.
