(* ===== verification/NtfsFacts.v ===== *)
(** * Correctness of the NTFS readers

    Mapping pairs, extent lookup and extent reads against their reference
    meaning, the guarantees of an accepted boot sector, panic-freedom of every
    parser on arbitrary disk bytes, and the behaviour of the update-sequence
    fixup. *)

From S2P Require Import Prelude Errors Bits BlockDev Ntfs.
Import Errors.Vfs.
Local Open Scope Z_scope.

(** ** Readers in range *)

Lemma slice_Ok {E} d a b : 0 <= a <= b -> b <= Z.of_nat (length d) ->
  exists s, slice (E := E) d a b = Ok s /\ Z.of_nat (length s) = b - a
  /\ s = take (Z.to_nat (b - a)) (drop (Z.to_nat a) d).
Proof.
  intros Ha Hb. unfold slice.
  destruct (get_range_is_Some d a (b - a)) as [s Hs]; [lia..|]. rewrite Hs.
  exists s. split; [done|]. split; [by eapply get_range_length|].
  unfold get_range in Hs. by case_match; simplify_eq.
Qed.

Lemma slice_bytes {E} d a b s : bytes_ok d -> slice (E := E) d a b = Ok s -> bytes_ok s.
Proof.
  unfold slice. intros Hd Hs. destruct (get_range d a (b - a)) eqn:G; [|done].
  simplify_eq. by eapply get_range_bytes_ok.
Qed.

Lemma u_at_bound (d : list Z) o (n : Z) v : bytes_ok d ->
  option_map le_val (get_range d o n) = Some v -> 0 <= n -> 0 <= v < 256 ^ n.
Proof.
  intros Hd Hv Hn. destruct (get_range d o n) as [s|] eqn:G; [|done]. simpl in Hv. simplify_eq.
  pose proof (le_val_bound s (get_range_bytes_ok _ _ _ _ Hd G)) as Hb.
  by rewrite (get_range_length _ _ _ _ G) in Hb.
Qed.

Lemma u16_at_bound d o v : bytes_ok d -> u16_at d o = Some v -> 0 <= v < 65536.
Proof. intros Hd Hv. by apply (u_at_bound d o 2 v Hd Hv). Qed.

Lemma u32_at_bound d o v : bytes_ok d -> u32_at d o = Some v -> 0 <= v < 4294967296.
Proof. intros Hd Hv. by apply (u_at_bound d o 4 v Hd Hv). Qed.

(** ** Mapping pairs *)

(** Extents that follow each other from virtual cluster [v] on. *)
Fixpoint runs_from (v : Z) (l : list Run) : Prop :=
  match l with
  | [] => True
  | r :: l => vcn r = v /\ 1 <= len r /\ runs_from (v + len r) l
  end.

Fixpoint runs_end (v : Z) (l : list Run) : Z :=
  match l with [] => v | r :: l => runs_end (v + len r) l end.

Lemma runs_from_app v l r :
  runs_from v l -> vcn r = runs_end v l -> 1 <= len r -> runs_from v (l ++ [r]).
Proof.
  revert v. induction l as [|x l IH]; intros v; simpl; [naive_solver|].
  intros (Hv & Hl & Hr) He Hlen. split_and!; [done..|]. by apply IH.
Qed.

Lemma runs_end_app v l r : runs_end v (l ++ [r]) = runs_end v l + len r.
Proof. revert v. induction l as [|x l IH]; intros v; simpl; [lia|]. apply IH. Qed.

Lemma read_le_Ok data pos n : bytes_ok data -> 0 <= pos -> 0 <= n ->
  pos + n <= Z.of_nat (length data) ->
  exists v, read_le data pos n = Ok v /\ 0 <= v < 256 ^ n.
Proof.
  intros Hd Hp Hn Hl. unfold read_le.
  destruct (slice_Ok (E := VfsError) data pos (pos + n)) as (s & Hs & Hlen & _); [lia..|].
  rewrite Hs. cbn [res_bind]. eexists. split; [reflexivity|].
  pose proof (le_val_bound s (slice_bytes _ _ _ _ Hd Hs)) as Hb. rewrite Hlen in Hb.
  by replace (pos + n - pos) with n in Hb by lia.
Qed.

Lemma nibble_range hdr : 0 <= hdr <= 255 -> 0 <= Z.land hdr 15 <= 15 /\ 0 <= Z.shiftr hdr 4 <= 15.
Proof.
  intros Hh. pose proof (Z.land_ones hdr 4 ltac:(lia)) as Hl.
  change (Z.ones 4) with 15 in Hl. change (2 ^ 4) with 16 in Hl. rewrite Hl.
  rewrite Z.shiftr_div_pow2 by lia. change (2 ^ 4) with 16. mlia.
Qed.

Lemma decode_pair_ok data base hdr v lc pos :
  bytes_ok data -> 0 <= hdr <= 255 -> 0 <= pos -> 0 <= v <= i64_max ->
  let r := decode_pair data base hdr v lc pos in
  no_panic r /\ forall run v' lc' pos', r = Ok (run, v', lc', pos') ->
    vcn run = base + v /\ 1 <= len run /\ v' = v + len run /\ v' <= i64_max
    /\ pos < pos' <= Z.of_nat (length data).
Proof.
  intros Hd Hh Hp Hv. unfold decode_pair.
  destruct (nibble_range hdr Hh) as [Hll Hol].
  set (ll := Z.land hdr 15) in *. set (ol := Z.shiftr hdr 4) in *.
  destruct ((ll =? 0) || _ || _) eqn:E1; [done|].
  destruct (Z.of_nat (length data) <? pos + ll + ol) eqn:E2; [done|].
  destruct (read_le_Ok data pos ll) as (l & -> & Hl); [done|lia..|]. cbn [res_bind].
  destruct ((l =? 0) || _) eqn:E3; [done|].
  assert (no_panic (if ol =? 0 then Ok lc else
    let? raw := read_le data (pos + ll) ol in
    ok_or (checked_i64 (lc + to_signed (8 * ol) raw)) IOError)) as Hnp.
  { destruct (ol =? 0); [done|].
    destruct (read_le_Ok data (pos + ll) ol) as (raw & -> & _); [done|lia..|].
    cbn [res_bind]. apply no_panic_ok_or. }
  destruct (if ol =? 0 then Ok lc else _) as [lc1|e|]; [|done|by exfalso; apply Hnp].
  cbn [res_bind]. unfold checked_add_u64.
  destruct (base + v <=? u64_max) eqn:E4; cbn [ok_or res_bind]; [|done].
  unfold checked_i64. destruct ((i64_min <=? v + l) && _) eqn:E5; cbn [ok_or res_bind]; [|done].
  split; [done|]. intros run v' lc' pos' [= <- <- <- <-]. simpl. lia.
Qed.

Lemma decode_loop_ok fuel data base runs v lc pos :
  bytes_ok data -> 0 <= pos <= Z.of_nat (length data) ->
  Z.of_nat (length data) - pos + 1 <= Z.of_nat fuel -> 0 <= v <= i64_max ->
  runs_from base runs -> runs_end base runs = base + v ->
  let r := decode_loop fuel data base runs v lc pos in
  no_panic r /\ forall out, r = Ok out -> runs_from base out.
Proof.
  intros Hd. revert runs v lc pos.
  induction fuel as [|fuel IH]; intros runs v lc pos Hp Hf Hv Hr He; [lia|]. cbn [decode_loop].
  destruct (MAX_RUNS <=? _); [done|].
  destruct (get_byte data pos) as [hdr|] eqn:G; [|done].
  assert (0 <= hdr <= 255 /\ pos < Z.of_nat (length data)) as [Hh Hpl].
  { unfold get_byte in G. destruct (0 <=? pos); [|done]. split.
    - unfold bytes_ok in Hd. rewrite Forall_lookup in Hd. by apply (Hd _ _ G).
    - apply lookup_lt_Some in G. lia. }
  destruct (hdr =? 0); [split; [done|by intros out [= <-]]|].
  destruct (decode_pair_ok data base hdr v lc (pos + 1) Hd Hh ltac:(lia) Hv) as [Hnp Hok].
  destruct (decode_pair data base hdr v lc (pos + 1)) as [[[[run v'] lc'] pos']|e|];
    cbn [res_bind]; [|done|by exfalso; apply Hnp].
  destruct (Hok _ _ _ _ eq_refl) as (H1 & H2 & -> & H4 & H5).
  apply IH; [lia|lia|lia| |].
  - apply runs_from_app; [done|lia|done].
  - rewrite runs_end_app. lia.
Qed.

(** ** Reference encoding *)

(** A mapping pair: field widths, run length, LCN delta ([p_ol = 0]: sparse). *)
Record Pair := { p_ll : nat; p_ol : nat; p_len : Z; p_delta : Z }.

Definition encode_pair (p : Pair) : list Z :=
  (16 * Z.of_nat (p_ol p) + Z.of_nat (p_ll p)) :: le_bytes (p_ll p) (p_len p)
  ++ le_bytes (p_ol p) (p_delta p).

(** The extents the pairs denote, from relative cluster [v] and LCN [lc]. *)
Fixpoint pairs_runs (base v lc : Z) (ps : list Pair) : list Run :=
  match ps with
  | [] => []
  | p :: ps =>
      let lc' := if (p_ol p =? 0)%nat then lc else lc + p_delta p in
      mkRun (base + v) (if (p_ol p =? 0)%nat then -1 else lc') (p_len p)
      :: pairs_runs base (v + p_len p) lc' ps
  end.

Definition fits_signed (n : nat) (d : Z) : Prop :=
  - 2 ^ (8 * Z.of_nat n - 1) <= d < 2 ^ (8 * Z.of_nat n - 1).

(** Pairs whose fields fit their widths and whose sums stay in range. *)
Fixpoint pairs_ok (base v lc : Z) (ps : list Pair) : Prop :=
  match ps with
  | [] => True
  | p :: ps =>
      let lc' := if (p_ol p =? 0)%nat then lc else lc + p_delta p in
      (1 <= p_ll p <= 8)%nat /\ (p_ol p <= 8)%nat
      /\ 1 <= p_len p < 256 ^ Z.of_nat (p_ll p)
      /\ ((p_ol p <> 0)%nat -> fits_signed (p_ol p) (p_delta p))
      /\ i64_min <= lc' <= i64_max /\ v + p_len p <= i64_max /\ base + v <= u64_max
      /\ pairs_ok base (v + p_len p) lc' ps
  end.

Lemma le_val_signed n d : (n <> 0)%nat -> fits_signed n d ->
  to_signed (8 * Z.of_nat n) (le_val (le_bytes n d)) = d.
Proof.
  intros Hn Hf. rewrite le_val_le_bytes.
  replace (256 ^ Z.of_nat n) with (2 ^ (8 * Z.of_nat n))
    by (rewrite Z.pow_mul_r by lia; done).
  by apply to_signed_small; [lia|].
Qed.

Lemma slice_at {E} pre bs post : slice (E := E) (pre ++ bs ++ post)
  (Z.of_nat (length pre)) (Z.of_nat (length pre) + Z.of_nat (length bs)) = Ok bs.
Proof.
  unfold slice. replace (_ + _ - _) with (Z.of_nat (length bs)) by lia.
  by rewrite get_range_app.
Qed.

Lemma read_le_at pre n z post pos : pos = Z.of_nat (length pre) ->
  read_le (pre ++ le_bytes n z ++ post) pos (Z.of_nat n) = Ok (le_val (le_bytes n z)).
Proof.
  intros ->. unfold read_le.
  pose proof (slice_at (E := VfsError) pre (le_bytes n z) post) as Hs.
  rewrite length_le_bytes in Hs. by rewrite Hs.
Qed.

Lemma header_nibbles ll ol : (ll <= 8)%nat ->
  Z.land (16 * Z.of_nat ol + Z.of_nat ll) 15 = Z.of_nat ll
  /\ Z.shiftr (16 * Z.of_nat ol + Z.of_nat ll) 4 = Z.of_nat ol.
Proof.
  intros Hll. set (hd := 16 * Z.of_nat ol + Z.of_nat ll). split.
  - pose proof (Z.land_ones hd 4 ltac:(lia)) as Hl. change (Z.ones 4) with 15 in Hl.
    change (2 ^ 4) with 16 in Hl. rewrite Hl. unfold hd. mlia.
  - rewrite Z.shiftr_div_pow2 by lia. change (2 ^ 4) with 16. unfold hd. mlia.
Qed.

Lemma decode_pair_encode pre p post base v lc :
  0 <= v -> pairs_ok base v lc [p] ->
  let lc' := if (p_ol p =? 0)%nat then lc else lc + p_delta p in
  decode_pair (pre ++ encode_pair p ++ post) base
    (16 * Z.of_nat (p_ol p) + Z.of_nat (p_ll p)) v lc (Z.of_nat (length pre) + 1)
  = Ok (mkRun (base + v) (if (p_ol p =? 0)%nat then -1 else lc') (p_len p), v + p_len p, lc',
        Z.of_nat (length pre) + Z.of_nat (length (encode_pair p))).
Proof.
  intros Hv (Hll & Hol & Hlen & Hdelta & Hlc & Hvl & Hbase & _) lc'.
  destruct p as [ll ol l d]; cbn [p_ll p_ol p_len p_delta] in *. unfold decode_pair.
  destruct (header_nibbles ll ol) as [-> ->]; [lia|]. unfold encode_pair.
  cbn [p_ll p_ol p_len p_delta]. set (hd := 16 * Z.of_nat ol + Z.of_nat ll).
  set (data := pre ++ (hd :: le_bytes ll l ++ le_bytes ol d) ++ post).
  assert (data = (pre ++ [hd]) ++ le_bytes ll l ++ le_bytes ol d ++ post
    /\ data = (pre ++ [hd] ++ le_bytes ll l) ++ le_bytes ol d ++ post) as [Hd1 Hd2]
    by (unfold data; rewrite <- !app_assoc; simpl; by rewrite <- !app_assoc).
  assert (length data = length pre + (1 + (ll + ol)) + length post)%nat as Hdl
    by (rewrite Hd1, !length_app, !length_le_bytes; simpl; lia).
  rewrite (proj2 (orb_false_iff _ _)), (proj2 (Z.ltb_ge _ _)) by (try split; lia).
  rewrite Hd1 at 1. rewrite read_le_at by (rewrite length_app; simpl; lia). cbn [res_bind].
  rewrite le_val_le_bytes, Z.mod_small by lia.
  rewrite (proj2 (orb_false_iff _ _)) by (split; lia).
  assert ((if Z.of_nat ol =? 0 then Ok lc else
    let? raw := read_le data (Z.of_nat (length pre) + 1 + Z.of_nat ll) (Z.of_nat ol) in
    ok_or (checked_i64 (lc + to_signed (8 * Z.of_nat ol) raw)) IOError) = Ok lc') as ->.
  { unfold lc'. destruct (ol =? 0)%nat eqn:E.
    - by rewrite (proj2 (Z.eqb_eq _ _)) by lia.
    - rewrite (proj2 (Z.eqb_neq _ _)) by lia. rewrite Hd2.
      rewrite read_le_at by (rewrite !length_app, length_le_bytes; simpl; lia). cbn [res_bind].
      rewrite le_val_signed by (try apply Hdelta; lia).
      unfold checked_i64. by rewrite (proj2 (andb_true_iff _ _)) by (split; lia). }
  cbn [res_bind]. unfold checked_add_u64, checked_i64. rewrite (proj2 (Z.leb_le _ _)) by lia.
  cbn [ok_or res_bind]. rewrite (proj2 (andb_true_iff _ _)) by (unfold i64_min in *; split; lia).
  cbn [ok_or res_bind]. do 2 f_equal.
  - do 2 f_equal. destruct (ol =? 0)%nat eqn:E, (Z.of_nat ol =? 0) eqn:E'; (done || lia).
  - cbn [length]. rewrite length_app, !length_le_bytes. lia.
Qed.

Lemma get_byte_at pre b post : get_byte (pre ++ b :: post) (Z.of_nat (length pre)) = Some b.
Proof.
  unfold get_byte. rewrite (proj2 (Z.leb_le _ _)), Nat2Z.id by lia.
  by rewrite lookup_app_r, Nat.sub_diag by lia.
Qed.

Lemma decode_loop_encode fuel ps : forall pre post base runs v lc,
  0 <= v -> pairs_ok base v lc ps -> (length ps < fuel)%nat ->
  Z.of_nat (length runs + length ps) < MAX_RUNS ->
  decode_loop fuel (pre ++ flat_map encode_pair ps ++ 0 :: post) base runs v lc
    (Z.of_nat (length pre))
  = Ok (runs ++ pairs_runs base v lc ps).
Proof.
  revert fuel. induction ps as [|p ps IH]; intros [|fuel] pre post base runs v lc Hv Hok Hf Hm;
    [simpl in Hf; lia| |simpl in Hf; lia|]; cbn [decode_loop];
    rewrite (proj2 (Z.leb_gt _ _)) by lia.
  - rewrite app_nil_r. simpl. by rewrite get_byte_at.
  - cbn [flat_map]. rewrite <- app_assoc. pose proof Hok as (Hll & _ & _ & _ & _ & _ & _ & Hrest).
    assert (pairs_ok base v lc [p]) as Hp1 by (simpl in Hok |- *; tauto).
    pose proof (decode_pair_encode pre p (flat_map encode_pair ps ++ 0 :: post) base v lc Hv Hp1) as HD.
    cbn zeta in HD. unfold encode_pair at 1. cbn [app]. rewrite get_byte_at.
    rewrite (proj2 (Z.eqb_neq _ _)) by lia. rewrite HD. cbn [res_bind].
    replace (Z.of_nat (length pre) + Z.of_nat (length (encode_pair p)))
      with (Z.of_nat (length (pre ++ encode_pair p))) by (rewrite length_app; lia).
    rewrite app_assoc. rewrite IH; [|destruct Hok as (_ & _ & ? & _); lia|done|simpl in Hf; lia
      |rewrite length_app; simpl in *; lia].
    by rewrite <- app_assoc.
Qed.

(** ** Extent lookup *)

Lemma runs_from_lower v l r : runs_from v l -> r ∈ l -> v <= vcn r /\ 1 <= len r.
Proof.
  revert v. induction l as [|x l IH]; intros v Hr Hin; [set_solver|].
  destruct Hr as (Hv & Hl & Hr). apply elem_of_cons in Hin as [->|Hin]; [lia|].
  destruct (IH _ Hr Hin). lia.
Qed.

Lemma runs_from_disjoint v l r1 r2 c : runs_from v l -> r1 ∈ l -> r2 ∈ l ->
  vcn r1 <= c < vcn r1 + len r1 -> vcn r2 <= c < vcn r2 + len r2 -> r1 = r2.
Proof.
  revert v. induction l as [|x l IH]; intros v Hr H1 H2 Hc1 Hc2; [set_solver|].
  destruct Hr as (Hv & Hl & Hr).
  apply elem_of_cons in H1 as [->|H1]; apply elem_of_cons in H2 as [->|H2]; [done| | |eauto].
  - destruct (runs_from_lower _ _ _ Hr H2). lia.
  - destruct (runs_from_lower _ _ _ Hr H1). lia.
Qed.

Lemma find_cons r l offset csize :
  find (r :: l) offset csize =
  (if vcn r <=? offset / csize then
     match partition_point (fun r => vcn r <=? offset / csize) l with
     | O => if offset / csize <? sat_add_u64 (vcn r) (len r) then Some r else None
     | S _ => find l offset csize
     end
   else None).
Proof.
  unfold find. simpl. destruct (vcn r <=? offset / csize); [|done].
  by destruct (partition_point _ l).
Qed.

(** The lookup finds the extent that holds the byte, and only that one. *)
Lemma find_iff v l offset csize r :
  runs_from v l -> 0 <= offset / csize < u64_max ->
  find l offset csize = Some r <->
  r ∈ l /\ vcn r <= offset / csize < vcn r + len r.
Proof.
  intros Hr Hc. revert v Hr. induction l as [|x l IH]; intros v Hr.
  { split; [done|]. set_solver. }
  destruct Hr as (Hv & Hl & Hr). rewrite find_cons, elem_of_cons.
  destruct (vcn x <=? offset / csize) eqn:E1.
  - destruct l as [|y l].
    + simpl. unfold sat_add_u64. destruct (offset / csize <? _) eqn:E2.
      * split; [intros [= <-]; split; [by left|lia]|]. intros [[->|?] _]; [done|set_solver].
      * split; [done|]. intros [[->|?] ?]; [lia|set_solver].
    + pose proof Hr as (Hvy & _ & _). specialize (IH _ Hr). cbn [partition_point].
      destruct (vcn y <=? offset / csize) eqn:E3.
      * rewrite IH. split; [intros [? ?]; split; [by right|done]|].
        intros [[->|?] ?]; [lia|done].
      * unfold sat_add_u64. rewrite (proj2 (Z.ltb_lt _ _)) by lia.
        split; [intros [= <-]; split; [by left|lia]|].
        intros [[->|Hin] ?]; [done|]. destruct (runs_from_lower _ _ _ Hr Hin). lia.
  - split; [done|]. intros [[->|Hin] ?]; [lia|].
    destruct (runs_from_lower _ _ _ Hr Hin). lia.
Qed.

(** ** Extent reads *)

Definition boot_ok (b : BootSector) : Prop :=
  bytes_per_sector b = 512 /\ 1 <= sectors_per_cluster b <= 128.

Definition csize_of (b : BootSector) : Z := 512 * sectors_per_cluster b.

Section Reads.
Context `{Profile} `{BlockDevice D}.

(** Byte [off] of the file the extents describe: zero in a hole, the device
    byte in an allocated extent, nothing outside. *)
Definition extent_byte (dev : D) (b : BootSector) (runs : list Run) (off : Z) : option Z :=
  match List.find (fun r => (vcn r <=? off / csize_of b) && (off / csize_of b <? vcn r + len r)) runs with
  | None => None
  | Some r => Some (if lcn r <? 0 then 0
                    else disk_byte dev (lcn r * csize_of b + (off - vcn r * csize_of b)))
  end.

Lemma extent_byte_in dev b v runs r off :
  runs_from v runs -> r ∈ runs -> vcn r <= off / csize_of b < vcn r + len r ->
  extent_byte dev b runs off
  = Some (if lcn r <? 0 then 0
          else disk_byte dev (lcn r * csize_of b + (off - vcn r * csize_of b))).
Proof.
  intros Hr Hin Hc. unfold extent_byte. destruct (List.find _ runs) as [r'|] eqn:E.
  - apply List.find_some in E as [Hin' Hc']. apply list_elem_of_In in Hin'.
    by rewrite (runs_from_disjoint v runs r' r (off / csize_of b)) by (done || lia).
  - apply list_elem_of_In in Hin. pose proof (List.find_none _ _ E _ Hin) as Hn. simpl in Hn. lia.
Qed.

Lemma extent_byte_out dev b v runs off :
  runs_from v runs -> 0 <= off / csize_of b < u64_max ->
  find runs off (csize_of b) = None -> extent_byte dev b runs off = None.
Proof.
  intros Hr Hc Hf. unfold extent_byte. destruct (List.find _ runs) as [r|] eqn:E; [|done].
  apply List.find_some in E as [Hin Hcr]. apply list_elem_of_In in Hin.
  assert (find runs off (csize_of b) = Some r); [|congruence].
  eapply find_iff; [done|done|]. split; [done|lia].
Qed.

Lemma to_signed_id z : 0 <= z < 2 ^ 63 -> to_signed 64 z = z.
Proof.
  intros Hz. rewrite <- (Z.mod_small z (2 ^ 64)) at 1 by lia. apply to_signed_small; lia.
Qed.

Lemma run_lba_ok b r in_run lba : boot_ok b -> 0 <= in_run <= u64_max ->
  run_lba b r in_run = Some lba ->
  lba = lcn r * sectors_per_cluster b + in_run / 512 /\ 0 <= lba.
Proof.
  intros [Hb Hs] Hin. unfold run_lba, checked_i64. rewrite Hb.
  rewrite to_signed_id by (unfold u64_max in *; mlia).
  destruct (_ && _); [|done]. destruct (_ && _); [|done].
  destruct (0 <=? _) eqn:E; [|done]. intros [= <-]. lia.
Qed.

(** What a chunk read at [pos] with [left] bytes to go has to return. *)
Definition chunk_post (dev : D) (b : BootSector) (runs : list Run) (pos left : Z)
  (c : option (list Z)) : Prop :=
  match c with
  | None => extent_byte dev b runs pos = None
  | Some bs => 1 <= Z.of_nat (length bs) <= left
      /\ forall j, 0 <= j < Z.of_nat (length bs) ->
         extent_byte dev b runs (pos + j) = Some (nth (Z.to_nat j) bs 0)
  end.

Lemma cluster_of_range b v n pos : 1 <= sectors_per_cluster b ->
  v <= pos / csize_of b < v + n <-> v * csize_of b <= pos < (v + n) * csize_of b.
Proof.
  intros Hs. unfold csize_of. set (c := 512 * sectors_per_cluster b).
  assert (0 < c) by (unfold c; lia).
  pose proof (Z.div_mod pos c ltac:(lia)). pose proof (Z.mod_pos_bound pos c ltac:(lia)).
  split; intros; split; nia.
Qed.

Lemma nth_slice (tmp : list Z) off want j : 0 <= off -> 0 <= j < want ->
  off + want <= Z.of_nat (length tmp) ->
  nth (Z.to_nat j) (take (Z.to_nat want) (drop (Z.to_nat off) tmp)) 0
  = nth (Z.to_nat (off + j)) tmp 0.
Proof.
  intros Ho Hj Hl. rewrite !nth_lookup. f_equal.
  rewrite lookup_take_lt, lookup_drop by lia. f_equal. lia.
Qed.

(** The device part of a chunk: [want] bytes of run [r] from [in_run] on. *)
Lemma read_extent_ok dev b r in_run want lba tmp bs :
  boot_ok b -> 0 <= in_run -> 1 <= want ->
  lba = lcn r * sectors_per_cluster b + in_run / 512 -> 0 <= lba ->
  let sector_off := in_run mod 512 in
  let secs := (sector_off + want + 512 - 1) / 512 in
  read_sectors dev lba secs = Ok tmp ->
  slice (E := VfsError) tmp sector_off (sector_off + want) = Ok bs ->
  Z.of_nat (length bs) = want
  /\ forall j, 0 <= j < want ->
     nth (Z.to_nat j) bs 0 = disk_byte dev (lcn r * csize_of b + (in_run + j)).
Proof.
  intros [Hb Hs] Hin Hw Hlba Hl0 so secs Hread Hsl.
  assert (0 <= so < 512 /\ so + want <= 512 * secs) as [Hso Hsecs] by (unfold so, secs; mlia).
  apply read_sectors_ok in Hread. pose proof (sectors_length dev lba secs ltac:(lia)) as Hlen.
  rewrite <- Hread in Hlen.
  destruct (slice_Ok (E := VfsError) tmp so (so + want)) as (s & Hs' & Hsl' & Hse); [lia..|].
  rewrite Hsl in Hs'. injection Hs' as <-.
  replace (so + want - so) with want in * by lia. split; [done|]. intros j Hj.
  rewrite Hse, nth_slice by lia. rewrite Hread, sectors_nth by lia. f_equal.
  unfold csize_of, so. subst lba. mlia.
Qed.

Lemma read_chunk_ok dev b v runs pos left :
  boot_ok b -> runs_from v runs -> 0 <= v -> 0 <= pos -> 1 <= left -> pos + left <= u64_max ->
  let r := read_chunk dev b runs (csize_of b) pos left in
  no_panic r /\ forall c, r = Ok c -> chunk_post dev b runs pos left c.
Proof.
  intros Hboot Hr Hv Hp Hleft Hu. pose proof Hboot as [Hb Hs]. unfold read_chunk.
  assert (0 <= pos / csize_of b < u64_max) as Hpc.
  { split; [apply Z.div_pos; unfold csize_of; lia|].
    apply Z.div_lt_upper_bound; unfold csize_of; nia. }
  destruct (find runs pos (csize_of b)) as [r|] eqn:Ef.
  2: { split; [done|]. intros c [= <-]. by eapply extent_byte_out. }
  apply (find_iff v) in Ef as [Hin Hc]; [|done..].
  destruct (runs_from_lower _ _ _ Hr Hin) as [Hvr Hlr].
  pose proof (proj1 (cluster_of_range b (vcn r) (len r) pos ltac:(lia)) Hc) as Hrange.
  assert (0 < csize_of b) as Hcs by (unfold csize_of; lia).
  unfold checked_mul_u64, checked_sub_u64. destruct (vcn r * csize_of b <=? u64_max) eqn:E1;
    cbn [ok_or res_bind]; [|done]. rewrite (proj2 (Z.leb_le (vcn r * csize_of b) pos)) by lia.
  cbn [ok_or res_bind]. destruct (len r * csize_of b <=? u64_max) eqn:E2;
    cbn [ok_or res_bind]; [|done]. set (in_run := pos - vcn r * csize_of b). unfold sat_sub_u64.
  set (want := Z.min (Z.min _ left) MAX_READ_BYTES).
  assert (1 <= want <= left /\ want <= len r * csize_of b - in_run) as [Hw1 Hw2]
    by (unfold want, in_run, MAX_READ_BYTES; lia).
  assert (forall j, 0 <= j < want -> vcn r <= (pos + j) / csize_of b < vcn r + len r) as Hcover.
  { intros j Hj. apply cluster_of_range; [lia|]. unfold in_run in Hw2. lia. }
  destruct (lcn r <? 0) eqn:El.
  { split; [done|]. intros c [= <-]. split; [rewrite length_replicate; lia|].
    intros j Hj. rewrite length_replicate in Hj. rewrite (extent_byte_in _ _ v _ r) by (done || apply Hcover; lia).
    rewrite El. by rewrite nth_lookup, lookup_replicate_2 by lia. }
  destruct (run_lba b r in_run) as [lba|] eqn:Elba; cbn [ok_or res_bind]; [|done].
  apply run_lba_ok in Elba as [Hlba Hlba0]; [|done|unfold in_run; lia]. rewrite Hb.
  destruct (_ || _) eqn:Eb; [done|].
  set (secs := (in_run mod 512 + want + 512 - 1) / 512).
  pose proof (read_sectors_no_panic dev lba secs) as Hnp.
  destruct (read_sectors dev lba secs) as [tmp|e|] eqn:Et; cbn [res_bind]; [|done|done].
  destruct (slice_Ok (E := VfsError) tmp (in_run mod 512) (in_run mod 512 + want)) as (bs & Hbs & _).
  { pose proof (Z.mod_pos_bound in_run 512). lia. }
  { apply read_sectors_ok in Et as ->. rewrite sectors_length; unfold secs; mlia. }
  rewrite Hbs. cbn [res_bind]. split; [done|]. intros c [= <-].
  destruct (read_extent_ok dev b r in_run want lba tmp bs) as [Hbl Hbn];
    [done|unfold in_run; lia|lia|done|done|exact Et|exact Hbs|].
  split; [lia|]. intros j Hj.
  rewrite (extent_byte_in _ _ v _ r) by (done || apply Hcover; lia). rewrite El, Hbn by lia.
  do 2 f_equal. unfold in_run. lia.
Qed.

(** Result of a read of [n] bytes at [off]: the bytes of the file, as many as
    asked unless the extents end. *)
Definition read_post (dev : D) (b : BootSector) (runs : list Run) (off n : Z) (got : list Z) : Prop :=
  Z.of_nat (length got) <= n
  /\ (forall i, 0 <= i < Z.of_nat (length got) ->
      extent_byte dev b runs (off + i) = Some (nth (Z.to_nat i) got 0))
  /\ (Z.of_nat (length got) < n -> extent_byte dev b runs (off + Z.of_nat (length got)) = None).

Lemma read_loop_ok dev b v runs off n fuel done :
  boot_ok b -> runs_from v runs -> 0 <= v -> 0 <= off -> off + n <= u64_max ->
  Z.of_nat (length done) <= n -> n <= Z.of_nat (length done) + Z.of_nat fuel ->
  (forall i, 0 <= i < Z.of_nat (length done) ->
     extent_byte dev b runs (off + i) = Some (nth (Z.to_nat i) done 0)) ->
  let r := read_loop fuel dev b runs (csize_of b) n (off + Z.of_nat (length done)) done in
  no_panic r /\ forall got, r = Ok got -> read_post dev b runs off n got.
Proof.
  intros Hboot Hr Hv Hoff Hu. revert done.
  assert (forall done, n <= Z.of_nat (length done) <= n ->
    (forall i, 0 <= i < Z.of_nat (length done) ->
       extent_byte dev b runs (off + i) = Some (nth (Z.to_nat i) done 0)) ->
    read_post dev b runs off n done) as Hfull.
  { intros done Hn Hok. unfold read_post. split_and!; [lia|done|intros; lia]. }
  induction fuel as [|fuel IH]; intros done Hd Hf Hok; cbn [read_loop].
  { rewrite (proj2 (Z.ltb_ge _ _)) by lia. split; [done|]. intros got [= <-]. apply Hfull; [lia|done]. }
  destruct (Z.of_nat (length done) <? n) eqn:E.
  2: { split; [done|]. intros got [= <-]. apply Hfull; [lia|done]. }
  destruct (read_chunk_ok dev b v runs (off + Z.of_nat (length done)) (n - Z.of_nat (length done)))
    as [Hnp Hc]; [done|done|done|lia|lia|lia|].
  destruct (read_chunk _ _ _ _ _ _) as [[bs|]|e|]; cbn [res_bind]; [| |done|done].
  - destruct (Hc _ eq_refl) as [Hbl Hbs]. unfold checked_add_u64.
    rewrite (proj2 (Z.leb_le _ _)) by lia. cbn [ok_or res_bind].
    specialize (IH (done ++ bs)). rewrite length_app, Nat2Z.inj_add, Z.add_assoc in IH.
    apply IH; [lia|lia|]. intros i Hi.
    destruct (decide (i < Z.of_nat (length done))) as [Hlt|Hge].
    + rewrite app_nth1 by lia. apply Hok. lia.
    + rewrite app_nth2 by lia. specialize (Hbs (i - Z.of_nat (length done)) ltac:(lia)).
      replace (off + Z.of_nat (length done) + (i - Z.of_nat (length done))) with (off + i) in Hbs by lia.
      rewrite Hbs. do 2 f_equal. lia.
  - split; [done|]. intros got [= <-]. unfold read_post. split_and!; [lia|done|].
    intros _. exact (Hc _ eq_refl).
Qed.

Lemma cluster_size_ok b : boot_ok b -> cluster_size b = Ok (csize_of b).
Proof.
  intros [Hb Hs]. unfold cluster_size, u64_mul. rewrite Hb. apply u64_op_Ok. unfold csize_of, u64_max. lia.
Qed.

Lemma read_file_at_ok dev b v runs off n :
  boot_ok b -> runs_from v runs -> 0 <= v -> 0 <= off -> 0 <= n -> off + n <= u64_max ->
  let r := read_file_at dev b runs off n in
  no_panic r /\ forall got, r = Ok got -> read_post dev b runs off n got.
Proof.
  intros Hboot Hr Hv Hoff Hn Hu. unfold read_file_at. rewrite cluster_size_ok by done.
  cbn [res_bind].
  pose proof (read_loop_ok dev b v runs off n (Z.to_nat n) [] Hboot Hr Hv Hoff Hu) as Hl.
  simpl in Hl. rewrite Z.add_0_r in Hl. apply Hl; [lia|lia|]. intros i Hi. lia.
Qed.
Lemma runs_from_cover v l r c : runs_from v l -> r ∈ l -> v <= c < vcn r + len r ->
  exists r', r' ∈ l /\ vcn r' <= c < vcn r' + len r'.
Proof.
  revert v. induction l as [|x l IH]; intros v Hr Hin Hc; [set_solver|].
  destruct Hr as (Hv & Hl & Hr). destruct (decide (c < vcn x + len x)) as [Hlt|Hge].
  { exists x. split; [set_solver|lia]. }
  apply elem_of_cons in Hin as [->|Hin]; [lia|].
  destruct (IH _ Hr Hin) as (r' & Hin' & Hc'); [lia|]. exists r'. split; [set_solver|lia].
Qed.

(** Once the extents have ended they have ended for good. *)
Lemma extent_byte_ended dev b v runs x y : 1 <= sectors_per_cluster b ->
  runs_from v runs -> v <= x / csize_of b -> x <= y ->
  extent_byte dev b runs x = None -> extent_byte dev b runs y = None.
Proof.
  intros Hs Hr Hv Hxy. unfold extent_byte. destruct (List.find _ runs) as [|] eqn:Ex; [done|].
  intros _. destruct (List.find _ runs) as [r|] eqn:Ey in |- *; [exfalso|done].
  apply List.find_some in Ey as [Hin Hc]. apply list_elem_of_In in Hin.
  assert (x / csize_of b <= y / csize_of b) by (apply Z.div_le_mono; unfold csize_of; lia).
  destruct (runs_from_cover v runs r (x / csize_of b)) as (r' & Hin' & Hc'); [done|done|lia|].
  pose proof (List.find_none _ _ Ex r' (proj1 (list_elem_of_In _ _) Hin')).
  simpl in *. lia.
Qed.

(** The device serves every read inside the volume, and the extents lie in it. *)
Definition serves (dev : D) (b : BootSector) : Prop :=
  forall lba count, 0 <= lba -> 1 <= count -> lba + count <= total_sectors b ->
  exists tmp, read_sectors dev lba count = Ok tmp.

Definition run_fits (b : BootSector) (r : Run) : Prop :=
  (vcn r + len r) * csize_of b <= u64_max
  /\ (0 <= lcn r -> (lcn r + len r) * sectors_per_cluster b <= total_sectors b).

Lemma run_lba_succeeds b r in_run :
  boot_ok b -> 0 <= lcn r -> 1 <= len r -> 0 <= in_run < len r * csize_of b ->
  (lcn r + len r) * sectors_per_cluster b <= i64_max ->
  run_lba b r in_run = Some (lcn r * sectors_per_cluster b + in_run / 512).
Proof.
  intros [Hb Hs] Hl Hn Hin Hfit. unfold run_lba, checked_i64. rewrite Hb.
  assert (0 <= in_run / 512 < len r * sectors_per_cluster b) as Hq.
  { split; [apply Z.div_pos; lia|]. apply Z.div_lt_upper_bound; [lia|]. unfold csize_of in Hin. lia. }
  rewrite to_signed_id by (unfold i64_max in Hfit; nia).
  rewrite (proj2 (andb_true_iff _ _)) by (unfold i64_min, i64_max in *; nia).
  rewrite (proj2 (andb_true_iff _ _)) by (unfold i64_min, i64_max in *; nia).
  by rewrite (proj2 (Z.leb_le _ _)) by nia.
Qed.

Lemma read_chunk_succeeds dev b v runs pos left :
  boot_ok b -> runs_from v runs -> 0 <= v -> 0 <= pos -> 1 <= left -> pos + left <= u64_max ->
  serves dev b -> total_sectors b <= i64_max -> Forall (run_fits b) runs ->
  exists c, read_chunk dev b runs (csize_of b) pos left = Ok c.
Proof.
  intros Hboot Hr Hv Hp Hleft Hu Hserve Htot Hfit. pose proof Hboot as [Hb Hs].
  destruct (read_chunk_ok dev b v runs pos left Hboot Hr Hv Hp Hleft Hu) as [Hnp _].
  unfold read_chunk in *. assert (0 < csize_of b) as Hcs by (unfold csize_of; lia).
  destruct (find runs pos (csize_of b)) as [r|] eqn:Ef; [|by eexists].
  apply (find_iff v) in Ef as [Hin Hc]; [|done|]; cycle 1.
  { split; [apply Z.div_pos; lia|]. apply Z.div_lt_upper_bound; unfold csize_of in *; nia. }
  destruct (runs_from_lower _ _ _ Hr Hin) as [Hvr Hlr].
  rewrite Forall_forall in Hfit. destruct (Hfit r Hin) as [Hfb Hfd].
  pose proof (proj1 (cluster_of_range b (vcn r) (len r) pos ltac:(lia)) Hc) as Hrange.
  unfold checked_mul_u64, checked_sub_u64 in *.
  rewrite (proj2 (Z.leb_le (vcn r * csize_of b) u64_max)) in * by nia. cbn [ok_or res_bind] in *.
  rewrite (proj2 (Z.leb_le (vcn r * csize_of b) pos)) in * by lia. cbn [ok_or res_bind] in *.
  rewrite (proj2 (Z.leb_le (len r * csize_of b) u64_max)) in * by nia. cbn [ok_or res_bind] in *.
  destruct (lcn r <? 0) eqn:El; [by eexists|].
  set (in_run := pos - vcn r * csize_of b) in *. unfold sat_sub_u64 in *.
  set (want := Z.min (Z.min _ left) MAX_READ_BYTES) in *.
  assert (1 <= want <= len r * csize_of b - in_run) as Hw
    by (unfold want, in_run, MAX_READ_BYTES; lia).
  rewrite run_lba_succeeds in * by (done || unfold in_run; lia). cbn [ok_or res_bind] in *.
  rewrite Hb in *. set (secs := (in_run mod 512 + want + 512 - 1) / 512) in *.
  assert (1 <= secs /\ in_run / 512 + secs <= len r * sectors_per_cluster b) as [Hs1 Hs2]
    by (unfold secs, csize_of in *; mlia).
  specialize (Hfd ltac:(lia)). assert (0 <= in_run / 512) by (apply Z.div_pos; unfold in_run; lia).
  set (lba := lcn r * sectors_per_cluster b + in_run / 512) in *.
  assert (0 <= lba /\ lba + secs <= total_sectors b) as [Hl0 Hl1] by (unfold lba; nia).
  replace ((total_sectors b <=? lba) || _) with false in * by (symmetry; lia).
  destruct (Hserve lba secs Hl0 Hs1 Hl1) as [tmp Ht]. rewrite Ht in *. cbn [res_bind] in *.
  destruct (slice tmp _ _) as [bs|e|] eqn:Hsl; [by eexists| |done].
  unfold slice in Hsl. by destruct (get_range _ _ _).
Qed.

Lemma read_loop_succeeds dev b v runs n fuel pos done :
  boot_ok b -> runs_from v runs -> 0 <= v -> 0 <= pos ->
  pos + n - Z.of_nat (length done) <= u64_max -> n <= Z.of_nat (length done) + Z.of_nat fuel ->
  serves dev b -> total_sectors b <= i64_max -> Forall (run_fits b) runs ->
  exists got, read_loop fuel dev b runs (csize_of b) n pos done = Ok got.
Proof.
  intros Hboot Hr Hv Hp Hu Hf Hs Ht Hfit. revert pos done Hp Hu Hf.
  induction fuel as [|fuel IH]; intros pos done Hp Hu Hf; cbn [read_loop].
  { rewrite (proj2 (Z.ltb_ge _ _)) by lia. by eexists. }
  destruct (Z.of_nat (length done) <? n) eqn:E; [|by eexists].
  destruct (read_chunk_succeeds dev b v runs pos (n - Z.of_nat (length done)))
    as [c Hc]; [done|done|done|lia|lia|lia|done|done|done|].
  destruct (read_chunk_ok dev b v runs pos (n - Z.of_nat (length done)))
    as [_ Hpost]; [done|done|done|lia|lia|lia|].
  specialize (Hpost c Hc). rewrite Hc. cbn [res_bind]. destruct c as [bs|]; [|by eexists].
  destruct Hpost as [Hbl _]. unfold checked_add_u64. rewrite (proj2 (Z.leb_le _ _)) by lia.
  cbn [ok_or res_bind]. apply IH; rewrite ?length_app; lia.
Qed.
End Reads.

(** ** The boot sector *)

(** Guarantees of an accepted boot sector, on a device of [count] sectors. *)
Record boot_sound (count : Z) (b : BootSector) : Prop := {
  bs_geometry : boot_ok b;
  bs_spc : exists k, 0 <= k /\ sectors_per_cluster b = 2 ^ k;
  bs_total : 0 < total_sectors b <= count;
  bs_mft : 0 <= mft_lcn b /\ mft_lcn b * sectors_per_cluster b < total_sectors b;
  bs_record : 512 <= record_size b <= 65536 /\ exists k, 0 <= k /\ record_size b = 2 ^ k;
  bs_index : 512 <= index_size b <= 65536 /\ exists k, 0 <= k /\ index_size b = 2 ^ k;
  bs_max : 0 < max_records b
    /\ max_records b * record_size b <= Z.min (total_sectors b * 512) u64_max
}.

Lemma bad_unit_false sz bps : bad_unit sz bps = false ->
  512 <= sz <= 65536 /\ exists k, 0 <= k /\ sz = 2 ^ k.
Proof.
  unfold bad_unit, BYTES_PER_SECTOR. intros Hb.
  repeat (apply orb_false_iff in Hb as [Hb ?]). split; [lia|].
  by apply power_of_two_pow, negb_false_iff.
Qed.

Lemma unit_size_no_panic v c : no_panic (unit_size v c).
Proof.
  unfold unit_size. destruct (0 <? _); [apply no_panic_ok_or|].
  destruct (_ <? 0); [|done]. by destruct (16 <? _).
Qed.

Section Boot.
Context `{Profile} `{BlockDevice D}.

Lemma sector0_ok (dev : D) s : read_sectors dev 0 1 = Ok s -> length s = 512%nat /\ bytes_ok s.
Proof.
  intros ->%read_sectors_ok. split; [|apply sectors_bytes_ok].
  pose proof (sectors_length dev 0 1). lia.
Qed.

Lemma slice_bind {B} (s : list Z) a c (k : list Z -> res VfsError B) (Q : res VfsError B -> Prop) :
  bytes_ok s -> 0 <= a <= c -> c <= Z.of_nat (length s) ->
  (forall bs, bytes_ok bs -> Z.of_nat (length bs) = c - a -> Q (k bs)) ->
  Q (let? bs := slice s a c in k bs).
Proof.
  intros Hs Ha Hc Hk. destruct (slice_Ok (E := VfsError) s a c Ha Hc) as (bs & Hb & Hl & _).
  rewrite Hb. apply Hk; [by eapply slice_bytes|done].
Qed.

Lemma unit_bind {B} v c (k : Z -> res VfsError B) (Q : res VfsError B -> Prop) :
  (forall e, Q (Err e)) -> (forall sz, Q (k sz)) -> Q (let? sz := unit_size v c in k sz).
Proof.
  intros He Hk. pose proof (unit_size_no_panic v c) as Hn.
  destruct (unit_size v c) as [sz|e|]; [apply Hk|apply He|done].
Qed.

Lemma parse_boot_ok (dev : D) :
  let r := parse_boot dev in
  no_panic r /\ forall b, r = Ok b -> boot_sound (sector_count dev) b.
Proof.
  set (Q := fun r : res VfsError BootSector =>
    no_panic r /\ forall b, r = Ok b -> boot_sound (sector_count dev) b).
  change (Q (parse_boot dev)). assert (forall e, Q (Err e)) as Herr by done. unfold parse_boot.
  pose proof (read_sectors_no_panic dev 0 1) as Hnp.
  destruct (read_sectors dev 0 1) as [s|e|] eqn:Es; cbn [res_bind]; [|done|done].
  destruct (sector0_ok dev s Es) as [Hlen Hs].
  apply slice_bind; [done|lia|lia|]. intros magic _ _.
  destruct (negb (bool_decide _)); [done|].
  apply slice_bind; [done|lia|lia|]. intros bps Hbps _.
  destruct (negb (le_val bps =? BYTES_PER_SECTOR)) eqn:E1; [done|].
  apply index_bind; [done|lia|]. intros spc Hspc.
  destruct ((spc =? 0) || _ || _) eqn:E2; [done|].
  apply slice_bind; [done|lia|lia|]. intros ts Hts _.
  destruct ((le_val ts =? 0) || _) eqn:E3; [done|].
  apply slice_bind; [done|lia|lia|]. intros lcnb Hlcn _.
  pose proof (le_val_bound _ Hlcn) as Hlcnb. pose proof (le_val_bound _ Hts) as Htsb.
  unfold checked_mul_u64. destruct (le_val lcnb * spc <=? u64_max) eqn:E4; [|done].
  destruct (le_val ts <=? le_val lcnb * spc) eqn:E5; [done|].
  unfold u64_mul. rewrite u64_op_Ok
    by (unfold u64_max, BYTES_PER_SECTOR, byte_ok in *; lia). cbn [res_bind].
  apply index_bind; [done|lia|]. intros b40 _. apply unit_bind; [done|]. intros rsz.
  destruct (bad_unit rsz (le_val bps)) eqn:E6; [done|].
  apply index_bind; [done|lia|]. intros b44 _. apply unit_bind; [done|]. intros isz.
  destruct (bad_unit isz (le_val bps)) eqn:E7; [done|].
  cbv zeta. destruct (Z.min _ _ / rsz =? 0) eqn:E8; [done|]. split; [done|]. intros b [= <-].
  apply bad_unit_false in E6, E7. unfold BYTES_PER_SECTOR in *.
  assert (le_val bps = 512) as Hb512 by lia.
  constructor; unfold boot_ok; simpl; try done; try lia.
  - unfold byte_ok in Hspc. lia.
  - apply power_of_two_pow. destruct (is_power_of_two spc); [done|].
    exfalso. rewrite orb_true_r in E2. done.
  - destruct E6 as [E6 _]. rewrite Hb512 in *. set (n := Z.min _ _ / rsz) in *.
    assert (0 <= n) by (apply Z.div_pos; unfold u64_max; lia).
    pose proof (Z.mul_div_le (Z.min (le_val ts * 512) u64_max) rsz ltac:(lia)) as Hle.
    fold n in Hle. split; lia.
Qed.
End Boot.

(** ** Attributes *)

(** The part of the record an attribute refers to lies inside it: a resident
    value is a slice of the record, the mapping pairs of a non-resident one a
    non-empty range of it. *)
Definition attr_within (record : list Z) (a : Attr) : Prop :=
  if resident a then
    exists off, 0 <= off /\ off + real_size a <= Z.of_nat (length record)
      /\ value a = take (Z.to_nat (real_size a)) (drop (Z.to_nat off) record)
  else 0 <= map_off a < map_end a /\ map_end a <= Z.of_nat (length record).

Lemma attr_name_bind {B} record pos len nl no (k : option (list Z) -> res VfsError B)
  (Q : res VfsError B -> Prop) :
  bytes_ok record -> 0 <= pos -> 0 <= nl -> 0 <= no -> pos + len <= Z.of_nat (length record) ->
  Q (Err IOError) -> (forall n, Q (k n)) -> Q (let? n := attr_name_at record pos len nl no in k n).
Proof.
  intros Hr Hp Hnl Hno Hlen He Hk. unfold attr_name_at. destruct (nl =? 0) eqn:E0; [apply Hk|].
  destruct (len <? no + nl * 2) eqn:E1; [done|]. rewrite res_bind_assoc.
  apply slice_bind; [done|lia|lia|]. intros bs _ _. apply Hk.
Qed.

Lemma parse_attr_ok record pos t len :
  bytes_ok record -> 0 <= pos -> 24 <= len -> pos + len <= Z.of_nat (length record) ->
  let r := parse_attr record pos t len in
  no_panic r /\ forall a, r = Ok a -> attr_within record a /\ attr_type a = t.
Proof.
  intros Hr Hp Hl Hlen.
  set (Q := fun r : res VfsError Attr =>
    no_panic r /\ forall a, r = Ok a -> attr_within record a /\ attr_type a = t).
  change (Q (parse_attr record pos t len)). assert (forall e, Q (Err e)) as Herr by done.
  unfold parse_attr.
  apply index_bind; [done|lia|]. intros nonres _.
  apply index_bind; [done|lia|]. intros nl Hnl.
  apply ok_or_bind; [done|]. intros no Hno%u16_at_bound; [|done].
  apply ok_or_bind; [done|]. intros flags _.
  apply attr_name_bind; [done|lia|unfold byte_ok in Hnl; lia|lia|lia|done|]. intros name.
  destruct (negb (nonres =? 0)).
  - destruct (len <? 64) eqn:E64; [done|].
    do 2 (apply ok_or_bind; [done|]; intros ? _).
    apply ok_or_bind; [done|]. intros mo Hmo%u16_at_bound; [|done].
    do 2 (apply ok_or_bind; [done|]; intros ? _).
    destruct ((mo <? 64) || (len <=? mo)) eqn:Emo; [done|].
    split; [done|]. intros a [= <-]. unfold attr_within. simpl. lia.
  - apply ok_or_bind; [done|]. intros vl Hvl%u32_at_bound; [|done].
    apply ok_or_bind; [done|]. intros vo Hvo%u16_at_bound; [|done].
    destruct (len <? vo + vl) eqn:Ev; [done|].
    destruct (slice_Ok (E := VfsError) record (pos + vo) (pos + vo + vl)) as (s & Hs & _ & Hv);
      [lia|lia|]. rewrite Hs. split; [done|]. intros a [= <-]. split; [|done].
    exists (pos + vo). simpl. rewrite Hv. split; [lia|]. split; [lia|].
    by replace (pos + vo + vl - (pos + vo)) with vl by lia.
Qed.

Lemma attrs_loop_ok fuel record stop pos out :
  bytes_ok record -> 0 <= pos -> stop <= Z.of_nat (length record) ->
  257 <= Z.of_nat fuel + Z.of_nat (length out) -> Z.of_nat (length out) <= MAX_ATTRS ->
  Forall (attr_within record) out ->
  let r := attrs_loop fuel record stop pos out in
  no_panic r /\ forall l, r = Ok l ->
    Forall (attr_within record) l /\ Z.of_nat (length l) <= MAX_ATTRS.
Proof.
  unfold MAX_ATTRS. revert pos out. induction fuel as [|fuel IH]; intros pos out Hr Hp Hs Hf Hm Ho.
  { lia. }
  set (Q := fun r : res VfsError (list Attr) => no_panic r /\ forall l, r = Ok l ->
    Forall (attr_within record) l /\ Z.of_nat (length l) <= 256).
  change (Q (attrs_loop (S fuel) record stop pos out)). cbn [attrs_loop].
  assert (forall e, Q (Err e)) as Herr by done.
  assert (Q (Ok out)) as Hout by (split; [done|]; by intros l [= <-]).
  destruct (pos + 8 <=? stop) eqn:E8; [|done]. unfold MAX_ATTRS.
  destruct (256 <=? _) eqn:Em; [done|].
  apply ok_or_bind; [done|]. intros t _. destruct (t =? ATTR_END); [done|].
  apply ok_or_bind; [done|]. intros len _.
  destruct ((len <? 24) || (stop <? pos + len)) eqn:El; [done|].
  destruct (parse_attr_ok record pos t len Hr Hp) as [Hnp Hok]; [lia|lia|].
  destruct (parse_attr record pos t len) as [a|e|]; cbn [res_bind]; [|done|done].
  apply IH; [done|lia|done|rewrite length_app; simpl; lia|rewrite length_app; simpl; lia|].
  apply Forall_app. split; [done|]. constructor; [|done]. by apply (Hok a).
Qed.

Lemma attr_list_loop_no_panic fuel value pos out :
  bytes_ok value -> 0 <= pos -> 257 <= Z.of_nat fuel + Z.of_nat (length out) ->
  Z.of_nat (length out) <= MAX_ATTRS -> no_panic (attr_list_loop fuel value pos out).
Proof.
  unfold MAX_ATTRS. revert pos out. induction fuel as [|fuel IH]; intros pos out Hr Hp Hf Hm; [lia|].
  cbn [attr_list_loop]. destruct (pos + 24 <=? _) eqn:E8; [|done]. unfold MAX_ATTRS.
  destruct (256 <=? _) eqn:Em; [done|].
  apply ok_or_bind; [done|]. intros t _. destruct (t =? ATTR_END); [done|].
  apply ok_or_bind; [done|]. intros len _.
  destruct ((len <? 26) || _) eqn:El; [done|].
  apply index_bind; [done|lia|]. intros nl Hnl. apply index_bind; [done|lia|]. intros no Hno.
  do 2 (apply ok_or_bind; [done|]; intros ? _).
  unfold byte_ok in *. apply attr_name_bind; [done|lia|lia|lia|lia|done|]. intros name.
  apply IH; [done|lia|rewrite length_app; simpl; lia|rewrite length_app; simpl; lia].
Qed.

Lemma parse_file_name_no_panic value : bytes_ok value -> no_panic (parse_file_name value).
Proof.
  intros Hv. unfold parse_file_name. destruct (_ <? 66) eqn:E; [done|].
  do 4 (apply ok_or_bind; [done|]; intros ? _).
  apply index_bind; [done|lia|]. intros nl Hnl. apply index_bind; [done|lia|]. intros ns _.
  destruct (_ <? 66 + nl * 2) eqn:E2; [done|]. unfold byte_ok in *.
  apply slice_bind; [done|lia|lia|]. done.
Qed.

(** ** Update sequence fixup *)

(** Offset [i] holds a byte of the tail of sector [k]. *)
Definition in_tail (ss k i : Z) : Prop := k * ss + ss - 2 <= i < k * ss + ss.

Lemma u16_at_ext d1 d2 o :
  length d1 = length d2 -> 0 <= o ->
  (forall i, o <= Z.of_nat i < o + 2 -> d1 !! i = d2 !! i) -> u16_at d1 o = u16_at d2 o.
Proof.
  intros Hl Ho Hi. unfold u16_at, get_range. rewrite Hl. case_match eqn:C; [|done].
  do 2 f_equal. apply list_eq. intros i.
  destruct (decide (i < 2)%nat); [|by rewrite !lookup_take_ge by lia].
  rewrite !lookup_take_lt, !lookup_drop by lia. apply Hi. lia.
Qed.

Lemma fixup_loop_ok fuel ss usn sectors data sector idx :
  2 <= ss -> Z.of_nat (length data) = sectors * ss -> 1 <= sector ->
  sectors - sector <= Z.of_nat fuel ->
  let r := fixup_loop fuel data ss usn sectors sector idx in
  no_panic r /\ forall out, r = Ok out ->
    length out = length data
    /\ (forall i, (forall k, sector <= k < sectors -> ~ in_tail ss k (Z.of_nat i)) ->
        out !! i = data !! i)
    /\ forall k, sector <= k < sectors -> u16_at data (k * ss + ss - 2) = Some usn.
Proof.
  intros Hss. revert data sector idx. induction fuel as [|fuel IH]; intros data sector idx Hl Hs Hf.
  { simpl. rewrite (proj2 (Z.ltb_ge _ _)) by lia. split; [done|]. intros out [= <-].
    split_and!; [done|done|lia]. }
  cbn [fixup_loop]. destruct (sector <? sectors) eqn:Es; cycle 1.
  { split; [done|]. intros out [= <-]. split_and!; [done|done|lia]. }
  destruct (_ <? _ + 2); [done|].
  destruct (u16_at data (sector * ss + ss - 2)) as [tv|] eqn:Et; [|done]. cbn [ok_or res_bind].
  destruct (negb (tv =? usn)) eqn:Eu; [done|].
  destruct (u16_at data idx) as [saved|]; [|done]. cbn [ok_or res_bind].
  assert (sector * ss + ss <= Z.of_nat (length data)) as Hin by (rewrite Hl; nia).
  unfold index_set at 1 3. rewrite (proj2 (andb_true_iff _ _)) by nia. cbn [res_bind].
  unfold index_set. rewrite length_insert, (proj2 (andb_true_iff _ _)) by nia. cbn [res_bind].
  set (d2 := <[_ := _]> (<[_ := _]> data)).
  assert (length d2 = length data) as Hd2 by (unfold d2; by rewrite !length_insert).
  assert (forall i, ~ in_tail ss sector (Z.of_nat i) -> d2 !! i = data !! i) as Hsame.
  { intros i Hi. unfold in_tail in Hi. unfold d2.
    rewrite !list_lookup_insert_ne by lia. done. }
  destruct (IH d2 (sector + 1) (idx + 2)) as [Hnp Hok]; [lia|lia|lia|]. split; [done|].
  intros out Hout. destruct (Hok out Hout) as (H1 & H2 & H3). split_and!; [lia| |].
  - intros i Hi. rewrite H2 by (intros k Hk; apply Hi; lia). apply Hsame, Hi. lia.
  - intros k Hk. destruct (decide (k = sector)) as [->|Hne]; [rewrite Et; f_equal; lia|].
    rewrite <- (H3 k) by lia. apply u16_at_ext; [lia|nia|]. intros i Hi. symmetry.
    apply Hsame. unfold in_tail. nia.
Qed.

(** An accepted record: every sector tail carried the update sequence number,
    and only the tails of the sectors after the first have changed. *)
Definition fixup_post (data : list Z) (ss : Z) (out : list Z) : Prop :=
  length out = length data
  /\ (forall i, (forall k, 1 <= k < Z.of_nat (length data) / ss -> ~ in_tail ss k (Z.of_nat i)) ->
      out !! i = data !! i)
  /\ exists usn, forall k, 0 <= k < Z.of_nat (length data) / ss ->
       u16_at data (k * ss + ss - 2) = Some usn.

Lemma usa_fixup_ok `{Profile} data ss :
  2 <= ss -> ss <= u64_max ->
  let r := usa_fixup data ss in
  no_panic r /\ forall out, r = Ok out -> fixup_post data ss out.
Proof.
  intros Hss Hmax.
  set (Q := fun r : res VfsError (list Z) => no_panic r /\ forall out, r = Ok out -> fixup_post data ss out).
  change (Q (usa_fixup data ss)). assert (forall e, Q (Err e)) as Herr by done.
  unfold usa_fixup. set (sectors := Z.of_nat (length data) / ss) in *.
  apply ok_or_bind; [done|]. intros off _. apply ok_or_bind; [done|]. intros cnt _.
  destruct (_ || _); [done|]. rewrite (proj2 (Z.eqb_neq ss 0)) by lia. cbv zeta.
  destruct (negb _ || _) eqn:Em; [done|]. destruct (_ <? off + _); [done|].
  apply ok_or_bind; [done|]. intros usn _.
  unfold u64_sub. rewrite u64_op_Ok by lia. cbn [res_bind].
  apply ok_or_bind; [done|]. intros t0 Ht0. destruct (negb (t0 =? usn)) eqn:Et; [done|].
  destruct (cnt <? _); [done|]. destruct (_ / 2 <? _); [done|].
  pose proof (Z.div_mod (Z.of_nat (length data)) ss ltac:(lia)) as Hdm. fold sectors in Hdm |- *.
  destruct (fixup_loop_ok (Z.to_nat sectors) ss usn sectors data 1 (off + 2)) as [Hnp Hok];
    [lia|lia|lia|lia|].
  split; [done|]. intros out Hout. destruct (Hok out Hout) as (H1 & H2 & H3).
  unfold fixup_post. split_and!; [done|done|]. exists usn. intros k Hk. destruct (decide (k = 0)) as [->|Hne].
  - replace (0 * ss + ss - 2) with (ss - 2) by lia. rewrite Ht0. f_equal. lia.
  - apply H3. lia.
Qed.
