(* ===== verification/NtfsSpec.v ===== *)
(** * What the NTFS reader promises

    The boot sector, mapping pairs, extent lookup and reads, MFT records and
    attributes of kernel/src/filesystems/fstypes/ntfs, against any block device;
    [Volume] is a small image on a [MemDisk] the witnesses run on. *)

From S2P Require Import Prelude Bits Errors BlockDev Ntfs NtfsFacts.
Import Errors.Vfs.
Local Open Scope Z_scope.

(** ** A sample volume *)

Module Volume.

Definition patch (off : nat) (bs l : list Z) : list Z :=
  take off l ++ bs ++ drop (off + length bs) l.

Definition boot_sector : list Z :=
  patch 3 ntfs_magic (patch 11 [0; 2; 1] (patch 40 [16] (patch 48 [4]
    (patch 64 [2] (patch 68 [244] (replicate 512 0)))))).

(** A two-sector record with one resident $DATA attribute, before the update
    sequence is applied; its sector tails are AA BB and CC DD. *)
Definition plain_record : list Z :=
  patch 0 [70; 73; 76; 69; 48; 0; 3; 0] (patch 20 [56] (patch 28 [0; 4]
    (patch 48 [1; 0; 170; 187; 204; 221] (patch 56 [128; 0; 0; 0; 32]
      (patch 72 [5; 0; 0; 0; 24] (patch 80 [104; 101; 108; 108; 111]
        (patch 88 [255; 255; 255; 255] (patch 510 [170; 187]
          (patch 1022 [204; 221] (replicate 1024 0)))))))))).

(** The writer's side: every sector tail is replaced by the update sequence
    number; the record's array already holds the saved tails. *)
Definition protect (usn : list Z) (r : list Z) : list Z := patch 510 usn (patch 1022 usn r).

Definition stored_record : list Z := protect [1; 0] plain_record.

Definition bytes : list Z :=
  Eval vm_compute in
  patch 0 boot_sector (patch 2048 stored_record (patch 4096 [7; 8; 9] (replicate 8192 0))).

Lemma bytes_in_range : bytes_ok bytes.
Proof. apply (bool_decide_eq_true_1 _). vm_compute. reflexivity. Qed.

Definition disk : MemDisk := {| image := bytes; image_ok := bytes_in_range |}.

Definition geometry : BootSector :=
  {| total_sectors := 16; mft_lcn := 4; sectors_per_cluster := 1; bytes_per_sector := 512;
     record_size := 1024; index_size := 4096; max_records := 8 |}.

(** Two clusters at LCN 4, a hole of one, one cluster at LCN 8. *)
Definition extents : list Run := [mkRun 0 4 2; mkRun 2 (-1) 1; mkRun 3 8 1].

Lemma extents_contiguous : runs_from 0 extents.
Proof. repeat split; simpl; lia. Qed.

Lemma geometry_ok : boot_ok geometry.
Proof. split; [reflexivity|simpl; lia]. Qed.

Lemma disk_serves : serves disk geometry.
Proof.
  intros lba count Hl Hc Ht. unfold read_sectors. simpl submit_read. unfold mem_submit_read.
  change (mem_sector_count disk) with 16. change (total_sectors geometry) with 16 in Ht.
  rewrite (proj2 (andb_true_iff _ _)) by lia. by eexists.
Qed.
End Volume.
Import Volume.

(** ** Boot sector *)

(** Mounting starts from [BootSector::parse].  Whatever sector 0 of the
    device holds, and whatever errors the device reports, parsing does not
    panic; and an accepted boot sector is sound: 512-byte sectors, a
    power-of-two cluster of at most 128 sectors, a volume that fits the device,
    an MFT start inside the volume, MFT record and index sizes that are powers
    of two between 512 and 65536, and a record count whose records fit both the
    volume and a u64. *)
Theorem parse_boot_sound `{Profile} `{BlockDevice D} (dev : D) :
  no_panic (parse_boot dev)
  /\ forall b, parse_boot dev = Ok b -> boot_sound (sector_count dev) b.
Proof. exact (parse_boot_ok dev). Qed.

Lemma geometry_sound : boot_sound 16 geometry.
Proof.
  constructor; simpl; try (unfold u64_max; lia); [apply geometry_ok|by exists 0| |].
  - split; [lia|by exists 10].
  - split; [lia|by exists 12].
Qed.

(** The sample volume's boot sector is accepted. *)
Lemma parse_boot_sound_witness :
  parse_boot (H := true) disk = Ok geometry /\ boot_sound 16 geometry.
Proof.
  assert (parse_boot (H := true) disk = Ok geometry) as E by (vm_compute; reflexivity).
  split; [exact E|]. exact (proj2 (parse_boot_sound (H := true) disk) geometry E).
Defined.

(** ** Mapping pairs *)

(** [decode_mapping_pairs] never panics, on any bytes: no index is out of
    range and no arithmetic overflows, and the loop ends.  What it returns are
    extents of at least one cluster, contiguous in the file's cluster numbers
    from [base_vcn] on. *)
Theorem decode_mapping_pairs_safe data base : bytes_ok data ->
  no_panic (decode_mapping_pairs data base)
  /\ forall runs, decode_mapping_pairs data base = Ok runs -> runs_from base runs.
Proof.
  intros Hd. unfold decode_mapping_pairs.
  apply decode_loop_ok; [done|lia|lia|unfold i64_max; lia|done|simpl; lia].
Qed.

Definition pairs_sample : list Z := [33; 24; 52; 86; 1; 5; 17; 2; 254; 0].

Lemma decode_mapping_pairs_safe_witness :
  runs_from 7 [mkRun 7 22068 24; mkRun 31 (-1) 5; mkRun 36 22066 2].
Proof.
  refine (proj2 (decode_mapping_pairs_safe pairs_sample 7 _) _ _).
  - apply (bool_decide_eq_true_1 _). vm_compute. reflexivity.
  - vm_compute. reflexivity.
Defined.

(** [decode_mapping_pairs] is a left inverse of the NTFS encoding: a
    run-length encoding of extents, each pair a header byte with the two field
    widths, the length and the sign-extended LCN delta (absent for a sparse
    run), closed by a zero byte and followed by anything, decodes to exactly
    those extents. *)
Theorem decode_mapping_pairs_encode ps base rest :
  pairs_ok base 0 0 ps -> Z.of_nat (length ps) < MAX_RUNS ->
  decode_mapping_pairs (flat_map encode_pair ps ++ 0 :: rest) base
  = Ok (pairs_runs base 0 0 ps).
Proof.
  intros Hok Hm. unfold decode_mapping_pairs.
  apply (decode_loop_encode _ ps [] rest base [] 0 0); [lia|done| |simpl; lia].
  rewrite length_app. enough (length ps <= length (flat_map encode_pair ps))%nat by lia.
  clear. induction ps as [|p ps IH]; [done|]. simpl. rewrite !length_app. lia.
Qed.

Lemma decode_mapping_pairs_encode_witness :
  decode_mapping_pairs pairs_sample 7 = Ok [mkRun 7 22068 24; mkRun 31 (-1) 5; mkRun 36 22066 2].
Proof.
  apply (decode_mapping_pairs_encode
    [{| p_ll := 1; p_ol := 2; p_len := 24; p_delta := 22068 |};
     {| p_ll := 1; p_ol := 0; p_len := 5; p_delta := 0 |};
     {| p_ll := 1; p_ol := 1; p_len := 2; p_delta := -2 |}] 7 []).
  - unfold pairs_ok, fits_signed, i64_min, i64_max, u64_max. simpl. lia.
  - simpl. unfold MAX_RUNS. lia.
Defined.

(** [RunList::find] is the extent lookup: on contiguous extents its binary
    search returns an extent exactly when it is the one of the list that holds
    the cluster of the byte offset. *)
Theorem find_spec v runs offset csize r :
  runs_from v runs -> 0 <= offset / csize < u64_max ->
  find runs offset csize = Some r
  <-> r ∈ runs /\ vcn r <= offset / csize < vcn r + len r.
Proof. apply find_iff. Qed.

Lemma find_spec_witness : mkRun 2 (-1) 1 ∈ extents.
Proof.
  refine (proj1 (proj1 (find_spec 0 extents 1300 512 (mkRun 2 (-1) 1) extents_contiguous _) _)).
  - vm_compute. split; [discriminate|reflexivity].
  - vm_compute. reflexivity.
Defined.

(** ** Extent reads *)

(** C11: [read_file_at] on contiguous extents, on any device and with any
    errors, does not panic and ends; a successful read is exactly the file: each
    byte is the device byte its extent maps it to, or zero in a hole, and the
    read is short only where the extents end. *)
Theorem read_file_at_correct `{Profile} `{BlockDevice D} (dev : D) b v runs off n :
  boot_ok b -> runs_from v runs -> 0 <= v -> 0 <= off -> 0 <= n -> off + n <= u64_max ->
  no_panic (read_file_at dev b runs off n)
  /\ forall got, read_file_at dev b runs off n = Ok got -> read_post dev b runs off n got.
Proof. intros. by eapply read_file_at_ok. Qed.

Lemma read_file_at_correct_witness :
  read_post disk geometry extents 1400 200 (replicate 136 0 ++ [7; 8; 9] ++ replicate 61 0).
Proof.
  refine (proj2 (read_file_at_correct (H := true) disk geometry 0 extents 1400 200
    geometry_ok extents_contiguous _ _ _ _) _ _).
  - lia.
  - lia.
  - lia.
  - unfold u64_max. lia.
  - vm_compute. reflexivity.
Defined.

(** C39: [read_file_at] succeeds when it can: on a device that serves the reads
    inside the volume, with extents inside the volume, every read returns, with
    the bytes of the file. *)
Theorem read_file_at_complete `{Profile} `{BlockDevice D} (dev : D) b v runs off n :
  boot_ok b -> runs_from v runs -> 0 <= v -> 0 <= off -> 0 <= n -> off + n <= u64_max ->
  serves dev b -> total_sectors b <= i64_max -> Forall (run_fits b) runs ->
  exists got, read_file_at dev b runs off n = Ok got /\ read_post dev b runs off n got.
Proof.
  intros Hboot Hr Hv Hoff Hn Hu Hs Ht Hf.
  assert (exists got, read_file_at dev b runs off n = Ok got) as [got Hg].
  { unfold read_file_at. rewrite cluster_size_ok by done.
    apply (read_loop_succeeds dev b v); simpl; (done || lia). }
  exists got. split; [done|]. by eapply read_file_at_ok.
Qed.

Lemma read_file_at_complete_witness :
  exists got, read_file_at (H := true) disk geometry extents 1000 2000 = Ok got
    /\ length got = 1048%nat.
Proof.
  destruct (read_file_at_complete (H := true) disk geometry 0 extents 1000 2000)
    as (got & Hg & _).
  - exact geometry_ok.
  - exact extents_contiguous.
  - lia.
  - lia.
  - lia.
  - unfold u64_max. lia.
  - exact disk_serves.
  - unfold i64_max. simpl. lia.
  - unfold run_fits, u64_max, csize_of.
    do 3 (apply Forall_cons_2; [simpl; lia|]). apply Forall_nil_2.
  - exists got. split; [exact Hg|]. vm_compute in Hg. injection Hg as <-. reflexivity.
Defined.

(** ** MFT records *)

(** [read_mft_record] on a sound volume does not panic for any record
    number; a number past the volume's record count is [NotFound]; and a record
    it returns has the record size, starts with the FILE magic, and comes from
    the record's own bytes of the MFT: every sector of them ended in the same
    update sequence number (no torn write), and the returned bytes agree with
    them everywhere but in the tails of the sectors after the first. *)
Theorem read_mft_record_spec `{Profile} `{BlockDevice D} (sb : NtfsSuperBlock) count v no :
  boot_sound count (boot sb) -> runs_from v (mft_runs sb) -> 0 <= v -> 0 <= no ->
  no_panic (read_mft_record sb no)
  /\ (max_records (boot sb) <= no -> read_mft_record sb no = Err NotFound)
  /\ forall buf, read_mft_record sb no = Ok buf ->
     u32_at buf 0 = Some RECORD_MAGIC
     /\ exists raw, Z.of_nat (length raw) = record_size (boot sb)
        /\ read_post (device sb) (boot sb) (mft_runs sb)
             (no * record_size (boot sb)) (record_size (boot sb)) raw
        /\ fixup_post raw 512 buf.
Proof.
  intros [Hg _ _ _ [Hrs _] _ [Hm Hmb]] Hr Hv Hno. unfold read_mft_record.
  destruct (max_records (boot sb) <=? no) eqn:En; [split; [done|]; split; [done|]; done|].
  unfold checked_mul_u64. rewrite (proj2 (Z.leb_le _ _)) by nia. cbn [ok_or res_bind].
  split; [|split; [lia|]]; unfold read_record_at;
    (destruct (read_file_at_ok (device sb) (boot sb) v (mft_runs sb)
       (no * record_size (boot sb)) (record_size (boot sb))) as [Hnp Hok];
     [done|done|done|nia|lia|nia|]);
    rewrite (proj1 Hg).
  - destruct (read_file_at _ _ _ _ _) as [got|e|]; cbn [res_bind]; [|done|done].
    destruct (_ <? _); [done|].
    destruct (usa_fixup_ok got 512) as [Hnu _]; [lia|unfold u64_max; lia|].
    destruct (usa_fixup got 512); cbn [res_bind]; [|done|done].
    apply ok_or_bind; [done|]. intros m _. by destruct (negb _).
  - intros buf. destruct (read_file_at _ _ _ _ _) as [got|e|]; cbn [res_bind]; [|done|done].
    specialize (Hok got eq_refl). destruct (_ <? _) eqn:El; [done|].
    destruct (usa_fixup_ok got 512) as [_ Hfix]; [lia|unfold u64_max; lia|].
    destruct (usa_fixup got 512) as [out|e|]; cbn [res_bind]; [|done|done].
    destruct (u32_at out 0) as [m|] eqn:Emag; cbn [ok_or res_bind]; [|done].
    destruct (negb (m =? RECORD_MAGIC)) eqn:Em; [done|]. intros [= <-].
    split; [rewrite Emag; f_equal; lia|]. exists got. destruct Hok as (Hl & Hok).
    split; [lia|]. split; [by split|]. by apply Hfix.
Qed.

Definition volume : NtfsSuperBlock := {| device := disk; boot := geometry; mft_runs := extents |}.

Lemma read_mft_record_spec_witness :
  exists buf, read_mft_record (H := true) volume 0 = Ok buf
    /\ u32_at buf 0 = Some RECORD_MAGIC.
Proof.
  destruct (read_mft_record_spec (H := true) volume 16 0 0 geometry_sound extents_contiguous)
    as (_ & _ & Hok).
  - lia.
  - lia.
  - destruct (read_mft_record (H := true) volume 0) as [buf|e|] eqn:E.
    + exists buf. split; [reflexivity|]. exact (proj1 (Hok buf eq_refl)).
    + vm_compute in E. discriminate E.
    + vm_compute in E. discriminate E.
Defined.

(** [usa_fixup] does not undo the update sequence: the loop starts with
    sector 1 and the first saved tail.  The sample record, stored as NTFS
    stores it, is accepted, but its first sector still ends in the update
    sequence number, and its second sector ends in the saved tail of the
    first. *)
Theorem usa_fixup_shifts_tails :
  exists out, usa_fixup (H := true) stored_record 512 = Ok out
  /\ out <> plain_record
  /\ (u16_at plain_record 510, u16_at plain_record 1022) = (Some 48042, Some 56780)
  /\ (u16_at out 510, u16_at out 1022) = (Some 1, Some 48042).
Proof.
  destruct (usa_fixup (H := true) stored_record 512) as [out|e|] eqn:E;
    [|vm_compute in E; discriminate E..].
  exists out. vm_compute in E. injection E as <-.
  split_and!; [reflexivity| |vm_compute; reflexivity..].
  intros Heq. apply (f_equal (fun l => u16_at l 510)) in Heq. vm_compute in Heq. discriminate Heq.
Qed.

(** ** Attributes *)

(** [iter_attrs] on any record bytes does not panic and ends: it returns
    at most 256 attributes, and each stays inside the record: a resident value
    is a slice of it, and the mapping pairs of a non-resident attribute are a
    non-empty range of it. *)
Theorem iter_attrs_safe record : bytes_ok record ->
  no_panic (iter_attrs record)
  /\ forall l, iter_attrs record = Ok l ->
     Forall (attr_within record) l /\ Z.of_nat (length l) <= MAX_ATTRS.
Proof.
  intros Hr. unfold iter_attrs. destruct (_ <? 44) eqn:El; [done|].
  destruct (u16_at record 20) as [first|] eqn:Ef; cbn [ok_or res_bind]; [|done].
  destruct (u32_at record 28) as [al|]; cbn [ok_or res_bind]; [|done]. cbv zeta.
  apply u16_at_bound in Ef; [|done].
  destruct ((first <? 24) || _) eqn:E; [done|].
  apply attrs_loop_ok; [done|lia|lia|simpl; lia|unfold MAX_ATTRS; simpl; lia|constructor].
Qed.

Lemma iter_attrs_safe_witness :
  exists a, iter_attrs plain_record = Ok [a] /\ value a = [104; 101; 108; 108; 111]
    /\ Forall (attr_within plain_record) [a].
Proof.
  destruct (iter_attrs_safe plain_record) as [_ Hok].
  - apply (bool_decide_eq_true_1 _). vm_compute. reflexivity.
  - destruct (iter_attrs plain_record) as [l|e|] eqn:E;
      [|vm_compute in E; discriminate E..].
    pose proof (proj1 (Hok l eq_refl)) as Hw. vm_compute in E. injection E as <-.
    eexists. split; [reflexivity|]. split; [reflexivity|exact Hw].
Defined.

(** A malformed $FILE_NAME or $ATTRIBUTE_LIST value is an error, never a panic. *)
Lemma value_parsers_safe value : bytes_ok value ->
  no_panic (parse_file_name value) /\ no_panic (parse_attr_list value).
Proof.
  intros Hv. split; [by apply parse_file_name_no_panic|].
  apply attr_list_loop_no_panic; [done|lia|simpl; lia|unfold MAX_ATTRS; simpl; lia].
Qed.

(** [read_attr_value] of a non-resident attribute that starts at cluster 0
    does not panic and, where it succeeds, returns the attribute's value cut to
    [cap]: [min real_size cap] bytes, each the byte of the extents its mapping
    pairs encode, with zeros past their end. *)
Theorem read_attr_value_spec `{Profile} `{BlockDevice D} (dev : D) b record a cap :
  boot_ok b -> bytes_ok record -> resident a = false -> lowest_vcn a = 0 ->
  0 <= real_size a <= u64_max -> 0 <= cap ->
  no_panic (read_attr_value dev b record a cap)
  /\ forall bs, read_attr_value dev b record a cap = Ok bs ->
     Z.of_nat (length bs) = Z.min (real_size a) cap
     /\ exists pairs runs,
        get_range record (map_off a) (map_end a - map_off a) = Some pairs
        /\ decode_mapping_pairs pairs 0 = Ok runs
        /\ forall i, 0 <= i < Z.min (real_size a) cap ->
           nth (Z.to_nat i) bs 0 = default 0 (extent_byte dev b runs i).
Proof.
  intros Hb Hrec Hnr Hlow Hreal Hcap. unfold read_attr_value. rewrite Hnr, Hlow.
  destruct (get_range record _ _) as [pairs|] eqn:Hp; cbn [ok_or res_bind]; [|done].
  destruct (decode_loop_ok (S (length pairs)) pairs 0 [] 0 0 0) as [Hnp Hruns];
    [by eapply get_range_bytes_ok|lia|lia|unfold i64_max; lia|done|done|].
  fold (decode_mapping_pairs pairs 0) in Hnp, Hruns.
  destruct (decode_mapping_pairs pairs 0) as [runs|e|] eqn:Hd; cbn [res_bind]; [|done|done].
  specialize (Hruns runs eq_refl). cbv zeta. set (want := Z.min (real_size a) cap).
  destruct (read_file_at_ok dev b 0 runs 0 want) as [Hnr' Hpost]; [done|done|lia..|].
  destruct (read_file_at dev b runs 0 want) as [got|e|]; cbn [res_bind]; [|done|done].
  destruct (Hpost got eq_refl) as (Hlen & Hbytes & Hend). split; [done|]. intros bs [= <-].
  split; [rewrite length_app, length_replicate; lia|]. exists pairs, runs.
  split; [done|]. split; [done|]. intros i Hi.
  destruct (decide (i < Z.of_nat (length got))) as [Hlt|Hge].
  - rewrite app_nth1 by lia. by rewrite <- (Z.add_0_l i), Hbytes by lia.
  - rewrite app_nth2 by lia. destruct Hb as [_ Hs].
    rewrite (extent_byte_ended dev b 0 runs (Z.of_nat (length got)) i);
      [|lia|done|apply Z.div_pos; unfold csize_of; lia|lia|apply Hend; lia].
    rewrite nth_lookup, lookup_replicate_2 by lia. done.
Qed.

(** A $DATA attribute whose mapping pairs are the bytes 1.. of [pairs_at]. *)
Definition pairs_at : list Z := [9; 17; 2; 4; 1; 1; 17; 1; 4; 0].

Definition nonresident_sample : Attr :=
  {| attr_type := 128; attr_name := None; attr_flags := 0; resident := false; value := [];
     lowest_vcn := 0; highest_vcn := 3; map_off := 1; map_end := 10;
     real_size := 1600; init_size := 1600 |}.

Lemma read_attr_value_spec_witness :
  exists bs, read_attr_value (H := true) disk geometry pairs_at nonresident_sample 1540 = Ok bs
    /\ Z.of_nat (length bs) = 1540.
Proof.
  destruct (read_attr_value_spec (H := true) disk geometry pairs_at nonresident_sample 1540)
    as [_ Hok].
  - exact geometry_ok.
  - apply (bool_decide_eq_true_1 _). vm_compute. reflexivity.
  - reflexivity.
  - reflexivity.
  - unfold u64_max. simpl. lia.
  - lia.
  - destruct (read_attr_value (H := true) disk geometry pairs_at nonresident_sample 1540)
      as [bs|e|] eqn:E; [|vm_compute in E; discriminate E..].
    exists bs. split; [reflexivity|]. exact (proj1 (Hok bs eq_refl)).
Defined.
