(* ===== verification/Fat32.v ===== *)
(** * The FAT32 file allocation table and its write-back cache

    Model of kernel/src/filesystems/fstypes/fat32: the boot parameter block
    (bpb.rs), the sector cache of the FAT (cache.rs) and the entry reads and
    writes through it (fat.rs).  Operations run under the cache's lock and
    change the device and the cache.  The [fat_trace] lines and serial dumps are
    not modelled.  LBAs are sums of fields of at most 32 bits and stay far below
    the width of a u64; subtractions and remainders are checked. *)

From S2P Require Import Prelude Bits Errors BlockDev.
From stdpp Require Import sorting.
Import Errors.Vfs.
Local Open Scope Z_scope.

Definition SECTOR_SIZE : Z := 512.

(** ** State and errors *)

(** A computation that may fail or panic, over a state it may have changed
    either way. *)
Definition cmd (S A : Type) : Type := S -> S * res VfsError A.

Definition cmd_ret {S A} (a : A) : cmd S A := fun s => (s, Ok a).
Definition cmd_res {S A} (r : res VfsError A) : cmd S A := fun s => (s, r).
Definition cmd_bind {S A B} (m : cmd S A) (k : A -> cmd S B) : cmd S B := fun s =>
  match m s with
  | (s, Ok a) => k a s
  | (s, Err e) => (s, Err e)
  | (s, Panic) => (s, Panic)
  end.

Notation "'do!' x := m 'in' k" := (cmd_bind m (fun x => k))
  (at level 200, x pattern, m at level 100, k at level 200) : bedrock_scope.

(** [for x in l { body(x)? }] *)
Fixpoint cmd_for {S A} (l : list A) (body : A -> cmd S unit) : cmd S unit :=
  match l with
  | [] => cmd_ret tt
  | x :: l => do! _ := body x in cmd_for l body
  end.

(** ** The boot parameter block *)

Record Bpb := {
  bytes_per_sec : Z;
  sec_per_clus : Z;
  rsvd_sec_cnt : Z;
  num_fats : Z;
  fat_sz32 : Z;
  root_clus : Z;
  fsinfo_sec : Z;
  byts_per_clus : Z;
  first_data_sec : Z;
  total_clus : Z;
  ext_flags : Z
}.

Section Driver.
Context `{Profile} `{WriteDevice D}.

(** [u16::from_le_bytes([s[o], s[o + 1]])] and its 32-bit form. *)
Definition le_at (s : list Z) (o n : Z) : res VfsError Z :=
  match get_range s o n with Some bs => Ok (le_val bs) | None => Panic end.

Definition parse_bpb (device : D) : res VfsError Bpb :=
  let? s := read_sectors device 0 1 in
  let? b510 := index s 510 in
  let? b511 := index s 511 in
  if negb (b510 =? 85) || negb (b511 =? 170) then Err InvalidDevice
  else
    let? bps := le_at s 11 2 in
    let? spc := index s 13 in
    let? rsvd := le_at s 14 2 in
    let? nf := index s 16 in
    let? root_ent_cnt := le_at s 17 2 in
    let? fat_sz16 := le_at s 22 2 in
    let? fsz := le_at s 36 4 in
    let? root := le_at s 44 4 in
    let? fsinfo := le_at s 48 2 in
    if negb (root_ent_cnt =? 0) || negb (fat_sz16 =? 0) || (fsz =? 0) then Err InvalidDevice
    else if negb (bps =? SECTOR_SIZE) then Err InvalidInput
    else if (spc =? 0) || negb (is_power_of_two spc) || (128 <? spc) then Err InvalidInput
    else if rsvd =? 0 then Err InvalidInput
    else if nf =? 0 then Err InvalidInput
    else if root <? 2 then Err InvalidInput
    else
      let first_data := rsvd + nf * fsz in
      let? sz16 := le_at s 19 2 in
      let? total_sectors := if negb (sz16 =? 0) then Ok sz16 else le_at s 32 4 in
      if total_sectors <=? first_data then Err InvalidInput
      else if sector_count device <? total_sectors then Err InvalidInput
      else
        let total := ((total_sectors - first_data) / spc) mod 2 ^ 32 in
        if 2 + total <=? root then Err InvalidInput
        else
          let? ext := le_at s 40 2 in
          Ok {| bytes_per_sec := bps; sec_per_clus := spc; rsvd_sec_cnt := rsvd;
                num_fats := nf; fat_sz32 := fsz; root_clus := root; fsinfo_sec := fsinfo;
                byts_per_clus := bps * spc; first_data_sec := first_data;
                total_clus := total; ext_flags := ext |}.

Definition clus_to_lba (b : Bpb) (cluster : Z) : Z :=
  first_data_sec b + Z.max 0 (cluster - 2) * sec_per_clus b.

Definition active_fat_idx (b : Bpb) : Z :=
  if negb (Z.land (ext_flags b) 128 =? 0) then Z.land (ext_flags b) 15 else 0.

Definition fat_sector_lba (b : Bpb) (fat_num sector_idx : Z) : Z :=
  rsvd_sec_cnt b + fat_num * fat_sz32 b + sector_idx.

Definition fat_entry_position (b : Bpb) (cluster : Z) : res VfsError (Z * Z) :=
  if (cluster <? 2) || (2 + total_clus b <=? cluster) then Err InvalidInput
  else
    let byte_off := cluster * 4 in
    Ok (byte_off / bytes_per_sec b, byte_off mod bytes_per_sec b).

(** ** The cache *)

Definition MAX_FAT_CACHE_ENTRIES : nat := 4096.
Definition PRDT_MAX_SECTORS : Z := 504.

Record FatCache := mkCache {
  sectors : gmap Z (list Z);
  dirty : gset Z;
  clock : list Z;
  clock_hand : nat;
  fat0_lba : Z;
  fat_sz : Z;
  fats : Z;
  mirrored : bool
}.

Definition new_cache (b : Bpb) : FatCache :=
  mkCache ∅ ∅ [] 0 (fat_sector_lba b 0 0) (fat_sz32 b) (num_fats b)
    (Z.land (ext_flags b) 128 =? 0).

(** Field updates. *)
Definition set_sectors (c : FatCache) (m : gmap Z (list Z)) : FatCache :=
  mkCache m (dirty c) (clock c) (clock_hand c) (fat0_lba c) (fat_sz c) (fats c) (mirrored c).
Definition set_dirty (c : FatCache) (s : gset Z) : FatCache :=
  mkCache (sectors c) s (clock c) (clock_hand c) (fat0_lba c) (fat_sz c) (fats c) (mirrored c).
Definition set_clock (c : FatCache) (l : list Z) (h : nat) : FatCache :=
  mkCache (sectors c) (dirty c) l h (fat0_lba c) (fat_sz c) (fats c) (mirrored c).

(** [Vec::swap_remove]: the last element takes the place of the removed one. *)
Definition swap_remove (l : list Z) (i : nat) : list Z :=
  match last l with
  | Some x => take (length l - 1) (<[i := x]> l)
  | None => []
  end.

(** [device] and the cache, while the lock is held. *)
Definition state : Type := D * FatCache.

Definition dev_write (lba count : Z) (buf : list Z) : cmd state unit := fun '(d, c) =>
  let '(d, r) := write_sectors d lba count buf in ((d, c), r).

(** The index of the FAT sector [lba] within its copy. *)
Definition local_idx (c : FatCache) (lba : Z) : res VfsError Z :=
  let? off := u64_sub lba (fat0_lba c) in
  if fat_sz c =? 0 then Panic else Ok (off mod fat_sz c).

Definition mirror_lba (c : FatCache) (fat_num idx : Z) : Z :=
  fat0_lba c + fat_num * fat_sz c + idx.

(** *** Eviction *)

(** Write one sector back (primary and mirrors) and drop it; a failed write
    keeps it cached and dirty. *)
Definition writeback_and_drop (lba : Z) : cmd state bool := fun '(d, c) =>
  match sectors c !! lba with
  | None => ((d, c), Ok false)
  | Some data =>
      let writes :=
        do! _ := dev_write lba 1 data in
        if mirrored c then
          do! idx := cmd_res (local_idx c lba) in
          cmd_for (seqZ 1 (fats c - 1)) (fun fat_num => dev_write (mirror_lba c fat_num idx) 1 data)
        else cmd_ret tt in
      match writes (d, c) with
      | ((d, c), Ok _) =>
          let c := set_sectors (set_dirty c (dirty c ∖ {[lba]})) (delete lba (sectors c)) in
          let c := match list_find (fun x => x = lba) (clock c) with
                   | Some (pos, _) => set_clock c (swap_remove (clock c) pos) (clock_hand c)
                   | None => c
                   end in
          ((d, c), Ok true)
      | (s, Err _) => (s, Ok false)
      | (s, Panic) => (s, Panic)
      end
  end.

(** One pass over the clock that drops clean sectors; dirty ones are counted
    in [swept]. *)
Fixpoint sweep_loop (fuel target swept : nat) (c : FatCache) : res VfsError FatCache :=
  if (target <? size (sectors c))%nat && negb (bool_decide (clock c = [])) then
    match fuel with
    | O => Panic
    | S fuel =>
        if (length (clock c) <=? swept)%nat then Ok c
        else
          let hand := if (length (clock c) <=? clock_hand c)%nat then O else clock_hand c in
          match clock c !! hand with
          | None => Panic
          | Some lba =>
              if bool_decide (lba ∉ dirty c)
              then sweep_loop fuel target swept
                     (set_clock (set_sectors c (delete lba (sectors c)))
                        (swap_remove (clock c) hand) hand)
              else sweep_loop fuel target (S swept) (set_clock c (clock c) (S hand))
          end
    end
  else Ok c.

Definition sweep_clean (target : nat) (c : FatCache) : res VfsError (FatCache * bool) :=
  let? c := sweep_loop (S (length (clock c))) target 0 c in
  Ok (c, (size (sectors c) <=? target)%nat).

Definition dirty_batch (c : FatCache) (need : nat) : list Z :=
  take need (filter (fun lba => lba ∈ dirty c) (clock c)).

(** Make room for one sector: drop clean sectors, and when that is not enough
    write a batch of dirty ones back and sweep again. *)
Definition maybe_evict : cmd state unit := fun '(d, c) =>
  if (size (sectors c) <? MAX_FAT_CACHE_ENTRIES)%nat then ((d, c), Ok tt)
  else
    let target := (MAX_FAT_CACHE_ENTRIES - MAX_FAT_CACHE_ENTRIES / 4)%nat in
    match sweep_clean target c with
    | Ok (c, true) => ((d, c), Ok tt)
    | Ok (c, false) =>
        let batch := dirty_batch c (size (sectors c) - target) in
        match cmd_for batch (fun lba => do! _ := writeback_and_drop lba in cmd_ret tt) (d, c) with
        | ((d, c), Ok _) =>
            match sweep_clean target (set_clock c (clock c) 0) with
            | Ok (c, _) => ((d, c), Ok tt)
            | _ => ((d, c), Panic)
            end
        | (s, r) => (s, r)
        end
    | _ => ((d, c), Panic)
    end.

(** *** Lookup *)

(** Bring sector [lba] into the cache. *)
Definition ensure (lba : Z) : cmd state unit := fun '(d, c) =>
  if bool_decide (is_Some (sectors c !! lba)) then ((d, c), Ok tt)
  else
    match read_sectors d lba 1 with
    | Ok buf =>
        match maybe_evict (d, c) with
        | ((d, c), Ok _) =>
            ((d, set_clock (set_sectors c (<[lba := buf]> (sectors c))) (clock c ++ [lba])
                   (clock_hand c)), Ok tt)
        | (s, r) => (s, r)
        end
    | Err e => ((d, c), Err e)
    | Panic => ((d, c), Panic)
    end.

Definition get_or_read (lba : Z) : cmd state (list Z) :=
  do! _ := ensure lba in
  fun '(d, c) => ((d, c), ok_or (sectors c !! lba) IOError).

(** The sector is marked dirty; the caller's changes through the reference are
    [put_sector]. *)
Definition get_or_read_mut (lba : Z) : cmd state (list Z) :=
  do! _ := ensure lba in
  fun '(d, c) => ((d, set_dirty c ({[lba]} ∪ dirty c)), ok_or (sectors c !! lba) IOError).

Definition put_sector (lba : Z) (s : list Z) : cmd state unit := fun '(d, c) =>
  ((d, set_sectors c (<[lba := s]> (sectors c))), Ok tt).

(** *** Flush *)

(** The cached sectors [lba..lba+count] as one buffer. *)
Fixpoint gather (c : FatCache) (lbas : list Z) : res VfsError (list Z) :=
  match lbas with
  | [] => Ok []
  | lba :: lbas =>
      let? data := ok_or (sectors c !! lba) IOError in
      let? rest := gather c lbas in
      Ok (data ++ rest)
  end.

Definition flush_chunk (chunk_start chunk : Z) : cmd state unit := fun '(d, c) =>
  (do! buf := cmd_res (gather c (seqZ chunk_start chunk)) in
   do! _ := dev_write chunk_start chunk buf in
   if mirrored c then
     cmd_for (seqZ 1 (fats c - 1)) (fun fat_num =>
       do! idx := cmd_res (local_idx c chunk_start) in
       dev_write (mirror_lba c fat_num idx) chunk buf)
   else cmd_ret tt) (d, c).

(** [flush_run] from offset [off] on, in chunks of [PRDT_MAX_SECTORS]. *)
Fixpoint flush_run (fuel : nat) (start len off : Z) : cmd state unit :=
  if off <? len then
    match fuel with
    | O => cmd_res Panic
    | S fuel =>
        let chunk := Z.min PRDT_MAX_SECTORS (len - off) in
        do! _ := flush_chunk (start + off) chunk in
        flush_run fuel start len (off + chunk)
    end
  else cmd_ret tt.

(** The coalescing loop over the sorted dirty sectors after the first. *)
Fixpoint flush_runs (lbas : list Z) (run_start run_len : Z) : cmd state unit :=
  match lbas with
  | [] => flush_run (Z.to_nat run_len) run_start run_len 0
  | lba :: lbas =>
      if lba =? run_start + run_len then flush_runs lbas run_start (run_len + 1)
      else
        do! _ := flush_run (Z.to_nat run_len) run_start run_len 0 in
        flush_runs lbas lba 1
  end.

Definition flush : cmd state unit := fun '(d, c) =>
  match merge_sort Z.le (elements (dirty c)) with
  | [] => ((d, c), Ok tt)
  | lba :: lbas =>
      (do! _ := flush_runs lbas lba 1 in
       fun '(d, c) => ((d, set_dirty c ∅), Ok tt)) (d, c)
  end.

(** ** FAT entries *)

Definition FAT_MASK : Z := 268435455.

Definition read_fat_entry (b : Bpb) (cluster : Z) : cmd state Z :=
  do! pos := cmd_res (fat_entry_position b cluster) in
  do! sector := get_or_read (fat_sector_lba b (active_fat_idx b) pos.1) in
  do! v := cmd_res (le_at sector pos.2 4) in
  cmd_ret (Z.land v FAT_MASK).

(** [sector[off..off + bs.len()].copy_from_slice(bs)] *)
Definition copy_at (s : list Z) (off : Z) (bs : list Z) : res VfsError (list Z) :=
  if (0 <=? off) && (off + Z.of_nat (length bs) <=? Z.of_nat (length s))
  then Ok (splice s (Z.to_nat off) bs) else Panic.

Definition write_fat_entry (b : Bpb) (cluster value : Z) : cmd state unit :=
  do! pos := cmd_res (fat_entry_position b cluster) in
  let lba := fat_sector_lba b (active_fat_idx b) pos.1 in
  do! sector := get_or_read_mut lba in
  do! sector := cmd_res (copy_at sector pos.2 (le_bytes 4 (Z.land value FAT_MASK))) in
  put_sector lba sector.
End Driver.
