(* ===== verification/Fat32Facts.v ===== *)
(** * Correctness of the FAT cache

    The invariant of the write-back cache, its preservation by eviction, lookup,
    update and flush on a device that may fail at any request, and the entry
    reads and writes against the table they implement. *)

From S2P Require Import Prelude Bits Errors BlockDev Fat32.
From stdpp Require Import sorting.
Import Errors.Vfs.
Local Open Scope Z_scope.

(** ** The clock *)

Lemma swap_remove_perm l i x : l !! i = Some x -> l ≡ₚ x :: swap_remove l i.
Proof.
  intros Hi. pose proof (lookup_lt_Some _ _ _ Hi) as Hlt. unfold swap_remove.
  destruct (last l) as [y|] eqn:Hy; [|by apply last_None in Hy as ->].
  apply last_Some in Hy as [l' ->]. rewrite length_app in *. simpl in *.
  replace (length l' + 1 - 1)%nat with (length l') by lia.
  destruct (decide (i = length l')) as [->|Hne].
  - rewrite lookup_app_r, Nat.sub_diag in Hi by lia. simplify_eq/=.
    rewrite insert_app_r_alt, Nat.sub_diag by lia. simpl. rewrite take_app_length.
    by rewrite Permutation_app_comm.
  - rewrite insert_app_l by lia. rewrite lookup_app_l in Hi by lia.
    rewrite take_app_length' by (by rewrite length_insert).
    apply list_elem_of_split_length in Hi as (l1 & l2 & -> & ->).
    rewrite insert_app_r_alt, Nat.sub_diag by lia. simpl.
    rewrite (Permutation_app_comm _ [y]). simpl. rewrite <- !Permutation_middle. apply Permutation_swap.
Qed.

(** ** Invariant *)

Section Cache.
Context `{Profile} `{WriteDevice D} (b : Bpb).

(** A volume the cache works on: 512-byte sectors, at least one FAT, and a FAT
    that has an entry for every cluster. *)
Record bpb_ok : Prop := {
  bo_sector : bytes_per_sec b = 512;
  bo_rsvd : 1 <= rsvd_sec_cnt b;
  bo_fats : 1 <= num_fats b;
  bo_fat_sz : 1 <= fat_sz32 b < 2 ^ 32;
  bo_ext : 0 <= ext_flags b;
  bo_covers : 0 <= total_clus b /\ (total_clus b + 2) * 4 <= fat_sz32 b * 512
}.

Definition base : Z := fat_sector_lba b (active_fat_idx b) 0.
Definition primary (lba : Z) : Prop := base <= lba < base + fat_sz32 b.

(** The content of a FAT sector: the cached one if there is one. *)
Definition view (s : state) (lba : Z) : list Z := default (sector s.1 lba) (sectors s.2 !! lba).

Record inv (s : state) : Prop := {
  i_fat0 : fat0_lba s.2 = fat_sector_lba b 0 0;
  i_fat_sz : fat_sz s.2 = fat_sz32 b;
  i_fats : fats s.2 = num_fats b;
  i_mirrored : mirrored s.2 = (Z.land (ext_flags b) 128 =? 0);
  i_primary lba : is_Some (sectors s.2 !! lba) -> primary lba;
  i_sector lba d : sectors s.2 !! lba = Some d -> length d = 512%nat /\ bytes_ok d;
  i_dirty lba : lba ∈ dirty s.2 -> is_Some (sectors s.2 !! lba);
  i_clean lba d : sectors s.2 !! lba = Some d -> lba ∉ dirty s.2 -> d = sector s.1 lba;
  i_nodup : NoDup (clock s.2);
  i_clock lba : lba ∈ clock s.2 <-> is_Some (sectors s.2 !! lba)
}.

(** Copy [k] of a FAT sector; a volume without mirroring has copy 0 only. *)
Definition copies : Z := if Z.land (ext_flags b) 128 =? 0 then num_fats b else 1.

Definition agree (d : D) (lba : Z) : Prop := forall k, 0 <= k < copies -> sector d (lba + k * fat_sz32 b) = sector d lba.

Definition untouched (d d' : D) (lba : Z) : Prop :=
  forall k, 0 <= k < copies -> sector d' (lba + k * fat_sz32 b) = sector d (lba + k * fat_sz32 b).

(** No FAT sector is left with copies that differ: it waits to be written, its copies
    agree, or it was clean and they are as they were. *)
Definition mirrors_ok (s s' : state) : Prop := forall lba, primary lba ->
  lba ∈ dirty s'.2 \/ agree s'.1 lba \/ (lba ∉ dirty s.2 /\ untouched s.1 s'.1 lba).

Lemma mirrors_trans s1 s2 s3 : mirrors_ok s1 s2 -> mirrors_ok s2 s3 -> mirrors_ok s1 s3.
Proof.
  intros Ha Hb lba Hp. destruct (Hb lba Hp) as [|[|[Hd Hu]]]; [by left|by right; left|].
  assert (0 < copies -> sector s3.1 lba = sector s2.1 lba) as H0'.
  { intros Hc. specialize (Hu 0 ltac:(lia)). by rewrite Z.mul_0_l, Z.add_0_r in Hu. }
  destruct (Ha lba Hp) as [|[Hag|[Hd1 Hu1]]]; [done| |].
  - right; left. intros k Hk. rewrite (Hu k Hk), (Hag k Hk). symmetry. apply H0'. lia.
  - right; right. split; [done|]. intros k Hk. by rewrite (Hu k Hk), (Hu1 k Hk).
Qed.

(** A step of the cache alone that forgets no dirty sector. *)
Lemma mirrors_cache d c c' : dirty c ⊆ dirty c' -> mirrors_ok (d, c) (d, c').
Proof. intros Hd lba _. destruct (decide (lba ∈ dirty c)); [left; set_solver|by right; right]. Qed.

Definition same (s s' : state) : Prop := (forall lba, primary lba -> view s' lba = view s lba) /\ mirrors_ok s s'.

(** A run from [s] does not panic, keeps the invariant and the content of the
    FAT whatever its result, and establishes [post] when it succeeds. *)
Definition run_ok {A} (s : state) (m : cmd state A) (post : state -> A -> Prop) : Prop :=
  no_panic (m s).2 /\ inv (m s).1 /\ same s (m s).1
  /\ forall a, (m s).2 = Ok a -> post (m s).1 a.

Lemma same_trans s1 s2 s3 : same s1 s2 -> same s2 s3 -> same s1 s3.
Proof.
  intros [Ha Ha'] [Hb Hb']. split; [|by eapply mirrors_trans]. intros lba Hp. by rewrite Hb, Ha.
Qed.

Lemma views_refl s : same s s.
Proof. split; [done|]. destruct s. by apply mirrors_cache. Qed.

Lemma same_view s s' lba : same s s' -> primary lba -> view s' lba = view s lba.
Proof. intros [Hs _]. apply Hs. Qed.
#[local] Hint Resolve views_refl : core.

Lemma run_ok_ret {A} s (a : A) (post : state -> A -> Prop) :
  inv s -> post s a -> run_ok s (cmd_ret a) post.
Proof. intros Hi Hp. split_and!; [done|done|done|]. by intros a' [= <-]. Qed.

Lemma run_ok_bind {A B} s (m : cmd state A) (k : A -> cmd state B) post1 post2 :
  run_ok s m post1 ->
  (forall s' a, inv s' -> same s s' -> post1 s' a -> run_ok s' (k a) post2) ->
  run_ok s (cmd_bind m k) post2.
Proof.
  intros (Hn & Hi & Hs & Hp) Hk. unfold run_ok, cmd_bind.
  destruct (m s) as [s' [a|e|]]; simpl in *; [|split_and!; done|done].
  destruct (Hk s' a Hi Hs (Hp a eq_refl)) as (Hn' & Hi' & Hs' & Hp').
  split_and!; [done|done|by eapply same_trans|done].
Qed.

Lemma run_ok_weaken {A} s (m : cmd state A) (post1 post2 : state -> A -> Prop) :
  run_ok s m post1 -> (forall s' a, inv s' -> post1 s' a -> post2 s' a) -> run_ok s m post2.
Proof. intros (Hn & Hi & Hs & Hp) Hw. split_and!; [done|done|done|]. eauto. Qed.

Lemma run_ok_res {A} s (r : res VfsError A) (post : state -> A -> Prop) :
  inv s -> no_panic r -> (forall a, r = Ok a -> post s a) -> run_ok s (cmd_res r) post.
Proof. intros Hi Hr Hp. split_and!; done. Qed.

(** Loop rule: [J] is kept, each body establishes its [Q], and every [Q] once
    established stays. *)
Lemma run_ok_for {A} (l : list A) (body : A -> cmd state unit) (J : state -> Prop)
  (Q : A -> state -> Prop) s :
  inv s -> J s ->
  (forall x s, x ∈ l -> inv s -> J s ->
    run_ok s (body x) (fun s' _ => J s' /\ Q x s' /\ forall y, Q y s -> Q y s')) ->
  run_ok s (cmd_for l body) (fun s' _ => J s' /\ (forall x, x ∈ l -> Q x s') /\ forall y, Q y s -> Q y s').
Proof.
  revert s. induction l as [|x l IH]; intros s Hi HJ Hb; simpl.
  { apply run_ok_ret; [done|]. split_and!; [done|set_solver|done]. }
  eapply run_ok_bind; [apply Hb; [set_solver|done|done]|].
  intros s' _ Hi' _ (HJ' & HQ' & Hst). eapply run_ok_weaken; [apply IH|].
  - done.
  - done.
  - intros y s1 Hy. apply Hb. set_solver.
  - intros s2 _ _ (HJ2 & HQ2 & Hst2). split_and!; [done| |auto].
    intros y [->|Hy]%elem_of_cons; auto.
Qed.

(** ** Device writes *)

Definition copied (s : state) (lba k : Z) : Prop :=
  sectors s.2 !! lba = Some (sector s.1 (lba + k * fat_sz32 b)).

(** The copies that are up to date stay so. *)
Definition keeps (s s' : state) : Prop :=
  s'.2 = s.2 /\ forall lba k, primary lba -> 0 <= k < copies -> copied s lba k -> copied s' lba k.

(** [buf] holds the cached sectors [lba..lba+n]. *)
Definition image_of (c : FatCache) (lba n : Z) (buf : list Z) : Prop :=
  Z.of_nat (length buf) = 512 * n /\ bytes_ok buf
  /\ forall l, lba <= l < lba + n ->
     sectors c !! l = Some (take 512 (drop (Z.to_nat (512 * (l - lba))) buf)).

Lemma copies_mirrored s : inv s -> mirrored s.2 = true -> copies = fats s.2.
Proof. intros Hi Hm. unfold copies. by rewrite <- (i_mirrored s Hi), Hm, (i_fats s Hi). Qed.

Lemma copies_single s : inv s -> mirrored s.2 = false -> copies = 1.
Proof. intros Hi Hm. unfold copies. by rewrite <- (i_mirrored s Hi), Hm. Qed.

(** Only copies of dirty sectors, or sectors outside the FATs, are written. *)
Lemma dev_write_ok s lba n buf : 0 < copies ->
  inv s -> (forall l k, primary l -> 0 <= k < copies -> lba <= l + k * fat_sz32 b < lba + n -> l ∈ dirty s.2) ->
  run_ok s (dev_write lba n buf)
    (fun s' _ => s' = ((write_sectors s.1 lba n buf).1, s.2)
                 /\ (write_sectors s.1 lba n buf).2 = Ok tt).
Proof.
  intros Hc0 Hi Hdk. assert (forall l, lba <= l < lba + n -> primary l -> l ∈ dirty s.2) as Hd.
  { intros l Hl Hp. apply (Hdk l 0); [done|lia|lia]. }
  destruct s as [d c]. unfold run_ok, dev_write.
  pose proof (write_sectors_no_panic d lba n buf) as Hn.
  pose proof (write_sectors_frame d lba n buf) as Hf.
  destruct (write_sectors d lba n buf) as [d' r] eqn:Ew; simpl in *. split_and!; [done| | |].
  - destruct Hi; simpl in *. constructor; simpl; try done.
    intros l x Hl Hnd. rewrite Hf; [by apply i_clean0|].
    intros Hr. apply Hnd, Hd; [done|]. apply i_primary0. by exists x.
  - split.
    + intros l Hp. unfold view. simpl. destruct (sectors c !! l) as [x|] eqn:Hl; [done|].
      simpl. apply Hf. intros Hr. destruct (i_dirty _ Hi l (Hd l Hr Hp)) as [x Hx].
      simpl in Hx. congruence.
    + intros l Hp. destruct (decide (l ∈ dirty c)) as [|Hnd]; [by left|right; right]. split; [done|].
      intros k Hk. apply Hf. intros Hr. by apply Hnd, (Hdk l k).
  - intros [] Hok. rewrite Ew. simpl. by subst r.
Qed.

Lemma write_copy_ok (Hb : bpb_ok) s lba n buf k :
  inv s -> primary lba -> primary (lba + n - 1) -> 1 <= n ->
  (forall l, lba <= l < lba + n -> l ∈ dirty s.2) -> image_of s.2 lba n buf ->
  0 <= k < copies ->
  run_ok s (dev_write (lba + k * fat_sz32 b) n buf)
    (fun s' _ => keeps s s' /\ forall l, lba <= l < lba + n -> copied s' l k).
Proof.
  intros Hi Hp1 Hp2 Hn Hd (Hlen & Hbytes & Himg) Hk.
  assert (0 <= base) as Hbase.
  { unfold base, fat_sector_lba, active_fat_idx. destruct Hb.
    destruct (negb _); [|lia]. assert (0 <= Z.land (ext_flags b) 15) by (apply Z.land_nonneg; lia).
    nia. }
  pose proof (bo_fat_sz Hb) as Hsz. unfold primary in *.
  eapply run_ok_weaken; [apply dev_write_ok; [lia|done|]|].
  { intros l k' Hpl Hk' Hl. apply Hd. unfold primary in Hpl. assert (k' = k) by nia. subst k'. lia. }
  intros s' _ _ [-> Hw]. simpl.
  assert (forall l, lba <= l < lba + n ->
    copied ((write_sectors s.1 (lba + k * fat_sz32 b) n buf).1, s.2) l k) as Hcp.
  { intros l Hl. unfold copied. simpl.
    rewrite (write_sectors_ok s.1 (lba + k * fat_sz32 b) n buf) by (done || nia).
    rewrite (Himg l Hl). do 4 f_equal. lia. }
  split; [|done]. split; [done|]. intros l k' Hpl Hk' Hc. simpl.
  destruct (decide (lba <= l < lba + n /\ k' = k)) as [[Hr ->]|Hne]; [by apply Hcp|].
  unfold copied in *. simpl. rewrite write_sectors_frame; [done|].
  unfold primary in Hpl. intros Hr. apply Hne. assert (k' = k) by nia. subst k'. split; [nia|done].
Qed.

Lemma keeps_refl s : keeps s s.
Proof. by split. Qed.

Lemma keeps_trans s1 s2 s3 : keeps s1 s2 -> keeps s2 s3 -> keeps s1 s3.
Proof. intros [Ha Hk] [Ha' Hk']. split; [congruence|]. auto. Qed.

(** A write of a dirty range to the FAT in use and all its mirrors. *)
Lemma write_all_ok (Hb : bpb_ok) s lba n buf (mirrors : cmd state unit) :
  inv s -> primary lba -> primary (lba + n - 1) -> 1 <= n ->
  (forall l, lba <= l < lba + n -> l ∈ dirty s.2) -> image_of s.2 lba n buf ->
  (mirrored s.2 = true -> exists body, mirrors = cmd_for (seqZ 1 (fats s.2 - 1)) body
     /\ forall k, body k = dev_write (lba + k * fat_sz32 b) n buf) ->
  (mirrored s.2 = false -> mirrors = cmd_ret tt) ->
  run_ok s (do! _ := dev_write lba n buf in mirrors)
    (fun s' _ => keeps s s'
       /\ forall l k, lba <= l < lba + n -> 0 <= k < copies -> copied s' l k).
Proof.
  intros Hi Hp1 Hp2 Hn Hd Himg Hm1 Hm0.
  assert (0 < copies) as Hc0 by (unfold copies; destruct Hb; destruct (_ =? 0); lia).
  pose proof (write_copy_ok Hb s lba n buf 0 Hi Hp1 Hp2 Hn Hd Himg ltac:(lia)) as Hw.
  rewrite Z.mul_0_l, Z.add_0_r in Hw. eapply run_ok_bind; [exact Hw|]. clear Hw.
  intros s1 _ Hi1 _ [Hk1 Hz]. pose proof (proj1 Hk1) as Hcache.
  destruct (mirrored s.2) eqn:Em; cycle 1.
  { rewrite Hm0 by done. apply run_ok_ret; [done|]. split; [done|]. intros l k Hl Hk.
    rewrite (copies_single s) in Hk by done. assert (k = 0) as -> by lia. by apply Hz. }
  destruct (Hm1 eq_refl) as (body & -> & Hbody).
  rewrite <- (copies_mirrored s) by done.
  eapply run_ok_weaken; [apply (run_ok_for _ _ (fun s' => keeps s1 s')
    (fun k s' => forall l, lba <= l < lba + n -> 0 <= k < copies -> copied s' l k))|].
  - done.
  - apply keeps_refl.
  - intros k s2 Hk Hi2 Hk2. apply elem_of_seqZ in Hk. rewrite Hbody.
    assert (s2.2 = s.2) as Hc2 by (destruct Hk2; congruence).
    eapply run_ok_weaken; [apply (write_copy_ok Hb s2 lba n buf k)|];
      [done|done|done|done|by rewrite Hc2|by rewrite Hc2|lia|].
    intros s3 _ _ [Hk3 Hc3]. split_and!; [by eapply keeps_trans|auto|].
    intros y Hy l Hl Hyc. apply Hk3; [unfold primary in *; lia|done|by apply Hy].
  - intros s2 _ _ (Hk2 & Hq & Hst). split; [by eapply keeps_trans|]. intros l k Hl Hk.
    destruct (decide (k = 0)) as [->|]; [apply Hk2; [unfold primary in *; lia|done|by apply Hz]|].
    apply Hq; [apply elem_of_seqZ; lia|done|done].
Qed.

Lemma local_idx_ok (Hb : bpb_ok) s lba : inv s -> mirrored s.2 = true -> primary lba ->
  local_idx s.2 lba = Ok (lba - rsvd_sec_cnt b)
  /\ forall k, mirror_lba s.2 k (lba - rsvd_sec_cnt b) = lba + k * fat_sz32 b.
Proof.
  intros Hi Hm Hp. rewrite (i_mirrored s Hi) in Hm.
  assert (fat0_lba s.2 = rsvd_sec_cnt b) as Hf0
    by (rewrite (i_fat0 s Hi); unfold fat_sector_lba; lia).
  assert (rsvd_sec_cnt b <= lba < rsvd_sec_cnt b + fat_sz32 b) as Hr.
  { unfold primary, base, fat_sector_lba, active_fat_idx in Hp. rewrite Hm in Hp. simpl in Hp. lia. }
  pose proof (bo_fat_sz Hb) as Hsz. unfold local_idx, mirror_lba, u64_sub.
  rewrite Hf0, (i_fat_sz s Hi), u64_op_Ok by (unfold u64_max; lia). cbn [res_bind].
  rewrite (proj2 (Z.eqb_neq _ _)) by lia. rewrite Z.mod_small by lia.
  split; [done|]. intros k. lia.
Qed.

(** ** Eviction *)

Lemma inv_clock_length s : inv s -> length (clock s.2) = size (sectors s.2).
Proof.
  intros Hi. rewrite <- size_dom, <- (size_list_to_set (C := gset Z) (clock s.2)) by apply Hi.
  f_equal. apply leibniz_equiv. intros lba. rewrite elem_of_list_to_set, elem_of_dom. apply Hi.
Qed.

(** Dropping a sector the device has, through any clock without it. *)
Lemma drop_ok d c lba x l' h :
  inv (d, c) -> sectors c !! lba = Some x -> x = sector d lba -> (lba ∈ dirty c -> agree d lba) -> clock c ≡ₚ lba :: l' ->
  let s' := (d, set_clock (set_sectors (set_dirty c (dirty c ∖ {[lba]})) (delete lba (sectors c))) l' h) in
  inv s' /\ same (d, c) s'.
Proof.
  intros Hi Hx Hdev Hag Hperm. split.
  - assert (NoDup (lba :: l')) as Hnd by (rewrite <- Hperm; apply Hi).
    apply NoDup_cons in Hnd as [Hnin Hnd]. destruct Hi; simpl in *. constructor; simpl; try done.
    + intros l [y [_ Hy]%lookup_delete_Some]. eauto.
    + intros l y [_ Hy]%lookup_delete_Some. eauto.
    + intros l Hl. apply elem_of_difference in Hl as [Hl Hne].
      rewrite lookup_delete_ne by set_solver. auto.
    + intros l y [Hne Hy]%lookup_delete_Some Hnd'. apply i_clean0; [done|set_solver].
    + intros l. specialize (i_clock0 l). rewrite Hperm in i_clock0.
      destruct (decide (l = lba)) as [->|Hne].
      * rewrite lookup_delete_eq. split; [done|by intros []].
      * rewrite lookup_delete_ne by done. rewrite <- i_clock0. set_solver.
  - split; intros l Hp.
    + unfold view. simpl. destruct (decide (l = lba)) as [->|Hne].
      * rewrite lookup_delete_eq, Hx. simpl. by rewrite Hdev.
      * by rewrite lookup_delete_ne by done.
    + cbn [fst snd dirty set_dirty set_sectors set_clock]. destruct (decide (l ∈ dirty c)); [|by right; right].
      destruct (decide (l = lba)) as [->|]; [right; left; auto|left; set_solver].
Qed.

Lemma set_hand_ok s h : inv s ->
  inv (s.1, set_clock s.2 (clock s.2) h) /\ same s (s.1, set_clock s.2 (clock s.2) h).
Proof. intros []. split; [by constructor|]. split; [done|]. destruct s. by apply mirrors_cache. Qed.

Lemma set_dirty_id c lba : lba ∉ dirty c -> set_dirty c (dirty c ∖ {[lba]}) = c.
Proof.
  intros Hn. unfold set_dirty. replace (dirty c ∖ {[lba]}) with (dirty c); [by destruct c|].
  apply leibniz_equiv. set_solver.
Qed.

Lemma sweep_loop_ok target d fuel : forall swept c,
  inv (d, c) -> (length (clock c) < swept + fuel)%nat -> (swept <= length (clock c))%nat ->
  exists c', sweep_loop fuel target swept c = Ok c' /\ inv (d, c') /\ same (d, c) (d, c')
    /\ sectors c' ⊆ sectors c.
Proof.
  induction fuel as [|fuel IH]; intros swept c Hi Hf Hs; [lia|]. cbn [sweep_loop].
  destruct (_ && _); [|by exists c].
  destruct (Nat.leb_spec (length (clock c)) swept) as [|Esw]; [by exists c|]. cbv zeta.
  set (hand := if (_ <=? clock_hand c)%nat then O else clock_hand c).
  assert (hand < length (clock c))%nat as Hh by (unfold hand; destruct (Nat.leb_spec (length (clock c)) (clock_hand c)); lia).
  destruct (clock c !! hand) as [lba|] eqn:Hl; [|apply lookup_ge_None in Hl; lia].
  case_bool_decide as Hd.
  - pose proof (swap_remove_perm _ _ _ Hl) as Hperm.
    destruct (proj1 (i_clock _ Hi lba)) as [x Hx]; [by eapply list_elem_of_lookup_2|].
    destruct (drop_ok d c lba x (swap_remove (clock c) hand) hand Hi Hx) as [Hi' Hsame];
      [exact (i_clean _ Hi lba x Hx Hd)|done|done|]. rewrite set_dirty_id in Hi', Hsame by done.
    apply Permutation_length in Hperm. simpl in Hperm.
    edestruct (IH swept) as (c' & Hc' & Hic' & Hsc' & Hsub); [exact Hi'|simpl; lia|simpl; lia|].
    exists c'. split_and!; [done|done|by eapply same_trans|].
    etrans; [exact Hsub|]. apply delete_subseteq.
  - destruct (set_hand_ok (d, c) (S hand) Hi) as [Hi' Hsame]. simpl in Hi', Hsame.
    edestruct (IH (S swept)) as (c' & Hc' & Hic' & Hsc' & Hsub); [exact Hi'|simpl; lia|simpl; lia|].
    exists c'. split_and!; [done|done|by eapply same_trans|done].
Qed.

Lemma sweep_clean_ok target d c : inv (d, c) ->
  exists c' r, sweep_clean target c = Ok (c', r) /\ inv (d, c') /\ same (d, c) (d, c')
    /\ sectors c' ⊆ sectors c.
Proof.
  intros Hi. unfold sweep_clean.
  destruct (sweep_loop_ok target d (S (length (clock c))) 0 c) as (c' & -> & Hi' & Hs & Hsub);
    [done|lia|lia|]. by eexists _, _.
Qed.

(** Device writes leave the cache alone, whatever their result. *)
Definition frozen {A} (m : cmd (D * FatCache) A) : Prop := forall s, (m s).1.2 = s.2.

Lemma frozen_bind {A B} (m : cmd state A) (k : A -> cmd state B) :
  frozen m -> (forall a, frozen (k a)) -> frozen (cmd_bind m k).
Proof.
  intros Hm Hk s. specialize (Hm s). unfold cmd_bind.
  destruct (m s) as [s' [a|e|]]; simpl in *; [|done|done]. by rewrite Hk.
Qed.

Lemma frozen_for {A} (l : list A) body : (forall x, frozen (body x)) -> frozen (cmd_for l body).
Proof. intros Hb. induction l; simpl; [done|]. by apply frozen_bind. Qed.

Lemma frozen_dev_write lba n buf : frozen (dev_write lba n buf).
Proof. intros [d c]. unfold dev_write. by destruct (write_sectors _ _ _ _). Qed.

Lemma writeback_ok (Hb : bpb_ok) s lba : inv s -> lba ∈ dirty s.2 ->
  run_ok s (writeback_and_drop lba)
    (fun s' _ => sectors s'.2 ⊆ sectors s.2
       /\ forall l, l <> lba -> l ∈ dirty s.2 -> l ∈ dirty s'.2).
Proof.
  intros Hi Hd. destruct s as [d c]. destruct (i_dirty _ Hi lba Hd) as [x Hx]. simpl in Hd, Hx.
  assert (primary lba) as Hp by (apply (i_primary _ Hi); by exists x).
  destruct (i_sector _ Hi lba x Hx) as [Hlen Hbytes].
  unfold run_ok, writeback_and_drop. rewrite Hx.
  set (mirrors := if mirrored c then _ else cmd_ret tt).
  assert (frozen (do! _ := dev_write lba 1 x in mirrors)) as Hfz.
  { apply frozen_bind; [apply frozen_dev_write|]. intros _. unfold mirrors.
    destruct (mirrored c); [|done]. apply frozen_bind; [done|]. intros idx.
    apply frozen_for. intros k. apply frozen_dev_write. }
  specialize (Hfz (d, c)).
  destruct (write_all_ok Hb (d, c) lba 1 x mirrors) as (Hn & Hi' & Hs & Hpost).
  - done.
  - done.
  - by replace (lba + 1 - 1) with lba by lia.
  - lia.
  - intros l Hl. by replace l with lba by lia.
  - split_and!; [lia|done|]. intros l Hl. assert (l = lba) as -> by lia.
    rewrite Z.sub_diag. simpl. rewrite drop_0, Hx. f_equal. symmetry. apply take_ge. lia.
  - intros Hm. unfold mirrors. simpl in Hm. rewrite Hm.
    destruct (local_idx_ok Hb (d, c) lba Hi Hm Hp) as [Hidx Hmir]. simpl in Hidx, Hmir.
    rewrite Hidx. eexists. split; [reflexivity|]. intros k. cbv beta. by rewrite Hmir.
  - intros Hm. unfold mirrors. simpl in Hm. by rewrite Hm.
  - destruct ((do! _ := dev_write lba 1 x in mirrors) (d, c)) as [[d' c'] [u|e|]];
      simpl in Hn, Hi', Hs, Hfz |- *; subst c'; [|split_and!; done|done].
    destruct (Hpost u eq_refl) as [_ Hcp].
    assert (sectors c !! lba = Some (sector d' lba)) as Hdev.
    { specialize (Hcp lba 0). unfold copied in Hcp. simpl in Hcp. rewrite Z.add_0_r in Hcp.
      apply Hcp; [lia|]. unfold copies. destruct Hb. destruct (_ =? 0); lia. }
    assert (lba ∈ clock c) as Hin by (apply (i_clock _ Hi); by exists x).
    destruct (list_find (fun y => y = lba) (clock c)) as [[pos y]|] eqn:Ef; cycle 1.
    { exfalso. apply list_find_None in Ef. rewrite Forall_forall in Ef. by apply (Ef lba). }
    apply list_find_Some in Ef as (Hpos & -> & _).
    destruct (drop_ok d' c lba x (swap_remove (clock c) pos) (clock_hand c) Hi' Hx) as [Hi2 Hs2];
      [congruence| |by apply swap_remove_perm|].
    { intros _ k Hk. specialize (Hcp lba k ltac:(lia) Hk). unfold copied in Hcp. cbn [fst snd] in Hcp. congruence. }
    split_and!; [done|exact Hi2|by eapply same_trans|]. simpl.
    intros _ _. split; [apply delete_subseteq|set_solver].
Qed.

Lemma batch_ok (Hb : bpb_ok) l : forall s, inv s -> NoDup l -> (forall x, x ∈ l -> x ∈ dirty s.2) ->
  run_ok s (cmd_for l (fun lba => do! _ := writeback_and_drop lba in cmd_ret tt))
    (fun s' _ => sectors s'.2 ⊆ sectors s.2).
Proof.
  induction l as [|x l IH]; intros s Hi Hnd Hd; simpl; [by apply run_ok_ret|].
  apply NoDup_cons in Hnd as [Hx Hnd].
  apply (run_ok_bind s _ _ (fun s' _ => sectors s'.2 ⊆ sectors s.2
    /\ forall l, l <> x -> l ∈ dirty s.2 -> l ∈ dirty s'.2)).
  - eapply run_ok_bind; [apply writeback_ok; [done|done|set_solver]|].
    intros s' r Hi' _ Hk. apply run_ok_ret; [done|]. exact Hk.
  - intros s' _ Hi' _ [Hsub Hk]. eapply run_ok_weaken; [apply IH; [done|done|]|].
    + intros y Hy. apply Hk; [set_solver|]. apply Hd. set_solver.
    + intros s2 u _ Hsub2. etrans; [exact Hsub2|exact Hsub].
Qed.

Lemma dirty_batch_ok s n : inv s ->
  NoDup (dirty_batch s.2 n) /\ forall x, x ∈ dirty_batch s.2 n -> x ∈ dirty s.2.
Proof.
  intros Hi. unfold dirty_batch. split.
  - pose proof (NoDup_filter (fun lba => lba ∈ dirty s.2) _ (i_nodup s Hi)) as Hnd.
    rewrite <- (take_drop n) in Hnd. by apply NoDup_app in Hnd as [Hnd _].
  - intros x Hx. assert (x ∈ filter (fun lba => lba ∈ dirty s.2) (clock s.2)) as Hf.
    { rewrite <- (take_drop n (filter _ _)). apply elem_of_app. by left. }
    apply list_elem_of_filter in Hf. tauto.
Qed.

Lemma maybe_evict_ok (Hb : bpb_ok) s : inv s ->
  run_ok s maybe_evict (fun s' _ => sectors s'.2 ⊆ sectors s.2).
Proof.
  intros Hi. destruct s as [d c]. unfold run_ok, maybe_evict.
  destruct (_ <? _)%nat; [by split_and!; [| | |intros]|].
  set (target := (MAX_FAT_CACHE_ENTRIES - MAX_FAT_CACHE_ENTRIES / 4)%nat).
  destruct (sweep_clean_ok target d c Hi) as (c1 & r1 & -> & Hi1 & Hs1 & Hsub1).
  destruct r1; [by split_and!; [| | |intros]|].
  destruct (dirty_batch_ok (d, c1) (size (sectors c1) - target) Hi1) as [Hnd Hdirty].
  destruct (batch_ok Hb _ (d, c1) Hi1 Hnd Hdirty) as (Hn & Hi2 & Hs2 & Hsub2). simpl in Hn, Hi2, Hs2, Hsub2.
  cbv zeta. revert Hn Hi2 Hs2 Hsub2.
  match goal with |- no_panic (?m).2 -> _ => generalize m end.
  intros [[d2 c2] [u|e|]] Hn Hi2 Hs2 Hsub2; simpl in Hn, Hi2, Hs2, Hsub2.
  - destruct (set_hand_ok (d2, c2) 0 Hi2) as [Hi3 Hs3]. simpl in Hi3, Hs3.
    destruct (sweep_clean_ok target d2 _ Hi3) as (c4 & r4 & -> & Hi4 & Hs4 & Hsub4).
    split_and!; [done|done| |].
    + by do 3 (eapply same_trans; [done|]).
    + intros _ _. etrans; [exact Hsub4|]. etrans; [exact (Hsub2 u eq_refl)|done].
  - split_and!; [done|done|by eapply same_trans|done].
  - done.
Qed.

(** Eviction reports no errors. *)
Definition total {A} (m : cmd (D * FatCache) A) : Prop := forall s e, (m s).2 <> Err e.

Lemma total_for {A} (l : list A) body : (forall x, total (body x)) -> total (cmd_for l body).
Proof.
  intros Hb. induction l as [|x l IH]; intros s e; simpl; [done|]. unfold cmd_bind.
  specialize (Hb x s). destruct (body x s) as [s' [u|e'|]]; simpl in *; [apply IH|by apply Hb|done].
Qed.

Lemma writeback_total lba : total (writeback_and_drop lba).
Proof.
  intros [d c] e. unfold writeback_and_drop. destruct (sectors c !! lba); [|done]. cbv zeta.
  match goal with |- context [match ?m with _ => _ end] => destruct m as [[d' c'] [u|e'|]] end; done.
Qed.

Lemma batch_total l :
  total (cmd_for l (fun lba => do! _ := writeback_and_drop lba in cmd_ret tt)).
Proof.
  apply total_for. intros x s e. unfold cmd_bind. pose proof (writeback_total x s) as Hw.
  destruct (writeback_and_drop x s) as [s2 [u|e2|]]; [done|by destruct (Hw e2)|done].
Qed.

Lemma maybe_evict_Ok (Hb : bpb_ok) s : inv s -> (maybe_evict s).2 = Ok tt.
Proof.
  intros Hi. destruct (maybe_evict_ok Hb s Hi) as [Hn _]. destruct s as [d c].
  assert (forall e, (maybe_evict (d, c)).2 <> Err e) as Ht.
  { intros e. unfold maybe_evict. destruct (_ <? _)%nat; [done|]. cbv zeta.
    destruct (sweep_clean _ c) as [[c1 []]| |]; [done| |done..].
    match goal with |- context [cmd_for ?l _ _] => pose proof (batch_total l (d, c1) e) as Ht end.
    destruct (cmd_for _ _ _) as [[d2 c2] [u|e2|]]; [|done..].
    by destruct (sweep_clean _ _) as [[]| |]. }
  destruct (maybe_evict (d, c)) as [s' [[]|e|]]; [done|by destruct (Ht e)|done].
Qed.

(** ** Lookup *)

Lemma insert_ok d c lba : inv (d, c) -> primary lba -> sectors c !! lba = None ->
  let s' := (d, set_clock (set_sectors c (<[lba := sector d lba]> (sectors c))) (clock c ++ [lba])
                  (clock_hand c)) in
  inv s' /\ same (d, c) s'.
Proof.
  intros Hi Hp Hn. split.
  - assert (lba ∉ clock c) as Hnin by (rewrite (i_clock _ Hi lba); simpl; rewrite Hn; by intros []).
    destruct Hi; simpl in *. constructor; simpl; try done.
    + intros l. destruct (decide (l = lba)) as [->|]; [done|]. rewrite lookup_insert_ne by done. auto.
    + intros l x [[-> <-]|[_ Hx]]%lookup_insert_Some; [|by eapply i_sector0].
      split; [apply sector_length|apply sector_bytes].
    + intros l Hl. destruct (decide (l = lba)) as [->|]; [rewrite lookup_insert_eq; by eexists|].
      rewrite lookup_insert_ne by done. auto.
    + intros l x [[-> <-]|[_ Hx]]%lookup_insert_Some; auto.
    + apply NoDup_app. split_and!; [done|set_solver|apply NoDup_singleton].
    + intros l. rewrite elem_of_app, i_clock0, list_elem_of_singleton.
      destruct (decide (l = lba)) as [->|]; [rewrite lookup_insert_eq; naive_solver|].
      rewrite lookup_insert_ne by done. naive_solver.
  - split; [|by apply mirrors_cache]. intros l _. unfold view. simpl. destruct (decide (l = lba)) as [->|].
    + by rewrite lookup_insert_eq, Hn.
    + by rewrite lookup_insert_ne by done.
Qed.

Lemma read_one_ok (d : D) lba buf : read_sectors d lba 1 = Ok buf -> buf = sector d lba.
Proof. intros ->%read_sectors_ok. by rewrite seqZ_cons by lia; simpl; rewrite app_nil_r. Qed.

Lemma ensure_ok (Hb : bpb_ok) s lba : inv s -> primary lba ->
  run_ok s (ensure lba) (fun s' _ => sectors s'.2 !! lba = Some (view s lba))
  /\ ((exists buf, read_sectors s.1 lba 1 = Ok buf) -> (ensure lba s).2 = Ok tt).
Proof.
  intros Hi Hp. destruct s as [d c]. unfold run_ok, ensure, view. cbn [fst snd].
  case_bool_decide as Hc.
  { split; [|done]. split_and!; [done|done|done|]. intros u _. cbn [fst snd]. by destruct Hc as [x ->]. }
  assert (sectors c !! lba = None) as Hnone by (by apply eq_None_not_Some).
  pose proof (read_sectors_no_panic d lba 1) as Hnp.
  destruct (read_sectors d lba 1) as [buf|e|] eqn:Hread; [|split; [by split_and!|by intros []]|done].
  apply read_one_ok in Hread. subst buf.
  pose proof (maybe_evict_Ok Hb (d, c) Hi) as Hok.
  destruct (maybe_evict_ok Hb (d, c) Hi) as (_ & Hi' & Hs & Hsub).
  destruct (maybe_evict (d, c)) as [[d' c'] r]; cbn [fst snd] in *. subst r. specialize (Hsub tt eq_refl).
  assert (sectors c' !! lba = None) as Hnone' by (by eapply lookup_weaken_None).
  pose proof (same_view _ _ lba Hs Hp) as Hv. unfold view in Hv. cbn [fst snd] in Hv. rewrite Hnone, Hnone' in Hv.
  cbn [default] in Hv. rewrite <- Hv. destruct (insert_ok d' c' lba Hi' Hp Hnone') as [Hi2 Hs2].
  split; [|done]. split_and!; [done|exact Hi2|by eapply same_trans|].
  intros u _. simpl. rewrite lookup_insert_eq, Hnone. simpl. congruence.
Qed.

Lemma get_or_read_ok (Hb : bpb_ok) s lba : inv s -> primary lba ->
  run_ok s (get_or_read lba) (fun _ x => x = view s lba)
  /\ ((exists buf, read_sectors s.1 lba 1 = Ok buf) -> (get_or_read lba s).2 = Ok (view s lba)).
Proof.
  intros Hi Hp. destruct (ensure_ok Hb s lba Hi Hp) as [He Hprog]. split.
  - eapply run_ok_bind; [exact He|]. intros [d' c'] u Hi' _ Hl. cbn [fst snd] in Hl.
    unfold run_ok. rewrite Hl. split_and!; [done|done|done|]. by intros x [= <-].
  - intros Hr. specialize (Hprog Hr). destruct He as (_ & _ & _ & Hpost).
    unfold get_or_read, cmd_bind. destruct (ensure lba s) as [[d' c'] r]; cbn [fst snd] in *.
    subst r. by rewrite (Hpost tt eq_refl).
Qed.

Lemma get_or_read_mut_ok (Hb : bpb_ok) s lba : inv s -> primary lba ->
  run_ok s (get_or_read_mut lba)
    (fun s' x => x = view s lba /\ sectors s'.2 !! lba = Some x /\ lba ∈ dirty s'.2).
Proof.
  intros Hi Hp. destruct (ensure_ok Hb s lba Hi Hp) as [He _].
  eapply run_ok_bind; [exact He|]. intros [d' c'] u Hi' _ Hl. cbn [fst snd] in Hl.
  unfold run_ok. rewrite Hl. split_and!; [done| |split; [done|apply mirrors_cache; set_solver]|].
  - destruct Hi'; simpl in *. constructor; simpl; try done.
    + intros l [->%elem_of_singleton|Hl']%elem_of_union; [by eexists|auto].
    + intros l x Hx Hnd. apply i_clean0; [done|set_solver].
  - intros x [= <-]. simpl. split_and!; [done|done|set_solver].
Qed.

(** ** FAT entries *)

Definition valid (c : Z) : Prop := 2 <= c < 2 + total_clus b.

Definition entry_lba (c : Z) : Z := base + c * 4 / 512.
Definition entry_off (c : Z) : nat := Z.to_nat (c * 4 mod 512).

(** The entry of cluster [c] in the FAT in use. *)
Definition entry (s : state) (c : Z) : Z :=
  Z.land (le_val (take 4 (drop (entry_off c) (view s (entry_lba c))))) FAT_MASK.

Lemma entry_position (Hb : bpb_ok) c : valid c ->
  exists idx off, fat_entry_position b c = Ok (idx, off)
  /\ fat_sector_lba b (active_fat_idx b) idx = entry_lba c /\ off = Z.of_nat (entry_off c)
  /\ (entry_off c + 4 <= 512)%nat /\ primary (entry_lba c).
Proof.
  intros Hv. destruct Hb. unfold fat_entry_position, valid in *.
  rewrite (proj2 (orb_false_iff _ _)) by lia. rewrite bo_sector0.
  unfold primary, entry_lba, entry_off, base, fat_sector_lba.
  eexists _, _. split; [reflexivity|]. set (a := active_fat_idx b * fat_sz32 b). mlia.
Qed.

Lemma view_sector s lba : inv s -> length (view s lba) = 512%nat /\ bytes_ok (view s lba).
Proof.
  intros Hi. unfold view. destruct (sectors s.2 !! lba) as [x|] eqn:E; simpl.
  - by apply (i_sector s Hi lba).
  - split; [apply sector_length|apply sector_bytes].
Qed.

Lemma le_at_view s c : inv s -> (entry_off c + 4 <= 512)%nat ->
  le_at (view s (entry_lba c)) (Z.of_nat (entry_off c)) 4
  = Ok (le_val (take 4 (drop (entry_off c) (view s (entry_lba c))))).
Proof.
  intros Hi Ho. destruct (view_sector s (entry_lba c) Hi) as [Hl _].
  unfold le_at, get_range. rewrite (proj2 (andb_true_iff _ _)) by lia.
  by rewrite Nat2Z.id.
Qed.

Lemma read_fat_entry_ok (Hb : bpb_ok) s c : inv s -> valid c ->
  run_ok s (read_fat_entry b c) (fun _ v => v = entry s c)
  /\ ((exists buf, read_sectors s.1 (entry_lba c) 1 = Ok buf) ->
      (read_fat_entry b c s).2 = Ok (entry s c)).
Proof.
  intros Hi Hv. destruct (entry_position Hb c Hv) as (idx & off & Hpos & Hlba & -> & Ho & Hp).
  destruct (get_or_read_ok Hb s (entry_lba c) Hi Hp) as [Hg Hprog].
  unfold read_fat_entry. rewrite Hpos. split.
  - eapply run_ok_bind; [apply (run_ok_res _ _ (fun s' p => s' = s /\ p = (idx, Z.of_nat (entry_off c))));
      [done|done|by intros p [= <-]]|].
    intros s' p _ _ [-> ->]. cbn [fst snd]. rewrite Hlba. eapply run_ok_bind; [exact Hg|].
    intros s' x Hi' _ ->. rewrite le_at_view by done.
    eapply run_ok_bind; [apply (run_ok_res _ _ (fun _ v => v = le_val
      (take 4 (drop (entry_off c) (view s (entry_lba c)))))); [done|done|by intros v [= <-]]|].
    intros s2 v Hi2 _ ->. by apply run_ok_ret.
  - intros Hr. specialize (Hprog Hr). unfold cmd_bind, cmd_res. cbn [fst snd]. rewrite Hlba.
    destruct (get_or_read (entry_lba c) s) as [s' r]. cbn [snd] in Hprog. subst r.
    by rewrite le_at_view by done.
Qed.

Lemma put_sector_ok d c lba x y : inv (d, c) -> sectors c !! lba = Some x -> lba ∈ dirty c ->
  length y = 512%nat -> bytes_ok y ->
  let s' := (d, set_sectors c (<[lba := y]> (sectors c))) in
  inv s' /\ forall l, view s' l = if decide (l = lba) then y else view (d, c) l.
Proof.
  intros Hi Hx Hd Hl Hy. split.
  - assert (forall l, is_Some (<[lba:=y]> (sectors c) !! l) <-> is_Some (sectors c !! l)) as Hdom.
    { intros l. destruct (decide (l = lba)) as [->|]; [|by rewrite lookup_insert_ne].
      rewrite lookup_insert_eq, Hx. done. }
    destruct Hi; simpl in *. constructor; simpl; try done.
    + intros l Hs. apply i_primary0, Hdom, Hs.
    + intros l z [[-> <-]|[_ Hz]]%lookup_insert_Some; [done|by eapply i_sector0].
    + intros l Hs. apply Hdom. auto.
    + intros l z [[-> <-]|[_ Hz]]%lookup_insert_Some Hnd; [done|auto].
    + intros l. rewrite Hdom. auto.
  - intros l. unfold view. simpl. destruct (decide (l = lba)) as [->|].
    + by rewrite lookup_insert_eq.
    + by rewrite lookup_insert_ne.
Qed.

Lemma land_mask v : 0 <= Z.land v FAT_MASK < 2 ^ 28.
Proof.
  change FAT_MASK with (Z.ones 28). rewrite Z.land_ones by lia. apply Z.mod_pos_bound. lia.
Qed.

(** The entries of the table after a sector update. *)
Lemma entry_put s s' c v : inv s -> (entry_off c + 4 <= 512)%nat ->
  (forall l, view s' l = if decide (l = entry_lba c)
     then splice (view s (entry_lba c)) (entry_off c) (le_bytes 4 (Z.land v FAT_MASK))
     else view s l) ->
  forall c', (entry_off c' + 4 <= 512)%nat -> valid c -> valid c' ->
  entry s' c' = if decide (c' = c) then Z.land v FAT_MASK else entry s c'.
Proof.
  intros Hi Ho Hview c' Ho' Hv Hv'. unfold entry. rewrite Hview.
  destruct (view_sector s (entry_lba c) Hi) as [Hlen _].
  pose proof (length_le_bytes 4 (Z.land v FAT_MASK)) as Hbl.
  destruct (decide (c' = c)) as [->|Hne].
  - rewrite decide_True by done.
    pose proof (splice_inside 4 (view s (entry_lba c)) (entry_off c)
      (le_bytes 4 (Z.land v FAT_MASK)) 0) as Hin.
    rewrite Nat.add_0_r, drop_0 in Hin. rewrite Hin by lia.
    rewrite take_ge by lia. rewrite le_val_le_bytes.
    pose proof (land_mask v). rewrite Z.mod_small by lia.
    rewrite <- Z.land_assoc. by rewrite Z.land_diag.
  - destruct (decide (entry_lba c' = entry_lba c)) as [Heq|]; [|done].
    rewrite splice_outside; [by rewrite Heq|lia|].
    unfold entry_lba, entry_off, valid in *. rewrite Hbl. mlia.
Qed.

Lemma write_fat_entry_ok (Hb : bpb_ok) s c v : inv s -> valid c ->
  let r := write_fat_entry b c v s in
  no_panic r.2 /\ inv r.1
  /\ ((exists e, r.2 = Err e) -> same s r.1)
  /\ (r.2 = Ok tt -> forall c', valid c' ->
      entry r.1 c' = if decide (c' = c) then Z.land v FAT_MASK else entry s c')
  /\ mirrors_ok s r.1.
Proof.
  intros Hi Hv. destruct (entry_position Hb c Hv) as (idx & off & Hpos & Hlba & -> & Ho & Hp).
  destruct (get_or_read_mut_ok Hb s (entry_lba c) Hi Hp) as (Hn & Hi' & Hs & Hpost).
  assert (write_fat_entry b c v s = (do! x := get_or_read_mut (entry_lba c) in
    do! y := cmd_res (copy_at x (Z.of_nat (entry_off c)) (le_bytes 4 (Z.land v FAT_MASK))) in
    put_sector (entry_lba c) y) s) as ->.
  { unfold write_fat_entry. rewrite Hpos, <- Hlba. reflexivity. }
  unfold cmd_bind. destruct (get_or_read_mut (entry_lba c) s) as [[d' c1] [x|e|]];
    cbn [fst snd] in *; [|by split_and!; [..|apply Hs]|done].
  destruct (Hpost x eq_refl) as (-> & Hx & Hd). destruct (view_sector s (entry_lba c) Hi) as [Hlen Hbytes].
  pose proof (length_le_bytes 4 (Z.land v FAT_MASK)) as Hbl.
  unfold copy_at, cmd_res. rewrite (proj2 (andb_true_iff _ _)) by lia. rewrite Nat2Z.id.
  set (y := splice _ _ _). cbn [put_sector fst snd].
  destruct (put_sector_ok d' c1 (entry_lba c) (view s (entry_lba c)) y Hi' Hx Hd) as [Hi2 Hview2].
  { unfold y. rewrite splice_length by lia. done. }
  { apply splice_bytes; [done|apply le_bytes_ok]. }
  split_and!; [done|exact Hi2|by intros [e He]| |eapply mirrors_trans; [apply Hs|by apply mirrors_cache]].
  intros _ c' Hv'.
  destruct (entry_position Hb c' Hv') as (_ & _ & _ & _ & _ & Ho' & Hp').
  assert (view (d', c1) (entry_lba c) = view s (entry_lba c)) as Hvw by (by apply same_view).
  rewrite (entry_put (d', c1) _ c v Hi' Ho); [|by rewrite Hvw|done|done|done].
  destruct (decide (c' = c)); [done|]. unfold entry. by rewrite (same_view s).
Qed.

(** ** Flush *)

Lemma gather_ok s (n : nat) : forall lba, inv s ->
  (forall l, lba <= l < lba + Z.of_nat n -> is_Some (sectors s.2 !! l)) ->
  exists buf, gather s.2 (seqZ lba (Z.of_nat n)) = Ok buf /\ image_of s.2 lba (Z.of_nat n) buf.
Proof.
  induction n as [|n IH]; intros lba Hi Hc.
  { exists []. split; [done|]. split_and!; [done|constructor|]. intros l Hl. lia. }
  rewrite seqZ_cons by lia. cbn [gather]. destruct (Hc lba) as [x Hx]; [lia|]. rewrite Hx.
  cbn [ok_or res_bind]. destruct (i_sector s Hi lba x Hx) as [Hxl Hxb].
  replace (Z.pred (Z.of_nat (S n))) with (Z.of_nat n) by lia.
  destruct (IH (Z.succ lba) Hi) as (rest & -> & Hl & Hb & Himg); [intros l Hl; apply Hc; lia|].
  exists (x ++ rest). split; [done|]. split_and!.
  - rewrite length_app. lia.
  - by apply Forall_app.
  - intros l Hr. destruct (decide (l = lba)) as [->|Hne].
    + rewrite Z.sub_diag. simpl. rewrite drop_0, <- Hxl, take_app_length. done.
    + rewrite (Himg l) by lia. do 2 f_equal.
      replace (Z.to_nat (512 * (l - lba))) with (512 + Z.to_nat (512 * (l - Z.succ lba)))%nat by lia.
      by rewrite <- Hxl, <- drop_drop, drop_app_length.
Qed.

(** All copies of the sectors [lba..lba+n] are up to date, and nothing that was
    up to date is lost. *)
Definition flushed (s s' : state) (lba n : Z) : Prop :=
  keeps s s' /\ forall l k, lba <= l < lba + n -> 0 <= k < copies -> copied s' l k.

Lemma dirty_primary s l : inv s -> l ∈ dirty s.2 -> primary l.
Proof. intros Hi Hd. by apply (i_primary s Hi), (i_dirty s Hi). Qed.

Lemma flush_chunk_ok (Hb : bpb_ok) s lba n : inv s -> 1 <= n ->
  (forall l, lba <= l < lba + n -> l ∈ dirty s.2) ->
  run_ok s (flush_chunk lba n) (fun s' _ => flushed s s' lba n).
Proof.
  intros Hi Hn Hd. destruct (gather_ok s (Z.to_nat n) lba Hi) as (buf & Hg & Himg).
  { intros l Hl. apply (i_dirty s Hi), Hd. lia. }
  rewrite Z2Nat.id in Hg, Himg by lia.
  assert (primary lba) as Hp by (apply (dirty_primary s); [done|]; apply Hd; lia).
  destruct s as [d c]. unfold run_ok, flush_chunk. simpl in Hg. rewrite Hg.
  apply (write_all_ok Hb (d, c) lba n buf).
  - done.
  - done.
  - apply (dirty_primary (d, c)); [done|]. apply Hd. lia.
  - done.
  - done.
  - done.
  - intros Hm. simpl in Hm. rewrite Hm. eexists. split; [reflexivity|]. intros k.
    destruct (local_idx_ok Hb (d, c) lba Hi Hm Hp) as [Hidx Hmir]. simpl in Hidx, Hmir.
    rewrite Hidx, <- Hmir. reflexivity.
  - intros Hm. simpl in Hm. by rewrite Hm.
Qed.

Lemma flush_run_ok (Hb : bpb_ok) start len fuel : forall s off, inv s -> 0 <= off ->
  len - off <= Z.of_nat fuel ->
  (forall l, start + off <= l < start + len -> l ∈ dirty s.2) ->
  run_ok s (flush_run fuel start len off)
    (fun s' _ => flushed s s' (start + off) (len - off)).
Proof.
  induction fuel as [|fuel IH]; intros s off Hi Ho Hf Hd; cbn [flush_run].
  { rewrite (proj2 (Z.ltb_ge _ _)) by lia. apply run_ok_ret; [done|]. split; [apply keeps_refl|lia]. }
  destruct (off <? len) eqn:E.
  2: { apply run_ok_ret; [done|]. split; [apply keeps_refl|lia]. }
  cbv zeta. set (chunk := Z.min PRDT_MAX_SECTORS (len - off)).
  assert (1 <= chunk <= len - off) as Hch by (unfold chunk, PRDT_MAX_SECTORS; lia).
  eapply run_ok_bind; [apply (flush_chunk_ok Hb); [done|lia|intros l Hl; apply Hd; lia]|].
  intros s1 _ Hi1 _ [Hk1 Hc1]. eapply run_ok_weaken; [apply IH|].
  - done.
  - lia.
  - lia.
  - rewrite (proj1 Hk1). intros l Hl. apply Hd. lia.
  - intros s2 _ _ [Hk2 Hc2]. split; [by eapply keeps_trans|]. intros l k Hl Hk.
    destruct (decide (l < start + off + chunk)); [|apply Hc2; lia].
    apply Hk2; [|done|apply Hc1; lia].
    apply (dirty_primary s); [done|]. apply Hd. lia.
Qed.

Lemma flush_runs_ok (Hb : bpb_ok) lbas : forall s start len, inv s -> 1 <= len ->
  (forall l, start <= l < start + len -> l ∈ dirty s.2) -> (forall l, l ∈ lbas -> l ∈ dirty s.2) ->
  run_ok s (flush_runs lbas start len)
    (fun s' _ => flushed s s' start len
       /\ forall l k, l ∈ lbas -> 0 <= k < copies -> copied s' l k).
Proof.
  induction lbas as [|lba lbas IH]; intros s start len Hi Hlen Hr Hl; cbn [flush_runs].
  { eapply run_ok_weaken; [apply (flush_run_ok Hb); [done|lia|lia|]|].
    - intros l Hlr. apply Hr. lia.
    - intros s' u _ Hfl. cbv beta in Hfl. rewrite Z.add_0_r, Z.sub_0_r in Hfl. split; [done|set_solver]. }
  destruct (lba =? start + len) eqn:E.
  - eapply run_ok_weaken; [apply IH; [done|lia| |set_solver]|].
    + intros l Hlr. destruct (decide (l = lba)) as [->|]; [set_solver|]. apply Hr. lia.
    + intros s' _ _ [[Hk Hc] Hc']. split; [split; [done|intros; apply Hc; lia]|].
      intros l k [->|Hin]%elem_of_cons Hkc; [apply Hc; lia|auto].
  - eapply run_ok_bind; [apply (flush_run_ok Hb); [done|lia|lia|]|].
    { intros l Hlr. apply Hr. lia. }
    intros s1 u Hi1 _ Hfl. cbv beta in Hfl. rewrite Z.add_0_r, Z.sub_0_r in Hfl. destruct Hfl as [Hk1 Hc1].
    eapply run_ok_weaken; [apply IH; [done|lia| |]|].
    + rewrite (proj1 Hk1). intros l Hlr. replace l with lba by lia. set_solver.
    + rewrite (proj1 Hk1). set_solver.
    + intros s2 _ _ [[Hk2 Hc2] Hc2']. split.
      * split; [by eapply keeps_trans|]. intros l k Hlr Hkc.
        apply Hk2; [apply (dirty_primary s); [done|]; by apply Hr|done|by apply Hc1].
      * intros l k [->|Hin]%elem_of_cons Hkc; [apply Hc2; lia|auto].
Qed.

Lemma flush_ok (Hb : bpb_ok) s : inv s ->
  run_ok s flush (fun s' _ => dirty s'.2 = ∅
    /\ (forall l, primary l -> sector s'.1 l = view s l)
    /\ forall l k, l ∈ dirty s.2 -> 0 <= k < copies ->
       sector s'.1 (l + k * fat_sz32 b) = view s l).
Proof.
  intros Hi. destruct s as [d c].
  assert (forall l, l ∈ merge_sort Z.le (elements (dirty c)) <-> l ∈ dirty c) as Hel.
  { intros l. rewrite merge_sort_Permutation. apply elem_of_elements. }
  unfold run_ok, flush. destruct (merge_sort Z.le (elements (dirty c))) as [|lba lbas].
  { assert (dirty c = ∅) as He by (apply leibniz_equiv; set_solver).
    split_and!; [done|done|done|]. intros u _. cbn [fst snd]. split_and!; [done| |set_solver].
    intros l Hp. unfold view. cbn [fst snd]. destruct (sectors c !! l) as [x|] eqn:Hx; [|done].
    symmetry. apply (i_clean _ Hi l x Hx). simpl. set_solver. }
  match goal with |- context [cmd_bind ?m ?k] => change (run_ok (d, c) (cmd_bind m k)
    (fun s' _ => dirty s'.2 = ∅ /\ (forall l, primary l -> sector s'.1 l = view (d, c) l)
      /\ forall l j, l ∈ dirty c -> 0 <= j < copies ->
         sector s'.1 (l + j * fat_sz32 b) = view (d, c) l)) end.
  eapply run_ok_bind; [apply (flush_runs_ok Hb); [done|lia| |]|].
  { intros l Hl. apply Hel. replace l with lba by lia. set_solver. }
  { intros l Hl. apply Hel. set_solver. }
  intros [d1 c1] u Hi1 Hs1 [[[Hc1 _] Hrun] Hrest]. simpl in Hc1. subst c1.
  assert (forall l k, l ∈ dirty c -> 0 <= k < copies -> copied (d1, c) l k) as Hall.
  { intros l k [->|Hl]%Hel%elem_of_cons Hk; [apply Hrun; lia|auto]. }
  assert (0 < copies) as Hc0 by (unfold copies; destruct Hb; destruct (_ =? 0); lia).
  assert (forall l x, sectors c !! l = Some x -> x = sector d1 l) as Hclean.
  { intros l x Hx. destruct (decide (l ∈ dirty c)) as [Hd|Hnd]; [|by apply (i_clean _ Hi1 l)].
    specialize (Hall l 0 Hd ltac:(lia)). unfold copied in Hall. simpl in Hall.
    rewrite Z.add_0_r in Hall. congruence. }
  unfold run_ok. cbn [fst snd]. split_and!; [done| |split; [done|]|].
  2: { intros l Hp. destruct (decide (l ∈ dirty c)) as [Hd|]; [right; left|by right; right]. intros k Hk.
       pose proof (Hall l k Hd Hk) as E. pose proof (Hall l 0 Hd ltac:(lia)) as E0. unfold copied in E, E0. cbn [fst snd] in *.
       rewrite Z.mul_0_l, Z.add_0_r in E0. congruence. }
  - destruct Hi1; simpl in *. constructor; simpl; try done. set_solver.
  - intros _ _. split_and!; [done| |].
    + intros l Hp. rewrite <- (same_view _ _ l Hs1 Hp). unfold view. simpl.
      destruct (sectors c !! l) as [x|] eqn:Hx; [|done]. symmetry. by apply Hclean.
    + intros l k Hl Hk. pose proof (Hall l k Hl Hk) as Hcp. unfold copied in Hcp. simpl in Hcp.
      unfold view. simpl. by rewrite Hcp.
Qed.

Lemma new_cache_inv (d : D) : inv (d, new_cache b).
Proof. constructor; simpl; try done; [by intros l []|constructor|]. intros l. by rewrite lookup_empty; split; [set_solver|intros []]. Qed.
End Cache.
