(* ===== verification/Fat32Spec.v ===== *)
(** * What the FAT32 table and its cache promise

    The cached table against a plain map from clusters to entries, over every
    sequence of operations and device failures; durability of a flush; and the
    boot parameter block. *)

From S2P Require Import Prelude Bits Errors BlockDev Fat32 Fat32Facts.
Import Errors.Vfs.
Local Open Scope Z_scope.

(** ** The boot parameter block *)

Section Bpb.
Context `{WriteDevice D}.

Lemma le_at_bind {B} (s : list Z) o n (k : Z -> res VfsError B) (Q : res VfsError B -> Prop) :
  bytes_ok s -> 0 <= o -> 0 <= n -> o + n <= Z.of_nat (length s) ->
  (forall v, 0 <= v < 256 ^ n -> Q (k v)) -> Q (let? v := le_at s o n in k v).
Proof.
  intros Hs Ho Hn Hl Hk. unfold le_at.
  destruct (get_range_is_Some s o n Ho Hn Hl) as [bs Hbs]. rewrite Hbs. apply Hk.
  pose proof (le_val_bound bs (get_range_bytes_ok _ _ _ _ Hs Hbs)) as Hb.
  by rewrite (get_range_length _ _ _ _ Hbs) in Hb.
Qed.

(** Guarantees of an accepted parameter block, on a device of [count] sectors. *)
Record bpb_sound (count : Z) (b : Bpb) : Prop := {
  ps_sector : bytes_per_sec b = 512;
  ps_spc : 1 <= sec_per_clus b <= 128 /\ exists k, 0 <= k /\ sec_per_clus b = 2 ^ k;
  ps_fat : 1 <= rsvd_sec_cnt b /\ 1 <= num_fats b /\ 1 <= fat_sz32 b < 2 ^ 32
           /\ 0 <= ext_flags b;
  ps_data : first_data_sec b = rsvd_sec_cnt b + num_fats b * fat_sz32 b;
  ps_root : 2 <= root_clus b < 2 + total_clus b;
  ps_clusters c : 2 <= c < 2 + total_clus b ->
    first_data_sec b <= clus_to_lba b c /\ clus_to_lba b c + sec_per_clus b <= count
}.

Lemma data_clusters (ts fd spc c : Z) : 1 <= spc -> fd <= ts ->
  2 <= c < 2 + (ts - fd) / spc ->
  fd <= fd + Z.max 0 (c - 2) * spc /\ fd + Z.max 0 (c - 2) * spc + spc <= ts.
Proof.
  intros Hs Hf Hc. pose proof (Z.mul_div_le (ts - fd) spc ltac:(lia)) as Hd.
  rewrite Z.max_r by lia. nia.
Qed.

Lemma parse_bpb_ok (dev : D) :
  let r := parse_bpb dev in
  no_panic r /\ forall b, r = Ok b -> bpb_sound (sector_count dev) b.
Proof.
  set (Q := fun r : res VfsError Bpb =>
    no_panic r /\ forall b, r = Ok b -> bpb_sound (sector_count dev) b).
  change (Q (parse_bpb dev)). assert (forall e, Q (Err e)) as Herr by done. unfold parse_bpb.
  pose proof (read_sectors_no_panic dev 0 1) as Hnp.
  destruct (read_sectors dev 0 1) as [s|e|] eqn:Es; cbn [res_bind]; [|done|done].
  apply read_one_ok in Es. pose proof (sector_length dev 0) as Hlen.
  pose proof (sector_bytes dev 0) as Hs. rewrite <- Es in Hlen, Hs. clear Es.
  do 2 (apply index_bind; [done|lia|]; intros ? _). destruct (negb _ || _); [done|].
  apply le_at_bind; [done|lia..|]. intros bps _. apply index_bind; [done|lia|]. intros spc Hspc.
  apply le_at_bind; [done|lia..|]. intros rsvd Hrsvd. apply index_bind; [done|lia|]. intros nf Hnf.
  do 2 (apply le_at_bind; [done|lia..|]; intros ? _).
  apply le_at_bind; [done|lia..|]. intros fsz Hfsz.
  apply le_at_bind; [done|lia..|]. intros root Hroot. apply le_at_bind; [done|lia..|]. intros fsi _.
  destruct (negb _ || _ || _) eqn:E1; [done|]. destruct (negb (bps =? _)) eqn:E2; [done|].
  destruct ((spc =? 0) || _ || _) eqn:E3; [done|]. destruct (rsvd =? 0) eqn:E4; [done|].
  destruct (nf =? 0) eqn:E5; [done|]. destruct (root <? 2) eqn:E6; [done|]. cbv zeta.
  apply le_at_bind; [done|lia..|]. intros sz16 Hsz16.
  assert (forall k : Z -> res VfsError Bpb, (forall ts, 0 <= ts < 2 ^ 32 -> Q (k ts)) ->
    Q (let? ts := if negb (sz16 =? 0) then Ok sz16 else le_at s 32 4 in k ts)) as Hts.
  { intros k Hk. destruct (negb (sz16 =? 0)); [apply Hk; lia|]. apply le_at_bind; [done|lia..|].
    intros sz32 Hsz32. apply Hk. lia. }
  apply Hts. clear Hts. intros ts Hts.
  destruct (ts <=? rsvd + nf * fsz) eqn:E7; [done|]. destruct (_ <? ts) eqn:E8; [done|].
  unfold byte_ok in *.
  assert (0 <= (ts - (rsvd + nf * fsz)) / spc < 2 ^ 32) as Hq.
  { split; [apply Z.div_pos; lia|]. apply Z.div_lt_upper_bound; [lia|]. nia. }
  rewrite Z.mod_small by done. destruct (2 + _ <=? root) eqn:E9; [done|].
  apply le_at_bind; [done|lia..|]. intros ext Hext. split; [done|]. intros bp [= <-].
  unfold SECTOR_SIZE in E2. constructor; simpl; try lia.
  - split; [lia|]. apply power_of_two_pow. destruct (is_power_of_two spc); [done|].
    rewrite orb_true_r in E3. done.
  - intros c Hc. unfold clus_to_lba. simpl.
    destruct (data_clusters ts (rsvd + nf * fsz) spc c) as [Hlo Hhi]; lia.
Qed.
End Bpb.

(** ** Sample volumes *)

Module FatVolume.

Definition patch (off : nat) (bs l : list Z) : list Z :=
  take off l ++ bs ++ drop (off + length bs) l.

(** One reserved sector, [nf] FATs of one sector, one-sector clusters, [total]
    sectors, root cluster 2. *)
Definition boot_sector (nf total : Z) : list Z :=
  patch 11 [0; 2; 1; 1; 0; nf] (patch 32 (le_bytes 4 total) (patch 36 [1] (patch 44 [2]
    (patch 510 [85; 170] (replicate 512 0))))).

Definition bytes : list Z :=
  Eval vm_compute in
  patch 0 (boot_sector 2 16) (patch 512 [0; 0; 0; 0; 0; 0; 0; 0; 3] (replicate 8192 0)).

Lemma fat_bytes_in_range : bytes_ok bytes.
Proof. apply (bool_decide_eq_true_1 _). vm_compute. reflexivity. Qed.

Definition disk : MemDisk := {| image := bytes; image_ok := fat_bytes_in_range |}.

(** 13 clusters and a mirrored FAT. *)
Definition geometry : Bpb :=
  {| bytes_per_sec := 512; sec_per_clus := 1; rsvd_sec_cnt := 1; num_fats := 2; fat_sz32 := 1;
     root_clus := 2; fsinfo_sec := 0; byts_per_clus := 512; first_data_sec := 3;
     total_clus := 13; ext_flags := 0 |}.

Lemma fat_geometry_ok : bpb_ok geometry.
Proof. constructor; simpl; lia. Qed.

Definition mounted : MemDisk * FatCache := (disk, new_cache geometry).

(** A volume whose one-sector FAT has entries for 126 clusters, with 129. *)
Definition short_bytes : list Z :=
  patch 0 (boot_sector 1 131) (replicate 67072 0).

Lemma short_bytes_in_range : bytes_ok short_bytes.
Proof. apply (bool_decide_eq_true_1 _). vm_compute. reflexivity. Qed.

Definition short_disk : MemDisk := {| image := short_bytes; image_ok := short_bytes_in_range |}.
End FatVolume.
Import FatVolume.

(** [parse_bpb] does not panic whatever sector 0 holds and whatever errors
    the device reports, and an accepted block is sound: 512-byte sectors, a
    power-of-two cluster of at most 128 sectors, non-empty reserved area and
    FATs, the data area right after them, a root cluster in range, and every
    cluster inside the device. *)
Theorem parse_bpb_sound `{WriteDevice D} (dev : D) :
  no_panic (parse_bpb dev)
  /\ forall b, parse_bpb dev = Ok b -> bpb_sound (sector_count dev) b.
Proof. exact (parse_bpb_ok dev). Qed.

Lemma parse_bpb_sound_witness :
  parse_bpb disk = Ok geometry /\ bpb_sound 16 geometry.
Proof.
  assert (parse_bpb disk = Ok geometry) as E by (vm_compute; reflexivity).
  split; [exact E|]. exact (proj2 (parse_bpb_sound disk) geometry E).
Defined.

(** [parse_bpb] accepts a volume whose FAT is too small for its clusters:
    on the sample, cluster 128 is a valid cluster, and the sector
    [write_fat_entry] changes for it is the first data sector, the content of
    the root directory. *)
Theorem parse_bpb_accepts_short_fat :
  exists b idx off, parse_bpb short_disk = Ok b
  /\ fat_entry_position b 128 = Ok (idx, off)
  /\ fat_sector_lba b (active_fat_idx b) idx = clus_to_lba b (root_clus b).
Proof.
  destruct (parse_bpb short_disk) as [b|e|] eqn:E; [|vm_compute in E; discriminate E..].
  vm_compute in E. injection E as <-. eexists _, _, _. split; [reflexivity|].
  split; [vm_compute; reflexivity|]. vm_compute. reflexivity.
Qed.

(** ** The table *)

(** The cache over its device beside the abstract table: entry reads, entry
    writes and flushes, with whatever result the device's errors give them.
    A write that fails leaves the table as it was. *)
Inductive fat_step `{Profile} `{WriteDevice D} (b : Bpb)
  : state * (Z -> Z) -> state * (Z -> Z) -> Prop :=
| fat_read s f c s' r :
    read_fat_entry b c s = (s', r) -> fat_step b (s, f) (s', f)
| fat_write_ok s f c v s' :
    write_fat_entry b c v s = (s', Ok tt) ->
    fat_step b (s, f) (s', fun c' => if decide (c' = c) then Z.land v FAT_MASK else f c')
| fat_write_err s f c v s' e :
    write_fat_entry b c v s = (s', Err e) -> fat_step b (s, f) (s', f)
| fat_flush s f s' r :
    flush s = (s', r) -> fat_step b (s, f) (s', f).

(** The table on the device itself, in the copy the volume uses. *)
Definition disk_table `{BlockDevice D} (b : Bpb) (d : D) (c : Z) : Z :=
  Z.land (le_val (take 4 (drop (entry_off c) (sector d (entry_lba b c))))) FAT_MASK.

Section Table.
Context `{Profile} `{WriteDevice D} (b : Bpb) (Hb : bpb_ok b).

(** The cache implements the table [f]. *)
Definition implements (p : state * (Z -> Z)) : Prop :=
  inv b p.1 /\ forall c, valid b c -> p.2 c = entry b p.1 c.

Lemma same_entry s s' c : same b s s' -> valid b c -> entry b s' c = entry b s c.
Proof.
  intros Hs Hv. destruct (entry_position b Hb c Hv) as (_ & _ & _ & _ & _ & _ & Hp).
  unfold entry. by rewrite (same_view b s).
Qed.

Lemma implements_same s s' f :
  implements (s, f) -> inv b s' -> same b s s' -> implements (s', f).
Proof. intros [_ Hf] Hi Hs. split; [done|]. intros c Hv. simpl. rewrite (same_entry s) by done. by apply Hf. Qed.

Lemma position_invalid c : ~ valid b c -> fat_entry_position b c = Err InvalidInput.
Proof.
  intros Hv. unfold valid in Hv. unfold fat_entry_position.
  by rewrite (proj2 (orb_true_iff _ _)) by lia.
Qed.

Lemma entry_invalid c v (s : state) : ~ valid b c ->
  read_fat_entry b c s = (s, Err InvalidInput) /\ write_fat_entry b c v s = (s, Err InvalidInput).
Proof.
  intros Hv. unfold read_fat_entry, write_fat_entry. by rewrite position_invalid by done.
Qed.

Lemma fat_step_implements p p' : implements p -> fat_step b p p' -> implements p'.
Proof.
  intros Hp Hstep. destruct Hstep as [s f c s' r E|s f c v s' E|s f c v s' e E|s f s' r E].
  - destruct (decide (2 <= c < 2 + total_clus b)) as [Hv|Hv].
    + destruct (read_fat_entry_ok b Hb s c (proj1 Hp) Hv) as [(_ & Hi & Hs & _) _].
      rewrite E in Hi, Hs. by eapply implements_same.
    + rewrite (proj1 (entry_invalid c 0 s Hv)) in E. by simplify_eq.
  - destruct (decide (2 <= c < 2 + total_clus b)) as [Hv|Hv].
    + destruct (write_fat_entry_ok b Hb s c v (proj1 Hp) Hv) as (_ & Hi & _ & Hent & _).
      rewrite E in Hi, Hent. split; [done|]. intros c' Hv'. simpl. rewrite Hent by done.
      destruct (decide (c' = c)); [done|]. by apply Hp.
    + rewrite (proj2 (entry_invalid c v s Hv)) in E. by simplify_eq.
  - destruct (decide (2 <= c < 2 + total_clus b)) as [Hv|Hv].
    + destruct (write_fat_entry_ok b Hb s c v (proj1 Hp) Hv) as (_ & Hi & Hs & _ & _).
      rewrite E in Hi, Hs. eapply implements_same; [done|done|]. apply Hs. by exists e.
    + rewrite (proj2 (entry_invalid c v s Hv)) in E. by simplify_eq.
  - destruct (flush_ok b Hb s (proj1 Hp)) as (_ & Hi & Hs & _).
    rewrite E in Hi, Hs. by eapply implements_same.
Qed.

Lemma fat_step_mirrors p p' : implements p -> fat_step b p p' -> mirrors_ok b p.1 p'.1.
Proof.
  intros [Hi _] Hstep. assert (forall (s : state), mirrors_ok b s s) as Hrefl by (intros s; apply views_refl).
  destruct Hstep as [s f c s' r E|s f c v s' E|s f c v s' e E|s f s' r E]; cbn [fst snd] in *.
  - destruct (decide (2 <= c < 2 + total_clus b)) as [Hv|Hv].
    + destruct (read_fat_entry_ok b Hb s c Hi Hv) as [(_ & _ & Hs & _) _]. rewrite E in Hs. apply Hs.
    + rewrite (proj1 (entry_invalid c 0 s Hv)) in E. by simplify_eq.
  - destruct (decide (2 <= c < 2 + total_clus b)) as [Hv|Hv].
    + destruct (write_fat_entry_ok b Hb s c v Hi Hv) as (_ & _ & _ & _ & Hm). by rewrite E in Hm.
    + rewrite (proj2 (entry_invalid c v s Hv)) in E. by simplify_eq.
  - destruct (decide (2 <= c < 2 + total_clus b)) as [Hv|Hv].
    + destruct (write_fat_entry_ok b Hb s c v Hi Hv) as (_ & _ & _ & _ & Hm). by rewrite E in Hm.
    + rewrite (proj2 (entry_invalid c v s Hv)) in E. by simplify_eq.
  - destruct (flush_ok b Hb s Hi) as (_ & _ & Hs & _). rewrite E in Hs. apply Hs.
Qed.

Lemma reachable_implements d p :
  rtc (fat_step b) ((d, new_cache b), disk_table b d) p -> implements p.
Proof.
  intros Hr. assert (implements ((d, new_cache b), disk_table b d)) as H0'.
  { split; [apply new_cache_inv|]. done. }
  induction Hr as [|p1 p2 p3 Hstep _ IH]; [done|]. apply IH. by eapply fat_step_implements.
Qed.

Lemma reachable_mirrors d p :
  rtc (fat_step b) ((d, new_cache b), disk_table b d) p -> mirrors_ok b (d, new_cache b) p.1.
Proof.
  revert p. apply rtc_ind_r; [apply views_refl|]. intros q p Hr Hs IH. eapply mirrors_trans; [exact IH|].
  eapply fat_step_mirrors; [|done]. by apply (reachable_implements d).
Qed.
End Table.

(** C15: the cached FAT is the table it stands for.  Over every sequence of
    entry reads, entry writes and flushes on a device that may fail at any
    request, with the evictions they cause, a read that succeeds returns the
    last value written to its cluster, or what the device held when the volume
    was mounted; a read whose sector the device delivers does succeed; and no
    operation panics. *)
Theorem fat_cache_refines `{Profile} `{WriteDevice D} b (d : D) s f c v :
  bpb_ok b -> rtc (fat_step b) ((d, new_cache b), disk_table b d) (s, f) ->
  2 <= c < 2 + total_clus b ->
  (forall x, (read_fat_entry b c s).2 = Ok x -> x = f c)
  /\ ((exists buf, read_sectors s.1 (entry_lba b c) 1 = Ok buf) ->
      (read_fat_entry b c s).2 = Ok (f c))
  /\ no_panic (read_fat_entry b c s).2
  /\ no_panic (write_fat_entry b c v s).2 /\ no_panic (flush s).2.
Proof.
  intros Hb Hr Hc. destruct (reachable_implements b Hb d _ Hr) as [Hi Hf]. simpl in Hi, Hf.
  destruct (read_fat_entry_ok b Hb s c Hi Hc) as [(Hn & _ & _ & Hok) Hprog].
  rewrite (Hf c Hc). split_and!; [done|done|done| |].
  - apply (write_fat_entry_ok b Hb s c v Hi Hc).
  - apply (flush_ok b Hb s Hi).
Qed.

(** Entry 5 of the sample volume set to 7. *)
Definition after_write : MemDisk * FatCache := (write_fat_entry (H := true) geometry 5 7 mounted).1.

Definition table_after : Z -> Z :=
  fun c' => if decide (c' = 5) then Z.land 7 FAT_MASK else disk_table geometry disk c'.

Lemma after_write_reached :
  rtc (fat_step (H := true) geometry) (mounted, disk_table geometry disk) (after_write, table_after).
Proof.
  apply rtc_once. refine (fat_write_ok _ _ _ 5 7 _ _).
  rewrite (surjective_pairing (write_fat_entry geometry 5 7 mounted)).
  apply (f_equal2 pair); [reflexivity|]. vm_compute. reflexivity.
Qed.

Lemma fat_cache_refines_witness :
  (read_fat_entry (H := true) geometry 5 after_write).2 = Ok 7
  /\ (read_fat_entry (H := true) geometry 2 after_write).2 = Ok 3.
Proof.
  split.
  - refine (proj1 (proj2 (fat_cache_refines (H := true) geometry disk after_write table_after 5 0
      fat_geometry_ok after_write_reached _)) _).
    + simpl. lia.
    + eexists. vm_compute. reflexivity.
  - refine (proj1 (proj2 (fat_cache_refines (H := true) geometry disk after_write table_after 2 0
      fat_geometry_ok after_write_reached _)) _).
    + simpl. lia.
    + eexists. vm_compute. reflexivity.
Defined.

(** C25: A flush that succeeds makes the table durable: the device by itself
    then holds it, in the copy the volume uses.  On a volume that mirrors its FATs,
    whatever was evicted or flushed before and whatever requests failed, every FAT
    sector then agrees with all its mirrors, or it and they are as on the device when the
    volume was mounted; the sectors that were waiting to be written agree. *)
Theorem flush_durable `{Profile} `{WriteDevice D} b (d : D) s f s' :
  bpb_ok b -> rtc (fat_step b) ((d, new_cache b), disk_table b d) (s, f) ->
  flush s = (s', Ok tt) ->
  (forall c, 2 <= c < 2 + total_clus b -> disk_table b s'.1 c = f c)
  /\ (Z.land (ext_flags b) 128 = 0 -> forall lba, rsvd_sec_cnt b <= lba < rsvd_sec_cnt b + fat_sz32 b ->
      (forall k, 0 <= k < num_fats b -> sector s'.1 (lba + k * fat_sz32 b) = sector s'.1 lba)
      \/ lba ∉ dirty s.2 /\ forall k, 0 <= k < num_fats b -> sector s'.1 (lba + k * fat_sz32 b) = sector d (lba + k * fat_sz32 b)).
Proof.
  intros Hb Hr E. destruct (reachable_implements b Hb d _ Hr) as [Hi Hf]. simpl in Hi, Hf.
  pose proof (reachable_mirrors b Hb d _ (rtc_r _ _ _ Hr (fat_flush b s f s' (Ok tt) E))) as Hm'.
  destruct (flush_ok b Hb s Hi) as (_ & _ & _ & Hpost). rewrite E in Hpost.
  destruct (Hpost tt eq_refl) as (Hclean & Hdev & Hmir). simpl in Hclean, Hdev, Hmir. split.
  - intros c Hc. rewrite (Hf c Hc). unfold disk_table, entry.
    destruct (entry_position b Hb c Hc) as (_ & _ & _ & _ & _ & _ & Hp). by rewrite Hdev.
  - intros Hm lba Hl. assert (primary b lba) as Hp.
    { unfold primary, base, fat_sector_lba, active_fat_idx. rewrite Hm. simpl. lia. }
    assert (copies b = num_fats b) as Hc by (unfold copies; by rewrite Hm). rewrite Hc in Hmir.
    destruct (decide (lba ∈ dirty s.2)) as [Hd|Hd].
    { left. intros k Hk. rewrite Hmir by done. symmetry. by apply Hdev. }
    destruct (Hm' lba Hp) as [Hd'|[Hag|[_ Hun]]]; cbn [fst snd] in *; [set_solver|left|right; split; [done|]].
    + intros k Hk. apply Hag. by rewrite Hc.
    + intros k Hk. apply Hun. by rewrite Hc.
Qed.

Lemma flush_durable_witness :
  disk_table geometry (flush (H := true) after_write).1.1 5 = 7.
Proof.
  refine (proj1 (flush_durable (H := true) geometry disk after_write table_after
    (flush (H := true) after_write).1 fat_geometry_ok after_write_reached _) 5 _).
  - rewrite (surjective_pairing (flush (H := true) after_write)) at 1.
    apply (f_equal2 pair); [reflexivity|]. vm_compute. reflexivity.
  - simpl. lia.
Defined.
