(* ===== verification/FatAlloc.v ===== *)
(** * The FAT32 superblock: cluster allocation, chains and mounting

    Model of kernel/src/filesystems/fstypes/fat32: alloc.rs (allocation bitmap,
    bulk allocation, freeing, the free-cluster scan, FSInfo), cluster.rs (chain
    walks) and mount.rs (chain cache, volume-dirty flag, sync, mount).  The
    allocator and the chain walks are written against [FatOps], the operations
    of fat.rs and the cluster writes; [volume] is the instance on the cached
    FAT.  The words of the allocation bitmap are one non-negative integer: every
    index is below [total_clus], which the vector covers.  Cluster numbers and
    counters stay below 2^32 wherever [total_clus + 2] does. *)

From S2P Require Import Prelude Bits Errors BlockDev Fat32.
Import Errors.Vfs.
Local Open Scope Z_scope.

Definition EOC_MARKER : Z := 268435448.
Definition FREE_CLUSTER : Z := 0.
Definition FSINFO_LEAD_SIG : Z := 1096897106.
Definition FSINFO_STRUCT_SIG : Z := 1631679090.
Definition FSINFO_TRAIL_SIG : Z := 2857697280.

(** ** The superblock *)

(** What allocation and chains use of the volume below them. *)
Class FatOps (S : Type) := {
  fat_read : Z -> cmd S Z;
  fat_write : Z -> Z -> cmd S unit;
  cluster_write : Z -> list Z -> cmd S unit;
  clusters : Z;
  cluster_bytes : Z
}.

Record Fs (S : Type) := mkFs {
  fat : S;
  chain_cache : gmap Z (list Z);
  alloc_bitmap : option Z;
  next_alloc_hint : Z;
  free_clus_count : Z;
  volume_dirty : bool
}.
Arguments mkFs {S} _ _ _ _ _ _.
Arguments fat {S} _.
Arguments chain_cache {S} _.
Arguments alloc_bitmap {S} _.
Arguments next_alloc_hint {S} _.
Arguments free_clus_count {S} _.
Arguments volume_dirty {S} _.

Section Setters.
Context {S : Type}.
Implicit Types s : Fs S.
Definition set_fat s (x : S) : Fs S := mkFs x (chain_cache s) (alloc_bitmap s) (next_alloc_hint s) (free_clus_count s) (volume_dirty s).
Definition set_chain_cache s x := mkFs (fat s) x (alloc_bitmap s) (next_alloc_hint s) (free_clus_count s) (volume_dirty s).
Definition set_alloc_bitmap s x := mkFs (fat s) (chain_cache s) x (next_alloc_hint s) (free_clus_count s) (volume_dirty s).
Definition set_hint s x := mkFs (fat s) (chain_cache s) (alloc_bitmap s) x (free_clus_count s) (volume_dirty s).
Definition set_free_count s x := mkFs (fat s) (chain_cache s) (alloc_bitmap s) (next_alloc_hint s) x (volume_dirty s).
Definition set_volume_dirty s x := mkFs (fat s) (chain_cache s) (alloc_bitmap s) (next_alloc_hint s) (free_clus_count s) x.
End Setters.

(** An operation on the volume, and an update of the superblock's fields. *)
Definition lift {S A} (m : cmd S A) : cmd (Fs S) A := fun s =>
  let '(x, r) := m (fat s) in (set_fat s x, r).
Definition modify {S} (f : Fs S -> Fs S) : cmd (Fs S) unit := fun s => (f s, Ok tt).

(** [let _ = m;]: the error is dropped. *)
Definition ignore {S A} (m : cmd S A) : cmd S unit := fun s =>
  match m s with
  | (s, Panic) => (s, Panic)
  | (s, _) => (s, Ok tt)
  end.

(** ** The allocation bitmap *)

Definition BITMAP_MAX_CLUSTERS : Z := 16 * 1024 * 1024.

Definition set_bits (m : Z) (l : list Z) : Z := foldl Z.setbit m l.
Definition clear_bits (m : Z) (l : list Z) : Z := foldl Z.clearbit m l.

Definition bit_index (clus total : Z) : option Z :=
  if clus <? 2 then None else if clus - 2 <? total then Some (clus - 2) else None.

(** The window of [count] clusters at [s]; the indices wrap only when the
    window runs past the end. *)
Definition window (total s count : Z) : list Z :=
  map (fun k => if total <? s + count then (s + k) mod total else s + k) (seqZ 0 count).

Definition window_free (m : Z) (w : list Z) : bool := forallb (fun i => negb (Z.testbit m i)) w.

Definition find_window (m total start count : Z) : option (list Z) :=
  if count <=? total then
    snd <$> list_find (fun w => window_free m w = true)
              (map (fun off => window total ((start + off) mod total) count) (seqZ 0 total))
  else None.

(** Any free clusters, in the order of [idxs]. *)
Fixpoint gather_free (idxs : list Z) (count m : Z) (found : list Z) : Z * list Z :=
  match idxs with
  | [] => (m, found)
  | i :: idxs =>
      if count <=? Z.of_nat (length found) then (m, found)
      else if Z.testbit m i then gather_free idxs count m found
      else gather_free idxs count (Z.setbit m i) (found ++ [i])
  end.

(** Reserve [count] clusters in the bitmap: a contiguous window if there is
    one, otherwise any.  The result comes with the bitmap it leaves. *)
Definition reserve (m hint total count : Z) : Z * res VfsError (list Z) :=
  let start := Z.max 0 (hint - 2) mod total in
  match find_window m total start count with
  | Some w =>
      let m := set_bits m w in
      if Z.of_nat (length w) =? count then (m, Ok (map (Z.add 2) w))
      else (clear_bits m w, Err IOError)
  | None =>
      let '(m, w) := gather_free (map (fun off => (start + off) mod total) (seqZ 0 total)) count m [] in
      if Z.of_nat (length w) <? count then (clear_bits m w, Err NoSpace)
      else (m, Ok (map (Z.add 2) w))
  end.

(** ** Allocation *)

Section Alloc.
Context `{Profile} {S : Type} `{FatOps S}.

(** Free the bits of [cands] in the bitmap. *)
Definition release (cands : list Z) (s : Fs S) : Fs S :=
  set_alloc_bitmap s ((fun m => clear_bits m (map (fun c => c - 2) cands)) <$> alloc_bitmap s).

(** [for c in out { let _ = self.write_fat_entry(c, FREE_CLUSTER); }] *)
Definition undo (out : list Z) : cmd (Fs S) unit :=
  cmd_for out (fun c => ignore (lift (fat_write c FREE_CLUSTER))).

(** [m], undoing [out] when it fails. *)
Definition or_undo {A} (before : Fs S -> Fs S) (out : list Z) (m : cmd (Fs S) A) : cmd (Fs S) A := fun s =>
  match m s with
  | (s, Err e) => (do! _ := modify before in do! _ := undo out in cmd_res (Err e)) s
  | r => r
  end.

(** Write the end marker to every candidate of [all]; [rest] are those left. *)
Fixpoint write_eocs (all rest out : list Z) : cmd (Fs S) (list Z) :=
  match rest with
  | [] => cmd_ret out
  | c :: rest =>
      do! _ := or_undo (release all) out (lift (fat_write c EOC_MARKER)) in
      write_eocs all rest (out ++ [c])
  end.

(** The clusters [out] leave the pool. *)
Definition account (count : Z) (out : list Z) (s : Fs S) : Fs S :=
  let s := match last out with Some c => set_hint s (Z.max 2 (c + 1)) | None => s end in
  set_free_count s ((free_clus_count s - count) mod 2 ^ 32).

(** The rotating scan of the FAT itself, for volumes without a bitmap. *)
Fixpoint alloc_scan (hint count : Z) (offs out : list Z) : cmd (Fs S) (list Z) :=
  match offs with
  | [] => cmd_ret out
  | i :: offs =>
      if count <=? Z.of_nat (length out) then cmd_ret out
      else
        do! h := cmd_res (u32_sub hint 2) in
        do! h := cmd_res (u32_add h i) in
        let clus := 2 + h mod clusters in
        do! val := or_undo id out (lift (fat_read clus)) in
        if val =? FREE_CLUSTER then
          do! _ := or_undo id out (lift (fat_write clus EOC_MARKER)) in
          alloc_scan hint count offs (out ++ [clus])
        else alloc_scan hint count offs out
  end.

Definition alloc_fallback (count : Z) : cmd (Fs S) (list Z) := fun s =>
  (do! out := alloc_scan (next_alloc_hint s) count (seqZ 0 clusters) [] in
   if Z.of_nat (length out) <? count then do! _ := undo out in cmd_res (Err NoSpace)
   else
     do! _ := modify (account count out) in
     cmd_ret out) s.

Definition alloc_clusters (count : Z) : cmd (Fs S) (list Z) := fun s =>
  if count =? 0 then (s, Ok [])
  else if clusters =? 0 then (s, Err NoSpace)
  else
    match alloc_bitmap s with
    | None => alloc_fallback count s
    | Some m =>
        let '(m, r) := reserve m (next_alloc_hint s) clusters count in
        (do! cands := fun s => (set_alloc_bitmap s (Some m), r) in
         match cands with
         | [] => alloc_fallback count
         | _ =>
             do! out := write_eocs cands cands [] in
             do! _ := modify (account count out) in
             cmd_ret out
         end) s
    end.

Definition alloc_cluster : cmd (Fs S) Z :=
  do! v := alloc_clusters 1 in
  cmd_res (index v 0).

(** ** Freeing *)

Definition bitmap_mark_free (cluster : Z) (s : Fs S) : Fs S :=
  match alloc_bitmap s, bit_index cluster clusters with
  | Some m, Some i => set_alloc_bitmap s (Some (Z.clearbit m i))
  | _, _ => s
  end.

Fixpoint free_walk (fuel : nat) (cluster iters : Z) : cmd (Fs S) unit :=
  if (2 <=? cluster) && (cluster <? EOC_MARKER) then
    match fuel with
    | O => cmd_res Panic
    | Datatypes.S fuel =>
        do! next := lift (fat_read cluster) in
        do! _ := lift (fat_write cluster FREE_CLUSTER) in
        do! _ := modify (bitmap_mark_free cluster) in
        do! _ := modify (fun s => set_free_count s ((free_clus_count s + 1) mod 2 ^ 32)) in
        if clusters + 2 <? iters + 1 then cmd_res (Err IOError)
        else free_walk fuel next (iters + 1)
    end
  else cmd_ret tt.

Definition walk_fuel : nat := Z.to_nat (clusters + 4).

Definition free_chain (cluster : Z) : cmd (Fs S) unit := free_walk walk_fuel cluster 0.

(** ** Chains *)

Definition zero_cluster (cluster : Z) : cmd S unit :=
  cluster_write cluster (replicate (Z.to_nat cluster_bytes) 0).

Fixpoint len_loop (fuel : nat) (c n : Z) : cmd (Fs S) Z :=
  match fuel with
  | O => cmd_res Panic
  | Datatypes.S fuel =>
      do! next := lift (fat_read c) in
      if EOC_MARKER <=? next then cmd_ret n
      else if clusters + 2 <? n + 1 then cmd_res (Err IOError)
      else len_loop fuel next (n + 1)
  end.

Definition chain_len (start : Z) : cmd (Fs S) Z :=
  if (start =? 0) || (EOC_MARKER <=? start) then cmd_ret 0
  else len_loop walk_fuel start 1.

(** The last cluster of the chain. *)
Fixpoint tail_loop (fuel : nat) (tail iters : Z) : cmd (Fs S) Z :=
  match fuel with
  | O => cmd_res Panic
  | Datatypes.S fuel =>
      do! next := lift (fat_read tail) in
      if EOC_MARKER <=? next then cmd_ret tail
      else if clusters + 2 <? iters + 1 then cmd_res (Err IOError)
      else tail_loop fuel next (iters + 1)
  end.

Fixpoint append_loop (additional : nat) (tail : Z) : cmd (Fs S) unit :=
  match additional with
  | O => cmd_ret tt
  | Datatypes.S additional =>
      do! new := alloc_cluster in
      do! _ := lift (zero_cluster new) in
      do! _ := lift (fat_write tail new) in
      append_loop additional new
  end.

Definition extend_chain (start additional : Z) : cmd (Fs S) unit :=
  do! tail := tail_loop walk_fuel start 0 in
  append_loop (Z.to_nat additional) tail.

(** [steps] links from [c]; [None] when the chain ends before. *)
Fixpoint keep_loop (steps : nat) (c : Z) : cmd (Fs S) (option Z) :=
  match steps with
  | O => cmd_ret (Some c)
  | Datatypes.S steps =>
      do! next := lift (fat_read c) in
      if EOC_MARKER <=? next then cmd_ret None else keep_loop steps next
  end.

Definition truncate_chain (start keep : Z) : cmd (Fs S) unit :=
  if (start =? 0) || (keep =? 0) then free_chain start
  else
    do! o := keep_loop (Z.to_nat (keep - 1)) start in
    match o with
    | None => cmd_ret tt
    | Some c =>
        do! next := lift (fat_read c) in
        if next <? EOC_MARKER then
          do! _ := lift (fat_write c EOC_MARKER) in
          free_chain next
        else cmd_ret tt
    end.

Definition invalidate_chain (first : Z) (s : Fs S) : Fs S :=
  if negb (first =? 0) then set_chain_cache s (delete first (chain_cache s)) else s.

Definition statfs (s : Fs S) : Z * Z * Z := (cluster_bytes, clusters, free_clus_count s).
End Alloc.

(** ** On the cached FAT *)

Section Volume.
Context `{Profile} `{WriteDevice D} (b : Bpb).

Definition read_cluster (cluster : Z) : cmd state (list Z) := fun '(d, c) =>
  if (cluster <? 2) || (2 + total_clus b <=? cluster) then ((d, c), Err InvalidInput)
  else ((d, c), read_sectors d (clus_to_lba b cluster) (sec_per_clus b)).

Definition write_cluster (cluster : Z) (buf : list Z) : cmd state unit :=
  if (cluster <? 2) || (2 + total_clus b <=? cluster) then cmd_res (Err InvalidInput)
  else dev_write (clus_to_lba b cluster) (sec_per_clus b) buf.

Definition volume : FatOps (D * FatCache) := {|
  fat_read := read_fat_entry b;
  fat_write := write_fat_entry b;
  cluster_write := write_cluster;
  clusters := total_clus b;
  cluster_bytes := byts_per_clus b
|}.

(** A read of the device past the FAT cache. *)
Definition dev_read (lba count : Z) : cmd (Fs (D * FatCache)) (list Z) := fun s =>
  (s, read_sectors (fat s).1 lba count).

(** *** The free-cluster scan *)

(** Entry [i] of sector [done + sec_off], in a buffer that starts at sector
    [done]. *)
Definition scan_entry (buf : list Z) (done sec_off : Z) (acc : Z * option Z) (i : Z)
  : res VfsError (Z * option Z) :=
  let entry_idx := (done + sec_off) * 128 + i in
  if (entry_idx <? 2) || (2 + total_clus b - 1 <? entry_idx) then Ok acc
  else
    let? bs := ok_or (get_range buf (sec_off * 512 + i * 4) 4) IOError in
    if Z.land (le_val bs) FAT_MASK =? FREE_CLUSTER then Ok (acc.1 + 1, acc.2)
    else Ok (acc.1, (fun m => Z.setbit m (entry_idx - 2)) <$> acc.2).

Fixpoint res_fold {A B} (f : A -> B -> res VfsError A) (acc : A) (l : list B) : res VfsError A :=
  match l with
  | [] => Ok acc
  | x :: l => let? acc := f acc x in res_fold f acc l
  end.

Definition scan_chunk (buf : list Z) (done chunk : Z) (acc : Z * option Z) : res VfsError (Z * option Z) :=
  res_fold (fun acc sec_off => res_fold (scan_entry buf done sec_off) acc (seqZ 0 128))
    acc (seqZ 0 chunk).

Fixpoint scan_loop (fuel : nat) (first_lba done : Z) (acc : Z * option Z)
  : cmd (Fs (D * FatCache)) (Z * option Z) :=
  if done <? fat_sz32 b then
    match fuel with
    | O => cmd_res Panic
    | S fuel =>
        let chunk := Z.min 504 (fat_sz32 b - done) in
        do! buf := dev_read (first_lba + done) chunk in
        do! acc := cmd_res (scan_chunk buf done chunk acc) in
        scan_loop fuel first_lba (done + chunk) acc
    end
  else cmd_ret acc.

Definition scan_free_clusters : cmd (Fs (D * FatCache)) Z :=
  let first_lba := fat_sector_lba b (active_fat_idx b) 0 in
  let bitmap := if total_clus b <=? BITMAP_MAX_CLUSTERS then Some 0 else None in
  do! acc := scan_loop (Z.to_nat (fat_sz32 b)) first_lba 0 (0, bitmap) in
  do! _ := modify (fun s => set_alloc_bitmap s acc.2) in
  cmd_ret acc.1.

(** *** FSInfo and the volume-dirty flag *)

Definition fsinfo_is_valid : bool := negb (fsinfo_sec b =? 0) && negb (fsinfo_sec b =? 65535).

Definition write_fsinfo : cmd (Fs (D * FatCache)) unit := fun s =>
  if negb fsinfo_is_valid then (s, Ok tt)
  else
    (do! buf := dev_read (fsinfo_sec b) 1 in
     do! buf := cmd_res (copy_at buf 0 (le_bytes 4 FSINFO_LEAD_SIG)) in
     do! buf := cmd_res (copy_at buf 484 (le_bytes 4 FSINFO_STRUCT_SIG)) in
     do! buf := cmd_res (copy_at buf 488 (le_bytes 4 (free_clus_count s))) in
     do! buf := cmd_res (copy_at buf 492 (le_bytes 4 (next_alloc_hint s))) in
     do! buf := cmd_res (copy_at buf 508 (le_bytes 4 FSINFO_TRAIL_SIG)) in
     lift (dev_write (fsinfo_sec b) 1 buf)) s.

(** Byte 0x41 of the boot sector, through [f]. *)
Definition update_flag (f : Z -> Z) : cmd (Fs (D * FatCache)) unit :=
  do! sector := dev_read 0 1 in
  do! v := cmd_res (index sector 65) in
  do! sector := cmd_res (index_set sector 65 (f v)) in
  lift (dev_write 0 1 sector).

Definition set_volume_dirty_flag : cmd (Fs (D * FatCache)) unit := fun s =>
  if volume_dirty s then (s, Ok tt)
  else (do! _ := update_flag (fun v => Z.lor v 1) in
        modify (fun s => set_volume_dirty s true)) s.

Definition clear_volume_dirty_flag : cmd (Fs (D * FatCache)) unit := fun s =>
  if negb (volume_dirty s) then (s, Ok tt)
  else (do! _ := update_flag (fun v => Z.land v 254) in
        modify (fun s => set_volume_dirty s false)) s.

Definition sync_all : cmd (Fs (D * FatCache)) unit :=
  do! _ := lift flush in write_fsinfo.

Definition shutdown : cmd (Fs (D * FatCache)) unit :=
  do! _ := sync_all in clear_volume_dirty_flag.

(** *** Chains of files *)

(** One read of the whole FAT in chunks. *)
Fixpoint read_fat (fuel : nat) (off : Z) (data : list Z) : cmd (Fs (D * FatCache)) (list Z) :=
  if off <? fat_sz32 b then
    match fuel with
    | O => cmd_res Panic
    | S fuel =>
        let c := Z.min 504 (fat_sz32 b - off) in
        do! buf := dev_read (fat_sector_lba b 0 0 + off) c in
        read_fat fuel (off + c) (data ++ buf)
    end
  else cmd_ret data.

(** The chain from [c] in a copy of the FAT. *)
Fixpoint bulk_loop (fuel : nat) (fat_data : list Z) (c count : Z) (chain : list Z)
  : res VfsError (list Z) :=
  match fuel with
  | O => Panic
  | S fuel =>
      let chain := chain ++ [c] in
      if Z.of_nat (length fat_data) <? c * 4 + 4 then Err IOError
      else
        let? v := le_at fat_data (c * 4) 4 in
        let next := Z.land v FAT_MASK in
        if EOC_MARKER <=? next then Ok chain
        else if (next <? 2) || (2 + total_clus b <=? next) then Err IOError
        else if total_clus b + 2 <? count + 1 then Err IOError
        else if Z.of_nat (length fat_data) <? count + 1 then Err IOError
        else bulk_loop fuel fat_data next (count + 1) chain
  end.

Fixpoint cached_loop (fuel : nat) (c count : Z) (chain : list Z)
  : cmd (Fs (D * FatCache)) (list Z) :=
  match fuel with
  | O => cmd_res Panic
  | S fuel =>
      let chain := chain ++ [c] in
      do! next := lift (read_fat_entry b c) in
      if EOC_MARKER <=? next then cmd_ret chain
      else if total_clus b + 2 <? count + 1 then cmd_res (Err IOError)
      else cached_loop fuel next (count + 1) chain
  end.

Definition chain_for (first : Z) : cmd (Fs (D * FatCache)) (list Z) := fun s =>
  if (first <? 2) || (EOC_MARKER <=? first) then (s, Ok [])
  else
    match chain_cache s !! first with
    | Some chain => (s, Ok chain)
    | None =>
        (do! chain :=
           if (fat_sz32 b <=? 1024) && (total_clus b <=? 200000) then
             do! fat_data := read_fat (Z.to_nat (fat_sz32 b)) 0 [] in
             cmd_res (bulk_loop (Z.to_nat (total_clus b + 4)) fat_data first 0 [])
           else cached_loop (Z.to_nat (total_clus b + 4)) first 0 [] in
         do! _ := modify (fun s => set_chain_cache s (<[first := chain]> (chain_cache s))) in
         cmd_ret chain) s
    end.
End Volume.

(** ** Mounting *)

Section Mount.
Context `{Profile} `{WriteDevice D}.

(** The allocation hint FSInfo gives, if it is valid. *)
Definition fsinfo_hint (b : Bpb) (dev : D) : option Z :=
  if fsinfo_is_valid b then
    match read_sectors dev (fsinfo_sec b) 1 with
    | Ok sector =>
        if bool_decide (take 4 sector = le_bytes 4 FSINFO_LEAD_SIG)
           && bool_decide (take 4 (drop 484 sector) = le_bytes 4 FSINFO_STRUCT_SIG)
        then
          let hint := le_val (take 4 (drop 492 sector)) in
          if (2 <=? hint) && (hint <? 2 + total_clus b) then Some hint else None
        else None
    | _ => None
    end
  else None.

(** The superblock before the first use of the device. *)
Definition fresh_super (b : Bpb) (dev : D) : Fs (D * FatCache) :=
  mkFs (dev, new_cache b) ∅ None 2 0 false.

(** The work of [mount] on a parsed volume. *)
Definition mount_super (b : Bpb) : cmd (Fs (D * FatCache)) unit :=
  do! _ := set_volume_dirty_flag in
  do! _ := modify (fun s => match fsinfo_hint b (fat s).1 with
                            | Some hint => set_hint s hint
                            | None => s
                            end) in
  do! free := scan_free_clusters b in
  modify (fun s => set_free_count s free).

Definition mount (dev : D) : D * res VfsError (Bpb * Fs (D * FatCache)) :=
  match parse_bpb dev with
  | Ok b =>
      match read_sectors dev 0 1 with
      | Ok _ =>
          let '(s, r) := mount_super b (fresh_super b dev) in
          ((fat s).1, let? _ := r in Ok (b, s))
      | Err e => (dev, Err e)
      | Panic => (dev, Panic)
      end
  | Err e => (dev, Err e)
  | Panic => (dev, Panic)
  end.
End Mount.
