(* ===== verification/FatAllocFacts.v ===== *)
(** * Allocation and chains against the table

    What [FatOps] promise ([FatLaws]), and from that alone the specification of
    bulk allocation with its rollback on every error. *)

From S2P Require Import Prelude Bits Errors BlockDev Fat32 FatAlloc.
Import Errors.Vfs.
Local Open Scope Z_scope.

(** ** Weakest preconditions

    [wp s m Q E]: from [s], [m] does not panic, and ends in [Q] with a value or
    in [E] with an error. *)

Definition wp {S A} (s : S) (m : cmd S A) (Q : S -> A -> Prop) (E : S -> VfsError -> Prop) : Prop :=
  match m s with
  | (s', Ok a) => Q s' a
  | (s', Err e) => E s' e
  | (_, Panic) => False
  end.

Section Wp.
Context {S : Type}.

Lemma wp_ret {A} s (a : A) (Q : S -> A -> Prop) E : Q s a -> wp s (cmd_ret a) Q E.
Proof. done. Qed.

Lemma wp_err {A} s e (Q : S -> A -> Prop) (E : S -> VfsError -> Prop) :
  E s e -> wp s (cmd_res (Err e)) Q E.
Proof. done. Qed.

Lemma wp_ok {A} s (a : A) r (Q : S -> A -> Prop) E : r = Ok a -> Q s a -> wp s (cmd_res r) Q E.
Proof. by intros ->. Qed.

Lemma wp_bind {A B} s (m : cmd S A) (k : A -> cmd S B) Q E :
  wp s m (fun s' a => wp s' (k a) Q E) E -> wp s (cmd_bind m k) Q E.
Proof. unfold wp, cmd_bind. by destruct (m s) as [s' [a|e|]]. Qed.

Lemma wp_mono {A} s (m : cmd S A) (Q Q' : S -> A -> Prop) (E E' : S -> VfsError -> Prop) :
  wp s m Q E -> (forall s' a, Q s' a -> Q' s' a) -> (forall s' e, E s' e -> E' s' e) -> wp s m Q' E'.
Proof. unfold wp. destruct (m s) as [s' [a|e|]]; auto. Qed.

Lemma wp_ext {A} s (m m' : cmd S A) (Q : S -> A -> Prop) E : m s = m' s -> wp s m' Q E -> wp s m Q E.
Proof. unfold wp. by intros ->. Qed.

Lemma wp_seq {A B} s (m : cmd S A) (k : A -> cmd S B) Q Q1 E E1 :
  wp s m Q1 E1 -> (forall s' a, Q1 s' a -> wp s' (k a) Q E) -> (forall s' e, E1 s' e -> E s' e) ->
  wp s (cmd_bind m k) Q E.
Proof. intros Hm Hk HE. apply wp_bind. by eapply wp_mono. Qed.

Lemma wp_ignore {A} s (m : cmd S A) (Q : S -> unit -> Prop) E :
  wp s m (fun s' _ => Q s' tt) (fun s' _ => Q s' tt) -> wp s (ignore m) Q E.
Proof. unfold wp, ignore. by destruct (m s) as [s' [a|e|]]. Qed.

Lemma wp_modify (s : Fs S) f (Q : Fs S -> unit -> Prop) E : Q (f s) tt -> wp s (modify f) Q E.
Proof. done. Qed.

Lemma wp_lift {A} (s : Fs S) (m : cmd S A) (Q : Fs S -> A -> Prop) E :
  wp (fat s) m (fun x a => Q (set_fat s x) a) (fun x e => E (set_fat s x) e) -> wp s (lift m) Q E.
Proof. unfold wp, lift. by destruct (m (fat s)) as [x [a|e|]]. Qed.

Lemma wp_result {A} s (m : cmd S A) Q E : wp s m Q E ->
  no_panic (m s).2 /\ (forall a, (m s).2 = Ok a -> Q (m s).1 a) /\ (forall e, (m s).2 = Err e -> E (m s).1 e).
Proof. unfold wp, no_panic. destruct (m s) as [s' [a|e|]]; simpl; naive_solver. Qed.
End Wp.

(** ** Bitmaps *)

Lemma testbit_set_bits l : forall m i, 0 <= i -> Forall (Z.le 0) l ->
  Z.testbit (set_bits m l) i = Z.testbit m i || bool_decide (i ∈ l).
Proof.
  induction l as [|x l IH]; intros m i Hi Hl; [simpl; by rewrite orb_false_r|].
  apply Forall_cons in Hl as [Hx Hl]. simpl. rewrite IH by done. rewrite Z.setbit_eqb by lia.
  destruct (Z.eqb_spec x i) as [->|Hne].
  - rewrite (bool_decide_true (i ∈ i :: l)) by set_solver. by rewrite !orb_true_r.
  - simpl. f_equal. apply bool_decide_ext. set_solver.
Qed.

Lemma testbit_clear_bits l : forall m i, 0 <= i -> Forall (Z.le 0) l ->
  Z.testbit (clear_bits m l) i = Z.testbit m i && negb (bool_decide (i ∈ l)).
Proof.
  induction l as [|x l IH]; intros m i Hi Hl; [simpl; by rewrite andb_true_r|].
  apply Forall_cons in Hl as [Hx Hl]. simpl. rewrite IH by done. rewrite Z.clearbit_eqb by lia.
  destruct (Z.eqb_spec x i) as [->|Hne].
  - rewrite (bool_decide_true (i ∈ i :: l)) by set_solver. simpl. by rewrite !andb_false_r.
  - simpl. rewrite andb_true_r. do 2 f_equal. apply bool_decide_ext. set_solver.
Qed.

Lemma clear_set_bits m l : Forall (fun i => 0 <= i /\ Z.testbit m i = false) l ->
  clear_bits (set_bits m l) l = m.
Proof.
  intros Hl. assert (Forall (Z.le 0) l) as Hp by (eapply Forall_impl; [done|]; by intros ? []).
  apply Z.bits_inj'. intros i Hi. rewrite testbit_clear_bits, testbit_set_bits by done.
  case_bool_decide as Hin; [|by rewrite orb_false_r, andb_true_r].
  rewrite Forall_forall in Hl. destruct (Hl i Hin) as [_ ->]. done.
Qed.

Lemma set_bits_app m l l' : set_bits m (l ++ l') = set_bits (set_bits m l) l'.
Proof. apply foldl_app. Qed.

(** The indices from [start] round are all the indices. *)
Lemma rotation_perm start total : 0 <= start -> 0 < total ->
  map (fun off => (start + off) mod total) (seqZ 0 total) ≡ₚ seqZ 0 total.
Proof.
  intros Hs Ht.
  assert (NoDup (map (fun off => (start + off) mod total) (seqZ 0 total))) as Hnd.
  { apply (NoDup_fmap_2_strong (fun off => (start + off) mod total)); [|apply NoDup_seqZ].
    intros x y Hx%elem_of_seqZ Hy%elem_of_seqZ E.
    pose proof (Z.div_mod (start + x) total ltac:(lia)) as Dx.
    pose proof (Z.div_mod (start + y) total ltac:(lia)) as Dy. rewrite E in Dx.
    assert ((start + x) / total = (start + y) / total) as Eq by nia. rewrite Eq in Dx. lia. }
  apply submseteq_length_Permutation.
  - apply NoDup_submseteq; [done|]. intros x (off & -> & _)%list_elem_of_fmap.
    apply elem_of_seqZ. pose proof (Z.mod_pos_bound (start + off) total). lia.
  - by rewrite length_map.
Qed.

(** ** Reservation *)

Lemma gather_free_spec idxs count : forall m found, NoDup idxs -> Forall (Z.le 0) idxs ->
  gather_free idxs count m found =
    let new := take (Z.to_nat (count - Z.of_nat (length found)))
                 (filter (fun i => Z.testbit m i = false) idxs) in
    (set_bits m new, found ++ new).
Proof.
  induction idxs as [|i idxs IH]; intros m found Hnd Hp; [cbn; by rewrite take_nil, app_nil_r|].
  apply NoDup_cons in Hnd as [Hni Hnd]. apply Forall_cons in Hp as [Hi Hp]. cbn [gather_free].
  destruct (Z.leb_spec count (Z.of_nat (length found))) as [Hc|Hc].
  { replace (Z.to_nat _) with 0%nat by lia. simpl. by rewrite app_nil_r. }
  cbv zeta. destruct (Z.testbit m i) eqn:Eb.
  - rewrite IH by done. rewrite filter_cons_False by congruence. done.
  - rewrite IH by done. cbv zeta. rewrite (filter_cons_True (fun i => Z.testbit m i = false)) by done.
    assert (filter (fun j => Z.testbit (Z.setbit m i) j = false) idxs
            = filter (fun j => Z.testbit m j = false) idxs) as ->.
    { apply filter_agree. intros j Hj. rewrite Z.setbit_neq; [done|done|]. set_solver. }
    rewrite length_app. simpl length.
    replace (Z.to_nat (count - Z.of_nat (length found)))
      with (S (Z.to_nat (count - Z.of_nat (length found + 1)))) by lia.
    simpl take. simpl set_bits. by rewrite <- app_assoc.
Qed.

Lemma window_elem total s count i : 0 <= s < total -> count <= total -> i ∈ window total s count ->
  0 <= i < total.
Proof.
  intros Hs Hc (k & -> & Hk%elem_of_seqZ)%list_elem_of_fmap. destruct (total <? s + count) eqn:E.
  - apply Z.mod_pos_bound. lia.
  - lia.
Qed.

Lemma window_NoDup total s count : 0 <= s < total -> count <= total -> NoDup (window total s count).
Proof.
  intros Hs Hc. apply (NoDup_fmap_2_strong _ (seqZ 0 count)); [|apply NoDup_seqZ].
  intros x y Hx%elem_of_seqZ Hy%elem_of_seqZ E. destruct (total <? s + count); [|lia].
  pose proof (Z.div_mod (s + x) total ltac:(lia)) as Dx.
  pose proof (Z.div_mod (s + y) total ltac:(lia)) as Dy. rewrite E in Dx.
  assert ((s + x) / total = (s + y) / total) as Eq by nia. rewrite Eq in Dx. lia.
Qed.

(** A reservation takes [count] clusters that were free and nothing else; it
    fails only when fewer are free, and then changes nothing. *)
Lemma reserve_spec m hint total count : 0 < total -> 0 < count ->
  match reserve m hint total count with
  | (m', Ok cands) => exists w, cands = map (Z.add 2) w /\ m' = set_bits m w /\ NoDup w
      /\ Z.of_nat (length w) = count
      /\ Forall (fun i => 0 <= i < total /\ Z.testbit m i = false) w
  | (m', Err e) => e = NoSpace /\ m' = m
      /\ Z.of_nat (length (filter (fun i => Z.testbit m i = false) (seqZ 0 total))) < count
  | (_, Panic) => False
  end.
Proof.
  intros Ht Hc. unfold reserve. set (start := Z.max 0 (hint - 2) mod total).
  assert (0 <= start < total) as Hs by (apply Z.mod_pos_bound; lia).
  destruct (find_window m total start count) as [w|] eqn:Ew.
  - unfold find_window in Ew. destruct (Z.leb_spec count total) as [Hct|]; [|done].
    apply fmap_Some in Ew as ([k w'] & Hf & ->). apply list_find_Some in Hf as (Hw & Hfree & _).
    cbn [snd]. apply list_elem_of_lookup_2, list_elem_of_fmap in Hw as (off & -> & Hoff%elem_of_seqZ).
    set (s := (start + off) mod total) in *.
    assert (0 <= s < total) as Hs' by (apply Z.mod_pos_bound; lia).
    assert (length (window total s count) = Z.to_nat count) as Hl
      by (unfold window; rewrite length_map; apply length_seqZ).
    rewrite Hl, Z2Nat.id, Z.eqb_refl by lia. exists (window total s count).
    split_and!; [done|done|by apply window_NoDup|lia|]. apply Forall_forall. intros i Hi.
    split; [by eapply window_elem|]. unfold window_free in Hfree. rewrite forallb_forall in Hfree.
    apply list_elem_of_In, Hfree in Hi. by apply negb_true_iff in Hi.
  - pose proof (rotation_perm start total ltac:(lia) Ht) as Hperm.
    set (idxs := map (fun off => (start + off) mod total) (seqZ 0 total)) in *.
    assert (forall i, i ∈ idxs -> 0 <= i < total) as Hin.
    { intros i Hi. rewrite Hperm in Hi. apply elem_of_seqZ in Hi. lia. }
    rewrite gather_free_spec; cycle 1.
    { rewrite Hperm. apply NoDup_seqZ. }
    { apply Forall_forall. intros i Hi. apply Hin in Hi. lia. }
    cbv zeta. simpl length. rewrite Z.sub_0_r. rewrite app_nil_l.
    set (free := filter (fun i => Z.testbit m i = false) idxs).
    assert (Forall (fun i => 0 <= i < total /\ Z.testbit m i = false) free) as Hfree.
    { apply Forall_forall. intros i [Hb Hi]%list_elem_of_filter. auto. }
    assert (length free = length (filter (fun i => Z.testbit m i = false) (seqZ 0 total))) as Hlen.
    { apply Permutation_length. unfold free. by rewrite Hperm. }
    assert (Forall (fun i => 0 <= i < total /\ Z.testbit m i = false) (take (Z.to_nat count) free)) as Htk
      by (by apply Forall_take).
    destruct (Z.ltb_spec (Z.of_nat (length (take (Z.to_nat count) free))) count) as [Hlt|Hge].
    + rewrite length_take in Hlt. split_and!; [done| |lia]. apply clear_set_bits.
      eapply Forall_impl; [exact Htk|]. simpl. lia.
    + rewrite length_take in Hge. exists (take (Z.to_nat count) free).
      split_and!; [done|done| |rewrite length_take; lia|done].
      eapply (NoDup_app _ (drop (Z.to_nat count) free)). rewrite take_drop.
      apply NoDup_filter. rewrite Hperm. apply NoDup_seqZ.
Qed.

(** ** The volume below *)

(** The table a volume holds, the states it can be in, and the states in which
    its device serves every request. *)
Class FatView (S : Type) := {
  fat_ok : S -> Prop;
  fat_live : S -> Prop;
  fat_entry : S -> Z -> Z
}.

Definition is_cluster {S} `{FatOps S} (c : Z) : Prop := 2 <= c < 2 + clusters.
#[global] Instance is_cluster_dec {S} `{FatOps S} c : Decision (is_cluster c).
Proof. unfold is_cluster. apply _. Defined.

(** [s'] is [s] with the table [g]. *)
Definition becomes {S} `{FatOps S} `{FatView S} (s s' : S) (g : Z -> Z) : Prop :=
  fat_ok s' /\ (forall c, is_cluster c -> fat_entry s' c = g c) /\ (fat_live s -> fat_live s').

(** What the allocator relies on: entry reads and writes work on the table and
    fail without effect on it, and on a live device they do not fail. *)
Class FatLaws (S : Type) `{FatOps S} `{FatView S} := {
  clusters_fit : 0 <= clusters /\ 2 + clusters <= EOC_MARKER;
  fat_entry_range s c : 0 <= fat_entry s c < 2 ^ 28;
  fat_read_wp s c : fat_ok s -> is_cluster c ->
    wp s (fat_read c) (fun s' v => v = fat_entry s c /\ becomes s s' (fat_entry s))
      (fun s' _ => becomes s s' (fat_entry s) /\ ~ fat_live s);
  fat_write_wp s c v : fat_ok s -> is_cluster c ->
    wp s (fat_write c v)
      (fun s' _ => becomes s s' (fun c' => if decide (c' = c) then Z.land v FAT_MASK else fat_entry s c'))
      (fun s' _ => becomes s s' (fat_entry s) /\ ~ fat_live s);
  fat_out_of_range s c v : ~ is_cluster c ->
    fat_read c s = (s, Err InvalidInput) /\ fat_write c v s = (s, Err InvalidInput)
}.

(** What extending a file relies on besides: cluster writes leave the table
    alone. *)
Class FatZero (S : Type) `{FatOps S} `{FatView S} := {
  zero_cluster_wp s c : fat_ok s -> is_cluster c ->
    wp s (zero_cluster c) (fun s' _ => becomes s s' (fat_entry s))
      (fun s' _ => becomes s s' (fat_entry s) /\ ~ fat_live s)
}.

(** [f] with the value [v] at the clusters of [l]. *)
Definition upd (f : Z -> Z) (l : list Z) (v c : Z) : Z := if decide (c ∈ l) then v else f c.

Section Allocation.
Context `{Profile} {S : Type} `{FatLaws S}.
Implicit Types s : Fs S.

Definition tbl s (c : Z) : Z := fat_entry (fat s) c.
Definition live s : Prop := fat_live (fat s).

(** Only the volume changed, and its table is [g]. *)
Definition tabled s s' (g : Z -> Z) : Prop := s' = set_fat s (fat s') /\ becomes (fat s) (fat s') g.

Lemma set_fat_id s : set_fat s (fat s) = s.
Proof. by destruct s. Qed.

Lemma becomes_refl (x : S) : fat_ok x -> becomes x x (fat_entry x).
Proof. intros Hk. unfold becomes. by split_and!. Qed.

Lemma becomes_trans (x y z : S) g g' : becomes x y g -> becomes y z g' -> becomes x z g'.
Proof. intros (_ & _ & Hl) (Hk & Hg & Hl'). unfold becomes. split_and!; auto. Qed.

Lemma becomes_ext (x y : S) g g' : becomes x y g -> (forall c, is_cluster c -> g c = g' c) -> becomes x y g'.
Proof. intros (Hk & Hg & Hl) He. unfold becomes. split_and!; [done| |done]. intros c Hc. rewrite <- He by done. auto. Qed.

Lemma tabled_trans s1 s2 s3 g g' : tabled s1 s2 g -> tabled s2 s3 g' -> tabled s1 s3 g'.
Proof.
  intros [E1 B1] [E2 B2]. split; [|by eapply becomes_trans]. rewrite E2, E1. by destruct s1.
Qed.

Lemma tabled_ext s s' g g' : tabled s s' g -> (forall c, is_cluster c -> g c = g' c) -> tabled s s' g'.
Proof. intros [E B] He. split; [done|by eapply becomes_ext]. Qed.

Lemma tabled_refl s : fat_ok (fat s) -> tabled s s (tbl s).
Proof. intros Hk. split; [by rewrite set_fat_id|by apply becomes_refl]. Qed.

Lemma tabled_tbl s s' g c : tabled s s' g -> is_cluster c -> tbl s' c = g c.
Proof. intros [_ (_ & Hg & _)] Hc. by apply Hg. Qed.

Lemma tabled_ok s s' g : tabled s s' g -> fat_ok (fat s').
Proof. by intros [_ (Hk & _)]. Qed.

Lemma tabled_live s s' g : tabled s s' g -> live s -> live s'.
Proof. intros [_ (_ & _ & Hl)]. apply Hl. Qed.

Lemma lift_tabled s (x : S) g : becomes (fat s) x g -> tabled s (set_fat s x) g.
Proof. by split. Qed.

Lemma read_wp s c : fat_ok (fat s) -> is_cluster c ->
  wp s (lift (fat_read c)) (fun s' v => v = tbl s c /\ tabled s s' (tbl s))
    (fun s' _ => tabled s s' (tbl s) /\ ~ live s).
Proof.
  intros Hk Hc. apply wp_lift. eapply wp_mono; [by apply fat_read_wp| |]; simpl.
  - intros x v [-> Hb]. split; [done|by apply lift_tabled].
  - intros x e [Hb Hl]. split; [by apply lift_tabled|done].
Qed.

Lemma write_wp s c v : fat_ok (fat s) -> is_cluster c -> 0 <= v < 2 ^ 28 ->
  wp s (lift (fat_write c v)) (fun s' _ => tabled s s' (upd (tbl s) [c] v))
    (fun s' _ => tabled s s' (tbl s) /\ ~ live s).
Proof.
  intros Hk Hc Hv. apply wp_lift. eapply wp_mono; [by apply fat_write_wp| |]; simpl.
  - intros x _ Hb. apply lift_tabled. eapply becomes_ext; [done|]. intros c' _. unfold upd. simpl.
    change FAT_MASK with (Z.ones 28). rewrite Z.land_ones, Z.mod_small by lia.
    by repeat case_decide; set_solver.
  - intros x e [Hb Hl]. split; [by apply lift_tabled|done].
Qed.

Lemma upd_app f l l' v c : upd (upd f l v) l' v c = upd f (l ++ l') v c.
Proof. unfold upd. repeat case_decide; set_solver. Qed.

Lemma upd_congr f g l v c : f c = g c -> upd f l v c = upd g l v c.
Proof. unfold upd. by case_decide. Qed.

Lemma eoc_range : 0 <= EOC_MARKER < 2 ^ 28.
Proof. unfold EOC_MARKER. lia. Qed.

(** ** Undoing writes *)

Lemma undo_wp out : forall s, fat_ok (fat s) -> Forall is_cluster out ->
  wp s (undo out) (fun s' _ => exists g, tabled s s' g
      /\ (forall c, is_cluster c -> c ∉ out -> g c = tbl s c)
      /\ (live s -> forall c, is_cluster c -> g c = upd (tbl s) out FREE_CLUSTER c))
    (fun _ _ => False).
Proof.
  induction out as [|c out IH]; intros s Hk Ho; unfold undo; simpl.
  { exists (tbl s). split_and!; [by apply tabled_refl|done|done]. }
  apply Forall_cons in Ho as [Hc Ho]. apply wp_bind, wp_ignore.
  assert (forall s1 g1, tabled s s1 g1 -> (forall c', is_cluster c' -> c' <> c -> g1 c' = tbl s c') ->
    (live s -> forall c', is_cluster c' -> g1 c' = upd (tbl s) [c] FREE_CLUSTER c') ->
    wp s1 (cmd_for out (fun c => ignore (lift (fat_write c FREE_CLUSTER))))
      (fun s' _ => exists g, tabled s s' g
        /\ (forall c', is_cluster c' -> c' ∉ c :: out -> g c' = tbl s c')
        /\ (live s -> forall c', is_cluster c' -> g c' = upd (tbl s) (c :: out) FREE_CLUSTER c'))
      (fun _ _ => False)) as Hrest.
  { intros s1 g1 Ht1 Hne Hlive. eapply wp_mono; [apply (IH s1); [by eapply tabled_ok|done]| |done].
    intros s2 _ (g & Ht2 & Hg & Hgl). exists g. split_and!.
    - by eapply tabled_trans.
    - intros c' Hc' Hn. rewrite Hg by (done || set_solver). rewrite (tabled_tbl _ _ _ _ Ht1) by done.
      apply Hne; set_solver.
    - intros Hl c' Hc'. rewrite Hgl by (done || by eapply tabled_live).
      rewrite <- (upd_app _ [c] out). unfold upd at 1 2. case_decide; [done|].
      rewrite (tabled_tbl _ _ _ _ Ht1) by done. by apply Hlive. }
  eapply wp_mono; [apply write_wp; [done|done|unfold FREE_CLUSTER; lia]| |].
  - intros s1 u Ht1. eapply Hrest; [exact Ht1| |done]. intros c' _ Hne. unfold upd. case_decide; set_solver.
  - intros s1 e [Ht1 Hnl]. eapply Hrest; [exact Ht1|done|done].
Qed.

(** A failing operation that rolls back leaves the clusters of [out] free or as
    they were, and the table as it was before on a live device. *)
Lemma or_undo_wp {A} s (m : cmd (Fs S) A) before out (Q : Fs S -> A -> Prop) :
  Forall is_cluster out ->
  (forall s x, before (set_fat s x) = set_fat (before s) x) -> fat (before s) = fat s ->
  wp s m Q (fun s' _ => tabled s s' (tbl s) /\ ~ live s) ->
  wp s (or_undo before out m) Q (fun s' _ => exists g, tabled (before s) s' g /\ ~ live s
    /\ forall c, is_cluster c -> c ∉ out -> g c = tbl s c).
Proof.
  intros Ho Hbf Hb Hm. unfold wp, or_undo in *. destruct (m s) as [s1 [a|e|]]; [done| |done].
  destruct Hm as [[E Hbec] Hnl].
  assert (tabled (before s) (before s1) (tbl s)) as Ht.
  { rewrite E, Hbf. split; [by destruct (before s)|]. simpl. by rewrite Hb. }
  change (wp s1 (do! _ := modify before in do! _ := undo out in cmd_res (Err e)) Q
    (fun s' _ => exists g, tabled (before s) s' g /\ ~ live s
       /\ forall c, is_cluster c -> c ∉ out -> g c = tbl s c)).
  apply wp_bind, wp_modify, wp_bind. eapply wp_mono; [apply undo_wp; [by eapply tabled_ok|done]| |done].
  intros s2 u (g & Ht2 & Hg & _). apply wp_err. exists g.
  split_and!; [by eapply tabled_trans|done|]. intros c Hc Hn. rewrite Hg by done.
  by apply (tabled_tbl _ _ _ _ Ht).
Qed.

(** ** The write loop *)

Lemma write_eocs_wp f all rest : forall out s s0, Forall is_cluster rest -> Forall is_cluster out ->
  tabled s0 s (upd f out EOC_MARKER) ->
  wp s (write_eocs all rest out)
    (fun s' r => r = out ++ rest /\ tabled s0 s' (upd f r EOC_MARKER))
    (fun s' _ => exists g, tabled (release all s0) s' g /\ ~ live s
      /\ forall c, is_cluster c -> c ∉ out ++ rest -> g c = f c).
Proof.
  induction rest as [|c rest IH]; intros out s s0 Hr Ho Ht; cbn [write_eocs].
  { apply wp_ret. by rewrite app_nil_r. }
  apply Forall_cons in Hr as [Hc Hr]. pose proof (tabled_ok _ _ _ Ht) as Hk.
  eapply wp_seq; [apply or_undo_wp|..].
  - done.
  - done.
  - done.
  - eapply wp_mono; [by apply write_wp|done|done].
  - simpl. intros s1 u Ht1. eapply wp_mono; [apply (IH (out ++ [c]) s1 s0)|..].
    + done.
    + apply Forall_app. split; [done|by apply Forall_singleton].
    + eapply tabled_ext; [by eapply tabled_trans|]. intros c' Hc'. rewrite <- upd_app.
      apply upd_congr. by apply (tabled_tbl _ _ _ _ Ht).
    + intros s2 r [-> Ht2]. by rewrite <- app_assoc in *.
    + intros s2 e (g & Ht2 & Hnl & Hg). exists g. rewrite <- app_assoc in Hg.
      split_and!; [done| |done]. intros Hl. by apply Hnl, (tabled_live _ _ _ Ht1).
  - intros s1 e (g & [E Hb] & Hnl & Hg). exists g. split_and!; [|done|].
    + destruct Ht as [E0 Hb0]. split; [rewrite E, E0; by destruct s0|].
      eapply becomes_trans; [exact Hb0|exact Hb].
    + intros c' Hc' Hn. rewrite Hg by set_solver. rewrite (tabled_tbl _ _ _ _ Ht) by done.
      unfold upd. rewrite decide_False by set_solver. done.
Qed.

(** ** The scan without a bitmap *)

Lemma alloc_scan_wp f hint count offs : 2 <= hint <= 2 + clusters ->
  Forall (fun i => 0 <= i < clusters) offs -> forall out s s0,
  let visit := map (fun i => 2 + (hint - 2 + i) mod clusters) offs in
  NoDup (out ++ visit) -> Forall (fun c => is_cluster c /\ f c = 0) out ->
  tabled s0 s (upd f out EOC_MARKER) ->
  wp s (alloc_scan hint count offs out)
    (fun s' r => r = out ++ take (Z.to_nat (count - Z.of_nat (length out)))
                       (filter (fun c => f c = 0) visit)
       /\ tabled s0 s' (upd f r EOC_MARKER))
    (fun s' _ => exists g, tabled s0 s' g /\ ~ live s0
      /\ forall c, is_cluster c -> f c <> 0 -> g c = f c).
Proof.
  intros Hh. induction offs as [|i offs IH]; intros Hoffs out s s0 visit Hnd Ho Ht; cbn [alloc_scan].
  { apply wp_ret. unfold visit. cbn. by rewrite take_nil, app_nil_r. }
  apply Forall_cons in Hoffs as [Hi Hoffs]. destruct clusters_fit as [_ Hfit]. unfold EOC_MARKER in Hfit.
  destruct (Z.leb_spec count (Z.of_nat (length out))) as [Hle|Hgt].
  { apply wp_ret. replace (Z.to_nat _) with 0%nat by lia. by rewrite take_0, app_nil_r. }
  unfold u32_sub, u32_add. eapply wp_bind, wp_ok; [apply u32_op_Ok; unfold u32_max; lia|].
  eapply wp_bind, wp_ok; [apply u32_op_Ok; unfold u32_max; lia|].
  set (c := 2 + (hint - 2 + i) mod clusters).
  assert (is_cluster c) as Hc.
  { unfold c, is_cluster. pose proof (Z.mod_pos_bound (hint - 2 + i) clusters). lia. }
  set (visit' := map (fun i => 2 + (hint - 2 + i) mod clusters) offs) in IH.
  assert (visit = c :: visit') as Ev by done. rewrite Ev in *. clear Ev visit.
  assert (c ∉ out) as Hco by (apply NoDup_app in Hnd; set_solver).
  assert (Forall is_cluster out) as Ho' by (eapply Forall_impl; [done|]; by intros ? []).
  assert (forall s1 g, tabled s s1 g -> (forall c', is_cluster c' -> c' ∉ out -> g c' = tbl s c') ->
    tabled s0 s1 g /\ forall c', is_cluster c' -> f c' <> 0 -> g c' = f c') as Herr.
  { intros s1 g Ht1 Hg. split; [by eapply tabled_trans|]. intros c' Hc' Hf.
    assert (c' ∉ out) as Hn. { rewrite Forall_forall in Ho. intros Hin. by destruct (Ho c' Hin). }
    rewrite Hg, (tabled_tbl _ _ _ _ Ht) by done. unfold upd. by rewrite decide_False. }
  assert (tbl s c = f c) as Hsc.
  { rewrite (tabled_tbl _ _ _ _ Ht) by done. unfold upd. by rewrite decide_False. }
  eapply wp_seq; [apply or_undo_wp; [done|done|done|]; apply read_wp; [by eapply tabled_ok|done]|..].
  - intros s1 v [-> Ht1]. rewrite Hsc.
    assert (tabled s0 s1 (upd f out EOC_MARKER)) as Ht01.
    { eapply tabled_trans; [exact Ht|]. eapply tabled_ext; [exact Ht1|]. intros c' Hc'.
      by apply (tabled_tbl _ _ _ _ Ht). }
    destruct (Z.eqb_spec (f c) FREE_CLUSTER) as [Hz|Hz]; unfold FREE_CLUSTER in Hz.
    + rewrite (filter_cons_True (fun c => f c = 0)) by done.
      eapply wp_seq; [apply or_undo_wp; [done|done|done|];
        eapply wp_mono; [apply write_wp; [by eapply tabled_ok|done|apply eoc_range]|done|done]|..].
      * simpl. intros s2 u Ht2. eapply wp_mono; [apply (IH Hoffs (out ++ [c]) s2 s0)|..].
        -- rewrite <- app_assoc. done.
        -- apply Forall_app. split; [done|]. by apply Forall_singleton.
        -- eapply tabled_ext; [by eapply tabled_trans|]. intros c' Hc'. rewrite <- upd_app.
           apply upd_congr. by apply (tabled_tbl _ _ _ _ Ht01).
        -- intros s3 r [-> Ht3]. split; [|done]. rewrite length_app. simpl length.
           replace (Z.to_nat (count - Z.of_nat (length out)))
             with (Datatypes.S (Z.to_nat (count - Z.of_nat (length out + 1)))) by lia.
           simpl. by rewrite <- app_assoc.
        -- done.
      * intros s2 e (g & Ht2 & Hnl & Hg). exists g.
        destruct (Herr s2 g) as [Hs0 Hkeep]; [by eapply tabled_trans| |].
        { intros c' Hc' Hn. rewrite Hg by done. by apply (tabled_tbl _ _ _ _ Ht1). }
        split_and!; [done| |done]. intros Hl. by apply Hnl, (tabled_live _ _ _ Ht01).
    + rewrite (filter_cons_False (fun c => f c = 0)) by done.
      apply (IH Hoffs out s1 s0); [|done|done]. apply NoDup_app in Hnd as (Ha & Hb & Hd).
      apply NoDup_cons in Hd as [_ Hd]. apply NoDup_app. split_and!; [done|set_solver|done].
  - simpl. intros s1 e (g & Ht1 & Hnl & Hg). exists g. destruct (Herr s1 g Ht1 Hg) as [Hs0 Hkeep].
    split_and!; [done| |done]. intros Hl. by apply Hnl, (tabled_live _ _ _ Ht).
Qed.

(** ** Bulk allocation *)

Record fs_wf s : Prop := {
  wf_fat : fat_ok (fat s);
  wf_hint : 2 <= next_alloc_hint s <= 2 + clusters;
  wf_free : 0 <= free_clus_count s < 2 ^ 32
}.

(** The allocator may hand out [c]: its bit is clear, or without a bitmap its
    entry is. *)
Definition avail s (c : Z) : Prop :=
  is_cluster c /\ match alloc_bitmap s with
                  | Some m => Z.testbit m (c - 2) = false
                  | None => tbl s c = FREE_CLUSTER
                  end.
#[global] Instance avail_dec s c : Decision (avail s c).
Proof. unfold avail. destruct (alloc_bitmap s); apply _. Defined.

Definition avail_list s : list Z := filter (avail s) (seqZ 2 clusters).

(** [count] clusters [out] that were available are now single-cluster chains,
    and nothing else changed. *)
Record allocated s (count : Z) (out : list Z) s' : Prop := {
  al_length : Z.of_nat (length out) = count;
  al_nodup : NoDup out;
  al_avail : Forall (avail s) out;
  al_wf : fs_wf s';
  al_table c : is_cluster c -> tbl s' c = upd (tbl s) out EOC_MARKER c;
  al_bitmap : alloc_bitmap s' = (fun m => set_bits m (map (fun c => c - 2) out)) <$> alloc_bitmap s;
  al_free : free_clus_count s' = (free_clus_count s - count) mod 2 ^ 32;
  al_cache : chain_cache s' = chain_cache s;
  al_dirty : volume_dirty s' = volume_dirty s;
  al_live : live s -> live s'
}.

(** A failed allocation: bitmap, hint and count are as before, and so are the
    entries of all clusters in use.  On a live device the only failure is that
    fewer clusters are available, and the table is as before. *)
Record alloc_failed s (count : Z) s' (e : VfsError) : Prop := {
  af_wf : fs_wf s';
  af_rest : s' = set_fat s (fat s');
  af_table c : is_cluster c -> ~ avail s c -> tbl s' c = tbl s c;
  af_live : live s -> e = NoSpace /\ live s' /\ Z.of_nat (length (avail_list s)) < count
    /\ forall c, is_cluster c -> tbl s' c = tbl s c
}.

Lemma account_allocated s s1 m count out : fs_wf s -> 0 < count ->
  Z.of_nat (length out) = count -> NoDup out -> Forall (avail s) out ->
  m = (fun m => set_bits m (map (fun c => c - 2) out)) <$> alloc_bitmap s ->
  tabled (set_alloc_bitmap s m) s1 (upd (tbl s) out EOC_MARKER) ->
  allocated s count out (account count out s1).
Proof.
  intros [Hk Hh Hf] Hc Hlen Hnd Hav Hm [E (Hk1 & Hg & Hl)].
  assert (exists c, last out = Some c) as [c Hlast].
  { destruct (last out) eqn:El; [eauto|]. apply last_None in El. subst out. simpl in Hlen. lia. }
  assert (is_cluster c) as Hic.
  { rewrite Forall_forall in Hav. apply last_Some_elem_of in Hlast. apply (Hav c Hlast). }
  unfold account. rewrite Hlast, E. constructor; simpl; try done.
  - constructor; simpl; [done|unfold is_cluster in Hic; lia|]. apply Z.mod_pos_bound. lia.
Qed.

Lemma alloc_failed_intro s s' g count e : fs_wf s -> tabled s s' g ->
  (forall c, is_cluster c -> ~ avail s c -> g c = tbl s c) ->
  (live s -> e = NoSpace /\ Z.of_nat (length (avail_list s)) < count
     /\ forall c, is_cluster c -> g c = tbl s c) ->
  alloc_failed s count s' e.
Proof.
  intros [Hk Hh Hf] Ht Hna Hl. constructor.
  - destruct Ht as [-> (Hk2 & _)]. by constructor.
  - apply Ht.
  - intros c Hc Hn. rewrite (tabled_tbl _ _ _ _ Ht) by done. auto.
  - intros Hlive. destruct (Hl Hlive) as (-> & Hlt & Hg).
    split_and!; [done|by apply (tabled_live _ _ _ Ht)|done|].
    intros c Hc. rewrite (tabled_tbl _ _ _ _ Ht) by done. auto.
Qed.

Lemma avail_list_bitmap s m : alloc_bitmap s = Some m ->
  length (avail_list s) = length (filter (fun i => Z.testbit m i = false) (seqZ 0 clusters)).
Proof.
  intros Hm. unfold avail_list.
  assert (seqZ 2 clusters = Z.add 2 <$> seqZ 0 clusters) as -> by (by rewrite (fmap_add_seqZ 2 0)).
  apply length_filter_fmap. intros i Hi%elem_of_seqZ.
  unfold avail, is_cluster. simpl. rewrite Hm. replace (2 + i - 2) with i by lia.
  split; [by intros []|]. intros Hb. split; [lia|done].
Qed.

Lemma alloc_fallback_wp s count : fs_wf s -> 0 < count -> 0 < clusters -> alloc_bitmap s = None ->
  wp s (alloc_fallback count) (fun s' out => allocated s count out s') (alloc_failed s count).
Proof.
  intros Hwf Hc Hn Hbm. pose proof Hwf as [Hk Hh Hf]. unfold wp, alloc_fallback.
  set (visit := map (fun i => 2 + (next_alloc_hint s - 2 + i) mod clusters) (seqZ 0 clusters)).
  assert (visit ≡ₚ seqZ 2 clusters) as Hperm.
  { replace visit with (Z.add 2 <$> map (fun i => (next_alloc_hint s - 2 + i) mod clusters) (seqZ 0 clusters))
      by (unfold visit; by rewrite <- list_fmap_compose).
    rewrite (rotation_perm (next_alloc_hint s - 2) clusters) by lia. by rewrite (fmap_add_seqZ 2 0). }
  assert (filter (fun c => tbl s c = 0) visit ≡ₚ avail_list s) as Hav.
  { rewrite Hperm. unfold avail_list. apply (eq_rect _ (Permutation _) (reflexivity _)), filter_agree. intros c Hc'%elem_of_seqZ.
    unfold avail, is_cluster. rewrite Hbm. split; [intros Hz; split; [lia|done]|by intros []]. }
  match goal with |- match ?m s with _ => _ end =>
    change (wp s m (fun s' out => allocated s count out s') (alloc_failed s count)) end.
  eapply wp_seq; [apply (alloc_scan_wp (tbl s) _ count (seqZ 0 clusters) Hh) with (out := []) (s0 := s)|..].
  - apply Forall_forall. intros i Hi%elem_of_seqZ. lia.
  - simpl. fold visit. rewrite Hperm. apply NoDup_seqZ.
  - done.
  - eapply tabled_ext; [by apply tabled_refl|]. intros c _. unfold upd. by rewrite decide_False by set_solver.
  - cbv zeta. fold visit. simpl length. rewrite Z.sub_0_r. intros s1 out [Hout Ht]. simpl in Hout.
    assert (Forall (fun c => is_cluster c /\ tbl s c = 0) (filter (fun c => tbl s c = 0) visit)) as Hfree.
    { apply Forall_forall. intros c. rewrite Hav. unfold avail_list. rewrite list_elem_of_filter.
      unfold avail. rewrite Hbm. by intros [? _]. }
    assert (Forall (fun c => is_cluster c /\ tbl s c = 0) out) as Hof by (subst out; by apply Forall_take).
    destruct (Z.ltb_spec (Z.of_nat (length out)) count) as [Hlt|Hge].
    + apply wp_bind. eapply wp_mono; [apply undo_wp; [by eapply tabled_ok|]| |done].
      { eapply Forall_impl; [exact Hof|]. by intros ? []. }
      intros s2 u (g & Ht2 & Hg & Hgl). apply wp_err.
      apply (alloc_failed_intro s s2 g); [done|by eapply tabled_trans| |].
      * intros c Hic Hna. assert (c ∉ out) as Hno.
        { intros Hin. apply Hna. unfold avail. rewrite Hbm. rewrite Forall_forall in Hof. by apply Hof. }
        rewrite Hg, (tabled_tbl _ _ _ _ Ht) by done. unfold upd. by rewrite decide_False.
      * intros Hl. split_and!; [done| |].
        -- rewrite <- Hav. rewrite Hout, length_take in Hlt. lia.
        -- intros c Hic. rewrite Hgl by (done || by apply (tabled_live _ _ _ Ht)). unfold upd.
           rewrite Forall_forall in Hof. case_decide as Hin; [symmetry; by apply Hof|].
           rewrite (tabled_tbl _ _ _ _ Ht) by done. unfold upd. by rewrite decide_False.
    + apply wp_bind, wp_modify, wp_ret. apply (account_allocated s s1 None).
      * done.
      * done.
      * rewrite Hout, length_take in Hge |- *. lia.
      * rewrite Hout. eapply (NoDup_app _ (drop (Z.to_nat count) _)). rewrite take_drop, Hav.
        apply NoDup_filter, NoDup_seqZ.
      * eapply Forall_impl; [exact Hof|]. intros c [Hic Hz]. unfold avail. by rewrite Hbm.
      * by rewrite Hbm.
      * replace (set_alloc_bitmap s None) with s by (destruct s; simpl in *; by subst). done.
  - intros s1 e (g & Ht & Hnl & Hg). apply (alloc_failed_intro s s1 g); [done|done| |by intros Hl%Hnl].
    intros c Hic Hna. apply Hg; [done|]. intros Hz. apply Hna. unfold avail. by rewrite Hbm.
Qed.

Lemma release_reserved s m w : alloc_bitmap s = Some m ->
  Forall (fun i => 0 <= i /\ Z.testbit m i = false) w ->
  release (map (Z.add 2) w) (set_alloc_bitmap s (Some (set_bits m w))) = s.
Proof.
  intros Hm Hw. unfold release. simpl. rewrite map_map. replace (map _ w) with w.
  - rewrite clear_set_bits by done. destruct s; simpl in *. by subst.
  - clear Hw. induction w as [|x w IH]; simpl; [done|]. f_equal; [lia|done].
Qed.

(** [alloc_clusters] returns [count] available clusters, or fails as
    [alloc_failed] says; it does not panic. *)
Lemma alloc_clusters_wp s count : fs_wf s -> 0 <= count ->
  wp s (alloc_clusters count) (fun s' out => allocated s count out s') (alloc_failed s count).
Proof.
  intros Hwf Hc. unfold wp, alloc_clusters. pose proof Hwf as [Hk Hh Hf]. destruct (Z.eqb_spec count 0) as [->|Hc0].
  { constructor; try done.
    - apply NoDup_nil_2.
    - by destruct (alloc_bitmap s).
    - by rewrite Z.sub_0_r, Z.mod_small. }
  destruct (Z.eqb_spec clusters 0) as [Hn|Hn].
  { apply (alloc_failed_intro s s (tbl s)); [done|by apply tabled_refl|done|]. intros _.
    unfold avail_list. rewrite Hn. simpl. split_and!; [done|lia|done]. }
  assert (0 < clusters) as Hn0 by (pose proof (proj1 clusters_fit); lia). assert (0 < count) as Hc1 by lia.
  destruct (alloc_bitmap s) as [m|] eqn:Hm; [|by apply alloc_fallback_wp].
  pose proof (reserve_spec m (next_alloc_hint s) clusters count Hn0 Hc1) as Hr.
  destruct (reserve m (next_alloc_hint s) clusters count) as [m' [cands|e|]]; [| |done].
  - destruct Hr as (w & -> & -> & Hnd & Hlen & Hfree). cbn [cmd_bind].
    destruct (map (Z.add 2) w) as [|c0 rest] eqn:Ecands.
    { apply map_eq_nil in Ecands. subst w. simpl in Hlen. lia. }
    rewrite <- Ecands in *. clear c0 rest Ecands. set (cands := map (Z.add 2) w).
    set (s0 := set_alloc_bitmap s (Some (set_bits m w))).
    assert (Forall (avail s) cands) as Hav.
    { apply Forall_map. eapply Forall_impl; [exact Hfree|]. intros i [Hi Hb]. unfold avail, is_cluster.
      simpl. rewrite Hm. replace (2 + i - 2) with i by lia. split; [lia|done]. }
    assert (Forall is_cluster cands) as Hcl by (eapply Forall_impl; [exact Hav|]; by intros ? []).
    match goal with |- match ?k s0 with _ => _ end =>
      change (wp s0 k (fun s' out => allocated s count out s') (alloc_failed s count)) end.
    eapply wp_seq; [apply (write_eocs_wp (tbl s) cands cands [] s0 s0); [done|done|]|..].
    + eapply tabled_ext; [by apply tabled_refl|]. intros c _. unfold upd. by rewrite decide_False by set_solver.
    + intros s1 out [-> Ht]. rewrite app_nil_l in *. apply wp_bind, wp_modify, wp_ret.
      apply (account_allocated s s1 (Some (set_bits m w))); [done|lia| | |done| |done].
      * unfold cands. by rewrite length_map.
      * apply (NoDup_fmap_2_strong (Z.add 2)); [|done]. intros x y _ _ ?. lia.
      * rewrite Hm. simpl. do 2 f_equal. unfold cands. rewrite map_map. clear. induction w as [|x w IH]; simpl; [done|].
        f_equal; [lia|done].
    + simpl. intros s1 e (g & Ht & Hnl & Hg). unfold s0, cands in Ht.
      rewrite (release_reserved s m w) in Ht by (done || (eapply Forall_impl; [exact Hfree|]; simpl; lia)).
      apply (alloc_failed_intro s s1 g); [done|done| |by intros Hl%Hnl].
      intros c Hic Hna. apply Hg; [done|]. intros Hin. rewrite Forall_forall in Hav. by apply Hna, Hav.
  - destruct Hr as (-> & -> & Hlt). simpl.
    replace (set_alloc_bitmap s (Some m)) with s by (destruct s; simpl in *; by subst).
    apply (alloc_failed_intro s s (tbl s)); [done|by apply tabled_refl|done|]. intros _.
    rewrite (avail_list_bitmap s m) by done. done.
Qed.

Lemma alloc_cluster_wp s : fs_wf s ->
  wp s alloc_cluster (fun s' c => allocated s 1 [c] s') (alloc_failed s 1).
Proof.
  intros Hwf. eapply wp_seq; [by apply alloc_clusters_wp| |done]. intros s' out Ha.
  pose proof (al_length _ _ _ _ Ha) as Hl. destruct out as [|c [|d out]]; [done| |simpl in Hl; lia].
  by apply (wp_ok _ c).
Qed.

(** The allocator's view and the free count say what the table says. *)
Definition synced s : Prop := forall c, is_cluster c -> avail s c <-> tbl s c = FREE_CLUSTER.
Definition free_exact s : Prop :=
  free_clus_count s = Z.of_nat (length (filter (fun c => tbl s c = FREE_CLUSTER) (seqZ 2 clusters))).
End Allocation.
