(* ===== verification/FatChain.v ===== *)
(** * Chains of clusters

    What a chain is in a table, and the chain walks against it: they end on any
    table, find exactly the chains there are, and freeing, truncating and
    extending change the table as they say, up to where a device error stops
    them. *)

From S2P Require Import Prelude Bits Errors BlockDev Fat32 FatAlloc FatAllocFacts.
Import Errors.Vfs.
Local Open Scope Z_scope.

Section Chains.
Context `{Profile} {S : Type} `{FatLaws S}.
Implicit Types s : Fs S.

(** ** Chains *)

(** The clusters of the chain from [c] in table [f], up to the end marker. *)
Inductive chain (f : Z -> Z) : Z -> list Z -> Prop :=
| chain_end c : is_cluster c -> EOC_MARKER <= f c -> chain f c [c]
| chain_link c l : is_cluster c -> f c < EOC_MARKER -> chain f (f c) l -> chain f c (c :: l).

Lemma chain_det f c l : chain f c l -> forall l', chain f c l' -> l = l'.
Proof.
  induction 1 as [c Hc He|c l Hc He _ IH]; intros l' Hl; inversion Hl; subst; try lia; [done|].
  f_equal. auto.
Qed.

Lemma chain_cons f c l : chain f c l -> exists r, l = c :: r.
Proof. inversion 1; eauto. Qed.

Lemma chain_clusters f c l : chain f c l -> Forall is_cluster l.
Proof. induction 1; by constructor. Qed.

Lemma chain_suffix f c l : chain f c l -> forall x, x ∈ l -> exists r, chain f x r /\ (length r <= length l)%nat.
Proof.
  induction 1 as [c Hc He|c l Hc He Hl IH]; intros x Hx.
  - apply list_elem_of_singleton in Hx as ->. exists [c]. split; [by constructor|done].
  - apply elem_of_cons in Hx as [->|Hx].
    + exists (c :: l). split; [by constructor|done].
    + destruct (IH x Hx) as (r & Hr & Hlen). exists r. split; [done|simpl; lia].
Qed.

(** A chain that ends visits no cluster twice, so it is no longer than the
    volume. *)
Lemma chain_NoDup f c l : chain f c l -> NoDup l.
Proof.
  induction 1 as [c Hc He|c l Hc He Hl IH]; [apply NoDup_singleton|]. apply NoDup_cons. split; [|done].
  intros Hin. destruct (chain_suffix _ _ _ Hl c Hin) as (r & Hr & Hlen).
  assert (r = c :: l) as -> by (eapply chain_det; [done|by constructor]). simpl in Hlen. lia.
Qed.

Lemma chain_length f c l : chain f c l -> Z.of_nat (length l) <= clusters.
Proof.
  intros Hl. destruct clusters_fit as [Hn _]. assert (length l <= length (seqZ 2 clusters))%nat as Hle.
  { apply submseteq_length, NoDup_submseteq; [by eapply chain_NoDup|]. intros x Hx.
    pose proof (chain_clusters _ _ _ Hl) as Hc. rewrite Forall_forall in Hc.
    apply Hc in Hx. unfold is_cluster in Hx. apply elem_of_seqZ. lia. }
  rewrite length_seqZ in Hle. lia.
Qed.

Lemma chain_agree f g c l : chain f c l -> (forall x, x ∈ l -> g x = f x) -> chain g c l.
Proof.
  induction 1 as [c Hc He|c l Hc He Hl IH]; intros Hg.
  - constructor; [done|]. by rewrite Hg by set_solver.
  - rewrite <- (Hg c) in He, IH by set_solver. constructor; [done|done|]. apply IH. set_solver.
Qed.

Lemma chain_nonzero f c l x : chain f c l -> x ∈ l -> f x <> 0.
Proof.
  induction 1 as [c Hc He|c l Hc He Hl IH]; intros Hx.
  - apply list_elem_of_singleton in Hx as ->. unfold EOC_MARKER in He. lia.
  - apply elem_of_cons in Hx as [->|Hx]; [|auto]. destruct (chain_cons _ _ _ Hl) as [r ->].
    pose proof (chain_clusters _ _ _ Hl) as Hcl. apply Forall_cons in Hcl as [Hc2 _].
    unfold is_cluster in Hc2. lia.
Qed.

(** ** Walks *)

(** A read through the table, on any cluster number. *)
Lemma read_any_wp s c (Q : Fs S -> Z -> Prop) (E : Fs S -> VfsError -> Prop) : fat_ok (fat s) ->
  (forall s', is_cluster c -> tabled s s' (tbl s) -> Q s' (tbl s c)) ->
  (forall s' e, tabled s s' (tbl s) -> ~ live s \/ ~ is_cluster c -> E s' e) ->
  wp s (lift (fat_read c)) Q E.
Proof.
  intros Hk HQ HE. destruct (decide (is_cluster c)) as [Hc|Hc].
  - eapply wp_mono; [by apply read_wp| |]; simpl.
    + intros s' v [-> Ht]. auto.
    + intros s' e [Ht Hl]. auto.
  - apply wp_lift. unfold wp. destruct (fat_out_of_range (fat s) c 0 Hc) as [-> _].
    rewrite set_fat_id. apply HE; [by apply tabled_refl|auto].
Qed.

Lemma chain_head f c l : chain f c l -> is_cluster c.
Proof. by inversion 1. Qed.

(** A step that keeps the table keeps its chains. *)
Lemma tabled_chain s s1 x l : tabled s s1 (tbl s) -> chain (tbl s1) x l <-> chain (tbl s) x l.
Proof.
  intros Ht. split; intros Hl; (eapply chain_agree; [exact Hl|]); intros y Hy; [symmetry|];
    (apply (tabled_tbl _ _ _ _ Ht)); pose proof (chain_clusters _ _ _ Hl) as Hcl;
    rewrite Forall_forall in Hcl; by apply Hcl.
Qed.

Lemma tabled_step s s1 s2 : tabled s s1 (tbl s) -> tabled s1 s2 (tbl s1) -> tabled s s2 (tbl s).
Proof.
  intros Ht1 Ht2. eapply tabled_ext; [by eapply tabled_trans|]. intros x Hx.
  by apply (tabled_tbl _ _ _ _ Ht1).
Qed.

(** The walks read one cluster after the other up to the end marker; [n] are
    counted before [c], and the walk gives up beyond the size of the volume. *)
Fixpoint walk {A} (k : Z -> Z -> A) (fuel : nat) (c n : Z) : cmd (Fs S) A :=
  match fuel with
  | O => cmd_res Panic
  | Datatypes.S fuel =>
      do! next := lift (fat_read c) in
      if EOC_MARKER <=? next then cmd_ret (k c n)
      else if clusters + 2 <? n + 1 then cmd_res (Err IOError)
      else walk k fuel next (n + 1)
  end.

Lemma len_loop_walk fuel : forall c n s, len_loop fuel c n s = walk (fun _ n => n) fuel c n s.
Proof.
  induction fuel as [|fuel IH]; intros c n s; simpl; [done|]. unfold cmd_bind.
  destruct (lift (fat_read c) s) as [s1 [next|e|]]; [|done|done].
  destruct (EOC_MARKER <=? next), (clusters + 2 <? n + 1); done || apply IH.
Qed.

Lemma tail_loop_walk fuel : forall c n s, tail_loop fuel c n s = walk (fun c _ => c) fuel c n s.
Proof.
  induction fuel as [|fuel IH]; intros c n s; simpl; [done|]. unfold cmd_bind.
  destruct (lift (fat_read c) s) as [s1 [next|e|]]; [|done|done].
  destruct (EOC_MARKER <=? next), (clusters + 2 <? n + 1); done || apply IH.
Qed.

(** A walk ends at the last cluster of the chain with its length counted; it
    fails only on a device error or where there is no chain. *)
Lemma walk_wp {A} (k : Z -> Z -> A) fuel : forall s c n, fat_ok (fat s) -> 0 <= n <= clusters + 2 ->
  clusters + 2 - n < Z.of_nat fuel ->
  (forall l, chain (tbl s) c l -> n - 1 + Z.of_nat (length l) <= clusters) ->
  wp s (walk k fuel c n)
    (fun s' r => tabled s s' (tbl s) /\ exists l x, chain (tbl s) c (l ++ [x])
                 /\ r = k x (n + Z.of_nat (length l)))
    (fun s' _ => tabled s s' (tbl s) /\ (~ live s \/ forall l, ~ chain (tbl s) c l)).
Proof.
  induction fuel as [|fuel IH]; intros s c n Hk Hn Hf Hbound; [lia|]. cbn [walk].
  apply wp_bind, read_any_wp; [done| |].
  2: { intros s' e Ht [Hl|Hc]; (split; [done|]); [by left|right]. by intros l ?%chain_head. }
  intros s1 Hc Ht1. destruct (Z.leb_spec EOC_MARKER (tbl s c)) as [He|He].
  { apply wp_ret. split; [done|]. exists [], c. split; [by constructor|]. simpl. f_equal. lia. }
  assert (forall l, chain (tbl s) (tbl s c) l -> n + Z.of_nat (length l) <= clusters) as Hb'.
  { intros l Hl. specialize (Hbound (c :: l) ltac:(by constructor)). simpl in Hbound. lia. }
  destruct (Z.ltb_spec (clusters + 2) (n + 1)) as [Hg|Hg].
  { apply wp_err. split; [done|]. right. intros l Hl. inversion Hl as [|? l' _ _ Hl']; subst; [lia|].
    specialize (Hb' _ Hl'). lia. }
  eapply wp_mono; [apply (IH s1)|..].
  - by eapply tabled_ok.
  - lia.
  - lia.
  - intros l Hl. apply (tabled_chain s s1) in Hl; [|done]. apply Hb' in Hl. lia.
  - simpl. intros s2 r (Ht2 & l & x & Hl & ->). apply (tabled_chain s s1) in Hl; [|done].
    split; [by eapply tabled_step|].
    exists (c :: l), x. split; [by constructor|]. simpl. f_equal. lia.
  - simpl. intros s2 e [Ht2 Hor]. split; [by eapply tabled_step|].
    destruct Hor as [Hnl|Hno]; [left; intros Hl; by apply Hnl, (tabled_live _ _ _ Ht1)|right].
    intros l Hl. inversion Hl as [|? l' _ _ Hl']; subst; [lia|].
    by apply (Hno l'), (tabled_chain s s1).
Qed.

(** [chain_len] is the length of the chain; on a live device it fails exactly
    where there is none, cyclic tables included. *)
Lemma chain_len_wp s start : fat_ok (fat s) -> 2 <= start < EOC_MARKER ->
  wp s (chain_len start)
    (fun s' n => tabled s s' (tbl s) /\ exists l, chain (tbl s) start l /\ n = Z.of_nat (length l))
    (fun s' _ => tabled s s' (tbl s) /\ (~ live s \/ forall l, ~ chain (tbl s) start l)).
Proof.
  intros Hk Hs. unfold chain_len. rewrite (proj2 (orb_false_iff _ _)) by lia. eapply wp_ext; [apply len_loop_walk|].
  pose proof (proj1 clusters_fit) as Hn. eapply wp_mono; [apply walk_wp|..].
  - done.
  - lia.
  - unfold walk_fuel. lia.
  - intros l Hl%chain_length. lia.
  - simpl. intros s' r (Ht & l & x & Hl & ->). split; [done|]. exists (l ++ [x]). split; [done|].
    rewrite length_app. simpl. lia.
  - done.
Qed.

Lemma tail_wp s start : fat_ok (fat s) ->
  wp s (tail_loop walk_fuel start 0)
    (fun s' x => tabled s s' (tbl s) /\ exists l, chain (tbl s) start (l ++ [x]))
    (fun s' _ => tabled s s' (tbl s) /\ (~ live s \/ forall l, ~ chain (tbl s) start l)).
Proof.
  intros Hk. eapply wp_ext; [apply tail_loop_walk|]. pose proof (proj1 clusters_fit) as Hn.
  eapply wp_mono; [apply walk_wp|..].
  - done.
  - lia.
  - unfold walk_fuel. lia.
  - intros l Hl%chain_length. lia.
  - simpl. intros s' r (Ht & l & x & Hl & ->). eauto.
  - done.
Qed.

(** ** Freeing *)

(** The clusters of [p] are free again. *)
Record freed s (p : list Z) s' : Prop := {
  fr_wf : fs_wf s';
  fr_table c : is_cluster c -> tbl s' c = upd (tbl s) p FREE_CLUSTER c;
  fr_bitmap : alloc_bitmap s' = (fun m => clear_bits m (map (fun c => c - 2) p)) <$> alloc_bitmap s;
  fr_free : free_clus_count s' = (free_clus_count s + Z.of_nat (length p)) mod 2 ^ 32;
  fr_hint : next_alloc_hint s' = next_alloc_hint s;
  fr_cache : chain_cache s' = chain_cache s;
  fr_dirty : volume_dirty s' = volume_dirty s;
  fr_live : live s -> live s'
}.

Lemma freed_tabled s s1 : fs_wf s -> tabled s s1 (tbl s) -> freed s [] s1.
Proof.
  intros [Hk Hh Hf] [-> (Hk1 & Hg & Hl)]. constructor; simpl; try done.
  - by destruct (alloc_bitmap s).
  - by rewrite Z.add_0_r, Z.mod_small.
Qed.

Lemma freed_nil s : fs_wf s -> freed s [] s.
Proof. intros Hwf. apply freed_tabled; [done|]. apply tabled_refl, Hwf. Qed.

Lemma freed_app s s1 s2 p q : freed s p s1 -> freed s1 q s2 -> freed s (p ++ q) s2.
Proof.
  intros F1 F2. constructor.
  - apply F2.
  - intros c Hc. rewrite (fr_table _ _ _ F2), <- upd_app by done. by apply upd_congr, (fr_table _ _ _ F1).
  - rewrite (fr_bitmap _ _ _ F2), (fr_bitmap _ _ _ F1). destruct (alloc_bitmap s); simpl; [|done].
    unfold clear_bits. by rewrite map_app, foldl_app.
  - rewrite (fr_free _ _ _ F2), (fr_free _ _ _ F1), length_app, Zplus_mod_idemp_l. f_equal. lia.
  - rewrite (fr_hint _ _ _ F2). apply F1.
  - rewrite (fr_cache _ _ _ F2). apply F1.
  - rewrite (fr_dirty _ _ _ F2). apply F1.
  - intros Hl. apply F2, F1, Hl.
Qed.

Lemma free_step_wp {A} s c (k : Z -> cmd (Fs S) A) Q E : fs_wf s -> is_cluster c ->
  (forall s', freed s [c] s' -> wp s' (k (tbl s c)) Q E) ->
  (forall s' e, tabled s s' (tbl s) -> ~ live s -> E s' e) ->
  wp s (do! next := lift (fat_read c) in
        do! _ := lift (fat_write c FREE_CLUSTER) in
        do! _ := modify (bitmap_mark_free c) in
        do! _ := modify (fun s => set_free_count s ((free_clus_count s + 1) mod 2 ^ 32)) in
        k next) Q E.
Proof.
  intros [Hk Hh Hf] Hc HQ HE.
  eapply wp_seq; [by apply read_wp| |intros s' e [Ht Hl]; by apply HE]. intros s1 v [-> Ht1].
  eapply wp_seq; [apply write_wp; [by eapply tabled_ok|done|unfold FREE_CLUSTER; lia]| |].
  2: { simpl. intros s' e [Ht Hl]. apply HE; [by eapply tabled_step|]. intros Hl'.
       by apply Hl, (tabled_live _ _ _ Ht1). }
  simpl. intros s2 u Ht2. apply wp_bind, wp_modify, wp_bind, wp_modify, HQ.
  assert (tabled s s2 (upd (tbl s) [c] FREE_CLUSTER)) as [E2 (Hk2 & Hg2 & Hl2)].
  { eapply tabled_ext; [by eapply tabled_trans|]. intros x Hx. apply upd_congr. by apply (tabled_tbl _ _ _ _ Ht1). }
  assert (bit_index c clusters = Some (c - 2)) as Hbi.
  { unfold bit_index. unfold is_cluster in Hc. by rewrite (proj2 (Z.ltb_ge _ _)), (proj2 (Z.ltb_lt _ _)) by lia. }
  unfold bitmap_mark_free. rewrite Hbi, E2. simpl.
  destruct (alloc_bitmap s) as [m|] eqn:Em; (constructor; simpl; try done;
    [constructor; simpl; [done|done|apply Z.mod_pos_bound; lia]|by rewrite Em]).
Qed.

(** Freeing ends on any table, whatever the cluster it starts from. *)
Lemma free_walk_any fuel : forall s c iters, fs_wf s -> 0 <= iters <= clusters + 2 ->
  clusters + 2 - iters < Z.of_nat fuel ->
  wp s (free_walk fuel c iters) (fun s' _ => exists p, freed s p s') (fun s' _ => exists p, freed s p s').
Proof.
  induction fuel as [|fuel IH]; intros s c iters Hwf Hi Hf; [lia|]. cbn [free_walk].
  destruct ((2 <=? c) && (c <? EOC_MARKER)); [|apply wp_ret; exists []; by apply freed_nil].
  destruct (decide (is_cluster c)) as [Hc|Hc]; cycle 1.
  { apply wp_bind, wp_lift. unfold wp. destruct (fat_out_of_range (fat s) c 0 Hc) as [-> _].
    rewrite set_fat_id. exists []. by apply freed_nil. }
  apply free_step_wp; [done|done| |].
  - intros s1 F1. destruct (Z.ltb_spec (clusters + 2) (iters + 1)); [apply wp_err; by exists [c]|].
    eapply wp_mono; [apply IH; [apply F1|lia|lia]|..]; simpl.
    + intros s2 _ [p F2]. exists ([c] ++ p). by eapply freed_app.
    + intros s2 _ [p F2]. exists ([c] ++ p). by eapply freed_app.
  - intros s1 e Ht _. exists []. by apply freed_tabled.
Qed.

(** Freeing a chain frees its clusters in order; an error stops it after some. *)
Lemma free_walk_chain l : forall fuel s c iters, fs_wf s -> chain (tbl s) c l -> 0 <= iters ->
  iters + Z.of_nat (length l) <= clusters + 2 -> (length l < fuel)%nat ->
  wp s (free_walk fuel c iters) (fun s' _ => freed s l s')
    (fun s' _ => ~ live s /\ exists p r, l = p ++ r /\ freed s p s').
Proof.
  induction l as [|x l IH]; intros fuel s c iters Hwf Hl Hi Hb Hf; [inversion Hl|].
  destruct fuel as [|fuel]; [lia|]. cbn [free_walk]. pose proof (chain_head _ _ _ Hl) as Hc.
  pose proof (proj2 clusters_fit) as Hfit.
  rewrite (proj2 (andb_true_iff _ _)) by (unfold is_cluster in Hc; lia).
  pose proof (chain_NoDup _ _ _ Hl) as Hnd. apply NoDup_cons in Hnd as [Hnx Hnd].
  assert (x = c) as -> by (by inversion Hl). simpl in Hb, Hf.
  apply free_step_wp; [done|done| |].
  - intros s1 F1. rewrite (proj2 (Z.ltb_ge _ _)) by lia.
    inversion Hl as [? _ He|? ? _ He Hl']; subst.
    + destruct fuel; simpl; (rewrite (proj2 (andb_false_iff _ _)) by lia; by apply wp_ret).
    + eapply wp_mono; [apply (IH fuel s1 (tbl s c) (iters + 1))|..].
      * apply F1.
      * eapply chain_agree; [exact Hl'|]. intros y Hy. pose proof (chain_clusters _ _ _ Hl') as Hcl.
        rewrite Forall_forall in Hcl. rewrite (fr_table _ _ _ F1) by auto.
        unfold upd. rewrite decide_False by set_solver. done.
      * lia.
      * lia.
      * lia.
      * simpl. intros s2 _ F2. by apply (freed_app _ s1 _ [c]).
      * simpl. intros s2 _ (Hnl & p & r & -> & F2). split; [intros Hlv; by apply Hnl, F1|].
        exists (c :: p), r. split; [done|]. by apply (freed_app _ s1 _ [c]).
  - intros s1 e Ht Hnl. split; [done|]. exists [], (c :: l). split; [done|]. by apply freed_tabled.
Qed.

Lemma free_chain_wp s c l : fs_wf s -> chain (tbl s) c l ->
  wp s (free_chain c) (fun s' _ => freed s l s')
    (fun s' _ => ~ live s /\ exists p r, l = p ++ r /\ freed s p s').
Proof.
  intros Hwf Hl. pose proof (chain_length _ _ _ Hl) as Hlen. apply free_walk_chain; [done|done|lia|lia|].
  unfold walk_fuel. lia.
Qed.

(** ** What the allocator may hand out *)

Lemma tabled_avail s s' g c : tabled s s' g ->
  avail s' c <-> is_cluster c /\ match alloc_bitmap s with
                                 | Some m => Z.testbit m (c - 2) = false
                                 | None => g c = FREE_CLUSTER
                                 end.
Proof.
  intros Ht. pose proof (tabled_tbl _ _ _ c Ht) as Hg. destruct Ht as [E _]. unfold avail.
  rewrite E. simpl. destruct (alloc_bitmap s); [done|]. rewrite <- E. split; intros [Hc Hz]; (split; [done|]).
  - by rewrite <- Hg.
  - by rewrite Hg.
Qed.

Lemma sub2_elem (x : Z) l : x - 2 ∈ map (fun c => c - 2) l <-> x ∈ l.
Proof.
  split.
  - intros (y & Hy & Hin)%list_elem_of_fmap. by replace x with y by lia.
  - intros Hin. by apply (list_elem_of_fmap_2 (fun c => c - 2)).
Qed.

Lemma sub2_pos l : Forall is_cluster l -> Forall (Z.le 0) (map (fun c => c - 2) l).
Proof. intros Hl. apply Forall_map. eapply Forall_impl; [done|]. unfold is_cluster. simpl. lia. Qed.

Lemma allocated_avail s n out s' c : allocated s n out s' -> avail s' c <-> avail s c /\ c ∉ out.
Proof.
  intros A. assert (Forall is_cluster out) as Ho by (eapply Forall_impl; [apply A|]; by intros ? []).
  unfold avail. rewrite (al_bitmap _ _ _ _ A).
  destruct (decide (is_cluster c)) as [Hc|]; [|tauto]. destruct (alloc_bitmap s) as [m|]; simpl.
  - rewrite testbit_set_bits by (done || (unfold is_cluster in Hc; lia) || by apply sub2_pos).
    rewrite orb_false_iff, bool_decide_eq_false, sub2_elem. tauto.
  - rewrite (al_table _ _ _ _ A) by done. unfold upd, EOC_MARKER, FREE_CLUSTER.
    case_decide; (split; [intros [_ ?]|intros [[_ ?] ?]]); try tauto; lia.
Qed.

Lemma freed_avail s p s' c : freed s p s' -> Forall is_cluster p ->
  avail s' c <-> is_cluster c /\ (c ∈ p \/ avail s c).
Proof.
  intros F Hp. unfold avail. rewrite (fr_bitmap _ _ _ F).
  destruct (decide (is_cluster c)) as [Hc|]; [|tauto]. destruct (alloc_bitmap s) as [m|]; simpl.
  - rewrite testbit_clear_bits by (done || (unfold is_cluster in Hc; lia) || by apply sub2_pos).
    rewrite andb_false_iff, negb_false_iff, bool_decide_eq_true, sub2_elem. tauto.
  - rewrite (fr_table _ _ _ F) by done. unfold upd. case_decide; tauto.
Qed.

(** The pool without [out]. *)
Lemma avail_list_minus s s' out : NoDup out -> (forall x, x ∈ out -> avail s x) ->
  (forall x, avail s' x <-> avail s x /\ x ∉ out) ->
  Z.of_nat (length (avail_list s')) = Z.of_nat (length (avail_list s)) - Z.of_nat (length out).
Proof.
  intros Hnd Hin Ha. unfold avail_list.
  assert (filter (avail s) (seqZ 2 clusters) ≡ₚ out ++ filter (avail s') (seqZ 2 clusters)) as ->.
  2: { rewrite length_app. lia. }
  apply NoDup_Permutation.
  - apply NoDup_filter, NoDup_seqZ.
  - apply NoDup_app. split_and!; [done| |apply NoDup_filter, NoDup_seqZ].
    intros x Hx [Hx' _]%list_elem_of_filter. by apply Ha in Hx' as [_ ?].
  - intros x. rewrite elem_of_app, !list_elem_of_filter, Ha.
    destruct (decide (x ∈ out)) as [Ho|]; [|tauto]. split; [tauto|]. intros _. split; [auto|].
    apply Hin in Ho as [Hc _]. unfold is_cluster in Hc. apply elem_of_seqZ. lia.
Qed.

Lemma allocated_count s n out s' : allocated s n out s' ->
  Z.of_nat (length (avail_list s')) = Z.of_nat (length (avail_list s)) - n.
Proof.
  intros A. rewrite <- (al_length _ _ _ _ A). pose proof (al_avail _ _ _ _ A) as Hav. rewrite Forall_forall in Hav.
  apply avail_list_minus; [apply A|done|]. intros x. apply (allocated_avail _ _ _ _ _ A).
Qed.

(** ** Operations on one file

    The file held the clusters [l] before and [l'] after.  No other cluster in
    use changes or becomes available, and the new clusters were available. *)
Record file_op s (l : list Z) s' (l' : list Z) : Prop := {
  fo_wf : fs_wf s';
  fo_frame c : is_cluster c -> c ∉ l -> ~ avail s c -> tbl s' c = tbl s c /\ ~ avail s' c;
  fo_from x : x ∈ l' -> is_cluster x /\ (x ∈ l \/ avail s x);
  fo_held x : x ∈ l' -> ~ avail s' x
}.

Definition held s (l : list Z) : Prop := forall x, x ∈ l -> is_cluster x /\ ~ avail s x.

Lemma file_op_trans s l s1 l1 s2 l2 : file_op s l s1 l1 -> file_op s1 l1 s2 l2 -> file_op s l s2 l2.
Proof.
  intros O1 O2. constructor.
  - apply O2.
  - intros c Hc Hl Ha. destruct (fo_frame _ _ _ _ O1 c Hc Hl Ha) as [E1 Ha1].
    rewrite <- E1. apply (fo_frame _ _ _ _ O2 c Hc); [|done]. intros Hin.
    apply (fo_from _ _ _ _ O1) in Hin. tauto.
  - intros x [Hc Hx]%(fo_from _ _ _ _ O2). split; [done|]. destruct Hx as [Hx|Hx].
    + by apply (fo_from _ _ _ _ O1).
    + destruct (decide (x ∈ l)) as [|Hn]; [by left|right].
      destruct (decide (avail s x)) as [|Ha]; [done|]. by destruct (fo_frame _ _ _ _ O1 x Hc Hn Ha).
  - apply O2.
Qed.

(** A new table that is unchanged outside [l] and keeps [l] in use. *)
Lemma tabled_file_op s s' g l : fs_wf s -> held s l -> tabled s s' g ->
  (forall c, is_cluster c -> c ∉ l -> g c = tbl s c) -> (forall c, c ∈ l -> g c <> FREE_CLUSTER) ->
  file_op s l s' l.
Proof.
  intros [Hk Hh Hf] Hheld Ht Hout Hin.
  assert (forall c, ~ avail s c -> is_cluster c -> ~ avail s' c) as Hna.
  { intros c Ha Hc Ha'. apply (tabled_avail _ _ _ _ Ht) in Ha' as [_ Ha']. apply Ha. unfold avail.
    split; [done|]. destruct (alloc_bitmap s); [done|]. destruct (decide (c ∈ l)) as [Hl|Hl]; [by apply Hin in Hl|].
    by rewrite <- Hout. }
  constructor.
  - destruct Ht as [-> (Hk' & _)]. by constructor.
  - intros c Hc Hl Ha. split; [|auto]. rewrite (tabled_tbl _ _ _ _ Ht) by done. auto.
  - intros x Hx. split; [by apply Hheld|by left].
  - intros x Hx. destruct (Hheld x Hx) as [Hc Ha]. auto.
Qed.

(** Freeing part of [l] keeps what is not freed. *)
Lemma freed_file_op s s' p l l' : held s l -> freed s p s' -> p ⊆ l -> l' ⊆ l ->
  (forall x, x ∈ l' -> x ∉ p) -> file_op s l s' l'.
Proof.
  intros Hheld F Hp Hl' Hd.
  assert (Forall is_cluster p) as Hcl by (apply Forall_forall; intros x Hx; by apply Hheld, Hp).
  constructor.
  - apply F.
  - intros c Hc Hl Ha. split.
    + rewrite (fr_table _ _ _ F) by done. unfold upd. by rewrite decide_False by set_solver.
    + rewrite (freed_avail _ _ _ _ F) by done. set_solver.
  - intros x Hx. split; [by apply Hheld, Hl'|left; by apply Hl'].
  - intros x Hx. rewrite (freed_avail _ _ _ _ F) by done. intros [_ [Hin|Ha]]; [by apply (Hd x)|].
    by apply (Hheld x (Hl' x Hx)).
Qed.

(** ** Truncating *)

Lemma chain_split f p : forall c x r, chain f c (p ++ x :: r) ->
  match r with
  | [] => EOC_MARKER <= f x
  | _ => f x < EOC_MARKER /\ chain f (f x) r
  end.
Proof.
  induction p as [|y p IH]; intros c x r Hl; simpl in Hl.
  - inversion Hl as [? _ He|? ? _ He Hl']; subst; [done|]. destruct r; [inversion Hl'|done].
  - inversion Hl as [? ? ? E|? ? _ _ Hl']; subst; [|by eapply IH]. by destruct p.
Qed.

Lemma chain_cut f g p : forall c x r, chain f c (p ++ x :: r) ->
  (forall y, y ∈ p -> g y = f y) -> EOC_MARKER <= g x -> chain g c (p ++ [x]).
Proof.
  induction p as [|y p IH]; intros c x r Hl Hg He; simpl in *.
  - assert (c = x) as -> by (by inversion Hl). apply chain_end; [by eapply chain_head|done].
  - inversion Hl as [? ? ? E|? ? Hc Hlt Hl']; subst; [by destruct p|].
    apply chain_link; [done|rewrite Hg by set_solver; done|]. rewrite Hg by set_solver.
    apply (IH _ x r); [done|set_solver|done].
Qed.

Lemma chain_held s c l : chain (tbl s) c l -> Forall is_cluster l.
Proof. apply chain_clusters. Qed.

Lemma keep_loop_wp n : forall s c l, fat_ok (fat s) -> chain (tbl s) c l ->
  wp s (keep_loop n c)
    (fun s' o => tabled s s' (tbl s) /\ match o with
                                       | Some x => exists p r, l = p ++ x :: r /\ length p = n
                                       | None => (length l <= n)%nat
                                       end)
    (fun s' _ => tabled s s' (tbl s) /\ ~ live s).
Proof.
  induction n as [|n IH]; intros s c l Hk Hl; cbn [keep_loop].
  { apply wp_ret. split; [by apply tabled_refl|]. destruct (chain_cons _ _ _ Hl) as [r ->]. by exists [], r. }
  eapply wp_seq; [apply read_wp; [done|by eapply chain_head]| |done]. intros s1 v [-> Ht1].
  inversion Hl as [? _ He|? l' _ He Hl']; subst.
  { rewrite (proj2 (Z.leb_le _ _)) by lia. apply wp_ret. split; [done|simpl; lia]. }
  rewrite (proj2 (Z.leb_gt _ _)) by lia. eapply wp_mono; [apply (IH s1 _ l'); [by eapply tabled_ok|]|..].
  - by apply (tabled_chain s s1).
  - intros s2 o [Ht2 Ho]. split; [by eapply tabled_step|]. destruct o as [x|]; [|simpl; lia].
    destruct Ho as (p & r & -> & Hlen). exists (c :: p), r. split; [done|simpl; lia].
  - intros s2 e [Ht2 Hnl]. split; [by eapply tabled_step|]. intros Hlv.
    by apply Hnl, (tabled_live _ _ _ Ht1).
Qed.

(** The file keeps its first [keep] clusters and the rest is free again; on an
    error the chain is the whole one or the truncated one. *)
Record truncated s c l (keep : nat) s' : Prop := {
  tr_op : file_op s l s' (take keep l);
  tr_chain : chain (tbl s') c (take keep l);
  tr_avail x : avail s' x <-> avail s x \/ x ∈ drop keep l;
  tr_table x : is_cluster x -> x ∉ take keep l -> tbl s' x = upd (tbl s) (drop keep l) FREE_CLUSTER x;
  tr_count : free_clus_count s' = (free_clus_count s + Z.of_nat (length (drop keep l))) mod 2 ^ 32;
  tr_live : live s -> live s'
}.

Lemma truncate_whole s c l s' keep : fs_wf s -> chain (tbl s) c l -> held s l -> (length l <= keep)%nat ->
  tabled s s' (tbl s) -> truncated s c l keep s'.
Proof.
  intros Hwf Hl Hh Hk Ht. constructor.
  - rewrite take_ge by done. apply (tabled_file_op _ _ (tbl s)); [done|done|done|done|].
    intros x Hx. by eapply chain_nonzero.
  - rewrite take_ge by done. by apply (tabled_chain s).
  - intros x. rewrite drop_ge by done. rewrite (tabled_avail _ _ _ _ Ht).
    unfold avail. split; [auto|]. intros [?|?]; [done|set_solver].
  - intros x Hx _. rewrite drop_ge by done. rewrite (tabled_tbl _ _ _ _ Ht) by done. done.
  - rewrite drop_ge, Z.add_0_r, Z.mod_small by (done || apply Hwf). by destruct Ht as [-> _].
  - apply (tabled_live _ _ _ Ht).
Qed.

(** The second half of a truncation: [x] ends the chain, the rest [r] goes. *)
Lemma truncate_rest_wp s s3 c p x r : fs_wf s -> chain (tbl s) c (p ++ x :: r) -> held s (p ++ x :: r) ->
  r <> [] -> tabled s s3 (upd (tbl s) [x] EOC_MARKER) ->
  wp s3 (free_chain (tbl s x)) (fun s' _ => truncated s c (p ++ x :: r) (length p + 1) s')
    (fun s' _ => ~ live s /\ file_op s (p ++ x :: r) s' (p ++ [x]) /\ chain (tbl s') c (p ++ [x])).
Proof.
  intros Hwf Hl Hh Hr Ht. pose proof (chain_clusters _ _ _ Hl) as Hcl. rewrite Forall_forall in Hcl.
  pose proof (chain_NoDup _ _ _ Hl) as Hnd. apply NoDup_app in Hnd as (_ & Hd1 & Hnd).
  apply NoDup_cons in Hnd as [Hxr _]. pose proof (chain_split _ _ _ _ _ Hl) as Hsp.
  assert (chain (tbl s) (tbl s x) r) as Hrest by (by destruct r; [|apply Hsp]). clear Hsp.
  assert (forall z, is_cluster z -> tbl s3 z = upd (tbl s) [x] EOC_MARKER z) as Hg3
    by (intros z Hz; by apply (tabled_tbl _ _ _ _ Ht)).
  assert (file_op s (p ++ x :: r) s3 (p ++ x :: r)) as Hop3.
  { apply (tabled_file_op _ _ (upd (tbl s) [x] EOC_MARKER)); [done|done|done| |].
    - intros z _ Hz. unfold upd. rewrite decide_False by set_solver. done.
    - intros z Hz. unfold upd. case_decide; [unfold EOC_MARKER, FREE_CLUSTER; lia|]. apply (chain_nonzero _ _ _ _ Hl Hz). }
  assert (chain (tbl s3) (tbl s x) r) as Hch3.
  { eapply chain_agree; [exact Hrest|]. intros z Hz. rewrite Hg3 by (apply Hcl; set_solver).
    unfold upd. rewrite decide_False by set_solver. done. }
  assert (forall s' q, freed s3 q s' -> q ⊆ r ->
    file_op s (p ++ x :: r) s' (p ++ [x]) /\ chain (tbl s') c (p ++ [x])) as Hcut.
  { intros s' q F Hq. split.
    - eapply file_op_trans; [exact Hop3|]. eapply freed_file_op; [|exact F|set_solver|set_solver|set_solver].
      intros z Hz. split; [by apply Hh|]. by apply (fo_held _ _ _ _ Hop3).
    - apply (chain_cut (tbl s) _ p c x r); [done| |].
      + intros z Hz. rewrite (fr_table _ _ _ F) by (apply Hcl; set_solver). unfold upd at 1.
        rewrite decide_False by set_solver. rewrite Hg3 by (apply Hcl; set_solver).
        unfold upd. rewrite decide_False by set_solver. done.
      + rewrite (fr_table _ _ _ F) by (apply Hcl; set_solver). unfold upd at 1.
        rewrite decide_False by set_solver. rewrite Hg3 by (apply Hcl; set_solver).
        unfold upd. by rewrite decide_True by set_solver. }
  eapply wp_mono; [apply free_chain_wp; [apply Hop3|exact Hch3]| |].
  - cbv beta. intros s4 u F. destruct (Hcut s4 r F) as [Hop Hch]; [done|].
    constructor; rewrite ?take_app_add, ?drop_app_add; simpl; rewrite ?drop_0; try done.
    + intros z. rewrite (freed_avail _ _ _ _ F) by (by eapply chain_clusters).
      assert (avail s3 z <-> avail s z) as ->.
      { rewrite (tabled_avail _ _ _ _ Ht). unfold avail. destruct (alloc_bitmap s); [done|].
        unfold upd. case_decide as Hzx; [|done]. apply list_elem_of_singleton in Hzx as ->.
        pose proof (chain_nonzero _ _ _ x Hl ltac:(set_solver)). unfold EOC_MARKER, FREE_CLUSTER. split; intros []; lia. }
      split; [tauto|]. intros [Ha|Hz]; (split; [|tauto]); [apply Ha|apply Hcl; set_solver].
    + intros z Hzc Hz. rewrite (fr_table _ _ _ F) by done. apply upd_congr.
      rewrite Hg3 by done. unfold upd. rewrite decide_False by set_solver. done.
    + rewrite (fr_free _ _ _ F). by destruct Ht as [-> _].
    + intros Hlv. apply F, (tabled_live _ _ _ Ht), Hlv.
  - intros s4 e (Hnl & q & r2 & Eq & F). split; [intros Hlv; by apply Hnl, (tabled_live _ _ _ Ht)|].
    apply (Hcut s4 q F). rewrite Eq. set_solver.
Qed.

Lemma truncate_chain_wp s c l keep : fs_wf s -> chain (tbl s) c l -> held s l -> 1 <= keep ->
  wp s (truncate_chain c keep) (fun s' _ => truncated s c l (Z.to_nat keep) s')
    (fun s' _ => ~ live s /\ exists l', (l' = l \/ l' = take (Z.to_nat keep) l)
       /\ file_op s l s' l' /\ chain (tbl s') c l').
Proof.
  intros Hwf Hl Hh Hkeep. unfold truncate_chain. pose proof (chain_head _ _ _ Hl) as Hc.
  rewrite (proj2 (orb_false_iff _ _)) by (unfold is_cluster in Hc; lia).
  assert (forall s', tabled s s' (tbl s) -> ~ live s -> ~ live s
    /\ exists l', (l' = l \/ l' = take (Z.to_nat keep) l) /\ file_op s l s' l' /\ chain (tbl s') c l') as Hsame.
  { intros s' Ht Hnl. split; [done|]. exists l. split_and!; [by left| |by apply (tabled_chain s)].
    apply (tabled_file_op _ _ (tbl s)); [done|done|done|done|]. intros x Hx. by eapply chain_nonzero. }
  eapply wp_seq; [by apply keep_loop_wp; [apply Hwf|]| |intros s' e []; by apply Hsame].
  intros s1 o [Ht1 Ho]. destruct o as [x|]; [|apply wp_ret, truncate_whole; (done || lia)].
  destruct Ho as (p & r & -> & Hlen). pose proof (chain_split _ _ _ _ _ Hl) as Hsp.
  assert (is_cluster x) as Hcx.
  { pose proof (chain_clusters _ _ _ Hl) as Hcl. rewrite Forall_forall in Hcl. apply Hcl. set_solver. }
  assert (Z.to_nat keep = (length p + 1)%nat) as Hkp by lia.
  eapply wp_seq; [apply read_wp; [by eapply tabled_ok|done]| |].
  2: { intros s' e [Ht2 Hnl]. apply Hsame; [by eapply tabled_step|]. intros Hlv.
       by apply Hnl, (tabled_live _ _ _ Ht1). }
  intros s2 v [-> Ht2]. assert (tabled s s2 (tbl s)) as Ht02 by (by eapply tabled_step).
  rewrite (tabled_tbl _ _ _ _ Ht1) by done. destruct (decide (r = [])) as [->|Hr].
  { rewrite (proj2 (Z.ltb_ge _ _)) by lia. apply wp_ret, truncate_whole; try done.
    rewrite length_app. simpl. lia. }
  assert (tbl s x < EOC_MARKER) as Hlt by (destruct r; [done|apply Hsp]).
  rewrite (proj2 (Z.ltb_lt _ _)) by lia.
  eapply wp_seq; [apply write_wp; [by eapply tabled_ok|done|apply eoc_range]| |].
  2: { intros s' e [Ht3 Hnl]. apply Hsame; [by eapply tabled_step|]. intros Hlv.
       by apply Hnl, (tabled_live _ _ _ Ht02). }
  cbv beta. intros s3 u Ht3. rewrite Hkp. eapply wp_mono; [apply truncate_rest_wp; [done|exact Hl|done|done|]|..].
  - eapply tabled_ext; [by eapply tabled_trans|]. intros z Hz. apply upd_congr. by apply (tabled_tbl _ _ _ _ Ht02).
  - done.
  - intros s4 e (Hnl & Hop & Hch). split; [done|]. exists (p ++ [x]). split_and!; [|done|done].
    right. by rewrite take_app_add.
Qed.

(** ** Extending *)

Lemma chain_snoc f g l : forall c t n, chain f c (l ++ [t]) -> (forall y, y ∈ l -> g y = f y) ->
  is_cluster n -> g t = n -> EOC_MARKER <= g n -> chain g c (l ++ [t] ++ [n]).
Proof.
  pose proof (proj2 clusters_fit) as Hfit.
  induction l as [|y l IH]; intros c t n Hl Hg Hn Ht He; simpl in *.
  - assert (c = t) as -> by (by inversion Hl). apply chain_link; [by eapply chain_head| |].
    + unfold is_cluster in Hn. lia.
    + rewrite Ht. by apply chain_end.
  - inversion Hl as [? ? ? E|? ? Hc Hlt Hl']; subst; [by destruct l|].
    apply chain_link; [done|rewrite Hg by set_solver; done|]. rewrite Hg by set_solver.
    apply IH; [done|set_solver|done|done|done].
Qed.

Lemma allocated_file_op s n out s' l : held s l -> allocated s n out s' -> file_op s l s' (l ++ out).
Proof.
  intros Hh A. pose proof (al_avail _ _ _ _ A) as Hav. rewrite Forall_forall in Hav. constructor.
  - apply A.
  - intros c Hc Hl Ha. rewrite (allocated_avail _ _ _ _ _ A). split; [|tauto].
    rewrite (al_table _ _ _ _ A) by done. unfold upd. rewrite decide_False; [done|]. intros Hin. auto.
  - intros x [Hx|Hx]%elem_of_app; [split; [by apply Hh|by left]|].
    split; [by apply (Hav x)|right; by apply Hav].
  - intros x Hx. rewrite (allocated_avail _ _ _ _ _ A). apply elem_of_app in Hx as [Hx|Hx]; [|tauto].
    intros [Ha _]. by apply (Hh x).
Qed.

Lemma alloc_failed_file_op s n s' e l : held s l -> alloc_failed s n s' e ->
  file_op s l s' l /\ forall x, x ∈ l -> tbl s' x = tbl s x.
Proof.
  intros Hh F. assert (forall c, is_cluster c -> ~ avail s c -> tbl s' c = tbl s c /\ ~ avail s' c) as Hk.
  { intros c Hc Ha. pose proof (af_table _ _ _ _ F c Hc Ha) as E. split; [done|]. intros [_ Ha']. apply Ha.
    unfold avail. rewrite (af_rest _ _ _ _ F) in Ha'. simpl in Ha'. rewrite <- (af_rest _ _ _ _ F) in Ha'.
    split; [done|]. destruct (alloc_bitmap s); [done|]. by rewrite <- E. }
  split.
  - constructor; [apply F|auto| |].
    + intros x Hx. split; [by apply Hh|by left].
    + intros x Hx. by apply Hk; apply Hh.
  - intros x Hx. by apply Hk; apply Hh.
Qed.

Record extended s (c : Z) (l new : list Z) s' : Prop := {
  ex_op : file_op s l s' (l ++ new);
  ex_chain : chain (tbl s') c (l ++ new);
  ex_live : live s -> live s';
  ex_avail x : live s -> avail s' x <-> avail s x /\ x ∉ new;
  ex_table x : live s -> is_cluster x -> x ∉ l ++ new -> tbl s' x = tbl s x;
  ex_free : live s -> free_clus_count s' = (free_clus_count s - Z.of_nat (length new)) mod 2 ^ 32
}.

Lemma extended_trans s c l new1 s1 new2 s2 :
  extended s c l new1 s1 -> extended s1 c (l ++ new1) new2 s2 -> extended s c l (new1 ++ new2) s2.
Proof.
  intros [O1 C1 L1 A1 T1 F1] [O2 C2 L2 A2 T2 F2]. rewrite <- app_assoc in *. constructor.
  - by eapply file_op_trans.
  - done.
  - auto.
  - intros x Hl. rewrite A2, A1 by auto. set_solver.
  - intros x Hl Hx Hn. rewrite T2, T1; set_solver.
  - intros Hl. rewrite F2, F1 by auto. rewrite Zminus_mod_idemp_l, length_app. f_equal. lia.
Qed.

(** Nothing is appended; on a live device, nothing happened. *)
Lemma extended_same s c l s' : fs_wf s -> chain (tbl s) c l -> file_op s l s' l ->
  (forall x, x ∈ l -> tbl s' x = tbl s x) ->
  (live s -> live s' /\ s' = set_fat s (fat s') /\ forall x, is_cluster x -> tbl s' x = tbl s x) ->
  extended s c l [] s'.
Proof.
  intros Hwf Hl Hop Heq Hlv. constructor; rewrite ?app_nil_r.
  - done.
  - by eapply chain_agree.
  - intros H0'. by apply Hlv.
  - intros x H0'. destruct (Hlv H0') as (_ & E & Ht). unfold avail. rewrite E. simpl. rewrite <- E.
    destruct (decide (is_cluster x)); [|tauto]. rewrite Ht by done. set_solver.
  - intros x H0' Hx _. by apply Hlv.
  - intros H0'. destruct (Hlv H0') as (_ & -> & _). simpl. rewrite Z.sub_0_r, Z.mod_small; [done|apply Hwf].
Qed.

Lemma tabled_extended s c l s' : fs_wf s -> held s l -> chain (tbl s) c l -> tabled s s' (tbl s) ->
  extended s c l [] s'.
Proof.
  intros Hwf Hh Hl Ht. apply extended_same; [done|done| | |].
  - apply (tabled_file_op _ _ (tbl s)); [done|done|done|done|]. intros x Hx. apply (chain_nonzero _ _ _ _ Hl Hx).
  - intros x Hx. apply (tabled_tbl _ _ _ _ Ht). by apply Hh.
  - intros Hlv. split_and!; [by apply (tabled_live _ _ _ Ht)|apply Ht|]. intros x Hx. by apply (tabled_tbl _ _ _ _ Ht).
Qed.

Lemma avail_list_agree s s' : (forall c, is_cluster c -> avail s' c <-> avail s c) ->
  avail_list s' = avail_list s.
Proof.
  intros Ha. apply filter_agree. intros x Hx%elem_of_seqZ. apply Ha. unfold is_cluster. lia.
Qed.

Context `{!FatZero S}.

Lemma zero_wp s c : fat_ok (fat s) -> is_cluster c ->
  wp s (lift (zero_cluster c)) (fun s' _ => tabled s s' (tbl s)) (fun s' _ => tabled s s' (tbl s) /\ ~ live s).
Proof.
  intros Hk Hc. apply wp_lift. eapply wp_mono; [by apply zero_cluster_wp| |]; simpl.
  - intros x _ Hb. by apply lift_tabled.
  - intros x e [Hb Hl]. split; [by apply lift_tabled|done].
Qed.

(** A cluster just allocated, beside the chain it will extend. *)
Section NewCluster.
Context (s s1 : Fs S) (c : Z) (l : list Z) (t new : Z).
Context (Hwf : fs_wf s) (Hl : chain (tbl s) c (l ++ [t])) (Hh : held s (l ++ [t])).
Context (A : allocated s 1 [new] s1).

Lemma new_cluster : is_cluster new /\ avail s new /\ new ∉ l ++ [t] /\ tbl s1 new = EOC_MARKER.
Proof.
  pose proof (al_avail _ _ _ _ A) as Hav. apply (Forall_singleton (avail s)) in Hav. pose proof (proj1 Hav) as Hc.
  split_and!; [done|done|intros Hin; by apply (Hh new Hin)|].
  rewrite (al_table _ _ _ _ A) by done. unfold upd. by rewrite decide_True by set_solver.
Qed.

Lemma new_cluster_rest x : x ∈ l ++ [t] -> tbl s1 x = tbl s x.
Proof.
  intros Hx. destruct new_cluster as (_ & _ & Hn & _).
  rewrite (al_table _ _ _ _ A) by (by apply Hh). unfold upd. by rewrite decide_False by set_solver.
Qed.

Lemma new_cluster_used x : x ∈ (l ++ [t]) ++ [new] -> tbl s1 x <> FREE_CLUSTER.
Proof.
  intros [Hx| ->%list_elem_of_singleton]%elem_of_app.
  - rewrite new_cluster_rest by done. apply (chain_nonzero _ _ _ _ Hl Hx).
  - destruct new_cluster as (_ & _ & _ & ->). done.
Qed.

Lemma new_cluster_held : held s1 ((l ++ [t]) ++ [new]).
Proof.
  pose proof (allocated_file_op _ _ _ _ _ Hh A) as O. intros x Hx.
  split; [by apply (fo_from _ _ _ _ O)|by apply (fo_held _ _ _ _ O)].
Qed.

(** The new cluster is lost when it cannot be linked. *)
Lemma new_cluster_lost s' : tabled s1 s' (tbl s1) -> ~ live s -> extended s c (l ++ [t]) [] s'.
Proof.
  intros Ht Hnlv. pose proof (allocated_file_op _ _ _ _ _ Hh A) as O.
  assert (file_op s (l ++ [t]) s' ((l ++ [t]) ++ [new])) as O'.
  { eapply file_op_trans; [exact O|].
    apply (tabled_file_op _ _ (tbl s1)); [apply O|apply new_cluster_held|done|done|apply new_cluster_used]. }
  apply extended_same; try done.
  - constructor; [apply O'|apply O'| |].
    + intros x Hx. apply (fo_from _ _ _ _ O'). set_solver.
    + intros x Hx. apply (fo_held _ _ _ _ O'). set_solver.
  - intros x Hx. rewrite (tabled_tbl _ _ _ _ Ht) by (by apply Hh). by apply new_cluster_rest.
Qed.

Lemma new_cluster_avail s3 z : tabled s1 s3 (upd (tbl s1) [t] new) -> avail s3 z <-> avail s1 z.
Proof.
  intros Ht. destruct new_cluster as (Hcn & _ & _ & _). rewrite (tabled_avail _ _ _ _ Ht). unfold avail.
  destruct (alloc_bitmap s1); [done|].
  unfold upd. case_decide as Hzt; [|done]. apply list_elem_of_singleton in Hzt as ->.
  pose proof (new_cluster_used t ltac:(set_solver)) as Hnz. unfold is_cluster in Hcn.
  unfold FREE_CLUSTER in *. split; intros []; lia.
Qed.

Lemma new_cluster_linked s3 : tabled s1 s3 (upd (tbl s1) [t] new) ->
  extended s c (l ++ [t]) [new] s3
  /\ Z.of_nat (length (avail_list s3)) = Z.of_nat (length (avail_list s)) - 1.
Proof.
  intros Ht. destruct new_cluster as (Hcn & _ & Hnl & Hnew). pose proof (proj2 clusters_fit) as Hfit.
  assert (forall z, is_cluster z -> tbl s3 z = upd (tbl s1) [t] new z) as Hg3
    by (intros z Hz; by apply (tabled_tbl _ _ _ _ Ht)).
  pose proof (chain_NoDup _ _ _ Hl) as Hnd. apply NoDup_app in Hnd as (_ & Hdt & _). split.
  - constructor.
    + eapply file_op_trans; [by eapply allocated_file_op|].
      apply (tabled_file_op _ _ (upd (tbl s1) [t] new)); [apply A|apply new_cluster_held|done| |].
      * intros z _ Hz. unfold upd. by rewrite decide_False by set_solver.
      * intros z Hz. unfold upd. case_decide; [|by apply new_cluster_used].
        unfold is_cluster in Hcn. unfold FREE_CLUSTER. lia.
    + rewrite <- app_assoc. apply (chain_snoc (tbl s)); [done| |done| |].
      * intros y Hy. rewrite Hg3 by (apply Hh; set_solver). unfold upd. rewrite decide_False by set_solver.
        apply new_cluster_rest. set_solver.
      * rewrite Hg3 by (apply Hh; set_solver). unfold upd. by rewrite decide_True by set_solver.
      * rewrite Hg3 by done. unfold upd. rewrite decide_False by set_solver. lia.
    + intros Hlv. apply (tabled_live _ _ _ Ht), A, Hlv.
    + intros x _. rewrite <- (allocated_avail _ _ _ _ _ A). by apply new_cluster_avail.
    + intros x _ Hx Hn. rewrite Hg3 by done. unfold upd. rewrite decide_False by set_solver.
      rewrite (al_table _ _ _ _ A) by done. unfold upd. rewrite decide_False by set_solver. done.
    + intros _. destruct Ht as [-> _]. apply A.
  - rewrite <- (allocated_count _ _ _ _ A). do 2 f_equal. apply avail_list_agree. intros z _. by apply new_cluster_avail.
Qed.
End NewCluster.

(** One round: allocate, zero, link. *)
Lemma append_one_wp s c l t (k : Z -> cmd (Fs S) unit) Q (E : Fs S -> VfsError -> Prop) :
  fs_wf s -> chain (tbl s) c (l ++ [t]) -> held s (l ++ [t]) ->
  (forall s' new, extended s c (l ++ [t]) [new] s' -> 
     Z.of_nat (length (avail_list s')) = Z.of_nat (length (avail_list s)) - 1 -> wp s' (k new) Q E) ->
  (forall s' e, extended s c (l ++ [t]) [] s' -> (live s -> Z.of_nat (length (avail_list s)) < 1) -> E s' e) ->
  wp s (do! new := alloc_cluster in
        do! _ := lift (zero_cluster new) in
        do! _ := lift (fat_write t new) in
        k new) Q E.
Proof.
  intros Hwf Hl Hh HQ HE. pose proof (proj2 clusters_fit) as Hfit.
  eapply wp_seq; [by apply alloc_cluster_wp| |].
  2: { intros s' e F. destruct (alloc_failed_file_op _ _ _ _ _ Hh F) as [Hop Heq].
       apply HE; [|intros Hlv; by apply F]. apply extended_same; try done.
       intros Hlv. destruct (af_live _ _ _ _ F Hlv) as (_ & Hlv' & _ & Ht).
       split_and!; [done|apply F|done]. }
  cbv beta. intros s1 new A. destruct (new_cluster s s1 c l t new Hwf Hl Hh A) as (Hcn & _ & _ & _).
  assert (is_cluster t) as Hct by (apply Hh; set_solver).
  eapply wp_seq; [apply zero_wp; [apply A|done]| |].
  2: { intros s' e [Ht Hnlv]. assert (~ live s) as Hnl by (intros Hlv; by apply Hnlv, A).
       apply HE; [by eapply new_cluster_lost|done]. }
  cbv beta. intros s2 u Ht2.
  eapply wp_seq; [apply write_wp; [by eapply tabled_ok|done|unfold is_cluster in Hcn; unfold EOC_MARKER in *; lia]| |].
  2: { intros s' e [Ht Hnlv].
       assert (~ live s) as Hnl by (intros Hlv; by apply Hnlv, (tabled_live _ _ _ Ht2), A).
       apply HE; [eapply new_cluster_lost; [done|done|done|done|by eapply tabled_step|done]|done]. }
  cbv beta. intros s3 u3 Ht3.
  destruct (new_cluster_linked s s1 c l t new Hwf Hl Hh A s3) as [X Hcnt]; [|by apply HQ].
  eapply tabled_ext; [by eapply tabled_trans|]. intros z Hz. apply upd_congr. by apply (tabled_tbl _ _ _ _ Ht2).
Qed.

Lemma append_loop_wp c n : forall s l t, fs_wf s -> chain (tbl s) c (l ++ [t]) -> held s (l ++ [t]) ->
  wp s (append_loop n t)
    (fun s' _ => exists new, length new = n /\ extended s c (l ++ [t]) new s')
    (fun s' _ => (exists new, extended s c (l ++ [t]) new s')
       /\ (live s -> Z.of_nat (length (avail_list s)) < Z.of_nat n)).
Proof.
  induction n as [|n IH]; intros s l t Hwf Hl Hh; cbn [append_loop].
  { apply wp_ret. exists []. split; [done|]. apply tabled_extended; try done. apply tabled_refl, Hwf. }
  apply (append_one_wp s c l t); [done|done|done| |].
  - intros s1 new X1 Hcnt. pose proof X1 as [O1 C1 L1 _ _ _]. eapply wp_mono; [apply (IH s1 (l ++ [t]) new)|..].
    + apply O1.
    + done.
    + intros x Hx. split; [by apply (fo_from _ _ _ _ O1)|by apply (fo_held _ _ _ _ O1)].
    + cbv beta. intros s2 u (new2 & Hlen & X2). exists (new :: new2). split; [simpl; lia|].
      by apply (extended_trans s c (l ++ [t]) [new] s1).
    + cbv beta. intros s2 e [[new2 X2] Hlv]. split.
      * exists (new :: new2). by apply (extended_trans s c (l ++ [t]) [new] s1).
      * intros Hl0. specialize (Hlv (L1 Hl0)). lia.
  - intros s1 e X Hlv. split; [by exists []|]. intros Hl0. specialize (Hlv Hl0). lia.
Qed.

(** A file is extended by [n] available clusters; on an error by fewer, and
    only for want of space on a live device. *)
Lemma extend_chain_wp s c l n : fs_wf s -> chain (tbl s) c l -> held s l -> 0 <= n ->
  wp s (extend_chain c n)
    (fun s' _ => exists new, Z.of_nat (length new) = n /\ extended s c l new s')
    (fun s' _ => (exists new, extended s c l new s')
       /\ (live s -> Z.of_nat (length (avail_list s)) < n)).
Proof.
  intros Hwf Hl Hh Hn. unfold extend_chain.
  assert (forall s', tabled s s' (tbl s) -> extended s c l [] s') as Hsame by (intros s'; by apply tabled_extended).
  eapply wp_seq; [apply tail_wp, Hwf| |].
  2: { intros s' e [Ht Hor]. split; [exists []; auto|]. intros Hlv. destruct Hor as [|Hno]; [done|].
       by destruct (Hno l). }
  intros s1 t (Ht & l0 & Hl0). assert (l = l0 ++ [t]) as -> by (by eapply chain_det).
  pose proof (Hsame s1 Ht) as X1. eapply wp_mono; [apply (append_loop_wp c _ s1 l0 t)|..].
  - apply X1.
  - by apply (tabled_chain s).
  - intros x Hx. split; [by apply Hh|]. apply (fo_held _ _ _ _ (ex_op _ _ _ _ _ X1)). set_solver.
  - cbv beta. intros s2 u (new & Hlen & X2). exists new. split; [lia|].
    apply (extended_trans s c _ [] s1 new); [done|by rewrite app_nil_r].
  - cbv beta. intros s2 e [[new X2] Hlv]. split.
    + exists new. apply (extended_trans s c _ [] s1 new); [done|by rewrite app_nil_r].
    + intros Hl1. assert (avail_list s1 = avail_list s) as Ea.
      { apply avail_list_agree. intros z Hz. rewrite (tabled_avail _ _ _ _ Ht). done. }
      rewrite Ea in Hlv. specialize (Hlv (ex_live _ _ _ _ _ X1 Hl1)). lia.
Qed.
End Chains.
