(* ===== verification/FatVolumeFacts.v ===== *)
(** * The cached FAT discharges the allocator's interface

    The device of a mounted volume changes by sector writes only, so a healthy
    device stays healthy; with that, the cached entry reads and writes and the
    cluster writes satisfy [FatLaws] and [FatZero].  Then the free-cluster scan and the
    flag and FSInfo updates of a mount. *)

From S2P Require Import Prelude Bits Errors BlockDev Fat32 Fat32Facts Fat32Spec.
From S2P Require Import FatAlloc FatAllocFacts FatChain.
From stdpp Require Import sorting.
Import Errors.Vfs.
Local Open Scope Z_scope.

(** ** The device changes by writes *)

Section Device.
Context `{Profile} `{WriteDevice D}.

Definition dev_step (d d' : D) : Prop := exists lba n buf, d' = (write_sectors d lba n buf).1.

(** [m] changes the device by writes. *)
Definition writes {A} (m : cmd (D * FatCache) A) : Prop := forall s, rtc dev_step s.1 (m s).1.1.

Lemma writes_res {A} (r : res VfsError A) : writes (cmd_res r).
Proof. intros s. apply rtc_refl. Qed.

Lemma writes_ret {A} (a : A) : writes (cmd_ret a).
Proof. intros s. apply rtc_refl. Qed.

Lemma writes_bind {A B} (m : cmd (D * FatCache) A) (k : A -> cmd (D * FatCache) B) :
  writes m -> (forall a, writes (k a)) -> writes (cmd_bind m k).
Proof.
  intros Hm Hk s. specialize (Hm s). unfold cmd_bind.
  destruct (m s) as [s' [a|e|]]; [|done|done]. etrans; [exact Hm|apply Hk].
Qed.

Lemma writes_for {A} (l : list A) body : (forall x, writes (body x)) -> writes (cmd_for l body).
Proof. intros Hb. induction l as [|x l IH]; simpl; [apply writes_ret|]. by apply writes_bind. Qed.

Lemma writes_dev_write lba n buf : writes (dev_write lba n buf).
Proof.
  intros [d c]. unfold dev_write. apply rtc_once. exists lba, n, buf.
  cbn [fst]. by destruct (write_sectors d lba n buf).
Qed.

Create HintDb dev_writes.
Hint Resolve writes_res writes_ret writes_bind writes_for writes_dev_write : dev_writes.

Lemma writes_writeback lba : writes (writeback_and_drop lba).
Proof.
  intros [d c]. unfold writeback_and_drop. destruct (sectors c !! lba) as [x|]; [|apply rtc_refl].
  cbv zeta. match goal with |- context [match ?w (d, c) with _ => _ end] => assert (writes w) as Hw end.
  { apply writes_bind; [auto with dev_writes|]. intros _. destruct (mirrored c); auto with dev_writes. }
  specialize (Hw (d, c)). by match goal with |- context [match ?w with _ => _ end] =>
    destruct w as [[d' c'] [u|e|]] end.
Qed.

Lemma writes_maybe_evict : writes maybe_evict.
Proof.
  intros [d c]. unfold maybe_evict. destruct (_ <? _)%nat; [apply rtc_refl|]. cbv zeta.
  destruct (sweep_clean _ c) as [[c1 []]|e|]; [apply rtc_refl| |apply rtc_refl|apply rtc_refl].
  match goal with |- context [cmd_for ?l ?b _] => assert (writes (cmd_for l b)) as Hw end.
  { apply writes_for. intros x. apply writes_bind; [apply writes_writeback|auto with dev_writes]. }
  specialize (Hw (d, c1)). match type of Hw with rtc _ _ (?m).1.1 => destruct m as [[d2 c2] [u|e|]] end; [|done|done].
  by destruct (sweep_clean _ _) as [[c4 r]|e|].
Qed.

Lemma writes_ensure lba : writes (ensure lba).
Proof.
  intros [d c]. unfold ensure. case_bool_decide; [apply rtc_refl|].
  destruct (read_sectors d lba 1); [|apply rtc_refl|apply rtc_refl].
  pose proof (writes_maybe_evict (d, c)) as Hw. by destruct (maybe_evict (d, c)) as [[d' c'] [u|e|]].
Qed.

Lemma writes_read_fat_entry b c : writes (read_fat_entry b c).
Proof.
  unfold read_fat_entry, get_or_read. apply writes_bind; [auto with dev_writes|]. intros pos.
  apply writes_bind; [|auto with dev_writes]. apply writes_bind; [apply writes_ensure|].
  intros _ [d c']. apply rtc_refl.
Qed.

Lemma writes_write_fat_entry b c v : writes (write_fat_entry b c v).
Proof.
  unfold write_fat_entry, get_or_read_mut. apply writes_bind; [auto with dev_writes|]. intros pos.
  apply writes_bind; [apply writes_bind; [apply writes_ensure|intros _ [d c']; apply rtc_refl]|].
  intros x. apply writes_bind; [auto with dev_writes|]. intros y [d c']. apply rtc_refl.
Qed.

Lemma steps_healthy `{!ReliableDevice D} d d' : rtc dev_step d d' -> healthy d ->
  healthy d' /\ sector_count d' = sector_count d.
Proof.
  induction 1 as [|d1 d2 d3 (lba & n & buf & ->) _ IH]; intros Hd; [done|].
  destruct (healthy_kept d1 lba n buf Hd) as [Hd2 Hs]. destruct (IH Hd2) as [Hd3 ->]. done.
Qed.
End Device.

(** ** The interface *)

Section Laws.
Context `{Profile} `{ReliableDevice D} (b : Bpb).

(** A volume whose FAT covers its clusters, can number them, and lies before
    the data area. *)
Record volume_ok : Prop := {
  vo_bpb : bpb_ok b;
  vo_numbered : 2 + total_clus b <= EOC_MARKER;
  vo_active : active_fat_idx b < num_fats b;
  vo_data : first_data_sec b = rsvd_sec_cnt b + num_fats b * fat_sz32 b;
  vo_spc : 1 <= sec_per_clus b;
  vo_bytes : byts_per_clus b = 512 * sec_per_clus b
}.

(** One past the last sector of the volume. *)
Definition volume_end : Z := first_data_sec b + total_clus b * sec_per_clus b.

Definition cached_view : FatView (D * FatCache) := {|
  fat_ok := inv b;
  fat_live s := healthy s.1 /\ volume_end <= sector_count s.1;
  fat_entry := entry b
|}.

#[local] Hint Extern 0 (FatOps (D * FatCache)) => exact (volume b) : typeclass_instances.
#[local] Hint Extern 0 (FatView (D * FatCache)) => exact cached_view : typeclass_instances.

Lemma base_pos : volume_ok -> 1 <= base b /\ base b + fat_sz32 b <= first_data_sec b.
Proof.
  intros [[] ? ? ? ? ?]. unfold base, fat_sector_lba in *.
  assert (0 <= active_fat_idx b).
  { unfold active_fat_idx. destruct (negb _); [apply Z.land_nonneg; lia|lia]. }
  nia.
Qed.

(** The copies of a FAT sector are before the data. *)
Lemma copies_bound : volume_ok -> 0 < copies b /\
  forall l k, primary b l -> 0 <= k < copies b -> base b <= l + k * fat_sz32 b < first_data_sec b.
Proof.
  intros Hv. destruct (base_pos Hv) as [_ Hb2]. destruct Hv as [[] ? ? ? ? ?]. unfold copies, primary, base, fat_sector_lba, active_fat_idx in *.
  destruct (Z.land (ext_flags b) 128 =? 0); cbn [negb] in *; (split; [lia|]); intros l k Hl Hk; [nia|]. assert (k = 0) as -> by lia. lia.
Qed.

Lemma live_kept {A} (m : cmd (D * FatCache) A) s : writes m ->
  fat_live (S := D * FatCache) s -> fat_live (S := D * FatCache) (m s).1.
Proof.
  intros Hw [Hh Hs]. destruct (steps_healthy _ _ (Hw s) Hh) as [Hh' Hs']. split; [done|].
  by rewrite Hs'.
Qed.

Lemma live_reads s c : volume_ok -> valid b c -> fat_live (S := D * FatCache) s ->
  exists buf, read_sectors s.1 (entry_lba b c) 1 = Ok buf.
Proof.
  intros Hv Hc [Hh Hs]. destruct (base_pos Hv) as [Hb1 Hb2].
  destruct (entry_position b (vo_bpb Hv) c Hc) as (_ & _ & _ & _ & _ & _ & Hp). unfold primary in Hp.
  apply healthy_read; [done|lia|lia|]. unfold volume_end in Hs. destruct Hv as [[] ? ? ? ? ?]. nia.
Qed.

Lemma write_fat_entry_progress s c v : volume_ok -> inv b s -> valid b c ->
  (exists buf, read_sectors s.1 (entry_lba b c) 1 = Ok buf) -> (write_fat_entry b c v s).2 = Ok tt.
Proof.
  intros Hv Hi Hc Hr. pose proof (vo_bpb Hv) as Hb.
  destruct (entry_position b Hb c Hc) as (idx & off & Hpos & Hlba & -> & Ho & Hp).
  destruct (ensure_ok b Hb s (entry_lba b c) Hi Hp) as [(_ & _ & _ & Hpost) Hprog].
  specialize (Hprog Hr). unfold write_fat_entry, get_or_read_mut, cmd_bind, cmd_res. rewrite Hpos.
  cbn [fst snd]. rewrite Hlba. destruct (ensure (entry_lba b c) s) as [[d' c'] r]. cbn [fst snd] in *.
  subst r. rewrite (Hpost tt eq_refl). cbn [ok_or]. destruct (view_sector b s (entry_lba b c) Hi) as [Hlen _].
  unfold copy_at. rewrite length_le_bytes. rewrite (proj2 (andb_true_iff _ _)) by lia. done.
Qed.

Lemma wp_from_run {A} s (m : cmd (D * FatCache) A) post (Q : D * FatCache -> A -> Prop) E :
  run_ok b s m post -> (forall s' a, inv b s' -> same b s s' -> post s' a -> m s = (s', Ok a) -> Q s' a) ->
  (forall s' e, inv b s' -> same b s s' -> m s = (s', Err e) -> E s' e) -> wp s m Q E.
Proof.
  intros (Hn & Hi & Hs & Hp) HQ HE. unfold wp. destruct (m s) as [s' [a|e|]]; simpl in *; auto.
Qed.

Lemma cached_laws : volume_ok -> FatLaws (D * FatCache).
Proof.
  intros Hv. pose proof (vo_bpb Hv) as Hb. destruct (base_pos Hv) as [Hb1 Hb2]. constructor.
  - simpl. split; [apply Hb|apply Hv].
  - intros s c. apply land_mask.
  - intros s c Hi Hc. destruct (read_fat_entry_ok b Hb s c Hi Hc) as [Hrun Hprog].
    pose proof (live_kept _ s (writes_read_fat_entry b c)) as Hlk.
    eapply wp_from_run; [exact Hrun| |]; cbn [fat_read volume] in *.
    + intros s' v Hi' Hs' -> E. rewrite E in Hlk. split; [done|]. split_and!; [done| |done].
      intros x Hx. by apply (same_entry b Hb).
    + intros s' e Hi' Hs' E. rewrite E in Hlk. split; [split_and!; [done| |done]|].
      * intros x Hx. by apply (same_entry b Hb).
      * intros Hl. rewrite E in Hprog. by specialize (Hprog (live_reads s c Hv Hc Hl)).
  - intros s c v Hi Hc. destruct (write_fat_entry_ok b Hb s c v Hi Hc) as (Hn & Hi' & Herr & Hok & _).
    pose proof (live_kept _ s (writes_write_fat_entry b c v)) as Hlk.
    pose proof (write_fat_entry_progress s c v Hv Hi Hc) as Hprog.
    unfold wp. cbn [fat_write volume]. destruct (write_fat_entry b c v s) as [s' [[]|e|]]; cbn [fst snd] in *.
    + split_and!; [done| |done]. intros x Hx. by apply Hok.
    + split; [split_and!; [done| |done]|].
      * intros x Hx. apply (same_entry b Hb); [|done]. apply Herr. by exists e.
      * intros Hl. by specialize (Hprog (live_reads s c Hv Hc Hl)).
    + done.
  - intros s c v Hc. apply (entry_invalid b c v s Hc).
Qed.

Lemma cached_zero : volume_ok -> FatZero (D * FatCache).
Proof.
  intros Hv. pose proof (vo_bpb Hv) as Hb. destruct (base_pos Hv) as [Hb1 Hb2]. constructor.
  - intros s c Hi Hc. unfold zero_cluster. cbn [cluster_write cluster_bytes volume]. unfold write_cluster.
    unfold is_cluster in Hc. cbn [clusters volume] in Hc. rewrite (proj2 (orb_false_iff _ _)) by lia.
    assert (first_data_sec b <= clus_to_lba b c
            /\ clus_to_lba b c + sec_per_clus b <= volume_end) as [Hlo Hhi].
    { unfold clus_to_lba, volume_end. pose proof (vo_spc Hv). rewrite Z.max_r by lia. nia. }
    set (buf := replicate (Z.to_nat (byts_per_clus b)) 0).
    pose proof (live_kept _ s (writes_dev_write (clus_to_lba b c) (sec_per_clus b) buf)) as Hlk.
    destruct (copies_bound Hv) as [Hc0 Hcb]. eapply wp_from_run; [apply dev_write_ok; [done|done|]| |].
    + intros l k Hp Hk Hl. specialize (Hcb l k Hp Hk). lia.
    + intros s' [] Hi' Hs' _ E. rewrite E in Hlk. split_and!; [done| |done].
      intros x Hx. by apply (same_entry b Hb).
    + intros s' e Hi' Hs' E. rewrite E in Hlk. split; [split_and!; [done| |done]|].
      * intros x Hx. by apply (same_entry b Hb).
      * intros [Hh Hs]. destruct s as [d c']. unfold dev_write in E. pose proof (vo_spc Hv). pose proof (bo_fat_sz _ Hb). cbn [fst] in *.
        assert ((write_sectors d (clus_to_lba b c) (sec_per_clus b) buf).2 = Ok tt) as Hw.
        { apply healthy_write; [done|lia|lia|lia| |].
          - apply Forall_replicate. unfold byte_ok. lia.
          - unfold buf. rewrite length_replicate, (vo_bytes Hv). lia. }
        destruct (write_sectors d (clus_to_lba b c) (sec_per_clus b) buf) as [d' r]. simpl in Hw. by subst r.
Qed.
End Laws.

(** ** The free-cluster scan *)

Lemma res_fold_seqZ {A} (f : A -> Z -> res VfsError A) (P : Z -> A -> Prop) n acc : 0 <= n ->
  (forall i acc, 0 <= i < n -> P i acc -> exists acc', f acc i = Ok acc' /\ P (i + 1) acc') ->
  P 0 acc -> exists acc', res_fold f acc (seqZ 0 n) = Ok acc' /\ P n acc'.
Proof.
  intros Hn Hf. assert (forall (k : nat) a acc, 0 <= a -> a + Z.of_nat k = n -> P a acc ->
    exists acc', res_fold f acc (seqZ a (Z.of_nat k)) = Ok acc' /\ P n acc') as Hgen.
  { induction k as [|k IH]; intros a acc0 Ha Hk Hp.
    { exists acc0. split; [done|]. by replace n with a by lia. }
    rewrite seqZ_cons by lia. cbn [res_fold]. destruct (Hf a acc0) as (acc1 & -> & Hp1); [lia|done|].
    cbn [res_bind]. replace (Z.pred (Z.of_nat (S k))) with (Z.of_nat k) by lia.
    apply (IH (Z.succ a)); [lia|lia|]. by replace (Z.succ a) with (a + 1) by lia. }
  intros Hp. destruct (Hgen (Z.to_nat n) 0 acc) as (acc' & Hr & Hp'); [lia|lia|done|].
  rewrite Z2Nat.id in Hr by lia. eauto.
Qed.

Lemma sectors_slice `{BlockDevice D} (d : D) lba n k (o len : nat) : 0 <= k < n -> (o + len <= 512)%nat ->
  take len (drop (Z.to_nat (512 * k) + o) (flat_map (sector d) (seqZ lba n)))
  = take len (drop o (sector d (lba + k))).
Proof.
  intros Hk Ho. replace n with (k + (n - k)) by lia. rewrite seqZ_app by lia.
  rewrite (seqZ_cons (lba + k)) by lia. rewrite flat_map_app. simpl flat_map.
  pose proof (sectors_length d lba k ltac:(lia)) as Hl.
  replace (Z.to_nat (512 * k)) with (length (flat_map (sector d) (seqZ lba k))) by lia.
  rewrite drop_app_add. rewrite drop_app_le by (rewrite sector_length; lia).
  rewrite take_app_le; [done|]. rewrite length_drop, sector_length. lia.
Qed.

Section Scan.
Context `{Profile} `{WriteDevice D} (b : Bpb) (Hb : bpb_ok b) (f : Z -> Z).

(** The first [e] entries of the table [f] are counted and marked. *)
Definition scanned (e : Z) (acc : Z * option Z) : Prop :=
  acc.1 = Z.of_nat (length (filter (fun c => f c = 0) (seqZ 2 (Z.min e (2 + total_clus b) - 2))))
  /\ forall m, acc.2 = Some m -> forall i, 0 <= i ->
     Z.testbit m i = bool_decide (i + 2 < e /\ i < total_clus b /\ f (i + 2) <> 0).

Lemma scanned_step d lba done chunk sec_off i acc :
  0 <= done -> 0 <= sec_off < chunk -> 0 <= i < 128 ->
  (forall c, valid b c -> c = (done + sec_off) * 128 + i ->
     f c = Z.land (le_val (take 4 (drop (Z.to_nat (i * 4)) (sector d (lba + sec_off))))) FAT_MASK) ->
  scanned ((done + sec_off) * 128 + i) acc ->
  exists acc', scan_entry b (flat_map (sector d) (seqZ lba chunk)) done sec_off acc i = Ok acc'
  /\ scanned ((done + sec_off) * 128 + i + 1) acc'.
Proof.
  intros Hd Hs Hi Hf [Hn Hm]. unfold scan_entry. set (e := (done + sec_off) * 128 + i) in *.
  assert (0 <= e) as He by (unfold e; lia).
  destruct ((e <? 2) || (2 + total_clus b - 1 <? e)) eqn:Er.
  - exists acc. split; [done|]. split.
    + rewrite Hn. destruct (decide (e < 2)); [by rewrite !seqZ_nil by lia|]. do 4 f_equal. lia.
    + intros m Em j Hj. rewrite (Hm m Em) by done. apply bool_decide_ext. lia.
  - assert (valid b e) as Hv by (unfold valid; lia).
    assert (get_range (flat_map (sector d) (seqZ lba chunk)) (sec_off * 512 + i * 4) 4
      = Some (take 4 (drop (Z.to_nat (i * 4)) (sector d (lba + sec_off))))) as ->.
    { unfold get_range. rewrite sectors_length by lia. rewrite (proj2 (andb_true_iff _ _)) by lia.
      f_equal. rewrite <- (sectors_slice d lba chunk sec_off) by lia. do 2 f_equal. lia. }
    cbn [ok_or res_bind]. rewrite <- (Hf e) by done.
    replace (Z.min e (2 + total_clus b) - 2) with (e - 2) in Hn by (unfold valid in Hv; lia).
    assert (seqZ 2 (Z.min (e + 1) (2 + total_clus b) - 2) = seqZ 2 (e - 2) ++ [e]) as Hseq.
    { replace (Z.min _ _ - 2) with ((e - 2) + 1) by (unfold valid in Hv; lia).
      rewrite seqZ_app by (unfold valid in Hv; lia). f_equal. replace (2 + (e - 2)) with e by lia.
      by rewrite seqZ_cons by lia. }
    unfold FREE_CLUSTER, valid in *. destruct (Z.eqb_spec (f e) 0) as [Hz|Hz].
    + eexists. split; [reflexivity|]. split; cbn [fst snd].
      * rewrite Hseq, filter_app, length_app, (filter_cons_True (fun c => f c = 0)) by done. simpl. lia.
      * intros m Em j Hj. rewrite (Hm m Em) by done. apply bool_decide_ext.
        destruct (decide (j + 2 = e)) as [Hje|]; [rewrite Hje; lia|lia].
    + eexists. split; [reflexivity|]. split; cbn [fst snd].
      * rewrite Hseq, filter_app, length_app, (filter_cons_False (fun c => f c = 0)) by done. simpl. lia.
      * intros m Em j Hj. destruct (acc.2) as [m0|]; [|done]. injection Em as <-.
        rewrite Z.setbit_eqb by lia. rewrite (Hm m0 eq_refl) by done.
        destruct (Z.eqb_spec (e - 2) j) as [<-|Hne]; simpl.
        -- symmetry. apply bool_decide_eq_true. replace (e - 2 + 2) with e by lia. lia.
        -- apply bool_decide_ext. lia.
Qed.
End Scan.

Section Mounting.
Context `{Profile} `{ReliableDevice D} (b : Bpb) (Hv : volume_ok b).
Let Hb : bpb_ok b := vo_bpb b Hv.

#[local] Hint Extern 0 (FatOps (D * FatCache)) => exact (volume b) : typeclass_instances.
#[local] Hint Extern 0 (FatView (D * FatCache)) => exact (cached_view b) : typeclass_instances.

Lemma dev_read_wp (s : Fs (D * FatCache)) lba n : 0 <= lba -> 1 <= n -> lba + n <= volume_end b ->
  wp s (dev_read lba n) (fun s' buf => s' = s /\ buf = flat_map (sector (fat s).1) (seqZ lba n))
    (fun s' _ => s' = s /\ ~ live s).
Proof.
  intros Hl Hn He. unfold wp, dev_read. pose proof (read_sectors_no_panic (fat s).1 lba n) as Hnp.
  destruct (read_sectors (fat s).1 lba n) as [buf|e|] eqn:E; [|split; [done|]|done].
  - split; [done|]. by apply read_sectors_ok.
  - intros [Hh Hs]. destruct (healthy_read (fat s).1 lba n) as [buf Hr]; [done|lia|lia|lia|congruence].
Qed.

Lemma scan_chunk_ok d done chunk acc : 0 <= done -> 0 <= chunk -> done + chunk <= fat_sz32 b ->
  scanned b (disk_table b d) (done * 128) acc ->
  exists acc', scan_chunk b (flat_map (sector d) (seqZ (base b + done) chunk)) done chunk acc = Ok acc'
  /\ scanned b (disk_table b d) ((done + chunk) * 128) acc'.
Proof.
  intros Hd Hc Hle Hs. unfold scan_chunk.
  apply (res_fold_seqZ _ (fun i acc => scanned b (disk_table b d) ((done + i) * 128) acc)); [lia| |].
  2: { by rewrite Z.add_0_r. }
  intros sec_off acc1 Hsec Hs1.
  destruct (res_fold_seqZ (scan_entry b (flat_map (sector d) (seqZ (base b + done) chunk)) done sec_off)
    (fun i acc => scanned b (disk_table b d) ((done + sec_off) * 128 + i) acc) 128 acc1) as (acc2 & E2 & Hs2).
  - lia.
  - intros i acc2 Hi Hs2.
    destruct (scanned_step b (disk_table b d) d (base b + done) done chunk sec_off i acc2)
      as (acc3 & E3 & Hs3); [lia|lia|lia| |done|].
    + intros c Hvc ->. unfold disk_table, entry_lba, entry_off. set (e := (done + sec_off) * 128 + i).
      assert (e * 4 / 512 = done + sec_off) as -> by (unfold e; mlia).
      assert (e * 4 mod 512 = i * 4) as -> by (unfold e; mlia). by rewrite Z.add_assoc.
    + exists acc3. split; [done|]. by rewrite Z.add_assoc.
  - by rewrite Z.add_0_r.
  - exists acc2. split; [done|]. by replace ((done + (sec_off + 1)) * 128) with ((done + sec_off) * 128 + 128) by lia.
Qed.

Lemma scan_loop_wp fuel : forall (s : Fs (D * FatCache)) pos acc, 0 <= pos -> fat_sz32 b - pos <= Z.of_nat fuel ->
  pos <= fat_sz32 b -> scanned b (disk_table b (fat s).1) (pos * 128) acc ->
  wp s (scan_loop b fuel (base b) pos acc)
    (fun s' acc' => s' = s /\ scanned b (disk_table b (fat s).1) (fat_sz32 b * 128) acc')
    (fun s' _ => s' = s /\ ~ live s).
Proof.
  destruct (base_pos b Hv) as [Hb1 Hb2].
  induction fuel as [|fuel IH]; intros s pos acc Hd Hf Hle Hs; cbn [scan_loop];
    (destruct (Z.ltb_spec pos (fat_sz32 b)) as [Hlt|Hge];
      [|apply wp_ret; split; [done|]; by replace (fat_sz32 b) with pos by lia]); [lia|].
  cbv zeta. set (chunk := Z.min 504 (fat_sz32 b - pos)).
  assert (1 <= chunk <= fat_sz32 b - pos) as Hch by (unfold chunk; lia).
  eapply wp_seq; [apply dev_read_wp| |done].
  - lia.
  - lia.
  - unfold volume_end. destruct (bo_covers b Hb). pose proof (vo_spc b Hv). nia.
  - intros s' buf [-> ->]. destruct (scan_chunk_ok (fat s).1 pos chunk acc) as (acc' & E & Hs'); try lia; [done|].
    eapply wp_bind, wp_ok; [exact E|]. apply IH; [lia|lia|lia|done].
Qed.

Lemma scan_free_clusters_wp (s : Fs (D * FatCache)) : sectors (fat s).2 = ∅ ->
  wp s (scan_free_clusters b)
    (fun s' n => exists bm, s' = set_alloc_bitmap s bm /\ synced s'
       /\ n = Z.of_nat (length (filter (fun c => tbl s c = FREE_CLUSTER) (seqZ 2 (total_clus b)))))
    (fun s' _ => s' = s /\ ~ live s).
Proof.
  intros Hempty. assert (forall c, tbl s c = disk_table b (fat s).1 c) as Htbl.
  { intros c. unfold tbl. cbn [fat_entry cached_view]. unfold entry, disk_table, view. by rewrite Hempty, lookup_empty. }
  unfold scan_free_clusters. cbv zeta.
  eapply wp_seq; [apply (scan_loop_wp _ s 0)| |done].
  - lia.
  - pose proof (bo_fat_sz b Hb). lia.
  - pose proof (bo_fat_sz b Hb). lia.
  - split; [by rewrite seqZ_nil by lia|]. intros m Hm i Hi. rewrite bool_decide_false by lia.
    simpl in Hm. destruct (total_clus b <=? BITMAP_MAX_CLUSTERS); [|done]. injection Hm as <-. apply Z.bits_0.
  - intros s' [n bm] [-> [Hn Hm]]. cbn [fst snd] in *. destruct (bo_covers b Hb) as [Ht0 Hcov].
    apply wp_bind, wp_modify, wp_ret. exists bm. split_and!; [done| |].
    + intros c Hc. unfold avail. change (tbl (set_alloc_bitmap s bm) c) with (tbl s c). rewrite Htbl.
      cbn [alloc_bitmap set_alloc_bitmap]. unfold is_cluster in *. cbn [clusters volume] in *.
      destruct bm as [m|]; [|tauto]. rewrite (Hm m eq_refl) by lia.
      rewrite bool_decide_eq_false. replace (c - 2 + 2) with c by lia. unfold FREE_CLUSTER. lia.
    + rewrite Hn. replace (Z.min _ _ - 2) with (total_clus b) by lia. do 2 f_equal.
      apply filter_agree. intros c _. by rewrite Htbl.
Qed.

(** ** The reserved area *)

Lemma keep_table {A} (s : Fs (D * FatCache)) (m : cmd (D * FatCache) A) post :
  run_ok b (fat s) m post -> writes m -> tabled s (lift m s).1 (tbl s).
Proof.
  intros (_ & Hi & Hs & _) Hw. pose proof (live_kept b m (fat s) Hw) as Hl. unfold lift.
  destruct (m (fat s)) as [x r]. simpl in *. split; [done|]. split_and!; [done| |done].
  intros c Hc. by apply (same_entry b Hb).
Qed.

(** Sectors other than [lba] are as they were. *)
Definition elsewhere (lba : Z) (s s' : Fs (D * FatCache)) : Prop :=
  (fat s').2 = (fat s).2 /\ forall l, l <> lba -> sector (fat s').1 l = sector (fat s).1 l.

Lemma write_sector_wp (s : Fs (D * FatCache)) lba buf : fat_ok (fat s) -> 0 <= lba < base b ->
  bytes_ok buf -> length buf = 512%nat ->
  wp s (lift (dev_write lba 1 buf))
    (fun s' _ => tabled s s' (tbl s) /\ elsewhere lba s s' /\ sector (fat s').1 lba = buf)
    (fun s' _ => tabled s s' (tbl s) /\ elsewhere lba s s' /\ ~ live s).
Proof.
  intros Hk Hl Hbuf Hlen. destruct (base_pos b Hv) as [Hb1 Hb2].
  destruct (copies_bound b Hv) as [Hc0 Hcb].
  assert (forall l k, primary b l -> 0 <= k < copies b -> lba <= l + k * fat_sz32 b < lba + 1 -> l ∈ dirty (fat s).2) as Hnp
    by (intros l k Hp Hk' Hl'; specialize (Hcb l k Hp Hk'); lia).
  pose proof (keep_table s _ _ (dev_write_ok b (fat s) lba 1 buf Hc0 Hk Hnp) (writes_dev_write lba 1 buf)) as Ht.
  unfold wp. pose proof (write_sectors_no_panic (fat s).1 lba 1 buf) as Hn.
  pose proof (write_sectors_frame (fat s).1 lba 1 buf) as Hf.
  pose proof (write_sectors_ok (fat s).1 lba 1 buf lba Hbuf ltac:(lia) ltac:(lia)) as Hok.
  pose proof (fun Hh : live s => healthy_write (fat s).1 lba 1 buf (proj1 Hh) ltac:(lia) ltac:(lia)) as Hlive.
  destruct s as [[d c] cc bm h fr vd]. unfold lift, dev_write, live, elsewhere in *. cbn [fat fst snd] in *.
  destruct (write_sectors d lba 1 buf) as [d' [[]|e|]]; cbn [fst snd set_fat fat] in *; [| |done].
  - split_and!; [done|done| |].
    + intros l Hne. apply Hf. lia.
    + rewrite Hok by (done || lia). rewrite Z.sub_diag. simpl. rewrite drop_0. apply take_ge. lia.
  - split_and!; [done|done| |].
    + intros l Hne. apply Hf. lia.
    + intros Hh. assert (Err e = Ok ()) as Hbad; [|done]. apply Hlive; [done| |done|lia].
      destruct Hh as [_ Hs]. simpl in Hs. unfold volume_end in Hs. destruct (bo_covers b Hb).
      pose proof (vo_spc b Hv). pose proof (bo_fat_sz b Hb). nia.
Qed.

Lemma reserved_in_volume lba : 0 <= lba < base b -> lba + 1 <= volume_end b.
Proof.
  intros Hl. destruct (base_pos b Hv) as [Hb1 Hb2]. unfold volume_end. destruct (bo_covers b Hb).
  pose proof (vo_spc b Hv). pose proof (bo_fat_sz b Hb). nia.
Qed.

Lemma single_sector (d : D) lba : flat_map (sector d) (seqZ lba 1) = sector d lba.
Proof. rewrite seqZ_cons by lia. simpl. apply app_nil_r. Qed.

Lemma update_flag_wp (s : Fs (D * FatCache)) (g : Z -> Z) : fat_ok (fat s) -> (forall v, byte_ok v -> byte_ok (g v)) ->
  wp s (update_flag g) (fun s' _ => tabled s s' (tbl s) /\ elsewhere 0 s s')
    (fun s' _ => tabled s s' (tbl s) /\ elsewhere 0 s s' /\ ~ live s).
Proof.
  intros Hk Hg. destruct (base_pos b Hv) as [Hb1 _]. unfold update_flag.
  eapply wp_seq; [apply dev_read_wp; [lia|lia|apply reserved_in_volume; lia]| |].
  2: { intros s' e [-> Hl]. split_and!; [by apply tabled_refl|done|done]. }
  intros s' buf [-> ->]. rewrite single_sector.
  pose proof (sector_length (fat s).1 0) as Hlen. pose proof (sector_bytes (fat s).1 0) as Hbytes.
  destruct (index_Ok (E := VfsError) (sector (fat s).1 0) 65) as (v & Hi & Hlook); [lia|].
  eapply wp_bind, wp_ok; [exact Hi|]. apply (index_byte _ _ _ Hbytes) in Hi.
  eapply wp_bind, wp_ok.
  { unfold index_set. rewrite (proj2 (andb_true_iff _ _)) by lia. reflexivity. }
  eapply wp_mono; [apply write_sector_wp; [done|lia| |by rewrite length_insert]| |done].
  - apply Forall_insert; [done|]. by apply Hg.
  - by intros s1 u (Ht & He & _).
Qed.

Lemma byte_check (p : Z -> bool) v : forallb p (seqZ 0 256) = true -> byte_ok v -> p v = true.
Proof.
  intros Hall Hbv. rewrite forallb_forall in Hall. apply Hall, list_elem_of_In, elem_of_seqZ.
  unfold byte_ok in Hbv. lia.
Qed.

Lemma flag_set_byte v : byte_ok v -> byte_ok (Z.lor v 1).
Proof.
  intros Hbv. pose proof (byte_check (fun v => (0 <=? Z.lor v 1) && (Z.lor v 1 <=? 255)) v eq_refl Hbv).
  unfold byte_ok. lia.
Qed.

Lemma flag_clear_byte v : byte_ok v -> byte_ok (Z.land v 254).
Proof.
  intros Hbv. pose proof (byte_check (fun v => (0 <=? Z.land v 254) && (Z.land v 254 <=? 255)) v eq_refl Hbv).
  unfold byte_ok. lia.
Qed.

Lemma fsinfo_hint_range (d : D) h : fsinfo_hint b d = Some h -> 2 <= h < 2 + total_clus b.
Proof.
  unfold fsinfo_hint. destruct (fsinfo_is_valid b); [|done].
  destruct (read_sectors d (fsinfo_sec b) 1); [|done|done]. destruct (_ && _); [|done].
  cbv zeta. destruct (_ && _) eqn:E; [|done]. intros [= <-]. lia.
Qed.

(** ** Mounting *)

(** The state a mount leaves: an empty cache over the device, whose FAT is
    untouched, with a hint, a bitmap and a count that fit the table. *)
Record mounted_ok (dev : D) (s : Fs (D * FatCache)) : Prop := {
  mo_wf : fs_wf s;
  mo_cache : (fat s).2 = new_cache b;
  mo_sectors l : l <> 0 -> sector (fat s).1 l = sector dev l;
  mo_table c : valid b c -> tbl s c = disk_table b dev c;
  mo_synced : synced s;
  mo_free : free_exact s;
  mo_hint : next_alloc_hint s = default 2 (fsinfo_hint b (fat s).1);
  mo_chains : chain_cache s = ∅;
  mo_dirty : volume_dirty s = true
}.

Lemma free_count_bound (g : Z -> Z) :
  0 <= Z.of_nat (length (filter (fun c => g c = FREE_CLUSTER) (seqZ 2 (total_clus b)))) < 2 ^ 32.
Proof.
  pose proof (length_filter (fun c => g c = FREE_CLUSTER) (seqZ 2 (total_clus b))) as Hl.
  rewrite length_seqZ in Hl. pose proof (vo_numbered b Hv) as Hn. unfold EOC_MARKER in Hn.
  destruct (bo_covers b Hb). lia.
Qed.

Lemma mount_super_wp (dev : D) :
  wp (fresh_super b dev) (mount_super b) (fun s' _ => mounted_ok dev s' /\ (live (fresh_super b dev) -> live s'))
    (fun s' _ => ~ live (fresh_super b dev)).
Proof.
  set (s := fresh_super b dev). assert (fat_ok (fat s)) as Hk by apply new_cache_inv. unfold mount_super.
  apply wp_bind. unfold wp at 1, set_volume_dirty_flag. cbn [volume_dirty s fresh_super].
  match goal with |- match ?m s with _ => _ end => change (wp s m
    (fun s' _ => wp s' (do! _ := modify (fun s => match fsinfo_hint b (fat s).1 with
                            | Some hint => set_hint s hint | None => s end) in
                        do! free := scan_free_clusters b in modify (fun s => set_free_count s free))
       (fun s' _ => mounted_ok dev s' /\ (live s -> live s')) (fun s' _ => ~ live s))
    (fun s' _ => ~ live s)) end.
  eapply wp_seq; [apply update_flag_wp; [done|apply flag_set_byte]| |by intros s' e (_ & _ & Hl)].
  intros s1 u [Ht1 [Hc1 Hd1]]. apply wp_modify, wp_bind, wp_modify.
  set (s2 := match _ with Some hint => _ | None => _ end).
  assert (fat s2 = fat s1) as Hf2 by (unfold s2; by destruct (fsinfo_hint b _)).
  eapply wp_seq; [apply scan_free_clusters_wp; rewrite Hf2, Hc1; done| |].
  2: { intros s' e [-> Hl] Hl0. apply Hl. unfold live. rewrite Hf2. by apply (tabled_live _ _ _ Ht1). }
  intros s3 n (bm & -> & Hsync & ->). apply wp_modify. set (s4 := set_free_count _ _).
  assert (forall c, valid b c -> tbl s4 c = disk_table b dev c) as Htbl.
  { intros c Hvc. change (tbl s4 c) with (tbl s2 c). unfold tbl. rewrite Hf2.
    transitivity (tbl s c); [by apply (tabled_tbl _ _ _ _ Ht1)|]. done. }
  split.
  - constructor.
    + constructor.
      * cbn [s4 set_free_count set_alloc_bitmap fat]. rewrite Hf2. by eapply tabled_ok.
      * cbn [s4 set_free_count set_alloc_bitmap next_alloc_hint clusters volume]. unfold s2.
        destruct Ht1 as [E1 _]. destruct (bo_covers b Hb) as [Ht0 _].
        destruct (fsinfo_hint b _) as [h|] eqn:Eh; [apply fsinfo_hint_range in Eh; simpl; lia|].
        simpl. rewrite E1. simpl. lia.
      * apply free_count_bound.
    + cbn [s4 set_free_count set_alloc_bitmap fat]. by rewrite Hf2, Hc1.
    + intros l Hl. cbn [s4 set_free_count set_alloc_bitmap fat]. rewrite Hf2. by apply Hd1.
    + done.
    + done.
    + done.
    + cbn [s4 set_free_count set_alloc_bitmap next_alloc_hint fat]. rewrite Hf2. unfold s2. simpl.
      destruct (fsinfo_hint b (fat s1).1); [done|]. simpl. by rewrite (proj1 Ht1).
    + cbn [s4 set_free_count set_alloc_bitmap chain_cache]. unfold s2. rewrite (proj1 Ht1).
      simpl. by destruct (fsinfo_hint b _).
    + cbn [s4 set_free_count set_alloc_bitmap volume_dirty]. unfold s2. by destruct (fsinfo_hint b _).
  - intros Hl. unfold live. cbn [s4 set_free_count set_alloc_bitmap fat]. rewrite Hf2. by apply (tabled_live _ _ _ Ht1).
Qed.

(** ** Syncing *)

Lemma writes_flush_run fuel : forall start len off, writes (D := D) (flush_run fuel start len off).
Proof.
  induction fuel as [|fuel IH]; intros start len off; cbn [flush_run]; (destruct (off <? len); [|apply writes_ret]).
  { apply writes_res. }
  apply writes_bind; [|intros _; apply IH]. intros [d c]. unfold flush_chunk.
  match goal with |- context [cmd_bind ?m ?k (d, c)] => apply (writes_bind m k) end; [apply writes_res|].
  intros buf. apply writes_bind; [apply writes_dev_write|]. intros _.
  destruct (mirrored c); [|apply writes_ret]. apply writes_for. intros k.
  apply writes_bind; [apply writes_res|]. intros idx. apply writes_dev_write.
Qed.

Lemma writes_flush_runs lbas : forall st n, writes (D := D) (flush_runs lbas st n).
Proof.
  induction lbas as [|x lbas IH]; intros st n; cbn [flush_runs]; [apply writes_flush_run|].
  destruct (x =? st + n); [apply IH|]. apply writes_bind; [apply writes_flush_run|]. intros _. apply IH.
Qed.

Lemma writes_flush : writes (D := D) flush.
Proof.
  intros [d c]. unfold flush. destruct (merge_sort Z.le (elements (dirty c))) as [|lba lbas]; [apply rtc_refl|].
  match goal with |- context [cmd_bind ?m ?k (d, c)] => apply (writes_bind m k) end.
  - apply writes_flush_runs.
  - intros _ [d' c']. apply rtc_refl.
Qed.

Lemma copy_at_ok s off bs : 0 <= off -> off + Z.of_nat (length bs) <= Z.of_nat (length s) ->
  bytes_ok s -> bytes_ok bs -> exists s', copy_at s off bs = Ok s' /\ length s' = length s /\ bytes_ok s'
  /\ s' = splice s (Z.to_nat off) bs.
Proof.
  intros Ho Hl Hs Hbs. eexists. split; [|split_and!; [| |reflexivity]].
  - unfold copy_at. by rewrite (proj2 (andb_true_iff _ _)) by lia.
  - apply splice_length. lia.
  - by apply splice_bytes.
Qed.

Lemma splice_at x off n bs : length bs = n -> (off + n <= length x)%nat ->
  take n (drop off (splice x off bs)) = bs.
Proof.
  intros <- Hx. pose proof (splice_inside (length bs) x off bs 0 Hx) as Hs.
  rewrite Nat.add_0_r, drop_0 in Hs. rewrite Hs by lia. apply take_ge. lia.
Qed.

(** The FSInfo sector with [free] and [hint]. *)
Record fsinfo_image (buf : list Z) (free hint : Z) : Prop := {
  fi_lead : take 4 buf = le_bytes 4 FSINFO_LEAD_SIG;
  fi_struct : take 4 (drop 484 buf) = le_bytes 4 FSINFO_STRUCT_SIG;
  fi_free : take 4 (drop 488 buf) = le_bytes 4 free;
  fi_hint : take 4 (drop 492 buf) = le_bytes 4 hint
}.

(** The sectors from the FAT on are as they were. *)
Definition fat_kept (s s' : Fs (D * FatCache)) : Prop :=
  forall l, base b <= l -> sector (fat s').1 l = sector (fat s).1 l.

Lemma write_fsinfo_wp (s : Fs (D * FatCache)) : fat_ok (fat s) ->
  (fsinfo_is_valid b = true -> 0 < fsinfo_sec b < base b) ->
  wp s (write_fsinfo b)
    (fun s' _ => tabled s s' (tbl s) /\ fat_kept s s'
       /\ (fsinfo_is_valid b = true ->
           fsinfo_image (sector (fat s').1 (fsinfo_sec b)) (free_clus_count s) (next_alloc_hint s)))
    (fun s' _ => tabled s s' (tbl s) /\ fat_kept s s' /\ ~ live s).
Proof.
  intros Hk Hfs. unfold wp, write_fsinfo. destruct (fsinfo_is_valid b) eqn:Ev; cbn [negb].
  2: { split_and!; [by apply tabled_refl|done|done]. }
  specialize (Hfs eq_refl).
  match goal with |- match ?m s with _ => _ end => change (wp s m
    (fun s' _ => tabled s s' (tbl s) /\ fat_kept s s' /\ (true = true ->
       fsinfo_image (sector (fat s').1 (fsinfo_sec b)) (free_clus_count s) (next_alloc_hint s)))
    (fun s' _ => tabled s s' (tbl s) /\ fat_kept s s' /\ ~ live s)) end.
  eapply wp_seq; [apply dev_read_wp; [lia|lia|apply reserved_in_volume; lia]| |].
  2: { intros s' e [-> Hl]. split_and!; [by apply tabled_refl|done|done]. }
  intros s' buf [-> ->]. rewrite single_sector.
  pose proof (sector_length (fat s).1 (fsinfo_sec b)) as L0. pose proof (sector_bytes (fat s).1 (fsinfo_sec b)) as B0.
  generalize dependent (sector (fat s).1 (fsinfo_sec b)). intros b0 L0 B0.
  assert (forall z, length (le_bytes 4 z) = 4%nat) as L4 by apply length_le_bytes.
  destruct (copy_at_ok b0 0 (le_bytes 4 FSINFO_LEAD_SIG)) as (b1 & E1 & L1 & B1 & S1); [lia|rewrite L4; lia|done|apply le_bytes_ok|].
  destruct (copy_at_ok b1 484 (le_bytes 4 FSINFO_STRUCT_SIG)) as (b2 & E2 & L2 & B2 & S2); [lia|rewrite L4; lia|done|apply le_bytes_ok|].
  destruct (copy_at_ok b2 488 (le_bytes 4 (free_clus_count s))) as (b3 & E3 & L3 & B3 & S3); [lia|rewrite L4; lia|done|apply le_bytes_ok|].
  destruct (copy_at_ok b3 492 (le_bytes 4 (next_alloc_hint s))) as (b4 & E4 & L4' & B4 & S4); [lia|rewrite L4; lia|done|apply le_bytes_ok|].
  destruct (copy_at_ok b4 508 (le_bytes 4 FSINFO_TRAIL_SIG)) as (b5 & E5 & L5 & B5 & S5); [lia|rewrite L4; lia|done|apply le_bytes_ok|].
  do 5 (eapply wp_bind, wp_ok; [eassumption|]).
  assert (forall s', elsewhere (fsinfo_sec b) s s' -> fat_kept s s') as Hkept
    by (intros s' [_ He] l Hl; apply He; lia).
  eapply wp_mono; [apply write_sector_wp; [done|lia|done|lia]| |].
  2: { cbv beta. intros s1 e (Ht & He & Hnl). auto. }
  cbv beta. intros s1 u (Ht & He & ->). split_and!; [done|auto|]. intros _.
  constructor.
  - rewrite <- (drop_0 b5). rewrite S5, splice_outside by (rewrite ?L4; lia). rewrite S4, splice_outside by (rewrite ?L4; lia).
    rewrite S3, splice_outside by (rewrite ?L4; lia). rewrite S2, splice_outside by (rewrite ?L4; lia).
    rewrite S1. apply (splice_at _ 0 4); [apply L4|lia].
  - rewrite S5, splice_outside by (rewrite ?L4; lia). rewrite S4, splice_outside by (rewrite ?L4; lia).
    rewrite S3, splice_outside by (rewrite ?L4; lia). rewrite S2. apply (splice_at _ 484 4); [apply L4|lia].
  - rewrite S5, splice_outside by (rewrite ?L4; lia). rewrite S4, splice_outside by (rewrite ?L4; lia).
    rewrite S3. apply (splice_at _ 488 4); [apply L4|lia].
  - rewrite S5, splice_outside by (rewrite ?L4; lia). rewrite S4. apply (splice_at _ 492 4); [apply L4|lia].
Qed.

Lemma disk_table_agree (d d' : D) c : valid b c -> (forall l, primary b l -> sector d' l = sector d l) ->
  disk_table b d' c = disk_table b d c.
Proof.
  intros Hc Hs. unfold disk_table. destruct (entry_position b Hb c Hc) as (_ & _ & _ & _ & _ & _ & Hp).
  by rewrite Hs.
Qed.

Lemma fat_kept_table s s' c : valid b c -> fat_kept s s' ->
  disk_table b (fat s').1 c = disk_table b (fat s).1 c.
Proof. intros Hc He. apply disk_table_agree; [done|]. intros l Hp. apply He, Hp. Qed.

(** The device by itself holds the table. *)
Definition on_disk (s s' : Fs (D * FatCache)) : Prop :=
  forall c, valid b c -> disk_table b (fat s').1 c = tbl s c.

Lemma flush_wp (s : Fs (D * FatCache)) : fat_ok (fat s) ->
  wp s (lift flush) (fun s' _ => tabled s s' (tbl s) /\ on_disk s s') (fun s' _ => tabled s s' (tbl s)).
Proof.
  intros Hk. pose proof (keep_table s _ _ (flush_ok b Hb (fat s) Hk) writes_flush) as Ht.
  destruct (flush_ok b Hb (fat s) Hk) as (Hn & _ & _ & Hpost).
  destruct s as [x0 cc bm h fr vd]. unfold wp, lift in *. cbn [fat] in *.
  destruct (flush x0) as [x [u|e|]]; cbn [fst snd] in *; [|done|done].
  split; [done|]. destruct (Hpost u eq_refl) as (_ & Hdev & _). intros c Hc.
  unfold disk_table, tbl. simpl. unfold entry.
  destruct (entry_position b Hb c Hc) as (_ & _ & _ & _ & _ & _ & Hp). by rewrite Hdev.
Qed.

Definition fsinfo_reserved : Prop := fsinfo_is_valid b = true -> 0 < fsinfo_sec b < base b.

(** A clean shutdown: table, hint and count are on the device. *)
Record shut_down (s s' : Fs (D * FatCache)) : Prop := {
  sd_table : on_disk s s';
  sd_fsinfo : fsinfo_is_valid b = true ->
    fsinfo_image (sector (fat s').1 (fsinfo_sec b)) (free_clus_count s) (next_alloc_hint s);
  sd_flag : volume_dirty s' = false;
  sd_live : live s -> live s'
}.

Lemma shutdown_wp (s : Fs (D * FatCache)) : fat_ok (fat s) -> volume_dirty s = true -> fsinfo_reserved ->
  wp s (shutdown b) (fun s' _ => shut_down s s') (fun s' _ => tabled s s' (tbl s)).
Proof.
  intros Hk Hd Hfs. destruct (base_pos b Hv) as [Hb1 _]. unfold shutdown, sync_all.
  apply wp_bind. eapply wp_seq; [by apply flush_wp| |done]. intros s1 u [Ht1 Hdisk].
  eapply wp_mono; [apply write_fsinfo_wp; [by eapply tabled_ok|done]| |].
  2: { intros s2 e (Ht2 & _). by eapply tabled_step. }
  intros s2 u2 (Ht2 & He2 & Himg). assert (tabled s s2 (tbl s)) as Ht02 by (by eapply tabled_step).
  unfold wp, clear_volume_dirty_flag.
  replace (volume_dirty s2) with true by (destruct Ht02 as [-> _]; done). cbn [negb].
  match goal with |- match ?m s2 with _ => _ end => change (wp s2 m (fun s' _ => shut_down s s')
    (fun s' _ => tabled s s' (tbl s))) end.
  eapply wp_seq; [apply update_flag_wp; [by eapply tabled_ok|apply flag_clear_byte]| |].
  2: { intros s3 e (Ht3 & _). by eapply tabled_step. }
  intros s3 u3 [Ht3 He3]. apply wp_modify. constructor.
  - intros c Hc. cbn [set_volume_dirty fat]. rewrite (fat_kept_table s2 s3), (fat_kept_table s1 s2); try done.
    + by apply Hdisk.
    + intros l Hl. apply He3. lia.
  - intros Hvld. cbn [set_volume_dirty fat]. rewrite (proj2 He3) by (specialize (Hfs Hvld); lia).
    specialize (Himg Hvld). destruct Ht1 as [E1 _]. by rewrite E1 in Himg.
  - done.
  - intros Hl. apply (tabled_live _ _ _ Ht3), (tabled_live _ _ _ Ht02), Hl.
Qed.
Lemma fsinfo_hint_image (d : D) free hint : fsinfo_is_valid b = true -> 0 < fsinfo_sec b < base b ->
  healthy d -> volume_end b <= sector_count d -> fsinfo_image (sector d (fsinfo_sec b)) free hint ->
  2 <= hint <= 2 + total_clus b -> fsinfo_hint b d = if hint <? 2 + total_clus b then Some hint else None.
Proof.
  intros Hvld Hsec Hh Hs [I1 I2 _ I4] Hr. unfold fsinfo_hint. rewrite Hvld.
  pose proof (reserved_in_volume (fsinfo_sec b) ltac:(lia)) as Hend.
  destruct (healthy_read d (fsinfo_sec b) 1) as [buf E]; [done|lia|lia|lia|]. rewrite E.
  apply read_one_ok in E. subst buf. rewrite !bool_decide_true by done. simpl. rewrite I4, le_val_le_bytes.
  pose proof (vo_numbered b Hv) as Hn. unfold EOC_MARKER in Hn. rewrite Z.mod_small by lia.
  by rewrite (proj2 (Z.leb_le _ _)) by lia.
Qed.
End Mounting.
