(* ===== verification/FatFiles.v ===== *)
(** * Files on a volume

    The clusters of the files of a volume beside its state: no operation, on any
    device and with any error, makes two files share a cluster; and on a healthy
    device the free count and the bitmap stay exact. *)

From S2P Require Import Prelude Bits Errors BlockDev Fat32 FatAlloc FatAllocFacts FatChain.
Import Errors.Vfs.
Local Open Scope Z_scope.

Section Files.
Context `{Profile} {S : Type} `{FatLaws S}.
Implicit Types (s : Fs S) (F : list (list Z)).

(** The files [F] of a volume: chains that share no cluster, of which none can
    be handed out again. *)
Record files_ok s F : Prop := {
  fl_wf : fs_wf s;
  fl_chain l : l ∈ F -> exists c, chain (tbl s) c l;
  fl_nodup : NoDup (concat F);
  fl_held : held s (concat F)
}.

Lemma concat_elem (x : Z) F : x ∈ concat F <-> exists l, l ∈ F /\ x ∈ l.
Proof. rewrite !list_elem_of_In, in_concat. by setoid_rewrite list_elem_of_In. Qed.

Lemma file_held s l F : files_ok s (l :: F) -> held s l.
Proof. intros FK x Hx. apply (fl_held _ _ FK). simpl. set_solver. Qed.

(** The other files survive an operation on one. *)
Lemma files_rest s s' l l' F : files_ok s (l :: F) -> file_op s l s' l' -> files_ok s' F.
Proof.
  intros FK O. pose proof (fl_nodup _ _ FK) as Hnd. simpl in Hnd. apply NoDup_app in Hnd as (_ & Hdis & Hnd).
  assert (forall x, x ∈ concat F -> is_cluster x /\ tbl s' x = tbl s x /\ ~ avail s' x) as Hk.
  { intros x Hx. destruct (fl_held _ _ FK x) as [Hc Ha]; [simpl; set_solver|]. split; [done|].
    apply (fo_frame _ _ _ _ O); [done| |done]. intros Hl. by apply (Hdis x). }
  constructor; [apply O| |done|].
  - intros l2 Hl2. destruct (fl_chain _ _ FK l2) as [c Hc]; [set_solver|]. exists c.
    eapply chain_agree; [exact Hc|]. intros x Hx. apply Hk, concat_elem. eauto.
  - intros x Hx. split; by apply Hk.
Qed.

Lemma files_replace s s' c l l' F : files_ok s (l :: F) -> file_op s l s' l' -> chain (tbl s') c l' ->
  files_ok s' (l' :: F).
Proof.
  intros FK O Hl'. pose proof (files_rest _ _ _ _ _ FK O) as [Hwf Hch Hnd Hh].
  pose proof (fl_nodup _ _ FK) as Hnd0. simpl in Hnd0. apply NoDup_app in Hnd0 as (_ & Hdis & _). constructor.
  - done.
  - intros l2 [->|Hl2]%elem_of_cons; [by exists c|auto].
  - simpl. apply NoDup_app. split_and!; [by eapply chain_NoDup| |done]. intros x Hx HF.
    destruct (fo_from _ _ _ _ O x Hx) as [_ [Hl|Ha]]; [by apply (Hdis x)|].
    destruct (fl_held _ _ FK x) as [_ Hna]; [simpl; set_solver|done].
  - simpl. intros x [Hx|Hx]%elem_of_app; [|auto].
    split; [by apply (fo_from _ _ _ _ O)|by apply (fo_held _ _ _ _ O)].
Qed.

(** Nothing in use changes. *)
Lemma files_frame s s' F : files_ok s F -> fs_wf s' ->
  (forall c, is_cluster c -> ~ avail s c -> tbl s' c = tbl s c /\ ~ avail s' c) -> files_ok s' F.
Proof.
  intros FK Hwf Hk. constructor; [done| |apply FK|].
  - intros l Hl. destruct (fl_chain _ _ FK l Hl) as [c Hc]. exists c. eapply chain_agree; [exact Hc|].
    intros x Hx. apply Hk; apply (fl_held _ _ FK); apply concat_elem; eauto.
  - intros x Hx. destruct (fl_held _ _ FK x Hx) as [Hc Ha]. split; [done|]. by apply Hk.
Qed.

Lemma tabled_wf s s' g : fs_wf s -> tabled s s' g -> fs_wf s'.
Proof. intros [Hk Hh Hf] [-> (Hk' & _)]. by constructor. Qed.

Lemma files_tabled s s' F : files_ok s F -> tabled s s' (tbl s) -> files_ok s' F.
Proof.
  intros FK Ht. apply (files_frame s); [done|eapply tabled_wf; [apply FK|done]|]. intros c Hc Ha.
  split; [by apply (tabled_tbl _ _ _ _ Ht)|]. by rewrite (tabled_avail _ _ _ _ Ht).
Qed.

Lemma files_allocated s n out s' F : files_ok s F -> allocated s n out s' ->
  files_ok s' (map (fun c => [c]) out ++ F).
Proof.
  intros FK A. pose proof (al_avail _ _ _ _ A) as Hav. rewrite Forall_forall in Hav.
  assert (files_ok s' F) as [Hwf Hch Hnd Hh].
  { apply (files_frame s); [done|apply A|]. intros c Hc Ha. rewrite (allocated_avail _ _ _ _ _ A).
    rewrite (al_table _ _ _ _ A) by done. unfold upd. split; [|tauto]. rewrite decide_False; [done|].
    intros Hin. auto. }
  assert (concat (map (fun c => [c]) out) = out) as Ec by (clear; induction out; simpl; congruence).
  constructor.
  - done.
  - intros l [Hl|Hl]%elem_of_app; [|auto]. apply list_elem_of_fmap in Hl as (c & -> & Hc). exists c.
    apply chain_end; [by apply Hav|]. rewrite (al_table _ _ _ _ A) by (by apply Hav).
    unfold upd. rewrite decide_True by done. lia.
  - rewrite concat_app, Ec. apply NoDup_app. split_and!; [apply A| |done]. intros x Hx HF.
    apply (fl_held _ _ FK x HF). by apply Hav.
  - rewrite concat_app, Ec. intros x [Hx|Hx]%elem_of_app; [|auto]. split; [by apply Hav|].
    rewrite (allocated_avail _ _ _ _ _ A). tauto.
Qed.

Lemma files_alloc_failed s n s' e F : files_ok s F -> alloc_failed s n s' e -> files_ok s' F.
Proof.
  intros FK Fl. apply (files_frame s); [done|apply Fl|]. intros c Hc Ha.
  destruct (alloc_failed_file_op s n s' e [c]) as [O Heq]; [intros x ->%list_elem_of_singleton; done|done|].
  split; [apply Heq; set_solver|]. apply (fo_held _ _ _ _ O). set_solver.
Qed.

Lemma files_perm s F F' : F ≡ₚ F' -> files_ok s F -> files_ok s F'.
Proof.
  intros Hp FK. assert (concat F ≡ₚ concat F') as Hc.
  { clear FK. induction Hp as [|l F F' _ IH|l l' F|F F1 F2 _ IH1 _ IH2]; simpl.
    - done.
    - by rewrite IH.
    - rewrite !app_assoc. by rewrite (Permutation_app_comm l' l).
    - by rewrite IH1. }
  constructor.
  - apply FK.
  - intros l Hl. apply (fl_chain _ _ FK). by rewrite Hp.
  - rewrite <- Hc. apply FK.
  - intros x Hx. apply (fl_held _ _ FK). by rewrite Hc.
Qed.

(** ** Exact accounting *)

Definition exact s : Prop := synced s /\ free_clus_count s = Z.of_nat (length (avail_list s)).

Lemma synced_list s : synced s -> avail_list s = filter (fun c => tbl s c = FREE_CLUSTER) (seqZ 2 clusters).
Proof.
  intros Hs. apply filter_agree. intros c Hc%elem_of_seqZ. apply Hs. unfold is_cluster. lia.
Qed.

Lemma exact_iff s : exact s <-> synced s /\ free_exact s.
Proof.
  unfold exact, free_exact. split; intros [Hs Hf]; (split; [done|]).
  - by rewrite <- synced_list.
  - by rewrite synced_list.
Qed.

Lemma avail_list_bound s : Z.of_nat (length (avail_list s)) < 2 ^ 32.
Proof.
  pose proof (length_filter (avail s) (seqZ 2 clusters)) as Hl. rewrite length_seqZ in Hl.
  pose proof clusters_fit as Hfit. unfold EOC_MARKER in Hfit. unfold avail_list. lia.
Qed.

Lemma exact_minus s s' out : exact s -> NoDup out -> (forall x, x ∈ out -> avail s x) ->
  (forall x, avail s' x <-> avail s x /\ x ∉ out) ->
  free_clus_count s' = (free_clus_count s - Z.of_nat (length out)) mod 2 ^ 32 ->
  free_clus_count s' = Z.of_nat (length (avail_list s')).
Proof.
  intros [_ Hf] Hnd Hin Ha ->. pose proof (avail_list_minus s s' out Hnd Hin Ha) as Hl.
  pose proof (avail_list_bound s). rewrite Z.mod_small; lia.
Qed.

(** The pool with [p] added. *)
Lemma exact_plus s s' p : exact s -> NoDup p -> (forall x, x ∈ p -> is_cluster x /\ ~ avail s x) ->
  (forall x, avail s' x <-> avail s x \/ x ∈ p) ->
  free_clus_count s' = (free_clus_count s + Z.of_nat (length p)) mod 2 ^ 32 ->
  free_clus_count s' = Z.of_nat (length (avail_list s')).
Proof.
  intros [_ Hf] Hnd Hp Ha ->.
  assert (Z.of_nat (length (avail_list s)) = Z.of_nat (length (avail_list s')) - Z.of_nat (length p)) as Hl.
  { apply avail_list_minus; [done|intros x Hx; apply Ha; by right|]. intros x. rewrite Ha.
    split; [|tauto]. intros Hx. split; [by left|]. intros Hin. by apply (Hp x). }
  pose proof (avail_list_bound s'). rewrite Z.mod_small; lia.
Qed.

Lemma exact_tabled s s' : exact s -> tabled s s' (tbl s) -> exact s'.
Proof.
  intros [Hs Hf] Ht. assert (forall c, avail s' c <-> avail s c) as Ha.
  { intros c. by rewrite (tabled_avail _ _ _ _ Ht). }
  split.
  - intros c Hc. rewrite Ha, (tabled_tbl _ _ _ _ Ht) by done. by apply Hs.
  - rewrite (avail_list_agree s s') by auto. by destruct Ht as [-> _].
Qed.

Lemma exact_allocated s n out s' : exact s -> allocated s n out s' -> exact s'.
Proof.
  intros X A. pose proof (al_avail _ _ _ _ A) as Hav. rewrite Forall_forall in Hav. split.
  - intros c Hc. rewrite (allocated_avail _ _ _ _ _ A), (proj1 X c Hc), (al_table _ _ _ _ A) by done.
    unfold upd, EOC_MARKER, FREE_CLUSTER. case_decide; (split; [intros []|intros ?]); try tauto; lia.
  - apply (exact_minus s s' out); [done|apply A|done|intros x; apply (allocated_avail _ _ _ _ _ A)|].
    rewrite (al_free _ _ _ _ A). by rewrite (al_length _ _ _ _ A).
Qed.

Lemma exact_freed s p s' : exact s -> NoDup p -> held s p -> freed s p s' -> exact s'.
Proof.
  intros X Hnd Hh F. assert (Forall is_cluster p) as Hp by (apply Forall_forall; intros x Hx; by apply Hh).
  assert (forall x, avail s' x <-> avail s x \/ x ∈ p) as Ha.
  { intros x. rewrite (freed_avail _ _ _ _ F) by done. split; [tauto|].
    intros [Hx|Hx]; (split; [|tauto]); [apply Hx|by apply Hh]. }
  split.
  - intros c Hc. rewrite Ha, (proj1 X c Hc), (fr_table _ _ _ F) by done. unfold upd. case_decide; tauto.
  - apply (exact_plus s s' p); [done|done|done|done|]. apply F.
Qed.

Lemma exact_truncated s c l keep s' : exact s -> held s l -> chain (tbl s) c l ->
  truncated s c l keep s' -> exact s'.
Proof.
  intros X Hh Hl T. pose proof (chain_NoDup _ _ _ Hl) as Hnd. rewrite <- (take_drop keep l) in Hnd.
  apply NoDup_app in Hnd as (_ & Hdis & Hnd). split.
  - intros x Hx. rewrite (tr_avail _ _ _ _ _ T), (proj1 X x Hx). destruct (decide (x ∈ take keep l)) as [Hin|Hn].
    + assert (tbl s' x <> 0) by (eapply chain_nonzero; [apply T|done]).
      assert (tbl s x <> 0).
      { eapply chain_nonzero; [exact Hl|]. rewrite <- (take_drop keep l). set_solver. }
      unfold FREE_CLUSTER. split; [|tauto]. intros [?|Hd]; [tauto|]. by destruct (Hdis x Hin).
    + rewrite (tr_table _ _ _ _ _ T) by done. unfold upd. case_decide; tauto.
  - apply (exact_plus s s' (drop keep l)); [done|done| |apply T|apply T].
    intros x Hx. apply Hh. rewrite <- (take_drop keep l). set_solver.
Qed.

Lemma exact_extended s c l new s' : exact s -> held s l -> chain (tbl s) c l -> live s ->
  extended s c l new s' -> exact s'.
Proof.
  intros X Hh Hl Hlv E. pose proof (chain_NoDup _ _ _ (ex_chain _ _ _ _ _ E)) as Hnd.
  apply NoDup_app in Hnd as (_ & Hdis & Hnd). split.
  - intros x Hx. rewrite (ex_avail _ _ _ _ _ E), (proj1 X x Hx) by done.
    destruct (decide (x ∈ l ++ new)) as [Hin|Hn].
    + assert (tbl s' x <> 0) by (eapply chain_nonzero; [apply E|done]).
      unfold FREE_CLUSTER. apply elem_of_app in Hin as [Hin|Hin]; [|tauto].
      pose proof (chain_nonzero _ _ _ _ Hl Hin). tauto.
    + rewrite (ex_table _ _ _ _ _ E) by done. set_solver.
  - apply (exact_minus s s' new); [done|done| |intros x; by apply (ex_avail _ _ _ _ _ E)|by apply E].
    intros x Hx. destruct (fo_from _ _ _ _ (ex_op _ _ _ _ _ E) x) as [_ [Hin|Ha]]; [set_solver| |done].
    by destruct (Hdis x Hin).
Qed.
End Files.
