(* ===== verification/FatAllocSpec.v ===== *)
(** * What the FAT32 allocator promises

    The theorems about allocation, chains and mounting on the cached FAT, with a
    sample volume.  They hold on every device; those that say more of a device
    that serves all requests assume [live]. *)

From S2P Require Import Prelude Bits Errors BlockDev Fat32 Fat32Facts Fat32Spec.
From S2P Require Import FatAlloc FatAllocFacts FatChain FatVolumeFacts FatFiles.
Import Errors.Vfs.
Local Open Scope Z_scope.

(** ** A sample volume

    Two reserved sectors, the second FSInfo; two FATs of one sector; twelve
    one-sector clusters.  The chain of cluster 2 is 2, 3, that of 4 is 4. *)
Module AllocVolume.
Import FatVolume.

Definition geometry : Bpb :=
  {| bytes_per_sec := 512; sec_per_clus := 1; rsvd_sec_cnt := 2; num_fats := 2; fat_sz32 := 1;
     root_clus := 2; fsinfo_sec := 1; byts_per_clus := 512; first_data_sec := 4;
     total_clus := 12; ext_flags := 0 |}.

Definition fat_bytes : list Z :=
  flat_map (le_bytes 4) [268435448; 268435455; 3; 268435448; 268435448].

Definition bytes : list Z :=
  Eval vm_compute in
  patch 11 [0; 2; 1; 2; 0; 2] (patch 32 (le_bytes 4 16) (patch 36 [1] (patch 44 [2] (patch 48 [1]
    (patch 510 [85; 170] (patch 1024 fat_bytes (patch 1536 fat_bytes (replicate 8192 0)))))))).

Lemma alloc_bytes_in_range : bytes_ok bytes.
Proof. apply (bool_decide_eq_true_1 _). vm_compute. reflexivity. Qed.

Definition disk : MemDisk := {| image := bytes; image_ok := alloc_bytes_in_range |}.

Lemma alloc_geometry_ok : volume_ok geometry.
Proof.
  constructor; try (simpl; unfold EOC_MARKER; lia); [|vm_compute; reflexivity].
  constructor; simpl; lia.
Qed.

Definition super : Fs (MemDisk * FatCache) :=
  (mount_super geometry (fresh_super geometry disk)).1.
End AllocVolume.
Import AllocVolume.

(** ** The files of a volume over time *)

Section Steps.
Context `{Profile} `{ReliableDevice D} (b : Bpb).

#[local] Hint Extern 0 (FatOps (D * FatCache)) => exact (volume b) : typeclass_instances.
#[local] Hint Extern 0 (FatView (D * FatCache)) => exact (cached_view b) : typeclass_instances.

(** [c] heads the chain [l] in the table of [s]. *)
Definition heads (s : Fs (D * FatCache)) (c : Z) (l : list Z) : Prop := chain (S := D * FatCache) (tbl s) c l.

(** The superblock beside the clusters its files hold.  Each operation runs with
    whatever result the device gives it.  A freed file is gone whether or not the
    operation completed; a file that was cut or extended is the chain its first
    cluster then heads. *)
Inductive fs_step : Fs (D * FatCache) * list (list Z) -> Fs (D * FatCache) * list (list Z) -> Prop :=
| step_alloc s F count s' out :
    0 <= count -> alloc_clusters count s = (s', Ok out) ->
    fs_step (s, F) (s', map (fun c => [c]) out ++ F)
| step_alloc_err s F count s' e :
    0 <= count -> alloc_clusters count s = (s', Err e) -> fs_step (s, F) (s', F)
| step_free s F l c s' r :
    head l = Some c -> free_chain c s = (s', r) -> fs_step (s, l :: F) (s', F)
| step_truncate s F l c keep s' r l' :
    head l = Some c -> 1 <= keep -> truncate_chain c keep s = (s', r) -> heads s' c l' ->
    fs_step (s, l :: F) (s', l' :: F)
| step_extend s F l c n s' r l' :
    head l = Some c -> 0 <= n -> extend_chain c n s = (s', r) -> heads s' c l' ->
    fs_step (s, l :: F) (s', l' :: F)
| step_chain_len s F c s' r :
    2 <= c < EOC_MARKER -> chain_len c s = (s', r) -> fs_step (s, F) (s', F)
| step_flush (s : Fs (D * FatCache)) F (s' : Fs (D * FatCache)) r :
    lift flush s = (s', r) -> fs_step (s, F) (s', F)
| step_order s F F' :
    F ≡ₚ F' -> fs_step (s, F) (s, F').

Context (Hv : volume_ok b).
#[local] Hint Extern 0 (FatLaws (D * FatCache)) => exact (cached_laws b Hv) : typeclass_instances.
#[local] Hint Extern 0 (FatZero (D * FatCache)) => exact (cached_zero b Hv) : typeclass_instances.

Lemma head_chain (s : Fs (D * FatCache)) F l c : files_ok s (l :: F) -> head l = Some c -> heads s c l.
Proof.
  intros FK Hh. destruct (fl_chain _ _ FK l) as [c' Hc]; [set_solver|].
  destruct (chain_cons _ _ _ Hc) as [r ->]. by injection Hh as ->.
Qed.

Lemma fs_step_files p p' : fs_step p p' -> files_ok p.1 p.2 -> files_ok p'.1 p'.2.
Proof.
  intros Hst. destruct Hst as [s F n s' out Hn E|s F n s' e Hn E|s F l c s' r Hh E
    |s F l c keep s' r l' Hh Hk E Hl'|s F l c n s' r l' Hh Hn E Hl'|s F c s' r Hc E|s F s' r E|s F F' Hp];
    cbn [fst snd]; intros FK.
  - pose proof (alloc_clusters_wp s n (fl_wf _ _ FK) Hn) as W. unfold wp in W. rewrite E in W. by eapply files_allocated.
  - pose proof (alloc_clusters_wp s n (fl_wf _ _ FK) Hn) as W. unfold wp in W. rewrite E in W. by eapply files_alloc_failed.
  - pose proof (head_chain _ _ _ _ FK Hh) as Hl. pose proof (file_held _ _ _ FK) as Hheld.
    pose proof (free_chain_wp s c l (fl_wf _ _ FK) Hl) as W. unfold wp in W. rewrite E in W.
    assert (exists q, freed s q s' /\ q ⊆ l) as (q & Fr & Hq).
    { destruct r as [u|e|]; [by exists l| |done]. destruct W as (_ & q & r & -> & Fr). exists q. split; [done|set_solver]. }
    apply (files_rest s s' l []); [done|]. by apply (freed_file_op s s' q); [..|set_solver|set_solver].
  - pose proof (head_chain _ _ _ _ FK Hh) as Hl. pose proof (file_held _ _ _ FK) as Hheld.
    pose proof (truncate_chain_wp s c l keep (fl_wf _ _ FK) Hl Hheld Hk) as W. unfold wp in W. rewrite E in W.
    assert (exists l2, file_op s l s' l2 /\ heads s' c l2) as (l2 & O & Hl2).
    { destruct r as [u|e|]; [|destruct W as (_ & l2 & _ & O & Hl2); eauto|done]. destruct W; eauto. }
    assert (l' = l2) as -> by (by eapply chain_det). by eapply files_replace.
  - pose proof (head_chain _ _ _ _ FK Hh) as Hl. pose proof (file_held _ _ _ FK) as Hheld.
    pose proof (extend_chain_wp s c l n (fl_wf _ _ FK) Hl Hheld Hn) as W. unfold wp in W. rewrite E in W.
    assert (exists new, extended s c l new s') as (new & X).
    { destruct r as [u|e|]; [destruct W as (new & _ & X); eauto|by destruct W as [X _]|done]. }
    assert (l' = l ++ new) as -> by (eapply chain_det; [done|apply X]).
    eapply files_replace; [done|apply X|done].
  - pose proof (chain_len_wp s c (wf_fat _ (fl_wf _ _ FK)) Hc) as W. unfold wp in W. rewrite E in W.
    apply (files_tabled s); [done|]. destruct r as [u|e|]; [apply W|apply W|done].
  - pose proof (flush_wp b Hv s (wf_fat _ (fl_wf _ _ FK))) as W. unfold wp in W. rewrite E in W.
    apply (files_tabled s); [done|]. destruct r as [u|e|]; [apply W|apply W|done].
  - by eapply files_perm.
Qed.

Lemma fs_step_exact p p' : fs_step p p' -> files_ok p.1 p.2 -> live p.1 -> exact p.1 -> live p'.1 /\ exact p'.1.
Proof.
  intros Hst. destruct Hst as [s F n s' out Hn E|s F n s' e Hn E|s F l c s' r Hh E
    |s F l c keep s' r l' Hh Hk E Hl'|s F l c n s' r l' Hh Hn E Hl'|s F c s' r Hc E|s F s' r E|s F F' Hp];
    cbn [fst snd]; intros FK Hlv X.
  - pose proof (alloc_clusters_wp s n (fl_wf _ _ FK) Hn) as W. unfold wp in W. rewrite E in W.
    split; [by apply W|by eapply exact_allocated].
  - pose proof (alloc_clusters_wp s n (fl_wf _ _ FK) Hn) as W. unfold wp in W. rewrite E in W.
    destruct (af_live _ _ _ _ W Hlv) as (_ & Hlv' & _ & Ht). split; [done|]. apply (exact_tabled s); [done|].
    split; [apply W|]. split_and!; [apply W|done|done].
  - pose proof (head_chain _ _ _ _ FK Hh) as Hl. pose proof (file_held _ _ _ FK) as Hheld.
    pose proof (free_chain_wp s c l (fl_wf _ _ FK) Hl) as W. unfold wp in W. rewrite E in W.
    destruct r as [u|e|]; [|by destruct W as [? _]|done].
    split; [by apply W|]. eapply exact_freed; [done|by eapply chain_NoDup|done|done].
  - pose proof (head_chain _ _ _ _ FK Hh) as Hl. pose proof (file_held _ _ _ FK) as Hheld.
    pose proof (truncate_chain_wp s c l keep (fl_wf _ _ FK) Hl Hheld Hk) as W. unfold wp in W. rewrite E in W.
    destruct r as [u|e|]; [|by destruct W as [? _]|done]. split; [by apply W|by eapply exact_truncated].
  - pose proof (head_chain _ _ _ _ FK Hh) as Hl. pose proof (file_held _ _ _ FK) as Hheld.
    pose proof (extend_chain_wp s c l n (fl_wf _ _ FK) Hl Hheld Hn) as W. unfold wp in W. rewrite E in W.
    assert (exists new, extended s c l new s') as (new & Xt).
    { destruct r as [u|e|]; [destruct W as (new & _ & Xt); eauto|by destruct W as [Xt _]|done]. }
    split; [by apply Xt|by eapply exact_extended].
  - pose proof (chain_len_wp s c (wf_fat _ (fl_wf _ _ FK)) Hc) as W. unfold wp in W. rewrite E in W.
    assert (tabled s s' (tbl s)) as Ht by (destruct r as [u|e|]; [apply W|apply W|done]).
    split; [by apply (tabled_live _ _ _ Ht)|by apply (exact_tabled s)].
  - pose proof (flush_wp b Hv s (wf_fat _ (fl_wf _ _ FK))) as W. unfold wp in W. rewrite E in W.
    assert (tabled s s' (tbl s)) as Ht by (destruct r as [u|e|]; [apply W|apply W|done]).
    split; [by apply (tabled_live _ _ _ Ht)|by apply (exact_tabled s)].
  - done.
Qed.

Lemma mounted_files dev s0 F0 : mounted_ok b dev s0 -> (forall l, l ∈ F0 -> exists c, heads s0 c l) ->
  NoDup (concat F0) -> files_ok s0 F0.
Proof.
  intros M Hch Hnd. constructor; [apply M|done|done|]. intros x (l & Hl & Hx)%concat_elem.
  destruct (Hch l Hl) as [c Hc]. pose proof (chain_clusters _ _ _ Hc) as Hcl. rewrite Forall_forall in Hcl.
  split; [by apply Hcl|]. intros Ha. apply (mo_synced _ _ _ M) in Ha; [|by apply Hcl].
  by apply (chain_nonzero _ _ _ _ Hc Hx).
Qed.

Lemma fs_steps_files p p' : rtc fs_step p p' -> files_ok p.1 p.2 -> files_ok p'.1 p'.2.
Proof. induction 1 as [|p1 p2 p3 Hst _ IH]; [done|]. intros Hp. by apply IH, (fs_step_files p1). Qed.

Lemma fs_steps_exact p p' : rtc fs_step p p' -> files_ok p.1 p.2 -> live p.1 -> exact p.1 -> exact p'.1.
Proof.
  induction 1 as [|p1 p2 p3 Hst _ IH]; [done|]. intros Hp Hl Hx.
  destruct (fs_step_exact p1 p2 Hst Hp Hl Hx). apply IH; [|done|done]. by apply (fs_step_files p1).
Qed.
End Steps.

(** ** The promises *)

Section Promises.
Context `{Profile} `{ReliableDevice D} (b : Bpb) (Hv : volume_ok b).

#[local] Hint Extern 0 (FatOps (D * FatCache)) => exact (volume b) : typeclass_instances.
#[local] Hint Extern 0 (FatView (D * FatCache)) => exact (cached_view b) : typeclass_instances.
#[local] Hint Extern 0 (FatLaws (D * FatCache)) => exact (cached_laws b Hv) : typeclass_instances.
#[local] Hint Extern 0 (FatZero (D * FatCache)) => exact (cached_zero b Hv) : typeclass_instances.
Implicit Types s : Fs (D * FatCache).

(** C14: [alloc_clusters] does not panic; the clusters it returns are [count]
    different clusters that were available, their entries are end markers and
    no other entry changed, and exactly they are no longer available.  On a
    device that serves all requests it succeeds whenever [count] clusters are
    available. *)
Theorem alloc_clusters_correct s count : fs_wf s -> 0 <= count ->
  no_panic (alloc_clusters count s).2
  /\ (forall s' out, alloc_clusters count s = (s', Ok out) ->
      Z.of_nat (length out) = count /\ NoDup out /\ Forall (avail s) out /\ fs_wf s'
      /\ (forall c, 2 <= c < 2 + total_clus b ->
          tbl s' c = if decide (c ∈ out) then EOC_MARKER else tbl s c)
      /\ (forall c, avail s' c <-> avail s c /\ c ∉ out))
  /\ (live s -> count <= Z.of_nat (length (avail_list s)) ->
      exists s' out, alloc_clusters count s = (s', Ok out)).
Proof.
  intros Hwf Hc. pose proof (alloc_clusters_wp s count Hwf Hc) as W. unfold wp in W.
  destruct (alloc_clusters count s) as [s1 [out|e|]]; [| |done]; (split; [done|]).
  - split; [|eauto]. intros s' out' [= <- <-]. split_and!; try apply W.
    intros c. by apply (allocated_avail _ _ _ _ _ W).
  - split; [done|]. intros Hlv Hn. destruct (af_live _ _ _ _ W Hlv) as (_ & _ & Hlt & _). lia.
Qed.

(** C37: a failed allocation is rolled back: the bitmap, the hint, the free count
    and the chain cache are as before, and so is the entry of every cluster in
    use, whatever the device did.  On a device that serves all requests the
    error is [NoSpace], fewer than [count] clusters are available, and the whole
    table is as before. *)
Theorem alloc_error_rolls_back s count s' e : fs_wf s -> 0 <= count ->
  alloc_clusters count s = (s', Err e) ->
  alloc_bitmap s' = alloc_bitmap s /\ next_alloc_hint s' = next_alloc_hint s
  /\ free_clus_count s' = free_clus_count s /\ chain_cache s' = chain_cache s /\ fs_wf s'
  /\ (forall c, 2 <= c < 2 + total_clus b -> ~ avail s c -> tbl s' c = tbl s c)
  /\ (live s -> e = NoSpace /\ Z.of_nat (length (avail_list s)) < count
      /\ forall c, 2 <= c < 2 + total_clus b -> tbl s' c = tbl s c).
Proof.
  intros Hwf Hc E. pose proof (alloc_clusters_wp s count Hwf Hc) as W. unfold wp in W. rewrite E in W.
  pose proof (af_rest _ _ _ _ W) as R.
  split_and!; try (by rewrite R); [apply W|apply W|]. intros Hlv.
  by destruct (af_live _ _ _ _ W Hlv) as (? & _ & ? & ?).
Qed.

(** [chain_len] ends on every table, cyclic and broken ones included, and
    leaves it alone.  A length it returns is the length of the chain from
    [start]; on a device that serves all requests it fails only where [start]
    heads no chain. *)
Theorem chain_len_exact s start : fs_wf s -> 2 <= start < EOC_MARKER ->
  match chain_len start s with
  | (s', Ok n) => (exists l, heads b s start l /\ n = Z.of_nat (length l))
                  /\ forall c, 2 <= c < 2 + total_clus b -> tbl s' c = tbl s c
  | (s', Err _) => (live s -> forall l, ~ heads b s start l)
                  /\ forall c, 2 <= c < 2 + total_clus b -> tbl s' c = tbl s c
  | (_, Panic) => False
  end.
Proof.
  intros [Hk _ _] Hs. pose proof (chain_len_wp s start Hk Hs) as W. unfold wp in W.
  destruct (chain_len start s) as [s' [n|e|]]; [| |done]; destruct W as [Ht W].
  - split; [done|]. intros c Hc. by apply (tabled_tbl _ _ _ _ Ht).
  - split; [|intros c Hc; by apply (tabled_tbl _ _ _ _ Ht)]. intros Hlv. by destruct W.
Qed.

(** Extending a file by [n] clusters and cutting it back to its length
    succeed on a device that serves all requests with [n] clusters available,
    and restore the file, the set of available clusters and the free count. *)
Theorem extend_truncate_roundtrip s c l n : fs_wf s -> heads b s c l -> held s l -> live s ->
  0 <= n <= Z.of_nat (length (avail_list s)) ->
  exists s1 s2 new, extend_chain c n s = (s1, Ok tt) /\ heads b s1 c (l ++ new)
  /\ Z.of_nat (length new) = n /\ truncate_chain c (Z.of_nat (length l)) s1 = (s2, Ok tt)
  /\ heads b s2 c l /\ (forall x, avail s2 x <-> avail s x) /\ free_clus_count s2 = free_clus_count s.
Proof.
  intros Hwf Hl Hh Hlv Hn. pose proof (extend_chain_wp s c l n Hwf Hl Hh ltac:(lia)) as W. unfold wp in W.
  destruct (extend_chain c n s) as [s1 [[]|e|]]; [|destruct W as [_ W]; specialize (W Hlv); lia|done].
  destruct W as (new & Hlen & X). pose proof (ex_chain _ _ _ _ _ X) as Hl1. pose proof (ex_op _ _ _ _ _ X) as O1.
  assert (held s1 (l ++ new)) as Hh1.
  { intros x Hx. split; [by apply (fo_from _ _ _ _ O1)|by apply (fo_held _ _ _ _ O1)]. }
  assert (1 <= Z.of_nat (length l)) as Hpos by (destruct (chain_cons _ _ _ Hl) as [r ->]; simpl; lia).
  pose proof (truncate_chain_wp s1 c (l ++ new) _ (fo_wf _ _ _ _ O1) Hl1 Hh1 Hpos) as W. unfold wp in W.
  destruct (truncate_chain c (Z.of_nat (length l)) s1) as [s2 [[]|e|]] eqn:E2; [| |done].
  2: { destruct W as [Hnl _]. by destruct Hnl; apply X. }
  rewrite Nat2Z.id in W. exists s1, s2, new. pose proof (tr_chain _ _ _ _ _ W) as Hl2.
  pose proof (tr_avail _ _ _ _ _ W) as Ha. pose proof (tr_count _ _ _ _ _ W) as Hc.
  rewrite take_app_length in Hl2. rewrite drop_app_length in Ha, Hc.
  pose proof (chain_NoDup _ _ _ Hl1) as Hnd. apply NoDup_app in Hnd as (_ & Hdis & _).
  split_and!; [done|done|done|done|done| |].
  - intros x. rewrite Ha, (ex_avail _ _ _ _ _ X) by done. split; [|destruct (decide (x ∈ new)); tauto].
    intros [[? _]|Hx]; [done|]. destruct (fo_from _ _ _ _ O1 x) as [_ [Hin|?]]; [set_solver| |done].
    by destruct (Hdis x Hin).
  - rewrite Hc, (ex_free _ _ _ _ _ X) by done. rewrite Zplus_mod_idemp_l.
    replace (_ - _ + _) with (free_clus_count s) by lia. apply Z.mod_small, Hwf.
Qed.

(** Mounting a volume, on a device that may fail, either reports an error or
    leaves a superblock whose allocation bitmap agrees with the FAT on the
    device entry by entry and whose free count is the number of free entries;
    the FAT itself is untouched; on a device that serves all requests it
    succeeds. *)
Theorem mount_scan_exact (dev : D) :
  no_panic (mount_super b (fresh_super b dev)).2
  /\ (forall s, mount_super b (fresh_super b dev) = (s, Ok tt) ->
      fs_wf s
      /\ (forall c, 2 <= c < 2 + total_clus b -> tbl s c = disk_table b dev c
          /\ (avail s c <-> disk_table b dev c = FREE_CLUSTER))
      /\ free_clus_count s
         = Z.of_nat (length (filter (fun c => disk_table b dev c = FREE_CLUSTER) (seqZ 2 (total_clus b)))))
  /\ (healthy dev -> volume_end b <= sector_count dev ->
      exists s, mount_super b (fresh_super b dev) = (s, Ok tt)).
Proof.
  pose proof (mount_super_wp b Hv dev) as W. unfold wp in W.
  destruct (mount_super b (fresh_super b dev)) as [s1 [[]|e|]]; [| |done]; (split; [done|]).
  - split; [|eauto]. intros s' [= <-]. destruct W as [M _]. split_and!; [apply M| |].
    + intros c Hc. split; [by apply M|]. rewrite <- (mo_table _ _ _ M c Hc). by apply M.
    + rewrite (mo_free _ _ _ M). do 2 f_equal. apply filter_agree. intros c Hc%elem_of_seqZ.
      rewrite (mo_table _ _ _ M c); [done|]. unfold valid. lia.
  - split; [done|]. intros Hh Hs. by destruct W.
Qed.

(** C33: on a device that serves its requests, a volume that is marked dirty, as a
    mounted one is, and then shut down without error mounts again to the same table.
    The free count is then the number of free entries of the table, which is the count
    it had if that was exact.  The allocation hint is the one it had, if the volume has
    FSInfo and the hint is the number of a cluster; a hint past the last cluster, and
    the hint of a volume without FSInfo, become 2.  An FSInfo sector lies before the
    FAT in use. *)
Theorem shutdown_mount_roundtrip s s1 : fs_wf s -> volume_dirty s = true -> fsinfo_reserved b ->
  live s -> shutdown b s = (s1, Ok tt) ->
  exists s2, mount_super b (fresh_super b (fat s1).1) = (s2, Ok tt)
  /\ (forall c, 2 <= c < 2 + total_clus b -> tbl s2 c = tbl s c)
  /\ next_alloc_hint s2 = (if fsinfo_is_valid b && (next_alloc_hint s <? 2 + total_clus b) then next_alloc_hint s else 2)
  /\ free_clus_count s2 = Z.of_nat (length (filter (fun c => tbl s c = FREE_CLUSTER) (seqZ 2 (total_clus b))))
  /\ (free_exact s -> free_clus_count s2 = free_clus_count s).
Proof.
  intros [Hk Hh Hf] Hd Hfs Hlv E. pose proof (shutdown_wp b Hv s Hk Hd Hfs) as W. unfold wp in W. rewrite E in W.
  pose proof (sd_live _ _ _ W Hlv) as [Hh1 Hs1]. pose proof (mount_super_wp b Hv (fat s1).1) as M. unfold wp in M.
  destruct (mount_super b (fresh_super b (fat s1).1)) as [s2 [[]|e|]]; [|by destruct M|done].
  destruct M as [M Hl2]. specialize (Hl2 (conj Hh1 Hs1)) as [Hh2 Hs2].
  assert (forall c, 2 <= c < 2 + total_clus b -> tbl s2 c = tbl s c) as Ht.
  { intros c Hc. rewrite (mo_table _ _ _ M c Hc). by apply (sd_table _ _ _ W). }
  assert (free_clus_count s2 = Z.of_nat (length (filter (fun c => tbl s c = FREE_CLUSTER) (seqZ 2 (total_clus b))))) as Hfree.
  { rewrite (mo_free _ _ _ M). do 2 f_equal. apply filter_agree. intros c Hc%elem_of_seqZ.
    rewrite Ht; [done|]. cbn [clusters volume] in Hc. lia. }
  exists s2. split_and!; [done|done| |done|].
  - rewrite (mo_hint _ _ _ M). destruct (fsinfo_is_valid b) eqn:Hvld; cbn [andb]; [|by unfold fsinfo_hint; rewrite Hvld].
    specialize (Hfs Hvld). rewrite (fsinfo_hint_image b Hv (fat s2).1 (free_clus_count s) (next_alloc_hint s)); try done; [by case_match|].
    rewrite (mo_sectors _ _ _ M) by lia. by apply (sd_fsinfo _ _ _ W).
  - intros Hx. by rewrite Hfree, Hx.
Qed.

(** C4: no two files ever share a cluster.  From a mounted volume whose files
    are chains without a common cluster, over every sequence of allocations,
    frees, truncations, extensions, walks and flushes, with whatever errors the
    device gives them, the files are chains of the table that share no cluster,
    and no cluster of a file is available for allocation. *)
Theorem files_never_share (dev : D) s0 F0 s F : mount_super b (fresh_super b dev) = (s0, Ok tt) ->
  (forall l, l ∈ F0 -> exists c, heads b s0 c l) -> NoDup (concat F0) ->
  rtc (fs_step b) (s0, F0) (s, F) ->
  (forall l, l ∈ F -> exists c, heads b s c l) /\ NoDup (concat F)
  /\ forall x, x ∈ concat F -> ~ avail s x.
Proof.
  intros E Hch Hnd Hr. pose proof (mount_super_wp b Hv dev) as W. unfold wp in W. rewrite E in W. destruct W as [M _].
  pose proof (mounted_files b dev s0 F0 M Hch Hnd) as FK.
  destruct (fs_steps_files b Hv _ _ Hr FK) as [_ Hch' Hnd' Hh']. split_and!; [done|done|]. intros x Hx. by apply Hh'.
Qed.

(** C23: on a device that serves all requests the accounting is exact: over every
    sequence of operations since the mount, the free count that [statfs]
    reports is the number of free entries of the table, and a cluster is
    available for allocation exactly when its entry is free. *)
Theorem free_count_exact (dev : D) s0 F0 s F : healthy dev -> volume_end b <= sector_count dev ->
  mount_super b (fresh_super b dev) = (s0, Ok tt) ->
  (forall l, l ∈ F0 -> exists c, heads b s0 c l) -> NoDup (concat F0) ->
  rtc (fs_step b) (s0, F0) (s, F) ->
  statfs s = (byts_per_clus b, total_clus b,
              Z.of_nat (length (filter (fun c => tbl s c = FREE_CLUSTER) (seqZ 2 (total_clus b)))))
  /\ forall c, 2 <= c < 2 + total_clus b -> avail s c <-> tbl s c = FREE_CLUSTER.
Proof.
  intros Hh Hs E Hch Hnd Hr. pose proof (mount_super_wp b Hv dev) as W. unfold wp in W. rewrite E in W.
  destruct W as [M Hlv]. specialize (Hlv (conj Hh Hs)).
  pose proof (mounted_files b dev s0 F0 M Hch Hnd) as FK.
  assert (exact s0) as X by (apply exact_iff; split; apply M).
  pose proof (fs_steps_exact b Hv _ _ Hr FK Hlv X) as X'. apply exact_iff in X' as [Hs' Hf']. split.
  - unfold statfs. cbn [cluster_bytes clusters volume]. simpl in Hf'. by rewrite Hf'.
  - intros c Hc. by apply Hs'.
Qed.
End Promises.

(** ** The sample volume in use *)

Section Sample.
#[local] Hint Extern 0 (FatOps (MemDisk * FatCache)) => exact (volume (H := true) geometry) : typeclass_instances.
#[local] Hint Extern 0 (FatView (MemDisk * FatCache)) => exact (cached_view geometry) : typeclass_instances.

Lemma super_mounted : mount_super geometry (fresh_super geometry disk) = (super, Ok tt).
Proof.
  assert ((mount_super geometry (fresh_super geometry disk)).2 = Ok tt) as E by (vm_compute; reflexivity).
  unfold super. destruct (mount_super geometry (fresh_super geometry disk)) as [s r]. simpl in *. by rewrite E.
Qed.

Lemma disk_healthy : healthy disk /\ volume_end geometry <= sector_count disk.
Proof. split; vm_compute; congruence. Qed.

Lemma super_ok : mounted_ok (H := true) geometry disk super /\ live super.
Proof.
  pose proof (mount_super_wp (H := true) geometry alloc_geometry_ok disk) as W. unfold wp in W.
  rewrite super_mounted in W. destruct W as [M Hl]. split; [exact M|]. apply Hl, disk_healthy.
Qed.

Lemma super_wf : fs_wf super.
Proof. apply super_ok. Qed.

Lemma super_chains : heads (H := true) geometry super 2 [2; 3] /\ heads (H := true) geometry super 4 [4].
Proof.
  split.
  - apply chain_link; [simpl; unfold is_cluster; simpl; lia|vm_compute; reflexivity|].
    assert (tbl super 2 = 3) as -> by (vm_compute; reflexivity).
    apply chain_end; [unfold is_cluster; simpl; lia|]. vm_compute. congruence.
  - apply chain_end; [unfold is_cluster; simpl; lia|]. vm_compute. congruence.
Qed.

Lemma super_free : length (avail_list super) = 9%nat.
Proof. vm_compute. reflexivity. Qed.

Lemma alloc_clusters_correct_witness : exists s out,
  alloc_clusters (H := true) 3 super = (s, Ok out) /\ NoDup out /\ Forall (avail super) out.
Proof.
  pose proof (alloc_clusters_correct (H := true) geometry alloc_geometry_ok super 3 super_wf ltac:(lia)) as (_ & Hok & Hlive).
  destruct (Hlive (proj2 super_ok)) as (s & out & E); [rewrite super_free; lia|].
  exists s, out. destruct (Hok s out E) as (_ & Hnd & Hav & _). exact (conj E (conj Hnd Hav)).
Defined.

Lemma alloc_error_rolls_back_witness : exists s, alloc_clusters (H := true) 10 super = (s, Err NoSpace)
  /\ alloc_bitmap s = Some 7 /\ free_clus_count s = 9.
Proof.
  assert (exists s, alloc_clusters (H := true) 10 super = (s, Err NoSpace)) as [s E].
  { eexists. rewrite (surjective_pairing (alloc_clusters 10 super)). apply (f_equal2 pair); [reflexivity|].
    vm_compute. reflexivity. }
  destruct (alloc_error_rolls_back (H := true) geometry alloc_geometry_ok super 10 s NoSpace super_wf ltac:(lia) E)
    as (Hbm & _ & Hf & _). exists s. split; [exact E|]. rewrite Hbm, Hf. split; vm_compute; reflexivity.
Defined.

Lemma chain_len_exact_witness : exists s, chain_len 2 super = (s, Ok 2)
  /\ exists l, heads (H := true) geometry super 2 l /\ 2 = Z.of_nat (length l).
Proof.
  assert (exists s, chain_len 2 super = (s, Ok 2)) as [s E].
  { eexists. rewrite (surjective_pairing (chain_len 2 super)). apply (f_equal2 pair); [reflexivity|].
    vm_compute. reflexivity. }
  pose proof (chain_len_exact (H := true) geometry alloc_geometry_ok super 2 super_wf ltac:(unfold EOC_MARKER; lia)) as W.
  rewrite E in W. exists s. split; [exact E|]. exact (proj1 W).
Defined.

Lemma super_held l : l = [2; 3] \/ l = [4] -> held super l.
Proof.
  intros Hl x Hx. assert (2 <= x <= 4) as Hr by (destruct Hl as [->| ->]; set_unfold; lia).
  assert (x = 2 \/ x = 3 \/ x = 4) as [->|[->| ->]] by lia;
    (split; [unfold is_cluster; simpl; lia|]); intros [_ Hb]; vm_compute in Hb; discriminate Hb.
Qed.

Lemma extend_truncate_roundtrip_witness : exists s1 s2 new,
  extend_chain (H := true) 2 4 super = (s1, Ok tt) /\ heads (H := true) geometry s1 2 ([2; 3] ++ new)
  /\ truncate_chain 2 2 s1 = (s2, Ok tt) /\ heads (H := true) geometry s2 2 [2; 3].
Proof.
  destruct (extend_truncate_roundtrip (H := true) geometry alloc_geometry_ok super 2 [2; 3] 4)
    as (s1 & s2 & new & E1 & H1 & _ & E2 & H2 & _).
  - exact super_wf.
  - exact (proj1 super_chains).
  - apply super_held. by left.
  - exact (proj2 super_ok).
  - rewrite super_free. lia.
  - exists s1, s2, new. split; [exact E1|]. split; [exact H1|]. split; [exact E2|exact H2].
Defined.

Lemma mount_scan_exact_witness : exists s : Fs (MemDisk * FatCache), mount_super geometry (fresh_super geometry disk) = (s, Ok tt)
  /\ (avail s 5 <-> disk_table geometry disk 5 = FREE_CLUSTER).
Proof.
  pose proof (mount_scan_exact (H := true) geometry alloc_geometry_ok disk) as (_ & Hok & Hlive).
  destruct (Hlive (proj1 disk_healthy) (proj2 disk_healthy)) as [s E]. exists s. split; [exact E|].
  destruct (Hok s E) as (_ & Ht & _). apply (Ht 5). simpl. lia.
Defined.

Lemma shutdown_mount_roundtrip_witness : exists s1 s2,
  shutdown (H := true) geometry super = (s1, Ok tt)
  /\ mount_super geometry (fresh_super geometry (fat s1).1) = (s2, Ok tt) /\ tbl s2 2 = tbl super 2.
Proof.
  assert (exists s1, shutdown (H := true) geometry super = (s1, Ok tt)) as [s1 E].
  { eexists. rewrite (surjective_pairing (shutdown geometry super)). apply (f_equal2 pair); [reflexivity|].
    vm_compute. reflexivity. }
  destruct (shutdown_mount_roundtrip (H := true) geometry alloc_geometry_ok super s1) as (s2 & E2 & Ht & _).
  - exact super_wf.
  - vm_compute. reflexivity.
  - intros _. vm_compute. split; congruence.
  - exact (proj2 super_ok).
  - exact E.
  - exists s1, s2. split; [exact E|]. split; [exact E2|]. apply Ht. simpl. lia.
Defined.

(** After an allocation of one cluster and a free of the file of cluster 2. *)
Lemma sample_steps : exists s F, rtc (fs_step (H := true) geometry) (super, [[2; 3]; [4]]) (s, F)
  /\ F = [[2]; [4]].
Proof.
  assert (exists s1, free_chain 2 super = (s1, Ok tt)) as [s1 E1].
  { eexists. rewrite (surjective_pairing (free_chain 2 super)). apply (f_equal2 pair); [reflexivity|].
    vm_compute. reflexivity. }
  assert (exists s2, alloc_clusters (H := true) 1 s1 = (s2, Ok [2])) as [s2 E2].
  { assert (s1 = (free_chain 2 super).1) as -> by (by rewrite E1).
    eexists. rewrite (surjective_pairing (alloc_clusters 1 _)). apply (f_equal2 pair); [reflexivity|].
    vm_compute. reflexivity. }
  exists s2, [[2]; [4]]. split; [|done]. eapply rtc_l; [by eapply (step_free _ super [[4]] [2; 3] 2)|].
  apply rtc_once. by apply (step_alloc _ s1 [[4]] 1 s2 [2]).
Qed.

Lemma sample_files : (forall l, l ∈ [[2; 3]; [4]] -> exists c, heads (H := true) geometry super c l)
  /\ NoDup (concat [[2; 3]; [4]]).
Proof.
  split; [|apply (bool_decide_eq_true_1 _); vm_compute; reflexivity].
  destruct super_chains as [H2 H4]. intros l [->|[->|Hl]%elem_of_cons]%elem_of_cons; [by exists 2|by exists 4|].
  by apply elem_of_nil in Hl.
Qed.

Lemma files_never_share_witness : exists s : Fs (MemDisk * FatCache), NoDup [2; 4] /\ forall x, x ∈ [2; 4] -> ~ avail s x.
Proof.
  destruct sample_steps as (s & F & Hr & ->). destruct sample_files as [Hc Hn]. exists s.
  destruct (files_never_share (H := true) geometry alloc_geometry_ok disk super [[2; 3]; [4]] s [[2]; [4]]
    super_mounted Hc Hn Hr) as (_ & Hnd & Ha). split; [exact Hnd|exact Ha].
Defined.

Lemma free_count_exact_witness : exists s : Fs (MemDisk * FatCache), forall c, 2 <= c < 14 -> avail s c <-> tbl s c = FREE_CLUSTER.
Proof.
  destruct sample_steps as (s & F & Hr & ->). destruct sample_files as [Hc Hn]. exists s.
  exact (proj2 (free_count_exact (H := true) geometry alloc_geometry_ok disk super [[2; 3]; [4]] s [[2]; [4]]
    (proj1 disk_healthy) (proj2 disk_healthy) super_mounted Hc Hn Hr)).
Defined.
End Sample.
