(* ===== verification/FatData.v ===== *)
(** * The data area

    Reads and writes of FAT entries, evictions included, leave the data area of
    the volume alone.  So the theorems about allocation, freeing and truncation
    hold with any property of the data area as part of the volume's state:
    [framed_laws]. *)

From S2P Require Import Prelude Bits Errors BlockDev Fat32 Fat32Facts Fat32Spec.
From S2P Require Import FatAlloc FatAllocFacts FatChain FatVolumeFacts.
From stdpp Require Import sorting.
Import Errors.Vfs.
Local Open Scope Z_scope.

Section Frame.
Context `{Profile} `{ReliableDevice D} (b : Bpb) (Hv : volume_ok b).
Let Hb : bpb_ok b := vo_bpb b Hv.

Definition data_kept (s s' : D * FatCache) : Prop :=
  forall l, first_data_sec b <= l -> sector s'.1 l = sector s.1 l.

Definition quiet {A} (m : cmd (D * FatCache) A) (s : D * FatCache) : Prop := data_kept s (m s).1.

Lemma data_kept_trans s1 s2 s3 : data_kept s1 s2 -> data_kept s2 s3 -> data_kept s1 s3.
Proof. intros Ha Hc l Hl. by rewrite Hc, Ha. Qed.

Lemma quiet_bind {A B} (m : cmd (D * FatCache) A) (k : A -> cmd (D * FatCache) B) s :
  quiet m s -> (forall s' a, m s = (s', Ok a) -> quiet (k a) s') -> quiet (cmd_bind m k) s.
Proof.
  unfold quiet, cmd_bind. intros Hm Hk. destruct (m s) as [s' [a|e|]]; [|done|done].
  eapply data_kept_trans; [exact Hm|by apply Hk].
Qed.

Lemma quiet_res {A} (r : res VfsError A) s : quiet (cmd_res r) s.
Proof. done. Qed.

Lemma quiet_for {A} (l : list A) body s : (forall x s, x ∈ l -> quiet (body x) s) -> quiet (cmd_for l body) s.
Proof.
  revert s. induction l as [|x l IH]; intros s Hq; simpl; [done|].
  apply quiet_bind; [apply Hq; set_solver|]. intros s' a _. apply IH. intros y s1 Hy. apply Hq. set_solver.
Qed.

Lemma quiet_dev_write s lba n buf : lba + n <= first_data_sec b -> quiet (dev_write lba n buf) s.
Proof.
  destruct s as [d c]. intros Hl l Hd. pose proof (write_sectors_frame d lba n buf l ltac:(lia)) as Hf.
  unfold dev_write. by destruct (write_sectors d lba n buf).
Qed.

Lemma primary_below l : primary b l -> l < first_data_sec b.
Proof. destruct (base_pos b Hv). unfold primary. lia. Qed.

Lemma mirror_below s l k : inv b s -> mirrored s.2 = true -> primary b l -> 0 <= k < fats s.2 ->
  l + k * fat_sz32 b < first_data_sec b.
Proof.
  intros Hi Hm Hp Hk. rewrite (i_mirrored b s Hi) in Hm. rewrite (i_fats b s Hi) in Hk.
  rewrite (vo_data b Hv). unfold primary, base, fat_sector_lba, active_fat_idx in Hp. rewrite Hm in Hp. simpl in Hp.
  pose proof (bo_fat_sz b Hb). nia.
Qed.

Lemma quiet_writeback s lba : inv b s -> quiet (writeback_and_drop lba) s.
Proof.
  intros Hi. destruct s as [d c]. unfold quiet, writeback_and_drop.
  destruct (sectors c !! lba) as [x|] eqn:Ex; [|done]. cbv zeta.
  assert (primary b lba) as Hp by (apply (i_primary b (d, c) Hi); by eexists).
  match goal with |- context [match ?w (d, c) with _ => _ end] => assert (quiet w (d, c)) as Hw end.
  { pose proof (primary_below lba Hp). apply quiet_bind; [apply quiet_dev_write; lia|]. intros s' u _.
    destruct (mirrored c) eqn:Em; [|done]. destruct (local_idx_ok b Hb (d, c) lba Hi Em Hp) as [El Hml]. simpl in El, Hml. rewrite El.
    apply quiet_bind; [done|]. intros s2 idx [= <- <-]. apply quiet_for. intros k s3 Hk%elem_of_seqZ.
    pose proof (mirror_below (d, c) lba k Hi Em Hp ltac:(simpl; lia)). rewrite Hml.
    apply quiet_dev_write. lia. }
  unfold quiet in Hw. match goal with |- context [match ?w with _ => _ end] =>
    destruct w as [[d' c'] [u|e|]] end; [|done|done]. exact Hw.
Qed.

Lemma quiet_batch l : forall s, inv b s -> NoDup l -> (forall x, x ∈ l -> x ∈ dirty s.2) ->
  quiet (cmd_for l (fun lba => do! _ := writeback_and_drop lba in cmd_ret tt)) s.
Proof.
  induction l as [|x l IH]; intros s Hi Hnd Hd; simpl; [done|]. apply NoDup_cons in Hnd as [Hx Hnd].
  destruct (writeback_ok b Hb s x Hi ltac:(apply Hd; set_solver)) as (_ & Hi' & _ & Hpost).
  pose proof (quiet_writeback s x Hi) as Hq. unfold quiet, cmd_bind, cmd_ret in *.
  destruct (writeback_and_drop x s) as [s' [r|e|]]; [|done|done]. simpl in *.
  eapply data_kept_trans; [exact Hq|]. apply IH; [done|done|].
  intros y Hy. apply (Hpost r eq_refl); [set_solver|]. apply Hd. set_solver.
Qed.

Lemma quiet_maybe_evict s : inv b s -> quiet maybe_evict s.
Proof.
  intros Hi. destruct s as [d c]. unfold quiet, maybe_evict. destruct (_ <? _)%nat; [done|]. cbv zeta.
  destruct (sweep_clean_ok b (MAX_FAT_CACHE_ENTRIES - MAX_FAT_CACHE_ENTRIES / 4) d c Hi) as (c1 & r & -> & Hi1 & _).
  destruct r; [done|]. match goal with |- context [cmd_for ?l ?f _] => pose proof (quiet_batch l (d, c1) Hi1) as Hq end.
  destruct (dirty_batch_ok b (d, c1) (size (sectors c1) - (MAX_FAT_CACHE_ENTRIES - MAX_FAT_CACHE_ENTRIES / 4)) Hi1)
    as [Hnd Hdb]. specialize (Hq Hnd Hdb). unfold quiet in Hq.
  destruct (cmd_for _ _ _) as [[d2 c2] [u|e|]]; [|done|done].
  by destruct (sweep_clean _ _) as [[c4 r]|e|].
Qed.

Lemma quiet_ensure s lba : inv b s -> quiet (ensure lba) s.
Proof.
  intros Hi. pose proof (quiet_maybe_evict s Hi) as Hq. destruct s as [d c]. unfold quiet, ensure in *.
  case_bool_decide; [done|]. destruct (read_sectors d lba 1); [|done|done].
  by destruct (maybe_evict (d, c)) as [[d' c'] [u|e|]].
Qed.

Lemma quiet_read s c : inv b s -> quiet (read_fat_entry b c) s.
Proof.
  intros Hi. unfold read_fat_entry, get_or_read. apply quiet_bind; [done|]. intros s1 pos [= <- _].
  apply quiet_bind; [|intros s2 x _; by apply quiet_bind].
  apply quiet_bind; [by apply quiet_ensure|]. by intros [d' c'] u _.
Qed.

Lemma quiet_write s c v : inv b s -> quiet (write_fat_entry b c v) s.
Proof.
  intros Hi. unfold write_fat_entry, get_or_read_mut. apply quiet_bind; [done|]. intros s1 pos [= <- _].
  apply quiet_bind; [apply quiet_bind; [by apply quiet_ensure|by intros [d' c'] u _]|].
  intros s2 x _. apply quiet_bind; [done|]. by intros [d' c'] u _.
Qed.
End Frame.

(** ** Framing *)

Section Framed.
Context `{Profile} `{ReliableDevice D} (b : Bpb) (Hv : volume_ok b) (P : Z -> list Z -> Prop).
Let Hb : bpb_ok b := vo_bpb b Hv.

(** The volume with [P] of every data sector. *)
Definition framed_view : FatView (D * FatCache) := {|
  fat_ok s := inv b s /\ forall l, first_data_sec b <= l -> P l (sector s.1 l);
  fat_live s := healthy s.1 /\ volume_end b <= sector_count s.1;
  fat_entry := entry b
|}.

Lemma framed_wp {A} s (m : cmd (D * FatCache) A) (Q : D * FatCache -> A -> Prop) E :
  (forall l, first_data_sec b <= l -> P l (sector s.1 l)) -> quiet b m s -> wp s m Q E ->
  wp s m (fun s' a => Q s' a /\ forall l, first_data_sec b <= l -> P l (sector s'.1 l))
         (fun s' e => E s' e /\ forall l, first_data_sec b <= l -> P l (sector s'.1 l)).
Proof.
  unfold wp, quiet, data_kept. intros HP Hq Hw. destruct (m s) as [s' [a|e|]]; [| |done]; simpl in *;
    (split; [done|]; intros l Hl; rewrite Hq by done; auto).
Qed.

Lemma framed_laws : @FatLaws _ (volume b) framed_view.
Proof.
  pose proof (cached_laws b Hv) as [Hfit Hrange Hread Hwrite Hout]. constructor; [done|done| | |done].
  - intros s c [Hi HP] Hc. eapply wp_mono; [apply framed_wp; [done|by apply quiet_read|by apply Hread]|..].
    + intros s' v [[-> (Hk & Ht & Hl)] HP']. by split_and!.
    + intros s' v [[(Hk & Ht & Hl) Hn] HP']. by split_and!.
  - intros s c v [Hi HP] Hc. eapply wp_mono; [apply framed_wp; [done|by apply quiet_write|by apply Hwrite]|..].
    + intros s' u [(Hk & Ht & Hl) HP']. by split_and!.
    + intros s' u [[(Hk & Ht & Hl) Hn] HP']. by split_and!.
Qed.
End Framed.

(** ** Chains of files *)

Section ChainFor.
Context `{Profile} `{ReliableDevice D} (b : Bpb) (Hv : volume_ok b) (P : Z -> list Z -> Prop).
Let Hb : bpb_ok b := vo_bpb b Hv.

#[local] Hint Extern 0 (FatOps (D * FatCache)) => exact (volume b) : typeclass_instances.
#[local] Hint Extern 0 (FatView (D * FatCache)) => exact (framed_view b P) : typeclass_instances.
#[local] Hint Extern 0 (FatLaws (D * FatCache)) => exact (framed_laws b Hv P) : typeclass_instances.

Lemma cached_loop_wp fuel : forall (s : Fs (D * FatCache)) c n acc, fat_ok (fat s) -> 0 <= n <= total_clus b + 2 ->
  total_clus b + 2 - n < Z.of_nat fuel ->
  (forall l, chain (S := D * FatCache) (tbl s) c l -> n + Z.of_nat (length l) <= total_clus b) ->
  wp s (cached_loop b fuel c n acc)
    (fun s' r => tabled s s' (tbl s) /\ exists l, chain (S := D * FatCache) (tbl s) c l /\ r = acc ++ l)
    (fun s' _ => tabled s s' (tbl s) /\ (~ live s \/ forall l, ~ chain (S := D * FatCache) (tbl s) c l)).
Proof.
  induction fuel as [|fuel IH]; intros s c n acc Hk Hn Hf Hbound; [lia|]. cbn [cached_loop].
  change (read_fat_entry b c) with (fat_read (S := D * FatCache) c). apply wp_bind, read_any_wp; [done| |].
  2: { intros s' e Ht [Hl|Hc]; (split; [done|]); [by left|right]. by intros l ?%chain_head. }
  intros s1 Hc Ht1. destruct (Z.leb_spec EOC_MARKER (tbl s c)) as [He|He].
  { apply wp_ret. split; [done|]. exists [c]. split; [by constructor|done]. }
  assert (forall l, chain (S := D * FatCache) (tbl s) (tbl s c) l -> n + 1 + Z.of_nat (length l) <= total_clus b) as Hb'.
  { intros l Hl. specialize (Hbound (c :: l) ltac:(by constructor)). simpl in Hbound. lia. }
  destruct (Z.ltb_spec (total_clus b + 2) (n + 1)) as [Hg|Hg].
  { apply wp_err. split; [done|]. right. intros l Hl. inversion Hl as [|? l' _ _ Hl']; subst; [lia|].
    specialize (Hb' _ Hl'). lia. }
  eapply wp_mono; [apply (IH s1)|..].
  - by eapply tabled_ok.
  - lia.
  - lia.
  - intros l Hl. apply (tabled_chain s s1) in Hl; [|done]. by apply Hb' in Hl.
  - simpl. intros s2 r (Ht2 & l & Hl & ->). apply (tabled_chain s s1) in Hl; [|done].
    split; [by eapply tabled_step|]. exists (c :: l). split; [by constructor|]. by rewrite <- app_assoc.
  - simpl. intros s2 e [Ht2 Hor]. split; [by eapply tabled_step|].
    destruct Hor as [Hnl|Hno]; [left; intros Hl; by apply Hnl, (tabled_live _ _ _ Ht1)|right].
    intros l Hl. inversion Hl as [|? l' _ _ Hl']; subst; [lia|]. by apply (Hno l'), (tabled_chain s s1).
Qed.

(** The table in the first copy of the FAT on the device. *)
Definition fat0_table (d : D) (c : Z) : Z :=
  Z.land (le_val (take 4 (drop (entry_off c) (sector d (fat_sector_lba b 0 0 + c * 4 / 512))))) FAT_MASK.

(** The first copy on the device agrees with the table in use. *)
Definition settled (s : Fs (D * FatCache)) : Prop :=
  forall c, valid b c -> fat0_table (fat s).1 c = entry b (fat s) c.

Lemma fat0_in_volume : 0 <= fat_sector_lba b 0 0 /\ fat_sector_lba b 0 0 + fat_sz32 b <= volume_end b.
Proof.
  unfold volume_end, fat_sector_lba. rewrite (vo_data b Hv). destruct (bo_covers b Hb).
  pose proof (vo_spc b Hv). pose proof (bo_fats b Hb). pose proof (bo_rsvd b Hb). pose proof (bo_fat_sz b Hb). nia.
Qed.

Lemma read_fat_wp fuel : forall (s : Fs (D * FatCache)) off data, 0 <= off <= fat_sz32 b ->
  fat_sz32 b - off <= Z.of_nat fuel ->
  wp s (read_fat b fuel off data)
    (fun s' r => s' = s /\ r = data ++ flat_map (sector (fat s).1) (seqZ (fat_sector_lba b 0 0 + off) (fat_sz32 b - off)))
    (fun s' _ => s' = s /\ ~ live s).
Proof.
  destruct fat0_in_volume as [Hlo Hhi]. induction fuel as [|fuel IH]; intros s off data Ho Hf; cbn [read_fat];
    (destruct (Z.ltb_spec off (fat_sz32 b)) as [Hlt|Hge]; [|apply wp_ret; split; [done|];
      rewrite seqZ_nil by lia; by rewrite app_nil_r]); [lia|].
  cbv zeta. set (n := Z.min 504 (fat_sz32 b - off)). assert (1 <= n <= fat_sz32 b - off) as Hn by (unfold n; lia).
  eapply wp_seq; [apply (dev_read_wp b); lia| |done]. intros s' buf [-> ->].
  eapply wp_mono; [apply IH; lia| |done]. cbv beta. intros s' r [-> ->]. split; [done|].
  rewrite <- app_assoc, <- flat_map_app. do 2 f_equal. rewrite Z.add_assoc.
  rewrite <- seqZ_app by lia. f_equal. lia.
Qed.

Lemma bulk_entry (d : D) c : valid b c ->
  le_at (flat_map (sector d) (seqZ (fat_sector_lba b 0 0) (fat_sz32 b))) (c * 4) 4
  = Ok (le_val (take 4 (drop (entry_off c) (sector d (fat_sector_lba b 0 0 + c * 4 / 512))))).
Proof.
  intros Hc. destruct (bo_covers b Hb) as [Ht Hcov]. pose proof (bo_fat_sz b Hb) as Hsz. unfold valid in Hc.
  unfold le_at, get_range. rewrite sectors_length by lia. rewrite (proj2 (andb_true_iff _ _)) by lia.
  rewrite <- (sectors_slice d _ (fat_sz32 b)) by (unfold entry_off; mlia).
  unfold entry_off. do 3 f_equal. change (Z.to_nat 4) with 4%nat. f_equal. f_equal. mlia.
Qed.

Lemma bulk_loop_spec (d : D) f : (forall c, valid b c -> f c = fat0_table d c) ->
  forall fuel c n acc, valid b c -> 0 <= n <= total_clus b + 2 -> total_clus b + 2 - n < Z.of_nat fuel ->
  (forall l, chain (S := D * FatCache) f c l -> n + Z.of_nat (length l) <= total_clus b) ->
  match bulk_loop b fuel (flat_map (sector d) (seqZ (fat_sector_lba b 0 0) (fat_sz32 b))) c n acc with
  | Ok r => exists l, chain (S := D * FatCache) f c l /\ r = acc ++ l
  | Err _ => forall l, ~ chain (S := D * FatCache) f c l
  | Panic => False
  end.
Proof.
  intros Hf fuel. destruct (bo_covers b Hb) as [Ht Hcov]. pose proof (bo_fat_sz b Hb) as Hsz.
  induction fuel as [|fuel IH]; intros c n acc Hc Hn Hfu Hbound; [lia|]. cbn [bulk_loop]. cbv zeta.
  rewrite bulk_entry by done. rewrite sectors_length by lia. rewrite (proj2 (Z.ltb_ge _ _)) by (unfold valid in Hc; lia).
  cbn [res_bind]. fold (fat0_table d c). rewrite <- Hf by done.
  assert (is_cluster (S := D * FatCache) c) as Hcc by done.
  destruct (Z.leb_spec EOC_MARKER (f c)) as [He|He]; [exists [c]; split; [by constructor|done]|].
  assert (forall l, chain (S := D * FatCache) f c l -> exists l', l = c :: l' /\ chain (S := D * FatCache) f (f c) l') as Hinv.
  { intros l Hl. inversion Hl as [|? l' _ _ Hl']; subst; [lia|]. by exists l'. }
  destruct ((f c <? 2) || (2 + total_clus b <=? f c)) eqn:Er.
  { intros l Hl. destruct (Hinv l Hl) as (l' & -> & Hl'). apply chain_head in Hl'.
    unfold is_cluster in Hl'. cbn [clusters volume] in Hl'. lia. }
  assert (forall l, chain (S := D * FatCache) f (f c) l -> n + 1 + Z.of_nat (length l) <= total_clus b) as Hb'.
  { intros l Hl. specialize (Hbound (c :: l) ltac:(by constructor)). simpl in Hbound. lia. }
  destruct (Z.ltb_spec (total_clus b + 2) (n + 1)) as [Hg|Hg].
  { intros l Hl. destruct (Hinv l Hl) as (l' & -> & Hl'). specialize (Hb' _ Hl'). lia. }
  rewrite (proj2 (Z.ltb_ge (512 * fat_sz32 b) (n + 1))) by lia.
  specialize (IH (f c) (n + 1) (acc ++ [c])). destruct (bulk_loop _ _ _ _ _ _) as [r|e|].
  - destruct IH as (l & Hl & ->); [unfold valid; lia|lia|lia|done|]. exists (c :: l).
    split; [by constructor|]. by rewrite <- app_assoc.
  - intros l Hl. destruct (Hinv l Hl) as (l' & -> & Hl'). eapply IH; [unfold valid; lia|lia|lia|done|done].
  - apply IH; [unfold valid; lia|lia|lia|done].
Qed.

(** Small volumes: the whole FAT is read at once. *)
Definition bulk : bool := (fat_sz32 b <=? 1024) && (total_clus b <=? 200000).

Definition chained (s : Fs (D * FatCache)) (first : Z) (l : list Z) (s' : Fs (D * FatCache)) : Prop :=
  s' = set_chain_cache (set_fat s (fat s')) (<[first := l]> (chain_cache s))
  /\ becomes (fat s) (fat s') (tbl s).

Lemma chain_build_wp (s : Fs (D * FatCache)) first : fat_ok (fat s) -> valid b first -> (bulk = true -> settled s) ->
  wp s (if bulk
        then do! fat_data := read_fat b (Z.to_nat (fat_sz32 b)) 0 [] in
             cmd_res (bulk_loop b (Z.to_nat (total_clus b + 4)) fat_data first 0 [])
        else cached_loop b (Z.to_nat (total_clus b + 4)) first 0 [])
    (fun s' l => tabled s s' (tbl s) /\ chain (S := D * FatCache) (tbl s) first l)
    (fun s' _ => tabled s s' (tbl s) /\ (~ live s \/ forall l, ~ chain (S := D * FatCache) (tbl s) first l)).
Proof.
  intros Hk Hf Hset. destruct (bo_covers b Hb) as [Ht0 _].
  assert (forall l, chain (S := D * FatCache) (tbl s) first l -> 0 + Z.of_nat (length l) <= total_clus b) as Hlen
    by (intros l Hl; apply chain_length in Hl; cbn [clusters volume] in Hl; lia).
  destruct bulk.
  - specialize (Hset eq_refl). pose proof (bo_fat_sz b Hb). eapply wp_seq; [apply read_fat_wp; lia| |].
    2: { intros s' e [-> Hl]. split; [by apply tabled_refl|by left]. }
    cbv beta. intros s' data [-> ->]. rewrite Z.add_0_r, Z.sub_0_r, app_nil_l.
    pose proof (bulk_loop_spec (fat s).1 (tbl s) (fun c Hc => eq_sym (Hset c Hc))
      (Z.to_nat (total_clus b + 4)) first 0 [] Hf ltac:(lia) ltac:(lia) Hlen) as Hs.
    unfold wp, cmd_res. destruct (bulk_loop _ _ _ _ _ _) as [r|e|]; [| |done].
    + destruct Hs as (l & Hl & ->). split; [by apply tabled_refl|done].
    + split; [by apply tabled_refl|by right].
  - eapply wp_mono; [apply cached_loop_wp; [done|lia|lia|done]| |done].
    simpl. intros s' r (Ht & l & Hl & ->). done.
Qed.

(** The chain of a file, from the cache of chains where it is there. *)
Lemma chain_for_wp (s : Fs (D * FatCache)) first : fat_ok (fat s) -> valid b first -> (bulk = true -> settled s) ->
  (forall l, chain_cache s !! first = Some l -> chain (S := D * FatCache) (tbl s) first l) ->
  wp s (chain_for b first)
    (fun s' l => chain (S := D * FatCache) (tbl s) first l /\ chained s first l s')
    (fun s' _ => tabled s s' (tbl s) /\ (~ live s \/ forall l, ~ chain (S := D * FatCache) (tbl s) first l)).
Proof.
  intros Hk Hf Hset Hcc. pose proof (vo_numbered b Hv) as Hnum. unfold wp, chain_for.
  rewrite (proj2 (orb_false_iff _ _)) by (unfold valid in Hf; lia).
  destruct (chain_cache s !! first) as [l|] eqn:El.
  - split; [by apply Hcc|]. split; [|by apply becomes_refl]. rewrite insert_id by done. by destruct s.
  - fold bulk. match goal with |- match ?m s with _ => _ end => change (wp s m
      (fun s' l => chain (S := D * FatCache) (tbl s) first l /\ chained s first l s')
      (fun s' _ => tabled s s' (tbl s) /\ (~ live s \/ forall l, ~ chain (S := D * FatCache) (tbl s) first l))) end.
    eapply wp_seq; [by apply chain_build_wp| |done]. cbv beta. intros s1 l [[E B] Hl].
    apply wp_bind, wp_modify, wp_ret. split; [done|]. split; [|done]. by rewrite E.
Qed.

(** The first copy is settled when it is the one in use and no sector waits to
    be written. *)
Lemma settled_clean (s : Fs (D * FatCache)) : inv b (fat s) -> active_fat_idx b = 0 -> dirty (fat s).2 = ∅ -> settled s.
Proof.
  intros Hi Ha Hd c Hc. unfold fat0_table, entry, view.
  replace (fat_sector_lba b 0 0 + c * 4 / 512) with (entry_lba b c) by (unfold entry_lba, base; by rewrite Ha).
  destruct (sectors (fat s).2 !! entry_lba b c) as [x|] eqn:Ex; [|done]. simpl.
  rewrite (i_clean b (fat s) Hi (entry_lba b c) x); [done|done|]. rewrite Hd. set_solver.
Qed.
End ChainFor.
