(* ===== verification/Calendar.v ===== *)
(** * The calendar

    Model of kernel/src/services/wallclock.rs (day numbers and civil dates) and
    of kernel/src/drivers/rtc.rs (the CMOS clock as a source of them), with the
    Gregorian calendar they implement.  The registers of the clock are a
    parameter: their values during one consistent read, after the wait for an
    update to complete. *)

From S2P Require Import Prelude.
Local Open Scope Z_scope.

(** ** The Gregorian calendar *)

Definition is_leap (y : Z) : bool := ((y mod 4 =? 0) && negb (y mod 100 =? 0)) || (y mod 400 =? 0).

Definition days_in_month (y m : Z) : Z :=
  if existsb (Z.eqb m) [1; 3; 5; 7; 8; 10; 12] then 31
  else if existsb (Z.eqb m) [4; 6; 9; 11] then 30
  else if m =? 2 then if is_leap y then 29 else 28
  else 0.

Definition Date : Type := Z * Z * Z.

Definition date_ok (dt : Date) : bool :=
  let '(y, m, d) := dt in (1 <=? m) && (m <=? 12) && (1 <=? d) && (d <=? days_in_month y m).

Definition next_day (dt : Date) : Date :=
  let '(y, m, d) := dt in
  if d <? days_in_month y m then (y, m, d + 1) else if m <? 12 then (y, m + 1, 1) else (y + 1, 1, 1).

(** ** Day numbers *)

Section Days.
Context {E : Type} `{Profile}.

Definition days_from_civil (y m d : Z) : res E Z :=
  let? y := if m <=? 2 then u64_sub y 1 else Ok y in
  let era := y / 400 in
  let yoe := y - era * 400 in
  let? m9 := u64_add m 9 in
  let mp := m9 mod 12 in
  let? s := u64_add ((153 * mp + 2) / 5) d in
  let? doy := u64_sub s 1 in
  let? doe := u64_add (yoe * 365 + yoe / 4 - yoe / 100) doy in
  let? n := u64_mul era 146097 in
  let? n := u64_add n doe in
  u64_sub n 719468.

Definition civil_from_days (z : Z) : res E Date :=
  let? z := u64_add z 719468 in
  let era := z / 146097 in
  let doe := z - era * 146097 in
  let yoe := (doe - doe / 1460 + doe / 36524 - doe / 146096) / 365 in
  let y := yoe + era * 400 in
  let doy := doe - (365 * yoe + yoe / 4 - yoe / 100) in
  let mp := (5 * doy + 2) / 153 in
  let d := doy - (153 * mp + 2) / 5 + 1 in
  let m := if mp <? 10 then mp + 3 else mp - 9 in
  Ok (if m <=? 2 then y + 1 else y, m, d).
End Days.

(** ** The CMOS clock *)

Section Rtc.
Context {E : Type} `{Profile} (read_cmos : Z -> Z).

Definition bcd_to_binary (bcd : Z) : Z := Z.land bcd 15 + Z.shiftr bcd 4 * 10.

Record RtcTime := { sec : Z; min : Z; hour : Z; day : Z; month : Z; year : Z }.

Definition u8_add (a b : Z) : res E Z :=
  if a + b <=? 255 then Ok (a + b) else if debug_profile then Panic else Ok ((a + b) mod 256).

Definition read_all : res E RtcTime :=
  let status_b := read_cmos 11 in
  let binary := negb (Z.land status_b 4 =? 0) in
  let hour12 := Z.land status_b 2 =? 0 in
  let century := read_cmos 50 in
  let conv v := if binary then v else bcd_to_binary v in
  let h := if binary then read_cmos 4 else bcd_to_binary (Z.land (read_cmos 4) 127) in
  let? h :=
    if hour12 then
      let pm := negb (Z.land (read_cmos 4) 128 =? 0) in
      if pm && negb (h =? 12) then u8_add h 12 else if negb pm && (h =? 12) then Ok 0 else Ok h
    else Ok h in
  Ok {| sec := conv (read_cmos 0); min := conv (read_cmos 2); hour := h; day := conv (read_cmos 7);
        month := conv (read_cmos 8); year := century * 100 + conv (read_cmos 9) |}.

(** [None] while an update is in progress, and for values that are no date. *)
Definition read_epoch_secs : res E (option Z) :=
  if negb (Z.land (read_cmos 10) 128 =? 0) then Ok None
  else
    let? t := read_all in
    if (year t <? 1970) || (9999 <? year t) || (month t =? 0) || (12 <? month t) || (day t =? 0) || (31 <? day t)
    then Ok None
    else
      let? days := days_from_civil (year t) (month t) (day t) in
      Ok (Some (days * 86400 + hour t * 3600 + min t * 60 + sec t)).
End Rtc.

(** ** Correctness *)

(** The day number as a formula on the integers. *)
Definition day_number (dt : Date) : Z :=
  let '(y, m, d) := dt in
  let y := if m <=? 2 then y - 1 else y in
  let era := y / 400 in
  let yoe := y - era * 400 in
  era * 146097 + (yoe * 365 + yoe / 4 - yoe / 100 + ((153 * ((m + 9) mod 12) + 2) / 5 + d - 1)) - 719468.

(** Dates within the range of the u64 arithmetic. *)
Definition in_range (y : Z) : Prop := 1970 <= y <= 2 ^ 54.

Lemma date_ok_bounds y m d : date_ok (y, m, d) = true -> 1 <= m <= 12 /\ 1 <= d <= 31.
Proof.
  unfold date_ok, days_in_month. intros Hd. repeat case_match; lia.
Qed.

Lemma days_from_civil_eq {E} `{Profile} y m d : in_range y -> 1 <= m <= 12 -> 1 <= d <= 31 ->
  days_from_civil (E := E) y m d = Ok (day_number (y, m, d)).
Proof.
  intros Hy Hm Hd. unfold days_from_civil, in_range in *.
  assert (u64_max = 2 ^ 64 - 1) as Hmax by reflexivity.
  assert ((if m <=? 2 then u64_sub (E := E) y 1 else Ok y) = Ok (if m <=? 2 then y - 1 else y)) as ->.
  { destruct (m <=? 2); [|done]. apply u64_op_Ok. lia. }
  cbn [res_bind]. unfold day_number. set (y' := if m <=? 2 then y - 1 else y).
  set (mp := (m + 9) mod 12).
  assert (1969 <= y' <= 2 ^ 55 /\ 0 <= mp <= 11 /\ (y' = 1969 -> 10 <= mp)) as (Hy' & Hmp & Hjan)
    by (unfold y', mp; destruct (Z.leb_spec m 2); mlia). clearbody y'. clear Hy y.
  unfold u64_add at 1. rewrite u64_op_Ok by lia. cbn [res_bind]. fold mp.
  set (era := y' / 400). set (yoe := y' - era * 400).
  assert (4 <= era <= 2 ^ 55 /\ 0 <= yoe <= 399) as [He Hyoe] by (unfold yoe, era; mlia).
  assert (era = 4 -> yoe = 369 -> 10 <= mp) as Hjan' by (intros; apply Hjan; unfold yoe, era in *; lia).
  assert (0 <= yoe * 365 + yoe / 4 - yoe / 100 <= 146097) as Hdoe by mlia.
  assert (era = 4 -> 369 <= yoe) as Hera by (unfold yoe, era in *; mlia).
  assert (0 <= (153 * mp + 2) / 5 <= 337) as Hq by mlia.
  unfold u64_add at 1. rewrite u64_op_Ok by lia. cbn [res_bind].
  unfold u64_sub at 1. rewrite u64_op_Ok by lia. cbn [res_bind].
  unfold u64_add at 1. rewrite u64_op_Ok by lia. cbn [res_bind].
  unfold u64_mul. rewrite u64_op_Ok by lia. cbn [res_bind].
  unfold u64_add. rewrite u64_op_Ok by lia. cbn [res_bind].
  unfold u64_sub. rewrite u64_op_Ok; [f_equal; lia|]. mlia.
Qed.

(** The civil date as a formula on the integers. *)
Definition civil_of (z : Z) : Date :=
  let z := z + 719468 in
  let era := z / 146097 in
  let doe := z - era * 146097 in
  let yoe := (doe - doe / 1460 + doe / 36524 - doe / 146096) / 365 in
  let y := yoe + era * 400 in
  let doy := doe - (365 * yoe + yoe / 4 - yoe / 100) in
  let mp := (5 * doy + 2) / 153 in
  let d := doy - (153 * mp + 2) / 5 + 1 in
  let m := if mp <? 10 then mp + 3 else mp - 9 in
  (if m <=? 2 then y + 1 else y, m, d).

Lemma civil_from_days_eq {E} `{Profile} z : 0 <= z <= 2 ^ 63 -> civil_from_days (E := E) z = Ok (civil_of z).
Proof.
  intros Hz. unfold civil_from_days, u64_add. rewrite u64_op_Ok; [done|].
  assert (u64_max = 2 ^ 64 - 1) as Hmax by reflexivity. lia.
Qed.

(** *** Years from March to March *)

(** Days before the first of March of year [y]. *)
Definition year_start (y : Z) : Z := 365 * y + y / 4 - y / 100 + y / 400.

Definition month_start (mp : Z) : Z := (153 * mp + 2) / 5.

Lemma year_start_succ y : year_start y = year_start (y - 1) + if is_leap y then 366 else 365.
Proof.
  unfold year_start, is_leap. destruct (Z.eqb_spec (y mod 4) 0), (Z.eqb_spec (y mod 100) 0), (Z.eqb_spec (y mod 400) 0);
    cbn [andb orb negb]; mlia.
Qed.

Lemma year_start_mono y y' : y < y' -> year_start (y + 1) <= year_start y'.
Proof. intros Hy. unfold year_start. mlia. Qed.

(** The March year and month of a date. *)
Definition march_year (y m : Z) : Z := if m <=? 2 then y - 1 else y.

Lemma day_number_eq y m d :
  day_number (y, m, d) = year_start (march_year y m) + month_start ((m + 9) mod 12) + d - 1 - 719468.
Proof.
  unfold day_number, year_start, month_start, march_year. set (y' := if m <=? 2 then y - 1 else y). mlia.
Qed.

Lemma month_cases (m : Z) (P : Z -> Prop) : 1 <= m <= 12 ->
  P 1 -> P 2 -> P 3 -> P 4 -> P 5 -> P 6 -> P 7 -> P 8 -> P 9 -> P 10 -> P 11 -> P 12 -> P m.
Proof.
  intros Hm. intros. assert (m = 1 \/ m = 2 \/ m = 3 \/ m = 4 \/ m = 5 \/ m = 6 \/ m = 7 \/ m = 8 \/ m = 9 \/ m = 10
    \/ m = 11 \/ m = 12) as Hc by lia. by decompose [or] Hc; subst.
Qed.

(** The length of a March month, and of its year. *)
Lemma month_length y m d : 1 <= m <= 12 -> 1 <= d <= days_in_month y m ->
  let doy := month_start ((m + 9) mod 12) + d - 1 in
  0 <= doy < year_start (march_year y m + 1) - year_start (march_year y m)
  /\ ((m + 9) mod 12 < 11 -> doy < month_start ((m + 9) mod 12 + 1)).
Proof.
  intros Hm Hd. cbv zeta. rewrite (year_start_succ (march_year y m + 1)), Z.add_simpl_r.
  revert Hd. pattern m. apply month_cases; [done|..]; unfold march_year, month_start, days_in_month; simpl;
    rewrite ?Z.sub_add; destruct (is_leap y), (is_leap (y + 1)); intros Hd; mlia.
Qed.

(** The day number counts days. *)
Lemma day_number_next dt : date_ok dt = true -> day_number (next_day dt) = day_number dt + 1.
Proof.
  destruct dt as [[y m] d]. unfold date_ok, next_day. intros Hd.
  destruct (Z.ltb_spec d (days_in_month y m)) as [Hlt|Hge]; [rewrite !day_number_eq; lia|].
  assert (1 <= m <= 12) as Hm by lia. assert (d = days_in_month y m) as -> by lia. clear Hd Hge.
  pattern m. apply month_cases; [done|..]; cbn [Z.ltb Z.compare Pos.compare Pos.compare_cont];
    rewrite !day_number_eq; unfold march_year, month_start, days_in_month; simpl; rewrite ?Z.add_simpl_r;
    rewrite ?(year_start_succ y); destruct (is_leap y); mlia.
Qed.

Lemma day_number_inj y m d y' m' d' : date_ok (y, m, d) = true -> date_ok (y', m', d') = true ->
  day_number (y, m, d) = day_number (y', m', d') -> (y, m, d) = (y', m', d').
Proof.
  unfold date_ok. intros H1 H2 He. rewrite !day_number_eq in He.
  destruct (month_length y m d ltac:(lia) ltac:(lia)) as [B1 M1].
  destruct (month_length y' m' d' ltac:(lia) ltac:(lia)) as [B2 M2]. cbv zeta in *.
  assert (march_year y m = march_year y' m') as Ey.
  { destruct (Z.lt_total (march_year y m) (march_year y' m')) as [Hlt|[Heq|Hlt]]; [|done|];
      apply year_start_mono in Hlt; lia. }
  rewrite Ey in *. set (a := (m + 9) mod 12) in *. set (b := (m' + 9) mod 12) in *.
  assert (0 <= a <= 11 /\ 0 <= b <= 11) as [Ha Hb] by (unfold a, b; mlia).
  assert (a = b) as Eab.
  { unfold month_start in *. destruct (Z.lt_total a b) as [Hlt|[Heq|Hlt]]; [|done|].
    - specialize (M1 ltac:(lia)). mlia.
    - specialize (M2 ltac:(lia)). mlia. }
  assert (m = m') as -> by (unfold a, b in Eab; mlia). rewrite Eab in *.
  unfold march_year in Ey. assert (y = y') as -> by (destruct (m' <=? 2); lia).
  f_equal. lia.
Qed.

(** *** From day numbers to dates *)

(** The year of the era that day [doe] falls in. *)
Lemma yoe_bounds doe yoe : 0 <= doe < 146097 -> yoe = (doe - doe / 1460 + doe / 36524 - doe / 146096) / 365 ->
  (0 <= yoe <= 399 /\ 365 * yoe + yoe / 4 - yoe / 100 <= doe)
  /\ doe < 365 * (yoe + 1) + (yoe + 1) / 4 - (yoe + 1) / 100 + (yoe + 1) / 400.
Proof. intros Hd Hy. split; mlia. Qed.

Lemma civil_of_ok z : date_ok (civil_of z) = true /\ day_number (civil_of z) = z.
Proof.
  unfold civil_of. cbv zeta. set (era := (z + 719468) / 146097). set (doe := z + 719468 - era * 146097).
  assert (0 <= doe < 146097) as Hdoe by (unfold doe, era; mlia).
  set (yoe := (doe - doe / 1460 + doe / 36524 - doe / 146096) / 365).
  destruct (yoe_bounds doe yoe Hdoe eq_refl) as [[Hy Hlo] Hhi]. clearbody yoe. set (y := yoe + era * 400).
  assert (year_start y = era * 146097 + 365 * yoe + yoe / 4 - yoe / 100) as Hs by (unfold year_start, y; mlia).
  assert (year_start (y + 1) = era * 146097 + 365 * (yoe + 1) + (yoe + 1) / 4 - (yoe + 1) / 100 + (yoe + 1) / 400) as Hs1
    by (unfold year_start, y; mlia).
  set (doy := doe - (365 * yoe + yoe / 4 - yoe / 100)).
  assert (0 <= doy < year_start (y + 1) - year_start y) as Hdoy by (unfold doy; lia).
  assert (z = year_start y + doy - 719468) as Hz by (unfold doy, doe in *; lia).
  rewrite year_start_succ, Z.add_simpl_r in Hdoy. clearbody doy y. clear - Hdoy Hz.
  set (mp := (5 * doy + 2) / 153).
  assert (0 <= mp <= 11) as Hmp by (unfold mp; destruct (is_leap (y + 1)); mlia).
  assert (153 * mp <= 5 * doy + 2 < 153 * mp + 153) as Hd by (unfold mp; mlia). clearbody mp.
  split.
  - unfold date_ok. assert (exists q, mp = q - 1 /\ 1 <= q <= 12) as (q & -> & Hq) by (exists (mp + 1); lia).
    clear Hmp. revert Hd. pattern q. apply month_cases; [done|..]; simpl; intros Hd;
      unfold days_in_month; simpl; revert Hdoy; destruct (is_leap (y + 1)); intros Hdoy; mlia.
  - rewrite day_number_eq. unfold march_year, month_start.
    destruct (Z.ltb_spec mp 10) as [Hlt|Hge].
    + rewrite (proj2 (Z.leb_gt _ _)) by lia. replace ((mp + 3 + 9) mod 12) with mp by mlia. lia.
    + rewrite !(proj2 (Z.leb_le _ _)) by lia. rewrite Z.add_simpl_r. replace ((mp - 9 + 9) mod 12) with mp by mlia. lia.
Qed.

Lemma civil_of_day_number dt : date_ok dt = true -> civil_of (day_number dt) = dt.
Proof.
  intros Hd. destruct (civil_of_ok (day_number dt)) as [Hok Hn].
  destruct (civil_of (day_number dt)) as [[y m] d], dt as [[y' m'] d']. by apply day_number_inj.
Qed.

Lemma day_number_epoch y m d : in_range y -> date_ok (y, m, d) = true -> 0 <= day_number (y, m, d) <= 2 ^ 63.
Proof.
  intros Hy Hd. rewrite day_number_eq. pose proof (date_ok_bounds y m d Hd).
  unfold in_range, year_start, month_start, march_year in *. destruct (Z.leb_spec m 2); mlia.
Qed.

Lemma civil_year z : 0 <= z <= 2 ^ 60 -> in_range (civil_of z).1.1.
Proof.
  intros Hz. destruct (civil_of_ok z) as [Hok Hn]. destruct (civil_of z) as [[y m] d]. rewrite day_number_eq in Hn.
  pose proof (date_ok_bounds y m d Hok). unfold in_range, year_start, month_start, march_year in *. simpl.
  destruct (Z.leb_spec m 2); mlia.
Qed.

(** C32: the kernel's date arithmetic is the Gregorian calendar.  1970-01-01 is
    day 0; every valid date has a day number, the next day (by the lengths of the
    months and the leap rule) has the next number, and [civil_from_days] takes
    the number back to the date; every day number up to 2^60 is that of the
    valid date [civil_from_days] gives.  No step overflows. *)
Theorem calendar_correct {E} `{Profile} :
  days_from_civil (E := E) 1970 1 1 = Ok 0
  /\ (forall y m d, 1970 <= y < 2 ^ 54 -> date_ok (y, m, d) = true ->
      exists n, days_from_civil (E := E) y m d = Ok n /\ civil_from_days (E := E) n = Ok (y, m, d)
      /\ let '(y', m', d') := next_day (y, m, d) in days_from_civil (E := E) y' m' d' = Ok (n + 1))
  /\ (forall z, 0 <= z <= 2 ^ 60 -> exists y m d, civil_from_days (E := E) z = Ok (y, m, d)
      /\ date_ok (y, m, d) = true /\ days_from_civil (E := E) y m d = Ok z).
Proof.
  split_and!.
  - rewrite days_from_civil_eq by (unfold in_range; lia). done.
  - intros y m d Hy Hd. pose proof (date_ok_bounds y m d Hd) as [Hm Hdd]. exists (day_number (y, m, d)).
    split; [apply days_from_civil_eq; [unfold in_range; lia|done|done]|].
    split; [rewrite civil_from_days_eq; [by rewrite civil_of_day_number|apply day_number_epoch; [unfold in_range; lia|done]]|].
    pose proof (day_number_next (y, m, d) Hd) as Hn. destruct (next_day (y, m, d)) as [[y' m'] d'] eqn:En.
    assert (1970 <= y' <= 2 ^ 54 /\ 1 <= m' <= 12 /\ 1 <= d' <= 31) as (Hy' & Hm' & Hd').
    { unfold next_day in En. assert (days_in_month y m <= 31) by (unfold days_in_month; repeat case_match; lia).
      destruct (Z.ltb_spec d (days_in_month y m)), (Z.ltb_spec m 12); injection En as <- <- <-; lia. }
    rewrite days_from_civil_eq by done. by rewrite Hn.
  - intros z Hz. pose proof (civil_year z Hz) as Hy. destruct (civil_of_ok z) as [Hok Hn].
    rewrite civil_from_days_eq by lia. destruct (civil_of z) as [[y m] d]. exists y, m, d. split; [done|].
    split; [done|]. pose proof (date_ok_bounds y m d Hok) as [Hm Hd]. rewrite days_from_civil_eq by done. by rewrite Hn.
Qed.

(** ** The clock *)

(** The registers of a clock in binary 24-hour mode that shows a date and time. *)
Record shows (r : Z -> Z) (y m d h mi s : Z) : Prop := {
  sh_idle : Z.land (r 10) 128 = 0;
  sh_binary : Z.land (r 11) 4 <> 0;
  sh_24h : Z.land (r 11) 2 <> 0;
  sh_date : r 50 * 100 + r 9 = y /\ r 8 = m /\ r 7 = d;
  sh_time : r 4 = h /\ r 2 = mi /\ r 0 = s
}.

(** In binary mode the seconds since the epoch are those of the date shown. *)
Theorem rtc_binary_correct {E} `{Profile} r y m d h mi s : shows r y m d h mi s -> 1970 <= y <= 9999 ->
  date_ok (y, m, d) = true -> 
  read_epoch_secs (E := E) r = Ok (Some (day_number (y, m, d) * 86400 + h * 3600 + mi * 60 + s)).
Proof.
  intros [Hi Hb H24 (<- & <- & <-) (<- & <- & <-)] Hy Hd. pose proof (date_ok_bounds _ _ _ Hd) as [Hm Hdd].
  unfold read_epoch_secs. rewrite Hi. cbn [Z.eqb negb]. unfold read_all.
  apply Z.eqb_neq in Hb, H24. rewrite Hb, H24. cbn [negb res_bind year month day hour min sec].
  rewrite (proj2 (orb_false_iff _ _)) by lia. rewrite days_from_civil_eq by (unfold in_range; lia). done.
Qed.

(** A clock in BCD 24-hour mode at 12:34:56 on 2026-11-15. *)
Definition bcd_clock (reg : Z) : Z :=
  match reg with
  | 0 => 86 | 2 => 52 | 4 => 18 | 7 => 21 | 8 => 17 | 9 => 38 | 11 => 2 | 50 => 32 | _ => 0
  end.

(** In BCD mode the century register is not converted: the year 2026 is read
    as 3226. *)
Theorem rtc_bcd_misreads_century {E} `{Profile} :
  (exists t, read_all (E := E) bcd_clock = Ok t
     /\ (year t, month t, day t, hour t, min t, sec t) = (3226, 11, 15, 12, 34, 56))
  /\ read_epoch_secs (E := E) bcd_clock = Ok (Some (day_number (3226, 11, 15) * 86400 + 12 * 3600 + 34 * 60 + 56)).
Proof.
  split; [by eexists|]. unfold read_epoch_secs. replace (read_all bcd_clock) with (Ok (E := E)
    {| sec := 56; min := 34; hour := 12; day := 15; month := 11; year := 3226 |}) by reflexivity.
  simpl negb. cbn [res_bind year month day hour min sec]. rewrite days_from_civil_eq by (unfold in_range; lia). done.
Qed.
