(* ===== verification/FatDirent.v ===== *)
(** * FAT32 directory entries

    Model of kernel/src/filesystems/fstypes/fat32/dirent.rs: short names and
    their case flags, long names and their checksum, time stamps, and the
    cluster and size fields.  A string is the list of its characters (Unicode
    scalar values); [as_bytes] and [encode_utf16] are its encodings.  An entry is
    a list of 32 bytes.  The wall clock is an argument. *)

From S2P Require Import Prelude Errors Calendar Fat32.
Import Errors.Vfs.
Local Open Scope Z_scope.

(** ** Strings *)

Definition utf8_char (c : Z) : list Z :=
  if c <? 128 then [c]
  else if c <? 2048 then [192 + c / 64; 128 + c mod 64]
  else if c <? 65536 then [224 + c / 4096; 128 + (c / 64) mod 64; 128 + c mod 64]
  else [240 + c / 262144; 128 + (c / 4096) mod 64; 128 + (c / 64) mod 64; 128 + c mod 64].

Definition as_bytes (s : list Z) : list Z := flat_map utf8_char s.

Definition utf16_char (c : Z) : list Z :=
  if c <? 65536 then [c] else [55296 + (c - 65536) / 1024; 56320 + (c - 65536) mod 1024].

Definition encode_utf16 (s : list Z) : list Z := flat_map utf16_char s.

Definition is_high (u : Z) : bool := (55296 <=? u) && (u <? 56320).
Definition is_low (u : Z) : bool := (56320 <=? u) && (u <? 57344).

(** [String::from_utf16_lossy]: a surrogate without its other half becomes
    U+FFFD. *)
Fixpoint from_utf16_lossy (l : list Z) : list Z :=
  match l with
  | [] => []
  | u :: l' =>
      if is_high u then
        match l' with
        | v :: l'' =>
            if is_low v then 65536 + (u - 55296) * 1024 + (v - 56320) :: from_utf16_lossy l''
            else 65533 :: from_utf16_lossy l'
        | [] => [65533]
        end
      else if is_low u then 65533 :: from_utf16_lossy l'
      else u :: from_utf16_lossy l'
  end.

Definition is_lower (c : Z) : bool := (97 <=? c) && (c <=? 122).
Definition is_upper (c : Z) : bool := (65 <=? c) && (c <=? 90).
Definition to_upper (c : Z) : Z := if is_lower c then c - 32 else c.
Definition to_lower (c : Z) : Z := if is_upper c then c + 32 else c.

Definition eq_ignore_ascii_case (a b : list Z) : bool := bool_decide (map to_lower a = map to_lower b).

(** [s.rfind('.')] *)
Fixpoint rfind_dot (l : list Z) : option Z :=
  match l with
  | [] => None
  | c :: l =>
      match rfind_dot l with
      | Some i => Some (i + 1)
      | None => if c =? 46 then Some 0 else None
      end
  end.

(** ** Constants *)

Definition ATTR_VOLUME_ID : Z := 8.
Definition ATTR_DIRECTORY : Z := 16.
Definition ATTR_ARCHIVE : Z := 32.
Definition ATTR_LONG_NAME : Z := 15.
Definition NT_CASE_STEM_LOWER : Z := 8.
Definition NT_CASE_EXT_LOWER : Z := 16.
Definition DIR_DELETED : Z := 229.
Definition KANJI_LEAD : Z := 5.
Definition DIR_END : Z := 0.
Definition MAX_LFN_ENTRIES : Z := 20.
Definition DIR_ENTRY_SIZE : Z := 32.
Definition MAX_SFN_LEN : nat := 11.

Record DirEntrySlot := { vfat_entries : list (list Z); sfn_entry : list Z }.

(** [e[i]] of an entry. *)
Definition at_ (e : list Z) (i : nat) : Z := nth i e 0.

(** ** Time stamps *)

Section Stamps.
Context `{Profile}.

Definition epoch_to_dos_datetime (epoch : Z) : res VfsError (Z * Z) :=
  let days := epoch / 86400 in
  let rem := epoch mod 86400 in
  let hour := rem / 3600 in
  let min := (rem mod 3600) / 60 in
  let sec := rem mod 60 in
  let? ymd := civil_from_days days in
  let '(year, month, day) := ymd in
  if negb ((1980 <=? year) && (year <=? 2107)) then Ok (0, 0)
  else
    let date := Z.lor (Z.lor (Z.shiftl (year - 1980) 9) (Z.shiftl month 5)) day in
    let time := Z.lor (Z.lor (Z.shiftl hour 11) (Z.shiftl min 5)) (sec / 2) in
    Ok (time, date).

Definition dos_datetime_to_epoch (time date : Z) : res VfsError (option Z) :=
  let year := 1980 + Z.land (Z.shiftr date 9) 127 in
  let month := Z.land (Z.shiftr date 5) 15 in
  let day := Z.land date 31 in
  let hour := Z.land (Z.shiftr time 11) 31 in
  let min := Z.land (Z.shiftr time 5) 63 in
  let sec := Z.land time 31 * 2 in
  if (month =? 0) || (12 <? month) || (day =? 0) || (31 <? day) || (23 <? hour) || (59 <? min) || (59 <? sec)
  then Ok None
  else
    let? days := days_from_civil year month day in
    Ok (Some (days * 86400 + hour * 3600 + min * 60 + sec)).

(** The entry, and the time stamped. *)
Definition set_timestamps (now : option Z) (entry : list Z) : res VfsError (list Z * option Z) :=
  match now with
  | None => Ok (entry, None)
  | Some epoch =>
      let? td := epoch_to_dos_datetime epoch in
      let '(time, date) := td in
      let t := le_bytes 2 time in
      let d := le_bytes 2 date in
      let? e := index_set entry 13 0 in
      let? e := copy_at e 14 t in
      let? e := copy_at e 16 d in
      let? e := copy_at e 18 d in
      let? e := copy_at e 22 t in
      let? e := copy_at e 24 d in
      Ok (e, Some epoch)
  end.

Definition mtime_from_entry (entry : list Z) : res VfsError Z :=
  let time := le_val [at_ entry 22; at_ entry 23] in
  let date := le_val [at_ entry 24; at_ entry 25] in
  let? o := dos_datetime_to_epoch time date in
  Ok (default 0 o).
End Stamps.

(** ** Short names *)

Definition pad (n : nat) (l : list Z) : list Z := take n (l ++ replicate n 32).

(** One past the last byte that is not a space. *)
Fixpoint trimmed (l : list Z) : nat :=
  match l with
  | [] => O
  | b :: l => match trimmed l with O => if b =? 32 then O else 1%nat | n => S n end
  end.

Definition recase (lower : bool) (b : Z) : Z := if lower then to_lower b else to_upper (to_lower b).

Definition decode_sfn_case (sfn : list Z) (nt_flags : Z) : list Z :=
  let stem := take (trimmed (take 8 sfn)) sfn in
  let stem_lower := negb (Z.land nt_flags NT_CASE_STEM_LOWER =? 0) in
  let name := map (recase stem_lower)
    (match stem with b :: r => (if b =? KANJI_LEAD then 229 else b) :: r | [] => [] end) in
  let ext := take 3 (drop 8 sfn) in
  let ext_start := match list_find (fun b => b = 32) ext with Some (p, _) => p | None => 3%nat end in
  if (0 <? ext_start)%nat then
    let ext_lower := negb (Z.land nt_flags NT_CASE_EXT_LOWER =? 0) in
    name ++ 46 :: map (recase ext_lower) (take ext_start ext)
  else name.

(** The characters of valid UTF-8. *)
Fixpoint from_utf8 (fuel : nat) (l : list Z) : option (list Z) :=
  let cont b := (128 <=? b) && (b <? 192) in
  match fuel, l with
  | _, [] => Some []
  | O, _ => None
  | S fuel, a :: l =>
      if a <? 128 then cons a <$> from_utf8 fuel l
      else if (194 <=? a) && (a <? 224) then
        match l with
        | b :: l => if cont b then cons ((a - 192) * 64 + (b - 128)) <$> from_utf8 fuel l else None
        | _ => None
        end
      else if (224 <=? a) && (a <? 240) then
        match l with
        | b :: c :: l =>
            let v := (a - 224) * 4096 + (b - 128) * 64 + (c - 128) in
            if cont b && cont c && (2048 <=? v) && negb (is_high v || is_low v)
            then cons v <$> from_utf8 fuel l else None
        | _ => None
        end
      else if (240 <=? a) && (a <? 245) then
        match l with
        | b :: c :: d :: l =>
            let v := (a - 240) * 262144 + (b - 128) * 4096 + (c - 128) * 64 + (d - 128) in
            if cont b && cont c && cont d && (65536 <=? v) && (v <? 1114112)
            then cons v <$> from_utf8 fuel l else None
        | _ => None
        end
      else None
  end.

Definition trim_end_nul (s : list Z) : list Z :=
  rev ((fix go l := match l with 0 :: l => go l | l => l end) (rev s)).

Definition decode_volume_label (sfn : list Z) : list Z :=
  let l := take (trimmed sfn) sfn in
  trim_end_nul (default [] (from_utf8 (length l) l)).

(** 0xE5 marks a deleted entry: as a first byte it is stored as 0x05. *)
Definition kanji (sfn : list Z) : list Z :=
  match sfn with b :: r => (if b =? DIR_DELETED then KANJI_LEAD else b) :: r | [] => [] end.

Definition make_sfn_bytes (stem ext : list Z) : list Z :=
  kanji (pad 8 (map to_upper (take 8 stem))) ++ pad 3 (map to_upper (take 3 ext)).

(** [format!("{}", n)] *)
Fixpoint decimal_loop (fuel : nat) (n : Z) (acc : list Z) : list Z :=
  match fuel with
  | O => acc
  | S fuel => if n <? 10 then 48 + n :: acc else decimal_loop fuel (n / 10) (48 + n mod 10 :: acc)
  end.
Definition decimal (n : Z) : list Z := decimal_loop 20 n [].

(** The short name with the numeric tail [~counter]. *)
Definition tailed (stem ext : list Z) (counter : Z) : list Z :=
  let suffix := 126 :: decimal counter in
  let stem_avail := (8 - length suffix)%nat in
  let sfn := kanji (pad 8 (map to_upper (take stem_avail stem))) in
  take stem_avail sfn ++ suffix ++ pad 3 (map to_upper (take 3 ext)).

Fixpoint tail_search (fuel : nat) (stem ext : list Z) (existing : list (list Z)) (counter : Z) : option (list Z) :=
  match fuel with
  | O => None
  | S fuel =>
      let sfn := tailed stem ext counter in
      if bool_decide (sfn ∉ existing) then Some sfn
      else if 999999 <? counter + 1 then None
      else tail_search fuel stem ext existing (counter + 1)
  end.

(** The stem and the extension of a name (its bytes). *)
Definition split_name (name : list Z) : list Z * list Z :=
  match rfind_dot name with
  | Some dot => (take (Z.to_nat dot) name, drop (Z.to_nat (dot + 1)) name)
  | None => (name, [])
  end.

Definition sfn_from_name (name : list Z) (existing_sfns : list (list Z)) : option (list Z) :=
  if bool_decide (name = []) then None
  else
    let '(stem, ext) := split_name (as_bytes name) in
    let base := make_sfn_bytes stem ext in
    if bool_decide (base ∉ existing_sfns) then Some base
    else tail_search (Z.to_nat 999999) stem ext existing_sfns 1.

Definition vfat_checksum (sfn : list Z) : Z :=
  foldl (fun sum b => (Z.lor (Z.shiftr sum 1) (Z.shiftl sum 7 mod 256) + b) mod 256) 0 sfn.

Definition ILLEGAL : list Z := [92; 47; 58; 42; 63; 34; 60; 62; 124; 59; 44; 61; 43; 91; 93].

Definition needs_vfat (name : list Z) : bool :=
  let bytes := as_bytes name in
  if bool_decide (name = [46] \/ name = [46; 46]) then false
  else
    let dot := rfind_dot bytes in
    let len := Z.of_nat (length bytes) in
    let base_len := default len dot in
    let ext_len := match dot with Some d => len - d - 1 | None => 0 end in
    let has_illegal := existsb (fun b => bool_decide (b ∈ ILLEGAL)) bytes in
    let has_lower := existsb is_lower bytes in
    let has_upper := existsb is_upper bytes in
    (8 <? base_len) || (3 <? ext_len) || has_illegal || (has_lower && has_upper)
    || existsb (fun b => (127 <? b) || (b =? 32)) bytes.

Definition lfn_slot_count (name : list Z) : Z := (Z.of_nat (length (encode_utf16 name)) + 12) / 13.

Definition nt_case_flags (name : list Z) : Z :=
  let bytes := as_bytes name in
  let '(stem, ext) :=
    match rfind_dot bytes with
    | Some d => if d =? 0 then (bytes, []) else (take (Z.to_nat d) bytes, drop (Z.to_nat (d + 1)) bytes)
    | None => (bytes, [])
    end in
  let lower l := negb (bool_decide (l = [])) && forallb (fun b => negb (is_upper b)) l in
  Z.lor (if lower stem then NT_CASE_STEM_LOWER else 0) (if lower ext then NT_CASE_EXT_LOWER else 0).

(** ** Long names *)

(** Where character [index] of a slot is. *)
Definition vfat_pos (index : nat) : option nat :=
  if (index <=? 4)%nat then Some (1 + index * 2)%nat
  else if (index <=? 10)%nat then Some (14 + (index - 5) * 2)%nat
  else if (index <=? 12)%nat then Some (28 + (index - 11) * 2)%nat
  else None.

Definition get_vfat_char (entry : list Z) (index : nat) : Z :=
  match vfat_pos index with
  | Some p => le_val [at_ entry p; at_ entry (p + 1)]
  | None => 0
  end.

Definition set_vfat_char (entry : list Z) (index : nat) (c : Z) : list Z :=
  match vfat_pos index with
  | Some p => <[(p + 1)%nat := c / 256 mod 256]> (<[p := c mod 256]> entry)
  | None => entry
  end.

(** The characters of one slot, up to a terminator. *)
Fixpoint slot_chars (entry : list Z) (idxs : list nat) : list Z :=
  match idxs with
  | [] => []
  | j :: idxs =>
      let c := get_vfat_char entry j in
      if (c =? 0) || (c =? 65535) then [] else c :: slot_chars entry idxs
  end.

Definition decode_vfat_name (entries : list (list Z)) : list Z :=
  from_utf16_lossy
    (flat_map (fun entry => if (at_ entry 0 =? DIR_DELETED) || (Z.land (at_ entry 0) 31 =? 0) then []
                            else slot_chars entry (seq 0 13)) (rev entries)).

Definition blank_entry : list Z := replicate 32 0.

(** The slot for characters [13 * i ..]. *)
Definition vfat_slot (chars : list Z) (needed i : nat) (checksum : Z) : list Z :=
  let part := take 13 (drop (i * 13) chars) in
  let ord := Z.of_nat (needed - i) mod 256 in
  let entry := <[0%nat := if (i =? 0)%nat then Z.lor ord 64 else ord]> blank_entry in
  let entry := <[13%nat := checksum]> (<[12%nat := 0]> (<[11%nat := ATTR_LONG_NAME]> entry)) in
  foldl (fun e j => set_vfat_char e j (nth j part 65535)) entry (seq 0 13).

Definition encode_vfat_entries (name : list Z) (checksum : Z) : list (list Z) :=
  let chars := encode_utf16 name in
  let needed := ((length chars + 12) / 13)%nat in
  rev (map (fun i => vfat_slot chars needed i checksum) (seq 0 needed)).

(** ** Cluster and size *)

Definition first_clus_from_entry (entry : list Z) : Z :=
  Z.lor (Z.shiftl (le_val [at_ entry 20; at_ entry 21]) 16) (le_val [at_ entry 26; at_ entry 27]).

Definition set_first_clus_in_entry (entry : list Z) (cluster : Z) : list Z :=
  let lo := cluster mod 65536 in
  let hi := Z.shiftr cluster 16 mod 65536 in
  <[27%nat := lo / 256]> (<[26%nat := lo mod 256]> (<[21%nat := hi / 256]> (<[20%nat := hi mod 256]> entry))).

Definition file_size_from_entry (entry : list Z) : Z :=
  le_val [at_ entry 28; at_ entry 29; at_ entry 30; at_ entry 31].

Definition set_file_size_in_entry (entry : list Z) (size : Z) : list Z :=
  <[31%nat := size / 16777216 mod 256]> (<[30%nat := size / 65536 mod 256]>
    (<[29%nat := size / 256 mod 256]> (<[28%nat := size mod 256]> entry))).
