(* ===== verification/FatFile.v ===== *)
(** * FAT32 files: reading and writing

    Model of the data paths of [read_at] and [write_at] in
    kernel/src/filesystems/fstypes/fat32/inode.rs: an inode, its chain, the reads
    with their runs of adjacent clusters, their batches of whole runs and their
    partial heads and tails; the clusters a write needs, which new clusters are
    zeroed, and the loop that writes a partial head, runs of whole clusters in
    batches, and a partial tail.  The inode's lock is held during each operation;
    the inode around a write is in FatNode.  The cluster size is positive on every
    volume [parse_bpb] accepts, so the divisions by it do not panic. *)

From S2P Require Import Prelude Bits Errors BlockDev Fat32 FatAlloc FatDirent.
Import Errors.Vfs.
Local Open Scope Z_scope.

Inductive FileType := Regular | Directory | Symlink | Fifo | CharDevice | BlockDeviceFile | Socket.
#[global] Instance FileType_eq_dec : EqDecision FileType.
Proof. solve_decision. Defined.

(** The inode without its superblock and its locks. *)
Record Fat32Inode := mkInode {
  first_clus : Z;
  file_size : Z;
  file_type : FileType;
  ino : Z;
  mtime : Z;
  parent_clus : Z;
  entry_name : list Z;
  unlinked : bool;
  dir_cache : option (Z * list DirEntrySlot);
  dir_generation : Z
}.

Definition MAX_RUN_BYTES : Z := 252 * 1024.

(** How many clusters after the first are physically adjacent. *)
Fixpoint adjacent (l : list Z) : Z :=
  match l with
  | c :: ((c' :: _) as l) => if c' =? c + 1 then 1 + adjacent l else 0
  | _ => 0
  end.

(** A queued request: sectors, and where in the caller's buffer they go. *)
Record Req := { req_lba : Z; req_count : Z; req_off : Z; req_len : Z }.

Section Read.
Context `{Profile} `{BatchDevice D} (b : Bpb).

(** The clusters of the run at [ci], capped to what is still wanted and to the
    largest request. *)
Definition run_length (chain : list Z) (total ci pos clus_off : Z) : Z :=
  let run_len := 1 + adjacent (drop (Z.to_nat ci) chain) in
  let clusters_needed := (total - pos + clus_off + byts_per_clus b - 1) / byts_per_clus b in
  let run_len := Z.min run_len (Z.max clusters_needed 1) in
  Z.min run_len (Z.max (MAX_RUN_BYTES / byts_per_clus b) 1).

(** [&l[a..a + n]] *)
Definition slice_at (l : list Z) (a n : Z) : res VfsError (list Z) :=
  match get_range l a n with Some r => Ok r | None => Panic end.

(** The device fills the slices of the caller's buffer. *)
Fixpoint fill (buf : list Z) (batch : list Req) (data : list (list Z)) : res VfsError (list Z) :=
  match batch, data with
  | r :: batch, d :: data =>
      let? buf := copy_at buf (req_off r) (take (Z.to_nat (req_len r)) d) in
      fill buf batch data
  | _, _ => Ok buf
  end.

Definition flush_batch (dev : D) (batch : list Req) (buf : list Z) : res VfsError (list Z) :=
  let? data := read_sectors_batch dev (map (fun r => (req_lba r, req_count r)) batch) in
  fill buf batch data.

(** Whether the run at [ci] will not be a whole one. *)
Definition next_will_be_partial (chain : list Z) (total ci pos : Z) : bool :=
  if (total <=? pos) || (Z.of_nat (length chain) <=? ci) then true
  else
    let next_bytes := run_length chain total ci pos 0 * byts_per_clus b in
    negb (Z.min (total - pos) next_bytes =? next_bytes).

Fixpoint read_loop (fuel : nat) (dev : D) (chain : list Z) (total ci pos clus_off : Z) (batch : list Req)
  (buf : list Z) : res VfsError (list Req * Z * list Z) :=
  if (pos <? total) && (ci <? Z.of_nat (length chain)) then
    match fuel with
    | O => Panic
    | S fuel =>
        let run_len := run_length chain total ci pos clus_off in
        let run_bytes := run_len * byts_per_clus b in
        let want := Z.min (total - pos) (run_bytes - clus_off) in
        let? first := index chain ci in
        let run_lba := clus_to_lba b first in
        if (clus_off =? 0) && (want =? run_bytes) then
          let batch := batch ++ [{| req_lba := run_lba; req_count := want / 512; req_off := pos; req_len := want |}] in
          let pos := pos + want in
          let ci := ci + run_len in
          if (16 <=? Z.of_nat (length batch)) || next_will_be_partial chain total ci pos || (total <=? pos) then
            let? buf := flush_batch dev batch buf in
            read_loop fuel dev chain total ci pos clus_off [] buf
          else read_loop fuel dev chain total ci pos clus_off batch buf
        else
          let? buf := flush_batch dev batch buf in
          let? run_buf := read_sectors dev run_lba (run_bytes / 512) in
          let? part := slice_at run_buf clus_off want in
          let? buf := copy_at buf pos part in
          let pos := pos + want in
          if total <=? pos then Ok ([], pos, buf)
          else read_loop fuel dev chain total (ci + run_len) pos 0 [] buf
    end
  else Ok (batch, pos, buf).

Definition ensure_chain_cache (self : Fat32Inode) : cmd (Fs (D * FatCache)) (list Z) :=
  chain_for b (first_clus self).

(** The caller's buffer as it is left, and the number of bytes read. *)
Definition read_at (self : Fat32Inode) (offset : Z) (buf : list Z) : cmd (Fs (D * FatCache)) (list Z * Z) :=
  if negb (bool_decide (file_type self = Regular)) then cmd_res (Err IsADirectory)
  else if (file_size self <=? offset) || bool_decide (buf = []) || (first_clus self =? 0) then cmd_ret (buf, 0)
  else
    let clus_size := byts_per_clus b in
    let total := Z.min (Z.of_nat (length buf)) (file_size self - offset) in
    do! chain := ensure_chain_cache self in
    if bool_decide (chain = []) then cmd_ret (buf, 0)
    else fun s =>
      (s, let? st := read_loop (length chain) (fat s).1 chain total (offset / clus_size) 0
                       (offset mod clus_size) [] buf in
          let '(batch, pos, buf) := st in
          let? buf := flush_batch (fat s).1 batch buf in
          Ok (buf, pos)).
End Read.

(** ** Writing *)

Section Write.
Context `{Profile} `{BatchWriteDevice D} (b : Bpb).
Notation clus := (byts_per_clus b).

Definition needed_clus (end_byte : Z) : Z :=
  if end_byte =? 0 then 0 else ((end_byte - 1) / clus + 1) mod 2 ^ 32.

(** [for w in clusters.windows(2) { self.sb.write_fat_entry(w[0], w[1])?; }] *)
Fixpoint link_new (clusters : list Z) : cmd (Fs (D * FatCache)) unit :=
  match clusters with
  | c :: ((c' :: _) as l) => do! _ := lift (write_fat_entry b c c') in link_new l
  | _ => cmd_ret tt
  end.

(** New clusters the write does not touch are zeroed; [idx] is the place of the
    first in the file. *)
Fixpoint zero_new (clusters : list Z) (idx write_start write_end : Z) : cmd (Fs (D * FatCache)) unit :=
  match clusters with
  | [] => cmd_ret tt
  | c :: l =>
      let cs := idx * clus in
      let ce := cs + clus in
      if ((write_start <=? cs) && (ce <=? write_end)) || ((cs <? write_end) && (write_start <? ce))
      then zero_new l (idx + 1) write_start write_end
      else
        do! _ := lift (write_cluster b c (replicate (Z.to_nat clus) 0)) in
        zero_new l (idx + 1) write_start write_end
  end.

Definition flush_write_batch (batch : list WriteReq) : cmd (D * FatCache) unit := fun '(d, c) =>
  let '(d, r) := write_sectors_batch d batch in ((d, c), r).

(** The adjacent clusters from [ci] on that the write may take. *)
Definition write_run (chain : list Z) (start_idx offset len ci rest clus_off : Z) : Z :=
  let cap := start_idx + (offset + len + clus - 1) / clus in
  let run_len := 1 + Z.min (adjacent (drop (Z.to_nat ci) chain)) (Z.max 0 (cap - ci)) in
  Z.min run_len ((rest + clus_off + clus - 1) / clus).

(** Read, modify and write [part] at [off] of a cluster; [old] says whether the
    bytes around it are read. *)
Definition patch_cluster (old : bool) (cluster off : Z) (part : list Z) : cmd (D * FatCache) unit :=
  do! cbuf := (if old then read_cluster b cluster else cmd_ret (replicate (Z.to_nat clus) 0)) in
  do! cbuf := cmd_res (copy_at cbuf off part) in
  write_cluster b cluster cbuf.

Fixpoint write_loop (fuel : nat) (chain buf : list Z) (file_size offset ci done clus_off : Z) (batch : list WriteReq)
  : cmd (D * FatCache) (list WriteReq) :=
  let len := Z.of_nat (length buf) in
  if (done <? len) && (ci <? Z.of_nat (length chain)) then
    match fuel with
    | O => cmd_res Panic
    | S fuel =>
        let run_len := write_run chain (offset / clus) offset len ci (len - done) clus_off in
        do! cur := cmd_res (index chain ci) in
        if negb (clus_off =? 0) then
          do! _ := flush_write_batch batch in
          let want := Z.min (len - done) (clus - clus_off) in
          do! part := cmd_res (slice_at buf done want) in
          do! _ := patch_cluster true cur clus_off part in
          if len <=? done + want then cmd_ret []
          else write_loop fuel chain buf file_size offset (ci + 1) (done + want) 0 []
        else
          let remaining := len - done in
          let whole_in_run := Z.min run_len (remaining / clus) in
          if 0 <? whole_in_run then
            do! part := cmd_res (slice_at buf done (whole_in_run * clus)) in
            let batch := batch ++ [(part, clus_to_lba b cur, whole_in_run * sec_per_clus b)] in
            let done := done + whole_in_run * clus in
            let ci := ci + whole_in_run in
            let next_will_be_partial :=
              if (len <=? done) || (Z.of_nat (length chain) <=? ci) then true else len - done <? clus in
            if (16 <=? Z.of_nat (length batch)) || next_will_be_partial || (len <=? done) then
              do! _ := flush_write_batch batch in
              if len <=? done then cmd_ret [] else write_loop fuel chain buf file_size offset ci done clus_off []
            else write_loop fuel chain buf file_size offset ci done clus_off batch
          else if (0 <? remaining) && (remaining <? clus) then
            do! _ := flush_write_batch batch in
            do! part := cmd_res (slice_at buf done remaining) in
            do! _ := patch_cluster (ci * clus <? file_size) cur 0 part in
            cmd_ret []
          else write_loop fuel chain buf file_size offset ci done clus_off batch
    end
  else cmd_ret batch.

(** The data of [write_at] onto the chain of the file. *)
Definition write_data (chain buf : list Z) (file_size offset : Z) : cmd (D * FatCache) unit :=
  do! batch := write_loop (length chain) chain buf file_size offset (offset / clus) 0 (offset mod clus) [] in
  flush_write_batch batch.
End Write.
