(* ===== verification/FatFileFacts.v ===== *)
(** * Correctness of file reads

    The runs, batches and partial clusters of [read_at] put together exactly the
    bytes of the file. *)

From S2P Require Import Prelude Bits Errors BlockDev Fat32 Fat32Facts Fat32Spec.
From S2P Require Import FatAlloc FatAllocFacts FatChain FatVolumeFacts FatData FatFile.
Import Errors.Vfs.
Local Open Scope Z_scope.

(** ** Runs *)

Lemma adjacent_cons c c' l : adjacent (c :: c' :: l) = if c' =? c + 1 then 1 + adjacent (c' :: l) else 0.
Proof. done. Qed.

Lemma adjacent_nonneg l : 0 <= adjacent l.
Proof.
  induction l as [|c [|c' l] IH]; [done|done|]. rewrite adjacent_cons. destruct (c' =? c + 1); lia.
Qed.

Lemma adjacent_length l : l <> [] -> adjacent l < Z.of_nat (length l).
Proof.
  induction l as [|c [|c' l] IH]; intros Hne; [done|done|]. specialize (IH ltac:(done)).
  rewrite adjacent_cons. change (length (c :: c' :: l)) with (S (length (c' :: l))). destruct (c' =? c + 1); lia.
Qed.

Lemma adjacent_nth l : forall k : nat, Z.of_nat k <= adjacent l -> nth k l 0 = nth 0 l 0 + Z.of_nat k.
Proof.
  induction l as [|c l IH]; intros k Hk; [simpl in Hk; destruct k; simpl; lia|].
  destruct k as [|k]; [simpl; lia|]. destruct l as [|c' l]; [simpl in Hk; lia|].
  rewrite adjacent_cons in Hk. destruct (Z.eqb_spec c' (c + 1)) as [->|]; [|lia].
  specialize (IH k ltac:(lia)). change (nth (S k) (c :: c + 1 :: l) 0) with (nth k (c + 1 :: l) 0).
  rewrite IH. simpl. lia.
Qed.

Section Runs.
Context `{Profile} `{BatchDevice D} (b : Bpb) (Hv : volume_ok b) (dev : D).
Context (chain : list Z) (Hch : Forall (valid b) chain).

Lemma cluster_size : byts_per_clus b = 512 * sec_per_clus b /\ 1 <= sec_per_clus b.
Proof. split; apply Hv. Qed.

(** Byte [i] of the file whose clusters are [chain]. *)
Definition file_byte (i : Z) : Z :=
  disk_byte dev (512 * clus_to_lba b (nth (Z.to_nat (i / byts_per_clus b)) chain 0) + i mod byts_per_clus b).

Definition live_dev : Prop := healthy dev /\ volume_end b <= sector_count dev.

Lemma run_length_bounds total ci pos clus_off : 0 <= ci < Z.of_nat (length chain) ->
  1 <= run_length b chain total ci pos clus_off <= Z.of_nat (length chain) - ci
  /\ forall k, 0 <= k < run_length b chain total ci pos clus_off ->
     nth (Z.to_nat (ci + k)) chain 0 = nth (Z.to_nat ci) chain 0 + k.
Proof.
  intros Hci. unfold run_length. cbv zeta. set (l := drop (Z.to_nat ci) chain).
  assert (Z.of_nat (length l) = Z.of_nat (length chain) - ci) as Hlen by (unfold l; rewrite length_drop; lia).
  pose proof (adjacent_nonneg l). assert (l <> []) as Hne by (intros E; rewrite E in Hlen; simpl in Hlen; lia).
  pose proof (adjacent_length l Hne). split; [lia|]. intros k Hk.
  pose proof (adjacent_nth l (Z.to_nat k) ltac:(lia)) as Hn.
  unfold l in Hn. rewrite !nth_skipn in Hn. rewrite Z2Nat.inj_add by lia. rewrite Nat.add_0_r in Hn. lia.
Qed.

Lemma nth_valid (i : nat) : (i < length chain)%nat -> valid b (nth i chain 0).
Proof. intros Hi. rewrite Forall_forall in Hch. apply Hch. by apply list_elem_of_In, nth_In. Qed.

Section Run.
Context (ci run : Z) (Hci : 0 <= ci) (Hrun : 1 <= run <= Z.of_nat (length chain) - ci).
Context (Hadj : forall k, 0 <= k < run -> nth (Z.to_nat (ci + k)) chain 0 = nth (Z.to_nat ci) chain 0 + k).
Let lba := clus_to_lba b (nth (Z.to_nat ci) chain 0).

Lemma run_in_volume : 0 <= lba /\ lba + run * sec_per_clus b <= volume_end b.
Proof.
  pose proof (nth_valid (Z.to_nat ci) ltac:(lia)) as H0'. pose proof (nth_valid (Z.to_nat (ci + (run - 1))) ltac:(lia)) as H1'.
  rewrite Hadj in H1' by lia. unfold lba, clus_to_lba, volume_end, valid in *.
  destruct (base_pos b Hv). pose proof (vo_spc b Hv). pose proof (bo_fat_sz b (vo_bpb b Hv)). nia.
Qed.

Lemma run_bytes i : 0 <= i < run * byts_per_clus b ->
  nth (Z.to_nat i) (flat_map (sector dev) (seqZ lba (run * sec_per_clus b))) 0 = file_byte (ci * byts_per_clus b + i).
Proof.
  intros Hi. destruct cluster_size as [Hcb Hspc]. rewrite sectors_nth; [|apply run_in_volume|nia].
  unfold file_byte. rewrite Z.div_add_l by lia. rewrite (Z.add_comm (ci * byts_per_clus b) i), Z.mod_add by lia.
  pose proof (Z.div_mod i (byts_per_clus b) ltac:(lia)) as Hdm.
  pose proof (Z.mod_pos_bound i (byts_per_clus b) ltac:(lia)) as Hm. set (k := i / byts_per_clus b) in *.
  assert (0 <= k < run) as Hk by nia. rewrite Hadj by done. f_equal.
  pose proof (nth_valid (Z.to_nat ci) ltac:(lia)) as Hv0. unfold lba, clus_to_lba, valid in *.
  rewrite !Z.max_r by lia. rewrite Hcb in *. nia.
Qed.
End Run.

(** ** The caller's buffer *)

Section Buffer.
Context (orig : list Z) (offset : Z).

(** The first [pos] bytes are the file's from [offset], the rest as they were. *)
Definition filled (pos : Z) (buf : list Z) : Prop :=
  length buf = length orig
  /\ forall j : nat, (j < length orig)%nat ->
     buf !! j = if decide (Z.of_nat j < pos) then Some (file_byte (offset + Z.of_nat j)) else orig !! j.

Definition req_data (r : Req) : list Z := flat_map (sector dev) (seqZ (req_lba r) (req_count r)).

Record req_ok (r : Req) : Prop := {
  rq_lba : 0 <= req_lba r;
  rq_count : 1 <= req_count r;
  rq_end : req_lba r + req_count r <= volume_end b;
  rq_len : req_len r = 512 * req_count r;
  rq_off : 0 <= req_off r;
  rq_fits : req_off r + req_len r <= Z.of_nat (length orig)
}.

(** The buffer once the batch has been read. *)
Definition after_batch (batch : list Req) (buf : list Z) : list Z :=
  foldl (fun buf r => splice buf (Z.to_nat (req_off r)) (req_data r)) buf batch.

Definition pending (batch : list Req) (pos : Z) (buf : list Z) : Prop :=
  length buf = length orig /\ Forall req_ok batch /\ filled pos (after_batch batch buf).

Lemma length_req_data r : req_ok r -> Z.of_nat (length (req_data r)) = req_len r.
Proof. intros []. unfold req_data. rewrite sectors_length by lia. lia. Qed.

Lemma fill_batch batch : forall buf, length buf = length orig -> Forall req_ok batch ->
  fill buf batch (map req_data batch) = Ok (after_batch batch buf).
Proof.
  induction batch as [|r batch IH]; intros buf Hl Hr; [done|]. apply Forall_cons in Hr as [Hr Hrs].
  pose proof (length_req_data r Hr) as Hd. cbn [map fill]. rewrite take_ge by lia. unfold copy_at.
  rewrite (proj2 (andb_true_iff _ _)) by (destruct Hr; lia). cbn [res_bind]. apply IH; [|done].
  rewrite splice_length; [done|]. destruct Hr. lia.
Qed.

Lemma flush_batch_spec batch pos buf : pending batch pos buf ->
  match flush_batch dev batch buf with
  | Ok buf' => filled pos buf'
  | Err _ => ~ live_dev
  | Panic => False
  end.
Proof.
  intros (Hl & Hr & Hf). unfold flush_batch. set (reqs := map _ batch).
  pose proof (read_sectors_batch_no_panic dev reqs) as Hn.
  destruct (read_sectors_batch dev reqs) as [data|e|] eqn:E; [| |done]; cbn [res_bind].
  - apply read_sectors_batch_ok in E. unfold reqs in E. rewrite map_map in E. subst data.
    change (map _ batch) with (map req_data batch). by rewrite fill_batch.
  - intros [Hh Hs]. destruct (read_sectors_batch_live dev reqs Hh) as [bufs Hb]; [|congruence].
    apply Forall_fmap. eapply Forall_impl; [exact Hr|]. intros r []. simpl. lia.
Qed.

Lemma filled_splice pos buf data n : filled pos buf -> 0 <= pos -> n = Z.of_nat (length data) ->
  pos + n <= Z.of_nat (length orig) ->
  (forall j : nat, (j < length data)%nat -> nth j data 0 = file_byte (offset + pos + Z.of_nat j)) ->
  filled (pos + n) (splice buf (Z.to_nat pos) data).
Proof.
  intros [Hl Hf] Hp -> Hn Hd. split; [rewrite splice_length; lia|]. intros j Hj. rewrite splice_lookup by lia.
  destruct (decide (Z.to_nat pos <= j < Z.to_nat pos + length data)%nat) as [Hin|Hout].
  - rewrite decide_True by lia. destruct (lookup_lt_is_Some_2 data (j - Z.to_nat pos) ltac:(lia)) as [x Hx].
    rewrite Hx. f_equal. specialize (Hd (j - Z.to_nat pos)%nat ltac:(lia)).
    rewrite (nth_lookup_Some _ _ _ _ Hx) in Hd. rewrite Hd. f_equal. lia.
  - rewrite Hf by done. destruct (decide (Z.of_nat j < pos)), (decide (Z.of_nat j < pos + Z.of_nat (length data))); done || lia.
Qed.

Lemma pending_nil pos buf : filled pos buf -> pending [] pos buf.
Proof. intros Hf. split_and!; [apply Hf|constructor|done]. Qed.

Lemma pending_snoc batch pos buf r : pending batch pos buf -> req_ok r -> req_off r = pos ->
  (forall j : nat, (j < length (req_data r))%nat -> nth j (req_data r) 0 = file_byte (offset + pos + Z.of_nat j)) ->
  pending (batch ++ [r]) (pos + req_len r) buf.
Proof.
  intros (Hl & Hr & Hf) Hok <- Hd. pose proof (length_req_data r Hok) as Hlen.
  split_and!; [done|apply Forall_app; by split; [|constructor]|].
  unfold after_batch. rewrite foldl_app. simpl. apply filled_splice; [done|apply Hok|lia|apply Hok|done].
Qed.

(** ** The loop *)

Context (total : Z) (Htotal : 0 <= total <= Z.of_nat (length orig)) (Hoff : 0 <= offset).

(** How far the chain lets the read get. *)
Definition limit : Z := Z.max 0 (Z.min total (Z.of_nat (length chain) * byts_per_clus b - offset)).

(** The loop is at byte [pos], [clus_off] into cluster [ci]. *)
Record at_pos (ci pos clus_off : Z) (batch : list Req) (buf : list Z) : Prop := {
  ap_ci : 0 <= ci;
  ap_pos : 0 <= pos <= limit;
  ap_off : 0 <= clus_off < byts_per_clus b;
  ap_at : offset + pos = ci * byts_per_clus b + clus_off;
  ap_pending : pending batch pos buf
}.

(** The bytes of one run at the loop's position. *)
Section Step.
Context (ci pos clus_off : Z) (batch : list Req) (buf : list Z) (Hat : at_pos ci pos clus_off batch buf).
Context (Hmore : pos < total) (Hci : ci < Z.of_nat (length chain)).
Let run := run_length b chain total ci pos clus_off.
Let want := Z.min (total - pos) (run * byts_per_clus b - clus_off).
Let lba := clus_to_lba b (nth (Z.to_nat ci) chain 0).

Lemma step_run : 1 <= run <= Z.of_nat (length chain) - ci
  /\ (0 <= lba /\ lba + run * sec_per_clus b <= volume_end b)
  /\ forall i, 0 <= i < run * byts_per_clus b ->
     nth (Z.to_nat i) (flat_map (sector dev) (seqZ lba (run * sec_per_clus b))) 0
     = file_byte (ci * byts_per_clus b + i).
Proof.
  pose proof (ap_ci _ _ _ _ _ Hat) as H0'.
  destruct (run_length_bounds total ci pos clus_off (conj H0' Hci)) as [Hr Hadj].
  split; [done|]. split; [by apply run_in_volume|by apply run_bytes].
Qed.

Lemma step_want : 1 <= want /\ pos + want <= limit.
Proof.
  destruct step_run as (Hr & _ & _). destruct Hat as [H0' Hp Ho Ha _]. destruct cluster_size as [Hcb Hspc].
  unfold want, limit in *. nia.
Qed.

Lemma step_whole : clus_off = 0 -> want = run * byts_per_clus b ->
  at_pos (ci + run) (pos + want) 0
    (batch ++ [{| req_lba := lba; req_count := want / 512; req_off := pos; req_len := want |}]) buf.
Proof.
  intros Hz Hw. destruct step_run as (Hr & [Hlo Hhi] & Hbytes). destruct step_want as [Hw1 Hw2].
  destruct cluster_size as [Hcb Hspc]. destruct Hat as [H0' Hp Ho Ha Hpend].
  assert (want / 512 = run * sec_per_clus b) as Hc by (rewrite Hw, Hcb; mlia).
  constructor; [lia|lia|lia|nia|].
  set (r := {| req_lba := lba; req_count := want / 512; req_off := pos; req_len := want |}).
  apply (pending_snoc batch pos buf r); [done| |done|].
  - constructor; cbn [r req_lba req_count req_off req_len]; rewrite ?Hc; unfold limit in *; try lia; nia.
  - unfold req_data. cbn [r req_lba req_count]. rewrite Hc. intros j Hj.
    pose proof (sectors_length dev lba (run * sec_per_clus b) ltac:(nia)) as Hl.
    rewrite <- (Nat2Z.id j) at 1. rewrite Hbytes by nia. f_equal. lia.
Qed.

Lemma step_partial buf1 : filled pos buf1 ->
  exists part, get_range (flat_map (sector dev) (seqZ lba (run * byts_per_clus b / 512))) clus_off want = Some part
  /\ Z.of_nat (length part) = want /\ filled (pos + want) (splice buf1 (Z.to_nat pos) part).
Proof.
  intros Hf. destruct step_run as (Hr & [Hlo Hhi] & Hbytes). destruct step_want as [Hw1 Hw2].
  destruct cluster_size as [Hcb Hspc]. destruct Hat as [H0' Hp Ho Ha _].
  assert (run * byts_per_clus b / 512 = run * sec_per_clus b) as -> by (rewrite Hcb; mlia).
  pose proof (sectors_length dev lba (run * sec_per_clus b) ltac:(nia)) as Hl.
  assert (clus_off + want <= run * byts_per_clus b) as Hfit by (unfold want; lia).
  unfold get_range. rewrite (proj2 (andb_true_iff _ _)) by (split; nia). eexists. split; [reflexivity|].
  assert (Z.of_nat (length (take (Z.to_nat want) (drop (Z.to_nat clus_off)
    (flat_map (sector dev) (seqZ lba (run * sec_per_clus b)))))) = want) as Hpl
    by (rewrite length_take, length_drop; nia).
  split; [done|]. apply filled_splice; [done|lia|done|unfold limit in *; lia|].
  intros j Hj. rewrite nth_firstn, nth_skipn. rewrite (proj2 (Nat.ltb_lt _ _)) by lia.
  replace (Z.to_nat clus_off + j)%nat with (Z.to_nat (clus_off + Z.of_nat j)) by lia.
  rewrite Hbytes by lia. f_equal. lia.
Qed.
End Step.

Lemma read_loop_spec fuel : forall ci pos clus_off batch buf, at_pos ci pos clus_off batch buf ->
  Z.of_nat (length chain) - ci <= Z.of_nat fuel ->
  match read_loop b fuel dev chain total ci pos clus_off batch buf with
  | Ok (batch', pos', buf') => pos' = limit /\ pending batch' pos' buf'
  | Err _ => ~ live_dev
  | Panic => False
  end.
Proof.
  induction fuel as [|fuel IH]; intros ci pos clus_off batch buf Hat Hf; cbn [read_loop];
    (destruct ((pos <? total) && (ci <? Z.of_nat (length chain))) eqn:Ec;
      [|destruct Hat as [Hi Hp Ho Ha Hpend]; split; [|done]; unfold limit in *; nia]); [lia|].
  apply andb_true_iff in Ec as [Hm Hc]. rewrite Z.ltb_lt in Hm, Hc.
  destruct (step_run _ _ _ _ _ Hat Hc) as (Hr & [Hlo Hhi] & _).
  pose proof (step_want _ _ _ _ _ Hat Hm Hc) as [Hw1 Hw2].
  pose proof (step_whole _ _ _ _ _ Hat Hm Hc) as Hwhole. pose proof (step_partial _ _ _ _ _ Hat Hm Hc) as Hpart.
  pose proof (ap_ci _ _ _ _ _ Hat) as Hci.
  assert (index (E := VfsError) chain ci = Ok (nth (Z.to_nat ci) chain 0)) as ->.
  { destruct (index_Ok (E := VfsError) chain ci) as (v & -> & Hl); [lia|]. by rewrite (nth_lookup_Some _ _ _ _ Hl). }
  cbv zeta. cbn [res_bind]. set (run := run_length b chain total ci pos clus_off) in *.
  set (want := Z.min (total - pos) (run * byts_per_clus b - clus_off)) in *.
  set (lba := clus_to_lba b (nth (Z.to_nat ci) chain 0)) in *.
  destruct ((clus_off =? 0) && (want =? run * byts_per_clus b)) eqn:Ew.
  - apply andb_true_iff in Ew as [Ez Ew]. rewrite Z.eqb_eq in Ez, Ew. specialize (Hwhole Ez Ew). subst clus_off.
    destruct (_ || _ || _).
    + destruct Hwhole as [Hi' Hp' Ho' Ha' Hpend']. pose proof (flush_batch_spec _ _ _ Hpend') as Hfl.
      destruct (flush_batch _ _ _) as [buf1|e|]; cbn [res_bind]; [|done|done].
      apply IH; [|lia]. constructor; try done. by apply pending_nil.
    + apply IH; [done|lia].
  - pose proof (flush_batch_spec _ _ _ (ap_pending _ _ _ _ _ Hat)) as Hfl.
    destruct (flush_batch _ _ _) as [buf1|e|]; cbn [res_bind]; [|done|done].
    pose proof (read_sectors_no_panic dev lba (run * byts_per_clus b / 512)) as Hn.
    destruct cluster_size as [Hcb Hspc].
    assert (run * byts_per_clus b / 512 = run * sec_per_clus b) as Hdiv by (rewrite Hcb; mlia).
    destruct (read_sectors dev lba (run * byts_per_clus b / 512)) as [rb|e|] eqn:Er; cbn [res_bind]; [| |done].
    2: { intros [Hh Hs]. destruct (healthy_read dev lba (run * byts_per_clus b / 512)) as [x Hx]; [done|lia|nia|lia|congruence]. }
    apply read_sectors_ok in Er. subst rb. unfold slice_at, copy_at.
    destruct (Hpart buf1 Hfl) as (part & -> & Hlen & Hf'). cbn [res_bind]. destruct Hfl as [Hl1 _]. destruct Hat as [_ Hp Ho Ha _].
    rewrite (proj2 (andb_true_iff _ _)) by (unfold limit in *; lia). cbn [res_bind].
    destruct (Z.leb_spec total (pos + want)) as [Hdone|Hgo].
    + split; [unfold limit in *; lia|by apply pending_nil].
    + apply IH; [|lia]. constructor; [lia|lia|lia| |by apply pending_nil]. unfold want in *. lia.
Qed.
End Buffer.
End Runs.
