(* ===== verification/FatFileSpec.v ===== *)
(** * What FAT32 file reads promise

    [read_at] against the bytes of the file's clusters on the device, and where
    the chain of a file is not the one in the table. *)

From S2P Require Import Prelude Bits Errors BlockDev Fat32 Fat32Facts Fat32Spec.
From S2P Require Import FatAlloc FatAllocFacts FatChain FatVolumeFacts FatAllocSpec FatData FatFile FatFileFacts.
Import Errors.Vfs.
Local Open Scope Z_scope.

Section Read.
Context `{Profile} `{BatchDevice D} (b : Bpb) (Hv : volume_ok b).

#[local] Hint Extern 0 (FatOps (D * FatCache)) => exact (volume b) : typeclass_instances.
#[local] Hint Extern 0 (FatView (D * FatCache)) => exact (cached_view b) : typeclass_instances.

(** Bytes of clusters are bytes of the data area. *)
Lemma file_byte_frame (d d' : D) l i : Forall (valid b) l -> 0 <= i < Z.of_nat (length l) * byts_per_clus b ->
  (forall x, first_data_sec b <= x -> sector d' x = sector d x) -> file_byte b d' l i = file_byte b d l i.
Proof.
  intros Hl Hi Hd. destruct (cluster_size b Hv) as [Hcb Hspc]. unfold file_byte, disk_byte. f_equal. apply Hd.
  pose proof (nth_valid b l Hl (Z.to_nat (i / byts_per_clus b)) ltac:(apply Nat2Z.inj_lt; rewrite Z2Nat.id by (apply Z.div_pos; lia); apply Z.div_lt_upper_bound; lia)) as Hc.
  pose proof (Z.mod_pos_bound i (byts_per_clus b) ltac:(lia)). unfold clus_to_lba, valid in *. mlia.
Qed.

(** The loop, started at [offset] on the whole chain and flushed at the end. *)
Lemma read_chain_spec (d : D) l buf offset total : Forall (valid b) l -> 0 <= offset ->
  0 <= total <= Z.of_nat (length buf) ->
  match (let? st := read_loop b (length l) d l total (offset / byts_per_clus b) 0 (offset mod byts_per_clus b) [] buf in
         let '(batch, pos, buf) := st in
         let? buf := flush_batch d batch buf in Ok (buf, pos)) with
  | Ok (buf', n) => n = limit b l offset total /\ filled b d l buf offset n buf'
  | Err _ => ~ live_dev b d
  | Panic => False
  end.
Proof.
  intros Hl Ho Ht. destruct (cluster_size b Hv) as [Hcb Hspc].
  assert (at_pos b d l buf offset total (offset / byts_per_clus b) 0 (offset mod byts_per_clus b) [] buf) as Hat.
  { constructor.
    - apply Z.div_pos; lia.
    - unfold limit. lia.
    - apply Z.mod_pos_bound. lia.
    - pose proof (Z.div_mod offset (byts_per_clus b)). lia.
    - apply pending_nil. split; [done|]. intros j Hj. by rewrite decide_False by lia. }
  pose proof (Z.div_pos offset (byts_per_clus b) ltac:(lia) ltac:(lia)).
  pose proof (read_loop_spec b Hv d l Hl buf offset total Ht Ho (length l) _ _ _ _ _ Hat ltac:(lia)) as Hloop.
  destruct (read_loop _ _ _ _ _ _ _ _ _ _) as [[[batch pos] buf1]|e|]; cbn [res_bind]; [|done|done].
  destruct Hloop as [-> Hp]. pose proof (flush_batch_spec b d l buf offset batch _ buf1 Hp) as Hf.
  by destruct (flush_batch d batch buf1).
Qed.

(** The buffer a read leaves. *)
Lemma filled_image (d : D) l buf offset n buf' : filled b d l buf offset n buf' -> 0 <= n <= Z.of_nat (length buf) ->
  buf' = map (file_byte b d l) (seqZ offset n) ++ drop (Z.to_nat n) buf.
Proof.
  intros [Hlen Hf] Hn. apply list_eq. intros j. destruct (decide (j < length buf)%nat) as [Hj|Hj].
  - rewrite Hf by done. destruct (decide (Z.of_nat j < n)).
    + rewrite lookup_app_l by (rewrite length_map, length_seqZ; lia). rewrite list_lookup_fmap.
      rewrite lookup_seqZ_lt by lia. done.
    + rewrite lookup_app_r by (rewrite length_map, length_seqZ; lia). rewrite length_map, length_seqZ, lookup_drop.
      f_equal. lia.
  - rewrite !lookup_ge_None_2; [done| |lia]. rewrite length_app, length_map, length_seqZ, length_drop. lia.
Qed.

(** C12: [read_at] of a regular file does not panic, and what it returns are the
    file's bytes: as many as the buffer takes, the size allows and the chain
    holds, read from the clusters of the chain in order, the rest of the buffer
    left alone.  The runs of adjacent clusters, the batches and the partial
    clusters do not show.  It fails only where the device does.  What the cache of
    chains holds for the file must be its chain, and on a volume small enough for the FAT
    to be read as a whole, the FAT on the device must agree with the table in
    use, as after a flush ([chain_for_stale] shows what happens before). *)
Theorem read_at_correct (s : Fs (D * FatCache)) ino l offset buf :
  inv b (fat s) -> file_type ino = Regular -> 0 <= offset -> heads b s (first_clus ino) l ->
  (bulk b = true -> settled b s) ->
  (forall l', chain_cache s !! first_clus ino = Some l' -> l' = l) ->
  match read_at b ino offset buf s with
  | (s', Ok (buf', n)) =>
      n = Z.max 0 (Z.min (Z.min (Z.of_nat (length buf)) (file_size ino - offset))
                         (Z.of_nat (length l) * byts_per_clus b - offset))
      /\ buf' = map (file_byte b (fat s).1 l) (seqZ offset n) ++ drop (Z.to_nat n) buf
      /\ (forall c, 2 <= c < 2 + total_clus b -> tbl s' c = tbl s c)
  | (_, Err _) => ~ live s
  | (_, Panic) => False
  end.
Proof.
  intros Hi Hty Ho Hl Hset Hcc. unfold read_at. rewrite bool_decide_true by done. cbn [negb].
  pose proof (chain_clusters _ _ _ Hl) as Hcl. destruct (cluster_size b Hv) as [Hcb Hspc].
  assert (valid b (first_clus ino)) as Hf by exact (chain_head _ _ _ Hl).
  destruct ((file_size ino <=? offset) || bool_decide (buf = []) || (first_clus ino =? 0)) eqn:Ee.
  { assert (Z.min (Z.of_nat (length buf)) (file_size ino - offset) <= 0) as Hz.
    { apply orb_true_iff in Ee as [[Ee|Ee]%orb_true_iff|Ee]; [lia| |unfold valid in Hf; lia].
      apply bool_decide_eq_true in Ee as ->. simpl. lia. }
    unfold cmd_ret. split; [lia|]. split; [|done]. simpl. by rewrite drop_0. }
  pose proof (chain_for_wp b Hv (fun x y => y = sector (fat s).1 x) s (first_clus ino) (conj Hi (fun _ _ => eq_refl)) Hf Hset) as W.
  unfold ensure_chain_cache, cmd_bind. unfold wp in W.
  destruct (chain_for b (first_clus ino) s) as [s1 [l'|e|]]; cycle 1.
  { destruct W as [_ [Hnl|Hno]]; [by intros l' ->%Hcc|exact Hnl|by destruct (Hno l)]. }
  { apply W. by intros l' ->%Hcc. }
  destruct W as [Hl' [_ ([Hi1 Hdata] & Ht & Hlv)]]; [by intros l2 ->%Hcc|].
  assert (l' = l) as -> by (by eapply chain_det). cbv beta iota in Hdata.
  destruct (chain_cons _ _ _ Hl) as [rest El]. rewrite bool_decide_false by (by rewrite El).
  set (total := Z.min (Z.of_nat (length buf)) (file_size ino - offset)).
  apply orb_false_iff in Ee as [[Es Eb]%orb_false_iff _].
  pose proof (read_chain_spec (fat s1).1 l buf offset total Hcl Ho ltac:(unfold total; lia)) as R.
  destruct (let? st := _ in _) as [[buf' n]|e|]; [| |done].
  - destruct R as [Hn Hfill]. split; [done|]. split; [|done].
    rewrite (filled_image _ _ _ _ _ _ Hfill) by (unfold limit, total in Hn; lia). f_equal. apply map_ext_in.
    intros i Hin%list_elem_of_In%elem_of_seqZ. apply file_byte_frame; [done| |done]. unfold limit in Hn. lia.
  - intros Hlive. by apply R, Hlv.
Qed.
End Read.

(** ** On the sample volume *)

Section ReadSample.
Import AllocVolume.
#[local] Hint Extern 0 (FatOps (MemDisk * FatCache)) => exact (volume (H := true) geometry) : typeclass_instances.
#[local] Hint Extern 0 (FatView (MemDisk * FatCache)) => exact (cached_view geometry) : typeclass_instances.

Definition sample_file : Fat32Inode := mkInode 2 700 Regular 1 0 4 [102] false None 0.

Lemma super_inv : inv geometry (fat super).
Proof. destruct super_wf as [Hk _ _]. exact Hk. Qed.

Lemma super_settled : settled geometry super.
Proof.
  assert (dirty (fat super).2 = ∅) as E by (vm_compute; reflexivity).
  assert (active_fat_idx geometry = 0) as Ea by (vm_compute; reflexivity).
  exact (settled_clean geometry alloc_geometry_ok super super_inv Ea E).
Qed.

Lemma read_at_correct_witness : exists s' buf', read_at (H := true) geometry sample_file 500 (replicate 1000 7) super
    = (s', Ok (buf', 200)) /\ buf' = map (file_byte geometry (fat super).1 [2; 3]) (seqZ 500 200) ++ replicate 800 7.
Proof.
  pose proof (read_at_correct (H := true) geometry alloc_geometry_ok super sample_file [2; 3] 500 (replicate 1000 7)) as W.
  assert ((read_at (H := true) geometry sample_file 500 (replicate 1000 7) super).2
    = Ok (replicate 200 0 ++ replicate 800 7, 200)) as E by (vm_compute; reflexivity).
  destruct (read_at geometry sample_file 500 (replicate 1000 7) super) as [s' r]. simpl in E. subst r.
  exists s', (replicate 200 0 ++ replicate 800 7). split; [reflexivity|].
  apply W; [exact super_inv|reflexivity|lia|exact (proj1 super_chains)|intros _; exact super_settled|].
  intros l' El. vm_compute in El. discriminate El.
Defined.

(** The file of cluster 2, extended by a cluster. *)
Definition grown : Fs (MemDisk * FatCache) := (extend_chain (H := true) 2 1 super).1.

Lemma grown_extended : extend_chain (H := true) 2 1 super = (grown, Ok tt).
Proof.
  assert ((extend_chain (H := true) 2 1 super).2 = Ok tt) as E by (vm_compute; reflexivity).
  unfold grown. destruct (extend_chain (H := true) 2 1 super) as [s r]. simpl in *. by rewrite E.
Qed.

Lemma grown_link c n l : tbl grown c = n -> n < EOC_MARKER -> 2 <= c < 14 ->
  heads (H := true) geometry grown n l -> heads (H := true) geometry grown c (c :: l).
Proof. intros <- He Hc Hl. by apply chain_link. Qed.

(** The chain of a file that has just been extended, before the FAT cache is
    flushed: the table has the new cluster, [chain_for] misses it. *)
Theorem chain_for_stale :
  extend_chain (H := true) 2 1 super = (grown, Ok tt) /\ heads (H := true) geometry grown 2 [2; 3; 5]
  /\ (chain_for (H := true) geometry 2 grown).2 = Ok [2; 3].
Proof.
  split; [exact grown_extended|]. split; [|vm_compute; reflexivity].
  apply (grown_link 2 3); [vm_compute; reflexivity|unfold EOC_MARKER; lia|lia|].
  apply (grown_link 3 5); [vm_compute; reflexivity|unfold EOC_MARKER; lia|lia|].
  apply chain_end; [unfold is_cluster; simpl; lia|]. vm_compute. congruence.
Qed.
End ReadSample.
