(* ===== verification/LibcTime.v ===== *)
(** * Calendar time in the C library

    Model of user/libc/src/time.rs: broken-down time ([gmtime_r], [mktime]) and
    its text form ([strftime], [strptime]).  Null pointers and the copies to the
    caller's memory are left out: a string is the list of its bytes before the
    terminator, [strptime] returns how many of them it consumed.  [c_int] is
    [i32], [c_long] is [i64]. *)

From S2P Require Import Prelude Calendar.
Local Open Scope Z_scope.

Record Tm := mkTm {
  tm_sec : Z; tm_min : Z; tm_hour : Z; tm_mday : Z; tm_mon : Z; tm_year : Z;
  tm_wday : Z; tm_yday : Z; tm_isdst : Z
}.

Section Conversions.
Context {E : Type} `{Profile}.

(** [a + b] at type [i32], and at type [u8]. *)
Definition i32_add (a b : Z) : res E Z :=
  let r := a + b in
  if (- 2 ^ 31 <=? r) && (r <? 2 ^ 31) then Ok r else if debug_profile then Panic else Ok (to_signed 32 (r mod 2 ^ 32)).

(** ** Broken-down time *)

Definition year_days (y : Z) : Z := if is_leap y then 366 else 365.

Fixpoint year_loop (fuel : nat) (y d : Z) : res E (Z * Z) :=
  if d <? year_days y then Ok (y, d)
  else
    match fuel with
    | O => Panic
    | S fuel => let? y' := i32_add y 1 in year_loop fuel y' (d - year_days y)
    end.

Fixpoint month_loop (fuel : nat) (y mon d : Z) : Z * Z :=
  match fuel with
  | O => (mon, d)
  | S fuel => if d <? days_in_month y (mon + 1) then (mon, d) else month_loop fuel y (mon + 1) (d - days_in_month y (mon + 1))
  end.

Definition gmtime_r (secs : Z) : res E Tm :=
  let days := secs / 86400 in
  let rem := secs mod 86400 in
  let sec := rem mod 60 in
  let rem := rem / 60 in
  let? yd := year_loop (Z.to_nat (days / 365 + 1)) 1970 days in
  let '(y, d) := yd in
  let '(mon, d') := month_loop 12 y 0 d in
  Ok (mkTm sec (rem mod 60) (rem / 60) (d' + 1) mon (y - 1900) ((days + 4) mod 7) d 0).

(** The days of the years from 1970 to before [y], and of the months before
    [mon]. *)
Definition years_sum (y : Z) : Z := foldl (fun days yr => days + year_days yr) 0 (seqZ 1970 (y - 1970)).
Definition months_sum (y mon : Z) : Z := foldl (fun days m => days + days_in_month y (m + 1)) 0 (seqZ 0 mon).

(** The seconds, and the structure with its [tm_wday] and [tm_yday] set. *)
Definition mktime (tm : Tm) : res E (Z * Tm) :=
  let? y := i32_add (tm_year tm) 1900 in
  let mon := tm_mon tm mod 2 ^ 32 in
  let days := years_sum y + months_sum y mon + (tm_mday tm - 1) in
  let secs := days * 86400 + tm_hour tm * 3600 + tm_min tm * 60 + tm_sec tm in
  Ok (secs, mkTm (tm_sec tm) (tm_min tm) (tm_hour tm) (tm_mday tm) (tm_mon tm) (tm_year tm)
              ((days + 4) mod 7) (to_signed 32 (days - years_sum y)) (tm_isdst tm)).

(** ** Text *)

(** [b'0' + x as u8] *)
Definition digit (x : Z) : res E Z :=
  let r := 48 + x mod 256 in
  if r <=? 255 then Ok r else if debug_profile then Panic else Ok (r mod 256).

Definition two_digits (v : Z) : res E (list Z) :=
  let? a := digit (Z.quot v 10) in
  let? b := digit (Z.rem v 10) in
  Ok [a; b].

(** The decimal digits of a [u32], most significant first. *)
Fixpoint digits_loop (fuel : nat) (v : Z) (acc : list Z) : list Z :=
  match fuel with
  | O => acc
  | S fuel => if 0 <? v then digits_loop fuel (v / 10) (48 + v mod 10 :: acc) else acc
  end.

Definition format_u32 (v : Z) : list Z := if v =? 0 then [48] else digits_loop 10 v [].

(** What one conversion appends. *)
Definition conversion (tm : Tm) (spec : Z) : res E (list Z) :=
  if spec =? 89 then let? y := i32_add (tm_year tm) 1900 in Ok (format_u32 (y mod 2 ^ 32))
  else if spec =? 121 then let? y := i32_add (tm_year tm) 1900 in two_digits (Z.rem y 100)
  else if spec =? 109 then let? m := i32_add (tm_mon tm) 1 in two_digits m
  else if spec =? 100 then two_digits (tm_mday tm)
  else if spec =? 72 then two_digits (tm_hour tm)
  else if spec =? 77 then two_digits (tm_min tm)
  else if spec =? 83 then two_digits (tm_sec tm)
  else if spec =? 37 then Ok [37]
  else Ok [].

(** [out] is the part of the 512-byte buffer in use. *)
Fixpoint format_loop (fmt : list Z) (tm : Tm) (out : list Z) : res E (list Z) :=
  match fmt with
  | [] => Ok out
  | c :: fmt' =>
      if 511 <=? Z.of_nat (length out) then Ok out
      else if negb (c =? 37) then format_loop fmt' tm (out ++ [c])
      else
        match fmt' with
        | [] => Ok out
        | spec :: fmt'' =>
            let? s := conversion tm spec in
            format_loop fmt'' tm (if Z.of_nat (length out + length s) <? 512 then out ++ s else out)
        end
  end.

Definition strftime (max : Z) (fmt : list Z) (tm : Tm) : res E (list Z) :=
  if max =? 0 then Ok []
  else
    let? out := format_loop fmt tm [] in
    Ok (take (Z.to_nat (max - 1)) out).
End Conversions.

Definition is_space (c : Z) : bool := existsb (Z.eqb c) [9; 10; 12; 13; 32].
Definition is_digit (c : Z) : bool := (48 <=? c) && (c <=? 57).
Definition is_alpha (c : Z) : bool := ((65 <=? c) && (c <=? 90)) || ((97 <=? c) && (c <=? 122)).

Fixpoint parse_num (s : list Z) (maxw : nat) (v : Z) : Z * list Z :=
  match maxw, s with
  | S maxw, c :: s' => if is_digit c then parse_num s' maxw (v * 10 + (c - 48)) else (v, s)
  | _, _ => (v, s)
  end.

Fixpoint skip (p : Z -> bool) (s : list Z) : list Z :=
  match s with
  | c :: s' => if p c then skip p s' else s
  | [] => []
  end.

(** A number of at most [maxw] digits, at least one, that passes [ok]. *)
Definition number (s : list Z) (maxw : nat) (ok : Z -> bool) : option (Z * list Z) :=
  let '(v, s') := parse_num s maxw 0 in
  if (length s' =? length s)%nat || negb (ok v) then None else Some (v, s').

Definition set_year tm v := mkTm (tm_sec tm) (tm_min tm) (tm_hour tm) (tm_mday tm) (tm_mon tm) v (tm_wday tm) (tm_yday tm) (tm_isdst tm).
Definition set_mon tm v := mkTm (tm_sec tm) (tm_min tm) (tm_hour tm) (tm_mday tm) v (tm_year tm) (tm_wday tm) (tm_yday tm) (tm_isdst tm).
Definition set_mday tm v := mkTm (tm_sec tm) (tm_min tm) (tm_hour tm) v (tm_mon tm) (tm_year tm) (tm_wday tm) (tm_yday tm) (tm_isdst tm).
Definition set_hour tm v := mkTm (tm_sec tm) (tm_min tm) v (tm_mday tm) (tm_mon tm) (tm_year tm) (tm_wday tm) (tm_yday tm) (tm_isdst tm).
Definition set_min tm v := mkTm (tm_sec tm) v (tm_hour tm) (tm_mday tm) (tm_mon tm) (tm_year tm) (tm_wday tm) (tm_yday tm) (tm_isdst tm).
Definition set_sec tm v := mkTm v (tm_min tm) (tm_hour tm) (tm_mday tm) (tm_mon tm) (tm_year tm) (tm_wday tm) (tm_yday tm) (tm_isdst tm).
Definition set_yday tm v := mkTm (tm_sec tm) (tm_min tm) (tm_hour tm) (tm_mday tm) (tm_mon tm) (tm_year tm) (tm_wday tm) v (tm_isdst tm).
Definition set_isdst tm v := mkTm (tm_sec tm) (tm_min tm) (tm_hour tm) (tm_mday tm) (tm_mon tm) (tm_year tm) (tm_wday tm) (tm_yday tm) v.

(** One conversion of [strptime]. *)
Definition parse_spec (spec : Z) (s : list Z) (tm : Tm) : option (list Z * Tm) :=
  if spec =? 89 then '(v, s) ← number s 4 (fun _ => true); Some (s, set_year tm (v - 1900))
  else if spec =? 121 then '(v, s) ← number s 2 (fun _ => true); Some (s, set_year tm (if v <? 69 then v + 100 else v))
  else if spec =? 109 then '(v, s) ← number s 2 (fun v => (1 <=? v) && (v <=? 12)); Some (s, set_mon tm (v - 1))
  else if (spec =? 100) || (spec =? 101) then '(v, s) ← number s 2 (fun v => (1 <=? v) && (v <=? 31)); Some (s, set_mday tm v)
  else if (spec =? 72) || (spec =? 107) then '(v, s) ← number s 2 (fun v => v <=? 23); Some (s, set_hour tm v)
  else if spec =? 77 then '(v, s) ← number s 2 (fun v => v <=? 59); Some (s, set_min tm v)
  else if spec =? 83 then '(v, s) ← number s 2 (fun v => v <=? 60); Some (s, set_sec tm v)
  else if spec =? 106 then '(v, s) ← number s 3 (fun v => (1 <=? v) && (v <=? 366)); Some (s, set_yday tm (v - 1))
  else if existsb (Z.eqb spec) [97; 65; 98; 66; 104] then
    if (length (skip is_alpha s) =? length s)%nat then None else Some (skip is_alpha s, tm)
  else if (spec =? 110) || (spec =? 116) then Some (skip is_space s, tm)
  else if spec =? 37 then match s with 37 :: s => Some (s, tm) | _ => None end
  else None.

Fixpoint parse_loop (fuel : nat) (fmt s : list Z) (tm : Tm) : option (list Z * Tm) :=
  match fuel, fmt with
  | S fuel, c :: fmt' =>
      if negb (c =? 37) then
        if is_space c then parse_loop fuel (skip is_space fmt) (skip is_space s) tm
        else match s with
             | c' :: s' => if c' =? c then parse_loop fuel fmt' s' tm else None
             | [] => None
             end
      else match fmt' with
           | [] => Some (s, tm)
           | spec :: fmt'' => '(s, tm) ← parse_spec spec s tm; parse_loop fuel fmt'' s tm
           end
  | _, _ => Some (s, tm)
  end.

(** What is left of the text, and the structure. *)
Definition strptime (s fmt : list Z) (tm : Tm) : option (list Z * Tm) :=
  parse_loop (length fmt) fmt s (set_isdst tm (-1)).
