(* ===== verification/LibcTimeFacts.v ===== *)
(** * Correctness of the C library's calendar time

    The loops of [gmtime_r] and [mktime] against the day numbers of the kernel's
    calendar, and [strptime] against [strftime]. *)

From S2P Require Import Prelude Calendar LibcTime.
Local Open Scope Z_scope.

(** ** Years and months *)

Lemma year_days_pos y : 365 <= year_days y <= 366.
Proof. unfold year_days. destruct (is_leap y); lia. Qed.

Lemma january y : day_number (y + 1, 1, 1) = day_number (y, 1, 1) + year_days y.
Proof.
  rewrite !day_number_eq. unfold march_year. cbn [Z.leb Z.compare Pos.compare Pos.compare_cont].
  replace (y + 1 - 1) with y by lia.
  rewrite (year_start_succ y). unfold year_days. destruct (is_leap y); lia.
Qed.

Lemma month_first y m : 1 <= m <= 11 -> day_number (y, m + 1, 1) = day_number (y, m, 1) + days_in_month y m.
Proof.
  intros Hm. assert (1 <= m <= 12) as Hm' by lia. revert Hm. rewrite !day_number_eq. pattern m.
  apply month_cases; [done|..]; intros Hm; try lia; unfold march_year, month_start, days_in_month; simpl;
    rewrite ?(year_start_succ y); destruct (is_leap y); mlia.
Qed.

Lemma december y : day_number (y + 1, 1, 1) = day_number (y, 12, 1) + 31.
Proof. rewrite !day_number_eq. unfold march_year, month_start. simpl. replace (y + 1 - 1) with y by lia. mlia. Qed.

Section Gmtime.
Context {E : Type} `{Profile}.

Lemma i32_add_ok a b : - 2 ^ 31 <= a + b < 2 ^ 31 -> i32_add (E := E) a b = Ok (a + b).
Proof. intros Hr. unfold i32_add. by rewrite (proj2 (andb_true_iff _ _)) by lia. Qed.

Lemma year_loop_ok fuel : forall y d, 0 <= d -> d / 365 < Z.of_nat fuel -> 1970 <= y -> y + d / 365 < 2 ^ 31 ->
  exists y' d', year_loop (E := E) fuel y d = Ok (y', d') /\ 1970 <= y' /\ 0 <= d' < year_days y'
  /\ day_number (y', 1, 1) + d' = day_number (y, 1, 1) + d.
Proof.
  induction fuel as [|fuel IH]; intros y d Hd Hf Hy Hmax; [mlia|]. cbn [year_loop].
  pose proof (year_days_pos y) as Hyd. destruct (Z.ltb_spec d (year_days y)) as [Hlt|Hge].
  - exists y, d. split; [done|]. lia.
  - rewrite i32_add_ok by mlia. cbn [res_bind].
    destruct (IH (y + 1) (d - year_days y)) as (y' & d' & E' & H1 & H2 & H3); [lia|mlia|lia|mlia|].
    exists y', d'. split; [done|]. split; [done|]. split; [done|]. rewrite H3, january. lia.
Qed.

Lemma month_loop_ok y n : forall fuel mon d, Z.of_nat fuel = 12 - mon -> 0 <= mon -> 0 <= d ->
  day_number (y, mon + 1, 1) + d = n -> (mon = 12 -> False) -> n < day_number (y + 1, 1, 1) ->
  exists mon' d', month_loop fuel y mon d = (mon', d') /\ date_ok (y, mon' + 1, d' + 1) = true
  /\ day_number (y, mon' + 1, d' + 1) = n.
Proof.
  induction fuel as [|fuel IH]; intros mon d Hf Hm Hd Hn Hne Hlim; [lia|]. cbn [month_loop].
  destruct (Z.ltb_spec d (days_in_month y (mon + 1))) as [Hlt|Hge].
  - exists mon, d. split; [done|]. split; [unfold date_ok; lia|]. rewrite <- Hn, !day_number_eq. lia.
  - destruct (decide (mon = 11)) as [->|Hmon].
    + rewrite december in Hlim. change (11 + 1) with 12 in *. unfold days_in_month in Hge. simpl in Hge. lia.
    + apply IH; [lia|lia|lia| |lia|done]. rewrite (month_first y (mon + 1)) by lia. lia.
Qed.

Lemma gmtime_ok secs : 0 <= secs < 2 ^ 55 ->
  exists tm, gmtime_r (E := E) secs = Ok tm
  /\ date_ok (tm_year tm + 1900, tm_mon tm + 1, tm_mday tm) = true
  /\ secs / 86400 = day_number (tm_year tm + 1900, tm_mon tm + 1, tm_mday tm)
  /\ 70 <= tm_year tm < 2 ^ 31 - 1900
  /\ (secs mod 86400 = tm_hour tm * 3600 + tm_min tm * 60 + tm_sec tm
      /\ 0 <= tm_hour tm < 24 /\ 0 <= tm_min tm < 60 /\ 0 <= tm_sec tm < 60)
  /\ tm_wday tm = (secs / 86400 + 4) mod 7
  /\ secs / 86400 = day_number (tm_year tm + 1900, 1, 1) + tm_yday tm /\ tm_isdst tm = 0.
Proof.
  intros Hs. unfold gmtime_r. set (days := secs / 86400). assert (0 <= days < 2 ^ 39) as Hdays by (unfold days; mlia).
  destruct (year_loop_ok (Z.to_nat (days / 365 + 1)) 1970 days) as (y & d & -> & Hy & Hd & Hn); [lia|mlia|lia|mlia|].
  cbn [res_bind]. assert (day_number (1970, 1, 1) = 0) as E0 by reflexivity. rewrite E0, Z.add_0_l in Hn.
  destruct (month_loop_ok y days 12 0 d) as (mon & d' & -> & Hok & Hn'); [lia|lia|lia|done|lia| |].
  { rewrite january. lia. }
  eexists. split; [reflexivity|]. cbn [tm_year tm_mon tm_mday tm_hour tm_min tm_sec tm_wday tm_yday tm_isdst].
  replace (y - 1900 + 1900) with y by lia.
  assert (y < 2 ^ 31) as Hymax.
  { pose proof (day_number_eq y 1 1) as Hdn. unfold march_year, year_start, month_start in Hdn.
    cbn [Z.leb Z.compare Pos.compare Pos.compare_cont] in Hdn. mlia. }
  set (r := secs mod 86400). assert (0 <= r < 86400) as Hr by (unfold r; mlia).
  split; [done|]. split; [done|]. split; [lia|]. split; [mlia|]. split; [done|]. split; [lia|done].
Qed.

(** [gmtime_r] gives the date of the kernel's calendar: for every time from
    the epoch on, up to about a billion years, the year, month and day are those
    of [civil_from_days], the time of day, the weekday and the day of the year
    are right, and no step overflows. *)
Theorem gmtime_is_civil secs : 0 <= secs < 2 ^ 55 ->
  exists tm, gmtime_r (E := E) secs = Ok tm
  /\ civil_from_days (E := E) (secs / 86400) = Ok (tm_year tm + 1900, tm_mon tm + 1, tm_mday tm)
  /\ (secs mod 86400 = tm_hour tm * 3600 + tm_min tm * 60 + tm_sec tm
      /\ 0 <= tm_hour tm < 24 /\ 0 <= tm_min tm < 60 /\ 0 <= tm_sec tm < 60)
  /\ tm_wday tm = (secs / 86400 + 4) mod 7
  /\ secs / 86400 = day_number (tm_year tm + 1900, 1, 1) + tm_yday tm.
Proof.
  intros Hs. destruct (gmtime_ok secs Hs) as (tm & -> & Hok & Hn & Hy & Ht & Hw & Hyd & _). exists tm.
  split; [done|]. split; [|done]. rewrite civil_from_days_eq by mlia. by rewrite Hn, civil_of_day_number.
Qed.
End Gmtime.

(** ** Back to seconds *)

Lemma years_sum_eq (k : nat) : years_sum (1970 + Z.of_nat k) = day_number (1970 + Z.of_nat k, 1, 1).
Proof.
  unfold years_sum. rewrite Z.add_simpl_l. induction k as [|k IH]; [done|].
  rewrite Nat2Z.inj_succ, <- Z.add_1_r, seqZ_app by lia. rewrite foldl_app, IH.
  rewrite (seqZ_cons _ 1) by lia. rewrite Z.add_assoc, january. done.
Qed.

Lemma months_sum_eq y (k : nat) : (k <= 11)%nat ->
  months_sum y (Z.of_nat k) = day_number (y, Z.of_nat k + 1, 1) - day_number (y, 1, 1).
Proof.
  unfold months_sum. induction k as [|k IH]; intros Hk; [change (Z.of_nat 0 + 1) with 1; rewrite Z.sub_diag; done|].
  rewrite Nat2Z.inj_succ, <- Z.add_1_r, seqZ_app by lia. rewrite foldl_app, IH by lia.
  rewrite (seqZ_cons _ 1) by lia. rewrite (month_first y (Z.of_nat k + 1)) by lia.
  change (seqZ _ (Z.pred 1)) with (@nil Z). cbn [foldl]. rewrite Z.add_0_l. lia.
Qed.

Section Mktime.
Context {E : Type} `{Profile}.

Lemma mktime_ok tm : date_ok (tm_year tm + 1900, tm_mon tm + 1, tm_mday tm) = true -> 70 <= tm_year tm < 2 ^ 31 - 1900 ->
  let n := day_number (tm_year tm + 1900, tm_mon tm + 1, tm_mday tm) in
  mktime (E := E) tm = Ok (n * 86400 + tm_hour tm * 3600 + tm_min tm * 60 + tm_sec tm,
    mkTm (tm_sec tm) (tm_min tm) (tm_hour tm) (tm_mday tm) (tm_mon tm) (tm_year tm)
      ((n + 4) mod 7) (n - day_number (tm_year tm + 1900, 1, 1)) (tm_isdst tm)).
Proof.
  intros Hd Hy n. unfold mktime. rewrite i32_add_ok by lia. cbn [res_bind].
  pose proof (date_ok_bounds _ _ _ Hd) as [Hm Hdd]. rewrite Z.mod_small by lia.
  pose proof (years_sum_eq (Z.to_nat (tm_year tm - 70))) as Hys. pose proof (months_sum_eq (tm_year tm + 1900) (Z.to_nat (tm_mon tm)) ltac:(lia)) as Hms.
  rewrite Z2Nat.id in Hys by lia. rewrite Z2Nat.id in Hms by lia.
  replace (1970 + (tm_year tm - 70)) with (tm_year tm + 1900) in Hys by lia. rewrite Hys, Hms.
  assert (n = day_number (tm_year tm + 1900, 1, 1)
    + (day_number (tm_year tm + 1900, tm_mon tm + 1, 1) - day_number (tm_year tm + 1900, 1, 1)) + (tm_mday tm - 1)) as <-
    by (unfold n; rewrite !day_number_eq; lia).
  assert (0 <= n - day_number (tm_year tm + 1900, 1, 1) <= 366) as Hr.
  { unfold n. rewrite !day_number_eq. unfold march_year, month_start. pose proof (year_start_succ (tm_year tm + 1900)) as Hss.
    cbn [Z.leb Z.compare Pos.compare Pos.compare_cont].
    destruct (Z.leb_spec (tm_mon tm + 1) 2), (is_leap (tm_year tm + 1900)); mlia. }
  do 3 f_equal. replace (n - _) with ((n - day_number (tm_year tm + 1900, 1, 1)) mod 2 ^ 32) at 1 by (apply Z.mod_small; lia).
  apply to_signed_small; lia.
Qed.

(** [mktime] undoes [gmtime_r]: from the epoch on, the structure of a time
    converts back to the same number of seconds, and [mktime] leaves the
    structure as it is. *)
Theorem mktime_gmtime secs : 0 <= secs < 2 ^ 55 ->
  exists tm, gmtime_r (E := E) secs = Ok tm /\ mktime (E := E) tm = Ok (secs, tm).
Proof.
  intros Hs. destruct (gmtime_ok (E := E) secs Hs) as (tm & -> & Hok & Hn & Hy & (Ht & _) & Hw & Hyd & Hdst). exists tm.
  split; [done|]. rewrite mktime_ok by done. rewrite <- Hn. f_equal. f_equal; [mlia|].
  destruct tm as [se mi ho md mo ye wd yd dst]. simpl in *. f_equal; lia.
Qed.
End Mktime.

(** A second before the epoch is given as the zeroth of January 1970. *)
Theorem gmtime_before_epoch {E} `{Profile} : exists tm, gmtime_r (E := E) (-1) = Ok tm
  /\ (tm_year tm + 1900, tm_mon tm + 1, tm_mday tm) = (1970, 1, 0)
  /\ (tm_hour tm, tm_min tm, tm_sec tm) = (23, 59, 59).
Proof. by eexists. Qed.

(** ** Text *)

(** Formats of literals and the conversions both functions know. *)
Fixpoint fmt_ok (fmt : list Z) : bool :=
  match fmt with
  | [] => true
  | c :: fmt' =>
      if c =? 37 then
        match fmt' with
        | [] => true
        | spec :: fmt'' => existsb (Z.eqb spec) [89; 109; 100; 72; 77; 83; 37] && fmt_ok fmt''
        end
      else fmt_ok fmt'
  end.

Record tm_fits (tm : Tm) : Prop := {
  tf_year : 1000 <= tm_year tm + 1900 <= 9999;
  tf_mon : 0 <= tm_mon tm <= 11;
  tf_mday : 1 <= tm_mday tm <= 31;
  tf_hour : 0 <= tm_hour tm <= 23;
  tf_min : 0 <= tm_min tm <= 59;
  tf_sec : 0 <= tm_sec tm <= 60
}.

Definition pair_of (v : Z) : list Z := [48 + v / 10; 48 + v mod 10].

(** The text of one conversion, and what reading it sets. *)
Definition spec_text (tm : Tm) (spec : Z) : list Z :=
  if spec =? 89 then pair_of ((tm_year tm + 1900) / 100) ++ pair_of ((tm_year tm + 1900) mod 100)
  else if spec =? 109 then pair_of (tm_mon tm + 1)
  else if spec =? 100 then pair_of (tm_mday tm)
  else if spec =? 72 then pair_of (tm_hour tm)
  else if spec =? 77 then pair_of (tm_min tm)
  else if spec =? 83 then pair_of (tm_sec tm)
  else [37].

Definition spec_set (tm : Tm) (spec : Z) (tm0 : Tm) : Tm :=
  if spec =? 89 then set_year tm0 (tm_year tm)
  else if spec =? 109 then set_mon tm0 (tm_mon tm)
  else if spec =? 100 then set_mday tm0 (tm_mday tm)
  else if spec =? 72 then set_hour tm0 (tm_hour tm)
  else if spec =? 77 then set_min tm0 (tm_min tm)
  else if spec =? 83 then set_sec tm0 (tm_sec tm)
  else tm0.

Fixpoint text (fmt : list Z) (tm : Tm) : list Z :=
  match fmt with
  | [] => []
  | c :: fmt' =>
      if c =? 37 then match fmt' with [] => [] | spec :: fmt'' => spec_text tm spec ++ text fmt'' tm end
      else c :: text fmt' tm
  end.

(** [tm0] with every field that [fmt] names taken from [tm]. *)
Fixpoint assign (fmt : list Z) (tm tm0 : Tm) : Tm :=
  match fmt with
  | [] => tm0
  | c :: fmt' =>
      if c =? 37 then match fmt' with [] => tm0 | spec :: fmt'' => assign fmt'' tm (spec_set tm spec tm0) end
      else assign fmt' tm tm0
  end.

Lemma fmt_ind (P : list Z -> Prop) : P [] -> (forall c fmt, c <> 37 -> P fmt -> P (c :: fmt)) -> P [37] ->
  (forall spec fmt, P fmt -> P (37 :: spec :: fmt)) -> forall fmt, P fmt.
Proof.
  intros H0 H1 H2 H3 fmt. remember (length fmt) as n eqn:Hn. assert (length fmt <= n)%nat as Hle by lia. clear Hn.
  revert fmt Hle. induction n as [|n IH]; intros [|c fmt] Hle; try done; [simpl in Hle; lia|].
  destruct (decide (c = 37)) as [->|Hc]; [|apply H1; [done|apply IH; simpl in Hle; lia]].
  destruct fmt as [|spec fmt]; [done|]. apply H3, IH. simpl in Hle. lia.
Qed.

Section Print.
Context {E : Type} `{Profile}.

Lemma two_digits_ok v : 0 <= v <= 99 -> two_digits (E := E) v = Ok (pair_of v).
Proof.
  intros Hv. unfold two_digits, digit. rewrite Z.quot_div_nonneg, Z.rem_mod_nonneg by lia.
  rewrite (Z.mod_small (v / 10)) by mlia. rewrite (Z.mod_small (v mod 10)) by mlia.
  rewrite !(proj2 (Z.leb_le _ 255)) by mlia. done.
Qed.

Lemma format_year v : 1000 <= v <= 9999 -> format_u32 v = pair_of (v / 100) ++ pair_of (v mod 100).
Proof.
  intros Hv. unfold format_u32. rewrite (proj2 (Z.eqb_neq _ _)) by lia.
  assert (forall n u acc, 0 < u -> digits_loop (S n) u acc = digits_loop n (u / 10) (48 + u mod 10 :: acc)) as Hs.
  { intros n u acc Hu. cbn [digits_loop]. by rewrite (proj2 (Z.ltb_lt _ _)) by lia. }
  do 4 rewrite Hs by mlia. replace (v / 10 / 10 / 10 / 10) with 0 by mlia. unfold pair_of. cbn [digits_loop app Z.ltb Z.compare].
  do 4 (apply (f_equal2 (@cons Z)); [mlia|]). done.
Qed.

Lemma conversion_text tm spec : tm_fits tm -> existsb (Z.eqb spec) [89; 109; 100; 72; 77; 83; 37] = true ->
  conversion (E := E) tm spec = Ok (spec_text tm spec).
Proof.
  intros [] Hs. unfold conversion, spec_text. cbn [existsb] in Hs.
  destruct (Z.eqb_spec spec 89) as [->|]; [rewrite i32_add_ok by lia; cbn [res_bind]; rewrite Z.mod_small, format_year by lia; done|].
  destruct (Z.eqb_spec spec 121) as [->|]; [done|].
  destruct (Z.eqb_spec spec 109) as [->|]; [rewrite i32_add_ok by lia; apply two_digits_ok; lia|].
  destruct (Z.eqb_spec spec 100); [apply two_digits_ok; lia|]. destruct (Z.eqb_spec spec 72); [apply two_digits_ok; lia|].
  destruct (Z.eqb_spec spec 77); [apply two_digits_ok; lia|]. destruct (Z.eqb_spec spec 83); [apply two_digits_ok; lia|].
  by destruct (Z.eqb_spec spec 37); [|lia].
Qed.

Lemma format_loop_text tm fmt : tm_fits tm -> forall out, fmt_ok fmt = true ->
  Z.of_nat (length out + length (text fmt tm)) < 512 -> format_loop (E := E) fmt tm out = Ok (out ++ text fmt tm).
Proof.
  intros Ht. induction fmt as [|c fmt Hc IH| |spec fmt IH] using fmt_ind; intros out Hok Hl.
  - by rewrite app_nil_r.
  - cbn [format_loop fmt_ok text] in *. rewrite (proj2 (Z.eqb_neq _ _) Hc) in *. cbn [negb length] in *.
    rewrite (proj2 (Z.leb_gt _ _)) by lia. rewrite IH; [by rewrite <- app_assoc|done|]. rewrite length_app. simpl. lia.
  - simpl. rewrite app_nil_r. by destruct (511 <=? _).
  - cbn [format_loop fmt_ok text] in *. cbn [Z.eqb Pos.eqb negb] in *. apply andb_true_iff in Hok as [Hs Hok].
    rewrite length_app in Hl. rewrite conversion_text by done. cbn [res_bind].
    assert (1 <= Z.of_nat (length (spec_text tm spec))) as Hpos by (unfold spec_text; repeat case_match; simpl; lia).
    rewrite (proj2 (Z.leb_gt _ _)) by lia. rewrite (proj2 (Z.ltb_lt _ _)) by lia.
    rewrite IH; [by rewrite <- app_assoc|done|]. rewrite length_app. lia.
Qed.
End Print.

(** *** Reading it back *)

Lemma parse_pair v r n : 0 <= v <= 99 -> forall acc,
  parse_num (pair_of v ++ r) (S (S n)) acc = parse_num r n (acc * 100 + v).
Proof.
  intros Hv acc. unfold pair_of. cbn [app parse_num]. unfold is_digit.
  rewrite !(proj2 (andb_true_iff _ _)) by mlia. f_equal. mlia.
Qed.

Lemma parse_num_0 r v : parse_num r 0 v = (v, r).
Proof. by destruct r. Qed.

Lemma number_pair v r ok : 0 <= v <= 99 -> ok v = true -> number (pair_of v ++ r) 2 ok = Some (v, r).
Proof.
  intros Hv Hok. unfold number. rewrite parse_pair by done. rewrite parse_num_0, Z.mul_0_l, Z.add_0_l, Hok.
  rewrite length_app. rewrite (proj2 (Nat.eqb_neq _ _)) by (simpl; lia). done.
Qed.

Lemma number_year v r : 1000 <= v <= 9999 ->
  number ((pair_of (v / 100) ++ pair_of (v mod 100)) ++ r) 4 (fun _ => true) = Some (v, r).
Proof.
  intros Hv. unfold number. rewrite <- app_assoc, !parse_pair by mlia. rewrite parse_num_0.
  rewrite !length_app. rewrite (proj2 (Nat.eqb_neq _ _)) by (simpl; lia). simpl. do 2 f_equal. mlia.
Qed.

Lemma parse_spec_text tm spec r tm0 : tm_fits tm -> existsb (Z.eqb spec) [89; 109; 100; 72; 77; 83; 37] = true ->
  parse_spec spec (spec_text tm spec ++ r) tm0 = Some (r, spec_set tm spec tm0).
Proof.
  intros [] Hs. unfold parse_spec, spec_text, spec_set. cbn [existsb] in Hs.
  destruct (Z.eqb_spec spec 89) as [->|]; [rewrite number_year by lia; simpl; do 3 f_equal; lia|].
  destruct (Z.eqb_spec spec 121) as [->|]; [done|].
  destruct (Z.eqb_spec spec 109) as [->|]; [rewrite number_pair by (cbv beta; lia); simpl; do 3 f_equal; lia|].
  destruct (Z.eqb_spec spec 100) as [->|]; [rewrite number_pair by (cbv beta; lia); done|].
  destruct (Z.eqb_spec spec 101) as [->|]; [done|]. cbn [orb].
  destruct (Z.eqb_spec spec 72) as [->|]; [rewrite number_pair by (cbv beta; lia); done|].
  destruct (Z.eqb_spec spec 107) as [->|]; [done|]. cbn [orb].
  destruct (Z.eqb_spec spec 77) as [->|]; [rewrite number_pair by (cbv beta; lia); done|].
  destruct (Z.eqb_spec spec 83) as [->|]; [rewrite number_pair by (cbv beta; lia); done|].
  destruct (Z.eqb_spec spec 37) as [->|]; [done|lia].
Qed.

(** The text of a format starts with a space only where the format does. *)
Lemma skip_space fmt tm : tm_fits tm -> fmt_ok fmt = true ->
  skip is_space (text fmt tm) = text (skip is_space fmt) tm /\ fmt_ok (skip is_space fmt) = true
  /\ forall tm0, assign (skip is_space fmt) tm tm0 = assign fmt tm tm0.
Proof.
  intros Ht. induction fmt as [|c fmt Hc IH| |spec fmt IH] using fmt_ind; intros Hok; [done| |done|].
  - cbn [fmt_ok text] in *. rewrite (proj2 (Z.eqb_neq _ _) Hc) in *. cbn [skip].
    destruct (is_space c) eqn:Es.
    + destruct (IH Hok) as (E1 & E2 & E3). split_and!; [done|done|]. intros tm0. rewrite E3. cbn [assign].
      by rewrite (proj2 (Z.eqb_neq _ _) Hc).
    + split_and!; [cbn [text]; by rewrite (proj2 (Z.eqb_neq _ _) Hc)|cbn [fmt_ok]; by rewrite (proj2 (Z.eqb_neq _ _) Hc)|done].
  - change (skip is_space (37 :: spec :: fmt)) with (37 :: spec :: fmt). split_and!; [|done|done].
    cbn [text Z.eqb Pos.eqb]. destruct Ht. unfold spec_text, pair_of.
    assert (forall v r, 0 <= v <= 9 -> skip is_space (48 + v :: r) = 48 + v :: r) as Hd.
    { intros v r Hv. cbn [skip]. unfold is_space. cbn [existsb]. rewrite !(proj2 (Z.eqb_neq _ _)) by lia. done. }
    repeat case_match; cbn [app]; try apply Hd; try mlia. done.
Qed.

Lemma skip_length p s : (length (skip p s) <= length s)%nat.
Proof. induction s as [|c s IH]; [done|]. cbn [skip]. destruct (p c); simpl; lia. Qed.

Lemma parse_loop_text tm : tm_fits tm -> forall fuel fmt tm0, fmt_ok fmt = true -> (length fmt <= fuel)%nat ->
  parse_loop fuel fmt (text fmt tm) tm0 = Some ([], assign fmt tm tm0).
Proof.
  intros Ht. induction fuel as [|fuel IH]; intros [|c fmt] tm0 Hok Hl; try done; [simpl in Hl; lia|].
  cbn [parse_loop]. destruct (Z.eqb_spec c 37) as [->|Hc]; cbn [negb].
  - destruct fmt as [|spec fmt]; [done|]. cbn [fmt_ok text assign Z.eqb Pos.eqb] in *.
    apply andb_true_iff in Hok as [Hs Hok]. rewrite parse_spec_text by done. simpl. apply IH; [done|]. simpl in Hl. lia.
  - destruct (is_space c) eqn:Es.
    + destruct (skip_space (c :: fmt) tm Ht Hok) as (E1 & E2 & E3). rewrite E1, IH; [by rewrite E3|done|].
      cbn [skip]. rewrite Es. pose proof (skip_length is_space fmt). simpl in Hl. lia.
    + cbn [fmt_ok text assign] in *. rewrite (proj2 (Z.eqb_neq _ _) Hc) in *. rewrite Z.eqb_refl.
      apply IH; [done|]. simpl in Hl. lia.
Qed.

(** [strptime] reads back what [strftime] printed.  For every format of
    literal characters and the conversions %Y %m %d %H %M %S %%, and every time
    of a four-digit year with fields in range, whose text fits the buffer, the
    text parses to its end and every field the format names is the one that was
    printed, whatever the structure held before. *)
Theorem strptime_strftime {E} `{Profile} max fmt tm tm0 : fmt_ok fmt = true -> tm_fits tm ->
  Z.of_nat (length (text fmt tm)) < Z.min max 512 ->
  exists s, strftime (E := E) max fmt tm = Ok s
  /\ strptime s fmt tm0 = Some ([], assign fmt tm (set_isdst tm0 (-1))).
Proof.
  intros Hok Ht Hl. exists (text fmt tm). split.
  - unfold strftime. rewrite (proj2 (Z.eqb_neq _ _)) by lia. rewrite format_loop_text by (done || simpl; lia).
    cbn [res_bind app]. by rewrite take_ge by lia.
  - by apply parse_loop_text.
Qed.

(** The format %Y-%m-%d %H:%M:%S. *)
Definition iso_format : list Z := [37; 89; 45; 37; 109; 45; 37; 100; 32; 37; 72; 58; 37; 77; 58; 37; 83].

Lemma strptime_strftime_witness : exists s,
  strftime (E := unit) (H := true) 32 iso_format (mkTm 56 34 12 15 10 126 0 0 0) = Ok s
  /\ exists tm, strptime s iso_format (mkTm 0 0 0 0 0 0 0 0 0) = Some ([], tm)
  /\ (tm_year tm, tm_mon tm, tm_mday tm, tm_hour tm, tm_min tm, tm_sec tm) = (126, 10, 15, 12, 34, 56).
Proof.
  destruct (strptime_strftime (E := unit) (H := true) 32 iso_format (mkTm 56 34 12 15 10 126 0 0 0) (mkTm 0 0 0 0 0 0 0 0 0))
    as (s & E1 & E2).
  - vm_compute. reflexivity.
  - constructor; simpl; lia.
  - vm_compute. reflexivity.
  - exists s. split; [exact E1|]. eexists. split; [exact E2|]. vm_compute. reflexivity.
Defined.

Lemma gmtime_is_civil_witness : exists tm, gmtime_r (E := unit) (H := true) 1763210096 = Ok tm
  /\ (tm_year tm + 1900, tm_mon tm + 1, tm_mday tm) = (2025, 11, 15).
Proof.
  destruct (gmtime_is_civil (E := unit) (H := true) 1763210096 ltac:(lia)) as (tm & E1 & E2 & _).
  exists tm. split; [exact E1|]. vm_compute in E2. injection E2 as -> -> ->. reflexivity.
Defined.

Lemma mktime_gmtime_witness : exists tm, gmtime_r (E := unit) (H := true) 1763210096 = Ok tm
  /\ mktime (E := unit) (H := true) tm = Ok (1763210096, tm).
Proof. exact (mktime_gmtime (E := unit) (H := true) 1763210096 ltac:(lia)). Defined.
