(* ===== verification/FatDirentFacts.v ===== *)
(** * Correctness of FAT32 directory entries

    Round trips of time stamps, long names and short names, and what the entry
    layout keeps apart. *)

From S2P Require Import Prelude Bits Errors Calendar Fat32 FatDirent.
Import Errors.Vfs.
Local Open Scope Z_scope.

(** ** Time stamps *)

Lemma lor_shiftl a k x : 0 <= k -> 0 <= x < 2 ^ k -> Z.lor (Z.shiftl a k) x = a * 2 ^ k + x.
Proof.
  intros Hk Hx. assert (Z.land (Z.shiftl a k) x = 0) as E.
  { apply Z.bits_inj'. intros n Hn. rewrite Z.land_spec, Z.bits_0. destruct (decide (n < k)).
    - by rewrite Z.shiftl_spec_low by done.
    - rewrite (testbit_out k x n) by lia. apply andb_false_r. }
  rewrite <- Z.lxor_lor by done. rewrite <- Z.add_nocarry_lxor by done. by rewrite Z.shiftl_mul_pow2.
Qed.

Lemma field v k w : 0 <= k -> 0 <= w -> Z.land (Z.shiftr v k) (2 ^ w - 1) = (v / 2 ^ k) mod 2 ^ w.
Proof.
  intros Hk Hw. rewrite Z.shiftr_div_pow2 by done. rewrite Z.sub_1_r, <- Z.ones_equiv. by apply Z.land_ones.
Qed.

Lemma dos_fields time date hour min sec year month day :
  0 <= hour < 32 -> 0 <= min < 64 -> 0 <= sec < 32 -> 0 <= year < 128 -> 0 <= month < 16 -> 0 <= day < 32 ->
  time = Z.lor (Z.lor (Z.shiftl hour 11) (Z.shiftl min 5)) sec ->
  date = Z.lor (Z.lor (Z.shiftl year 9) (Z.shiftl month 5)) day ->
  (Z.land (Z.shiftr date 9) 127 = year /\ Z.land (Z.shiftr date 5) 15 = month /\ Z.land date 31 = day)
  /\ Z.land (Z.shiftr time 11) 31 = hour /\ Z.land (Z.shiftr time 5) 63 = min /\ Z.land time 31 = sec.
Proof.
  intros Hh Hm Hs Hy Hmo Hd -> ->. rewrite <- !Z.lor_assoc.
  rewrite (lor_shiftl min 5 sec), (lor_shiftl month 5 day) by lia. rewrite !lor_shiftl by lia.
  change 127 with (2 ^ 7 - 1). change 15 with (2 ^ 4 - 1). change 31 with (2 ^ 5 - 1). change 63 with (2 ^ 6 - 1).
  rewrite <- (Z.shiftr_0_r (year * 2 ^ 9 + (month * 2 ^ 5 + day))) at 3.
  rewrite <- (Z.shiftr_0_r (hour * 2 ^ 11 + (min * 2 ^ 5 + sec))) at 3. rewrite !field by lia.
  rewrite !Z.pow_0_r, !Z.div_1_r. split_and!; mlia.
Qed.

Section Stamps.
Context `{Profile}.

(** A time stamped into a directory entry is read back to the even second,
    for every time from 1980 to 2107, through the DOS date and time fields. *)
Theorem dos_datetime_roundtrip epoch : day_number (1980, 1, 1) * 86400 <= epoch < day_number (2108, 1, 1) * 86400 ->
  exists time date, epoch_to_dos_datetime epoch = Ok (time, date) /\ 0 <= time < 65536 /\ 0 <= date < 65536
  /\ dos_datetime_to_epoch time date = Ok (Some (epoch - epoch mod 2)).
Proof.
  intros He. assert (day_number (1980, 1, 1) = 3652) as E0 by reflexivity.
  assert (day_number (2108, 1, 1) = 50403) as E1 by reflexivity. rewrite E0, E1 in He.
  unfold epoch_to_dos_datetime. set (days := epoch / 86400). assert (3652 <= days < 50403) as Hdays by (unfold days; mlia).
  rewrite civil_from_days_eq by lia. cbn [res_bind]. destruct (civil_of_ok days) as [Hok Hn].
  destruct (civil_of days) as [[year month] day]. pose proof (date_ok_bounds _ _ _ Hok) as [Hm Hd].
  assert (1980 <= year <= 2107) as Hy.
  { rewrite day_number_eq in Hn. unfold year_start, month_start, march_year in Hn. destruct (Z.leb_spec month 2); mlia. }
  rewrite (proj2 (andb_true_iff _ _)) by lia. cbn [negb]. set (rem := epoch mod 86400).
  assert (0 <= rem < 86400) as Hrem by (unfold rem; mlia). do 2 eexists. split; [reflexivity|].
  set (hour := rem / 3600). set (mi := rem mod 3600 / 60). set (sec := rem mod 60 / 2).
  assert (0 <= hour < 24 /\ 0 <= mi < 60 /\ 0 <= sec < 30) as (Hh & Hmi & Hs) by (unfold hour, mi, sec; mlia).
  destruct (dos_fields _ _ hour mi sec (year - 1980) month day ltac:(lia) ltac:(lia) ltac:(lia) ltac:(lia) ltac:(lia) ltac:(lia)
    eq_refl eq_refl) as [(F1 & F2 & F3) (F4 & F5 & F6)].
  split; [rewrite <- Z.lor_assoc, !lor_shiftl by (rewrite ?lor_shiftl; lia); lia|].
  split; [rewrite <- Z.lor_assoc, !lor_shiftl by (rewrite ?lor_shiftl; lia); lia|].
  unfold dos_datetime_to_epoch. rewrite F1, F2, F3, F4, F5, F6. rewrite (proj2 (orb_false_iff _ _)) by lia.
  replace (1980 + (year - 1980)) with year by lia. rewrite days_from_civil_eq by (unfold in_range; lia).
  cbn [res_bind]. rewrite Hn. do 2 f_equal. unfold hour, mi, sec, rem, days. mlia.
Qed.
End Stamps.

(** ** Long names *)

(** A Unicode scalar value. *)
Definition scalar (c : Z) : Prop := 0 <= c < 1114112 /\ ~ 55296 <= c < 57344.

Lemma utf16_roundtrip s : Forall scalar s -> from_utf16_lossy (encode_utf16 s) = s.
Proof.
  induction 1 as [|c s [Hc Hs] _ IH]; [done|]. change (encode_utf16 (c :: s)) with (utf16_char c ++ encode_utf16 s).
  unfold utf16_char. destruct (Z.ltb_spec c 65536) as [Hlt|Hge]; cbn [app from_utf16_lossy].
  - assert (is_high c = false) as -> by (unfold is_high; lia). assert (is_low c = false) as -> by (unfold is_low; lia).
    by rewrite IH.
  - assert (is_high (55296 + (c - 65536) / 1024) = true) as -> by (unfold is_high; mlia).
    assert (is_low (56320 + (c - 65536) mod 1024) = true) as -> by (unfold is_low; mlia). rewrite IH. f_equal. mlia.
Qed.

Lemma utf16_units s : Forall scalar s -> Forall (fun u => 0 <= u < 65536) (encode_utf16 s).
Proof.
  induction 1 as [|c s [Hc _] _ IH]; [constructor|]. change (encode_utf16 (c :: s)) with (utf16_char c ++ encode_utf16 s).
  apply Forall_app. split; [|done]. unfold utf16_char. destruct (Z.ltb_spec c 65536); repeat constructor; mlia.
Qed.

Lemma le_val_pair c : 0 <= c < 65536 -> le_val [c mod 256; c / 256 mod 256] = c.
Proof. intros Hc. unfold le_val. rewrite (Z.mod_small (c / 256)) by mlia. mlia. Qed.

(** The characters written into a slot are those read from it. *)
Lemma slot_char_at (f : nat -> Z) e j : length e = 32%nat -> (j < 13)%nat -> 0 <= f j < 65536 ->
  get_vfat_char (foldl (fun e j => set_vfat_char e j (f j)) e (seq 0 13)) j = f j.
Proof.
  intros Hl Hj Hf. do 32 (destruct e as [|? e]; [done|]). destruct e; [|done].
  do 13 (destruct j as [|j]; [exact (le_val_pair _ Hf)|]). lia.
Qed.

Lemma slot_keeps (f : nat -> Z) e i : length e = 32%nat -> i ∈ [0; 11; 12; 13; 26; 27]%nat ->
  at_ (foldl (fun e j => set_vfat_char e j (f j)) e (seq 0 13)) i = at_ e i.
Proof.
  intros Hl Hi. do 32 (destruct e as [|? e]; [done|]). destruct e; [|done].
  repeat (apply elem_of_cons in Hi as [->|Hi]; [reflexivity|]). by apply not_elem_of_nil in Hi.
Qed.

Definition plain_unit (u : Z) : Prop := 0 < u < 65535.

Lemma slot_chars_part entry part : Forall plain_unit part -> (length part <= 13)%nat ->
  (forall j, (j < 13)%nat -> get_vfat_char entry j = nth j part 65535) -> slot_chars entry (seq 0 13) = part.
Proof.
  intros Hp Hl Hg. assert (forall n j, (j + n = 13)%nat -> (j <= length part)%nat ->
    slot_chars entry (seq j n) = drop j part) as Hgen; [|by rewrite (Hgen 13%nat 0%nat) by lia].
  induction n as [|n IH]; intros j Hn Hj; cbn [seq slot_chars].
  { rewrite drop_ge; [done|lia]. }
  rewrite Hg by lia. destruct (decide (j < length part)%nat) as [Hlt|Hge].
  - destruct (lookup_lt_is_Some_2 part j Hlt) as [c Hc]. rewrite (nth_lookup_Some _ _ _ _ Hc).
    rewrite Forall_forall in Hp. pose proof (Hp c ltac:(by eapply list_elem_of_lookup_2)) as Hpc. unfold plain_unit in Hpc.
    rewrite (proj2 (orb_false_iff _ _)) by lia. rewrite IH by lia. symmetry. by apply drop_S.
  - rewrite nth_overflow by lia. cbn [Z.eqb Pos.eqb orb]. by rewrite drop_ge by lia.
Qed.

Lemma chunks_concat {A} (k : nat) : (0 < k)%nat -> forall n (l : list A), (length l <= n * k)%nat ->
  flat_map (fun i => take k (drop (i * k) l)) (seq 0 n) = l.
Proof.
  intros Hk. induction n as [|n IH]; intros l Hl; [destruct l; [done|simpl in Hl; lia]|].
  change (seq 0 (S n)) with (0%nat :: seq 1 n). rewrite <- seq_shift. cbn [flat_map]. rewrite flat_map_concat_map, map_map.
  rewrite <- flat_map_concat_map. change (0 * k)%nat with 0%nat. rewrite drop_0.
  transitivity (take k l ++ drop k l); [|by rewrite take_drop]. f_equal.
  rewrite <- (IH (drop k l)) at 1 by (rewrite length_drop; lia).
  apply flat_map_ext. intros i. by rewrite drop_drop.
Qed.

Lemma ord_live i n : (i < n)%nat -> (n <= 20)%nat ->
  let o := if (i =? 0)%nat then Z.lor (Z.of_nat (n - i) mod 256) 64 else Z.of_nat (n - i) mod 256 in
  (o =? DIR_DELETED) || (Z.land o 31 =? 0) = false.
Proof.
  intros Hi Hn. remember (n - i)%nat as k eqn:Ek. assert (1 <= k <= 20)%nat as Hk by lia. clear Ek.
  do 21 (destruct k as [|k]; [destruct (i =? 0)%nat; (reflexivity || lia)|]). lia.
Qed.

Lemma vfat_slot_chars chars n i csum : (i < n)%nat -> (n <= 20)%nat -> Forall plain_unit chars ->
  (if (at_ (vfat_slot chars n i csum) 0 =? DIR_DELETED) || (Z.land (at_ (vfat_slot chars n i csum) 0) 31 =? 0) then []
   else slot_chars (vfat_slot chars n i csum) (seq 0 13)) = take 13 (drop (i * 13) chars).
Proof.
  intros Hi Hn Hp. unfold vfat_slot. set (part := take 13 (drop (i * 13) chars)).
  assert (Forall plain_unit part) as Hpp by (by apply Forall_take, Forall_drop).
  set (e := <[13%nat := csum]> _). assert (length e = 32%nat) as Hl by (unfold e; by rewrite !length_insert).
  rewrite (slot_keeps (fun j => nth j part 65535)) by (done || set_solver).
  change (at_ e 0) with (if (i =? 0)%nat then Z.lor (Z.of_nat (n - i) mod 256) 64 else Z.of_nat (n - i) mod 256).
  rewrite ord_live by done. apply slot_chars_part; [done|unfold part; rewrite length_take; lia|].
  intros j Hj. apply (slot_char_at (fun j => nth j part 65535)); [done|done|]. cbv beta.
  destruct (nth_in_or_default j part 65535) as [Hin| ->]; [|lia].
  rewrite Forall_forall in Hpp. apply list_elem_of_In, Hpp in Hin. unfold plain_unit in Hin. lia.
Qed.

(** A long name is read back from its slots: for every name of characters
    other than U+0000 and U+FFFF that fits in [MAX_LFN_ENTRIES] slots, decoding
    the slots [encode_vfat_entries] writes gives the name, surrogate pairs
    included. *)
Theorem vfat_name_roundtrip name checksum : Forall scalar name -> Forall (fun c => c <> 0 /\ c <> 65535) name ->
  lfn_slot_count name <= MAX_LFN_ENTRIES -> decode_vfat_name (encode_vfat_entries name checksum) = name.
Proof.
  intros Hs Hne Hc. unfold decode_vfat_name, encode_vfat_entries. rewrite rev_involutive.
  unfold lfn_slot_count, MAX_LFN_ENTRIES in Hc. set (chars := encode_utf16 name) in *.
  set (n := ((length chars + 12) / 13)%nat).
  assert (Z.of_nat n = (Z.of_nat (length chars) + 12) / 13) as Hn
    by (unfold n; rewrite Nat2Z.inj_div, Nat2Z.inj_add; done).
  assert (Forall plain_unit chars) as Hp.
  { unfold chars. clear - Hs Hne. induction Hs as [|c s [Hc Hs] Hss IH]; [constructor|].
    apply Forall_cons in Hne as [[H0 H1] Hne]. change (encode_utf16 (c :: s)) with (utf16_char c ++ encode_utf16 s).
    apply Forall_app. split; [|by apply IH]. unfold utf16_char, plain_unit.
    destruct (Z.ltb_spec c 65536); repeat constructor; mlia. }
  rewrite flat_map_concat_map, map_map, <- flat_map_concat_map.
  transitivity (from_utf16_lossy chars); [|by apply utf16_roundtrip]. f_equal.
  etransitivity; [|apply (chunks_concat 13 ltac:(lia) n chars); mlia].
  rewrite !flat_map_concat_map. f_equal. apply map_ext_in. intros i Hi%in_seq. apply vfat_slot_chars; [lia|mlia|done].
Qed.

(** ** Short names *)

Lemma as_bytes_ascii s : Forall (Z.le 0) s -> existsb (fun b => (127 <? b) || (b =? 32)) (as_bytes s) = false ->
  as_bytes s = s /\ Forall (fun c => 0 <= c < 128 /\ c <> 32) s.
Proof.
  induction 1 as [|c s Hc _ IH]; intros Hb; [done|]. change (as_bytes (c :: s)) with (utf8_char c ++ as_bytes s) in *.
  rewrite existsb_app in Hb. apply orb_false_iff in Hb as [H1 H2]. destruct (IH H2) as [-> Hf].
  unfold utf8_char in *. destruct (Z.ltb_spec c 128).
  - cbn [existsb app] in *. split; [done|]. constructor; [lia|done].
  - exfalso. destruct (Z.ltb_spec c 2048); [|destruct (Z.ltb_spec c 65536)]; cbn [existsb] in H1; mlia.
Qed.

Lemma rfind_dot_spec l : match rfind_dot l with
  | None => 46 ∉ l
  | Some i => exists a b, l = a ++ 46 :: b /\ i = Z.of_nat (length a) /\ 46 ∉ b
  end.
Proof.
  induction l as [|c l IH]; cbn [rfind_dot]; [set_solver|]. destruct (rfind_dot l) as [i|].
  - destruct IH as (a & b & -> & -> & Hb). exists (c :: a), b. split_and!; [done|simpl; lia|done].
  - destruct (Z.eqb_spec c 46) as [->|Hne]; [exists [], l; by split_and!|set_solver].
Qed.

Lemma trimmed_spaces k : trimmed (replicate k 32) = 0%nat.
Proof. induction k as [|k IH]; [done|]. simpl. by rewrite IH. Qed.

Lemma trimmed_pad u k : Forall (fun b => b <> 32) u -> trimmed (u ++ replicate k 32) = length u.
Proof.
  induction 1 as [|b u Hb _ IH]; cbn [app trimmed length]; [apply trimmed_spaces|]. rewrite IH.
  destruct (length u); [|done]. by rewrite (proj2 (Z.eqb_neq _ _) Hb).
Qed.

Lemma pad_short n l : (length l <= n)%nat -> pad n l = l ++ replicate (n - length l) 32.
Proof. intros Hl. unfold pad. rewrite take_app_ge by done. by rewrite take_replicate, Nat.min_l by lia. Qed.

Lemma find_space u k : Forall (fun b => b <> 32) u ->
  list_find (fun b => b = 32) (u ++ replicate k 32) = match k with O => None | _ => Some (length u, 32) end.
Proof.
  induction 1 as [|b u Hb _ IH]; [by destruct k|]. cbn [app list_find]. rewrite decide_False by done.
  rewrite IH. by destruct k.
Qed.

Lemma recase_stem (lower : bool) c : (if lower then is_upper c = false else is_lower c = false) ->
  recase lower (to_upper c) = c.
Proof.
  unfold recase, to_lower, to_upper. destruct lower; unfold is_lower, is_upper; intros Hc; repeat case_match; lia.
Qed.

Lemma recase_list l : (existsb is_lower l = true -> existsb is_upper l = true -> False) ->
  map (recase (forallb (fun b => negb (is_upper b)) l)) (map to_upper l) = l.
Proof.
  intros Hc. rewrite map_map. etransitivity; [|apply map_id]. apply map_ext_in. intros c Hin. apply recase_stem.
  destruct (forallb _ l) eqn:Ef.
  - rewrite forallb_forall in Ef. specialize (Ef c Hin). by destruct (is_upper c).
  - destruct (is_lower c) eqn:El; [|done]. exfalso. apply Hc; [apply existsb_exists; eauto|].
    apply Bool.not_true_iff_false in Ef. destruct (existsb is_upper l) eqn:Eu; [done|]. exfalso. apply Ef.
    apply forallb_forall. intros x Hx. destruct (is_upper x) eqn:Ex; [|done].
    assert (existsb is_upper l = true) by (apply existsb_exists; eauto). congruence.
Qed.

Lemma to_upper_nospace l : Forall (fun c => 0 <= c < 128 /\ c <> 32) l ->
  Forall (fun b => b <> 32) (map to_upper l).
Proof.
  induction 1 as [|c l [Hc Hn] _ IH]; constructor; [|done].
  unfold to_upper, is_lower. case_match; lia.
Qed.

Lemma kanji_ascii l k : Forall (fun c => 0 <= c < 128 /\ c <> 32) l ->
  kanji (map to_upper l ++ replicate k 32) = map to_upper l ++ replicate k 32.
Proof.
  intros Hl. destruct Hl as [|c l [Hc _] _]; [by destruct k|]. cbn [map app kanji].
  unfold DIR_DELETED, to_upper, is_lower. repeat case_match; try done; lia.
Qed.

(** Decoding the short name made of a plain stem and extension. *)
Lemma decode_made stem ext nt : stem <> [] -> hd 0 stem <> KANJI_LEAD ->
  Forall (fun c => 0 <= c < 128 /\ c <> 32) stem -> Forall (fun c => 0 <= c < 128 /\ c <> 32) ext ->
  (length stem <= 8)%nat -> (length ext <= 3)%nat ->
  length (make_sfn_bytes stem ext) = 11%nat /\
  decode_sfn_case (make_sfn_bytes stem ext) nt =
    map (recase (negb (Z.land nt NT_CASE_STEM_LOWER =? 0))) (map to_upper stem)
    ++ (if decide (ext = []) then []
        else 46 :: map (recase (negb (Z.land nt NT_CASE_EXT_LOWER =? 0))) (map to_upper ext)).
Proof.
  intros Hne Hk Hs He Ls Le. unfold make_sfn_bytes.
  rewrite !take_ge by lia. rewrite !pad_short by (rewrite length_map; lia). rewrite kanji_ascii by done.
  pose proof (to_upper_nospace _ Hs) as Us. pose proof (to_upper_nospace _ He) as Ue.
  rewrite !length_map. set (u := map to_upper stem) in *. set (v := map to_upper ext) in *.
  assert (Lu : length u = length stem) by apply length_map. assert (Lv : length v = length ext) by apply length_map.
  split; [rewrite !length_app, !length_replicate; lia|]. unfold decode_sfn_case.
  rewrite (take_app_length' (u ++ _) _ 8), (drop_app_length' (u ++ _) _ 8) by (rewrite length_app, length_replicate; lia).
  rewrite trimmed_pad by done. rewrite <- app_assoc, take_app_length. rewrite (take_ge (v ++ _)) by (rewrite length_app, length_replicate; lia).
  rewrite find_space by done.
  replace (match u with b :: r => (if b =? KANJI_LEAD then 229 else b) :: r | [] => [] end) with u.
  2: { subst u. destruct stem as [|c stem]; [done|]. cbn [map hd] in *. unfold KANJI_LEAD, to_upper, is_lower in *.
       repeat case_match; try done; lia. }
  replace (match match (3 - length ext)%nat with O => None | S _ => Some (length v, 32) end with
           | Some (p, _) => p | None => 3%nat end) with (length v) by (destruct (3 - length ext)%nat eqn:E; lia).
  rewrite take_app_length. destruct (decide (ext = [])) as [->|Hx].
  - cbn. by rewrite app_nil_r.
  - destruct (Nat.ltb_spec 0 (length v)); [done|]. destruct ext; [done|simpl in *; lia].
Qed.

Lemma land_flags (p q : bool) :
  let f := Z.lor (if p then NT_CASE_STEM_LOWER else 0) (if q then NT_CASE_EXT_LOWER else 0) in
  negb (Z.land f NT_CASE_STEM_LOWER =? 0) = p /\ negb (Z.land f NT_CASE_EXT_LOWER =? 0) = q.
Proof. by destruct p, q. Qed.

(** What [needs_vfat] promises of a name it accepts as a short one. *)
Lemma short_name name : Forall (Z.le 0) name -> name <> [46] -> name <> [46; 46] -> needs_vfat name = false ->
  as_bytes name = name /\ Forall (fun c => 0 <= c < 128 /\ c <> 32) name /\
  default (Z.of_nat (length name)) (rfind_dot name) <= 8 /\
  match rfind_dot name with Some d => Z.of_nat (length name) - d - 1 <= 3 | None => True end /\
  (existsb is_lower name = true -> existsb is_upper name = true -> False).
Proof.
  intros H0 H1 H2. unfold needs_vfat. rewrite bool_decide_eq_false_2 by tauto.
  intros [[[[Hb He]%orb_false_iff _]%orb_false_iff Hc]%orb_false_iff Ha]%orb_false_iff.
  destruct (as_bytes_ascii _ H0 Ha) as [Heq Hf]. rewrite Heq in *. split_and!; [done|done|lia| |].
  - destruct (rfind_dot name); [lia|done].
  - intros Hl Hu. by rewrite Hl, Hu in Hc.
Qed.

Definition all_lower (l : list Z) : bool := forallb (fun b => negb (is_upper b)) l.

(** A name with a stem and, after its dot, an extension is put back together from them, and
    its case flags are about them. *)
Lemma split_name_spec name : as_bytes name = name ->
  (split_name name).1 <> [] -> (46 ∈ name -> (split_name name).2 <> []) ->
  exists stem ext, split_name name = (stem, ext) /\
    name = stem ++ (if decide (ext = []) then [] else 46 :: ext) /\
    Z.of_nat (length stem) = default (Z.of_nat (length name)) (rfind_dot name) /\
    Z.of_nat (length ext) = match rfind_dot name with Some d => Z.of_nat (length name) - d - 1 | None => 0 end /\
    nt_case_flags name = Z.lor (if all_lower stem then NT_CASE_STEM_LOWER else 0)
                               (if negb (bool_decide (ext = [])) && all_lower ext then NT_CASE_EXT_LOWER else 0).
Proof.
  intros Heq. unfold nt_case_flags. rewrite Heq. unfold split_name.
  pose proof (rfind_dot_spec name) as Hd. destruct (rfind_dot name) as [d|].
  - destruct Hd as (a & b & Hn & -> & _). intros Hs He. exists a, b. revert Hs He.
    assert (Z.to_nat (Z.of_nat (length a) + 1) = length (a ++ [46])) as -> by (rewrite length_app; simpl; lia).
    assert (drop (length (a ++ [46])) name = b) as ->
      by (rewrite Hn; change (46 :: b) with ([46] ++ b); rewrite app_assoc; apply drop_app_length).
    rewrite Nat2Z.id. assert (take (length a) name = a) as -> by (rewrite Hn; apply take_app_length).
    cbn [fst snd]. intros Hs He. assert (b <> []) as Hb by (apply He; subst; set_solver).
    rewrite decide_False by done. split_and!; [done|done|done|subst name; rewrite length_app; simpl; lia|].
    destruct a as [|a0 a]; [done|].
    replace (Z.of_nat (length (a0 :: a)) =? 0) with false by (simpl; lia).
    by rewrite (bool_decide_eq_false_2 (a0 :: a = [])).
  - cbn [fst snd]. intros Hs He. exists name, []. rewrite decide_True, app_nil_r by done.
    split_and!; [done..|]. by rewrite bool_decide_eq_false_2.
Qed.

(** A name that [needs_vfat] accepts as a plain short name, with a stem and, after
    its dot, an extension, is decoded from the short entry [sfn_from_name] makes for it and
    the case flags of [nt_case_flags] exactly as it was written, in its case; the entry has
    11 bytes.  (Such a name does not start with the byte 0x05, which stands for 0xE5.) *)
Theorem sfn_roundtrip name existing : Forall (Z.le 0) name -> hd 0 name <> KANJI_LEAD ->
  needs_vfat name = false ->
  (split_name name).1 <> [] -> (46 ∈ name -> (split_name name).2 <> []) ->
  make_sfn_bytes (split_name name).1 (split_name name).2 ∉ existing ->
  exists sfn, sfn_from_name name existing = Some sfn /\ sfn ∉ existing /\ length sfn = 11%nat /\
    decode_sfn_case sfn (nt_case_flags name) = name.
Proof.
  intros H0 Hk Hn Hs He Hx.
  assert (name <> [46]) by (intros ->; by apply Hs). assert (name <> [46; 46]) by (intros ->; apply He; [set_solver|done]).
  destruct (short_name name) as (Heq & Hf & Hb & Hl & Hc); [done..|].
  assert (name <> []) by (by intros ->). unfold sfn_from_name. rewrite bool_decide_eq_false_2 by done. rewrite Heq.
  destruct (split_name_spec name Heq Hs He) as (stem & ext & E & Hname & Ls & Le & ->). rewrite E in *. cbn [fst snd] in *.
  rewrite bool_decide_eq_true_2 by done. eexists. split; [done|]. split; [done|].
  rewrite Hname in Hf. apply Forall_app in Hf as [Hf1 Hf2].
  assert (Forall (fun c => 0 <= c < 128 /\ c <> 32) ext) as Hf3
    by (destruct (decide (ext = [])) as [->|]; [done|by inversion Hf2]).
  set (nt := Z.lor _ _). destruct (decode_made stem ext nt) as [-> ->]; [done| |done|done|lia|destruct (rfind_dot name); lia|].
  { destruct stem; [done|]. by rewrite Hname in Hk. }
  split; [done|]. destruct (land_flags (all_lower stem) (negb (bool_decide (ext = [])) && all_lower ext)) as [F1 F2].
  fold nt in F1, F2. rewrite F1, F2. clearbody nt. rewrite Hname in Hc. rewrite !existsb_app in Hc.
  etransitivity; [|symmetry; exact Hname]. f_equal; [apply recase_list; intros X Y; apply Hc; by rewrite ?X, ?Y|].
  destruct (decide (ext = [])); [done|]. rewrite bool_decide_eq_false_2 by done. f_equal. apply recase_list.
  intros X Y. apply Hc; cbn [existsb]; rewrite ?X, ?Y; by rewrite !orb_true_r.
Qed.

(** "readme.txt" beside an entry for "FOO". *)
Lemma sfn_roundtrip_witness : exists sfn,
  sfn_from_name [114; 101; 97; 100; 109; 101; 46; 116; 120; 116] [[70; 79; 79; 32; 32; 32; 32; 32; 32; 32; 32]] = Some sfn /\
  sfn ∉ [[70; 79; 79; 32; 32; 32; 32; 32; 32; 32; 32]] /\ length sfn = 11%nat /\
  decode_sfn_case sfn (nt_case_flags [114; 101; 97; 100; 109; 101; 46; 116; 120; 116])
    = [114; 101; 97; 100; 109; 101; 46; 116; 120; 116].
Proof.
  apply sfn_roundtrip; [by repeat constructor|done|reflexivity|done|done|].
  intros H%list_elem_of_singleton. discriminate H.
Defined.

(** 2026-11-15 12:34:57. *)
Lemma dos_datetime_roundtrip_witness : exists time date,
  epoch_to_dos_datetime (H := true) 1794746097 = Ok (time, date) /\ 0 <= time < 65536 /\ 0 <= date < 65536 /\
  dos_datetime_to_epoch (H := true) time date = Ok (Some 1794746096).
Proof. apply (dos_datetime_roundtrip (H := true) 1794746097). vm_compute. split; congruence. Defined.

(** A name of two slots with a character outside the basic plane. *)
Lemma vfat_name_roundtrip_witness :
  let name := [76; 111; 110; 103; 32; 110; 97; 109; 101; 32; 128512; 46; 116; 101; 120; 116] in
  decode_vfat_name (encode_vfat_entries name 77) = name.
Proof.
  intros name. apply vfat_name_roundtrip; [..|by vm_compute]; repeat constructor; unfold scalar; lia.
Defined.

(** *** What the code does to some names *)

(** The slots of a long name carry their ordinals in the wrong order on the disk: the first
    one, which the format marks with 0x40 and the highest ordinal, has ordinal 1, and the
    slot before the short entry has the mark. *)
Theorem long_name_ordinals : forall checksum,
  map (fun e => at_ e 0) (encode_vfat_entries (repeat 97 30) checksum) = [1; 2; 67].
Proof. done. Qed.

(** "ab.tex" needs no long name, but beside "ab.text" its short entry gets a numeric tail: it
    is decoded as "ab    ~1.tex". *)
Theorem short_name_collision :
  let tex := [97; 98; 46; 116; 101; 120] in
  exists first, sfn_from_name [97; 98; 46; 116; 101; 120; 116] [] = Some first /\ needs_vfat tex = false /\
  exists sfn, sfn_from_name tex [first] = Some sfn /\
    decode_sfn_case sfn (nt_case_flags tex) = [97; 98; 32; 32; 32; 32; 126; 49; 46; 116; 101; 120].
Proof. by eexists; split; [vm_compute; done|split; [done|eexists; split; [vm_compute; done|]]]. Qed.

(** "foo." needs no long name either, and loses its dot; ".foo" comes back as ".FOO". *)
Theorem short_name_dots :
  let foo_dot := [102; 111; 111; 46] in let dot_foo := [46; 102; 111; 111] in
  needs_vfat foo_dot = false /\ needs_vfat dot_foo = false /\
  (exists sfn, sfn_from_name foo_dot [] = Some sfn /\ decode_sfn_case sfn (nt_case_flags foo_dot) = [102; 111; 111]) /\
  (exists sfn, sfn_from_name dot_foo [] = Some sfn /\ decode_sfn_case sfn (nt_case_flags dot_foo) = [46; 70; 79; 79]).
Proof. split_and!; [done|done|by eexists..]. Qed.
