(* ===== verification/FatDir.v ===== *)
(** * FAT32 directories

    Model of kernel/src/filesystems/fstypes/fat32/dir.rs: reading the entries
    of a directory, placing new ones, growing the directory, updating and
    removing an entry.  A cluster buffer is the list of its 32-byte entries:
    every access of the code is at a multiple of 32 below the cluster size, so
    [buf.get(..)] always succeeds and indexing does not panic.  The wall clock
    is an argument. *)

From S2P Require Import Prelude Bits Errors BlockDev Calendar Fat32 FatAlloc FatDirent.
Import Errors.Vfs.
Local Open Scope Z_scope.

Notation entry32 := (list Z) (only parsing).

Definition is_end (e : entry32) : bool := at_ e 0 =? DIR_END.
Definition is_deleted (e : entry32) : bool := at_ e 0 =? DIR_DELETED.
Definition is_free (e : entry32) : bool := is_deleted e || is_end e.
Definition is_lfn (e : entry32) : bool := at_ e 11 =? ATTR_LONG_NAME.
Definition is_volume (e : entry32) : bool := negb (Z.land (at_ e 11) ATTR_VOLUME_ID =? 0).
Definition mark_deleted (e : entry32) : entry32 := <[0%nat := DIR_DELETED]> e.

(** ** One cluster *)

(** The long name is kept when every slot carries the checksum of the short name. *)
Definition verified (vfat_chain : list entry32) (e : entry32) : list entry32 :=
  let expected := vfat_checksum (take MAX_SFN_LEN e) in
  if existsb (fun v => negb (at_ v 13 =? expected)) vfat_chain then [] else vfat_chain.

(** Whether the end of the directory was met, the open chain of long-name
    slots, and the entries. *)
Fixpoint scan_slots (es : list entry32) (vfat_chain : list entry32) (slots : list DirEntrySlot)
  : bool * list entry32 * list DirEntrySlot :=
  match es with
  | [] => (false, vfat_chain, slots)
  | e :: es =>
      if is_end e then (true, [], slots)
      else if is_deleted e then scan_slots es [] slots
      else if is_lfn e then scan_slots es (vfat_chain ++ [e]) slots
      else if is_volume e then scan_slots es [] (slots ++ [{| vfat_entries := []; sfn_entry := e |}])
      else scan_slots es [] (slots ++ [{| vfat_entries := verified vfat_chain e; sfn_entry := e |}])
  end.

Definition decode_entry_name (slot : DirEntrySlot) : list Z :=
  let e := sfn_entry slot in
  if is_volume e then decode_volume_label (take MAX_SFN_LEN e)
  else if negb (bool_decide (vfat_entries slot = [])) then decode_vfat_name (vfat_entries slot)
  else decode_sfn_case (take MAX_SFN_LEN e) (at_ e 12).

(** The free entries at the front. *)
Fixpoint free_run (es : list entry32) : nat :=
  match es with
  | e :: es => if is_free e then S (free_run es) else O
  | [] => O
  end.

(** Where [need] entries fit: a run of free ones, or the rest of the cluster
    after the end mark. *)
Fixpoint find_spot (es : list entry32) (need i : nat) : option nat :=
  match es with
  | [] => None
  | e :: es =>
      if is_free e then
        let space := if is_deleted e then S (free_run es) else S (length es) in
        if (need <=? space)%nat then Some i else find_spot es need (S i)
      else find_spot es need (S i)
  end.

Definition overwrite (es : list entry32) (i : nat) (new : list entry32) : list entry32 :=
  take i es ++ new ++ drop (i + length new) es.

(** A run of long-name slots and the short entry that ends it. *)
Fixpoint entry_group_len (es : list entry32) : option nat :=
  match es with
  | [] => None
  | e :: es => if is_lfn e then S <$> entry_group_len es else Some 1%nat
  end.

Fixpoint max_group (fuel : nat) (es : list entry32) (m : nat) : res VfsError nat :=
  match fuel, es with
  | _, [] => Ok m
  | O, _ => Panic
  | S fuel, _ =>
      let? g := ok_or (entry_group_len es) InvalidInput in
      max_group fuel (drop g es) (if (m <? g)%nat then g else m)
  end.

(** The first entry from which all are free. *)
Fixpoint free_tail (es : list entry32) (i : nat) : option nat :=
  match es with
  | [] => None
  | _ :: es' => if forallb is_free es then Some i else free_tail es' (S i)
  end.

(** Whole groups of [es] into [avail] entries: those that fit, and the rest. *)
Fixpoint take_groups (fuel : nat) (es : list entry32) (avail : nat) (out : list entry32)
  : res VfsError (list entry32 * list entry32) :=
  match fuel, es with
  | _, [] => Ok (out, [])
  | O, _ => Panic
  | S fuel, _ =>
      let? g := ok_or (entry_group_len es) InvalidInput in
      if (avail <? length out + g)%nat then Ok (out, es)
      else take_groups fuel (drop g es) avail (out ++ take g es)
  end.

(** ** Searching a cluster *)

Inductive Found := FoundEnd | FoundNone | FoundAt (chain_start i : nat).

Fixpoint take_while (p : entry32 -> bool) (l : list entry32) : list entry32 :=
  match l with
  | e :: l => if p e then e :: take_while p l else []
  | [] => []
  end.

(** The name of the entry [e] that follows the entries of [before] (the nearest
    first), and the number of slots of its long name. *)
Definition name_at (before : list entry32) (e : entry32) : list Z * nat :=
  let vfat_buf := rev (take_while is_lfn before) in
  (if negb (bool_decide (vfat_buf = [])) then decode_vfat_name vfat_buf
   else decode_sfn_case (take MAX_SFN_LEN e) (at_ e 12), length vfat_buf).

Fixpoint search (before es : list entry32) (name : list Z) : Found :=
  match es with
  | [] => FoundNone
  | e :: es =>
      if is_end e then FoundEnd
      else if is_deleted e || is_lfn e || is_volume e then search (e :: before) es name
      else
        let '(entry_name, n) := name_at before e in
        if eq_ignore_ascii_case entry_name name then FoundAt (length before - n) (length before)
        else search (e :: before) es name
  end.

(** ** Directories *)

Section Dir.
Context `{Profile} `{WriteDevice D} (b : Bpb).
Notation state := (Fs (D * FatCache)).

#[local] Instance dir_volume : FatOps (D * FatCache) := volume b.

Definition entries_per_clus : nat := Z.to_nat (byts_per_clus b / DIR_ENTRY_SIZE).

Definition entries_of (buf : list Z) : list entry32 :=
  map (fun i => take 32 (drop (i * 32) buf)) (seq 0 entries_per_clus).

Definition read_entries (cluster : Z) : cmd state (list entry32) :=
  do! buf := lift (read_cluster b cluster) in cmd_ret (entries_of buf).

Definition write_entries (cluster : Z) (es : list entry32) : cmd state unit :=
  lift (write_cluster b cluster (concat es)).

(** *** Reading *)

Fixpoint read_dir_loop (fuel : nat) (cluster iters : Z) (vfat_chain : list entry32) (slots : list DirEntrySlot)
  : cmd state (list DirEntrySlot) :=
  match fuel with
  | O => cmd_res Panic
  | S fuel =>
      do! es := read_entries cluster in
      let '(end_of_dir, vfat_chain, slots) := scan_slots es vfat_chain slots in
      if (end_of_dir : bool) then cmd_ret slots
      else
        do! next := lift (read_fat_entry b cluster) in
        if EOC_MARKER <=? next then cmd_ret slots
        else if total_clus b + 2 <? iters + 1 then cmd_res (Err IOError)
        else read_dir_loop fuel next (iters + 1) vfat_chain slots
  end.

Definition dir_fuel : nat := Z.to_nat (total_clus b + 4).

Definition read_dir_slots (dir_clus : Z) : cmd state (list DirEntrySlot) :=
  if (byts_per_clus b =? 0) || (bytes_per_sec b =? 0) || (sec_per_clus b =? 0) then cmd_res (Err IOError)
  else read_dir_loop dir_fuel dir_clus 0 [] [].

(** *** Placing new entries *)

Fixpoint append_groups (fuel : nat) (last_clus : Z) (rest : list entry32) : cmd state unit :=
  match rest, fuel with
  | [], _ => cmd_ret tt
  | _, O => cmd_res Panic
  | _, S fuel =>
      do! new_clus := alloc_cluster in
      do! _ := lift (zero_cluster new_clus) in
      do! _ := lift (write_fat_entry b last_clus new_clus) in
      do! r := cmd_res (take_groups (length rest) rest entries_per_clus []) in
      let '(out, rest) := r in
      do! _ := write_entries new_clus (overwrite (replicate entries_per_clus blank_entry) 0 out) in
      append_groups fuel new_clus rest
  end.

(** The free tail of the last cluster: the groups that fit, the rest of it
    marked as deleted when more is to follow. *)
Definition fill_tail (last_clus : Z) (es entries : list entry32) : cmd state (list entry32) :=
  match free_tail es 0 with
  | None => cmd_ret entries
  | Some start =>
      let avail := (entries_per_clus - start)%nat in
      do! r := cmd_res (take_groups (length entries) entries avail []) in
      let '(out, rest) := r in
      let used := length out in
      let more := negb (bool_decide (rest = [])) in
      if (0 <? used)%nat then
        let es := overwrite es start out in
        let es := if more && (used <? avail)%nat
                  then take (start + used) es ++ map mark_deleted (drop (start + used) es) else es in
        do! _ := write_entries last_clus es in
        cmd_ret rest
      else if more then
        let tail := drop start es in
        if existsb is_end tail then
          do! _ := write_entries last_clus
            (take start es ++ map (fun e => if is_end e then mark_deleted e else e) tail) in
          cmd_ret rest
        else cmd_ret rest
      else cmd_ret rest
  end.

Definition place_with_growth (last_clus : Z) (es entries : list entry32) : cmd state unit :=
  do! m := cmd_res (max_group (length entries) entries 1) in
  if (entries_per_clus <? m)%nat then cmd_res (Err InvalidInput)
  else
    do! rest := fill_tail last_clus es entries in
    append_groups (length rest) last_clus rest.

Fixpoint place_loop (fuel : nat) (cluster iters : Z) (entries : list entry32) : cmd state unit :=
  match fuel with
  | O => cmd_res Panic
  | S fuel =>
      do! es := read_entries cluster in
      match find_spot es (length entries) 0 with
      | Some i => write_entries cluster (overwrite es i entries)
      | None =>
          if total_clus b + 2 <? iters + 1 then cmd_res (Err IOError)
          else
            do! next := lift (read_fat_entry b cluster) in
            if EOC_MARKER <=? next then place_with_growth cluster es entries
            else place_loop fuel next (iters + 1) entries
      end
  end.

Definition write_dir_entries (dir_clus : Z) (entries : list entry32) : cmd state unit :=
  if bool_decide (entries = []) then cmd_ret tt
  else if dir_clus <? 2 then cmd_res (Err InvalidInput)
  else place_loop dir_fuel dir_clus 0 entries.

(** *** Updating and removing *)

(** The walk of [find_and_update_entry] and [remove_dir_entries]: [act] rewrites
    the cluster in which the name is found. *)
Fixpoint find_loop (fuel : nat) (cluster iters : Z) (name : list Z)
  (act : list entry32 -> nat -> nat -> res VfsError (list entry32)) : cmd state unit :=
  match fuel with
  | O => cmd_res Panic
  | S fuel =>
      do! es := read_entries cluster in
      match search [] es name with
      | FoundEnd => cmd_res (Err NotFound)
      | FoundAt chain_start i =>
          do! es := cmd_res (act es chain_start i) in
          write_entries cluster es
      | FoundNone =>
          if total_clus b + 2 <? iters + 1 then cmd_res (Err IOError)
          else
            do! next := lift (read_fat_entry b cluster) in
            if EOC_MARKER <=? next then cmd_res (Err NotFound)
            else find_loop fuel next (iters + 1) name act
      end
  end.

Definition find_and_update_entry (dir_clus : Z) (name : list Z) (f : entry32 -> res VfsError entry32) : cmd state unit :=
  find_loop dir_fuel dir_clus 0 name (fun es _ i =>
    let? e := index es (Z.of_nat i) in
    let? e := f e in
    Ok (<[i := e]> es)).

Definition update_entry_cluster_and_size (now : option Z) (dir_clus : Z) (name : list Z) (new_clus new_size : option Z)
  : cmd state unit :=
  find_and_update_entry dir_clus name (fun entry =>
    let entry := match new_clus with Some c => set_first_clus_in_entry entry c | None => entry end in
    let entry := match new_size with Some s => set_file_size_in_entry entry s | None => entry end in
    let? r := set_timestamps now entry in
    Ok r.1).

Definition remove_dir_entries (dir_clus : Z) (name : list Z) : cmd state unit :=
  find_loop dir_fuel dir_clus 0 name (fun es chain_start i =>
    Ok (take chain_start es ++ map mark_deleted (take (i + 1 - chain_start) (drop chain_start es)) ++ drop (i + 1) es)).
End Dir.
