(* ===== verification/FatDirFacts.v ===== *)
(** * FAT32 directories: one cluster

    The layout of a directory cluster: groups of long-name slots and a short
    entry, deleted entries between them, and in the last cluster the end marks.
    Reading, searching, placing and removing entries keep the layout and do to
    the entries what they should. *)

From S2P Require Import Prelude Bits Errors BlockDev Fat32 FatAlloc FatDirent FatDirentFacts FatDir.
Import Errors.Vfs.
Local Open Scope Z_scope.

(** ** Layout *)

Definition row (e : list Z) : Prop := length e = 32%nat /\ bytes_ok e.

Definition slot_entries (g : DirEntrySlot) : list (list Z) := vfat_entries g ++ [sfn_entry g].

(** A short entry with a verified long name. *)
Record slot_ok (g : DirEntrySlot) : Prop := {
  so_rows : Forall row (slot_entries g);
  so_lfns : Forall (fun v => is_free v = false /\ is_lfn v = true
                             /\ at_ v 13 = vfat_checksum (take MAX_SFN_LEN (sfn_entry g))) (vfat_entries g);
  so_used : is_free (sfn_entry g) = false;
  so_short : is_lfn (sfn_entry g) = false;
  so_volume : is_volume (sfn_entry g) = true -> vfat_entries g = []
}.

(** The entries of a cluster and what they hold; [p] says that a deleted
    long-name slot precedes them.  End marks are in the last cluster only. *)
Inductive laid (last : bool) : bool -> list (list Z) -> list DirEntrySlot -> Prop :=
  | laid_nil p : laid last p [] []
  | laid_ends p es : last = true -> Forall (fun e => is_end e = true) es -> laid last p es []
  | laid_deleted p e es ss : is_deleted e = true -> laid last (is_lfn e) es ss -> laid last p (e :: es) ss
  | laid_slot g es ss : slot_ok g -> laid last false es ss -> laid last false (slot_entries g ++ es) (g :: ss).

Create HintDb dirs.
#[export] Hint Constructors laid : dirs.

Lemma deleted_not_end e : is_deleted e = true -> is_end e = false.
Proof. unfold is_deleted, is_end, DIR_DELETED, DIR_END. lia. Qed.

Lemma not_free e : is_free e = false -> is_deleted e = false /\ is_end e = false.
Proof. apply orb_false_iff. Qed.

Lemma laid_weaken last p es ss : laid last p es ss -> laid last false es ss.
Proof. destruct 1; eauto with dirs. Qed.

(** ** Reading *)

Lemma scan_lfns lfns : forall es v acc, Forall (fun x => is_free x = false /\ is_lfn x = true) lfns ->
  scan_slots (lfns ++ es) v acc = scan_slots es (v ++ lfns) acc.
Proof.
  induction lfns as [|x lfns IH]; intros es v acc Hf; cbn [app scan_slots]; [by rewrite app_nil_r|].
  apply Forall_cons in Hf as [[Hx Hl] Hf]. destruct (not_free _ Hx) as [-> ->]. rewrite Hl.
  rewrite IH by done. by rewrite <- app_assoc.
Qed.

Lemma verified_ok lfns e : Forall (fun v => at_ v 13 = vfat_checksum (take MAX_SFN_LEN e)) lfns -> verified lfns e = lfns.
Proof.
  intros Hf. unfold verified. cbv zeta. destruct (existsb _ lfns) eqn:E; [|done].
  apply existsb_exists in E as (v & Hv%list_elem_of_In & Hne). rewrite Forall_forall in Hf.
  rewrite Hf in Hne by done. by rewrite Z.eqb_refl in Hne.
Qed.

Lemma scan_slot g es acc : slot_ok g -> scan_slots (slot_entries g ++ es) [] acc = scan_slots es [] (acc ++ [g]).
Proof.
  intros [_ Hl Hu Hs Hv]. unfold slot_entries. rewrite <- app_assoc. rewrite scan_lfns.
  2: { eapply Forall_impl; [exact Hl|]. naive_solver. }
  cbn [app scan_slots]. destruct (not_free _ Hu) as [-> ->]. rewrite Hs. destruct (is_volume (sfn_entry g)).
  - rewrite <- Hv by done. by destruct g.
  - rewrite verified_ok; [by destruct g|]. eapply Forall_impl; [exact Hl|]. naive_solver.
Qed.

Lemma scan_laid last p es ss : laid last p es ss -> forall acc,
  scan_slots es [] acc = (existsb is_end es, [], acc ++ ss).
Proof.
  induction 1 as [p|p es _ He|p e es ss Hd _ IH|g es ss Hg _ IH]; intros acc.
  - by rewrite app_nil_r.
  - rewrite app_nil_r. destruct He as [|e es He _]; [done|]. simpl. by rewrite He.
  - cbn [scan_slots existsb]. by rewrite (deleted_not_end _ Hd), Hd, IH.
  - rewrite scan_slot, IH by done. rewrite existsb_app, <- app_assoc. cbn [app].
    destruct Hg as [_ Hl Hu _ _]. replace (existsb is_end (slot_entries g)) with false; [done|].
    symmetry. apply Bool.not_true_iff_false. intros (x & Hx & Ex)%existsb_exists. unfold slot_entries in Hx.
    apply in_app_iff in Hx as [Hx|[<-|[]]]; [|by destruct (not_free _ Hu); congruence].
    rewrite Forall_forall in Hl. destruct (Hl x) as [Hf _]; [by apply list_elem_of_In|].
    destruct (not_free _ Hf); congruence.
Qed.

Lemma scan_app es1 : forall es2 v acc, scan_slots (es1 ++ es2) v acc =
  let '(fin, v, acc) := scan_slots es1 v acc in if (fin : bool) then (true, [], acc) else scan_slots es2 v acc.
Proof.
  induction es1 as [|e es1 IH]; intros es2 v acc; [done|]. cbn [app scan_slots].
  destruct (is_end e), (is_deleted e), (is_lfn e), (is_volume e); apply IH || done.
Qed.

(** ** Placing a group *)

Lemma slot_entries_length g : length (slot_entries g) = S (length (vfat_entries g)).
Proof. unfold slot_entries. rewrite length_app. simpl. lia. Qed.

Lemma slot_used g : slot_ok g -> Forall (fun e => is_free e = false) (slot_entries g).
Proof.
  intros [_ Hl Hu _ _]. apply Forall_app. split; [|by repeat constructor].
  eapply Forall_impl; [exact Hl|]. naive_solver.
Qed.

Lemma find_spot_used l : forall es need k, Forall (fun e => is_free e = false) l ->
  find_spot (l ++ es) need k = find_spot es need (k + length l).
Proof.
  induction l as [|e l IH]; intros es need k Hf; cbn [app find_spot length]; [by rewrite Nat.add_0_r|].
  apply Forall_cons in Hf as [-> Hf]. rewrite IH by done. f_equal. lia.
Qed.

Lemma find_spot_ends es : forall need k i, Forall (fun e => is_end e = true) es ->
  find_spot es need k = Some i -> i = k /\ (need <= length es)%nat.
Proof.
  induction es as [|e es IH]; intros need k i He; cbn [find_spot]; [done|]. apply Forall_cons in He as [He Hes].
  unfold is_free. rewrite He, orb_true_r. destruct (is_deleted e) eqn:Ed; [by rewrite deleted_not_end in He|].
  destruct (Nat.leb_spec need (S (length es))) as [Hn|Hn]; [intros [= <-]; simpl; lia|].
  intros Hs. apply IH in Hs as [-> Hl]; [lia|done].
Qed.

Lemma free_run_ends es : Forall (fun e => is_end e = true) es -> free_run es = length es.
Proof.
  induction 1 as [|e es He _ IH]; cbn [free_run]; [done|]. unfold is_free. by rewrite He, orb_true_r, IH.
Qed.

(** The free entries at the front of a laid cluster can be dropped, or skipped
    when they do not suffice. *)
Lemma laid_drop last p es ss n : laid last p es ss -> (n <= free_run es)%nat -> laid last false (drop n es) ss.
Proof.
  intros Hl. revert n. induction Hl as [p|p es Hl He|p e es ss Hd Hl IH|g es ss Hg Hl IH]; intros n Hn.
  - rewrite drop_nil. constructor.
  - apply laid_ends; [done|by apply Forall_drop].
  - destruct n as [|n]; [eauto with dirs|]. apply IH. cbn [free_run] in Hn. case_match; lia.
  - pose proof (slot_used g Hg) as Hu. destruct n as [|n]; [eauto with dirs|].
    destruct (slot_entries g) as [|x r] eqn:E; [by apply (f_equal length) in E; rewrite slot_entries_length in E|].
    apply Forall_cons in Hu as [Hx _]. cbn [app free_run] in Hn. rewrite Hx in Hn. lia.
Qed.

Lemma overwrite_app es1 es2 i new : overwrite (es1 ++ es2) (length es1 + i) new = es1 ++ overwrite es2 i new.
Proof.
  unfold overwrite. rewrite take_app_add, <- app_assoc, <- Nat.add_assoc. by rewrite drop_app_add.
Qed.

Lemma free_run_length es : (free_run es <= length es)%nat.
Proof. induction es as [|e es IH]; cbn [free_run length]; [lia|]. case_match; lia. Qed.

(** [need] consecutive entries that are free. *)
Definition gap (es : list (list Z)) (need : nat) : Prop :=
  exists pre mid post, es = pre ++ mid ++ post /\ length mid = need /\ Forall (fun e => is_free e = true) mid.

Lemma free_run_app mid post : Forall (fun e => is_free e = true) mid -> (length mid <= free_run (mid ++ post))%nat.
Proof. induction 1 as [|e mid He _ IH]; simpl; [lia|]. rewrite He. lia. Qed.

Lemma gap_found es need : (0 < need)%nat -> gap es need -> forall k, find_spot es need k <> None.
Proof.
  intros Hn (pre & mid & post & -> & Hl & Hm). induction pre as [|e pre IH]; intros k; cbn [app].
  - destruct mid as [|e mid]; [simpl in Hl; lia|]. apply Forall_cons in Hm as [He Hm]. cbn [app find_spot]. rewrite He.
    pose proof (free_run_app mid post Hm). simpl in Hl. destruct (Nat.leb_spec need
      (if is_deleted e then S (free_run (mid ++ post)) else S (length (mid ++ post)))) as [|Hs]; [done|].
    rewrite length_app in Hs. destruct (is_deleted e); lia.
  - cbn [find_spot]. repeat case_match; try done; apply IH.
Qed.

Lemma find_spot_bound es : forall need k i, find_spot es need k = Some i -> (k <= i)%nat /\ (i - k + need <= length es)%nat.
Proof.
  induction es as [|e es IH]; intros need k i; cbn [find_spot]; [done|]. pose proof (free_run_length es).
  destruct (is_free e); [|intros Hs%IH; simpl; lia]. destruct (is_deleted e);
    (destruct (Nat.leb_spec need (S (free_run es))), (Nat.leb_spec need (S (length es)));
      [intros [= <-]|intros [= <-] || intros Hs%IH|intros [= <-] || intros Hs%IH|intros Hs%IH]; simpl; lia).
Qed.

Lemma overwrite_rows es i new : Forall row es -> Forall row new -> (i + length new <= length es)%nat ->
  Forall row (overwrite es i new) /\ length (overwrite es i new) = length es.
Proof.
  intros He Hn Hi. unfold overwrite. split.
  - apply Forall_app. split; [by apply Forall_take|]. apply Forall_app. split; [done|by apply Forall_drop].
  - rewrite !length_app, length_take, length_drop. lia.
Qed.

(** The group goes to the free entries found for it; everything else stays. *)
Lemma find_spot_laid last g p es ss : slot_ok g -> laid last p es ss ->
  forall k i, find_spot es (length (slot_entries g)) k = Some i ->
  (p = true -> (free_run es < length (slot_entries g))%nat) ->
  exists j ss1 ss2, i = (k + j)%nat /\ (j + length (slot_entries g) <= length es)%nat /\ ss = ss1 ++ ss2 /\
    laid last p (overwrite es j (slot_entries g)) (ss1 ++ g :: ss2).
Proof.
  intros Hg. set (need := length (slot_entries g)).
  assert (forall es ss k, laid last false es ss -> (need <= free_run es)%nat ->
    exists j ss1 ss2, k = (k + j)%nat /\ (j + need <= length es)%nat /\ ss = ss1 ++ ss2 /\
    laid last false (overwrite es j (slot_entries g)) (ss1 ++ g :: ss2)) as Hhere.
  { intros es0 ss0 k Hl Hn. exists 0%nat, [], ss0. assert (free_run es0 <= length es0)%nat.
    { apply free_run_length. }
    split_and!; [lia|lia|done|]. unfold overwrite. cbn [take app]. rewrite Nat.add_0_l. apply laid_slot; [done|].
    by apply (laid_drop _ _ _ _ _ Hl). }
  induction 1 as [p|p es Hl He|p e es ss Hd Hl IH|g' es ss Hg' Hl IH]; intros k i Hs Hp.
  - done.
  - destruct (find_spot_ends _ _ _ _ He Hs) as [-> Hn]. rewrite free_run_ends in Hp by done.
    destruct p; [specialize (Hp eq_refl); lia|]. apply Hhere; [by apply laid_ends|by rewrite free_run_ends].
  - cbn [find_spot free_run] in Hs, Hp. assert (is_free e = true) as Hf by (unfold is_free; by rewrite Hd).
    rewrite Hf in *. rewrite Hd in Hs. destruct (Nat.leb_spec need (S (free_run es))) as [Hn|Hn].
    + destruct p; [specialize (Hp eq_refl); lia|]. injection Hs as <-. apply Hhere; [by apply laid_deleted|].
      cbn [free_run]. by rewrite Hf.
    + destruct (IH (S k) i Hs ltac:(lia)) as (j & ss1 & ss2 & -> & Hj & -> & Hlj).
      exists (S j), ss1, ss2. simpl length. split_and!; [lia|lia|done|]. by apply laid_deleted.
  - rewrite find_spot_used in Hs by (by apply slot_used).
    destruct (IH _ _ Hs ltac:(done)) as (j & ss1 & ss2 & -> & Hj & -> & Hlj).
    exists (length (slot_entries g') + j)%nat, (g' :: ss1), ss2. rewrite length_app.
    split_and!; [lia|lia|done|]. rewrite overwrite_app. by apply laid_slot.
Qed.

(** ** The free tail *)

Definition unend (e : list Z) : list Z := if is_end e then mark_deleted e else e.

Lemma mark_deleted_is e : row e -> is_deleted (mark_deleted e) = true /\ is_lfn (mark_deleted e) = is_lfn e.
Proof. intros [Hl _]. do 32 (destruct e as [|? e]; [done|]). done. Qed.

Lemma unend_row e : row e -> row (unend e).
Proof.
  intros [Hl Hb]. unfold unend, mark_deleted. destruct (is_end e); [|done]. split; [by rewrite length_insert|].
  apply Forall_insert; [done|]. unfold byte_ok, DIR_DELETED. lia.
Qed.

Lemma unend_same es : Forall (fun e => is_end e = false) es -> map unend es = es.
Proof. induction 1 as [|e es He _ IH]; [done|]. cbn [map]. unfold unend at 1. by rewrite He, IH. Qed.

Lemma unend_idem es : Forall row es -> map unend (map unend es) = map unend es.
Proof.
  intros Hr. apply unend_same, Forall_map. eapply Forall_impl; [exact Hr|]. intros e He. unfold unend.
  destruct (is_end e) eqn:Ee; [|done]. by apply deleted_not_end, mark_deleted_is.
Qed.

Lemma laid_last p es ss : laid false p es ss -> laid true p es ss.
Proof. induction 1; eauto with dirs. Qed.

Lemma laid_unend p es ss : Forall row es -> laid true p es ss -> laid false p (map unend es) ss.
Proof.
  intros Hr Hl. induction Hl as [p|p es _ He|p e es ss Hd Hl IH|g es ss Hg Hl IH].
  - constructor.
  - revert p. induction He as [|e es He _ IH]; intros p; [constructor|]. apply Forall_cons in Hr as [Hr Hrs].
    cbn [map]. unfold unend at 1. rewrite He. apply laid_deleted; [by apply mark_deleted_is|auto].
  - apply Forall_cons in Hr as [_ Hr]. cbn [map]. unfold unend at 1. rewrite deleted_not_end by done.
    apply laid_deleted; auto.
  - apply Forall_app in Hr as [_ Hr]. rewrite map_app. replace (map unend (slot_entries g)) with (slot_entries g).
    { apply laid_slot; auto. }
    pose proof (slot_used g Hg) as Hu. induction Hu as [|e l He _ IHl]; [done|]. cbn [map]. unfold unend at 1.
    destruct (not_free _ He) as [_ ->]. by rewrite <- IHl.
Qed.

Lemma free_run_all es : forallb is_free es = true -> free_run es = length es.
Proof. induction es as [|e es IH]; cbn [forallb free_run length]; [done|]. intros [-> ?]%andb_true_iff. f_equal. auto. Qed.

(** A free tail in which the group was not placed is too short for it. *)
Lemma free_tail_short es : forall need k st, find_spot es need k = None -> free_tail es k = Some st ->
  (k <= st)%nat /\ (length es < need + (st - k))%nat.
Proof.
  induction es as [|e es IH]; intros need k st; cbn [find_spot free_tail]; [done|].
  destruct (forallb is_free (e :: es)) eqn:Ef.
  - intros Hs [= <-]. cbn [forallb] in Ef. apply andb_true_iff in Ef as [He Hes]. rewrite He, (free_run_all _ Hes) in Hs.
    destruct (is_deleted e); (destruct (Nat.leb_spec need (S (length es))); [done|simpl length; lia]).
  - intros Hs Ht. assert (find_spot es need (S k) = None) as Hs' by (repeat case_match; done).
    destruct (IH _ _ _ Hs' Ht). simpl length. lia.
Qed.

(** End marks are in the free tail. *)
Lemma free_tail_ends p es ss : laid true p es ss -> forall k, 
  match free_tail es k with
  | Some st => (k <= st)%nat /\ Forall (fun e => is_end e = false) (take (st - k) es)
  | None => Forall (fun e => is_end e = false) es
  end.
Proof.
  assert (forall e es k, is_end e = false -> (forall k, match free_tail es k with
    | Some st => (k <= st)%nat /\ Forall (fun e => is_end e = false) (take (st - k) es)
    | None => Forall (fun e => is_end e = false) es end) ->
    match free_tail (e :: es) k with
    | Some st => (k <= st)%nat /\ Forall (fun e => is_end e = false) (take (st - k) (e :: es))
    | None => Forall (fun e => is_end e = false) (e :: es) end) as Hcons.
  { intros e l k He Hl. cbn [free_tail]. destruct (forallb _ _); [split; [lia|by rewrite Nat.sub_diag]|].
    specialize (Hl (S k)). destruct (free_tail l (S k)) as [st|]; [|by constructor].
    destruct Hl as [Hle Hl]. split; [lia|]. replace (st - k)%nat with (S (st - S k)) by lia. by constructor. }
  induction 1 as [p|p es _ He|p e es ss Hd Hl IH|g es ss Hg Hl IH]; intros k.
  - constructor.
  - destruct es as [|e es]; [constructor|]. cbn [free_tail]. rewrite (proj2 (forallb_forall _ _)).
    { split; [lia|by rewrite Nat.sub_diag]. }
    intros x Hx%list_elem_of_In. rewrite Forall_forall in He. unfold is_free. by rewrite He, orb_true_r.
  - apply Hcons; [by apply deleted_not_end|done].
  - pose proof (slot_used g Hg) as Hu. revert k. induction Hu as [|e l He _ IHl]; intros k; [apply IH|].
    cbn [app]. apply Hcons; [by apply not_free|done].
Qed.

(** ** Searching *)

Definition named (name : list Z) (g : DirEntrySlot) : bool :=
  negb (is_volume (sfn_entry g)) && eq_ignore_ascii_case (decode_entry_name g) name.

Lemma search_lfns lfns : forall before es name, Forall (fun x => is_free x = false /\ is_lfn x = true) lfns ->
  search before (lfns ++ es) name = search (rev lfns ++ before) es name.
Proof.
  induction lfns as [|x lfns IH]; intros before es name Hf; [done|]. apply Forall_cons in Hf as [[Hx Hl] Hf].
  cbn [app search rev]. destruct (not_free _ Hx) as [-> ->]. rewrite Hl. cbn [orb].
  rewrite IH by done. by rewrite <- app_assoc.
Qed.

Lemma take_while_app p l l' : Forall (fun x => p x = true) l -> take_while p (l ++ l') = l ++ take_while p l'.
Proof. induction 1 as [|x l Hx _ IH]; cbn [app take_while]; [done|]. by rewrite Hx, IH. Qed.

Lemma name_at_slot before g : slot_ok g -> is_volume (sfn_entry g) = false -> take_while is_lfn before = [] ->
  name_at (rev (vfat_entries g) ++ before) (sfn_entry g) = (decode_entry_name g, length (vfat_entries g)).
Proof.
  intros Hg Hv Hb. unfold name_at, decode_entry_name. rewrite Hv, take_while_app, Hb, app_nil_r, rev_involutive; [done|].
  apply Forall_rev. eapply Forall_impl; [apply Hg|]. naive_solver.
Qed.

(** The first entry of the name, where it is, and what the cluster is with
    something else in its place. *)
Definition found_in (last p : bool) (es : list (list Z)) (ss : list DirEntrySlot) (name : list Z) (base : nat) (f : Found) : Prop :=
  match f with
  | FoundAt cs i => exists pre g post ss1 ss2, es = pre ++ slot_entries g ++ post /\ ss = ss1 ++ g :: ss2
      /\ cs = (base + length pre)%nat /\ i = (cs + length (vfat_entries g))%nat
      /\ slot_ok g /\ named name g = true /\ Forall (fun h => named name h = false) ss1
      /\ forall mid mss, (forall tl tss, laid last false tl tss -> laid last false (mid ++ tl) (mss ++ tss)) ->
         laid last p (pre ++ mid ++ post) (ss1 ++ mss ++ ss2)
  | _ => Forall (fun h => named name h = false) ss
  end.

Lemma found_in_slot last p g es ss name base f : slot_ok g -> named name g = false ->
  found_in last false es ss name (base + length (slot_entries g)) f ->
  p = false -> found_in last p (slot_entries g ++ es) (g :: ss) name base f.
Proof.
  intros Hg Hn Hf ->. destruct f as [| |cs i]; [by constructor|by constructor|].
  destruct Hf as (pre & g' & post & ss1 & ss2 & -> & -> & Hcs & Hi & Hg' & Hn' & Hf & Hl).
  exists (slot_entries g ++ pre), g', post, (g :: ss1), ss2. rewrite length_app, <- !app_assoc.
  split_and!; [done|done|lia|lia|done|done|by constructor|]. intros mid mss Hm. rewrite <- app_assoc. apply laid_slot; auto.
Qed.

Lemma search_laid last p es ss : laid last p es ss -> forall before name,
  (p = false -> take_while is_lfn before = []) ->
  found_in last p es ss name (length before) (search before es name).
Proof.
  induction 1 as [p|p es _ He|p e es ss Hd Hl IH|g es ss Hg Hl IH]; intros before name Hb.
  - constructor.
  - destruct He as [|e es He _]; [constructor|]. cbn [search]. rewrite He. constructor.
  - cbn [search]. rewrite deleted_not_end, Hd by done. cbn [orb]. specialize (IH (e :: before) name).
    assert (is_lfn e = false -> take_while is_lfn (e :: before) = []) as Hb' by (intros E; simpl; by rewrite E).
    specialize (IH Hb'). destruct (search (e :: before) es name) as [| |cs i]; [exact IH|exact IH|].
    destruct IH as (pre & g & post & ss1 & ss2 & -> & -> & Hcs & Hi & Hg & Hn & Hf & Hl').
    exists (e :: pre), g, post, ss1, ss2. simpl in *. split_and!; [done|done|lia|lia|done|done|done|].
    intros mid mss Hm. apply laid_deleted; auto.
  - unfold slot_entries at 2. rewrite <- app_assoc, search_lfns.
    2: { eapply Forall_impl; [apply Hg|]. naive_solver. }
    cbn [app search]. destruct (not_free _ (so_used _ Hg)) as [-> ->]. rewrite (so_short _ Hg). cbn [orb].
    specialize (Hb eq_refl). set (before' := rev (vfat_entries g) ++ before).
    assert (named name g = false ->
      found_in last false (slot_entries g ++ es) (g :: ss) name (length before) (search (sfn_entry g :: before') es name)) as Hskip.
    { intros Hn. apply found_in_slot; [done|done| |done].
      replace (length before + length (slot_entries g))%nat with (length (sfn_entry g :: before'))
        by (unfold before'; rewrite slot_entries_length; simpl; rewrite length_app, length_rev; lia).
      apply IH. intros _. simpl. by rewrite (so_short _ Hg). }
    destruct (is_volume (sfn_entry g)) eqn:Ev; [apply Hskip; unfold named; by rewrite Ev|].
    unfold before'. rewrite name_at_slot by done. fold before'.
    destruct (eq_ignore_ascii_case _ name) eqn:En; [|apply Hskip; unfold named; by rewrite Ev, En].
    exists [], g, es, [], ss. unfold before'. rewrite length_app, length_rev. simpl length.
    split_and!; [done|done|lia|lia|done|unfold named; by rewrite Ev, En|constructor|].
    intros mid mss Hm. cbn [app]. auto.
Qed.

(** Removing the group that was found, and changing the fields of its entry
    after the name and the attributes. *)
Lemma laid_removed last g tl tss : slot_ok g -> laid last false tl tss ->
  laid last false (map mark_deleted (slot_entries g) ++ tl) tss.
Proof.
  intros Hg Hl. unfold slot_entries. rewrite map_app, <- app_assoc. pose proof (so_rows _ Hg) as Hr.
  apply Forall_app in Hr as [Hr [Hs _]%Forall_cons]. generalize false at 1 as q.
  induction Hr as [|x l Hx _ IH]; intros q; cbn [map app]; (apply laid_deleted; [by apply mark_deleted_is|]).
  - destruct (mark_deleted_is (sfn_entry g) Hs) as [_ ->]. by rewrite (so_short _ Hg).
  - apply IH.
Qed.

Lemma at_take n e k : (k < n)%nat -> at_ (take n e) k = at_ e k.
Proof. intros Hk. unfold at_. rewrite !nth_lookup. by rewrite lookup_take_lt. Qed.

Lemma slot_ok_update g e : slot_ok g -> row e -> take 12 e = take 12 (sfn_entry g) ->
  slot_ok {| vfat_entries := vfat_entries g; sfn_entry := e |}.
Proof.
  intros Hg He Ht.
  assert (forall k, (k < 12)%nat -> at_ e k = at_ (sfn_entry g) k) as Ha.
  { intros k Hk. by rewrite <- (at_take 12 e), Ht, at_take. }
  assert (take 11 e = take 11 (sfn_entry g)) as H11.
  { change 11%nat with (Nat.min 11 12). by rewrite <- !take_take, Ht. }
  destruct Hg as [Hr Hl Hu Hs Hv]. constructor; unfold slot_entries, is_free, is_deleted, is_end, is_lfn, is_volume, MAX_SFN_LEN in *;
    cbn [vfat_entries sfn_entry]; rewrite ?Ha by lia; rewrite ?H11; try done.
  apply Forall_app in Hr as [Hr _]. apply Forall_app. split; [done|by constructor].
Qed.

(** ** One group *)

Lemma group_len_slot g : slot_ok g -> entry_group_len (slot_entries g) = Some (length (slot_entries g)).
Proof.
  intros Hg. rewrite slot_entries_length. unfold slot_entries. pose proof (so_lfns _ Hg) as Hl.
  induction Hl as [|v l (_ & Hv & _) _ IH]; cbn [app entry_group_len length]; [by rewrite (so_short _ Hg)|].
  by rewrite Hv, IH.
Qed.

Lemma max_group_slot g : slot_ok g ->
  max_group (length (slot_entries g)) (slot_entries g) 1 = Ok (length (slot_entries g)).
Proof.
  intros Hg. pose proof (slot_entries_length g) as Hl. pose proof (group_len_slot g Hg) as Hgl.
  destruct (slot_entries g) as [|e es] eqn:E; [done|]. cbn [length max_group]. cbn [length] in Hgl. rewrite Hgl.
  cbn [ok_or res_bind drop]. rewrite drop_all. destruct (length es); done.
Qed.

Lemma take_groups_slot g avail : slot_ok g ->
  take_groups (length (slot_entries g)) (slot_entries g) avail []
  = if (avail <? length (slot_entries g))%nat then Ok ([], slot_entries g) else Ok (slot_entries g, []).
Proof.
  intros Hg. pose proof (slot_entries_length g) as Hl. pose proof (group_len_slot g Hg) as Hgl.
  destruct (slot_entries g) as [|e es] eqn:E; [done|]. cbn [length take_groups] in *. rewrite Hgl.
  cbn [ok_or res_bind length Nat.add]. destruct (Nat.ltb_spec avail (S (length es))); [done|].
  cbn [drop take app]. rewrite drop_all, firstn_all. by destruct (length es).
Qed.

(** ** Several clusters *)

Inductive dir_laid : list (list (list Z)) -> list (list DirEntrySlot) -> Prop :=
  | dl_last es ss : laid true false es ss -> dir_laid [es] [ss]
  | dl_cons es ess ss sss : laid false false es ss -> dir_laid ess sss -> dir_laid (es :: ess) (ss :: sss).

Lemma laid_no_end es ss p : laid false p es ss -> existsb is_end es = false.
Proof.
  intros Hl. assert (Forall (fun e => is_end e = false) es) as Hf.
  { remember false as last in Hl. revert Heqlast. induction Hl as [p|p es Hf He|p e es ss Hd Hl IH|g es ss Hg Hl IH]; intros ->; try done.
    - constructor; [by apply deleted_not_end|auto].
    - apply Forall_app. split; [|auto]. eapply Forall_impl; [by apply slot_used|]. intros x Hx. by apply not_free. }
  destruct (existsb is_end es) eqn:E; [|done]. apply existsb_exists in E as (x & Hx%list_elem_of_In & Ex).
  rewrite Forall_forall in Hf. by rewrite Hf in Ex.
Qed.

(** What reading a laid directory gives. *)
Lemma scan_dir ess sss : dir_laid ess sss -> forall acc, (scan_slots (concat ess) [] acc).2 = acc ++ concat sss.
Proof.
  induction 1 as [es ss Hl|es ess ss sss Hl _ IH]; intros acc; cbn [concat].
  - by rewrite !app_nil_r, (scan_laid _ _ _ _ Hl).
  - rewrite scan_app, (scan_laid _ _ _ _ Hl), (laid_no_end _ _ _ Hl), IH. by rewrite app_assoc.
Qed.

(** One cluster of a directory, and the directory with another in its place. *)
Lemma dir_split ess1 : forall es ess2 sss, dir_laid (ess1 ++ es :: ess2) sss ->
  exists sss1 ss sss2, sss = sss1 ++ ss :: sss2 /\ Forall2 (laid false false) ess1 sss1
    /\ laid (bool_decide (ess2 = [])) false es ss
    /\ forall es' ss', laid (bool_decide (ess2 = [])) false es' ss' ->
       dir_laid (ess1 ++ es' :: ess2) (sss1 ++ ss' :: sss2).
Proof.
  induction ess1 as [|e1 ess1 IH]; intros es ess2 sss Hd.
  - inversion Hd as [? ss Hl|? ? ss sss2 Hl Hd']; subst.
    + exists [], ss, []. rewrite bool_decide_eq_true_2 by done. split_and!; [done|constructor|done|]. intros. by constructor.
    + assert (ess2 <> []) by (by destruct Hd'). exists [], ss, sss2. rewrite bool_decide_eq_false_2 by done.
      split_and!; [done|constructor|done|]. intros. by constructor.
  - cbn [app] in Hd. inversion Hd as [? ss Hl|? ? ss sss' Hl Hd']; subst; [by destruct ess1|].
    destruct (IH _ _ _ Hd') as (sss1 & ss0 & sss2 & -> & Hf & Hl0 & Hrep). exists (ss :: sss1), ss0, sss2.
    split_and!; [done|by constructor|done|]. intros es' ss' Hl'. cbn [app]. constructor; auto.
Qed.

Lemma dir_grow ess1 es es' new sss g : dir_laid (ess1 ++ [es]) sss -> 
  (forall ss, laid true false es ss -> laid false false es' ss) -> laid true false new [g] ->
  dir_laid (ess1 ++ [es'; new]) (sss ++ [[g]]).
Proof.
  revert sss. induction ess1 as [|e1 ess1 IH]; intros sss Hd He Hn; cbn [app] in *.
  - inversion Hd as [? ss Hl|? ? ss sss2 Hl Hd']; subst; [|by inversion Hd'].
    cbn [app]. constructor; [by apply He|by constructor].
  - inversion Hd as [? ss Hl|? ? ss sss' Hl Hd']; subst; [by destruct ess1|]. cbn [app]. constructor; auto.
Qed.

Lemma search_end es : forall before name, search before es name = FoundEnd -> existsb is_end es = true.
Proof.
  induction es as [|e es IH]; intros before name; cbn [search existsb]; [done|]. destruct (is_end e); [done|].
  destruct (_ || _ || _); [apply IH|]. destruct (name_at before e). destruct (eq_ignore_ascii_case _ _); [done|apply IH].
Qed.

(** A name that is in no cluster up to the end of the directory is nowhere. *)
Lemma dir_absent ess sss name : dir_laid ess sss ->
  Forall (fun es => search [] es name = FoundNone) ess \/
  (exists ess1 es ess2, ess = ess1 ++ es :: ess2 /\ Forall (fun es => search [] es name = FoundNone) ess1
     /\ search [] es name = FoundEnd) ->
  Forall (fun h => named name h = false) (concat sss).
Proof.
  induction 1 as [es ss Hl|es ess ss sss Hl _ IH]; intros Hor; cbn [concat].
  - rewrite app_nil_r. pose proof (search_laid _ _ _ _ Hl [] name ltac:(done)) as Hi.
    destruct Hor as [[E _]%Forall_cons|([|x ess1] & e & ess2 & Heq & Hf & He)]; [by rewrite E in Hi| |].
    + injection Heq as -> _. by rewrite He in Hi.
    + injection Heq as -> _. apply Forall_cons in Hf as [E _]. by rewrite E in Hi.
  - pose proof (search_laid _ _ _ _ Hl [] name ltac:(done)) as Hi. apply Forall_app.
    destruct Hor as [[E Hf]%Forall_cons|([|x ess1] & e & ess2 & Heq & Hf & He)].
    + rewrite E in Hi. split; [done|]. apply IH. by left.
    + injection Heq as -> _. apply search_end in He. by rewrite (laid_no_end _ _ _ Hl) in He.
    + injection Heq as -> ->. apply Forall_cons in Hf as [E Hf]. rewrite E in Hi. split; [done|]. apply IH. right. eauto 6.
Qed.
