(* ===== verification/FatDirVolume.v ===== *)
(** * FAT32 directories on a volume

    Directory clusters on the device: their entries, reading and writing them,
    and the walks of dir.rs over the chain of a directory. *)

From S2P Require Import Prelude Bits Errors BlockDev Fat32 Fat32Facts Fat32Spec.
From S2P Require Import FatAlloc FatAllocFacts FatChain FatVolumeFacts FatData FatDirent FatDirentFacts FatDir FatDirFacts.
Import Errors.Vfs.
Local Open Scope Z_scope.

(** ** Entries and bytes *)

Lemma concat_rows es : Forall row es -> length (concat es) = (32 * length es)%nat /\ bytes_ok (concat es).
Proof.
  induction 1 as [|e es [Hl Hb] _ [IHl IHb]]; [by split; [|constructor]|]. cbn [concat length]. rewrite length_app.
  split; [lia|]. unfold bytes_ok in *. by apply Forall_app.
Qed.

(** A buffer is the concatenation of its sectors. *)
Lemma sectors_of_buf lba n (buf : list Z) : 0 <= n -> Z.of_nat (length buf) = 512 * n ->
  flat_map (fun l => take 512 (drop (Z.to_nat (512 * (l - lba))) buf)) (seqZ lba n) = buf.
Proof.
  intros Hn. rewrite <- (Z2Nat.id n) by done. generalize (Z.to_nat n) as k. clear n Hn. intros k. revert lba buf.
  induction k as [|k IH]; intros lba buf Hl; [by destruct buf; [|simpl in Hl; lia]|]. rewrite seqZ_cons by lia. cbn [flat_map].
  rewrite Z.sub_diag. replace (Z.pred (Z.of_nat (S k))) with (Z.of_nat k) by lia.
  etransitivity; [|apply (take_drop 512)]. f_equal.
  etransitivity; [|apply (IH (Z.succ lba)); rewrite length_drop; lia]. rewrite !flat_map_concat_map. f_equal.
  apply map_ext_in. intros l Hin%list_elem_of_In%elem_of_seqZ. rewrite drop_drop. do 2 f_equal. lia.
Qed.

Section Clusters.
Context `{Profile} `{ReliableDevice D} (b : Bpb) (Hv : volume_ok b).
Let Hb : bpb_ok b := vo_bpb b Hv.
Implicit Types s : Fs (D * FatCache).

#[local] Hint Extern 0 (FatOps (D * FatCache)) => exact (volume b) : typeclass_instances.
#[local] Hint Extern 0 (FatView (D * FatCache)) => exact (cached_view b) : typeclass_instances.
#[local] Hint Extern 0 (FatLaws (D * FatCache)) => exact (cached_laws b Hv) : typeclass_instances.

Notation epc := (entries_per_clus b).

Lemma epc_eq : Z.of_nat epc = 16 * sec_per_clus b /\ (16 <= epc)%nat.
Proof.
  unfold entries_per_clus, DIR_ENTRY_SIZE. rewrite (vo_bytes b Hv). pose proof (vo_spc b Hv).
  split; mlia.
Qed.

Lemma entries_of_concat es : Forall row es -> length es = epc -> entries_of b (concat es) = es.
Proof.
  unfold entries_of. intros Hr <-. clear Hv Hb. induction Hr as [|e es [Hl _] _ IH]; [done|].
  cbn [length seq map concat]. f_equal.
  - rewrite Nat.mul_0_l, drop_0, take_app_le by lia. by rewrite take_ge by lia.
  - rewrite <- seq_shift, map_map. etransitivity; [|exact IH]. apply map_ext. intros i.
    replace (S i * 32)%nat with (length e + i * 32)%nat by lia. by rewrite drop_app_add.
Qed.

Lemma entries_of_rows buf : bytes_ok buf -> Z.of_nat (length buf) = 512 * sec_per_clus b ->
  Forall row (entries_of b buf) /\ length (entries_of b buf) = epc.
Proof.
  intros Hbuf Hl. destruct epc_eq as [He _]. unfold entries_of. rewrite length_map, length_seq. split; [|done].
  apply Forall_map, Forall_forall. intros i Hi%list_elem_of_In%in_seq. split.
  - rewrite length_take, length_drop. lia.
  - by apply Forall_take, Forall_drop.
Qed.

(** The entries of a cluster on the device. *)
Definition ents (d : D) (c : Z) : list (list Z) :=
  entries_of b (flat_map (sector d) (seqZ (clus_to_lba b c) (sec_per_clus b))).

Definition in_cluster (c l : Z) : Prop := clus_to_lba b c <= l < clus_to_lba b c + sec_per_clus b.

Lemma ents_rows d c : Forall row (ents d c) /\ length (ents d c) = epc.
Proof.
  pose proof (vo_spc b Hv). apply entries_of_rows; [apply sectors_bytes_ok|]. rewrite sectors_length by lia. done.
Qed.

Lemma ents_agree d d' c : (forall l, in_cluster c l -> sector d' l = sector d l) -> ents d' c = ents d c.
Proof.
  intros He. unfold ents. f_equal. rewrite !flat_map_concat_map. f_equal. apply map_ext_in.
  intros l Hl%list_elem_of_In%elem_of_seqZ. apply He. unfold in_cluster. lia.
Qed.

Lemma cluster_bounds c : valid b c -> 0 < clus_to_lba b c /\ first_data_sec b <= clus_to_lba b c
  /\ clus_to_lba b c + sec_per_clus b <= volume_end b.
Proof.
  unfold valid, clus_to_lba, volume_end. intros Hc. pose proof (vo_spc b Hv). rewrite (vo_data b Hv).
  pose proof (bo_fats b Hb). pose proof (bo_rsvd b Hb). pose proof (bo_fat_sz b Hb). rewrite Z.max_r by lia. nia.
Qed.

Lemma in_cluster_inj c c' l : valid b c -> valid b c' -> in_cluster c l -> in_cluster c' l -> c = c'.
Proof.
  unfold valid, in_cluster, clus_to_lba. intros Hc Hc'. pose proof (vo_spc b Hv). rewrite !Z.max_r by lia. nia.
Qed.

(** The data area is as before, but for the clusters of [cs]. *)
Definition kept (cs : list Z) (s s' : Fs (D * FatCache)) : Prop :=
  forall l, first_data_sec b <= l -> (forall c, c ∈ cs -> ~ in_cluster c l) -> sector (fat s').1 l = sector (fat s).1 l.

Lemma kept_refl s : kept [] s s.
Proof. done. Qed.

Lemma kept_trans cs cs' s1 s2 s3 : kept cs s1 s2 -> kept cs' s2 s3 -> kept (cs ++ cs') s1 s3.
Proof. intros K1 K2 l Hl Hn. rewrite K2, K1; [done|done| |done|]; intros c Hc; apply Hn; set_solver. Qed.

Lemma kept_ents cs s s' c : kept cs s s' -> valid b c -> Forall (valid b) cs -> c ∉ cs ->
  ents (fat s').1 c = ents (fat s).1 c.
Proof.
  intros K Hc Hcs Hn. apply ents_agree. intros l Hl. apply K.
  - pose proof (cluster_bounds c Hc). unfold in_cluster in Hl. lia.
  - intros c' Hc' Hl'. apply Hn. rewrite Forall_forall in Hcs. by rewrite (in_cluster_inj c c' l); auto.
Qed.

(** ** Single operations *)

Lemma quiet_wp {A} s (m : cmd (D * FatCache) A) (Q : Fs (D * FatCache) -> A -> Prop) E : quiet b m (fat s) ->
  wp s (lift m) Q E -> wp s (lift m) (fun s' a => Q s' a /\ kept [] s s') (fun s' e => E s' e /\ kept [] s s').
Proof.
  unfold quiet, data_kept, wp, lift. intros Hq Hw. destruct (m (fat s)) as [x [a|e|]]; [| |done]; simpl in *;
    (split; [done|]; intros l Hl _; by apply Hq).
Qed.

Lemma read_fat_kept s c : inv b (fat s) -> valid b c ->
  wp s (lift (read_fat_entry b c)) (fun s' v => (v = tbl s c /\ tabled s s' (tbl s)) /\ kept [] s s')
    (fun s' _ => (tabled s s' (tbl s) /\ ~ live s) /\ kept [] s s').
Proof. intros Hi Hc. apply quiet_wp; [by apply quiet_read|exact (read_wp s c Hi Hc)]. Qed.

Lemma write_fat_kept s c v : inv b (fat s) -> valid b c -> 0 <= v < 2 ^ 28 ->
  wp s (lift (write_fat_entry b c v)) (fun s' _ => tabled s s' (upd (tbl s) [c] v) /\ kept [] s s')
    (fun s' _ => (tabled s s' (tbl s) /\ ~ live s) /\ kept [] s s').
Proof. intros Hi Hc Hr. apply quiet_wp; [by apply quiet_write|exact (write_wp s c v Hi Hc Hr)]. Qed.

Lemma read_entries_wp s c : valid b c ->
  wp s (read_entries b c) (fun s' es => s' = s /\ es = ents (fat s).1 c) (fun s' _ => s' = s /\ ~ live s).
Proof.
  intros Hc. destruct (cluster_bounds c Hc) as (B1 & B2 & B3). pose proof (vo_spc b Hv) as Hs.
  unfold read_entries. apply wp_bind. unfold valid in Hc.
  apply (wp_ext _ _ (dev_read (clus_to_lba b c) (sec_per_clus b))).
  { unfold lift, read_cluster, dev_read. destruct s as [[d f] ?]. simpl. by rewrite (proj2 (orb_false_iff _ _)) by lia. }
  eapply wp_mono; [apply (dev_read_wp b); lia| |done]. cbv beta. intros s' buf [-> ->]. apply wp_ret. done.
Qed.

Lemma write_cluster_wp s c buf : inv b (fat s) -> valid b c -> bytes_ok buf -> Z.of_nat (length buf) = byts_per_clus b ->
  wp s (lift (write_cluster b c buf))
    (fun s' _ => tabled s s' (tbl s) /\ kept [c] s s'
                 /\ flat_map (sector (fat s').1) (seqZ (clus_to_lba b c) (sec_per_clus b)) = buf)
    (fun s' _ => tabled s s' (tbl s) /\ kept [c] s s' /\ ~ live s).
Proof.
  intros Hi Hc Hbuf Hl. destruct (cluster_bounds c Hc) as (B1 & B2 & B3). pose proof (vo_spc b Hv) as Hs.
  rewrite (vo_bytes b Hv) in Hl. unfold write_cluster. unfold valid in Hc. rewrite (proj2 (orb_false_iff _ _)) by lia.
  apply wp_lift. set (lba := clus_to_lba b c) in *. set (n := sec_per_clus b) in *.
  pose proof (live_kept b _ (fat s) (writes_dev_write lba n buf)) as Hlk.
  destruct (base_pos b Hv) as [Hb1 Hb2].
  assert (forall x : D * FatCache, x.1 = (write_sectors (fat s).1 lba n buf).1 -> kept [c] s (set_fat s x)) as Hk.
  { intros x Hx l Hld Hn. cbn [fat set_fat]. rewrite Hx. apply write_sectors_frame.
    intros Hin. apply (Hn c); [set_solver|]. done. }
  destruct (copies_bound b Hv) as [Hc0 Hcb]. eapply wp_from_run; [apply dev_write_ok; [done|done|]| |].
  - intros l k Hp Hk' Hll. specialize (Hcb l k Hp Hk'). lia.
  - intros x [] Hi' Hs' [-> Hw] E. rewrite E in Hlk. split_and!.
    + apply lift_tabled. split_and!; [done| |done]. intros z Hz. by apply (same_entry b Hb).
    + by apply Hk.
    + cbn [fat set_fat fst]. etransitivity; [|apply (sectors_of_buf lba n); lia]. rewrite !flat_map_concat_map. f_equal.
      apply map_ext_in. intros l Hin%list_elem_of_In%elem_of_seqZ. apply write_sectors_ok; [done|lia|lia|done|lia].
  - intros x e Hi' Hs' E. rewrite E in Hlk. split_and!.
    + apply lift_tabled. split_and!; [done| |done]. intros z Hz. by apply (same_entry b Hb).
    + apply Hk. destruct (fat s) as [d f]. unfold dev_write in E. cbn [fst] in *.
      destruct (write_sectors d lba n buf). by injection E as <- _.
    + intros [Hh Hsz]. destruct (fat s) as [d f]. cbn [fst] in *. unfold dev_write in E.
      assert ((write_sectors d lba n buf).2 = Ok tt) as Hw by (apply healthy_write; [done|lia|lia|lia|done|lia]).
      destruct (write_sectors d lba n buf) as [d' r]. simpl in Hw. by subst r.
Qed.

Lemma write_entries_wp s c es : inv b (fat s) -> valid b c -> Forall row es -> length es = epc ->
  wp s (write_entries b c es)
    (fun s' _ => tabled s s' (tbl s) /\ kept [c] s s' /\ ents (fat s').1 c = es)
    (fun s' _ => tabled s s' (tbl s) /\ kept [c] s s' /\ ~ live s).
Proof.
  intros Hi Hc Hr Hl. destruct (concat_rows es Hr) as [Hlen Hbytes]. destruct epc_eq as [He _].
  eapply wp_mono; [apply write_cluster_wp; [done|done|done|]| |done].
  - rewrite (vo_bytes b Hv). lia.
  - cbv beta. intros s' _ (Ht & Hk & Hd). split_and!; [done|done|]. unfold ents. rewrite Hd. by apply entries_of_concat.
Qed.

Lemma alloc_cluster_kept s : fs_wf s ->
  wp s alloc_cluster (fun s' c => allocated s 1 [c] s' /\ kept [] s s') (fun s' e => alloc_failed s 1 s' e /\ kept [] s s').
Proof.
  intros [Hi Hh Hf]. set (P := fun l x => x = sector (fat s).1 l).
  pose proof (@alloc_cluster_wp _ _ (volume b) (framed_view b P) (framed_laws b Hv P) s) as Hw.
  eapply wp_mono; [apply Hw; by constructor|..].
  - intros s' c [A1 A2 A3 [[A4 HP] A4' A4''] A5 A6 A7 A8 A9 A10]. split; [by constructor|]. intros l Hl _. by apply HP.
  - intros s' e [[[A4 HP] A4' A4''] A2 A3 A5]. split; [by constructor|]. intros l Hl _. by apply HP.
Qed.

(** ** Reading a directory *)

Lemma read_entries_invalid s c : ~ valid b c -> read_entries b c s = (s, Err InvalidInput).
Proof.
  intros Hc. unfold read_entries, cmd_bind, lift, read_cluster. destruct s as [[d f] ? ? ? ? ?]. cbn [fat].
  unfold valid in Hc. destruct ((c <? 2) || (2 + total_clus b <=? c)) eqn:E; [done|lia].
Qed.

Lemma kept_nil_ents s s' c : kept [] s s' -> valid b c -> ents (fat s').1 c = ents (fat s).1 c.
Proof. intros K Hc. by apply (kept_ents [] s s'); [done|done|constructor|set_solver]. Qed.

Lemma kept_nil_trans s1 s2 s3 cs : kept [] s1 s2 -> kept cs s2 s3 -> kept cs s1 s3.
Proof. apply (kept_trans []). Qed.

Notation chain := (chain (S := D * FatCache)).

Lemma chain_valid f c l : chain f c l -> Forall (valid b) l.
Proof. induction 1; by constructor. Qed.

Lemma map_ents_kept s s' l : kept [] s s' -> Forall (valid b) l -> map (ents (fat s').1) l = map (ents (fat s).1) l.
Proof.
  intros K Hl. apply map_ext_in. intros c Hc%list_elem_of_In. apply kept_nil_ents; [done|].
  rewrite Forall_forall in Hl. auto.
Qed.

Lemma read_dir_loop_wp fuel : forall s c n v acc, inv b (fat s) -> 0 <= n <= total_clus b + 2 ->
  total_clus b + 2 - n < Z.of_nat fuel ->
  (forall l, chain (tbl s) c l -> n + Z.of_nat (length l) <= total_clus b) ->
  wp s (read_dir_loop b fuel c n v acc)
    (fun s' r => tabled s s' (tbl s) /\ kept [] s s'
       /\ forall l, chain (tbl s) c l -> r = (scan_slots (concat (map (ents (fat s).1) l)) v acc).2)
    (fun s' _ => tabled s s' (tbl s) /\ kept [] s s' /\ (~ live s \/ forall l, ~ chain (tbl s) c l)).
Proof.
  induction fuel as [|fuel IH]; intros s c n v acc Hi Hn Hf Hbound; [lia|]. cbn [read_dir_loop].
  assert (tabled s s (tbl s)) as Hrefl by (by apply tabled_refl).
  destruct (decide (valid b c)) as [Hc|Hc].
  2: { unfold wp, cmd_bind at 1. rewrite read_entries_invalid by done. split_and!; [done|done|right].
       by intros l Hl%chain_head. }
  eapply wp_seq; [by apply read_entries_wp| |].
  2: { intros s' e [-> Hl]. split_and!; [done|done|by left]. }
  cbv beta. intros s' es [-> ->]. set (d := (fat s).1) in *.
  assert (forall l v acc, scan_slots (concat (map (ents d) (c :: l))) v acc =
    let '(fin, v, acc) := scan_slots (ents d c) v acc in
    if (fin : bool) then (true, [], acc) else scan_slots (concat (map (ents d) l)) v acc) as Hcons.
  { intros l v0 acc0. cbn [map concat]. by rewrite scan_app. }
  destruct (scan_slots (ents d c) v acc) as [[fin v1] acc1] eqn:Es. destruct fin.
  { apply wp_ret. split_and!; [done|done|]. intros l Hl. inversion Hl; subst; rewrite Hcons, Es; done. }
  eapply wp_seq; [by apply read_fat_kept| |].
  2: { intros s1 e [[Ht Hl] K]. split_and!; [done|done|by left]. }
  cbv beta. intros s1 next [[-> Ht1] K1]. destruct (Z.leb_spec EOC_MARKER (tbl s c)) as [He|He].
  { apply wp_ret. split_and!; [done|done|]. intros l Hl. inversion Hl; subst; [|lia]. by rewrite Hcons, Es. }
  assert (forall l, chain (tbl s) c l -> exists l', l = c :: l' /\ chain (tbl s) (tbl s c) l') as Hinv.
  { intros l Hl. inversion Hl as [|? l' _ _ Hl']; subst; [lia|]. by exists l'. }
  assert (forall l, chain (tbl s) (tbl s c) l -> n + 1 + Z.of_nat (length l) <= total_clus b) as Hb'.
  { intros l Hl. specialize (Hbound (c :: l) ltac:(by constructor)). simpl in Hbound. lia. }
  destruct (Z.ltb_spec (total_clus b + 2) (n + 1)) as [Hg|Hg].
  { apply wp_err. split_and!; [done|done|right]. intros l Hl. destruct (Hinv l Hl) as (l' & -> & Hl').
    specialize (Hb' _ Hl'). lia. }
  eapply wp_mono; [apply (IH s1)|..].
  - exact (tabled_ok s s1 _ Ht1).
  - lia.
  - lia.
  - intros l Hl. apply (tabled_chain s s1) in Hl; [|done]. by apply Hb' in Hl.
  - simpl. intros s2 r (Ht2 & K2 & Hr). split_and!; [by eapply tabled_step|by eapply kept_nil_trans|].
    intros l Hl. destruct (Hinv l Hl) as (l' & -> & Hl'). rewrite Hcons, Es.
    rewrite (Hr l') by (by apply (tabled_chain s s1)). rewrite (map_ents_kept s s1 l' K1); [done|]. by eapply chain_valid.
  - simpl. intros s2 e (Ht2 & K2 & Hor). split_and!; [by eapply tabled_step|by eapply kept_nil_trans|].
    destruct Hor as [Hnl|Hno]; [left; intros Hl; by apply Hnl, (tabled_live _ _ _ Ht1)|right].
    intros l Hl. destruct (Hinv l Hl) as (l' & -> & Hl'). by apply (Hno l'), (tabled_chain s s1).
Qed.

Lemma volume_fields : (byts_per_clus b =? 0) || (bytes_per_sec b =? 0) || (sec_per_clus b =? 0) = (bytes_per_sec b =? 0).
Proof. rewrite (vo_bytes b Hv). pose proof (vo_spc b Hv). destruct (bytes_per_sec b =? 0); lia. Qed.

Lemma read_dir_slots_wp s c : inv b (fat s) ->
  wp s (read_dir_slots b c)
    (fun s' r => tabled s s' (tbl s) /\ kept [] s s'
       /\ forall l, chain (tbl s) c l -> r = (scan_slots (concat (map (ents (fat s).1) l)) [] []).2)
    (fun s' _ => tabled s s' (tbl s) /\ kept [] s s' /\ (~ live s \/ forall l, ~ chain (tbl s) c l)).
Proof.
  intros Hi. unfold read_dir_slots. rewrite volume_fields, (bo_sector b Hb).
  destruct (bo_covers b Hb) as [Ht0 _]. apply read_dir_loop_wp; [done|lia|unfold dir_fuel; lia|].
  intros l Hl. apply chain_length in Hl. cbn [clusters volume] in Hl. lia.
Qed.

(** ** Searching a directory *)

Definition seen_none (d : D) (name : list Z) (l : list Z) : Prop :=
  Forall (fun c => search [] (ents d c) name = FoundNone) l.

Lemma seen_none_kept s s' name l : kept [] s s' -> Forall (valid b) l ->
  seen_none (fat s').1 name l -> seen_none (fat s).1 name l.
Proof.
  intros K Hl Hs. unfold seen_none in *. rewrite Forall_forall in *. intros c Hc.
  rewrite <- (kept_nil_ents s s') by auto. auto.
Qed.

(** The walk rewrites the first cluster in which the name is found. *)
Definition rewritten s (name : list Z) act l s' : Prop :=
  exists l1 c l2 cs i es, l = l1 ++ c :: l2 /\ seen_none (fat s).1 name l1
    /\ search [] (ents (fat s).1 c) name = FoundAt cs i /\ act (ents (fat s).1 c) cs i = Ok (E := VfsError) es
    /\ tabled s s' (tbl s) /\ kept [c] s s' /\ ents (fat s').1 c = es.

Definition absent s (name : list Z) l s' : Prop := kept [] s s' /\
  (seen_none (fat s).1 name l \/ exists l1 c l2, l = l1 ++ c :: l2 /\ seen_none (fat s).1 name l1
     /\ search [] (ents (fat s).1 c) name = FoundEnd).

Definition act_ok (act : list (list Z) -> nat -> nat -> res VfsError (list (list Z))) (name : list Z) (es : list (list Z)) : Prop :=
  forall cs i, search [] es name = FoundAt cs i ->
    exists es', act es cs i = Ok es' /\ Forall row es' /\ length es' = epc.

Lemma find_loop_wp name act fuel : forall s c n l, inv b (fat s) -> chain (tbl s) c l ->
  0 <= n -> n + Z.of_nat (length l) <= total_clus b + 1 -> (length l <= fuel)%nat ->
  Forall (fun c => act_ok act name (ents (fat s).1 c)) l ->
  wp s (find_loop b fuel c n name act) (fun s' _ => rewritten s name act l s')
    (fun s' e => tabled s s' (tbl s) /\ (e = NotFound /\ absent s name l s'
                                        \/ ~ live s /\ exists c, c ∈ l /\ kept [c] s s')).
Proof.
  induction fuel as [|fuel IH]; intros s c n l Hi Hl Hn Hb1 Hf Hact; [inversion Hl; subst; simpl in Hf; lia|]. cbn [find_loop].
  pose proof (chain_head _ _ _ Hl) as Hc.
  assert (exists r, l = c :: r) as [r ->] by (inversion Hl; eauto).
  assert (forall s', kept [] s s' -> kept [c] s s') as Hweak.
  { intros s' K x Hx Hno. apply K; [done|set_solver]. }
  eapply wp_seq; [by apply read_entries_wp| |].
  2: { intros s' e [-> Hd]. split; [by apply tabled_refl|]. right. split; [done|]. exists c. split; [set_solver|by apply Hweak]. }
  cbv beta. intros s' es [-> ->]. pose proof Hact as [Ha Hr]%Forall_cons.
  destruct (search [] (ents (fat s).1 c) name) as [| |cs i] eqn:Es.
  - apply wp_err. split; [by apply tabled_refl|]. left. split; [done|]. split; [done|]. right.
    exists [], c, r. by split_and!; [|constructor|].
  - rewrite (proj2 (Z.ltb_ge _ _)) by (simpl in Hb1; lia).
    eapply wp_seq; [by apply read_fat_kept| |].
    2: { intros s1 e [[Ht Hd] K]. split; [done|]. right. split; [done|]. exists c. split; [set_solver|auto]. }
    cbv beta. intros s1 next [[-> Ht1] K1]. destruct (Z.leb_spec EOC_MARKER (tbl s c)) as [He|He].
    { apply wp_err. split; [done|]. left. split; [done|]. split; [done|]. left.
      inversion Hl; subst; [|lia]. by repeat constructor. }
    assert (chain (tbl s) (tbl s c) r) as Hlr by (inversion Hl; subst; [lia|done]).
    pose proof (chain_valid _ _ _ Hlr) as Hvr.
    eapply wp_mono; [apply (IH s1 (tbl s c) (n + 1) r)|..].
    + exact (tabled_ok s s1 _ Ht1).
    + by apply (tabled_chain s s1).
    + lia.
    + simpl in Hb1. lia.
    + simpl in Hf. lia.
    + rewrite Forall_forall in Hr, Hvr |- *. intros x Hx. rewrite (kept_nil_ents s s1) by auto. auto.
    + cbv beta. intros s2 [] (l1 & c' & l2 & cs & i & es & -> & Hs1 & Hs & Hes & Ht2 & K2 & E2).
      apply Forall_app in Hvr as [Hvl [Hvc _]%Forall_cons]. rewrite (kept_nil_ents s s1) in Hs, Hes by done.
      exists (c :: l1), c', l2, cs, i, es. split_and!; [done| |done|done|by eapply tabled_step|by eapply kept_nil_trans|done].
      constructor; [done|]. by eapply seen_none_kept.
    + cbv beta. intros s2 e [Ht2 Hor]. split; [by eapply tabled_step|].
      destruct Hor as [[-> [K2 Hab]]|[Hd (c' & Hc' & K2)]].
      * left. split; [done|]. split; [by eapply kept_nil_trans|].
        destruct Hab as [Hs|(l1 & c' & l2 & -> & Hs1 & Hs)]; [left; constructor; [done|by eapply seen_none_kept]|].
        right. apply Forall_app in Hvr as [Hvl [Hvc _]%Forall_cons]. rewrite (kept_nil_ents s s1) in Hs by done.
        exists (c :: l1), c', l2. split_and!; [done| |done]. constructor; [done|by eapply seen_none_kept].
      * right. split; [intros Hlv; by apply Hd, (tabled_live _ _ _ Ht1)|]. exists c'.
        split; [set_solver|by eapply kept_nil_trans].
  - destruct (Ha cs i Es) as (es' & Hes & Hrows & Hlen).
    apply wp_bind. apply (wp_ok _ es'); [done|].
    eapply wp_mono; [by apply write_entries_wp|..].
    + cbv beta. intros s1 u (Ht & K & E). exists [], c, r, cs, i, es'. by split_and!; [|constructor|..].
    + cbv beta. intros s1 e (Ht & K & Hd). split; [done|]. right. split; [done|]. exists c. split; [set_solver|done].
Qed.

(** ** Placing a group *)

Lemma kept_weaken cs cs' s s' : kept cs s s' -> (forall c, c ∈ cs -> c ∈ cs') -> kept cs' s s'.
Proof. intros K Hin l Hl Hn. apply K; [done|]. intros c Hc. auto. Qed.

Lemma fill_tail_wp s t g ss : inv b (fat s) -> valid b t -> slot_ok g -> laid true false (ents (fat s).1 t) ss ->
  find_spot (ents (fat s).1 t) (length (slot_entries g)) 0 = None ->
  wp s (fill_tail b t (ents (fat s).1 t) (slot_entries g))
    (fun s' r => r = slot_entries g /\ tabled s s' (tbl s) /\ kept [t] s s'
                 /\ ents (fat s').1 t = map unend (ents (fat s).1 t))
    (fun s' _ => tabled s s' (tbl s) /\ kept [t] s s' /\ ~ live s).
Proof.
  intros Hi Ht Hg Hl Hs. unfold fill_tail. destruct (ents_rows (fat s).1 t) as [Hrows Hlen].
  pose proof (free_tail_ends _ _ _ Hl 0) as Hends. set (es := ents (fat s).1 t) in *.
  assert (tabled s s (tbl s)) as Hrefl by (by apply tabled_refl).
  assert (slot_entries g <> []) as Hne by (pose proof (slot_entries_length g); by destruct (slot_entries g)).
  destruct (free_tail es 0) as [start|] eqn:Ef.
  2: { apply wp_ret. split_and!; [done|done|done|]. by rewrite unend_same. }
  destruct Hends as [_ Hends]. rewrite Nat.sub_0_r in Hends. destruct (free_tail_short _ _ _ _ Hs Ef) as [_ Hshort].
  pose proof (slot_entries_length g). rewrite take_groups_slot, (proj2 (Nat.ltb_lt _ _)) by (done || lia).
  apply wp_bind. eapply wp_ok; [done|]. cbv beta iota zeta. cbn [length]. rewrite Nat.ltb_irrefl.
  rewrite bool_decide_eq_false_2 by done. cbn [negb].
  assert (map unend es = take start es ++ map unend (drop start es)) as Emap.
  { rewrite <- (take_drop start es) at 1. by rewrite map_app, unend_same. }
  destruct (existsb is_end (drop start es)) eqn:Ex.
  - eapply wp_seq; [apply write_entries_wp; [done|done|..]| |done].
    + fold unend. change (fun e => if is_end e then mark_deleted e else e) with unend. rewrite <- Emap.
      apply Forall_map. eapply Forall_impl; [exact Hrows|apply unend_row].
    + change (fun e => if is_end e then mark_deleted e else e) with unend. by rewrite <- Emap, length_map.
    + cbv beta. intros s' _ (Htb & K & E). apply wp_ret. split_and!; [done|done|done|]. by rewrite E, Emap.
  - apply wp_ret. split_and!; [done|done|done|]. rewrite Emap. fold es. rewrite (unend_same (drop start es)), take_drop; [done|].
    apply Forall_forall. intros e He. destruct (is_end e) eqn:Ee; [|done].
    rewrite (proj2 (existsb_exists _ _)) in Ex; [done|]. exists e. split; [by apply list_elem_of_In|done].
Qed.

(** The last cluster of the directory [l] may have lost its end marks; nothing
    else has changed. *)
Definition tail_only s (l : list Z) s' : Prop := exists t, list.last l = Some t /\ kept [t] s s'
  /\ (ents (fat s').1 t = ents (fat s).1 t \/ ents (fat s').1 t = map unend (ents (fat s).1 t)).

(** What a failed placement leaves: the other files are as they were, and on a
    live device it fails for want of space only. *)
Definition place_failed s (c0 : Z) (l : list Z) (g : DirEntrySlot) s' (e : VfsError) : Prop :=
  (exists new, extended s c0 l new s') /\ (exists cs, kept cs s s' /\ forall x, x ∈ cs -> valid b x /\ (x ∈ l \/ avail s x))
  /\ (live s -> (e = NoSpace /\ avail_list s = [] \/ e = InvalidInput /\ (epc < length (slot_entries g))%nat)
      /\ extended s c0 l [] s' /\ tail_only s l s').

Lemma place_failed_tabled s c0 l g s' e cs : fs_wf s -> chain (tbl s) c0 l -> held s l -> tabled s s' (tbl s) ->
  kept cs s s' -> (forall x, x ∈ cs -> valid b x /\ (x ∈ l \/ avail s x)) ->
  (live s -> (e = InvalidInput /\ (epc < length (slot_entries g))%nat) /\ tail_only s l s') -> place_failed s c0 l g s' e.
Proof.
  intros Hwf Hl Hh Ht K Hcs He. assert (extended s c0 l [] s') by (by apply tabled_extended).
  split_and!; [by exists []|by exists cs|]. intros Hlv. destruct (He Hlv). split_and!; auto.
Qed.

Lemma tail_only_kept s l t s' : kept [] s s' -> valid b t -> tail_only s (l ++ [t]) s'.
Proof.
  intros K Ht. exists t. rewrite last_snoc. split_and!; [done|apply (kept_weaken [] _ _ _ K); set_solver|].
  left. by apply kept_nil_ents.
Qed.

Lemma append_slot_eq t g : slot_ok g -> (length (slot_entries g) <= epc)%nat ->
  append_groups (D := D) b (length (slot_entries g)) t (slot_entries g) =
  (do! new_clus := alloc_cluster (S := D * FatCache) in
   do! _ := lift (zero_cluster (S := D * FatCache) new_clus) in
   do! _ := lift (write_fat_entry b t new_clus) in
   do! r := cmd_res (Ok (slot_entries g, [] : list (list Z))) in
   do! _ := write_entries b new_clus (overwrite (replicate epc blank_entry) 0 r.1) in
   cmd_ret tt).
Proof.
  intros Hg Hle. pose proof (take_groups_slot g epc Hg) as Hk. rewrite (proj2 (Nat.ltb_ge _ _)) in Hk by done.
  pose proof (slot_entries_length g). destruct (slot_entries g) as [|e es]; [done|]. cbn [length append_groups] in *.
  rewrite Hk. cbn [fst]. by destruct (length es).
Qed.

Lemma new_rows g : slot_ok g -> (length (slot_entries g) <= epc)%nat ->
  Forall row (overwrite (replicate epc blank_entry) 0 (slot_entries g))
  /\ length (overwrite (replicate epc blank_entry) 0 (slot_entries g)) = epc
  /\ laid true false (overwrite (replicate epc blank_entry) 0 (slot_entries g)) [g].
Proof.
  intros Hg Hle. destruct (overwrite_rows (replicate epc blank_entry) 0 (slot_entries g)) as [Hr Hl].
  - apply Forall_replicate. split; [done|]. apply Forall_replicate. unfold byte_ok. lia.
  - apply Hg.
  - by rewrite length_replicate.
  - rewrite length_replicate in Hl. split_and!; [done|done|]. unfold overwrite. cbn [take app]. apply laid_slot; [done|].
    apply laid_ends; [done|]. by apply Forall_drop, Forall_replicate.
Qed.

#[local] Hint Extern 0 (FatZero (D * FatCache)) => exact (cached_zero b Hv) : typeclass_instances.

Lemma append_slot_wp s c0 l t g : fs_wf s -> chain (tbl s) c0 (l ++ [t]) -> held s (l ++ [t]) -> slot_ok g ->
  (length (slot_entries g) <= epc)%nat ->
  wp s (append_groups b (length (slot_entries g)) t (slot_entries g))
    (fun s' _ => exists new, extended s c0 (l ++ [t]) [new] s' /\ kept [new] s s' /\ avail s new /\ valid b new
       /\ ents (fat s').1 new = overwrite (replicate epc blank_entry) 0 (slot_entries g))
    (place_failed s c0 (l ++ [t]) g).
Proof.
  intros Hwf Hl Hh Hg Hle. rewrite append_slot_eq by done. pose proof (vo_numbered b Hv) as Hfit.
  assert (valid b t) as Hct by (apply Hh; set_solver).
  assert (forall s' e new, extended s c0 (l ++ [t]) new s' -> (exists cs, kept cs s s' /\ forall x, x ∈ cs -> valid b x /\ (x ∈ l ++ [t] \/ avail s x)) ->
    (live s -> e = NoSpace /\ avail_list s = [] /\ new = [] /\ kept [] s s') -> place_failed s c0 (l ++ [t]) g s' e) as Hfail.
  { intros s' e new X K He. split_and!; [by exists new|done|]. intros Hlv. destruct (He Hlv) as (-> & Hav & -> & K').
    split_and!; [by left|done|by apply tail_only_kept]. }
  eapply wp_seq; [by apply alloc_cluster_kept| |].
  2: { intros s' e [F K]. destruct (alloc_failed_file_op _ _ _ _ _ Hh F) as [Hop Heq].
       apply (Hfail s' e []); [|exists []; split; [done|by intros x ?%not_elem_of_nil]|].
       - apply extended_same; try done. intros Hlv. destruct (af_live _ _ _ _ F Hlv) as (_ & Hlv' & _ & Ht).
         split_and!; [done|apply F|done].
       - intros Hlv. destruct (af_live _ _ _ _ F Hlv) as (-> & _ & Hn & _). split_and!; [done| |done|done].
         destruct (avail_list s); [done|simpl in Hn; lia]. }
  cbv beta. intros s1 new [A K1]. destruct (new_cluster s s1 c0 l t new Hwf Hl Hh A) as (Hcn & Han & _ & _).
  assert (forall s' e, tabled s1 s' (tbl s1) -> kept [new] s1 s' -> ~ live s -> place_failed s c0 (l ++ [t]) g s' e) as Hlost.
  { intros s' e Ht K Hnl. apply (Hfail s' e []); [by eapply new_cluster_lost| |done]. exists [new].
    split; [by eapply kept_nil_trans|]. intros x ->%list_elem_of_singleton. split; [exact Hcn|by right]. }
  assert (forall s', live s -> tabled s1 s' (tbl s1) -> live s') as Hlv1 by (intros s' Hlv Ht; by apply (tabled_live _ _ _ Ht), A).
  eapply wp_seq; [apply write_cluster_wp; [apply A|exact Hcn|..]| |].
  { apply Forall_replicate. unfold byte_ok. lia. }
  { rewrite length_replicate. cbn [cluster_bytes volume]. rewrite (vo_bytes b Hv). pose proof (vo_spc b Hv). lia. }
  2: { intros s' e (Ht & K & Hd). apply Hlost; [done|done|]. intros Hlv. by apply Hd, A. }
  cbv beta. intros s2 u (Ht2 & K2 & _).
  eapply wp_seq; [apply (write_fat_kept s2 t new); [exact (tabled_ok _ _ _ Ht2)|done|]| |].
  { unfold is_cluster in Hcn. cbn [clusters volume] in Hcn. unfold EOC_MARKER in *. lia. }
  2: { intros s' e [[Ht Hd] K]. apply Hlost; [by eapply tabled_step|by apply (kept_trans [new] [] s1 s2)|].
       intros Hlv. apply Hd. by apply (Hlv1 s2). }
  cbv beta. intros s3 u3 [Ht3 K3].
  assert (extended s c0 (l ++ [t]) [new] s3) as X3.
  { apply (new_cluster_linked s s1 c0 l t new Hwf Hl Hh A s3).
    eapply tabled_ext; [by eapply tabled_trans|]. intros z Hz. apply upd_congr. by apply (tabled_tbl _ _ _ _ Ht2). }
  assert (kept [new] s s3) as K03.
  { eapply kept_nil_trans; [exact K1|]. by apply (kept_trans [new] [] s1 s2). }
  apply wp_bind, (wp_ok _ (slot_entries g, [])); [done|]. cbn [fst].
  destruct (new_rows g Hg Hle) as (Hr & Hlen & _). pose proof (ex_op _ _ _ _ _ X3) as O3.
  assert (forall s', tabled s3 s' (tbl s3) -> extended s c0 (l ++ [t]) [new] s') as X4.
  { intros s' Ht. apply (extended_trans s c0 _ [new] s3 []); [done|]. apply tabled_extended; [apply O3| |apply X3|done].
    intros x Hx. split; [by apply (fo_from _ _ _ _ O3)|by apply (fo_held _ _ _ _ O3)]. }
  assert (forall s', kept [new] s3 s' -> kept [new] s s') as K4.
  { intros s' K. eapply kept_weaken; [by apply (kept_trans [new] [new] s s3)|]. intros x Hx. by apply elem_of_app in Hx as [|]. }
  eapply wp_seq; [apply write_entries_wp; [apply O3|exact Hcn|done|done]| |].
  - cbv beta. intros s4 u4 (Ht4 & Ke4 & E4). apply wp_ret. exists new. split_and!; auto.
  - cbv beta. intros s4 e (Ht4 & Ke4 & Hd). apply (Hfail s4 e [new]); [auto| |].
    + exists [new]. split; [auto|]. intros x ->%list_elem_of_singleton. split; [exact Hcn|by right].
    + intros Hlv. destruct Hd. by apply X3.
Qed.

Lemma place_with_growth_wp s c0 l t g ss : fs_wf s -> chain (tbl s) c0 (l ++ [t]) -> held s (l ++ [t]) -> slot_ok g ->
  laid true false (ents (fat s).1 t) ss -> find_spot (ents (fat s).1 t) (length (slot_entries g)) 0 = None ->
  wp s (place_with_growth b t (ents (fat s).1 t) (slot_entries g))
    (fun s' _ => exists new, extended s c0 (l ++ [t]) [new] s' /\ kept [t; new] s s' /\ valid b new /\ new ∉ l ++ [t]
       /\ ents (fat s').1 t = map unend (ents (fat s).1 t)
       /\ ents (fat s').1 new = overwrite (replicate epc blank_entry) 0 (slot_entries g)
       /\ (length (slot_entries g) <= epc)%nat)
    (place_failed s c0 (l ++ [t]) g).
Proof.
  intros Hwf Hl Hh Hg Hlaid Hs. unfold place_with_growth. rewrite max_group_slot by done.
  apply wp_bind. eapply wp_ok; [done|]. cbv beta. assert (valid b t) as Hct by (apply Hh; set_solver).
  destruct (Nat.ltb_spec epc (length (slot_entries g))) as [Hbig|Hle].
  { apply wp_err. apply (place_failed_tabled _ _ _ _ _ _ []); [done|done|done|by apply tabled_refl, Hwf|done|set_solver|].
    intros _. split; [done|by apply tail_only_kept]. }
  eapply wp_seq; [eapply fill_tail_wp; [apply Hwf|done|done|done|done]| |].
  2: { intros s' e (Ht & K & Hd). apply (place_failed_tabled _ _ _ _ _ _ [t]); [done|done|done|done|done| |done].
       intros x ->%list_elem_of_singleton. split; [done|left; set_solver]. }
  cbv beta. intros s1 r (-> & Ht1 & K1 & E1).
  assert (extended s c0 (l ++ [t]) [] s1) as X1 by (by apply tabled_extended).
  assert (forall z, avail s1 z <-> avail s z) as Hav by (intros z; by rewrite (tabled_avail _ _ _ _ Ht1)).
  assert (avail_list s1 = avail_list s) as Eav by (apply avail_list_agree; intros z _; apply Hav).
  assert (held s1 (l ++ [t])) as Hh1 by (intros x Hx; split; [by apply Hh|rewrite Hav; by apply Hh]).
  eapply wp_mono; [apply (append_slot_wp s1 c0 l t g); [apply X1|by apply (tabled_chain s)|done|done|done]|..].
  - cbv beta. intros s2 _ (new & X2 & K2 & Ha & Hcn & E2). exists new.
    assert (new ∉ l ++ [t]) as Hnew by (intros Hin; by apply (Hh1 new Hin)).
    split_and!; [|by apply (kept_trans [t] [new] s s1)|done|done| |done|done].
    + apply (extended_trans s c0 _ [] s1 [new]); [done|by rewrite app_nil_r].
    + rewrite (kept_ents [new] s1 s2); [done|done|done|by constructor|set_solver].
  - cbv beta. intros s2 e ((new & X2) & (cs & K2 & Hcs) & Hlv). split_and!.
    + exists new. apply (extended_trans s c0 _ [] s1 new); [done|by rewrite app_nil_r].
    + exists ([t] ++ cs). split; [by apply (kept_trans [t] cs s s1)|].
      intros x [->%list_elem_of_singleton|Hx]%elem_of_app; [split; [done|left; set_solver]|].
      rewrite <- Hav. auto.
    + intros Hl0. rewrite <- Eav. destruct (Hlv (ex_live _ _ _ _ _ X1 Hl0)) as (He & X2' & (t' & Hlast & K' & Hor)).
      rewrite last_snoc in Hlast. injection Hlast as <-. split_and!; [done| |].
      * apply (extended_trans s c0 _ [] s1 []); [done|by rewrite app_nil_r].
      * exists t. rewrite last_snoc. split_and!; [done| |].
        { eapply kept_weaken; [by apply (kept_trans [t] [t] s s1)|]. intros x Hx. by apply elem_of_app in Hx as [|]. }
        right. destruct Hor as [->| ->]; rewrite E1; [done|]. apply unend_idem, ents_rows.
Qed.

Definition no_spot (d : D) (need : nat) (l : list Z) : Prop := Forall (fun c => find_spot (ents d c) need 0 = None) l.

Lemma place_loop_wp entries Q E fuel : forall s c n l, inv b (fat s) -> chain (tbl s) c l -> Forall row entries ->
  0 <= n -> n + Z.of_nat (length l) <= total_clus b + 1 -> (length l <= fuel)%nat ->
  (forall s' l1 c' l2 i, l = l1 ++ c' :: l2 -> find_spot (ents (fat s).1 c') (length entries) 0 = Some i ->
     tabled s s' (tbl s) -> kept [c'] s s' -> ents (fat s').1 c' = overwrite (ents (fat s).1 c') i entries -> Q s' tt) ->
  (forall s' l1 t, l = l1 ++ [t] -> no_spot (fat s).1 (length entries) l ->
     tabled s s' (tbl s) -> kept [] s s' -> wp s' (place_with_growth b t (ents (fat s').1 t) entries) Q E) ->
  (forall s' e c', tabled s s' (tbl s) -> ~ live s -> c' ∈ l -> kept [c'] s s' -> E s' e) ->
  wp s (place_loop b fuel c n entries) Q E.
Proof.
  induction fuel as [|fuel IH]; intros s c n l Hi Hl Hrows Hn Hb1 Hf HQ HG HE; [inversion Hl; subst; simpl in Hf; lia|].
  cbn [place_loop]. pose proof (chain_head _ _ _ Hl) as Hc.
  assert (exists r, l = c :: r) as [r ->] by (inversion Hl; eauto).
  assert (forall s', kept [] s s' -> kept [c] s s') as Hweak by (intros s' K; eapply kept_weaken; [exact K|set_solver]).
  eapply wp_seq; [by apply read_entries_wp| |].
  2: { intros s' e [-> Hd]. apply (HE s e c); [by apply tabled_refl|done|set_solver|by apply Hweak]. }
  cbv beta. intros s' es [-> ->]. destruct (ents_rows (fat s).1 c) as [Her Hel].
  destruct (find_spot (ents (fat s).1 c) (length entries) 0) as [i|] eqn:Es.
  - destruct (find_spot_bound _ _ _ _ Es) as [_ Hbd]. rewrite Nat.sub_0_r in Hbd.
    destruct (overwrite_rows _ i entries Her Hrows Hbd) as [Hr1 Hr2].
    eapply wp_mono; [apply write_entries_wp; [done|done|done|lia]|..].
    + cbv beta. intros s1 [] (Ht & K & E1). by apply (HQ s1 [] c r i).
    + cbv beta. intros s1 e (Ht & K & Hd). apply (HE s1 e c); [done|done|set_solver|done].
  - rewrite (proj2 (Z.ltb_ge _ _)) by (simpl in Hb1; lia).
    eapply wp_seq; [by apply read_fat_kept| |].
    2: { intros s1 e [[Ht Hd] K]. apply (HE s1 e c); [done|done|set_solver|auto]. }
    cbv beta. intros s1 next [[-> Ht1] K1]. destruct (Z.leb_spec EOC_MARKER (tbl s c)) as [He|He].
    { assert (r = []) as -> by (inversion Hl; subst; [done|lia]). rewrite <- (kept_nil_ents s s1) by done.
      apply (HG s1 [] c); [done|by repeat constructor|done|done]. }
    assert (chain (tbl s) (tbl s c) r) as Hlr by (inversion Hl; subst; [lia|done]).
    pose proof (chain_valid _ _ _ Hlr) as Hvr. rewrite Forall_forall in Hvr.
    apply (IH s1 (tbl s c) (n + 1) r).
    + exact (tabled_ok s s1 _ Ht1).
    + by apply (tabled_chain s s1).
    + done.
    + lia.
    + simpl in Hb1. lia.
    + simpl in Hf. lia.
    + intros s2 l1 c' l2 i -> Hs Ht2 K2 E2. assert (valid b c') as Hc' by (apply Hvr; set_solver).
      rewrite (kept_nil_ents s s1) in Hs, E2 by done.
      apply (HQ s2 (c :: l1) c' l2 i); [done|done|by eapply tabled_step|by eapply kept_nil_trans|done].
    + intros s2 l1 t -> Hs Ht2 K2. apply (HG s2 (c :: l1) t); [done| |by eapply tabled_step|by eapply kept_nil_trans].
      constructor; [done|]. unfold no_spot in Hs. rewrite Forall_forall in Hs |- *. intros x Hx.
      rewrite <- (kept_nil_ents s s1) by auto. auto.
    + intros s2 e c' Ht2 Hd Hc' K2. apply (HE s2 e c'); [by eapply tabled_step| |set_solver|by eapply kept_nil_trans].
      intros Hlv. by apply Hd, (tabled_live _ _ _ Ht1).
Qed.
End Clusters.
