(* ===== verification/FatDirSpec.v ===== *)
(** * Correctness of FAT32 directories

    A directory on the volume is a list of named entries: reading it gives the
    list, and placing, updating and removing an entry change the list
    accordingly and nothing else on the volume. *)

From S2P Require Import Prelude Bits Errors BlockDev Calendar Fat32 Fat32Facts Fat32Spec.
From S2P Require Import FatAlloc FatAllocFacts FatChain FatVolumeFacts FatFiles FatData.
From S2P Require Import FatAllocSpec FatDirent FatDirentFacts FatDir FatDirFacts FatDirVolume.
Import Errors.Vfs.
Local Open Scope Z_scope.

(** ** Updated entries *)

Lemma row_cases (P : list Z -> Prop) :
  (forall (a0 a1 a2 a3 a4 a5 a6 a7 a8 a9 a10 a11 a12 a13 a14 a15 a16 a17 a18 a19 a20 a21 a22 a23 a24 a25 a26 a27 a28 a29 a30 a31 : Z) e, e = [a0;a1;a2;a3;a4;a5;a6;a7;a8;a9;a10;a11;a12;a13;a14;a15;a16;a17;a18;a19;a20;a21;a22;a23;a24;a25;a26;a27;a28;a29;a30;a31] ->
     bytes_ok e -> P e) -> forall e, row e -> P e.
Proof.
  intros HP e [Hl Hb]. do 32 (destruct e as [|? e]; [done|]). destruct e; [|done]. by eapply HP.
Qed.

Definition clock_ok (now : option Z) : Prop := match now with Some t => 0 <= t < 2 ^ 64 | None => True end.

Lemma epoch_to_dos_total `{Profile} t : 0 <= t < 2 ^ 64 -> exists p, epoch_to_dos_datetime t = Ok p.
Proof.
  intros Ht. unfold epoch_to_dos_datetime. rewrite civil_from_days_eq by mlia. cbn [res_bind].
  destruct (civil_of (t / 86400)) as [[y m] d]. case_match; eauto.
Qed.

(** Time stamps leave the name, the attributes, the cluster and the size. *)
Lemma set_timestamps_ok `{Profile} now e : row e -> clock_ok now ->
  exists e', set_timestamps now e = Ok (e', now) /\ row e' /\ take 13 e' = take 13 e
    /\ first_clus_from_entry e' = first_clus_from_entry e /\ file_size_from_entry e' = file_size_from_entry e.
Proof.
  intros He Hn. destruct now as [t|]; [|by exists e]. destruct (epoch_to_dos_total t Hn) as [[tm dt] Ep].
  revert e He. apply row_cases. intros * -> Hb. unfold set_timestamps. rewrite Ep. cbn [res_bind].
  assert (forall v, byte_ok (v mod 256)) as Hm by (intros v; unfold byte_ok; mlia).
  eexists. split; [reflexivity|]. split; [|done]. split; [done|].
  unfold bytes_ok in *. rewrite !Forall_cons in Hb. destruct_and! Hb.
  cbn. repeat (apply Forall_cons_2; [first [assumption|apply Hm|unfold byte_ok; lia]|]). constructor.
Qed.

Definition set_fields (clus size : option Z) (entry : list Z) : list Z :=
  let entry := match clus with Some c => set_first_clus_in_entry entry c | None => entry end in
  match size with Some s => set_file_size_in_entry entry s | None => entry end.

Lemma u16_bytes v : le_val [v mod 65536 mod 256; v mod 65536 / 256] = v mod 65536.
Proof. generalize (v mod 65536). intros x. unfold le_val. mlia. Qed.

Lemma set_fields_ok clus size e : row e ->
  (forall c, clus = Some c -> 0 <= c < 2 ^ 32) -> (forall n, size = Some n -> 0 <= n < 2 ^ 32) ->
  row (set_fields clus size e) /\ take 13 (set_fields clus size e) = take 13 e
  /\ first_clus_from_entry (set_fields clus size e) = default (first_clus_from_entry e) clus
  /\ file_size_from_entry (set_fields clus size e) = default (file_size_from_entry e) size.
Proof.
  intros He Hc Hs. revert e He. apply row_cases. intros * -> Hb.
  assert (forall v, byte_ok (v mod 256)) as Hm by (intros v; unfold byte_ok; mlia).
  assert (forall v, byte_ok (v mod 65536 / 256)) as Hd by (intros v; unfold byte_ok; mlia).
  unfold bytes_ok in *. rewrite !Forall_cons in Hb. destruct_and! Hb.
  split; [|split; [by destruct clus, size|split]].
  - split; [by destruct clus, size|]. unfold bytes_ok.
    destruct clus, size; cbn; repeat (apply Forall_cons_2; [first [assumption|apply Hm|apply Hd]|]); constructor.
  - destruct clus as [c|]; [|by destruct size]. specialize (Hc c eq_refl).
    transitivity (Z.lor (Z.shiftl (le_val [Z.shiftr c 16 mod 65536 mod 256; Z.shiftr c 16 mod 65536 / 256]) 16)
                        (le_val [c mod 65536 mod 256; c mod 65536 / 256])); [by destruct size|].
    rewrite !u16_bytes, Z.shiftr_div_pow2 by lia. rewrite lor_shiftl by mlia. unfold default, from_option, id. change (2 ^ 16) with 65536. change (2 ^ 32) with 4294967296 in Hc. mlia.
  - destruct size as [n|]; [|by destruct clus]. specialize (Hs n eq_refl).
    transitivity (le_val [n mod 256; n / 256 mod 256; n / 65536 mod 256; n / 16777216 mod 256]); [by destruct clus|].
    change (2 ^ 32) with 4294967296 in Hs. unfold le_val, default, from_option, id. mlia.
Qed.

(** ** Single operations *)

Section Ops.
Context `{Profile} `{ReliableDevice D} (b : Bpb) (Hv : volume_ok b).
Implicit Types s : Fs (D * FatCache).

#[local] Hint Extern 0 (FatOps (D * FatCache)) => exact (volume b) : typeclass_instances.
#[local] Hint Extern 0 (FatView (D * FatCache)) => exact (cached_view b) : typeclass_instances.
#[local] Hint Extern 0 (FatLaws (D * FatCache)) => exact (cached_laws b Hv) : typeclass_instances.
Notation chain := (chain (S := D * FatCache)).
Notation ents s := (ents b (fat s).1).

(** The directory at [c]: its clusters, and its entries cluster by cluster. *)
Record directory s (c : Z) (l : list Z) (sss : list (list DirEntrySlot)) : Prop := {
  di_wf : fs_wf s;
  di_chain : chain (tbl s) c l;
  di_held : held s l;
  di_laid : dir_laid (map (ents s) l) sss
}.

Lemma ents_update s s' c l1 l2 es : NoDup (l1 ++ c :: l2) -> Forall (valid b) (l1 ++ c :: l2) -> kept b [c] s s' ->
  ents s' c = es -> map (ents s') (l1 ++ c :: l2) = map (ents s) l1 ++ es :: map (ents s) l2.
Proof.
  intros Hnd Hval K <-. apply NoDup_app in Hnd as (_ & Hd & [Hc _]%NoDup_cons). rewrite map_app. cbn [map].
  apply Forall_app in Hval as [Hv1 [Hvc Hv2]%Forall_cons].
  assert (forall x, valid b x -> x <> c -> ents s' x = ents s x) as Hx.
  { intros x Hx Hne. apply (kept_ents b Hv [c] s s'); [done|done|by constructor|set_solver]. }
  rewrite Forall_forall in Hv1, Hv2. f_equal; [|f_equal]; apply map_ext_in; intros x Hin%list_elem_of_In; apply Hx; auto.
  - intros ->. apply (Hd c); [done|set_solver].
  - by intros ->.
Qed.

Lemma directory_tabled s s' c l sss sss' : directory s c l sss -> tabled s s' (tbl s) ->
  dir_laid (map (ents s') l) sss' -> directory s' c l sss'.
Proof.
  intros [Hwf Hl Hh _] Ht Hd. pose proof (tabled_extended s c l s' Hwf Hh Hl Ht) as X. constructor.
  - apply X.
  - by apply (tabled_chain s).
  - intros x Hx. split; [by apply Hh|]. rewrite (tabled_avail _ _ _ _ Ht). by apply Hh.
  - done.
Qed.

Lemma directory_valid s c l sss : directory s c l sss -> Forall (valid b) l /\ NoDup l.
Proof. intros [_ Hl _ _]. split; [by eapply chain_valid|by eapply chain_NoDup]. Qed.

(** Reading gives the entries. *)
Lemma read_directory s c l sss : directory s c l sss ->
  wp s (read_dir_slots b c) (fun s' r => r = concat sss /\ tabled s s' (tbl s) /\ kept b [] s s')
    (fun s' _ => tabled s s' (tbl s) /\ kept b [] s s' /\ ~ live s).
Proof.
  intros [Hwf Hl Hh Hd]. eapply wp_mono; [apply (read_dir_slots_wp b Hv), Hwf|..].
  - cbv beta. intros s' r (Ht & K & Hr). split_and!; [|done|done]. rewrite (Hr l Hl). by apply (scan_dir _ _ Hd []).
  - cbv beta. intros s' e (Ht & K & [Hn|Hno]); [done|]. by destruct (Hno l).
Qed.

Definition inserted (g : DirEntrySlot) (ss ss' : list DirEntrySlot) : Prop :=
  exists ss1 ss2, ss = ss1 ++ ss2 /\ ss' = ss1 ++ g :: ss2.

(** A failure after a state that differs from [s] in clean sectors only. *)
Lemma place_failed_step s s1 c l g s' e : fs_wf s -> chain (tbl s) c l -> held s l -> tabled s s1 (tbl s) -> kept b [] s s1 ->
  place_failed b s1 c l g s' e -> place_failed b s c l g s' e.
Proof.
  intros Hwf Hl Hh Ht1 K1 ((new & X2) & (cs & K2 & Hcs) & Hlv). pose proof (tabled_extended s c l s1 Hwf Hh Hl Ht1) as X1.
  assert (forall new, extended s1 c l new s' -> extended s c l new s') as Htr.
  { intros new' X. apply (extended_trans s c _ [] s1 new'); [done|by rewrite app_nil_r]. }
  assert (forall z, avail s1 z <-> avail s z) as Hav by (intros z; by rewrite (tabled_avail _ _ _ _ Ht1)).
  split_and!.
  - exists new. auto.
  - exists cs. split; [by eapply kept_nil_trans|]. intros x Hx. rewrite <- Hav. auto.
  - intros Hl0. destruct (Hlv (ex_live _ _ _ _ _ X1 Hl0)) as (He & X2' & (t & Hlast & K' & Hor)).
    rewrite (avail_list_agree s s1) in He by auto. split_and!; [done|auto|].
    assert (valid b t) as Hct by (apply Hh, last_Some_elem_of, Hlast).
    exists t. rewrite <- (kept_nil_ents b Hv s s1) by done. split_and!; [done|by eapply kept_nil_trans|done].
Qed.

(** The directory grows by a cluster. *)
Lemma grow_wp s c l t sss g : directory s c (l ++ [t]) sss -> slot_ok g ->
  find_spot (ents s t) (length (slot_entries g)) 0 = None ->
  wp s (place_with_growth b t (ents s t) (slot_entries g))
    (fun s' _ => exists new, extended s c (l ++ [t]) [new] s' /\ kept b [t; new] s s'
       /\ directory s' c (l ++ [t; new]) (sss ++ [[g]]))
    (place_failed b s c (l ++ [t]) g).
Proof.
  intros Hdir Hg Hs. pose proof Hdir as [Hwf Hl Hh Hd]. destruct (directory_valid _ _ _ _ Hdir) as [Hval Hnd].
  rewrite map_app in Hd. pose proof Hd as Hd0. cbn [map] in Hd0.
  destruct (dir_split _ _ _ _ Hd0) as (sss1 & ss & sss2 & Esss & _ & Hlaid & _). cbn in Hlaid.
  eapply wp_mono; [eapply (place_with_growth_wp b Hv s c l t g); eauto| |done].
  cbv beta. intros s2 _ (new & X & K2 & Hcn & Hnew & E2 & E2' & Hle). exists new.
  pose proof (ex_op _ _ _ _ _ X) as O. split_and!; [done|done|].
  change [t; new] with ([t] ++ [new]). rewrite app_assoc.
  constructor; [apply O|apply X|intros x Hx; split; [by apply (fo_from _ _ _ _ O)|by apply (fo_held _ _ _ _ O)]|].
  rewrite !map_app. cbn [map]. rewrite E2, E2', <- app_assoc. cbn [app].
  replace (map (ents s2) l) with (map (ents s) l).
  { eapply dir_grow; [exact Hd| |by apply (new_rows b g)]. intros ss' Hss'.
    apply laid_unend; [by apply (ents_rows b Hv)|done]. }
  apply map_ext_in. intros x Hx%list_elem_of_In. rewrite Forall_forall in Hval. symmetry.
  apply (kept_ents b Hv [t; new] s s2); [done|apply Hval; set_solver| |].
  - constructor; [apply Hval; set_solver|by constructor].
  - apply NoDup_app in Hnd as (_ & Hdt & _). set_solver.
Qed.

Lemma insert_wp s c l sss g : directory s c l sss -> slot_ok g ->
  wp s (write_dir_entries b c (slot_entries g))
    (fun s' _ => exists new sss', extended s c l new s' /\ kept b (l ++ new) s s' /\ directory s' c (l ++ new) sss'
       /\ inserted g (concat sss) (concat sss'))
    (fun s' e => place_failed b s c l g s' e /\ (live s -> no_spot b (fat s).1 (length (slot_entries g)) l)).
Proof.
  intros Hdir Hg. pose proof Hdir as [Hwf Hl Hh Hd]. destruct (directory_valid _ _ _ _ Hdir) as [Hval Hnd].
  unfold write_dir_entries. rewrite bool_decide_eq_false_2.
  2: { pose proof (slot_entries_length g). by destruct (slot_entries g). }
  pose proof (chain_head _ _ _ Hl) as Hc. unfold is_cluster in Hc. cbn [clusters volume] in Hc.
  rewrite (proj2 (Z.ltb_ge _ _)) by lia. pose proof (chain_length _ _ _ Hl) as Hlen. cbn [clusters volume] in Hlen.
  destruct (bo_covers b (vo_bpb b Hv)) as [Ht0 _].
  apply (place_loop_wp b Hv _ _ _ _ s c 0 l); [apply Hwf|done|apply Hg|lia|lia|unfold dir_fuel; lia|..].
  - intros s' l1 c' l2 i -> Hs Ht K E. rewrite map_app in Hd. cbn [map] in Hd.
    destruct (dir_split _ _ _ _ Hd) as (sss1 & ss & sss2 & -> & _ & Hlaid & Hrep).
    destruct (find_spot_laid _ g _ _ _ Hg Hlaid _ _ Hs ltac:(done)) as (j & ss1 & ss2 & -> & Hj & -> & Hlj).
    rewrite Nat.add_0_l in E. exists [], (sss1 ++ (ss1 ++ g :: ss2) :: sss2). rewrite app_nil_r. split_and!.
    + by apply tabled_extended.
    + apply (kept_weaken b [c'] _ _ _ K). set_solver.
    + eapply directory_tabled; [exact Hdir|done|]. rewrite (ents_update s s' c' l1 l2 _ Hnd Hval K E). by apply Hrep.
    + exists (concat sss1 ++ ss1), (ss2 ++ concat sss2). rewrite !concat_app. cbn [concat]. by rewrite <- !app_assoc.
  - intros s1 l1 t -> Hs Ht1 K1. assert (valid b t) as Hct by (apply Hh; set_solver).
    assert (directory s1 c (l1 ++ [t]) sss) as Hdir1.
    { eapply directory_tabled; [exact Hdir|done|]. by rewrite (map_ents_kept b Hv s s1). }
    assert (find_spot (ents s1 t) (length (slot_entries g)) 0 = None) as Hst.
    { rewrite (kept_nil_ents b Hv s s1) by done. by apply Forall_app in Hs as [_ [? _]%Forall_cons]. }
    eapply wp_mono; [apply (grow_wp s1 c l1 t sss g Hdir1 Hg Hst)|..].
    + cbv beta. intros s2 _ (new & X2 & K2 & Hdir2). exists [new], (sss ++ [[g]]). rewrite <- app_assoc. cbn [app]. split_and!.
      * apply (extended_trans s c _ [] s1 [new]); [by apply tabled_extended|by rewrite app_nil_r].
      * apply (kept_weaken b [t; new]); [by eapply kept_nil_trans|set_solver].
      * done.
      * exists (concat sss), []. rewrite app_nil_r, concat_app. done.
    + cbv beta. intros s2 e Hp. split; [by eapply place_failed_step|done].
  - intros s' e c' Ht Hd' Hc' K. split; [|done]. apply (place_failed_tabled b Hv s c l g s' e [c']); try done.
    intros x ->%list_elem_of_singleton. split; [|by left]. rewrite Forall_forall in Hval. auto.
Qed.

(** A failed placement on a live device leaves the entries. *)
Lemma tail_only_directory s c l sss s' : directory s c l sss -> extended s c l [] s' -> tail_only b s l s' ->
  directory s' c l sss.
Proof.
  intros Hdir X (t & Hlast & K & Hor). pose proof Hdir as [Hwf Hl Hh Hd].
  destruct (directory_valid _ _ _ _ Hdir) as [Hval Hnd]. pose proof (ex_op _ _ _ _ _ X) as O.
  rewrite app_nil_r in O. constructor.
  - apply O.
  - pose proof (ex_chain _ _ _ _ _ X) as C. by rewrite app_nil_r in C.
  - intros x Hx. split; [by apply (fo_from _ _ _ _ O)|by apply (fo_held _ _ _ _ O)].
  - apply last_Some in Hlast as [l' ->]. rewrite map_app in Hd. cbn [map] in Hd.
    destruct (dir_split _ _ _ _ Hd) as (sss1 & ss & sss2 & -> & _ & Hlaid & Hrep). cbn in Hlaid, Hrep.
    rewrite (ents_update s s' t l' [] (ents s' t) Hnd Hval K eq_refl). apply Hrep.
    destruct Hor as [->| ->]; [done|]. apply laid_last, laid_unend; [by apply (ents_rows b Hv)|done].
Qed.

(** ** Removing and updating *)

Definition first_named (name : list Z) (ss : list DirEntrySlot) (ss1 : list DirEntrySlot) (g : DirEntrySlot) (ss2 : list DirEntrySlot) : Prop :=
  ss = ss1 ++ g :: ss2 /\ named name g = true /\ Forall (fun h => named name h = false) ss1.

Lemma seen_none_named s name l1 sss1 : Forall2 (laid false false) (map (ents s) l1) sss1 ->
  seen_none b (fat s).1 name l1 -> Forall (fun h => named name h = false) (concat sss1).
Proof.
  intros Hf Hs. revert sss1 Hf. induction Hs as [|c l1 Hc _ IH]; intros sss1 Hf; inversion Hf as [|? ss ? sss' Hl Hf']; subst; [constructor|].
  cbn [concat]. apply Forall_app. split; [|auto].
  pose proof (search_laid _ _ _ _ Hl [] name ltac:(done)) as Hi. by rewrite Hc in Hi.
Qed.

(** What a rewrite of the found entries must be: [es] in place of the group. *)
Definition replaces (g : DirEntrySlot) (mid : list (list Z)) (mss : list DirEntrySlot) : Prop :=
  Forall row mid /\ length mid = length (slot_entries g)
  /\ forall last tl tss, laid last false tl tss -> laid last false (mid ++ tl) (mss ++ tss).

Definition acts (act : list (list Z) -> nat -> nat -> res VfsError (list (list Z))) (f : DirEntrySlot -> list DirEntrySlot) : Prop :=
  forall pre g post, slot_ok g -> exists mid,
    act (pre ++ slot_entries g ++ post) (length pre) (length pre + length (vfat_entries g))%nat = Ok (pre ++ mid ++ post)
    /\ replaces g mid (f g).

Lemma find_wp s c l sss name act f : directory s c l sss -> acts act f ->
  wp s (find_loop b (dir_fuel b) c 0 name act)
    (fun s' _ => exists ss1 g ss2 sss', first_named name (concat sss) ss1 g ss2 /\ slot_ok g
       /\ tabled s s' (tbl s) /\ kept b l s s' /\ directory s' c l sss' /\ concat sss' = ss1 ++ f g ++ ss2)
    (fun s' e => tabled s s' (tbl s) /\
       (e = NotFound /\ kept b [] s s' /\ Forall (fun h => named name h = false) (concat sss) \/ ~ live s /\ kept b l s s')).
Proof.
  intros Hdir Hact. pose proof Hdir as [Hwf Hl Hh Hd]. destruct (directory_valid _ _ _ _ Hdir) as [Hval Hnd].
  pose proof (chain_length _ _ _ Hl) as Hlen. cbn [clusters volume] in Hlen.
  destruct (bo_covers b (vo_bpb b Hv)) as [Ht0 _].
  assert (forall l1 c' l2, l = l1 ++ c' :: l2 -> exists sss1 ss sss2 last, sss = sss1 ++ ss :: sss2
    /\ Forall2 (laid false false) (map (ents s) l1) sss1 /\ laid last false (ents s c') ss
    /\ (forall es' ss', laid last false es' ss' -> dir_laid (map (ents s) l1 ++ es' :: map (ents s) l2) (sss1 ++ ss' :: sss2))) as Hsplit.
  { intros l1 c' l2 ->. rewrite map_app in Hd. cbn [map] in Hd.
    destruct (dir_split _ _ _ _ Hd) as (sss1 & ss & sss2 & -> & Hf & Hlaid & Hrep). exists sss1, ss, sss2. eexists. by split_and!. }
  eapply wp_mono; [apply (find_loop_wp b Hv name act _ s c 0 l); [apply Hwf|done|lia|lia|unfold dir_fuel; lia|]|..].
  - apply Forall_forall. intros x Hx cs i Hs. apply list_elem_of_split in Hx as (l1 & l2 & ->).
    destruct (Hsplit l1 x l2 eq_refl) as (sss1 & ss & sss2 & last & _ & _ & Hlaid & _).
    pose proof (search_laid _ _ _ _ Hlaid [] name ltac:(done)) as Hi. rewrite Hs in Hi.
    destruct Hi as (pre & g & post & ss1 & ss2 & E & _ & -> & -> & Hg & _). destruct (ents_rows b Hv (fat s).1 x) as [Hr Hn].
    destruct (Hact pre g post Hg) as (mid & Em & Hmr & Hml & _). rewrite E in *. rewrite !length_app in Hn.
    eexists. split; [exact Em|]. rewrite !Forall_app in Hr |- *. rewrite !length_app. split; [tauto|lia].
  - cbv beta. intros s' _ (l1 & c' & l2 & cs & i & es & -> & Hnone & Hs & Ha & Ht & K & E).
    destruct (Hsplit l1 c' l2 eq_refl) as (sss1 & ss & sss2 & last & -> & Hf & Hlaid & Hrep).
    pose proof (search_laid _ _ _ _ Hlaid [] name ltac:(done)) as Hi. rewrite Hs in Hi.
    destruct Hi as (pre & g & post & ss1 & ss2 & E' & -> & -> & -> & Hg & Hn & Hn1 & Hl').
    destruct (Hact pre g post Hg) as (mid & Em & _ & _ & Hm). cbn [length Nat.add] in Ha. rewrite E', Em in Ha. injection Ha as <-.
    exists (concat sss1 ++ ss1), g, (ss2 ++ concat sss2), (sss1 ++ (ss1 ++ f g ++ ss2) :: sss2). split_and!.
    + split_and!; [|done|].
      * rewrite concat_app. cbn [concat]. by rewrite <- !app_assoc.
      * apply Forall_app. split; [by eapply seen_none_named|done].
    + done.
    + done.
    + apply (kept_weaken b [c'] _ _ _ K). set_solver.
    + eapply directory_tabled; [exact Hdir|done|]. rewrite (ents_update s s' c' l1 l2 _ Hnd Hval K E).
      apply Hrep, Hl'. intros tl tss. apply Hm.
    + rewrite concat_app. cbn [concat]. by rewrite <- !app_assoc.
  - cbv beta. intros s' e [Ht Hor]. split; [done|]. destruct Hor as [[-> [K Hab]]|[Hd' (c' & Hc' & K)]].
    + left. split; [done|]. split; [done|]. apply (dir_absent _ _ _ Hd).
      destruct Hab as [Hn|(l1 & c' & l2 & -> & Hn & He)]; [left; by apply Forall_map|right].
      rewrite map_app. cbn [map]. do 3 eexists. split; [reflexivity|]. split; [by apply Forall_map|done].
    + right. split; [done|]. apply (kept_weaken b [c'] _ _ _ K). set_solver.
Qed.

Lemma remove_acts : acts (fun es chain_start i =>
    Ok (take chain_start es ++ map mark_deleted (take (i + 1 - chain_start) (drop chain_start es)) ++ drop (i + 1) es))
  (fun _ => []).
Proof.
  intros pre g post Hg. exists (map mark_deleted (slot_entries g)). pose proof (slot_entries_length g) as Hl. split.
  - rewrite take_app_length, drop_app_length.
    replace (length pre + length (vfat_entries g) + 1 - length pre)%nat with (length (slot_entries g)) by lia.
    rewrite take_app_length. do 3 f_equal. rewrite app_assoc.
    replace (length pre + length (vfat_entries g) + 1)%nat with (length (pre ++ slot_entries g)) by (rewrite length_app; lia).
    apply drop_app_length.
  - split_and!.
    + apply Forall_map. eapply Forall_impl; [apply Hg|]. intros e [He Hb]. split; [unfold mark_deleted; by rewrite length_insert|].
      apply Forall_insert; [done|]. unfold byte_ok, DIR_DELETED. lia.
    + apply length_map.
    + intros last tl tss Hl'. by apply laid_removed.
Qed.

(** An entry with new fields and time stamps. *)
Definition restamped (now clus size : option Z) (e : list Z) : list Z :=
  match set_timestamps now (set_fields clus size e) with Ok r => r.1 | _ => e end.

Definition updated now clus size (g : DirEntrySlot) : DirEntrySlot :=
  {| vfat_entries := vfat_entries g; sfn_entry := restamped now clus size (sfn_entry g) |}.

Definition field_ok (o : option Z) : Prop := forall v, o = Some v -> 0 <= v < 2 ^ 32.

Lemma restamped_ok now clus size e : row e -> clock_ok now -> field_ok clus -> field_ok size ->
  set_timestamps now (set_fields clus size e) = Ok (restamped now clus size e, now)
  /\ row (restamped now clus size e) /\ take 13 (restamped now clus size e) = take 13 e
  /\ first_clus_from_entry (restamped now clus size e) = default (first_clus_from_entry e) clus
  /\ file_size_from_entry (restamped now clus size e) = default (file_size_from_entry e) size.
Proof.
  intros He Hn Hc Hs. destruct (set_fields_ok clus size e He Hc Hs) as (Hr & H13 & Hfc & Hfs).
  destruct (set_timestamps_ok now _ Hr Hn) as (e' & E & Hr' & H13' & Hfc' & Hfs'). unfold restamped. rewrite E. cbn [fst].
  split_and!; congruence.
Qed.

Lemma update_acts now clus size : clock_ok now -> field_ok clus -> field_ok size ->
  acts (fun es _ i => let? e := index es (Z.of_nat i) in
          let? e := (let entry := match clus with Some c => set_first_clus_in_entry e c | None => e end in
                     let entry := match size with Some s => set_file_size_in_entry entry s | None => entry end in
                     let? r := set_timestamps now entry in Ok r.1) in
          Ok (<[i := e]> es)) (fun g => [updated now clus size g]).
Proof.
  intros Hn Hc Hs pre g post Hg. set (e' := restamped now clus size (sfn_entry g)). exists (vfat_entries g ++ [e']).
  pose proof (so_rows _ Hg) as Hr. apply Forall_app in Hr as [Hr1 [Hr2 _]%Forall_cons].
  destruct (restamped_ok now clus size _ Hr2 Hn Hc Hs) as (E & Hre & H13 & _). fold e' in E, Hre, H13. split.
  - unfold slot_entries. rewrite <- !app_assoc. cbn [app]. rewrite app_assoc.
    replace (length pre + length (vfat_entries g))%nat with (length (pre ++ vfat_entries g)) by (by rewrite length_app).
    unfold index. rewrite Nat2Z.id, list_lookup_middle, (proj2 (Z.leb_le _ _)) by (done || lia). cbn [res_bind].
    change (match size with Some s => set_file_size_in_entry _ s | None => _ end) with (set_fields clus size (sfn_entry g)).
    rewrite E. cbn [res_bind fst]. rewrite insert_app_r_alt, Nat.sub_diag by done. cbn [insert list_insert].
    by rewrite <- app_assoc.
  - split_and!.
    + apply Forall_app. split; [done|by constructor].
    + unfold slot_entries. by rewrite !length_app.
    + intros last tl tss Hl'. apply (laid_slot last (updated now clus size g)); [|done]. apply slot_ok_update; [done|done|].
      pose proof (f_equal (take 12) H13) as H12. by rewrite !take_take in H12.
Qed.

(** ** Sequences of operations *)

Inductive dir_req := Insert (g : DirEntrySlot) | Remove (name : list Z) | Update (name : list Z) (clus size : option Z).

Definition exec (now : option Z) (c : Z) (r : dir_req) : cmd (Fs (D * FatCache)) unit :=
  match r with
  | Insert g => write_dir_entries b c (slot_entries g)
  | Remove name => remove_dir_entries b c name
  | Update name clus size => update_entry_cluster_and_size b now c name clus size
  end.

Definition req_ok (r : dir_req) : Prop :=
  match r with
  | Insert g => slot_ok g
  | Remove _ => True
  | Update _ clus size => field_ok clus /\ field_ok size
  end.

(** Where the group [g] could go: free entries in a row in a cluster of the directory,
    or a free cluster of the volume. *)
Definition room s (c : Z) (g : DirEntrySlot) : Prop :=
  (exists l x, chain (tbl s) c l /\ x ∈ l /\ gap (ents s x) (length (slot_entries g))) \/ exists x, avail s x.

(** What a directory promises: a list of entries, in which a group that fits a cluster
    and for which there is [rm] is placed. *)
Inductive dir_step (now : option Z) (rm : DirEntrySlot -> Prop) :
    list DirEntrySlot -> dir_req -> res VfsError unit -> list DirEntrySlot -> Prop :=
  | step_insert ss1 ss2 g : dir_step now rm (ss1 ++ ss2) (Insert g) (Ok tt) (ss1 ++ g :: ss2)
  | step_full ss g : ~ rm g -> dir_step now rm ss (Insert g) (Err NoSpace) ss
  | step_large ss g : (entries_per_clus b < length (slot_entries g))%nat -> dir_step now rm ss (Insert g) (Err InvalidInput) ss
  | step_remove ss ss1 g ss2 name : first_named name ss ss1 g ss2 -> dir_step now rm ss (Remove name) (Ok tt) (ss1 ++ ss2)
  | step_update ss ss1 g ss2 name clus size : first_named name ss ss1 g ss2 ->
      dir_step now rm ss (Update name clus size) (Ok tt) (ss1 ++ updated now clus size g :: ss2)
  | step_missing ss name r : (r = Remove name \/ exists clus size, r = Update name clus size) ->
      Forall (fun h => named name h = false) ss -> dir_step now rm ss r (Err NotFound) ss.

Fixpoint exec_all (now : option Z) (c : Z) (rs : list dir_req) (s : Fs (D * FatCache)) : Fs (D * FatCache) * list (res VfsError unit) :=
  match rs with
  | [] => (s, [])
  | r :: rs => let '(s, o) := exec now c r s in let '(s, os) := exec_all now c rs s in (s, o :: os)
  end.

(** The operations one after another, each with the room there is when it runs. *)
Inductive dir_steps (now : option Z) (c : Z) :
    Fs (D * FatCache) -> list DirEntrySlot -> list dir_req -> list (res VfsError unit) -> list DirEntrySlot -> Prop :=
  | steps_nil s ss : dir_steps now c s ss [] [] ss
  | steps_cons s ss ss1 ss2 r rs o os : dir_step now (room s c) ss r o ss1 ->
      dir_steps now c (exec now c r s).1 ss1 rs os ss2 -> dir_steps now c s ss (r :: rs) (o :: os) ss2.

(** The directory among the files [F] of the volume. *)
Record dir_state s (c : Z) (l : list Z) (sss : list (list DirEntrySlot)) (F : list (list Z)) : Prop := {
  ds_live : live s;
  ds_dir : directory s c l sss;
  ds_files : files_ok s (l :: F)
}.

(** The bytes of the files [F] are as they were. *)
Definition same_data (F : list (list Z)) s s' : Prop :=
  forall x k, x ∈ concat F -> in_cluster b x k -> sector (fat s').1 k = sector (fat s).1 k.

Lemma kept_same_data s c l sss F cs s' : dir_state s c l sss F -> kept b cs s s' ->
  (forall x, x ∈ cs -> valid b x /\ (x ∈ l \/ avail s x)) -> same_data F s s'.
Proof.
  intros [_ _ FK] K Hcs x k Hx Hk. pose proof (fl_nodup _ _ FK) as Hnd. simpl in Hnd. apply NoDup_app in Hnd as (_ & Hdis & _).
  destruct (fl_held _ _ FK x) as [Hxc Hxa]; [simpl; set_solver|]. apply K.
  - destruct (cluster_bounds b Hv x Hxc) as (_ & Hlo & _). unfold in_cluster in Hk. lia.
  - intros y Hy Hk'. destruct (Hcs y Hy) as [Hyc Hor]. assert (x = y) as -> by (by eapply (in_cluster_inj b Hv)).
    destruct Hor as [Hl|Ha]; [by apply (Hdis y)|done].
Qed.

Lemma dir_state_tabled s c l sss F s' sss' : dir_state s c l sss F -> tabled s s' (tbl s) -> directory s' c l sss' ->
  dir_state s' c l sss' F.
Proof.
  intros [Hlv Hdir FK] Ht Hd. constructor; [by apply (tabled_live _ _ _ Ht)|done|by eapply files_tabled].
Qed.

Lemma dir_state_extended s c l sss F s' new sss' : dir_state s c l sss F -> extended s c l new s' ->
  directory s' c (l ++ new) sss' -> dir_state s' c (l ++ new) sss' F.
Proof.
  intros [Hlv Hdir FK] X Hd. constructor; [by apply X|done|]. eapply files_replace; [exact FK|apply X|apply X].
Qed.

Definition refines_step now c r s F sss s' o : Prop :=
  exists l' sss', dir_state s' c l' sss' F /\ same_data F s s' /\ dir_step now (room s c) (concat sss) r o (concat sss').

Lemma wp_exec {A} s (m : cmd (Fs (D * FatCache)) A) (R : Fs (D * FatCache) -> res VfsError A -> Prop) :
  wp s m (fun s' a => R s' (Ok a)) (fun s' e => R s' (Err e)) -> R (m s).1 (m s).2.
Proof. unfold wp. by destruct (m s) as [s' [a|e|]]. Qed.

Lemma no_room s c l g : chain (tbl s) c l -> no_spot b (fat s).1 (length (slot_entries g)) l -> avail_list s = [] -> ~ room s c g.
Proof.
  intros Hl Hs Hav [(l' & x & Hl' & Hx & Hg)|[x Ha]].
  - rewrite (chain_det _ _ _ Hl' _ Hl) in Hx. unfold no_spot in Hs. rewrite Forall_forall in Hs.
    pose proof (slot_entries_length g) as Hlen. assert (0 < length (slot_entries g))%nat as Hpos by lia.
    destruct (gap_found _ _ Hpos Hg 0%nat). auto.
  - assert (x ∈ avail_list s) as Hx; [|rewrite Hav in Hx; by apply not_elem_of_nil in Hx].
    unfold avail_list. rewrite list_elem_of_filter, elem_of_seqZ. split; [done|]. destruct Ha as [Hx _]. unfold is_cluster in Hx. lia.
Qed.

Lemma insert_step now c g s l sss F : dir_state s c l sss F -> slot_ok g ->
  wp s (exec now c (Insert g)) (fun s' a => refines_step now c (Insert g) s F sss s' (Ok a))
    (fun s' e => refines_step now c (Insert g) s F sss s' (Err e)).
Proof.
  intros Hds Hg. pose proof Hds as [Hlv Hdir FK]. destruct (directory_valid _ _ _ _ Hdir) as [Hval _].
  eapply wp_mono; [by apply insert_wp|..].
  - cbv beta. intros s' [] (new & sss' & X & K & Hd & (ss1 & ss2 & E1 & E2)). exists (l ++ new), sss'. split_and!.
    + by eapply dir_state_extended.
    + eapply kept_same_data; [done|done|]. intros x Hx. by apply (fo_from _ _ _ _ (ex_op _ _ _ _ _ X)).
    + rewrite E1, E2. constructor.
  - cbv beta. intros s' e [(_ & (cs & K & Hcs) & He) Hns]. destruct (He Hlv) as (Hor & X & T). exists l, sss.
    pose proof (dir_state_extended s c l sss F s' [] sss Hds X) as Hds'. rewrite app_nil_r in Hds'. split_and!.
    + apply Hds'. by eapply tail_only_directory.
    + by eapply kept_same_data.
    + destruct Hor as [[-> Hav]|[-> Hbig]]; [|by constructor]. constructor.
      eapply no_room; [apply Hdir|by apply Hns|done].
Qed.

Lemma find_step now c s l sss F name r act f : dir_state s c l sss F -> acts act f ->
  exec now c r = find_loop b (dir_fuel b) c 0 name act ->
  (forall ss1 g ss2, first_named name (concat sss) ss1 g ss2 -> dir_step now (room s c) (concat sss) r (Ok tt) (ss1 ++ f g ++ ss2)) ->
  (r = Remove name \/ exists clus size, r = Update name clus size) ->
  wp s (exec now c r) (fun s' a => refines_step now c r s F sss s' (Ok a)) (fun s' e => refines_step now c r s F sss s' (Err e)).
Proof.
  intros Hds Hact -> Hok Hr. pose proof Hds as [Hlv Hdir FK]. destruct (directory_valid _ _ _ _ Hdir) as [Hval _].
  rewrite Forall_forall in Hval. eapply wp_mono; [by eapply find_wp|..].
  - cbv beta. intros s' [] (ss1 & g & ss2 & sss' & Hn & _ & Ht & K & Hd & E). exists l, sss'.
    split_and!; [by eapply dir_state_tabled| |rewrite E; by apply Hok].
    eapply kept_same_data; [done|done|]. intros x Hx. split; [auto|by left].
  - cbv beta. intros s' e [Ht [(-> & K & Hn)|[Hd _]]]; [|done]. exists l, sss. split_and!.
    + eapply dir_state_tabled; [done|done|]. eapply directory_tabled; [done|done|].
      rewrite (map_ents_kept b Hv s s') by (done || by apply Forall_forall). apply Hdir.
    + eapply kept_same_data; [done|done|set_solver].
    + by eapply step_missing.
Qed.

Lemma exec_step now c r s l sss F : dir_state s c l sss F -> clock_ok now -> req_ok r ->
  refines_step now c r s F sss (exec now c r s).1 (exec now c r s).2.
Proof.
  intros Hds Hn Hr. apply (wp_exec s (exec now c r) (refines_step now c r s F sss)). destruct r as [g|name|name clus size].
  - by eapply insert_step.
  - eapply find_step; [done|apply remove_acts|done| |by left]. intros ss1 g ss2 Hf. by eapply step_remove.
  - destruct Hr as [Hc Hs]. eapply find_step; [done|by apply (update_acts now clus size)|done| |right; eauto].
    intros ss1 g ss2 Hf. by eapply step_update.
Qed.

(** C8: A directory on the volume implements a list of entries.  The directory is one
    whose clusters hold whole groups (the long-name slots of an entry and its short
    entry together in one cluster, no orphaned slots), as the operations themselves lay
    it out, and the device serves its requests.  Over every sequence of placements,
    removals and updates each operation does to the list what it should: a placement
    adds its group at one place, a removal or an update acts on the first entry of its
    name, compared without case.  A placement reports NoSpace only when no cluster of
    the directory has enough free entries in a row and no cluster of the volume is
    free, InvalidInput only for a group larger than a cluster, and a removal or an
    update NotFound only when no entry has the name; they then change nothing.  Nothing
    panics; in the end reading the directory gives the list; the clusters of every other
    file are still its own and hold the same bytes. *)
Theorem directory_refines_list now c rs s l sss F : dir_state s c l sss F -> clock_ok now -> Forall req_ok rs ->
  let '(s', os) := exec_all now c rs s in
  exists l' ss', dir_steps now c s (concat sss) rs os ss' /\ files_ok s' (l' :: F) /\ chain (tbl s') c l' /\ same_data F s s'
    /\ (read_dir_slots b c s').2 = Ok ss'.
Proof.
  intros Hds Hn Hr. revert s l sss Hds. induction Hr as [|r rs Hr _ IH]; intros s l sss Hds; cbn [exec_all].
  - pose proof Hds as [Hlv Hdir FK]. exists l, (concat sss). split_and!; [constructor|done|apply Hdir|done|].
    pose proof (read_directory s c l sss Hdir) as Hw. unfold wp in Hw.
    destruct (read_dir_slots b c s) as [s' [r|e|]]; [|by destruct Hw as (_ & _ & ?)|done]. by destruct Hw as [-> _].
  - pose proof (exec_step now c r s l sss F Hds Hn Hr) as (l1 & sss1 & Hds1 & Hs1 & Hst).
    destruct (exec now c r s) as [s1 o] eqn:Ex. cbn [fst snd] in *. specialize (IH s1 l1 sss1 Hds1).
    destruct (exec_all now c rs s1) as [s2 os]. destruct IH as (l' & ss' & Hsts & FK & Hl' & Hs2 & Hread).
    exists l', ss'. split_and!; [econstructor; [done|by rewrite Ex]|done|done| |done].
    intros x k Hx Hk. by rewrite (Hs2 x k), (Hs1 x k).
Qed.
End Ops.

(** ** On the sample volume *)

Section DirSample.
Import AllocVolume.
#[local] Hint Extern 0 (FatOps (MemDisk * FatCache)) => exact (volume (H := true) geometry) : typeclass_instances.
#[local] Hint Extern 0 (FatView (MemDisk * FatCache)) => exact (cached_view geometry) : typeclass_instances.

#[local] Instance row_dec e : Decision (row e).
Proof. unfold row. apply _. Defined.

(** "a long name.txt" with its short entry, and "x". *)
Definition long_name : list Z := [97; 32; 108; 111; 110; 103; 32; 110; 97; 109; 101; 46; 116; 120; 116].
Definition long_slot : DirEntrySlot :=
  let sfn := default [] (sfn_from_name long_name []) in
  {| vfat_entries := encode_vfat_entries long_name (vfat_checksum sfn);
     sfn_entry := sfn ++ [ATTR_ARCHIVE] ++ replicate 20 0 |}.
Definition short_slot : DirEntrySlot :=
  {| vfat_entries := []; sfn_entry := make_sfn_bytes [120] [] ++ [ATTR_ARCHIVE; nt_case_flags [120]] ++ replicate 19 0 |}.

Lemma sample_slots_ok : slot_ok long_slot /\ slot_ok short_slot.
Proof.
  split; (constructor; [apply (bool_decide_eq_true_1 _); vm_compute; reflexivity
    |apply (bool_decide_eq_true_1 _); vm_compute; reflexivity|reflexivity|reflexivity|vm_compute; congruence]).
Qed.

(** The empty directory of cluster 4, beside the file of cluster 2. *)
Lemma super_directory : dir_state (H := true) geometry super 4 [4] [[]] [[2; 3]].
Proof.
  constructor; [exact (proj2 super_ok)| |].
  - constructor; [exact super_wf|exact (proj2 super_chains)|apply super_held; by right|].
    apply dl_last, laid_ends; [done|]. apply (bool_decide_eq_true_1 _). vm_compute. reflexivity.
  - constructor.
    + exact super_wf.
    + intros l [->|[->|Hl]%elem_of_cons]%elem_of_cons; [exists 4; apply super_chains|exists 2; apply super_chains|].
      by apply elem_of_nil in Hl.
    + apply (bool_decide_eq_true_1 _). vm_compute. reflexivity.
    + intros x Hx. simpl in Hx. destruct (decide (x = 4)) as [->|]; [apply (super_held [4]); [by right|set_solver]|].
      apply (super_held [2; 3]); [by left|set_solver].
Qed.

Lemma directory_refines_list_witness :
  let '(s', os) := exec_all (H := true) geometry None 4 [Insert long_slot; Insert short_slot; Remove long_name; Remove long_name] super in
  exists l' ss', dir_steps (H := true) geometry None 4 super [] [Insert long_slot; Insert short_slot; Remove long_name; Remove long_name] os ss'
    /\ heads (H := true) geometry s' 4 l' /\ (read_dir_slots (H := true) geometry 4 s').2 = Ok ss'.
Proof.
  pose proof (directory_refines_list (H := true) geometry alloc_geometry_ok None 4
    [Insert long_slot; Insert short_slot; Remove long_name; Remove long_name] super [4] [[]] [[2; 3]] super_directory I) as W.
  destruct (exec_all geometry None 4 _ super) as [s' os].
  destruct W as (l' & ss' & Hst & _ & Hl & _ & Hr).
  { destruct sample_slots_ok as [Hls Hss]. exact (Forall_cons_2 _ (Insert _) _ Hls (Forall_cons_2 _ (Insert _) _ Hss
      (Forall_cons_2 _ (Remove _) _ I (Forall_cons_2 _ (Remove _) _ I (Forall_nil_2 _))))). }
  exists l', ss'. split; [exact Hst|]. split; [exact Hl|exact Hr].
Defined.
End DirSample.
