(* ===== verification/FatNode.v ===== *)
(** * FAT32 inodes

    Model of the inode operations of
    kernel/src/filesystems/fstypes/fat32/inode.rs and of the inode numbers and
    the handle registry of mount.rs.  [nodes] holds the inodes that are alive
    (some [Arc] points to them), by an address that is never used again; a weak
    reference is an address, and upgrades while the inode is alive.  Dropping
    the last reference is [drop_inode].  The operations run one at a time: the
    locks order them.  Each takes the wall clock it reads. *)

From S2P Require Import Prelude Bits Errors BlockDev Calendar Fat32 FatAlloc FatDirent FatFile FatDir.
Import Errors.Vfs.
Local Open Scope Z_scope.

Notation Key := (Z * list Z)%type (only parsing).

Record Vol (D : Type) := mkVol {
  fs : Fs (D * FatCache);
  next_ino : Z;
  ino_map : gmap Key Z;
  handle_registry : gmap Key (list Z);
  nodes : gmap Z Fat32Inode;
  next_node : Z
}.
Arguments mkVol {D} _ _ _ _ _ _.
Arguments fs {D} _.
Arguments next_ino {D} _.
Arguments ino_map {D} _.
Arguments handle_registry {D} _.
Arguments nodes {D} _.
Arguments next_node {D} _.

Definition DOT : list Z := [46].
Definition DOTDOT : list Z := [46; 46].

Section Setters.
Context {D : Type}.
Implicit Types v : Vol D.
Definition set_fs v x : Vol D := mkVol x (next_ino v) (ino_map v) (handle_registry v) (nodes v) (next_node v).
Definition set_ino_map v n x : Vol D := mkVol (fs v) n x (handle_registry v) (nodes v) (next_node v).
Definition set_registry v x : Vol D := mkVol (fs v) (next_ino v) (ino_map v) x (nodes v) (next_node v).
Definition set_nodes v x : Vol D := mkVol (fs v) (next_ino v) (ino_map v) (handle_registry v) x (next_node v).
Definition set_next_node v x : Vol D := mkVol (fs v) (next_ino v) (ino_map v) (handle_registry v) (nodes v) x.
End Setters.

Definition set_first_clus (n : Fat32Inode) x := mkInode x (file_size n) (file_type n) (ino n) (mtime n) (parent_clus n) (entry_name n) (unlinked n) (dir_cache n) (dir_generation n).
Definition set_size (n : Fat32Inode) x := mkInode (first_clus n) x (file_type n) (ino n) (mtime n) (parent_clus n) (entry_name n) (unlinked n) (dir_cache n) (dir_generation n).
Definition set_mtime (n : Fat32Inode) x := mkInode (first_clus n) (file_size n) (file_type n) (ino n) x (parent_clus n) (entry_name n) (unlinked n) (dir_cache n) (dir_generation n).
Definition set_unlinked (n : Fat32Inode) x := mkInode (first_clus n) (file_size n) (file_type n) (ino n) (mtime n) (parent_clus n) (entry_name n) x (dir_cache n) (dir_generation n).
Definition set_dir_cache (n : Fat32Inode) x := mkInode (first_clus n) (file_size n) (file_type n) (ino n) (mtime n) (parent_clus n) (entry_name n) (unlinked n) x (dir_generation n).
Definition set_dir_generation (n : Fat32Inode) x := mkInode (first_clus n) (file_size n) (file_type n) (ino n) (mtime n) (parent_clus n) (entry_name n) (unlinked n) (dir_cache n) x.

(** ** Inode numbers and handles *)

Section Registry.
Context {D : Type}.

Definition ino_for (parent : Z) (name : list Z) (v : Vol D) : Vol D * Z :=
  let canon := map to_lower name in
  match ino_map v !! (parent, canon) with
  | Some i => (v, i)
  | None => (set_ino_map v ((next_ino v + 1) mod 2 ^ 64) (<[(parent, canon) := next_ino v]> (ino_map v)), next_ino v)
  end.

Definition registry_key (parent : Z) (name : list Z) : Key := (parent, map to_lower name).

(** [w.upgrade().is_some()] *)
Definition alive (v : Vol D) (w : Z) : bool := bool_decide (is_Some (nodes v !! w)).

Definition register_handle (parent : Z) (name : list Z) (node : Z) (v : Vol D) : Vol D :=
  let key := registry_key parent name in
  let vec := List.filter (alive v) (default [] (handle_registry v !! key)) in
  set_registry v (<[key := vec ++ [node]]> (handle_registry v)).

Fixpoint mark_loop (ws : list Z) (v : Vol D) (live : Z) : Vol D * Z :=
  match ws with
  | [] => (v, live)
  | w :: ws =>
      match nodes v !! w with
      | Some n => mark_loop ws (set_nodes v (<[w := set_unlinked n true]> (nodes v))) (live + 1)
      | None => mark_loop ws v live
      end
  end.

Definition mark_handles_unlinked (parent : Z) (name : list Z) (v : Vol D) : Vol D * Z :=
  let key := registry_key parent name in
  match handle_registry v !! key with
  | Some vec => mark_loop vec (set_registry v (delete key (handle_registry v))) 0
  | None => (v, 0)
  end.

Definition move_handles (old_parent : Z) (old_name : list Z) (new_parent : Z) (new_name : list Z) (v : Vol D) : Vol D :=
  let from := registry_key old_parent old_name in
  let to := registry_key new_parent new_name in
  let moved := default [] (handle_registry v !! from) in
  let reg := delete from (handle_registry v) in
  let vec := List.filter (alive v) (default [] (reg !! to)) in
  set_registry v (<[to := vec ++ List.filter (alive v) moved]> reg).
End Registry.

(** ** Inodes *)

Section Inode.
Context `{Profile} `{BatchWriteDevice D} (b : Bpb).
Notation cmdv := (cmd (Vol D)).

#[local] Instance node_volume : FatOps (D * FatCache) := volume b.

Definition on_fs {A} (m : cmd (Fs (D * FatCache)) A) : cmdv A := fun v =>
  let '(s, r) := m (fs v) in (set_fs v s, r).

Definition upd_fs (f : Fs (D * FatCache) -> Fs (D * FatCache)) : cmdv unit := fun v => (set_fs v (f (fs v)), Ok tt).

Definition upd_vol (f : Vol D -> Vol D) : cmdv unit := fun v => (f v, Ok tt).

Definition ask {A} (f : Vol D -> Vol D * A) : cmdv A := fun v => let '(v, a) := f v in (v, Ok a).

(** The inode at an address the caller holds a reference to. *)
Definition node (self : Z) : cmdv Fat32Inode := fun v =>
  (v, match nodes v !! self with Some n => Ok n | None => Panic end).

Definition upd_node (self : Z) (f : Fat32Inode -> Fat32Inode) : cmdv unit :=
  upd_vol (fun v => set_nodes v (alter f self (nodes v))).

(** [Arc::new(Fat32Inode { ... })] *)
Definition new_node (n : Fat32Inode) : cmdv Z := ask (fun v =>
  (set_next_node (set_nodes v (<[next_node v := n]> (nodes v))) (next_node v + 1), next_node v)).

Definition flush_fat_cache : cmdv unit := on_fs (lift flush).

Definition valid_clus (c : Z) : bool := (2 <=? c) && (c <? EOC_MARKER).

(** [Drop for Fat32Inode]; the result of [free_chain] is ignored. *)
Definition drop_inode (self : Z) : cmdv unit :=
  do! n := node self in
  do! _ := upd_vol (fun v => set_nodes v (delete self (nodes v))) in
  if negb (unlinked n) then cmd_ret tt
  else
    let first := first_clus n in
    if valid_clus first then
      do! _ := upd_fs (invalidate_chain first) in
      on_fs (ignore (free_chain first))
    else cmd_ret tt.

Definition sync_clus_and_size (now : option Z) (self : Z) : cmdv unit :=
  do! n := node self in
  if unlinked n then cmd_ret tt
  else on_fs (update_entry_cluster_and_size b now (parent_clus n) (entry_name n) (Some (first_clus n)) (Some (file_size n))).

Definition update_dirent_meta (now : option Z) (self : Z) (clus size : option Z) : cmdv unit :=
  do! n := node self in
  if unlinked n then cmd_ret tt
  else on_fs (update_entry_cluster_and_size b now (parent_clus n) (entry_name n) clus size).

Definition invalidate_dir_cache (self : Z) : cmdv unit :=
  upd_node self (fun n => set_dir_generation n ((dir_generation n + 1) mod 2 ^ 64)).

Definition get_dir_slots (self : Z) : cmdv (list DirEntrySlot) :=
  do! n := node self in
  let cached :=
    match dir_cache n with
    | Some (g, slots) => if g =? dir_generation n then Some slots else None
    | None => None
    end in
  match cached with
  | Some slots => cmd_ret slots
  | None =>
      do! slots := on_fs (read_dir_slots b (first_clus n)) in
      do! _ := upd_node self (fun m => set_dir_cache m (Some (dir_generation n, slots))) in
      cmd_ret slots
  end.

Definition require_dir (self : Z) : cmdv Fat32Inode :=
  do! n := node self in
  if negb (bool_decide (file_type n = Directory)) then cmd_res (Err NotADirectory) else cmd_ret n.

Definition slot_named (name : list Z) (s : DirEntrySlot) : bool := eq_ignore_ascii_case (decode_entry_name s) name.

Definition find_slot (name : list Z) (slots : list DirEntrySlot) : option DirEntrySlot :=
  List.find (slot_named name) slots.

Definition is_dir_entry (e : list Z) : bool := negb (Z.land (at_ e 11) ATTR_DIRECTORY =? 0).

Definition slot_type (s : DirEntrySlot) : FileType := if is_dir_entry (sfn_entry s) then Directory else Regular.

(** *** Reading a directory *)

Definition lookup (self : Z) (name : list Z) : cmdv Z :=
  do! n := require_dir self in
  let dotdot := bool_decide (name = DOTDOT) in
  do! slots := (if dotdot then on_fs (read_dir_slots b (first_clus n)) else get_dir_slots self) in
  match find_slot name slots with
  | None => cmd_res (Err NotFound)
  | Some slot =>
      let e := sfn_entry slot in
      let fc := first_clus_from_entry e in
      let actual_clus := if dotdot && (fc =? 0) then root_clus b else fc in
      do! i := ask (ino_for (first_clus n) name) in
      do! t := cmd_res (mtime_from_entry e) in
      do! id := new_node (mkInode actual_clus (file_size_from_entry e) (slot_type slot) i t (first_clus n) name false None 0) in
      do! _ := (if dotdot then cmd_ret tt else upd_vol (register_handle (first_clus n) name id)) in
      cmd_ret id
  end.

Fixpoint readdir_loop (dir_clus : Z) (slots : list DirEntrySlot) (acc : list (Z * list Z * FileType))
  : cmdv (list (Z * list Z * FileType)) :=
  match slots with
  | [] => cmd_ret acc
  | slot :: slots =>
      let name := decode_entry_name slot in
      if bool_decide (name = [] \/ name = DOT \/ name = DOTDOT) then readdir_loop dir_clus slots acc
      else
        do! i := ask (ino_for dir_clus name) in
        readdir_loop dir_clus slots (acc ++ [(i, name, slot_type slot)])
  end.

Definition readdir (self : Z) : cmdv (list (Z * list Z * FileType)) :=
  do! n := require_dir self in
  do! slots := get_dir_slots self in
  readdir_loop (first_clus n) slots [].

(** *** New entries *)

Definition sfn_of (s : DirEntrySlot) : list Z := take MAX_SFN_LEN (sfn_entry s).

(** The group for [name] with a fresh short entry, and the time stamped. *)
Definition build_group (now : option Z) (name sfn : list Z) (attr nt clus size : Z) : res VfsError (list (list Z) * option Z) :=
  let sfn_entry := sfn ++ [attr; nt] ++ replicate 19 0 in
  let sfn_entry := set_file_size_in_entry (set_first_clus_in_entry sfn_entry clus) size in
  let? r := set_timestamps now sfn_entry in
  let lfns := if needs_vfat name then encode_vfat_entries name (vfat_checksum sfn) else [] in
  Ok (lfns ++ [r.1], r.2).

Definition display_flags (name : list Z) : Z := if needs_vfat name then 0 else nt_case_flags name.

Definition create (now : option Z) (self : Z) (name : list Z) : cmdv Z :=
  do! n := require_dir self in
  do! slots := get_dir_slots self in
  if existsb (slot_named name) slots then cmd_res (Err AlreadyExists)
  else if MAX_LFN_ENTRIES <? lfn_slot_count name then cmd_res (Err InvalidInput)
  else
    do! sfn := cmd_res (ok_or (sfn_from_name name (map sfn_of slots)) InvalidInput) in
    do! g := cmd_res (build_group now name sfn ATTR_ARCHIVE (display_flags name) 0 0) in
    let parent := first_clus n in
    do! _ := on_fs (write_dir_entries b parent g.1) in
    do! _ := invalidate_dir_cache self in
    do! i := ask (ino_for parent name) in
    do! id := new_node (mkInode 0 0 Regular i (default 0 g.2) parent name false None 0) in
    do! _ := upd_vol (register_handle parent name id) in
    cmd_ret id.

(** The entries of [.] and [..]. *)
Definition dot_entry (now : option Z) (name : list Z) (clus : Z) : res VfsError (list Z) :=
  match sfn_from_name name [] with
  | None => Panic
  | Some sfn =>
      let? r := set_timestamps now (set_first_clus_in_entry (sfn ++ [ATTR_DIRECTORY] ++ replicate 20 0) clus) in
      Ok r.1
  end.

Definition mkdir (now : option Z) (self : Z) (name : list Z) : cmdv Z :=
  do! n := require_dir self in
  do! slots := get_dir_slots self in
  if existsb (slot_named name) slots then cmd_res (Err AlreadyExists)
  else if MAX_LFN_ENTRIES <? lfn_slot_count name then cmd_res (Err InvalidInput)
  else
    let parent := first_clus n in
    do! new_clus := on_fs alloc_cluster in
    do! _ := on_fs (lift (zero_cluster new_clus)) in
    do! dot := cmd_res (dot_entry now DOT new_clus) in
    do! dotdot := cmd_res (dot_entry now DOTDOT parent) in
    do! _ := on_fs (write_entries b new_clus
               (overwrite (replicate (entries_per_clus b) blank_entry) 0 [dot; dotdot])) in
    do! sfn := cmd_res (ok_or (sfn_from_name name (map sfn_of slots)) InvalidInput) in
    do! g := cmd_res (build_group now name sfn ATTR_DIRECTORY 0 new_clus 0) in
    do! _ := on_fs (write_dir_entries b parent g.1) in
    do! _ := invalidate_dir_cache self in
    do! i := ask (ino_for parent name) in
    do! id := new_node (mkInode new_clus 0 Directory i (default 0 g.2) parent name false None 0) in
    do! _ := upd_vol (register_handle parent name id) in
    cmd_ret id.

(** *** Removing entries *)

(** Free the chain of a removed entry unless live handles will. *)
Definition release_chain (parent : Z) (name : list Z) (clus : Z) : cmdv unit :=
  do! live := ask (mark_handles_unlinked parent name) in
  if (live =? 0) && valid_clus clus then
    do! _ := upd_fs (invalidate_chain clus) in
    do! _ := on_fs (free_chain clus) in
    flush_fat_cache
  else cmd_ret tt.

Definition is_dot (name : list Z) : bool := bool_decide (name = DOT \/ name = DOTDOT).

Definition unlink (self : Z) (name : list Z) : cmdv unit :=
  do! n := require_dir self in
  if is_dot name then cmd_res (Err InvalidInput)
  else
    do! slots := get_dir_slots self in
    match find_slot name slots with
    | None => cmd_res (Err NotFound)
    | Some slot =>
        if is_dir_entry (sfn_entry slot) then cmd_res (Err IsADirectory)
        else
          let parent := first_clus n in
          do! _ := on_fs (remove_dir_entries b parent name) in
          do! _ := flush_fat_cache in
          do! _ := invalidate_dir_cache self in
          release_chain parent name (first_clus_from_entry (sfn_entry slot))
    end.

Definition rmdir (self : Z) (name : list Z) : cmdv unit :=
  do! n := require_dir self in
  if is_dot name then cmd_res (Err InvalidInput)
  else
    do! slots := get_dir_slots self in
    match find_slot name slots with
    | None => cmd_res (Err NotFound)
    | Some slot =>
        if negb (is_dir_entry (sfn_entry slot)) then cmd_res (Err NotADirectory)
        else
          let target_clus := first_clus_from_entry (sfn_entry slot) in
          do! child_slots := on_fs (read_dir_slots b target_clus) in
          if (2 <? length child_slots)%nat then cmd_res (Err NotEmpty)
          else
            let parent := first_clus n in
            do! _ := on_fs (remove_dir_entries b parent name) in
            do! _ := flush_fat_cache in
            do! _ := invalidate_dir_cache self in
            release_chain parent name target_clus
    end.

(** *** Renaming *)

(** The entry a rename overwrites: its handles are marked, its group removed and
    its chain freed. *)
Definition overwrite_entry (parent : Z) (name : list Z) (existing : DirEntrySlot) : cmdv unit :=
  let existing_clus := first_clus_from_entry (sfn_entry existing) in
  do! _ := ask (mark_handles_unlinked parent name) in
  do! _ := on_fs (remove_dir_entries b parent name) in
  do! _ := flush_fat_cache in
  if valid_clus existing_clus then
    do! _ := upd_fs (invalidate_chain existing_clus) in
    on_fs (free_chain existing_clus)
  else cmd_ret tt.

(** The group of a renamed entry. *)
Definition renamed_group (now : option Z) (name : list Z) (existing_sfns : list (list Z)) (target : DirEntrySlot)
  : res VfsError (list (list Z)) :=
  let e := sfn_entry target in
  let? sfn := ok_or (sfn_from_name name existing_sfns) InvalidInput in
  if needs_vfat name && (MAX_LFN_ENTRIES <? lfn_slot_count name) then Err InvalidInput
  else
    let? g := build_group now name sfn (at_ e 11) (display_flags name) (first_clus_from_entry e) (file_size_from_entry e) in
    Ok g.1.

(** A moved directory's second entry points at its parent. *)
Definition repoint_dotdot (fc parent : Z) : cmdv unit :=
  do! es := on_fs (read_entries b fc) in
  do! e := cmd_res (ok_or (es !! 1%nat) IOError) in
  on_fs (write_entries b fc (<[1%nat := set_first_clus_in_entry e parent]> es)).

Definition rename (now : option Z) (self : Z) (old_name new_name : list Z) : cmdv unit :=
  do! n := require_dir self in
  do! slots := get_dir_slots self in
  match find_slot old_name slots with
  | None => cmd_res (Err NotFound)
  | Some target =>
      let fc := first_clus_from_entry (sfn_entry target) in
      let parent := first_clus n in
      do! _ := match find_slot new_name slots with
               | Some existing =>
                   do! _ := overwrite_entry parent new_name existing in
                   do! _ := flush_fat_cache in
                   invalidate_dir_cache self
               | None => cmd_ret tt
               end in
      let existing_sfns := List.filter (fun s => negb (bool_decide (s = sfn_of target))) (map sfn_of slots) in
      do! g := cmd_res (renamed_group now new_name existing_sfns target) in
      do! _ := on_fs (write_dir_entries b parent g) in
      do! _ := on_fs (remove_dir_entries b parent old_name) in
      do! _ := invalidate_dir_cache self in
      do! _ := upd_vol (move_handles parent old_name parent new_name) in
      if is_dir_entry (sfn_entry target) && valid_clus fc && negb (fc =? root_clus b) then
        do! _ := flush_fat_cache in
        repoint_dotdot fc parent
      else cmd_ret tt
  end.

Definition rename_across_dirs (now : option Z) (self other : Z) (old_name new_name : list Z) : cmdv unit :=
  do! n := node self in
  do! o := node other in
  if negb (bool_decide (file_type n = Directory)) || negb (bool_decide (file_type o = Directory))
  then cmd_res (Err NotADirectory)
  else if is_dot old_name || is_dot new_name then cmd_res (Err InvalidInput)
  else
    let src_first := first_clus n in
    let dst_first := first_clus o in
    do! slots_src := get_dir_slots self in
    match find_slot old_name slots_src with
    | None => cmd_res (Err NotFound)
    | Some target =>
        let fc := first_clus_from_entry (sfn_entry target) in
        do! slots_dst := get_dir_slots other in
        do! _ := match find_slot new_name slots_dst with
                 | Some existing =>
                     do! _ := overwrite_entry dst_first new_name existing in
                     invalidate_dir_cache other
                 | None => cmd_ret tt
                 end in
        do! g := cmd_res (renamed_group now new_name (map sfn_of slots_dst) target) in
        do! _ := on_fs (write_dir_entries b dst_first g) in
        do! _ := on_fs (remove_dir_entries b src_first old_name) in
        do! _ := flush_fat_cache in
        do! _ := invalidate_dir_cache self in
        do! _ := invalidate_dir_cache other in
        do! _ := (if is_dir_entry (sfn_entry target) && valid_clus fc && negb (fc =? root_clus b)
                  then repoint_dotdot fc dst_first else cmd_ret tt) in
        upd_vol (move_handles src_first old_name dst_first new_name)
    end.

(** *** Files *)

Definition stamp_mtime (now : option Z) (self : Z) : cmdv unit := upd_node self (fun n => set_mtime n (default 0 now)).

Definition truncate (now : option Z) (self : Z) (len : Z) : cmdv unit :=
  do! n := node self in
  if negb (bool_decide (file_type n = Regular)) then cmd_res (Err IsADirectory)
  else if 2 ^ 32 - 1 <? len then cmd_res (Err FileTooLarge)
  else
    let needed := if len =? 0 then 0 else ((len - 1) / byts_per_clus b + 1) mod 2 ^ 32 in
    let current_first := first_clus n in
    do! have := (if current_first =? 0 then cmd_ret 0
                 else do! chain := on_fs (ensure_chain_cache b n) in cmd_ret (Z.of_nat (length chain))) in
    if (len =? 0) && negb (current_first =? 0) then
      do! _ := update_dirent_meta now self (Some 0) (Some 0) in
      do! _ := flush_fat_cache in
      do! _ := upd_fs (invalidate_chain current_first) in
      do! _ := on_fs (free_chain current_first) in
      do! _ := flush_fat_cache in
      do! _ := upd_node self (fun n => set_size (set_first_clus n 0) 0) in
      stamp_mtime now self
    else if (needed <? have) && negb (current_first =? 0) then
      do! _ := on_fs (truncate_chain current_first needed) in
      do! _ := flush_fat_cache in
      do! _ := upd_node self (fun n => set_size n len) in
      do! _ := upd_fs (invalidate_chain current_first) in
      do! _ := update_dirent_meta now self None (Some len) in
      stamp_mtime now self
    else if have <? needed then
      if current_first =? 0 then
        do! new_clus := on_fs alloc_cluster in
        do! _ := on_fs (lift (zero_cluster new_clus)) in
        do! _ := (if 1 <? needed then on_fs (extend_chain new_clus (needed - 1)) else cmd_ret tt) in
        do! _ := flush_fat_cache in
        do! _ := upd_node self (fun n => set_size (set_first_clus n new_clus) len) in
        do! _ := update_dirent_meta now self (Some new_clus) (Some len) in
        stamp_mtime now self
      else
        do! _ := on_fs (extend_chain current_first (needed - have)) in
        do! _ := flush_fat_cache in
        do! _ := upd_node self (fun n => set_size n len) in
        do! _ := upd_fs (invalidate_chain current_first) in
        do! _ := update_dirent_meta now self None (Some len) in
        stamp_mtime now self
    else
      do! _ := upd_node self (fun n => set_size n len) in
      stamp_mtime now self.

(** The clusters a write needs, and the first cluster of the file then. *)
Definition grow_for_write (now : option Z) (self : Z) (n : Fat32Inode) (offset len : Z) : cmdv Z :=
  let needed := needed_clus b (offset + len) in
  let first := first_clus n in
  if 0 <? needed then
    do! have := (if first =? 0 then cmd_ret 0
                 else do! chain := on_fs (ensure_chain_cache b n) in cmd_ret (Z.of_nat (length chain))) in
    if have <? needed then
      do! clusters := on_fs (alloc_clusters (needed - have)) in
      do! _ := on_fs (link_new b clusters) in
      do! head := cmd_res (index clusters 0) in
      if first =? 0 then
        do! _ := on_fs (zero_new b clusters 0 offset (offset + len)) in
        do! _ := upd_node self (fun n => set_first_clus n head) in
        do! _ := upd_fs (invalidate_chain head) in
        do! _ := sync_clus_and_size now self in
        cmd_ret head
      else
        do! chain := on_fs (ensure_chain_cache b n) in
        do! tail := cmd_res (index chain (have - 1)) in
        do! _ := on_fs (lift (write_fat_entry b tail head)) in
        do! _ := on_fs (zero_new b clusters have offset (offset + len)) in
        do! _ := upd_fs (invalidate_chain first) in
        cmd_ret first
    else cmd_ret first
  else cmd_ret first.

Definition write_at (now : option Z) (self : Z) (offset : Z) (buf : list Z) : cmdv Z :=
  do! n := node self in
  let len := Z.of_nat (length buf) in
  if negb (bool_decide (file_type n = Regular)) then cmd_res (Err IsADirectory)
  else if bool_decide (buf = []) then cmd_ret 0
  else if 2 ^ 32 - 1 <? Z.min (offset + len) (2 ^ 64 - 1) then cmd_res (Err FileTooLarge)
  else
    do! current_first := grow_for_write now self n offset len in
    do! n := node self in
    do! chain := on_fs (ensure_chain_cache b n) in
    if Z.of_nat (length chain) <=? offset / byts_per_clus b then cmd_res (Err IOError)
    else
      do! _ := on_fs (lift (write_data b chain buf (file_size n) offset)) in
      do! _ := flush_fat_cache in
      let new_size := Z.max (file_size n) (offset + len) in
      do! _ := (if file_size n <? new_size then upd_node self (fun n => set_size n new_size) else cmd_ret tt) in
      do! _ := (if (file_size n <? new_size) || negb (current_first =? first_clus n)
                then update_dirent_meta now self None (Some new_size) else cmd_ret tt) in
      do! _ := stamp_mtime now self in
      cmd_ret len.

Definition read (self : Z) (offset : Z) (buf : list Z) : cmdv (list Z * Z) :=
  do! n := node self in
  on_fs (read_at b n offset buf).

(** *** Attributes *)

Record Stat := { stat_ino : Z; stat_size : Z; stat_type : FileType; stat_mtime : Z; stat_mode : Z }.

Definition size_of (n : Fat32Inode) : Z := if bool_decide (file_type n = Directory) then 0 else file_size n.

Definition getattr (self : Z) : cmdv Stat :=
  do! n := node self in
  cmd_ret {| stat_ino := ino n; stat_size := size_of n; stat_type := file_type n; stat_mtime := mtime n;
             stat_mode := if bool_decide (file_type n = Directory) then 493 else 420 |}.

Definition on_unlink (self : Z) : cmdv unit := upd_node self (fun n => set_unlinked n true).

Definition canonical_name (name : list Z) : list Z := map to_lower name.

(** The volume [mount] makes, with the inode of the root at address 0. *)
Definition mounted_vol (s : Fs (D * FatCache)) : Vol D :=
  mkVol s 2 ∅ ∅ {[ 0 := mkInode (root_clus b) 0 Directory 1 0 (root_clus b) [] false None 0 ]} 1.
End Inode.
