(* ===== verification/FatNodeFacts.v ===== *)
(** * FAT32 inodes: identities

    Well-formedness of a mounted volume: addresses, inode numbers and the handle
    registry.  Every inode operation keeps it, whatever the device answers. *)

From S2P Require Import Prelude Bits Errors BlockDev Calendar Fat32 FatAlloc FatDirent FatFile FatDir FatNode.
Import Errors.Vfs.
Local Open Scope Z_scope.

(** The name an inode was opened under: its directory and its folded name. *)
Definition name_key (n : Fat32Inode) : Key := (parent_clus n, map to_lower (entry_name n)).

(** Inodes live at addresses that have been handed out, and so do the handles;
    inode numbers are handed out in order, one per directory and folded name,
    as long as 64 bits suffice; every inode but the root's carries the number of the
    name it was opened under. *)
Record vol_wf {D} (v : Vol D) : Prop := {
  vw_nodes a n : nodes v !! a = Some n -> 0 <= a < next_node v;
  vw_handles k ws : handle_registry v !! k = Some ws -> Forall (fun w => 0 <= w < next_node v) ws;
  vw_next : next_ino v = (2 + Z.of_nat (size (ino_map v))) mod 2 ^ 64;
  vw_numbers : 2 + Z.of_nat (size (ino_map v)) <= 2 ^ 64 ->
    forall k i, ino_map v !! k = Some i -> 2 <= i < 2 + Z.of_nat (size (ino_map v))
      /\ forall k', ino_map v !! k' = Some i -> k' = k;
  vw_folded p nm i : ino_map v !! (p, nm) = Some i -> map to_lower nm = nm;
  vw_named a n : nodes v !! a = Some n -> a = 0 /\ ino n = 1 \/ ino_map v !! name_key n = Some (ino n)
}.

(** Numbers and addresses that were handed out stay handed out. *)
Record vol_le {D} (v v' : Vol D) : Prop := {
  vl_numbers k i : ino_map v !! k = Some i -> ino_map v' !! k = Some i;
  vl_node : 0 <= next_node v <= next_node v'
}.

Section Keeps.
Context {D : Type}.
Implicit Types v : Vol D.

Definition keeps {A} (m : cmd (Vol D) A) : Prop := forall v, vol_wf v -> 0 <= next_node v ->
  vol_wf (m v).1 /\ vol_le v (m v).1.

Lemma vol_le_refl v : 0 <= next_node v -> vol_le v v.
Proof. intros Hn. constructor; [done|lia]. Qed.

Lemma vol_le_trans v1 v2 v3 : vol_le v1 v2 -> vol_le v2 v3 -> vol_le v1 v3.
Proof. intros [N1 A1] [N2 A2]. constructor; [auto|lia]. Qed.

Lemma keeps_res {A} (r : res VfsError A) : keeps (cmd_res r).
Proof. intros v Hw Hn. split; [done|by apply vol_le_refl]. Qed.

Lemma keeps_ret {A} (a : A) : keeps (cmd_ret a).
Proof. apply (keeps_res (Ok a)). Qed.

Lemma keeps_bind {A B} (m : cmd (Vol D) A) (k : A -> cmd (Vol D) B) : keeps m -> (forall a, keeps (k a)) -> keeps (cmd_bind m k).
Proof.
  intros Hm Hk v Hw Hn. unfold cmd_bind. destruct (Hm v Hw Hn) as [Hw' Hl']. destruct (m v) as [v' [a|e|]]; [|done|done].
  cbn [fst] in *. destruct (Hk a v' Hw' ltac:(destruct Hl'; lia)) as [Hw2 Hl2]. split; [done|by eapply vol_le_trans].
Qed.

(** Updates that leave identities alone. *)
Lemma keeps_same (f : Vol D -> Vol D) v : vol_wf v -> 0 <= next_node v -> ino_map (f v) = ino_map v -> next_ino (f v) = next_ino v ->
  next_node (f v) = next_node v ->
  (forall a n, nodes (f v) !! a = Some n -> exists n0, nodes v !! a = Some n0 /\ name_key n = name_key n0 /\ ino n = ino n0) ->
  (forall k ws, handle_registry (f v) !! k = Some ws -> Forall (fun w => 0 <= w < next_node v) ws) ->
  vol_wf (f v) /\ vol_le v (f v).
Proof.
  intros [W1 W2 W3 W4 W5 W6] Hn E1 E2 E3 Hnodes Hreg. split.
  - constructor; rewrite ?E1, ?E2, ?E3; [|done|done|done|done|].
    + intros a n Ha. destruct (Hnodes a n Ha) as (n' & Hn' & _). by eapply W1.
    + intros a n Ha. destruct (Hnodes a n Ha) as (n' & Hn' & -> & ->). by apply W6.
  - constructor; [by rewrite E1|lia].
Qed.

Lemma keeps_node self : keeps (node self).
Proof. intros v Hw Hn. split; [done|by apply vol_le_refl]. Qed.

Lemma keeps_upd_node self f : (forall n, name_key (f n) = name_key n /\ ino (f n) = ino n) -> keeps (upd_node self f).
Proof.
  intros Hf v Hw Hn. apply (keeps_same (fun v => set_nodes v (alter f self (nodes v)))); [done|done|done|done|done| |apply Hw].
  intros a n Ha. cbn in Ha. destruct (decide (a = self)) as [->|Hne].
  - rewrite lookup_alter_eq in Ha. destruct (nodes v !! self) as [n0|]; [|done]. injection Ha as <-. exists n0. by split; [|apply Hf].
  - rewrite lookup_alter_ne in Ha by done. by exists n.
Qed.

Lemma keeps_delete self : keeps (upd_vol (fun v => set_nodes v (delete self (nodes v)))).
Proof.
  intros v Hw Hn. apply (keeps_same (fun v => set_nodes v (delete self (nodes v)))); [done|done|done|done|done| |apply Hw].
  intros a n Ha. cbn in Ha. apply lookup_delete_Some in Ha as [_ Ha]. by exists n.
Qed.

(** Runs that start when the name [k] has the number [i]. *)
Definition keeps_at {A} (k : Key) (i : Z) (m : cmd (Vol D) A) : Prop := forall v, vol_wf v -> 0 <= next_node v ->
  ino_map v !! k = Some i -> vol_wf (m v).1 /\ vol_le v (m v).1.

Lemma keeps_new_node n : keeps_at (name_key n) (ino n) (new_node n).
Proof.
  intros v [W1 W2 W3 W4 W5 W6] Hn Hi. cbn. split.
  - constructor; cbn; [| |done|done|done|].
    + intros a m [[<- _]|[_ Ha]]%lookup_insert_Some; [lia|]. specialize (W1 a m Ha). lia.
    + intros k ws Hk. eapply Forall_impl; [by eapply W2|]. cbn. lia.
    + intros a m [[<- <-]|[_ Ha]]%lookup_insert_Some; [by right|]. by apply W6.
  - constructor; cbn; [done|lia].
Qed.

Lemma keeps_ino_for parent name : keeps (ask (ino_for parent name)).
Proof.
  intros v Hw Hn. unfold ask, ino_for. cbv zeta. destruct (ino_map v !! (parent, map to_lower name)) as [i|] eqn:E.
  { split; [done|by apply vol_le_refl]. }
  pose proof Hw as [W1 W2 W3 W4 W5 W6]. cbn [fst]. split.
  - assert (size (<[(parent, map to_lower name) := next_ino v]> (ino_map v)) = S (size (ino_map v))) as Es
      by (by apply map_size_insert_None).
    constructor; cbn [nodes handle_registry next_ino ino_map next_node set_ino_map]; [done|done| | | |].
    + rewrite Es, W3. rewrite Zplus_mod_idemp_l. f_equal. lia.
    + rewrite Es. intros Hs k i Hk. specialize (W4 ltac:(lia)). rewrite Z.mod_small in W3 by lia.
      assert (forall k' i', ino_map v !! k' = Some i' -> i' <> next_ino v) as Hfresh.
      { intros k' i' Hk'. destruct (W4 k' i' Hk'). lia. }
      apply lookup_insert_Some in Hk as [[<- <-]|[Hne Hk]].
      * split; [lia|]. intros k' [[<- _]|[_ Hk']]%lookup_insert_Some; [done|]. by destruct (Hfresh _ _ Hk').
      * destruct (W4 k i Hk) as [Hr Hinj]. split; [lia|]. intros k' [[<- <-]|[_ Hk']]%lookup_insert_Some; [|auto].
        by destruct (Hfresh _ _ Hk).
    + intros p nm i [[E1 _]|[_ Hk]]%lookup_insert_Some; [|by eapply W5]. injection E1 as _ <-.
      rewrite map_map. apply map_ext. intros c. unfold to_lower, is_upper. repeat case_match; lia.
    + intros a n Ha. destruct (W6 a n Ha) as [|Hk]; [by left|right]. rewrite lookup_insert_ne; [done|]. intros Ek. congruence.
  - constructor; [|cbn; lia]. intros k i Hk. cbn [ino_map set_ino_map]. rewrite lookup_insert_ne; [done|]. intros <-. congruence.
Qed.

(** After [ino_for] the name has its number. *)
Lemma ino_for_numbered parent name v :
  ino_map (ino_for parent name v).1 !! (parent, map to_lower name) = Some (ino_for parent name v).2.
Proof.
  unfold ino_for. cbv zeta. destruct (ino_map v !! _) as [i|] eqn:E; [done|]. cbn. apply lookup_insert_eq.
Qed.

Lemma keeps_numbered {A} parent name (k : Z -> cmd (Vol D) A) :
  (forall i, keeps_at (parent, map to_lower name) i (k i)) -> keeps (cmd_bind (ask (ino_for parent name)) k).
Proof.
  intros Hk v Hw Hn. destruct (keeps_ino_for parent name v Hw Hn) as [Hw1 Hl1]. pose proof (ino_for_numbered parent name v) as Hi.
  unfold cmd_bind, ask in *. destruct (ino_for parent name v) as [v1 i]. cbn [fst snd] in *.
  destruct (Hk i v1 Hw1 ltac:(destruct Hl1; lia) Hi) as [Hw2 Hl2]. split; [done|by eapply vol_le_trans].
Qed.

Lemma keeps_at_res {A B} k i (r : res VfsError A) (f : A -> cmd (Vol D) B) :
  (forall a, keeps_at k i (f a)) -> keeps_at k i (cmd_bind (cmd_res r) f).
Proof.
  intros Hf v Hw Hn Hi. unfold cmd_bind, cmd_res. destruct r as [a|e|]; [by apply Hf|..]; (split; [done|by apply vol_le_refl]).
Qed.

Lemma keeps_register parent name n (quiet : bool) : keeps_at (name_key n) (ino n) (do! id := new_node n in
  do! _ := (if quiet then cmd_ret tt else upd_vol (register_handle (D := D) parent name id)) in cmd_ret id).
Proof.
  intros v Hw Hn Hi. destruct (keeps_new_node n v Hw Hn Hi) as [Hw1 Hl1]. unfold cmd_bind. cbn [new_node ask] in *.
  set (v1 := set_next_node _ _) in *. destruct quiet; [done|]. cbn [upd_vol cmd_ret fst].
  assert (next_node v1 = next_node v + 1) as E by done.
  destruct (keeps_same (register_handle parent name (next_node v)) v1) as [Hw2 Hl2]; try done; [lia|by eauto| |].
  - intros k ws Hk. unfold register_handle in Hk. cbn [handle_registry set_registry] in Hk.
    apply lookup_insert_Some in Hk as [[<- <-]|[_ Hk]]; [|by apply (vw_handles v1 Hw1 k)].
    apply Forall_app. split; [|repeat constructor; lia]. apply Forall_forall. intros w Hw3.
    apply list_elem_of_In, filter_In in Hw3 as [Hin _]. destruct (handle_registry v1 !! _) as [l|] eqn:El; [|done].
    pose proof (vw_handles v1 Hw1 _ _ El) as Hf. rewrite Forall_forall in Hf. apply Hf, list_elem_of_In, Hin.
  - split; [done|by eapply vol_le_trans].
Qed.

Lemma mark_loop_keeps ws : forall v n, vol_wf v -> 0 <= next_node v ->
  vol_wf (mark_loop ws v n).1 /\ vol_le v (mark_loop ws v n).1.
Proof.
  induction ws as [|w ws IH]; intros v n Hw Hn; cbn [mark_loop]; [split; [done|by apply vol_le_refl]|].
  destruct (nodes v !! w) as [m|] eqn:E; [|by apply IH].
  destruct (keeps_same (fun v => set_nodes v (<[w := set_unlinked m true]> (nodes v))) v) as [Hw1 Hl1]; try done.
  - intros a n' Ha. cbn in Ha. apply lookup_insert_Some in Ha as [[<- <-]|[_ Ha]]; eauto.
  - apply Hw.
  - destruct (IH _ (n + 1) Hw1 Hn) as [Hw2 Hl2]. split; [done|by eapply vol_le_trans].
Qed.

Lemma keeps_mark parent name : keeps (ask (mark_handles_unlinked (D := D) parent name)).
Proof.
  intros v Hw Hn. unfold ask, mark_handles_unlinked. cbv zeta. destruct (handle_registry v !! _) as [ws|] eqn:E.
  2: { split; [done|by apply vol_le_refl]. }
  destruct (keeps_same (fun v => set_registry v (delete (registry_key parent name) (handle_registry v))) v) as [Hw1 Hl1]; try done; [by eauto| |].
  { intros k ws' Hk. cbn [handle_registry set_registry] in Hk. apply lookup_delete_Some in Hk as [_ Hk].
    by apply (vw_handles v Hw k). }
  pose proof (mark_loop_keeps ws _ 0 Hw1 Hn) as [Hw2 Hl2]. destruct (mark_loop _ _ _) as [v2 l]. cbn [fst] in *.
  split; [done|by eapply vol_le_trans].
Qed.

Lemma keeps_move p n p' n' : keeps (upd_vol (move_handles (D := D) p n p' n')).
Proof.
  intros v Hw Hn. apply (keeps_same (move_handles p n p' n')); [done|done|done|done|done|by eauto|].
  assert (forall (reg : gmap Key (list Z)) k, (forall k ws, reg !! k = Some ws -> Forall (fun w => 0 <= w < next_node v) ws) ->
    Forall (fun w => 0 <= w < next_node v) (List.filter (alive v) (default [] (reg !! k)))) as Hf.
  { intros reg k Hr. apply Forall_forall. intros w Hin%list_elem_of_In. apply filter_In in Hin as [Hin _].
    destruct (reg !! k) as [l|] eqn:E; [|done]. specialize (Hr k l E). rewrite Forall_forall in Hr.
    apply Hr, list_elem_of_In, Hin. }
  intros k ws Hk. unfold move_handles in Hk. cbn [handle_registry set_registry] in Hk.
  apply lookup_insert_Some in Hk as [[<- <-]|[_ [_ Hk]%lookup_delete_Some]]; [|by apply (vw_handles v Hw k)].
  apply Forall_app. split; apply Hf; [|apply Hw]. intros k' ws' [_ Hk']%lookup_delete_Some. by apply (vw_handles v Hw k').
Qed.
End Keeps.

(** ** Operations *)

Section Ops.
Context `{Profile} `{BatchWriteDevice D} (b : Bpb).

Lemma keeps_on_fs {A} (m : cmd (Fs (D * FatCache)) A) : keeps (on_fs m).
Proof.
  intros v Hw Hn. unfold on_fs. destruct (m (fs v)) as [s r]. cbn [fst].
  apply (keeps_same (fun v => set_fs v s)); try done; [by eauto|apply Hw].
Qed.

Lemma keeps_upd_fs f : keeps (upd_fs (D := D) f).
Proof. intros v Hw Hn. apply (keeps_same (fun v => set_fs v (f (fs v)))); try done; [by eauto|apply Hw]. Qed.

Create HintDb keeps.
#[local] Hint Resolve keeps_res keeps_ret keeps_node keeps_upd_node keeps_delete keeps_ino_for keeps_mark keeps_move
  keeps_on_fs keeps_upd_fs : keeps.
#[local] Hint Extern 1 (forall n, name_key _ = name_key _ /\ ino _ = ino _) => (intros ?; split; reflexivity) : keeps.

Ltac keeps :=
  repeat (match goal with
  | |- forall _, _ => intros ?
  | |- keeps (if ?c then _ else _) => destruct c
  | |- keeps (match ?x with _ => _ end) => destruct x
  | |- keeps (let '(_, _) := ?x in _) => destruct x
  | _ => solve [eauto with keeps nocore]
  | |- keeps (cmd_bind (ask (ino_for ?p ?nm)) (fun i => cmd_bind _ _)) => apply (keeps_numbered p nm); intros i; try apply keeps_at_res; intros;
      solve [apply (keeps_register p nm (mkInode _ _ _ i _ p nm _ _ _) false) | apply (keeps_register p nm (mkInode _ _ _ i _ p nm _ _ _) true)]
  | |- keeps (cmd_bind _ _) => apply keeps_bind
  | |- keeps _ => progress cbv beta zeta
  end).

Lemma keeps_get_dir_slots self : keeps (get_dir_slots (D := D) b self).
Proof. unfold get_dir_slots. keeps. Qed.

Lemma keeps_require_dir self : keeps (require_dir (D := D) self).
Proof. unfold require_dir. keeps. Qed.
#[local] Hint Resolve keeps_get_dir_slots keeps_require_dir : keeps.

Lemma keeps_meta now self clus size : keeps (update_dirent_meta (D := D) b now self clus size)
  /\ keeps (sync_clus_and_size (D := D) b now self).
Proof. split; [unfold update_dirent_meta|unfold sync_clus_and_size]; keeps. Qed.

Lemma keeps_update_dirent_meta now self clus size : keeps (update_dirent_meta (D := D) b now self clus size).
Proof. apply keeps_meta. Qed.

Lemma keeps_release parent name clus : keeps (release_chain (D := D) b parent name clus).
Proof. unfold release_chain, flush_fat_cache. keeps. Qed.

Lemma keeps_overwrite parent name e : keeps (overwrite_entry (D := D) b parent name e).
Proof. unfold overwrite_entry, flush_fat_cache. keeps. Qed.

Lemma keeps_repoint fc parent : keeps (repoint_dotdot (D := D) b fc parent).
Proof. unfold repoint_dotdot. keeps. Qed.

Lemma keeps_readdir_loop dir slots : forall acc, keeps (readdir_loop (D := D) dir slots acc).
Proof. induction slots as [|s slots IH]; intros acc; cbn [readdir_loop]; keeps; apply IH. Qed.

Lemma keeps_grow now self n offset len : keeps (grow_for_write (D := D) b now self n offset len).
Proof. unfold grow_for_write. keeps; apply (keeps_meta now self None None). Qed.
#[local] Hint Resolve keeps_update_dirent_meta keeps_release keeps_overwrite keeps_repoint keeps_readdir_loop keeps_grow : keeps.

Lemma keeps_lookup self name : keeps (lookup (D := D) b self name).
Proof. unfold lookup. destruct (bool_decide (name = DOTDOT)); cbn [andb]; keeps. Qed.

Lemma keeps_readdir self : keeps (readdir (D := D) b self).
Proof. unfold readdir. keeps. Qed.

Lemma keeps_create now self name : keeps (create (D := D) b now self name).
Proof. unfold create, invalidate_dir_cache. keeps. Qed.

Lemma keeps_mkdir now self name : keeps (mkdir (D := D) b now self name).
Proof. unfold mkdir, invalidate_dir_cache. keeps. Qed.

Lemma keeps_unlink self name : keeps (unlink (D := D) b self name).
Proof. unfold unlink, flush_fat_cache, invalidate_dir_cache. keeps. Qed.

Lemma keeps_rmdir self name : keeps (rmdir (D := D) b self name).
Proof. unfold rmdir, flush_fat_cache, invalidate_dir_cache. keeps. Qed.

Lemma keeps_rename now self old new : keeps (rename (D := D) b now self old new).
Proof. unfold rename, flush_fat_cache, invalidate_dir_cache. keeps. Qed.

Lemma keeps_rename_across now self other old new : keeps (rename_across_dirs (D := D) b now self other old new).
Proof. unfold rename_across_dirs, flush_fat_cache, invalidate_dir_cache. keeps. Qed.

Lemma keeps_truncate now self len : keeps (truncate (D := D) b now self len).
Proof. unfold truncate, flush_fat_cache, stamp_mtime. keeps. Qed.

Lemma keeps_write_at now self offset buf : keeps (write_at (D := D) b now self offset buf).
Proof. unfold write_at, flush_fat_cache, stamp_mtime. keeps. Qed.

Lemma keeps_drop self : keeps (drop_inode (D := D) b self).
Proof. unfold drop_inode. keeps. Qed.

Lemma keeps_read self offset buf : keeps (read (D := D) b self offset buf).
Proof. unfold read. keeps. Qed.

Lemma keeps_on_unlink self : keeps (on_unlink (D := D) self).
Proof. unfold on_unlink. keeps. Qed.

(** Any inode operation, with any result. *)
Inductive node_step (v : Vol D) : Vol D -> Prop :=
  | step_lookup self name : node_step v (lookup b self name v).1
  | step_readdir self : node_step v (readdir b self v).1
  | step_create now self name : node_step v (create b now self name v).1
  | step_mkdir now self name : node_step v (mkdir b now self name v).1
  | step_unlink self name : node_step v (unlink b self name v).1
  | step_rmdir self name : node_step v (rmdir b self name v).1
  | step_rename now self old new : node_step v (rename b now self old new v).1
  | step_rename_across now self other old new : node_step v (rename_across_dirs b now self other old new v).1
  | step_truncate now self len : node_step v (truncate b now self len v).1
  | step_write now self offset buf : node_step v (write_at b now self offset buf v).1
  | step_read self offset buf : node_step v (read b self offset buf v).1
  | step_on_unlink self : node_step v (on_unlink self v).1
  | step_drop self : node_step v (drop_inode b self v).1
  | step_sync : node_step v (on_fs (sync_all b) v).1.

Lemma node_step_keeps v v' : node_step v v' -> vol_wf v -> 0 <= next_node v -> vol_wf v' /\ vol_le v v'.
Proof.
  destruct 1; [apply keeps_lookup|apply keeps_readdir|apply keeps_create|apply keeps_mkdir|apply keeps_unlink|apply keeps_rmdir
    |apply keeps_rename|apply keeps_rename_across|apply keeps_truncate|apply keeps_write_at|apply keeps_read
    |apply keeps_on_unlink|apply keeps_drop|apply keeps_on_fs].
Qed.

Lemma mounted_wf (s : Fs (D * FatCache)) : vol_wf (mounted_vol b s).
Proof.
  constructor; cbn [mounted_vol nodes handle_registry next_ino ino_map next_node].
  - intros a n [<- _]%lookup_singleton_Some. lia.
  - intros k ws. by rewrite lookup_empty.
  - by rewrite map_size_empty.
  - intros _ k i. by rewrite lookup_empty.
  - intros p nm i. by rewrite lookup_empty.
  - intros a n [<- <-]%lookup_singleton_Some. by left.
Qed.

(** *** What the operations return *)

(** A run from a state of [P] that succeeds ends in [Q]. *)
Definition ends {A} (P : Vol D -> Prop) (m : cmd (Vol D) A) (Q : Vol D -> A -> Prop) : Prop :=
  forall v v' a, P v -> m v = (v', Ok a) -> Q v' a.

Lemma ends_bind {A B} P R (m : cmd (Vol D) A) (k : A -> cmd (Vol D) B) Q :
  ends P m R -> (forall a, ends (fun v => R v a) (k a) Q) -> ends P (cmd_bind m k) Q.
Proof.
  intros Hm Hk v v' x HP E. unfold cmd_bind in E. destruct (m v) as [v1 [a|e|]] eqn:Em; [|done|done].
  by apply (Hk a v1 v' x (Hm v v1 a HP Em)).
Qed.

Lemma ends_skip {A B} P (m : cmd (Vol D) A) (k : A -> cmd (Vol D) B) Q :
  (forall a, ends (fun _ => True) (k a) Q) -> ends P (cmd_bind m k) Q.
Proof. intros Hk. by apply (ends_bind P (fun _ _ => True)). Qed.

Lemma ends_err {A} P e (Q : Vol D -> A -> Prop) : ends P (cmd_res (Err e)) Q.
Proof. done. Qed.

(** The inode at [id] was opened as [name] in the directory at [p] and carries that name's number. *)
Definition numbered (p : Z) (name : list Z) (v : Vol D) (id : Z) : Prop :=
  exists n, nodes v !! id = Some n /\ parent_clus n = p /\ entry_name n = name /\ ino_map v !! (p, map to_lower name) = Some (ino n).

Lemma ends_opened p name P fc size ty (t : Z -> res VfsError Z) (quiet : bool) :
  ends P (do! i := ask (ino_for p name) in
          do! t := cmd_res (t i) in
          do! id := new_node (mkInode fc size ty i t p name false None 0) in
          do! _ := (if quiet then cmd_ret tt else upd_vol (register_handle p name id)) in
          cmd_ret id) (numbered p name).
Proof.
  intros v v' id _ E. pose proof (ino_for_numbered p name v) as Hi. unfold cmd_bind, ask at 1 in E.
  destruct (ino_for p name v) as [v1 i]. cbn [fst snd] in Hi. unfold cmd_res in E. destruct (t i) as [t'| |]; [|done|done].
  eexists. destruct quiet; cbn in E; injection E as <- <-; cbn; rewrite lookup_insert_eq; by split_and!.
Qed.

Lemma ends_created p name P fc ty t :
  ends P (do! i := ask (ino_for p name) in
          do! id := new_node (mkInode fc 0 ty i t p name false None 0) in
          do! _ := upd_vol (register_handle p name id) in
          cmd_ret id) (numbered p name).
Proof. intros v v' id HP E. by apply (ends_opened p name P fc 0 ty (fun _ => Ok t) false v v' id HP). Qed.

Ltac ends :=
  repeat (match goal with
  | |- forall _, _ => intros ?
  | |- ends _ (if ?c then _ else _) _ => destruct c
  | |- ends _ (match ?x with _ => _ end) _ => destruct x
  | |- ends _ (cmd_res (Err _)) _ => apply ends_err
  | |- ends _ (cmd_bind (ask (ino_for _ _)) _) _ => first [apply ends_created | apply (ends_opened _ _ _ _ _ _ (fun _ => _))]
  | |- ends _ (cmd_bind _ _) _ => apply ends_skip
  | |- ends _ _ _ => progress cbv beta zeta
  end).

Lemma dir_result {A} self (k : Fat32Inode -> cmd (Vol D) A) Q v v' a : (forall d, ends (fun _ => True) (k d) (Q d)) ->
  cmd_bind (require_dir self) k v = (v', Ok a) -> exists d, nodes v !! self = Some d /\ Q d v' a.
Proof.
  intros Hk E. unfold require_dir, node, cmd_bind in E. destruct (nodes v !! self) as [d|]; [|done].
  destruct (negb _); [done|]. exists d. split; [done|]. by apply (Hk d v v' a).
Qed.

Lemma lookup_result self name v v' id : lookup b self name v = (v', Ok id) ->
  exists d, nodes v !! self = Some d /\ numbered (first_clus d) name v' id.
Proof. apply (dir_result self _ (fun d => numbered (first_clus d) name)). ends. Qed.

Lemma create_result now self name v v' id : create b now self name v = (v', Ok id) ->
  exists d, nodes v !! self = Some d /\ numbered (first_clus d) name v' id.
Proof. apply (dir_result self _ (fun d => numbered (first_clus d) name)). ends. Qed.

Lemma mkdir_result now self name v v' id : mkdir b now self name v = (v', Ok id) ->
  exists d, nodes v !! self = Some d /\ numbered (first_clus d) name v' id.
Proof. apply (dir_result self _ (fun d => numbered (first_clus d) name)). ends. Qed.

Definition listed (p : Z) (v : Vol D) (l : list (Z * list Z * FileType)) : Prop :=
  Forall (fun x => ino_map v !! (p, map to_lower x.1.2) = Some x.1.1) l.

Lemma listed_mono p v v' l : (forall k i, ino_map v !! k = Some i -> ino_map v' !! k = Some i) -> listed p v l -> listed p v' l.
Proof. intros Hv Hl. eapply Forall_impl; [exact Hl|]. auto. Qed.

Lemma ino_for_mono p name (v : Vol D) k i : ino_map v !! k = Some i -> ino_map (ino_for p name v).1 !! k = Some i.
Proof.
  intros Hk. unfold ino_for. cbv zeta. destruct (ino_map v !! (p, _)) eqn:E; [done|]. cbn. rewrite lookup_insert_ne; [done|].
  intros <-. congruence.
Qed.

Lemma readdir_loop_listed p slots : forall acc, ends (fun v => listed p v acc) (readdir_loop p slots acc) (listed p).
Proof.
  induction slots as [|slot slots IH]; intros acc; cbn [readdir_loop]; [intros v v' a Ha [= <- <-]; done|]. cbv zeta.
  destruct (bool_decide _); [apply IH|]. intros v v' a Ha E. unfold cmd_bind, ask in E.
  pose proof (ino_for_numbered p (decode_entry_name slot) v) as Hi. pose proof (ino_for_mono p (decode_entry_name slot) v) as Hm.
  destruct (ino_for p _ v) as [v1 i]. cbn [fst snd] in *. eapply IH; [|exact E].
  apply Forall_app. split; [by eapply listed_mono|by repeat constructor].
Qed.

Lemma readdir_result self v v' l : readdir b self v = (v', Ok l) -> exists d, nodes v !! self = Some d /\ listed (first_clus d) v' l.
Proof.
  apply (dir_result self _ (fun d => listed (first_clus d))). intros d. apply ends_skip. intros slots v1 v2 a _.
  apply readdir_loop_listed. constructor.
Qed.

(** C29: Inode numbers are identities, whatever sequence of inode operations runs on a
    mounted volume and whatever the device answers, as long as at most 2^64 - 2 numbers
    have been given.  No two names share a number, names being a directory (its first cluster) and
    an entry name up to case; none has the root's number 1; a number once given to a name
    stays that name's.  Every inode, whenever it was opened, reports in [getattr] the
    number of the name it was opened under, or is the root and reports 1.  [lookup],
    [create] and [mkdir] return an inode that was opened under the name asked for in the
    directory they were called on, and [readdir] lists every entry with its name's number. *)
Theorem identities_well_formed s v v' now self name : rtc node_step (mounted_vol b s) v -> rtc node_step v v' ->
  2 + Z.of_nat (size (ino_map v')) <= 2 ^ 64 ->
  (forall k k' i, ino_map v' !! k = Some i -> ino_map v' !! k' = Some i -> k = k' /\ i <> 1)
  /\ (forall k i, ino_map v !! k = Some i -> ino_map v' !! k = Some i)
  /\ (forall a n, nodes v !! a = Some n -> exists st, (getattr a v).2 = Ok st
        /\ (a = 0 /\ stat_ino st = 1 \/ ino_map v' !! name_key n = Some (stat_ino st)))
  /\ (forall w id, lookup b self name v = (w, Ok id) \/ create b now self name v = (w, Ok id) \/ mkdir b now self name v = (w, Ok id) ->
        exists d, nodes v !! self = Some d /\ numbered (first_clus d) name w id)
  /\ (forall w l, readdir b self v = (w, Ok l) -> exists d, nodes v !! self = Some d /\ listed (first_clus d) w l).
Proof.
  assert (forall v v', rtc node_step v v' -> vol_wf v -> 0 <= next_node v -> vol_wf v' /\ vol_le v v') as Hrtc.
  { induction 1 as [v0|v1 v2 v3 Hst _ IH]; intros Hw Hn; [split; [done|by apply vol_le_refl]|].
    destruct (node_step_keeps _ _ Hst Hw Hn) as [Hw2 Hl2]. destruct IH as [Hw3 Hl3]; [done|destruct Hl2; lia|].
    split; [done|by eapply vol_le_trans]. }
  intros S1 S2 Hsz. destruct (Hrtc _ _ S1 (mounted_wf s) ltac:(done)) as [Hw Hl].
  destruct (Hrtc _ _ S2 Hw ltac:(destruct Hl; cbn in *; lia)) as [Hw' [Hn _]]. split_and!.
  - intros k k' i Hk Hk'. destruct (vw_numbers v' Hw' Hsz k i Hk) as [Hr Hinj]. split; [symmetry; auto|lia].
  - exact Hn.
  - intros a n Ha. unfold getattr, node, cmd_bind, cmd_ret. rewrite Ha. eexists. split; [reflexivity|]. cbn [stat_ino].
    destruct (vw_named v Hw a n Ha) as [|Hk]; auto.
  - intros w id [E|[E|E]]; [by apply (lookup_result self name v)|by apply (create_result now self name v)|by apply (mkdir_result now self name v)].
  - intros w l. apply readdir_result.
Qed.
End Ops.
