(* ===== verification/FatNodeSpec.v ===== *)
(** * FAT32 inodes: runs on a sample volume

    The inode operations executed on the volume of FatAllocSpec, whose root
    directory is empty and takes clusters 2 and 3: a witness for the identities of
    FatNodeFacts, and runs in which the code does not do what it means to. *)

From S2P Require Import Prelude Bits Errors BlockDev Calendar Fat32 FatAlloc FatAllocSpec FatDirent FatFile FatDir FatNode FatNodeFacts.
Import Errors.Vfs FatAllocSpec.AllocVolume.
Local Open Scope Z_scope.

Module NodeRuns.
#[local] Instance checked : Profile := true.

Definition empty_vol : Vol MemDisk := mounted_vol geometry super.

(** 2023-11-14 22:13:20 UTC *)
Definition now : option Z := Some 1700000000.

(** a.txt, A.txt, b.txt, c.txt and sub *)
Definition a_txt : list Z := [97; 46; 116; 120; 116].
Definition A_txt : list Z := [65; 46; 116; 120; 116].
Definition b_txt : list Z := [98; 46; 116; 120; 116].
Definition c_txt : list Z := [99; 46; 116; 120; 116].
Definition sub : list Z := [115; 117; 98].

Definition names : cmd (Vol MemDisk) (list (list Z)) :=
  do! l := readdir geometry 0 in cmd_ret (map (fun x => x.1.2) l).

Definition first_of (self : Z) : cmd (Vol MemDisk) Z := do! n := node self in cmd_ret (first_clus n).

Definition chain_of (self : Z) : cmd (Vol MemDisk) (list Z) :=
  do! n := node self in on_fs (ensure_chain_cache geometry n).
End NodeRuns.
Import NodeRuns.

Lemma identities_well_formed_witness :
  exists v v' : Vol MemDisk, ino_map v !! (2, a_txt) = Some 2 /\ ino_map v' !! (2, a_txt) = Some 2
    /\ (exists w id d, lookup (H := true) geometry 0 A_txt v = (w, Ok id) /\ nodes v !! 0 = Some d /\ numbered (first_clus d) A_txt w id).
Proof.
  refine (let v0 := mounted_vol geometry super in
          let v := (create (H := true) geometry now 0 a_txt v0).1 in
          let v' := (lookup (H := true) geometry 0 A_txt v).1 in _).
  assert (ino_map v !! (2, a_txt) = Some 2) as E by (vm_compute; reflexivity).
  assert (lookup (H := true) geometry 0 A_txt v = (v', Ok 2)) as E'.
  { rewrite (surjective_pairing (lookup geometry 0 A_txt v)). apply (f_equal2 pair); [reflexivity|]. vm_compute. reflexivity. }
  destruct (identities_well_formed (H := true) geometry super v v' now 0 A_txt
    (rtc_once _ _ (step_create (H := true) geometry v0 now 0 a_txt))
    (rtc_once _ _ (step_lookup (H := true) geometry v 0 A_txt)) ltac:(vm_compute; discriminate)) as (_ & Hk & _ & Hl & _).
  destruct (Hl v' 2 (or_introl E')) as (d & Hd & Hn).
  exact (ex_intro _ v (ex_intro _ v' (conj E (conj (Hk _ _ E) (ex_intro _ v' (ex_intro _ 2 (ex_intro _ d (conj E' (conj Hd Hn))))))))).
Defined.

(** A created file is listed, and found under any spelling of its name. *)
Lemma create_then_lookup : ((do! f := create (H := true) geometry now 0 a_txt in
  do! g := lookup (H := true) geometry 0 A_txt in
  do! s := getattr f in do! t := getattr g in do! l := names in
  cmd_ret (stat_ino s, stat_ino t, l)) empty_vol).2 = Ok (2, 2, [a_txt]).
Proof. vm_compute. reflexivity. Qed.

(** The first write to a new file fails: the chain of its new cluster is read
    from the device, which does not have the entry yet. *)
Lemma first_write_fails : ((do! f := create (H := true) geometry now 0 a_txt in
  write_at (H := true) geometry now f 0 [1; 2; 3]) empty_vol).2 = Err IOError.
Proof. vm_compute. reflexivity. Qed.

(** A write that extends a file reports all of its bytes, and stores those of
    the clusters the file had. *)
Lemma extending_write_lost : ((do! f := create (H := true) geometry now 0 a_txt in
  do! _ := truncate (H := true) geometry now f 512 in
  do! w := write_at (H := true) geometry now f 0 (replicate 1024 7) in
  do! r := read (H := true) geometry f 0 (replicate 1024 0) in
  do! n := node f in
  cmd_ret (w, file_size n, r.1)) empty_vol).2 = Ok (1024, 1024, replicate 512 7 ++ replicate 512 0).
Proof. vm_compute. reflexivity. Qed.

(** Renaming a file to another spelling of its name deletes it. *)
Lemma rename_case_deletes : ((do! _ := create (H := true) geometry now 0 a_txt in
  do! _ := rename (H := true) geometry now 0 a_txt A_txt in names) empty_vol).2 = Ok [].
Proof. vm_compute. reflexivity. Qed.

(** Renaming over a file that is open frees its cluster 5 at once, and again when
    the handle is dropped.  By then the cluster is the last of another file, whose
    chain then runs into a free entry. *)
Lemma rename_over_open_frees_twice : ((do! _ := create (H := true) geometry now 0 a_txt in
  do! g := create (H := true) geometry now 0 b_txt in
  do! _ := truncate (H := true) geometry now g 512 in
  do! c := first_of g in
  do! _ := rename (H := true) geometry now 0 a_txt b_txt in
  do! h := create (H := true) geometry now 0 c_txt in
  do! _ := truncate (H := true) geometry now h 4608 in
  do! l := chain_of h in
  do! _ := drop_inode (H := true) geometry g in
  do! e := on_fs (lift (read_fat_entry (H := true) geometry c)) in
  cmd_ret (c, bool_decide (c ∈ l), e)) empty_vol).2 = Ok (5, true, FREE_CLUSTER).
Proof. vm_compute. reflexivity. Qed.

(** In a new directory, ".." is not found and "." leads to the parent. *)
Lemma mkdir_dot_entries :
  ((do! d := mkdir (H := true) geometry now 0 sub in lookup (H := true) geometry d DOTDOT) empty_vol).2 = Err NotFound
  /\ ((do! d := mkdir (H := true) geometry now 0 sub in
       do! p := lookup (H := true) geometry d DOT in first_of p) empty_vol).2 = Ok (root_clus geometry).
Proof. split; vm_compute; reflexivity. Qed.
