(* ===== verification/Heap.v ===== *)
(** * The kernel heap

    Model of kernel/src/mm/heap.rs: a first-fit allocator over an
    address-ordered list of free blocks that lives in the memory it manages, with
    a cache of freed blocks per CPU, and chunks of pages mapped downwards from
    [HEAP_TOP].  Memory is the 64-bit words of the physical frames; an access goes
    through the mapping of its page, and an access to an address that is not mapped or
    not a multiple of 8 is a fault, which is [Panic] here.  The page tables are the class
    [VmmOps]; the physical frames come from PhysAlloc.

    Each function that runs under the heap lock or under the lock of a cache is
    one definition, so that the interleavings of HeapSpec are those of the locks.
    [ENABLE_HEAP_CHUNK_RECLAIM] is false in the source; the code it disables is not
    modelled. *)

From S2P Require Import Prelude Bits PhysAlloc.
Local Open Scope Z_scope.

Notation hres := (res AllocError) (only parsing).

Definition KERNEL_VMA_BASE : Z := 18446744071562067968.
Definition HEAP_TOP : Z := KERNEL_VMA_BASE + 939524096.
Definition HEAP_FLOOR : Z := KERNEL_VMA_BASE + 268435456.
Definition HEAP_GUARD_BYTES : Z := 4096.

Definition HEADER_SIZE : Z := 16.
Definition BLOCK_ALIGN : Z := 8.
Definition BACKPTR_SIZE : Z := 8.
Definition MIN_ALLOC : Z := 8.
Definition MIN_BLOCK_SIZE : Z := HEADER_SIZE + BACKPTR_SIZE + MIN_ALLOC.
Definition HEAP_INIT_PAGES : Z := 256.
Definition HEAP_GROW_PAGES : Z := 16.
Definition FREE_LIST_WALK_BOUND : Z := 1000000.
Definition MAX_CHUNKS : Z := 8192.
Definition CPU_CACHE_CAP : Z := 64.
Definition MAX_CPUS : Z := 16.
Definition MAX_BLOCK : Z := 1073741824.

Record Layout := mkLayout { l_size : Z; l_align : Z }.

(** ** Memory *)

(** [words] are by physical address, and [junk] is what a frame holds before it is
    written.  [mapped] are the mappings, each a virtual range and the physical address it
    starts at. *)
Record Mem := mkMem { junk : Z -> Z; words : gmap Z Z; mapped : list (Z * Z * Z) }.

(** The mapping covers [n] bytes from [a]. *)
Definition maps (a n : Z) (r : Z * Z * Z) : bool := (r.1.1 <=? a) && (a + n <=? r.1.1 + r.1.2).

Definition is_mapped (m : Mem) (a n : Z) : bool := existsb (maps a n) (mapped m).

(** The physical address of the word at [a]. *)
Definition phys_of (m : Mem) (a : Z) : option Z := (fun r => r.2 + (a - r.1.1)) <$> List.find (maps a 8) (mapped m).

Definition word_ok (m : Mem) (a : Z) : bool := (a mod 8 =? 0) && is_mapped m a 8.

Definition load (m : Mem) (a : Z) : hres Z :=
  if a mod 8 =? 0 then
    match phys_of m a with
    | Some p => Ok (default (junk m p) (words m !! p))
    | None => Panic
    end
  else Panic.

Definition store (m : Mem) (a v : Z) : hres Mem :=
  if a mod 8 =? 0 then
    match phys_of m a with
    | Some p => Ok (mkMem (junk m) (<[p := v]> (words m)) (mapped m))
    | None => Panic
    end
  else Panic.

Definition map_range (m : Mem) (v s pa : Z) : Mem := mkMem (junk m) (words m) ((v, s, pa) :: mapped m).

Definition unmap_range (m : Mem) (v s : Z) : Mem :=
  mkMem (junk m) (words m) (List.filter (fun r => negb (bool_decide (r.1 = (v, s)))) (mapped m)).

(** ** Blocks *)

Record ChunkMeta := mkChunk { c_vaddr : Z; c_phys : Z; c_size : Z; c_live : Z; c_scattered : bool }.

Record HeapInner := mkHeap { mem : Mem; free_list : Z; low_vaddr : Z; root : Z; chunks : list ChunkMeta }.

Definition set_mem (h : HeapInner) (m : Mem) : HeapInner := mkHeap m (free_list h) (low_vaddr h) (root h) (chunks h).
Definition set_free_list (h : HeapInner) (x : Z) : HeapInner := mkHeap (mem h) x (low_vaddr h) (root h) (chunks h).
Definition set_low (h : HeapInner) (x : Z) : HeapInner := mkHeap (mem h) (free_list h) x (root h) (chunks h).
Definition set_chunks (h : HeapInner) (x : list ChunkMeta) : HeapInner := mkHeap (mem h) (free_list h) (low_vaddr h) (root h) x.

Definition hload (h : HeapInner) (a : Z) : hres Z := load (mem h) a.
Definition hstore (h : HeapInner) (a v : Z) : hres HeapInner := let? m := store (mem h) a v in Ok (set_mem h m).

(** The [size] and [next] fields of a header. *)
Definition size_at (h : HeapInner) (block : Z) : hres Z := hload h block.
Definition next_at (h : HeapInner) (block : Z) : hres Z := hload h (block + 8).
Definition set_size_at (h : HeapInner) (block v : Z) : hres HeapInner := hstore h block v.
Definition set_next_at (h : HeapInner) (block v : Z) : hres HeapInner := hstore h (block + 8) v.

(** The word before a payload is the address of its header. *)
Definition from_payload `{Profile} (h : HeapInner) (ptr : Z) : hres Z :=
  let? _ := debug_assert (negb (ptr =? 0)) in
  let? _ := debug_assert (BACKPTR_SIZE <=? ptr) in
  let? header_ptr := hload h (ptr - BACKPTR_SIZE) in
  let? _ := debug_assert (negb (header_ptr =? 0)) in
  Ok header_ptr.

Definition block_end (block size : Z) : Z := default u64_max (checked_add_u64 block size).

Definition is_valid (addr size : Z) : bool :=
  if size <? MIN_BLOCK_SIZE then false
  else if negb (size mod BLOCK_ALIGN =? 0) then false
  else
    match checked_add_u64 addr size with
    | None => false
    | Some e =>
        if ((addr <? HEAP_FLOOR) || (HEAP_TOP <? e)) && (MAX_BLOCK <? size) then false
        else negb (MAX_BLOCK <? size)
    end.

(** ** The free list *)

(** [prev.next = n], or the head when there is no [prev]. *)
Definition link (h : HeapInner) (prev n : Z) : hres HeapInner :=
  if prev =? 0 then Ok (set_free_list h n) else set_next_at h prev n.

(** One step of the walk of [push_free] to the place of [block]. *)
Definition push_walk (block : Z) (st : HeapInner * Z * Z * Z)
  : HeapInner * Z * Z * Z + hres (HeapInner * Z * Z) :=
  let '(h, prev, cur, steps) := st in
  if negb (cur =? 0) && (cur <? block) then
    if FREE_LIST_WALK_BOUND <? steps + 1 then inr Panic
    else
      match (let? size := size_at h cur in let? next := next_at h cur in Ok (size, next)) with
      | Ok (size, next) =>
          if negb (is_valid cur size) then
            match link h prev next with
            | Ok h => inl (h, prev, next, steps + 1)
            | Err e => inr (Err e)
            | Panic => inr Panic
            end
          else inl (h, cur, next, steps + 1)
      | Err e => inr (Err e)
      | Panic => inr Panic
      end
  else inr (Ok (h, prev, cur)).

Definition WALK_FUEL : positive := 1000002.

Definition walk_to (h : HeapInner) (block : Z) : hres (HeapInner * Z * Z) :=
  match iter_pos WALK_FUEL (push_walk block) (h, 0, free_list h, 0) with
  | inr r => r
  | inl _ => Panic
  end.

(** The successor is dropped when its header is damaged. *)
Definition check_next (h : HeapInner) (prev cur : Z) : hres (HeapInner * Z) :=
  if cur =? 0 then Ok (h, cur)
  else
    let? size := size_at h cur in
    if is_valid cur size then Ok (h, cur)
    else
      let? succ := next_at h cur in
      let? h := link h prev succ in
      Ok (h, succ).

Definition check_prev (h : HeapInner) (prev : Z) : hres unit :=
  if prev =? 0 then Ok tt
  else let? size := size_at h prev in if is_valid prev size then Ok tt else Panic.

Definition coalesced (a b : Z) : hres Z :=
  match checked_add_u64 a b with
  | None => Panic
  | Some n => if MAX_BLOCK <? n then Panic else Ok n
  end.

(** [block] absorbs its successor when they touch. *)
Definition join_next (h : HeapInner) (block cur : Z) : hres HeapInner :=
  if cur =? 0 then Ok h
  else
    let? size := size_at h block in
    if block_end block size =? cur then
      let? cur_size := size_at h cur in
      let? n := coalesced size cur_size in
      let? cur_next := next_at h cur in
      let? h := set_size_at h block n in
      set_next_at h block cur_next
    else set_next_at h block cur.

(** [prev] absorbs [block] when they touch. *)
Definition join_prev (h : HeapInner) (prev block : Z) : hres HeapInner :=
  if prev =? 0 then Ok (set_free_list h block)
  else
    let? prev_size := size_at h prev in
    if block_end prev prev_size =? block then
      let? size := size_at h block in
      let? n := coalesced prev_size size in
      let? next := next_at h block in
      let? h := set_size_at h prev n in
      set_next_at h prev next
    else set_next_at h prev block.

Definition push_free (h : HeapInner) (block : Z) : hres HeapInner :=
  let? size := size_at h block in
  if negb (is_valid block size) then Ok h
  else
    let? h := set_next_at h block 0 in
    let? r := walk_to h block in
    let '(h, prev, cur) := r in
    let? r := check_next h prev cur in
    let '(h, cur) := r in
    let? _ := check_prev h prev in
    let? h := join_next h block cur in
    join_prev h prev block.

Definition add_region (h : HeapInner) (start size : Z) : hres HeapInner :=
  let? h := set_size_at h start size in
  let? h := set_next_at h start 0 in
  push_free h start.

Definition remove_next (h : HeapInner) (prev : Z) : hres HeapInner :=
  if prev =? 0 then
    if free_list h =? 0 then Ok h
    else let? next := next_at h (free_list h) in Ok (set_free_list h next)
  else
    let? target := next_at h prev in
    if target =? 0 then Ok h
    else let? next := next_at h target in set_next_at h prev next.

(** ** Allocation *)

Definition align_up (v align : Z) : Z := Z.land v (Z.lnot (align - 1)).

(** Where the payload and the allocation would lie in a block. *)
Definition fit (block_addr align needed : Z) : option (Z * Z) :=
  v ← checked_add_u64 block_addr (HEADER_SIZE + BACKPTR_SIZE + align - 1);
  let payload_addr := align_up v align in
  payload_end ← checked_add_u64 payload_addr needed;
  v ← checked_add_u64 payload_end (BLOCK_ALIGN - 1);
  Some (payload_addr, align_up v BLOCK_ALIGN).

(** Take the block [curr] for an allocation that ends at [alloc_end]. *)
Definition carve (h : HeapInner) (prev curr next block_end alloc_end payload_addr : Z) : hres (HeapInner * Z) :=
  let remaining := block_end - alloc_end in
  let? h :=
    (if MIN_BLOCK_SIZE <=? remaining then
       let alloc_size := alloc_end - curr in
       let? h := set_size_at h curr alloc_size in
       let remainder := curr + alloc_size in
       let? h := set_size_at h remainder remaining in
       let? h := set_next_at h remainder next in
       link h prev remainder
     else remove_next h prev) in
  let? h := hstore h (payload_addr - BACKPTR_SIZE) curr in
  Ok (h, payload_addr).

(** One round of the first-fit loop.  When an address computation overflows the
    code goes on without moving to the next block. *)
Definition alloc_round (h : HeapInner) (align needed : Z) (st : Z * Z) : Z * Z + hres (HeapInner * Z) :=
  let '(prev, curr) := st in
  if curr =? 0 then inr (Ok (h, 0))
  else
    match (let? size := size_at h curr in let? next := next_at h curr in Ok (size, next)) with
    | Ok (size, next) =>
        match checked_add_u64 curr size, fit curr align needed with
        | Some block_end, Some (payload_addr, alloc_end) =>
            if alloc_end <=? block_end then inr (carve h prev curr next block_end alloc_end payload_addr)
            else inl (curr, next)
        | _, _ => inl (prev, curr)
        end
    | Err e => inr (Err e)
    | Panic => inr Panic
    end.

(** More rounds than the arena has room for blocks. *)
Definition ALLOC_FUEL : positive := 20971522.

Definition alloc_align (l : Layout) : Z := Z.max (l_align l) BLOCK_ALIGN.
Definition alloc_needed (l : Layout) : Z := Z.max (l_size l) MIN_ALLOC.

Definition alloc_inner (h : HeapInner) (l : Layout) : hres (HeapInner * Z) :=
  match iter_pos ALLOC_FUEL (alloc_round h (alloc_align l) (alloc_needed l)) (0, free_list h) with
  | inr r => r
  | inl _ => Panic
  end.

(** ** Chunks *)

Definition register_chunk (h : HeapInner) (vaddr phys size : Z) (scattered : bool) : hres HeapInner :=
  let? _ := assert_ (Z.of_nat (length (chunks h)) <? MAX_CHUNKS) in
  Ok (set_chunks h (chunks h ++ [mkChunk vaddr phys size 0 scattered])).

(** The lowest address of the next chunk of [size] bytes. *)
Definition next_low (h : HeapInner) (size : Z) : option Z :=
  v ← (if low_vaddr h =? u64_max then checked_sub_u64 HEAP_TOP size
       else v ← checked_sub_u64 (low_vaddr h) HEAP_GUARD_BYTES; checked_sub_u64 v size);
  if HEAP_FLOOR <=? v then Some v else None.

(** What the heap asks of the page tables: [root] is the table in use, and
    mapping takes frames for tables. *)
Class VmmOps (V : Type) := {
  vmm_map : Z -> V -> BitmapAllocator -> Z -> Z -> Z -> hres (V * BitmapAllocator);
  vmm_map_4k : Z -> V -> BitmapAllocator -> Z -> Z -> hres (V * BitmapAllocator);
  vmm_unmap : Z -> V -> BitmapAllocator -> Z -> Z -> hres (V * BitmapAllocator);
  vmm_translate : Z -> V -> Z -> option Z
}.

(** A CPU's cache: the payloads form a list through their first words. *)
Record PerCpuCache := mkCache { c_head : Z; c_count : Z }.

Record KHeap (V : Type) := mkK {
  inner : HeapInner;
  caches : list PerCpuCache;
  frames : BitmapAllocator;
  vmm : V;
  initialized : bool
}.
Arguments mkK {V} _ _ _ _ _.
Arguments inner {V} _.
Arguments caches {V} _.
Arguments frames {V} _.
Arguments vmm {V} _.
Arguments initialized {V} _.

Section Heap.
Context `{Profile} {V : Type} `{VmmOps V}.
Implicit Types k : KHeap V.

Definition set_inner k (h : HeapInner) : KHeap V := mkK h (caches k) (frames k) (vmm k) (initialized k).
Definition set_caches k (c : list PerCpuCache) : KHeap V := mkK (inner k) c (frames k) (vmm k) (initialized k).
Definition set_frames k (f : BitmapAllocator) : KHeap V := mkK (inner k) (caches k) f (vmm k) (initialized k).

(** A mapping of [s] bytes at [v] to [pa], and the memory it makes accessible. *)
Definition with_map k (v s pa : Z) (r : hres (V * BitmapAllocator)) : hres (KHeap V) :=
  let? r := r in
  Ok (mkK (set_mem (inner k) (map_range (mem (inner k)) v s pa)) (caches k) r.2 r.1 (initialized k)).

(** ** Growth *)

(** A contiguous run of frames, 2 MiB aligned if it is that large. *)
Definition contiguous (f : BitmapAllocator) (count : Z) : hres (BitmapAllocator * Z) :=
  match (if 512 <=? count then try_alloc_contiguous_aligned f count 512 else Err NoFrames) with
  | Err _ => try_alloc_contiguous f count
  | r => r
  end.

(** Single frames, one mapped page each, until [n] are mapped or none is left. *)
Fixpoint map_scattered (n : nat) (low got : Z) k : hres (KHeap V * Z) :=
  match n with
  | O => Ok (k, got)
  | S n =>
      let? r := alloc (frames k) in
      match r with
      | (f, Some frame) =>
          let va := low + got * 4096 in
          let? k := with_map (set_frames k f) va 4096 frame (vmm_map_4k (root (inner k)) (vmm k) f va frame) in
          map_scattered n low (got + 1) k
      | (f, None) => Ok (set_frames k f, got)
      end
  end.

Definition unmap_page k (va : Z) : hres (KHeap V) :=
  let pa := vmm_translate (root (inner k)) (vmm k) va in
  let? r := vmm_unmap (root (inner k)) (vmm k) (frames k) va 4096 in
  let k := mkK (set_mem (inner k) (unmap_range (mem (inner k)) va 4096)) (caches k) r.2 r.1 (initialized k) in
  match pa with
  | Some pa => let? f := free (frames k) (Z.land pa (Z.lnot 4095)) in Ok (set_frames k f)
  | None => Ok k
  end.

Fixpoint unmap_scattered (pages : list Z) (low : Z) k : hres (KHeap V) :=
  match pages with
  | [] => Ok k
  | i :: pages => let? k := unmap_page k (low + i * 4096) in unmap_scattered pages low k
  end.

(** Frames for [count] pages at [low]: their base if they are contiguous, or 0
    and a mark if they are scattered. *)
Definition back_pages k (low size count : Z) : hres (KHeap V * option (Z * bool)) :=
  match contiguous (frames k) count with
  | Ok (f, pa) =>
      let? k := with_map (set_frames k f) low size pa (vmm_map (root (inner k)) (vmm k) f low pa size) in
      Ok (k, Some (pa, false))
  | Err _ =>
      let? r := map_scattered (Z.to_nat count) low 0 k in
      let '(k, got) := r in
      if got =? count then Ok (k, Some (0, true))
      else let? k := unmap_scattered (seqZ 0 got) low k in Ok (k, None)
  | Panic => Panic
  end.

(** The first chunk, mapped with the heap locked. *)
Definition allocate_pages k (count : Z) : hres (KHeap V * bool) :=
  match checked_mul_u64 count 4096 with
  | None => Ok (k, false)
  | Some size =>
      match next_low (inner k) size with
      | None => Ok (k, false)
      | Some low =>
          let? r := back_pages k low size count in
          match r with
          | (k, Some (pa, scattered)) =>
              let? h := add_region (inner k) low size in
              let? h := register_chunk (set_low h low) low pa size scattered in
              Ok (set_inner k h, true)
          | (k, None) => Ok (k, false)
          end
      end
  end.

Definition init k (r : Z) : hres (KHeap V) :=
  let h := inner k in
  let k := set_inner k (mkHeap (mem h) (free_list h) (low_vaddr h) r (chunks h)) in
  let? r := allocate_pages k HEAP_INIT_PAGES in
  let? _ := assert_ r.2 in
  let k := r.1 in
  Ok (mkK (inner k) (caches k) (frames k) (vmm k) true).

(** [heap_grow] in its three parts: the addresses are reserved under the lock,
    the pages are mapped without it, and the chunk is added under it again. *)
Definition grow_reserve (h : HeapInner) (count : Z) : HeapInner * option (Z * Z * Z) :=
  match checked_mul_u64 count 4096 with
  | None => (h, None)
  | Some size =>
      match next_low h size with
      | Some low => (set_low h low, Some (low, size, low_vaddr h))
      | None => (h, None)
      end
  end.

Definition grow_commit (h : HeapInner) (low size old_low : Z) (r : option (Z * bool)) : hres (HeapInner * bool) :=
  match r with
  | Some (pa, scattered) =>
      let? h := add_region h low size in
      let? h := register_chunk h low pa size scattered in
      Ok (h, true)
  | None => Ok (if low_vaddr h =? low then set_low h old_low else h, false)
  end.

Definition heap_grow k (count : Z) : hres (KHeap V * bool) :=
  match grow_reserve (inner k) count with
  | (h, None) => Ok (set_inner k h, false)
  | (h, Some (low, size, old_low)) =>
      let? r := back_pages (set_inner k h) low size count in
      let '(k, r) := r in
      let? r := grow_commit (inner k) low size old_low r in
      Ok (set_inner k r.1, r.2)
  end.

(** ** The caches *)

Definition cache_round (h : HeapInner) (align need : Z) (st : Z * Z) : Z * Z + hres (option (Z * Z * Z)) :=
  let '(prev, cur) := st in
  if cur =? 0 then inr (Ok None)
  else
    match (let? next := hload h cur in
           let? header := from_payload h cur in
           let? size := size_at h header in
           let? e := u64_add header size in
           let? usable := u64_sub e cur in
           Ok (next, usable)) with
    | Ok (next, usable) =>
        if (need <=? usable) && (cur mod align =? 0) then inr (Ok (Some (prev, cur, next))) else inl (cur, next)
    | Err e => inr (Err e)
    | Panic => inr Panic
    end.

Definition CACHE_FUEL : positive := 65.

Definition cache_index k (cpu : Z) : hres PerCpuCache := index (caches k) cpu.

Definition per_cpu_alloc_cached k (cpu : Z) (l : Layout) : hres (KHeap V * Z) :=
  let? cache := cache_index k cpu in
  if c_head cache =? 0 then Ok (k, 0)
  else
    match iter_pos CACHE_FUEL (cache_round (inner k) (alloc_align l) (l_size l)) (0, c_head cache) with
    | inl _ => Panic
    | inr r =>
        let? r := r in
        match r with
        | None => Ok (k, 0)
        | Some (prev, cur, next) =>
            let? h := (if prev =? 0 then Ok (inner k) else hstore (inner k) prev next) in
            let? n := u64_sub (c_count cache) 1 in
            let cache := mkCache (if prev =? 0 then next else c_head cache) n in
            Ok (set_caches (set_inner k h) (<[Z.to_nat cpu := cache]> (caches k)), cur)
        end
    end.

Definition per_cpu_free_cached k (cpu payload : Z) : hres (KHeap V * bool) :=
  let? cache := cache_index k cpu in
  if CPU_CACHE_CAP <=? c_count cache then Ok (k, false)
  else
    let? h := hstore (inner k) payload (c_head cache) in
    Ok (set_caches (set_inner k h) (<[Z.to_nat cpu := mkCache payload (c_count cache + 1)]> (caches k)), true).

(** ** The global allocator *)

Definition alloc_shared k (l : Layout) : hres (KHeap V * Z) :=
  let? r := alloc_inner (inner k) l in
  Ok (set_inner k r.1, r.2).

Definition grow_pages (l : Layout) : option Z :=
  s ← checked_add_u64 (l_size l) 4095;
  n ← checked_add_u64 (s / 4096) 1;
  Some (Z.max n HEAP_GROW_PAGES).

Definition heap_alloc k (cpu : Z) (l : Layout) : hres (KHeap V * Z) :=
  if negb (initialized k) then Ok (k, 0)
  else
  let? r := per_cpu_alloc_cached k cpu l in
  let '(k, cached) := r in
  if negb (cached =? 0) then Ok (k, cached)
  else
    let? r := alloc_shared k l in
    let '(k, ptr) := r in
    if negb (ptr =? 0) then Ok (k, ptr)
    else
      match grow_pages l with
      | None => Ok (k, 0)
      | Some n =>
          let? r := heap_grow k n in
          alloc_shared r.1 l
      end.

(** Free a block to the shared list. *)
Definition free_shared k (ptr : Z) : hres (KHeap V) :=
  let? block := from_payload (inner k) ptr in
  let? h := set_next_at (inner k) block 0 in
  let? h := push_free h block in
  Ok (set_inner k h).

Definition heap_dealloc k (cpu ptr : Z) : hres (KHeap V) :=
  if ptr =? 0 then Ok k
  else
    let? r := per_cpu_free_cached k cpu ptr in
    let '(k, cached) := r in
    if cached : bool then Ok k else free_shared k ptr.

(** ** Introspection *)

Definition snapshot_round (h : HeapInner) (st : Z * Z * Z) : Z * Z * Z + hres (Z * bool) :=
  let '(len, cur, steps) := st in
  if cur =? 0 then inr (Ok (len, false))
  else if FREE_LIST_WALK_BOUND <? steps + 1 then inr (Ok (len, true))
  else
    match next_at h cur with
    | Ok next => if next =? cur then inr (Ok (len + 1, true)) else inl (len + 1, next, steps + 1)
    | Err e => inr (Err e)
    | Panic => inr Panic
    end.

(** The lowest address, the number of chunks and the length of the free list, or
    nothing when the list looks damaged. *)
Definition heap_snapshot k : hres (option (Z * Z * Z)) :=
  if negb (initialized k) then Ok (Some (0, 0, 0))
  else
    let h := inner k in
    match iter_pos WALK_FUEL (snapshot_round h) (0, free_list h, 0) with
    | inl _ => Panic
    | inr r =>
        let? r := r in
        let '(len, corrupted) := r in
        Ok (if corrupted : bool then None else Some (low_vaddr h, Z.of_nat (length (chunks h)), len))
    end.

Definition heap_chunk_snapshot k (idx : nat) : option ChunkMeta :=
  if negb (initialized k) then None else chunks (inner k) !! idx.

Definition heap_chunk_count k : Z := if negb (initialized k) then 0 else Z.of_nat (length (chunks (inner k))).
End Heap.

(** The loops run for millions of rounds; proofs use their specifications. *)
#[global] Strategy opaque [iter_pos].
