(* ===== verification/HeapFacts.v ===== *)
(** * The kernel heap: memory and blocks

    Lemmas about the memory of Heap, the linked lists in it, and the free list:
    where [push_free] puts a block and what [alloc_inner] takes. *)

From Stdlib Require Import Sorting.Sorted.
From S2P Require Import Prelude Bits PhysAlloc Heap.
Local Open Scope Z_scope.

(** The constants of the layout, for arithmetic. *)
Ltac heap_consts := unfold MIN_BLOCK_SIZE, HEADER_SIZE, BACKPTR_SIZE, MIN_ALLOC, BLOCK_ALIGN, MAX_BLOCK, HEAP_FLOOR, HEAP_TOP,
  KERNEL_VMA_BASE, HEAP_GUARD_BYTES, u64_max in *.

(** ** Memory *)

(** The word at a virtual address. *)
Definition val (m : Mem) (a : Z) : Z :=
  match phys_of m a with Some p => default (junk m p) (words m !! p) | None => 0 end.

Lemma maps_spec a n q : maps a n q = true <-> q.1.1 <= a /\ a + n <= q.1.1 + q.1.2.
Proof. unfold maps. lia. Qed.

Lemma phys_of_mapped m a : is_Some (phys_of m a) <-> is_mapped m a 8 = true.
Proof.
  unfold phys_of, is_mapped. rewrite fmap_is_Some, existsb_exists. split.
  - intros [q Hq]. apply find_some in Hq. by exists q.
  - intros (q & Hin & Hq). destruct (List.find _ _) as [q'|] eqn:E; [done|]. apply (find_none _ _ E) in Hin. congruence.
Qed.

Lemma word_ok_phys m a : word_ok m a = true -> a mod 8 =? 0 = true /\ exists p, phys_of m a = Some p.
Proof. unfold word_ok. rewrite andb_true_iff, <- phys_of_mapped. intros [? [p ?]]. eauto. Qed.

Lemma load_val m a : word_ok m a = true -> load m a = Ok (val m a).
Proof. intros (E & p & Ep)%word_ok_phys. unfold load, val. by rewrite E, Ep. Qed.

Definition put (m : Mem) (a v : Z) : Mem :=
  mkMem (junk m) (match phys_of m a with Some p => <[p := v]> (words m) | None => words m end) (mapped m).

Lemma store_put m a v : word_ok m a = true -> store m a v = Ok (put m a v).
Proof. intros (E & p & Ep)%word_ok_phys. unfold store, put. by rewrite E, Ep. Qed.

Lemma store_ok m a v m' : store m a v = Ok m' -> word_ok m a = true /\ m' = put m a v.
Proof.
  unfold store, put. destruct (a mod 8 =? 0) eqn:E; [|done]. destruct (phys_of m a) as [p|] eqn:Ep; [|done]. intros [= <-].
  split; [|done]. unfold word_ok. rewrite E. cbn [andb]. apply phys_of_mapped. by exists p.
Qed.

Lemma val_put_eq m a v : word_ok m a = true -> val (put m a v) a = v.
Proof.
  intros (_ & p & Ep)%word_ok_phys. unfold val, put, phys_of in *. cbn [words junk mapped]. rewrite Ep. by rewrite lookup_insert_eq.
Qed.

(** No physical address backs two mappings. *)
Definition backs_apart (q q' : Z * Z * Z) : Prop := q.2 + q.1.2 <= q'.2 \/ q'.2 + q'.1.2 <= q.2.

Definition unshared (m : Mem) : Prop := ForallOrdPairs backs_apart (mapped m).
Existing Class unshared.
#[global] Hint Extern 0 (unshared _) => assumption : typeclass_instances.

Lemma phys_of_inj m a w p `{Hu : !unshared m} : phys_of m a = Some p -> phys_of m w = Some p -> a = w.
Proof.
  revert Hu. unfold unshared, phys_of. induction 1 as [|q l Hq _ IH]; [done|]. cbn [List.find].
  assert (forall x y, maps x 8 q = true -> maps y 8 q = false ->
    (fun r => r.2 + (y - r.1.1)) <$> List.find (maps y 8) l = Some (q.2 + (x - q.1.1)) -> False) as Hx.
  { intros x y Hx Hy Ey. apply fmap_Some in Ey as (q' & Eq & E). apply find_some in Eq as [Hin Hm].
    rewrite Forall_forall in Hq. specialize (Hq q'). apply list_elem_of_In in Hin. specialize (Hq Hin).
    apply maps_spec in Hx, Hm. unfold backs_apart in Hq. lia. }
  destruct (maps a 8 q) eqn:Ea, (maps w 8 q) eqn:Ew; cbn; intros E1 E2; simplify_eq.
  - lia.
  - by destruct (Hx a w).
  - by destruct (Hx w a).
  - by apply IH.
Qed.

Lemma val_put_ne m a v w : unshared m -> w <> a -> val (put m a v) w = val m w.
Proof.
  intros Hu Hn. unfold val. change (phys_of (put m a v) w) with (phys_of m w). destruct (phys_of m w) as [p|] eqn:Ew; [|done].
  cbn [words junk put]. destruct (phys_of m a) as [p'|] eqn:Ea; [|done]. rewrite lookup_insert_ne; [done|].
  intros ->. destruct Hn. by eapply phys_of_inj.
Qed.

Lemma word_ok_put m a v w : word_ok (put m a v) w = word_ok m w.
Proof. done. Qed.

(** ** Blocks *)

Notation block := (Z * Z)%type (only parsing).

Definition disj (x y : block) : Prop := x.1 + x.2 <= y.1 \/ y.1 + y.2 <= x.1.

Definition in_block (w : Z) (x : block) : Prop := x.1 <= w < x.1 + x.2.

(** The chunks, in the arena and kept apart by guard pages. *)
Definition region_ok (r : block) : Prop :=
  HEAP_FLOOR <= r.1 /\ r.1 + r.2 <= HEAP_TOP /\ r.1 mod 4096 = 0 /\ r.2 mod 4096 = 0 /\ 0 < r.2.

Definition apart (x y : block) : Prop :=
  x.1 + x.2 + HEAP_GUARD_BYTES <= y.1 \/ y.1 + y.2 + HEAP_GUARD_BYTES <= x.1.

Definition inside (x r : block) : Prop := r.1 <= x.1 /\ x.1 + x.2 <= r.1 + r.2.

Record blk_ok (R : list block) (x : block) : Prop := {
  bo_min : MIN_BLOCK_SIZE <= x.2;
  bo_addr : x.1 mod 8 = 0;
  bo_size : x.2 mod 8 = 0;
  bo_in : exists r, r ∈ R /\ inside x r
}.

Definition regions_ok (R : list block) : Prop := Forall region_ok R /\ ForallOrdPairs apart R.

Definition mem_ok (m : Mem) (R : list block) : Prop :=
  forall r a, r ∈ R -> a mod 8 = 0 -> r.1 <= a -> a + 8 <= r.1 + r.2 -> word_ok m a = true.

#[global] Instance disj_sym : Symmetric disj.
Proof. intros x y [?|?]; [by right|by left]. Qed.

#[global] Instance apart_sym : Symmetric apart.
Proof. intros x y [?|?]; [by right|by left]. Qed.

Lemma blk_bounds R x : regions_ok R -> blk_ok R x ->
  HEAP_FLOOR <= x.1 /\ x.1 + x.2 <= HEAP_TOP /\ 32 <= x.2.
Proof.
  intros [HR _] [Hm Ha Hs (r & Hr & Hi)]. rewrite Forall_forall in HR. specialize (HR r Hr).
  unfold region_ok, inside, MIN_BLOCK_SIZE, HEADER_SIZE, BACKPTR_SIZE, MIN_ALLOC in *. lia.
Qed.

Lemma blk_valid R x : regions_ok R -> blk_ok R x -> is_valid x.1 x.2 = true.
Proof.
  intros HR Hx. destruct (blk_bounds R x HR Hx) as (H1 & H2 & H3). destruct Hx as [Hm _ Hs _].
  heap_consts. unfold is_valid, checked_add_u64. heap_consts. rewrite Hs. repeat case_match; try done; lia.
Qed.

Lemma blk_word m R x w : mem_ok m R -> blk_ok R x -> w mod 8 = 0 -> in_block w x -> word_ok m w = true.
Proof.
  intros Hm [_ Ha Hs (r & Hr & Hi)] Hw Hin. apply (Hm r); [done|done|..]; unfold in_block, inside in *; [lia|].
  assert (w + 8 <= x.1 + x.2) by mlia. lia.
Qed.

Lemma blk_end R x : regions_ok R -> blk_ok R x -> block_end x.1 x.2 = x.1 + x.2.
Proof.
  intros HR Hx. destruct (blk_bounds R x HR Hx) as (H1 & H2 & H3).
  unfold block_end, checked_add_u64. heap_consts. case_match; [done|lia].
Qed.

(** Blocks that touch lie in one chunk. *)
Lemma blk_join R x y : regions_ok R -> blk_ok R x -> blk_ok R y -> x.1 + x.2 = y.1 ->
  blk_ok R (x.1, x.2 + y.2).
Proof.
  intros [HR Hap] [Hm Ha Hs (r & Hr & Hi)] [Hm' Ha' Hs' (r' & Hr' & Hi')] E.
  unfold inside, MIN_BLOCK_SIZE, HEADER_SIZE, BACKPTR_SIZE, MIN_ALLOC in *.
  constructor; cbn [fst snd]; unfold MIN_BLOCK_SIZE, HEADER_SIZE, BACKPTR_SIZE, MIN_ALLOC; [lia|done|mlia|].
  exists r. split; [done|]. unfold inside. cbn [fst snd].
  assert (r = r' \/ apart r r') as [->|Hc]; [|lia|].
  { destruct (ForallOrdPairs_In Hap r r') as [?|[?|?]]; [by apply list_elem_of_In|by apply list_elem_of_In|by left|by right|].
    right. by symmetry. }
  unfold apart, HEAP_GUARD_BYTES in Hc. lia.
Qed.

Lemma joined_size R x y : regions_ok R -> blk_ok R x -> blk_ok R y -> x.1 + x.2 = y.1 ->
  coalesced x.2 y.2 = Ok (x.2 + y.2).
Proof.
  intros HR Hx Hy E. destruct (blk_bounds R _ HR (blk_join R x y HR Hx Hy E)) as (H1 & H2 & H3).
  destruct (blk_bounds R x HR Hx) as (_ & _ & ?). destruct (blk_bounds R y HR Hy) as (_ & _ & ?).
  unfold coalesced, checked_add_u64. heap_consts. cbn [fst snd] in *.
  destruct (Z.leb_spec (x.2 + y.2) 18446744073709551615); [|lia]. by rewrite (proj2 (Z.ltb_ge _ _)) by lia.
Qed.

(** *** Lists of disjoint blocks *)

Notation disjoint_all := (ForallOrdPairs disj).

Lemma fop_cons {A} (P : A -> A -> Prop) x l : ForallOrdPairs P (x :: l) <-> Forall (P x) l /\ ForallOrdPairs P l.
Proof. split; [by inversion 1|]. intros [? ?]. by constructor. Qed.

Lemma fop_app {A} (P : A -> A -> Prop) l1 l2 : ForallOrdPairs P (l1 ++ l2) <->
  ForallOrdPairs P l1 /\ ForallOrdPairs P l2 /\ Forall (fun x => Forall (P x) l2) l1.
Proof.
  induction l1 as [|x l1 IH]; cbn [app].
  - split; [intros ?; split_and!; [constructor|done|constructor]|tauto].
  - rewrite !fop_cons, IH, Forall_app, Forall_cons. tauto.
Qed.

#[global] Instance fop_perm {A} (P : A -> A -> Prop) `{!Symmetric P} : Proper ((≡ₚ) ==> iff) (ForallOrdPairs P).
Proof.
  intros l1 l2 Hp. induction Hp as [|x l1 l2 Hp IH|x y l|l1 l2 l3 _ IH1 _ IH2].
  - done.
  - rewrite !fop_cons, IH. by rewrite Hp.
  - rewrite !fop_cons, !Forall_cons. split; intros [[Ha Hb] [Hc Hd]]; split_and!; try done; by symmetry.
  - by rewrite IH1.
Qed.

Lemma disj_shrink x y z : inside y x -> disj x z -> disj y z.
Proof. unfold inside, disj. lia. Qed.

(** ** Linked lists *)

(** Memory that holds the same words in a block. *)
Definition agree (m m' : Mem) (x : block) : Prop := forall w, in_block w x -> val m' w = val m w.

Lemma agree_put m a v x y : unshared m -> in_block a x -> disj x y -> agree m (put m a v) y.
Proof. intros Hu Hx Hd w Hw. apply val_put_ne; [done|]. unfold in_block, disj in *. lia. Qed.

Lemma agree_trans m1 m2 m3 x : agree m1 m2 x -> agree m2 m3 x -> agree m1 m3 x.
Proof. intros Ha Hb w Hw. rewrite Hb by done. by apply Ha. Qed.

Lemma agree_refl m x : agree m m x.
Proof. by intros w. Qed.

(** The address of the first block, or [t]. *)
Definition haddr (l : list block) (t : Z) : Z := match l with [] => t | x :: _ => x.1 end.

(** The address of the last block, or [t]. *)
Definition laddr (l : list block) (t : Z) : Z := match last l with Some x => x.1 | None => t end.

(** Headers that hold their sizes and point to the next block; the last points
    to [t]. *)
Fixpoint fseg (m : Mem) (l : list block) (t : Z) : Prop :=
  match l with
  | [] => True
  | x :: l => val m x.1 = x.2 /\ val m (x.1 + 8) = haddr l t /\ fseg m l t
  end.

Lemma haddr_app l1 l2 t : haddr (l1 ++ l2) t = haddr l1 (haddr l2 t).
Proof. by destruct l1. Qed.

Lemma laddr_snoc l x t : laddr (l ++ [x]) t = x.1.
Proof. unfold laddr. by rewrite last_snoc. Qed.

Lemma fseg_app m l1 l2 t : fseg m (l1 ++ l2) t <-> fseg m l1 (haddr l2 t) /\ fseg m l2 t.
Proof. induction l1 as [|x l1 IH]; cbn [app fseg]; [tauto|]. rewrite haddr_app, IH. tauto. Qed.

Lemma fseg_agree m m' l t : Forall (fun x => MIN_BLOCK_SIZE <= x.2) l -> Forall (agree m m') l -> fseg m l t -> fseg m' l t.
Proof.
  induction l as [|x l IH]; cbn [fseg]; [done|]. intros [Hx Hl]%Forall_cons [Ax Al]%Forall_cons (Hs & Hn & Hf).
  heap_consts. rewrite !Ax by (unfold in_block; lia). auto.
Qed.

(** The order of the free list: by address, with something in between. *)
Definition before (x y : block) : Prop := x.1 + x.2 < y.1.

Notation ordered := (StronglySorted before).

Lemma ss_app {A} (P : A -> A -> Prop) l1 l2 : StronglySorted P (l1 ++ l2) <->
  StronglySorted P l1 /\ StronglySorted P l2 /\ Forall (fun x => Forall (P x) l2) l1.
Proof.
  induction l1 as [|x l1 IH]; cbn [app].
  - split; [intros ?; split_and!; [constructor|done|constructor]|tauto].
  - split.
    + intros [Hs Hf]%StronglySorted_inv. apply IH in Hs as (H1 & H2 & H3). apply Forall_app in Hf as [F1 F2].
      split_and!; [by constructor|done|by constructor].
    + intros ([Hs1 Hf1]%StronglySorted_inv & Hs2 & [Hx Hr]%Forall_cons). constructor; [by apply IH|].
      by apply Forall_app.
Qed.

Lemma ordered_disjoint l : ordered l -> disjoint_all l.
Proof.
  induction 1 as [|x l _ IH Hf]; constructor; [|done]. eapply Forall_impl; [exact Hf|].
  unfold before, disj. intros y Hy. left. lia.
Qed.

(** ** Where a freed block goes *)

(** [b] absorbs the block behind it. *)
Definition join_right (b : block) (post : list block) : list block :=
  match post with
  | y :: post => if b.1 + b.2 =? y.1 then (b.1, b.2 + y.2) :: post else b :: y :: post
  | [] => [b]
  end.

(** The last block before [b] absorbs it. *)
Fixpoint join_left (pre l : list block) : list block :=
  match pre with
  | [] => l
  | [x] => match l with
           | y :: l => if x.1 + x.2 =? y.1 then (x.1, x.2 + y.2) :: l else x :: y :: l
           | [] => [x]
           end
  | x :: pre => x :: join_left pre l
  end.

Definition placed (pre post : list block) (b : block) : list block := join_left pre (join_right b post).

Lemma join_left_snoc pre x l : join_left (pre ++ [x]) l = pre ++ join_left [x] l.
Proof.
  induction pre as [|y pre IH]; [done|]. cbn [app]. rewrite <- IH. cbn [join_left]. by destruct pre.
Qed.

Lemma join_right_head b post t : haddr (join_right b post) t = b.1.
Proof. destruct post as [|y post]; [done|]. unfold join_right. by case_match. Qed.

Fixpoint total (l : list block) : Z := match l with [] => 0 | x :: l => x.2 + total l end.

Lemma total_app l1 l2 : total (l1 ++ l2) = total l1 + total l2.
Proof. induction l1 as [|x l1 IH]; cbn [app total]; lia. Qed.

Section Place.
Context (R : list block) (HR : regions_ok R).

Lemma join_right_ok b post : blk_ok R b -> Forall (blk_ok R) post -> ordered post -> Forall (disj b) post ->
  Forall (fun y => b.1 < y.1) post ->
  Forall (blk_ok R) (join_right b post) /\ ordered (join_right b post) /\ total (join_right b post) = total (b :: post)
  /\ (forall z, 0 < z.2 -> disj b z -> Forall (disj z) post -> Forall (disj z) (join_right b post)).
Proof.
  intros Hb Hp Ho Hd Hlt. destruct post as [|y post]; cbn [join_right].
  { split_and!; [by constructor|by repeat constructor|done|]. intros z _ Hz _. constructor; [by symmetry|done]. }
  apply Forall_cons in Hp as [Hy Hp]. apply StronglySorted_inv in Ho as [Ho Hf].
  apply Forall_cons in Hd as [Dy Dp]. apply Forall_cons in Hlt as [Ly Lp].
  pose proof (blk_bounds R y HR Hy). pose proof (blk_bounds R b HR Hb).
  destruct (Z.eqb_spec (b.1 + b.2) y.1) as [E|E].
  - split_and!.
    + constructor; [|done]. by apply blk_join.
    + constructor; [done|]. eapply Forall_impl; [exact Hf|]. unfold before. cbn [fst snd]. lia.
    + cbn [total fst snd]. lia.
    + intros z Hz0 Hz [Zy Zp]%Forall_cons. constructor; [|done]. unfold disj in *. cbn [fst snd]. lia.
  - assert (before b y) as Hby by (unfold before, disj in *; lia).
    split_and!; [constructor; [done|by constructor]| |done|].
    + constructor; [by constructor|]. constructor; [done|]. eapply Forall_impl; [exact Hf|].
      unfold before in *. intros z. lia.
    + intros z _ Hz Hzp. constructor; [by symmetry|done].
Qed.

Lemma join_left_ok pre x l y : blk_ok R x -> blk_ok R y -> ordered (pre ++ [x]) -> Forall (blk_ok R) l -> ordered (y :: l) ->
  x.1 < y.1 -> disj x y ->
  ordered (pre ++ join_left [x] (y :: l)).
Proof.
  intros Hx Hy [Ho1 [_ Hpx]]%ss_app Hl Ho Hlt Hd. pose proof (blk_bounds R y HR Hy). pose proof (blk_bounds R x HR Hx).
  apply StronglySorted_inv in Ho as [Ho Hf].
  assert (forall z, before z x -> Forall (before z) (join_left [x] (y :: l))) as Hpre.
  { intros z Hz. assert (Forall (before z) l) as Hzl.
    { eapply Forall_impl; [exact Hf|]. unfold before, disj in *. intros u. lia. }
    cbn [join_left]. case_match; repeat (constructor; [unfold before, disj in *; cbn [fst snd]; lia|]); done. }
  apply ss_app. split_and!; [done| |].
  - cbn [join_left]. destruct (Z.eqb_spec (x.1 + x.2) y.1) as [E|E].
    + constructor; [done|]. eapply Forall_impl; [exact Hf|]. unfold before. cbn [fst snd]. intros u. lia.
    + assert (before x y) by (unfold before, disj in *; lia).
      constructor; [by constructor|]. constructor; [done|]. eapply Forall_impl; [exact Hf|]. unfold before in *. intros u. lia.
  - eapply Forall_impl; [exact Hpx|]. intros z [Hz _]%Forall_cons. by apply Hpre.
Qed.
End Place.

Lemma placed_ok R pre post b : regions_ok R -> ordered (pre ++ post) -> Forall (blk_ok R) (pre ++ post) -> blk_ok R b ->
  Forall (disj b) (pre ++ post) -> Forall (fun x => x.1 < b.1) pre -> Forall (fun y => b.1 < y.1) post ->
  ordered (placed pre post b) /\ Forall (blk_ok R) (placed pre post b) /\ total (placed pre post b) = total (b :: pre ++ post)
  /\ (forall z, 0 < z.2 -> disj b z -> Forall (disj z) (pre ++ post) -> Forall (disj z) (placed pre post b)).
Proof.
  intros HR (Ho1 & Ho2 & Hoo)%ss_app [Hk1 Hk2]%Forall_app Hb [Hd1 Hd2]%Forall_app Hlt Hgt.
  destruct (join_right_ok R HR b post Hb Hk2 Ho2 Hd2 Hgt) as (Kr & Or & Tr & Dr).
  unfold placed. destruct pre as [|x pre _] using rev_ind.
  { cbn [join_left app]. split_and!; done. }
  rewrite join_left_snoc. apply Forall_app in Hk1 as [Hk1 [Hx _]%Forall_cons].
  apply Forall_app in Hd1 as [Hd1 [Dx _]%Forall_cons]. apply Forall_app in Hlt as [Hlt [Lx _]%Forall_cons].
  apply Forall_app in Hoo as [_ [Hxp _]%Forall_cons]. pose proof (blk_bounds R x HR Hx). pose proof (blk_bounds R b HR Hb).
  destruct (join_right b post) as [|y l] eqn:El.
  { destruct post as [|y post]; cbn [join_right] in El; [done|]. by case_match. }
  assert (y.1 = b.1) as Ey. { pose proof (join_right_head b post 0) as E. by rewrite El in E. }
  apply Forall_cons in Kr as [Ky Kl]. pose proof (blk_bounds R y HR Ky).
  assert (disj x y) as Dxy by (unfold disj in *; lia).
  split_and!.
  - apply (join_left_ok R HR); [done|done|done|done|done|lia|done].
  - apply Forall_app. split; [done|]. cbn [join_left]. destruct (Z.eqb_spec (x.1 + x.2) y.1) as [E|E].
    + constructor; [by apply blk_join|done].
    + constructor; [done|by constructor].
  - rewrite !total_app. cbn [total] in *. rewrite !total_app. cbn [join_left total].
    destruct (x.1 + x.2 =? y.1); cbn [total fst snd]; lia.
  - intros z Hz0 Hz [[Hz1 [Hzx _]%Forall_cons]%Forall_app Hz2]%Forall_app. apply Forall_app. split; [done|].
    destruct (proj1 (Forall_cons _ _ _) (Dr z Hz0 Hz Hz2)) as [Zy Zl]. cbn [join_left].
    destruct (Z.eqb_spec (x.1 + x.2) y.1) as [E|E]; repeat (constructor; [first [done|unfold disj in *; cbn [fst snd]; lia]|]); done.
Qed.

(** ** push_free *)

Lemma size_at_val h a : word_ok (mem h) a = true -> size_at h a = Ok (val (mem h) a).
Proof. apply load_val. Qed.

Lemma next_at_val h a : word_ok (mem h) (a + 8) = true -> next_at h a = Ok (val (mem h) (a + 8)).
Proof. apply load_val. Qed.

Lemma hstore_put h a v : word_ok (mem h) a = true -> hstore h a v = Ok (set_mem h (put (mem h) a v)).
Proof. intros E. unfold hstore. by rewrite store_put. Qed.

(** The mapping is the same. *)
Definition shape (m m' : Mem) : Prop := mapped m' = mapped m.

Lemma shape_mem_ok m m' R : shape m m' -> mem_ok m R -> mem_ok m' R.
Proof. intros Hs Hm r a Hr H1 H2 H3. unfold word_ok, is_mapped. rewrite Hs. by eapply Hm. Qed.

Lemma shape_unshared m m' `{!unshared m} : shape m m' -> unshared m'.
Proof. intros Hs. unfold unshared. by rewrite Hs. Qed.

Section Push.
Context (R : list block) (HR : regions_ok R).

Lemma header_words m x : mem_ok m R -> blk_ok R x -> word_ok m x.1 = true /\ word_ok m (x.1 + 8) = true.
Proof.
  intros Hm Hx. destruct (blk_bounds R x HR Hx) as (_ & _ & H3). pose proof (bo_addr R x Hx) as Ha.
  split; (apply (blk_word m R x); [done|done|mlia|unfold in_block; lia]).
Qed.

Lemma addr_nonzero x : blk_ok R x -> (x.1 =? 0) = false.
Proof. intros Hx. destruct (blk_bounds R x HR Hx) as (H1 & _). heap_consts. lia. Qed.

(** The walk passes the blocks below [b]. *)
Lemma walk_part h b pre : forall prev steps post, mem_ok (mem h) R -> Forall (blk_ok R) pre ->
  fseg (mem h) pre (haddr post 0) -> Forall (fun x => x.1 < b) pre ->
  steps + Z.of_nat (length pre) <= FREE_LIST_WALK_BOUND ->
  iter_nat (length pre) (push_walk b) (h, prev, haddr (pre ++ post) 0, steps)
  = inl (h, laddr pre prev, haddr post 0, steps + Z.of_nat (length pre)).
Proof.
  induction pre as [|x pre IH]; intros prev steps post Hm Hk Hf Hlt Hs; cbn [app length] in *.
  { cbn [iter_nat laddr last]. by rewrite Z.add_0_r. }
  apply Forall_cons in Hk as [Hx Hk]. apply Forall_cons in Hlt as [Lx Hlt]. destruct Hf as (Es & En & Hf).
  destruct (header_words _ x Hm Hx) as [W1 W2]. rewrite iter_nat_S. unfold push_walk at 1. cbn [haddr].
  rewrite (addr_nonzero x Hx), (proj2 (Z.ltb_lt x.1 b)) by lia. cbn [negb andb].
  rewrite (proj2 (Z.ltb_ge _ (steps + 1))) by lia. rewrite size_at_val, next_at_val by done. cbn [res_bind].
  rewrite Es, En, (blk_valid R x HR Hx), <- haddr_app. cbn [negb]. rewrite IH by (first [done|lia]).
  assert (laddr pre x.1 = laddr (x :: pre) prev) as ->.
  { destruct pre as [|y pre]; [done|]. unfold laddr. change (last (x :: y :: pre)) with (last (y :: pre)).
    destruct (last (y :: pre)) eqn:E; [done|]. by apply last_None in E. }
  do 2 f_equal. lia.
Qed.

Lemma walk_to_ok h b pre post : mem_ok (mem h) R -> Forall (blk_ok R) (pre ++ post) -> free_list h = haddr (pre ++ post) 0 ->
  fseg (mem h) (pre ++ post) 0 -> Forall (fun x => x.1 < b) pre -> Forall (fun y => b < y.1) post ->
  Z.of_nat (length pre) <= FREE_LIST_WALK_BOUND -> walk_to h b = Ok (h, laddr pre 0, haddr post 0).
Proof.
  intros Hm [Hk _]%Forall_app Hh [Hf _]%fseg_app Hlt Hgt Hs. unfold walk_to. rewrite Hh.
  erewrite (iter_pos_done _ (length pre + 1)); [done| |unfold FREE_LIST_WALK_BOUND, WALK_FUEL in *; lia].
  rewrite iter_nat_add, walk_part by done. cbn [iter_nat push_walk]. destruct post as [|y post]; [done|]. cbn [haddr].
  apply Forall_cons in Hgt as [Hy _]. by rewrite (proj2 (Z.ltb_ge y.1 b)), andb_false_r by lia.
Qed.

(** A longer walk is taken for a damaged list. *)
Lemma walk_to_panics h b pre post : mem_ok (mem h) R -> Forall (blk_ok R) (pre ++ post) -> free_list h = haddr (pre ++ post) 0 ->
  fseg (mem h) (pre ++ post) 0 -> Forall (fun x => x.1 < b) pre ->
  FREE_LIST_WALK_BOUND < Z.of_nat (length pre) -> walk_to h b = Panic.
Proof.
  intros Hm [Hk _]%Forall_app Hh [Hf _]%fseg_app Hlt Hs. unfold walk_to. rewrite Hh.
  pose proof (take_drop (Z.to_nat FREE_LIST_WALK_BOUND) pre) as E.
  destruct (drop (Z.to_nat FREE_LIST_WALK_BOUND) pre) as [|x l] eqn:El.
  { apply (f_equal length) in El. rewrite length_drop in El. unfold FREE_LIST_WALK_BOUND in *. cbn [length] in El. lia. }
  set (pre1 := take (Z.to_nat FREE_LIST_WALK_BOUND) pre) in *.
  assert (Z.of_nat (length pre1) = FREE_LIST_WALK_BOUND) as Hlen.
  { unfold pre1. rewrite length_take. unfold FREE_LIST_WALK_BOUND in *. lia. }
  rewrite <- E in Hk, Hf, Hlt |- *. apply Forall_app in Hk as [Hk1 [Hx _]%Forall_cons]. apply fseg_app in Hf as [Hf1 _].
  apply Forall_app in Hlt as [Hlt1 [Lx _]%Forall_cons].
  erewrite (iter_pos_done _ (length pre1 + 1)); [done| |unfold FREE_LIST_WALK_BOUND, WALK_FUEL in *; lia].
  rewrite iter_nat_add, <- app_assoc. cbn [app]. rewrite walk_part; [|done|done| |done|lia].
  2: { exact Hf1. }
  cbn [haddr iter_nat]. unfold push_walk. rewrite (addr_nonzero x Hx), (proj2 (Z.ltb_lt x.1 b)) by lia. cbn [negb andb].
  by rewrite (proj2 (Z.ltb_lt _ _)) by lia.
Qed.
End Push.

Section Join.
Context (R : list block) (HR : regions_ok R).

Lemma fseg_other m m' l t b : Forall (blk_ok R) l -> Forall (disj b) l -> (forall z, disj b z -> agree m m' z) ->
  fseg m l t -> fseg m' l t.
Proof.
  intros Hk Hd Ha. apply fseg_agree; [eapply Forall_impl; [exact Hk|apply bo_min]|]. eapply Forall_impl; [exact Hd|done].
Qed.

Lemma join_next_ok h b post `{Hush : !unshared (mem h)} : mem_ok (mem h) R -> blk_ok R b -> Forall (blk_ok R) post -> Forall (disj b) post ->
  val (mem h) b.1 = b.2 -> val (mem h) (b.1 + 8) = 0 -> fseg (mem h) post 0 ->
  exists m', join_next h b.1 (haddr post 0) = Ok (set_mem h m') /\ fseg m' (join_right b post) 0 /\ shape (mem h) m'
    /\ (forall z, disj b z -> agree (mem h) m' z).
Proof.
  intros Hm Hb Hp Hd Es En Hf. destruct (header_words R HR _ b Hm Hb) as [W1 W2]. unfold join_next.
  destruct (blk_bounds R b HR Hb) as (_ & _ & Hbs).
  destruct post as [|y post]; cbn [haddr].
  { exists (mem h). split_and!; [by destruct h|done|done|]. intros z _. apply agree_refl. }
  apply Forall_cons in Hp as [Hy Hp]. destruct (header_words R HR _ y Hm Hy) as [Y1 Y2].
  destruct Hf as (Fs & Fn & Hf). pose proof (proj1 (Forall_cons _ _ _) Hd) as [Dy Dp]. rewrite (addr_nonzero R HR y Hy).
  rewrite size_at_val by done. cbn [res_bind]. rewrite Es, (blk_end R b HR Hb).
  assert (forall m v z, unshared m -> disj b z -> agree m (put m (b.1 + 8) v) z) as A8.
  { intros m v z Hu. apply agree_put; [done|]. unfold in_block. lia. }
  unfold join_right. destruct (Z.eqb_spec (b.1 + b.2) y.1) as [E|E].
  - rewrite size_at_val by done. cbn [res_bind]. rewrite Fs, (joined_size R b y HR Hb Hy E). cbn [res_bind].
    rewrite next_at_val by done. cbn [res_bind]. unfold set_size_at. rewrite hstore_put by done. cbn [res_bind].
    unfold set_next_at. rewrite hstore_put by done. eexists. split; [done|].
    assert (forall z, disj b z -> agree (mem h) (put (put (mem h) b.1 (b.2 + y.2)) (b.1 + 8) (val (mem h) (y.1 + 8))) z) as Ha.
    { intros z Hz. eapply agree_trans; [|by apply A8]. eapply agree_put; [done| |done]. unfold in_block. lia. }
    split_and!; [|done|exact Ha]. cbn [fseg fst snd]. split_and!.
    + rewrite val_put_ne by (done || lia). by apply val_put_eq.
    + by rewrite val_put_eq by done.
    + by apply (fseg_other (mem h) _ post 0 b).
  - unfold set_next_at. rewrite hstore_put by done. eexists. split; [done|].
    split_and!; [|done|intros z Hz; by apply A8]. cbn [fseg]. split_and!.
    + by rewrite val_put_ne by (done || lia).
    + by apply val_put_eq.
    + rewrite (A8 _ _ y Hush Dy) by (destruct (blk_bounds R y HR Hy); unfold in_block; lia). done.
    + rewrite (A8 _ _ y Hush Dy) by (destruct (blk_bounds R y HR Hy); unfold in_block; lia). done.
    + apply (fseg_other (mem h) _ post 0 b); [done|done|auto|done].
Qed.

Lemma join_prev_ok h pre b l `{Hush : !unshared (mem h)} : mem_ok (mem h) R -> Forall (blk_ok R) pre -> ordered pre -> blk_ok R b -> Forall (blk_ok R) l ->
  Forall (fun x => Forall (disj x) (b :: l)) pre -> fseg (mem h) (b :: l) 0 ->
  (exists t, fseg (mem h) pre t) -> (pre <> [] -> free_list h = haddr pre 0) ->
  exists m' f', join_prev h (laddr pre 0) b.1 = Ok (set_free_list (set_mem h m') f')
    /\ f' = haddr (join_left pre (b :: l)) 0 /\ fseg m' (join_left pre (b :: l)) 0 /\ shape (mem h) m'
    /\ (forall z, Forall (fun x => disj x z) pre -> agree (mem h) m' z).
Proof.
  intros Hm Hk Ho Hb Hl Hd Hf [t Hpre] Hh. unfold join_prev. destruct pre as [|x pre _] using rev_ind.
  { exists (mem h), b.1. cbn [join_left haddr laddr]. split_and!; [by destruct h|done|done|done|]. intros z _. apply agree_refl. }
  rewrite laddr_snoc, join_left_snoc. apply Forall_app in Hk as [Hk [Hx _]%Forall_cons].
  apply Forall_app in Hd as [Hd [[Dxb Dxl]%Forall_cons _]%Forall_cons].
  apply fseg_app in Hpre as [Fp (Fx & _ & _)]. apply ss_app in Ho as (Ho & _ & Hpx).
  destruct (header_words R HR _ x Hm Hx) as [X1 X2]. destruct (header_words R HR _ b Hm Hb) as [B1 B2].
  destruct (blk_bounds R x HR Hx) as (_ & _ & Hxs). destruct (blk_bounds R b HR Hb) as (_ & _ & Hbs).
  destruct Hf as (Fb & Fn & Fl). rewrite (addr_nonzero R HR x Hx), size_at_val by done. cbn [res_bind].
  rewrite Fx, (blk_end R x HR Hx).
  assert (forall m v z, unshared m -> disj x z -> agree m (put m (x.1 + 8) v) z) as A8.
  { intros m v z Hu. apply agree_put; [done|]. unfold in_block. lia. }
  assert (forall m v z, unshared m -> disj x z -> agree m (put m x.1 v) z) as A0.
  { intros m v z Hu. apply agree_put; [done|]. unfold in_block. lia. }
  assert (Forall (disj x) pre) as Dxp.
  { eapply Forall_impl; [exact Hpx|]. intros z [Hz _]%Forall_cons. unfold before, disj in *. right. lia. }
  assert (free_list h = haddr (pre ++ join_left [x] (b :: l)) 0) as Efl.
  { rewrite Hh by (by destruct pre). destruct pre; [|done]. cbn. by case_match. }
  destruct (Z.eqb_spec (x.1 + x.2) b.1) as [E|E].
  - rewrite size_at_val by done. cbn [res_bind]. rewrite Fb, (joined_size R x b HR Hx Hb E). cbn [res_bind].
    rewrite next_at_val by done. cbn [res_bind]. unfold set_size_at. rewrite hstore_put by done. cbn [res_bind].
    unfold set_next_at. rewrite hstore_put by done. exists (put (put (mem h) x.1 (x.2 + b.2)) (x.1 + 8) (val (mem h) (b.1 + 8))), (free_list h).
    split; [reflexivity|].
    assert (forall z, disj x z -> agree (mem h) (put (put (mem h) x.1 (x.2 + b.2)) (x.1 + 8) (val (mem h) (b.1 + 8))) z) as Ha.
    { intros z Hz. eapply agree_trans; [by apply A0|by apply A8]. }
    split_and!; [done| |done|].
    + apply fseg_app. cbn [join_left]. rewrite (proj2 (Z.eqb_eq _ _) E). cbn [haddr fst]. split.
      * by apply (fseg_other (mem h) _ pre x.1 x).
      * cbn [fseg fst snd]. split_and!; [rewrite val_put_ne by (done || lia); by apply val_put_eq|by rewrite val_put_eq by done|].
        by apply (fseg_other (mem h) _ l 0 x).
    + intros z [_ [Hz _]%Forall_cons]%Forall_app. by apply Ha.
  - unfold set_next_at. rewrite hstore_put by done. exists (put (mem h) (x.1 + 8) b.1), (free_list h). split; [reflexivity|].
    split_and!; [done| |done|].
    + apply fseg_app. cbn [join_left]. rewrite (proj2 (Z.eqb_neq _ _) E). cbn [haddr]. split.
      * by apply (fseg_other (mem h) _ pre x.1 x); auto.
      * cbn [fseg]. split_and!; [by rewrite val_put_ne by (done || lia)|by rewrite val_put_eq by done| | |].
        -- by rewrite (A8 _ _ b Hush Dxb) by (unfold in_block; lia).
        -- by rewrite (A8 _ _ b Hush Dxb) by (unfold in_block; lia).
        -- apply (fseg_other (mem h) _ l 0 x); [done|done|auto|done].
    + intros z [_ [Hz _]%Forall_cons]%Forall_app. by apply A8.
Qed.
End Join.

Section PushFree.
Context (R : list block) (HR : regions_ok R).

Lemma split_at fl b : ordered fl -> Forall (blk_ok R) fl -> blk_ok R b -> Forall (disj b) fl ->
  exists pre post, fl = pre ++ post /\ Forall (fun x => x.1 < b.1) pre /\ Forall (fun y => b.1 < y.1) post.
Proof.
  intros Ho Hk Hb Hd. destruct (blk_bounds R b HR Hb) as (_ & _ & Hbs).
  induction fl as [|x fl IH]; [by exists [], []|].
  apply StronglySorted_inv in Ho as [Ho Hf]. apply Forall_cons in Hk as [Hx Hk]. apply Forall_cons in Hd as [Dx Hd].
  destruct (blk_bounds R x HR Hx) as (_ & _ & Hxs). destruct (Z.lt_ge_cases x.1 b.1) as [Hl|Hl].
  - destruct (IH Ho Hk Hd) as (pre & post & -> & Hp & Hq). exists (x :: pre), post. split_and!; [done|by constructor|done].
  - exists [], (x :: fl). split_and!; [done|done|]. constructor; [unfold disj in *; lia|].
    eapply Forall_impl; [exact Hf|]. unfold before, disj in *. intros y. lia.
Qed.

Lemma push_free_ok h pre post b `{Hush : !unshared (mem h)} : mem_ok (mem h) R -> ordered (pre ++ post) -> Forall (blk_ok R) (pre ++ post) -> blk_ok R b ->
  Forall (disj b) (pre ++ post) -> Forall (fun x => x.1 < b.1) pre -> Forall (fun y => b.1 < y.1) post ->
  free_list h = haddr (pre ++ post) 0 -> fseg (mem h) (pre ++ post) 0 -> val (mem h) b.1 = b.2 ->
  Z.of_nat (length pre) <= FREE_LIST_WALK_BOUND ->
  exists m' f', push_free h b.1 = Ok (set_free_list (set_mem h m') f') /\ f' = haddr (placed pre post b) 0
    /\ fseg m' (placed pre post b) 0 /\ shape (mem h) m'
    /\ (forall z, disj b z -> Forall (fun x => disj x z) (pre ++ post) -> agree (mem h) m' z).
Proof.
  intros Hm Ho Hk Hb Hd Hlt Hgt Hh Hf Es Hn. destruct (header_words R HR _ b Hm Hb) as [W1 W2].
  destruct (blk_bounds R b HR Hb) as (_ & _ & Hbs).
  unfold push_free. rewrite size_at_val by done. cbn [res_bind]. rewrite Es, (blk_valid R b HR Hb). cbn [negb].
  unfold set_next_at at 1. rewrite hstore_put by done. cbn [res_bind]. set (h1 := set_mem h (put (mem h) (b.1 + 8) 0)).
  assert (forall z, disj b z -> agree (mem h) (mem h1) z) as A1.
  { intros z. apply agree_put; [done|]. unfold in_block. lia. }
  assert (mem_ok (mem h1) R) as Hm1 by exact Hm.
  assert (fseg (mem h1) (pre ++ post) 0) as Hf1 by (by apply (fseg_other R (mem h) _ _ 0 b)).
  rewrite (walk_to_ok R HR h1 b.1 pre post) by done. cbn [res_bind].
  apply Forall_app in Hk as [Hk1 Hk2]. apply Forall_app in Hd as [Hd1 Hd2]. apply fseg_app in Hf1 as [Fp Fq].
  apply ss_app in Ho as (Ho1 & Ho2 & Hoo).
  assert (check_next h1 (laddr pre 0) (haddr post 0) = Ok (h1, haddr post 0)) as ->.
  { unfold check_next. destruct post as [|y post]; [done|]. cbn [haddr]. apply Forall_cons in Hk2 as [Hy _].
    rewrite (addr_nonzero R HR y Hy), size_at_val by (by apply (header_words R HR)). cbn [res_bind].
    destruct Fq as (-> & _). by rewrite (blk_valid R y HR Hy). }
  cbn [res_bind].
  assert (check_prev h1 (laddr pre 0) = Ok tt) as ->.
  { unfold check_prev. destruct pre as [|x pre _] using rev_ind; [done|]. rewrite laddr_snoc.
    apply Forall_app in Hk1 as [_ [Hx _]%Forall_cons]. apply fseg_app in Fp as [_ (Fx & _)].
    rewrite (addr_nonzero R HR x Hx), size_at_val by (by apply (header_words R HR)). cbn [res_bind].
    by rewrite Fx, (blk_valid R x HR Hx). }
  cbn [res_bind].
  destruct (join_next_ok R HR h1 b post) as (m2 & -> & F2 & S2 & A2); try done.
  { unfold h1. cbn [mem set_mem]. by rewrite val_put_ne by (done || lia). }
  { unfold h1. cbn [mem set_mem]. by apply val_put_eq. }
  cbn [res_bind]. destruct (join_right_ok R HR b post Hb Hk2 Ho2 Hd2 Hgt) as (Kr & Or & Tr & Dr).
  destruct (join_right b post) as [|y l] eqn:El; [by destruct post; cbn in El; [|case_match]|].
  assert (y.1 = b.1) as Ey. { pose proof (join_right_head b post 0) as E. by rewrite El in E. }
  apply Forall_cons in Kr as [Ky Kl].
  assert (unshared m2) as Hu2 by (by apply (shape_unshared (mem h1))).
  destruct (join_prev_ok R HR (set_mem h1 m2) pre y l) as (m3 & f3 & E3 & -> & F3 & S3 & A3); try done.
  - by apply (shape_mem_ok (mem h1)).
  - rewrite Forall_forall in Hk1, Hd1, Hoo |- *. intros x Hx. apply Dr.
    + destruct (blk_bounds R x HR (Hk1 x Hx)). lia.
    + by apply Hd1.
    + eapply Forall_impl; [apply Hoo, Hx|]. unfold before, disj. intros z. lia.
  - exists (haddr post 0). apply (fseg_other R (mem h1) m2 pre _ b); done.
  - intros Hne. change (free_list (set_mem h1 m2)) with (free_list h). rewrite Hh, haddr_app. by destruct pre.
  - rewrite <- Ey, E3. exists m3, (haddr (placed pre post b) 0). unfold placed. rewrite El. split_and!; [done|done|done| |].
    + exact (eq_trans S3 S2).
    + intros z Hz [Hzp _]%Forall_app. eapply agree_trans; [by apply A1|]. eapply agree_trans; [by apply A2|]. by apply A3.
Qed.

Lemma push_free_panics h pre post b `{Hush : !unshared (mem h)} : mem_ok (mem h) R -> Forall (blk_ok R) (pre ++ post) -> blk_ok R b ->
  Forall (disj b) (pre ++ post) -> Forall (fun x => x.1 < b.1) pre ->
  free_list h = haddr (pre ++ post) 0 -> fseg (mem h) (pre ++ post) 0 -> val (mem h) b.1 = b.2 ->
  FREE_LIST_WALK_BOUND < Z.of_nat (length pre) -> push_free h b.1 = Panic.
Proof.
  intros Hm Hk Hb Hd Hlt Hh Hf Es Hn. destruct (header_words R HR _ b Hm Hb) as [W1 W2].
  destruct (blk_bounds R b HR Hb) as (_ & _ & Hbs).
  unfold push_free. rewrite size_at_val by done. cbn [res_bind]. rewrite Es, (blk_valid R b HR Hb). cbn [negb].
  unfold set_next_at at 1. rewrite hstore_put by done. cbn [res_bind].
  rewrite (walk_to_panics R HR _ b.1 pre post); [done|exact Hm|done|done| |done|done].
  apply (fseg_other R (mem h) _ _ 0 b); [done|done| |done]. intros z. apply agree_put; [done|]. unfold in_block. lia.
Qed.
End PushFree.

(** ** Allocation *)

Record layout_ok (l : Layout) : Prop := {
  lo_size : 0 <= l_size l;
  lo_align : exists k, 0 <= k /\ l_align l = 2 ^ k;
  lo_bound : l_size l + l_align l <= 2 ^ 30
}.

Definition payload_of (a : Z) (l : Layout) : Z := (a + 24 + alloc_align l - 1) / alloc_align l * alloc_align l.
Definition end_of (a : Z) (l : Layout) : Z := (payload_of a l + alloc_needed l + 7) / 8 * 8.

(** The allocation fits into the block. *)
Definition fits (l : Layout) (x : block) : bool := end_of x.1 l <=? x.1 + x.2.

Lemma align_up_pow v k : 0 <= k -> align_up v (2 ^ k) = v / 2 ^ k * 2 ^ k.
Proof.
  intros Hk. unfold align_up. replace (2 ^ k - 1) with (Z.ones k) by (rewrite Z.ones_equiv; lia).
  rewrite <- Z.ldiff_land, Z.ldiff_ones_r, Z.shiftl_mul_pow2, Z.shiftr_div_pow2 by done. done.
Qed.

Lemma alloc_align_pow l : layout_ok l -> exists k, 3 <= k <= 30 /\ alloc_align l = 2 ^ k.
Proof.
  intros [Hs (k & Hk & E) Hb]. unfold alloc_align, BLOCK_ALIGN. rewrite E in *.
  assert (k <= 30) as Hk30. { apply (Z.pow_le_mono_r_iff 2); lia. }
  exists (Z.max k 3). split; [lia|]. destruct (Z.le_ge_cases k 3) as [Hc|Hc].
  - rewrite (Z.max_r k 3), Z.max_r by (try lia; change 8 with (2 ^ 3); by apply Z.pow_le_mono_r). done.
  - rewrite (Z.max_l k 3), Z.max_l by (try lia; change 8 with (2 ^ 3); by apply Z.pow_le_mono_r). done.
Qed.

Lemma alloc_align_mul l : layout_ok l -> exists q, 1 <= q /\ alloc_align l = 8 * q /\ alloc_align l <= 2 ^ 30.
Proof.
  intros Hl. destruct (alloc_align_pow l Hl) as (k & Hk & ->). exists (2 ^ (k - 3)).
  split; [pose proof (Z.pow_pos_nonneg 2 (k - 3)); lia|]. split; [|apply Z.pow_le_mono_r; lia].
  change 8 with (2 ^ 3). rewrite <- Z.pow_add_r by lia. f_equal. lia.
Qed.

Lemma align_divides l : layout_ok l -> (l_align l | alloc_align l).
Proof.
  intros [_ (k & Hk & E) _]. unfold alloc_align, BLOCK_ALIGN. rewrite E.
  destruct (Z.max_spec (2 ^ k) 8) as [[Hlt ->]|[_ ->]]; [|done].
  exists (2 ^ (3 - k)). assert (k < 3) by (apply (Z.pow_lt_mono_r_iff 2); lia).
  rewrite <- Z.pow_add_r by lia. by replace (3 - k + k) with 3 by lia.
Qed.

Lemma payload_bounds a l : layout_ok l -> a mod 8 = 0 ->
  a + 24 <= payload_of a l < a + 24 + alloc_align l /\ payload_of a l mod alloc_align l = 0 /\ payload_of a l mod 8 = 0.
Proof.
  intros Hl Ha. destruct (alloc_align_mul l Hl) as (q & Hq & E & _). unfold payload_of. rewrite E.
  split; [mlia|]. split; [by rewrite Z.mod_mul by lia|].
  rewrite (Z.mul_comm 8 q), Z.mul_assoc. by apply Z.mod_mul.
Qed.

Lemma end_bounds a l : layout_ok l -> a mod 8 = 0 ->
  payload_of a l + alloc_needed l <= end_of a l <= payload_of a l + alloc_needed l + 7 /\ end_of a l mod 8 = 0.
Proof. intros Hl Ha. unfold end_of. split; [mlia|by apply Z.mod_mul]. Qed.

Lemma fit_ok a l : layout_ok l -> a mod 8 = 0 -> 0 <= a <= HEAP_TOP ->
  fit a (alloc_align l) (alloc_needed l) = Some (payload_of a l, end_of a l).
Proof.
  intros Hl Ha Hr. destruct (payload_bounds a l Hl Ha) as ([P1 P2] & _). destruct (end_bounds a l Hl Ha) as ([E1 E2] & _).
  destruct (alloc_align_mul l Hl) as (q & Hq & _ & Hb). pose proof (lo_bound l Hl). pose proof (lo_size l Hl).
  destruct (lo_align l Hl) as (j & Hj & Ej). pose proof (Z.pow_pos_nonneg 2 j ltac:(lia) Hj).
  assert (alloc_needed l + alloc_align l <= 2 ^ 30 + 16) by (unfold alloc_needed, alloc_align, MIN_ALLOC, BLOCK_ALIGN; lia).
  assert (0 <= alloc_needed l) by (unfold alloc_needed, MIN_ALLOC; lia).
  unfold fit, checked_add_u64. heap_consts. change (16 + 8) with 24.
  rewrite (proj2 (Z.leb_le _ _)) by lia. cbn [mbind option_bind].
  replace (a + (24 + alloc_align l - 1)) with (a + 24 + alloc_align l - 1) by lia.
  destruct (alloc_align_pow l Hl) as (k & Hk & Ek).
  assert (align_up (a + 24 + alloc_align l - 1) (alloc_align l) = payload_of a l) as ->.
  { unfold payload_of. rewrite Ek. apply align_up_pow. lia. }
  rewrite (proj2 (Z.leb_le _ _)) by lia. cbn [mbind option_bind].
  rewrite (proj2 (Z.leb_le _ _)) by lia. cbn [mbind option_bind]. do 2 f_equal.
  change 8 with (2 ^ 3) at 2. rewrite align_up_pow by lia. unfold end_of. change (2 ^ 3) with 8. f_equal.
Qed.

Section Alloc.
Context (R : list block) (HR : regions_ok R) (l : Layout) (Hl : layout_ok l).

Lemma round_ok h prev x : mem_ok (mem h) R -> blk_ok R x -> val (mem h) x.1 = x.2 ->
  alloc_round h (alloc_align l) (alloc_needed l) (prev, x.1)
  = if fits l x then inr (carve h prev x.1 (val (mem h) (x.1 + 8)) (x.1 + x.2) (end_of x.1 l) (payload_of x.1 l))
    else inl (x.1, val (mem h) (x.1 + 8)).
Proof.
  intros Hm Hx Es. destruct (header_words R HR _ x Hm Hx) as [W1 W2]. destruct (blk_bounds R x HR Hx) as (H1 & H2 & H3).
  unfold alloc_round. rewrite (addr_nonzero R HR x Hx), size_at_val, next_at_val by done. cbn [res_bind].
  rewrite Es, fit_ok by (first [done|apply (bo_addr R x Hx)|heap_consts; lia]).
  assert (checked_add_u64 x.1 x.2 = Some (x.1 + x.2)) as ->.
  { unfold checked_add_u64. heap_consts. by rewrite (proj2 (Z.leb_le _ _)) by lia. }
  unfold fits. by destruct (end_of x.1 l <=? x.1 + x.2).
Qed.

Lemma alloc_walk h pre : forall prev rest, mem_ok (mem h) R -> Forall (blk_ok R) pre -> fseg (mem h) pre (haddr rest 0) ->
  Forall (fun x => fits l x = false) pre ->
  iter_nat (length pre) (alloc_round h (alloc_align l) (alloc_needed l)) (prev, haddr (pre ++ rest) 0)
  = inl (laddr pre prev, haddr rest 0).
Proof.
  induction pre as [|x pre IH]; intros prev rest Hm Hk Hf Hn; [done|].
  apply Forall_cons in Hk as [Hx Hk]. apply Forall_cons in Hn as [Nx Hn]. destruct Hf as (Es & En & Hf).
  cbn [length app haddr]. rewrite iter_nat_S, round_ok, Nx by done. rewrite En, <- haddr_app, IH by done.
  destruct pre as [|y pre]; [done|]. unfold laddr. change (last (x :: y :: pre)) with (last (y :: pre)).
  destruct (last (y :: pre)) eqn:E; [done|]. by apply last_None in E.
Qed.

Lemma link_ok h pre n t `{Hush : !unshared (mem h)} : mem_ok (mem h) R -> Forall (blk_ok R) pre -> ordered pre -> fseg (mem h) pre t ->
  (pre <> [] -> free_list h = haddr pre 0) ->
  exists m' f', link h (laddr pre 0) n = Ok (set_free_list (set_mem h m') f') /\ f' = haddr pre n /\ fseg m' pre n
    /\ shape (mem h) m' /\ (forall z, Forall (fun x => disj x z) pre -> agree (mem h) m' z).
Proof.
  intros Hm Hk Ho Hf Hh. unfold link. destruct pre as [|x pre _] using rev_ind.
  { exists (mem h), n. split_and!; [by destruct h|done|done|done|]. intros z _. apply agree_refl. }
  rewrite laddr_snoc. apply Forall_app in Hk as [Hk [Hx _]%Forall_cons]. apply fseg_app in Hf as [Fp (Fx & _)].
  apply ss_app in Ho as (_ & _ & Hpx). destruct (header_words R HR _ x Hm Hx) as [W1 W2].
  destruct (blk_bounds R x HR Hx) as (_ & _ & Hxs).
  assert (forall z, disj x z -> agree (mem h) (put (mem h) (x.1 + 8) n) z) as A.
  { intros z. apply agree_put; [done|]. unfold in_block. lia. }
  rewrite (addr_nonzero R HR x Hx). unfold set_next_at. rewrite hstore_put by done.
  exists (put (mem h) (x.1 + 8) n), (free_list h). split_and!; [reflexivity| | |done|].
  - rewrite Hh by (by destruct pre). by destruct pre.
  - apply fseg_app. split.
    + apply (fseg_other R (mem h) _ pre x.1 x); [done| |done|done].
      eapply Forall_impl; [exact Hpx|]. intros z [Hz _]%Forall_cons. unfold before, disj in *. right. lia.
    + cbn [fseg haddr]. split_and!; [by rewrite val_put_ne by (done || lia)|by rewrite val_put_eq by done|done].
  - intros z [_ [Hz _]%Forall_cons]%Forall_app. by apply A.
Qed.

Lemma remove_next_link h pre x post : mem_ok (mem h) R -> Forall (blk_ok R) (pre ++ x :: post) ->
  fseg (mem h) (pre ++ x :: post) 0 -> free_list h = haddr (pre ++ x :: post) 0 ->
  remove_next h (laddr pre 0) = link h (laddr pre 0) (haddr post 0).
Proof.
  intros Hm Hk Hf Hh. apply Forall_app in Hk as [Hk1 [Hx Hk2]%Forall_cons]. apply fseg_app in Hf as [Fp (Fx & Fn & Fl)].
  destruct (header_words R HR _ x Hm Hx) as [W1 W2]. unfold remove_next, link.
  destruct pre as [|y pre _] using rev_ind.
  - cbn [laddr app haddr last] in *. rewrite Hh, (addr_nonzero R HR x Hx), next_at_val by done. cbn [res_bind].
    by rewrite Fn.
  - rewrite laddr_snoc. apply Forall_app in Hk1 as [_ [Hy _]%Forall_cons]. apply fseg_app in Fp as [_ (_ & Fy & _)].
    destruct (header_words R HR _ y Hm Hy) as [Y1 Y2]. rewrite (addr_nonzero R HR y Hy), next_at_val by done. cbn [res_bind].
    rewrite Fy. cbn [haddr]. rewrite (addr_nonzero R HR x Hx), next_at_val by done. cbn [res_bind]. by rewrite Fn.
Qed.
End Alloc.

Section Carve.
Context (R : list block) (HR : regions_ok R) (l : Layout) (Hl : layout_ok l).

(** Whether enough is left for a block, the block that is taken, and the rest. *)
Definition splits (x : block) : bool := MIN_BLOCK_SIZE <=? x.1 + x.2 - end_of x.1 l.
Definition taken (x : block) : block := (x.1, if splits x then end_of x.1 l - x.1 else x.2).
Definition rest_of (x : block) : list block := if splits x then [(end_of x.1 l, x.1 + x.2 - end_of x.1 l)] else [].

Lemma carve_bounds x : blk_ok R x -> fits l x = true -> let p := payload_of x.1 l in
  x.1 + 24 <= p /\ p mod 8 = 0 /\ p mod alloc_align l = 0 /\ p + alloc_needed l <= x.1 + (taken x).2
  /\ 8 <= alloc_needed l /\ (taken x).2 <= x.2 /\ (taken x).2 + total (rest_of x) = x.2
  /\ blk_ok R (taken x) /\ Forall (blk_ok R) (rest_of x) /\ Forall (fun y => inside y x /\ disj (taken x) y) (rest_of x).
Proof.
  intros Hx Hf p. destruct (payload_bounds x.1 l Hl (bo_addr R x Hx)) as (P1 & P2 & P3).
  destruct (end_bounds x.1 l Hl (bo_addr R x Hx)) as (E1 & E2). unfold fits in Hf. apply Z.leb_le in Hf.
  assert (8 <= alloc_needed l) as Hn by (unfold alloc_needed, MIN_ALLOC; lia). destruct Hx as [Hm Ha Hs (r & Hr & Hi)].
  unfold taken, rest_of, splits, inside, disj in *. fold p in P1, P2, P3, E1. heap_consts.
  destruct (Z.leb_spec (16 + 8 + 8) (x.1 + x.2 - end_of x.1 l)) as [Hc|Hc]; cbn [fst snd total].
  - split_and!; try lia; try done.
    + constructor; cbn [fst snd]; heap_consts; [lia|done|mlia|]. exists r. split; [done|]. unfold inside. cbn [fst snd]. lia.
    + constructor; [|done]. constructor; cbn [fst snd]; heap_consts; [lia|done|mlia|].
      exists r. split; [done|]. unfold inside. cbn [fst snd]. lia.
    + constructor; [|done]. unfold inside, disj. cbn [fst snd]. lia.
  - split_and!; try lia; try done. constructor; cbn [fst snd]; heap_consts; [lia|done|done|]. by exists r.
Qed.

(** The headers of the two parts, before the predecessor is linked. *)
Lemma carve_headers h pre x post `{Hush : !unshared (mem h)} : mem_ok (mem h) R -> Forall (blk_ok R) (pre ++ x :: post) ->
  free_list h = haddr (pre ++ x :: post) 0 -> fseg (mem h) (pre ++ x :: post) 0 -> fits l x = true ->
  exists m1, (if MIN_BLOCK_SIZE <=? x.1 + x.2 - end_of x.1 l then
       let? h := set_size_at h x.1 (end_of x.1 l - x.1) in
       let? h := set_size_at h (x.1 + (end_of x.1 l - x.1)) (x.1 + x.2 - end_of x.1 l) in
       let? h := set_next_at h (x.1 + (end_of x.1 l - x.1)) (haddr post 0) in
       link h (laddr pre 0) (x.1 + (end_of x.1 l - x.1))
     else remove_next h (laddr pre 0)) = link (set_mem h m1) (laddr pre 0) (haddr (rest_of x ++ post) 0)
     /\ shape (mem h) m1 /\ (forall z, disj x z -> agree (mem h) m1 z) /\ val m1 x.1 = (taken x).2
     /\ fseg m1 (rest_of x) (haddr post 0).
Proof.
  intros Hm Hk Hh Hf Hfit. pose proof Hk as [Hk1 [Hx Hk2]%Forall_cons]%Forall_app.
  destruct (carve_bounds x Hx Hfit) as (P1 & P2 & _ & P3 & P4 & T1 & T2 & Kt & Kr & Dr).
  pose proof Hf as [Fp (Fx & Fn & Fq)]%fseg_app.
  unfold taken, rest_of, splits in *. destruct (header_words R HR _ x Hm Hx) as [W1 _].
  destruct (MIN_BLOCK_SIZE <=? x.1 + x.2 - end_of x.1 l) eqn:Ec; cbn [fst snd] in *.
  - apply Forall_cons in Kr as [Kr _]. apply Forall_cons in Dr as [[Ir Dr] _].
    destruct (header_words R HR _ _ Hm Kr) as [R1 R2]. cbn [fst snd] in *.
    replace (x.1 + (end_of x.1 l - x.1)) with (end_of x.1 l) by lia.
    unfold set_size_at, set_next_at. rewrite hstore_put by done. cbn [res_bind]. rewrite hstore_put by done. cbn [res_bind].
    rewrite hstore_put by done. cbn [res_bind].
    eexists. split; [reflexivity|]. unfold inside, disj in Ir, Dr. cbn [fst snd mem set_mem] in *.
    split_and!; [done| | |].
    + intros z Hz. repeat (eapply agree_trans; [|eapply agree_put; [done| |exact Hz]]; [|unfold in_block; heap_consts; lia]). apply agree_refl.
    + rewrite !val_put_ne by (done || (heap_consts; lia)). by apply val_put_eq.
    + cbn [fseg fst snd haddr]. rewrite val_put_eq by done. rewrite val_put_ne by (done || lia). by rewrite val_put_eq by done.
  - exists (mem h). rewrite (remove_next_link R HR h pre x post) by done. destruct h. split_and!; done.
Qed.

Lemma carve_ok h pre x post `{Hush : !unshared (mem h)} : mem_ok (mem h) R -> ordered (pre ++ x :: post) -> Forall (blk_ok R) (pre ++ x :: post) ->
  free_list h = haddr (pre ++ x :: post) 0 -> fseg (mem h) (pre ++ x :: post) 0 -> fits l x = true ->
  exists m' f', carve h (laddr pre 0) x.1 (haddr post 0) (x.1 + x.2) (end_of x.1 l) (payload_of x.1 l)
      = Ok (set_free_list (set_mem h m') f', payload_of x.1 l)
    /\ f' = haddr (pre ++ rest_of x ++ post) 0 /\ fseg m' (pre ++ rest_of x ++ post) 0
    /\ val m' x.1 = (taken x).2 /\ val m' (payload_of x.1 l - 8) = x.1 /\ shape (mem h) m'
    /\ (forall z, disj x z -> Forall (fun y => disj y z) pre -> agree (mem h) m' z).
Proof.
  intros Hm Ho Hk Hh Hf Hfit. pose proof Hk as [Hk1 [Hx Hk2]%Forall_cons]%Forall_app.
  destruct (carve_bounds x Hx Hfit) as (P1 & P2 & _ & P3 & P4 & T1 & T2 & Kt & Kr & Dr).
  set (p := payload_of x.1 l) in *. apply ss_app in Ho as (Ho1 & [Ho2 Hxpost]%StronglySorted_inv & Hoo).
  assert (Forall (fun y => disj y x) pre) as Dpx.
  { eapply Forall_impl; [exact Hoo|]. intros y [Hy _]%Forall_cons. unfold before, disj in *. left. lia. }
  assert (Forall (disj x) post) as Dxq.
  { eapply Forall_impl; [exact Hxpost|]. intros y Hy. unfold before, disj in *. left. lia. }
  assert (Forall (fun z => Forall (fun y => disj y z) pre) post) as Dpq.
  { rewrite Forall_forall in Hoo |- *. intros z Hz. rewrite Forall_forall. intros y Hy.
    pose proof (proj1 (Forall_forall _ _) (Hoo y Hy) z ltac:(by right)). unfold before, disj in *. left. lia. }
  pose proof Hf as [Fp (Fx & Fn & Fq)]%fseg_app.
  destruct (carve_headers h pre x post Hm Hk Hh Hf Hfit) as (m1 & E1 & S1 & A1 & V1 & F1).
  unfold carve. cbv zeta. rewrite E1. clear E1.
  assert (unshared m1) as Hu1 by (by apply (shape_unshared (mem h))).
  destruct (link_ok R HR (set_mem h m1) pre (haddr (rest_of x ++ post) 0) x.1) as (m2 & f2 & E2 & -> & F2 & S2 & A2);
    [by apply (shape_mem_ok (mem h))|done|done| |intros Hne; cbn [free_list set_mem]; rewrite Hh, haddr_app; by destruct pre|].
  { apply (fseg_other R (mem h) m1 pre x.1 x); [done| |exact A1|exact Fp]. eapply Forall_impl; [exact Dpx|]. intros y. by symmetry. }
  rewrite E2. cbn [res_bind].
  assert (word_ok m2 (p - 8) = true) as Wp.
  { unfold word_ok, is_mapped. rewrite S2. cbn [mem set_mem]. rewrite S1. apply (blk_word (mem h) R x); [done|done|mlia|unfold in_block; lia]. }
  unfold BACKPTR_SIZE. rewrite hstore_put by done. cbn [res_bind mem set_mem set_free_list] in *.
  assert (unshared m2) as Hu2 by (by apply (shape_unshared m1)).
  assert (forall z, disj (taken x) z -> agree m2 (put m2 (p - 8) x.1) z) as A3.
  { intros z. apply agree_put; [done|]. unfold in_block, taken in *. cbn [fst snd] in *. lia. }
  assert (agree m1 m2 x) as A2x by (by apply A2).
  exists (put m2 (p - 8) x.1), (haddr (pre ++ rest_of x ++ post) 0). split_and!.
  - rewrite (haddr_app pre). reflexivity.
  - done.
  - rewrite haddr_app in *. apply fseg_app. split; [|apply fseg_app; split].
    + rewrite haddr_app. apply (fseg_other R m2 _ pre _ (taken x)); [done| |exact A3|exact F2].
      eapply Forall_impl; [exact Dpx|]. intros y Hy. unfold taken, disj in *. cbn [fst snd] in *. lia.
    + apply (fseg_agree m2); [eapply Forall_impl; [exact Kr|apply bo_min]| |].
      * eapply Forall_impl; [exact Dr|]. intros y [_ Hy]. by apply A3.
      * apply (fseg_agree m1); [eapply Forall_impl; [exact Kr|apply bo_min]| |exact F1].
        eapply Forall_impl; [exact Dr|]. intros y [Hy _] w Hw. apply A2x. unfold in_block, inside in *. lia.
    + apply (fseg_agree (mem h)); [eapply Forall_impl; [exact Hk2|apply bo_min]| |exact Fq].
      rewrite Forall_forall in Dxq, Dpq |- *. intros z Hz. eapply agree_trans; [by apply A1, Dxq|].
      eapply agree_trans; [by apply A2, Dpq|]. apply A3. specialize (Dxq z Hz). unfold taken, disj in *. cbn [fst snd] in *. lia.
  - rewrite val_put_ne by (done || lia). rewrite A2x; [exact V1|]. unfold in_block. lia.
  - by apply val_put_eq.
  - exact (eq_trans S2 S1).
  - intros z Hz Hp. eapply agree_trans; [by apply A1|]. eapply agree_trans; [by apply A2|]. apply A3.
    unfold taken, disj in *. cbn [fst snd] in *. lia.
Qed.
End Carve.

(** ** First fit *)

Section FirstFit.
Context (R : list block) (HR : regions_ok R) (l : Layout) (Hl : layout_ok l).

(** The arena bounds the number of free blocks. *)
Lemma ordered_length fl : ordered fl -> Forall (blk_ok R) fl -> 32 * Z.of_nat (length fl) <= HEAP_TOP - HEAP_FLOOR.
Proof.
  assert (forall a, HEAP_FLOOR <= a <= HEAP_TOP -> ordered fl -> Forall (blk_ok R) fl -> Forall (fun x => a <= x.1) fl ->
    a + 32 * Z.of_nat (length fl) <= HEAP_TOP) as G.
  { induction fl as [|x fl IH]; intros a Ha Ho Hk Hf; cbn [length]; [lia|].
    apply StronglySorted_inv in Ho as [Ho Hlt]. apply Forall_cons in Hk as [Hx Hk]. apply Forall_cons in Hf as [Hax _].
    destruct (blk_bounds R x HR Hx) as (B1 & B2 & B3).
    specialize (IH (x.1 + x.2) ltac:(lia) Ho Hk). rewrite Nat2Z.inj_succ.
    assert (x.1 + x.2 + 32 * Z.of_nat (length fl) <= HEAP_TOP); [|lia].
    apply IH. eapply Forall_impl; [exact Hlt|]. unfold before. intros y. lia. }
  intros Ho Hk. assert (HEAP_FLOOR + 32 * Z.of_nat (length fl) <= HEAP_TOP); [|lia].
  apply G; [heap_consts; lia|done|done|]. eapply Forall_impl; [exact Hk|]. intros x Hx. by destruct (blk_bounds R x HR Hx).
Qed.

Lemma first_fit fl : (exists pre x post, fl = pre ++ x :: post /\ Forall (fun y => fits l y = false) pre /\ fits l x = true)
  \/ Forall (fun y => fits l y = false) fl.
Proof.
  induction fl as [|x fl IH]; [by right|]. destruct (fits l x) eqn:E.
  - left. by exists [], x, fl.
  - destruct IH as [(pre & y & post & -> & Hp & Hy)|Hn]; [left|right; by constructor].
    exists (x :: pre), y, post. split_and!; [done|by constructor|done].
Qed.

Lemma alloc_inner_none h fl : mem_ok (mem h) R -> ordered fl -> Forall (blk_ok R) fl ->
  free_list h = haddr fl 0 -> fseg (mem h) fl 0 -> Forall (fun y => fits l y = false) fl -> alloc_inner h l = Ok (h, 0).
Proof.
  intros Hm Ho Hk Hh Hf Hn. unfold alloc_inner. rewrite Hh. erewrite (iter_pos_done _ (length fl + 1)); [done| |].
  - rewrite iter_nat_add. pose proof (alloc_walk R HR l Hl h fl 0 [] Hm Hk Hf Hn) as E. rewrite app_nil_r in E.
    rewrite E. done.
  - pose proof (ordered_length fl Ho Hk). unfold ALLOC_FUEL. heap_consts. lia.
Qed.

Lemma alloc_inner_some h pre x post `{Hush : !unshared (mem h)} : mem_ok (mem h) R -> ordered (pre ++ x :: post) -> Forall (blk_ok R) (pre ++ x :: post) ->
  free_list h = haddr (pre ++ x :: post) 0 -> fseg (mem h) (pre ++ x :: post) 0 ->
  Forall (fun y => fits l y = false) pre -> fits l x = true ->
  exists m' f', alloc_inner h l = Ok (set_free_list (set_mem h m') f', payload_of x.1 l)
    /\ f' = haddr (pre ++ rest_of l x ++ post) 0 /\ fseg m' (pre ++ rest_of l x ++ post) 0
    /\ val m' x.1 = (taken l x).2 /\ val m' (payload_of x.1 l - 8) = x.1 /\ shape (mem h) m'
    /\ (forall z, disj x z -> Forall (fun y => disj y z) pre -> agree (mem h) m' z).
Proof.
  intros Hm Ho Hk Hh Hf Hn Hx. destruct (carve_ok R HR l Hl h pre x post Hm Ho Hk Hh Hf Hx) as (m' & f' & E & Hr).
  exists m', f'. split; [|done]. unfold alloc_inner. rewrite Hh.
  pose proof Hk as [Hk1 [Hkx _]%Forall_cons]%Forall_app. pose proof Hf as [Fp (Fx & Fn & _)]%fseg_app.
  erewrite (iter_pos_done _ (length pre + 1)); [exact E| |].
  - rewrite iter_nat_add, (alloc_walk R HR l Hl h pre 0 (x :: post)) by done. cbn [haddr iter_nat].
    by rewrite (round_ok R HR l Hl h _ x Hm Hkx Fx), Hx, Fn.
  - pose proof (ordered_length _ Ho Hk) as Hlen. rewrite length_app in Hlen. cbn [length] in Hlen.
    unfold ALLOC_FUEL. heap_consts. lia.
Qed.
End FirstFit.

(** ** What stays mapped *)

Lemma hstore_map h a v h' : hstore h a v = Ok h' -> mapped (mem h') = mapped (mem h).
Proof. intros (m & [_ ->]%store_ok & [= <-])%res_bind_Ok. done. Qed.

(** Open the binds and the choices of a run that returned. *)
Ltac opened :=
  repeat match goal with
  | E : res_bind _ _ = Ok _ |- _ => apply res_bind_Ok in E as (? & ? & E)
  | E : (if ?c then _ else _) = Ok _ |- _ => destruct c
  | E : (let '(_, _) := ?x in _) = Ok _ |- _ => destruct x
  | E : Panic = Ok _ |- _ => discriminate E
  | E : Ok _ = Ok _ |- _ => injection E; clear E; intros; subst
  | E : hstore _ _ _ = Ok _ |- _ => apply hstore_map in E
  end.

Lemma link_map h prev n h' : link h prev n = Ok h' -> mapped (mem h') = mapped (mem h).
Proof. unfold link, set_next_at. intros E. opened; done. Qed.

Lemma walk_to_map h b h' prev cur : walk_to h b = Ok (h', prev, cur) -> mapped (mem h') = mapped (mem h).
Proof.
  unfold walk_to. destruct (iter_pos _ _ _) as [|r] eqn:E; [done|]. intros ->.
  enough (forall x, Ok (h', prev, cur) = Ok (E := AllocError) x -> mapped (mem x.1.1) = mapped (mem h)) as Hx by (by apply (Hx (h', prev, cur))).
  revert E. apply (iter_pos_inv _ (fun st => mapped (mem st.1.1.1) = mapped (mem h))
    (fun r : hres (HeapInner * Z * Z) => forall x, r = Ok x -> mapped (mem x.1.1) = mapped (mem h))); [done|..].
  - intros [[[h1 p1] c1] n1] [[[h2 p2] c2] n2] Hm. unfold push_walk. repeat case_match; try done; intros [= <- <- <- <-]; [|done].
    cbn [fst] in *. etrans; [by eapply link_map|done].
  - intros [[[h1 p1] c1] n1] r1 Hm. unfold push_walk. repeat case_match; try done; intros [= <-] x; try done. by intros [= <-].
Qed.

Lemma push_free_map h b h' : push_free h b = Ok h' -> mapped (mem h') = mapped (mem h).
Proof.
  unfold push_free, check_next, check_prev, join_next, join_prev, set_size_at, set_next_at. intros E. opened; try done.
  all: repeat match goal with
  | H : walk_to _ _ = Ok _ |- _ => apply walk_to_map in H
  | H : link _ _ _ = Ok _ |- _ => apply link_map in H
  | H : mapped _ = mapped _ |- _ => rewrite H; clear H
  | H : _ = Ok _ |- _ => clear H
  end; cbn; congruence.
Qed.

Lemma add_region_map h start size h' : add_region h start size = Ok h' -> mapped (mem h') = mapped (mem h).
Proof.
  unfold add_region, set_size_at, set_next_at. intros E. opened. apply push_free_map in E. congruence.
Qed.
