(* ===== verification/HeapInv.v ===== *)
(** * The kernel heap: the invariant

    Every byte of every chunk belongs to one block, and every block is free,
    parked in the cache of a CPU, or handed out.  The operations of Heap keep
    this, and say what they do to the blocks. *)

From Stdlib Require Import Sorting.Sorted.
From S2P Require Import Prelude Bits PhysAlloc Heap HeapFacts.
Local Open Scope Z_scope.

(** ** Blocks with a payload *)

Record Item := mkItem { it_p : Z; it_a : Z; it_s : Z }.

Definition it_blk (it : Item) : Z * Z := (it_a it, it_s it).

Record item_ok (m : Mem) (it : Item) : Prop := {
  io_back : val m (it_p it - 8) = it_a it;
  io_size : val m (it_a it) = it_s it;
  io_low : it_a it + 24 <= it_p it;
  io_mod : it_p it mod 8 = 0;
  io_high : it_p it + 8 <= it_a it + it_s it
}.

Definition phead (l : list Item) (t : Z) : Z := match l with [] => t | it :: _ => it_p it end.

(** Cached payloads are linked through their first words. *)
Fixpoint cseg (m : Mem) (l : list Item) (t : Z) : Prop :=
  match l with
  | [] => True
  | it :: l => val m (it_p it) = phead l t /\ cseg m l t
  end.

Record cache_ok (m : Mem) (c : PerCpuCache) (l : list Item) : Prop := {
  co_head : c_head c = phead l 0;
  co_seg : cseg m l 0;
  co_count : c_count c = Z.of_nat (length l);
  co_cap : Z.of_nat (length l) <= CPU_CACHE_CAP
}.

(** What a client was promised. *)
Definition served (x : Item * Layout) : Prop :=
  it_p x.1 + l_size x.2 <= it_a x.1 + it_s x.1 /\ it_p x.1 mod l_align x.2 = 0.

(** ** The invariant *)

Record Blocks := mkBlocks { fl : list (Z * Z); parked : list (list Item); lv : list (Item * Layout) }.

Definition items (g : Blocks) : list Item := concat (parked g) ++ map fst (lv g).

Definition blocks (g : Blocks) : list (Z * Z) := fl g ++ map it_blk (items g).

Definition regions (h : HeapInner) : list (Z * Z) := map (fun c => (c_vaddr c, c_size c)) (chunks h).

Record heap_inv (h : HeapInner) (cs : list PerCpuCache) (g : Blocks) : Prop := {
  hi_regions : regions_ok (regions h);
  hi_mem : mem_ok (mem h) (regions h);
  hi_head : free_list h = haddr (fl g) 0;
  hi_list : fseg (mem h) (fl g) 0;
  hi_order : StronglySorted before (fl g);
  hi_blocks : Forall (blk_ok (regions h)) (blocks g);
  hi_disjoint : ForallOrdPairs disj (blocks g);
  hi_total : total (blocks g) = total (regions h);
  hi_items : Forall (item_ok (mem h)) (items g);
  hi_caches : Forall2 (cache_ok (mem h)) cs (parked g);
  hi_served : Forall served (lv g);
  hi_unshared : unshared (mem h)
}.

#[global] Instance total_perm : Proper ((≡ₚ) ==> eq) total.
Proof. induction 1; cbn [total]; lia. Qed.

Lemma items_agree m m' l : Forall (agree m m') (map it_blk l) -> Forall (item_ok m) l -> Forall (item_ok m') l.
Proof.
  rewrite Forall_map, !Forall_forall. intros Ha Hi it Hit. specialize (Ha it Hit). destruct (Hi it Hit) as [B S L M U].
  constructor; [| |done..]; rewrite Ha; try done; unfold in_block, it_blk; cbn [fst snd]; lia.
Qed.

Lemma cseg_agree m m' l t : Forall (agree m m') (map it_blk l) -> Forall (item_ok m) l -> cseg m l t -> cseg m' l t.
Proof.
  induction l as [|it l IH]; [done|]. cbn [map cseg]. intros [Ha Hl]%Forall_cons [Hi Hs]%Forall_cons [Hv Hc].
  split; [|by apply IH]. rewrite Ha; [done|]. destruct Hi. unfold in_block, it_blk. cbn [fst snd]. lia.
Qed.

Lemma caches_agree m m' cs ps : Forall (agree m m') (map it_blk (concat ps)) -> Forall (item_ok m) (concat ps) ->
  Forall2 (cache_ok m) cs ps -> Forall2 (cache_ok m') cs ps.
Proof.
  intros Ha Hi Hc. induction Hc as [|c p cs ps Hcp _ IH]; [constructor|]. cbn [concat] in *. rewrite map_app in Ha.
  apply Forall_app in Ha as [Ha1 Ha2]. apply Forall_app in Hi as [Hi1 Hi2]. constructor; [|auto].
  destruct Hcp as [E1 E2 E3 E4]. constructor; [done|by apply (cseg_agree m)|done|done].
Qed.

Lemma fop_map_disj x l : Forall (fun y => disj y x) l <-> Forall (disj x) l.
Proof. rewrite !Forall_forall. split; intros Hf y Hy; symmetry; by apply Hf. Qed.

(** ** Allocation from the free list *)

(** The parts of a block take its place. *)
Lemma split_disjoint x t rest l : ForallOrdPairs disj (x :: l) -> inside t x ->
  Forall (fun y => inside y x /\ disj t y) rest -> ForallOrdPairs disj rest -> ForallOrdPairs disj (t :: rest ++ l).
Proof.
  intros [Hx Hl]%fop_cons Ht Hr Hrr. apply fop_cons. split.
  - apply Forall_app. split.
    + eapply Forall_impl; [exact Hr|]. by intros y [_ ?].
    + eapply Forall_impl; [exact Hx|]. intros y. by apply disj_shrink.
  - apply fop_app. split_and!; [done|done|]. eapply Forall_impl; [exact Hr|]. intros y [Hy _].
    eapply Forall_impl; [exact Hx|]. intros z. by apply disj_shrink.
Qed.

Lemma rest_single l x : ForallOrdPairs disj (rest_of l x).
Proof. unfold rest_of. case_match; repeat constructor. Qed.

Lemma rest_order l R x pre post : regions_ok R -> layout_ok l -> blk_ok R x -> fits l x = true ->
  StronglySorted before (pre ++ x :: post) -> StronglySorted before (pre ++ rest_of l x ++ post).
Proof.
  intros HR Hl Hx Hf (Ho1 & [Ho2 Hxp]%StronglySorted_inv & Hoo)%ss_app.
  destruct (carve_bounds R l Hl x Hx Hf) as (P1 & _ & _ & _ & _ & _ & _ & Kt & Kr & Dr).
  assert (Forall (fun y => x.1 < y.1 /\ y.1 + y.2 <= x.1 + x.2) (rest_of l x)) as Hr.
  { rewrite Forall_forall in Dr |- *. intros y Hy. destruct (Dr y Hy) as [[I1 I2] Hd].
    pose proof (blk_bounds R _ HR Kt) as (_ & _ & B). rewrite Forall_forall in Kr.
    pose proof (blk_bounds R y HR (Kr y Hy)) as (_ & _ & By). unfold taken, disj in *. cbn [fst snd] in *. lia. }
  apply ss_app. split_and!; [done| |].
  - apply ss_app. split_and!; [unfold rest_of; case_match; repeat constructor|done|].
    eapply Forall_impl; [exact Hr|]. intros y [_ Hy]. eapply Forall_impl; [exact Hxp|]. unfold before. intros z. lia.
  - eapply Forall_impl; [exact Hoo|]. intros z [Hzx Hz]%Forall_cons. apply Forall_app. split; [|done].
    eapply Forall_impl; [exact Hr|]. unfold before in *. intros y. lia.
Qed.

(** What an operation leaves as it was: the chunks, the mapping, and the words of
    every block it does not own. *)
Record steady (h h' : HeapInner) (l : list Item) : Prop := {
  st_chunks : chunks h' = chunks h;
  st_low : low_vaddr h' = low_vaddr h;
  st_root : root h' = root h;
  st_shape : shape (mem h) (mem h');
  st_words : Forall (agree (mem h) (mem h')) (map it_blk l)
}.

Lemma steady_refl h l : steady h h l.
Proof. constructor; try done. apply Forall_forall. intros x _. apply agree_refl. Qed.

Section Ops.
Context (h : HeapInner) (cs : list PerCpuCache) (g : Blocks) (Hinv : heap_inv h cs g).
Notation R := (regions h).

Lemma blocks_app : ForallOrdPairs disj (fl g) /\ ForallOrdPairs disj (map it_blk (items g))
  /\ Forall (fun x => Forall (disj x) (map it_blk (items g))) (fl g).
Proof. apply fop_app, Hinv. Qed.

Lemma alloc_inner_inv l : layout_ok l ->
  (alloc_inner h l = Ok (h, 0) /\ Forall (fun x => fits l x = false) (fl g))
  \/ exists h' it fl', alloc_inner h l = Ok (h', it_p it) /\ (it_p it =? 0) = false
       /\ heap_inv h' cs (mkBlocks fl' (parked g) ((it, l) :: lv g)) /\ steady h h' (items g).
Proof.
  intros Hl. destruct Hinv as [HR Hm Hh Hf Ho Hk Hd Ht Hi Hc Hs Hush]. pose proof Hk as [Hkf Hki]%Forall_app.
  destruct (first_fit l (fl g)) as [(pre & x & post & E & Hn & Hx)|Hn].
  2: { left. split; [|done]. by apply (alloc_inner_none R HR l Hl h (fl g)). }
  right. rewrite E in *. pose proof Hkf as [_ [Hkx _]%Forall_cons]%Forall_app.
  destruct (alloc_inner_some R HR l Hl h pre x post) as (m' & f' & Ea & -> & Hf' & Hv1 & Hv2 & Hs' & Ha); try done.
  destruct (carve_bounds R l Hl x Hkx Hx) as (P1 & P2 & Pa & P3 & P4 & T1 & T2 & Kt & Kr & Dr).
  pose proof Hd as (_ & _ & Hfi)%fop_app. rewrite E in Hfi. apply Forall_app in Hfi as [Hpi [Hxi _]%Forall_cons].
  assert (Forall (agree (mem h) m') (map it_blk (items g))) as Hag.
  { rewrite Forall_forall in Hxi, Hpi |- *. intros z Hz. apply Ha; [by apply Hxi|]. rewrite Forall_forall. intros y Hy.
    specialize (Hpi y Hy). rewrite Forall_forall in Hpi. by apply Hpi. }
  eexists _, (mkItem (payload_of x.1 l) x.1 (taken l x).2), (pre ++ rest_of l x ++ post). split_and!; [exact Ea| | |].
  - cbn [it_p]. destruct (blk_bounds R x HR Hkx) as (B & _). heap_consts. lia.
  - assert (blocks (mkBlocks (pre ++ rest_of l x ++ post) (parked g) ((mkItem (payload_of x.1 l) x.1 (taken l x).2, l) :: lv g))
      ≡ₚ taken l x :: rest_of l x ++ (pre ++ post ++ map it_blk (items g))) as Ep.
    { unfold blocks, items. cbn [fl parked lv map fst]. rewrite !map_app. cbn [map]. unfold it_blk at 2. cbn [it_a it_s].
      change (x.1, (taken l x).2) with (taken l x). solve_Permutation. }
    assert (blocks g ≡ₚ x :: (pre ++ post ++ map it_blk (items g))) as Eo.
    { unfold blocks. rewrite E. solve_Permutation. }
    constructor; cbn [set_free_list set_mem mem free_list chunks regions fl parked lv]; try done.
    + by apply (shape_mem_ok (mem h)).
    + by apply (rest_order l R).
    + change (regions (set_free_list (set_mem h m') (haddr (pre ++ rest_of l x ++ post) 0))) with R.
      rewrite Ep. rewrite Eo in Hk. apply Forall_cons in Hk as [_ Hk]. constructor; [done|]. by apply Forall_app.
    + rewrite Ep. rewrite Eo in Hd. apply (split_disjoint x); [done| |done|apply rest_single].
      unfold inside. change (taken l x).1 with x.1. lia.
    + change (regions (set_free_list (set_mem h m') (haddr (pre ++ rest_of l x ++ post) 0))) with R.
      rewrite Ep, <- Ht, Eo. cbn [total]. rewrite !total_app. lia.
    + unfold items. cbn [parked lv map fst]. apply (items_agree (mem h) m') in Hi; [|done].
      apply Forall_app in Hi as [Hi1 Hi2]. apply Forall_app. split; [done|]. constructor; [|done].
      constructor; cbn [it_p it_a it_s]; [done|done|done|done|lia].
    + unfold items in Hi, Hag. rewrite map_app in Hag. apply Forall_app in Hi as [Hi1 _]. apply Forall_app in Hag as [Hag1 _].
      by apply (caches_agree (mem h)).
    + constructor; [|done]. unfold served. cbn [fst snd it_p it_a it_s].
      split; [unfold alloc_needed in *; lia|]. destruct (lo_align l Hl) as (k & Hk0 & Ek).
      pose proof (Z.pow_pos_nonneg 2 k ltac:(lia) Hk0). destruct (alloc_align_mul l Hl) as (q & Hq & Eq & _).
      apply Z.mod_divide; [lia|]. etransitivity; [by apply align_divides|]. apply Z.mod_divide; [lia|done].
    + by apply (shape_unshared (mem h)).
  - constructor; try done.
Qed.

(** ** Returning a block *)

Lemma item_words it : it ∈ items g -> word_ok (mem h) (it_p it) = true /\ word_ok (mem h) (it_p it - 8) = true
  /\ word_ok (mem h) (it_a it) = true /\ word_ok (mem h) (it_a it + 8) = true /\ blk_ok R (it_blk it) /\ item_ok (mem h) it.
Proof.
  intros Hit. destruct Hinv as [HR Hm Hh Hf Ho Hk Hd Ht Hi Hc Hs Hush]. rewrite Forall_forall in Hi. specialize (Hi it Hit).
  apply Forall_app in Hk as [_ Hk]. rewrite Forall_map, Forall_forall in Hk. specialize (Hk it Hit).
  pose proof Hi as [B S L M U]. pose proof (bo_addr _ _ Hk) as Ha. unfold it_blk in Ha. cbn [fst] in Ha.
  assert (forall w, w mod 8 = 0 -> it_a it <= w < it_a it + it_s it -> word_ok (mem h) w = true) as Hw.
  { intros w H1 H2. by apply (blk_word (mem h) R (it_blk it)). }
  split_and!; try done; apply Hw; first [lia|mlia|done].
Qed.

Lemma from_payload_ok `{Profile} it : it ∈ items g -> from_payload h (it_p it) = Ok (it_a it).
Proof.
  intros Hit. destruct (item_words it Hit) as (_ & W & _ & _ & Hk & [B _ L _ _]).
  destruct (blk_bounds _ _ (hi_regions _ _ _ Hinv) Hk) as (B1 & _). unfold it_blk in B1. cbn [fst] in B1.
  unfold from_payload, debug_assert, hload. heap_consts. rewrite load_val, B by done. cbn [res_bind].
  rewrite !(proj2 (Z.eqb_neq _ _)), (proj2 (Z.leb_le _ _)) by lia. by rewrite !andb_false_r.
Qed.

Lemma return_block it l : items g ≡ₚ it :: l ->
  exists h1, set_next_at h (it_a it) 0 = Ok h1 /\
  ((push_free h1 (it_a it) = Panic /\ FREE_LIST_WALK_BOUND < Z.of_nat (length (fl g)))
   \/ exists h' fl', push_free h1 (it_a it) = Ok h'
    /\ free_list h' = haddr fl' 0 /\ fseg (mem h') fl' 0 /\ StronglySorted before fl'
    /\ Forall (blk_ok R) (fl' ++ map it_blk l) /\ ForallOrdPairs disj (fl' ++ map it_blk l)
    /\ total (fl' ++ map it_blk l) = total R /\ steady h h' l).
Proof.
  intros Ep. destruct (item_words it) as (_ & _ & W1 & W2 & Kb & Hit); [by rewrite Ep; left|].
  destruct Hinv as [HR Hm Hh Hf Ho Hk Hd Ht Hi Hc Hs Hush]. set (b := it_blk it) in *.
  assert (blocks g ≡ₚ b :: fl g ++ map it_blk l) as Eb. { unfold blocks. rewrite Ep. cbn [map]. solve_Permutation. }
  rewrite Eb in Hk, Hd, Ht. apply Forall_cons in Hk as [_ Hk]. apply fop_cons in Hd as [Hb Hd].
  pose proof Hk as [Hkf Hki]%Forall_app. apply Forall_app in Hb as [Hbf Hbi]. pose proof Hd as (_ & Hdi & Hfi)%fop_app.
  destruct (split_at R HR (fl g) b Ho Hkf Kb Hbf) as (pre & post & E & Hp & Hq).
  destruct (blk_bounds R b HR Kb) as (_ & _ & Hbs). change (it_a it) with b.1 in *.
  unfold set_next_at at 1. rewrite hstore_put by done. set (h1 := set_mem h (put (mem h) (b.1 + 8) 0)).
  assert (forall z, disj b z -> agree (mem h) (mem h1) z) as A1. { intros z. apply agree_put; [done|]. unfold in_block. lia. }
  assert (fseg (mem h1) (fl g) 0) as Hf1 by (by apply (fseg_other R (mem h) _ _ 0 b)).
  assert (val (mem h1) b.1 = b.2) as Hv1. { unfold h1. cbn [mem set_mem]. rewrite val_put_ne by (done || lia). apply Hit. }
  exists h1. split; [done|]. rewrite E in *. destruct (Z.le_gt_cases (Z.of_nat (length pre)) FREE_LIST_WALK_BOUND) as [Hn|Hn].
  2: { left. split; [|rewrite length_app; lia]. by apply (push_free_panics R HR h1 pre post b). }
  right. destruct (push_free_ok R HR h1 pre post b) as (m' & f' & Epf & -> & Hf' & Hs' & Ha'); try done.
  destruct (placed_ok R pre post b HR) as (Po & Pk & Pt & Pd); try done.
  eexists _, (placed pre post b). split_and!; [exact Epf|done|done|done| | | |].
  - by apply Forall_app.
  - apply fop_app. split_and!; [by apply ordered_disjoint|done|].
    rewrite Forall_forall in Hki, Hbi. apply Forall_forall. intros y Hy. apply Forall_forall. intros z Hz.
    destruct (blk_bounds R z HR (Hki z Hz)) as (_ & _ & Hz0). symmetry.
    apply (proj1 (Forall_forall _ _) (Pd z ltac:(lia) (Hbi z Hz) ltac:(
      apply Forall_forall; intros u Hu; symmetry; apply (proj1 (Forall_forall _ _) (proj1 (Forall_forall _ _) Hfi u Hu) z Hz))) y Hy).
  - rewrite <- Ht, total_app, Pt. cbn [total]. rewrite !total_app. lia.
  - constructor; try done. cbn [mem set_mem set_free_list]. rewrite Forall_forall in Hbi |- *. intros z Hz.
    eapply agree_trans; [by apply A1, Hbi|]. apply Ha'; [by apply Hbi|]. apply Forall_forall. intros u Hu.
    apply (proj1 (Forall_forall _ _) (proj1 (Forall_forall _ _) Hfi u Hu) z Hz).
Qed.

(** A block is freed to the shared list. *)
Lemma free_shared_inv `{Profile} it l lv' : lv g ≡ₚ (it, l) :: lv' ->
  let r := let? block := from_payload h (it_p it) in let? h1 := set_next_at h block 0 in push_free h1 block in
  (r = Panic /\ FREE_LIST_WALK_BOUND < Z.of_nat (length (fl g)))
  \/ exists h' fl', r = Ok h'
    /\ heap_inv h' cs (mkBlocks fl' (parked g) lv') /\ steady h h' (concat (parked g) ++ map fst lv').
Proof.
  intros Ep r. assert (items g ≡ₚ it :: (concat (parked g) ++ map fst lv')) as Ei.
  { unfold items. rewrite Ep. cbn [map fst]. solve_Permutation. }
  destruct (return_block it _ Ei) as (h1 & E1 & Hr).
  assert (r = push_free h1 (it_a it)) as ->.
  { unfold r. rewrite from_payload_ok by (rewrite Ei; by left). cbn [res_bind]. by rewrite E1. }
  destruct Hr as [[E2 Hn]|(h' & fl' & E2 & Hh & Hf & Ho & Hk & Hd & Ht & Hst)]; [by left|]. right.
  exists h', fl'. split_and!; [done| |done].
  pose proof Hst as [S1 S2 S3 S4 S5]. destruct Hinv as [HR Hm _ _ _ _ _ _ Hi Hc Hs Hush].
  assert (regions h' = R) as ER by (unfold regions; by rewrite S1).
  rewrite Ei in Hi. apply Forall_cons in Hi as [_ Hi]. rewrite Ep in Hs. apply Forall_cons in Hs as [_ Hs].
  constructor; rewrite ?ER; cbn [fl parked lv]; try done.
  - by apply (shape_mem_ok (mem h)).
  - unfold items. cbn [parked lv]. by apply (items_agree (mem h)).
  - rewrite map_app in S5. apply Forall_app in S5 as [S5 _]. apply Forall_app in Hi as [Hi _]. by apply (caches_agree (mem h)).
  - by apply (shape_unshared (mem h)).
Qed.
End Ops.

(** ** The caches *)

Definition plast (l : list Item) (t : Z) : Z := match last l with Some it => it_p it | None => t end.

Lemma phead_app l1 l2 t : phead (l1 ++ l2) t = phead l1 (phead l2 t).
Proof. by destruct l1. Qed.

Lemma cseg_app m l1 l2 t : cseg m (l1 ++ l2) t <-> cseg m l1 (phead l2 t) /\ cseg m l2 t.
Proof. induction l1 as [|it l1 IH]; cbn [app cseg]; [tauto|]. rewrite phead_app, IH. tauto. Qed.

(** The lists of all CPUs, with one of them apart. *)
Definition others {A} (ps : list (list A)) (i : nat) : list A := concat (take i ps) ++ concat (drop (S i) ps).

Lemma concat_at {A} (ps : list (list A)) i a b : ps !! i = Some a ->
  concat ps ≡ₚ a ++ others ps i /\ concat (<[i := b]> ps) ≡ₚ b ++ others ps i.
Proof.
  intros Hi. unfold others. split.
  - rewrite <- (take_drop_middle ps i a Hi) at 1. rewrite concat_app. cbn [concat]. solve_Permutation.
  - rewrite insert_take_drop by (by apply lookup_lt_Some in Hi). rewrite concat_app. cbn [concat]. solve_Permutation.
Qed.

Lemma others_elem {A} (ps : list (list A)) i j q x : ps !! j = Some q -> j <> i -> x ∈ q -> x ∈ others ps i.
Proof.
  intros Hj Hne Hx. unfold others. apply elem_of_app. rewrite !list_elem_of_In, !in_concat.
  destruct (Nat.lt_ge_cases j i) as [Hc|Hc]; [left|right]; exists q; rewrite <- !list_elem_of_In; (split; [|done]).
  - apply list_elem_of_lookup_2 with j. by rewrite lookup_take_lt.
  - apply list_elem_of_lookup_2 with (j - S i)%nat. rewrite lookup_drop. by replace (S i + (j - S i))%nat with j by lia.
Qed.

(** One cache is replaced and the blocks of the others are left alone. *)
Lemma caches_replaced m m' cs ps i c l : Forall2 (cache_ok m) cs ps -> Forall (agree m m') (map it_blk (others ps i)) ->
  Forall (item_ok m) (others ps i) -> cache_ok m' c l -> Forall2 (cache_ok m') (<[i := c]> cs) (<[i := l]> ps).
Proof.
  intros Hf Ha Hi Hc. rewrite Forall_map, Forall_forall in Ha. rewrite Forall_forall in Hi.
  apply Forall2_same_length_lookup_2; [rewrite !length_insert; by eapply Forall2_length|]. intros j x y Hx Hy.
  apply list_lookup_insert_Some in Hx as [(-> & <- & _)|[Hne Hx]].
  - apply list_lookup_insert_Some in Hy as [(_ & <- & _)|[Hne _]]; done.
  - apply list_lookup_insert_Some in Hy as [(<- & _)|[_ Hy]]; [done|].
    destruct (Forall2_lookup_lr _ _ _ _ _ _ Hf Hx Hy) as [E1 E2 E3 E4]. constructor; [done| |done|done].
    apply (cseg_agree m); [| |done]; rewrite ?Forall_map; apply Forall_forall; intros z Hz; [apply Ha|apply Hi];
      (eapply others_elem; [exact Hy|done|done]).
Qed.

Section Caches.
Context `{Profile} {V : Type} `{VmmOps V} (k : KHeap V) (g : Blocks) (Hinv : heap_inv (inner k) (caches k) g).
Notation h := (inner k).

Lemma cache_at cpu : 0 <= cpu < Z.of_nat (length (caches k)) ->
  exists c its, cache_index k cpu = Ok c /\ caches k !! Z.to_nat cpu = Some c /\ parked g !! Z.to_nat cpu = Some its
    /\ cache_ok (mem h) c its /\ concat (parked g) ≡ₚ its ++ others (parked g) (Z.to_nat cpu).
Proof.
  intros Hc. destruct (lookup_lt_is_Some_2 (caches k) (Z.to_nat cpu) ltac:(lia)) as [c Ec].
  destruct (Forall2_lookup_l _ _ _ _ _ (hi_caches _ _ _ Hinv) Ec) as (its & Ei & Hok).
  exists c, its. split_and!; [|done|done|done|by apply (concat_at _ _ _ [])].
  unfold cache_index, index. rewrite (proj2 (Z.leb_le _ _)) by lia. by rewrite Ec.
Qed.

(** Park a block in the cache of a CPU. *)
Lemma free_cached_inv cpu it l lv' : 0 <= cpu < Z.of_nat (length (caches k)) -> lv g ≡ₚ (it, l) :: lv' ->
  per_cpu_free_cached k cpu (it_p it) = Ok (k, false)
  \/ exists k' ps, per_cpu_free_cached k cpu (it_p it) = Ok (k', true) /\ heap_inv (inner k') (caches k') (mkBlocks (fl g) ps lv')
       /\ steady h (inner k') (concat (parked g) ++ map fst lv') /\ length (caches k') = length (caches k).
Proof.
  intros Hcpu Ep. destruct (cache_at cpu Hcpu) as (c & its & E & Ec & Ei & [C1 C2 C3 C4] & Ecat).
  unfold per_cpu_free_cached. rewrite E. cbn [res_bind]. destruct (CPU_CACHE_CAP <=? c_count c) eqn:Ecap; [by left|]. right.
  assert (items g ≡ₚ it :: (concat (parked g) ++ map fst lv')) as Eit.
  { unfold items. rewrite Ep. cbn [map fst]. solve_Permutation. }
  destruct (item_words h _ g Hinv it) as (W & _ & _ & _ & Kb & Hit); [by rewrite Eit; left|].
  rewrite hstore_put by done. cbn [res_bind].
  eexists _, (<[Z.to_nat cpu := it :: its]> (parked g)). split; [reflexivity|].
  destruct Hinv as [HR Hm Hh Hf Ho Hk Hd Ht Hi Hc Hs Hush]. cbn [inner caches set_caches set_inner].
  set (m' := put (mem h) (it_p it) (c_head c)).
  assert (forall z, disj (it_blk it) z -> agree (mem h) m' z) as A.
  { intros z. apply agree_put; [done|]. destruct Hit. unfold in_block, it_blk. cbn [fst snd]. lia. }
  assert (blocks g ≡ₚ it_blk it :: fl g ++ map it_blk (concat (parked g) ++ map fst lv')) as Eb.
  { unfold blocks. rewrite Eit. cbn [map]. solve_Permutation. }
  rewrite Eb in Hd. apply fop_cons in Hd as [[Hbf Hbi]%Forall_app Hd].
  assert (Forall (agree (mem h) m') (map it_blk (concat (parked g) ++ map fst lv'))) as Hag.
  { eapply Forall_impl; [exact Hbi|]. exact A. }
  destruct (concat_at (parked g) _ its (it :: its) Ei) as [Ecat1 Ecat2].
  assert (blocks (mkBlocks (fl g) (<[Z.to_nat cpu:=it :: its]> (parked g)) lv') ≡ₚ blocks g) as Enew.
  { rewrite Eb. unfold blocks, items. cbn [fl parked lv]. rewrite Ecat2, Ecat1. cbn [app map]. solve_Permutation. }
  rewrite Eit in Hi. apply Forall_cons in Hi as [_ Hi]. rewrite Ep in Hs. apply Forall_cons in Hs as [_ Hs].
  pose proof (items_agree _ _ _ Hag Hi) as Hi'.
  assert (item_ok m' it) as Hit'. { destruct Hit. unfold m'. constructor; rewrite ?val_put_ne by (done || lia); done. }
  split_and!; [|by constructor|by rewrite length_insert].
  constructor; cbn [mem set_mem free_list fl parked lv]; try done.
  - apply (fseg_agree (mem h)); [|eapply Forall_impl; [exact Hbf|exact A]|done].
    apply Forall_app in Hk as [Hk _]. eapply Forall_impl; [exact Hk|apply bo_min].
  - by rewrite Enew.
  - rewrite Enew, Eb. apply fop_cons. split; [by apply Forall_app|done].
  - by rewrite Enew.
  - unfold items. cbn [parked lv]. rewrite Ecat2. rewrite Ecat1 in Hi'. cbn [app]. by constructor.
  - rewrite map_app in Hag. apply Forall_app in Hag as [Hag1 _]. apply Forall_app in Hi as [Hi1 _].
    apply Forall2_insert; [by apply (caches_agree (mem h))|].
    constructor; cbn [c_head c_count phead cseg length].
    + done.
    + split; [unfold m'; by rewrite val_put_eq by done|]. rewrite Ecat1 in Hag1, Hi1. rewrite map_app in Hag1.
      apply Forall_app in Hag1 as [Hag1 _]. apply Forall_app in Hi1 as [Hi1 _]. by apply (cseg_agree (mem h)).
    + lia.
    + apply Z.leb_gt in Ecap. lia.
Qed.

(** A parked block serves a layout. *)
Definition suits (l : Layout) (it : Item) : bool :=
  (l_size l <=? it_a it + it_s it - it_p it) && (it_p it mod alloc_align l =? 0).

Lemma item_nonzero it : it ∈ items g -> (it_p it =? 0) = false /\ it_a it + it_s it <= u64_max.
Proof.
  intros Hit. destruct (item_words h _ g Hinv it Hit) as (_ & _ & _ & _ & Kb & [_ _ L _ _]).
  destruct (blk_bounds _ _ (hi_regions _ _ _ Hinv) Kb) as (B1 & B2 & _). unfold it_blk in *. cbn [fst snd] in *. heap_consts. lia.
Qed.

Lemma cache_round_ok l it prev : it ∈ items g -> cache_round h (alloc_align l) (l_size l) (prev, it_p it)
  = if suits l it then inr (Ok (Some (prev, it_p it, val (mem h) (it_p it)))) else inl (it_p it, val (mem h) (it_p it)).
Proof.
  intros Hit. destruct (item_words h _ g Hinv it Hit) as (W1 & W2 & W3 & _ & _ & [B S L M U]).
  destruct (item_nonzero it Hit) as [Hn Hu].
  destruct (blk_bounds _ _ (hi_regions _ _ _ Hinv) (proj1 (proj2 (proj2 (proj2 (proj2 (item_words h _ g Hinv it Hit))))))) as (B1 & _).
  unfold it_blk in B1. cbn [fst] in B1.
  unfold cache_round. rewrite Hn, (from_payload_ok h _ g Hinv it Hit). unfold size_at, hload. rewrite load_val by done. cbn [res_bind].
  rewrite load_val, S by done. cbn [res_bind].
  unfold u64_add, u64_sub. heap_consts. rewrite u64_op_Ok by (unfold u64_max; lia). cbn [res_bind].
  rewrite u64_op_Ok by (unfold u64_max; lia). cbn [res_bind]. reflexivity.
Qed.

Lemma cache_walk l ipre : forall prev rest, Forall (fun it => it ∈ items g) ipre -> cseg (mem h) ipre (phead rest 0) ->
  Forall (fun it => suits l it = false) ipre ->
  iter_nat (length ipre) (cache_round h (alloc_align l) (l_size l)) (prev, phead (ipre ++ rest) 0)
  = inl (plast ipre prev, phead rest 0).
Proof.
  induction ipre as [|it ipre IH]; intros prev rest Hin Hc Hn; [done|].
  apply Forall_cons in Hin as [Hit Hin]. apply Forall_cons in Hn as [Nit Hn]. destruct Hc as [Ec Hc].
  cbn [length app phead]. rewrite iter_nat_S, cache_round_ok, Nit by done. rewrite Ec, <- phead_app, IH by done.
  destruct ipre as [|y ipre]; [done|]. unfold plast. change (last (it :: y :: ipre)) with (last (y :: ipre)).
  destruct (last (y :: ipre)) eqn:E; [done|]. by apply last_None in E.
Qed.

Lemma first_suit l its : (exists pre it post, its = pre ++ it :: post /\ Forall (fun y => suits l y = false) pre /\ suits l it = true)
  \/ Forall (fun y => suits l y = false) its.
Proof.
  induction its as [|x its IH]; [by right|]. destruct (suits l x) eqn:E.
  - left. by exists [], x, its.
  - destruct IH as [(pre & y & post & -> & Hp & Hy)|Hn]; [left|right; by constructor].
    exists (x :: pre), y, post. split_and!; [done|by constructor|done].
Qed.

(** Unlinking a parked block changes the first word of the one before it. *)
Lemma unlink_ok ipre it ipost : Forall (item_ok (mem h)) (ipre ++ it :: ipost) ->
  ForallOrdPairs disj (map it_blk (ipre ++ it :: ipost)) -> Forall (fun y => y ∈ items g) ipre -> cseg (mem h) (ipre ++ it :: ipost) 0 ->
  exists m', (if plast ipre 0 =? 0 then Ok h else hstore h (plast ipre 0) (phead ipost 0)) = Ok (set_mem h m')
    /\ (if plast ipre 0 =? 0 then phead ipost 0 else phead (ipre ++ it :: ipost) 0) = phead (ipre ++ ipost) 0
    /\ cseg m' (ipre ++ ipost) 0 /\ shape (mem h) m' /\ Forall (item_ok m') (ipre ++ it :: ipost)
    /\ (forall z, Forall (fun y => disj (it_blk y) z) ipre -> agree (mem h) m' z).
Proof.
  intros Hi Hd Hin Hc. pose proof (hi_unshared _ _ _ Hinv) as Hush. destruct ipre as [|y ipre _] using rev_ind.
  { exists (mem h). cbn. destruct Hc as [_ Hc]. split_and!; first [done|by destruct (inner k)|intros z _; apply agree_refl]. }
  assert (plast (ipre ++ [y]) 0 = it_p y) as -> by (unfold plast; by rewrite last_snoc).
  apply Forall_app in Hin as [_ [Hy _]%Forall_cons]. destruct (item_nonzero y Hy) as [-> _].
  destruct (item_words h _ g Hinv y Hy) as (W & _ & _ & _ & _ & Hyi). rewrite hstore_put by done.
  rewrite !map_app in Hd. cbn [map] in Hd. rewrite <- app_assoc in Hd. cbn [app] in Hd.
  apply fop_app in Hd as (_ & [Hyr _]%fop_cons & Hpr).
  assert (forall z, disj (it_blk y) z -> agree (mem h) (put (mem h) (it_p y) (phead ipost 0)) z) as A.
  { intros z. apply agree_put; [done|]. destruct Hyi. unfold in_block, it_blk. cbn [fst snd]. lia. }
  assert (Forall (agree (mem h) (put (mem h) (it_p y) (phead ipost 0))) (map it_blk ipre)) as Ap.
  { eapply Forall_impl; [exact Hpr|]. intros z [Hz _]%Forall_cons. apply A. by symmetry. }
  assert (Forall (agree (mem h) (put (mem h) (it_p y) (phead ipost 0))) (map it_blk (it :: ipost))) as Aq.
  { cbn [map]. eapply Forall_impl; [exact Hyr|]. exact A. }
  rewrite <- app_assoc in Hi, Hc. cbn [app] in Hi, Hc. apply Forall_app in Hi as [Hi1 [_ Hi2]%Forall_cons].
  apply cseg_app in Hc as [Hc1 [_ Hc2]]. eexists. split_and!; [reflexivity| | |done| |].
  - rewrite !phead_app. by destruct ipre.
  - rewrite <- app_assoc. cbn [app]. apply cseg_app. split; [by apply (cseg_agree (mem h))|]. cbn [cseg].
    split; [by rewrite val_put_eq by done|]. apply Forall_cons in Hi2 as [_ Hi2]. apply Forall_cons in Aq as [_ Aq].
    apply (cseg_agree (mem h)); [done|done|by destruct Hc2].
  - rewrite <- app_assoc. cbn [app]. apply Forall_app. split; [by apply (items_agree (mem h))|].
    constructor; [|by apply (items_agree (mem h))]. destruct Hyi. constructor; rewrite ?val_put_ne by (done || lia); done.
  - intros z [_ [Hz _]%Forall_cons]%Forall_app. by apply A.
Qed.

(** The search of the cache, as a function of the parked blocks. *)
Lemma cached_search cpu l : 0 <= cpu < Z.of_nat (length (caches k)) ->
  exists c its, caches k !! Z.to_nat cpu = Some c /\ parked g !! Z.to_nat cpu = Some its /\ cache_ok (mem h) c its
  /\ ((per_cpu_alloc_cached k cpu l = Ok (k, 0) /\ Forall (fun y => suits l y = false) its)
      \/ exists ipre it ipost, its = ipre ++ it :: ipost /\ suits l it = true
         /\ per_cpu_alloc_cached k cpu l
            = (let? h1 := (if plast ipre 0 =? 0 then Ok h else hstore h (plast ipre 0) (phead ipost 0)) in
               let? n := u64_sub (c_count c) 1 in
               let c' := mkCache (if plast ipre 0 =? 0 then phead ipost 0 else c_head c) n in
               Ok (set_caches (set_inner k h1) (<[Z.to_nat cpu := c']> (caches k)), it_p it))).
Proof.
  intros Hcpu. destruct (cache_at cpu Hcpu) as (c & its & E & Ec & Ei & Hok & Ecat). exists c, its. split_and!; [done..|].
  assert (Forall (fun y => y ∈ items g) its) as Hin.
  { apply Forall_forall. intros y Hy. unfold items. rewrite Ecat. set_solver. }
  pose proof Hok as [C1 C2 C3 C4]. unfold per_cpu_alloc_cached. rewrite E. cbn [res_bind]. rewrite C1.
  destruct (first_suit l its) as [(ipre & it & ipost & -> & Hn & Hs)|Hn].
  - right. exists ipre, it, ipost. split_and!; [done|done|].
    apply Forall_app in Hin as [Hin1 [Hin2 _]%Forall_cons]. apply cseg_app in C2 as [Cs1 [Cs2 _]].
    assert ((phead (ipre ++ it :: ipost) 0 =? 0) = false) as ->.
    { destruct ipre as [|y ipre]; [by apply item_nonzero|]. apply Forall_cons in Hin1 as [Hy _]. by apply item_nonzero. }
    erewrite (iter_pos_done _ (length ipre + 1)); [| |unfold CACHE_FUEL, CPU_CACHE_CAP in *; rewrite length_app in C4; cbn [length] in C4; lia].
    2: { rewrite iter_nat_add, (cache_walk l ipre 0 (it :: ipost)) by done. cbn [phead iter_nat].
         rewrite cache_round_ok, Hs by done. rewrite Cs2. reflexivity. }
    reflexivity.
  - left. split; [|done]. destruct (phead its 0 =? 0) eqn:Ez; [done|].
    erewrite (iter_pos_done _ (length its + 1)); [| |unfold CACHE_FUEL, CPU_CACHE_CAP in *; lia].
    2: { rewrite iter_nat_add. pose proof (cache_walk l its 0 [] Hin C2 Hn) as Ew. rewrite app_nil_r in Ew. rewrite Ew. reflexivity. }
    reflexivity.
Qed.

Lemma suits_served l it : layout_ok l -> suits l it = true -> served (it, l).
Proof.
  intros Hl [Hs Hm]%andb_true_iff. apply Z.leb_le in Hs. apply Z.eqb_eq in Hm. unfold served. cbn [fst snd]. split; [lia|].
  destruct (lo_align l Hl) as (j & Hj & Ej). pose proof (Z.pow_pos_nonneg 2 j ltac:(lia) Hj).
  destruct (alloc_align_mul l Hl) as (q & Hq & Eq & _). apply Z.mod_divide; [lia|].
  etransitivity; [by apply align_divides|]. apply Z.mod_divide; [lia|done].
Qed.

(** Take a block from the cache of a CPU. *)
Lemma alloc_cached_inv cpu l : 0 <= cpu < Z.of_nat (length (caches k)) -> layout_ok l ->
  per_cpu_alloc_cached k cpu l = Ok (k, 0)
  \/ exists k' it ps, per_cpu_alloc_cached k cpu l = Ok (k', it_p it) /\ (it_p it =? 0) = false
       /\ heap_inv (inner k') (caches k') (mkBlocks (fl g) ps ((it, l) :: lv g))
       /\ steady h (inner k') (map fst (lv g)) /\ length (caches k') = length (caches k).
Proof.
  intros Hcpu Hl. destruct (cached_search cpu l Hcpu) as (c & its & Ec & Ei & Hok & [[? _]|(ipre & it & ipost & -> & Hs & E)]); [by left|].
  right. destruct (concat_at (parked g) _ _ (ipre ++ ipost) Ei) as [Ecat1 Ecat2].
  assert (items g ≡ₚ (ipre ++ it :: ipost) ++ others (parked g) (Z.to_nat cpu) ++ map fst (lv g)) as Eit.
  { unfold items. rewrite Ecat1. solve_Permutation. }
  pose proof Hinv as [HR Hm Hh Hf Ho Hk Hd Ht Hi Hc Hsv Hush]. pose proof Hd as (_ & Hdi & Hfi)%fop_app.
  rewrite Eit in Hdi, Hi. rewrite map_app in Hdi. apply fop_app in Hdi as (Hd1 & Hd2 & Hd12). apply Forall_app in Hi as [Hi1 Hi2].
  destruct (unlink_ok ipre it ipost) as (m' & Eu & Eh & Hc' & Hsh & Hi1' & Ha); [done|done| |apply Hok|].
  { apply Forall_forall. intros y Hy. rewrite Eit. set_solver. }
  assert (forall z, z ∈ fl g ++ map it_blk (others (parked g) (Z.to_nat cpu) ++ map fst (lv g)) -> agree (mem h) m' z) as Hag.
  { intros z Hz. apply Ha. apply Forall_forall. intros y Hy. apply elem_of_app in Hz as [Hz|Hz].
    - rewrite Forall_forall in Hfi. specialize (Hfi z Hz). rewrite Forall_map, Forall_forall in Hfi. symmetry. apply Hfi.
      rewrite Eit. set_solver.
    - rewrite Forall_map, Forall_forall in Hd12. specialize (Hd12 y ltac:(set_solver)). rewrite Forall_forall in Hd12. by apply Hd12. }
  rewrite E, Eu. cbn [res_bind]. destruct Hok as [C1 C2 C3 C4]. rewrite length_app in C3, C4. cbn [length] in C3, C4.
  unfold u64_sub. rewrite u64_op_Ok by (unfold u64_max, CPU_CACHE_CAP in *; lia). cbn [res_bind].
  eexists _, it, (<[Z.to_nat cpu := ipre ++ ipost]> (parked g)). split; [reflexivity|].
  split; [apply item_nonzero; rewrite Eit; set_solver|]. cbn [inner caches set_caches set_inner].
  assert (items (mkBlocks (fl g) (<[Z.to_nat cpu := ipre ++ ipost]> (parked g)) ((it, l) :: lv g)) ≡ₚ items g) as Ein.
  { rewrite Eit. unfold items. cbn [parked lv map fst]. rewrite Ecat2. solve_Permutation. }
  assert (blocks (mkBlocks (fl g) (<[Z.to_nat cpu := ipre ++ ipost]> (parked g)) ((it, l) :: lv g)) ≡ₚ blocks g) as Ebl.
  { unfold blocks. cbn [fl]. by rewrite Ein. }
  split_and!; [| |by rewrite length_insert].
  - constructor; cbn [mem set_mem free_list fl parked lv]; try done.
    + by apply (shape_mem_ok (mem h)).
    + apply (fseg_agree (mem h)); [| |done].
      * apply Forall_app in Hk as [Hk _]. eapply Forall_impl; [exact Hk|apply bo_min].
      * apply Forall_forall. intros z Hz. apply Hag. set_solver.
    + by rewrite Ebl.
    + by rewrite Ebl.
    + by rewrite Ebl.
    + rewrite Ein, Eit. apply Forall_app. split; [done|]. apply (items_agree (mem h)); [|done].
      apply Forall_forall. intros z Hz. apply Hag. set_solver.
    + apply Forall_app in Hi2 as [Hi2 _]. apply (caches_replaced (mem h)); [done| |done|].
      * apply Forall_forall. intros z Hz. apply Hag. rewrite map_app. set_solver.
      * constructor; cbn [c_head c_count]; rewrite ?length_app; [|done|lia|lia]. by rewrite C1.
    + constructor; [by apply suits_served|done].
    + by apply (shape_unshared (mem h)).
  - constructor; try done. apply Forall_forall. intros z Hz. apply Hag. rewrite map_app. set_solver.
Qed.
End Caches.
