(* ===== verification/HeapGrow.v ===== *)
(** * The kernel heap: growth

    A new chunk joins the heap as one free block; mapping its pages touches no
    other chunk, whatever the frame allocator and the page tables answer. *)

From Stdlib Require Import Sorting.Sorted.
From S2P Require Import Prelude Bits PhysAlloc Heap HeapFacts HeapInv.
Local Open Scope Z_scope.

Lemma blk_ok_mono R R' x : R ⊆ R' -> blk_ok R x -> blk_ok R' x.
Proof. intros Hs [Hm Ha Hz (r & Hr & Hi)]. constructor; [done..|]. exists r. auto. Qed.

Lemma region_block r : region_ok r -> forall R, r ∈ R -> blk_ok R r.
Proof.
  intros (H1 & H2 & H3 & H4 & H5) R Hr. constructor; [heap_consts; mlia|mlia|mlia|]. exists r. split; [done|]. unfold inside. lia.
Qed.

Lemma inside_apart x y r r' : inside x r -> inside y r' -> apart r r' -> disj x y.
Proof. unfold inside, apart, disj, HEAP_GUARD_BYTES. lia. Qed.

(** The freed bytes are in one block of the list. *)
Lemma placed_contains R pre post b : regions_ok R -> blk_ok R b -> Forall (blk_ok R) (pre ++ post) ->
  exists y, y ∈ placed pre post b /\ inside b y.
Proof.
  intros HR Hb Hk. apply Forall_app in Hk as [Hk1 Hk2].
  assert (exists y l, join_right b post = y :: l /\ y.1 = b.1 /\ inside b y) as (y & l & E & Ey & Hi).
  { destruct post as [|z post]; cbn [join_right]; [exists b, []; split_and!; try done; unfold inside; lia|].
    apply Forall_cons in Hk2 as [Hz _]. destruct (blk_bounds R z HR Hz) as (_ & _ & ?).
    case_match; eexists _, _; (split_and!; [reflexivity|done|]); unfold inside; cbn [fst snd]; lia. }
  unfold placed. rewrite E. destruct pre as [|x pre _] using rev_ind; [exists y; split; [by left|done]|].
  rewrite join_left_snoc. cbn [join_left]. apply Forall_app in Hk1 as [_ [Hx _]%Forall_cons].
  destruct (blk_bounds R x HR Hx) as (_ & _ & ?). destruct (Z.eqb_spec (x.1 + x.2) y.1) as [Ex|Ex].
  - exists (x.1, x.2 + y.2). split; [set_solver|]. unfold inside in *. cbn [fst snd]. lia.
  - exists y. split; [set_solver|done].
Qed.

(** ** A new region *)

Section Region.
Context (h : HeapInner) (cs : list PerCpuCache) (g : Blocks) (Hinv : heap_inv h cs g).
Context (r : Z * Z) (Hr : region_ok r) (Hap : Forall (apart r) (regions h)) (Hmr : mem_ok (mem h) [r]).
Notation R' := (regions h ++ [r]).

Lemma regions_grow : regions_ok R'.
Proof.
  destruct (hi_regions _ _ _ Hinv) as [H1 H2]. split; [apply Forall_app; split; [done|by constructor]|].
  apply fop_app. split_and!; [done|repeat constructor|]. eapply Forall_impl; [exact Hap|]. intros x Hx. constructor; [by symmetry|done].
Qed.

Lemma mem_grow : mem_ok (mem h) R'.
Proof.
  intros q a [Hq|Hq]%elem_of_app H1 H2 H3; [by apply (hi_mem _ _ _ Hinv q)|by apply (Hmr q)].
Qed.

Lemma region_disjoint : Forall (disj r) (blocks g).
Proof.
  pose proof (hi_blocks _ _ _ Hinv) as Hk. rewrite Forall_forall in Hk, Hap |- *. intros x Hx.
  destruct (bo_in _ _ (Hk x Hx)) as (q & Hq & Hi). apply (inside_apart r x r q); [unfold inside; lia|done|by apply Hap].
Qed.

Lemma add_region_inv :
  (add_region h r.1 r.2 = Panic /\ FREE_LIST_WALK_BOUND < Z.of_nat (length (fl g)))
  \/ exists h' fl', add_region h r.1 r.2 = Ok h' /\ steady h h' (items g) /\ (exists y, y ∈ fl' /\ inside r y)
     /\ (forall ph sc, heap_inv (set_chunks h' (chunks h' ++ [mkChunk r.1 ph r.2 0 sc])) cs (mkBlocks fl' (parked g) (lv g))).
Proof.
  pose proof regions_grow as HR'. pose proof mem_grow as Hm'. pose proof region_disjoint as Hd.
  pose proof Hinv as [HR Hm Hh Hf Ho Hk Hdj Ht Hi Hc Hs Hush].
  assert (blk_ok R' r) as Kr by (apply region_block; [done|set_solver]).
  assert (Forall (blk_ok R') (blocks g)) as Hk'. { eapply Forall_impl; [exact Hk|]. intros x. apply blk_ok_mono. set_solver. }
  destruct (header_words R' HR' _ r Hm' Kr) as [W1 W2]. destruct (blk_bounds R' r HR' Kr) as (_ & _ & Hrs).
  set (h1 := set_mem (set_mem h (put (mem h) r.1 r.2)) (put (put (mem h) r.1 r.2) (r.1 + 8) 0)).
  assert (add_region h r.1 r.2 = push_free h1 r.1) as ->.
  { unfold add_region, set_size_at, set_next_at. rewrite hstore_put by done. cbn [res_bind]. by rewrite hstore_put by done. }
  assert (forall z, disj r z -> agree (mem h) (mem h1) z) as A1.
  { intros z Hz. eapply agree_trans; [|eapply agree_put; [done| |exact Hz]; unfold in_block; lia].
    eapply agree_put; [done| |exact Hz]. unfold in_block. lia. }
  pose proof Hk' as [Hkf Hki]%Forall_app. pose proof Hd as [Hdf Hdi]%Forall_app. pose proof Hdj as (_ & Hii & Hfi)%fop_app.
  destruct (split_at R' HR' (fl g) r Ho Hkf Kr Hdf) as (pre & post & E & Hp & Hq).
  assert (fseg (mem h1) (fl g) 0) as Hf1 by (by apply (fseg_other R' (mem h) _ _ 0 r)).
  assert (val (mem h1) r.1 = r.2) as Hv1. { unfold h1. cbn [mem set_mem]. rewrite val_put_ne by (done || lia). by apply val_put_eq. }
  rewrite E in *. destruct (Z.le_gt_cases (Z.of_nat (length pre)) FREE_LIST_WALK_BOUND) as [Hn|Hn].
  2: { left. split; [|rewrite length_app; lia]. by apply (push_free_panics R' HR' h1 pre post r). }
  right. destruct (push_free_ok R' HR' h1 pre post r) as (m' & f' & Epf & -> & Hf' & Hs' & Ha'); try done.
  destruct (placed_ok R' pre post r HR') as (Po & Pk & Pt & Pd); try done.
  assert (Forall (agree (mem h) m') (map it_blk (items g))) as Hag.
  { rewrite Forall_forall in Hdi |- *. intros z Hz. eapply agree_trans; [by apply A1, Hdi|]. apply Ha'; [by apply Hdi|].
    apply Forall_forall. intros u Hu. apply (proj1 (Forall_forall _ _) (proj1 (Forall_forall _ _) Hfi u Hu) z Hz). }
  eexists _, (placed pre post r). split_and!; [exact Epf|by constructor|apply (placed_contains R'); try done|]. intros ph sc.
  assert (regions (set_chunks (set_free_list (set_mem h1 m') (haddr (placed pre post r) 0))
     (chunks h ++ [mkChunk r.1 ph r.2 0 sc])) = R') as ER.
  { unfold regions. cbn [chunks set_chunks]. rewrite map_app. cbn [map c_vaddr c_size]. by destruct r. }
  change (chunks (set_free_list (set_mem h1 m') (haddr (placed pre post r) 0))) with (chunks h).
  constructor; rewrite ?ER; cbn [fl parked lv mem free_list set_chunks set_free_list set_mem]; try done.
  - by apply (shape_mem_ok (mem h1)).
  - unfold blocks. cbn [fl]. by apply Forall_app.
  - unfold blocks. cbn [fl]. apply fop_app. split_and!; [by apply ordered_disjoint|done|].
    rewrite Forall_forall in Hki, Hdi. apply Forall_forall. intros y Hy. apply Forall_forall. intros z Hz.
    destruct (blk_bounds R' z HR' (Hki z Hz)) as (_ & _ & Hz0). symmetry.
    apply (proj1 (Forall_forall _ _) (Pd z ltac:(lia) (Hdi z Hz) ltac:(
      apply Forall_forall; intros u Hu; symmetry; apply (proj1 (Forall_forall _ _) (proj1 (Forall_forall _ _) Hfi u Hu) z Hz))) y Hy).
  - unfold blocks in *. cbn [fl]. rewrite E in Ht. change (items (mkBlocks (placed pre post r) (parked g) (lv g))) with (items g).
    rewrite !total_app in *. rewrite Pt. cbn [total]. rewrite total_app. lia.
  - by apply (items_agree (mem h)).
  - unfold items in Hag, Hi. rewrite map_app in Hag. apply Forall_app in Hag as [Hag _]. apply Forall_app in Hi as [Hi _].
    by apply (caches_agree (mem h)).
  - by apply (shape_unshared (mem h1)).
Qed.
End Region.

(** ** Mapping pages *)

Lemma is_mapped_spec m w : is_mapped m w 8 = true <-> exists q, q ∈ mapped m /\ maps w 8 q = true.
Proof.
  unfold is_mapped. rewrite existsb_exists. split; intros (q & Hq & Hc); exists q; by rewrite list_elem_of_In in *.
Qed.

(** The mappings of a word. *)
Definition over (w : Z) (l : list (Z * Z * Z)) : list (Z * Z * Z) := List.filter (maps w 8) l.

Lemma phys_of_over m w : phys_of m w = (fun r => r.2 + (w - r.1.1)) <$> head (over w (mapped m)).
Proof.
  unfold phys_of, over. f_equal. induction (mapped m) as [|q l IH]; [done|]. cbn. by destruct (maps w 8 q).
Qed.

Lemma over_app w l l' : over w (l ++ l') = over w l ++ over w l'.
Proof. apply List.filter_app. Qed.

Lemma over_none w l : Forall (fun q => maps w 8 q = false) l -> over w l = [].
Proof. induction 1 as [|q l Hq _ IH]; [done|]. unfold over in *. cbn. by rewrite Hq. Qed.

(** The same words in memory, and the same mapping outside [r]. *)
Record remap (m m' : Mem) (r : Z * Z) : Prop := {
  rm_junk : junk m' = junk m;
  rm_words : words m' = words m;
  rm_out w : w + 8 <= r.1 \/ r.1 + r.2 <= w -> over w (mapped m') = over w (mapped m)
}.

Lemma remap_phys m m' r w : remap m m' r -> w + 8 <= r.1 \/ r.1 + r.2 <= w -> phys_of m' w = phys_of m w.
Proof. intros Hr Hw. by rewrite !phys_of_over, (rm_out m m' r Hr w Hw). Qed.

Lemma remap_val m m' r w : remap m m' r -> w + 8 <= r.1 \/ r.1 + r.2 <= w -> val m' w = val m w.
Proof. intros Hr Hw. unfold val. by rewrite (remap_phys m m' r w Hr Hw), (rm_junk m m' r Hr), (rm_words m m' r Hr). Qed.

Lemma apart_out r q w : apart r q -> q.1 <= w < q.1 + q.2 -> w + 8 <= r.1 \/ r.1 + r.2 <= w.
Proof. unfold apart, HEAP_GUARD_BYTES. lia. Qed.

Lemma remap_mem_ok m m' r q : remap m m' r -> apart r q -> mem_ok m [q] -> mem_ok m' [q].
Proof.
  intros Hr Ha Hm q' a ->%list_elem_of_singleton H1 H2 H3. unfold word_ok.
  specialize (Hm q a ltac:(set_solver) H1 H2 H3). unfold word_ok in Hm. apply andb_true_iff in Hm as [-> Hm]. cbn [andb].
  apply phys_of_mapped. rewrite (remap_phys m m' r a Hr); [by apply phys_of_mapped|]. apply (apart_out r q a Ha). lia.
Qed.

Lemma mem_ok_each m R : mem_ok m R <-> Forall (fun q => mem_ok m [q]) R.
Proof.
  rewrite Forall_forall. split.
  - intros Hm q Hq q' a ->%list_elem_of_singleton. by apply Hm.
  - intros Hf q a Hq. apply (Hf q Hq). set_solver.
Qed.

Lemma remap_inv h m' cs g r : heap_inv h cs g -> Forall (apart r) (regions h) -> remap (mem h) m' r -> unshared m' ->
  heap_inv (set_mem h m') cs g.
Proof.
  intros [HR Hm Hh Hf Ho Hk Hd Ht Hi Hc Hs _] Hap Hr Hu.
  assert (Forall (agree (mem h) m') (blocks g)) as Ha.
  { rewrite Forall_forall in Hk, Hap |- *. intros x Hx w Hw. destruct (bo_in _ _ (Hk x Hx)) as (q & Hq & Hin).
    apply (remap_val _ _ r); [done|]. apply (apart_out r q w (Hap q Hq)). unfold inside, in_block in *. lia. }
  apply Forall_app in Ha as [Haf Hai].
  constructor; cbn [mem set_mem free_list]; try done.
  - apply mem_ok_each. apply mem_ok_each in Hm. rewrite Forall_forall in Hm, Hap |- *. intros q Hq.
    apply (remap_mem_ok (mem h) m' r); auto.
  - apply (fseg_agree (mem h)); [|done|done]. apply Forall_app in Hk as [Hk _].
    eapply Forall_impl; [exact Hk|apply bo_min].
  - by apply (items_agree (mem h)).
  - unfold items in Hai, Hi. rewrite map_app in Hai. apply Forall_app in Hai as [Hai _]. apply Forall_app in Hi as [Hi _].
    by apply (caches_agree (mem h)).
Qed.

Section Back.
Context `{Profile} {V : Type} `{VmmOps V}.
Implicit Types k : KHeap V.

(** Only the mapping of the heap changes. *)
Record same_but (k k' : KHeap V) (m' : Mem) : Prop := {
  sb_inner : inner k' = set_mem (inner k) m';
  sb_caches : caches k' = caches k;
  sb_init : initialized k' = initialized k;
  sb_junk : junk m' = junk (mem (inner k));
  sb_words : words m' = words (mem (inner k))
}.

Lemma same_but_trans k1 k2 k3 m2 m3 : same_but k1 k2 m2 -> same_but k2 k3 m3 -> same_but k1 k3 m3.
Proof.
  intros [A1 A2 A3 A4 A5] [B1 B2 B3 B4 B5]. rewrite A1 in *. cbn [mem set_mem] in *.
  constructor; [by rewrite B1|congruence..].
Qed.

Lemma with_map_ok k v s pa r k' : with_map k v s pa r = Ok k' -> same_but k k' (map_range (mem (inner k)) v s pa).
Proof. unfold with_map. destruct r as [[? ?]|?|]; cbn [res_bind]; [|done..]. by intros [= <-]. Qed.

(** The pages [got] to [got'] from [low], whatever backs them. *)
Definition page_run (low got got' : Z) (l : list (Z * Z * Z)) : Prop :=
  Forall (fun q => exists i, got <= i < got' /\ q.1 = (low + i * 4096, 4096)) l
  /\ forall i, got <= i < got' -> exists q, q ∈ l /\ q.1 = (low + i * 4096, 4096).

Lemma map_scattered_ok n : forall low got k k' got', map_scattered n low got k = Ok (k', got') ->
  exists m' new, same_but k k' m' /\ got <= got' <= got + Z.of_nat n
    /\ mapped m' = new ++ mapped (mem (inner k)) /\ page_run low got got' new.
Proof.
  induction n as [|n IH]; intros low got k k' got' E; cbn [map_scattered] in E.
  { injection E as <- <-. exists (mem (inner k)), []. split_and!; [by destruct k as [[]]|lia|lia|done|].
    split; [constructor|lia]. }
  destruct (alloc (frames k)) as [[f [frame|]]|e|]; cbn [res_bind] in E; [| |done..].
  - destruct (with_map _ _ _ _ _) as [k1|e|] eqn:Em; cbn [res_bind] in E; [|done..].
    apply with_map_ok in Em. apply IH in E as (m' & new & Hs & Hg & Hq & Hp1 & Hp2).
    exists m', (new ++ [(low + got * 4096, 4096, frame)]). split_and!; [|lia|lia| |split].
    + eapply same_but_trans; [|exact Hs]. destruct Em as [E1 E2 E3 E4 E5]. by constructor.
    + rewrite Hq, (sb_inner _ _ _ Em), <- app_assoc. done.
    + apply Forall_app. split; [|constructor; [|done]].
      * eapply Forall_impl; [exact Hp1|]. intros q (i & Hi & Ei). exists i. split; [lia|done].
      * exists got. split; [lia|done].
    + intros i Hi. destruct (decide (i = got)) as [->|].
      * eexists. split; [apply elem_of_app; right; by left|done].
      * destruct (Hp2 i ltac:(lia)) as (q & Hin & Eq). exists q. split; [set_solver|done].
  - injection E as <- <-. exists (mem (inner k)), []. split_and!; [|lia|lia|done|split; [constructor|lia]].
    constructor; try done. cbn [inner set_frames]. by destruct (inner k).
Qed.

Lemma unmap_page_ok k va k' : unmap_page k va = Ok k' -> same_but k k' (unmap_range (mem (inner k)) va 4096).
Proof.
  unfold unmap_page. destruct (vmm_unmap _ _ _ _ _) as [[v f]|e|]; cbn [res_bind]; [|done..].
  destruct (vmm_translate _ _ _) as [pa|]; [|by intros [= <-]].
  destruct (free _ _) as [f'|e|]; cbn [res_bind]; [|done..]. by intros [= <-].
Qed.

Definition page_in (low : Z) (pages : list Z) (q : Z * Z * Z) : bool :=
  existsb (fun i => bool_decide (q.1 = (low + i * 4096, 4096))) pages.

Lemma unmap_scattered_ok pages : forall low k k', unmap_scattered pages low k = Ok k' ->
  exists m', same_but k k' m' /\ mapped m' = List.filter (fun q => negb (page_in low pages q)) (mapped (mem (inner k))).
Proof.
  induction pages as [|p pages IH]; intros low k k' E; cbn [unmap_scattered] in E.
  { injection E as <-. exists (mem (inner k)). split; [constructor; try done; by destruct (inner k)|].
    induction (mapped (mem (inner k))) as [|q l IH]; [done|]. cbn in *. by f_equal. }
  destruct (unmap_page _ _) as [k1|e|] eqn:Em; cbn [res_bind] in E; [|done..].
  apply unmap_page_ok in Em. apply IH in E as (m' & Hs & Hq). exists m'. split; [by eapply same_but_trans|].
  rewrite Hq, (sb_inner _ _ _ Em). cbn [mem set_mem unmap_range mapped].
  induction (mapped (mem (inner k))) as [|q l IHl]; [done|]. cbn. destruct (bool_decide (q.1 = _)); cbn; [apply IHl|].
  unfold page_in at 1 3. destruct (existsb _ _); cbn; [apply IHl|by f_equal].
Qed.

Lemma fop_filter {A} (P : A -> A -> Prop) f l : ForallOrdPairs P l -> ForallOrdPairs P (List.filter f l).
Proof.
  induction 1 as [|x l Hx _ IH]; cbn; [constructor|]. destruct (f x); [|done]. constructor; [|done].
  rewrite Forall_forall in Hx |- *. intros y Hy%list_elem_of_In. apply filter_In in Hy as [Hy _]. by apply Hx, list_elem_of_In.
Qed.

Lemma over_kept w P l : (forall q, maps w 8 q = true -> P q = true) -> over w (List.filter P l) = over w l.
Proof.
  intros HP. unfold over. induction l as [|q l IH]; [done|]. cbn. destruct (maps w 8 q) eqn:E.
  - rewrite (HP q E). cbn. rewrite E. by f_equal.
  - destruct (P q); cbn; [by rewrite E|done].
Qed.

Lemma mapped_word m q a : q ∈ mapped m -> a mod 8 = 0 -> maps a 8 q = true -> word_ok m a = true.
Proof. intros Hq Ha Hm. unfold word_ok. apply andb_true_iff. split; [lia|]. apply is_mapped_spec. eauto. Qed.

Lemma back_pages_ok k low size count k' res : 0 <= count -> low mod 4096 = 0 -> size = count * 4096 -> back_pages k low size count = Ok (k', res) ->
  exists m', same_but k k' m' /\ remap (mem (inner k)) m' (low, size)
    /\ (forall x, res = Some x -> mem_ok m' [(low, size)])
    /\ (res = None -> unshared (mem (inner k)) -> unshared m').
Proof.
  intros Hc Hlow Es E. unfold back_pages in E. destruct (contiguous (frames k) count) as [[f pa]|e|]; [| |done].
  - destruct (with_map _ _ _ _ _) as [k1|e|] eqn:Em; cbn [res_bind] in E; [|done..]. injection E as <- <-.
    apply with_map_ok in Em. eexists. split_and!.
    + destruct Em as [E1 E2 E3 E4 E5]. by constructor.
    + constructor; [done|done|]. intros w Hw. cbn [fst snd] in Hw. cbn [inner set_frames map_range mapped]. unfold over. cbn [List.filter].
      replace (maps w 8 (low, size, pa)) with false; [done|]. symmetry. apply not_true_iff_false. rewrite maps_spec. cbn [fst snd]. lia.
    + intros _ _ q a ->%list_elem_of_singleton H1 H2 H3. cbn [fst snd] in *. apply (mapped_word _ (low, size, pa)); [by left|done|].
      apply maps_spec. cbn [fst snd]. lia.
    + done.
  - destruct (map_scattered _ _ _ _) as [[k1 got]|e'|] eqn:Em; cbn [res_bind] in E; [|done..].
    apply map_scattered_ok in Em as (m1 & new & S1 & Hg & Hq & Hp1 & Hp2).
    assert (forall w q i, 0 <= i < got -> q.1 = (low + i * 4096, 4096) -> w + 8 <= low \/ low + size <= w -> maps w 8 q = false) as Hout.
    { intros w q i Hi Eq Hw. apply not_true_iff_false. rewrite maps_spec, Eq. cbn [fst snd]. lia. }
    assert (forall w, w + 8 <= low \/ low + size <= w -> over w (mapped m1) = over w (mapped (mem (inner k)))) as Ho1.
    { intros w Hw. rewrite Hq, over_app, over_none; [done|]. eapply Forall_impl; [exact Hp1|]. intros q (i & Hi & Eq). by apply (Hout w q i). }
    destruct (Z.eqb_spec got count) as [Eg|Eg].
    + injection E as <- <-. exists m1. split_and!; [done|by constructor; [apply S1|apply S1|]| |done].
      intros _ _ q a ->%list_elem_of_singleton H1 H2 H3. cbn [fst snd] in *.
      destruct (Hp2 ((a - low) / 4096) ltac:(mlia)) as (q & Hin & Eq).
      apply (mapped_word _ q); [rewrite Hq; set_solver|done|]. apply maps_spec. rewrite Eq. cbn [fst snd]. mlia.
    + destruct (unmap_scattered _ _ _) as [k2|e'|] eqn:Eu; cbn [res_bind] in E; [|done..]. injection E as <- <-.
      apply unmap_scattered_ok in Eu as (m2 & S2 & Hq2). exists m2. split_and!; [by eapply same_but_trans| |done|].
      2: { intros _. unfold unshared. rewrite Hq2, (sb_inner _ _ _ S1). cbn [mem set_mem]. rewrite Hq, List.filter_app.
           replace (List.filter _ new) with (@nil (Z * Z * Z)); [apply fop_filter|]. clear - Hp1. induction Hp1 as [|q l (i & Hi & Eq) _ IH]; [done|].
           cbn. replace (page_in low (seqZ 0 got) q) with true; [done|]. symmetry. apply existsb_exists. exists i.
           split; [apply list_elem_of_In, elem_of_seqZ; lia|by apply bool_decide_eq_true]. }
      destruct (same_but_trans _ _ _ _ _ S1 S2) as [_ _ _ J W]. constructor; [done|done|].
      intros w Hw. cbn [fst snd] in Hw. rewrite Hq2, (sb_inner _ _ _ S1). cbn [mem set_mem]. rewrite over_kept; [by apply Ho1|].
      intros q Hm. apply negb_true_iff, not_true_iff_false. intros Hp. unfold page_in in Hp.
      apply existsb_exists in Hp as (i & Hi%list_elem_of_In%elem_of_seqZ & Eq%bool_decide_eq_true). by rewrite (Hout w q i) in Hm by (lia || done).
Qed.
End Back.
