(* ===== verification/HeapSpec.v ===== *)
(** * The kernel heap: safety

    The CPUs interleave at the locks: each step is one critical section of the
    allocator, or a client that writes to memory it was given.  In every
    reachable state the allocations are disjoint and nothing faults. *)

From Stdlib Require Import Sorting.Sorted.
From S2P Require Import Prelude Bits PhysAlloc Heap HeapFacts HeapInv HeapGrow.
Local Open Scope Z_scope.

(** A growth that has reserved its addresses: [g_back] is the outcome of mapping
    the pages, once known. *)
Record Growth := mkGrowth { g_low : Z; g_size : Z; g_old : Z; g_count : Z; g_back : option (option (Z * bool)) }.

Definition g_reg (p : Growth) : Z * Z := (g_low p, g_size p).

(** The heap, the allocations handed out, and the growths under way. *)
Record Sys (V : Type) := mkSys { s_k : KHeap V; s_lv : list (Z * Layout); s_pend : list Growth }.
Arguments mkSys {V} _ _ _.
Arguments s_k {V} _.
Arguments s_lv {V} _.
Arguments s_pend {V} _.

Definition s_mem {V} (s : Sys V) : Mem := mem (inner (s_k s)).

Definition hand (p : Z) (l : Layout) (lv : list (Z * Layout)) : list (Z * Layout) := if p =? 0 then lv else (p, l) :: lv.

Section Steps.
Context `{Profile} {V : Type} `{VmmOps V}.

Inductive hstep (s : Sys V) : Sys V -> Prop :=
  | hs_cached cpu l k' p : 0 <= cpu < MAX_CPUS -> layout_ok l -> per_cpu_alloc_cached (s_k s) cpu l = Ok (k', p) ->
      hstep s (mkSys k' (hand p l (s_lv s)) (s_pend s))
  | hs_shared l k' p : layout_ok l -> alloc_shared (s_k s) l = Ok (k', p) ->
      hstep s (mkSys k' (hand p l (s_lv s)) (s_pend s))
  | hs_park cpu p l lv' k' (b : bool) : 0 <= cpu < MAX_CPUS -> s_lv s ≡ₚ (p, l) :: lv' ->
      per_cpu_free_cached (s_k s) cpu p = Ok (k', b) ->
      hstep s (mkSys k' (if b then lv' else s_lv s) (s_pend s))
  | hs_free p l lv' k' : s_lv s ≡ₚ (p, l) :: lv' -> free_shared (s_k s) p = Ok k' ->
      hstep s (mkSys k' lv' (s_pend s))
  | hs_reserve count h' r : 1 <= count -> grow_reserve (inner (s_k s)) count = (h', r) ->
      hstep s (mkSys (set_inner (s_k s) h') (s_lv s)
        (match r with Some (low, size, old) => mkGrowth low size old count None :: s_pend s | None => s_pend s end))
  | hs_back p pend' k' r : s_pend s ≡ₚ p :: pend' -> g_back p = None ->
      back_pages (s_k s) (g_low p) (g_size p) (g_count p) = Ok (k', r) ->
      hstep s (mkSys k' (s_lv s) (mkGrowth (g_low p) (g_size p) (g_old p) (g_count p) (Some r) :: pend'))
  | hs_commit p pend' h' r (b : bool) : s_pend s ≡ₚ p :: pend' -> g_back p = Some r ->
      grow_commit (inner (s_k s)) (g_low p) (g_size p) (g_old p) r = Ok (h', b) ->
      hstep s (mkSys (set_inner (s_k s) h') (s_lv s) pend').

(** A client writes a word of its allocation. *)
Inductive cwrite (s : Sys V) : Sys V -> Prop :=
  | cw p l w v m' : (p, l) ∈ s_lv s -> w mod 8 = 0 -> p <= w < p + l_size l -> store (s_mem s) w v = Ok m' ->
      cwrite s (mkSys (set_inner (s_k s) (set_mem (inner (s_k s)) m')) (s_lv s) (s_pend s)).

Definition step (s s' : Sys V) : Prop := hstep s s' \/ cwrite s s'.

(** ** The invariant *)

Definition low_ok (x : Z) : Prop := x = u64_max \/ (HEAP_FLOOR <= x <= HEAP_TOP /\ x mod 4096 = 0).

Definition all_regions (h : HeapInner) (pend : list Growth) : list (Z * Z) := regions h ++ map g_reg pend.

Record growth_ok (m : Mem) (A : list (Z * Z)) (p : Growth) : Prop := {
  go_size : g_size p = g_count p * 4096;
  go_count : 1 <= g_count p;
  go_old : low_ok (g_old p);
  go_other r : r ∈ A -> r = g_reg p \/ r.1 + r.2 + HEAP_GUARD_BYTES <= g_low p \/ g_old p <= r.1;
  go_mapped x : g_back p = Some (Some x) -> mem_ok m [g_reg p]
}.

Record sys_inv (s : Sys V) (g : Blocks) : Prop := {
  si_heap : heap_inv (inner (s_k s)) (caches (s_k s)) g;
  si_live : map (fun x => (it_p x.1, x.2)) (lv g) ≡ₚ s_lv s;
  si_cpus : Z.of_nat (length (caches (s_k s))) = MAX_CPUS;
  si_low : low_ok (low_vaddr (inner (s_k s)));
  si_regions : regions_ok (all_regions (inner (s_k s)) (s_pend s));
  si_above : Forall (fun r => low_vaddr (inner (s_k s)) <= r.1) (all_regions (inner (s_k s)) (s_pend s));
  si_pend : Forall (growth_ok (s_mem s) (all_regions (inner (s_k s)) (s_pend s))) (s_pend s)
}.

(** Allocations that stay keep their contents. *)
Definition kept (s s' : Sys V) : Prop := forall x w, x ∈ s_lv s -> x ∈ s_lv s' -> x.1 <= w < x.1 + l_size x.2 ->
  val (s_mem s') w = val (s_mem s) w.

(** What the growths need of an operation that does not move the chunks. *)
Lemma inv_steady s s' g g' : sys_inv s g -> s_pend s' = s_pend s ->
  chunks (inner (s_k s')) = chunks (inner (s_k s)) -> low_vaddr (inner (s_k s')) = low_vaddr (inner (s_k s)) ->
  shape (s_mem s) (s_mem s') -> length (caches (s_k s')) = length (caches (s_k s)) ->
  heap_inv (inner (s_k s')) (caches (s_k s')) g' -> map (fun x => (it_p x.1, x.2)) (lv g') ≡ₚ s_lv s' -> sys_inv s' g'.
Proof.
  intros [Hh Hl Hc Hlow Hr Ha Hp] Ep Ec El Hs Ecs Hh' Hl'.
  assert (all_regions (inner (s_k s')) (s_pend s') = all_regions (inner (s_k s)) (s_pend s)) as EA.
  { unfold all_regions, regions. by rewrite Ec, Ep. }
  constructor; rewrite ?EA, ?El, ?Ep; try done; [by rewrite Ecs|].
  eapply Forall_impl; [exact Hp|]. intros p [G1 G2 G3 G4 G5]. constructor; try done.
  intros x Hx. eapply shape_mem_ok; [exact Hs|]. by eapply G5.
Qed.

(** A live block keeps the words of its payload. *)
Lemma agree_kept s s' g : sys_inv s g -> (forall x, x ∈ s_lv s -> x ∈ s_lv s' -> exists it, (it, x.2) ∈ lv g /\ it_p it = x.1
    /\ agree (s_mem s) (s_mem s') (it_blk it)) -> kept s s'.
Proof.
  intros Hi Hx x w H1 H2 Hw. destruct (Hx x H1 H2) as (it & Hin & Ep & Ha). apply Ha.
  pose proof (hi_served _ _ _ (si_heap s g Hi)) as Hs. rewrite Forall_forall in Hs. specialize (Hs _ Hin). destruct Hs as [Hs _].
  pose proof (hi_items _ _ _ (si_heap s g Hi)) as Hit. rewrite Forall_forall in Hit. cbn [fst snd] in Hs.
  destruct (Hit it) as [_ _ L _ _]; [unfold items; apply elem_of_app; right; apply list_elem_of_fmap_2' with (it, x.2); done|].
  unfold in_block, it_blk. cbn [fst snd]. lia.
Qed.

Lemma live_item (s : Sys V) g x : sys_inv s g -> x ∈ s_lv s -> exists it, (it, x.2) ∈ lv g /\ it_p it = x.1.
Proof.
  intros Hi Hx. rewrite <- (si_live s g Hi) in Hx. apply list_elem_of_fmap in Hx as ([it l] & -> & Hin). by exists it.
Qed.

Lemma live_split s g p l lv' : sys_inv s g -> s_lv s ≡ₚ (p, l) :: lv' ->
  exists it lg, lv g ≡ₚ (it, l) :: lg /\ it_p it = p /\ map (fun x => (it_p x.1, x.2)) lg = lv'.
Proof.
  intros Hi Hp. rewrite <- (si_live s g Hi) in Hp. symmetry in Hp.
  apply Permutation_map_inv in Hp as (l3 & E & Hp). destruct l3 as [|[it l'] lg]; [done|]. injection E as -> -> ->.
  by exists it, lg.
Qed.

(** ** Allocation and freeing *)

Lemma in_items (g : Blocks) (it : Item) (l : Layout) : (it, l) ∈ lv g -> it ∈ items g.
Proof. intros Hin. unfold items. apply elem_of_app. right. by apply list_elem_of_fmap_2' with (it, l). Qed.

Lemma kept_steady (s s' : Sys V) g l : sys_inv s g -> Forall (agree (s_mem s) (s_mem s')) (map it_blk l) ->
  (forall x, x ∈ s_lv s -> x ∈ s_lv s' -> exists it, (it, x.2) ∈ lv g /\ it_p it = x.1 /\ it ∈ l) -> kept s s'.
Proof.
  intros Hi Ha Hx. apply (agree_kept s s' g Hi). intros x H1 H2. destruct (Hx x H1 H2) as (it & Hin & Ep & Hl).
  exists it. split_and!; [done|done|]. rewrite Forall_map, Forall_forall in Ha. by apply Ha.
Qed.

Lemma hand_inv (s : Sys V) g it l : map (fun x => (it_p x.1, x.2)) (lv g) ≡ₚ s_lv s -> (it_p it =? 0) = false ->
  map (fun x => (it_p x.1, x.2)) ((it, l) :: lv g) ≡ₚ hand (it_p it) l (s_lv s).
Proof. intros Hl E. unfold hand. rewrite E. cbn [map fst snd]. by rewrite Hl. Qed.

Lemma step_cached s g cpu l k' p : sys_inv s g -> 0 <= cpu < MAX_CPUS -> layout_ok l ->
  per_cpu_alloc_cached (s_k s) cpu l = Ok (k', p) ->
  let s' := mkSys k' (hand p l (s_lv s)) (s_pend s) in (exists g', sys_inv s' g') /\ kept s s'.
Proof.
  intros Hi Hc Hl E s'. rewrite <- (si_cpus s g Hi) in Hc.
  destruct (alloc_cached_inv (s_k s) g (si_heap s g Hi) cpu l Hc Hl) as [E0|(k1 & it & ps & E1 & En & Hi' & Hst & Ecs)].
  - rewrite E0 in E. injection E as <- <-. split; [exists g; by apply (inv_steady s s' g g Hi); try apply Hi|].
    by intros x w _ _ _.
  - rewrite E1 in E. injection E as <- <-. split.
    + eexists. eapply (inv_steady s s' g _ Hi); try apply Hst; [done|done|exact Hi'|]. by apply hand_inv; [apply Hi|].
    + eapply (kept_steady s s' g _ Hi); [apply Hst|]. intros x Hx _. destruct (live_item s g x Hi Hx) as (y & Hin & Ey).
      exists y. split_and!; [done|done|]. by apply list_elem_of_fmap_2' with (y, x.2).
Qed.

Lemma step_shared s g l k' p : sys_inv s g -> layout_ok l -> alloc_shared (s_k s) l = Ok (k', p) ->
  let s' := mkSys k' (hand p l (s_lv s)) (s_pend s) in (exists g', sys_inv s' g') /\ kept s s'.
Proof.
  intros Hi Hl E s'. unfold alloc_shared in E.
  destruct (alloc_inner_inv _ _ g (si_heap s g Hi) l Hl) as [[E0 _]|(h1 & it & fl' & E1 & En & Hi' & Hst)].
  - rewrite E0 in E. injection E as <- <-. split; [|by intros x w _ _ _].
    exists g. apply (inv_steady s s' g g Hi); try done; apply Hi.
  - rewrite E1 in E. injection E as <- <-. split.
    + eexists. eapply (inv_steady s s' g _ Hi); try apply Hst; [done|done|exact Hi'|]. by apply hand_inv; [apply Hi|].
    + eapply (kept_steady s s' g _ Hi); [apply Hst|]. intros x Hx _. destruct (live_item s g x Hi Hx) as (y & Hin & Ey).
      exists y. split_and!; [done|done|]. by apply (in_items g y x.2).
Qed.

Lemma step_park s g cpu p l lv' k' (b : bool) : sys_inv s g -> 0 <= cpu < MAX_CPUS -> s_lv s ≡ₚ (p, l) :: lv' ->
  per_cpu_free_cached (s_k s) cpu p = Ok (k', b) ->
  let s' := mkSys k' (if b then lv' else s_lv s) (s_pend s) in (exists g', sys_inv s' g') /\ kept s s'.
Proof.
  intros Hi Hc Hlv E s'. rewrite <- (si_cpus s g Hi) in Hc. destruct (live_split s g p l lv' Hi Hlv) as (it & lg & Eg & <- & <-).
  destruct (free_cached_inv (s_k s) g (si_heap s g Hi) cpu it l lg Hc Eg) as [E0|(k1 & ps & E1 & Hi' & Hst & Ecs)].
  - rewrite E0 in E. injection E as <- <-. split; [|by intros x w _ _ _].
    exists g. apply (inv_steady s s' g g Hi); try done; apply Hi.
  - rewrite E1 in E. injection E as <- <-. split.
    + eexists. eapply (inv_steady s s' g _ Hi); try apply Hst; [done|done|exact Hi'|done].
    + eapply (kept_steady s s' g _ Hi); [apply Hst|]. intros x _ Hx. cbn [s_lv s'] in Hx.
      apply list_elem_of_fmap in Hx as ([y ly] & -> & Hin). exists y. cbn [fst snd]. split_and!; [rewrite Eg; by right|done|].
      apply elem_of_app. right. by apply list_elem_of_fmap_2' with (y, ly).
Qed.

Lemma step_free s g p l lv' k' : sys_inv s g -> s_lv s ≡ₚ (p, l) :: lv' -> free_shared (s_k s) p = Ok k' ->
  let s' := mkSys k' lv' (s_pend s) in (exists g', sys_inv s' g') /\ kept s s'.
Proof.
  intros Hi Hlv E s'. destruct (live_split s g p l lv' Hi Hlv) as (it & lg & Eg & <- & <-).
  unfold free_shared in E.
  destruct (free_shared_inv _ _ g (si_heap s g Hi) it l lg Eg) as [[E0 _]|(h1 & fl' & E1 & Hi' & Hst)].
  - exfalso. destruct (from_payload _ _) as [blk|e|]; cbn [res_bind] in *; [|done..].
    destruct (set_next_at _ _ _) as [h1|e|]; cbn [res_bind] in *; [|done..]. by rewrite E0 in E.
  - assert (k' = set_inner (s_k s) h1) as ->.
    { destruct (from_payload _ _) as [blk|e|]; cbn [res_bind] in *; [|done..].
      destruct (set_next_at _ _ _) as [h2|e|]; cbn [res_bind] in *; [|done..]. rewrite E1 in E. by injection E as <-. }
    split.
    + eexists. eapply (inv_steady s s' g _ Hi); try apply Hst; [done|done|exact Hi'|done].
    + eapply (kept_steady s s' g _ Hi); [apply Hst|]. intros x _ Hx. cbn [s_lv s'] in Hx.
      apply list_elem_of_fmap in Hx as ([y ly] & -> & Hin). exists y. cbn [fst snd]. split_and!; [rewrite Eg; by right|done|].
      apply elem_of_app. right. by apply list_elem_of_fmap_2' with (y, ly).
Qed.

(** A client's write stays inside its block. *)
Lemma step_write s g s' : sys_inv s g -> cwrite s s' -> exists g', sys_inv s' g'.
Proof.
  intros Hi [p l w v m' Hp Hw Hr E]. destruct (live_item s g _ Hi Hp) as (it & Hin & Ep). cbn [fst snd] in Hin, Ep.
  pose proof (in_items g it l Hin) as Hit. pose proof (si_heap s g Hi) as Hh.
  destruct (item_words _ _ g Hh it Hit) as (_ & _ & _ & _ & Kb & Hio).
  pose proof (proj1 (Forall_forall _ _) (hi_served _ _ _ Hh) _ Hin) as [Hs _]. cbn [fst snd] in Hs.
  destruct (proj1 (elem_of_Permutation _ _) Hit) as [rest Erest].
  assert (blocks g ≡ₚ it_blk it :: fl g ++ map it_blk rest) as Eb. { unfold blocks. rewrite Erest. cbn [map]. solve_Permutation. }
  apply store_ok in E as [Wok ->].
  assert (in_block w (it_blk it)) as Hwb. { destruct Hio. unfold in_block, it_blk. cbn [fst snd]. lia. }
  assert (forall z, disj (it_blk it) z -> agree (s_mem s) (put (s_mem s) w v) z) as A.
  { intros z. apply agree_put; [apply Hh|done]. }
  pose proof Hh as [HR Hm Hhd Hf Ho Hk Hd Ht Hi' Hc Hsv Hush]. rewrite Eb in Hd. apply fop_cons in Hd as [[Hbf Hbr]%Forall_app Hd].
  exists g. eapply (inv_steady s _ g g Hi); [done|done|done|done|done| |apply Hi].
  constructor; cbn [inner caches set_inner mem set_mem s_k free_list]; try done.
  - apply (fseg_agree (s_mem s)); [|eapply Forall_impl; [exact Hbf|exact A]|done].
    apply Forall_app in Hk as [Hk _]. eapply Forall_impl; [exact Hk|apply bo_min].
  - rewrite Eb. apply fop_cons. split; [by apply Forall_app|done].
  - rewrite Erest in Hi' |- *. apply Forall_cons in Hi' as [_ Hi']. constructor.
    + destruct Hio. constructor; rewrite ?val_put_ne by (exact Hush || lia); done.
    + apply (items_agree (s_mem s)); [eapply Forall_impl; [exact Hbr|exact A]|done].
  - assert (Forall (fun y => disj (it_blk it) (it_blk y)) (concat (parked g))) as Hdc.
    { pose proof (hi_disjoint _ _ _ Hh) as Hd0. apply fop_app in Hd0 as (_ & Hd0 & _). unfold items in Hd0. rewrite map_app in Hd0.
      apply fop_app in Hd0 as (_ & _ & Hd0). rewrite Forall_map, Forall_forall in Hd0. apply Forall_forall. intros y Hy.
      specialize (Hd0 y Hy). rewrite Forall_forall in Hd0. symmetry. apply Hd0.
      apply list_elem_of_fmap_2' with it; [|done]. by apply list_elem_of_fmap_2' with (it, l). }
    apply (caches_agree (s_mem s)); [| |done].
    + rewrite Forall_map. eapply Forall_impl; [exact Hdc|]. intros y. apply A.
    + by apply Forall_app in Hi' as [Hi' _].
Qed.

(** ** Growth *)

Lemma checked_sub_spec a b c : checked_sub_u64 a b = Some c -> c = a - b.
Proof. unfold checked_sub_u64. case_match; [|done]. by intros [= <-]. Qed.

Lemma next_low_spec h size v : next_low h size = Some v -> HEAP_FLOOR <= v
  /\ ((low_vaddr h = u64_max /\ v = HEAP_TOP - size) \/ (low_vaddr h <> u64_max /\ v = low_vaddr h - HEAP_GUARD_BYTES - size)).
Proof.
  unfold next_low. intros E. apply bind_Some in E as (w & E1 & E2). destruct (Z.leb_spec HEAP_FLOOR w); [|done].
  injection E2 as <-. split; [done|]. destruct (Z.eqb_spec (low_vaddr h) u64_max).
  - left. split; [done|]. by apply checked_sub_spec.
  - right. split; [done|]. apply bind_Some in E1 as (u & E1 & E2). apply checked_sub_spec in E1 as ->. by apply checked_sub_spec.
Qed.

Lemma next_low_ok h count v : low_ok (low_vaddr h) -> 1 <= count -> next_low h (count * 4096) = Some v ->
  region_ok (v, count * 4096) /\ low_ok v /\ v <= low_vaddr h
  /\ (low_vaddr h = u64_max \/ v + count * 4096 + HEAP_GUARD_BYTES = low_vaddr h).
Proof.
  intros Hl Hc E. apply next_low_spec in E as [Hf E]. unfold low_ok, region_ok in *. cbn [fst snd].
  heap_consts. destruct E as [[El ->]|[El ->]].
  - split_and!; first [lia|mlia|right; split; [lia|mlia]|by left].
  - destruct Hl as [?|[Hl Hm]]; [done|]. split_and!; first [lia|mlia|right; split; [lia|mlia]].
Qed.

Lemma grow_reserve_spec h count h' r : low_ok (low_vaddr h) -> 1 <= count -> grow_reserve h count = (h', r) ->
  (r = None /\ h' = h) \/ exists v, r = Some (v, count * 4096, low_vaddr h) /\ h' = set_low h v
    /\ next_low h (count * 4096) = Some v.
Proof.
  intros Hl Hc E. unfold grow_reserve, checked_mul_u64 in E.
  destruct (count * 4096 <=? u64_max); [|injection E as <- <-; by left].
  destruct (next_low h (count * 4096)) as [v|] eqn:Ev; injection E as <- <-; [right|by left]. by exists v.
Qed.

Lemma heap_inv_low h cs g x : heap_inv h cs g -> heap_inv (set_low h x) cs g.
Proof. intros [HR Hm Hh Hf Ho Hk Hd Ht Hi Hc Hs Hush]. by constructor. Qed.

#[local] Instance regions_perm : Proper ((≡ₚ) ==> iff) regions_ok.
Proof. intros A B E. unfold regions_ok. by rewrite E. Qed.

Lemma step_reserve s g count h' r : sys_inv s g -> 1 <= count -> grow_reserve (inner (s_k s)) count = (h', r) ->
  let s' := mkSys (set_inner (s_k s) h') (s_lv s)
        (match r with Some (low, size, old) => mkGrowth low size old count None :: s_pend s | None => s_pend s end) in
  (exists g', sys_inv s' g') /\ kept s s'.
Proof.
  intros Hi Hc E s'. pose proof Hi as [Hh Hl Hcs Hlow Hr Ha Hp].
  destruct (grow_reserve_spec _ _ _ _ Hlow Hc E) as [[-> ->]|(v & -> & -> & Ev)].
  { split; [|by intros x w _ _ _]. exists g. apply (inv_steady s s' g g Hi); try done. }
  split; [|by intros x w _ _ _]. destruct (next_low_ok _ _ _ Hlow Hc Ev) as (Hro & Hlv & Hle & Hgap). exists g.
  set (p := mkGrowth v (count * 4096) (low_vaddr (inner (s_k s))) count None).
  set (A := all_regions (inner (s_k s)) (s_pend s)) in *.
  assert (all_regions (set_low (inner (s_k s)) v) (p :: s_pend s) ≡ₚ g_reg p :: A) as EA.
  { unfold A, all_regions. cbn [map]. change (regions (set_low (inner (s_k s)) v)) with (regions (inner (s_k s))). solve_Permutation. }
  pose proof Hr as [Hr1 Hr2]. assert (forall q, q ∈ A -> v + count * 4096 + HEAP_GUARD_BYTES <= q.1) as Hab.
  { intros q Hq. rewrite Forall_forall in Ha, Hr1. specialize (Ha q Hq). destruct (Hr1 q Hq) as (_ & B & _ & _ & B').
    destruct Hgap as [Eg|Eg]; [|lia]. rewrite Eg in Ha. heap_consts. lia. }
  constructor; cbn [s_k s_lv s_pend inner caches set_inner s']; fold p; try done.
  - by apply heap_inv_low.
  - rewrite EA. split; [by constructor|]. apply fop_cons. split; [|done].
    apply Forall_forall. intros q Hq. left. cbn [g_reg g_low g_size fst snd]. by apply Hab.
  - rewrite EA. cbn [low_vaddr set_low]. constructor; [cbn; lia|]. eapply Forall_impl; [exact Ha|]. intros q Hq. cbn beta in *. lia.
  - constructor.
    + constructor; cbn [g_size g_count g_old g_low g_back p]; try done. intros q Hq. rewrite EA in Hq.
      apply elem_of_cons in Hq as [->|Hq]; [by left|right; right]. rewrite Forall_forall in Ha. by apply Ha.
    + apply Forall_forall. intros q Hq. rewrite Forall_forall in Hp. pose proof (Hp q Hq) as [G1 G2 G3 G4 G5]. constructor; try done.
      intros z Hz. rewrite EA in Hz. apply elem_of_cons in Hz as [->|Hz]; [|by apply G4]. right. left.
      cbn [g_reg g_low g_size fst snd p]. apply (Hab (g_reg q)). unfold A, all_regions. apply elem_of_app. right. by apply list_elem_of_fmap_2' with q.
Qed.

Lemma growth_weaken m A A' q : A' ⊆ A -> growth_ok m A q -> growth_ok m A' q.
Proof. intros Hs [G1 G2 G3 G4 G5]. constructor; try done. intros r Hr. by apply G4, Hs. Qed.

(** The growth taken from the list, and what is apart from it. *)
Lemma pend_split s g p pend' : sys_inv s g -> s_pend s ≡ₚ p :: pend' ->
  growth_ok (s_mem s) (all_regions (inner (s_k s)) (s_pend s)) p
  /\ Forall (growth_ok (s_mem s) (all_regions (inner (s_k s)) (s_pend s))) pend'
  /\ all_regions (inner (s_k s)) (s_pend s) ≡ₚ g_reg p :: all_regions (inner (s_k s)) pend'
  /\ region_ok (g_reg p) /\ Forall (apart (g_reg p)) (all_regions (inner (s_k s)) pend')
  /\ regions_ok (all_regions (inner (s_k s)) pend').
Proof.
  intros Hi Ep. pose proof (si_pend s g Hi) as Hp. rewrite Ep in Hp at 2. apply Forall_cons in Hp as [Hp Hp'].
  assert (all_regions (inner (s_k s)) (s_pend s) ≡ₚ g_reg p :: all_regions (inner (s_k s)) pend') as EA.
  { unfold all_regions. rewrite Ep. cbn [map]. solve_Permutation. }
  pose proof (si_regions s g Hi) as Hr. rewrite EA in Hr. destruct Hr as [[Hr1 Hr1']%Forall_cons [Hr2 Hr2']%fop_cons].
  by split_and!.
Qed.

Lemma step_back s g p pend' k' r : sys_inv s g -> s_pend s ≡ₚ p :: pend' -> g_back p = None ->
  back_pages (s_k s) (g_low p) (g_size p) (g_count p) = Ok (k', r) ->
  let s' := mkSys k' (s_lv s) (mkGrowth (g_low p) (g_size p) (g_old p) (g_count p) (Some r) :: pend') in
  (unshared (s_mem s') -> exists g', sys_inv s' g') /\ kept s s'.
Proof.
  intros Hi Ep Eb E s'. destruct (pend_split s g p pend' Hi Ep) as (Gp & Gp' & EA & Rp & Ap & _).
  pose proof Gp as [G1 G2 G3 G4 G5]. destruct Rp as (R1 & R2 & R3 & R4 & R5).
  destruct (back_pages_ok (s_k s) (g_low p) (g_size p) (g_count p) k' r ltac:(lia) R3 G1 E) as (m' & Sb & Hrm & Hres & _).
  assert (s_mem s' = m') as Em. { unfold s_mem. cbn [s_k s']. by rewrite (sb_inner _ _ _ Sb). }
  assert (all_regions (inner (s_k s')) (s_pend s') ≡ₚ all_regions (inner (s_k s)) (s_pend s)) as EA'.
  { rewrite EA. unfold all_regions. cbn [s_k s_pend s' map]. rewrite (sb_inner _ _ _ Sb).
    change (regions (set_mem (inner (s_k s)) m')) with (regions (inner (s_k s))). unfold g_reg at 1. cbn [g_low g_size]. solve_Permutation. }
  pose proof Ap as [Ar Aq]%Forall_app. pose proof Hi as [Hh Hl Hcs Hlow Hr Ha Hp]. split.
  2: { intros x w Hx _ Hw. rewrite Em. destruct (live_item s g x Hi Hx) as (it & Hin & Ex). pose proof (in_items g it x.2 Hin) as Hit.
       destruct (item_words _ _ g Hh it Hit) as (_ & _ & _ & _ & Kb & Hio). destruct (bo_in _ _ Kb) as (q & Hq & [I1 I2]).
       pose proof (proj1 (Forall_forall _ _) (hi_served _ _ _ Hh) _ Hin) as [Hsv _]. cbn [fst snd] in Hsv. destruct Hio.
       rewrite Forall_forall in Ar. apply (remap_val _ _ (g_low p, g_size p)); [done|]. apply (apart_out _ q w (Ar q Hq)).
       unfold it_blk in *. cbn [fst snd] in *. lia. }
  intros Hu. rewrite Em in Hu.
  assert (Forall (growth_ok m' (all_regions (inner (s_k s)) (s_pend s))) (s_pend s')) as Gs.
  { constructor.
    - constructor; cbn [g_size g_count g_old g_low g_back]; try done. intros x [= ->]. by eapply Hres.
    - rewrite Forall_forall in Gp' |- *. rewrite Forall_forall in Aq. intros q Hq. destruct (Gp' q Hq) as [Q1 Q2 Q3 Q4 Q5]. constructor; try done.
      intros x Hx. apply (remap_mem_ok _ _ _ _ Hrm); [|by eapply Q5]. apply (Aq (g_reg q)). by apply list_elem_of_fmap_2' with q. }
  exists g. constructor; rewrite ?EA'.
  6: { cbn [s_k s']. by rewrite (sb_inner _ _ _ Sb). }
  6: { rewrite Em. eapply Forall_impl; [exact Gs|]. intros q. apply growth_weaken. intros z. by rewrite EA'. }
  all: cbn [s_k s_lv s']; rewrite ?(sb_inner _ _ _ Sb), ?(sb_caches _ _ _ Sb); try done.
  by apply (remap_inv _ _ _ _ (g_low p, g_size p)).
Qed.

Lemma commit_joins s g p pend' h' r (b : bool) : sys_inv s g -> s_pend s ≡ₚ p :: pend' -> g_back p = Some (Some r) ->
  grow_commit (inner (s_k s)) (g_low p) (g_size p) (g_old p) (Some r) = Ok (h', b) ->
  let s' := mkSys (set_inner (s_k s) h') (s_lv s) pend' in
  (exists g', sys_inv s' g' /\ exists y, y ∈ fl g' /\ inside (g_reg p) y) /\ kept s s'.
Proof.
  intros Hi Ep Eb E s'. destruct (pend_split s g p pend' Hi Ep) as (Gp & Gp' & EA & Rp & Ap & HR').
  pose proof Gp as [G1 G2 G3 G4 G5]. pose proof Ap as [Ar Aq]%Forall_app. pose proof Hi as [Hh Hl Hcs Hlow Hr Ha Hp].
  destruct r as [pa sc]. cbn [grow_commit] in E.
  destruct (add_region_inv _ _ g Hh (g_reg p) Rp Ar (G5 _ Eb)) as [[E0 _]|(h1 & fl' & E0 & Hst & Hy & Hi')].
  { cbn [g_reg fst snd] in E0. by rewrite E0 in E. }
  cbn [g_reg fst snd] in E0. rewrite E0 in E. cbn [res_bind] in E. unfold register_chunk in E.
  destruct (assert_ _) as [[]|e|]; cbn [res_bind] in E; [|done..]. injection E as <- <-. specialize (Hi' pa sc). cbn [g_reg fst snd] in Hi'.
  set (h2 := set_chunks h1 (chunks h1 ++ [mkChunk (g_low p) pa (g_size p) 0 sc])) in *.
  assert (all_regions (inner (s_k s')) (s_pend s') ≡ₚ all_regions (inner (s_k s)) (s_pend s)) as EA'.
  { rewrite EA. unfold all_regions, regions. cbn [s_k s_pend s' inner set_inner chunks set_chunks h2].
    rewrite (st_chunks _ _ _ Hst), map_app. cbn [map c_vaddr c_size]. unfold g_reg at 2. solve_Permutation. }
  split.
  - exists (mkBlocks fl' (parked g) (lv g)). split; [|done]. constructor; rewrite ?EA'; try done.
    + cbn [s_k s' inner set_inner low_vaddr h2 set_chunks]. by rewrite (st_low _ _ _ Hst).
    + cbn [s_k s' inner set_inner low_vaddr h2 set_chunks]. by rewrite (st_low _ _ _ Hst).
    + rewrite Forall_forall in Gp' |- *. intros q Hq. destruct (Gp' q Hq) as [Q1 Q2 Q3 Q4 Q5]. constructor; try done.
      * intros z Hz. rewrite EA' in Hz. by apply Q4.
      * intros x Hx. eapply shape_mem_ok; [apply Hst|]. by eapply Q5.
  - eapply (kept_steady s s' g _ Hi); [apply Hst|]. intros x Hx _. destruct (live_item s g x Hi Hx) as (y & Hin & Ey).
    exists y. split_and!; [done|done|]. by apply (in_items g y x.2).
Qed.

(** A growth that failed gives its addresses back when no other growth went below it. *)
Lemma commit_rolls_back s g p pend' h' (b : bool) : sys_inv s g -> s_pend s ≡ₚ p :: pend' ->
  grow_commit (inner (s_k s)) (g_low p) (g_size p) (g_old p) None = Ok (h', b) ->
  let s' := mkSys (set_inner (s_k s) h') (s_lv s) pend' in (exists g', sys_inv s' g') /\ kept s s'.
Proof.
  intros Hi Ep E s'. destruct (pend_split s g p pend' Hi Ep) as ([_ _ G3 G4 _] & Gp' & EA & _ & Ap & HR').
  pose proof Hi as [Hh Hl Hcs Hlow Hr Ha Hp]. rewrite EA in Ha. apply Forall_cons in Ha as [_ Ha]. rewrite Forall_forall in Ha, Ap.
  assert (exists x, h' = set_low (inner (s_k s)) x /\ low_ok x /\ forall q, q ∈ all_regions (inner (s_k s)) pend' -> x <= q.1)
    as (x & Eh & Hx & Hxq).
  { cbn [grow_commit] in E. injection E as <- <-. destruct (Z.eqb_spec (low_vaddr (inner (s_k s))) (g_low p)) as [El|El].
    - exists (g_old p). split_and!; [done|done|]. intros q Hq. destruct HR' as [HR' _]. rewrite Forall_forall in HR'.
      destruct (HR' q Hq) as (_ & _ & _ & _ & Q). specialize (Ha q Hq). specialize (Ap q Hq).
      destruct (G4 q) as [->|[B|B]]; [rewrite EA; by right| | |done]; unfold apart, g_reg, HEAP_GUARD_BYTES in *; cbn [fst snd] in *; lia.
    - exists (low_vaddr (inner (s_k s))). split_and!; [by destruct (inner (s_k s))|done|done]. }
  subst h'. split; [|by intros y w _ _ _].
  exists g. constructor; try done; [by apply heap_inv_low|by apply Forall_forall|].
  eapply Forall_impl; [exact Gp'|]. intros q. apply growth_weaken. intros z Hz. rewrite EA. by right.
Qed.

Lemma hstep_inv s g s' : sys_inv s g -> hstep s s' -> (unshared (s_mem s') -> exists g', sys_inv s' g') /\ kept s s'.
Proof.
  assert (forall s', (exists g', sys_inv s' g') /\ kept s s' -> (unshared (s_mem s') -> exists g', sys_inv s' g') /\ kept s s') as Hw by tauto.
  intros Hi [| | | | |p pend' k' r Ep Eb E|p pend' h' [r|] b Ep Eb E]; [apply Hw..| |apply Hw|apply Hw];
    [by eapply step_cached|by eapply step_shared|by eapply step_park|by eapply step_free|by eapply step_reserve|by eapply step_back
    | |by eapply commit_rolls_back].
  destruct (commit_joins s g p pend' h' r b Hi Ep Eb E) as [(g' & Hi' & _) Hk]. split; [by exists g'|done].
Qed.

(** A step after which no frame backs two pages of the heap. *)
Definition gstep (s s' : Sys V) : Prop := step s s' /\ unshared (s_mem s').

Lemma steps_inv s g s' : sys_inv s g -> rtc gstep s s' -> exists g', sys_inv s' g'.
Proof.
  intros Hi Hs. revert g Hi. induction Hs as [s|s s1 s' [[Hs|Hs] Hu] _ IH]; intros g Hi; [by exists g|..].
  - destruct (hstep_inv s g s1 Hi Hs) as [Hs1 _]. destruct (Hs1 Hu) as [g' Hi']. by eapply IH.
  - destruct (step_write s g s1 Hi Hs) as [g' Hi']. by eapply IH.
Qed.
End Steps.
