(* ===== verification/HeapSafe.v ===== *)
(** * The kernel heap: what the allocator promises

    From the first chunk on, in every interleaving of the CPUs: the allocations
    are disjoint, aligned and mapped; every byte of the arena is accounted for;
    no operation faults or loops; an allocation fails only when growth fails.
    This is so while the frame allocator backs the heap with frames that back no other
    page of it; its search for contiguous frames does not always ([growth_shares_frames]). *)

From Stdlib Require Import Sorting.Sorted.
From S2P Require Import Prelude Bits PhysAlloc Heap HeapFacts HeapInv HeapGrow HeapSpec.
Local Open Scope Z_scope.

(** The statics of the heap before [init]. *)
Definition new_heap (m : Mem) : HeapInner := mkHeap m 0 u64_max 0 [].

Definition new_caches : list PerCpuCache := replicate (Z.to_nat MAX_CPUS) (mkCache 0 0).

(** The bytes of an allocation. *)
Definition extent (x : Z * Layout) : Z * Z := (x.1, Z.max (l_size x.2) MIN_ALLOC).

Section Safe.
Context `{Profile} {V : Type} `{VmmOps V}.
Implicit Types s : Sys V.

Definition boot (m : Mem) (f : BitmapAllocator) (v : V) : KHeap V := mkK (new_heap m) new_caches f v false.

(** Reachable after [init]: the CPUs allocate, free, grow and write, and the frames
    that the frame allocator gives to the heap do not back other pages of it. *)
Definition reachable (s : Sys V) : Prop :=
  exists m f v r k, init (boot m f v) r = Ok k /\ unshared (mem (inner k)) /\ rtc gstep (mkSys k [] []) s.

(** ** The first chunk *)

Lemma new_heap_inv m r : unshared m -> heap_inv (mkHeap m 0 u64_max r []) new_caches (mkBlocks [] (replicate (Z.to_nat MAX_CPUS) []) []).
Proof.
  intros Hu. assert (items (mkBlocks [] (replicate (Z.to_nat MAX_CPUS) []) []) = []) as Ei by done.
  constructor; try done; unfold blocks; rewrite ?Ei; try by constructor.
  - split; constructor.
  - intros q a Hq. by apply not_elem_of_nil in Hq.
  - apply Forall2_replicate. constructor; try done.
Qed.

Lemma allocate_pages_inv m f v r k : allocate_pages (set_inner (boot m f v) (mkHeap m 0 u64_max r [])) HEAP_INIT_PAGES = Ok (k, true) ->
  unshared (mem (inner k)) -> exists g, sys_inv (mkSys k [] []) g.
Proof.
  set (h0 := mkHeap m 0 u64_max r []). set (k0 := set_inner (boot m f v) h0). intros E Hu. unfold allocate_pages in E.
  change (checked_mul_u64 HEAP_INIT_PAGES 4096) with (Some (HEAP_INIT_PAGES * 4096)) in E. cbv beta iota in E.
  destruct (next_low (inner k0) (HEAP_INIT_PAGES * 4096)) as [low|] eqn:El; [|done].
  destruct (next_low_ok h0 HEAP_INIT_PAGES low) as (Hr & Hlow & _ & _); [by left|done|done|].
  destruct (back_pages k0 low (HEAP_INIT_PAGES * 4096) HEAP_INIT_PAGES) as [[k1 [[pa sc]|]]|e|] eqn:Eb; cbn [res_bind] in E; [|done..].
  destruct (back_pages_ok k0 low (HEAP_INIT_PAGES * 4096) HEAP_INIT_PAGES k1 (Some (pa, sc))) as (m1 & Sb & Hrm & Hm & _); [done|apply Hr|done|done|].
  rewrite (sb_inner _ _ _ Sb) in E. change (inner k0) with h0 in E.
  assert (unshared m1) as Hu1.
  { destruct (add_region _ _ _) as [h1|e|] eqn:E0; cbn [res_bind] in E; [|done..]. apply add_region_map in E0. cbn [mem set_mem] in E0.
    destruct (register_chunk _ _ _ _ _) as [h3|e|] eqn:E1; cbn [res_bind] in E; [|done..]. injection E as <-.
    unfold register_chunk in E1. destruct (assert_ _) as [[]|e|]; cbn [res_bind] in E1; [|done..]. injection E1 as <-.
    unfold unshared in *. rewrite <- E0. exact Hu. }
  pose proof (new_heap_inv m1 r Hu1) as Hi. change (mkHeap m1 0 u64_max r []) with (set_mem h0 m1) in Hi.
  destruct (add_region_inv _ _ _ Hi (low, HEAP_INIT_PAGES * 4096) Hr ltac:(constructor) (Hm _ eq_refl))
    as [[E0 _]|(h2 & fl' & E0 & Hst & _ & Hi')]; cbn [fst snd] in E0; rewrite E0 in E; cbn [res_bind] in E; [done|].
  unfold register_chunk in E. cbn [chunks set_low] in E. rewrite (st_chunks _ _ _ Hst) in E. cbn [res_bind assert_] in E.
  injection E as <-. specialize (Hi' pa sc). rewrite (st_chunks _ _ _ Hst) in Hi'.
  eexists. constructor; cbn [s_k s_lv s_pend inner caches set_inner low_vaddr set_chunks set_low].
  - rewrite (sb_caches _ _ _ Sb). change (set_chunks (set_low h2 low) ?c) with (set_low (set_chunks h2 c) low). apply heap_inv_low, Hi'.
  - done.
  - by rewrite (sb_caches _ _ _ Sb).
  - done.
  - change (regions_ok [(low, HEAP_INIT_PAGES * 4096)]). split; [by constructor|]. constructor; constructor.
  - constructor; [cbn; lia|constructor].
  - constructor.
Qed.

Lemma reachable_inv s : reachable s -> exists g, sys_inv s g.
Proof.
  intros (m & f & v & r & k & Ei & Hu & Hs). unfold init in Ei. cbn [inner boot new_heap mem free_list low_vaddr chunks] in Ei.
  destruct (allocate_pages _ _) as [[k1 []]|e|] eqn:Ea; cbn [res_bind assert_] in Ei; [|done..]. injection Ei as <-.
  apply allocate_pages_inv in Ea as [g Hi]; [|exact Hu]. eapply steps_inv; [|exact Hs]. destruct Hi. by constructor.
Qed.

Lemma step_initialized s s' : step s s' -> initialized (s_k s') = initialized (s_k s).
Proof.
  intros [[cpu l k' p _ _ E|l k' p _ E|cpu p l lv' k' b _ _ E|p l lv' k' _ E|count h' r _ E|p pend' k' r _ _ E|p pend' h' r b _ _ E]|[]]; cbn [s_k]; try done.
  - unfold per_cpu_alloc_cached, cache_index in E. destruct (index _ _); cbn [res_bind] in E; [|done..].
    destruct (c_head _ =? 0); [by injection E as <- _|]. destruct (iter_pos _ _ _) as [|r]; [done|].
    destruct r as [[[[? ?] ?]|]| |]; cbn [res_bind] in E; [|by injection E as <- _|done..].
    destruct (if _ =? 0 then _ else _); cbn [res_bind] in E; [|done..]. destruct (u64_sub _ _); cbn [res_bind] in E; [|done..]. by injection E as <- _.
  - unfold alloc_shared in E. destruct (alloc_inner _ _) as [[]| |]; cbn [res_bind] in E; [|done..]. by injection E as <- _.
  - unfold per_cpu_free_cached, cache_index in E. destruct (index _ _); cbn [res_bind] in E; [|done..].
    destruct (_ <=? _); [by injection E as <- _|]. destruct (hstore _ _ _); cbn [res_bind] in E; [|done..]. by injection E as <- _.
  - unfold free_shared in E. destruct (from_payload _ _); cbn [res_bind] in E; [|done..].
    destruct (set_next_at _ _ _); cbn [res_bind] in E; [|done..]. destruct (push_free _ _); cbn [res_bind] in E; [|done..]. by injection E as <-.
  - unfold back_pages in E. destruct (contiguous _ _) as [[f pa]| |]; [| |done].
    + destruct (with_map _ _ _ _ _) as [k1| |] eqn:Em; cbn [res_bind] in E; [|done..]. injection E as <- _. by apply with_map_ok in Em as [].
    + destruct (map_scattered _ _ _ _) as [[k1 got]| |] eqn:Em; cbn [res_bind] in E; [|done..].
      apply map_scattered_ok in Em as (m1 & new & [_ _ I1 _ _] & _). destruct (got =? _); [by injection E as <- _|].
      destruct (unmap_scattered _ _ _) as [k2| |] eqn:Eu; cbn [res_bind] in E; [|done..]. injection E as <- _.
      apply unmap_scattered_ok in Eu as (m2 & [_ _ I2 _ _] & _). congruence.
Qed.

Lemma reachable_initialized s : reachable s -> initialized (s_k s) = true.
Proof.
  intros (m & f & v & r & k & Ei & _ & Hs). assert (initialized k = true) as Hk.
  { unfold init in Ei. destruct (allocate_pages _ _) as [[k1 []]| |]; cbn [res_bind assert_] in Ei; [|done..]. by injection Ei as <-. }
  change (initialized (s_k (mkSys k [] [])) = true) in Hk. revert Hk.
  induction Hs as [|s1 s2 s3 [Hst _] _ IH]; [done|]. intros H1. apply IH. by rewrite (step_initialized s1 s2 Hst).
Qed.

(** ** Safety *)

Definition no_overlap (x y : Z * Layout) : Prop := disj (extent x) (extent y).

#[local] Instance no_overlap_sym : Symmetric no_overlap.
Proof. intros x y. apply disj_sym. Qed.

(** Where an allocation lies. *)
Lemma live_extent s g it l : sys_inv s g -> (it, l) ∈ lv g ->
  inside (extent (it_p it, l)) (it_blk it) /\ blk_ok (regions (inner (s_k s))) (it_blk it)
  /\ it_p it mod l_align l = 0 /\ it_p it mod 8 = 0.
Proof.
  intros Hi Hin. pose proof (si_heap s g Hi) as Hh. pose proof (in_items g it l Hin) as Hit.
  destruct (proj1 (Forall_forall _ _) (hi_served _ _ _ Hh) _ Hin) as [H1 H2]. cbn [fst snd] in H1, H2.
  destruct (proj1 (Forall_forall _ _) (hi_items _ _ _ Hh) _ Hit) as [_ _ L M U].
  pose proof (proj1 (Forall_app _ _ _) (hi_blocks _ _ _ Hh)) as [_ Hk]. rewrite Forall_map, Forall_forall in Hk.
  split_and!; [|by apply Hk|done|done]. unfold inside, extent, it_blk. cbn [fst snd]. heap_consts. lia.
Qed.

Lemma live_clear s g : sys_inv s g -> ForallOrdPairs no_overlap (s_lv s).
Proof.
  intros Hi. rewrite <- (si_live s g Hi). pose proof (hi_disjoint _ _ _ (si_heap s g Hi)) as Hd.
  apply fop_app in Hd as (_ & Hd & _). unfold items in Hd. rewrite map_app in Hd. apply fop_app in Hd as (_ & Hd & _).
  assert (forall x, x ∈ lv g -> inside (extent (it_p x.1, x.2)) (it_blk x.1)) as He.
  { intros [it l] Hin. by destruct (live_extent s g it l Hi Hin). }
  clear Hi. induction (lv g) as [|x l IH]; [constructor|]. cbn [map] in Hd |- *. apply fop_cons in Hd as [Hx Hd].
  apply fop_cons. split; [|apply IH; [done|]; intros y Hy; apply He; by right].
  rewrite !Forall_map, Forall_forall in Hx. rewrite Forall_map. apply Forall_forall. intros y Hy. cbn [fst snd].
  apply (disj_shrink (it_blk x.1)); [apply He; by left|]. symmetry. apply (disj_shrink (it_blk y.1)); [apply He; by right|].
  symmetry. by apply Hx.
Qed.

(** C5: In every state the CPUs can reach, under any interleaving of their
    critical sections and of the clients' writes: the allocations do not overlap;
    each has the alignment asked for, lies in the heap arena and is mapped, no two
    words of them to one physical word; and no operation of the allocator, growth
    included, changes a word of an allocation it leaves.  The states are those reached
    while the frames given to the heap back no other page of it, which is the frame
    allocator's part: single frames are fresh, but a contiguous run can include frames in
    use ([growth_shares_frames]). *)
Theorem heap_safe s : reachable s ->
  ForallOrdPairs no_overlap (s_lv s)
  /\ Forall (fun x => x.1 mod l_align x.2 = 0 /\ HEAP_FLOOR <= x.1 /\ x.1 + l_size x.2 <= HEAP_TOP
       /\ forall w, w mod 8 = 0 -> x.1 <= w < x.1 + l_size x.2 -> word_ok (s_mem s) w = true) (s_lv s)
  /\ (forall w w' p, phys_of (s_mem s) w = Some p -> phys_of (s_mem s) w' = Some p -> w = w')
  /\ forall s', hstep s s' -> kept s s'.
Proof.
  intros [g Hi]%reachable_inv. split_and!; [by eapply live_clear| | |intros s' Hs; by eapply hstep_inv].
  2: { intros w w' p. apply (phys_of_inj _ _ _ _ (Hu := hi_unshared _ _ _ (si_heap s g Hi))). }
  apply Forall_forall. intros x Hx. destruct (live_item s g x Hi Hx) as (it & Hin & Ep). destruct x as [p l]. cbn [fst snd] in *. subst p.
  destruct (live_extent s g it l Hi Hin) as ([I1 I2] & Hk & Ha & _). pose proof (hi_regions _ _ _ (si_heap s g Hi)) as HR.
  unfold extent in I1, I2. cbn [fst snd] in I1, I2. destruct (blk_bounds _ _ HR Hk) as (B1 & B2 & _).
  split_and!; [done|lia|heap_consts; lia|]. intros w Hw Hr.
  apply (blk_word _ _ _ w (hi_mem _ _ _ (si_heap s g Hi)) Hk Hw). unfold in_block. lia.
Qed.

(** ** Every operation returns *)

Lemma cached_ok s g cpu l : sys_inv s g -> 0 <= cpu < MAX_CPUS -> layout_ok l ->
  exists k' p, per_cpu_alloc_cached (s_k s) cpu l = Ok (k', p) /\ (p = 0 -> k' = s_k s).
Proof.
  intros Hi Hc Hl. rewrite <- (si_cpus s g Hi) in Hc.
  destruct (alloc_cached_inv (s_k s) g (si_heap s g Hi) cpu l Hc Hl) as [E|(k1 & it & ps & E & En & _)].
  - by exists (s_k s), 0.
  - exists k1, (it_p it). split; [done|]. intros Ez. by rewrite Ez in En.
Qed.

Lemma shared_ok s g l : sys_inv s g -> layout_ok l ->
  exists k' p, alloc_shared (s_k s) l = Ok (k', p)
    /\ (p = 0 -> k' = s_k s /\ Forall (fun x => fits l x = false) (fl g)).
Proof.
  intros Hi Hl. unfold alloc_shared.
  destruct (alloc_inner_inv _ _ g (si_heap s g Hi) l Hl) as [[E Hn]|(h1 & it & fl' & E & En & _)]; rewrite E; cbn [res_bind fst snd].
  - exists (s_k s), 0. split; [by destruct (s_k s)|done].
  - exists (set_inner (s_k s) h1), (it_p it). split; [done|]. intros Ez. by rewrite Ez in En.
Qed.

Lemma park_ok s g cpu p l : sys_inv s g -> 0 <= cpu < MAX_CPUS -> (p, l) ∈ s_lv s ->
  exists k' b, per_cpu_free_cached (s_k s) cpu p = Ok (k', b) /\ (b = false -> k' = s_k s).
Proof.
  intros Hi Hc [lv' Hlv]%elem_of_Permutation. rewrite <- (si_cpus s g Hi) in Hc.
  destruct (live_split s g p l lv' Hi Hlv) as (it & lg & Eg & <- & _).
  destruct (free_cached_inv (s_k s) g (si_heap s g Hi) cpu it l lg Hc Eg) as [E|(k1 & ps & E & _)]; eauto.
  exists k1, true. by split.
Qed.

(** The list of free blocks in memory. *)
Definition free_blocks (h : HeapInner) (l : list (Z * Z)) : Prop := free_list h = haddr l 0 /\ fseg (mem h) l 0.

Lemma dealloc_ok s g p l : sys_inv s g -> (p, l) ∈ s_lv s ->
  (exists k', free_shared (s_k s) p = Ok k') \/ FREE_LIST_WALK_BOUND < Z.of_nat (length (fl g)).
Proof.
  intros Hi [lv' Hlv]%elem_of_Permutation. destruct (live_split s g p l lv' Hi Hlv) as (it & lg & Eg & <- & _).
  pose proof (free_shared_inv _ _ g (si_heap s g Hi) it l lg Eg) as Hr. cbv zeta in Hr. unfold free_shared.
  destruct Hr as [[_ Hr]|(h2 & fl' & Er & _)]; [by right|left].
  destruct (from_payload _ _) as [blk|e|]; cbn [res_bind] in *; [|done..].
  destruct (set_next_at _ _ _) as [h1|e|]; cbn [res_bind] in *; [|done..]. rewrite Er. by eexists.
Qed.

(** C38: In every reachable state, the heap's frames backing one page each, the allocator's critical sections return, with
    no fault, no failed assertion and no overflow, in a debug build too: both
    searches for a block, for every layout whose size and alignment add up to at most
    1 GiB, and freeing any allocation, unless the free list has more blocks than its walk
    bound.  Requests of 2 GiB and more do not return ([heap_alloc_hangs]). *)
Theorem heap_returns s cpu : reachable s -> 0 <= cpu < MAX_CPUS ->
  (forall l, layout_ok l -> (exists r, per_cpu_alloc_cached (s_k s) cpu l = Ok r) /\ exists r, alloc_shared (s_k s) l = Ok r)
  /\ forall p l, (p, l) ∈ s_lv s -> (exists k', heap_dealloc (s_k s) cpu p = Ok k')
       \/ exists bs, free_blocks (inner (s_k s)) bs /\ FREE_LIST_WALK_BOUND < Z.of_nat (length bs).
Proof.
  intros [g Hi]%reachable_inv Hc. split.
  - intros l Hl. destruct (cached_ok s g cpu l Hi Hc Hl) as (k1 & p1 & E1 & _), (shared_ok s g l Hi Hl) as (k2 & p2 & E2 & _). eauto.
  - intros p l Hp. destruct (park_ok s g cpu p l Hi Hc Hp) as (k1 & b & E1 & Hk). unfold heap_dealloc.
    destruct (p =? 0); [left; by eexists|]. rewrite E1. cbn [res_bind]. destruct b; [left; by eexists|]. rewrite Hk by done.
    destruct (dealloc_ok s g p l Hi Hp) as [?|Hn]; [by left|]. right. exists (fl g). split; [|done].
    split; [apply (hi_head _ _ _ (si_heap s g Hi))|apply (hi_list _ _ _ (si_heap s g Hi))].
Qed.

(** C17: In every reachable state, the heap's frames backing one page each, the arena is accounted for byte by byte: the
    free list is sorted by address and no two free blocks touch, and the free
    blocks with those of caches and clients are disjoint, lie in the chunks and
    add up to their size; each allocation lies in a block of its own. *)
Theorem heap_accounts s : reachable s -> exists free cached live,
  free_blocks (inner (s_k s)) free /\ StronglySorted before free
  /\ ForallOrdPairs disj (free ++ cached ++ live)
  /\ Forall (blk_ok (regions (inner (s_k s)))) (free ++ cached ++ live)
  /\ total (free ++ cached ++ live) = total (regions (inner (s_k s)))
  /\ Z.of_nat (length cached) <= MAX_CPUS * CPU_CACHE_CAP
  /\ exists lv, lv ≡ₚ s_lv s /\ Forall2 (fun x b => inside (extent x) b) lv live.
Proof.
  intros [g Hi]%reachable_inv. pose proof (si_heap s g Hi) as Hh.
  assert (blocks g = fl g ++ map it_blk (concat (parked g)) ++ map it_blk (map fst (lv g))) as Eb.
  { unfold blocks, items. by rewrite map_app. }
  exists (fl g), (map it_blk (concat (parked g))), (map it_blk (map fst (lv g))). rewrite <- Eb.
  split_and!; [|apply Hh..| |].
  - split; [apply Hh|apply Hh].
  - rewrite length_map, <- (si_cpus s g Hi). pose proof (hi_caches _ _ _ Hh) as Hc. clear - Hc.
    induction Hc as [|c p cs ps Hcp _ IH]; cbn [concat length]; [done|]. rewrite length_app. destruct Hcp. lia.
  - exists (map (fun x => (it_p x.1, x.2)) (lv g)). split; [apply Hi|]. rewrite map_map.
    assert (forall x, x ∈ lv g -> inside (extent (it_p x.1, x.2)) (it_blk x.1)) as He.
    { intros [it l] Hin. by destruct (live_extent s g it l Hi Hin). }
    clear - He. induction (lv g) as [|x l IH]; cbn [map]; constructor; [apply He; by left|]. apply IH. intros y Hy. apply He. by right.
Qed.

(** ** Allocation as a whole *)

Lemma grow_pages_pos l n : layout_ok l -> grow_pages l = Some n -> 1 <= n /\ l_size l + 4096 <= n * 4096.
Proof.
  intros [Hs _ _] E. unfold grow_pages in E. apply bind_Some in E as (a & E1 & E). apply bind_Some in E as (c & E2 & E).
  injection E as <-. unfold checked_add_u64 in E1, E2. repeat case_match; try done. injection E1 as <-. injection E2 as <-.
  unfold HEAP_GROW_PAGES. mlia.
Qed.

Lemma grow_pages_some l : layout_ok l -> exists n, grow_pages l = Some n.
Proof.
  intros [H1 (k & Hk & Ek) H2]. pose proof (Z.pow_pos_nonneg 2 k ltac:(lia) Hk). change (2 ^ 30) with 1073741824 in H2.
  unfold grow_pages, checked_add_u64, u64_max. rewrite (proj2 (Z.leb_le _ _)) by lia. cbn [mbind option_bind].
  rewrite (proj2 (Z.leb_le _ _)) by mlia. by eexists.
Qed.

Lemma heap_grow_run k lv pend n k' b : 1 <= n -> heap_grow k n = Ok (k', b) -> rtc hstep (mkSys k lv pend) (mkSys k' lv pend).
Proof.
  intros Hn E. unfold heap_grow in E. destruct (grow_reserve (inner k) n) as [h1 r] eqn:Er.
  pose proof (hs_reserve (mkSys k lv pend) n h1 r Hn Er) as S1. cbn [s_k s_lv s_pend] in S1.
  destruct r as [[[low size] old]|]; [|injection E as <- <-; by apply rtc_once].
  destruct (back_pages _ _ _ _) as [[k2 r]|e|] eqn:Eb; cbn [res_bind] in E; [|done..].
  destruct (grow_commit _ _ _ _ _) as [[h3 c]|e|] eqn:Ec; cbn [res_bind] in E; [|done..]. injection E as <- <-.
  eapply rtc_l; [exact S1|]. eapply rtc_l; [by apply (hs_back _ (mkGrowth low size old n None) pend)|]. cbn [s_lv g_low g_size g_old g_count].
  apply rtc_once. by apply (hs_commit (mkSys k2 lv (mkGrowth low size old n (Some r) :: pend)) (mkGrowth low size old n (Some r)) pend h3 r c).
Qed.

(** What a growth by [n] pages maps: the state after [back_pages]. *)
Definition grown (k : KHeap V) (n : Z) (k2 : KHeap V) (r : option (Z * bool)) : Prop :=
  exists h1 low size old, grow_reserve (inner k) n = (h1, Some (low, size, old)) /\ back_pages (set_inner k h1) low size n = Ok (k2, r).

(** A growth that succeeds leaves its region in one free block. *)
Lemma heap_grow_true s g n k' : sys_inv s g -> 1 <= n -> heap_grow (s_k s) n = Ok (k', true) ->
  exists k2 x, grown (s_k s) n k2 (Some x) /\ (unshared (mem (inner k2)) ->
    exists g', sys_inv (mkSys k' (s_lv s) (s_pend s)) g' /\ exists y r, y ∈ fl g' /\ inside r y /\ r.1 mod 4096 = 0 /\ r.2 = n * 4096).
Proof.
  intros Hi Hn E. unfold heap_grow in E. destruct (grow_reserve (inner (s_k s)) n) as [h1 r] eqn:Er.
  destruct (step_reserve s g n h1 r Hi Hn Er) as [[g1 Hi1] _].
  destruct (grow_reserve_spec _ _ _ _ (si_low s g Hi) Hn Er) as [[-> _]|(low & -> & _ & _)]; [done|].
  set (old := low_vaddr (inner (s_k s))) in *. set (p1 := mkGrowth low (n * 4096) old n None) in *.
  destruct (back_pages _ _ _ _) as [[k2 r]|e|] eqn:Eb; cbn [res_bind] in E; [|done..].
  destruct (grow_commit _ _ _ _ _) as [[h3 c]|e|] eqn:Ec; cbn [res_bind] in E; [|done..]. injection E as <- Ecb. cbn [snd] in Ecb. subst c.
  destruct r as [x|]; [|done]. exists k2, x. split; [by exists h1, low, (n * 4096), old|]. intros Hu.
  destruct (step_back _ g1 p1 (s_pend s) k2 (Some x) Hi1 ltac:(done) eq_refl Eb) as [Hi2 _]. destruct (Hi2 Hu) as [g2 Hi2'].
  set (p2 := mkGrowth low (n * 4096) old n (Some (Some x))).
  destruct (pend_split _ g2 p2 (s_pend s) Hi2' ltac:(done)) as (_ & _ & _ & (_ & _ & Hr & _) & _).
  destruct (commit_joins _ g2 p2 (s_pend s) h3 x true Hi2' ltac:(done) eq_refl Ec) as [(g3 & Hi3 & y & Hy & Hin) _].
  exists g3. split; [done|]. by exists y, (g_reg p2).
Qed.

(** A fresh region has room for the allocation it was mapped for. *)
Lemma region_fits l n y r : layout_ok l -> l_align l <= 4096 -> grow_pages l = Some n ->
  inside r y -> r.1 mod 4096 = 0 -> r.2 = n * 4096 -> fits l y = true.
Proof.
  intros Hl Ha Hn [I1 I2] Hm Hs. destruct (grow_pages_pos l n Hl Hn) as [_ Hn2].
  assert (HEAP_GROW_PAGES <= n) as Hn3.
  { unfold grow_pages in Hn. apply bind_Some in Hn as (a & _ & Hn). apply bind_Some in Hn as (c & _ & [= <-]). lia. }
  assert (0 < alloc_align l) as Hp. { unfold alloc_align, BLOCK_ALIGN. lia. }
  assert (payload_of r.1 l <= r.1 + 4096) as H1.
  { destruct Hl as [_ (k & Hk & Ek) _]. unfold payload_of, alloc_align, BLOCK_ALIGN in *. rewrite Ek in *.
    assert (k <= 12) as Hk2. { apply (Z.pow_le_mono_r_iff 2); [lia|lia|]. change (2 ^ 12) with 4096. lia. }
    assert (k ∈ seqZ 0 13) as Hin by (apply elem_of_seqZ; lia). clear - Hin Hm.
    repeat (apply elem_of_cons in Hin as [->|Hin]; [cbn [Z.pow Z.pow_pos Pos.iter Z.mul Pos.mul Z.max Z.compare Pos.compare Pos.compare_cont]; mlia|]).
    by apply not_elem_of_nil in Hin. }
  assert (payload_of y.1 l <= payload_of r.1 l) as H2.
  { unfold payload_of. apply Z.mul_le_mono_nonneg_r; [lia|]. apply Z.div_le_mono; lia. }
  unfold fits, end_of, alloc_needed, MIN_ALLOC, HEAP_GROW_PAGES in *. destruct Hl. apply Z.leb_le. mlia.
Qed.

(** C28: [heap_alloc] and [heap_dealloc] are runs of the critical sections that
    [heap_safe] speaks of, with other growths under way or not: an allocation
    ends with the pointer it returns among the allocations, a null pointer
    changes none of them, and freeing removes the one freed. *)
Theorem heap_ops_are_steps (k : KHeap V) cpu lv pend : 0 <= cpu < MAX_CPUS ->
  (forall l k' p, layout_ok l -> heap_alloc k cpu l = Ok (k', p) -> rtc hstep (mkSys k lv pend) (mkSys k' (hand p l lv) pend))
  /\ (forall p l lv' k', p <> 0 -> lv ≡ₚ (p, l) :: lv' -> heap_dealloc k cpu p = Ok k' -> rtc hstep (mkSys k lv pend) (mkSys k' lv' pend)).
Proof.
  intros Hc. split.
  - intros l k' p Hl E. unfold heap_alloc in E. destruct (initialized k); cbn [negb] in E; [|by injection E as <- <-].
    destruct (per_cpu_alloc_cached k cpu l) as [[k1 p1]|e|] eqn:E1; cbn [res_bind] in E; [|done..].
    eapply rtc_l; [by eapply (hs_cached (mkSys k lv pend))|]. cbn [s_lv s_pend].
    destruct (Z.eqb_spec p1 0) as [->|Hn]; cbn [negb] in E; [|by injection E as <- <-].
    destruct (alloc_shared k1 l) as [[k2 p2]|e|] eqn:E2; cbn [res_bind] in E; [|done..].
    eapply rtc_l; [by eapply (hs_shared (mkSys k1 _ pend))|]. cbn [s_lv s_pend hand Z.eqb].
    destruct (Z.eqb_spec p2 0) as [->|Hn]; cbn [negb] in E; [|by injection E as <- <-].
    destruct (grow_pages l) as [n|] eqn:En; [|by injection E as <- <-].
    destruct (heap_grow k2 n) as [[k3 b]|e|] eqn:E3; cbn [res_bind fst] in E; [|done..].
    etrans; [eapply heap_grow_run; [|exact E3]; by eapply grow_pages_pos|].
    apply rtc_once. by eapply (hs_shared (mkSys k3 lv pend)).
  - intros p l lv' k' Hp Hlv E. unfold heap_dealloc in E. apply Z.eqb_neq in Hp. rewrite Hp in E.
    destruct (per_cpu_free_cached k cpu p) as [[k1 b]|e|] eqn:E1; cbn [res_bind] in E; [|done..].
    eapply rtc_l; [by eapply (hs_park (mkSys k lv pend))|]. cbn [s_lv s_pend]. destruct b; [by injection E as <-|].
    apply rtc_once. by eapply (hs_free (mkSys k1 lv pend)).
Qed.

(** A growth that fails leaves the heap as it was for its blocks. *)
Lemma heap_grow_false s g n k' : sys_inv s g -> 1 <= n -> heap_grow (s_k s) n = Ok (k', false) ->
  exists g', sys_inv (mkSys k' (s_lv s) (s_pend s)) g'.
Proof.
  intros Hi Hn E. unfold heap_grow in E. destruct (grow_reserve (inner (s_k s)) n) as [h1 r] eqn:Er.
  destruct (step_reserve s g n h1 r Hi Hn Er) as [[g1 Hi1] _].
  destruct (grow_reserve_spec _ _ _ _ (si_low s g Hi) Hn Er) as [[-> _]|(low & -> & _ & _)]; [injection E as <-; eauto|].
  set (old := low_vaddr (inner (s_k s))) in *. set (p1 := mkGrowth low (n * 4096) old n None) in *.
  destruct (back_pages _ _ _ _) as [[k2 r]|e|] eqn:Eb; cbn [res_bind] in E; [|done..].
  destruct (grow_commit _ _ _ _ _) as [[h3 c]|e|] eqn:Ec; cbn [res_bind] in E; [|done..]. injection E as <- Ecb. cbn [snd] in Ecb. subst c.
  assert (r = None) as ->.
  { destruct r as [[pa sc]|]; [|done]. cbn [grow_commit] in Ec. destruct (add_region _ _ _); cbn [res_bind] in Ec; [|done..].
    by destruct (register_chunk _ _ _ _ _). }
  destruct (step_back _ g1 p1 (s_pend s) k2 None Hi1 ltac:(done) eq_refl Eb) as [Hi2 _].
  destruct (pend_split _ g1 p1 (s_pend s) Hi1 ltac:(done)) as ([G1 _ _ _ _] & _ & _ & (_ & _ & Hr & _) & _).
  destruct (back_pages_ok _ low (n * 4096) n k2 None ltac:(lia) Hr eq_refl Eb) as (m' & Sb & _ & _ & Hun).
  destruct Hi2 as [g2 Hi2].
  { unfold s_mem. cbn [s_k]. rewrite (sb_inner _ _ _ Sb). apply Hun; [done|]. apply (hi_unshared _ _ _ (si_heap _ g1 Hi1)). }
  destruct (commit_rolls_back _ g2 (mkGrowth low (n * 4096) old n (Some None)) (s_pend s) h3 false Hi2 ltac:(done) Ec) as [Hi3 _]. exact Hi3.
Qed.

(** C34: In a reachable state, an uninterrupted [heap_alloc] of a layout of at most page
    alignment, whose size and alignment add up to at most 1 GiB, returns null only when the
    heap could not grow: no cached block and no free block suited it, and mapping the
    pages it needs failed, or the frame allocator backed them with frames that already
    back the heap. *)
Theorem heap_alloc_serves s cpu l k' : reachable s -> 0 <= cpu < MAX_CPUS -> layout_ok l -> l_align l <= 4096 ->
  heap_alloc (s_k s) cpu l = Ok (k', 0) ->
  exists n, grow_pages l = Some n /\ (heap_grow (s_k s) n = Ok (k', false)
    \/ exists k2 x, grown (s_k s) n k2 (Some x) /\ ~ unshared (mem (inner k2))).
Proof.
  intros Hre Hc Hl Ha E. pose proof (reachable_initialized s Hre) as Hin. apply reachable_inv in Hre as [g Hi].
  unfold heap_alloc in E. rewrite Hin in E. cbn [negb] in E.
  destruct (cached_ok s g cpu l Hi Hc Hl) as (k1 & p1 & E1 & H1). rewrite E1 in E. cbn [res_bind] in E.
  destruct (Z.eqb_spec p1 0) as [Ez|Hn]; cbn [negb] in E; [|by injection E as _ ?]. rewrite (H1 Ez) in E.
  destruct (shared_ok s g l Hi Hl) as (k2 & p2 & E2 & H2). rewrite E2 in E. cbn [res_bind] in E.
  destruct (Z.eqb_spec p2 0) as [Ez2|Hn]; cbn [negb] in E; [|by injection E as _ ?]. destruct (H2 Ez2) as [-> _].
  destruct (grow_pages_some l Hl) as [n En]. rewrite En in E. exists n. split; [done|]. destruct (grow_pages_pos l n Hl En) as [Hn _].
  destruct (heap_grow (s_k s) n) as [[k3 b]|e|] eqn:E3; cbn [res_bind fst] in E; [|done..].
  destruct b.
  - right. destruct (heap_grow_true s g n k3 Hi Hn E3) as (k5 & x & Hg & Ht). exists k5, x. split; [done|]. intros Hu.
    destruct (Ht Hu) as (g3 & Hi3 & y & r & Hy & I & Hm & Hr).
    destruct (shared_ok _ g3 l Hi3 Hl) as (k4 & p4 & E4 & H4). cbn [s_k] in E4. rewrite E4 in E. injection E as -> ->.
    destruct (H4 eq_refl) as [_ Hf]. rewrite Forall_forall in Hf. specialize (Hf y Hy).
    by rewrite (region_fits l n y r Hl Ha En I Hm Hr) in Hf.
  - left. destruct (heap_grow_false s g n k3 Hi Hn E3) as [g3 Hi3].
    destruct (shared_ok _ g3 l Hi3 Hl) as (k4 & p4 & E4 & H4). cbn [s_k] in E4, H4. rewrite E4 in E. injection E as -> ->.
    by destruct (H4 eq_refl) as [-> _].
Qed.

(** ** Introspection *)

Lemma snapshot_walk h R l : regions_ok R -> mem_ok (mem h) R -> forall n, 0 <= n <= FREE_LIST_WALK_BOUND ->
  Forall (blk_ok R) l -> StronglySorted before l -> fseg (mem h) l 0 ->
  exists m len, iter_nat m (snapshot_round h) (n, haddr l 0, n) = inr (Ok (len, FREE_LIST_WALK_BOUND <? n + Z.of_nat (length l)))
    /\ (n + Z.of_nat (length l) <= FREE_LIST_WALK_BOUND -> len = n + Z.of_nat (length l))
    /\ Z.of_nat m <= FREE_LIST_WALK_BOUND - n + 1.
Proof.
  intros HR Hm. induction l as [|x l IH]; intros n Hn Hk Ho Hf.
  { exists 1%nat, n. cbn [iter_nat snapshot_round haddr length Z.eqb]. split_and!; [|lia|lia].
    rewrite (proj2 (Z.ltb_ge _ _)) by lia. done. }
  apply Forall_cons in Hk as [Hx Hk]. apply StronglySorted_inv in Ho as [Ho Hxl]. destruct Hf as (_ & Ev & Hf).
  destruct (blk_bounds R x HR Hx) as (B1 & _ & B2). destruct (header_words R HR _ x Hm Hx) as [_ W2].
  assert (snapshot_round h (n, x.1, n) = if FREE_LIST_WALK_BOUND <? n + 1 then inr (Ok (n, true)) else inl (n + 1, haddr l 0, n + 1)) as Er.
  { unfold snapshot_round. rewrite (addr_nonzero R HR x Hx), next_at_val, Ev by done. case_match; [done|].
    rewrite (proj2 (Z.eqb_neq _ _)); [done|]. destruct l as [|y l]; cbn [haddr]; [heap_consts; lia|].
    apply Forall_cons in Hxl as [Hxy _]. unfold before in Hxy. lia. }
  cbn [haddr length]. destruct (Z.ltb_spec FREE_LIST_WALK_BOUND (n + 1)) as [Hb|Hb].
  - exists 1%nat, n. rewrite iter_nat_S, Er. rewrite (proj2 (Z.ltb_lt _ _)) by lia. split_and!; [done|lia|lia].
  - destruct (IH (n + 1) ltac:(lia) Hk Ho Hf) as (m & len & E & Hl & Hm'). exists (S m), len. rewrite iter_nat_S, Er, E.
    replace (n + 1 + Z.of_nat (length l)) with (n + Z.of_nat (S (length l))) in * by lia. split_and!; [done|done|lia].
Qed.

(** The introspection of the heap reports the true length of the free list,
    and calls the list damaged only when it is longer than the walk bound. *)
Theorem heap_snapshot_exact s : reachable s ->
  exists bs, free_blocks (inner (s_k s)) bs
    /\ heap_snapshot (s_k s) = Ok (if FREE_LIST_WALK_BOUND <? Z.of_nat (length bs) then None
         else Some (low_vaddr (inner (s_k s)), heap_chunk_count (s_k s), Z.of_nat (length bs))).
Proof.
  intros Hre. pose proof (reachable_initialized s Hre) as Hin. apply reachable_inv in Hre as [g Hi].
  pose proof (si_heap s g Hi) as Hh. exists (fl g). split; [split; apply Hh|].
  destruct Hh as [HR Hm Hhd Hf Ho Hk _ _ _ _ _ _]. apply Forall_app in Hk as [Hk _].
  destruct (snapshot_walk _ _ (fl g) HR Hm 0 ltac:(done) Hk Ho Hf) as (m & len & E & Hl & Hb).
  unfold heap_snapshot, heap_chunk_count. rewrite Hin, Hhd. cbn [negb].
  rewrite (iter_pos_done _ m WALK_FUEL _ _ E) by (unfold FREE_LIST_WALK_BOUND in Hb; unfold WALK_FUEL; lia). cbn [res_bind].
  rewrite Z.add_0_l in *. destruct (Z.ltb_spec FREE_LIST_WALK_BOUND (Z.of_nat (length (fl g)))); [done|]. by rewrite Hl.
Qed.

(** A request of 2 GiB or more never returns: an address plus the size overflows,
    and the loop goes on at the same block, with the heap locked. *)
Theorem heap_alloc_hangs s l fuel : reachable s -> free_list (inner (s_k s)) <> 0 ->
  (exists k, 0 <= k /\ l_align l = 2 ^ k) -> 2147483648 <= l_size l ->
  exists st, iter_pos fuel (alloc_round (inner (s_k s)) (alloc_align l) (alloc_needed l)) (0, free_list (inner (s_k s))) = inl st.
Proof.
  intros [g Hi]%reachable_inv Hf (k & Hk0 & Ek) Hl. set (h := inner (s_k s)) in *.
  apply (iter_pos_diverges _ (fun st => st = (0, free_list h))); [done|]. intros st ->. exists (0, free_list h). split; [|done].
  pose proof (si_heap s g Hi) as Hh. pose proof Hh as [HR Hm Hhd Hfl _ Hk _ _ _ _ _ _]. destruct (fl g) as [|x fl'] eqn:Efl; [done|].
  destruct Hfl as (Es & En & _). unfold blocks in Hk. rewrite Efl in Hk. apply Forall_cons in Hk as [Hx _].
  destruct (header_words _ HR _ x Hm Hx) as [W1 W2]. destruct (blk_bounds _ x HR Hx) as (B1 & _ & B2).
  unfold alloc_round. rewrite (proj2 (Z.eqb_neq _ _)) by done. change (free_list h) with (free_list (inner (s_k s))). rewrite Hhd. cbn [haddr].
  rewrite size_at_val, next_at_val by done. cbn [res_bind]. destruct (checked_add_u64 _ _) as [e|]; [|done].
  destruct (fit _ _ _) as [[p e2]|] eqn:Ef; [|done]. exfalso. unfold fit in Ef.
  apply bind_Some in Ef as (v & Ev & Ef). apply bind_Some in Ef as (pe & Ep & _).
  unfold checked_add_u64 in Ev, Ep. destruct (_ <=? _) in Ev; [|done]. injection Ev as <-. case_match; [|done].
  assert (exists j, 0 <= j /\ alloc_align l = 2 ^ j) as (j & Hj & Ej).
  { unfold alloc_align, BLOCK_ALIGN. rewrite Ek. destruct (Z.max_spec (2 ^ k) 8) as [[_ ->]|[_ ->]]; [by exists 3|by exists k]. }
  rewrite Ej, align_up_pow in * by done. pose proof (Z.pow_pos_nonneg 2 j ltac:(lia) Hj) as Hp.
  pose proof (Z.mod_pos_bound (x.1 + (HEADER_SIZE + BACKPTR_SIZE + 2 ^ j - 1)) (2 ^ j) Hp) as Hb.
  pose proof (Z.div_mod (x.1 + (HEADER_SIZE + BACKPTR_SIZE + 2 ^ j - 1)) (2 ^ j) ltac:(lia)) as Hd.
  unfold alloc_needed in *. heap_consts. lia.
Qed.

End Safe.

(** ** Examples *)

(** Page tables as a map from pages to frames. *)
Definition PageMap : Type := gmap Z Z.

Definition pages_of (va size : Z) : list Z := map (fun i => va + i * 4096) (seqZ 0 (size / 4096)).

#[local] Instance page_map : VmmOps PageMap := {
  vmm_map _ t f va pa size := Ok (foldr (fun p t => <[p := pa + (p - va)]> t) t (pages_of va size), f);
  vmm_map_4k _ t f va pa := Ok (<[va := pa]> t, f);
  vmm_unmap _ t f va size := Ok (foldr (fun p t => delete p t) t (pages_of va size), f);
  vmm_translate _ t va := (fun pa => pa + va mod 4096) <$> t !! (va - va mod 4096)
}.

(** 300 free frames after the first one. *)
Definition small_frames : BitmapAllocator := mkAlloc 1 301 (301 * 4096) 0 4096 [(0, 301 * 4096)] 300 1 1.

Definition is_ok {A} (r : hres A) : bool := match r with Ok _ => true | _ => false end.
Definition run {A} (d : A) (r : hres A) : A := match r with Ok a => a | _ => d end.

Lemma run_ok {A} (d : A) (r : hres A) : is_ok r = true -> r = Ok (run d r).
Proof. by destruct r. Qed.

Definition bare : KHeap PageMap := boot (mkMem (fun _ => 0) ∅ []) small_frames ∅.

Definition first_heap : KHeap PageMap := run bare (init (H := true) bare 4096).

(** Two allocations of different sizes and alignments. *)
Definition l1 : Layout := mkLayout 100 8.
Definition l2 : Layout := mkLayout 24 64.
Definition got1 : KHeap PageMap * Z := run (bare, 0) (alloc_shared first_heap l1).
Definition got2 : KHeap PageMap * Z := run (bare, 0) (alloc_shared got1.1 l2).

Definition two : Sys PageMap := mkSys got2.1 (hand got2.2 l2 (hand got1.2 l1 [])) [].

Lemma l1_ok : layout_ok l1.
Proof. constructor; [done|by exists 3|done]. Qed.

Lemma l2_ok : layout_ok l2.
Proof. constructor; [done|by exists 6|done]. Qed.

Lemma two_reachable : reachable (H := true) two.
Proof.
  exists (mkMem (fun _ => 0) ∅ []), small_frames, ∅, 4096, first_heap. split; [apply run_ok; by vm_compute|].
  split; [vm_compute; repeat constructor|].
  eapply rtc_l; [split; [left; apply (hs_shared (H := true) (mkSys first_heap [] []) l1 got1.1 got1.2 l1_ok)|vm_compute; repeat constructor]|].
  - cbn [s_k]. rewrite <- surjective_pairing. apply run_ok. by vm_compute.
  - apply rtc_once. split; [left|vm_compute; repeat constructor]. apply (hs_shared (H := true) (mkSys got1.1 (hand got1.2 l1 []) []) l2 got2.1 got2.2 l2_ok).
    cbn [s_k]. rewrite <- surjective_pairing. apply run_ok. by vm_compute.
Qed.

Lemma heap_safe_witness : length (s_lv two) = 2%nat /\ ForallOrdPairs no_overlap (s_lv two).
Proof.
  split; [by vm_compute|]. exact (proj1 (heap_safe (H := true) two two_reachable)).
Defined.

Lemma heap_returns_witness : layout_ok l1 /\ exists r, alloc_shared (s_k two) l1 = Ok r.
Proof.
  split; [exact l1_ok|]. exact (proj2 (proj1 (heap_returns (H := true) two 3 two_reachable ltac:(done)) l1 l1_ok)).
Defined.

Lemma heap_accounts_witness : exists free cached live,
  free_blocks (inner (s_k two)) free /\ total (free ++ cached ++ live) = total (regions (inner (s_k two))).
Proof.
  destruct (heap_accounts (H := true) two two_reachable) as (f & c & l & H1 & _ & _ & _ & H2 & _).
  exists f, c, l. exact (conj H1 H2).
Defined.

Definition got3 : KHeap PageMap * Z := run (bare, 0) (heap_alloc (H := true) first_heap 3 l1).

Lemma heap_ops_are_steps_witness : rtc (hstep (H := true)) (mkSys first_heap [] []) (mkSys got3.1 (hand got3.2 l1 []) []).
Proof.
  apply (proj1 (heap_ops_are_steps (H := true) first_heap 3 [] [] ltac:(done)) l1 got3.1 got3.2 l1_ok).
  rewrite <- surjective_pairing. apply run_ok. by vm_compute.
Defined.

(** Two megabytes do not fit into 300 frames. *)
Definition l3 : Layout := mkLayout 2097152 8.

Definition got4 : KHeap PageMap * Z := run (bare, 0) (heap_alloc (H := true) (s_k two) 3 l3).

Lemma heap_alloc_serves_witness : exists n, grow_pages l3 = Some n /\ (heap_grow (H := true) (s_k two) n = Ok (got4.1, false)
  \/ exists k2 x, grown (H := true) (s_k two) n k2 (Some x) /\ ~ unshared (mem (inner k2))).
Proof.
  apply (heap_alloc_serves (H := true) two 3 l3 got4.1 two_reachable).
  - split; vm_compute; congruence.
  - constructor; [by vm_compute|by exists 3|by vm_compute].
  - by vm_compute.
  - assert (got4.2 = 0) as <- by (vm_compute; reflexivity).
    rewrite <- surjective_pairing. apply run_ok. vm_compute. reflexivity.
Defined.

Lemma heap_snapshot_exact_witness : exists bs, free_blocks (inner (s_k two)) bs
  /\ heap_snapshot (s_k two) = Ok (Some (low_vaddr (inner (s_k two)), 1, Z.of_nat (length bs))).
Proof.
  destruct (heap_snapshot_exact (H := true) two two_reachable) as (bs & H1 & H2).
  exists bs. split; [exact H1|]. rewrite H2. destruct (_ <? _) eqn:E; [|reflexivity]. exfalso.
  vm_compute in H2. discriminate H2.
Defined.

(** ** Growth into frames in use *)

(** Frames 61 to 319 of 320 are free and the search starts at frame 64. *)
Definition end_frames : BitmapAllocator := mkAlloc (Z.ones 61) 320 (320 * 4096) 0 4096 [(0, 320 * 4096)] 259 64 64.

Definition end_heap : KHeap PageMap :=
  run bare (init (H := true) (boot (mkMem (fun _ => 0) ∅ []) end_frames ∅) 4096).

Definition end_grown : KHeap PageMap * bool := run (bare, false) (heap_grow (H := true) end_heap 16).

(** The heap can grow into its own frames: with frames 64 to 319 behind the heap and 61
    to 63 free, a growth by 16 pages is given frames 61 to 76, since the search
    for a run counts the used frames at the start of the next word as free.  The fourth
    new page and the first page of the heap are then one frame. *)
Theorem growth_shares_frames : init (H := true) (boot (mkMem (fun _ => 0) ∅ []) end_frames ∅) 4096 = Ok end_heap
  /\ unshared (mem (inner end_heap)) /\ heap_grow (H := true) end_heap 16 = Ok (end_grown.1, true)
  /\ phys_of (mem (inner end_grown.1)) (low_vaddr (inner end_grown.1) + 3 * 4096) = Some (64 * 4096)
  /\ phys_of (mem (inner end_grown.1)) (low_vaddr (inner end_heap)) = Some (64 * 4096).
Proof.
  split_and!; [apply run_ok; by vm_compute|vm_compute; repeat constructor| |by vm_compute..].
  assert (end_grown.2 = true) as <- by (by vm_compute). rewrite <- surjective_pairing. apply run_ok. by vm_compute.
Qed.
