(* ===== verification/InputQueue.v ===== *)
(** * The input event queue

    Model of kernel/src/input/queue.rs and event.rs: a bounded ring with many
    producers, in interrupt handlers too, and one consumer.  [push_step] and
    [pop_step] are one access to an atomic or to the event of a slot each, so
    that the interleavings of the threads are those of the accesses; the model is
    sequentially consistent.

    The theorems hold until 2^64 events have been pushed, when [head] overflows. *)

From S2P Require Import Prelude.
Local Open Scope Z_scope.

(** ** Events *)

Inductive InputType := Key | Mouse | Touch | Gamepad | Axis | Custom.

#[export] Instance InputType_eq_dec : EqDecision InputType.
Proof. solve_decision. Defined.

Record InputEvent := mkEvent {
  timestamp : Z;
  device_id : Z;
  type_ : InputType;
  code : Z;
  value : Z;
  flags : Z
}.

#[export] Instance InputEvent_eq_dec : EqDecision InputEvent.
Proof. solve_decision. Defined.

Definition zero_event : InputEvent := mkEvent 0 0 Custom 0 0 0.
Definition new_event (device : Z) (t : InputType) (c v : Z) : InputEvent := mkEvent 0 device t c v 0.
Definition with_timestamp (e : InputEvent) (ts : Z) : InputEvent :=
  mkEvent ts (device_id e) (type_ e) (code e) (value e) (flags e).

(** ** The ring *)

Definition CAPACITY : Z := 256.

Record Slot := mkSlot { seq : Z; event : InputEvent }.

Definition empty_slot : Slot := mkSlot 0 zero_event.
#[export] Instance slot_inhabited : Inhabited Slot := populate empty_slot.

Record InputQueue := mkQueue { slots : list Slot; head : Z; tail : Z }.

Definition new_queue : InputQueue := mkQueue (replicate (Z.to_nat CAPACITY) empty_slot) 0 0.

Definition slot_of (pos : Z) : nat := Z.to_nat (pos mod CAPACITY).
Definition round_of (pos : Z) : Z := pos / CAPACITY.

Definition slot_at (q : InputQueue) (pos : Z) : Slot := slots q !!! slot_of pos.
Definition set_slot (q : InputQueue) (pos : Z) (s : Slot) : InputQueue := mkQueue (<[slot_of pos := s]> (slots q)) (head q) (tail q).
Definition set_head (q : InputQueue) (h : Z) : InputQueue := mkQueue (slots q) h (tail q).
Definition set_tail (q : InputQueue) (t : Z) : InputQueue := mkQueue (slots q) (head q) t.

Definition wrapping_sub (a b : Z) : Z := (a - b) mod 18446744073709551616.

(** Where a [push] is: before the load of [head], of [tail], the exchange, the
    check of the slot, the write of the event, and its publication. *)
Inductive Push := P_head | P_tail (h : Z) | P_cas (h : Z) | P_wait (pos : Z) | P_write (pos : Z) | P_publish (pos : Z).

(** [weak] is a spurious failure of the weak exchange. *)
Definition push_step `{Profile} (weak : bool) (q : InputQueue) (ev : InputEvent) (pc : Push)
  : res Empty_set (InputQueue * (Push + bool)) :=
  match pc with
  | P_head => Ok (q, inl (P_tail (head q)))
  | P_tail h => if CAPACITY <=? wrapping_sub h (tail q) then Ok (q, inr false) else Ok (q, inl (P_cas h))
  | P_cas h =>
      let? h1 := u64_add h 1 in
      if negb weak && (head q =? h) then Ok (set_head q h1, inl (P_wait h)) else Ok (q, inl P_head)
  | P_wait pos => Ok (q, inl (if seq (slot_at q pos) =? 2 * round_of pos then P_write pos else P_wait pos))
  | P_write pos => Ok (set_slot q pos (mkSlot (seq (slot_at q pos)) ev), inl (P_publish pos))
  | P_publish pos => Ok (set_slot q pos (mkSlot (2 * round_of pos + 1) (event (slot_at q pos))), inr true)
  end.

(** Where the [pop] is: before the load of [tail], of [head], the check of the
    slot, the read of the event, the release of the slot, and the store of
    [tail]. *)
Inductive Pop := C_tail | C_head (t : Z) | C_wait (t : Z) | C_read (t : Z) | C_release (t : Z) (ev : InputEvent) | C_store (t : Z) (ev : InputEvent).

Definition pop_step `{Profile} (q : InputQueue) (pc : Pop) : res Empty_set (InputQueue * (Pop + option InputEvent)) :=
  match pc with
  | C_tail => Ok (q, inl (C_head (tail q)))
  | C_head t => Ok (q, if t =? head q then inr None else inl (C_wait t))
  | C_wait t => Ok (q, inl (if seq (slot_at q t) =? 2 * round_of t + 1 then C_read t else C_wait t))
  | C_read t => Ok (q, inl (C_release t (event (slot_at q t))))
  | C_release t ev => Ok (set_slot q t (mkSlot (2 * round_of t + 2) (event (slot_at q t))), inl (C_store t ev))
  | C_store t ev => let? t1 := u64_add t 1 in Ok (set_tail q t1, inr (Some ev))
  end.

Definition queue_len (q : InputQueue) : Z := wrapping_sub (head q) (tail q).

(** ** Threads *)

(** The pushes under way by thread, the pop under way, the events in the order
    their positions were claimed, and those the pops returned. *)
Record Sys := mkSys {
  sq : InputQueue;
  pushes : gmap nat (InputEvent * Push);
  popping : option Pop;
  log : list InputEvent;
  popped : list InputEvent
}.

Definition start : Sys := mkSys new_queue ∅ None [] [].

Inductive action := Begin (i : nat) (ev : InputEvent) | Run (i : nat) (weak : bool) | BeginPop | RunPop.

Definition claimed (pc : Push) (ev : InputEvent) (r : Push + bool) : list InputEvent :=
  match pc, r with P_cas _, inl (P_wait _) => [ev] | _, _ => [] end.

Definition act `{Profile} (a : action) (s : Sys) : option Sys :=
  match a with
  | Begin i ev =>
      match pushes s !! i with
      | None => Some (mkSys (sq s) (<[i := (ev, P_head)]> (pushes s)) (popping s) (log s) (popped s))
      | Some _ => None
      end
  | Run i weak =>
      match pushes s !! i with
      | None => None
      | Some (ev, pc) =>
          match push_step weak (sq s) ev pc with
          | Ok (q, r) =>
              Some (mkSys q (match r with inl pc' => <[i := (ev, pc')]> (pushes s) | inr _ => delete i (pushes s) end)
                (popping s) (log s ++ claimed pc ev r) (popped s))
          | _ => None
          end
      end
  | BeginPop =>
      match popping s with
      | None => Some (mkSys (sq s) (pushes s) (Some C_tail) (log s) (popped s))
      | Some _ => None
      end
  | RunPop =>
      match popping s with
      | None => None
      | Some pc =>
          match pop_step (sq s) pc with
          | Ok (q, inl pc') => Some (mkSys q (pushes s) (Some pc') (log s) (popped s))
          | Ok (q, inr r) => Some (mkSys q (pushes s) None (log s) (popped s ++ option_list r))
          | _ => None
          end
      end
  end.

Fixpoint acts `{Profile} (l : list action) (s : Sys) : option Sys :=
  match l with [] => Some s | a :: l => s' ← act a s; acts l s' end.

(** What is in the queue: claimed and not yet returned. *)
Definition contents (s : Sys) : list InputEvent := drop (length (popped s)) (log s).
