(* ===== verification/InputQueueFacts.v ===== *)
(** * The input event queue: correctness

    The invariant of the ring, kept by every access of every thread, and what it
    gives: the queue is a bounded FIFO, no two threads touch the event of a slot
    at once, producers never wait, and the consumer waits only for the producer
    that owns the slot. *)

From S2P Require Import Prelude InputQueue.
Local Open Scope Z_scope.

(** ** Slots *)

Lemma slot_of_ne p p' : p <> p' -> -256 < p - p' < 256 -> slot_of p <> slot_of p'.
Proof. unfold slot_of, CAPACITY. intros Hn Hr E. apply Z2Nat.inj in E; mlia. Qed.

Lemma slot_of_next p : slot_of (p + 256) = slot_of p.
Proof. unfold slot_of, CAPACITY. f_equal. replace (p + 256) with (p + 1 * 256) by lia. by rewrite Z.mod_add by lia. Qed.

Lemma round_of_next p : round_of (p + 256) = round_of p + 1.
Proof. unfold round_of, CAPACITY. mlia. Qed.

Lemma slot_at_set q p s : length (slots q) = 256%nat -> slot_at (set_slot q p s) p = s.
Proof. intros Hl. unfold slot_at, set_slot. cbn [slots]. apply list_lookup_total_insert_eq. rewrite Hl. unfold slot_of, CAPACITY. mlia. Qed.

Lemma slot_at_set_ne q p s p' : p <> p' -> -256 < p - p' < 256 -> slot_at (set_slot q p s) p' = slot_at q p'.
Proof. intros Hn Hr. unfold slot_at, set_slot. cbn [slots]. by rewrite list_lookup_total_insert_ne by (by apply slot_of_ne). Qed.

(** ** The invariant *)

(** The position a push has claimed. *)
Definition own (pc : Push) : option Z :=
  match pc with P_wait p | P_write p | P_publish p => Some p | _ => None end.

Definition logged (s : Sys) (p : Z) (ev : InputEvent) : Prop := log s !! Z.to_nat p = Some ev.

Definition push_ok (s : Sys) (ev : InputEvent) (pc : Push) : Prop :=
  match pc with
  | P_head => True
  | P_tail h => 0 <= h <= head (sq s)
  | P_cas h => 0 <= h <= head (sq s) /\ h < tail (sq s) + 256
  | P_wait p | P_write p | P_publish p =>
      tail (sq s) <= p < head (sq s) /\ logged s p ev /\ seq (slot_at (sq s) p) = 2 * round_of p
      /\ (pc = P_publish p -> event (slot_at (sq s) p) = ev)
  end.

Definition pop_ok (s : Sys) (pc : Pop) : Prop :=
  match pc with
  | C_tail => True
  | C_head t => t = tail (sq s)
  | C_wait t => t = tail (sq s) /\ t < head (sq s)
  | C_read t => t = tail (sq s) /\ t < head (sq s) /\ seq (slot_at (sq s) t) = 2 * round_of t + 1
      /\ logged s t (event (slot_at (sq s) t))
  | C_release t ev => t = tail (sq s) /\ t < head (sq s) /\ seq (slot_at (sq s) t) = 2 * round_of t + 1
      /\ logged s t (event (slot_at (sq s) t)) /\ logged s t ev
  | C_store t ev => t = tail (sq s) /\ t < head (sq s) /\ seq (slot_at (sq s) t) = 2 * round_of t + 2 /\ logged s t ev
  end.

Definition releasing (s : Sys) (p : Z) : Prop := exists ev, popping s = Some (C_store p ev).

(** A claimed slot is owned by a push, holds its event, or is being released. *)
Definition slot_ok (s : Sys) (p : Z) : Prop :=
  (exists i ev pc, pushes s !! i = Some (ev, pc) /\ own pc = Some p)
  \/ (seq (slot_at (sq s) p) = 2 * round_of p + 1 /\ logged s p (event (slot_at (sq s) p)))
  \/ releasing s p.

Record inv (s : Sys) : Prop := {
  iv_slots : length (slots (sq s)) = 256%nat;
  iv_head : head (sq s) = Z.of_nat (length (log s));
  iv_tail : tail (sq s) = Z.of_nat (length (popped s));
  iv_size : tail (sq s) <= head (sq s) <= tail (sq s) + 256;
  iv_popped : popped s = take (length (popped s)) (log s);
  iv_push i ev pc : pushes s !! i = Some (ev, pc) -> push_ok s ev pc;
  iv_own i j ev ev' pc pc' p : pushes s !! i = Some (ev, pc) -> pushes s !! j = Some (ev', pc') ->
    own pc = Some p -> own pc' = Some p -> i = j;
  iv_pop pc : popping s = Some pc -> pop_ok s pc;
  iv_used p : tail (sq s) <= p < head (sq s) -> slot_ok s p;
  iv_free p : head (sq s) <= p < tail (sq s) + 256 -> seq (slot_at (sq s) p) = 2 * round_of p
}.

Lemma start_inv : inv start.
Proof.
  constructor; try done; cbn [sq start new_queue head tail slots].
  - intros p Hp. lia.
  - intros p Hp. unfold slot_at, new_queue. cbn [slots]. rewrite (lookup_total_replicate_2 (Z.to_nat CAPACITY)) by (unfold slot_of, CAPACITY; mlia).
    cbn [seq empty_slot]. unfold round_of, CAPACITY. mlia.
Qed.

Lemma logged_app s p ev l q pu po pp : logged s p ev -> logged (mkSys q pu po (log s ++ l) pp) p ev.
Proof. unfold logged. cbn [log]. intros E. by apply lookup_app_l_Some. Qed.

(** ** Steps that only move a thread *)

(** A push moves on and keeps its position. *)
Lemma inv_move_push s i ev pc pc' : inv s -> pushes s !! i = Some (ev, pc) -> own pc' = own pc -> push_ok s ev pc' ->
  inv (mkSys (sq s) (<[i := (ev, pc')]> (pushes s)) (popping s) (log s) (popped s)).
Proof.
  intros [I1 I2 I3 I4 I5 I6 I7 I8 I9 I10] Hi Eo Hok. constructor; try done; cbn [sq pushes popping log popped].
  - intros j ev' q Hj. apply lookup_insert_Some in Hj as [[<- [= <- <-]]|[_ Hj]]; [done|by eapply (I6 j)].
  - intros j k e1 e2 q1 q2 p Hj Hk O1 O2.
    apply lookup_insert_Some in Hj as [[<- [= <- <-]]|[_ Hj]]; apply lookup_insert_Some in Hk as [[<- [= <- <-]]|[_ Hk]]; [done|..];
      [rewrite Eo in O1|rewrite Eo in O2|]; by eapply I7.
  - intros p Hp. destruct (I9 p Hp) as [(j & e & q & Hj & Ho)|H']; [left; cbn [pushes]|by right].
    destruct (decide (i = j)) as [<-|Hn].
    + exists i, ev, pc'. rewrite lookup_insert_eq. split; [done|]. rewrite Hi in Hj. injection Hj as <- <-. by rewrite Eo.
    + exists j, e, q. by rewrite lookup_insert_ne.
Qed.

(** A push that owns no position returns. *)
Lemma inv_end_push s i ev pc : inv s -> pushes s !! i = Some (ev, pc) -> own pc = None ->
  inv (mkSys (sq s) (delete i (pushes s)) (popping s) (log s) (popped s)).
Proof.
  intros [I1 I2 I3 I4 I5 I6 I7 I8 I9 I10] Hi Eo. constructor; try done; cbn [sq pushes popping log popped].
  - intros j ev' q [_ Hj]%lookup_delete_Some. by eapply (I6 j).
  - intros j k e1 e2 q1 q2 p [_ Hj]%lookup_delete_Some [_ Hk]%lookup_delete_Some. by eapply I7.
  - intros p Hp. destruct (I9 p Hp) as [(j & e & q & Hj & Ho)|H']; [left; cbn [pushes]|by right].
    exists j, e, q. split; [|done]. rewrite lookup_delete_ne; [done|]. intros <-. rewrite Hi in Hj. injection Hj as <- <-. by rewrite Eo in Ho.
Qed.

Lemma inv_begin_push s i ev : inv s -> pushes s !! i = None ->
  inv (mkSys (sq s) (<[i := (ev, P_head)]> (pushes s)) (popping s) (log s) (popped s)).
Proof.
  intros [I1 I2 I3 I4 I5 I6 I7 I8 I9 I10] Hi. constructor; try done; cbn [sq pushes popping log popped].
  - intros j ev' q Hj. apply lookup_insert_Some in Hj as [[<- [= <- <-]]|[_ Hj]]; [done|by eapply (I6 j)].
  - intros j k e1 e2 q1 q2 p Hj Hk O1 O2.
    apply lookup_insert_Some in Hj as [[<- [= <- <-]]|[_ Hj]]; [done|].
    apply lookup_insert_Some in Hk as [[<- [= <- <-]]|[_ Hk]]; [done|]. by eapply I7.
  - intros p Hp. destruct (I9 p Hp) as [(j & e & q & Hj & Ho)|H']; [left; cbn [pushes]|by right].
    exists j, e, q. split; [|done]. rewrite lookup_insert_ne; [done|]. intros <-. by rewrite Hi in Hj.
Qed.

(** The pop moves on. *)
Lemma inv_move_pop s po : inv s -> (forall p, ~ releasing s p) -> (forall pc, po = Some pc -> pop_ok s pc) ->
  inv (mkSys (sq s) (pushes s) po (log s) (popped s)).
Proof.
  intros [I1 I2 I3 I4 I5 I6 I7 I8 I9 I10] Hr Hok. constructor; try done; cbn [sq pushes popping log popped].
  intros p Hp. destruct (I9 p Hp) as [H'|[H'|H']]; [by left|by right; left|by apply Hr in H'].
Qed.

(** ** Steps that change the ring *)

Lemma push_ok_frame s s' ev pc : push_ok s ev pc -> tail (sq s) <= tail (sq s') -> head (sq s) <= head (sq s') ->
  (forall p e, logged s p e -> logged s' p e) ->
  (forall p, own pc = Some p -> tail (sq s') <= p /\ slot_at (sq s') p = slot_at (sq s) p) -> push_ok s' ev pc.
Proof.
  intros Hp Ht Hh Hl Ho. destruct pc as [|h|h|p|p|p]; cbn [push_ok own] in *; try lia;
    destruct (Ho p eq_refl) as [Hp1 ->]; destruct Hp as (H1 & H2 & H3 & H4); (split; [lia|]; split; [by apply Hl|by split]).
Qed.

Lemma pop_ok_frame s s' pc : pop_ok s pc -> tail (sq s') = tail (sq s) -> head (sq s) <= head (sq s') ->
  (forall p e, logged s p e -> logged s' p e) -> slot_at (sq s') (tail (sq s)) = slot_at (sq s) (tail (sq s)) -> pop_ok s' pc.
Proof.
  intros Hp Ht Hh Hl Hs. destruct pc as [|t|t|t|t ev|t ev]; cbn [pop_ok] in *; rewrite ?Ht; try done;
    destruct Hp as (-> & Hp); rewrite ?Hs in *; [lia|..]; destruct Hp as (H1 & H2 & H3);
    (split; [done|]); (split; [lia|]); (split; [done|]); (try by apply Hl); destruct H3; split; by apply Hl.
Qed.

(** The exchange succeeds. *)
Lemma inv_claim s i ev h : inv s -> pushes s !! i = Some (ev, P_cas h) -> head (sq s) = h ->
  inv (mkSys (set_head (sq s) (h + 1)) (<[i := (ev, P_wait h)]> (pushes s)) (popping s) (log s ++ [ev]) (popped s)).
Proof.
  intros Hinv Hi Eh. pose proof Hinv as [I1 I2 I3 I4 I5 I6 I7 I8 I9 I10]. destruct (I6 i ev _ Hi) as [_ Hh].
  set (s' := mkSys _ _ _ _ _). assert (forall p e, logged s p e -> logged s' p e) as Hl by (intros p e; apply logged_app).
  assert (forall j e q p, pushes s !! j = Some (e, q) -> own q = Some p -> tail (sq s) <= p < h) as Hown.
  { intros j e q p Hj Ho. specialize (I6 j e q Hj). destruct q; cbn [own push_ok] in *; try done; injection Ho as ->; lia. }
  assert (length (popped s) <= length (log s))%nat as Hpl by lia.
  constructor; try done; cbn [sq pushes popping log popped head tail set_head s'].
  - rewrite length_app. cbn [length]. lia.
  - lia.
  - rewrite take_app_le by lia. done.
  - intros j ev' q Hj. apply lookup_insert_Some in Hj as [[<- [= <- <-]]|[_ Hj]].
    + cbn [push_ok sq s' set_head head tail]. split_and!; [lia|lia| | |done].
      * unfold logged. cbn [log s']. replace (Z.to_nat h) with (length (log s)) by lia. by rewrite lookup_app_r, Nat.sub_diag by lia.
      * apply I10. lia.
    + eapply (push_ok_frame s); [by eapply I6|done|cbn [sq s' set_head head]; lia|done|].
      intros p Ho. split; [|done]. by destruct (Hown j _ _ p Hj Ho).
  - intros j k e1 e2 q1 q2 p Hj Hk O1 O2.
    apply lookup_insert_Some in Hj as [[<- [= <- <-]]|[_ Hj]]; apply lookup_insert_Some in Hk as [[<- [= <- <-]]|[_ Hk]].
    + done.
    + injection O1 as <-. destruct (Hown k _ _ _ Hk O2). lia.
    + injection O2 as <-. destruct (Hown j _ _ _ Hj O1). lia.
    + by eapply I7.
  - intros pc Hpc. apply (pop_ok_frame s); [by apply I8|done|cbn [sq s' set_head head]; lia|done|done].
  - intros p Hp. destruct (decide (p = h)) as [->|Hne].
    { left. exists i, ev, (P_wait h). cbn [pushes s']. by rewrite lookup_insert_eq. }
    destruct (I9 p ltac:(lia)) as [(j & e & q & Hj & Ho)|[[H1 H2]|H']].
    + left. exists j, e, q. cbn [pushes s']. split; [|done]. rewrite lookup_insert_ne; [done|].
      intros <-. rewrite Hi in Hj. by injection Hj as <- <-.
    + right. left. split; [done|by apply Hl].
    + by right; right.
  - intros p Hp. apply I10. lia.
Qed.

Lemma own_window s i ev pc p : inv s -> pushes s !! i = Some (ev, pc) -> own pc = Some p ->
  tail (sq s) <= p < head (sq s) /\ logged s p ev /\ seq (slot_at (sq s) p) = 2 * round_of p.
Proof. intros Hinv Hi Ho. pose proof (iv_push s Hinv i ev pc Hi) as Hp. by destruct pc; cbn [own push_ok] in *; try done; injection Ho as ->; destruct Hp as (? & ? & ? & _). Qed.

(** The slot at the tail is not the consumer's while a push owns it. *)
Lemma pop_frame_owned s s' p pc : inv s -> popping s = Some pc -> tail (sq s) <= p < head (sq s) -> seq (slot_at (sq s) p) = 2 * round_of p ->
  tail (sq s') = tail (sq s) -> head (sq s') = head (sq s) -> log s' = log s ->
  (forall p', p' <> p -> -256 < p - p' < 256 -> slot_at (sq s') p' = slot_at (sq s) p') -> pop_ok s' pc.
Proof.
  intros Hinv Hpc Hw Hs Et Eh El Hf. pose proof (iv_pop s Hinv pc Hpc) as Hok. pose proof (iv_size s Hinv) as Hz.
  assert (forall q e, logged s q e -> logged s' q e) as Hl by (intros q e; unfold logged; by rewrite El).
  destruct (decide (tail (sq s) = p)) as [<-|Hn].
  - destruct pc as [|t|t|t|t ev|t ev]; cbn [pop_ok] in *; rewrite ?Et, ?Eh; try done; destruct Hok as (-> & _ & Hq & _); lia.
  - apply (pop_ok_frame s); [done|done|lia|done|]. apply Hf; [done|lia].
Qed.

(** The owner of a slot writes its event, or publishes it and returns. *)
Lemma inv_own_step s i ev pc p sl pu : inv s -> pushes s !! i = Some (ev, pc) -> own pc = Some p ->
  (pu = <[i := (ev, P_publish p)]> (pushes s) /\ sl = mkSlot (2 * round_of p) ev)
  \/ (pu = delete i (pushes s) /\ sl = mkSlot (2 * round_of p + 1) ev) ->
  inv (mkSys (set_slot (sq s) p sl) pu (popping s) (log s) (popped s)).
Proof.
  intros Hinv Hi Ho Hc. destruct (own_window s i ev pc p Hinv Hi Ho) as (Hw & Hlg & Hsq).
  pose proof Hinv as [I1 I2 I3 I4 I5 I6 I7 I8 I9 I10]. set (s' := mkSys _ _ _ _ _).
  assert (slot_at (sq s') p = sl) as Hsl by (by apply slot_at_set).
  assert (forall p', p' <> p -> -256 < p - p' < 256 -> slot_at (sq s') p' = slot_at (sq s) p') as Hf by (intros; by apply slot_at_set_ne).
  assert (forall j e q, j <> i -> pu !! j = Some (e, q) <-> pushes s !! j = Some (e, q)) as Hpu.
  { intros j e q Hj. destruct Hc as [[-> _]|[-> _]]; [by rewrite lookup_insert_ne|by rewrite lookup_delete_ne]. }
  assert (forall e q, pu !! i = Some (e, q) -> pu = <[i := (ev, P_publish p)]> (pushes s) /\ sl = mkSlot (2 * round_of p) ev /\ e = ev /\ q = P_publish p) as Hpi.
  { intros e q Hq. destruct Hc as [[-> Es]|[-> _]]; [|by rewrite lookup_delete_eq in Hq]. rewrite lookup_insert_eq in Hq. by injection Hq as <- <-. }
  assert (forall j e q p', j <> i -> pushes s !! j = Some (e, q) -> own q = Some p' -> p' <> p /\ tail (sq s) <= p' < head (sq s)) as Hoth.
  { intros j e q p' Hj Hq Ho'. split; [intros ->; by destruct Hj; eapply I7|by eapply own_window]. }
  constructor; try done; cbn [sq pushes popping log popped head tail set_slot s'].
  - unfold set_slot. cbn [slots]. by rewrite length_insert.
  - intros j e q Hj. destruct (decide (j = i)) as [->|Hn].
    + destruct (Hpi e q Hj) as (_ & Es & -> & ->). cbn [push_ok]. rewrite Hsl, Es. cbn [seq event]. split; [exact Hw|]. split; [exact Hlg|]. by split.
    + apply Hpu in Hj; [|done]. eapply (push_ok_frame s); [by eapply I6|done|done|done|]. intros p' Ho'.
      destruct (Hoth j e q p' Hn Hj Ho') as [? ?]. split; [cbn [sq s' set_slot tail]; lia|]. apply Hf; [done|lia].
  - intros j k e1 e2 q1 q2 p' Hj Hk O1 O2. destruct (decide (j = i)) as [->|Hj']; destruct (decide (k = i)) as [->|Hk']; [done|..].
    + destruct (Hpi _ _ Hj) as (_ & _ & _ & ->). injection O1 as <-. apply Hpu in Hk; [|done]. by destruct (Hoth k _ _ _ Hk' Hk O2).
    + destruct (Hpi _ _ Hk) as (_ & _ & _ & ->). injection O2 as <-. apply Hpu in Hj; [|done]. by destruct (Hoth j _ _ _ Hj' Hj O1).
    + apply Hpu in Hj; [|done]. apply Hpu in Hk; [|done]. by eapply I7.
  - intros q Hq. by eapply (pop_frame_owned s s' p).
  - intros p' Hp'. destruct (decide (p' = p)) as [->|Hn].
    + destruct Hc as [[-> _]|[_ ->]]; [left; exists i, ev, (P_publish p); cbn [pushes s']; by rewrite lookup_insert_eq|].
      right. left. rewrite Hsl. by split.
    + destruct (I9 p' ltac:(lia)) as [(j & e & q & Hj & Ho')|[[H1 H2]|H']]; [|right; left; by rewrite Hf by lia|by right; right].
      left. exists j, e, q. split; [|done]. cbn [pushes s']. apply Hpu; [|done]. intros ->. rewrite Hi in Hj. injection Hj as <- <-. congruence.
  - intros p' Hp'. rewrite Hf by lia. by apply I10.
Qed.

Lemma not_owned s p : inv s -> seq (slot_at (sq s) p) <> 2 * round_of p -> forall i ev pc, pushes s !! i = Some (ev, pc) -> own pc <> Some p.
Proof. intros Hinv Hs i ev pc Hi Ho. by destruct (own_window s i ev pc p Hinv Hi Ho) as (_ & _ & ?). Qed.

(** The consumer releases the slot. *)
Lemma inv_release s t ev e : inv s -> popping s = Some (C_release t ev) ->
  inv (mkSys (set_slot (sq s) t (mkSlot (2 * round_of t + 2) e)) (pushes s) (Some (C_store t ev)) (log s) (popped s)).
Proof.
  intros Hinv Hpc. pose proof Hinv as [I1 I2 I3 I4 I5 I6 I7 I8 I9 I10].
  destruct (I8 _ Hpc) as (-> & Hlt & Hsq & Hlg & Hev). set (t := tail (sq s)) in *. set (s' := mkSys _ _ _ _ _).
  assert (slot_at (sq s') t = mkSlot (2 * round_of t + 2) e) as Hsl by (by apply slot_at_set).
  assert (forall p', p' <> t -> -256 < t - p' < 256 -> slot_at (sq s') p' = slot_at (sq s) p') as Hf by (intros; by apply slot_at_set_ne).
  pose proof (not_owned s t Hinv ltac:(lia)) as Hno.
  constructor; try done; cbn [sq pushes popping log popped head tail set_slot s'].
  - unfold set_slot. cbn [slots]. by rewrite length_insert.
  - intros j e1 q Hj. eapply (push_ok_frame s); [by eapply I6|done|done|done|]. intros p' Ho.
    destruct (own_window s j e1 q p' Hinv Hj Ho) as (? & _). split; [cbn [sq s' set_slot tail]; lia|].
    apply Hf; [|unfold t; lia]. intros ->. by eapply Hno.
  - intros pc [= <-]. cbn [pop_ok]. rewrite Hsl. split; [done|]. split; [done|]. by split.
  - intros p' Hp'. destruct (decide (p' = t)) as [->|Hn]; [right; right; by exists ev|].
    destruct (I9 p' ltac:(unfold t in *; lia)) as [H'|[[H1 H2]|[e' H']]]; [by left|right; left; by rewrite Hf by (unfold t in *; lia)|].
    by rewrite Hpc in H'.
  - intros p' Hp'. rewrite Hf by (unfold t in *; lia). by apply I10.
Qed.

(** The consumer advances [tail] and returns the event. *)
Lemma inv_advance s t ev : inv s -> popping s = Some (C_store t ev) ->
  inv (mkSys (set_tail (sq s) (t + 1)) (pushes s) None (log s) (popped s ++ [ev])).
Proof.
  intros Hinv Hpc. pose proof Hinv as [I1 I2 I3 I4 I5 I6 I7 I8 I9 I10].
  destruct (I8 _ Hpc) as (-> & Hlt & Hsq & Hev). set (t := tail (sq s)) in *. set (s' := mkSys _ _ _ _ _).
  pose proof (not_owned s t Hinv ltac:(lia)) as Hno.
  constructor; try done; cbn [sq pushes popping log popped head tail set_tail s'].
  - rewrite length_app. cbn [length]. lia.
  - lia.
  - rewrite length_app. cbn [length]. rewrite Nat.add_1_r. unfold logged in Hev. replace (Z.to_nat t) with (length (popped s)) in Hev by lia.
    rewrite (take_S_r _ _ _ Hev). by rewrite <- I5.
  - intros j e1 q Hj. eapply (push_ok_frame s); [by eapply I6|cbn [sq s' set_tail tail]; lia|done|done|]. intros p' Ho. split; [|done].
    destruct (own_window s j e1 q p' Hinv Hj Ho) as (? & _). cbn [sq s' set_tail tail].
    assert (p' <> t) by (intros ->; by eapply Hno). lia.
  - intros p' Hp'. destruct (I9 p' ltac:(lia)) as [H'|[H'|[e' H']]]; [by left|by right; left|]. rewrite Hpc in H'. injection H' as E _. lia.
  - intros p' Hp'. change (slot_at (set_tail (sq s) (t + 1)) p') with (slot_at (sq s) p').
    destruct (decide (p' = t + 256)) as [->|Hn]; [|apply I10; lia]. rewrite round_of_next.
    unfold slot_at. rewrite slot_of_next. fold (slot_at (sq s) t). lia.
Qed.

(** ** Every step keeps the invariant *)

Section Run.
Context `{Profile}.

Lemma push_inv s i ev pc weak q r : inv s -> pushes s !! i = Some (ev, pc) -> push_step weak (sq s) ev pc = Ok (q, r) ->
  Z.of_nat (length (log s ++ claimed pc ev r)) <= u64_max ->
  inv (mkSys q (match r with inl pc' => <[i := (ev, pc')]> (pushes s) | inr _ => delete i (pushes s) end)
    (popping s) (log s ++ claimed pc ev r) (popped s)).
Proof.
  intros Hinv Hi E Hb. pose proof (iv_push s Hinv i ev pc Hi) as Hok. pose proof (iv_head s Hinv) as Eh.
  pose proof (iv_size s Hinv) as Hz. destruct pc as [|h|h|p|p|p]; cbn [push_step] in E.
  - injection E as <- <-. cbn [claimed]. rewrite app_nil_r. apply (inv_move_push s i ev P_head); [done|done|done|]. cbn [push_ok]. lia.
  - unfold wrapping_sub in E. destruct (Z.leb_spec CAPACITY ((h - tail (sq s)) mod 18446744073709551616)) as [Hc|Hc];
      injection E as <- <-; cbn [claimed]; rewrite app_nil_r.
    + by apply (inv_end_push s i ev (P_tail h)).
    + apply (inv_move_push s i ev (P_tail h)); [done|done|done|]. cbn [push_ok] in *. unfold CAPACITY in Hc. split; [lia|].
      cbn [claimed] in Hb. rewrite app_nil_r in Hb. unfold u64_max in Hb. mlia.
  - destruct (u64_add h 1) as [h1|e|] eqn:E1; cbn [res_bind] in E; [|done..].
    destruct (negb weak && (head (sq s) =? h)) eqn:Ec; injection E as <- <-; cbn [claimed] in *.
    + apply andb_true_iff in Ec as [_ Ec]. apply Z.eqb_eq in Ec. rewrite length_app in Hb. cbn [length] in Hb.
      assert (h1 = h + 1) as ->. { unfold u64_add in E1. rewrite u64_op_Ok in E1 by lia. by injection E1. }
      by apply inv_claim.
    + rewrite app_nil_r. by apply (inv_move_push s i ev (P_cas h)).
  - injection E as <- <-. assert (claimed (P_wait p) ev (inl (if seq (slot_at (sq s) p) =? 2 * round_of p then P_write p else P_wait p)) = []) as -> by (by case_match).
    rewrite app_nil_r. destruct Hok as (H1 & H2 & H3 & H4). apply (inv_move_push s i ev (P_wait p)); [done|done|by case_match|].
    case_match; cbn [push_ok]; by repeat (split; [done|]).
  - injection E as <- <-. cbn [claimed]. rewrite app_nil_r. destruct Hok as (_ & _ & Hsq & _).
    apply (inv_own_step s i ev (P_write p) p); [done|done|done|]. left. by rewrite Hsq.
  - injection E as <- <-. cbn [claimed]. rewrite app_nil_r. destruct Hok as (_ & _ & _ & Hev).
    apply (inv_own_step s i ev (P_publish p) p); [done|done|done|]. right. by rewrite Hev.
Qed.

Lemma pop_inv s pc q r : inv s -> popping s = Some pc -> pop_step (sq s) pc = Ok (q, r) -> Z.of_nat (length (log s)) <= u64_max ->
  inv (match r with inl pc' => mkSys q (pushes s) (Some pc') (log s) (popped s)
       | inr x => mkSys q (pushes s) None (log s) (popped s ++ option_list x) end).
Proof.
  intros Hinv Hpc E Hb. pose proof (iv_pop s Hinv pc Hpc) as Hok. pose proof (iv_head s Hinv) as Eh. pose proof (iv_size s Hinv) as Hz.
  assert (forall p, releasing s p -> exists t ev, pc = C_store t ev) as Hrel.
  { intros p [ev Hp]. rewrite Hpc in Hp. injection Hp as ->. by eexists _, _. }
  destruct pc as [|t|t|t|t ev|t ev]; cbn [pop_step] in E.
  - injection E as <- <-. apply inv_move_pop; [done|by intros p Hp; destruct (Hrel p Hp) as (? & ? & ?)|]. by intros ? [= <-].
  - injection E as <- <-. cbn [pop_ok] in Hok. destruct (Z.eqb_spec t (head (sq s))) as [Et|Et]; cbn [option_list]; rewrite ?app_nil_r;
      (apply inv_move_pop; [done|by intros p Hp; destruct (Hrel p Hp) as (? & ? & ?)|]); [done|]. intros ? [= <-]. cbn [pop_ok]. lia.
  - injection E as <- <-. apply inv_move_pop; [done|by intros p Hp; destruct (Hrel p Hp) as (? & ? & ?)|]. intros ? [= <-].
    destruct (Z.eqb_spec (seq (slot_at (sq s) t)) (2 * round_of t + 1)) as [Es|]; [|done]. destruct Hok as [-> Hlt]. cbn [pop_ok].
    split; [done|]. split; [done|]. split; [done|]. destruct (iv_used s Hinv (tail (sq s)) ltac:(lia)) as [(i & e & pc & Hi & Ho)|[[_ ?]|Hr]].
    + destruct (not_owned s (tail (sq s)) Hinv ltac:(lia) i e pc Hi Ho).
    + done.
    + by destruct (Hrel _ Hr) as (? & ? & ?).
  - injection E as <- <-. apply inv_move_pop; [done|by intros p Hp; destruct (Hrel p Hp) as (? & ? & ?)|]. intros ? [= <-].
    destruct Hok as (H1 & H2 & H3 & H4). by repeat (split; [done|]).
  - injection E as <- <-. by apply inv_release.
  - destruct Hok as (Et & Hlt & _). pose proof (iv_tail s Hinv) as Htl. destruct (u64_add t 1) as [t1|e|] eqn:E1; cbn [res_bind] in E; [|done..]. injection E as <- <-.
    assert (t1 = t + 1) as ->. { unfold u64_add in E1. rewrite u64_op_Ok in E1 by lia. by injection E1. }
    cbn [option_list]. by apply inv_advance.
Qed.

Lemma act_log a s s' : act a s = Some s' -> exists l, log s' = log s ++ l.
Proof.
  destruct a as [i ev|i weak| |]; cbn [act]; repeat case_match; try done; intros [= <-]; cbn [log];
    first [by exists []; rewrite app_nil_r|by eexists].
Qed.

Lemma act_inv a s s' : inv s -> act a s = Some s' -> Z.of_nat (length (log s')) <= u64_max -> inv s'.
Proof.
  intros Hinv E Hb. destruct a as [i ev|i weak| |]; cbn [act] in E.
  - case_match; [done|]. injection E as <-. by apply inv_begin_push.
  - destruct (pushes s !! i) as [[ev pc]|] eqn:Hi; [|done]. destruct (push_step weak (sq s) ev pc) as [[q r]|e|] eqn:Ep; [|done..].
    injection E as <-. by eapply push_inv.
  - destruct (popping s) eqn:Hp; [done|]. injection E as <-. apply inv_move_pop; [done| |by intros ? [= <-]].
    intros p [ev Hr]. by rewrite Hp in Hr.
  - destruct (popping s) as [pc|] eqn:Hp; [|done]. destruct (pop_step (sq s) pc) as [[q [pc'|r]]|e|] eqn:Ep; [| |done..]; injection E as <-.
    + by apply (pop_inv s pc q (inl pc')).
    + by apply (pop_inv s pc q (inr r)).
Qed.

Lemma acts_log l : forall s s', acts l s = Some s' -> (length (log s) <= length (log s'))%nat.
Proof.
  induction l as [|a l IH]; intros s s' E; cbn [acts] in E; [by injection E as <-|].
  apply bind_Some in E as (s1 & E1 & E2). apply act_log in E1 as [x E1]. apply IH in E2. rewrite E1, length_app in E2. lia.
Qed.

Lemma acts_inv l : forall s s', inv s -> acts l s = Some s' -> Z.of_nat (length (log s')) <= u64_max -> inv s'.
Proof.
  induction l as [|a l IH]; intros s s' Hinv E Hb; cbn [acts] in E; [by injection E as <-|].
  apply bind_Some in E as (s1 & E1 & E2). pose proof (acts_log l s1 s' E2) as Hm. apply (IH s1); [|done|done].
  apply (act_inv a s); [done|done|lia].
Qed.

(** Reached from the empty queue, before the counters overflow. *)
Definition reached (s : Sys) : Prop := (exists l, acts l start = Some s) /\ Z.of_nat (length (log s)) <= u64_max.

Lemma reached_inv s : reached s -> inv s.
Proof. intros [[l E] Hb]. by apply (acts_inv l start); [apply start_inv|..]. Qed.

(** ** The queue is a bounded FIFO *)

(** What a step does to the contents. *)
Inductive obs := Enqueue (ev : InputEvent) | Dequeue (ev : InputEvent) | Empty | Silent.

Definition observe (a : action) (s : Sys) : obs :=
  match a with
  | Run i weak =>
      match pushes s !! i with
      | Some (ev, P_cas h) => if negb weak && (head (sq s) =? h) then Enqueue ev else Silent
      | _ => Silent
      end
  | RunPop =>
      match popping s with
      | Some (C_head t) => if t =? head (sq s) then Empty else Silent
      | Some (C_store _ ev) => Dequeue ev
      | _ => Silent
      end
  | _ => Silent
  end.

Definition fifo (l : list InputEvent) (o : obs) (l' : list InputEvent) : Prop :=
  match o with
  | Enqueue ev => Z.of_nat (length l) < CAPACITY /\ l' = l ++ [ev]
  | Dequeue ev => l = ev :: l'
  | Empty => l = [] /\ l' = []
  | Silent => l' = l
  end.

Lemma contents_length s : inv s -> Z.of_nat (length (contents s)) = head (sq s) - tail (sq s).
Proof. intros Hinv. pose proof (iv_head s Hinv). pose proof (iv_tail s Hinv). pose proof (iv_size s Hinv). unfold contents. rewrite length_drop. lia. Qed.

Lemma fifo_push s i weak s' : inv s -> act (Run i weak) s = Some s' -> Z.of_nat (length (log s')) <= u64_max ->
  fifo (contents s) (observe (Run i weak) s) (contents s').
Proof.
  intros Hinv E Hb. pose proof (contents_length s Hinv) as Hcl. pose proof (iv_size s Hinv). pose proof (iv_head s Hinv). pose proof (iv_tail s Hinv).
  cbn [act observe] in *. destruct (pushes s !! i) as [[ev pc]|] eqn:Hi; [|done].
  destruct (push_step weak (sq s) ev pc) as [[q r]|e|] eqn:Ep; [|done..]. injection E as <-. unfold contents. cbn [log popped] in *.
  destruct pc as [|h|h|p|p|p]; cbn [push_step claimed] in *; rewrite ?app_nil_r; try done.
  - destruct (u64_add h 1); cbn [res_bind] in Ep; [|done..].
    destruct (negb weak && (head (sq s) =? h)) eqn:Ec; injection Ep as <- <-; cbn [fifo]; rewrite ?app_nil_r; [|done].
    apply andb_true_iff in Ec as [_ Ec%Z.eqb_eq]. destruct (iv_push s Hinv i ev _ Hi) as [_ Hh].
    split; [unfold contents, CAPACITY in *; lia|]. by rewrite drop_app_le by lia.
Qed.

Lemma fifo_pop s s' : inv s -> act RunPop s = Some s' -> fifo (contents s) (observe RunPop s) (contents s').
Proof.
  intros Hinv E. pose proof (contents_length s Hinv) as Hcl. pose proof (iv_tail s Hinv). cbn [act observe] in *.
  destruct (popping s) as [pc|] eqn:Hp; [|done]. pose proof (iv_pop s Hinv pc Hp) as Hok.
  destruct pc as [|t|t|t|t ev|t ev]; cbn [pop_step] in E; try by injection E as <-.
  - cbn [pop_ok] in Hok. destruct (Z.eqb_spec t (head (sq s))) as [Et|Et]; injection E as <-; [|done]. unfold contents in *. cbn [log popped option_list fifo].
    rewrite app_nil_r. split; apply nil_length_inv; lia.
  - destruct (u64_add t 1); cbn [res_bind] in E; [|done..]. injection E as <-. destruct Hok as (-> & _ & _ & Hev). cbn [fifo option_list].
    unfold contents. cbn [log popped]. rewrite length_app. cbn [length]. unfold logged in Hev.
    replace (Z.to_nat (tail (sq s))) with (length (popped s)) in Hev by lia. rewrite Nat.add_1_r. by apply drop_S.
Qed.

(** C10: With any number of producers and one consumer interleaved at every
    access, the queue behaves as a FIFO of at most 256 events: a push appends its
    event when its exchange succeeds, a pop returns the first event or sees the
    queue empty, every other step leaves the contents alone, and what the pops
    have returned is a prefix of what was pushed. *)
Theorem queue_is_fifo s a s' : reached s -> act a s = Some s' -> Z.of_nat (length (log s')) <= u64_max ->
  fifo (contents s) (observe a s) (contents s') /\ popped s' `prefix_of` log s' /\ Z.of_nat (length (contents s')) <= CAPACITY
  /\ queue_len (sq s') = Z.of_nat (length (contents s')).
Proof.
  intros Hr%reached_inv E Hb. pose proof (act_inv a s s' Hr E Hb) as Hinv'. pose proof (contents_length s' Hinv') as Hl.
  pose proof (iv_size s' Hinv'). pose proof (iv_head s' Hinv'). pose proof (iv_tail s' Hinv'). split; [|split; [|split]].
  - destruct a as [i ev|i weak| |].
    + cbn [act] in E. case_match; [done|]. by injection E as <-.
    + by apply fifo_push.
    + cbn [act] in E. case_match; [done|]. by injection E as <-.
    + by apply fifo_pop.
  - rewrite (iv_popped s' Hinv'). apply prefix_take.
  - unfold CAPACITY. lia.
  - unfold queue_len, wrapping_sub. rewrite Z.mod_small; unfold u64_max in *; lia.
Qed.

(** The event of a slot is never accessed by two threads at once: two pushes
    about to write, or a push about to write and the pop about to read, are at
    different slots. *)
Theorem queue_race_free s i ev p : reached s -> pushes s !! i = Some (ev, P_write p) ->
  (forall j ev' p', pushes s !! j = Some (ev', P_write p') -> j <> i -> slot_of p' <> slot_of p)
  /\ (forall t, popping s = Some (C_read t) -> slot_of t <> slot_of p).
Proof.
  intros Hinv%reached_inv Hi. pose proof (iv_size s Hinv). destruct (own_window s i ev _ p Hinv Hi eq_refl) as (Hw & _ & Hs). split.
  - intros j ev' p' Hj Hn. destruct (own_window s j ev' _ p' Hinv Hj eq_refl) as (Hw' & _). apply slot_of_ne; [|lia].
    intros ->. by destruct Hn; eapply (iv_own s Hinv j i).
  - intros t Ht. destruct (iv_pop s Hinv _ Ht) as (-> & _ & Hq & _). apply slot_of_ne; [|lia]. intros Et. rewrite Et in Hq. lia.
Qed.

(** ** Progress *)

Definition need (pc : Push) : nat := match pc with P_wait _ => 3 | P_write _ => 2 | P_publish _ => 1 | _ => 0 end.

Definition runs_of (i : nat) (l : list action) : nat := length (List.filter (fun a => match a with Run j _ => Nat.eqb j i | _ => false end) l).

(** The position has been published, or taken. *)
Definition settled (s : Sys) (t : Z) : Prop :=
  t < head (sq s) /\ forall i ev pc, pushes s !! i = Some (ev, pc) -> own pc <> Some t.

(** A push never waits for the consumer. *)
Lemma wait_free s i ev p weak : inv s -> pushes s !! i = Some (ev, P_wait p) -> push_step weak (sq s) ev (P_wait p) = Ok (sq s, inl (P_write p)).
Proof. intros Hinv Hi. destruct (own_window s i ev _ p Hinv Hi eq_refl) as (_ & _ & Hs). cbn [push_step]. by rewrite (proj2 (Z.eqb_eq _ _) Hs). Qed.

Lemma act_head a s s' : inv s -> act a s = Some s' -> Z.of_nat (length (log s')) <= u64_max -> head (sq s) <= head (sq s').
Proof.
  intros Hinv E Hb. rewrite (iv_head s Hinv), (iv_head s' (act_inv a s s' Hinv E Hb)). apply act_log in E as [l ->]. rewrite length_app. lia.
Qed.

(** Only an exchange makes a push own a position, the one at [head]. *)
Lemma new_owner a s s' i ev pc p : inv s -> act a s = Some s' -> pushes s' !! i = Some (ev, pc) -> own pc = Some p ->
  (exists pc0, pushes s !! i = Some (ev, pc0) /\ own pc0 = Some p) \/ p = head (sq s).
Proof.
  intros Hinv E Hi Ho. destruct a as [j e|j weak| |]; cbn [act] in E.
  - case_match; [done|]. injection E as <-. cbn [pushes] in Hi.
    apply lookup_insert_Some in Hi as [[-> [= <- <-]]|[_ Hi]]; [done|left; by exists pc].
  - destruct (pushes s !! j) as [[e pc0]|] eqn:Hj; [|done]. destruct (push_step weak (sq s) e pc0) as [[q r]|?|] eqn:Ep; [|done..].
    injection E as <-. cbn [pushes] in Hi. destruct r as [pc1|b].
    + apply lookup_insert_Some in Hi as [[<- [= <- <-]]|[_ Hi]]; [|left; by exists pc].
      destruct pc0 as [|h|h|p0|p0|p0]; cbn [push_step] in Ep; try done.
      * by injection Ep as <- <-.
      * case_match; [done|]. by injection Ep as <- <-.
      * destruct (u64_add h 1); cbn [res_bind] in Ep; [|done..]. destruct (negb weak && (head (sq s) =? h)) eqn:Ec; injection Ep as <- <-; [|done].
        right. apply andb_true_iff in Ec as [_ Ec%Z.eqb_eq]. cbn [own] in Ho. congruence.
      * injection Ep as <- <-. left. exists (P_wait p0). split; [done|]. by case_match.
      * injection Ep as <- <-. left. by exists (P_write p0).
    + apply lookup_delete_Some in Hi as [_ Hi]. left. by exists pc.
  - case_match; [done|]. injection E as <-. left. by exists pc.
  - destruct (popping s) as [c|]; [|done]. destruct (pop_step (sq s) c) as [[q [pc'|r]]|e|]; [| |done..]; injection E as <-; left; by exists pc.
Qed.

Lemma settled_step a s s' t : inv s -> act a s = Some s' -> Z.of_nat (length (log s')) <= u64_max -> settled s t -> settled s' t.
Proof.
  intros Hinv E Hb [Ht Hs]. split; [pose proof (act_head a s s' Hinv E Hb); lia|]. intros i ev pc Hi Ho.
  destruct (new_owner a s s' i ev pc t Hinv E Hi Ho) as [(pc0 & Hi0 & Ho0)| ->]; [by eapply Hs|lia].
Qed.

(** The owner of a position publishes it in at most three of its steps. *)
Lemma owner_step a s s' i ev pc t : inv s -> act a s = Some s' -> Z.of_nat (length (log s')) <= u64_max ->
  pushes s !! i = Some (ev, pc) -> own pc = Some t ->
  settled s' t \/ exists pc', pushes s' !! i = Some (ev, pc') /\ own pc' = Some t /\ (need pc' + runs_of i [a] <= need pc)%nat.
Proof.
  intros Hinv E Hb Hi Ho. destruct (own_window s i ev pc t Hinv Hi Ho) as (Hw & _ & _).
  destruct a as [j e|j weak| |]; cbn [act] in E.
  - right. destruct (pushes s !! j) eqn:Hj; [done|]. injection E as <-. exists pc. cbn [pushes].
    rewrite lookup_insert_ne by congruence. split_and!; [done|done|]. cbn [runs_of List.filter length]. lia.
  - destruct (decide (j = i)) as [->|Hn].
    + rewrite Hi in E. pose proof (iv_push s Hinv i ev pc Hi) as Hok.
      assert (runs_of i [Run i weak] = 1%nat) as -> by (unfold runs_of; cbn [List.filter]; by rewrite Nat.eqb_refl).
      destruct pc as [|h|h|p|p|p]; cbn [own] in Ho; try done; injection Ho as ->.
      * rewrite (wait_free s i ev t weak Hinv Hi) in E. injection E as <-. right. exists (P_write t). cbn [pushes]. by rewrite lookup_insert_eq.
      * cbn [push_step] in E. injection E as <-. right. exists (P_publish t). cbn [pushes]. by rewrite lookup_insert_eq.
      * cbn [push_step] in E. injection E as <-. left. split; [cbn [sq set_slot head]; lia|]. cbn [pushes]. intros k e q Hk Hq.
        apply lookup_delete_Some in Hk as [Hk1 Hk]. destruct Hk1. by eapply (iv_own s Hinv i k).
    + right. destruct (pushes s !! j) as [[e q]|] eqn:Hj; [|done]. destruct (push_step weak (sq s) e q) as [[q' r]|?|]; [|done..]. injection E as <-.
      exists pc. cbn [pushes]. split; [destruct r; [by rewrite lookup_insert_ne|by rewrite lookup_delete_ne]|]. split; [done|].
      unfold runs_of. cbn [List.filter]. by rewrite (proj2 (Nat.eqb_neq j i) Hn), Nat.add_0_r.
  - right. case_match; [done|]. injection E as <-. exists pc. split_and!; [done|done|]. cbn [runs_of List.filter length]. lia.
  - right. exists pc. split; [|split; [done|cbn [runs_of List.filter length]; lia]].
    destruct (popping s) as [c|]; [|done]. destruct (pop_step (sq s) c) as [[q [pc'|r]]|e|]; [| |done..]; by injection E as <-.
Qed.

Lemma owner_settles l i ev t : forall s s' pc, inv s -> acts l s = Some s' -> Z.of_nat (length (log s')) <= u64_max ->
  (settled s t \/ (pushes s !! i = Some (ev, pc) /\ own pc = Some t /\ (need pc <= runs_of i l)%nat)) -> settled s' t.
Proof.
  induction l as [|a l IH]; intros s s' pc Hinv E Hb Hs; cbn [acts] in E.
  { injection E as <-. destruct Hs as [Hs|(_ & Ho & Hn)]; [done|]. exfalso. destruct pc; cbn [own need runs_of List.filter length] in *; try done; lia. }
  apply bind_Some in E as (s1 & E1 & E2). assert (Z.of_nat (length (log s1)) <= u64_max) as Hb1 by (pose proof (acts_log l s1 s' E2); lia).
  assert (inv s1) as Hinv1 by (by eapply act_inv). destruct Hs as [Hs|(Hi & Ho & Hn)].
  - apply (IH s1 s' pc); [done|done|done|]. left. exact (settled_step a s s1 t Hinv E1 Hb1 Hs).
  - assert (runs_of i (a :: l) = runs_of i [a] + runs_of i l)%nat as Er.
    { unfold runs_of. rewrite <- length_app, <- List.filter_app. done. }
    destruct (owner_step a s s1 i ev pc t Hinv E1 Hb1 Hi Ho) as [Hs|(pc' & Hi' & Ho' & Hn')].
    + apply (IH s1 s' pc); [done|done|done|by left].
    + apply (IH s1 s' pc'); [done|done|done|]. right. split_and!; [done|done|lia].
Qed.

(** C30: A push that has claimed a slot never waits: the consumer has released it.
    A pop waits only for one producer, the owner of its slot, and whatever the
    threads do, once that producer has run three more steps the pop reads its
    event. *)
Theorem queue_progress s : reached s ->
  (forall i ev p weak, pushes s !! i = Some (ev, P_wait p) -> push_step weak (sq s) ev (P_wait p) = Ok (sq s, inl (P_write p)))
  /\ (forall t, popping s = Some (C_wait t) -> pop_step (sq s) (C_wait t) = Ok (sq s, inl (C_read t))
       \/ exists i, forall l s', acts l s = Some s' -> Z.of_nat (length (log s')) <= u64_max -> (3 <= runs_of i l)%nat ->
            popping s' = Some (C_wait t) -> pop_step (sq s') (C_wait t) = Ok (sq s', inl (C_read t))).
Proof.
  intros Hinv%reached_inv. split; [intros i ev p weak; by apply wait_free|]. intros t Ht.
  assert (forall s', inv s' -> popping s' = Some (C_wait t) -> settled s' t -> pop_step (sq s') (C_wait t) = Ok (sq s', inl (C_read t))) as Hdone.
  { intros s' Hi' Hp [_ Hs]. pose proof (iv_pop s' Hi' _ Hp) as [-> Hlt]. cbn [pop_step].
    destruct (iv_used s' Hi' (tail (sq s')) ltac:(lia)) as [(i & ev & pc & Hi & Ho)|[[Hq _]|[ev Hr]]].
    - by destruct (Hs i ev pc Hi).
    - by rewrite (proj2 (Z.eqb_eq _ _) Hq).
    - by rewrite Hp in Hr. }
  pose proof (iv_pop s Hinv _ Ht) as [Et Hlt].
  destruct (iv_used s Hinv t ltac:(lia)) as [(i & ev & pc & Hi & Ho)|[[Hq _]|[ev Hr]]]; [right|left|by rewrite Ht in Hr].
  - exists i. intros l s' E Hb Hn Hp. apply Hdone; [by eapply acts_inv|done|]. apply (owner_settles l i ev t s s' pc); [done|done|done|].
    right. split_and!; [done|done|]. destruct pc; cbn [need]; lia.
  - cbn [pop_step]. by rewrite (proj2 (Z.eqb_eq _ _) Hq).
Qed.

End Run.

(** ** Examples *)

Definition ev1 : InputEvent := new_event 1 Key 30 1.
Definition ev2 : InputEvent := new_event 2 Mouse 0 5.

Definition after (l : list action) : Sys := default start (acts (H := true) l start).

Lemma after_reached l : (if acts (H := true) l start is Some s then bool_decide (length (log s) <= 4)%nat else false) = true ->
  reached (H := true) (after l).
Proof.
  unfold reached, after. destruct (acts l start) as [s|] eqn:E; [|done]. intros Hl%bool_decide_eq_true.
  split; [by exists l|]. cbn [default id]. change (default start (Some s)) with s. unfold u64_max. lia.
Qed.

(** Two pushes have claimed positions 0 and 1, and a pop waits for the first. *)
Definition two_claimed : list action :=
  [Begin 0 ev1; Run 0 false; Run 0 false; Run 0 false; Begin 7 ev2; Run 7 false; Run 7 false; Run 7 false; Run 7 false; Run 0 false;
   BeginPop; RunPop; RunPop].

Definition before_claim : Sys := after (take 3 two_claimed).
Definition after_claim : Sys := after (take 4 two_claimed).

Lemma queue_is_fifo_witness : observe (Run 0 false) before_claim = Enqueue ev1
  /\ fifo (contents before_claim) (observe (Run 0 false) before_claim) (contents after_claim).
Proof.
  split; [vm_compute; reflexivity|].
  assert (reached (H := true) before_claim) as Hr by (apply after_reached; vm_compute; reflexivity).
  assert (act (H := true) (Run 0 false) before_claim = Some after_claim) as Ea by (vm_compute; reflexivity).
  assert (Z.of_nat (length (log after_claim)) <= u64_max) as Hb by (vm_compute; congruence).
  exact (proj1 (queue_is_fifo (H := true) before_claim (Run 0 false) after_claim Hr Ea Hb)).
Defined.

Lemma queue_race_free_witness : pushes (after two_claimed) !! 7%nat = Some (ev2, P_write 1) /\ slot_of 1 <> slot_of 0.
Proof.
  assert (pushes (after two_claimed) !! 7%nat = Some (ev2, P_write 1)) as E7 by (vm_compute; reflexivity).
  assert (pushes (after two_claimed) !! 0%nat = Some (ev1, P_write 0)) as E0 by (vm_compute; reflexivity).
  assert (reached (H := true) (after two_claimed)) as Hr by (apply after_reached; vm_compute; reflexivity).
  split; [exact E7|]. intros E.
  exact (proj1 (queue_race_free (H := true) (after two_claimed) 7 ev2 1 Hr E7) 0%nat ev1 0 E0 ltac:(discriminate) (eq_sym E)).
Defined.

Lemma queue_progress_witness : popping (after two_claimed) = Some (C_wait 0)
  /\ push_step (H := true) false (sq after_claim) ev1 (P_wait 0) = Ok (sq after_claim, inl (P_write 0)).
Proof.
  split; [vm_compute; reflexivity|].
  assert (reached (H := true) after_claim) as Hr by (apply after_reached; vm_compute; reflexivity).
  assert (pushes after_claim !! 0%nat = Some (ev1, P_wait 0)) as E0 by (vm_compute; reflexivity).
  exact (proj1 (queue_progress (H := true) after_claim Hr) 0%nat ev1 0 false E0).
Defined.

(** A push may report a full queue that is empty: between its loads of [head] and
    [tail] another event went through, and the difference wraps. *)
Theorem push_full_when_empty : exists s ev, reached (H := true) s /\ contents s = [] /\ pushes s !! 0%nat = Some (ev, P_tail 0)
  /\ push_step (H := true) false (sq s) ev (P_tail 0) = Ok (sq s, inr false).
Proof.
  exists (after ([Begin 0 ev1; Run 0 false; Begin 1 ev2] ++ replicate 6 (Run 1 false) ++ [BeginPop] ++ replicate 6 RunPop)), ev1.
  split; [apply after_reached; vm_compute; reflexivity|]. vm_compute. done.
Qed.
