(* ===== verification/Keymap.v ===== *)
(** * Key codes and the keymap

    Model of kernel/src/input/keycode.rs and keymap.rs.  Characters are their code
    points. *)

From S2P Require Import Prelude InputQueue.
Local Open Scope Z_scope.

Module KeyCode.
Inductive t : Set :=
  | Escape | Digit1 | Digit2 | Digit3 | Digit4 | Digit5 | Digit6 | Digit7 | Digit8 | Digit9 | Digit0 | Minus
  | Equal | Backspace | Tab | Q | W | E | R | T | Y | U | I | O
  | P | LeftBrace | RightBrace | Enter | ControlLeft | A | S | D | F | G | H | J
  | K | L | Semicolon | Apostrophe | Grave | ShiftLeft | Backslash | Z | X | C | V | B
  | N | M | Comma | Dot | Slash | ShiftRight | KeypadMultiply | AltLeft | Space | CapsLock | F1 | F2
  | F3 | F4 | F5 | F6 | F7 | F8 | F9 | F10 | NumLock | ScrollLock | Keypad7 | Keypad8
  | Keypad9 | KeypadSubtract | Keypad4 | Keypad5 | Keypad6 | KeypadAdd | Keypad1 | Keypad2 | Keypad3 | Keypad0 | KeypadDecimal | F11
  | F12 | KeypadEnter | ControlRight | KeypadDivide | PrintScreen | AltRight | Home | ArrowUp | PageUp | ArrowLeft | ArrowRight | End
  | ArrowDown | PageDown | Insert | Delete | Pause | SuperLeft | SuperRight | Menu.
End KeyCode.

Definition key_code (k : KeyCode.t) : Z :=
  match k with
  | KeyCode.Escape => 1 | KeyCode.Digit1 => 2 | KeyCode.Digit2 => 3 | KeyCode.Digit3 => 4 | KeyCode.Digit4 => 5
  | KeyCode.Digit5 => 6 | KeyCode.Digit6 => 7 | KeyCode.Digit7 => 8 | KeyCode.Digit8 => 9 | KeyCode.Digit9 => 10
  | KeyCode.Digit0 => 11 | KeyCode.Minus => 12 | KeyCode.Equal => 13 | KeyCode.Backspace => 14 | KeyCode.Tab => 15
  | KeyCode.Q => 16 | KeyCode.W => 17 | KeyCode.E => 18 | KeyCode.R => 19 | KeyCode.T => 20
  | KeyCode.Y => 21 | KeyCode.U => 22 | KeyCode.I => 23 | KeyCode.O => 24 | KeyCode.P => 25
  | KeyCode.LeftBrace => 26 | KeyCode.RightBrace => 27 | KeyCode.Enter => 28 | KeyCode.ControlLeft => 29 | KeyCode.A => 30
  | KeyCode.S => 31 | KeyCode.D => 32 | KeyCode.F => 33 | KeyCode.G => 34 | KeyCode.H => 35
  | KeyCode.J => 36 | KeyCode.K => 37 | KeyCode.L => 38 | KeyCode.Semicolon => 39 | KeyCode.Apostrophe => 40
  | KeyCode.Grave => 41 | KeyCode.ShiftLeft => 42 | KeyCode.Backslash => 43 | KeyCode.Z => 44 | KeyCode.X => 45
  | KeyCode.C => 46 | KeyCode.V => 47 | KeyCode.B => 48 | KeyCode.N => 49 | KeyCode.M => 50
  | KeyCode.Comma => 51 | KeyCode.Dot => 52 | KeyCode.Slash => 53 | KeyCode.ShiftRight => 54 | KeyCode.KeypadMultiply => 55
  | KeyCode.AltLeft => 56 | KeyCode.Space => 57 | KeyCode.CapsLock => 58 | KeyCode.F1 => 59 | KeyCode.F2 => 60
  | KeyCode.F3 => 61 | KeyCode.F4 => 62 | KeyCode.F5 => 63 | KeyCode.F6 => 64 | KeyCode.F7 => 65
  | KeyCode.F8 => 66 | KeyCode.F9 => 67 | KeyCode.F10 => 68 | KeyCode.NumLock => 69 | KeyCode.ScrollLock => 70
  | KeyCode.Keypad7 => 71 | KeyCode.Keypad8 => 72 | KeyCode.Keypad9 => 73 | KeyCode.KeypadSubtract => 74 | KeyCode.Keypad4 => 75
  | KeyCode.Keypad5 => 76 | KeyCode.Keypad6 => 77 | KeyCode.KeypadAdd => 78 | KeyCode.Keypad1 => 79 | KeyCode.Keypad2 => 80
  | KeyCode.Keypad3 => 81 | KeyCode.Keypad0 => 82 | KeyCode.KeypadDecimal => 83 | KeyCode.F11 => 87 | KeyCode.F12 => 88
  | KeyCode.KeypadEnter => 96 | KeyCode.ControlRight => 97 | KeyCode.KeypadDivide => 98 | KeyCode.PrintScreen => 99 | KeyCode.AltRight => 100
  | KeyCode.Home => 102 | KeyCode.ArrowUp => 103 | KeyCode.PageUp => 104 | KeyCode.ArrowLeft => 105 | KeyCode.ArrowRight => 106
  | KeyCode.End => 107 | KeyCode.ArrowDown => 108 | KeyCode.PageDown => 109 | KeyCode.Insert => 110 | KeyCode.Delete => 111
  | KeyCode.Pause => 119 | KeyCode.SuperLeft => 125 | KeyCode.SuperRight => 126 | KeyCode.Menu => 127
  end.

Definition from_code (c : Z) : option KeyCode.t :=
  match c with
  | 1 => Some KeyCode.Escape | 2 => Some KeyCode.Digit1 | 3 => Some KeyCode.Digit2 | 4 => Some KeyCode.Digit3
  | 5 => Some KeyCode.Digit4 | 6 => Some KeyCode.Digit5 | 7 => Some KeyCode.Digit6 | 8 => Some KeyCode.Digit7
  | 9 => Some KeyCode.Digit8 | 10 => Some KeyCode.Digit9 | 11 => Some KeyCode.Digit0 | 12 => Some KeyCode.Minus
  | 13 => Some KeyCode.Equal | 14 => Some KeyCode.Backspace | 15 => Some KeyCode.Tab | 16 => Some KeyCode.Q
  | 17 => Some KeyCode.W | 18 => Some KeyCode.E | 19 => Some KeyCode.R | 20 => Some KeyCode.T
  | 21 => Some KeyCode.Y | 22 => Some KeyCode.U | 23 => Some KeyCode.I | 24 => Some KeyCode.O
  | 25 => Some KeyCode.P | 26 => Some KeyCode.LeftBrace | 27 => Some KeyCode.RightBrace | 28 => Some KeyCode.Enter
  | 29 => Some KeyCode.ControlLeft | 30 => Some KeyCode.A | 31 => Some KeyCode.S | 32 => Some KeyCode.D
  | 33 => Some KeyCode.F | 34 => Some KeyCode.G | 35 => Some KeyCode.H | 36 => Some KeyCode.J
  | 37 => Some KeyCode.K | 38 => Some KeyCode.L | 39 => Some KeyCode.Semicolon | 40 => Some KeyCode.Apostrophe
  | 41 => Some KeyCode.Grave | 42 => Some KeyCode.ShiftLeft | 43 => Some KeyCode.Backslash | 44 => Some KeyCode.Z
  | 45 => Some KeyCode.X | 46 => Some KeyCode.C | 47 => Some KeyCode.V | 48 => Some KeyCode.B
  | 49 => Some KeyCode.N | 50 => Some KeyCode.M | 51 => Some KeyCode.Comma | 52 => Some KeyCode.Dot
  | 53 => Some KeyCode.Slash | 54 => Some KeyCode.ShiftRight | 55 => Some KeyCode.KeypadMultiply | 56 => Some KeyCode.AltLeft
  | 57 => Some KeyCode.Space | 58 => Some KeyCode.CapsLock | 59 => Some KeyCode.F1 | 60 => Some KeyCode.F2
  | 61 => Some KeyCode.F3 | 62 => Some KeyCode.F4 | 63 => Some KeyCode.F5 | 64 => Some KeyCode.F6
  | 65 => Some KeyCode.F7 | 66 => Some KeyCode.F8 | 67 => Some KeyCode.F9 | 68 => Some KeyCode.F10
  | 69 => Some KeyCode.NumLock | 70 => Some KeyCode.ScrollLock | 71 => Some KeyCode.Keypad7 | 72 => Some KeyCode.Keypad8
  | 73 => Some KeyCode.Keypad9 | 74 => Some KeyCode.KeypadSubtract | 75 => Some KeyCode.Keypad4 | 76 => Some KeyCode.Keypad5
  | 77 => Some KeyCode.Keypad6 | 78 => Some KeyCode.KeypadAdd | 79 => Some KeyCode.Keypad1 | 80 => Some KeyCode.Keypad2
  | 81 => Some KeyCode.Keypad3 | 82 => Some KeyCode.Keypad0 | 83 => Some KeyCode.KeypadDecimal | 87 => Some KeyCode.F11
  | 88 => Some KeyCode.F12 | 96 => Some KeyCode.KeypadEnter | 97 => Some KeyCode.ControlRight | 98 => Some KeyCode.KeypadDivide
  | 99 => Some KeyCode.PrintScreen | 100 => Some KeyCode.AltRight | 102 => Some KeyCode.Home | 103 => Some KeyCode.ArrowUp
  | 104 => Some KeyCode.PageUp | 105 => Some KeyCode.ArrowLeft | 106 => Some KeyCode.ArrowRight | 107 => Some KeyCode.End
  | 108 => Some KeyCode.ArrowDown | 109 => Some KeyCode.PageDown | 110 => Some KeyCode.Insert | 111 => Some KeyCode.Delete
  | 119 => Some KeyCode.Pause | 125 => Some KeyCode.SuperLeft | 126 => Some KeyCode.SuperRight | 127 => Some KeyCode.Menu
  | _ => None
  end.

(** ** The keymap *)

Record Keymap := mkKeymap { shift : bool; ctrl : bool; alt : bool; caps : bool; num : bool; scroll : bool; super_ : bool }.

Definition new_keymap : Keymap := mkKeymap false false false false false false false.

Definition letter (c : KeyCode.t) : option Z :=
  match c with
  | KeyCode.A => Some 97 | KeyCode.B => Some 98 | KeyCode.C => Some 99 | KeyCode.D => Some 100 | KeyCode.E => Some 101
  | KeyCode.F => Some 102 | KeyCode.G => Some 103 | KeyCode.H => Some 104 | KeyCode.I => Some 105 | KeyCode.J => Some 106
  | KeyCode.K => Some 107 | KeyCode.L => Some 108 | KeyCode.M => Some 109 | KeyCode.N => Some 110 | KeyCode.O => Some 111
  | KeyCode.P => Some 112 | KeyCode.Q => Some 113 | KeyCode.R => Some 114 | KeyCode.S => Some 115 | KeyCode.T => Some 116
  | KeyCode.U => Some 117 | KeyCode.V => Some 118 | KeyCode.W => Some 119 | KeyCode.X => Some 120 | KeyCode.Y => Some 121
  | KeyCode.Z => Some 122
  | _ => None
  end.

Definition to_ascii_uppercase (b : Z) : Z := if (97 <=? b) && (b <=? 122) then b - 32 else b.

Definition keypad_digit (k : Keymap) (ch : Z) : option Z := if negb (eqb (num k) (shift k)) then Some ch else None.

Definition char_for (k : Keymap) (c : KeyCode.t) : option Z :=
  match letter c with
  | Some lower =>
      if ctrl k then Some (lower - 97 + 1)
      else if negb (eqb (shift k) (caps k)) then Some (to_ascii_uppercase lower) else Some lower
  | None =>
      match c with
      | KeyCode.Space => Some 32
      | KeyCode.Enter | KeyCode.KeypadEnter => Some 10
      | KeyCode.Tab => Some 9
      | KeyCode.Backspace => Some 8
      | KeyCode.Escape => Some 27
      | KeyCode.Delete => Some 127
      | KeyCode.Digit1 => Some (if shift k then 33 else 49)
      | KeyCode.Digit2 => Some (if shift k then 64 else 50)
      | KeyCode.Digit3 => Some (if shift k then 35 else 51)
      | KeyCode.Digit4 => Some (if shift k then 36 else 52)
      | KeyCode.Digit5 => Some (if shift k then 37 else 53)
      | KeyCode.Digit6 => Some (if shift k then 94 else 54)
      | KeyCode.Digit7 => Some (if shift k then 38 else 55)
      | KeyCode.Digit8 => Some (if shift k then 42 else 56)
      | KeyCode.Digit9 => Some (if shift k then 40 else 57)
      | KeyCode.Digit0 => Some (if shift k then 41 else 48)
      | KeyCode.Minus => Some (if shift k then 95 else 45)
      | KeyCode.Equal => Some (if shift k then 43 else 61)
      | KeyCode.LeftBrace => Some (if shift k then 123 else 91)
      | KeyCode.RightBrace => Some (if shift k then 125 else 93)
      | KeyCode.Backslash => Some (if shift k then 124 else 92)
      | KeyCode.Semicolon => Some (if shift k then 58 else 59)
      | KeyCode.Apostrophe => Some (if shift k then 34 else 39)
      | KeyCode.Grave => Some (if shift k then 126 else 96)
      | KeyCode.Comma => Some (if shift k then 60 else 44)
      | KeyCode.Dot => Some (if shift k then 62 else 46)
      | KeyCode.Slash => Some (if shift k then 63 else 47)
      | KeyCode.Keypad0 => keypad_digit k 48
      | KeyCode.Keypad1 => keypad_digit k 49
      | KeyCode.Keypad2 => keypad_digit k 50
      | KeyCode.Keypad3 => keypad_digit k 51
      | KeyCode.Keypad4 => keypad_digit k 52
      | KeyCode.Keypad5 => keypad_digit k 53
      | KeyCode.Keypad6 => keypad_digit k 54
      | KeyCode.Keypad7 => keypad_digit k 55
      | KeyCode.Keypad8 => keypad_digit k 56
      | KeyCode.Keypad9 => keypad_digit k 57
      | KeyCode.KeypadDecimal => keypad_digit k 46
      | KeyCode.KeypadDivide => keypad_digit k 47
      | KeyCode.KeypadMultiply => keypad_digit k 42
      | KeyCode.KeypadSubtract => keypad_digit k 45
      | KeyCode.KeypadAdd => keypad_digit k 43
      | _ => None
      end
  end.

Definition feed (k : Keymap) (ev : InputEvent) : Keymap * option Z :=
  if bool_decide (type_ ev = Key) then
    match from_code (code ev) with
    | None => (k, None)
    | Some c =>
        let pressed := negb (value ev =? 0) in
        match c with
        | KeyCode.ShiftLeft | KeyCode.ShiftRight => (mkKeymap pressed (ctrl k) (alt k) (caps k) (num k) (scroll k) (super_ k), None)
        | KeyCode.ControlLeft | KeyCode.ControlRight => (mkKeymap (shift k) pressed (alt k) (caps k) (num k) (scroll k) (super_ k), None)
        | KeyCode.AltLeft | KeyCode.AltRight => (mkKeymap (shift k) (ctrl k) pressed (caps k) (num k) (scroll k) (super_ k), None)
        | KeyCode.SuperLeft | KeyCode.SuperRight => (mkKeymap (shift k) (ctrl k) (alt k) (caps k) (num k) (scroll k) pressed, None)
        | KeyCode.CapsLock => (mkKeymap (shift k) (ctrl k) (alt k) (if pressed then negb (caps k) else caps k) (num k) (scroll k) (super_ k), None)
        | KeyCode.NumLock => (mkKeymap (shift k) (ctrl k) (alt k) (caps k) (if pressed then negb (num k) else num k) (scroll k) (super_ k), None)
        | KeyCode.ScrollLock => (mkKeymap (shift k) (ctrl k) (alt k) (caps k) (num k) (if pressed then negb (scroll k) else scroll k) (super_ k), None)
        | _ => if negb pressed then (k, None) else (k, char_for k c)
        end
    end
  else (k, None).

(** ** Correctness *)

(** The codes of events and the keys are in bijection. *)
Theorem from_code_exact c k : from_code c = Some k <-> key_code k = c.
Proof.
  split; [|by intros <-; destruct k].
  intros E. destruct c as [|c|c]; try done. do 7 (try (destruct c as [c|c|]; cbn in E; try done)); by injection E as <-.
Qed.

Definition press (k : KeyCode.t) : InputEvent := new_event 1 Key (key_code k) 1.
Definition release (k : KeyCode.t) : InputEvent := new_event 1 Key (key_code k) 0.
Definition repeat_ (k : KeyCode.t) : InputEvent := new_event 1 Key (key_code k) 2.

(** The characters of a sequence of events. *)
Fixpoint typed (m : Keymap) (l : list InputEvent) : list Z :=
  match l with [] => [] | e :: l => let '(m, c) := feed m e in option_list c ++ typed m l end.

(** *** The layout as rows of keys *)

(** Rows of keys with consecutive codes, without and with Shift. *)
Definition rows : list (Z * list Z * list Z) :=
  [(2, bytes_of_string "1234567890-=", bytes_of_string "!@#$%^&*()_+");
   (16, bytes_of_string "qwertyuiop[]", bytes_of_string "QWERTYUIOP{}");
   (30, bytes_of_string "asdfghjkl;'`", bytes_of_string "ASDFGHJKL:" ++ 34 :: bytes_of_string "~");
   (43, bytes_of_string "\zxcvbnm,./", bytes_of_string "|ZXCVBNM<>?")].

Definition keypad : list (Z * list Z) := [(71, bytes_of_string "789-456+1230."); (55, bytes_of_string "*"); (98, bytes_of_string "/")].

Definition control_keys : list (Z * Z) := [(57, 32); (28, 10); (96, 10); (15, 9); (14, 8); (1, 27); (111, 127)].

Definition in_row (first : Z) (row : list Z) (c : Z) : option Z := if first <=? c then row !! Z.to_nat (c - first) else None.

Fixpoint first_some {A B} (f : A -> option B) (l : list A) : option B :=
  match l with [] => None | x :: l => match f x with Some y => Some y | None => first_some f l end end.

(** The character of the key with code [c]. *)
Definition layout (shift caps ctrl num : bool) (c : Z) : option Z :=
  match first_some (fun r => in_row r.1.1 r.1.2 c) rows, first_some (fun r => in_row r.1.1 r.2 c) rows with
  | Some plain, Some shifted =>
      if (97 <=? plain) && (plain <=? 122) then
        if ctrl then Some (Z.land plain 31) else Some (if xorb shift caps then shifted else plain)
      else Some (if shift then shifted else plain)
  | _, _ =>
      match first_some (fun r => in_row r.1 r.2 c) keypad with
      | Some ch => if xorb num shift then Some ch else None
      | None => first_some (fun r => if r.1 =? c then Some r.2 else None) control_keys
      end
  end.

Definition key_event (codes : list Z) (e : InputEvent) : bool := bool_decide (type_ e = Key) && bool_decide (code e ∈ codes).

Definition down (e : InputEvent) : bool := negb (value e =? 0).

(** The last event of one of these keys was not a release. *)
Definition held (codes : list Z) (l : list InputEvent) : bool :=
  match last (List.filter (key_event codes) l) with Some e => down e | None => false end.

(** The key had an odd number of events that are not releases. *)
Definition toggled (c : Z) (l : list InputEvent) : bool :=
  Nat.odd (length (List.filter (fun e => key_event [c] e && down e) l)).

Definition fed (l : list InputEvent) : Keymap := fold_left (fun m e => (feed m e).1) l new_keymap.

Lemma held_snoc codes l e : held codes (l ++ [e]) = if key_event codes e then down e else held codes l.
Proof.
  unfold held. rewrite List.filter_app. cbn [List.filter]. destruct (key_event codes e); [by rewrite last_snoc|by rewrite app_nil_r].
Qed.

Lemma toggled_snoc c l e : toggled c (l ++ [e]) = if key_event [c] e && down e then negb (toggled c l) else toggled c l.
Proof.
  unfold toggled. rewrite List.filter_app, length_app. cbn [List.filter]. destruct (key_event [c] e && down e); cbn [length].
  - by rewrite Nat.add_1_r, Nat.odd_succ, <- Nat.negb_odd.
  - by rewrite Nat.add_0_r.
Qed.

Lemma key_event_code codes e k : type_ e = Key -> code e = key_code k -> key_event codes e = bool_decide (key_code k ∈ codes).
Proof. intros Ht Hc. unfold key_event. by rewrite bool_decide_true, Hc. Qed.

(** The modifiers and locks are a function of the events. *)
Lemma fed_state l : fed l = mkKeymap (held [42; 54] l) (held [29; 97] l) (held [56; 100] l)
  (toggled 58 l) (toggled 69 l) (toggled 70 l) (held [125; 126] l).
Proof.
  induction l as [|e l IH] using rev_ind; [done|]. unfold fed in *. rewrite fold_left_app, IH. cbn [fold_left].
  rewrite !held_snoc, !toggled_snoc. unfold feed. case_bool_decide as Ht.
  - destruct (from_code (code e)) as [k|] eqn:Ek.
    + apply from_code_exact in Ek. rewrite !(key_event_code _ e k) by done. unfold down. by destruct k, (value e =? 0).
    + assert (forall codes, Forall (fun c => is_Some (from_code c)) codes -> key_event codes e = false) as Hn.
      { intros codes Hf. unfold key_event. rewrite (bool_decide_false (code e ∈ codes)); [apply andb_false_r|]. intros Hin.
        rewrite Forall_forall in Hf. destruct (Hf _ Hin) as [? Hs]. congruence. }
      by rewrite !Hn by (repeat constructor; by eexists).
  - assert (forall codes, key_event codes e = false) as Hn by (intros codes; unfold key_event; by rewrite bool_decide_false).
    by rewrite !Hn.
Qed.

Lemma layout_small m c : 0 <= c < 128 ->
  match from_code c with Some k => snd (feed m (press k)) | None => None end = layout (shift m) (caps m) (ctrl m) (num m) c.
Proof.
  intros Hc. assert (forall b1 b2 b3 b4 b5 b6 b7, forallb (fun c => bool_decide (
    match from_code c with Some k => snd (feed (mkKeymap b1 b2 b3 b4 b5 b6 b7) (press k)) | None => None end = layout b1 b4 b2 b5 c))
    (seqZ 0 128) = true) as Hall by (intros [] [] [] [] [] [] []; vm_compute; reflexivity).
  destruct m as [b1 b2 b3 b4 b5 b6 b7]. specialize (Hall b1 b2 b3 b4 b5 b6 b7). rewrite forallb_forall in Hall.
  specialize (Hall c ltac:(apply list_elem_of_In, elem_of_seqZ; lia)). by apply bool_decide_eq_true in Hall.
Qed.

Lemma layout_none b1 b2 b3 b4 c : ~ 0 <= c < 128 -> layout b1 b2 b3 b4 c = None.
Proof.
  intros Hc. assert (forall first row, 0 <= first -> first + Z.of_nat (length row) <= 128 -> in_row first row c = None) as Hr.
  { intros first row H0 Hl. unfold in_row. case_match; [|done]. apply lookup_ge_None. lia. }
  unfold layout, rows, keypad, control_keys. cbn [first_some fst snd]. rewrite !Hr by (vm_compute; congruence).
  by rewrite !(proj2 (Z.eqb_neq _ _)) by lia.
Qed.

(** C40: the key map is the US layout.  After any sequence of events, a key event that
    is not a release gives the character of its key in the rows of the layout: letters
    in upper case if exactly one of Shift and Caps Lock is on, and as control
    characters while Control is held; other keys of the rows by Shift; the keypad if
    exactly one of Num Lock and Shift is on; space, enter, tab, backspace, escape and
    delete always; no other key gives one, and no other event.  A modifier is on if the
    last event of either of its two keys was not a release; a lock is on if its key had
    an odd number of events that are not releases. *)
Theorem keymap_layout l ev : snd (feed (fed l) ev) =
  if bool_decide (type_ ev = Key) && down ev
  then layout (held [42; 54] l) (toggled 58 l) (held [29; 97] l) (toggled 69 l) (code ev) else None.
Proof.
  rewrite fed_state. unfold feed. case_bool_decide as Ht; [|done]. cbn [andb].
  set (m := mkKeymap _ _ _ _ _ _ _). destruct (decide (0 <= code ev < 128)) as [Hc|Hc].
  - pose proof (layout_small m (code ev) Hc) as El. cbn [shift caps ctrl num m] in El. rewrite <- El. destruct (from_code (code ev)) as [k|]; [|by case_match].
    unfold down. destruct (value ev =? 0); cbn [negb]; [by destruct k|]. by destruct k.
  - rewrite (layout_none _ _ _ _ (code ev) Hc). destruct (from_code (code ev)) as [k|] eqn:Ek; [|by case_match].
    apply from_code_exact in Ek. destruct k; cbn in Ek; lia.
Qed.

(** Releasing one Shift key ends the effect of the other, which is still held. *)
Theorem keymap_two_shifts : typed new_keymap
  [press KeyCode.ShiftLeft; press KeyCode.ShiftRight; release KeyCode.ShiftRight; press KeyCode.A] = [97].
Proof. reflexivity. Qed.

(** Holding CapsLock switches it at every repeat. *)
Theorem keymap_caps_repeats : typed new_keymap [press KeyCode.CapsLock; repeat_ KeyCode.CapsLock; release KeyCode.CapsLock; press KeyCode.A] = [97].
Proof. reflexivity. Qed.
