(* ===== verification/InputCore.v ===== *)
(** * The input core

    Model of kernel/src/input/mod.rs: the registry of devices, the submission of
    events, and their delivery to the consumer and to the subscribers, with the
    queue as the bounded FIFO that InputQueueFacts shows it to be.  The poll hooks
    of the drivers are a parameter: the events a hook submits.  A call to a
    handler is recorded. *)

From S2P Require Import Prelude InputQueue Keymap.
Local Open Scope Z_scope.

Record InputDevice := mkDevice { d_id : Z; d_name : string; d_capabilities : Z; d_poll : option nat }.

Record Core := mkCore {
  events : list InputEvent;
  overflows : Z;
  devices : list InputDevice;
  next_id : Z;
  subscribers : list (InputType * nat);
  grab : Z;
  dumps : Z;
  calls : list (nat * InputEvent)
}.

Definition new_core : Core := mkCore [] 0 [] 1 [] 0 0 [].

Definition u32_next (x : Z) : Z := (x + 1) mod 4294967296.

(** ** Devices *)

Definition register_device (c : Core) (name : string) (capabilities : Z) (poll : option nat) : Core * Z :=
  let '(next, id) := (u32_next (next_id c), next_id c) in
  let '(next, id) := (if id =? 0 then
                        let '(next, id) := (u32_next next, next) in
                        if id =? 0 then (2, 1) else (next, id)
                      else (next, id)) in
  let id := if id =? 0 then 1 else id in
  (mkCore (events c) (overflows c) (devices c ++ [mkDevice id name capabilities poll]) next (subscribers c) (grab c) (dumps c) (calls c), id).

Fixpoint remove_first (id : Z) (l : list InputDevice) : option (list InputDevice) :=
  match l with
  | [] => None
  | d :: l => if d_id d =? id then Some l else cons d <$> remove_first id l
  end.

Definition unregister_device (c : Core) (id : Z) : Core * bool :=
  match remove_first id (devices c) with
  | Some l => (mkCore (events c) (overflows c) l (next_id c) (subscribers c) (grab c) (dumps c) (calls c), true)
  | None => (c, false)
  end.

Definition device_count (c : Core) : nat := length (devices c).
Definition device_names (c : Core) : list string := map d_name (devices c).
Definition device_snapshot (c : Core) : list (Z * string * Z) := map (fun d => (d_id d, d_name d, d_capabilities d)) (devices c).

(** ** Events *)

Definition set_events (c : Core) (l : list InputEvent) : Core :=
  mkCore l (overflows c) (devices c) (next_id c) (subscribers c) (grab c) (dumps c) (calls c).

Definition submit_event (c : Core) (now : Z) (ev : InputEvent) : Core * bool :=
  let hot := bool_decide (type_ ev = Key) && (code ev =? key_code KeyCode.F9) && (value ev =? 1) in
  let c := mkCore (events c) (overflows c) (devices c) (next_id c) (subscribers c) (grab c) (if hot then dumps c + 1 else dumps c) (calls c) in
  if Z.of_nat (length (events c)) <? CAPACITY then (set_events c (events c ++ [with_timestamp ev now]), true)
  else (mkCore (events c) (overflows c + 1) (devices c) (next_id c) (subscribers c) (grab c) (dumps c) (calls c), false).

Fixpoint submit_all (c : Core) (l : list (Z * InputEvent)) : Core :=
  match l with [] => c | (now, ev) :: l => submit_all (submit_event c now ev).1 l end.

(** The handlers of the event's type, in the order they subscribed. *)
Definition notify (c : Core) (ev : InputEvent) : Core :=
  mkCore (events c) (overflows c) (devices c) (next_id c) (subscribers c) (grab c) (dumps c)
    (calls c ++ flat_map (fun '(ty, h) => if bool_decide (ty = type_ ev) then [(h, ev)] else []) (subscribers c)).

Section Poll.
(** What a hook submits, with the times, when the core calls it. *)
Context (hook : nat -> Core -> list (Z * InputEvent)).

Fixpoint run_polls (c : Core) (l : list (option nat)) : Core :=
  match l with
  | [] => c
  | Some h :: l => run_polls (submit_all c (hook h c)) l
  | None :: l => run_polls c l
  end.

(** One round of [read_event], which looked at the grab before its loop. *)
Definition read_round (grabbed : Z) (c : Core) : Core + Core * option InputEvent :=
  match events c with
  | ev :: rest =>
      let c := set_events c rest in
      if negb (grabbed =? 0) && negb (device_id ev =? grabbed) then inl c else inr (notify c ev, Some ev)
  | [] =>
      let polls := map d_poll (devices c) in
      if forallb (fun p => match p with None => true | Some _ => false end) polls then inr (c, None)
      else
        let c := run_polls c polls in
        if Nat.eqb (length (events c)) 0 then inr (c, None) else inl c
  end.

Definition read_event (fuel : positive) (c : Core) : Core + Core * option InputEvent := iter_pos fuel (read_round (grab c)) c.
End Poll.

(** ** Subscriptions and the grab *)

Definition subscribe (c : Core) (t : InputType) (handler : nat) : Core :=
  mkCore (events c) (overflows c) (devices c) (next_id c) (subscribers c ++ [(t, handler)]) (grab c) (dumps c) (calls c).

Definition grab_device (c : Core) (id : Z) : Core :=
  mkCore (events c) (overflows c) (devices c) (next_id c) (subscribers c) id (dumps c) (calls c).

Definition release_grab (c : Core) : Core := grab_device c 0.
Definition queued_count (c : Core) : nat := length (events c).

(** ** Device ids *)

Inductive device_op := Register (name : string) (caps : Z) (poll : option nat) | Unregister (id : Z).

Definition device_act (c : Core) (o : device_op) : Core :=
  match o with Register n k p => (register_device c n k p).1 | Unregister id => (unregister_device c id).1 end.

Record ids_ok (c : Core) : Prop := {
  ids_next : 1 <= next_id c;
  ids_range : Forall (fun d => 1 <= d_id d < next_id c) (devices c);
  ids_nodup : NoDup (map d_id (devices c))
}.

(** Unregistering takes the device with the id out, and no other. *)
Lemma remove_first_spec id l l' : remove_first id l = Some l' ->
  exists pre d post, l = pre ++ d :: post /\ l' = pre ++ post /\ d_id d = id /\ Forall (fun x => d_id x <> id) pre.
Proof.
  revert l'. induction l as [|d l IH]; intros l' E; cbn [remove_first] in E; [done|].
  destruct (Z.eqb_spec (d_id d) id) as [Ed|Ed]; [injection E as <-; by exists [], d, l|].
  apply fmap_Some in E as (l1 & E & ->). destruct (IH l1 E) as (pre & x & post & -> & -> & Hx & Hp).
  exists (d :: pre), x, post. split_and!; [done|done|done|]. by constructor.
Qed.

Lemma register_ids c n k p : ids_ok c -> next_id c < 4294967295 ->
  ids_ok (register_device c n k p).1 /\ next_id (register_device c n k p).1 = next_id c + 1 /\ (register_device c n k p).2 = next_id c.
Proof.
  intros [H1 H2 H3] Hb. unfold register_device, u32_next. rewrite Z.mod_small by lia.
  rewrite (proj2 (Z.eqb_neq (next_id c) 0)) by lia. cbn zeta beta iota. rewrite (proj2 (Z.eqb_neq (next_id c) 0)) by lia. cbn [fst snd].
  split; [|done]. constructor; cbn [devices next_id].
  - lia.
  - apply Forall_app. split; [|constructor; [cbn; lia|constructor]]. eapply Forall_impl; [exact H2|]. intros d. cbn beta. lia.
  - rewrite map_app. apply NoDup_app. split_and!; [done| |apply NoDup_singleton]. intros x Hx Hx'. cbn [map d_id] in Hx'.
    apply list_elem_of_singleton in Hx' as ->. apply list_elem_of_fmap in Hx as (d & Ed & Hd). rewrite Forall_forall in H2. specialize (H2 d Hd). cbn beta in H2. lia.
Qed.

Lemma unregister_ids c id : ids_ok c -> ids_ok (unregister_device c id).1.
Proof.
  intros Hi. unfold unregister_device. destruct (remove_first id (devices c)) as [l|] eqn:E; [|done].
  apply remove_first_spec in E as (pre & d & post & E & -> & _). destruct Hi as [H1 H2 H3]. rewrite E in H2, H3.
  rewrite map_app in H3. cbn [map] in H3. apply NoDup_app in H3 as (N1 & N2 & [_ N3]%NoDup_cons).
  constructor; cbn [fst devices next_id]; [done| |].
  - apply Forall_app in H2 as [F1 [_ F2]%Forall_cons]. by apply Forall_app.
  - rewrite map_app. apply NoDup_app. split_and!; [done| |done]. intros x Hx Hx'. apply (N2 x Hx). by right.
Qed.

Definition registered (l : list device_op) : nat := length (List.filter (fun o => match o with Register _ _ _ => true | _ => false end) l).

(** C0: Before the 32-bit counter wraps, the registered devices have distinct
    ids, none of them 0, which stands for no grab. *)
Theorem device_ids_distinct l c : c = fold_left device_act l new_core -> Z.of_nat (registered l) < 4294967294 -> ids_ok c.
Proof.
  intros -> Hb. assert (ids_ok new_core) as H0 by (constructor; [done|constructor|constructor]).
  assert (next_id new_core + Z.of_nat (registered l) <= 4294967294) as Hn by (cbn [next_id new_core]; lia).
  clear Hb. revert H0 Hn. generalize new_core as c. induction l as [|o l IH]; intros c Hc Hn; [done|]. cbn [fold_left].
  destruct o as [n k p|id]; unfold registered in *; cbn [List.filter length] in Hn; cbn [device_act].
  - destruct (register_ids c n k p Hc ltac:(lia)) as (Hc' & En & _). apply IH; [done|lia].
  - apply IH; [by apply unregister_ids|]. unfold unregister_device. by destruct (remove_first id (devices c)).
Qed.

(** ** Delivery *)

Section Read.
Context (hook : nat -> Core -> list (Z * InputEvent)).

(** What stays while events go through. *)
Definition same_routing (c c' : Core) : Prop :=
  devices c' = devices c /\ subscribers c' = subscribers c /\ grab c' = grab c /\ calls c' = calls c.

Lemma submit_all_routing l : forall c, same_routing c (submit_all c l).
Proof.
  induction l as [|[now ev] l IH]; intros c; cbn [submit_all]; [done|].
  destruct (IH (submit_event c now ev).1) as (H1 & H2 & H3 & H4). unfold same_routing. rewrite H1, H2, H3, H4.
  unfold submit_event. cbn [events]. by destruct (_ <? _).
Qed.

Lemma run_polls_routing l : forall c, same_routing c (run_polls hook c l).
Proof.
  induction l as [|[h|] l IH]; intros c; cbn [run_polls]; [done| |done].
  destruct (IH (submit_all c (hook h c))) as (H1 & H2 & H3 & H4). destruct (submit_all_routing (hook h c) c) as (G1 & G2 & G3 & G4).
  unfold same_routing. by rewrite H1, H2, H3, H4.
Qed.

Lemma read_rounds n : forall g c c' r, iter_nat n (read_round hook g) c = inr (c', r) ->
  match r with
  | None => events c' = [] /\ calls c' = calls c
  | Some ev => (g = 0 \/ device_id ev = g)
      /\ calls c' = calls c ++ flat_map (fun '(ty, h) => if bool_decide (ty = type_ ev) then [(h, ev)] else []) (subscribers c)
  end.
Proof.
  induction n as [|n IH]; intros g c c' r E; [done|]. rewrite iter_nat_S in E. unfold read_round at 1 in E.
  destruct (events c) as [|ev rest] eqn:Ee.
  - destruct (forallb _ _); [injection E as <- <-; done|].
    destruct (run_polls_routing (map d_poll (devices c)) c) as (_ & R2 & _ & R4).
    destruct (Nat.eqb_spec (length (events (run_polls hook c (map d_poll (devices c))))) 0) as [El|El].
    + injection E as <- <-. split; [by apply nil_length_inv|done].
    + apply IH in E. rewrite R2, R4 in E. done.
  - destruct (negb (g =? 0) && negb (device_id ev =? g)) eqn:Eg; [by apply IH in E|]. injection E as <- <-.
    split; [|done]. apply andb_false_iff in Eg as [Eg|Eg]; apply negb_false_iff, Z.eqb_eq in Eg; auto.
Qed.

(** C0: An event that [read_event] returns comes from the grabbed device, if there
    is one, and was given to exactly the handlers subscribed to its type, once
    each and in order; it returns none only with the queue empty, and calls no
    handler then. *)
Theorem read_event_delivers fuel c c' r : read_event hook fuel c = inr (c', r) ->
  match r with
  | None => events c' = [] /\ calls c' = calls c
  | Some ev => (grab c = 0 \/ device_id ev = grab c)
      /\ calls c' = calls c ++ flat_map (fun '(ty, h) => if bool_decide (ty = type_ ev) then [(h, ev)] else []) (subscribers c)
  end.
Proof. unfold read_event. rewrite iter_pos_nat. apply read_rounds. Qed.

(** Without poll hooks it returns, after the events of other devices: the queue
    is cut after the first event the grab lets through. *)
Theorem read_event_returns c : Forall (fun d => d_poll d = None) (devices c) -> Z.of_nat (length (events c)) <= CAPACITY ->
  exists c' r, read_event hook 257 c = inr (c', r)
    /\ match r with
       | None => Forall (fun ev => grab c <> 0 /\ device_id ev <> grab c) (events c)
       | Some ev => exists skipped, events c = skipped ++ ev :: events c' /\ Forall (fun ev => grab c <> 0 /\ device_id ev <> grab c) skipped
       end.
Proof.
  intros Hp Hl. unfold read_event. generalize (grab c) as g. intros g.
  assert (exists c' r, iter_nat (S (length (events c))) (read_round hook g) c = inr (c', r)
    /\ match r with
       | None => Forall (fun ev => g <> 0 /\ device_id ev <> g) (events c)
       | Some ev => exists skipped, events c = skipped ++ ev :: events c' /\ Forall (fun ev => g <> 0 /\ device_id ev <> g) skipped
       end) as (c' & r & E & Hr).
  { clear Hl. remember (events c) as l eqn:El. revert c Hp El. induction l as [|ev l IH]; intros c Hp El; rewrite iter_nat_S; unfold read_round at 1; rewrite <- El.
    - rewrite (proj2 (forallb_forall _ _)); [by exists c, None|]. intros x Hx%list_elem_of_In.
      apply list_elem_of_fmap in Hx as (d & -> & Hd). rewrite Forall_forall in Hp. by rewrite (Hp d Hd).
    - destruct (negb (g =? 0) && negb (device_id ev =? g)) eqn:Eg.
      + destruct (IH (set_events c l) Hp eq_refl) as (c' & r & E & Hr). exists c', r. split; [done|].
        apply andb_true_iff in Eg as [E1%negb_true_iff%Z.eqb_neq E2%negb_true_iff%Z.eqb_neq].
        destruct r as [ev'|]; [|by constructor]. destruct Hr as (sk & -> & Hs). exists (ev :: sk). split; [done|by constructor].
      + eexists _, (Some ev). split; [reflexivity|]. exists []. split; [done|constructor]. }
  exists c', r. split; [|done]. eapply iter_pos_done; [exact E|]. unfold CAPACITY in Hl. lia.
Qed.
End Read.
