(* ===== verification/BlockIo.v ===== *)
(** * Block I/O requests

    The whole request interface of kernel/src/filesystems/blockdriver/traits.rs,
    as the layers between the file systems and the drivers use it: batches of
    reads and writes with buffers of the caller or at physical addresses.  The
    laws of [IoLaws] are what those layers rely on. *)

From S2P Require Import Prelude BlockDev.
Local Open Scope Z_scope.

Inductive IoBuffer := Buf (b : list Z) | ConstBuf (b : list Z) | Phys (pa size : Z).

Record IoRequest := mkReq { r_lba : Z; r_count : Z; r_buffer : IoBuffer; r_write : bool }.

Definition covers (r : IoRequest) (l : Z) : bool := (r_lba r <=? l) && (l <? r_lba r + r_count r).

(** The bytes a request carries, if the driver reads them from the caller. *)
Definition payload (b : IoBuffer) : option (list Z) :=
  match b with Buf b | ConstBuf b => Some b | Phys _ _ => None end.

Definition buffered_write (r : IoRequest) : bool :=
  r_write r && match r_buffer r with Phys _ _ => false | _ => true end.

(** A sector after the writes of a batch, in order. *)
Definition store_req (r : IoRequest) (f : Z -> list Z) (l : Z) : list Z :=
  match payload (r_buffer r) with
  | Some b => if covers r l then take 512 (drop (Z.to_nat (512 * (l - r_lba r))) b) else f l
  | None => f l
  end.

Fixpoint store_all (reqs : list IoRequest) (f : Z -> list Z) : Z -> list Z :=
  match reqs with [] => f | r :: reqs => store_all reqs (store_req r f) end.

(** A buffer after a read of [data]. *)
Definition fill (b data : list Z) : list Z := data ++ drop (length data) b.

(** [submit]: the device afterwards and, unless it failed as a whole, the counts
    and the contents of the buffers. *)
Class IoDevice (D : Type) := {
  content : D -> Z -> list Z;
  io_sectors : D -> Z;
  submit : D -> list IoRequest -> D * option (IoCompletions * list (list Z))
}.

(** A write leaves the sectors it does not address alone, even when it fails.  A
    batch of reads, or of writes from buffers, that is reported without errors has
    been carried out. *)
Class IoLaws (D : Type) `{IoDevice D} := {
  content_length d l : length (content d l) = 512%nat;
  submit_sectors d reqs : io_sectors (submit d reqs).1 = io_sectors d;
  submit_frame d reqs l : Forall (fun r => r_write r = true -> covers r l = false) reqs ->
    content (submit d reqs).1 l = content d l;
  submit_reads d reqs c bufs i r b : (submit d reqs).2 = Some (c, bufs) -> all_ok c = true ->
    Forall (fun r => r_write r = false) reqs -> reqs !! i = Some r -> r_buffer r = Buf b -> 0 <= r_count r ->
    512 * r_count r <= Z.of_nat (length b) /\ bufs !! i = Some (fill b (flat_map (content d) (seqZ (r_lba r) (r_count r))));
  submit_stores d reqs c bufs : (submit d reqs).2 = Some (c, bufs) -> all_ok c = true ->
    Forall (fun r => buffered_write r = true) reqs ->
    Forall (fun r => forall b, payload (r_buffer r) = Some b -> 512 * r_count r <= Z.of_nat (length b)) reqs
    /\ forall l, content (submit d reqs).1 l = store_all reqs (content d) l
}.

(** A batch that fails as a whole has written nothing. *)
Class AtomicErrors (D : Type) `{IoDevice D} := {
  submit_err d reqs l : (submit d reqs).2 = None -> content (submit d reqs).1 l = content d l
}.

Section Facts.
Context `{IoLaws D}.

Lemma reads_keep (d : D) reqs l : Forall (fun r => r_write r = false) reqs -> content (submit d reqs).1 l = content d l.
Proof. intros Hr. apply submit_frame. eapply Forall_impl; [exact Hr|]. intros r E. by rewrite E. Qed.
End Facts.

Lemma store_req_length r f l : length (f l) = 512%nat ->
  (forall b, payload (r_buffer r) = Some b -> 512 * r_count r <= Z.of_nat (length b)) -> length (store_req r f l) = 512%nat.
Proof.
  intros Hf Hb. unfold store_req. destruct (payload _) as [b|] eqn:Ep; [|done]. destruct (covers r l) eqn:Ec; [|done].
  specialize (Hb b eq_refl). unfold covers in Ec. rewrite length_take, length_drop. lia.
Qed.

Lemma store_all_length reqs : forall f l, (forall l, length (f l) = 512%nat) ->
  Forall (fun r => forall b, payload (r_buffer r) = Some b -> 512 * r_count r <= Z.of_nat (length b)) reqs ->
  length (store_all reqs f l) = 512%nat.
Proof.
  induction reqs as [|r reqs IH]; intros f l Hf Hb; [done|]. apply Forall_cons in Hb as [Hr Hb]. cbn [store_all].
  apply IH; [|done]. intros l'. by apply store_req_length.
Qed.

Lemma store_all_frame reqs : forall f l, Forall (fun r => covers r l = false) reqs -> store_all reqs f l = f l.
Proof.
  induction reqs as [|r reqs IH]; intros f l Hf; [done|]. apply Forall_cons in Hf as [Hr Hf]. cbn [store_all]. rewrite IH by done.
  unfold store_req. rewrite Hr. by destruct (payload _).
Qed.

(** ** A device in memory *)

(** Requests outside the disk, buffers that are too small and mixed batches fail
    as a whole. *)
Record RamDisk := mkRam { ram : Z -> list Z; ram_size : Z }.

Definition ram_content (d : RamDisk) (l : Z) : list Z :=
  let s := take 512 (ram d l) in s ++ replicate (512 - length s) 0.

Definition ram_ok (d : RamDisk) (r : IoRequest) : bool :=
  (0 <=? r_lba r) && (0 <=? r_count r) && (r_lba r + r_count r <=? ram_size d)
  && match payload (r_buffer r) with Some b => 512 * r_count r <=? Z.of_nat (length b) | None => false end.

Definition ram_read (d : RamDisk) (r : IoRequest) : list Z :=
  match payload (r_buffer r) with
  | Some b => fill b (flat_map (ram_content d) (seqZ (r_lba r) (r_count r)))
  | None => []
  end.

Definition ram_submit (d : RamDisk) (reqs : list IoRequest) : RamDisk * option (IoCompletions * list (list Z)) :=
  let done := {| completed := Z.of_nat (length reqs); errors := 0 |} in
  if forallb (ram_ok d) reqs then
    if forallb (fun r => negb (r_write r)) reqs then (d, Some (done, map (ram_read d) reqs))
    else if forallb buffered_write reqs then (mkRam (store_all reqs (ram_content d)) (ram_size d), Some (done, map (fun _ => []) reqs))
    else (d, None)
  else (d, None).

#[global] Instance RamDisk_io : IoDevice RamDisk := { content := ram_content; io_sectors := ram_size; submit := ram_submit }.

Lemma ram_content_length d l : length (ram_content d l) = 512%nat.
Proof. unfold ram_content. rewrite length_app, length_replicate, length_take. lia. Qed.

Lemma pad_full s : length s = 512%nat -> take 512 s ++ replicate (512 - length (take 512 s)) 0 = s.
Proof. intros Hs. rewrite take_ge by lia. rewrite Hs. cbn [replicate Nat.sub]. apply app_nil_r. Qed.

Lemma ram_ok_length d reqs : forallb (ram_ok d) reqs = true ->
  Forall (fun r => forall b, payload (r_buffer r) = Some b -> 512 * r_count r <= Z.of_nat (length b)) reqs.
Proof.
  intros Hok. apply Forall_forall. intros r Hr b Hb. rewrite forallb_forall in Hok. specialize (Hok r ltac:(by apply list_elem_of_In)).
  unfold ram_ok in Hok. rewrite Hb in Hok. lia.
Qed.

Lemma ram_stores d reqs l : forallb (ram_ok d) reqs = true ->
  ram_content (mkRam (store_all reqs (ram_content d)) (ram_size d)) l = store_all reqs (ram_content d) l.
Proof.
  intros Hok. unfold ram_content at 1. cbn [ram]. apply pad_full, store_all_length; [apply ram_content_length|by eapply ram_ok_length].
Qed.

#[global, refine] Instance RamDisk_laws : IoLaws RamDisk := { content_length := ram_content_length }.
Proof.
  - intros d reqs. change (ram_size (ram_submit d reqs).1 = ram_size d). unfold ram_submit. by repeat case_match.
  - intros d reqs l Hf. change (ram_content (ram_submit d reqs).1 l = ram_content d l). unfold ram_submit.
    destruct (forallb (ram_ok d) reqs) eqn:Eok; [|done]. destruct (forallb (fun r => negb (r_write r)) reqs); [done|].
    destruct (forallb buffered_write reqs) eqn:Ew; [|done]. cbn [fst]. rewrite ram_stores by done.
    apply store_all_frame, Forall_forall. intros r Hr. rewrite Forall_forall in Hf. apply (Hf r Hr).
    rewrite forallb_forall in Ew. specialize (Ew r ltac:(by apply list_elem_of_In)). unfold buffered_write in Ew. by apply andb_true_iff in Ew as [? _].
  - intros d reqs c bufs i r b E Hc Hr Hi Hb Hn. change ((ram_submit d reqs).2 = Some (c, bufs)) in E. unfold ram_submit in E.
    destruct (forallb (ram_ok d) reqs) eqn:Eok; [|done]. pose proof (ram_ok_length d reqs Eok) as Hl.
    rewrite Forall_forall in Hl. pose proof (list_elem_of_lookup_2 _ _ _ Hi) as Hin. specialize (Hl r Hin b). rewrite Hb in Hl.
    split; [by apply Hl|]. rewrite (proj2 (forallb_forall _ _)) in E.
    + injection E as <- <-. rewrite list_lookup_fmap, Hi. cbn [fmap option_fmap option_map]. unfold ram_read. by rewrite Hb.
    + intros x Hx%list_elem_of_In. rewrite Forall_forall in Hr. by rewrite (Hr x Hx).
  - intros d reqs c bufs E Hc Hw. change ((ram_submit d reqs).2 = Some (c, bufs)) in E.
    change (forall l, content (submit d reqs).1 l = store_all reqs (content d) l)
      with (forall l, ram_content (ram_submit d reqs).1 l = store_all reqs (ram_content d) l). unfold ram_submit in *.
    destruct (forallb (ram_ok d) reqs) eqn:Eok; [|done]. split; [by eapply ram_ok_length|].
    destruct reqs as [|r reqs]; [by injection E as <- _|]. rewrite Forall_forall in Hw.
    assert (forallb (fun r => negb (r_write r)) (r :: reqs) = false) as En.
    { cbn [forallb]. pose proof (Hw r ltac:(by left)) as Hr. unfold buffered_write in Hr. apply andb_true_iff in Hr as [-> _]. done. }
    rewrite En in *. rewrite (proj2 (forallb_forall _ _)) in * by (intros x Hx%list_elem_of_In; by apply Hw).
    intros l. cbn [fst]. by apply ram_stores.
Defined.

#[global, refine] Instance RamDisk_atomic : AtomicErrors RamDisk := {}.
Proof.
  intros d reqs l E. change ((ram_submit d reqs).2 = None) in E. change (ram_content (ram_submit d reqs).1 l = ram_content d l).
  unfold ram_submit in *. repeat (case_match; try done).
Defined.
