(* ===== verification/BlockCache.v ===== *)
(** * The block cache

    Model of kernel/src/filesystems/blockdriver/block_cache.rs: a write-through
    cache of sectors in front of any device, with eviction in batches.  The order
    in which a hash map lists its keys is left open in the source; it is the order
    of [gmap] here, and only the choice of the lines to evict depends on it. *)

From S2P Require Import Prelude BlockDev BlockIo.
Local Open Scope Z_scope.

Definition CACHE_SIZE : Z := 4096.

Record BlockCache := mkBlockCache { lines : gmap Z (list Z); clock : list Z; clock_hand : nat }.

Definition new_cache : BlockCache := mkBlockCache ∅ [] 0.

(** [Vec::swap_remove] of an index in range. *)
Definition swap_remove (i : nat) (l : list Z) : list Z :=
  let l' := removelast l in
  if (i <? length l')%nat then <[i := List.last l 0]> l' else l'.

Fixpoint evict_loop (n : nat) (c : BlockCache) : BlockCache :=
  match n with
  | O => c
  | S n =>
      if CACHE_SIZE - CACHE_SIZE / 4 <? Z.of_nat (size (lines c)) then
        match clock c with
        | [] => c
        | _ =>
            let hand := if (length (clock c) <=? clock_hand c)%nat then 0%nat else clock_hand c in
            let lba := nth hand (clock c) 0 in
            evict_loop n (mkBlockCache (delete lba (lines c)) (swap_remove hand (clock c)) hand)
        end
      else c
  end.

Definition maybe_evict (c : BlockCache) : BlockCache :=
  if Z.of_nat (size (lines c)) <? CACHE_SIZE then c else evict_loop (length (clock c)) c.

Fixpoint position (x : Z) (l : list Z) : option nat :=
  match l with [] => None | y :: l => if y =? x then Some O else S <$> position x l end.

Definition drop_line (c : BlockCache) (lba : Z) : BlockCache :=
  mkBlockCache (delete lba (lines c))
    (match position lba (clock c) with Some pos => swap_remove pos (clock c) | None => clock c end) (clock_hand c).

Definition saturating_add (a b : Z) : Z := Z.min (a + b) u64_max.

Definition invalidate_range (c : BlockCache) (start_lba count : Z) : BlockCache :=
  if count =? 0 then c
  else
    let stop := saturating_add start_lba count in
    let stale := List.filter (fun lba => (start_lba <=? lba) && (lba <? stop)) (map_to_list (lines c)).*1 in
    fold_left drop_line stale c.

Section Cached.
Context `{IoDevice D} `{Profile}.

(** The cache in front of its device. *)
Record CachedDevice := mkCached { inner : D; cache : BlockCache }.

(** A sector from the cache, or from the device. *)
Definition cache_read (st : CachedDevice) (lba : Z) : CachedDevice * option (list Z) :=
  match lines (cache st) !! lba with
  | Some data => (st, Some data)
  | None =>
      match submit (inner st) [mkReq lba 1 (Buf (replicate 512 0)) false] with
      | (d, Some (c, [buf])) =>
          if all_ok c then
            let k := maybe_evict (cache st) in
            (mkCached d (mkBlockCache (<[lba := buf]> (lines k)) (clock k ++ [lba]) (clock_hand k)), Some buf)
          else (mkCached d (cache st), None)
      | (d, _) => (mkCached d (cache st), None)
      end
  end.

Definition copy_len (buf : list Z) : nat := Nat.min 512 (length buf).

Definition read_raw (st : CachedDevice) (lba count : Z) (buf : list Z) : res unit (CachedDevice * option (list Z)) :=
  let? _ := debug_assert (count <=? 1) in
  match cache_read st lba with
  | (st, None) => Ok (st, None)
  | (st, Some data) =>
      Ok (st, Some (take (copy_len buf) data ++ drop (copy_len buf) buf))
  end.

Definition insert_written (c : BlockCache) (lba : Z) (sector : list Z) : BlockCache :=
  let c := match lines c !! lba with
           | None => let k := maybe_evict c in mkBlockCache (lines k) (clock k ++ [lba]) (clock_hand k)
           | Some _ => c
           end in
  mkBlockCache (<[lba := sector]> (lines c)) (clock c) (clock_hand c).

Definition apply_write_to_cache (c : BlockCache) (r : IoRequest) : BlockCache :=
  match payload (r_buffer r) with
  | None => c
  | Some buf =>
      if (r_count r <=? 1) && (Nat.eqb (length buf) 512) then insert_written c (r_lba r) buf
      else invalidate_range c (r_lba r) (r_count r)
  end.

(** One read; the result is the buffer. *)
Definition read_io (st : CachedDevice) (r : IoRequest) : res unit (CachedDevice * option (list Z)) :=
  match r_buffer r with
  | Buf buf =>
      if 1 <? r_count r then
        match submit (inner st) [mkReq (r_lba r) (r_count r) (Buf buf) false] with
        | (d, Some (c, [b])) => Ok (mkCached d (cache st), if all_ok c then Some b else None)
        | (d, _) => Ok (mkCached d (cache st), None)
        end
      else read_raw st (r_lba r) (r_count r) buf
  | _ => Ok (st, None)
  end.

Definition invalidate_req (c : BlockCache) (r : IoRequest) : BlockCache := invalidate_range c (r_lba r) (r_count r).

(** A request with a physical buffer goes past the cache. *)
Definition phys_io (st : CachedDevice) (r : IoRequest) : CachedDevice * bool :=
  match submit (inner st) [r] with
  | (d, Some (c, _)) =>
      if all_ok c then (mkCached d (if r_write r then invalidate_req (cache st) r else cache st), true)
      else (mkCached d (cache st), false)
  | (d, None) => (mkCached d (cache st), false)
  end.

(** A run of writes from buffers goes to the device in one batch. *)
Definition write_run (st : CachedDevice) (run : list IoRequest) : CachedDevice * IoCompletions :=
  match submit (inner st) run with
  | (d, Some (c, _)) =>
      (mkCached d (if all_ok c then fold_left apply_write_to_cache run (cache st) else fold_left invalidate_req run (cache st)), c)
  | (d, None) => (mkCached d (cache st), {| completed := 0; errors := Z.of_nat (length run) |})
  end.

Fixpoint run_of (reqs : list IoRequest) : list IoRequest * list IoRequest :=
  match reqs with
  | r :: rest => if buffered_write r then let '(run, rest) := run_of rest in (r :: run, rest) else ([], reqs)
  | [] => ([], [])
  end.

Definition count_ok (c : IoCompletions) (b : bool) : IoCompletions :=
  if b then {| completed := completed c + 1; errors := errors c |} else {| completed := completed c; errors := errors c + 1 |}.

(** The loop of [submit]; [out] is the buffers of the requests so far. *)
Fixpoint submit_loop (n : nat) (st : CachedDevice) (reqs : list IoRequest) (acc : IoCompletions) (out : list (option (list Z)))
  : res unit (CachedDevice * IoCompletions * list (option (list Z))) :=
  match n, reqs with
  | S n, r :: rest =>
      match r_buffer r with
      | Phys _ _ => let '(st, b) := phys_io st r in submit_loop n st rest (count_ok acc b) (out ++ [None])
      | _ =>
          if r_write r then
            let '(run, rest) := run_of (r :: rest) in
            let '(st, c) := write_run st run in
            submit_loop n st rest {| completed := completed acc + completed c; errors := errors acc + errors c |}
              (out ++ map (fun _ => None) run)
          else
            let? x := read_io st r in
            let '(st, b) := x in
            submit_loop n st rest (count_ok acc (bool_decide (is_Some b))) (out ++ [b])
      end
  | _, _ => Ok (st, acc, out)
  end.

Definition cached_submit (st : CachedDevice) (reqs : list IoRequest) :=
  submit_loop (length reqs) st reqs {| completed := 0; errors := 0 |} [].
End Cached.
Arguments CachedDevice D : clear implicits.
Arguments mkCached {D} _ _.
Arguments inner {D} _.
Arguments cache {D} _.
