(* ===== verification/BlockCacheFacts.v ===== *)
(** * The block cache: correctness

    The cache never holds more than 4096 lines, its lines are what the device
    holds, and so reads through it are reads of the device.  This needs a device
    whose failed batches have written nothing; the examples at the end show what
    happens with one that is not. *)

From S2P Require Import Prelude BlockDev BlockIo BlockCache.
Local Open Scope Z_scope.

(** ** The clock *)

Lemma clock_remove_perm i l : (i < length l)%nat -> l ≡ₚ nth i l 0 :: swap_remove i l.
Proof.
  intros Hi. destruct l as [|x l _] using rev_ind; [cbn in Hi; lia|]. unfold swap_remove. rewrite removelast_last, last_last.
  rewrite length_app in Hi. cbn [length] in Hi. destruct (Nat.ltb_spec i (length l)) as [Hl|Hl].
  - rewrite app_nth1 by done. destruct (lookup_lt_is_Some_2 l i Hl) as [y Hy]. rewrite (nth_lookup_Some _ _ _ _ Hy).
    rewrite <- (take_drop_middle l i y Hy) at 1. rewrite insert_take_drop by done. solve_Permutation.
  - replace i with (length l) by lia. rewrite app_nth2, Nat.sub_diag by lia. cbn [nth]. solve_Permutation.
Qed.

Lemma position_spec x l :
  match position x l with Some i => (i < length l)%nat /\ nth i l 0 = x | None => x ∉ l end.
Proof.
  induction l as [|y l IH]; cbn [position]; [apply not_elem_of_nil|]. destruct (Z.eqb_spec y x) as [->|Hn]; [cbn; split; [lia|done]|].
  destruct (position x l) as [i|]; cbn [fmap option_fmap option_map].
  - cbn [length nth]. destruct IH. split; [lia|done].
  - apply not_elem_of_cons. by split.
Qed.

(** ** Well-formed caches *)

Record cache_wf (c : BlockCache) : Prop := {
  cw_nodup : NoDup (clock c);
  cw_dom k : k ∈ clock c <-> is_Some (lines c !! k);
  cw_size : Z.of_nat (size (lines c)) <= CACHE_SIZE
}.

Lemma clock_length c : NoDup (clock c) -> (forall k, k ∈ clock c <-> is_Some (lines c !! k)) -> length (clock c) = size (lines c).
Proof.
  intros Hn Hd. rewrite <- size_dom. rewrite <- (size_list_to_set (C := gset Z) (clock c)) by done.
  f_equal. apply set_eq. intros k. by rewrite elem_of_list_to_set, elem_of_dom, Hd.
Qed.

(** One line out. *)
Lemma remove_line c k l h : cache_wf c -> clock c ≡ₚ k :: l -> cache_wf (mkBlockCache (delete k (lines c)) l h).
Proof.
  intros [Hn Hd Hs] Hp. rewrite Hp in Hn. apply NoDup_cons in Hn as [Hk Hn]. constructor; cbn [clock lines]; [done| |].
  - intros x. destruct (decide (x = k)) as [->|Hx].
    + rewrite lookup_delete_eq. split; [done|intros [? ?]; done].
    + rewrite lookup_delete_ne, <- Hd, Hp, elem_of_cons by done. naive_solver.
  - destruct (lines c !! k) eqn:E; [rewrite map_size_delete_Some by eauto|rewrite map_size_delete_None by done]; lia.
Qed.

Lemma evict_loop_spec n : forall c, cache_wf c -> cache_wf (evict_loop n c) /\ lines (evict_loop n c) ⊆ lines c
  /\ ((length (clock c) <= n)%nat -> Z.of_nat (size (lines (evict_loop n c))) <= 3072).
Proof.
  induction n as [|n IH]; intros c Hc; cbn [evict_loop].
  - split_and!; [done|done|]. intros Hl. rewrite <- (clock_length c) by apply Hc. lia.
  - change (CACHE_SIZE - CACHE_SIZE / 4) with 3072. destruct (Z.ltb_spec 3072 (Z.of_nat (size (lines c)))) as [Hs|Hs]; [|split_and!; [done|done|lia]].
    destruct (clock c) as [|x l] eqn:El; [rewrite <- (clock_length c), El in Hs by apply Hc; cbn in Hs; lia|]. rewrite <- El in *.
    set (hand := if (length (clock c) <=? clock_hand c)%nat then 0%nat else clock_hand c).
    assert (hand < length (clock c))%nat as Hh.
    { unfold hand. destruct (Nat.leb_spec (length (clock c)) (clock_hand c)); [rewrite El; cbn; lia|done]. }
    pose proof (clock_remove_perm hand (clock c) Hh) as Hp.
    destruct (IH (mkBlockCache (delete (nth hand (clock c) 0) (lines c)) (swap_remove hand (clock c)) hand)) as (H1 & H2 & H3).
    { by apply remove_line. }
    split_and!; [done|etrans; [exact H2|apply delete_subseteq]|]. intros Hl. apply H3. cbn [clock].
    apply Permutation_length in Hp. cbn [length] in Hp. lia.
Qed.

Lemma maybe_evict_spec c : cache_wf c ->
  cache_wf (maybe_evict c) /\ lines (maybe_evict c) ⊆ lines c /\ Z.of_nat (size (lines (maybe_evict c))) < CACHE_SIZE.
Proof.
  intros Hc. unfold maybe_evict. destruct (Z.ltb_spec (Z.of_nat (size (lines c))) CACHE_SIZE) as [Hs|Hs]; [done|].
  destruct (evict_loop_spec (length (clock c)) c Hc) as (H1 & H2 & H3). split_and!; [done|done|]. specialize (H3 ltac:(lia)).
  unfold CACHE_SIZE. lia.
Qed.

(** A new line in. *)
Lemma add_line c k v h : cache_wf c -> lines c !! k = None -> Z.of_nat (size (lines c)) < CACHE_SIZE ->
  cache_wf (mkBlockCache (<[k := v]> (lines c)) (clock c ++ [k]) h).
Proof.
  intros [Hn Hd Hs] Hk Hl. constructor; cbn [clock lines].
  - apply NoDup_app. split_and!; [done| |apply NoDup_singleton]. intros x Hx ->%list_elem_of_singleton.
    apply Hd in Hx as [? Hx]. by rewrite Hk in Hx.
  - intros x. rewrite elem_of_app, list_elem_of_singleton, Hd, lookup_insert_is_Some'. naive_solver.
  - rewrite map_size_insert_None by done. lia.
Qed.

Lemma drop_line_spec c k : cache_wf c -> cache_wf (drop_line c k) /\ lines (drop_line c k) = delete k (lines c).
Proof.
  intros Hc. split; [|done]. unfold drop_line. pose proof (position_spec k (clock c)) as Hp. destruct (position k (clock c)) as [i|].
  - destruct Hp as [Hi Hn]. apply remove_line; [done|]. rewrite <- Hn at 1. by apply clock_remove_perm.
  - assert (lines c !! k = None) as Hk. { destruct (lines c !! k) eqn:E; [|done]. exfalso. apply Hp, Hc. by eexists. }
    rewrite delete_id by done. by destruct c, Hc; constructor.
Qed.

Lemma drop_lines_spec ks : forall c, cache_wf c -> cache_wf (fold_left drop_line ks c)
  /\ forall l, lines (fold_left drop_line ks c) !! l = if decide (l ∈ ks) then None else lines c !! l.
Proof.
  induction ks as [|k ks IH]; intros c Hc; cbn [fold_left].
  - split; [done|]. intros l. by rewrite decide_False by apply not_elem_of_nil.
  - destruct (drop_line_spec c k Hc) as [Hw El]. destruct (IH _ Hw) as [Hw' Hl]. split; [done|]. intros l. rewrite Hl, El.
    destruct (decide (l ∈ ks)) as [Hin|Hin]; [by rewrite decide_True by (by right)|].
    destruct (decide (l = k)) as [->|Hn]; [by rewrite lookup_delete_eq, decide_True by (by left)|].
    rewrite lookup_delete_ne, decide_False; [done|by apply not_elem_of_cons|done].
Qed.

Lemma invalidate_range_spec c start count : cache_wf c -> 0 <= count -> start + count <= u64_max ->
  cache_wf (invalidate_range c start count)
  /\ forall l, lines (invalidate_range c start count) !! l = if (start <=? l) && (l <? start + count) then None else lines c !! l.
Proof.
  intros Hc Hn Hb. unfold invalidate_range. destruct (Z.eqb_spec count 0) as [->|Hz].
  { split; [done|]. intros l. case_match; [lia|done]. }
  unfold saturating_add. rewrite Z.min_l by done. set (ks := List.filter _ _). destruct (drop_lines_spec ks c Hc) as [Hw Hl]. split; [done|].
  intros l. rewrite Hl. destruct (decide (l ∈ ks)) as [Hin|Hin].
  - unfold ks in Hin. rewrite list_elem_of_In, filter_In in Hin. destruct Hin as [_ Hin]. by rewrite Hin.
  - destruct ((start <=? l) && (l <? start + count)) eqn:E; [|done]. destruct (lines c !! l) as [v|] eqn:Ev; [|done]. exfalso. apply Hin.
    unfold ks. rewrite list_elem_of_In, filter_In. split; [|done]. apply list_elem_of_In, list_elem_of_fmap. exists (l, v). split; [done|].
    by apply elem_of_map_to_list.
Qed.

(** ** Coherence *)

Definition coherent (c : BlockCache) (f : Z -> list Z) : Prop := forall l data, lines c !! l = Some data -> data = f l.

Lemma coherent_sub c c' f : lines c' ⊆ lines c -> coherent c f -> coherent c' f.
Proof. intros Hs Hc l data E. apply Hc. by eapply lookup_weaken. Qed.

Lemma coherent_ext c f g : (forall l, f l = g l) -> coherent c f -> coherent c g.
Proof. intros E Hc l data Hl. rewrite <- E. by apply Hc. Qed.

Lemma insert_written_spec c lba s : cache_wf c -> cache_wf (insert_written c lba s)
  /\ forall l data, lines (insert_written c lba s) !! l = Some data -> (l = lba /\ data = s) \/ (l <> lba /\ lines c !! l = Some data).
Proof.
  intros Hc. unfold insert_written. destruct (lines c !! lba) as [old|] eqn:Eo.
  - split.
    + destruct Hc as [Hn Hd Hs]. constructor; cbn [clock lines]; [done| |by rewrite map_size_insert_Some by eauto].
      intros k. rewrite Hd, lookup_insert_is_Some'. split; [by right|]. intros [->|?]; [by eexists|done].
    + cbn [lines]. intros l data [[-> ->]|[Hn ?]]%lookup_insert_Some; [by left|right; by split].
  - destruct (maybe_evict_spec c Hc) as (H1 & H2 & H3). cbn [lines clock clock_hand]. split.
    + apply add_line; [done| |done]. by apply (lookup_weaken_None _ (lines c)).
    + intros l data [[-> ->]|[Hn Hl]]%lookup_insert_Some; [by left|right]. split; [done|]. by eapply lookup_weaken.
Qed.

(** The requests the theorems are about: in range, not empty, and no writes from
    physical addresses. *)
Record io_ok (r : IoRequest) : Prop := {
  ok_lba : 0 <= r_lba r;
  ok_count : 1 <= r_count r;
  ok_end : r_lba r + r_count r <= u64_max;
  ok_write : r_write r = true -> buffered_write r = true
}.

Definition roomy (r : IoRequest) : Prop := forall b, payload (r_buffer r) = Some b -> 512 * r_count r <= Z.of_nat (length b).

Lemma apply_write_ok c f r : cache_wf c -> coherent c f -> io_ok r -> buffered_write r = true -> roomy r ->
  cache_wf (apply_write_to_cache c r) /\ coherent (apply_write_to_cache c r) (store_req r f).
Proof.
  intros Hc Hf [H0 H1 H2 _] Hw Hr. unfold apply_write_to_cache, store_req.
  destruct (payload (r_buffer r)) as [b|] eqn:Ep; [|unfold buffered_write in Hw; destruct (r_buffer r); try done; by rewrite andb_false_r in Hw].
  destruct ((r_count r <=? 1) && Nat.eqb (length b) 512) eqn:E.
  - apply andb_true_iff in E as [E1%Z.leb_le E2%Nat.eqb_eq]. destruct (insert_written_spec c (r_lba r) b Hc) as [W Hl]. split; [done|].
    intros l data El. unfold covers. destruct (Hl l data El) as [[-> ->]|[Hn El']].
    + rewrite (proj2 (andb_true_iff _ _)) by lia. rewrite Z.sub_diag. change (Z.to_nat (512 * 0)) with 0%nat. rewrite drop_0. by rewrite take_ge by lia.
    + rewrite (proj2 (andb_false_iff _ _)) by lia. by apply Hf.
  - destruct (invalidate_range_spec c (r_lba r) (r_count r) Hc ltac:(lia) H2) as [W Hl]. split; [done|].
    intros l data El. rewrite Hl in El. unfold covers. case_match; [done|]. by apply Hf.
Qed.

Lemma apply_writes_ok run : forall c f, cache_wf c -> coherent c f -> Forall io_ok run -> Forall (fun r => buffered_write r = true) run ->
  Forall roomy run -> cache_wf (fold_left apply_write_to_cache run c) /\ coherent (fold_left apply_write_to_cache run c) (store_all run f).
Proof.
  induction run as [|r run IH]; intros c f Hc Hf Hok Hw Hr; [done|]. apply Forall_cons in Hok as [Ho Hok].
  apply Forall_cons in Hw as [Hw1 Hw]. apply Forall_cons in Hr as [Hr1 Hr]. cbn [fold_left store_all].
  destruct (apply_write_ok c f r Hc Hf Ho Hw1 Hr1). by apply IH.
Qed.

Lemma invalidate_all_ok run : forall c, cache_wf c -> Forall io_ok run -> cache_wf (fold_left invalidate_req run c)
  /\ forall l data, lines (fold_left invalidate_req run c) !! l = Some data -> lines c !! l = Some data /\ Forall (fun r => covers r l = false) run.
Proof.
  induction run as [|r run IH]; intros c Hc Hok; [done|]. apply Forall_cons in Hok as [[H0 H1 H2 _] Hok]. cbn [fold_left].
  destruct (invalidate_range_spec c (r_lba r) (r_count r) Hc ltac:(lia) H2) as [W Hl].
  destruct (IH (invalidate_req c r) W Hok) as [W' Hl']. split; [done|]. intros l data El. destruct (Hl' l data El) as [E1 F1].
  unfold invalidate_req in E1. rewrite Hl in E1. destruct (_ && _) eqn:E; [done|]. split; [done|]. by constructor.
Qed.

(** ** Operations *)

(** A buffer of any length after a read. *)
Definition read_into (buf data : list Z) : list Z := take (length buf) data ++ drop (length data) buf.

Section Ops.
Context `{IoLaws D} `{!AtomicErrors D} `{Profile}.
Implicit Types st : CachedDevice D.

Record good st : Prop := { gd_wf : cache_wf (cache st); gd_lines : coherent (cache st) (content (inner st)) }.

Lemma read_one (d : D) lba : fill (replicate 512 0) (flat_map (content d) (seqZ lba 1)) = content d lba.
Proof.
  replace (seqZ lba 1) with [lba] by (rewrite seqZ_cons by lia; done). cbn [flat_map]. rewrite app_nil_r.
  unfold fill. by rewrite content_length, drop_ge, app_nil_r by (by rewrite length_replicate).
Qed.

Lemma contents_length' (d : D) lba count : 0 <= count -> Z.of_nat (length (flat_map (content d) (seqZ lba count))) = 512 * count.
Proof.
  intros Hc. rewrite <- (Z2Nat.id count) by done. generalize (Z.to_nat count) as n. clear Hc. intros n. revert lba.
  induction n as [|n IH]; intros lba; [done|]. rewrite seqZ_cons by lia. cbn [flat_map]. rewrite length_app, content_length.
  replace (Z.pred (Z.of_nat (S n))) with (Z.of_nat n) by lia. rewrite Nat2Z.inj_add, IH. lia.
Qed.

(** The device carries out the request, by its own account. *)
Definition served (d : D) (r : IoRequest) : bool := match (submit d [r]).2 with Some (c, _) => all_ok c | None => false end.

(** It does not serve a read of these sectors. *)
Definition read_fails (d : D) (lba count : Z) : Prop :=
  exists buf, forall c b, (submit d [mkReq lba count (Buf buf) false]).2 = Some (c, [b]) -> all_ok c = false.

Lemma cache_read_ok st lba st' r : good st -> cache_read st lba = (st', r) ->
  good st' /\ (forall l, content (inner st') l = content (inner st) l) /\ (forall data, r = Some data -> data = content (inner st) lba)
  /\ (r = None -> read_fails (inner st) lba 1).
Proof.
  intros [Hw Hc] E. unfold cache_read in E. destruct (lines (cache st) !! lba) as [data|] eqn:El.
  { injection E as <- <-. split_and!; [done|done| |done]. intros ? [= <-]. by apply Hc. }
  assert (Forall (fun r => r_write r = false) [mkReq lba 1 (Buf (replicate 512 0)) false]) as Hr by (repeat constructor).
  pose proof (reads_keep (inner st) [mkReq lba 1 (Buf (replicate 512 0)) false]) as Hk.
  pose proof (submit_reads (inner st) [mkReq lba 1 (Buf (replicate 512 0)) false]) as Hrd.
  destruct (submit (inner st) _) as [d res] eqn:Es. cbn [fst snd] in *.
  assert (forall l, content d l = content (inner st) l) as Hd by (intros l; by apply Hk).
  assert (good (mkCached d (cache st))) as Hg.
  { constructor; cbn [cache inner]; [done|]. eapply coherent_ext; [|exact Hc]. intros l. by rewrite Hd. }
  assert ((forall c b, res = Some (c, [b]) -> all_ok c = false) -> read_fails (inner st) lba 1) as Hno.
  { intros Hres. exists (replicate 512 0). rewrite Es. exact Hres. }
  destruct res as [[c bufs]|]; [|injection E as <- <-; by split_and!; [..|intros _; apply Hno]].
  destruct bufs as [|buf [|]]; [injection E as <- <-; by split_and!; [..|intros _; apply Hno]| |injection E as <- <-; by split_and!; [..|intros _; apply Hno]].
  destruct (all_ok c) eqn:Ec; [|injection E as <- <-; split_and!; [done|done|done|intros _; apply Hno; by intros ? ? [= <- <-]]]. injection E as <- <-.
  destruct (Hrd c [buf] 0%nat _ (replicate 512 0) eq_refl Ec Hr eq_refl eq_refl ltac:(cbn; lia)) as [_ Eb].
  change (Some buf = Some (fill (replicate 512 0) (flat_map (content (inner st)) (seqZ lba 1)))) in Eb.
  rewrite read_one in Eb. injection Eb as ->.
  destruct (maybe_evict_spec (cache st) Hw) as (W1 & W2 & W3). split_and!.
  - constructor; cbn [cache inner].
    + apply add_line; [done| |done]. by apply (lookup_weaken_None _ (lines (cache st))).
    + intros l data Hl. cbn [lines] in Hl. rewrite Hd. apply lookup_insert_Some in Hl as [[-> ->]|[_ Hl]]; [done|].
      apply Hc. by eapply lookup_weaken.
  - done.
  - by intros ? [= <-].
  - done.
Qed.

Lemma read_io_ok st r : good st -> io_ok r -> r_write r = false -> exists st' b, read_io st r = Ok (st', b) /\ good st'
  /\ (forall l, content (inner st') l = content (inner st) l)
  /\ (forall x, b = Some x -> exists buf, r_buffer r = Buf buf /\ x = read_into buf (flat_map (content (inner st)) (seqZ (r_lba r) (r_count r))))
  /\ (b = None -> (exists buf, r_buffer r = Buf buf) -> read_fails (inner st) (r_lba r) (r_count r)).
Proof.
  intros Hg [O1 O2 O3 _] Hr. unfold read_io.
  destruct (r_buffer r) as [buf|buf|pa sz] eqn:Eb; [|eexists st, None; split_and!; [done..|by intros _ [? ?]]|eexists st, None; split_and!; [done..|by intros _ [? ?]]].
  destruct (Z.ltb_spec 1 (r_count r)) as [Hc|Hc].
  - set (q := mkReq (r_lba r) (r_count r) (Buf buf) false). assert (Forall (fun r => r_write r = false) [q]) as Hq by (repeat constructor).
    pose proof (reads_keep (inner st) [q]) as Hk. pose proof (submit_reads (inner st) [q]) as Hrd.
    destruct (submit (inner st) [q]) as [d res] eqn:Es. cbn [fst snd] in *.
    assert (forall l, content d l = content (inner st) l) as Hd by (intros l; by apply Hk).
    assert (good (mkCached d (cache st))) as Hg'.
    { destruct Hg as [W C]. constructor; cbn [cache inner]; [done|]. eapply coherent_ext; [|exact C]. intros l. by rewrite Hd. }
    assert ((forall c b, res = Some (c, [b]) -> all_ok c = false) -> read_fails (inner st) (r_lba r) (r_count r)) as Hno.
    { intros Hres. exists buf. fold q. rewrite Es. exact Hres. }
    destruct res as [[c bufs]|]; [|eexists _, None; by split_and!; [..|intros _ _; apply Hno]].
    destruct bufs as [|b [|]]; [eexists _, None; by split_and!; [..|intros _ _; apply Hno]| |eexists _, None; by split_and!; [..|intros _ _; apply Hno]].
    destruct (all_ok c) eqn:Ec; [|eexists _, None; split_and!; [done..|intros _ _; apply Hno; by intros ? ? [= <- <-]]].
    eexists _, _; (split; [reflexivity|]); (split; [done|]); (split; [done|]); split; [|done].
    intros x [= <-]. exists buf. split; [done|].
    destruct (Hrd c [b] 0%nat q buf eq_refl Ec Hq eq_refl eq_refl ltac:(cbn; lia)) as [Hlen Hb].
    change (Some b = Some (fill buf (flat_map (content (inner st)) (seqZ (r_lba r) (r_count r))))) in Hb. injection Hb as ->.
    unfold fill, read_into. rewrite take_ge; [done|]. cbn [q r_count] in Hlen.
    pose proof (contents_length' (inner st) (r_lba r) (r_count r) ltac:(lia)). lia.
  - unfold read_raw, debug_assert. rewrite (proj2 (Z.leb_le _ _)), andb_false_r by lia. cbn [res_bind].
    destruct (cache_read st (r_lba r)) as [st' data] eqn:E. destruct (cache_read_ok st (r_lba r) st' data Hg E) as (G & K & Hd & Hno).
    destruct data as [data|].
    2: { eexists _, None. split_and!; [done..|]. intros _ _. replace (r_count r) with 1 by lia. by apply Hno. }
    eexists _, _. split; [reflexivity|]. split; [done|]. split; [done|]. split; [|done].
    intros x [= <-]. exists buf. split; [done|]. replace (r_count r) with 1 by lia. rewrite (Hd data eq_refl).
    replace (seqZ (r_lba r) 1) with [r_lba r] by (rewrite seqZ_cons by lia; done). cbn [flat_map]. rewrite app_nil_r.
    unfold read_into. rewrite content_length. unfold copy_len. destruct (Nat.le_gt_cases 512 (length buf)) as [Hl|Hl].
    + rewrite Nat.min_l by done. rewrite !take_ge by (rewrite content_length; lia). done.
    + rewrite Nat.min_r by lia. rewrite !drop_ge by lia. done.
Qed.

(** What the device reports of a run of writes; all of it has failed if it refuses. *)
Definition run_counts (d : D) (run : list IoRequest) : IoCompletions :=
  match (submit d run).2 with Some (c, _) => c | None => {| completed := 0; errors := Z.of_nat (length run) |} end.

Lemma write_run_ok st run st' c : good st -> Forall io_ok run -> Forall (fun r => buffered_write r = true) run ->
  write_run st run = (st', c) -> good st' /\ inner st' = (submit (inner st) run).1 /\ c = run_counts (inner st) run.
Proof.
  intros [W C] Hok Hw E. unfold write_run in E. unfold run_counts. pose proof (submit_frame (inner st) run) as Hf.
  pose proof (submit_stores (inner st) run) as Hs. pose proof (submit_err (inner st) run) as He.
  destruct (submit (inner st) run) as [d res] eqn:Es. cbn [fst snd] in *. destruct res as [[c' bufs]|].
  - injection E as <- <-. cbn [inner]. split; [|done]. constructor; cbn [cache inner].
    + destruct (all_ok c') eqn:Ec; [|by apply invalidate_all_ok]. destruct (Hs c' bufs eq_refl Ec Hw) as [Hr _]. by eapply apply_writes_ok.
    + destruct (all_ok c') eqn:Ec.
      * destruct (Hs c' bufs eq_refl Ec Hw) as [Hr Hl]. apply (coherent_ext _ (store_all run (content (inner st)))); [intros l; by rewrite Hl|].
        by apply apply_writes_ok.
      * destruct (invalidate_all_ok run (cache st) W Hok) as [_ Hl]. intros l data El. destruct (Hl l data El) as [E1 F1].
        rewrite Hf; [by apply C|]. eapply Forall_impl; [exact F1|]. done.
  - injection E as <- <-. cbn [inner]. split; [|done]. constructor; cbn [cache inner]; [done|].
    eapply coherent_ext; [|exact C]. intros l. by rewrite He.
Qed.

Lemma phys_io_ok st r st' b : good st -> io_ok r -> r_write r = false -> phys_io st r = (st', b) ->
  good st' /\ inner st' = (submit (inner st) [r]).1 /\ b = served (inner st) r.
Proof.
  intros [W C] Hok Hr E. unfold phys_io in E. unfold served. pose proof (reads_keep (inner st) [r]) as Hk.
  destruct (submit (inner st) [r]) as [d res]. cbn [fst snd] in *.
  assert (good (mkCached d (cache st))) as Hg.
  { constructor; cbn [cache inner]; [done|]. eapply coherent_ext; [|exact C]. intros l. rewrite Hk; [done|]. by repeat constructor. }
  destruct res as [[c bufs]|]; [|injection E as <- <-; done]. rewrite Hr in E. destruct (all_ok c); injection E as <- <-; done.
Qed.

(** ** The device behind the cache *)

Definition add_counts (a c : IoCompletions) : IoCompletions :=
  {| completed := completed a + completed c; errors := errors a + errors c |}.

(** What the requests do without a cache, counting from [acc].  A read into a buffer
    succeeds and gives what the device holds, or the device does not serve it; a read
    to a physical address and a run of writes are requests to the device, which counts
    them.  [out] is the buffers of the reads that succeeded. *)
Inductive plain : D -> IoCompletions -> list IoRequest -> IoCompletions -> list (option (list Z)) -> D -> Prop :=
  | plain_done d acc : plain d acc [] acc [] d
  | plain_read d d1 acc r rest b c out d' : r_write r = false -> (forall pa sz, r_buffer r <> Phys pa sz) ->
      (forall l, content d1 l = content d l) ->
      (forall x, b = Some x -> exists buf, r_buffer r = Buf buf /\ x = read_into buf (flat_map (content d) (seqZ (r_lba r) (r_count r)))) ->
      (b = None -> (exists buf, r_buffer r = Buf buf) -> read_fails d (r_lba r) (r_count r)) ->
      plain d1 (count_ok acc (bool_decide (is_Some b))) rest c out d' -> plain d acc (r :: rest) c (b :: out) d'
  | plain_phys d acc r rest c out d' pa sz : r_write r = false -> r_buffer r = Phys pa sz ->
      plain (submit d [r]).1 (count_ok acc (served d r)) rest c out d' -> plain d acc (r :: rest) c (None :: out) d'
  | plain_run d acc run rest c out d' : run <> [] -> Forall (fun r => buffered_write r = true) run ->
      plain (submit d run).1 (add_counts acc (run_counts d run)) rest c out d' ->
      plain d acc (run ++ rest) c (map (fun _ => None) run ++ out) d'.

Lemma run_of_spec reqs : let '(run, rest) := run_of reqs in
  reqs = run ++ rest /\ Forall (fun r => buffered_write r = true) run /\ (length rest <= length reqs)%nat.
Proof.
  induction reqs as [|r reqs IH]; cbn [run_of]; [done|]. destruct (buffered_write r) eqn:E; [|done].
  destruct (run_of reqs) as [run rest]. destruct IH as (-> & Hw & Hl). split_and!; [done|by constructor|]. cbn [length]. lia.
Qed.

Lemma submit_loop_ok n : forall st reqs acc out, good st -> Forall io_ok reqs -> (length reqs <= n)%nat ->
  exists st' c out', submit_loop n st reqs acc out = Ok (st', c, out ++ out') /\ good st' /\ plain (inner st) acc reqs c out' (inner st').
Proof.
  induction n as [|n IH]; intros st reqs acc out Hg Hok Hl.
  { destruct reqs; [|cbn in Hl; lia]. eexists st, acc, []. cbn [submit_loop]. rewrite app_nil_r. split_and!; [done|done|constructor]. }
  destruct reqs as [|r rest]; [eexists st, acc, []; cbn [submit_loop]; rewrite app_nil_r; split_and!; [done|done|constructor]|].
  pose proof Hok as [Hr Hrest]%Forall_cons. cbn [length] in Hl.
  assert (r_write r = false -> (exists pa sz, r_buffer r = Phys pa sz) \/ (forall pa sz, r_buffer r <> Phys pa sz)) as Hph.
  { intros _. destruct (r_buffer r); [right|right|left; by eexists _, _]; done. }
  destruct (r_write r) eqn:Ew.
  - pose proof (ok_write r Hr Ew) as Hbw. pose proof (run_of_spec (r :: rest)) as Hrun.
    destruct (run_of (r :: rest)) as [run rest'] eqn:Er. destruct Hrun as (Eq & Hw & _).
    assert (run <> []) as Hne. { cbn [run_of] in Er. rewrite Hbw in Er. destruct (run_of rest). by injection Er as <- _. }
    rewrite Eq in Hok. apply Forall_app in Hok as [Hok1 Hok2].
    destruct (write_run st run) as [st1 c1] eqn:E1. destruct (write_run_ok st run st1 c1 Hg Hok1 Hw E1) as (G1 & D1 & C1).
    assert (length rest' <= n)%nat as Hl'.
    { apply (f_equal length) in Eq. rewrite length_app in Eq. cbn [length] in Eq. destruct run; [done|]. cbn [length] in Eq. lia. }
    destruct (IH st1 rest' {| completed := completed acc + completed c1; errors := errors acc + errors c1 |}
      (out ++ map (fun _ => None) run) G1 Hok2 Hl') as (st' & c & out' & E & G & P).
    exists st', c, (map (fun _ => None) run ++ out'). split_and!; [|done|rewrite Eq; apply plain_run; [done|done|by rewrite <- D1, <- C1]].
    cbn [submit_loop]. rewrite Er, E1, Ew, E, app_assoc. unfold buffered_write in Hbw. destruct (r_buffer r); [done|done|].
    by rewrite andb_false_r in Hbw.
  - destruct (Hph eq_refl) as [(pa & sz & Eb)|Hnp].
    + destruct (phys_io st r) as [st1 b] eqn:E1. destruct (phys_io_ok st r st1 b Hg Hr Ew E1) as (G1 & D1 & B1).
      destruct (IH st1 rest (count_ok acc b) (out ++ [None]) G1 Hrest ltac:(lia)) as (st' & c & out' & E & G & P).
      exists st', c, (None :: out'). split_and!; [|done|].
      * cbn [submit_loop]. rewrite Eb, E1, E, <- app_assoc. done.
      * eapply plain_phys; [done|done|]. by rewrite <- D1, <- B1.
    + destruct (read_io_ok st r Hg Hr Ew) as (st1 & b & E1 & G1 & K1 & B1 & N1).
      destruct (IH st1 rest (count_ok acc (bool_decide (is_Some b))) (out ++ [b]) G1 Hrest ltac:(lia)) as (st' & c & out' & E & G & P).
      exists st', c, (b :: out'). split_and!; [|done|by eapply plain_read].
      cbn [submit_loop]. rewrite E1, Ew. cbn [res_bind]. rewrite E, <- app_assoc. destruct (r_buffer r) eqn:Eb; [done|done|].
      by destruct (Hnp pa size).
Qed.

(** C13: A batch through the cache does what it would do without one, for requests of
    at least one sector that end below 2^64 and do not write from physical addresses.
    Every read into a buffer that succeeds returns what the device holds at that point,
    and one that fails is one the device does not serve; writes, and reads to physical
    addresses, reach the device as they are; the counts of completed and failed
    requests are those of the device for these, and of the outcomes of the reads.
    Afterwards the cache is still coherent with the device and holds at most 4096
    lines.  The device may fail any request; a batch it refuses as a whole must have
    written nothing. *)
Theorem cache_transparent st reqs : good st -> Forall io_ok reqs ->
  exists st' c out, cached_submit st reqs = Ok (st', c, out) /\ plain (inner st) {| completed := 0; errors := 0 |} reqs c out (inner st') /\ good st'
    /\ Z.of_nat (size (lines (cache st'))) <= CACHE_SIZE.
Proof.
  intros Hg Hok. destruct (submit_loop_ok (length reqs) st reqs {| completed := 0; errors := 0 |} [] Hg Hok ltac:(lia)) as (st' & c & out & E & G & P).
  exists st', c, out. split_and!; [exact E|done|done|]. apply (cw_size _ (gd_wf st' G)).
Qed.

Lemma new_good (d : D) : good (mkCached d new_cache).
Proof. constructor; [constructor; [constructor| |done]|]; cbn; [|done]. intros k. rewrite lookup_empty. split; [by intros ?%not_elem_of_nil|by intros [? ?]]. Qed.
End Ops.

(** ** Examples *)

Definition blank : RamDisk := mkRam (fun _ => []) 8.
Definition sector_of (b : Z) : list Z := replicate 512 b.
Definition wr (lba b : Z) : IoRequest := mkReq lba 1 (ConstBuf (sector_of b)) true.
Definition rd (lba : Z) : IoRequest := mkReq lba 1 (Buf (sector_of 0)) false.

Lemma cache_transparent_witness : exists st' c, cached_submit (H0 := true) (mkCached blank new_cache) [wr 2 7; rd 2] = Ok (st', c, [None; Some (sector_of 7)])
  /\ good st'.
Proof.
  destruct (cache_transparent (H1 := true) (mkCached blank new_cache) [wr 2 7; rd 2] (new_good blank)) as (st' & c & out & E & _ & G & _).
  - repeat constructor; vm_compute; congruence.
  - exists st', c. split; [|exact G]. rewrite E.
    assert (exists st c, cached_submit (H0 := true) (mkCached blank new_cache) [wr 2 7; rd 2] = Ok (st, c, [None; Some (sector_of 7)])) as (s1 & c1 & E1).
    { eexists _, _. vm_compute. reflexivity. }
    rewrite E in E1. injection E1 as -> -> ->. reflexivity.
Defined.

(** A driver with one command slot serves the first request of a batch and counts
    only that one. *)
Record OneSlot := mkOneSlot { one_disk : RamDisk }.

#[local] Instance OneSlot_io : IoDevice OneSlot := {
  content d := ram_content (one_disk d);
  io_sectors d := ram_size (one_disk d);
  submit d reqs := let '(d', r) := ram_submit (one_disk d) (take 1 reqs) in (mkOneSlot d', r)
}.

Definition answer {D} (r : res unit (CachedDevice D * IoCompletions * list (option (list Z)))) (d : CachedDevice D) :
  CachedDevice D * bool * list (option (list Z)) :=
  match r with Ok (st, c, out) => (st, all_ok c, out) | _ => (d, false, []) end.

(** With such a driver the second write of a batch is reported as done and never
    reaches the disk; the cache hides it until its line is evicted. *)
Theorem batch_write_lost :
  let st := mkCached (mkOneSlot blank) new_cache in
  let '(st1, ok, _) := answer (cached_submit (H0 := true) st [wr 2 7; wr 3 8]) st in
  ok = true /\ content (inner st1) 3 = sector_of 0
  /\ (answer (cached_submit (H0 := true) st1 [rd 3]) st1).2 = [Some (sector_of 8)].
Proof. vm_compute. done. Qed.

(** A driver that gives up in the middle of a batch. *)
Record Quitter := mkQuitter { quit_disk : RamDisk }.

#[local] Instance Quitter_io : IoDevice Quitter := {
  content d := ram_content (quit_disk d);
  io_sectors d := ram_size (quit_disk d);
  submit d reqs :=
    let '(d', r) := ram_submit (quit_disk d) (take 1 reqs) in
    (mkQuitter d', if (1 <? length reqs)%nat then None else r)
}.

(** The line of a sector that was written before the driver gave up stays in the
    cache: reads return the old bytes. *)
Theorem failed_batch_stale :
  let st := mkCached (mkQuitter blank) new_cache in
  let '(st1, _, _) := answer (cached_submit (H0 := true) st [rd 2]) st in
  let '(st2, ok, _) := answer (cached_submit (H0 := true) st1 [wr 2 7; wr 3 8]) st1 in
  ok = false /\ content (inner st2) 2 = sector_of 7
  /\ (answer (cached_submit (H0 := true) st2 [rd 2]) st2).2 = [Some (sector_of 0)].
Proof. vm_compute. done. Qed.

(** A write of no sectors puts its buffer into the cache. *)
Theorem empty_write_cached :
  let st := mkCached blank new_cache in
  let '(st1, ok, _) := answer (cached_submit (H0 := true) st [mkReq 2 0 (ConstBuf (sector_of 7)) true]) st in
  ok = true /\ content (inner st1) 2 = sector_of 0
  /\ (answer (cached_submit (H0 := true) st1 [rd 2]) st1).2 = [Some (sector_of 7)].
Proof. vm_compute. done. Qed.
