(* ===== verification/Partition.v ===== *)
(** * Partition tables

    Model of kernel/src/filesystems/partition: the parsers of MBR tables with
    their chain of extended records and of GPT tables with their checksums, the
    choice between them, and the device that is one partition of a disk.  Errors
    are the messages of the source. *)

From S2P Require Import Prelude BlockDev BlockIo.
Local Open Scope Z_scope.

Definition SECTOR_SIZE : Z := 512.
Definition MAX_EBR_CHAIN : nat := 100.

Record PartitionInfo := mkInfo {
  pi_number : Z;
  pi_start : Z;
  pi_end : Z;
  pi_size : Z;
  pi_type : option Z;
  pi_guid_type : option (list Z);
  pi_guid_unique : option (list Z);
  pi_name : option (list Z);
  pi_extended : bool
}.

Inductive PartitionTable := Mbr (l : list PartitionInfo) | Gpt (l : list PartitionInfo).

Definition partitions (t : PartitionTable) : list PartitionInfo := match t with Mbr l | Gpt l => l end.

(** Fields of a sector. *)
Definition byte_at (b : list Z) (off : nat) : Z := nth off b 0.
Definition slice (b : list Z) (off n : nat) : list Z := take n (drop off b).
Definition le_at (b : list Z) (off n : nat) : Z := le_val (slice b off n).

(** ** Checksums *)

Definition crc_bit (crc : Z) : Z :=
  if negb (Z.land crc 1 =? 0) then Z.lxor (Z.shiftr crc 1) 3988292384 else Z.shiftr crc 1.

Definition crc_byte (crc byte : Z) : Z := Nat.iter 8 crc_bit (Z.lxor crc byte).

Definition crc32 (buf : list Z) : Z := Z.lxor (fold_left crc_byte buf 4294967295) 4294967295.

(** ** Reading *)

Section Parse.
Context `{IoDevice D} `{Profile}.

(** A computation that reads the device. *)
Definition io (A : Type) : Type := D -> D * res string A.

Definition io_ret {A} (a : A) : io A := fun d => (d, Ok a).
Definition io_err {A} (e : string) : io A := fun d => (d, Err e).
Definition io_res {A} (r : res string A) : io A := fun d => (d, r).
Definition io_bind {A B} (m : io A) (k : A -> io B) : io B := fun d =>
  match m d with
  | (d, Ok a) => k a d
  | (d, Err e) => (d, Err e)
  | (d, Panic) => (d, Panic)
  end.

Notation "'io!' x := m 'in' k" := (io_bind m (fun x => k)) (at level 200, x name, m at level 100, k at level 200).

Definition read_with (error : string) (lba count : Z) : io (list Z) := fun d =>
  match submit d [mkReq lba count (Buf (replicate (Z.to_nat (512 * count)) 0)) false] with
  | (d, None) => (d, Err "device error"%string)
  | (d, Some (c, bufs)) => if negb (all_ok c) then (d, Err error) else (d, Ok (default [] (head bufs)))
  end.

Definition read_sector (lba : Z) : io (list Z) := read_with "sector read error" lba 1.
Definition read_sectors (lba count : Z) : io (list Z) := read_with "multi-sector read error" lba count.

(** ** MBR *)

Definition mbr_info (number start end_excl count typ : Z) (ext : bool) : PartitionInfo :=
  mkInfo number start (end_excl - 1) count (Some typ) None None None ext.

(** The entry in slot [i] of the first sector. *)
Definition mbr_entry (dev_sectors : Z) (sector : list Z) (i : nat) : res string (option PartitionInfo) :=
  let offset := (446 + i * 16)%nat in
  let typ := byte_at sector (offset + 4) in
  if typ =? 0 then Ok None
  else if typ =? 238 then Ok None
  else
    let start_lba := le_at sector (offset + 8) 4 in
    let sector_count := le_at sector (offset + 12) 4 in
    if sector_count =? 0 then Ok None
    else
      match checked_add_u64 start_lba sector_count with
      | None => Err "partition range overflow"%string
      | Some end_excl =>
          if dev_sectors <? end_excl then Err "partition extends beyond device"%string
          else Ok (Some (mbr_info (Z.of_nat i + 1) start_lba end_excl sector_count typ ((typ =? 5) || (typ =? 15))))
      end.

Fixpoint mbr_entries (dev_sectors : Z) (sector : list Z) (slots : list nat) : res string (list PartitionInfo) :=
  match slots with
  | [] => Ok []
  | i :: slots =>
      let? p := mbr_entry dev_sectors sector i in
      let? l := mbr_entries dev_sectors sector slots in
      Ok (option_list p ++ l)
  end.

(** The logical partition that an extended record describes. *)
Definition ebr_entry (dev_sectors ext_limit next_ebr_lba logical_num : Z) (ebr : list Z) : res string (option PartitionInfo) :=
  let typ0 := byte_at ebr 450 in
  if typ0 =? 0 then Ok None
  else
    let rel_start := le_at ebr 454 4 in
    let sector_count := le_at ebr 458 4 in
    if sector_count =? 0 then Ok None
    else
      match checked_add_u64 next_ebr_lba rel_start with
      | None => Err "EBR chain overflow"%string
      | Some abs_lba =>
          match checked_add_u64 abs_lba sector_count with
          | None => Err "partition range overflow"%string
          | Some end_excl =>
              if dev_sectors <? end_excl then Err "logical partition extends beyond device"%string
              else if ext_limit <? end_excl then Err "logical partition outside extended extent"%string
              else Ok (Some (mbr_info logical_num abs_lba end_excl sector_count typ0 false))
          end
      end.

(** The chain of extended records, at most [fuel] of them. *)
Fixpoint ebr_chain (fuel : nat) (dev_sectors ext_base ext_limit next_ebr_lba logical_num : Z) : io (list PartitionInfo) :=
  match fuel with
  | O => io_ret []
  | S fuel =>
      io! ebr := read_sector next_ebr_lba in
      if negb (byte_at ebr 510 =? 85) || negb (byte_at ebr 511 =? 170) then io_ret []
      else
        io! p := io_res (ebr_entry dev_sectors ext_limit next_ebr_lba logical_num ebr) in
        let typ1 := byte_at ebr 466 in
        let next_rel := le_at ebr 470 4 in
        if (typ1 =? 0) || (next_rel =? 0) then io_ret (option_list p)
        else
          match checked_add_u64 ext_base next_rel with
          | None => io_err "EBR chain overflow"
          | Some next =>
              io! l := ebr_chain fuel dev_sectors ext_base ext_limit next (match p with Some _ => logical_num + 1 | None => logical_num end) in
              io_ret (option_list p ++ l)
          end
  end.

(** The extended partition, the last one if there are several. *)
Definition extended_of (l : list PartitionInfo) : option PartitionInfo := last (List.filter pi_extended l).

Definition mbr_parse (sector : list Z) : io (list PartitionInfo) := fun d =>
  let dev_sectors := io_sectors d in
  match mbr_entries dev_sectors sector [0; 1; 2; 3]%nat with
  | Err e => (d, Err e)
  | Panic => (d, Panic)
  | Ok primaries =>
      match extended_of primaries with
      | None => (d, Ok primaries)
      | Some e =>
          (io! l := ebr_chain MAX_EBR_CHAIN dev_sectors (pi_start e) (pi_start e + pi_size e) (pi_start e) 5 in
           io_ret (primaries ++ l)) d
      end
  end.

(** ** GPT *)

Definition REPLACEMENT : Z := 65533.

(** [char::from_u32]. *)
Definition from_u32 (cp : Z) : Z :=
  if (1114111 <? cp) || ((55296 <=? cp) && (cp <=? 57343)) then REPLACEMENT else cp.

Fixpoint decode_utf16 (units : list Z) : list Z :=
  match units with
  | [] => []
  | u :: rest =>
      if u =? 0 then []
      else if (55296 <=? u) && (u <=? 56319) then
        match rest with
        | u2 :: rest' =>
            if (56320 <=? u2) && (u2 <=? 57343) then
              from_u32 (Z.lor (Z.lor (Z.shiftl (u - 55296) 10) (u2 - 56320)) 65536) :: decode_utf16 rest'
            else REPLACEMENT :: decode_utf16 rest
        | [] => REPLACEMENT :: decode_utf16 rest
        end
      else if (56320 <=? u) && (u <=? 57343) then REPLACEMENT :: decode_utf16 rest
      else from_u32 u :: decode_utf16 rest
  end.

Definition decode_utf16_le (b : list Z) : list Z := decode_utf16 (map (fun i => le_at b (2 * i) 2) (seq 0 36)).

Definition gpt_entry (dev_sectors : Z) (i : nat) (entry : list Z) : res string (option PartitionInfo) :=
  let guid := slice entry 0 16 in
  if bool_decide (guid = replicate 16 0) then Ok None
  else
    let start_lba := le_at entry 32 8 in
    let end_lba := le_at entry 40 8 in
    if end_lba <? start_lba then Err "GPT entry range invalid"%string
    else
      let? size_sectors := u64_add (end_lba - start_lba) 1 in
      if dev_sectors <=? end_lba then Err "GPT partition extends beyond device"%string
      else
        let name := decode_utf16_le (drop 56 entry) in
        Ok (Some (mkInfo (Z.of_nat i + 1) start_lba end_lba size_sectors None (Some guid) (Some (slice entry 16 16))
          (if bool_decide (name = []) then None else Some name) false)).

Fixpoint gpt_entries (dev_sectors : Z) (entries : list Z) (entry_size : nat) (idx : list nat) : res string (list PartitionInfo) :=
  match idx with
  | [] => Ok []
  | i :: idx =>
      if (length entries <? i * entry_size + 128)%nat then Ok []
      else
        let? p := gpt_entry dev_sectors i (drop (i * entry_size) entries) in
        let? l := gpt_entries dev_sectors entries entry_size idx in
        Ok (option_list p ++ l)
  end.

Definition EFI_PART : list Z := [69; 70; 73; 32; 80; 65; 82; 84].

(** The checks on a header read from [hdr_lba]: the table's address, its number of
    entries, their size and their checksum. *)
Definition gpt_header (hdr_lba : Z) (buf : list Z) : res string (Z * Z * Z * Z) :=
  let header_size := le_at buf 12 4 in
  if negb (bool_decide (slice buf 0 8 = EFI_PART)) then Err "GPT signature not found"%string
  else if (header_size <? 92) || (512 <? header_size) then Err "GPT header size out of range"%string
  else if negb (le_at buf 24 8 =? hdr_lba) then Err "GPT header LBA mismatch"%string
  else if negb (crc32 (take 16 buf ++ [0; 0; 0; 0] ++ take (Z.to_nat header_size - 20) (drop 20 buf)) =? le_at buf 16 4)
  then Err "GPT header CRC mismatch"%string
  else
    let entry_size := le_at buf 84 4 in
    let num_entries := le_at buf 80 4 in
    if (entry_size <? 128) || (4096 <? entry_size) then Err "GPT entry size out of range"%string
    else if (num_entries =? 0) || (4096 <? num_entries) then Err "GPT too many partition entries"%string
    else Ok (le_at buf 72 8, num_entries, entry_size, le_at buf 88 4).

Definition gpt_parse_at (hdr_lba : Z) : io (list PartitionInfo) :=
  io! buf := read_sector hdr_lba in
  io! hdr := io_res (gpt_header hdr_lba buf) in
  let '(entry_lba, num_entries, entry_size, entries_crc) := hdr in
  let total_bytes := num_entries * entry_size in
  let sector_count := (total_bytes + SECTOR_SIZE - 1) / SECTOR_SIZE in
  fun d =>
    if match checked_add_u64 entry_lba sector_count with None => true | Some e => io_sectors d <? e end
    then (d, Err "GPT entry table out of device range"%string)
    else
      (io! entries := read_sectors entry_lba sector_count in
       if negb (crc32 (take (Z.to_nat total_bytes) entries) =? entries_crc) then io_err "GPT partition entries CRC mismatch"
       else io_res (gpt_entries (io_sectors d) entries (Z.to_nat entry_size) (seq 0 (Z.to_nat num_entries)))) d.

Definition gpt_parse : io (list PartitionInfo) := fun d =>
  match gpt_parse_at 1 d with
  | (d, Err primary_err) =>
      match checked_sub_u64 (io_sectors d) 1 with
      | None => (d, Err primary_err)
      | Some backup_lba =>
          match gpt_parse_at backup_lba d with
          | (d, Err _) => (d, Err primary_err)
          | r => r
          end
      end
  | r => r
  end.

(** ** The table *)

Fixpoint insert_by_start (p : PartitionInfo) (l : list PartitionInfo) : list PartitionInfo :=
  match l with
  | [] => [p]
  | q :: l => if pi_start p <=? pi_start q then p :: q :: l else q :: insert_by_start p l
  end.

(** A stable sort by the first sector. *)
Fixpoint sort_by_start (l : list PartitionInfo) : list PartitionInfo :=
  match l with [] => [] | p :: l => insert_by_start p (sort_by_start l) end.

Fixpoint check_windows (l : list PartitionInfo) : res string unit :=
  match l with
  | [] => Ok tt
  | a :: rest =>
      match rest with
      | [] => Ok tt
      | b :: _ =>
          match checked_add_u64 (pi_start a) (pi_size a) with
          | None => Err "partition range overflow"%string
          | Some a_end => if pi_start b <? a_end then Err "overlapping partitions"%string else check_windows rest
          end
      end
  end.

Definition real_partition (p : PartitionInfo) : bool := negb (pi_extended p) && (0 <? pi_size p).

Definition check_overlaps (parts : list PartitionInfo) : res string unit := check_windows (sort_by_start (List.filter real_partition parts)).

Definition checked (parts : list PartitionInfo) (t : list PartitionInfo -> PartitionTable) : io PartitionTable :=
  io! _ := io_res (check_overlaps parts) in io_ret (t parts).

Definition probe_table : io PartitionTable :=
  io! mbr := read_sector 0 in
  if negb (byte_at mbr 510 =? 85) || negb (byte_at mbr 511 =? 170) then io_err "no valid MBR or GPT signature"
  else if existsb (fun i => byte_at mbr (446 + i * 16 + 4) =? 238) [0; 1; 2; 3]%nat then
    fun d =>
      match gpt_parse d with
      | (d, Ok parts) => checked parts Gpt d
      | (d, Err gpt_err) =>
          match mbr_parse mbr d with
          | (d, Ok parts) => checked parts Mbr d
          | (d, Err _) => (d, Err gpt_err)
          | (d, Panic) => (d, Panic)
          end
      | (d, Panic) => (d, Panic)
      end
  else io! parts := mbr_parse mbr in checked parts Mbr.
End Parse.

(** ** A partition as a device *)

Record PartitionDevice (D : Type) := mkPart { p_inner : D; p_start : Z; p_count : Z }.
Arguments mkPart {_}.
Arguments p_inner {_}.
Arguments p_start {_}.
Arguments p_count {_}.

Definition new_partition {D} (inner : D) (info : PartitionInfo) : PartitionDevice D := mkPart inner (pi_start info) (pi_size info).

(** One request, moved to the partition's place on the disk. *)
Definition adjust (start sector_count partition_end : Z) (r : IoRequest) : res string IoRequest :=
  match checked_add_u64 (r_lba r) (r_count r) with
  | None => Err "partition request range overflow"%string
  | Some request_end =>
      if sector_count <? request_end then Err "partition LBA out of range"%string
      else
        match checked_add_u64 start (r_lba r) with
        | None => Err "partition LBA overflow"%string
        | Some lba =>
            if (partition_end <=? lba) && negb (r_count r =? 0) then Err "partition LBA out of range"%string
            else Ok (mkReq lba (r_count r) (r_buffer r) (r_write r))
        end
  end.

Fixpoint adjust_all (start sector_count partition_end : Z) (reqs : list IoRequest) : res string (list IoRequest) :=
  match reqs with
  | [] => Ok []
  | r :: reqs =>
      let? a := adjust start sector_count partition_end r in
      let? l := adjust_all start sector_count partition_end reqs in
      Ok (a :: l)
  end.

Definition partition_submit `{IoDevice D} (d : PartitionDevice D) (reqs : list IoRequest)
    : PartitionDevice D * option (IoCompletions * list (list Z)) :=
  match reqs with
  | [] => (d, Some ({| completed := 0; errors := 0 |}, []))
  | _ =>
      match checked_add_u64 (p_start d) (p_count d) with
      | None => (d, None)
      | Some partition_end =>
          match adjust_all (p_start d) (p_count d) partition_end reqs with
          | Ok adjusted => let '(inner, r) := submit (p_inner d) adjusted in (mkPart inner (p_start d) (p_count d), r)
          | _ => (d, None)
          end
      end
  end.

#[global] Instance PartitionDevice_io `{IoDevice D} : IoDevice (PartitionDevice D) := {
  content d l := content (p_inner d) (p_start d + l);
  io_sectors := p_count;
  submit := partition_submit
}.

#[global] Arguments decode_utf16_le : simpl never.
#[global] Arguments slice : simpl never.
#[global] Arguments le_at : simpl never.
#[global] Arguments crc32 : simpl never.
