(* ===== verification/PartitionFacts.v ===== *)
(** * Correctness of the partition layer

    A table that is accepted describes non-empty partitions that lie on the disk
    and do not overlap, and a partition is a block device of its own that cannot
    reach the others; a GPT whose header or entries have a damaged byte is refused. *)

From S2P Require Import Prelude BlockDev BlockIo Partition.
Local Open Scope Z_scope.

(** ** Fields *)

Lemma sector_slice_bytes b off n : bytes_ok b -> bytes_ok (slice b off n).
Proof. intros Hb. by apply Forall_take, Forall_drop. Qed.

Lemma le_at_bound b off n : bytes_ok b -> 0 <= le_at b off n < 256 ^ Z.of_nat n.
Proof.
  intros Hb. pose proof (le_val_bound _ (sector_slice_bytes b off n Hb)) as Hv. unfold le_at. split; [lia|].
  assert (length (slice b off n) <= n)%nat by (unfold slice; rewrite length_take; lia).
  assert (256 ^ Z.of_nat (length (slice b off n)) <= 256 ^ Z.of_nat n) by (apply Z.pow_le_mono_r; lia). lia.
Qed.

Lemma le4 b off : bytes_ok b -> 0 <= le_at b off 4 <= u32_max.
Proof. intros Hb. pose proof (le_at_bound b off 4 Hb) as Hl. change (256 ^ Z.of_nat 4) with 4294967296 in Hl. unfold u32_max. lia. Qed.

Lemma le8 b off : bytes_ok b -> 0 <= le_at b off 8 <= u64_max.
Proof. intros Hb. pose proof (le_at_bound b off 8 Hb) as Hl. change (256 ^ Z.of_nat 8) with 18446744073709551616 in Hl. unfold u64_max. lia. Qed.

(** ** Accepted entries *)

(** A partition lies on a disk of [n] sectors. *)
Definition on_disk (n : Z) (p : PartitionInfo) : Prop :=
  0 <= pi_start p /\ 0 < pi_size p /\ pi_start p + pi_size p <= n /\ pi_end p = pi_start p + pi_size p - 1.

Definition disjoint_parts (p q : PartitionInfo) : Prop :=
  pi_start p + pi_size p <= pi_start q \/ pi_start q + pi_size q <= pi_start p.

(** What a computation gives: [P] of its value; it stops early only as [dev]
    arithmetic does. *)
Definition gives `{Profile} {A} (r : res string A) (P : A -> Prop) : Prop :=
  match r with Ok a => P a | Err _ => True | Panic => debug_profile = true end.

Lemma gives_bind `{Profile} {A B} (r : res string A) (k : A -> res string B) (P : A -> Prop) (Q : B -> Prop) :
  gives r P -> (forall a, P a -> gives (k a) Q) -> gives (res_bind r k) Q.
Proof. destruct r; cbn; auto. Qed.

Lemma gives_impl `{Profile} {A} (r : res string A) (P Q : A -> Prop) : gives r P -> (forall a, P a -> Q a) -> gives r Q.
Proof. destruct r; cbn; auto. Qed.

Section Entries.
Context `{Profile}.

Lemma mbr_entry_ok n b i : bytes_ok b -> gives (mbr_entry n b i) (fun o => Forall (on_disk n) (option_list o)).
Proof.
  intros Hb. unfold mbr_entry. pose proof (le4 b (446 + i * 16 + 8) Hb) as H1. pose proof (le4 b (446 + i * 16 + 12) Hb) as H2.
  set (s := le_at b (446 + i * 16 + 8) 4) in *. set (c := le_at b (446 + i * 16 + 12) 4) in *.
  destruct (_ =? 0); [by constructor|]. destruct (_ =? 238); [by constructor|]. destruct (Z.eqb_spec c 0); [by constructor|].
  destruct (checked_add_u64 s c) as [e|] eqn:E; [|done]. apply checked_add_Some in E as [-> _].
  destruct (Z.ltb_spec n (s + c)); [done|]. cbn. apply Forall_singleton. unfold on_disk; cbn. lia.
Qed.

Lemma mbr_entries_ok n b l : bytes_ok b -> gives (mbr_entries n b l) (Forall (on_disk n)).
Proof.
  intros Hb. induction l as [|i l IH]; cbn [mbr_entries]; [by constructor|].
  eapply gives_bind; [by apply mbr_entry_ok|]. intros o Ho. eapply gives_bind; [exact IH|]. intros l' Hl. by apply Forall_app.
Qed.

(** A logical partition is on the disk and inside the extended one. *)
Definition logical (n lo hi : Z) (p : PartitionInfo) : Prop :=
  on_disk n p /\ pi_extended p = false /\ lo <= pi_start p /\ pi_start p + pi_size p <= hi.

Lemma ebr_entry_ok n lo hi next num b : bytes_ok b -> 0 <= lo <= next ->
  gives (ebr_entry n hi next num b) (fun o => Forall (logical n lo hi) (option_list o)).
Proof.
  intros Hb Hn. unfold ebr_entry. pose proof (le4 b 454 Hb) as H1. pose proof (le4 b 458 Hb) as H2.
  set (s := le_at b 454 4) in *. set (c := le_at b 458 4) in *.
  destruct (_ =? 0); [by constructor|]. destruct (Z.eqb_spec c 0); [by constructor|].
  destruct (checked_add_u64 next s) as [a|] eqn:E; [|done]. apply checked_add_Some in E as [-> _].
  destruct (checked_add_u64 (next + s) c) as [e|] eqn:E; [|done]. apply checked_add_Some in E as [-> _].
  destruct (Z.ltb_spec n (next + s + c)); [done|]. destruct (Z.ltb_spec hi (next + s + c)); [done|].
  cbn. apply Forall_singleton. unfold logical, on_disk; cbn. split_and!; lia || done.
Qed.

Lemma gpt_entry_ok n i b : bytes_ok b -> n <= u64_max ->
  gives (gpt_entry n i b) (fun o => Forall (fun p => on_disk n p /\ pi_extended p = false) (option_list o)).
Proof.
  intros Hb Hn. unfold gpt_entry. pose proof (le8 b 32 Hb) as H1. pose proof (le8 b 40 Hb) as H2.
  set (s := le_at b 32 8) in *. set (e := le_at b 40 8) in *.
  case_bool_decide; [by constructor|]. destruct (Z.ltb_spec e s); [done|].
  unfold u64_add, u64_op. destruct ((0 <=? e - s + 1) && (e - s + 1 <=? u64_max)) eqn:Eo; cbn.
  - destruct (Z.leb_spec n e); [done|]. cbn. apply Forall_singleton. split; [|done]. unfold on_disk; cbn. lia.
  - destruct debug_profile eqn:Ed; [done|]. cbn. destruct (Z.leb_spec n e); [done|lia].
Qed.

Lemma gpt_entries_ok n b sz l : bytes_ok b -> n <= u64_max ->
  gives (gpt_entries n b sz l) (Forall (fun p => on_disk n p /\ pi_extended p = false)).
Proof.
  intros Hb Hn. induction l as [|i l IH]; cbn [gpt_entries]; [by constructor|].
  destruct (_ <? _)%nat; [by constructor|]. eapply gives_bind; [apply gpt_entry_ok; [by apply Forall_drop|done]|].
  intros o Ho. eapply gives_bind; [exact IH|]. intros l' Hl. by apply Forall_app.
Qed.

(** Only the size of an entry that spans all of [u64] can stop the loop. *)
Lemma gpt_entries_total n b sz l : gives (gpt_entries n b sz l) (fun _ => True).
Proof.
  induction l as [|i l IH]; cbn [gpt_entries]; [done|]. destruct (_ <? _)%nat; [done|].
  apply (gives_bind _ _ (fun _ => True)); [|intros o _; by eapply gives_bind]. unfold gpt_entry. case_bool_decide; [done|].
  destruct (_ <? _); [done|]. eapply (gives_bind _ _ (fun _ => True)); [unfold u64_add, u64_op; by repeat case_match|].
  intros a _. by destruct (_ <=? _).
Qed.
End Entries.

(** ** Overlaps *)

Lemma disjoint_parts_sym p q : disjoint_parts p q -> disjoint_parts q p.
Proof. unfold disjoint_parts. tauto. Qed.

Lemma pairs_perm {A} (R : A -> A -> Prop) l l' : (forall x y, R x y -> R y x) -> l ≡ₚ l' -> ForallOrdPairs R l -> ForallOrdPairs R l'.
Proof.
  intros Hs Hp. induction Hp as [|x l l' Hp IH|x y l|l1 l2 l3 H1 IH1 H2 IH2]; intros HR; [done| | |auto].
  - inversion_clear HR as [|? ? Hx Hl]. constructor; [by rewrite <- Hp|auto].
  - inversion_clear HR as [|? ? Hx Hl]. inversion_clear Hl as [|? ? Hy Hl']. apply Forall_cons in Hx as [Hxy Hx].
    constructor; [constructor; auto|]. by constructor.
Qed.

Lemma pairs_filter {A} (R : A -> A -> Prop) (f : A -> bool) l :
  ForallOrdPairs R (List.filter f l) -> ForallOrdPairs (fun x y => f x = true -> f y = true -> R x y) l.
Proof.
  induction l as [|x l IH]; intros HR; [constructor|]. cbn [List.filter] in HR. destruct (f x) eqn:E.
  - inversion_clear HR as [|? ? Hx Hl]. constructor; [|auto]. apply Forall_forall. intros y Hy _ Ey.
    rewrite Forall_forall in Hx. apply Hx, list_elem_of_In, filter_In. split; [by apply list_elem_of_In|done].
  - constructor; [|auto]. apply Forall_forall. intros y _. by rewrite E.
Qed.

Lemma insert_by_start_perm p l : insert_by_start p l ≡ₚ p :: l.
Proof. induction l as [|q l IH]; cbn; [done|]. destruct (_ <=? _); [done|]. rewrite IH. constructor. Qed.

Lemma sort_by_start_perm l : sort_by_start l ≡ₚ l.
Proof. induction l as [|p l IH]; cbn; [done|]. by rewrite insert_by_start_perm, IH. Qed.

Lemma check_windows_chain a l : Forall (fun p => 0 < pi_size p) (a :: l) -> check_windows (a :: l) = Ok tt ->
  Forall (fun q => pi_start a + pi_size a <= pi_start q) l /\ ForallOrdPairs disjoint_parts (a :: l).
Proof.
  revert a. induction l as [|b l IH]; intros a Hp Hc; [split; repeat constructor|]. apply Forall_cons in Hp as [Ha Hp].
  cbn [check_windows] in Hc. destruct (checked_add_u64 _ _) as [e|] eqn:E; [|done]. apply checked_add_Some in E as [-> _].
  destruct (Z.ltb_spec (pi_start b) (pi_start a + pi_size a)); [done|]. destruct (IH b Hp Hc) as [Hb Hl].
  pose proof Hp as [Hb0 _]%Forall_cons.
  assert (Forall (fun q => pi_start a + pi_size a <= pi_start q) (b :: l)) as Hall.
  { constructor; [done|]. eapply Forall_impl; [exact Hb|]. cbn. lia. }
  split; [done|]. constructor; [|done]. eapply Forall_impl; [exact Hall|]. intros q Hq. by left.
Qed.

Lemma check_overlaps_ok l : check_overlaps l = Ok tt ->
  ForallOrdPairs (fun p q => real_partition p = true -> real_partition q = true -> disjoint_parts p q) l.
Proof.
  unfold check_overlaps. intros Hc. apply pairs_filter. apply (pairs_perm _ (sort_by_start (List.filter real_partition l)));
    [apply disjoint_parts_sym|apply sort_by_start_perm|].
  assert (Forall (fun p => 0 < pi_size p) (sort_by_start (List.filter real_partition l))) as Hp.
  { rewrite sort_by_start_perm. apply Forall_forall. intros p Hp%list_elem_of_In%filter_In. unfold real_partition in Hp. lia. }
  destruct (sort_by_start _) as [|a l']; [constructor|]. by apply (check_windows_chain a l' Hp).
Qed.

(** ** Reading the tables *)

Section Tables.
Context `{IoLaws D} `{Profile}.

Definition same (d d' : D) : Prop := io_sectors d' = io_sectors d /\ forall l, content d' l = content d l.

(** Started on a disk like [d0], [m] leaves one like it and gives [P]. *)
Definition ensures {A} (d0 : D) (m : io A) (P : A -> Prop) : Prop :=
  forall d, same d0 d -> same d0 (m d).1 /\ gives (m d).2 P.

Lemma ensures_ret {A} d0 (a : A) (P : A -> Prop) : P a -> ensures d0 (io_ret a) P.
Proof. by intros Ha d Hd. Qed.

Lemma ensures_err {A} d0 e (P : A -> Prop) : ensures d0 (io_err e) P.
Proof. by intros d Hd. Qed.

Lemma ensures_res {A} d0 r (P : A -> Prop) : gives r P -> ensures d0 (io_res r) P.
Proof. by intros Hr d Hd. Qed.

Lemma ensures_bind {A B} d0 (m : io A) (k : A -> io B) P Q :
  ensures d0 m P -> (forall a, P a -> ensures d0 (k a) Q) -> ensures d0 (io_bind m k) Q.
Proof.
  intros Hm Hk d Hd. unfold io_bind. destruct (Hm d Hd) as [Hs Hg]. destruct (m d) as [d' [a|e|]]; cbn in *; [|done|done].
  by apply Hk.
Qed.

Lemma ensures_impl {A} d0 (m : io A) (P Q : A -> Prop) : ensures d0 m P -> (forall a, P a -> Q a) -> ensures d0 m Q.
Proof. intros Hm HPQ d Hd. destruct (Hm d Hd) as [Hs Hg]. split; [done|]. by eapply gives_impl. Qed.

(** A read that succeeds gives the sectors. *)
Lemma ensures_read d0 e lba n : 0 <= n -> ensures d0 (read_with e lba n) (fun b => b = flat_map (content d0) (seqZ lba n)).
Proof.
  intros Hn d [Hs Hd]. unfold read_with. set (r := mkReq _ _ _ _).
  pose proof (reads_keep d [r]) as Hk. pose proof (submit_sectors d [r]) as Hc. pose proof (submit_reads d [r]) as Hr.
  destruct (submit d [r]) as [d' [[c bufs]|]]; cbn [fst snd] in *;
    (assert (same d0 d') as Hsame by (split; [congruence|]; intros l; rewrite Hk, Hd; [done|by repeat constructor])); [|done].
  destruct (all_ok c) eqn:Ec; cbn [negb]; [|done]. split; [done|]. cbn [gives snd].
  destruct (Hr c bufs 0%nat r _ eq_refl Ec ltac:(by repeat constructor) eq_refl eq_refl Hn) as [_ Hb].
  assert (length (flat_map (content d) (seqZ lba n)) = Z.to_nat (512 * n)) as Hlen.
  { rewrite (flat_map_constant_length (c := 512)), length_seqZ by (intros; apply content_length). lia. }
  destruct bufs as [|b bufs]; [done|]. injection Hb as ->. cbn [head default]. unfold fill. cbn [r_lba r_count].
  rewrite drop_ge by (rewrite length_replicate; lia). rewrite app_nil_r. by apply flat_map_ext.
Qed.

Section Parsers.
Context (d0 : D) (Hbytes : forall l, bytes_ok (content d0 l)) (Hsize : io_sectors d0 <= u64_max).

Lemma sectors_bytes lba n : bytes_ok (flat_map (content d0) (seqZ lba n)).
Proof.
  apply Forall_forall. intros x (l & Hl & Hx)%list_elem_of_In%in_flat_map. pose proof (Hbytes l) as Hb.
  unfold bytes_ok in Hb. rewrite Forall_forall in Hb. by apply Hb, list_elem_of_In.
Qed.

Lemma read_bytes e lba n : 0 <= n -> ensures d0 (read_with e lba n) bytes_ok.
Proof. intros Hn. eapply ensures_impl; [by apply ensures_read|]. intros b ->. apply sectors_bytes. Qed.

Lemma ebr_chain_ok fuel lo hi : 0 <= lo -> forall next num, lo <= next ->
  ensures d0 (ebr_chain fuel (io_sectors d0) lo hi next num) (Forall (logical (io_sectors d0) lo hi)).
Proof.
  intros Hlo. induction fuel as [|fuel IH]; intros next num Hn; cbn [ebr_chain]; [by apply ensures_ret|].
  eapply ensures_bind; [by apply read_bytes|]. intros b Hb. destruct (_ || _); [by apply ensures_ret|].
  eapply ensures_bind; [by apply ensures_res, (ebr_entry_ok _ lo)|]. intros o Ho. destruct (_ || _); [by apply ensures_ret|].
  destruct (checked_add_u64 lo _) as [next'|] eqn:E; [|apply ensures_err]. apply checked_add_Some in E as [-> _].
  eapply ensures_bind; [apply IH; pose proof (le4 b 470 Hb); lia|]. intros l Hl. apply ensures_ret. by apply Forall_app.
Qed.

(** Primary partitions first, then the logical ones, all inside an extended one. *)
Definition mbr_shape (l : list PartitionInfo) : Prop := exists primaries logicals, l = primaries ++ logicals /\
  Forall (fun p => pi_extended p = false /\ exists e, e ∈ primaries /\ pi_extended e = true /\
    pi_start e <= pi_start p /\ pi_end p <= pi_end e) logicals.

Lemma mbr_parse_ok b : bytes_ok b -> ensures d0 (mbr_parse b) (fun l => Forall (on_disk (io_sectors d0)) l /\ mbr_shape l).
Proof.
  intros Hb d Hd. unfold mbr_parse. rewrite (proj1 Hd). pose proof (mbr_entries_ok (io_sectors d0) b [0; 1; 2; 3]%nat Hb) as He.
  destruct (mbr_entries _ _ _) as [prim|e|]; [|done|done]. cbn [gives] in He.
  destruct (extended_of prim) as [e|] eqn:Ee; [|split; [done|]; cbn; split; [done|]; exists prim, []; by rewrite app_nil_r].
  assert (e ∈ prim /\ pi_extended e = true) as [Hin Hext].
  { unfold extended_of in Ee. apply last_Some_elem_of, list_elem_of_In, filter_In in Ee as [? ?]. split; [by apply list_elem_of_In|done]. }
  pose proof He as Hall. rewrite Forall_forall in Hall. destruct (Hall e Hin) as (? & ? & ? & ?).
  revert d Hd. change (ensures d0 (io_bind (ebr_chain MAX_EBR_CHAIN (io_sectors d0) (pi_start e) (pi_start e + pi_size e) (pi_start e) 5)
    (fun l => io_ret (prim ++ l))) (fun l => Forall (on_disk (io_sectors d0)) l /\ mbr_shape l)).
  eapply ensures_bind; [by apply ebr_chain_ok|]. intros l Hl. apply ensures_ret. split.
  - apply Forall_app. split; [done|]. eapply Forall_impl; [exact Hl|]. by intros p [? _].
  - exists prim, l. split; [done|]. eapply Forall_impl; [exact Hl|]. intros p ((? & ? & ? & Hp) & Hx & Hlo & Hhi).
    split; [done|]. exists e. split_and!; [done|done|done|lia].
Qed.

Lemma gpt_parse_at_ok lba : ensures d0 (gpt_parse_at lba) (Forall (fun p => on_disk (io_sectors d0) p /\ pi_extended p = false)).
Proof.
  unfold gpt_parse_at. eapply ensures_bind; [by apply read_bytes|]. intros b Hb.
  apply (ensures_bind _ _ _ (fun h => 0 < h.1.1.2 /\ 0 < h.1.2)).
  { apply ensures_res. unfold gpt_header. pose proof (le4 b 84 Hb). pose proof (le4 b 80 Hb).
    repeat (match goal with |- gives (if ?c then _ else _) _ => destruct c eqn:? end; [done|]). cbn. lia. }
  intros [[[elba num] sz] crc] [Hnum Hsz]; cbn [fst snd] in Hnum, Hsz. intros d Hd. rewrite (proj1 Hd).
  destruct (match checked_add_u64 _ _ with None => true | Some e => _ end); [done|]. revert d Hd.
  match goal with |- forall d, same d0 d -> same d0 (?m d).1 /\ gives _ ?P => change (ensures d0 m P) end.
  eapply ensures_bind; [apply read_bytes; unfold SECTOR_SIZE; mlia|]. intros entries Hent.
  destruct (negb _); [apply ensures_err|]. by apply ensures_res, gpt_entries_ok.
Qed.

Lemma gpt_parse_ok : ensures d0 gpt_parse (Forall (fun p => on_disk (io_sectors d0) p /\ pi_extended p = false)).
Proof.
  intros d Hd. unfold gpt_parse. destruct (gpt_parse_at_ok 1 d Hd) as [Hs Hg].
  destruct (gpt_parse_at 1 d) as [d1 [l|e|]]; [done| |done]. cbn [fst snd] in *.
  destruct (checked_sub_u64 _ _) as [b|]; [|done]. destruct (gpt_parse_at_ok b d1 Hs) as [Hs2 Hg2].
  by destruct (gpt_parse_at b d1) as [d2 [l|e2|]].
Qed.

(** An accepted table. *)
Definition table_ok (t : PartitionTable) : Prop :=
  Forall (on_disk (io_sectors d0)) (partitions t) /\
  ForallOrdPairs (fun p q => real_partition p = true -> real_partition q = true -> disjoint_parts p q) (partitions t) /\
  match t with Mbr l => mbr_shape l | Gpt l => Forall (fun p => pi_extended p = false) l end.

Lemma checked_ok l t : Forall (on_disk (io_sectors d0)) l -> partitions (t l) = l ->
  match t l with Mbr l => mbr_shape l | Gpt l => Forall (fun p => pi_extended p = false) l end -> ensures d0 (checked l t) table_ok.
Proof.
  intros Hl Ht Hm. unfold checked. eapply (ensures_bind _ _ _ (fun _ => check_overlaps l = Ok tt)).
  { apply ensures_res. destruct (check_overlaps l) as [[]|e|] eqn:E; [done|done|]. exfalso. revert E. unfold check_overlaps.
    induction (sort_by_start _) as [|a l' IH]; [done|]. cbn [check_windows]. destruct l'; [done|]. by repeat case_match. }
  intros _ Hc. apply ensures_ret. split_and!; [by rewrite Ht|rewrite Ht; by apply check_overlaps_ok|done].
Qed.

Lemma probe_ok : ensures d0 probe_table table_ok.
Proof.
  unfold probe_table. eapply ensures_bind; [by apply read_bytes|]. intros b Hb. destruct (_ || _); [apply ensures_err|].
  assert (forall l, Forall (on_disk (io_sectors d0)) l /\ mbr_shape l -> ensures d0 (checked l Mbr) table_ok) as Hmbr.
  { intros l [Hl Hsh]. by apply checked_ok. }
  destruct (existsb _ _); [|eapply ensures_bind; [by apply mbr_parse_ok|exact Hmbr]].
  intros d Hd. destruct (gpt_parse_ok d Hd) as [Hs Hg]. destruct (gpt_parse d) as [d1 [l|e|]]; cbn [fst snd gives] in *; [| |done].
  - apply Forall_and in Hg as [? ?]. by apply (checked_ok l Gpt).
  - destruct (mbr_parse_ok b Hb d1 Hs) as [Hs2 Hg2]. destruct (mbr_parse b d1) as [d2 [l|e2|]]; cbn [fst snd gives] in *; [|done|done].
    by apply Hmbr.
Qed.
End Parsers.
End Tables.

(** ** A partition is a device *)

Definition shift (s : Z) (r : IoRequest) : IoRequest := mkReq (s + r_lba r) (r_count r) (r_buffer r) (r_write r).

Lemma adjust_all_ok s n e reqs l : adjust_all s n e reqs = Ok l ->
  l = map (shift s) reqs /\ Forall (fun r => r_lba r + r_count r <= n) reqs.
Proof.
  revert l. induction reqs as [|r reqs IH]; intros l E; cbn [adjust_all] in E; res_inv; [done|].
  destruct (IH _ ltac:(eassumption)) as [-> Hf].
  match goal with Ha : adjust _ _ _ _ = Ok _ |- _ => unfold adjust in Ha; rename Ha into Ea end.
  destruct (checked_add_u64 (r_lba r) (r_count r)) as [re|] eqn:E1; [|done]. apply checked_add_Some in E1 as [-> _].
  destruct (Z.ltb_spec n (r_lba r + r_count r)); [done|].
  destruct (checked_add_u64 s (r_lba r)) as [lba|] eqn:E2; [|done]. apply checked_add_Some in E2 as [-> _].
  destruct (_ && _); [done|]. injection Ea as <-. split; [done|]. by constructor.
Qed.

(** A request either fails before it reaches the disk, or is the same request
    further on. *)
Lemma partition_submit_cases `{IoDevice D} (d : PartitionDevice D) reqs :
  let out := partition_submit d reqs in
  out = (d, None) \/ (reqs = [] /\ out = (d, Some ({| completed := 0; errors := 0 |}, []))) \/
  (reqs <> [] /\ Forall (fun r => r_lba r + r_count r <= p_count d) reqs /\
   out = (mkPart (submit (p_inner d) (map (shift (p_start d)) reqs)).1 (p_start d) (p_count d), (submit (p_inner d) (map (shift (p_start d)) reqs)).2)).
Proof.
  unfold partition_submit. destruct reqs as [|r reqs]; [by right; left|]. destruct (checked_add_u64 _ _) as [e|]; [|by left].
  destruct (adjust_all _ _ _ _) as [l| |] eqn:E; [|by left|by left]. apply adjust_all_ok in E as [-> Hf]. right; right.
  by destruct (submit _ _).
Qed.

Lemma covers_shift s r l : covers (shift s r) (s + l) = covers r l.
Proof. unfold covers; cbn. apply eq_iff_eq_true. lia. Qed.

Lemma store_all_ext reqs : forall f g s, (forall l, f (s + l) = g l) ->
  forall l, store_all (map (shift s) reqs) f (s + l) = store_all reqs g l.
Proof.
  induction reqs as [|r reqs IH]; intros f g s Hfg l; [apply Hfg|]. cbn [map store_all]. apply IH. clear l. intros l.
  unfold store_req. rewrite covers_shift. cbn [shift r_buffer r_lba]. destruct (payload _); [|done].
  replace (s + l - (s + r_lba r)) with (l - r_lba r) by lia. by rewrite Hfg.
Qed.

Lemma Forall_shift (P : IoRequest -> Prop) s reqs : (forall r, P r -> P (shift s r)) -> Forall P reqs -> Forall P (map (shift s) reqs).
Proof. intros HP. induction 1; constructor; auto. Qed.

Lemma flat_map_shift {A} (f : Z -> list A) s a n : flat_map f (seqZ (s + a) n) = flat_map (fun l => f (s + l)) (seqZ a n).
Proof.
  rewrite <- (fmap_add_seqZ s a n), !flat_map_concat_map. f_equal. change (f <$> (Z.add s <$> seqZ a n) = (fun l => f (s + l)) <$> seqZ a n).
  by rewrite <- list_fmap_compose.
Qed.

(** A partition obeys the laws of a device, if the disk does. *)
#[global, refine] Instance PartitionDevice_laws `{IoLaws D} : IoLaws (PartitionDevice D) := {}.
Proof.
  - intros d l. exact (content_length (p_inner d) (p_start d + l)).
  - intros d reqs. change (p_count (partition_submit d reqs).1 = p_count d).
    destruct (partition_submit_cases d reqs) as [->|[[_ ->]|(_ & _ & ->)]]; done.
  - intros d reqs l Hf. change (content (submit d reqs).1 l) with (content (p_inner (partition_submit d reqs).1) (p_start (partition_submit d reqs).1 + l)).
    destruct (partition_submit_cases d reqs) as [->|[[_ ->]|(_ & _ & ->)]]; [done|done|]. cbn [p_inner p_start fst].
    rewrite submit_frame; [done|]. apply Forall_fmap. eapply Forall_impl; [exact Hf|]. intros r Hr. cbn. rewrite covers_shift. apply Hr.
  - intros d reqs c bufs i r b E Hc Hr Hi Hb Hn. change ((partition_submit d reqs).2 = Some (c, bufs)) in E.
    destruct (partition_submit_cases d reqs) as [Eq|[[-> Eq]|(Hne & _ & Eq)]]; rewrite Eq in E; [done|done|]. cbn [snd] in E.
    pose proof (submit_reads (p_inner d) (map (shift (p_start d)) reqs) c bufs i (shift (p_start d) r) b E Hc) as Hs.
    destruct Hs as [H1 H2]; [by apply Forall_shift|by rewrite list_lookup_fmap, Hi|done|done|]. split; [done|].
    rewrite H2. cbn [shift r_lba r_count]. by rewrite flat_map_shift.
  - intros d reqs c bufs E Hc Hw. change ((partition_submit d reqs).2 = Some (c, bufs)) in E.
    change (forall l, content (submit d reqs).1 l = store_all reqs (content d) l)
      with (forall l, content (p_inner (partition_submit d reqs).1) (p_start (partition_submit d reqs).1 + l) = store_all reqs (content d) l).
    destruct (partition_submit_cases d reqs) as [Eq|[[-> Eq]|(Hne & _ & Eq)]]; rewrite Eq in *; [done| |].
    { split; [constructor|]. done. }
    cbn [fst snd p_inner p_start] in *. destruct (submit_stores (p_inner d) _ c bufs E Hc ltac:(by apply Forall_shift)) as [H1 H2].
    split; [by apply Forall_fmap in H1|]. intros l. rewrite H2. by apply store_all_ext.
Defined.

#[global, refine] Instance PartitionDevice_atomic `{IoDevice D} `{!AtomicErrors D} : AtomicErrors (PartitionDevice D) := {}.
Proof.
  intros d reqs l E. change ((partition_submit d reqs).2 = None) in E.
  change (content (submit d reqs).1 l) with (content (p_inner (partition_submit d reqs).1) (p_start (partition_submit d reqs).1 + l)).
  destruct (partition_submit_cases d reqs) as [Eq|[[-> Eq]|(Hne & _ & Eq)]]; rewrite Eq in *; [done|done|].
  cbn [fst snd p_inner p_start] in *. by rewrite submit_err.
Defined.

(** Sectors outside the partition are out of reach. *)
Lemma partition_frame `{IoLaws D} (d : PartitionDevice D) reqs l : Forall (fun r => 0 <= r_lba r) reqs ->
  l < p_start d \/ p_start d + p_count d <= l -> content (p_inner (submit d reqs).1) l = content (p_inner d) l.
Proof.
  intros Hr Hl. change (submit d reqs) with (partition_submit d reqs).
  destruct (partition_submit_cases d reqs) as [->|[[_ ->]|(_ & Hc & ->)]]; [done|done|]. cbn [p_inner fst]. apply submit_frame.
  apply Forall_fmap, Forall_forall. intros r Hin _. rewrite Forall_forall in Hr, Hc. specialize (Hr r Hin). specialize (Hc r Hin).
  unfold covers; cbn in *. lia.
Qed.

(** ** Checksums *)

Definition u32_ok (z : Z) : Prop := 0 <= z < 2 ^ 32.

Lemma lxor_u32 a b : u32_ok a -> u32_ok b -> u32_ok (Z.lxor a b).
Proof.
  intros [Ha1 Ha2] [Hb1 Hb2]. assert (0 <= Z.lxor a b) by (by apply Z.lxor_nonneg; split). split; [done|].
  apply Z.bounded_iff_bits_nonneg; [done|done|]. intros l Hl. rewrite Z.lxor_spec.
  rewrite (proj1 (Z.bounded_iff_bits_nonneg 32 a ltac:(lia) Ha1) Ha2 l Hl).
  by rewrite (proj1 (Z.bounded_iff_bits_nonneg 32 b ltac:(lia) Hb1) Hb2 l Hl).
Qed.

Lemma crc_bit_u32 c : u32_ok c -> u32_ok (crc_bit c).
Proof.
  intros Hc. assert (u32_ok (Z.shiftr c 1)) as Hs by (unfold u32_ok in *; rewrite Z.shiftr_div_pow2 by lia; mlia).
  unfold crc_bit. destruct (negb _); [|done]. by apply lxor_u32.
Qed.

(** The step of the division can be undone: the polynomial sets the top bit. *)
Definition crc_unbit (r : Z) : Z := if Z.testbit r 31 then 2 * Z.lxor r 3988292384 + 1 else 2 * r.

Lemma crc_unbit_bit c : u32_ok c -> crc_unbit (crc_bit c) = c.
Proof.
  intros [Hc1 Hc2]. unfold crc_bit, crc_unbit.
  assert (Z.land c 1 = c mod 2) as -> by (change 1 with (Z.ones 1); by rewrite Z.land_ones).
  rewrite Z.shiftr_div_pow2 by lia. change (2 ^ 1) with 2. assert (Z.testbit (c / 2) 31 = false) as Ht.
  { apply (Z.bounded_iff_bits_nonneg 31); [lia|mlia|mlia|lia]. }
  destruct (Z.eqb_spec (c mod 2) 0) as [E|E]; cbn [negb]; [rewrite Ht; mlia|].
  rewrite Z.lxor_spec, Ht. change (Z.testbit 3988292384 31) with true. cbn [xorb].
  rewrite Z.lxor_assoc, Z.lxor_nilpotent, Z.lxor_0_r. mlia.
Qed.

Lemma crc_bit_inj c c' : u32_ok c -> u32_ok c' -> crc_bit c = crc_bit c' -> c = c'.
Proof. intros Hc Hc' E. by rewrite <- (crc_unbit_bit c Hc), E, crc_unbit_bit. Qed.

Lemma crc_bits_u32 n c : u32_ok c -> u32_ok (Nat.iter n crc_bit c).
Proof. intros Hc. induction n; cbn; [done|by apply crc_bit_u32]. Qed.

Lemma crc_bits_inj n c c' : u32_ok c -> u32_ok c' -> Nat.iter n crc_bit c = Nat.iter n crc_bit c' -> c = c'.
Proof.
  intros Hc Hc'. induction n as [|n IH]; cbn; [done|]. intros E. apply IH, crc_bit_inj; [by apply crc_bits_u32..|done].
Qed.

Lemma byte_u32 b : byte_ok b -> u32_ok b.
Proof. unfold byte_ok, u32_ok. lia. Qed.

Lemma crc_byte_u32 c b : u32_ok c -> byte_ok b -> u32_ok (crc_byte c b).
Proof. intros Hc Hb. by apply crc_bits_u32, lxor_u32, byte_u32. Qed.

Lemma lxor_cancel a b b' : Z.lxor a b = Z.lxor a b' -> b = b'.
Proof. intros E. by rewrite <- (Z.lxor_0_l b), <- (Z.lxor_nilpotent a), Z.lxor_assoc, E, <- Z.lxor_assoc, Z.lxor_nilpotent, Z.lxor_0_l. Qed.

Lemma crc_byte_inj c c' b b' : u32_ok c -> u32_ok c' -> byte_ok b -> byte_ok b' ->
  crc_byte c b = crc_byte c' b' -> Z.lxor c b = Z.lxor c' b'.
Proof. intros. eapply crc_bits_inj; [apply lxor_u32; [done|by apply byte_u32]..|done]. Qed.

Lemma crc_fold_u32 l c : u32_ok c -> bytes_ok l -> u32_ok (fold_left crc_byte l c).
Proof. intros Hc Hl. revert c Hc. induction Hl; intros c Hc; cbn; [done|]. by apply IHHl, crc_byte_u32. Qed.

Lemma crc_fold_inj l : bytes_ok l -> forall c c', u32_ok c -> u32_ok c' -> fold_left crc_byte l c = fold_left crc_byte l c' -> c = c'.
Proof.
  induction 1 as [|b l Hb Hl IH]; intros c c' Hc Hc' E; cbn in E; [done|].
  apply IH in E; [|by apply crc_byte_u32..]. apply crc_byte_inj in E; [|done..].
  rewrite (Z.lxor_comm c), (Z.lxor_comm c') in E. by apply lxor_cancel in E.
Qed.

(** One altered byte alters the checksum. *)
Lemma crc32_detects l i x y : bytes_ok l -> byte_ok x -> l !! i = Some y -> crc32 (<[i:=x]> l) = crc32 l -> x = y.
Proof.
  intros Hl Hx Hi E. rewrite <- (take_drop_middle l i y Hi) in E at 2. rewrite (insert_take_drop l i x) in E by (by eapply lookup_lt_Some).
  unfold crc32 in E. rewrite (Z.lxor_comm _ 4294967295), (Z.lxor_comm _ 4294967295) in E. apply lxor_cancel in E.
  rewrite !fold_left_app in E. cbn [fold_left] in E.
  assert (byte_ok y) as Hy by (unfold bytes_ok in Hl; rewrite Forall_lookup in Hl; by eapply Hl).
  assert (u32_ok (fold_left crc_byte (take i l) 4294967295)) as Hf.
  { apply crc_fold_u32; [unfold u32_ok; lia|by apply Forall_take]. }
  apply crc_fold_inj in E; [|by apply Forall_drop|by apply crc_byte_u32..]. apply crc_byte_inj in E; [|done..].
  by apply lxor_cancel in E.
Qed.
