(* ===== verification/PartitionSafe.v ===== *)
(** * Guarantees of the partition layer

    What the file systems above rely on, stated of [probe_table] and of the devices made
    from its table, with the defects the model shows. *)

From S2P Require Import Prelude BlockDev BlockIo Partition PartitionFacts.
Local Open Scope Z_scope.

Section Damage.
Context `{IoLaws D} `{Profile}.

Lemma same_refl (d : D) : same d d.
Proof. by split. Qed.

(** The entries that a header locates. *)
Definition gpt_table (d : D) (h : Z * Z * Z * Z) : list Z :=
  let '(entry_lba, num, size, _) := h in
  take (Z.to_nat (num * size)) (flat_map (content d) (seqZ entry_lba ((num * size + SECTOR_SIZE - 1) / SECTOR_SIZE))).

Lemma gpt_accepts (d : D) lba l : (forall l, bytes_ok (content d l)) -> (gpt_parse_at lba d).2 = Ok l ->
  exists h, gpt_header lba (content d lba) = Ok h /\ crc32 (gpt_table d h) = h.2.
Proof.
  intros Hbytes E. assert (ensures d (gpt_parse_at lba) (fun _ => exists h, gpt_header lba (content d lba) = Ok h /\ crc32 (gpt_table d h) = h.2)) as He.
  2: { destruct (He d (same_refl d)) as [_ Hg]. by rewrite E in Hg. }
  unfold gpt_parse_at. eapply ensures_bind; [by apply ensures_read|]. cbn [seqZ flat_map]. intros b ->.
  change (flat_map (content d) (seqZ lba 1)) with (content d (Z.of_nat 0 + lba) ++ []). rewrite app_nil_r, Z.add_0_l.
  apply (ensures_bind _ _ _ (fun h => gpt_header lba (content d lba) = Ok h /\ 0 < h.1.1.2 /\ 0 < h.1.2)).
  { apply ensures_res. pose proof (le4 _ 84 (Hbytes lba)). pose proof (le4 _ 80 (Hbytes lba)).
    destruct (gpt_header lba (content d lba)) as [h| |] eqn:Eh; [|done|]; cbn; revert Eh; unfold gpt_header;
    repeat (match goal with |- (if ?c then _ else _) = _ -> _ => destruct c eqn:? end; [done|]); [|done].
    intros Eh. injection Eh as <-. cbn. split; [done|lia]. }
  intros [[[elba num] sz] crc] (Eh & Hnum & Hsz); cbn [fst snd] in Hnum, Hsz. intros d1 Hd.
  destruct (match checked_add_u64 _ _ with None => true | Some e => _ end); [done|]. generalize (io_sectors d1). intros n. revert d1 Hd.
  match goal with |- forall d1, same d d1 -> same d (?m d1).1 /\ gives _ ?P => change (ensures d m P) end.
  eapply ensures_bind; [apply ensures_read; unfold SECTOR_SIZE; mlia|]. intros entries ->.
  destruct (negb (crc32 (take (Z.to_nat (num * sz)) _) =? crc)) eqn:Ec; [apply ensures_err|].
  apply ensures_res. eapply gives_impl; [apply gpt_entries_total|]. intros l' _. exists (elba, num, sz, crc). split; [done|]. cbn. lia.
Qed.

(** [b'] is [b] with another value in the byte at [i]. *)
Definition damaged (i : nat) (b b' : list Z) : Prop :=
  exists x y, b !! i = Some y /\ x <> y /\ byte_ok x /\ b' = <[i:=x]> b.

Lemma slice_insert b i x off n : (i < off \/ off + n <= i)%nat -> slice (<[i:=x]> b) off n = slice b off n.
Proof. intros Hi. unfold slice. destruct Hi; [by rewrite drop_insert_lt|]. rewrite drop_insert_ge by lia. by rewrite take_insert_ge by lia. Qed.

Lemma le_at_insert b i x off n : (i < off \/ off + n <= i)%nat -> le_at (<[i:=x]> b) off n = le_at b off n.
Proof. intros Hi. unfold le_at. by rewrite slice_insert. Qed.

(** The bytes of a header that its checksum covers. *)
Definition summed (size : nat) (b : list Z) : list Z := take 16 b ++ [0; 0; 0; 0] ++ take (size - 20) (drop 20 b).

Lemma summed_insert size b i x : (20 <= size <= length b)%nat -> (i < 12 \/ 20 <= i)%nat ->
  summed size (<[i:=x]> b) = <[i:=x]> (summed size b).
Proof.
  intros Hs Hi. unfold summed. destruct Hi as [Hi|Hi].
  - rewrite drop_insert_lt by lia. rewrite insert_app_l by (rewrite length_take; lia). f_equal. apply take_insert_lt. lia.
  - rewrite take_insert_ge by lia. rewrite drop_insert_ge by lia. rewrite insert_app_r_alt by (rewrite length_take; lia). f_equal.
    rewrite length_take_le by lia. rewrite insert_app_r_alt by (cbn [length]; lia). f_equal. cbn [length].
    replace (i - 16 - 4)%nat with (i - 20)%nat by lia. destruct (decide (i - 20 < size - 20)%nat); [by apply take_insert_lt|].
    rewrite take_insert_ge by lia. rewrite list_insert_ge; [done|]. rewrite length_take, length_drop. lia.
Qed.

Lemma summed_lookup size b i : (20 <= size <= length b)%nat -> (i < 12 \/ 20 <= i < size)%nat -> summed size b !! i = b !! i.
Proof.
  intros Hs Hi. unfold summed. destruct (decide (i < 12)%nat).
  - rewrite lookup_app_l by (rewrite length_take; lia). apply lookup_take_lt. lia.
  - rewrite lookup_app_r by (rewrite length_take; lia). rewrite length_take_le by lia.
    rewrite lookup_app_r by (cbn [length]; lia). cbn [length]. rewrite lookup_take_lt by lia. rewrite lookup_drop. f_equal. lia.
Qed.

Lemma gpt_header_summed lba b h : length b = 512%nat -> gpt_header lba b = Ok h ->
  (92 <= Z.to_nat (le_at b 12 4) <= 512)%nat /\ crc32 (summed (Z.to_nat (le_at b 12 4)) b) = le_at b 16 4.
Proof.
  intros Hb Eh. unfold gpt_header in Eh. fold (summed (Z.to_nat (le_at b 12 4)) b) in Eh.
  repeat (match type of Eh with (if ?c then _ else _) = _ => destruct c eqn:? end; [done|]). split; lia.
Qed.

(** A damaged checksum is another checksum. *)
Lemma crc_field_detects b i x y : (20 <= length b)%nat -> bytes_ok b -> byte_ok x -> b !! i = Some y -> (16 <= i < 20)%nat ->
  le_at (<[i:=x]> b) 16 4 = le_at b 16 4 -> x = y.
Proof.
  intros Hl Hb Hx Hy Hi E. unfold le_at in E.
  assert (forall c, bytes_ok c -> (20 <= length c)%nat -> le_bytes 4 (le_val (slice c 16 4)) = slice c 16 4) as Hle.
  { intros c Hc Hcl. rewrite <- (le_bytes_le_val (slice c 16 4)) at 2 by (by apply Forall_take, Forall_drop).
    f_equal. unfold slice. rewrite length_take, length_drop. lia. }
  apply (f_equal (le_bytes 4)) in E.
  rewrite !Hle in E by (rewrite ?length_insert; first [lia|done|by apply Forall_insert]).
  apply (f_equal (lookup (i - 16)%nat)) in E. unfold slice in E.
  rewrite !lookup_take_lt, !lookup_drop in E by lia. replace (16 + (i - 16))%nat with i in E by lia.
  rewrite list_lookup_insert_eq in E by (apply lookup_lt_is_Some; eauto). congruence.
Qed.

Lemma header_detects lba b b' h h' i : length b = 512%nat -> bytes_ok b -> gpt_header lba b = Ok h ->
  (i < 12 \/ 16 <= i < Z.to_nat (le_at b 12 4))%nat -> damaged i b b' -> gpt_header lba b' <> Ok h'.
Proof.
  intros Hl Hb Eh Hi (x & y & Hy & Hxy & Hx & ->) Eh'. apply gpt_header_summed in Eh as [Hs Hc]; [|done].
  apply gpt_header_summed in Eh' as [_ Hc']; [|by rewrite length_insert]. rewrite (le_at_insert b i x 12 4) in Hc' by lia.
  destruct (decide (16 <= i < 20)%nat) as [Hf|Hf].
  { apply Hxy, (crc_field_detects b i x y); [lia|done..|]. rewrite <- Hc', <- Hc. unfold summed.
    rewrite take_insert_ge by lia. by rewrite drop_insert_lt by lia. }
  rewrite le_at_insert in Hc' by lia.
  rewrite summed_insert in Hc' by lia. apply Hxy. apply (crc32_detects (summed (Z.to_nat (le_at b 12 4)) b) i x y); [|done| |congruence].
  - unfold summed, bytes_ok. rewrite !Forall_app. split_and!; [by apply Forall_take|repeat constructor; unfold byte_ok; lia|by apply Forall_take, Forall_drop].
  - by rewrite summed_lookup by lia.
Qed.

Lemma table_detects (d : D) (b' : list Z) h i : (forall s, bytes_ok (content d s)) -> damaged i (gpt_table d h) b' ->
  crc32 (gpt_table d h) = h.2 -> crc32 b' <> h.2.
Proof.
  intros Hb (x & y & Hy & Hxy & Hx & ->) Hc Hc'. apply Hxy. apply (crc32_detects (gpt_table d h) i x y); [|done|done|congruence].
  destruct h as [[[elba num] sz] crc]. by apply Forall_take, sectors_bytes.
Qed.

(** C35: an accepted GPT protects itself: after a change of any one byte of its
    header, or of any one byte of its entries, the same header is no longer accepted,
    whatever the change.  The bytes of the header are those below the header size it
    gives, its checksum included; the four bytes of that size itself are not covered. *)
Theorem gpt_detects_damage (d d' : D) lba l i :
  (forall s, bytes_ok (content d s)) -> (forall s, bytes_ok (content d' s)) -> (gpt_parse_at lba d).2 = Ok l ->
  (i < 12 \/ 16 <= i < Z.to_nat (le_at (content d lba) 12 4))%nat /\ damaged i (content d lba) (content d' lba)
  \/ content d' lba = content d lba /\
     (forall h, gpt_header lba (content d lba) = Ok h -> damaged i (gpt_table d h) (gpt_table d' h)) ->
  forall l', (gpt_parse_at lba d').2 <> Ok l'.
Proof.
  intros Hb Hb' E Hd l' E'. apply gpt_accepts in E as (h & Eh & Hc); [|done]. apply gpt_accepts in E' as (h' & Eh' & Hc'); [|done].
  destruct Hd as [[Hi Hd]|[Hs Hd]].
  - by eapply (header_detects lba (content d lba) (content d' lba) h h' i); [apply content_length|..].
  - rewrite Hs, Eh in Eh'. injection Eh' as <-. by eapply (table_detects d (gpt_table d' h) h i); [|apply Hd|..].
Qed.
End Damage.

(** ** Tables and the devices made from them *)

Section Isolation.
Context `{IoLaws D} `{Profile}.

(** C26: [probe_table] only reads.  Every table it accepts lists non-empty partitions
    inside the disk, no two of which share a sector (extended ones apart); the
    logical partitions of an MBR lie in an extended one and a GPT has none.  It
    stops early only where [dev] arithmetic stops it. *)
Theorem probe_sound (d : D) : (forall s, bytes_ok (content d s)) -> io_sectors d <= u64_max ->
  (forall s, content (probe_table d).1 s = content d s) /\
  match (probe_table d).2 with Ok t => table_ok d t | Err _ => True | Panic => debug_profile = true end.
Proof. intros Hb Hn. destruct (probe_ok d Hb Hn d (same_refl d)) as [[_ Hs] Hg]. by split. Qed.

Lemma pairs_lookup {A} (R : A -> A -> Prop) l i j x y : (forall x y, R x y -> R y x) -> ForallOrdPairs R l ->
  l !! i = Some x -> l !! j = Some y -> i <> j -> R x y.
Proof.
  intros Hs HR. revert i j. induction HR as [|a l Ha HR IH]; intros i j Hi Hj Hij; [done|]. rewrite Forall_forall in Ha.
  destruct i as [|i], j as [|j]; cbn in Hi, Hj; [done| | |].
  - injection Hi as <-. by apply Ha, (list_elem_of_lookup_2 _ j).
  - injection Hj as <-. by apply Hs, Ha, (list_elem_of_lookup_2 _ i).
  - apply (IH i j); auto.
Qed.

(** C19: whatever requests are sent to one partition of an accepted table, in a
    batch that succeeds or fails, no sector of another one changes. *)
Theorem partition_isolated (d : D) t i j p q reqs : (forall s, bytes_ok (content d s)) -> io_sectors d <= u64_max ->
  (probe_table d).2 = Ok t -> partitions t !! i = Some p -> partitions t !! j = Some q -> i <> j ->
  pi_extended p = false -> pi_extended q = false -> Forall (fun r => 0 <= r_lba r) reqs ->
  let d1 := (probe_table d).1 in
  let d2 := p_inner (submit (new_partition d1 p) reqs).1 in
  forall s, 0 <= s < pi_size q -> content (new_partition d2 q) s = content (new_partition d1 q) s.
Proof.
  intros Hb Hn Ht Hi Hj Hij Hp Hq Hr d1 d2 s Hs. destruct (probe_ok d Hb Hn d (same_refl d)) as [_ Hg]. rewrite Ht in Hg.
  destruct Hg as (Hon & Hdis & _). rewrite Forall_lookup in Hon. destruct (Hon i p Hi) as (? & ? & ? & _). destruct (Hon j q Hj) as (? & ? & ? & _).
  assert (disjoint_parts p q) as Hd.
  { eapply (pairs_lookup _ _ i j p q) in Hdis; [|intros x y Hxy ? ?; by apply disjoint_parts_sym, Hxy|done..].
    apply Hdis; unfold real_partition; rewrite ?Hp, ?Hq; cbn; lia. }
  change (content (p_inner (submit (new_partition d1 p) reqs).1) (pi_start q + s) = content d1 (pi_start q + s)).
  rewrite partition_frame; [done|done|]. cbn [new_partition p_start p_count]. unfold disjoint_parts in Hd. lia.
Qed.
End Isolation.

(** ** Disks *)

Definition entry (typ start count : Z) : list Z := [0; 0; 0; 0; typ; 0; 0; 0] ++ le_bytes 4 start ++ le_bytes 4 count.

Definition record (es : list (Z * Z * Z)) : list Z :=
  let l := flat_map (fun '(t, s, c) => entry t s c) es in
  replicate 446 0 ++ l ++ replicate (64 - length l) 0 ++ [85; 170].

Definition disk_of (sectors : list (Z * list Z)) (n : Z) : RamDisk :=
  mkRam (fun l => match List.find (fun p => p.1 =? l) sectors with Some (_, b) => b | None => [] end) n.

(** A FAT32 partition, and an extended one with a logical one. *)
Definition mbr_disk : RamDisk := disk_of [(0, record [(12, 8, 16); (5, 24, 40)]); (24, record [(11, 4, 8)])] 64.

(** One partition behind a protective MBR. *)
Definition gpt_name : list Z := [69; 0; 83; 0; 80; 0].
Definition gpt_entries_image : list Z :=
  let e := replicate 16 193 ++ replicate 16 42 ++ le_bytes 8 40 ++ le_bytes 8 47 ++ replicate 8 0 ++ gpt_name in
  e ++ replicate (512 - length e) 0.
Definition gpt_header_image (crc : Z) : list Z :=
  EFI_PART ++ [0; 0; 1; 0] ++ le_bytes 4 92 ++ le_bytes 4 crc ++ replicate 4 0 ++ le_bytes 8 1 ++ le_bytes 8 63
  ++ le_bytes 8 34 ++ le_bytes 8 60 ++ replicate 16 7 ++ le_bytes 8 2 ++ le_bytes 4 4 ++ le_bytes 4 128 ++ le_bytes 4 (crc32 gpt_entries_image).
Definition gpt_disk : RamDisk :=
  disk_of [(0, record [(238, 1, 63)]); (1, gpt_header_image (crc32 (gpt_header_image 0))); (2, gpt_entries_image)] 64.

Definition bytes_b (l : list Z) : bool := forallb (fun b => (0 <=? b) && (b <=? 255)) l.

Lemma bytes_b_ok l : bytes_b l = true -> bytes_ok l.
Proof. unfold bytes_b. rewrite forallb_forall. intros Hl. apply Forall_forall. intros x Hx%list_elem_of_In%Hl. unfold byte_ok. lia. Qed.

Lemma disk_bytes sectors n s : forallb (fun p => bytes_b p.2) sectors = true -> bytes_ok (content (disk_of sectors n) s).
Proof.
  intros Hs. change (bytes_ok (ram_content (disk_of sectors n) s)). unfold ram_content. cbn [disk_of ram]. apply Forall_app. split.
  - apply Forall_take. destruct (List.find _ _) as [[k b]|] eqn:E; [|constructor]. apply find_some in E as [Hin _].
    rewrite forallb_forall in Hs. by apply bytes_b_ok, (Hs _ Hin).
  - apply Forall_replicate. unfold byte_ok. lia.
Qed.

#[local] Instance checked_build : Profile := true.

Definition mbr_parts : list PartitionInfo := [mbr_info 1 8 24 16 12 false; mbr_info 2 24 64 40 5 true; mbr_info 5 28 36 8 11 false].

Lemma mbr_disk_probe : (probe_table mbr_disk).2 = Ok (Mbr mbr_parts).
Proof. vm_compute. reflexivity. Qed.

Lemma probe_sound_witness : io_sectors mbr_disk <= u64_max /\ (forall s, content (probe_table mbr_disk).1 s = content mbr_disk s)
  /\ table_ok mbr_disk (Mbr mbr_parts).
Proof.
  assert (forall s, bytes_ok (content mbr_disk s)) as Hb by (intros s; apply disk_bytes; vm_compute; reflexivity).
  assert (io_sectors mbr_disk <= u64_max) as Hn by (vm_compute; discriminate).
  pose proof (probe_sound mbr_disk Hb Hn) as Hp. rewrite mbr_disk_probe in Hp. exact (conj Hn Hp).
Defined.

Lemma partition_isolated_witness :
  let p := mbr_info 1 8 24 16 12 false in
  let q := mbr_info 5 28 36 8 11 false in
  let reqs := [mkReq 15 1 (ConstBuf (replicate 512 9)) true] in
  let d1 := (probe_table mbr_disk).1 in
  let d2 := p_inner (submit (new_partition d1 p) reqs).1 in
  content (new_partition d2 q) 7 = content (new_partition d1 q) 7.
Proof.
  intros p q reqs d1 d2. apply (partition_isolated mbr_disk (Mbr mbr_parts) 0 2 p q reqs).
  - intros s. apply disk_bytes. vm_compute. reflexivity.
  - vm_compute. discriminate.
  - exact mbr_disk_probe.
  - reflexivity.
  - reflexivity.
  - discriminate.
  - reflexivity.
  - reflexivity.
  - repeat constructor. discriminate.
  - cbn. lia.
Defined.

(** The disk of [gpt_disk] with another first usable sector in its header. *)
Definition hurt_disk : RamDisk :=
  disk_of [(0, record [(238, 1, 63)]); (1, <[40%nat:=35]> (gpt_header_image (crc32 (gpt_header_image 0)))); (2, gpt_entries_image)] 64.

Lemma gpt_disk_accepted : exists l, (gpt_parse_at 1 gpt_disk).2 = Ok l.
Proof. eexists. vm_compute. reflexivity. Qed.

Lemma gpt_detects_damage_witness : (gpt_parse_at 1 hurt_disk).2 <> Ok [].
Proof.
  destruct gpt_disk_accepted as [l Hl]. refine (gpt_detects_damage gpt_disk hurt_disk 1 l 40 _ _ _ _ []).
  - intros s. apply disk_bytes. vm_compute. reflexivity.
  - intros s. apply disk_bytes. vm_compute. reflexivity.
  - exact Hl.
  - left. split; [right; vm_compute; lia|]. exists 35, 34. split_and!; [vm_compute; reflexivity|discriminate|unfold byte_ok; lia|vm_compute; reflexivity].
Defined.

(** ** Known values and defects *)

(** The check value of CRC-32: the sum of the digits 1 to 9. *)
Example crc32_check : crc32 [49; 50; 51; 52; 53; 54; 55; 56; 57] = 3421780262.
Proof. vm_compute. reflexivity. Qed.

(** A surrogate pair is joined with [|] where UTF-16 adds: U+20000 comes out as
    U+10000. *)
Theorem utf16_plane_lost : decode_utf16 [55360; 56320] = [65536].
Proof. vm_compute. reflexivity. Qed.

(** An entry that spans every [u64] sector number stops a checked build before it
    can be refused. *)
Theorem gpt_full_range_panics n i :
  gpt_entry n i (replicate 16 1 ++ replicate 16 1 ++ le_bytes 8 0 ++ le_bytes 8 u64_max ++ replicate 80 0) = Panic.
Proof. vm_compute. reflexivity. Qed.
