(* ===== verification/Tmpfs.v ===== *)
(** * The file system in memory

    Model of kernel/src/filesystems/fstypes/tmpfs: inodes that share their
    children through counted references, the budget of bytes that each mounted
    instance may use, and every operation of the inode interface.  The store maps
    addresses to inodes and to the counters of the instances; a reference is held
    by a directory or by a client.  When the last one goes, so does the inode, and
    then what only it referred to.  Each operation is one step, under the locks it
    takes; [now] is the wall clock. *)

From S2P Require Import Prelude Errors Fat32 FatDirent FatFile FatNode.
Import Errors.Vfs.
Local Open Scope Z_scope.

Definition TMPFS_BUDGET : Z := 64 * 1024 * 1024.
Definition ROOT_INO : Z := 1.

(** Names are characters, as everywhere in the virtual file system. *)
Inductive TmpfsEntry :=
  | TFile (data : list Z)
  | TDir (children : gmap (list Z) nat)
  | TSymlink (target : list Z)
  | TFifo.

Record TmpfsInode := mkTmp {
  t_ino : Z;
  t_type : FileType;
  t_entry : TmpfsEntry;
  t_mtime : Z;
  t_mode : Z;
  t_size : Z;
  t_used : nat
}.

(** [NEXT_INO], the inodes and the counters by address, and the references that
    clients hold. *)
Record Tmpfs := mkTmpfs {
  t_nodes : gmap nat TmpfsInode;
  t_counters : gmap nat Z;
  t_next_ino : Z;
  t_next_addr : nat;
  t_held : list nat
}.

Definition tmpfs0 : Tmpfs := mkTmpfs ∅ ∅ 2 0 [].

Definition set_nodes (s : Tmpfs) m := mkTmpfs m (t_counters s) (t_next_ino s) (t_next_addr s) (t_held s).
Definition set_counter (s : Tmpfs) u c := mkTmpfs (t_nodes s) (<[u := c]> (t_counters s)) (t_next_ino s) (t_next_addr s) (t_held s).
Definition set_held (s : Tmpfs) h := mkTmpfs (t_nodes s) (t_counters s) (t_next_ino s) (t_next_addr s) h.

Definition counter (s : Tmpfs) (u : nat) : Z := default 0 (t_counters s !! u).

(** A reference that does not point to an inode is undefined behaviour. *)
Definition t_node (a : nat) : cmd Tmpfs TmpfsInode := fun s =>
  match t_nodes s !! a with Some n => (s, Ok n) | None => (s, Panic) end.

Definition put_node (a : nat) (n : TmpfsInode) : cmd Tmpfs unit := fun s => (set_nodes s (<[a := n]> (t_nodes s)), Ok tt).

Definition set_entry (n : TmpfsInode) (e : TmpfsEntry) := mkTmp (t_ino n) (t_type n) e (t_mtime n) (t_mode n) (t_size n) (t_used n).
Definition set_mtime (n : TmpfsInode) (t : Z) := mkTmp (t_ino n) (t_type n) (t_entry n) t (t_mode n) (t_size n) (t_used n).
Definition set_mode (n : TmpfsInode) (m : Z) := mkTmp (t_ino n) (t_type n) (t_entry n) (t_mtime n) m (t_size n) (t_used n).
Definition set_size (n : TmpfsInode) (z : Z) := mkTmp (t_ino n) (t_type n) (t_entry n) (t_mtime n) (t_mode n) z (t_used n).

Definition t_err {A} (e : VfsError) : cmd Tmpfs A := cmd_res (Err e).

(** ** The budget *)

Definition check_budget (u : nat) (growth : Z) : cmd Tmpfs unit := fun s =>
  if growth =? 0 then (s, Ok tt)
  else if TMPFS_BUDGET <? sat_add_u64 (counter s u) growth then (s, Err NoSpace) else (s, Ok tt).

Definition reserve_budget (u : nat) (growth : Z) : cmd Tmpfs unit := fun s =>
  if growth =? 0 then (s, Ok tt)
  else
    match checked_add_u64 (counter s u) growth with
    | None => (s, Err NoSpace)
    | Some new => if TMPFS_BUDGET <? new then (s, Err NoSpace) else (set_counter s u new, Ok tt)
    end.

(** [fetch_sub] *)
Definition refund (u : nat) (n : Z) (s : Tmpfs) : Tmpfs := set_counter s u ((counter s u - n) mod 2 ^ 64).

(** ** References *)

Definition zlen (l : list Z) : Z := Z.of_nat (length l).

(** The bytes that [drop] gives back. *)
Definition node_bytes (n : TmpfsInode) : Z := match t_entry n with TFile d => zlen d | TSymlink t => zlen t | _ => 0 end.

Definition kids (n : TmpfsInode) : list nat := match t_entry n with TDir c => (map_to_list c).*2 | _ => [] end.

Definition count (a : nat) (l : list nat) : nat := length (List.filter (Nat.eqb a) l).

(** Every reference in the store. *)
Definition all_refs (s : Tmpfs) : list nat := t_held s ++ flat_map (fun p => kids p.2) (map_to_list (t_nodes s)).

(** Drop the references [wl], the first one first, and what they were the last
    references to. *)
Fixpoint drop_arcs (fuel : nat) (s : Tmpfs) (wl : list nat) : Tmpfs :=
  match fuel, wl with
  | _, [] => s
  | O, _ => s
  | S fuel, a :: wl =>
      match t_nodes s !! a with
      | Some n =>
          if (count a (all_refs s ++ wl) =? 0)%nat then
            let s := if 0 <? node_bytes n then refund (t_used n) (node_bytes n) s else s in
            drop_arcs fuel (set_nodes s (delete a (t_nodes s))) (kids n ++ wl)
          else drop_arcs fuel s wl
      | None => drop_arcs fuel s wl
      end
  end.

Definition drop_all (wl : list nat) : cmd Tmpfs unit := fun s => (drop_arcs (length wl + length (all_refs s)) s wl, Ok tt).

(** The operation gives its caller a reference. *)
Definition give (a : nat) : cmd Tmpfs nat := fun s => (set_held s (a :: t_held s), Ok a).

Fixpoint remove_one (a : nat) (l : list nat) : list nat :=
  match l with [] => [] | b :: l => if (a =? b)%nat then l else b :: remove_one a l end.

(** A client drops a reference it holds. *)
Definition drop_handle (a : nat) : cmd Tmpfs unit := fun s => drop_all [a] (set_held s (remove_one a (t_held s))).

(** ** Mounting *)

Definition new_root (u : nat) : TmpfsInode := mkTmp ROOT_INO Directory (TDir ∅) 0 493 0 u.

(** The root, held by its superblock. *)
Definition tmpfs_mount : cmd Tmpfs nat := fun s =>
  let a := t_next_addr s in
  (mkTmpfs (<[a := new_root a]> (t_nodes s)) (<[a := 0]> (t_counters s)) (t_next_ino s) (S a) (a :: t_held s), Ok a).

Record StatFs := mkStatFs { block_size : Z; total_blocks : Z; free_blocks : Z }.

Definition tmpfs_statfs (u : nat) : cmd Tmpfs StatFs := fun s =>
  (s, Ok (mkStatFs 4096 (TMPFS_BUDGET / 4096) (sat_sub_u64 TMPFS_BUDGET (counter s u) / 4096))).

(** ** Operations *)

Section Ops.
Context `{Profile} (now : Z).

Definition resize (d : list Z) (n : Z) : list Z := take (Z.to_nat n) d ++ replicate (Z.to_nat n - length d) 0.

Definition read_slice (d : list Z) (offset buf_len : Z) : list Z :=
  if zlen d <=? offset then []
  else take (Z.to_nat (Z.min buf_len (zlen d - offset))) (drop (Z.to_nat offset) d).

(** The bytes copied to a buffer of [buf_len]. *)
Definition t_read_at (a : nat) (offset buf_len : Z) : cmd Tmpfs (list Z) :=
  do! n := t_node a in
  match t_entry n with
  | TFile d | TSymlink d => cmd_ret (read_slice d offset buf_len)
  | _ => t_err IsADirectory
  end.

(** [data[offset..end].copy_from_slice(buf)] *)
Definition copy_at (d : list Z) (offset end_ : Z) (buf : list Z) : res VfsError (list Z) :=
  if (end_ <? offset) || (zlen d <? end_) then Panic
  else Ok (take (Z.to_nat offset) d ++ buf ++ drop (Z.to_nat end_) d).

Definition when (b : bool) (m : cmd Tmpfs unit) : cmd Tmpfs unit := if b then m else cmd_ret tt.

Definition give_back (u : nat) (n : Z) : cmd Tmpfs unit := fun s => (refund u n s, Ok tt).

(** New contents, of which the growth is reserved already. *)
Definition store_data (a : nat) (n : TmpfsInode) (e : TmpfsEntry) (old_len new_len : Z) : cmd Tmpfs unit :=
  do! _ := put_node a (set_mtime (set_size (set_entry n e) new_len) now) in
  when (new_len <? old_len) (give_back (t_used n) (old_len - new_len)).

(** Write at an offset, with zeros in a gap. *)
Definition write_bytes (a : nat) (n : TmpfsInode) (mk : list Z -> TmpfsEntry) (d : list Z) (offset : Z) (buf : list Z) : cmd Tmpfs Z :=
  do! end_ := cmd_res (u64_add offset (zlen buf)) in
  do! _ := when (zlen d <? end_) (reserve_budget (t_used n) (end_ - zlen d)) in
  let d1 := if zlen d <? end_ then resize d end_ else d in
  do! d2 := cmd_res (copy_at d1 offset end_ buf) in
  do! _ := store_data a n (mk d2) (zlen d) (zlen d2) in
  cmd_ret (zlen buf).

Definition t_write_at (a : nat) (offset : Z) (buf : list Z) : cmd Tmpfs Z :=
  do! n := t_node a in
  match t_entry n with
  | TFile d => write_bytes a n TFile d offset buf
  | TSymlink t =>
      if offset =? 0 then
        do! _ := when (zlen t <? zlen buf) (reserve_budget (t_used n) (zlen buf - zlen t)) in
        do! _ := store_data a n (TSymlink buf) (zlen t) (zlen buf) in
        cmd_ret (zlen buf)
      else write_bytes a n TSymlink t offset buf
  | _ => t_err IsADirectory
  end.

Definition t_truncate (a : nat) (len : Z) : cmd Tmpfs unit :=
  do! n := t_node a in
  match t_entry n with
  | TFile d =>
      do! _ := when (zlen d <? len) (reserve_budget (t_used n) (len - zlen d)) in
      store_data a n (TFile (resize d len)) (zlen d) len
  | TSymlink t =>
      do! _ := when (zlen t <? len) (reserve_budget (t_used n) (len - zlen t)) in
      let t' := if zlen t <? len then resize t len else take (Z.to_nat len) t in
      store_data a n (TSymlink t') (zlen t) (zlen t')
  | _ => t_err IsADirectory
  end.

(** The children of a directory. *)
Definition dir_of (a : nat) : cmd Tmpfs (TmpfsInode * gmap (list Z) nat) :=
  do! n := t_node a in
  match t_entry n with TDir c => cmd_ret (n, c) | _ => t_err NotADirectory end.

Definition t_lookup (a : nat) (name : list Z) : cmd Tmpfs nat :=
  do! d := dir_of a in
  match d.2 !! name with Some c => give c | None => t_err NotFound end.

(** A new inode, entered in the directory [a] and given to the caller. *)
Definition add_child (a : nat) (n : TmpfsInode) (c : gmap (list Z) nat) (name : list Z) (ty : FileType) (e : TmpfsEntry) (mode size : Z)
    : cmd Tmpfs nat := fun s =>
  let b := t_next_addr s in
  let child := mkTmp (t_next_ino s) ty e now mode size (t_used n) in
  let m := <[a := set_entry n (TDir (<[name := b]> c))]> (<[b := child]> (t_nodes s)) in
  (mkTmpfs m (t_counters s) ((t_next_ino s + 1) mod 2 ^ 64) (S b) (b :: t_held s), Ok b).

Definition exists_in (c : gmap (list Z) nat) (name : list Z) : bool := bool_decide (is_Some (c !! name)).

Definition make (a : nat) (name : list Z) (ty : FileType) (e : TmpfsEntry) (mode : Z) : cmd Tmpfs nat :=
  do! d := dir_of a in
  if exists_in d.2 name then t_err AlreadyExists else add_child a d.1 d.2 name ty e mode 0.

Definition t_create (a : nat) (name : list Z) : cmd Tmpfs nat := make a name Regular (TFile []) 420.
Definition t_mkdir (a : nat) (name : list Z) : cmd Tmpfs nat := make a name Directory (TDir ∅) 493.
Definition t_mkfifo (a : nat) (name : list Z) (mode : Z) : cmd Tmpfs nat := make a name Fifo TFifo (Z.land mode 511).

Definition mknod_type (mode : Z) : FileType :=
  if Z.land mode 24576 =? 24576 then BlockDeviceFile
  else if Z.land mode 8192 =? 8192 then CharDevice
  else if Z.land mode 49152 =? 49152 then Socket
  else Regular.

Definition t_mknod (a : nat) (name : list Z) (mode : Z) : cmd Tmpfs nat :=
  let ft := mknod_type mode in
  make a name ft (if bool_decide (ft = Fifo) then TFifo else TFile []) (Z.land mode 4095).

Definition t_symlink (a : nat) (name target : list Z) : cmd Tmpfs nat :=
  do! d := dir_of a in
  if exists_in d.2 name then t_err AlreadyExists
  else
    let t := as_bytes target in
    do! _ := reserve_budget (t_used d.1) (zlen t) in
    add_child a d.1 d.2 name Symlink (TSymlink t) 511 (zlen t).

Definition set_children (a : nat) (n : TmpfsInode) (c : gmap (list Z) nat) : cmd Tmpfs unit := put_node a (set_entry n (TDir c)).

Definition t_unlink (a : nat) (name : list Z) : cmd Tmpfs unit :=
  do! d := dir_of a in
  match d.2 !! name with
  | None => t_err NotFound
  | Some b => do! _ := set_children a d.1 (delete name d.2) in drop_all [b]
  end.

(** The children of the child are locked while those of the directory are: a directory
    that is its own child waits for itself for ever, here a panic. *)
Definition t_rmdir (a : nat) (name : list Z) : cmd Tmpfs unit :=
  do! d := dir_of a in
  match d.2 !! name with
  | None => t_err NotFound
  | Some b =>
      if (b =? a)%nat then cmd_res Panic else
      do! child := t_node b in
      if match t_entry child with TDir cc => negb (bool_decide (cc = ∅)) | _ => false end then t_err NotEmpty
      else do! _ := set_children a d.1 (delete name d.2) in drop_all [b]
  end.

(** Names with their inode numbers and types. *)
Definition t_readdir (a : nat) : cmd Tmpfs (list (Z * list Z * FileType)) :=
  do! d := dir_of a in
  fun s => (s, Ok (omap (fun p => (fun n => (t_ino n, p.1, t_type n)) <$> t_nodes s !! p.2) (map_to_list d.2))).

Definition t_getattr (a : nat) : cmd Tmpfs Stat :=
  do! n := t_node a in
  cmd_ret {| stat_ino := t_ino n; stat_size := match t_entry n with TFile _ => t_size n | TSymlink t => zlen t | _ => 0 end;
             stat_type := t_type n; stat_mtime := t_mtime n; stat_mode := t_mode n |}.

Definition t_chmod (a : nat) (mode : Z) : cmd Tmpfs unit :=
  do! n := t_node a in put_node a (set_mtime (set_mode n (Z.land mode 4095)) now).
Definition t_chown (a : nat) : cmd Tmpfs unit := do! n := t_node a in put_node a (set_mtime n now).
Definition t_utimens (a : nat) (mtime : Z) : cmd Tmpfs unit := do! n := t_node a in put_node a (set_mtime n mtime).

(** [String::from_utf8_lossy]: one replacement character for each maximal part of a
    character that is cut short, and for each byte that starts none. *)
Fixpoint from_utf8_lossy (l : list Z) : list Z :=
  let cont lo hi b := (lo <=? b) && (b <=? hi) in
  match l with
  | [] => []
  | b0 :: r =>
      if b0 <? 128 then b0 :: from_utf8_lossy r
      else if cont 194 223 b0 then
        match r with
        | b1 :: r1 =>
            if cont 128 191 b1 then ((b0 - 192) * 64 + (b1 - 128)) :: from_utf8_lossy r1 else 65533 :: from_utf8_lossy r
        | [] => [65533]
        end
      else if cont 224 239 b0 then
        match r with
        | b1 :: r1 =>
            if cont (if b0 =? 224 then 160 else 128) (if b0 =? 237 then 159 else 191) b1 then
              match r1 with
              | b2 :: r2 =>
                  if cont 128 191 b2 then ((b0 - 224) * 4096 + (b1 - 128) * 64 + (b2 - 128)) :: from_utf8_lossy r2
                  else 65533 :: from_utf8_lossy r1
              | [] => [65533]
              end
            else 65533 :: from_utf8_lossy r
        | [] => [65533]
        end
      else if cont 240 244 b0 then
        match r with
        | b1 :: r1 =>
            if cont (if b0 =? 240 then 144 else 128) (if b0 =? 244 then 143 else 191) b1 then
              match r1 with
              | b2 :: r2 =>
                  if cont 128 191 b2 then
                    match r2 with
                    | b3 :: r3 =>
                        if cont 128 191 b3
                        then ((b0 - 240) * 262144 + (b1 - 128) * 4096 + (b2 - 128) * 64 + (b3 - 128)) :: from_utf8_lossy r3
                        else 65533 :: from_utf8_lossy r2
                    | [] => [65533]
                    end
                  else 65533 :: from_utf8_lossy r1
              | [] => [65533]
              end
            else 65533 :: from_utf8_lossy r
        | [] => [65533]
        end
      else 65533 :: from_utf8_lossy r
  end.

Definition t_readlink (a : nat) : cmd Tmpfs (list Z) :=
  do! n := t_node a in
  match t_entry n with TSymlink t => cmd_ret (from_utf8_lossy t) | _ => t_err InvalidInput end.

Definition t_link (a : nat) (old_name new_name : list Z) : cmd Tmpfs unit :=
  do! d := dir_of a in
  match d.2 !! old_name with
  | None => t_err NotFound
  | Some b => if exists_in d.2 new_name then t_err AlreadyExists else set_children a d.1 (<[new_name := b]> d.2)
  end.

(** [insert] drops the value it replaces. *)
Definition t_rename (a : nat) (old_name new_name : list Z) : cmd Tmpfs unit :=
  do! d := dir_of a in
  match d.2 !! old_name with
  | None => t_err NotFound
  | Some b =>
      let c := delete old_name d.2 in
      do! _ := set_children a d.1 (<[new_name := b]> c) in
      drop_all (option_list (c !! new_name))
  end.

Definition dot_name (n : list Z) : bool := bool_decide (n = [46]) || bool_decide (n = [46; 46]).

(** [other] is [None] if the other directory is not one of this file system. *)
Definition t_rename_across (a : nat) (other : option nat) (old_name new_name : list Z) : cmd Tmpfs unit :=
  match other with
  | None => t_err CrossDeviceLink
  | Some b =>
      do! n := t_node a in
      do! o := t_node b in
      if negb (t_used n =? t_used o)%nat then t_err CrossDeviceLink
      else if negb (bool_decide (t_type n = Directory)) || negb (bool_decide (t_type o = Directory)) then t_err NotADirectory
      else if dot_name old_name || dot_name new_name then t_err InvalidInput
      else if t_ino n =? t_ino o then t_rename a old_name new_name
      else
        do! src := dir_of a in
        do! dst := dir_of b in
        match src.2 !! old_name with
        | None => t_err NotFound
        | Some child =>
            do! _ := set_children a src.1 (delete old_name src.2) in
            do! _ := set_children b dst.1 (<[new_name := child]> dst.2) in
            drop_all (option_list (dst.2 !! new_name))
        end
  end.
End Ops.
