(* ===== verification/TmpfsFacts.v ===== *)
(** * Invariant of the file system in memory

    The references in the store lead to inodes, every inode is referred to, and
    the counter of each instance is the number of bytes its inodes hold.  Dropping
    references keeps all of this. *)

From S2P Require Import Prelude Errors Fat32 FatDirent FatFile FatNode Tmpfs.
Import Errors.Vfs.
Local Open Scope Z_scope.

(** ** Sums and references over the store *)

Definition zsum (l : list Z) : Z := fold_right Z.add 0 l.

Lemma zsum_perm l l' : l ≡ₚ l' -> zsum l = zsum l'.
Proof. unfold zsum. induction 1; cbn; lia. Qed.

Definition weight (u : nat) (n : TmpfsInode) : Z := if (t_used n =? u)%nat then node_bytes n else 0.

(** The bytes that the inodes of an instance hold. *)
Definition usage (m : gmap nat TmpfsInode) (u : nat) : Z := zsum (map (fun p => weight u p.2) (map_to_list m)).

Definition node_refs (m : gmap nat TmpfsInode) : list nat := flat_map (fun p => kids p.2) (map_to_list m).

Lemma all_refs_eq s : all_refs s = t_held s ++ node_refs (t_nodes s).
Proof. done. Qed.

Lemma usage_insert m a n u : m !! a = None -> usage (<[a:=n]> m) u = weight u n + usage m u.
Proof. intros Ha. unfold usage. rewrite (zsum_perm _ _ (Permutation_map _ (map_to_list_insert m a n Ha))). done. Qed.

Lemma usage_delete m a n u : m !! a = Some n -> usage m u = weight u n + usage (delete a m) u.
Proof. intros Ha. rewrite <- (insert_delete_id m a n Ha) at 1. apply usage_insert, lookup_delete_eq. Qed.

Lemma usage_update m a n n' u : m !! a = Some n -> usage (<[a:=n']> m) u = usage m u - weight u n + weight u n'.
Proof.
  intros Ha. rewrite (usage_delete m a n u Ha), (usage_delete (<[a:=n']> m) a n' u) by apply lookup_insert_eq.
  rewrite delete_insert_eq. lia.
Qed.

Lemma node_refs_insert m a n : m !! a = None -> node_refs (<[a:=n]> m) ≡ₚ kids n ++ node_refs m.
Proof. intros Ha. unfold node_refs. rewrite (map_to_list_insert m a n Ha). done. Qed.

Lemma node_refs_delete m a n : m !! a = Some n -> node_refs m ≡ₚ kids n ++ node_refs (delete a m).
Proof. intros Ha. rewrite <- (insert_delete_id m a n Ha) at 1. apply node_refs_insert, lookup_delete_eq. Qed.

Lemma node_refs_update m a n n' : m !! a = Some n -> node_refs (<[a:=n']> m) ≡ₚ kids n' ++ node_refs (delete a m).
Proof. intros Ha. rewrite (node_refs_delete _ a n') by apply lookup_insert_eq. by rewrite delete_insert_eq. Qed.

Lemma count_0 a l : count a l = 0%nat <-> a ∉ l.
Proof.
  unfold count. rewrite <- (List.filter_ext (fun x => bool_decide (a = x))).
  2: { intros x. by destruct (Nat.eqb_spec a x), (bool_decide_reflect (a = x)). }
  split.
  - intros E Hin. apply nil_length_inv in E. assert (In a (List.filter (fun x => bool_decide (a = x)) l)) as Hf.
    { apply filter_In. split; [by apply list_elem_of_In|by apply bool_decide_eq_true]. }
    by rewrite E in Hf.
  - intros Hn. destruct (List.filter _ l) as [|b l'] eqn:E; [done|]. assert (In b (b :: l')) as Hb by (by left).
    rewrite <- E in Hb. apply filter_In in Hb as [Hb Eb]. apply bool_decide_eq_true in Eb as ->. by apply list_elem_of_In in Hb.
Qed.

Lemma weight_le m a n u : m !! a = Some n -> 0 <= weight u n <= usage m u.
Proof.
  intros Ha. assert (forall n, 0 <= weight u n) as Hw. { intros x. unfold weight, node_bytes, zlen. repeat case_match; lia. }
  split; [done|]. rewrite (usage_delete m a n u Ha). assert (0 <= usage (delete a m) u); [|lia].
  unfold usage, zsum. induction (map_to_list _) as [|p l IH]; cbn; [lia|]. specialize (Hw p.2). lia.
Qed.

(** ** The invariant *)

Definition node_ok (n : TmpfsInode) : Prop :=
  match t_entry n with
  | TFile _ => t_type n <> Directory
  | TDir _ => t_type n = Directory
  | TSymlink _ => t_type n = Symlink
  | TFifo => t_type n = Fifo
  end /\ t_size n = node_bytes n.

(** [wl] are references on their way to being dropped. *)
Record tinv (wl : list nat) (s : Tmpfs) : Prop := {
  ti_closed a : a ∈ wl ++ all_refs s -> is_Some (t_nodes s !! a);
  ti_live a : is_Some (t_nodes s !! a) -> a ∈ wl ++ all_refs s;
  ti_used a n : t_nodes s !! a = Some n -> is_Some (t_counters s !! t_used n);
  ti_count u c : t_counters s !! u = Some c -> c = usage (t_nodes s) u /\ c <= TMPFS_BUDGET;
  ti_node a n : t_nodes s !! a = Some n -> node_ok n;
  ti_addr a : (t_next_addr s <= a)%nat -> t_nodes s !! a = None /\ t_counters s !! a = None
}.

Lemma counter_exact wl s a n : tinv wl s -> t_nodes s !! a = Some n ->
  t_counters s !! t_used n = Some (counter s (t_used n)) /\ 0 <= node_bytes n <= counter s (t_used n) /\ counter s (t_used n) <= TMPFS_BUDGET.
Proof.
  intros Hi Ha. destruct (ti_used wl s Hi a n Ha) as [c Hc]. unfold counter. rewrite Hc. cbn [default].
  destruct (ti_count wl s Hi _ _ Hc) as [-> Hb]. pose proof (weight_le _ a n (t_used n) Ha) as Hw. unfold weight in Hw.
  rewrite Nat.eqb_refl in Hw. done.
Qed.

(** The state with [n'] at [a] and its counter moved by [δ]. *)
Definition upd (s : Tmpfs) (a : nat) (n' : TmpfsInode) (δ : Z) : Tmpfs :=
  mkTmpfs (<[a:=n']> (t_nodes s)) (<[t_used n' := counter s (t_used n') + δ]> (t_counters s)) (t_next_ino s) (t_next_addr s) (t_held s).

Lemma tinv_upd wl wl' s a n n' δ : tinv wl s -> t_nodes s !! a = Some n -> t_used n' = t_used n -> node_ok n' ->
  node_bytes n' = node_bytes n + δ -> counter s (t_used n) + δ <= TMPFS_BUDGET ->
  (forall x, x ∈ wl' ++ kids n' -> is_Some (t_nodes s !! x)) -> (forall x, x ∈ wl ++ kids n -> x ∈ wl' ++ kids n') ->
  tinv wl' (upd s a n' δ).
Proof.
  intros Hi Ha Hu Hok Hδ Hb Hc Hl. destruct (counter_exact wl s a n Hi Ha) as (Eu & _ & _).
  assert (forall x, is_Some (<[a:=n']> (t_nodes s) !! x) <-> is_Some (t_nodes s !! x)) as Hdom.
  { intros x. destruct (decide (a = x)) as [<-|Hx]; [rewrite lookup_insert_eq, Ha; by split; intros _; eexists|by rewrite lookup_insert_ne]. }
  assert (forall x, x ∈ all_refs (upd s a n' δ) <-> x ∈ t_held s ++ kids n' ++ node_refs (delete a (t_nodes s))) as Hr.
  { intros x. rewrite all_refs_eq. cbn [upd t_held t_nodes]. by rewrite (node_refs_update _ _ n n' Ha). }
  assert (forall x, x ∈ all_refs s <-> x ∈ t_held s ++ kids n ++ node_refs (delete a (t_nodes s))) as Hr0.
  { intros x. rewrite all_refs_eq. by rewrite (node_refs_delete _ _ n Ha). }
  constructor; cbn [upd t_nodes t_counters t_next_addr].
  - intros x Hx. apply Hdom. rewrite elem_of_app, Hr, !elem_of_app in Hx. pose proof (ti_closed wl s Hi x) as Hcl.
    rewrite elem_of_app, Hr0, !elem_of_app in Hcl. specialize (Hc x). rewrite elem_of_app in Hc. naive_solver.
  - intros x Hx. apply Hdom in Hx. apply (ti_live wl s Hi) in Hx. rewrite elem_of_app, Hr0, !elem_of_app in Hx.
    rewrite elem_of_app, Hr, !elem_of_app. specialize (Hl x). rewrite !elem_of_app in Hl. naive_solver.
  - intros x m Hx. rewrite lookup_insert_is_Some. destruct (decide (t_used n' = t_used m)); [by left|right; split; [done|]].
    apply lookup_insert_Some in Hx as [[_ <-]|[_ Hx]]; [done|]. by apply (ti_used wl s Hi x).
  - intros u c Hx. rewrite (usage_update _ a n n' u Ha). unfold weight. rewrite Hu. apply lookup_insert_Some in Hx as [[Eu' <-]|[Hne Hx]].
    + rewrite Hu in Eu'. rewrite <- Eu', Nat.eqb_refl. destruct (ti_count wl s Hi _ _ Eu) as [E _]. rewrite Hu. lia.
    + rewrite Hu in Hne. rewrite (proj2 (Nat.eqb_neq _ _) Hne). destruct (ti_count wl s Hi _ _ Hx). lia.
  - intros x m Hx. apply lookup_insert_Some in Hx as [[_ <-]|[_ Hx]]; [done|]. by apply (ti_node wl s Hi x).
  - intros x Hx. destruct (ti_addr wl s Hi x Hx) as [H1 H2]. rewrite !lookup_insert_None, Hu. split_and!; [done|congruence|done|congruence].
Qed.

(** ** Dropping references *)

Lemma drop_one wl s a n : tinv (a :: wl) s -> t_nodes s !! a = Some n -> a ∉ all_refs s ++ wl ->
  let s1 := if 0 <? node_bytes n then refund (t_used n) (node_bytes n) s else s in
  tinv (kids n ++ wl) (set_nodes s1 (delete a (t_nodes s1))) /\ t_nodes s1 = t_nodes s /\ t_held s1 = t_held s.
Proof.
  intros Hi Ha Hn s1. destruct (counter_exact _ s a n Hi Ha) as (Eu & Hb & Hmax).
  assert (t_nodes s1 = t_nodes s /\ t_held s1 = t_held s /\ t_next_addr s1 = t_next_addr s /\
    t_counters s1 = <[t_used n := counter s (t_used n) - node_bytes n]> (t_counters s)) as (E1 & E2 & E3 & E4).
  { unfold s1. destruct (Z.ltb_spec 0 (node_bytes n)).
    - split_and!; [done..|]. cbn [refund set_counter t_counters]. rewrite Z.mod_small; [done|]. unfold TMPFS_BUDGET in Hmax. lia.
    - split_and!; [done..|]. rewrite insert_id; [done|]. rewrite Eu. f_equal. lia. }
  split; [|by split]. rewrite E1. assert (forall x, x ∈ all_refs (set_nodes s1 (delete a (t_nodes s))) <-> x ∈ t_held s ++ node_refs (delete a (t_nodes s))) as Hr.
  { intros x. rewrite all_refs_eq. cbn [set_nodes t_held t_nodes]. by rewrite E2. }
  assert (forall x, x ∈ all_refs s <-> x ∈ t_held s ++ kids n ++ node_refs (delete a (t_nodes s))) as Hr0.
  { intros x. rewrite all_refs_eq. by rewrite (node_refs_delete _ _ n Ha). }
  rewrite elem_of_app, Hr0, !elem_of_app in Hn.
  constructor; cbn [set_nodes t_nodes t_counters t_next_addr]; rewrite ?E3, ?E4.
  - intros x Hx. rewrite elem_of_app, Hr, !elem_of_app in Hx. assert (x <> a) as Hxa by naive_solver. rewrite lookup_delete_ne by done.
    apply (ti_closed _ s Hi). rewrite elem_of_app, Hr0, !elem_of_app. rewrite elem_of_cons. naive_solver.
  - intros x Hx. assert (x <> a) as Hxa by (intros ->; rewrite lookup_delete_eq in Hx; by destruct Hx). rewrite lookup_delete_ne in Hx by done.
    apply (ti_live _ s Hi) in Hx. rewrite elem_of_app, Hr0, !elem_of_app, elem_of_cons in Hx. rewrite elem_of_app, Hr, !elem_of_app. naive_solver.
  - intros x m Hx. apply lookup_delete_Some in Hx as [_ Hx]. rewrite lookup_insert_is_Some. destruct (decide (t_used n = t_used m)); [by left|].
    right. split; [done|]. by apply (ti_used _ s Hi x).
  - intros u c Hx. pose proof (usage_delete _ a n u Ha) as Hus. unfold weight in Hus. apply lookup_insert_Some in Hx as [[<- <-]|[Hne Hx]].
    + rewrite Nat.eqb_refl in Hus. destruct (ti_count _ s Hi _ _ Eu). lia.
    + rewrite (proj2 (Nat.eqb_neq _ _) Hne) in Hus. destruct (ti_count _ s Hi _ _ Hx). lia.
  - intros x m Hx. apply lookup_delete_Some in Hx as [_ Hx]. by apply (ti_node _ s Hi x).
  - intros x Hx. destruct (ti_addr _ s Hi x Hx) as [H1 H2]. rewrite lookup_delete_None, lookup_insert_None.
    split_and!; [by right|done|]. intros <-. congruence.
Qed.

Lemma tinv_perm wl wl' s : (forall x, x ∈ wl ++ all_refs s <-> x ∈ wl' ++ all_refs s) -> tinv wl s -> tinv wl' s.
Proof. intros Hp Hi. constructor; try apply Hi; intros x Hx; [apply Hi; by apply Hp|]. apply Hp. by apply Hi. Qed.

Lemma drop_arcs_ok fuel : forall s wl, tinv wl s -> (length wl + length (node_refs (t_nodes s)) <= fuel)%nat ->
  tinv [] (drop_arcs fuel s wl) /\ t_nodes (drop_arcs fuel s wl) ⊆ t_nodes s /\ t_held (drop_arcs fuel s wl) = t_held s.
Proof.
  induction fuel as [|fuel IH]; intros s wl Hi Hf.
  { destruct wl; [done|cbn in Hf; lia]. }
  destruct wl as [|a wl]; [done|]. cbn [drop_arcs]. cbn [length] in Hf.
  destruct (ti_closed _ s Hi a ltac:(by left)) as [n Ha]. rewrite Ha.
  destruct (Nat.eqb_spec (count a (all_refs s ++ wl)) 0) as [Ec|Ec].
  - apply count_0 in Ec. destruct (drop_one wl s a n Hi Ha Ec) as (Hi1 & E1 & E2).
    set (s1 := if 0 <? node_bytes n then _ else s) in *. destruct (IH _ _ Hi1) as (H1 & H2 & H3).
    { cbn [set_nodes t_nodes]. rewrite E1. pose proof (Permutation_length (node_refs_delete _ a n Ha)) as Hl. rewrite length_app in *. lia. }
    split_and!; [done| |by rewrite H3]. etrans; [exact H2|]. cbn [set_nodes t_nodes]. rewrite E1. apply delete_subseteq.
  - apply IH; [|lia]. revert Hi. apply tinv_perm. intros x. rewrite !elem_of_app, elem_of_cons.
    assert (a ∈ all_refs s ++ wl) as Hin. { destruct (decide (a ∈ all_refs s ++ wl)) as [|Hn]; [done|]. by apply count_0 in Hn. }
    rewrite elem_of_app in Hin. naive_solver.
Qed.

Lemma drop_all_ok wl s : tinv wl s ->
  exists s', drop_all wl s = (s', Ok tt) /\ tinv [] s' /\ t_nodes s' ⊆ t_nodes s /\ t_held s' = t_held s.
Proof.
  intros Hi. eexists. split; [reflexivity|]. apply drop_arcs_ok; [done|]. rewrite all_refs_eq, length_app. lia.
Qed.

(** ** References of clients *)

Lemma tinv_held wl wl' s h : tinv wl s -> (forall x, x ∈ wl ++ all_refs s <-> x ∈ wl' ++ all_refs (set_held s h)) -> tinv wl' (set_held s h).
Proof.
  intros Hi Hp. constructor; cbn [set_held t_nodes t_counters t_next_addr]; try apply Hi; intros x Hx; [apply Hi; by apply Hp|].
  apply Hp. by apply Hi.
Qed.

Lemma give_ok s a : tinv [] s -> is_Some (t_nodes s !! a) -> tinv [] (set_held s (a :: t_held s)).
Proof.
  intros Hi Ha. apply (tinv_held []); [done|]. intros x. rewrite !all_refs_eq. cbn [set_held t_held t_nodes app].
  rewrite elem_of_cons, !elem_of_app. pose proof (ti_live _ s Hi a Ha) as Hl. rewrite all_refs_eq in Hl. cbn [app] in Hl.
  rewrite elem_of_app in Hl. naive_solver.
Qed.

Lemma remove_one_elem a l : a ∈ l -> forall x, x ∈ l <-> x ∈ a :: remove_one a l.
Proof.
  intros Ha x. induction l as [|b l IH]; [by apply not_elem_of_nil in Ha|]. cbn [remove_one]. destruct (Nat.eqb_spec a b) as [->|Hne]; [done|].
  rewrite elem_of_cons in Ha. destruct Ha as [->|Ha]; [done|]. specialize (IH Ha). rewrite !elem_of_cons in *. naive_solver.
Qed.

Lemma drop_handle_ok s a : tinv [] s -> a ∈ t_held s ->
  exists s', drop_handle a s = (s', Ok tt) /\ tinv [] s' /\ t_nodes s' ⊆ t_nodes s /\ t_held s' = remove_one a (t_held s).
Proof.
  intros Hi Ha. apply drop_all_ok. apply (tinv_held []); [done|]. intros x. rewrite !all_refs_eq. cbn [set_held t_held t_nodes app].
  rewrite elem_of_cons, !elem_of_app. pose proof (remove_one_elem a _ Ha x) as Hx. rewrite elem_of_cons in Hx. naive_solver.
Qed.

(** ** Operations *)

Lemma set_counter_id s u : is_Some (t_counters s !! u) -> set_counter s u (counter s u + 0) = s.
Proof. intros [c Hc]. unfold set_counter, counter. rewrite Hc. cbn [default]. rewrite Z.add_0_r, insert_id by done. by destruct s. Qed.

(** A reservation succeeds as a whole, or changes nothing. *)
Lemma reserve_spec_tmp s u g : is_Some (t_counters s !! u) -> 0 <= counter s u -> 0 <= g ->
  (reserve_budget u g s = (s, Err NoSpace) /\ TMPFS_BUDGET < counter s u + g) \/
  (reserve_budget u g s = (set_counter s u (counter s u + g), Ok tt) /\ (counter s u + g <= TMPFS_BUDGET \/ g = 0)).
Proof.
  intros Hc H0 Hg. unfold reserve_budget. destruct (Z.eqb_spec g 0) as [->|Hne]; [right; rewrite set_counter_id by done; auto|].
  unfold checked_add_u64, u64_max. destruct (Z.leb_spec (counter s u + g) 18446744073709551615); [|left; unfold TMPFS_BUDGET; auto with lia].
  destruct (Z.ltb_spec TMPFS_BUDGET (counter s u + g)); [by left|right]. split; [done|]. by left.
Qed.

Lemma reserve_when s u old new : is_Some (t_counters s !! u) -> 0 <= counter s u <= TMPFS_BUDGET ->
  let δ := Z.max 0 (new - old) in
  (when (old <? new) (reserve_budget u (new - old)) s = (s, Err NoSpace) /\ TMPFS_BUDGET < counter s u + δ) \/
  (when (old <? new) (reserve_budget u (new - old)) s = (set_counter s u (counter s u + δ), Ok tt) /\ counter s u + δ <= TMPFS_BUDGET).
Proof.
  intros Hc H0 δ. unfold when, δ. destruct (Z.ltb_spec old new).
  - rewrite Z.max_r by lia. destruct (reserve_spec_tmp s u (new - old) Hc) as [[-> ?]|[-> ?]]; [lia|lia|by left|right]. split; [done|lia].
  - right. rewrite Z.max_l by lia. rewrite set_counter_id by done. split; [done|lia].
Qed.

Definition at_ (s : Tmpfs) (a : nat) (n : TmpfsInode) : Prop := tinv [] s /\ t_nodes s !! a = Some n.

Lemma at_counter s a n : at_ s a n -> is_Some (t_counters s !! t_used n) /\ 0 <= node_bytes n <= counter s (t_used n) /\
  counter s (t_used n) <= TMPFS_BUDGET.
Proof. intros [Hi Ha]. destruct (counter_exact [] s a n Hi Ha) as (E & ? & ?). split_and!; [by eexists|lia..]. Qed.

(** The growth reserved, [store_data] leaves the new contents and the exact
    counter. *)
Lemma store_data_eq now s a n e old new : at_ s a n -> old = node_bytes n -> 0 <= new -> counter s (t_used n) + (new - old) <= TMPFS_BUDGET ->
  store_data now a n e old new (set_counter s (t_used n) (counter s (t_used n) + Z.max 0 (new - old)))
  = (upd s a (set_mtime (set_size (set_entry n e) new) now) (new - old), Ok tt).
Proof.
  intros Ha -> Hn Hb. destruct (at_counter s a n Ha) as ([c Ec] & H1 & H2). unfold counter in *. rewrite Ec in *. cbn [default id] in *. unfold store_data, cmd_bind, put_node, when, upd.
  cbn [set_nodes set_counter t_nodes t_counters t_next_ino t_next_addr t_held t_used set_mtime set_size set_entry].
  destruct (Z.ltb_spec new (node_bytes n)) as [Hl|Hl].
  - unfold give_back, refund, set_counter, counter. cbn [set_nodes t_nodes t_counters t_next_ino t_next_addr t_held].
    rewrite lookup_insert_eq, insert_insert_eq, Ec. cbn [default id]. rewrite Z.max_l by lia. rewrite Z.mod_small by (unfold TMPFS_BUDGET in H2; lia).
    do 3 f_equal. lia.
  - rewrite Z.max_r by lia. unfold counter. by rewrite Ec.
Qed.

Lemma upd_data now s a n e new : at_ s a n -> node_ok (set_size (set_entry n e) new) -> kids n = [] -> kids (set_entry n e) = [] ->
  counter s (t_used n) + (new - node_bytes n) <= TMPFS_BUDGET -> tinv [] (upd s a (set_mtime (set_size (set_entry n e) new) now) (new - node_bytes n)).
Proof.
  intros [Hi Ha] Hok Hk Hk' Hb. eapply (tinv_upd [] []); [done|exact Ha|done|exact Hok| |exact Hb| |].
  - destruct Hok as [_ Hs]. change (new = node_bytes (set_entry n e)) in Hs.
    change (node_bytes (set_entry n e) = node_bytes n + (new - node_bytes n)). lia.
  - intros x. change (kids (set_mtime (set_size (set_entry n e) new) now)) with (kids (set_entry n e)). rewrite Hk'. cbn. by intros ?%not_elem_of_nil.
  - intros x. rewrite Hk. cbn. by intros ?%not_elem_of_nil.
Qed.

(** New contents of [new] bytes for the file or link at [a]. *)
Definition replaced (now : Z) (s : Tmpfs) (a : nat) (n : TmpfsInode) (e : TmpfsEntry) : Tmpfs :=
  let n' := set_entry n e in upd s a (set_mtime (set_size n' (node_bytes n')) now) (node_bytes n' - node_bytes n).

Definition holds_data (e : TmpfsEntry) : Prop := match e with TFile _ | TSymlink _ => True | _ => False end.
Definition same_kind (e e' : TmpfsEntry) : Prop := match e, e' with TFile _, TFile _ | TSymlink _, TSymlink _ => True | _, _ => False end.

Lemma replaced_ok now s a n e : at_ s a n -> same_kind (t_entry n) e ->
  counter s (t_used n) + (node_bytes (set_entry n e) - node_bytes n) <= TMPFS_BUDGET -> tinv [] (replaced now s a n e).
Proof.
  intros Ha Hk Hb. pose proof (ti_node _ _ (proj1 Ha) a n (proj2 Ha)) as [Ht _]. apply upd_data; [done| | | |done].
  - split; [|done]. cbn. by destruct (t_entry n), e.
  - unfold kids. by destruct (t_entry n).
  - unfold kids; cbn. by destruct (t_entry n), e.
Qed.

(** ** Contents *)

(** What a file holds after [buf] is written at [offset]. *)
Definition overlay (d : list Z) (offset : nat) (buf : list Z) : list Z :=
  take offset (d ++ replicate (offset - length d) 0) ++ buf ++ drop (offset + length buf) d.

Lemma overlay_length d o buf : length (overlay d o buf) = Nat.max (length d) (o + length buf).
Proof. unfold overlay. rewrite !length_app, length_take, length_app, length_replicate, length_drop. lia. Qed.

Lemma copy_overlay d o buf : let e := (o + length buf)%nat in
  copy_at (if zlen d <? Z.of_nat e then resize d (Z.of_nat e) else d) (Z.of_nat o) (Z.of_nat e) buf = Ok (overlay d o buf).
Proof.
  intros e. unfold copy_at, overlay, resize. rewrite !Nat2Z.id.
  assert (zlen (if zlen d <? Z.of_nat e then take e d ++ replicate (e - length d) 0 else d) = Z.max (zlen d) (Z.of_nat e)) as Hl.
  { unfold zlen. destruct (Z.ltb_spec (Z.of_nat (length d)) (Z.of_nat e)); [|lia]. rewrite length_app, length_take, length_replicate. lia. }
  rewrite Hl. rewrite (proj2 (orb_false_iff _ _)) by (split; apply Z.ltb_ge; lia). f_equal. fold e.
  unfold zlen in *. destruct (Z.ltb_spec (Z.of_nat (length d)) (Z.of_nat e)) as [He|He].
  - rewrite (take_ge d e) by lia. rewrite (drop_ge (d ++ _)) by (rewrite length_app, length_replicate; lia).
    rewrite (drop_ge d e) by lia. rewrite !take_app. f_equal. f_equal. rewrite !take_replicate. f_equal. lia.
  - replace (o - length d)%nat with 0%nat by lia. by rewrite app_nil_r.
Qed.

Lemma node_bytes_data n (mk : list Z -> TmpfsEntry) d : mk = TFile \/ mk = TSymlink -> node_bytes (set_entry n (mk d)) = zlen d.
Proof. by intros [-> | ->]. Qed.

Section Data.
Context `{Profile} (now : Z).

Definition over (s : Tmpfs) (n : TmpfsInode) (e : TmpfsEntry) : Prop := TMPFS_BUDGET < counter s (t_used n) + (node_bytes (set_entry n e) - node_bytes n).

(** A change of contents happens as a whole, or fails for want of space and
    changes nothing. *)
Definition replaces {A} (s : Tmpfs) (a : nat) (n : TmpfsInode) (e : TmpfsEntry) (v : A) (out : Tmpfs * res VfsError A) : Prop :=
  (out = (s, Err NoSpace) /\ over s n e) \/ (out = (replaced now s a n e, Ok v) /\ ~ over s n e).

Lemma write_bytes_spec s a n mk d o buf : at_ s a n -> mk = TFile \/ mk = TSymlink -> t_entry n = mk d ->
  Z.of_nat o + zlen buf <= u64_max ->
  replaces s a n (mk (overlay d o buf)) (zlen buf) (write_bytes now a n mk d (Z.of_nat o) buf s).
Proof.
  intros Ha Hmk Hd Hmax. destruct (at_counter s a n Ha) as (Hc & H1 & H2).
  assert (node_bytes n = zlen d) as Hn. { unfold node_bytes. rewrite Hd. by destruct Hmk as [-> | ->]. }
  unfold replaces, over, replaced. cbv zeta. rewrite (node_bytes_data n mk _ Hmk), Hn.
  set (e := (o + length buf)%nat). assert (zlen (overlay d o buf) = Z.max (zlen d) (Z.of_nat e)) as Hl.
  { unfold zlen. rewrite overlay_length. lia. }
  unfold write_bytes, cmd_bind, cmd_res, u64_add. replace (Z.of_nat o + zlen buf) with (Z.of_nat e) in * by (unfold zlen; lia).
  rewrite u64_op_Ok by lia.
  destruct (reserve_when s (t_used n) (zlen d) (Z.of_nat e) Hc ltac:(lia)) as [[-> Hb]|[-> Hb]]; [left; split; [done|lia]|right].
  rewrite (copy_overlay d o buf : copy_at (if zlen d <? Z.of_nat e then resize d (Z.of_nat e) else d) (Z.of_nat o) (Z.of_nat e) buf = _).
  replace (Z.max 0 (Z.of_nat e - zlen d)) with (Z.max 0 (zlen (overlay d o buf) - zlen d)) in * by lia.
  rewrite (store_data_eq now s a n (mk (overlay d o buf)) (zlen d) _ Ha) by (lia || done). split; [done|lia].
Qed.

(** A write whose end does not fit 64 bits panics, or in a build without overflow
    checks can also be refused for want of space. *)
Lemma write_bytes_overflow s a n mk d o buf : 0 <= o <= u64_max -> zlen buf <= u64_max -> u64_max < o + zlen buf ->
  (write_bytes now a n mk d o buf s).2 = Panic \/ write_bytes now a n mk d o buf s = (s, Err NoSpace).
Proof.
  intros Ho Hl Hm. enough (match write_bytes now a n mk d o buf s with (s', Err NoSpace) => s' = s | (_, r) => r = Panic end) as Hw.
  { destruct (write_bytes now a n mk d o buf s) as [s' [v|[]|]]; subst; auto. }
  unfold write_bytes, cmd_bind at 1, cmd_res at 1, u64_add, u64_op. unfold u64_max in *.
  rewrite (proj2 (Z.leb_gt (o + zlen buf) _)), andb_false_r by lia. destruct debug_profile; [done|].
  set (e := (o + zlen buf) mod _). assert (e < o) as He by (unfold e; Z.div_mod_to_equations; lia).
  assert (forall s1, (((do! d2 := cmd_res (copy_at (if zlen d <? e then resize d e else d) o e buf) in
    do! _ := store_data now a n (mk d2) (zlen d) (zlen d2) in cmd_ret (zlen buf)) : cmd Tmpfs Z) s1).2 = Panic) as Hp.
  { intros s1. unfold cmd_bind at 1, cmd_res, copy_at. by rewrite (proj2 (Z.ltb_lt _ _) He). }
  assert (when (zlen d <? e) (reserve_budget (t_used n) (e - zlen d)) s = (s, Err NoSpace) \/
    exists s1, when (zlen d <? e) (reserve_budget (t_used n) (e - zlen d)) s = (s1, Ok tt)) as [E|[s1 E]].
  { unfold when, cmd_ret, reserve_budget. repeat case_match; eauto. }
  - unfold cmd_bind at 1. by rewrite E.
  - unfold cmd_bind at 1. rewrite E. specialize (Hp s1). destruct (cmd_bind _ _ s1) as [s2 r]. cbn [snd] in Hp. by subst.
Qed.

Lemma t_write_at_overflow s a n o buf : t_nodes s !! a = Some n -> 0 <= o <= u64_max -> zlen buf <= u64_max -> u64_max < o + zlen buf ->
  (t_write_at now a o buf s).2 = Panic \/ exists e, t_write_at now a o buf s = (s, Err e).
Proof.
  intros Ha Ho Hl Hm. assert (t_write_at now a o buf s = match t_entry n with
    | TFile d => write_bytes now a n TFile d o buf s | TSymlink t => write_bytes now a n TSymlink t o buf s | _ => (s, Err IsADirectory) end) as ->.
  { unfold t_write_at, cmd_bind at 1, t_node. rewrite Ha. destruct (t_entry n); [done|done| |done].
    by rewrite (proj2 (Z.eqb_neq o 0)) by lia. }
  destruct (t_entry n) as [d| |t|]; [|eauto| |eauto].
  - destruct (write_bytes_overflow s a n TFile d o buf Ho Hl Hm); eauto.
  - destruct (write_bytes_overflow s a n TSymlink t o buf Ho Hl Hm); eauto.
Qed.

Lemma t_write_at_file s a n d o buf : at_ s a n -> t_entry n = TFile d -> Z.of_nat o + zlen buf <= u64_max ->
  replaces s a n (TFile (overlay d o buf)) (zlen buf) (t_write_at now a (Z.of_nat o) buf s).
Proof.
  intros Ha Hd Hm. unfold t_write_at, cmd_bind at 1, t_node. rewrite (proj2 Ha), Hd. apply write_bytes_spec; auto.
Qed.

Lemma t_write_at_link s a n t o buf : at_ s a n -> t_entry n = TSymlink t -> Z.of_nat o + zlen buf <= u64_max ->
  replaces s a n (TSymlink (if (o =? 0)%nat then buf else overlay t o buf)) (zlen buf) (t_write_at now a (Z.of_nat o) buf s).
Proof.
  intros Ha Hd Hm. unfold t_write_at, cmd_bind at 1, t_node. rewrite (proj2 Ha), Hd. destruct (Nat.eqb_spec o 0) as [->|Ho].
  2: { rewrite (proj2 (Z.eqb_neq _ _)) by lia. apply write_bytes_spec; auto. }
  change (Z.of_nat 0 =? 0) with true. cbv iota. destruct (at_counter s a n Ha) as (Hc & H1 & H2).
  assert (node_bytes n = zlen t) as Hn by (unfold node_bytes; by rewrite Hd).
  unfold replaces, over, replaced. cbv zeta. rewrite (node_bytes_data n TSymlink _) by auto. rewrite Hn.
  assert (0 <= zlen buf) by (unfold zlen; lia). unfold cmd_bind.
  destruct (reserve_when s (t_used n) (zlen t) (zlen buf) Hc ltac:(lia)) as [[-> Hb]|[-> Hb]]; [left; split; [done|lia]|right].
  rewrite (store_data_eq now s a n (TSymlink buf) (zlen t) _ Ha) by (lia || done). split; [done|lia].
Qed.

Lemma resize_length d n : 0 <= n -> zlen (resize d n) = n.
Proof. intros Hn. unfold resize, zlen. rewrite length_app, length_take, length_replicate. lia. Qed.

Lemma resize_shrink d n : n <= zlen d -> resize d n = take (Z.to_nat n) d.
Proof. unfold resize, zlen. intros Hn. replace (Z.to_nat n - length d)%nat with 0%nat by lia. apply app_nil_r. Qed.

Lemma t_truncate_spec s a n d len : at_ s a n -> t_entry n = TFile d \/ t_entry n = TSymlink d -> 0 <= len ->
  let e := match t_entry n with TFile _ => TFile (resize d len) | _ => TSymlink (resize d len) end in
  replaces s a n e tt (t_truncate now a len s).
Proof.
  intros Ha Hd Hlen e. destruct (at_counter s a n Ha) as (Hc & H1 & H2). pose proof (resize_length d len Hlen) as Hl.
  assert (node_bytes n = zlen d) as Hn by (unfold node_bytes; by destruct Hd as [-> | ->]).
  assert (node_bytes (set_entry n e) = len) as Hn' by (unfold e; by destruct Hd as [-> | ->]).
  assert ((if zlen d <? len then resize d len else take (Z.to_nat len) d) = resize d len) as Ht.
  { destruct (Z.ltb_spec (zlen d) len); [done|]. by rewrite resize_shrink. }
  unfold replaces, over, replaced. cbv zeta. rewrite Hn', Hn. unfold t_truncate, cmd_bind, t_node. rewrite (proj2 Ha). subst e.
  destruct Hd as [Hd|Hd]; rewrite Hd in *;
    (destruct (reserve_when s (t_used n) (zlen d) len Hc ltac:(lia)) as [[-> Hb]|[-> Hb]]; [left; split; [done|lia]|right]).
  - rewrite (store_data_eq now s a n _ (zlen d) _ Ha) by (lia || done). split; [done|lia].
  - cbv zeta. rewrite Ht, Hl. rewrite (store_data_eq now s a n _ (zlen d) _ Ha) by (lia || done). split; [done|lia].
Qed.
End Data.
