(* ===== verification/TmpfsSpec.v ===== *)
(** * Guarantees of the file system in memory

    In every state that the operations can reach the budget is kept exactly, no
    reference dangles and no inode is lost; reads give what was written. *)

From S2P Require Import Prelude Errors Fat32 FatDirent FatFile FatNode Tmpfs TmpfsFacts.
Import Errors.Vfs.
Local Open Scope Z_scope.

Definition vals (c : gmap (list Z) nat) : list nat := (map_to_list c).*2.

Lemma kids_dir n c : kids (set_entry n (TDir c)) = vals c.
Proof. done. Qed.

Lemma vals_insert c name b : c !! name = None -> vals (<[name:=b]> c) ≡ₚ b :: vals c.
Proof. intros Hn. unfold vals. by rewrite (map_to_list_insert c name b Hn). Qed.

Lemma vals_delete c name b : c !! name = Some b -> vals c ≡ₚ b :: vals (delete name c).
Proof. intros Hn. rewrite <- (insert_delete_id c name b Hn) at 1. apply vals_insert, lookup_delete_eq. Qed.

Lemma upd_0 wl s a n n' : tinv wl s -> t_nodes s !! a = Some n -> t_used n' = t_used n -> upd s a n' 0 = set_nodes s (<[a:=n']> (t_nodes s)).
Proof.
  intros Hi Ha Hu. unfold upd, set_nodes. rewrite Hu. destruct (counter_exact wl s a n Hi Ha) as (E & _). rewrite Z.add_0_r, (insert_id (t_counters s) _ _ E). done.
Qed.

(** Other children for a directory, with the references that go on [wl']. *)
Lemma children_inv wl wl' s a n c c' : tinv wl s -> t_nodes s !! a = Some n -> t_entry n = TDir c ->
  (forall x, x ∈ wl' ++ vals c' -> is_Some (t_nodes s !! x)) -> (forall x, x ∈ wl ++ vals c -> x ∈ wl' ++ vals c') ->
  tinv wl' (set_nodes s (<[a := set_entry n (TDir c')]> (t_nodes s))).
Proof.
  intros Hi Ha Hc Hcl Hl. destruct (counter_exact wl s a n Hi Ha) as (_ & _ & Hb). destruct (ti_node wl s Hi a n Ha) as [Ht Hs].
  rewrite <- (upd_0 wl s a n) by done. apply (tinv_upd wl wl' s a n); [done|done|done| | |lia|done|].
  - unfold node_ok in *. cbn. rewrite Hc in Ht. split; [done|]. unfold node_bytes in Hs. by rewrite Hc in Hs.
  - unfold node_bytes; cbn. by rewrite Hc.
  - unfold kids at 1. rewrite Hc. exact Hl.
Qed.

Lemma child_live wl s a n c name b : tinv wl s -> t_nodes s !! a = Some n -> t_entry n = TDir c -> c !! name = Some b -> is_Some (t_nodes s !! b).
Proof.
  intros Hi Ha Hc Hb. apply (ti_closed wl s Hi). rewrite elem_of_app, all_refs_eq, elem_of_app, (node_refs_delete _ a n Ha), elem_of_app.
  right; right; left. unfold kids. rewrite Hc. fold (vals c). rewrite (vals_delete c name b Hb). by left.
Qed.

Lemma vals_live wl s a n c x : tinv wl s -> t_nodes s !! a = Some n -> t_entry n = TDir c -> x ∈ vals c -> is_Some (t_nodes s !! x).
Proof.
  intros Hi Ha Hc Hx. unfold vals in Hx. apply list_elem_of_fmap in Hx as ([name b] & -> & Hin). apply elem_of_map_to_list in Hin. by eapply child_live.
Qed.

(** A new inode [b] of [δ] bytes in the directory at [a]. *)
Lemma add_child_inv now s a n c name ty e mode size : at_ s a n -> t_entry n = TDir c -> c !! name = None ->
  node_ok (mkTmp (t_next_ino s) ty e now mode size (t_used n)) -> kids (mkTmp (t_next_ino s) ty e now mode size (t_used n)) = [] ->
  counter s (t_used n) + size <= TMPFS_BUDGET ->
  tinv [] (add_child now a n c name ty e mode size (set_counter s (t_used n) (counter s (t_used n) + size))).1.
Proof.
  intros [Hi Ha] Hc Hname Hok Hk Hb. set (u := t_used n) in *. set (b := t_next_addr s). set (child := mkTmp (t_next_ino s) ty e now mode size u) in *.
  destruct (ti_addr _ s Hi b ltac:(done)) as [Hb0 Hb1]. assert (a <> b) as Hab by congruence.
  destruct (counter_exact [] s a n Hi Ha) as (Eu & _ & _). fold u in Eu, Hb |- *.
  assert (tinv [b] (mkTmpfs (<[b := child]> (t_nodes s)) (<[u := counter s u + size]> (t_counters s)) ((t_next_ino s + 1) mod 2 ^ 64) (S b) (b :: t_held s))) as Hi1.
  { assert (node_bytes child = size) as Hsz by (destruct Hok as [_ E]; exact (eq_sym E)).
    assert (forall h x, x ∈ b :: h ++ node_refs (<[b := child]> (t_nodes s)) <-> x = b \/ x ∈ h ++ node_refs (t_nodes s)) as Hr.
    { intros h x. rewrite elem_of_cons, !elem_of_app, (node_refs_insert _ b child Hb0), elem_of_app, Hk, elem_of_nil. tauto. }
    constructor; cbn [t_nodes t_counters t_next_addr].
    - intros x Hx. rewrite all_refs_eq in Hx. cbn [t_held t_nodes app] in Hx. rewrite elem_of_cons, Hr in Hx. rewrite lookup_insert_is_Some'.
      destruct Hx as [->|[->|Hx]]; [by left|by left|]. right. by apply (ti_closed _ s Hi).
    - intros x Hx. rewrite all_refs_eq. cbn [t_held t_nodes app]. rewrite elem_of_cons, Hr. rewrite lookup_insert_is_Some' in Hx.
      destruct Hx as [->|Hx]; [by left|]. right; right. by apply (ti_live _ s Hi) in Hx.
    - intros x m Hx. rewrite lookup_insert_is_Some'. apply lookup_insert_Some in Hx as [[_ <-]|[_ Hx]]; [by left|]. right. by apply (ti_used _ s Hi x).
    - intros v k Hx. rewrite usage_insert by done. unfold weight. rewrite Hsz. change (t_used child) with u. apply lookup_insert_Some in Hx as [[<- <-]|[Hne Hx]].
      + rewrite Nat.eqb_refl. destruct (ti_count _ s Hi _ _ Eu). lia.
      + rewrite (proj2 (Nat.eqb_neq _ _) Hne). destruct (ti_count _ s Hi _ _ Hx). lia.
    - intros x m Hx. apply lookup_insert_Some in Hx as [[_ <-]|[_ Hx]]; [done|]. by apply (ti_node _ s Hi x).
    - intros x Hx. destruct (ti_addr _ s Hi x) as [H1 H2]; [lia|]. rewrite !lookup_insert_None. split_and!; [done|lia|done|congruence]. }
  assert (forall x, x ∈ vals (<[name:=b]> c) <-> x = b \/ x ∈ vals c) as Hv.
  { intros x. by rewrite (vals_insert c name b Hname), elem_of_cons. }
  refine (children_inv [b] [] _ a n c (<[name := b]> c) Hi1 _ Hc _ _); [cbn [t_nodes]; by rewrite lookup_insert_ne| |].
  - cbn [app t_nodes]. intros x [->|Hx]%Hv; rewrite lookup_insert_is_Some'; [by left|right]. by apply (vals_live [] s a n c).
  - cbn [app]. intros x. rewrite elem_of_cons, Hv. done.
Qed.

(** ** Every operation *)

Inductive t_op :=
  | OMount
  | ODrop (a : nat)
  | ORead (a : nat) (offset len : Z)
  | OWrite (a : nat) (offset : Z) (buf : list Z)
  | OTruncate (a : nat) (len : Z)
  | OLookup (a : nat) (name : list Z)
  | OCreate (a : nat) (name : list Z)
  | OMkdir (a : nat) (name : list Z)
  | OMkfifo (a : nat) (name : list Z) (mode : Z)
  | OMknod (a : nat) (name : list Z) (mode : Z)
  | OSymlink (a : nat) (name target : list Z)
  | OUnlink (a : nat) (name : list Z)
  | ORmdir (a : nat) (name : list Z)
  | OReaddir (a : nat)
  | OGetattr (a : nat)
  | OReadlink (a : nat)
  | OChmod (a : nat) (mode : Z)
  | OChown (a : nat)
  | OUtimens (a : nat) (mtime : Z)
  | OLink (a : nat) (old new : list Z)
  | ORename (a : nat) (old new : list Z)
  | ORenameAcross (a b : nat) (old new : list Z).

Definition quiet {A} (m : cmd Tmpfs A) : cmd Tmpfs unit := do! _ := m in cmd_ret tt.

Section Run.
Context `{Profile}.

Definition t_act (now : Z) (o : t_op) : cmd Tmpfs unit :=
  match o with
  | OMount => quiet tmpfs_mount
  | ODrop a => drop_handle a
  | ORead a offset len => quiet (t_read_at a offset len)
  | OWrite a offset buf => quiet (t_write_at now a offset buf)
  | OTruncate a len => t_truncate now a len
  | OLookup a name => quiet (t_lookup a name)
  | OCreate a name => quiet (t_create now a name)
  | OMkdir a name => quiet (t_mkdir now a name)
  | OMkfifo a name mode => quiet (t_mkfifo now a name mode)
  | OMknod a name mode => quiet (t_mknod now a name mode)
  | OSymlink a name target => quiet (t_symlink now a name target)
  | OUnlink a name => t_unlink a name
  | ORmdir a name => t_rmdir a name
  | OReaddir a => quiet (t_readdir a)
  | OGetattr a => quiet (t_getattr a)
  | OReadlink a => quiet (t_readlink a)
  | OChmod a mode => t_chmod now a mode
  | OChown a => t_chown now a
  | OUtimens a mtime => t_utimens a mtime
  | OLink a old new => t_link a old new
  | ORename a old new => t_rename a old new
  | ORenameAcross a b old new => t_rename_across a (Some b) old new
  end.

(** The inodes an operation is called on. *)
Definition t_uses (o : t_op) : list nat :=
  match o with
  | OMount => []
  | ODrop a | ORead a _ _ | OWrite a _ _ | OTruncate a _ | OLookup a _ | OCreate a _ | OMkdir a _ | OMkfifo a _ _ | OMknod a _ _
  | OSymlink a _ _ | OUnlink a _ | ORmdir a _ | OReaddir a | OGetattr a | OReadlink a | OChmod a _ | OChown a | OUtimens a _
  | OLink a _ _ | ORename a _ _ => [a]
  | ORenameAcross a b _ _ => [a; b]
  end.

(** The caller holds what it calls; offsets and lengths are 64 bits wide. *)
Definition t_valid (s : Tmpfs) (o : t_op) : Prop :=
  Forall (fun a => a ∈ t_held s) (t_uses o) /\
  match o with
  | OWrite _ offset buf => 0 <= offset <= u64_max /\ zlen buf <= u64_max
  | OTruncate _ len => 0 <= len
  | _ => True
  end.

(** The calls that may not return: a write that ends past 2^64 and the removal of a
    directory from itself. *)
Definition t_stops (s : Tmpfs) (o : t_op) : Prop :=
  match o with
  | OWrite _ offset buf => u64_max < offset + zlen buf
  | ORmdir a name => exists n c, t_nodes s !! a = Some n /\ t_entry n = TDir c /\ c !! name = Some a
  | _ => False
  end.

Definition safe {A} (m : cmd Tmpfs A) (s : Tmpfs) : Prop := tinv [] (m s).1 /\ (m s).2 <> Panic.

Lemma safe_quiet {A} (m : cmd Tmpfs A) s : safe m s -> safe (quiet m) s.
Proof. unfold safe, quiet, cmd_bind. by destruct (m s) as [s' [x|e|]]; intros [? ?]; split. Qed.

Lemma safe_step {A B} (m : cmd Tmpfs A) (k : A -> cmd Tmpfs B) s s1 x : m s = (s1, Ok x) -> safe (k x) s1 -> safe (cmd_bind m k) s.
Proof. unfold safe, cmd_bind. by intros ->. Qed.

Lemma safe_stop {A B} (m : cmd Tmpfs A) (k : A -> cmd Tmpfs B) s e : m s = (s, Err e) -> tinv [] s -> safe (cmd_bind m k) s.
Proof. unfold safe, cmd_bind. by intros ->. Qed.

Lemma safe_node {B} (k : TmpfsInode -> cmd Tmpfs B) s a n : at_ s a n -> safe (k n) s -> safe (cmd_bind (t_node a) k) s.
Proof. intros [_ Ha]. apply safe_step. unfold t_node. by rewrite Ha. Qed.

Lemma safe_err {A} s e : tinv [] s -> safe (t_err (A := A) e) s.
Proof. by split. Qed.

Lemma held_at s a : tinv [] s -> a ∈ t_held s -> exists n, at_ s a n.
Proof.
  intros Hi Ha. destruct (ti_closed _ s Hi a) as [n Hn]; [|by exists n]. cbn [app]. rewrite all_refs_eq, elem_of_app. by left.
Qed.

Lemma safe_replaces {A} now s a n e (v : A) m : at_ s a n -> same_kind (t_entry n) e -> replaces now s a n e v (m s) -> safe m s.
Proof.
  intros Ha Hk [[E _]|[E Hov]]; unfold safe; rewrite E; cbn; (split; [|done]); [apply Ha|].
  apply replaced_ok; [done|done|]. unfold over in Hov. lia.
Qed.

Lemma put_attr s a n n' : at_ s a n -> t_entry n' = t_entry n -> t_type n' = t_type n -> t_size n' = t_size n -> t_used n' = t_used n ->
  safe (put_node a n') s.
Proof.
  intros [Hi Ha] He Ht Hs Hu. split; [|done]. unfold put_node. cbn [fst]. rewrite <- (upd_0 [] s a n) by done.
  destruct (counter_exact [] s a n Hi Ha) as (_ & _ & Hb). assert (kids n' = kids n) as Hk by (unfold kids; by rewrite He).
  apply (tinv_upd [] [] s a n); [done|done|done| | |lia| |].
  - pose proof (ti_node _ s Hi a n Ha) as Hok. unfold node_ok, node_bytes in *. by rewrite He, Ht, Hs.
  - unfold node_bytes. rewrite He. lia.
  - rewrite Hk. intros x Hx. apply (ti_closed _ s Hi). rewrite all_refs_eq, !elem_of_app, (node_refs_delete _ a n Ha), elem_of_app.
    cbn [app] in Hx. tauto.
  - by rewrite Hk.
Qed.

Lemma dir_of_cases s a n : at_ s a n ->
  (exists c, t_entry n = TDir c /\ dir_of a s = (s, Ok (n, c))) \/ dir_of a s = (s, Err NotADirectory).
Proof.
  intros [_ Ha]. unfold dir_of, cmd_bind, t_node. rewrite Ha. destruct (t_entry n); auto. left. by eexists.
Qed.

Lemma safe_dir {B} (k : TmpfsInode * gmap (list Z) nat -> cmd Tmpfs B) s a n : at_ s a n ->
  (forall c, t_entry n = TDir c -> safe (k (n, c)) s) -> safe (cmd_bind (dir_of a) k) s.
Proof.
  intros Ha Hk. destruct (dir_of_cases s a n Ha) as [(c & Hc & E)|E]; [by apply (safe_step _ _ _ _ _ E), Hk|].
  by apply (safe_stop _ _ _ _ E), Ha.
Qed.

Lemma make_safe now s a n name ty e mode : at_ s a n ->
  node_ok (mkTmp (t_next_ino s) ty e now mode 0 (t_used n)) -> kids (mkTmp (t_next_ino s) ty e now mode 0 (t_used n)) = [] ->
  safe (make now a name ty e mode) s.
Proof.
  intros Ha Hok Hk. apply (safe_dir _ s a n Ha). intros c Hc. cbn [fst snd].
  unfold exists_in. case_bool_decide as Hx; [by apply safe_err, Ha|]. split; [|done].
  destruct (at_counter s a n Ha) as (Hcnt & _ & Hb). rewrite <- (set_counter_id s (t_used n)) at 1 by done.
  apply add_child_inv; [done|done| |done|done|lia]. by apply eq_None_not_Some.
Qed.

Lemma symlink_safe now s a n name target : at_ s a n -> safe (t_symlink now a name target) s.
Proof.
  intros Ha. apply (safe_dir _ s a n Ha). intros c Hc. cbn [fst snd].
  unfold exists_in. case_bool_decide as Hx; [by apply safe_err, Ha|]. cbv zeta.
  destruct (at_counter s a n Ha) as (Hcnt & H0 & Hb). assert (0 <= zlen (as_bytes target)) as Hz by (unfold zlen; lia).
  destruct (reserve_spec_tmp s (t_used n) (zlen (as_bytes target)) Hcnt ltac:(lia) Hz) as [[E _]|[E Hs]].
  { by apply (safe_stop _ _ _ _ E), Ha. }
  apply (safe_step _ _ _ _ _ E). split; [|done]. apply add_child_inv; [done|done|by apply eq_None_not_Some|done|done|lia].
Qed.

(** Dropping references at the end of an operation. *)
Lemma drop_safe wl s : tinv wl s -> safe (drop_all wl) s.
Proof. intros Hi. destruct (drop_all_ok wl s Hi) as (s' & E & Hi' & _). unfold safe. by rewrite E. Qed.

Lemma remove_safe s a n c name b : at_ s a n -> t_entry n = TDir c -> c !! name = Some b ->
  safe (do! _ := set_children a n (delete name c) in drop_all [b]) s.
Proof.
  intros [Hi Ha] Hc Hb. unfold set_children, put_node, cmd_bind, safe. apply drop_safe. apply (children_inv [] [b] s a n c); [done..| |].
  - cbn [app]. intros x [->|Hx]%elem_of_cons; [by eapply child_live|]. apply (vals_live [] s a n c); [done..|].
    rewrite (vals_delete c name b Hb), elem_of_cons. by right.
  - cbn [app]. intros x. by rewrite (vals_delete c name b Hb).
Qed.

Lemma lookup_safe s a n name : at_ s a n -> safe (t_lookup a name) s.
Proof.
  intros Ha. apply (safe_dir _ s a n Ha). intros c Hc. cbn [snd]. destruct (c !! name) as [b|] eqn:Hb; [|by apply safe_err, Ha].
  split; [|done]. apply give_ok; [apply Ha|]. by eapply child_live; [apply Ha|apply Ha|..].
Qed.

Lemma unlink_safe s a n name : at_ s a n -> safe (t_unlink a name) s.
Proof.
  intros Ha. apply (safe_dir _ s a n Ha). intros c Hc. cbn [fst snd]. destruct (c !! name) as [b|] eqn:Hb; [|by apply safe_err, Ha].
  by apply (remove_safe s a n c name b).
Qed.

Lemma rmdir_safe s a n name : at_ s a n -> ~ t_stops s (ORmdir a name) -> safe (t_rmdir a name) s.
Proof.
  intros Ha Hs. apply (safe_dir _ s a n Ha). intros c Hc. cbn [fst snd]. destruct (c !! name) as [b|] eqn:Hb; [|by apply safe_err, Ha].
  rewrite (proj2 (Nat.eqb_neq _ _)). 2: { intros ->. apply Hs. exists n, c. by split_and!; [apply Ha|..]. }
  destruct (child_live [] s a n c name b (proj1 Ha) (proj2 Ha) Hc Hb) as [m Hm].
  apply (safe_node _ s b m); [by split; [apply Ha|]|]. destruct (match t_entry m with TDir _ => _ | _ => _ end); [by apply safe_err, Ha|].
  by apply (remove_safe s a n c name b).
Qed.

Lemma link_safe s a n old new : at_ s a n -> safe (t_link a old new) s.
Proof.
  intros Ha. apply (safe_dir _ s a n Ha). intros c Hc. cbn [fst snd]. destruct (c !! old) as [b|] eqn:Hb; [|by apply safe_err, Ha].
  unfold exists_in. case_bool_decide as Hx; [by apply safe_err, Ha|].
  split; [|done]. assert (forall x, x ∈ vals (<[new:=b]> c) <-> x = b \/ x ∈ vals c) as Hv.
  { intros x. by rewrite vals_insert, elem_of_cons by (by apply eq_None_not_Some). }
  apply (children_inv [] [] s a n c); [apply Ha|apply Ha|done| |]; cbn [app].
  - intros x [->|Hx']%Hv; [by eapply child_live; [apply Ha|apply Ha|..]|]. by eapply vals_live; [apply Ha|apply Ha|..].
  - intros x Hx'. apply Hv. by right.
Qed.

(** [insert] with the value it replaces. *)
Lemma vals_replace c name b x : x ∈ option_list (c !! name) ++ vals (<[name:=b]> c) <-> x = b \/ x ∈ vals c.
Proof.
  destruct (c !! name) as [d|] eqn:Hd.
  - change (option_list (Some d)) with [d]. cbn [app]. rewrite <- insert_delete_eq, vals_insert by apply lookup_delete_eq. rewrite (vals_delete c name d Hd), !elem_of_cons. tauto.
  - change (option_list None) with (@nil nat). cbn [app]. by rewrite vals_insert, elem_of_cons.
Qed.

Lemma rename_safe s a n old new : at_ s a n -> safe (t_rename a old new) s.
Proof.
  intros Ha. apply (safe_dir _ s a n Ha). intros c Hc. cbn [fst snd]. destruct (c !! old) as [b|] eqn:Hb; [|by apply safe_err, Ha].
  cbv zeta. unfold set_children, put_node, cmd_bind.
  assert (forall x, x ∈ vals c <-> x = b \/ x ∈ vals (delete old c)) as Hv by (intros x; by rewrite (vals_delete c old b Hb), elem_of_cons).
  apply drop_safe, (children_inv [] _ s a n c); [apply Ha|apply Ha|done| |]; intros x.
  - rewrite vals_replace, <- Hv. apply (vals_live [] s a n c); [apply Ha|apply Ha|done].
  - cbn [app]. by rewrite Hv, vals_replace.
Qed.

Lemma move_safe s a n c b m c' old new child : at_ s a n -> t_entry n = TDir c -> at_ s b m -> t_entry m = TDir c' -> a <> b -> c !! old = Some child ->
  safe (do! _ := set_children a n (delete old c) in do! _ := set_children b m (<[new := child]> c') in drop_all (option_list (c' !! new))) s.
Proof.
  intros [Hi Ha] Hc [_ Hb] Hc' Hab Hold. unfold set_children, put_node, cmd_bind, safe.
  assert (tinv [child] (set_nodes s (<[a := set_entry n (TDir (delete old c))]> (t_nodes s)))) as Hi1.
  { apply (children_inv [] [child] s a n c); [done..| |]; cbn [app]; intros x; rewrite ?(vals_delete c old child Hold); [|done].
    intros Hx. apply (vals_live [] s a n c); [done..|]. by rewrite (vals_delete c old child Hold). }
  apply drop_safe. refine (children_inv [child] _ _ b m c' (<[new:=child]> c') Hi1 _ Hc' _ _).
  - cbn [set_nodes t_nodes]. by rewrite lookup_insert_ne.
  - intros x. rewrite vals_replace. intros Hx. apply (ti_closed _ _ Hi1). rewrite all_refs_eq. cbn [app].
    rewrite elem_of_cons, elem_of_app. destruct Hx as [->|Hx]; [by left|]. right; right.
    cbn [set_nodes t_nodes]. rewrite (node_refs_delete _ b m) by (by rewrite lookup_insert_ne). rewrite elem_of_app. left.
    unfold kids. by rewrite Hc'.
  - intros x. rewrite vals_replace. cbn [app]. by rewrite elem_of_cons.
Qed.

Lemma rename_across_safe s a n b m old new : at_ s a n -> at_ s b m -> safe (t_rename_across a (Some b) old new) s.
Proof.
  intros Ha Hb. apply (safe_node _ s a n Ha), (safe_node _ s b m Hb).
  destruct (negb _); [by apply safe_err, Ha|]. destruct (_ || _); [by apply safe_err, Ha|]. destruct (_ || _); [by apply safe_err, Ha|].
  destruct (Z.eqb_spec (t_ino n) (t_ino m)) as [_|Hne]; [by apply (rename_safe s a n)|].
  apply (safe_dir _ s a n Ha). intros c Hc. apply (safe_dir _ s b m Hb). intros c' Hc'. cbn [fst snd].
  destruct (c !! old) as [child|] eqn:Hch; [|by apply safe_err, Ha].
  apply (move_safe s a n c b m c' old new child Ha Hc Hb Hc'); [|done]. intros ->. apply Hne. destruct Ha as [_ Ha], Hb as [_ Hb]. congruence.
Qed.

Lemma mount_safe s : tinv [] s -> safe tmpfs_mount s.
Proof.
  intros Hi. split; [|done]. unfold tmpfs_mount. cbn [fst]. set (a := t_next_addr s).
  destruct (ti_addr _ s Hi a ltac:(done)) as [Ha0 Ha1].
  assert (forall x, x ∈ node_refs (<[a:=new_root a]> (t_nodes s)) <-> x ∈ node_refs (t_nodes s)) as Hr.
  { intros x. by rewrite (node_refs_insert _ a _ Ha0). }
  constructor; cbn [t_nodes t_counters t_next_addr].
  - intros x. rewrite all_refs_eq. cbn [t_held t_nodes app]. rewrite elem_of_cons, elem_of_app, Hr, lookup_insert_is_Some'.
    intros [->|Hx]; [by left|right]. apply (ti_closed _ s Hi). cbn [app]. by rewrite all_refs_eq, elem_of_app.
  - intros x. rewrite all_refs_eq. cbn [t_held t_nodes app]. rewrite elem_of_cons, elem_of_app, Hr, lookup_insert_is_Some'.
    intros [->|Hx]; [by left|right]. apply (ti_live _ s Hi) in Hx. cbn [app] in Hx. by rewrite all_refs_eq, elem_of_app in Hx.
  - intros x m Hx. rewrite lookup_insert_is_Some'. apply lookup_insert_Some in Hx as [[_ <-]|[_ Hx]]; [by left|right]. by apply (ti_used _ s Hi x).
  - intros u c Hx. rewrite usage_insert by done. unfold weight. change (node_bytes (new_root a)) with 0. change (t_used (new_root a)) with a.
    apply lookup_insert_Some in Hx as [[<- <-]|[Hne Hx]].
    + rewrite Nat.eqb_refl. split; [|unfold TMPFS_BUDGET; lia]. enough (usage (t_nodes s) a = 0) by lia. unfold usage, zsum.
      assert (forall p, p ∈ map_to_list (t_nodes s) -> weight a p.2 = 0) as Hw.
      { intros [x m] Hin. apply elem_of_map_to_list in Hin. unfold weight. cbn [snd]. destruct (Nat.eqb_spec (t_used m) a) as [E|]; [|done].
        destruct (ti_used _ s Hi x m Hin) as [k Hk]. rewrite E in Hk. congruence. }
      induction (map_to_list _) as [|p l IH]; cbn; [done|]. rewrite IH by (intros q Hq; apply Hw; by right). rewrite Hw by (by left). done.
    + rewrite (proj2 (Nat.eqb_neq _ _) Hne). by apply (ti_count _ s Hi).
  - intros x m Hx. apply lookup_insert_Some in Hx as [[_ <-]|[_ Hx]]; [done|]. by apply (ti_node _ s Hi x).
  - intros x Hx. destruct (ti_addr _ s Hi x) as [? ?]; [lia|]. rewrite !lookup_insert_None. split_and!; [done|lia|done|lia].
Qed.

(** The inodes behind the references that are held. *)
Ltac held_nodes :=
  repeat match goal with
  | Hi : tinv [] ?s, H : ?x ∈ t_held ?s |- _ =>
      let n := fresh "n" in let Ha := fresh "Ha" in destruct (held_at s x Hi H) as [n Ha]; clear H
  end.

Lemma step_safe now s o : tinv [] s -> t_valid s o -> ~ t_stops s o -> safe (t_act now o) s.
Proof.
  intros Hi [Hu Hv] Hns. destruct o; cbn [t_act t_uses] in *; try apply safe_quiet; try by apply mount_safe.
  all: repeat match goal with H : Forall _ (_ :: _) |- _ => apply Forall_cons in H as [? ?] end.
  1: { destruct (drop_handle_ok s a Hi ltac:(done)) as (s' & E & Hs & _). unfold safe. by rewrite E. }
  all: held_nodes.
  - apply (safe_node _ s a n Ha). destruct (t_entry n); by split.
  - destruct Hv as [[H0 _] _]. assert (offset + zlen buf <= u64_max) as Hm by (apply Z.nlt_ge; exact Hns).
    rewrite <- (Z2Nat.id offset) in * by done. pose proof Ha as [_ E]. destruct (t_entry n) eqn:En.
    + eapply (safe_replaces now s a n); [done| |by apply t_write_at_file]. by rewrite En.
    + apply (safe_node _ s a n Ha). rewrite En. by apply safe_err.
    + eapply (safe_replaces now s a n); [done| |by apply t_write_at_link]. by rewrite En.
    + apply (safe_node _ s a n Ha). rewrite En. by apply safe_err.
  - destruct (t_entry n) eqn:En.
    + eapply (safe_replaces now s a n); [done| |by apply (t_truncate_spec now s a n data len Ha); [left|]]. by rewrite En.
    + apply (safe_node _ s a n Ha). rewrite En. by apply safe_err.
    + eapply (safe_replaces now s a n); [done| |by apply (t_truncate_spec now s a n target len Ha); [right|]]. by rewrite En.
    + apply (safe_node _ s a n Ha). rewrite En. by apply safe_err.
  - by apply (lookup_safe s a n).
  - by apply (make_safe now s a n).
  - by apply (make_safe now s a n).
  - by apply (make_safe now s a n).
  - apply (make_safe now s a n); [done|..]; unfold mknod_type; by repeat case_match.
  - by apply (symlink_safe now s a n).
  - by apply (unlink_safe s a n).
  - by apply (rmdir_safe s a n).
  - apply (safe_dir _ s a n Ha). by split.
  - apply (safe_node _ s a n Ha). by split.
  - apply (safe_node _ s a n Ha). destruct (t_entry n); by split.
  - apply (safe_node _ s a n Ha). by apply (put_attr s a n).
  - apply (safe_node _ s a n Ha). by apply (put_attr s a n).
  - apply (safe_node _ s a n Ha). by apply (put_attr s a n).
  - by apply (link_safe s a n).
  - by apply (rename_safe s a n).
  - by eapply rename_across_safe.
Qed.

#[local] Instance stops_dec s o : Decision (t_stops s o).
Proof.
  destruct o; cbn [t_stops]; try apply _. destruct (t_nodes s !! a) as [n|] eqn:E; [|right; by intros (? & ? & ? & _)].
  destruct (t_entry n) as [| c| |] eqn:En; try (right; intros (? & ? & ? & ? & _); congruence).
  destruct (decide (c !! name = Some a)); [left; by exists n, c|right; intros (? & ? & ? & ? & ?); congruence].
Defined.

(** A call that returns keeps the invariant, and only the calls of [t_stops] panic. *)
Lemma step_sound now s o : tinv [] s -> t_valid s o ->
  ((t_act now o s).2 = Panic -> t_stops s o) /\ ((t_act now o s).2 <> Panic -> tinv [] (t_act now o s).1).
Proof.
  intros Hi Hv. destruct (decide (t_stops s o)) as [Hs|Hs]; [|destruct (step_safe now s o Hi Hv Hs); tauto]. split; [done|].
  intros Hp. destruct Hv as [Hu Hv]. destruct o; try done; cbn [t_act t_uses t_stops] in *; apply Forall_cons in Hu as [Ha _];
    destruct (held_at s _ Hi Ha) as (n & _ & En).
  - destruct Hv as [Ho Hl]. destruct (t_write_at_overflow now s a n offset buf En Ho Hl Hs) as [E|[e E]];
      unfold quiet, cmd_bind in *; destruct (t_write_at now a offset buf s) as [s' r]; cbn [snd] in E; simplify_eq; done.
  - destruct Hs as (n' & c & E & Ec & Eb). destruct Hp. unfold t_rmdir, dir_of, cmd_bind, cmd_ret, t_node.
    rewrite E. cbv beta iota. rewrite Ec. cbv beta iota. cbn [snd]. by rewrite Eb, Nat.eqb_refl.
Qed.

(** The states that any clients can bring about by calls that return. *)
Inductive t_reached : Tmpfs -> Prop :=
  | reached_start : t_reached tmpfs0
  | reached_step now s o : t_reached s -> t_valid s o -> (t_act now o s).2 <> Panic -> t_reached (t_act now o s).1.

Lemma tinv_start : tinv [] tmpfs0.
Proof. constructor; try done. intros a Ha. by apply not_elem_of_nil in Ha. by intros ? [? ?]. Qed.

Lemma t_reached_inv s : t_reached s -> tinv [] s.
Proof. induction 1 as [|now s o _ IH Hv Hp]; [apply tinv_start|]. by apply (step_sound now s o IH Hv). Qed.

(** C16: Whatever clients do with the inodes they hold, after every call that returns
    the counter of every instance is the number of bytes its live inodes hold and
    within the budget, references lead to inodes and every inode is referred to.  Two
    calls only may not return: a write whose offset and length add up to more than
    2^64 - 1, and [rmdir] of a name under which a directory contains itself. *)
Theorem tmpfs_accounts now s o : t_reached s -> t_valid s o ->
  let s' := (t_act now o s).1 in
  ((t_act now o s).2 = Panic -> t_stops s o) /\
  ((t_act now o s).2 <> Panic ->
   (forall u c, t_counters s' !! u = Some c -> c = usage (t_nodes s') u /\ c <= TMPFS_BUDGET) /\
   (forall a, is_Some (t_nodes s' !! a) <-> a ∈ all_refs s') /\
   (forall a n, t_nodes s' !! a = Some n -> node_ok n)).
Proof.
  intros Hr Hv s'. destruct (step_sound now s o (t_reached_inv s Hr) Hv) as [Hp Hi]. split; [done|]. intros Hn.
  specialize (Hi Hn). fold s' in Hi.
  split_and!; [apply (ti_count _ _ Hi)| |apply (ti_node _ _ Hi)]. intros a. split; [apply (ti_live _ _ Hi)|apply (ti_closed _ _ Hi)].
Qed.

Lemma read_slice_overlay d o buf : read_slice (overlay d o buf) (Z.of_nat o) (zlen buf) = buf.
Proof.
  unfold read_slice, zlen. rewrite overlay_length. destruct (Z.leb_spec (Z.of_nat (Nat.max (length d) (o + length buf))) (Z.of_nat o)).
  - by destruct buf; [|cbn [length] in *; lia].
  - rewrite Nat2Z.id. replace (Z.to_nat _) with (length buf) by lia. unfold overlay.
    rewrite drop_app_ge; rewrite length_take_le; try (rewrite length_app, length_replicate; lia); [|done].
    rewrite Nat.sub_diag, drop_0. by rewrite take_app_length.
Qed.

(** C24: A write to a file takes effect as a whole, fails for want of space and changes
    nothing, or, only if its end does not fit 64 bits, panics.  After one that takes
    effect the file reads as the old contents with the new bytes over them, and no other
    inode has changed; one fails only if the budget does not allow the growth. *)
Theorem tmpfs_write_read now s a n d o buf : t_reached s -> t_nodes s !! a = Some n -> t_entry n = TFile d ->
  Z.of_nat o <= u64_max -> zlen buf <= u64_max ->
  match t_write_at now a (Z.of_nat o) buf s with
  | (s', Ok k) => k = zlen buf /\ Z.of_nat o + zlen buf <= u64_max /\ (t_read_at a (Z.of_nat o) (zlen buf) s').2 = Ok buf /\
      (forall o' len, (t_read_at a o' len s').2 = Ok (read_slice (overlay d o buf) o' len)) /\
      (forall b, b <> a -> t_nodes s' !! b = t_nodes s !! b)
  | (s', Err e) => e = NoSpace /\ s' = s /\ TMPFS_BUDGET < usage (t_nodes s) (t_used n) + (zlen (overlay d o buf) - zlen d)
  | (_, Panic) => u64_max < Z.of_nat o + zlen buf
  end.
Proof.
  intros Hr Ha Hd Ho64 Hl. pose proof (t_reached_inv s Hr) as Hi. assert (at_ s a n) as Hat by done.
  destruct (Z.le_gt_cases (Z.of_nat o + zlen buf) u64_max) as [Hm|Hm].
  2: { unfold t_write_at, cmd_bind at 1, t_node. rewrite Ha, Hd.
       destruct (write_bytes_overflow now s a n TFile d (Z.of_nat o) buf ltac:(lia) Hl Hm) as [E| ->].
       { destruct (write_bytes now a n TFile d (Z.of_nat o) buf s) as [s' r]. cbn in E. by subst. }
       split_and!; [done|done|]. destruct (counter_exact [] s a n Hi Ha) as (E & Hb & _). destruct (ti_count _ s Hi _ _ E) as [<- _].
       unfold node_bytes in Hb. rewrite Hd in Hb. unfold zlen in *. rewrite overlay_length.
       unfold u64_max, TMPFS_BUDGET in *. lia. }
  destruct (t_write_at_file now s a n d o buf Hat Hd Hm) as [[-> Ho]|[-> _]].
  - split_and!; [done|done|]. unfold over in Ho. destruct (counter_exact [] s a n Hi Ha) as (E & _). destruct (ti_count _ s Hi _ _ E) as [<- _].
    assert (node_bytes n = zlen d) as Hn by (unfold node_bytes; by rewrite Hd). rewrite Hn in Ho. exact Ho.
  - assert (forall o' len, (t_read_at a o' len (replaced now s a n (TFile (overlay d o buf)))).2 = Ok (read_slice (overlay d o buf) o' len)) as Hrd.
    { intros o' len. unfold t_read_at, cmd_bind, t_node, replaced, upd. cbn [t_nodes]. by rewrite lookup_insert_eq. }
    split_and!; [done|done|by rewrite Hrd, read_slice_overlay|done|]. intros b Hb. unfold replaced, upd. cbn [t_nodes]. by rewrite lookup_insert_ne.
Qed.
End Run.

(** ** A run *)

#[local] Instance dev_build : Profile := true.

Fixpoint t_run (l : list t_op) (s : Tmpfs) : Tmpfs := match l with [] => s | o :: l => t_run l (t_act 7 o s).1 end.

(** A directory with a file of three bytes, which is unlinked while it is open. *)
Definition script : list t_op := [OMount; OMkdir 0 [100]; OCreate 1 [102]; OWrite 2 0 [1; 2; 3]; OUnlink 1 [102]].

Definition valid_b (s : Tmpfs) (o : t_op) : bool :=
  forallb (fun a => bool_decide (a ∈ t_held s)) (t_uses o) &&
  match o with
  | OWrite _ offset buf => (0 <=? offset) && (offset <=? u64_max) && (zlen buf <=? u64_max)
  | OTruncate _ len => 0 <=? len
  | _ => true
  end.

Lemma valid_b_ok s o : valid_b s o = true -> t_valid s o.
Proof.
  unfold valid_b. rewrite andb_true_iff, forallb_forall. intros [H1 H2]. split.
  - apply Forall_forall. intros a Ha%list_elem_of_In%H1. by apply bool_decide_eq_true in Ha.
  - destruct o; try done; lia.
Qed.

Fixpoint run_b (l : list t_op) (s : Tmpfs) : bool := match l with [] => true | o :: l => valid_b s o && match (t_act 7 o s).2 with Panic => false | _ => true end && run_b l (t_act 7 o s).1 end.

Lemma run_reached l : forall s, t_reached s -> run_b l s = true -> t_reached (t_run l s).
Proof.
  induction l as [|o l IH]; intros s Hs Hl; [done|]. cbn [run_b t_run] in *. rewrite !andb_true_iff in Hl. destruct Hl as [[Ho Hp] Hl].
  apply IH; [|done]. apply (reached_step 7 s o Hs); [by apply valid_b_ok|]. by destruct (t_act 7 o s).2.
Qed.

Lemma script_reached i : run_b (take i script) tmpfs0 = true -> t_reached (t_run (take i script) tmpfs0).
Proof. apply run_reached. constructor 1. Qed.

Definition before_unlink : Tmpfs := t_run (take 4 script) tmpfs0.
Definition before_write : Tmpfs := t_run (take 3 script) tmpfs0.

Lemma tmpfs_accounts_witness :
  let s' := (t_act 7 (OUnlink 1 [102]) before_unlink).1 in
  t_counters s' !! 0%nat = Some 3 /\ usage (t_nodes s') 0 = 3.
Proof.
  assert (t_reached before_unlink) as Hr by (apply (script_reached 4); vm_compute; reflexivity).
  assert (t_valid before_unlink (OUnlink 1 [102])) as Hv by (apply valid_b_ok; vm_compute; reflexivity).
  destruct (tmpfs_accounts 7 before_unlink (OUnlink 1 [102]) Hr Hv) as [_ Hc].
  destruct Hc as [Hc _]; [vm_compute; discriminate|]. assert (t_counters (t_act 7 (OUnlink 1 [102]) before_unlink).1 !! 0%nat = Some 3) as E by (vm_compute; reflexivity).
  exact (conj E (eq_sym (proj1 (Hc 0%nat 3 E)))).
Defined.

Lemma tmpfs_write_read_witness : exists s' n, t_nodes before_write !! 2%nat = Some n /\ t_entry n = TFile [] /\
  t_write_at 7 2 1 [5; 6] before_write = (s', Ok 2) /\ (t_read_at 2 1 2 s').2 = Ok [5; 6] /\ (t_read_at 2 0 9 s').2 = Ok [0; 5; 6].
Proof.
  assert (t_reached before_write) as Hr by (apply (script_reached 3); vm_compute; reflexivity).
  destruct (t_nodes before_write !! 2%nat) as [n|] eqn:Hn; [|vm_compute in Hn; discriminate].
  assert (t_entry n = TFile []) as He by (vm_compute in Hn; injection Hn as <-; reflexivity).
  pose proof (tmpfs_write_read 7 before_write 2 n [] 1 [5; 6] Hr Hn He ltac:(vm_compute; discriminate) ltac:(vm_compute; discriminate)) as Hw.
  destruct (t_write_at 7 2 (Z.of_nat 1) [5; 6] before_write) as [s' [k|e|]] eqn:E; [|vm_compute in E; discriminate|vm_compute in E; discriminate].
  destruct Hw as (Hk & _ & H1 & H2 & _). subst k. exists s', n. exact (conj eq_refl (conj He (conj E (conj H1 (H2 0 9))))).
Defined.

(** ** Defects *)

(** [rmdir] removes a file. *)
Theorem rmdir_removes_file : (t_rmdir 1 [102] before_unlink).2 = Ok tt /\
  (t_lookup 1 [102] (t_rmdir 1 [102] before_unlink).1).2 = Err NotFound.
Proof. vm_compute. done. Qed.

(** [rename] replaces a directory that is not empty by a file. *)
Definition before_rename : Tmpfs := t_run [OMount; OMkdir 0 [100]; OCreate 1 [102]; OCreate 0 [103]] tmpfs0.
Theorem rename_replaces_full_directory : (t_rename 0 [103] [100] before_rename).2 = Ok tt /\
  t_type <$> t_nodes (t_rename 0 [103] [100] before_rename).1 !! 3%nat = Some Regular /\
  (t_lookup 0 [100] (t_rename 0 [103] [100] before_rename).1).2 = Ok 3%nat.
Proof. vm_compute. done. Qed.

(** A write whose end does not fit a [u64] panics, in every build: the sum overflows
    or the range it gives is backwards. *)
Theorem write_end_overflows (p : Profile) : (t_write_at (H := p) 7 2 u64_max [1] before_write).2 = Panic.
Proof. destruct p; vm_compute; done. Qed.

(** A directory moved into itself, which only the virtual file system refuses, cannot be
    removed: [rmdir] waits for a lock that its caller holds. *)
Definition inside_itself : Tmpfs := t_run [OMount; OMkdir 0 [100]; ORenameAcross 0 1 [100] [101]] tmpfs0.
Theorem rmdir_of_itself : t_reached inside_itself /\ (t_lookup 1 [101] inside_itself).2 = Ok 1%nat /\ (t_rmdir 1 [101] inside_itself).2 = Panic.
Proof. split; [apply run_reached; [constructor|vm_compute; reflexivity]|]. split; vm_compute; reflexivity. Qed.
