(* ===== verification/Vfs.v ===== *)
(** * The virtual file system

    Model of kernel/src/filesystems/vfs: directory entries and their global cache
    (dentry.rs), drive letters (drive.rs, mount.rs), the walk of a path through
    entries, mounts and symbolic links (path.rs), and the operations on paths
    (mod.rs).  The file
    systems below are a class, the inode and superblock traits; the model runs on
    any instance.  Entries live at addresses; a weak reference is an address that
    may no longer be in the store.  Entries and inodes whose last reference goes
    during an operation are dropped at its end.  The copies of sizes and times that
    an [Inode] keeps are never read and are left out. *)

From S2P Require Import Prelude Errors Fat32 FatFile FatNode Tmpfs.
Import Errors.Vfs.
Local Open Scope Z_scope.

Definition SYMLINK_MAX : nat := 40.
Definition DCACHE_MAX : nat := 4096.

Definition name_t : Type := list Z.
Definition SLASH : Z := 47.
Definition DOT : name_t := [46].
Definition DOTDOT : name_t := [46; 46].

(** ** Paths *)

Definition is_ascii_alphabetic (c : Z) : bool := ((65 <=? c) && (c <=? 90)) || ((97 <=? c) && (c <=? 122)).
Definition ascii_upper (c : Z) : Z := if (97 <=? c) && (c <=? 122) then c - 32 else c.

(** [X>rest] *)
Definition split_drive_path (path : list Z) : res VfsError (Z * list Z) :=
  match path with
  | letter :: gt :: rest => if (gt =? 62) && is_ascii_alphabetic letter then Ok (letter, rest) else Err InvalidInput
  | _ => Err InvalidInput
  end.

(** [path.split('/')] *)
Fixpoint split_slash (path : list Z) : list name_t :=
  match path with
  | [] => [[]]
  | c :: path =>
      if c =? SLASH then [] :: split_slash path
      else match split_slash path with [] => [[c]] | w :: ws => (c :: w) :: ws end
  end.

Definition plain_name (s : name_t) : bool := negb (bool_decide (s = [])) && negb (bool_decide (s = DOT)).

Definition split_components (path : list Z) : list name_t := List.filter plain_name (split_slash path).

Fixpoint trim_slashes (path : list Z) : list Z :=
  match path with c :: rest => if c =? SLASH then trim_slashes rest else path | [] => [] end.

(** ** The file systems below *)

(** [F] is the state of all of them, [I] an [Arc<dyn InodeOps>], [Sb] a superblock
    and [Dev] a device.  [fs_retain l] drops the references that are not in [l]. *)
Class FileSystems (F I Sb Dev : Type) := {
  i_lookup : I -> name_t -> cmd F I;
  i_create : I -> name_t -> cmd F I;
  i_mkdir : I -> name_t -> cmd F I;
  i_unlink : I -> name_t -> cmd F unit;
  i_rmdir : I -> name_t -> cmd F unit;
  i_rename : I -> name_t -> name_t -> cmd F unit;
  i_rename_across : I -> I -> name_t -> name_t -> cmd F unit;
  i_readdir : I -> cmd F (list (Z * name_t * FileType));
  i_getattr : I -> cmd F Stat;
  i_truncate : I -> Z -> cmd F unit;
  i_read_at : I -> Z -> Z -> cmd F (list Z);
  i_write_at : I -> Z -> list Z -> cmd F Z;
  i_readlink : I -> cmd F (list Z);
  i_flush : I -> cmd F unit;
  i_on_unlink : I -> F -> F;
  i_type : F -> I -> FileType;
  i_ino : F -> I -> Z;
  i_size : F -> I -> Z;
  i_canonical : I -> name_t -> name_t;
  sb_sync : Sb -> cmd F unit;
  sb_shutdown : Sb -> cmd F unit;
  sb_statfs : Sb -> cmd F StatFs;
  sb_root : Sb -> I;
  fs_mount : name_t -> option Dev -> option (cmd F (Sb * I));
  fs_retain : list I -> F -> F
}.

Section Vfs.
Context {F I Sb Dev : Type} `{!FileSystems F I Sb Dev} `{!EqDecision Sb} `{Profile}.

(** [Inode] *)
Record Inode := mkInode { n_ops : I; n_ino : Z; n_type : FileType }.

Record Dentry := mkDentry {
  d_name : name_t;
  d_inode : option Inode;
  d_parent : option nat;
  d_children : gmap name_t nat;
  d_mount_point : bool;
  d_mount_id : Z
}.

Record DriveMount := mkMount { m_id : Z; m_root : nat; m_sb : Sb; m_covered : option nat }.

(** The statics: the file systems, the entries, [DRIVE_MAP] by index and by id,
    [DCACHE], [NEXT_MOUNT_ID] and [CWD]. *)
Record Vfs := mkVfs {
  v_fs : F;
  v_dentries : gmap nat Dentry;
  v_next : nat;
  v_drives : gmap Z DriveMount;
  v_by_id : gmap Z (Z * DriveMount);
  v_dcache : gmap (Z * name_t) nat;
  v_next_mount_id : Z;
  v_cwd : option (Z * nat)
}.

Definition vfs0 (fs : F) : Vfs := mkVfs fs ∅ 0 ∅ ∅ ∅ 1 None.

Definition set_fs (v : Vfs) fs := mkVfs fs (v_dentries v) (v_next v) (v_drives v) (v_by_id v) (v_dcache v) (v_next_mount_id v) (v_cwd v).
Definition set_dentries (v : Vfs) m := mkVfs (v_fs v) m (v_next v) (v_drives v) (v_by_id v) (v_dcache v) (v_next_mount_id v) (v_cwd v).
Definition set_drives (v : Vfs) d b := mkVfs (v_fs v) (v_dentries v) (v_next v) d b (v_dcache v) (v_next_mount_id v) (v_cwd v).
Definition set_dcache (v : Vfs) c := mkVfs (v_fs v) (v_dentries v) (v_next v) (v_drives v) (v_by_id v) c (v_next_mount_id v) (v_cwd v).
Definition set_cwd (v : Vfs) c := mkVfs (v_fs v) (v_dentries v) (v_next v) (v_drives v) (v_by_id v) (v_dcache v) (v_next_mount_id v) c.

Definition cmdv (A : Type) : Type := cmd Vfs A.

(** A computation on the file systems below. *)
Definition on_fs {A} (m : cmd F A) : cmdv A := fun v => let '(fs, r) := m (v_fs v) in (set_fs v fs, r).

Definition get {A} (f : Vfs -> A) : cmdv A := fun v => (v, Ok (f v)).
Definition err {A} (e : VfsError) : cmdv A := cmd_res (Err e).
Definition ok_or_ {A} (o : option A) (e : VfsError) : cmdv A := cmd_res (match o with Some a => Ok a | None => Err e end).

(** ** Entries *)

(** An address that an operation holds a strong reference to is in the store. *)
Definition dentry (d : nat) : cmdv Dentry := fun v =>
  match v_dentries v !! d with Some e => (v, Ok e) | None => (v, Panic) end.

Definition upd_dentry (d : nat) (f : Dentry -> Dentry) : cmdv unit := fun v =>
  (set_dentries v (alter f d (v_dentries v)), Ok tt).

Definition set_inode o (e : Dentry) := mkDentry (d_name e) o (d_parent e) (d_children e) (d_mount_point e) (d_mount_id e).
Definition set_name n (e : Dentry) := mkDentry n (d_inode e) (d_parent e) (d_children e) (d_mount_point e) (d_mount_id e).
Definition set_parent p (e : Dentry) := mkDentry (d_name e) (d_inode e) p (d_children e) (d_mount_point e) (d_mount_id e).
Definition set_kids c (e : Dentry) := mkDentry (d_name e) (d_inode e) (d_parent e) c (d_mount_point e) (d_mount_id e).
Definition set_mount_point b (e : Dentry) := mkDentry (d_name e) (d_inode e) (d_parent e) (d_children e) b (d_mount_id e).
Definition set_mount_id i (e : Dentry) := mkDentry (d_name e) (d_inode e) (d_parent e) (d_children e) (d_mount_point e) i.

(** [Dentry::new], and the fields its creators set at once. *)
Definition new_dentry (e : Dentry) : cmdv nat := fun v =>
  let d := v_next v in
  (mkVfs (v_fs v) (<[d := e]> (v_dentries v)) (S d) (v_drives v) (v_by_id v) (v_dcache v) (v_next_mount_id v) (v_cwd v), Ok d).

Definition new_inode (i : I) : cmdv Inode := fun v => (v, Ok (mkInode i (i_ino (v_fs v) i) (i_type (v_fs v) i))).

Definition inode_of (d : nat) : cmdv Inode := do! e := dentry d in ok_or_ (d_inode e) NotFound.

Definition ino_or_0 (e : Dentry) : Z := match d_inode e with Some i => n_ino i | None => 0 end.

(** [Weak::upgrade] *)
Definition upgrade_ (w : option nat) : cmdv (option nat) := fun v =>
  (v, Ok (match w with Some d => if bool_decide (is_Some (v_dentries v !! d)) then Some d else None | None => None end)).

Definition canonical_child_key (e : Dentry) (name : name_t) : name_t :=
  match d_inode e with Some i => i_canonical (n_ops i) name | None => name end.

Definition insert_child (d : nat) (key : name_t) (c : nat) : cmdv unit := upd_dentry d (fun e => set_kids (<[key := c]> (d_children e)) e).
Definition remove_child (d : nat) (key : name_t) : cmdv unit := upd_dentry d (fun e => set_kids (delete key (d_children e)) e).

(** *** The global cache *)

Definition dcache_lookup (parent_ino : Z) (key : name_t) : cmdv (option nat) := fun v => upgrade_ (v_dcache v !! (parent_ino, key)) v.

(** A full cache loses some entry: here the first one of the map. *)
Definition dcache_insert (parent_ino : Z) (key : name_t) (d : nat) : cmdv unit := fun v =>
  let c := if (DCACHE_MAX <=? size (v_dcache v))%nat
           then match map_to_list (v_dcache v) with (k, _) :: _ => delete k (v_dcache v) | [] => v_dcache v end
           else v_dcache v in
  (set_dcache v (<[(parent_ino, key) := d]> c), Ok tt).

Definition dcache_evict (parent_ino : Z) (key : name_t) : cmdv unit := fun v => (set_dcache v (delete (parent_ino, key) (v_dcache v)), Ok tt).

(** ** Drives *)

Definition letter_index (letter : Z) : res VfsError Z :=
  let idx := ascii_upper letter in if (idx <? 65) || (90 <? idx) then Err InvalidInput else Ok (idx - 65).

Definition assign (letter : Z) (m : DriveMount) : cmdv unit :=
  do! idx := cmd_res (letter_index letter) in
  fun v =>
    match v_drives v !! idx with
    | Some _ => (v, Err AlreadyExists)
    | None => (set_drives v (<[idx := m]> (v_drives v)) (<[m_id m := (letter, m)]> (v_by_id v)), Ok tt)
    end.

Definition drive_lookup (letter : Z) : cmdv DriveMount :=
  do! idx := cmd_res (letter_index letter) in
  fun v => ok_or_ (v_drives v !! idx) NotFound v.

Definition lookup_by_id (id : Z) : cmdv (option (Z * DriveMount)) := get (fun v => v_by_id v !! id).

Definition drive_remove (letter : Z) : cmdv DriveMount :=
  do! idx := cmd_res (letter_index letter) in
  fun v =>
    match v_drives v !! idx with
    | None => (v, Err NotFound)
    | Some m => (set_drives v (delete idx (v_drives v)) (delete (m_id m) (v_by_id v)), Ok m)
    end.

(** The mounts by letter. *)
Definition drive_iter (v : Vfs) : list DriveMount := omap (fun i => v_drives v !! i) (seqZ 0 26).

Definition next_mount_id : cmdv Z := fun v =>
  let val := v_next_mount_id v in
  let next := match checked_add_u64 val 1 with Some n => n | None => 1 end in
  (mkVfs (v_fs v) (v_dentries v) (v_next v) (v_drives v) (v_by_id v) (v_dcache v) (if next =? 0 then 1 else next) (v_cwd v),
   Ok (if val =? 0 then 1 else val)).

(** ** The walk *)

Definition attempt_mount_cross (d : nat) : cmdv nat :=
  do! e := dentry d in
  if negb (d_mount_point e) then cmd_ret d
  else if d_mount_id e =? 0 then cmd_ret d
  else
    do! m := lookup_by_id (d_mount_id e) in
    cmd_ret (match m with Some (_, m) => m_root m | None => d end).

(** [..]: the parent, or above the root of a mount what it covers. *)
Definition walk_up (current : nat) : cmdv nat :=
  do! e := dentry current in
  do! p := upgrade_ (d_parent e) in
  match p with
  | Some p => cmd_ret p
  | None =>
      do! m := get (fun v => List.find (fun m => (m_root m =? current)%nat) (drive_iter v)) in
      do! c := upgrade_ (m ≫= m_covered) in
      cmd_ret (default current c)
  end.

(** The entry of a name: among the children, in the cache, or from the file
    system. *)
Definition walk_down (current : nat) (name : name_t) : cmdv nat :=
  do! e := dentry current in
  let key := canonical_child_key e name in
  match d_children e !! key with
  | Some c => cmd_ret c
  | None =>
      let cur_ino := ino_or_0 e in
      do! cached := dcache_lookup cur_ino key in
      match cached with
      | Some c =>
          do! ce := dentry c in
          match d_inode ce with
          | None => err NotFound
          | Some _ => do! _ := insert_child current key c in cmd_ret c
          end
      | None =>
          do! inode := ok_or_ (d_inode e) NotFound in
          do! ops := on_fs (i_lookup (n_ops inode) name) in
          do! ci := new_inode ops in
          do! c := new_dentry (mkDentry name (Some ci) (Some current) ∅ false (d_mount_id e)) in
          do! _ := insert_child current key c in
          do! _ := dcache_insert cur_ino key c in
          cmd_ret c
      end
  end.

(** Where the target of the link at [current] starts, and its components. *)
Definition link_base (current : nat) (target : list Z) : cmdv (nat * list name_t) :=
  do! e := dentry current in
  match split_drive_path target with
  | Ok (letter, inner) => do! m := drive_lookup letter in cmd_ret (m_root m, split_components inner)
  | _ =>
      do! p := upgrade_ (d_parent e) in
      match target with
      | c :: _ =>
          if c =? SLASH then
            do! m := (if d_mount_id e =? 0 then cmd_ret None else lookup_by_id (d_mount_id e)) in
            do! base := match m with Some (_, m) => cmd_ret (m_root m) | None => ok_or_ p NotFound end in
            cmd_ret (base, split_components (trim_slashes target))
          else do! base := ok_or_ p NotFound in cmd_ret (base, split_components target)
      | [] => err Loop
      end
  end.

(** [walk_inner]; [links] links may still be followed. *)
Fixpoint walk_inner (links : nat) : list name_t -> nat -> cmdv nat :=
  fix go (components : list name_t) (current : nat) : cmdv nat :=
    match components with
    | [] => cmd_ret current
    | name :: rest =>
        if bool_decide (name = DOT) || bool_decide (name = []) then go rest current
        else if bool_decide (name = DOTDOT) then do! p := walk_up current in go rest p
        else
          do! child := walk_down current name in
          do! current := attempt_mount_cross child in
          do! e := dentry current in
          match d_inode e with
          | Some i =>
              if bool_decide (n_type i = Symlink) then
                match links with
                | O => err Loop
                | S links =>
                    do! target := on_fs (i_readlink (n_ops i)) in
                    if bool_decide (target = []) then err Loop
                    else do! bt := link_base current target in walk_inner links (bt.2 ++ rest) bt.1
                end
              else go rest current
          | None => go rest current
          end
    end.

Definition walk_from (start : nat) (components : list name_t) : cmdv nat := walk_inner SYMLINK_MAX components start.

Definition resolve_path (path : list Z) : cmdv (Z * nat) :=
  if bool_decide (path = []) then err InvalidInput
  else
    match split_drive_path path with
    | Ok (letter, inner) =>
        do! m := drive_lookup letter in
        if bool_decide (inner = []) then cmd_ret (letter, m_root m)
        else do! d := walk_from (m_root m) (split_components inner) in cmd_ret (letter, d)
    | _ =>
        do! cwd := get v_cwd in
        do! c := ok_or_ cwd NotFound in
        do! d := walk_from c.2 (split_components path) in
        cmd_ret (c.1, d)
    end.

Definition resolve_parent (path : list Z) : cmdv (nat * name_t) :=
  do! si := match split_drive_path path with
            | Ok (letter, inner) => do! m := drive_lookup letter in cmd_ret (m_root m, inner)
            | _ => do! cwd := get v_cwd in do! c := ok_or_ cwd NotFound in cmd_ret (c.2, path)
            end in
  let components := split_components si.2 in
  match last components with
  | None => err InvalidInput
  | Some leaf =>
      let parents := removelast components in
      do! parent := (if bool_decide (parents = []) then cmd_ret si.1 else walk_from si.1 parents) in
      cmd_ret (parent, leaf)
  end.

(** ** The end of an operation *)

Definition dentry_refs (m : gmap nat Dentry) : list nat := flat_map (fun p => (map_to_list (d_children p.2)).*2) (map_to_list m).

Definition root_refs (v : Vfs) : list nat := map (fun p => m_root p.2) (map_to_list (v_drives v)) ++ option_list (snd <$> v_cwd v).

(** Drop the entries that nothing refers to, until none is left. *)
Fixpoint collect (fuel : nat) (roots : list nat) (m : gmap nat Dentry) : gmap nat Dentry :=
  match fuel with
  | O => m
  | S fuel =>
      let refs := roots ++ dentry_refs m in
      let m' := filter (fun p => p.1 ∈ refs) m in
      if (size m' =? size m)%nat then m else collect fuel roots m'
  end.

Definition inode_refs (m : gmap nat Dentry) : list I := omap (fun p => n_ops <$> d_inode p.2) (map_to_list m).

Definition settle (v : Vfs) : Vfs :=
  let m := collect (size (v_dentries v)) (root_refs v) (v_dentries v) in
  set_fs (set_dentries v m) (fs_retain (inode_refs m ++ map (fun p => sb_root (m_sb p.2)) (map_to_list (v_drives v))) (v_fs v)).

(** A public operation. *)
Definition vfs_op {A} (m : cmdv A) : cmdv A := fun v => let '(v, r) := m v in (settle v, r).

(** ** Mounting *)

(** [let _ = m;] *)
Definition ignore (m : cmdv unit) : cmdv unit := fun v => match m v with (v, Panic) => (v, Panic) | (v, _) => (v, Ok tt) end.

Definition or_else {A} (m : cmdv A) (h : VfsError -> cmdv A) : cmdv A := fun v => match m v with (v, Err e) => h e v | r => r end.

Definition mount_ (fstype : name_t) (device : option Dev) (drive : Z) : cmdv unit :=
  do! mk := ok_or_ (fs_mount fstype device) NotFound in
  do! sr := on_fs mk in
  do! ri := new_inode sr.2 in
  do! root := new_dentry (mkDentry [] (Some ri) None ∅ true 0) in
  do! mid := next_mount_id in
  do! _ := upd_dentry root (set_mount_id mid) in
  or_else (assign drive (mkMount mid root sr.1 None)) (fun e => do! _ := ignore (on_fs (sb_shutdown sr.1)) in err e).

Definition mount (fstype : name_t) (device : option Dev) (drive : Z) : cmdv unit := vfs_op (mount_ fstype device drive).

Definition mount_virtual (source : list Z) (drive : Z) : cmdv unit := vfs_op (
  do! ls := resolve_path source in
  do! src := inode_of ls.2 in
  do! m := drive_lookup ls.1 in
  do! bind := new_dentry (mkDentry [] (Some src) None ∅ true 0) in
  do! mid := next_mount_id in
  do! _ := upd_dentry bind (set_mount_id mid) in
  assign drive (mkMount mid bind (m_sb m) None)).

Definition mount_at (fstype : name_t) (device : option Dev) (target_path : list Z) (drive : Z) : cmdv unit := vfs_op (
  do! lt := resolve_path target_path in
  do! inode := inode_of lt.2 in
  if negb (bool_decide (n_type inode = Directory)) then err NotADirectory
  else
    do! te := dentry lt.2 in
    if negb (d_mount_id te =? 0) then err AlreadyExists
    else
      do! mk := ok_or_ (fs_mount fstype device) NotFound in
      do! sr := on_fs mk in
      do! ri := new_inode sr.2 in
      do! root := new_dentry (mkDentry [] (Some ri) None ∅ true 0) in
      do! mid := next_mount_id in
      do! _ := assign drive (mkMount mid root sr.1 (Some lt.2)) in
      upd_dentry lt.2 (fun e => set_mount_point true (set_mount_id mid e))).

Definition sync_drive (drive : Z) : cmdv unit := do! m := drive_lookup drive in on_fs (sb_sync (m_sb m)).

Definition unmount (drive : Z) : cmdv unit := vfs_op (
  do! cwd := get v_cwd in
  if match cwd with Some (d, _) => d =? drive | None => false end then err MountBusy
  else
    do! _ := sync_drive drive in
    do! m := drive_lookup drive in
    do! _ := on_fs (sb_shutdown (m_sb m)) in
    do! c := upgrade_ (m_covered m) in
    do! _ := match c with
             | Some d => upd_dentry d (fun e => set_mount_point false (set_mount_id 0 e))
             | None => cmd_ret tt
             end in
    do! _ := drive_remove drive in
    cmd_ret tt).

(** ** The working directory *)

Definition chdir (path : list Z) : cmdv unit := vfs_op (
  do! ld := resolve_path path in
  do! inode := inode_of ld.2 in
  if negb (bool_decide (n_type inode = Directory)) then err NotADirectory
  else fun v => (set_cwd v (Some ld), Ok tt)).

(** The names up to a root; [None] if the parents never end. *)
Fixpoint cwd_parts (fuel : nat) (v : Vfs) (d : nat) (parts : list name_t) : option (list name_t) :=
  match fuel with
  | O => None
  | S fuel =>
      match v_dentries v !! d with
      | None => None
      | Some e =>
          if bool_decide (d_name e = []) then Some parts
          else
            match (upgrade_ (d_parent e) v).2 with
            | Ok (Some p) => cwd_parts fuel v p (d_name e :: parts)
            | _ => Some (d_name e :: parts)
            end
      end
  end.

Fixpoint join_slash (l : list name_t) : list Z :=
  match l with [] => [] | n :: l => n ++ match l with [] => [] | _ => SLASH :: join_slash l end end.

Definition getcwd : cmdv (list Z) :=
  do! cwd := get v_cwd in
  do! c := ok_or_ cwd NotFound in
  fun v =>
    match cwd_parts (S (size (v_dentries v))) v c.2 [] with
    | Some parts => (v, Ok (c.1 :: 62 :: join_slash parts))
    | None => (v, Panic)
    end.

(** ** Files *)

Definition READ : Z := 1.
Definition WRITE : Z := 2.
Definition CREATE : Z := 4.
Definition TRUNC : Z := 8.
Definition APPEND : Z := 16.
Definition EXCL : Z := 32.
Definition NOFOLLOW : Z := 64.
Definition DIRECTORY : Z := 128.
Definition SYNC : Z := 256.
Definition contains (flags flag : Z) : bool := negb (Z.land flags flag =? 0).

Definition when_ (b : bool) (m : cmdv unit) : cmdv unit := if b then m else cmd_ret tt.

(** A new entry for [name] under [parent]. *)
Definition attach (parent : nat) (name key : name_t) (inode : Inode) : cmdv nat :=
  do! pe := dentry parent in
  do! c := new_dentry (mkDentry name (Some inode) (Some parent) ∅ false (d_mount_id pe)) in
  do! _ := insert_child parent key c in
  do! _ := dcache_insert (ino_or_0 pe) key c in
  cmd_ret c.

Definition leaf_lookup (p : Inode) (leaf : name_t) (create : bool) : cmdv (option I) :=
  or_else (do! i := on_fs (i_lookup (n_ops p) leaf) in cmd_ret (Some i))
    (fun e => if bool_decide (e = NotFound) then cmd_ret None else if create then cmd_ret None else err e).

Definition leaf_create (p : Inode) (leaf : name_t) (excl : bool) : cmdv I :=
  or_else (on_fs (i_create (n_ops p) leaf))
    (fun e => if bool_decide (e = AlreadyExists) && negb excl then on_fs (i_lookup (n_ops p) leaf) else err e).

(** The target of the link that the leaf is, as far as it is a link. *)
Fixpoint follow_leaf (links : nat) (parent d : nat) (inode : Inode) : cmdv (nat * Inode) :=
  if negb (bool_decide (n_type inode = Symlink)) then cmd_ret (d, inode)
  else
    match links with
    | O => err Loop
    | S links =>
        do! target := on_fs (i_readlink (n_ops inode)) in
        if bool_decide (target = []) then err Loop
        else
          do! resolved :=
            match split_drive_path target with
            | Ok (letter, inner) => do! m := drive_lookup letter in walk_from (m_root m) (split_components inner)
            | _ =>
                if bool_decide (head target = Some SLASH) then
                  do! pe := dentry parent in
                  do! m := (if d_mount_id pe =? 0 then cmd_ret None else lookup_by_id (d_mount_id pe)) in
                  walk_from (match m with Some (_, m) => m_root m | None => parent end) (split_components (trim_slashes target))
                else walk_from parent (split_components target)
            end in
          do! next := inode_of resolved in
          follow_leaf links parent resolved next
    end.

Definition resolve_inode (path : list Z) (flags : Z) : cmdv (nat * Inode) :=
  let create := contains flags CREATE in
  do! pl := resolve_parent path in
  do! p := inode_of pl.1 in
  if negb (bool_decide (n_type p = Directory)) then err NotADirectory
  else
    do! existing := leaf_lookup p pl.2 create in
    do! pe := dentry pl.1 in
    let key := canonical_child_key pe pl.2 in
    if contains flags EXCL && bool_decide (is_Some existing) then err AlreadyExists
    else
      do! inode :=
        match existing with
        | Some ops =>
            do! inode := new_inode ops in
            do! _ := when_ (contains flags TRUNC) (on_fs (i_truncate ops 0)) in
            do! _ := match d_children pe !! key with
                     | Some c => upd_dentry c (set_inode (Some inode))
                     | None => do! _ := attach pl.1 pl.2 key inode in cmd_ret tt
                     end in
            cmd_ret inode
        | None =>
            if negb create then err NotFound
            else
              do! ops := leaf_create p pl.2 (contains flags EXCL) in
              do! inode := new_inode ops in
              do! _ := attach pl.1 pl.2 key inode in
              cmd_ret inode
        end in
      do! pe := dentry pl.1 in
      do! d := ok_or_ (d_children pe !! key) NotFound in
      if bool_decide (n_type inode = Symlink) && contains flags NOFOLLOW then err Loop
      else
        do! di := follow_leaf SYMLINK_MAX pl.1 d inode in
        if contains flags DIRECTORY && negb (bool_decide (n_type di.2 = Directory)) then err NotADirectory
        else if contains flags NOFOLLOW && bool_decide (n_type di.2 = Symlink) then err Loop
        else cmd_ret di.

Definition pread (path : list Z) (offset len : Z) : cmdv (list Z) := vfs_op (
  do! di := resolve_inode path READ in
  if bool_decide (n_type di.2 = Directory) then err IsADirectory
  else on_fs (i_read_at (n_ops di.2) offset len)).

Definition pwrite_ (path : list Z) (offset : Z) (buf : list Z) (flags : Z) : cmdv Z :=
  let flags := Z.lor flags WRITE in
  do! di := resolve_inode path flags in
  if bool_decide (n_type di.2 = Directory) then err IsADirectory
  else
    do! size := get (fun v => i_size (v_fs v) (n_ops di.2)) in
    let at_ := if contains flags APPEND then size else offset in
    do! n := on_fs (i_write_at (n_ops di.2) at_ buf) in
    do! _ := when_ (contains flags SYNC) (on_fs (i_flush (n_ops di.2))) in
    do! _ := cmd_res (u64_add at_ n) in
    cmd_ret n.

Definition pwrite (path : list Z) (offset : Z) (buf : list Z) (flags : Z) : cmdv Z := vfs_op (pwrite_ path offset buf flags).
Definition append (path : list Z) (buf : list Z) : cmdv Z := pwrite path 0 buf (Z.lor CREATE APPEND).
Definition overwrite (path : list Z) (buf : list Z) : cmdv Z := pwrite path 0 buf (Z.lor CREATE TRUNC).

Definition truncate (path : list Z) (len : Z) : cmdv unit := vfs_op (
  do! ld := resolve_path path in
  do! inode := inode_of ld.2 in
  on_fs (i_truncate (n_ops inode) len)).

Definition stat (path : list Z) : cmdv Stat := vfs_op (
  do! ld := resolve_path path in
  do! inode := inode_of ld.2 in
  on_fs (i_getattr (n_ops inode))).

(** ** Directories *)

Definition mkdir_ (path : list Z) : cmdv unit :=
  do! pn := resolve_parent path in
  do! p := inode_of pn.1 in
  if negb (bool_decide (n_type p = Directory)) then err NotADirectory
  else
    do! ops := on_fs (i_mkdir (n_ops p) pn.2) in
    do! inode := new_inode ops in
    do! pe := dentry pn.1 in
    do! _ := attach pn.1 pn.2 (canonical_child_key pe pn.2) inode in
    cmd_ret tt.

Definition mkdir (path : list Z) : cmdv unit := vfs_op (mkdir_ path).

(** Tell the inode of a child, and take the child out of the tree without its
    inode. *)
Definition detach (parent : nat) (key : name_t) : cmdv unit :=
  do! pe := dentry parent in
  match d_children pe !! key with
  | None => cmd_ret tt
  | Some c =>
      do! ce := dentry c in
      do! _ := match d_inode ce with
               | Some i => fun v => (set_fs v (i_on_unlink (n_ops i) (v_fs v)), Ok tt)
               | None => cmd_ret tt
               end in
      do! _ := remove_child parent key in
      upd_dentry c (set_inode None)
  end.

Definition rmdir (path : list Z) : cmdv unit := vfs_op (
  do! pn := resolve_parent path in
  if bool_decide (pn.2 = DOT) || bool_decide (pn.2 = DOTDOT) then err InvalidInput
  else
    do! p := inode_of pn.1 in
    do! pe := dentry pn.1 in
    let key := canonical_child_key pe pn.2 in
    do! _ := detach pn.1 key in
    do! _ := on_fs (i_rmdir (n_ops p) pn.2) in
    dcache_evict (n_ino p) key).

Definition readdir (path : list Z) : cmdv (list (Z * name_t * FileType)) := vfs_op (
  do! ld := resolve_path path in
  do! inode := inode_of ld.2 in
  if negb (bool_decide (n_type inode = Directory)) then err NotADirectory
  else
    do! entries := on_fs (i_readdir (n_ops inode)) in
    do! e := dentry ld.2 in
    do! p := upgrade_ (d_parent e) in
    do! parent_ino := get (fun v => default (n_ino inode) (p ≫= fun p => v_dentries v !! p ≫= fun pe => n_ino <$> d_inode pe)) in
    cmd_ret ((n_ino inode, DOT, Directory) :: (parent_ino, DOTDOT, Directory) :: entries)).

(** ** Names *)

(** The type of a child, from its entry or else from the file system. *)
Definition child_type (p : Inode) (pe : Dentry) (name key : name_t) : cmdv (option FileType) :=
  match d_children pe !! key with
  | Some c => do! ce := dentry c in cmd_ret (n_type <$> d_inode ce)
  | None =>
      or_else (do! i := on_fs (i_lookup (n_ops p) name) in get (fun v => Some (i_type (v_fs v) i)))
        (fun _ => cmd_ret None)
  end.

Definition unlink (path : list Z) : cmdv unit := vfs_op (
  do! pn := resolve_parent path in
  do! p := inode_of pn.1 in
  do! pe := dentry pn.1 in
  let key := canonical_child_key pe pn.2 in
  do! ty := child_type p pe pn.2 key in
  if bool_decide (ty = Some Directory) then err IsADirectory
  else
    do! _ := detach pn.1 key in
    do! _ := on_fs (i_unlink (n_ops p) pn.2) in
    dcache_evict (n_ino p) key).

(** The entry, and inode number, of a directory that is to be moved. *)
Definition moved_dir (p : Inode) (pe : Dentry) (name key : name_t) : cmdv (option (option nat * option Z)) :=
  match d_children pe !! key with
  | Some c =>
      do! ce := dentry c in
      cmd_ret (if bool_decide (n_type <$> d_inode ce = Some Directory) then Some (Some c, n_ino <$> d_inode ce) else None)
  | None =>
      or_else (do! i := on_fs (i_lookup (n_ops p) name) in
               get (fun v => if bool_decide (i_type (v_fs v) i = Directory) then Some (None, Some (i_ino (v_fs v) i)) else None))
        (fun _ => cmd_ret None)
  end.

(** Whether the entry [a] or one above it is the one that is moved; [None] if the
    parents never end. *)
Fixpoint is_below (fuel : nat) (v : Vfs) (child : option nat) (ino : option Z) (a : nat) : option bool :=
  match fuel with
  | O => None
  | S fuel =>
      match v_dentries v !! a with
      | None => None
      | Some e =>
          if bool_decide (child = Some a) then Some true
          else if bool_decide (is_Some ino) && bool_decide (n_ino <$> d_inode e = ino) then Some true
          else
            match (upgrade_ (d_parent e) v).2 with
            | Ok (Some p) => is_below fuel v child ino p
            | _ => Some false
            end
      end
  end.

Definition rename_same (parent : nat) (p : Inode) (old_name new_name : name_t) : cmdv unit :=
  do! _ := on_fs (i_rename (n_ops p) old_name new_name) in
  do! pe := dentry parent in
  let old_key := canonical_child_key pe old_name in
  let new_key := canonical_child_key pe new_name in
  match d_children pe !! old_key with
  | Some c =>
      do! _ := remove_child parent old_key in
      do! _ := upd_dentry c (set_name new_name) in
      do! _ := insert_child parent new_key c in
      do! _ := dcache_evict (n_ino p) old_key in
      dcache_insert (n_ino p) new_key c
  | None => dcache_evict (n_ino p) old_key
  end.

Definition rename_other (op np : nat) (o n : Inode) (old_name new_name : name_t) : cmdv unit :=
  do! oe := dentry op in
  let old_key := canonical_child_key oe old_name in
  do! moved := moved_dir o oe old_name old_key in
  do! cycle := get (fun v => match moved with
                             | Some (c, ino) => is_below (S (size (v_dentries v))) v c ino np
                             | None => Some false
                             end) in
  match cycle with
  | None => cmd_res Panic
  | Some true => err InvalidInput
  | Some false =>
      do! _ := on_fs (i_rename_across (n_ops o) (n_ops n) old_name new_name) in
      do! oe := dentry op in
      do! ne := dentry np in
      let old_key := canonical_child_key oe old_name in
      let new_key := canonical_child_key ne new_name in
      do! _ := match d_children oe !! old_key with
               | Some c =>
                   do! _ := remove_child op old_key in
                   do! _ := upd_dentry c (fun e => set_mount_id (d_mount_id ne) (set_parent (Some np) (set_name new_name e))) in
                   do! _ := dcache_insert (ino_or_0 ne) new_key c in
                   insert_child np new_key c
               | None => cmd_ret tt
               end in
      dcache_evict (n_ino o) old_key
  end.

Definition rename (old_path new_path : list Z) : cmdv unit := vfs_op (
  do! oo := resolve_parent old_path in
  do! nn := resolve_parent new_path in
  do! o := inode_of oo.1 in
  if negb (bool_decide (n_type o = Directory)) then err NotADirectory
  else
    do! n := inode_of nn.1 in
    if negb (bool_decide (n_type n = Directory)) then err NotADirectory
    else if (oo.1 =? nn.1)%nat then rename_same oo.1 o oo.2 nn.2
    else rename_other oo.1 nn.1 o n oo.2 nn.2).

(** ** All drives *)

Fixpoint sync_each (seen : list Sb) (l : list DriveMount) : cmdv unit :=
  match l with
  | [] => cmd_ret tt
  | m :: l =>
      if bool_decide (m_sb m ∈ seen) then sync_each seen l
      else do! _ := on_fs (sb_sync (m_sb m)) in sync_each (m_sb m :: seen) l
  end.

Definition sync_all : cmdv unit := do! l := get drive_iter in sync_each [] l.

Definition statfs (path : list Z) : cmdv StatFs := vfs_op (
  do! ld := resolve_path path in
  do! m := drive_lookup ld.1 in
  on_fs (sb_statfs (m_sb m))).

(** [init], the first time. *)
Definition vfs_init : cmdv unit :=
  do! _ := mount [116; 109; 112; 102; 115] None 65 in
  do! _ := mkdir [65; 62; 116; 109; 112] in
  do! m := drive_lookup 65 in
  fun v => (set_cwd v (Some (65, m_root m)), Ok tt).
End Vfs.
