(* ===== verification/VfsFacts.v ===== *)
(** * Mount identifiers

    An invariant of every state that the operations reach: each entry carries the
    identifier of its mount, which is not 0.  With it, [mount_at], which asks for
    an entry without one, never mounts anything. *)

From S2P Require Import Prelude Errors Fat32 FatFile FatNode Tmpfs Vfs.
Import Errors.Vfs.
Local Open Scope Z_scope.

Section Facts.
Context {F I Sb Dev : Type} `{!FileSystems F I Sb Dev} `{!EqDecision Sb} `{Profile}.

Notation vfs := (Vfs (F := F) (I := I) (Sb := Sb)).
Notation cm := (cmdv (F := F) (I := I) (Sb := Sb)).
Notation ent := (Dentry (I := I)).

Record mounted (v : vfs) : Prop := {
  mt_dentry d e : v_dentries v !! d = Some e -> d_mount_id e <> 0;
  mt_drive i m : v_drives v !! i = Some m -> m_covered m = None;
  mt_next : v_next_mount_id v <> 0
}.

Lemma mounted_ext v v' : v_dentries v' = v_dentries v -> v_drives v' = v_drives v -> v_next_mount_id v' = v_next_mount_id v ->
  mounted v -> mounted v'.
Proof. intros E1 E2 E3 Hv. constructor; rewrite ?E1, ?E2, ?E3; apply Hv. Qed.

(** [m] keeps the invariant and what it returns satisfies [Q]. *)
Definition gives {A} (m : cm A) (Q : A -> Prop) : Prop := forall v, mounted v -> mounted (m v).1 /\ forall a, (m v).2 = Ok a -> Q a.

Definition fine {A} (m : cm A) : Prop := gives m (fun _ => True).

Lemma gives_weaken {A} (m : cm A) Q Q' : gives m Q -> (forall a, Q a -> Q' a) -> gives m Q'.
Proof. intros Hm HQ v Hv. destruct (Hm v Hv) as [? Ha]. split; auto. Qed.

Lemma gives_fine {A} (m : cm A) Q : gives m Q -> fine m.
Proof. intros Hm. by eapply gives_weaken. Qed.

Lemma v_gives_bind {A B} (m : cm A) (k : A -> cm B) Q R : gives m Q -> (forall a, Q a -> gives (k a) R) -> gives (cmd_bind m k) R.
Proof.
  intros Hm Hk v Hv. unfold cmd_bind. destruct (Hm v Hv) as [Hv1 Ha]. destruct (m v) as [v1 [a|e|]]; cbn in *; [|done|done].
  by apply Hk; [apply Ha|].
Qed.

Lemma fine_bind {A B} (m : cm A) (k : A -> cm B) : fine m -> (forall a, fine (k a)) -> fine (cmd_bind m k).
Proof. intros Hm Hk. eapply v_gives_bind; [exact Hm|]. intros a _. apply Hk. Qed.

Lemma fine_same {A} (m : cm A) : (forall v, (m v).1 = v) -> fine m.
Proof. intros Hm v Hv. by rewrite Hm. Qed.

Lemma fine_ret {A} (a : A) : fine (cmd_ret a).
Proof. by apply fine_same. Qed.

Lemma fine_res {A} (r : res VfsError A) : fine (cmd_res r).
Proof. by apply fine_same. Qed.

Lemma fine_err {A} e : fine (err (A := A) e).
Proof. by apply fine_same. Qed.

Lemma fine_or_ {A} (o : option A) e : fine (ok_or_ o e).
Proof. by apply fine_same. Qed.

Lemma fine_get {A} (f : vfs -> A) : fine (get f).
Proof. by apply fine_same. Qed.

Lemma fine_fs {A} (m : cmd F A) : fine (on_fs m).
Proof. intros v Hv. unfold on_fs. destruct (m (v_fs v)). split; [|done]. by apply (mounted_ext v). Qed.

Lemma gives_dentry d : gives (dentry d) (fun e => d_mount_id e <> 0).
Proof.
  intros v Hv. unfold dentry. destruct (v_dentries v !! d) as [e|] eqn:E; (split; [done|]); [|done]. intros a [= <-]. by eapply mt_dentry.
Qed.

Lemma fine_dentry d : fine (dentry d).
Proof. eapply gives_fine, gives_dentry. Qed.

Lemma fine_dentry_bind {B} d (k : ent -> cm B) : (forall e, d_mount_id e <> 0 -> fine (k e)) -> fine (cmd_bind (dentry d) k).
Proof. intros Hk. eapply v_gives_bind; [apply gives_dentry|exact Hk]. Qed.

Lemma fine_upgrade w : fine (upgrade_ w).
Proof. by apply fine_same. Qed.

Lemma fine_upd d f : (forall e, d_mount_id e <> 0 -> d_mount_id (f e) <> 0) -> fine (upd_dentry d f).
Proof.
  intros Hf v Hv. split; [|done]. constructor; cbn [upd_dentry set_dentries fst v_dentries v_drives v_next_mount_id]; try apply Hv.
  intros x e He. destruct (decide (d = x)) as [<-|Hne].
  - rewrite lookup_alter_eq in He. destruct (v_dentries v !! d) as [e0|] eqn:E; [|done]. injection He as <-. apply Hf. by eapply mt_dentry.
  - rewrite lookup_alter_ne in He by done. by eapply mt_dentry.
Qed.

Lemma fine_new e : d_mount_id e <> 0 -> fine (new_dentry e).
Proof.
  intros He v Hv. split; [|done]. constructor; cbn; try apply Hv. intros d e' [[_ <-]|[_ Hd]]%lookup_insert_Some; [done|]. by eapply mt_dentry.
Qed.

Lemma fine_new_inode i : fine (new_inode i).
Proof. by apply fine_same. Qed.

Lemma fine_insert_child d k c : fine (insert_child d k c).
Proof. by apply fine_upd. Qed.

Lemma fine_remove_child d k : fine (remove_child d k).
Proof. by apply fine_upd. Qed.

Lemma fine_dcache_lookup i k : fine (dcache_lookup i k).
Proof. by apply fine_same. Qed.

Lemma fine_dcache_insert i k d : fine (dcache_insert i k d).
Proof. intros v Hv. split; [|done]. by apply (mounted_ext v). Qed.

Lemma fine_dcache_evict i k : fine (dcache_evict i k).
Proof. intros v Hv. split; [|done]. by apply (mounted_ext v). Qed.

Lemma fine_by_id i : fine (lookup_by_id i).
Proof. apply fine_get. Qed.

Lemma gives_lookup l : gives (drive_lookup l) (fun m => m_covered m = None).
Proof.
  intros v Hv. unfold drive_lookup, cmd_bind, cmd_res. destruct (letter_index l) as [i| |]; [|done|done].
  unfold ok_or_, cmd_res. destruct (v_drives v !! i) as [m|] eqn:E; (split; [done|]); [|done]. intros a [= <-]. by eapply mt_drive.
Qed.

Lemma fine_lookup l : fine (drive_lookup l).
Proof. eapply gives_fine, gives_lookup. Qed.

Lemma fine_lookup_bind {B} l (k : _ -> cm B) : (forall m, m_covered m = None -> fine (k m)) -> fine (cmd_bind (drive_lookup l) k).
Proof. intros Hk. eapply v_gives_bind; [apply gives_lookup|exact Hk]. Qed.

Lemma fine_remove l : fine (drive_remove l).
Proof.
  intros v Hv. unfold drive_remove, cmd_bind, cmd_res. destruct (letter_index l) as [i| |]; [|done|done].
  destruct (v_drives v !! i) as [m|] eqn:E; [|done]. split; [|done]. constructor; cbn; try apply Hv.
  intros j m' [_ Hj]%lookup_delete_Some. by eapply mt_drive.
Qed.

Lemma fine_assign l m : m_covered m = None -> fine (assign l m).
Proof.
  intros Hm v Hv. unfold assign, cmd_bind, cmd_res. destruct (letter_index l) as [i| |]; [|done|done].
  destruct (v_drives v !! i) as [m'|] eqn:E; [done|]. split; [|done]. constructor; cbn; try apply Hv.
  intros j m' [[_ <-]|[_ Hj]]%lookup_insert_Some; [done|]. by eapply mt_drive.
Qed.

Lemma fine_or_else {A} (m : cm A) h : fine m -> (forall e, fine (h e)) -> fine (or_else m h).
Proof.
  intros Hm Hh v Hv. unfold or_else. destruct (Hm v Hv) as [Hv1 _]. destruct (m v) as [v1 [a|e|]]; [done|by apply Hh|done].
Qed.

Lemma fine_ignore m : fine m -> fine (ignore m).
Proof. intros Hm v Hv. unfold ignore. destruct (Hm v Hv) as [Hv1 _]. by destruct (m v) as [v1 [a|e|]]. Qed.

Lemma collect_subset fuel roots : forall m : gmap nat ent, collect fuel roots m ⊆ m.
Proof.
  induction fuel as [|fuel IH]; intros m; cbn [collect]; [done|]. destruct (_ =? _)%nat; [done|]. etrans; [apply IH|]. apply map_filter_subseteq.
Qed.

Lemma fine_op {A} (m : cm A) : fine m -> fine (vfs_op m).
Proof.
  intros Hm v Hv. unfold vfs_op. destruct (Hm v Hv) as [Hv1 _]. destruct (m v) as [v1 r]. split; [|done].
  constructor; cbn; try apply Hv1. intros d e He. eapply mt_dentry; [exact Hv1|]. by eapply lookup_weaken; [|apply collect_subset].
Qed.
End Facts.

#[export] Hint Resolve fine_ret fine_res fine_err fine_or_ fine_get fine_fs fine_dentry fine_upgrade fine_new_inode fine_insert_child
  fine_remove_child fine_dcache_lookup fine_dcache_insert fine_dcache_evict fine_by_id fine_lookup fine_remove : bedrock.

(** Go through an operation step by step. *)
Ltac fine_step :=
  first
  [ solve [auto with bedrock]
  | lazymatch goal with
    | |- fine (cmd_bind (dentry _) _) => apply fine_dentry_bind; intros ? ?
    | |- fine (cmd_bind (drive_lookup _) _) => apply fine_lookup_bind; intros ? ?
    | |- fine (cmd_bind _ _) => apply fine_bind; [|intros ?]
    | |- fine (upd_dentry _ _) => apply fine_upd; done
    | |- fine (new_dentry _) => apply fine_new; done
    | |- fine (assign _ _) => apply fine_assign; done
    | |- fine (or_else _ _) => apply fine_or_else; [|intros ?]
    | |- fine (ignore _) => apply fine_ignore
    | |- fine (vfs_op _) => apply fine_op
    | |- fine (match ?x with _ => _ end) => destruct x
    | |- fine (when_ ?b _) => unfold when_; destruct b
    | |- fine (let _ := _ in _) => cbv zeta
    end ].
Ltac fines := repeat fine_step.

Section Ops.
Context {F I Sb Dev : Type} `{!FileSystems F I Sb Dev} `{!EqDecision Sb} `{Profile}.

Notation vfs := (Vfs (F := F) (I := I) (Sb := Sb)).
Notation cm := (cmdv (F := F) (I := I) (Sb := Sb)).

Lemma fine_inode d : fine (F := F) (Sb := Sb) (inode_of (I := I) d).
Proof. unfold inode_of. fines. Qed.
Hint Resolve fine_inode : bedrock.

Lemma fine_cross d : fine (F := F) (I := I) (Sb := Sb) (attempt_mount_cross d).
Proof. unfold attempt_mount_cross. fines. Qed.
Hint Resolve fine_cross : bedrock.

Lemma fine_up d : fine (F := F) (I := I) (Sb := Sb) (walk_up d).
Proof. unfold walk_up. fines. Qed.
Hint Resolve fine_up : bedrock.

Lemma fine_down d n : fine (walk_down (Dev := Dev) d n : cm nat).
Proof. unfold walk_down. fines. Qed.
Hint Resolve fine_down : bedrock.

Lemma fine_link d t : fine (link_base d t : cm _).
Proof. unfold link_base. fines. Qed.
Hint Resolve fine_link : bedrock.

Lemma fine_walk_inner links : forall comps d, fine (walk_inner (Dev := Dev) links comps d : cm nat).
Proof.
  induction links as [|links IHl]; intros comps; induction comps as [|name rest IH]; intros d; cbn [walk_inner]; fines.
Qed.

Lemma fine_walk d comps : fine (walk_from (Dev := Dev) d comps : cm nat).
Proof. apply fine_walk_inner. Qed.
Hint Resolve fine_walk : bedrock.

Lemma fine_resolve path : fine (resolve_path (Dev := Dev) path : cm _).
Proof. unfold resolve_path. fines. Qed.
Hint Resolve fine_resolve : bedrock.

Lemma fine_resolve_parent path : fine (resolve_parent (Dev := Dev) path : cm _).
Proof. unfold resolve_parent. fines. Qed.
Hint Resolve fine_resolve_parent : bedrock.

(** A root gets its identifier before anything can see it. *)
Lemma fine_root {B} e (k : nat -> Z -> cm B) : (forall d mid, fine (k d mid)) ->
  fine (cmd_bind (new_dentry e) (fun d => cmd_bind next_mount_id (fun mid => cmd_bind (upd_dentry d (set_mount_id mid)) (fun _ => k d mid)))).
Proof.
  intros Hk v Hv. unfold cmd_bind at 1, new_dentry. unfold cmd_bind at 1, next_mount_id. unfold cmd_bind at 1, upd_dentry. apply Hk.
  set (mid := if v_next_mount_id _ =? 0 then 1 else _). assert (mid <> 0) as Hmid by (unfold mid; cbn [v_next_mount_id]; by destruct (Z.eqb_spec (v_next_mount_id v) 0)).
  constructor; cbn [set_dentries v_dentries v_drives v_next_mount_id]; try apply Hv.
  - intros d' e' He. destruct (decide (v_next v = d')) as [<-|Hne].
    + rewrite lookup_alter_eq, lookup_insert_eq in He. by injection He as <-.
    + rewrite lookup_alter_ne, lookup_insert_ne in He by done. by eapply mt_dentry.
  - match goal with |- (if ?n =? 0 then _ else _) <> 0 => destruct (Z.eqb_spec n 0); lia end.
Qed.

Lemma fine_mount t dev l : fine (mount t dev l : cm _).
Proof. unfold mount, mount_. apply fine_op. fine_step; [fines|]. fine_step; [fines|]. fine_step; [fines|]. apply fine_root. intros d mid. fines. Qed.

Lemma fine_mount_virtual src l : fine (mount_virtual (Dev := Dev) src l : cm _).
Proof. unfold mount_virtual. apply fine_op. fine_step; [fines|]. fine_step; [fines|]. fine_step. apply fine_root. intros d mid. fines. Qed.

(** What [mount_at] does before it mounts: it never gets further. *)
Lemma mount_at_none t dev path l : gives (mount_at t dev path l : cm _) (fun _ => False).
Proof.
  assert (forall m : cm unit, gives m (fun _ => False) -> gives (vfs_op m) (fun _ => False)) as Hop.
  { intros m Hm v Hv. split; [apply (fine_op m); [by eapply gives_fine|done]|]. destruct (Hm v Hv) as [_ Ha]. unfold vfs_op. by destruct (m v). }
  apply Hop. eapply v_gives_bind; [apply fine_resolve|]. intros lt _. eapply v_gives_bind; [apply fine_inode|]. intros i _.
  destruct (negb _); [intros v Hv; by split|].
  eapply v_gives_bind; [apply gives_dentry|]. intros te Hte. rewrite (proj2 (Z.eqb_neq _ _) Hte). cbn [negb]. intros v Hv. by split.
Qed.

Lemma fine_sync_drive l : fine (sync_drive (Dev := Dev) l : cm _).
Proof. unfold sync_drive. fines. Qed.
Hint Resolve fine_sync_drive : bedrock.

(** The upgrade of the covered entry: there is none. *)
Lemma fine_unmount l : fine (unmount (Dev := Dev) l : cm _).
Proof.
  unfold unmount. fine_step. fine_step; [fines|]. fine_step; [fines|]. fine_step; [fines|]. fine_step. fine_step; [fines|].
  match goal with Hc : m_covered _ = None |- _ => rewrite Hc end. intros v Hv. unfold cmd_bind at 1, upgrade_. revert v Hv. change (fine (cmd_bind (cmd_ret (S := vfs) tt) (fun _ => cmd_bind (drive_remove l) (fun _ => cmd_ret tt)))). fines.
Qed.

Lemma fine_attach d n k i : fine (attach d n k i : cm _).
Proof. unfold attach. fines. Qed.
Hint Resolve fine_attach : bedrock.

Lemma fine_follow links : forall parent d i, fine (follow_leaf (Dev := Dev) links parent d i : cm _).
Proof. induction links; intros; cbn [follow_leaf]; fines. Qed.
Hint Resolve fine_follow : bedrock.

Lemma fine_resolve_inode path flags : fine (resolve_inode (Dev := Dev) path flags : cm _).
Proof. unfold resolve_inode, leaf_lookup, leaf_create. cbv zeta. fines. Qed.
Hint Resolve fine_resolve_inode : bedrock.

Lemma fine_detach d k : fine (detach (Dev := Dev) d k : cm _).
Proof.
  unfold detach. fines. intros v Hv. split; [|done]. by apply (mounted_ext v).
Qed.
Hint Resolve fine_detach : bedrock.

Lemma fine_rename o n : fine (rename (Dev := Dev) o n : cm _).
Proof. unfold rename, rename_same, rename_other, moved_dir. fines. Qed.

Lemma fine_unlink path : fine (unlink (Dev := Dev) path : cm _).
Proof. unfold unlink, child_type. fines. Qed.

Lemma fine_sync_each l : forall seen, fine (sync_each (Dev := Dev) seen l : cm _).
Proof. induction l; intros seen; cbn [sync_each]; fines. Qed.

Lemma fine_getcwd : fine (getcwd : cm _).
Proof. unfold getcwd. fines. apply fine_same. intros v. by case_match. Qed.

Lemma fine_chdir path : fine (chdir (Dev := Dev) path : cm _).
Proof. unfold chdir. fines. intros v Hv. split; [|done]. by apply (mounted_ext v). Qed.

(** ** The states that calls bring about *)

Inductive v_op :=
  | VMount (fstype : name_t) (device : option Dev) (drive : Z)
  | VMountVirtual (source : list Z) (drive : Z)
  | VMountAt (fstype : name_t) (device : option Dev) (target : list Z) (drive : Z)
  | VUnmount (drive : Z)
  | VChdir (path : list Z)
  | VRead (path : list Z) (offset len : Z)
  | VWrite (path : list Z) (offset : Z) (buf : list Z) (flags : Z)
  | VTruncate (path : list Z) (len : Z)
  | VStat (path : list Z)
  | VStatfs (path : list Z)
  | VMkdir (path : list Z)
  | VRmdir (path : list Z)
  | VReaddir (path : list Z)
  | VUnlink (path : list Z)
  | VRename (old new : list Z)
  | VSyncAll.

Definition silent {A} (m : cm A) : cm unit := do! _ := m in cmd_ret tt.

Definition v_act (o : v_op) : cm unit :=
  match o with
  | VMount t dev l => mount t dev l
  | VMountVirtual src l => mount_virtual src l
  | VMountAt t dev path l => mount_at t dev path l
  | VUnmount l => unmount l
  | VChdir path => chdir path
  | VRead path offset len => silent (pread path offset len)
  | VWrite path offset buf flags => silent (pwrite path offset buf flags)
  | VTruncate path len => truncate path len
  | VStat path => silent (stat path)
  | VStatfs path => silent (statfs path)
  | VMkdir path => mkdir path
  | VRmdir path => rmdir path
  | VReaddir path => silent (readdir path)
  | VUnlink path => unlink path
  | VRename o n => rename o n
  | VSyncAll => sync_all
  end.

Lemma fine_act o : fine (v_act o).
Proof.
  destruct o; cbn [v_act]; unfold silent; [apply fine_mount|apply fine_mount_virtual|eapply gives_fine, mount_at_none|apply fine_unmount|apply fine_chdir|..].
  - unfold pread. fines.
  - unfold pwrite, pwrite_. cbv zeta. fines.
  - unfold truncate. fines.
  - unfold stat. fines.
  - unfold statfs. fines.
  - unfold mkdir, mkdir_. fines.
  - unfold rmdir. fines.
  - unfold readdir. fines.
  - apply fine_unlink.
  - apply fine_rename.
  - unfold sync_all. fine_step; [fines|]. apply fine_sync_each.
Qed.

(** From an empty system on any file systems. *)
Inductive v_reached : vfs -> Prop :=
  | v_start fs : v_reached (vfs0 fs)
  | v_step v o : v_reached v -> v_reached (v_act o v).1.

Lemma reached_mounted v : v_reached v -> mounted v.
Proof. induction 1 as [fs|v o _ IH]; [by constructor|]. by apply (fine_act o). Qed.

(** [mount_at] asks for a directory whose mount identifier is 0.  Every entry
    inherits the identifier of its drive, which is not 0: the call always fails. *)
Theorem mount_at_never v t dev path l : v_reached v -> (mount_at t dev path l v).2 <> Ok tt.
Proof. intros Hv E. by destruct (mount_at_none t dev path l v (reached_mounted v Hv)) as [_ Hf]; apply (Hf tt). Qed.
End Ops.
