(* ===== verification/VfsSpec.v ===== *)
(** * The walk refines lookups in the file systems

    A path means what the file systems answer: one lookup per component, links
    replaced by their targets.  [spec_walk] says so without entries or caches.
    While the entries agree with the file systems and inode numbers are unique,
    the walk through the entries, their children and the global cache gives the
    same answers, and leaves the entries in agreement. *)

From S2P Require Import Prelude Errors Fat32 FatFile FatNode Tmpfs Vfs.
Import Errors.Vfs.
Local Open Scope Z_scope.

Section Spec.
Context {F I Sb Dev : Type} `{!FileSystems F I Sb Dev} `{!EqDecision Sb} `{Profile}.

Notation vfs := (Vfs (F := F) (I := I) (Sb := Sb)).
Notation cm := (cmdv (F := F) (I := I) (Sb := Sb)).
Notation ent := (Dentry (I := I)).

(** ** What the file systems answer *)

Definition answer (fs : F) (i : I) (name : name_t) : res VfsError I := (i_lookup i name fs).2.
Definition target_of (fs : F) (i : I) : res VfsError (list Z) := (i_readlink i fs).2.

Definition same_tree (fs fs' : F) : Prop :=
  (forall i n, answer fs' i n = answer fs i n) /\ (forall i, target_of fs' i = target_of fs i) /\
  (forall i, i_type fs' i = i_type fs i) /\ (forall i, i_ino fs' i = i_ino fs i).

(** A position: the inodes from here up to the root of the drive. *)
Definition spec_up (st : list I) : list I := match st with _ :: (_ :: _) as up => up | _ => st end.

Section Walk.
Context (fs : F) (root : Z -> res VfsError I).

Definition spec_base (st : list I) (target : list Z) : res VfsError (list I * list name_t) :=
  match split_drive_path target with
  | Ok (letter, inner) => let? r := root letter in Ok ([r], split_components inner)
  | _ =>
      if bool_decide (head target = Some SLASH) then Ok (option_list (last st), split_components (trim_slashes target))
      else Ok (tail st, split_components target)
  end.

Fixpoint spec_walk (links : nat) : list name_t -> list I -> res VfsError (list I) :=
  fix go (components : list name_t) (st : list I) : res VfsError (list I) :=
    match components with
    | [] => Ok st
    | name :: rest =>
        if bool_decide (name = DOT) || bool_decide (name = []) then go rest st
        else if bool_decide (name = DOTDOT) then go rest (spec_up st)
        else
          let? i := match st with i :: _ => answer fs i name | [] => Err NotFound end in
          if bool_decide (i_type fs i = Symlink) then
            match links with
            | O => Err Loop
            | S links =>
                let? target := target_of fs i in
                if bool_decide (target = []) then Err Loop
                else let? bt := spec_base (i :: st) target in spec_walk links (bt.2 ++ rest) bt.1
            end
          else go rest (i :: st)
    end.
End Walk.

(** The root of a drive. *)
Definition root_of (v : vfs) (letter : Z) : res VfsError I :=
  let? idx := letter_index letter in
  match v_drives v !! idx with
  | Some m => match v_dentries v !! m_root m ≫= d_inode with Some i => Ok (n_ops i) | None => Err NotFound end
  | None => Err NotFound
  end.

(** ** Agreement *)

(** The entry [d] is at a position. *)
Inductive at_pos (m : gmap nat ent) : nat -> list I -> Prop :=
  | at_root d e i : m !! d = Some e -> d_inode e = Some i -> d_parent e = None -> at_pos m d [n_ops i]
  | at_child d e i p st : m !! d = Some e -> d_inode e = Some i -> d_parent e = Some p -> at_pos m p st -> at_pos m d (n_ops i :: st).

(** On the inodes of [R] inode numbers are unique: a number is found under one name
    of one directory, and never at a root. *)
Record tree (fs : F) (R : I -> Prop) (roots : I -> Prop) : Prop := {
  tr_closed i n j : R i -> answer fs i n = Ok j -> R j;
  tr_unique i n j i' n' j' : R i -> R i' -> answer fs i n = Ok j -> answer fs i' n' = Ok j' -> i_ino fs j = i_ino fs j' ->
    i_ino fs i = i_ino fs i' /\ i_canonical i n = i_canonical i' n';
  tr_root i n j r : R i -> roots r -> answer fs i n = Ok j -> i_ino fs j <> i_ino fs r
}.

Definition child_ok (fs : F) (m : gmap nat ent) (d : nat) (e : ent) (k : name_t) (c : nat) : Prop :=
  exists ce ci i, m !! c = Some ce /\ d_parent ce = Some d /\ d_inode ce = Some ci /\ d_inode e = Some i /\
    d_mount_point ce = false /\ (exists name, i_canonical (n_ops i) name = k) /\
    forall name, i_canonical (n_ops i) name = k -> answer fs (n_ops i) name = Ok (n_ops ci).

Record coherent (R : I -> Prop) (v : vfs) : Prop := {
  co_inode d e i : v_dentries v !! d = Some e -> d_inode e = Some i ->
    n_ino i = i_ino (v_fs v) (n_ops i) /\ n_type i = i_type (v_fs v) (n_ops i) /\ R (n_ops i);
  co_child d e k c : v_dentries v !! d = Some e -> d_children e !! k = Some c -> child_ok (v_fs v) (v_dentries v) d e k c;
  co_parent d e p : v_dentries v !! d = Some e -> d_parent e = Some p -> exists pe k, v_dentries v !! p = Some pe /\
    d_children pe !! k = Some d /\ d_mount_id e = d_mount_id pe;
  co_root d e : v_dentries v !! d = Some e -> d_parent e = None ->
    d_mount_id e <> 0 /\ exists l m, v_by_id v !! d_mount_id e = Some (l, m) /\ m_root m = d;
  co_drive i m : v_drives v !! i = Some m -> m_covered m = None /\
    exists e n, v_dentries v !! m_root m = Some e /\ d_inode e = Some n /\ d_parent e = None;
  co_dcache ino k c : v_dcache v !! (ino, k) = Some c -> is_Some (v_dentries v !! c) ->
    exists p e n, v_dentries v !! p = Some e /\ d_inode e = Some n /\ n_ino n = ino /\ d_children e !! k = Some c;
  co_ino d e i d' e' i' : v_dentries v !! d = Some e -> v_dentries v !! d' = Some e' -> d_inode e = Some i -> d_inode e' = Some i' ->
    n_ino i = n_ino i' -> d = d';
  co_fresh d : (v_next v <= d)%nat -> v_dentries v !! d = None;
  co_dfresh k c : v_dcache v !! k = Some c -> (c < v_next v)%nat;
  co_tree : tree (v_fs v) R (fun r => exists d e i, v_dentries v !! d = Some e /\ d_inode e = Some i /\ d_parent e = None /\ n_ops i = r)
}.

(** [v'] is [v] with more entries. *)
Record extends (v v' : vfs) : Prop := {
  ex_fs : same_tree (v_fs v) (v_fs v');
  ex_drives : v_drives v' = v_drives v;
  ex_by_id : v_by_id v' = v_by_id v;
  ex_cwd : v_cwd v' = v_cwd v;
  ex_pos d st : at_pos (v_dentries v) d st -> at_pos (v_dentries v') d st
}.
End Spec.

(** What the walk relies on of a file system: answering lookups and reading links
    does not change its answers, and they depend on names as far as the canonical
    form does. *)
Class NameLaws (F I Sb Dev : Type) `{!FileSystems F I Sb Dev} := {
  lookup_keeps fs i n : same_tree fs (i_lookup i n fs).1;
  readlink_keeps fs i : same_tree fs (i_readlink i fs).1;
  answer_canonical fs i n n' : i_canonical i n = i_canonical i n' -> answer fs i n = answer fs i n'
}.

Section Proofs.
Context {F I Sb Dev : Type} `{!FileSystems F I Sb Dev} `{!EqDecision Sb} `{Profile} `{!NameLaws F I Sb Dev}.

Notation vfs := (Vfs (F := F) (I := I) (Sb := Sb)).
Notation cm := (cmdv (F := F) (I := I) (Sb := Sb)).
Notation ent := (Dentry (I := I)).

Lemma same_tree_refl fs : same_tree fs fs.
Proof. by split_and!. Qed.

Lemma same_tree_trans fs1 fs2 fs3 : same_tree fs1 fs2 -> same_tree fs2 fs3 -> same_tree fs1 fs3.
Proof. intros (A1 & B1 & C1 & D1) (A2 & B2 & C2 & D2). split_and!; intros; by rewrite ?A2, ?B2, ?C2, ?D2. Qed.

Lemma extends_refl (v : vfs) : extends v v.
Proof. constructor; auto using same_tree_refl. Qed.

Lemma extends_trans (v1 v2 v3 : vfs) : extends v1 v2 -> extends v2 v3 -> extends v1 v3.
Proof.
  intros E1 E2. constructor; [by eapply same_tree_trans; [apply E1|apply E2]|rewrite (ex_drives _ _ E2); apply E1|rewrite (ex_by_id _ _ E2); apply E1
  |rewrite (ex_cwd _ _ E2); apply E1|]. intros d st Hp. by apply E2, E1.
Qed.

Lemma spec_walk_cons (fs : F) (root : Z -> res VfsError I) links name rest st : spec_walk fs root links (name :: rest) st =
  if bool_decide (name = DOT) || bool_decide (name = []) then spec_walk fs root links rest st
  else if bool_decide (name = DOTDOT) then spec_walk fs root links rest (spec_up st)
  else
    let? i := match st with i :: _ => answer fs i name | [] => Err NotFound end in
    if bool_decide (i_type fs i = Symlink) then
      match links with
      | O => Err Loop
      | S links =>
          let? target := target_of fs i in
          if bool_decide (target = []) then Err Loop
          else let? bt := spec_base root (i :: st) target in spec_walk fs root links (bt.2 ++ rest) bt.1
      end
    else spec_walk fs root links rest (i :: st).
Proof. by destruct links. Qed.

Lemma spec_walk_nil (fs : F) (root : Z -> res VfsError I) links st : spec_walk fs root links [] st = Ok st.
Proof. by destruct links. Qed.

#[local] Opaque spec_walk.

Lemma spec_base_ext (root root' : Z -> res VfsError I) st t : (forall l, root' l = root l) -> spec_base root' st t = spec_base root st t.
Proof. intros Hr. unfold spec_base. destruct (split_drive_path t) as [[l inner]| |]; [|done|done]. by rewrite Hr. Qed.

Lemma spec_walk_ext fs fs' root root' links : same_tree fs fs' -> (forall l, root' l = root l) ->
  forall comps st, spec_walk fs' root' links comps st = spec_walk fs root links comps st.
Proof.
  intros (A & B & C & _) Hr. induction links as [|links IHl]; intros comps; (induction comps as [|name rest IH]; intros st; [by rewrite !spec_walk_nil|]);
    rewrite !spec_walk_cons, !IH; (destruct (_ || _); [done|]); (destruct (bool_decide (name = DOTDOT)); [done|]); (destruct st as [|i st]; [done|]);
    rewrite A; (destruct (answer fs i name) as [j| |]; [|done|done]); cbn [res_bind]; rewrite C, IH.
  - done.
  - destruct (bool_decide (i_type fs j = Symlink)); [|done].
    rewrite B. destruct (target_of fs j) as [t| |]; [|done|done]. cbn [res_bind].
    destruct (bool_decide (t = [])); [done|]. rewrite (spec_base_ext root root') by done.
    destruct (spec_base root _ t) as [bt| |]; [|done|done]. cbn [res_bind]. apply IHl.
Qed.

(** Another state of the file systems that answers alike. *)
Lemma coherent_fs R (v : vfs) fs' : same_tree (v_fs v) fs' -> coherent R v -> coherent R (set_fs v fs').
Proof.
  intros (A & B & C & D) Hc. constructor; cbn [set_fs v_fs v_dentries v_next v_drives v_by_id v_dcache]; try apply Hc.
  - intros d e i He Hi. rewrite C, D. by eapply co_inode.
  - intros d e k c He Hk. destruct (co_child R v Hc d e k c He Hk) as (ce & ci & i & H1 & H2 & H3 & H4 & H5 & H6 & H7).
    exists ce, ci, i. split_and!; [done..|]. intros name Hn. rewrite A. by apply H7.
  - pose proof (co_tree R v Hc) as T. constructor.
    + intros i n j Hi. rewrite A. by apply T.
    + intros i n j i' n' j'. rewrite !A, !D. apply T.
    + intros i n j r. rewrite !A, !D. apply T.
Qed.

Lemma extends_fs (v : vfs) fs' : same_tree (v_fs v) fs' -> extends v (set_fs v fs').
Proof. by constructor. Qed.

Lemma at_pos_inv (m : gmap nat ent) d st : at_pos m d st -> exists e i, m !! d = Some e /\ d_inode e = Some i /\ head st = Some (n_ops i) /\
  ((d_parent e = None /\ st = [n_ops i]) \/ exists p st', d_parent e = Some p /\ st = n_ops i :: st' /\ at_pos m p st').
Proof. intros [d' e i He Hi Hp|d' e i p st' He Hi Hp Hst]; exists e, i; split_and!; eauto 7. Qed.

(** *** A new entry *)

Section New.
Context (R : I -> Prop) (v : vfs) (Hc : coherent R v) (d : nat) (e : ent) (i : Inode (I := I)) (name : name_t) (j : I).
Context (He : v_dentries v !! d = Some e) (Hi : d_inode e = Some i) (Hans : answer (v_fs v) (n_ops i) name = Ok j).
Context (Hnone : d_children e !! i_canonical (n_ops i) name = None).

Let k := i_canonical (n_ops i) name.
Let c := v_next v.
Let ci := mkInode j (i_ino (v_fs v) j) (i_type (v_fs v) j).
Let ce : ent := mkDentry name (Some ci) (Some d) ∅ false (d_mount_id e).
Let e' : ent := set_kids (<[k := c]> (d_children e)) e.
Let m' := <[d := e']> (<[c := ce]> (v_dentries v)).

Lemma new_fresh : v_dentries v !! c = None.
Proof using Hc. by eapply co_fresh. Qed.

Lemma new_ne : d <> c.
Proof using Hc He. intros E. rewrite E, new_fresh in He. done. Qed.

(** The entries afterwards: the new one, the directory with one more child, and the
    others. *)
Lemma new_lookup x e1 : m' !! x = Some e1 -> (x = c /\ e1 = ce) \/ (x = d /\ e1 = e') \/ (x <> c /\ x <> d /\ v_dentries v !! x = Some e1).
Proof using Hc He.
  unfold m'. intros [[<- <-]|[Hne [[<- <-]|[Hne2 Hx]]%lookup_insert_Some]]%lookup_insert_Some; auto.
Qed.

Lemma new_old x e1 : v_dentries v !! x = Some e1 -> exists e2, m' !! x = Some e2 /\ d_inode e2 = d_inode e1 /\ d_parent e2 = d_parent e1 /\
  d_mount_point e2 = d_mount_point e1 /\ d_mount_id e2 = d_mount_id e1 /\ (forall k' c', d_children e1 !! k' = Some c' -> d_children e2 !! k' = Some c').
Proof using Hc He Hnone.
  intros Hx. unfold m'. destruct (decide (x = d)) as [->|Hxd].
  - rewrite lookup_insert_eq. assert (e1 = e) as -> by congruence. exists e'. split_and!; try done. intros k' c' Hk. unfold e'. cbn [set_kids d_children].
    destruct (decide (k = k')) as [<-|]; [unfold k in Hk; congruence|]. by rewrite lookup_insert_ne.
  - assert (x <> c) by (intros ->; rewrite new_fresh in Hx; done). rewrite !lookup_insert_ne by done. by exists e1.
Qed.

Lemma new_pos x st : at_pos (v_dentries v) x st -> at_pos m' x st.
Proof using Hc He Hnone.
  induction 1 as [x e1 i1 Hx Hi1 Hp|x e1 i1 p st Hx Hi1 Hp Hst IH]; destruct (new_old x e1 Hx) as (e2 & H1 & H2 & H3 & _).
  - eapply at_root; [done| |]; congruence.
  - eapply at_child; [done| | |exact IH]; congruence.
Qed.

(** Every entry afterwards is an old one or the new one, as far as inodes and
    parents go. *)
Lemma new_cases x e1 : m' !! x = Some e1 -> (x = c /\ e1 = ce) \/
  exists e0, v_dentries v !! x = Some e0 /\ d_inode e1 = d_inode e0 /\ d_parent e1 = d_parent e0 /\ d_mount_id e1 = d_mount_id e0 /\
    (forall k' c', d_children e1 !! k' = Some c' -> d_children e0 !! k' = Some c' \/ (x = d /\ k' = k /\ c' = c)).
Proof using Hc He.
  intros Hx. destruct (new_lookup x e1 Hx) as [?|[[-> ->]|(Hxc & Hxd & Ho)]]; [by left|right..].
  - exists e. split_and!; try done. intros k' c' Hk. unfold e' in Hk. cbn [set_kids d_children] in Hk.
    apply lookup_insert_Some in Hk as [[<- <-]|[_ Hk]]; auto.
  - exists e1. split_and!; auto.
Qed.

(** No entry has the number of the new inode. *)
Lemma new_ino x e1 i1 : v_dentries v !! x = Some e1 -> d_inode e1 = Some i1 -> n_ino i1 <> i_ino (v_fs v) j.
Proof using All.
  intros Hx Hi1 E. destruct (co_inode R v Hc x e1 i1 Hx Hi1) as (Ei & _ & Ri). destruct (co_inode R v Hc d e i He Hi) as (_ & _ & Rd).
  pose proof (co_tree R v Hc) as T. rewrite Ei in E. destruct (d_parent e1) as [p|] eqn:Ep.
  - destruct (co_parent R v Hc x e1 p Hx Ep) as (pe & k1 & Hp & Hk1 & _). destruct (co_child R v Hc p pe k1 x Hp Hk1) as (ce1 & ci1 & pi & G1 & _ & G3 & G4 & _ & [n1 G6] & G7).
    assert (ce1 = e1) as -> by congruence. assert (ci1 = i1) as -> by congruence. destruct (co_inode R v Hc p pe pi Hp G4) as (Epi & _ & Rp).
    destruct (tr_unique _ _ _ T (n_ops pi) n1 (n_ops i1) (n_ops i) name j Rp Rd (G7 n1 G6) Hans E) as [Eino Ecan].
    assert (p = d) as ->. { eapply (co_ino R v Hc); [exact Hp|exact He|exact G4|exact Hi|]. destruct (co_inode R v Hc d e i He Hi) as (-> & _). congruence. }
    assert (pe = e) as -> by congruence. assert (pi = i) as -> by congruence. rewrite <- G6, Ecan in Hk1. congruence.
  - eapply (tr_root _ _ _ T (n_ops i) name j (n_ops i1)); [done| |done|done]. eauto 10.
Qed.

(** The state after [walk_down] has made the entry. *)
Lemma coherent_new v' : v_fs v' = v_fs v -> v_dentries v' = m' -> v_next v' = S c -> v_drives v' = v_drives v -> v_by_id v' = v_by_id v ->
  (forall key x, v_dcache v' !! key = Some x -> v_dcache v !! key = Some x \/ (key = (n_ino i, k) /\ x = c)) -> coherent R v'.
Proof using All.
  intros Ef Em En Ed Eb Hdc. pose proof (co_inode R v Hc d e i He Hi) as (Eino & _ & Rd). pose proof (co_tree R v Hc) as T.
  assert (R j) as Rj by (by eapply (tr_closed _ _ _ T); [exact Rd|]).
  constructor; rewrite ?Ef, ?Em, ?En, ?Ed, ?Eb.
  - intros x e1 i1 Hx Hi1. destruct (new_cases x e1 Hx) as [[-> ->]|(e0 & H1 & H2 & _)].
    + cbn in Hi1. injection Hi1 as <-. done.
    + rewrite H2 in Hi1. by eapply co_inode.
  - intros x e1 k1 c1 Hx Hk1. destruct (new_cases x e1 Hx) as [[-> ->]|(e0 & H1 & H2 & H3 & _ & H4)]; [cbn in Hk1; by rewrite lookup_empty in Hk1|].
    destruct (H4 k1 c1 Hk1) as [Ho|(-> & -> & ->)].
    + destruct (co_child R v Hc x e0 k1 c1 H1 Ho) as (ce1 & ci1 & i1 & G1 & G2 & G3 & G4 & G5 & G6 & G7).
      destruct (new_old c1 ce1 G1) as (ce2 & J1 & J2 & J3 & J4 & _). exists ce2, ci1, i1. split_and!; try done; congruence.
    + assert (e0 = e) as -> by congruence. exists ce, ci, i. split_and!; try done; [|congruence|by exists name|].
      * unfold m'. rewrite lookup_insert_ne by apply new_ne. apply lookup_insert_eq.
      * intros n' Hn'. rewrite (answer_canonical _ _ n' name) by done. done.
  - intros x e1 p Hx Hp. destruct (new_cases x e1 Hx) as [[-> ->]|(e0 & H1 & H2 & H3 & H5 & H4)].
    + cbn in Hp. injection Hp as <-. exists e', k. split_and!; [unfold m'; apply lookup_insert_eq|unfold e'; apply lookup_insert_eq|done].
    + rewrite H3 in Hp. destruct (co_parent R v Hc x e0 p H1 Hp) as (pe & k1 & G1 & G2 & G3).
      destruct (new_old p pe G1) as (pe2 & J1 & _ & _ & _ & J5 & J6). exists pe2, k1. split_and!; [done|by apply J6|congruence].
  - intros x e1 Hx Hp. destruct (new_cases x e1 Hx) as [[-> ->]|(e0 & H1 & H2 & H3 & H5 & H4)]; [done|].
    rewrite H3 in Hp. rewrite H5. by apply (co_root R v Hc x e0).
  - intros x m Hm. destruct (co_drive R v Hc x m Hm) as (Hcov & e1 & n & G1 & G2 & G3). split; [done|].
    destruct (new_old _ e1 G1) as (e2 & J1 & J2 & J3 & _). exists e2, n. split_and!; [done|congruence|congruence].
  - intros ino k1 c1 Hk1 Hal. destruct (Hdc _ _ Hk1) as [Ho|[[= -> ->] ->]].
    + pose proof (co_dfresh R v Hc _ _ Ho) as Hlt. destruct Hal as [e1 Hal]. destruct (new_cases c1 e1 Hal) as [[-> _]|(e0 & H1 & _)]; [unfold c in Hlt; lia|].
      destruct (co_dcache R v Hc ino k1 c1 Ho ltac:(by eexists)) as (p & pe & n & G1 & G2 & G3 & G4).
      destruct (new_old p pe G1) as (e2 & J1 & J2 & _ & _ & _ & J6). exists p, e2, n. split_and!; [done|congruence|done|by apply J6].
    + exists d, e', i. split_and!; [unfold m'; apply lookup_insert_eq|done|done|unfold e'; apply lookup_insert_eq].
  - intros x e1 i1 y e2 i2 Hx Hy Hi1 Hi2 E. destruct (new_cases x e1 Hx) as [[-> ->]|(e0 & H1 & H2 & _)], (new_cases y e2 Hy) as [[-> ->]|(e0' & H1' & H2' & _)].
    + done.
    + cbn in Hi1. injection Hi1 as <-. rewrite H2' in Hi2. exfalso. by apply (new_ino y e0' i2 H1' Hi2).
    + cbn in Hi2. injection Hi2 as <-. rewrite H2 in Hi1. exfalso. by apply (new_ino x e0 i1 H1 Hi1).
    + rewrite H2 in Hi1. rewrite H2' in Hi2. by eapply (co_ino R v Hc x e0 i1 y e0' i2).
  - intros x Hx. unfold m'. rewrite !lookup_insert_None. split_and!; [apply (co_fresh R v Hc); unfold c in Hx; lia|lia|].
    intros <-. rewrite (co_fresh R v Hc d) in He; [done|unfold c in Hx; lia].
  - intros key x Hx. destruct (Hdc _ _ Hx) as [Ho|[_ ->]]; [|lia]. pose proof (co_dfresh R v Hc _ _ Ho). unfold c. lia.
  - constructor; [apply T|apply T|]. intros i1 n1 j1 r Hi1 (x & e1 & i2 & Hx & Hi2 & Hp & <-). apply (tr_root _ _ _ T); [done|].
    destruct (new_cases x e1 Hx) as [[-> ->]|(e0 & H1 & H2 & H3 & _)]; [done|]. exists x, e0, i2. split_and!; [done|congruence|congruence|done].
Qed.
End New.

(** ** The walk *)

(** [m] answers [r]: an entry at the position, or the same error. *)
Definition agrees (R : I -> Prop) (v : vfs) (m : cm nat) (r : res VfsError (list I)) : Prop :=
  exists v', coherent R v' /\ extends v v' /\
    match r with
    | Ok st => exists d, m v = (v', Ok d) /\ at_pos (v_dentries v') d st
    | Err e => m v = (v', Err e)
    | Panic => (m v).2 = Panic
    end.

Lemma dentry_eq (v : vfs) d e : v_dentries v !! d = Some e -> dentry d v = (v, Ok e).
Proof. intros He. unfold dentry. by rewrite He. Qed.

Lemma upgrade_live (v : vfs) d e : v_dentries v !! d = Some e -> upgrade_ (Some d) v = (v, Ok (Some d)).
Proof. intros He. unfold upgrade_. rewrite bool_decide_eq_true_2; [done|]. by eexists. Qed.

Lemma dcache_insert_cases (v : vfs) ino k c : exists v', dcache_insert ino k c v = (v', Ok tt) /\ v_fs v' = v_fs v /\ v_dentries v' = v_dentries v /\
  v_next v' = v_next v /\ v_drives v' = v_drives v /\ v_by_id v' = v_by_id v /\ v_cwd v' = v_cwd v /\
  forall key x, v_dcache v' !! key = Some x -> v_dcache v !! key = Some x \/ (key = (ino, k) /\ x = c).
Proof.
  eexists. split; [reflexivity|]. split_and!; try done. cbn [set_dcache v_dcache]. intros key x [[<- <-]|[_ Hx]]%lookup_insert_Some; [by right|left].
  destruct (DCACHE_MAX <=? _)%nat; [|done]. destruct (map_to_list _) as [|[k' x'] l]; [done|]. by apply lookup_delete_Some in Hx as [_ Hx].
Qed.

(** The state with the entry that [walk_down] makes. *)
Definition with_entry (v : vfs) (d : nat) (e : ent) (name k : name_t) (j : I) : vfs :=
  let ce := mkDentry name (Some (mkInode j (i_ino (v_fs v) j) (i_type (v_fs v) j))) (Some d) ∅ false (d_mount_id e) in
  let m := alter (fun e => set_kids (<[k := v_next v]> (d_children e)) e) d (<[v_next v := ce]> (v_dentries v)) in
  mkVfs (v_fs v) m (S (v_next v)) (v_drives v) (v_by_id v) (v_dcache v) (v_next_mount_id v) (v_cwd v).

Lemma walk_down_child (v : vfs) d e n name c : v_dentries v !! d = Some e -> d_inode e = Some n ->
  d_children e !! i_canonical (n_ops n) name = Some c -> walk_down d name v = (v, Ok c).
Proof. intros He Hn Hk. unfold walk_down, cmd_bind, canonical_child_key. rewrite (dentry_eq v d e He), Hn, Hk. done. Qed.

Lemma walk_down_miss (v : vfs) d e n name : v_dentries v !! d = Some e -> d_inode e = Some n ->
  let k := i_canonical (n_ops n) name in
  d_children e !! k = None -> dcache_lookup (n_ino n) k v = (v, Ok None) ->
  walk_down d name v =
    match i_lookup (n_ops n) name (v_fs v) with
    | (fs, Ok j) =>
        let v1 := with_entry (set_fs v fs) d e name k j in
        ((dcache_insert (n_ino n) k (v_next v) v1).1, Ok (v_next v))
    | (fs, Err er) => (set_fs v fs, Err er)
    | (fs, Panic) => (set_fs v fs, Panic)
    end.
Proof.
  intros He Hn k Hk Hd. unfold walk_down, cmd_bind, canonical_child_key, ino_or_0. rewrite (dentry_eq v d e He), Hn. fold k. rewrite Hk, Hd.
  unfold ok_or_, cmd_res, on_fs. destruct (i_lookup _ _ _) as [fs [j|er|]]; done.
Qed.

(** Under agreement the cache knows nothing that the children do not. *)
Lemma dcache_silent R (v : vfs) d e n k : coherent R v -> v_dentries v !! d = Some e -> d_inode e = Some n -> d_children e !! k = None ->
  dcache_lookup (n_ino n) k v = (v, Ok None).
Proof.
  intros Hc He Hn Ek. unfold dcache_lookup, upgrade_. destruct (v_dcache v !! (n_ino n, k)) as [c|] eqn:Ec; [|done].
  case_bool_decide as Hal; [|done]. exfalso. destruct (co_dcache R v Hc _ _ _ Ec Hal) as (p & pe & n' & G1 & G2 & G3 & G4).
  assert (p = d) as -> by (by eapply (co_ino R v Hc p pe n' d e n)). congruence.
Qed.

Lemma with_entry_ok R (v : vfs) d e n name j st v' : coherent R v -> v_dentries v !! d = Some e -> d_inode e = Some n ->
  let k := i_canonical (n_ops n) name in
  d_children e !! k = None -> answer (v_fs v) (n_ops n) name = Ok j -> at_pos (v_dentries v) d st ->
  dcache_insert (n_ino n) k (v_next v) (with_entry v d e name k j) = (v', Ok tt) ->
  coherent R v' /\ extends v v' /\ at_pos (v_dentries v') (v_next v) (j :: st) /\
  exists ce, v_dentries v' !! v_next v = Some ce /\ d_mount_point ce = false /\ is_Some (d_parent ce).
Proof.
  intros Hc He Hn k Ek Hans Hp E. destruct (dcache_insert_cases (with_entry v d e name k j) (n_ino n) k (v_next v)) as (v3 & E3 & F1 & F2 & F3 & F4 & F5 & F6 & F7).
  assert (v3 = v') as -> by congruence. set (c := v_next v) in *.
  set (ce := mkDentry name (Some (mkInode j (i_ino (v_fs v) j) (i_type (v_fs v) j))) (Some d) ∅ false (d_mount_id e)).
  assert (d <> c) as Hdc by (by eapply (new_ne R v Hc d e)).
  assert (v_dentries v' = <[d := set_kids (<[k := c]> (d_children e)) e]> (<[c := ce]> (v_dentries v))) as Em.
  { rewrite F2. cbn [with_entry v_dentries]. apply map_eq. intros x. destruct (decide (d = x)) as [<-|Hx].
    - rewrite lookup_alter_eq, lookup_insert_eq, lookup_insert_ne by done. by rewrite He.
    - by rewrite lookup_alter_ne, (lookup_insert_ne _ d x) by done. }
  assert (v_dentries v' !! c = Some ce) as Hce by (rewrite Em, lookup_insert_ne by done; apply lookup_insert_eq).
  assert (forall x st, at_pos (v_dentries v) x st -> at_pos (v_dentries v') x st) as Hpos.
  { intros x st' Hx. rewrite Em. by apply (new_pos R v Hc d e n name j He Ek). }
  split_and!; [by apply (coherent_new R v Hc d e n name j He Hn Hans Ek v')| | |exists ce; split_and!; [done|done|by eexists]].
  - constructor; [rewrite F1; apply same_tree_refl|by rewrite F4|by rewrite F5|by rewrite F6|exact Hpos].
  - change j with (n_ops (mkInode j (i_ino (v_fs v) j) (i_type (v_fs v) j))). eapply at_child; [exact Hce|done|done|by apply Hpos].
Qed.

Lemma walk_down_ok R v d st i name : coherent R v -> at_pos (v_dentries v) d (i :: st) ->
  agrees R v (walk_down d name) (let? j := answer (v_fs v) i name in Ok (j :: i :: st)) /\
  forall v' c, walk_down d name v = (v', Ok c) -> exists ce, v_dentries v' !! c = Some ce /\ d_mount_point ce = false /\ is_Some (d_parent ce).
Proof.
  intros Hc Hp. destruct (at_pos_inv _ d _ Hp) as (e & n & He & Hn & [= ->] & _). set (k := i_canonical (n_ops n) name).
  destruct (d_children e !! k) as [c|] eqn:Ek.
  { destruct (co_child R v Hc d e k c He Ek) as (ce & ci & n' & G1 & G2 & G3 & G4 & G5 & _ & G7). assert (n' = n) as -> by congruence.
    unfold agrees. rewrite (walk_down_child v d e n name c He Hn Ek), (G7 name eq_refl). cbn [res_bind]. split.
    - exists v. split_and!; [done|apply extends_refl|]. exists c. split; [done|]. by eapply at_child.
    - intros v' c' [= <- <-]. exists ce. split_and!; [done|done|by eexists]. }
  unfold agrees. rewrite (walk_down_miss v d e n name He Hn Ek (dcache_silent R v d e n k Hc He Hn Ek)). fold k.
  pose proof (lookup_keeps (v_fs v) (n_ops n) name) as Hk. unfold answer at 1.
  destruct (i_lookup (n_ops n) name (v_fs v)) as [fs' [j|er|]] eqn:El; cbn [fst snd res_bind] in *.
  2: { split; [|done]. exists (set_fs v fs'). split_and!; [by apply coherent_fs|by apply extends_fs|done]. }
  2: { split; [|done]. exists v. split_and!; [done|apply extends_refl|done]. }
  assert (answer fs' (n_ops n) name = Ok j) as Hans by (destruct Hk as [A _]; rewrite A; unfold answer; by rewrite El).
  cbv zeta. destruct (dcache_insert (n_ino n) k (v_next v) (with_entry (set_fs v fs') d e name k j)) as [v' r] eqn:Ed. assert (r = Ok tt) as -> by (by injection Ed).
  destruct (with_entry_ok R (set_fs v fs') d e n name j (n_ops n :: st) v' (coherent_fs R v fs' Hk Hc) He Hn Ek Hans Hp Ed) as (H1 & H2 & H3 & H4).
  split; [|by intros v2 c [= <- <-]]. exists v'. split_and!; [done|eapply extends_trans; [by apply extends_fs|exact H2]|]. by exists (v_next v).
Qed.

Lemma walk_up_ok R v d st : coherent R v -> at_pos (v_dentries v) d st -> exists p, walk_up d v = (v, Ok p) /\ at_pos (v_dentries v) p (spec_up st).
Proof.
  intros Hc Hp. unfold walk_up, cmd_bind. destruct (at_pos_inv _ d st Hp) as (e & n & He & Hn & _ & [[Ep ->]|(p & st' & Ep & -> & Hst)]); rewrite (dentry_eq v d e He), Ep.
  - cbn [upgrade_]. unfold get. set (o := List.find _ _). assert (o ≫= m_covered = None) as Ho.
    { unfold o. destruct (List.find _ _) as [m|] eqn:Ef; [|done]. apply find_some in Ef as [Hin _]. apply list_elem_of_In in Hin.
      unfold drive_iter in Hin. apply list_elem_of_omap in Hin as (x & _ & Hx). cbn. by destruct (co_drive R v Hc x m Hx) as [-> _]. }
    rewrite Ho. exists d. split; [done|exact Hp].
  - destruct (at_pos_inv _ p st' Hst) as (pe & n' & Hpe & _ & Hh & _). rewrite (upgrade_live v p pe Hpe). exists p. split; [done|].
    cbn [spec_up]. destruct st' as [|x st']; [done|]. done.
Qed.

(** The root of the drive an entry is on. *)
Lemma drive_root_ok R v d st : coherent R v -> at_pos (v_dentries v) d st -> forall e, v_dentries v !! d = Some e ->
  d_mount_id e <> 0 /\ exists l m i, v_by_id v !! d_mount_id e = Some (l, m) /\ last st = Some i /\ at_pos (v_dentries v) (m_root m) [i].
Proof.
  intros Hc. induction 1 as [d e0 i He Hi Hp|d e0 i p st He Hi Hp Hst IH]; intros e Hd; assert (e0 = e) as -> by congruence.
  - destruct (co_root R v Hc d e He Hp) as (H0 & l & m & Hb & <-). split; [done|]. exists l, m, (n_ops i). split_and!; [done|done|by eapply at_root].
  - destruct (co_parent R v Hc d e p He Hp) as (pe & k & Hpe & _ & ->). destruct (IH pe Hpe) as (H0 & l & m & r & Hb & Hl & Hr). split; [done|].
    exists l, m, r. split_and!; [done| |done]. destruct st; [done|]. done.
Qed.

Lemma drive_lookup_ok R v l : coherent R v ->
  match root_of v l with
  | Ok r => exists m, drive_lookup l v = (v, Ok m) /\ at_pos (v_dentries v) (m_root m) [r]
  | Err e => drive_lookup l v = (v, Err e)
  | Panic => False
  end.
Proof.
  intros Hc. unfold root_of, drive_lookup, cmd_bind, cmd_res, letter_index. destruct (_ || _); [done|]. cbn [res_bind]. unfold ok_or_, cmd_res.
  destruct (v_drives v !! _) as [m|] eqn:Em; [|done]. destruct (co_drive R v Hc _ m Em) as (_ & e & n & He & Hn & Hp). rewrite He. cbn. rewrite Hn.
  exists m. split; [done|]. by eapply at_root.
Qed.

Lemma link_base_ok R v d i st target : coherent R v -> at_pos (v_dentries v) d (i :: st) -> st <> [] -> target <> [] ->
  match spec_base (root_of v) (i :: st) target with
  | Ok bt => exists b, link_base d target v = (v, Ok (b, bt.2)) /\ at_pos (v_dentries v) b bt.1
  | Err e => link_base d target v = (v, Err e)
  | Panic => False
  end.
Proof.
  intros Hc Hp Hst Ht. destruct (at_pos_inv _ d _ Hp) as (e & n & He & Hn & _ & [[_ [= _ ->]]|(p & st' & Ep & [= _ <-] & Hst')]); [done|].
  unfold spec_base, link_base, cmd_bind. rewrite (dentry_eq v d e He). destruct (split_drive_path target) as [[l inner]| |] eqn:Es.
  - pose proof (drive_lookup_ok R v l Hc) as Hl. destruct (root_of v l) as [r|er|]; cbn [res_bind]; [|by rewrite Hl|done].
    destruct Hl as (m & -> & Hm). by exists (m_root m).
  - destruct (at_pos_inv _ p st Hst') as (pe & n' & Hpe & _). rewrite Ep, (upgrade_live v p pe Hpe). destruct target as [|c t]; [done|]. cbn [head].
    destruct (Z.eqb_spec c SLASH) as [->|Hne].
    + rewrite bool_decide_eq_true_2 by done. destruct (drive_root_ok R v d _ Hc Hp e He) as (H0 & l & m & r & Hb & Hl & Hr).
      rewrite (proj2 (Z.eqb_neq _ _) H0). unfold lookup_by_id, get. rewrite Hb. cbn [fst snd]. rewrite Hl. exists (m_root m). done.
    + rewrite bool_decide_eq_false_2 by congruence. by exists p.
  - exfalso. unfold split_drive_path in Es. repeat case_match; done.
Qed.

Lemma walk_inner_cons links name rest d : walk_inner links (name :: rest) d = (
  if bool_decide (name = DOT) || bool_decide (name = []) then walk_inner links rest d
  else if bool_decide (name = DOTDOT) then do! p := walk_up d in walk_inner links rest p
  else
    do! child := walk_down d name in
    do! current := attempt_mount_cross child in
    do! e := dentry current in
    match d_inode e with
    | Some i =>
        if bool_decide (n_type i = Symlink) then
          match links with
          | O => err Loop
          | S links =>
              do! target := on_fs (i_readlink (n_ops i)) in
              if bool_decide (target = []) then err Loop
              else do! bt := link_base current target in walk_inner links (bt.2 ++ rest) bt.1
          end
        else walk_inner links rest current
    | None => walk_inner links rest current
    end : cm nat).
Proof. by destruct links. Qed.

Lemma walk_inner_nil links d : walk_inner links [] d = (cmd_ret d : cm nat).
Proof. by destruct links. Qed.

Lemma root_of_ext R v v' l : coherent R v -> coherent R v' -> extends v v' -> root_of v' l = root_of v l.
Proof.
  intros Hc Hc' Hx. unfold root_of. destruct (letter_index l) as [i| |]; [|done|done]. cbn [res_bind]. rewrite (ex_drives _ _ Hx).
  destruct (v_drives v !! i) as [m|] eqn:Em; [|done]. destruct (co_drive R v Hc i m Em) as (_ & e & n & He & Hn & Hp).
  pose proof (ex_pos _ _ Hx _ _ (at_root _ _ _ _ He Hn Hp)) as Hp'. destruct (at_pos_inv _ _ _ Hp') as (e' & n' & He' & Hn' & [= E] & _).
  rewrite He, He'. cbn. by rewrite Hn, Hn', E.
Qed.

(** The rest of a walk in a later state. *)
Lemma agrees_after R v v1 (m m1 : cm nat) fs root links comps st : m v = m1 v1 -> coherent R v -> coherent R v1 -> extends v v1 ->
  fs = v_fs v -> root = root_of v ->
  agrees R v1 m1 (spec_walk (v_fs v1) (root_of v1) links comps st) -> agrees R v m (spec_walk fs root links comps st).
Proof.
  intros E Hc Hc1 Hx -> -> (v2 & H1 & H2 & H3).
  rewrite (spec_walk_ext (v_fs v) (v_fs v1) (root_of v) (root_of v1)) in H3 by (apply Hx || (intros l; by apply (root_of_ext R))).
  exists v2. rewrite E. split_and!; [done|by eapply extends_trans|done].
Qed.

Lemma cross_plain (v : vfs) c ce : v_dentries v !! c = Some ce -> d_mount_point ce = false -> attempt_mount_cross c v = (v, Ok c).
Proof. intros Hc Hm. unfold attempt_mount_cross, cmd_bind. by rewrite (dentry_eq v c ce Hc), Hm. Qed.

#[local] Opaque walk_inner.

(** A symbolic link at [c] is replaced by its target. *)
Lemma walk_link_ok R v c j st rest links : coherent R v -> at_pos (v_dentries v) c (j :: st) -> st <> [] ->
  (forall comps v d st, coherent R v -> at_pos (v_dentries v) d st ->
    agrees R v (walk_inner links comps d) (spec_walk (v_fs v) (root_of v) links comps st)) ->
  agrees R v (do! target := on_fs (i_readlink j) in
              if bool_decide (target = []) then err Loop
              else do! bt := link_base c target in walk_inner links (bt.2 ++ rest) bt.1)
    (let? target := target_of (v_fs v) j in
     if bool_decide (target = []) then Err Loop
     else let? bt := spec_base (root_of v) (j :: st) target in spec_walk (v_fs v) (root_of v) links (bt.2 ++ rest) bt.1).
Proof.
  intros Hc Hp Hst IH. unfold target_of. pose proof (readlink_keeps (v_fs v) j) as Hk.
  destruct (i_readlink j (v_fs v)) as [fs' [t|er|]] eqn:Er; cbn [fst snd res_bind] in *.
  2: { exists (set_fs v fs'). split_and!; [by apply coherent_fs|by apply extends_fs|]. unfold cmd_bind, on_fs. by rewrite Er. }
  2: { exists v. split_and!; [done|apply extends_refl|]. unfold cmd_bind, on_fs. by rewrite Er. }
  set (v1 := set_fs v fs'). assert (coherent R v1) as Hc1 by (by apply coherent_fs). assert (extends v v1) as Hx1 by (by apply extends_fs).
  assert (forall k : list Z -> cm nat, cmd_bind (on_fs (i_readlink j)) k v = k t v1) as Eb by (intros k; unfold cmd_bind, on_fs; by rewrite Er).
  unfold agrees. rewrite Eb. case_bool_decide as Et; [exists v1; by split_and!|].
  pose proof (link_base_ok R v1 c j st t Hc1 Hp Hst Et) as Hb. change (root_of v1) with (root_of v) in Hb.
  destruct (spec_base (root_of v) (j :: st) t) as [bt|er|]; cbn [res_bind].
  - destruct Hb as (b & Elb & Hbt). apply (agrees_after R v v1 (fun _ => cmd_bind (link_base c t) (fun bt => walk_inner links (bt.2 ++ rest) bt.1) v1)
      (walk_inner links (bt.2 ++ rest) b)); [|done..|by apply IH]. unfold cmd_bind. by rewrite Elb.
  - exists v1. split_and!; [done|done|]. unfold cmd_bind. by rewrite Hb.
  - done.
Qed.

Lemma walk_ok R links : forall comps v d st, coherent R v -> at_pos (v_dentries v) d st ->
  agrees R v (walk_inner links comps d) (spec_walk (v_fs v) (root_of v) links comps st).
Proof.
  induction links as [links IHl] using lt_wf_ind. intros comps. induction comps as [|name rest IH]; intros v d st Hc Hp.
  { rewrite spec_walk_nil, walk_inner_nil. exists v. split_and!; [done|apply extends_refl|]. by exists d. }
  rewrite spec_walk_cons, walk_inner_cons. destruct (_ || _); [by apply IH|]. destruct (bool_decide (name = DOTDOT)).
  { destruct (walk_up_ok R v d st Hc Hp) as (p & Eu & Hu). apply (agrees_after R v v _ (walk_inner links rest p)); [unfold cmd_bind; by rewrite Eu|done..|apply extends_refl|done|done|by apply IH]. }
  destruct (at_pos_inv _ d st Hp) as (e & n & He & Hn & Hh & _). destruct st as [|i st]; [done|]. injection Hh as ->.
  destruct (walk_down_ok R v d st (n_ops n) name Hc Hp) as [(v1 & Hc1 & Hx1 & Hd) Hm].
  destruct (answer (v_fs v) (n_ops n) name) as [j|er|]; cbn [res_bind] in *.
  2: { exists v1. split_and!; [done|done|]. unfold cmd_bind. by rewrite Hd. }
  2: { exists v. split_and!; [done|apply extends_refl|]. unfold cmd_bind. destruct (walk_down d name v) as [v2 r]. cbn in Hd. by rewrite Hd. }
  destruct Hd as (c & Ed & Hpc). destruct (Hm v1 c Ed) as (ce & Hce & Hmp & _).
  destruct (at_pos_inv _ c _ Hpc) as (ce' & ci & Hce' & Hci & [= Ej] & _). assert (ce' = ce) as -> by congruence.
  destruct (co_inode R v1 Hc1 c ce ci Hce Hci) as (_ & Ety & _). rewrite <- Ej in Ety.
  assert (i_type (v_fs v) j = n_type ci) as Ty by (rewrite Ety; destruct (ex_fs _ _ Hx1) as (_ & _ & -> & _); done). rewrite Ty.
  assert (forall k : nat -> ent -> cm nat,
    cmd_bind (walk_down d name) (fun child => cmd_bind (attempt_mount_cross child) (fun cur => cmd_bind (dentry cur) (k cur))) v = k c ce v1) as Ebind.
  { intros k. unfold cmd_bind. by rewrite Ed, (cross_plain v1 c ce Hce Hmp), (dentry_eq v1 c ce Hce). }
  assert (forall (k : nat -> ent -> cm nat) r, agrees R v1 (k c ce) r -> agrees R v
    (cmd_bind (walk_down d name) (fun child => cmd_bind (attempt_mount_cross child) (fun cur => cmd_bind (dentry cur) (k cur)))) r) as Hthen.
  { intros k r (v2 & G1 & G2 & G3). exists v2. split_and!; [done|by eapply extends_trans|by rewrite Ebind]. }
  rewrite <- (spec_walk_ext (v_fs v) (v_fs v1) (root_of v) (root_of v1) links) by (apply Hx1 || (intros l; by apply (root_of_ext R))).
  apply Hthen. rewrite Hci. destruct (bool_decide (n_type ci = Symlink)); [|by apply IH].
  destruct links as [|links]; [exists v1; by split_and!; [|apply extends_refl|]|]. rewrite <- Ej.
  destruct (ex_fs _ _ Hx1) as (_ & <- & _).
  pose proof (walk_link_ok R v1 c j (n_ops n :: st) rest links Hc1 Hpc ltac:(done) (fun comps v d st => IHl links ltac:(lia) comps v d st)) as Hlink.
  destruct (target_of (v_fs v1) j) as [t|er|]; cbn [res_bind] in *; [|done|done]. destruct (bool_decide (t = [])); [done|].
  rewrite (spec_base_ext (root_of v) (root_of v1)) in Hlink by (intros l; by apply (root_of_ext R)).
  destruct (spec_base (root_of v) (j :: n_ops n :: st) t) as [bt|er|]; cbn [res_bind] in *; [|done|done].
  by rewrite <- (spec_walk_ext (v_fs v) (v_fs v1) (root_of v) (root_of v1) links) by (apply Hx1 || (intros l; by apply (root_of_ext R))).
Qed.

(** C9: while the entries agree with the file systems, a walk from any entry gives
    exactly what looking up its components one by one in the file systems gives: the
    entry of the same inodes up to the root, or the same error.  Links are followed,
    at most 40 of them; neither the children that entries remember nor the global
    cache change an answer, and the entries agree afterwards.  To agree means that the
    entries hold what the file systems answer, that inode numbers are unique over all
    drives together and no inode has two names (no hard links), and that there are
    no mounts over directories of a drive and no drive that covers another.  The file
    systems answer the same again after a lookup or the reading of a link. *)
Theorem walk_transparent R v d st comps : coherent R v -> at_pos (v_dentries v) d st ->
  let '(v', r) := walk_from d comps v in
  match spec_walk (v_fs v) (root_of v) SYMLINK_MAX comps st with
  | Ok st' => exists d', r = Ok d' /\ at_pos (v_dentries v') d' st' /\ coherent R v' /\ same_tree (v_fs v) (v_fs v')
  | Err e => r = Err e /\ coherent R v' /\ same_tree (v_fs v) (v_fs v')
  | Panic => r = Panic
  end.
Proof.
  intros Hc Hp. destruct (walk_ok R SYMLINK_MAX comps v d st Hc Hp) as (v1 & Hc1 & Hx & Hr). unfold walk_from.
  destruct (walk_inner SYMLINK_MAX comps d v) as [v' r]. destruct (spec_walk _ _ _ _ _) as [st'|e|].
  - destruct Hr as (d' & [= -> ->] & Hp'). exists d'. split_and!; [done|done|done|apply Hx].
  - injection Hr as -> ->. split_and!; [done|done|apply Hx].
  - done.
Qed.
End Proofs.
