(* ===== verification/VfsTmpfs.v ===== *)
(** * The virtual file system over the file system in memory

    The instance of the interface that [init] mounts on drive A, and what the
    composition does on concrete paths. *)

From S2P Require Import Prelude Errors Fat32 FatFile FatNode Tmpfs Vfs VfsFacts VfsSpec.
Import Errors.Vfs.
Local Open Scope Z_scope.

(** Drop the references that clients hold beyond [l]. *)
Definition tmpfs_retain (l : list nat) (s : Tmpfs) : Tmpfs :=
  let extra := fold_left (fun h a => remove_one a h) l (t_held s) in
  (drop_all extra (set_held s (fold_left (fun h a => remove_one a h) extra (t_held s)))).1.

Definition TMPFS : name_t := [116; 109; 112; 102; 115].

Section Instance_.
Context `{Profile} (now : Z).

Definition attr {A} (d : A) (f : TmpfsInode -> A) (s : Tmpfs) (a : nat) : A := match t_nodes s !! a with Some n => f n | None => d end.

Definition tmpfs_fs : FileSystems Tmpfs nat nat unit := {|
  i_lookup := t_lookup;
  i_create := t_create now;
  i_mkdir := t_mkdir now;
  i_unlink := t_unlink;
  i_rmdir := t_rmdir;
  i_rename := t_rename;
  i_rename_across a b := t_rename_across a (Some b);
  i_readdir := t_readdir;
  i_getattr := t_getattr;
  i_truncate := t_truncate now;
  i_read_at := t_read_at;
  i_write_at := t_write_at now;
  i_readlink := t_readlink;
  i_flush _ := cmd_ret tt;
  i_on_unlink _ s := s;
  i_type := attr Regular t_type;
  i_ino := attr 0 t_ino;
  i_size := attr 0 t_size;
  i_canonical _ n := n;
  sb_sync _ := cmd_ret tt;
  sb_shutdown _ := cmd_ret tt;
  sb_statfs := tmpfs_statfs;
  sb_root u := u;
  fs_mount fstype _ := if bool_decide (fstype = TMPFS) then Some (do! a := tmpfs_mount in cmd_ret (a, a)) else None;
  fs_retain := tmpfs_retain
|}.
End Instance_.

(** Lookups and links only hand out references. *)
Lemma lookup_nodes a n (s : Tmpfs) : t_nodes (t_lookup a n s).1 = t_nodes s.
Proof.
  unfold t_lookup, dir_of, cmd_bind, t_node. destruct (t_nodes s !! a) as [x|]; [|done]. destruct (t_entry x); try done. cbn [cmd_ret fst snd].
  by destruct (_ !! n).
Qed.

Lemma answers_of_nodes s s' : t_nodes s' = t_nodes s ->
  (forall a n, (t_lookup a n s').2 = (t_lookup a n s).2) /\ (forall a, (t_readlink a s').2 = (t_readlink a s).2).
Proof.
  intros E. split; intros a; [intros n; unfold t_lookup, dir_of, cmd_bind, t_node|unfold t_readlink, cmd_bind, t_node]; rewrite E;
    (destruct (t_nodes s !! a) as [x|]; [|done]); destruct (t_entry x); try done. cbn [cmd_ret fst snd]. by destruct (_ !! n).
Qed.

#[export] Instance tmpfs_names `{Profile} now : NameLaws (FileSystems0 := tmpfs_fs now) Tmpfs nat nat unit.
Proof.
  assert (forall s s' : Tmpfs, t_nodes s' = t_nodes s -> same_tree (FileSystems0 := tmpfs_fs now) s s') as Hsame.
  { intros s s' E. destruct (answers_of_nodes s s' E) as [H1 H2]. split_and!; [exact H1|exact H2|intros a..]; cbn; unfold attr; by rewrite E. }
  constructor.
  - intros s a n. apply Hsame, lookup_nodes.
  - intros s a. apply Hsame. cbn. unfold t_readlink, cmd_bind, t_node. destruct (t_nodes s !! a) as [x|]; [|done]. by destruct (t_entry x).
  - intros s a n n' E. cbn in E. by rewrite E.
Qed.

#[local] Instance dev_profile : Profile := true.
#[local] Instance tmpfs_1 : FileSystems Tmpfs nat nat unit := tmpfs_fs 1.

Definition V : Type := Vfs (F := Tmpfs) (I := nat) (Sb := nat).
Definition boot : V := (vfs_init (vfs0 tmpfs0)).1.

(** Paths as strings. *)
Definition p (s : string) : list Z := bytes_of_string s.

Definition go {A} (v : V) (m : cmdv (F := Tmpfs) (I := nat) (Sb := nat) A) : V := (m v).1.
Definition out {A} (v : V) (m : cmdv (F := Tmpfs) (I := nat) (Sb := nat) A) : res VfsError A := (m v).2.

Definition file (path : string) (data : list Z) : cmdv (F := Tmpfs) (I := nat) (Sb := nat) Z := pwrite (p path) 0 data (Z.lor CREATE TRUNC).


(** ** After [init] *)

Definition boot_root : TmpfsInode := mkTmp 1 Directory (TDir {[ p "tmp" := 1%nat ]}) 0 493 0 0.
Definition boot_tmp : TmpfsInode := mkTmp 2 Directory (TDir ∅) 1 493 0 0.

Lemma boot_nodes : t_nodes (v_fs boot) = {[ 0%nat := boot_root; 1%nat := boot_tmp ]}.
Proof. vm_compute. reflexivity. Qed.

Definition root_entry : Dentry (I := nat) := mkDentry [] (Some (mkInode 0%nat 1 Directory)) None {[ p "tmp" := 1%nat ]} true 1.
Definition tmp_entry : Dentry (I := nat) := mkDentry (p "tmp") (Some (mkInode 1%nat 2 Directory)) (Some 0%nat) ∅ false 1.

Lemma boot_dentries : v_dentries boot = {[ 0%nat := root_entry; 1%nat := tmp_entry ]}.
Proof. vm_compute. reflexivity. Qed.

Lemma boot_tables : v_drives boot = {[ 0 := mkMount 1 0%nat 0%nat None ]} /\ v_dcache boot = {[ (1, p "tmp") := 1%nat ]} /\ v_next boot = 2%nat.
Proof. vm_compute. auto. Qed.

#[local] Opaque boot.

Lemma boot_entry d e : v_dentries boot !! d = Some e -> (d = 0%nat /\ e = root_entry) \/ (d = 1%nat /\ e = tmp_entry).
Proof. rewrite boot_dentries. intros [[<- <-]|[_ [<- <-]%lookup_singleton_Some]]%lookup_insert_Some; auto. Qed.

Lemma boot_answer a n j : a = 0%nat \/ a = 1%nat -> answer (v_fs boot) a n = Ok j -> a = 0%nat /\ n = p "tmp" /\ j = 1%nat.
Proof.
  intros Ha. unfold answer. cbn [i_lookup tmpfs_1 tmpfs_fs]. unfold t_lookup, dir_of, cmd_bind, t_node. rewrite boot_nodes.
  destruct Ha as [-> | ->]; [rewrite lookup_insert_eq|rewrite lookup_insert_ne, lookup_singleton_eq by done]; cbn [t_entry boot_root boot_tmp cmd_ret fst snd].
  - destruct (decide (n = p "tmp")) as [->|Hne]; [rewrite lookup_singleton_eq; by intros [= <-]|by rewrite lookup_singleton_ne by congruence].
  - by rewrite lookup_empty.
Qed.

Lemma boot_coherent : coherent (fun a => a = 0%nat \/ a = 1%nat) boot.
Proof.
  assert (v_dentries boot !! 0%nat = Some root_entry) as E0 by (by rewrite boot_dentries).
  assert (v_dentries boot !! 1%nat = Some tmp_entry) as E1 by (by rewrite boot_dentries).
  destruct boot_tables as (Edr & Edc & Enx).
  constructor.
  - intros d e i [[-> ->]|[-> ->]]%boot_entry [= <-]; vm_compute; auto.
  - intros d e k c [[-> ->]|[-> ->]]%boot_entry Hk; cbn in Hk; [|by rewrite lookup_empty in Hk].
    apply lookup_singleton_Some in Hk as [<- <-]. exists tmp_entry, (mkInode 1%nat 2 Directory), (mkInode 0%nat 1 Directory).
    refine (conj E1 (conj eq_refl (conj eq_refl (conj eq_refl (conj eq_refl (conj (ex_intro _ (p "tmp") eq_refl) _)))))).
    intros name Hn. change (name = p "tmp") in Hn. subst name. vm_compute. reflexivity.
  - intros d e q [[-> ->]|[-> ->]]%boot_entry [= <-]. exists root_entry, (p "tmp"). exact (conj E0 (conj (lookup_singleton_eq _ _) eq_refl)).
  - intros d e [[-> ->]|[-> ->]]%boot_entry Hp; [|done]. split; [done|]. exists 65, (mkMount 1 0%nat 0%nat None). vm_compute. auto.
  - intros i m Hm. rewrite Edr in Hm. apply lookup_singleton_Some in Hm as [_ <-]. split; [reflexivity|]. exists root_entry, (mkInode 0%nat 1 Directory). exact (conj E0 (conj eq_refl eq_refl)).
  - intros ino k c Hk _. rewrite Edc in Hk. apply lookup_singleton_Some in Hk as [[= <- <-] <-]. exists 0%nat, root_entry, (mkInode 0%nat 1 Directory).
    exact (conj E0 (conj eq_refl (conj eq_refl (lookup_singleton_eq _ _)))).
  - intros d e i d' e' i' [[-> ->]|[-> ->]]%boot_entry [[-> ->]|[-> ->]]%boot_entry [= <-] [= <-]; by cbn.
  - intros d Hd. rewrite Enx in Hd. rewrite boot_dentries, lookup_insert_ne, lookup_singleton_ne by lia. reflexivity.
  - intros k c Hk. rewrite Edc in Hk. apply lookup_singleton_Some in Hk as [_ <-]. rewrite Enx. lia.
  - constructor.
    + intros i n j Hi (_ & _ & ->)%boot_answer; auto.
    + intros i n j i' n' j' Hi Hi' H1 H2. apply boot_answer in H1 as (-> & -> & ->), H2 as (-> & -> & ->); [|exact Hi'|exact Hi]. auto.
    + intros i n j r Hi (d & e & ri & Hd & Hri & Hp & <-) Ha. apply boot_answer in Ha as (-> & -> & ->); [|exact Hi]. apply boot_entry in Hd as [[-> ->]|[-> ->]]; [|discriminate Hp].
      injection Hri as <-. vm_compute. discriminate.
Qed.

Lemma walk_transparent_witness : exists d', (walk_from 0%nat (split_components (p "./tmp/../tmp/")) boot).2 = Ok d' /\
  at_pos (v_dentries (walk_from 0%nat (split_components (p "./tmp/../tmp/")) boot).1) d' [1%nat; 0%nat].
Proof.
  assert (at_pos (v_dentries boot) 0%nat [0%nat]) as Hp.
  { apply (at_root _ 0%nat root_entry (mkInode 0%nat 1 Directory)); [by rewrite boot_dentries|done|done]. }
  pose proof (walk_transparent _ boot 0%nat [0%nat] (split_components (p "./tmp/../tmp/")) boot_coherent Hp) as Hw.
  assert (spec_walk (v_fs boot) (root_of boot) SYMLINK_MAX (split_components (p "./tmp/../tmp/")) [0%nat] = Ok [1%nat; 0%nat]) as Es by (vm_compute; reflexivity).
  rewrite Es in Hw. destruct (walk_from 0%nat (split_components (p "./tmp/../tmp/")) boot) as [v' r]. destruct Hw as (d' & Hr & Hp' & _).
  exists d'. exact (conj Hr Hp').
Defined.

(** ** Defects *)

(** The global cache knows directories by their inode number alone, and the roots of
    all file systems in memory have number 1: after a second one is mounted, a path
    on it is resolved on the first. *)
Theorem dcache_crosses_drives :
  let v := go (go boot (file "A>tmp/x" [1; 2; 3])) (mount TMPFS None 66) in
  out v (pread (p "B>tmp/x") 0 9) = Ok [1; 2; 3] /\
  out v (readdir (p "B>")) = Ok [(1, DOT, Directory); (1, DOTDOT, Directory)].
Proof. vm_compute. auto. Qed.

(** The check that the working directory is elsewhere compares letters as typed. *)
Theorem unmount_under_cwd :
  let v := go (go boot (mount TMPFS None 66)) (chdir (p "b>")) in
  out v (unmount 66) = Ok tt /\ out (go v (unmount 66)) getcwd = Ok (p "b>").
Proof. vm_compute. auto. Qed.

(** A [rmdir] that fails hides the directory, while it is in use. *)
Theorem failed_rmdir_hides :
  let v := go (go (go boot (mkdir (p "A>d"))) (file "A>d/f" [1])) (chdir (p "A>d")) in
  out v (rmdir (p "A>d")) = Err NotEmpty /\ out (go v (rmdir (p "A>d"))) (stat (p "A>d")) = Err NotFound.
Proof. vm_compute. auto. Qed.

(** A [rename] over a name whose entry is cached, from one that is not, leaves the
    entry of the file that was replaced. *)
Theorem rename_leaves_stale :
  let v := go (go (go (go boot (file "A>a" [1])) (file "A>b" [1; 2])) (mount_virtual (p "A>") 66)) (stat (p "B>b")) in
  let w := go v (rename (p "B>a") (p "B>b")) in
  out v (rename (p "B>a") (p "B>b")) = Ok tt /\
  (stat_size <$> match out w (stat (p "B>b")) with Ok s => Some s | _ => None end) = Some 2 /\
  out w (pread (p "B>b") 0 9) = Ok [1].
Proof. vm_compute. auto. Qed.
