(* ===== verification/State.v ===== *)
(** * State with errors

    Code that changes a state and may fail: the state it leaves is there after an
    error as well. *)

From S2P Require Import Prelude.
Local Open Scope Z_scope.

Definition st (E S A : Type) : Type := S -> S * res E A.

Section State.
Context {E S : Type}.

Definition st_ret {A} (a : A) : st E S A := fun s => (s, Ok a).
Definition st_err {A} (e : E) : st E S A := fun s => (s, Err e).
Definition st_panic {A} : st E S A := fun s => (s, Panic).
Definition st_res {A} (r : res E A) : st E S A := fun s => (s, r).
Definition st_get {A} (f : S -> A) : st E S A := fun s => (s, Ok (f s)).
Definition st_upd (f : S -> S) : st E S unit := fun s => (f s, Ok tt).

Definition st_bind {A B} (m : st E S A) (k : A -> st E S B) : st E S B :=
  fun s => match m s with
           | (s, Ok a) => k a s
           | (s, Err e) => (s, Err e)
           | (s, Panic) => (s, Panic)
           end.

Definition st_when (b : bool) (m : st E S unit) : st E S unit := if b then m else st_ret tt.

(** [for x in l { f(x) }] *)
Fixpoint st_for {A} (l : list A) (f : A -> st E S unit) : st E S unit :=
  match l with
  | [] => st_ret tt
  | x :: l => st_bind (f x) (fun _ => st_for l f)
  end.

(** A loop that threads a value. *)
Fixpoint st_fold {A B} (f : B -> A -> st E S B) (l : list A) (b : B) : st E S B :=
  match l with
  | [] => st_ret b
  | x :: l => st_bind (f b x) (fun b => st_fold f l b)
  end.
End State.

(** [.expect(..)], and code whose errors become values. *)
Definition st_expect {E E' S A} (m : st E S A) : st E' S A :=
  fun s => match m s with
           | (s, Ok a) => (s, Ok a)
           | (s, _) => (s, Panic)
           end.

Definition st_catch {E E' S A B} (m : st E S A) (ok : A -> st E' S B) (bad : E -> st E' S B) : st E' S B :=
  fun s => match m s with
           | (s, Ok a) => ok a s
           | (s, Err e) => bad e s
           | (s, Panic) => (s, Panic)
           end.

Notation "'let*' x := m 'in' k" := (st_bind m (fun x => k))
  (at level 10, x binder, m at level 100, k at level 200,
   format "'[v' 'let*'  x  :=  m  'in' '/' k ']'") : bedrock_scope.

(** ** Reasoning

    [wpp m Q R s]: run from [s], [m] ends in [Q] with a value or in [R] with an
    error, unless it panics. *)

Section Wpp.
Context {S : Type}.

Definition wpp {E A} (m : st E S A) (Q : A -> S -> Prop) (R : E -> S -> Prop) (s : S) : Prop :=
  match m s with
  | (s, Ok a) => Q a s
  | (s, Err e) => R e s
  | (s, Panic) => True
  end.

Lemma wpp_mono {E A} (m : st E S A) (Q Q' : A -> S -> Prop) (R R' : E -> S -> Prop) s :
  wpp m Q R s -> (forall a s, Q a s -> Q' a s) -> (forall e s, R e s -> R' e s) -> wpp m Q' R' s.
Proof. unfold wpp. destruct (m s) as [s' [a|e|]]; auto. Qed.

Lemma wpp_ret {E A} (a : A) Q (R : E -> S -> Prop) s : Q a s -> wpp (st_ret a) Q R s.
Proof. done. Qed.

Lemma wpp_err {E A} (e : E) (Q : A -> S -> Prop) R s : R e s -> wpp (st_err e) Q R s.
Proof. done. Qed.

Lemma wpp_panic {E A} (Q : A -> S -> Prop) (R : E -> S -> Prop) s : wpp st_panic Q R s.
Proof. done. Qed.

Lemma wpp_bind {E A B} (m : st E S A) (k : A -> st E S B) Q R s :
  wpp m (fun a => wpp (k a) Q R) R s -> wpp (let* x := m in k x) Q R s.
Proof. unfold wpp, st_bind. destruct (m s) as [s' [a|e|]]; done. Qed.

Lemma wpp_get {E A} (f : S -> A) Q (R : E -> S -> Prop) s : Q (f s) s -> wpp (st_get f) Q R s.
Proof. done. Qed.

Lemma wpp_upd {E} (f : S -> S) Q (R : E -> S -> Prop) s : Q tt (f s) -> wpp (st_upd f) Q R s.
Proof. done. Qed.

Lemma wpp_res {E A} (r : res E A) (Q : A -> S -> Prop) R s :
  (forall a, r = Ok a -> Q a s) -> (forall e, r = Err e -> R e s) -> wpp (st_res r) Q R s.
Proof. unfold wpp, st_res. destruct r; auto. Qed.

Lemma wpp_expect {E E' A} (m : st E S A) (Q : A -> S -> Prop) (R : E' -> S -> Prop) s :
  wpp m Q (fun _ _ => True) s -> wpp (st_expect m) Q R s.
Proof. unfold wpp, st_expect. by destruct (m s) as [s' [a|e|]]. Qed.

Lemma wpp_catch {E E' A B} (m : st E S A) (ok : A -> st E' S B) (bad : E -> st E' S B) Q R s :
  wpp m (fun a => wpp (ok a) Q R) (fun e => wpp (bad e) Q R) s -> wpp (st_catch m ok bad) Q R s.
Proof. unfold wpp, st_catch. by destruct (m s) as [s' [a|e|]]. Qed.

Lemma wpp_when {E} b (m : st E S unit) Q R s : (b = true -> wpp m Q R s) -> (b = false -> Q tt s) -> wpp (st_when b m) Q R s.
Proof. destruct b; cbn; auto. Qed.

(** Loops, with what holds before the elements that are left. *)
Lemma wpp_for {E A} (f : A -> st E S unit) R (I : list A -> S -> Prop) l s :
  I l s -> (forall x l s, I (x :: l) s -> wpp (f x) (fun _ => I l) R s) -> wpp (st_for l f) (fun _ => I []) R s.
Proof.
  intros HI Hf. revert s HI. induction l as [|x l IH]; intros s HI; cbn [st_for]; [done|].
  apply wpp_bind. eapply wpp_mono; [by apply Hf|intros ? s' Hs'; by apply IH|done].
Qed.

Lemma wpp_fold {E A B} (f : B -> A -> st E S B) R (I : list A -> B -> S -> Prop) l b s :
  I l b s -> (forall x l b s, I (x :: l) b s -> wpp (f b x) (I l) R s) -> wpp (st_fold f l b) (I []) R s.
Proof.
  intros HI Hf. revert b s HI. induction l as [|x l IH]; intros b s HI; cbn [st_fold]; [done|].
  apply wpp_bind. eapply wpp_mono; [by apply Hf|intros b' s' Hs'; by apply IH|done].
Qed.

Lemma wpp_assoc {E A B C} (a : st E S A) (b : st E S B) (k : st E S C) Q R s :
  wpp (let* _ := a in b) (fun _ => wpp k Q R) R s -> wpp (let* _ := a in let* _ := b in k) Q R s.
Proof. unfold wpp, st_bind. destruct (a s) as [s1 [x|e|]]; [|done|done]. by destruct (b s1) as [s2 [y|e|]]. Qed.
End Wpp.
