(* ===== verification/Vmm.v ===== *)
(** * Page tables

    Model of kernel/src/mm/vmm (x86_64.rs and the tables, pending frames and
    clones of mod.rs) and of kernel/src/mm/framecnt.rs, with the mapper of the
    x86_64 crate that they call (MappedPageTable of
    third_party/dependencies/x86_64-0.15.5).

    Memory is the 64-bit words of physical memory, which the code reaches through
    the physmap.  The frame allocator is the class [FrameOps].  The operations run
    under the VMM lock and are one step each; flushes of the TLB and the
    invalidation of the DMA translation cache have no effect on the tables and are
    left out. *)

From S2P Require Import Prelude Bits State.
Local Open Scope Z_scope.

(** ** Frames and memory *)

(** mm::phys_alloc as its clients see it: [alloc], [free], [free_frames] and
    [total_frames]. *)
Class FrameOps (A : Type) := {
  fr_alloc : A -> res unit (A * option Z);
  fr_free : A -> Z -> res unit A;
  fr_count : A -> Z;
  fr_total : A -> Z
}.

(** [mm_clones] is [CLONES]; [CLONE_ROOTS] is its length.  [mm_counts] is the
    table of framecnt: no entry is 0. *)
Record Mm (A : Type) := mkMm {
  mm_mem : gmap Z Z;
  mm_frames : A;
  mm_clones : list Z;
  mm_counts : gmap Z Z
}.
Arguments mkMm {A} _ _ _ _.
Arguments mm_mem {A} _.
Arguments mm_frames {A} _.
Arguments mm_clones {A} _.
Arguments mm_counts {A} _.

Definition rd (m : gmap Z Z) (a : Z) : Z := default 0 (m !! a).

(** [write_bytes(to_physmap(f), 0, 4096)] *)
Definition zero_frame (f : Z) (m : gmap Z Z) : gmap Z Z :=
  fold_left (fun m i => <[f + 8 * i := 0]> m) (seqZ 0 512) m.

(** [copy_nonoverlapping(to_physmap(old), to_physmap(new), 4096)] *)
Definition copy_frame (old new : Z) (m : gmap Z Z) : gmap Z Z :=
  fold_left (fun m' i => <[new + 8 * i := rd m (old + 8 * i)]> m') (seqZ 0 512) m.

(** ** Entries *)

Definition PTE_PRESENT : Z := 1.
Definition PTE_WRITABLE : Z := 2.
Definition PTE_USER : Z := 4.
Definition PTE_PWT : Z := 8.
Definition PTE_PCD : Z := 16.
Definition PTE_ACCESSED : Z := 32.
Definition PTE_PS : Z := 128.
Definition PTE_NX : Z := 2 ^ 63.
Definition PTE_PKEY_SHIFT : Z := 59.

Definition ADDR_MASK : Z := 4503599627366400.

(** [e & b != 0] *)
Definition has (e b : Z) : bool := negb (Z.land e b =? 0).

Definition pte_frame (entry : Z) : Z := Z.land entry ADDR_MASK.

(** [!b] on [u64]. *)
Definition lnot64 (b : Z) : Z := Z.lxor b (Z.ones 64).

Definition entry_at (table index : Z) : Z := table + 8 * Z.land index 511.

Definition read_pte (m : gmap Z Z) (table index : Z) : Z := rd m (entry_at table index).
Definition write_pte (table index v : Z) (m : gmap Z Z) : gmap Z Z := <[entry_at table index := v]> m.

Definition table_is_empty (m : gmap Z Z) (frame : Z) : bool :=
  forallb (fun i => negb (has (read_pte m frame i) PTE_PRESENT)) (seqZ 0 512).

(** The index at level [l], 0 for the page table up to 3 for the PML4. *)
Definition vidx (l va : Z) : Z := Z.land (Z.shiftr va (12 + 9 * l)) 511.

(** ** Page flags *)

Definition READ : Z := 1.
Definition WRITE : Z := 2.
Definition EXECUTE : Z := 4.
Definition NO_CACHE : Z := 8.
Definition USER : Z := 16.
Definition WRITE_COMBINING : Z := 32.

(** [PageFlags::contains] *)
Definition fl_contains (flags other : Z) : bool := Z.land flags other =? other.

Definition lor_if (b : bool) (x f : Z) : Z := if b then Z.lor f x else f.

Definition page_flags_to_x86 (flags : Z) : Z :=
  let f := PTE_PRESENT in
  let f := lor_if (fl_contains flags WRITE) PTE_WRITABLE f in
  let f := lor_if (negb (fl_contains flags EXECUTE)) PTE_NX f in
  let f := lor_if (fl_contains flags NO_CACHE) (Z.lor PTE_PCD PTE_PWT) f in
  let f := lor_if (fl_contains flags WRITE_COMBINING) PTE_PWT f in
  lor_if (fl_contains flags USER) PTE_USER f.

Definition table_flags_for (leaf : Z) : Z :=
  lor_if (fl_contains leaf PTE_USER) PTE_USER (Z.lor (Z.lor PTE_PRESENT PTE_WRITABLE) PTE_ACCESSED).

(** ** The mapper of the x86_64 crate *)

Inductive MapToError := FrameAllocationFailed | ParentEntryHugePage | PageAlreadyMapped.
Inductive WalkError := NotMapped | MappedToHugePage.

(** [PageTableEntry::frame] *)
Definition e_frame (e : Z) : res WalkError Z :=
  if negb (has e PTE_PRESENT) then Err NotMapped
  else if has e PTE_PS then Err MappedToHugePage
  else Ok (pte_frame e).

(** [PageTableEntry::flags] and [set_flags] *)
Definition e_flags (e : Z) : Z := Z.land e (lnot64 ADDR_MASK).
Definition e_set_flags (e flags : Z) : Z := Z.lor (pte_frame e) flags.

(** [VirtAddr::new] panics unless bits 48 to 63 are copies of bit 47,
    [PhysAddr::new] from 2^52 on. *)
Definition canonical (va : Z) : bool := to_signed 48 (va mod 2 ^ 48) mod 2 ^ 64 =? va.
Definition phys_ok (pa : Z) : bool := pa <? 2 ^ 52.

Definition align_down (a n : Z) : Z := a - a mod n.

Section Vmm.
Context `{Profile} {A : Type} `{FrameOps A}.

Notation S := (Mm A).

Definition upd_mem (f : gmap Z Z -> gmap Z Z) (s : S) : S := mkMm (f (mm_mem s)) (mm_frames s) (mm_clones s) (mm_counts s).
Definition set_frames (a : A) (s : S) : S := mkMm (mm_mem s) a (mm_clones s) (mm_counts s).
Definition set_clones (c : list Z) (s : S) : S := mkMm (mm_mem s) (mm_frames s) c (mm_counts s).
Definition set_counts (c : gmap Z Z) (s : S) : S := mkMm (mm_mem s) (mm_frames s) (mm_clones s) c.

Definition store {E} (f : gmap Z Z -> gmap Z Z) : st E S unit := st_upd (upd_mem f).
Definition pte {E} (table index : Z) : st E S Z := st_get (fun s => read_pte (mm_mem s) table index).

Definition alloc_frame {E} : st E S (option Z) := fun s =>
  match fr_alloc (mm_frames s) with
  | Ok (a, r) => (set_frames a s, Ok r)
  | _ => (s, Panic)
  end.

Definition free_frame {E} (f : Z) : st E S unit := fun s =>
  match fr_free (mm_frames s) f with
  | Ok a => (set_frames a s, Ok tt)
  | _ => (s, Panic)
  end.

(** [BitmapFrameAllocator::allocate_frame] *)
Definition allocate_frame {E} : st E S (option Z) :=
  let* r := alloc_frame in
  match r with
  | Some f => if phys_ok f then st_ret (Some (align_down f 4096)) else st_panic
  | None => st_ret None
  end.

(** [PageTableWalker::create_next_table] on the entry [index] of [table]. *)
Definition create_next_table (table index insert_flags : Z) : st MapToError S Z :=
  let* e := pte table index in
  let* created := (
    if e =? 0 then
      let* r := allocate_frame in
      match r with
      | Some f => let* _ := store (write_pte table index (Z.lor f insert_flags)) in st_ret true
      | None => st_err FrameAllocationFailed
      end
    else
      let* _ := st_when (negb (insert_flags =? 0) && negb (fl_contains (e_flags e) insert_flags))
                  (store (write_pte table index (e_set_flags e (Z.lor (e_flags e) insert_flags)))) in
      st_ret false) in
  let* e := pte table index in
  match e_frame e with
  | Ok t => let* _ := st_when created (store (zero_frame t)) in st_ret t
  | Err MappedToHugePage => st_err ParentEntryHugePage
  | _ => st_panic
  end.

(** [map_to_with_table_flags] for pages of 4 KiB and of 2 MiB. *)
Definition map_to_4k (root va frame flags parent_flags : Z) : st MapToError S unit :=
  let* p3 := create_next_table root (vidx 3 va) parent_flags in
  let* p2 := create_next_table p3 (vidx 2 va) parent_flags in
  let* p1 := create_next_table p2 (vidx 1 va) parent_flags in
  let* e := pte p1 (vidx 0 va) in
  if negb (e =? 0) then st_err PageAlreadyMapped
  else store (write_pte p1 (vidx 0 va) (Z.lor frame flags)).

Definition map_to_2m (root va frame flags parent_flags : Z) : st MapToError S unit :=
  let* p3 := create_next_table root (vidx 3 va) parent_flags in
  let* p2 := create_next_table p3 (vidx 2 va) parent_flags in
  let* e := pte p2 (vidx 1 va) in
  if negb (e =? 0) then st_err PageAlreadyMapped
  else store (write_pte p2 (vidx 1 va) (Z.lor frame (Z.lor flags PTE_PS))).

(** The tables on the way to a page of 4 KiB, by [next_table]. *)
Definition walk_p1 (m : gmap Z Z) (root va : Z) : res WalkError Z :=
  let? p3 := e_frame (read_pte m root (vidx 3 va)) in
  let? p2 := e_frame (read_pte m p3 (vidx 2 va)) in
  e_frame (read_pte m p2 (vidx 1 va)).

(** [unmap]: the frame that was mapped. *)
Definition unmap_page (root va : Z) : st WalkError S Z :=
  let* p1 := (fun s => (s, walk_p1 (mm_mem s) root va)) in
  let* e := pte p1 (vidx 0 va) in
  let* f := st_res (e_frame e) in
  let* _ := store (write_pte p1 (vidx 0 va) 0) in
  st_ret f.

(** [update_flags] *)
Definition update_flags (root va flags : Z) : st WalkError S unit :=
  let* p1 := (fun s => (s, walk_p1 (mm_mem s) root va)) in
  let* e := pte p1 (vidx 0 va) in
  if e =? 0 then st_err NotMapped
  else store (write_pte p1 (vidx 0 va) (e_set_flags e flags)).

(** [translate_addr] *)
Definition translate_addr (m : gmap Z Z) (root va : Z) : res unit (option Z) :=
  match e_frame (read_pte m root (vidx 3 va)) with
  | Err NotMapped => Ok None
  | Ok p3 =>
      match e_frame (read_pte m p3 (vidx 2 va)) with
      | Err NotMapped => Ok None
      | Err MappedToHugePage =>
          Ok (Some (align_down (pte_frame (read_pte m p3 (vidx 2 va))) (2 ^ 30) + Z.land va (Z.ones 30)))
      | Ok p2 =>
          match e_frame (read_pte m p2 (vidx 1 va)) with
          | Err NotMapped => Ok None
          | Err MappedToHugePage =>
              Ok (Some (align_down (pte_frame (read_pte m p2 (vidx 1 va))) (2 ^ 21) + Z.land va (Z.ones 21)))
          | Ok p1 =>
              let e := read_pte m p1 (vidx 0 va) in
              if e =? 0 then Ok None else Ok (Some (pte_frame e + Z.land va (Z.ones 12)))
          | Panic => Panic
          end
      | Panic => Panic
      end
  | _ => Panic
  end.

(** ** Mapping *)

Definition HIGH_HALF : list Z := seqZ 256 256.

(** [sync_clone_half] *)
Definition sync_clone_half {E} (parent_root : Z) : st E S unit :=
  let* clones := st_get mm_clones in
  st_for clones (fun root =>
    st_for HIGH_HALF (fun i =>
      let* pe := pte parent_root i in
      let* ce := pte root i in
      st_when (negb (ce =? pe)) (store (write_pte root i pe)))).

Definition new_higher_half_slot (m : gmap Z Z) (root va : Z) : bool :=
  let i := vidx 3 va in
  if i <? 256 then false else negb (has (read_pte m root i) PTE_PRESENT).

Definition map_with {E} (root va paddr flags size : Z) (map_to : Z -> Z -> Z -> Z -> Z -> st MapToError S unit) : st E S unit :=
  let* new_slot := st_get (fun s => new_higher_half_slot (mm_mem s) root va) in
  if negb (canonical va && phys_ok paddr) then st_panic
  else
    let x86_flags := page_flags_to_x86 flags in
    let* _ := st_expect (map_to root (align_down va size) (align_down paddr size) x86_flags (table_flags_for x86_flags)) in
    st_when new_slot (sync_clone_half root).

Definition map_4k {E} (root va paddr flags : Z) : st E S unit := map_with root va paddr flags 4096 map_to_4k.
Definition map_2m {E} (root va paddr flags : Z) : st E S unit := map_with root va paddr flags (2 ^ 21) map_to_2m.

Definition assert_ {E} (b : bool) : st E S unit := if b then st_ret tt else st_panic.

(** The methods of [Vmm]. *)
Definition vmm_map_4k {E} (root va paddr flags : Z) : st E S unit :=
  let* _ := assert_ (Z.land va 4095 =? 0) in
  let* _ := assert_ (Z.land paddr 4095 =? 0) in
  map_4k root va paddr flags.

Definition vmm_map_2m {E} (root va paddr flags : Z) : st E S unit :=
  let* _ := assert_ (Z.land va 2097151 =? 0) in
  let* _ := assert_ (Z.land paddr 2097151 =? 0) in
  map_2m root va paddr flags.

Definition big_step (v p remaining : Z) : bool :=
  (2097152 <=? remaining) && (Z.land v 2097151 =? 0) && (Z.land p 2097151 =? 0).

Fixpoint map_big {E} (fuel : nat) (root v p remaining flags : Z) : st E S (Z * Z * Z) :=
  match fuel with
  | O => st_ret (v, p, remaining)
  | Datatypes.S fuel =>
      if big_step v p remaining then
        let* _ := vmm_map_2m root v p flags in
        let* v := st_res (u64_add v 2097152) in
        let* p := st_res (u64_add p 2097152) in
        map_big fuel root v p (remaining - 2097152) flags
      else st_ret (v, p, remaining)
  end.

Fixpoint map_small {E} (fuel : nat) (root v p flags : Z) : st E S unit :=
  match fuel with
  | O => st_ret tt
  | Datatypes.S fuel =>
      let* _ := vmm_map_4k root v p flags in
      let* v := st_res (u64_add v 4096) in
      let* p := st_res (u64_add p 4096) in
      map_small fuel root v p flags
  end.

Definition vmm_map {E} (root va paddr size flags : Z) : st E S unit :=
  let* _ := assert_ (Z.land va 4095 =? 0) in
  let* _ := assert_ (Z.land paddr 4095 =? 0) in
  let* _ := assert_ (0 <? size) in
  let* _ := assert_ (Z.land size 4095 =? 0) in
  let* vpr := map_big (Z.to_nat (size / 2097152)) root va paddr size flags in
  map_small (Z.to_nat (vpr.2 / 4096)) root vpr.1.1 vpr.1.2 flags.

(** ** Unmapping *)

Definition PENDING_CAPACITY : Z := 256.

(** [PendingFrames::push] *)
Definition push_pending {E} (pending : list Z) (frame : Z) : st E S (list Z) :=
  if Z.of_nat (length pending) <? PENDING_CAPACITY then st_ret (pending ++ [frame]) else st_panic.

Definition flush_pending {E} (pending : list Z) : st E S unit := st_for pending free_frame.

Definition has_clone_roots (s : S) : bool := negb (bool_decide (mm_clones s = [])).

Definition collect_frame {E} (keep : bool) (pending : list Z) (frame : Z) : st E S (list Z) :=
  if keep then st_ret pending else push_pending pending frame.

Definition reclaim_empty_tables {E} (root va : Z) (pending : list Z) : st E S (list Z) :=
  let* keep := st_get has_clone_roots in
  let* pml4e := pte root (vidx 3 va) in
  if negb (has pml4e PTE_PRESENT) then st_ret pending else
  let pdpt := pte_frame pml4e in
  let* pdpte := pte pdpt (vidx 2 va) in
  if negb (has pdpte PTE_PRESENT) then st_ret pending else
  let pd := pte_frame pdpte in
  let* pde := pte pd (vidx 1 va) in
  if negb (has pde PTE_PRESENT) then st_ret pending else
  let pt := pte_frame pde in
  let* e := pte pt (vidx 0 va) in
  if has e PTE_PRESENT then st_ret pending else
  let* e1 := st_get (fun s => table_is_empty (mm_mem s) pt) in
  if negb e1 then st_ret pending else
  let* pending := collect_frame keep pending pt in
  let* _ := store (write_pte pd (vidx 1 va) 0) in
  let* e2 := st_get (fun s => table_is_empty (mm_mem s) pd) in
  if negb e2 then st_ret pending else
  let* pending := collect_frame keep pending pd in
  let* _ := store (write_pte pdpt (vidx 2 va) 0) in
  let* e3 := st_get (fun s => table_is_empty (mm_mem s) pdpt) in
  if negb e3 then st_ret pending else
  let* pending := collect_frame keep pending pdpt in
  let* _ := store (write_pte root (vidx 3 va) 0) in
  st_ret pending.

(** [unmap_4k_impl] *)
Definition unmap_4k_impl {E} (root va : Z) : st E S bool :=
  if negb (canonical va) then st_panic
  else st_catch (unmap_page root (align_down va 4096)) (fun _ => st_ret true) (fun _ => st_ret false).

Definition unmap_4k {E} (root va : Z) (pending : list Z) : st E S (bool * list Z) :=
  let* removed := unmap_4k_impl root va in
  if negb removed then st_ret (false, pending)
  else let* pending := reclaim_empty_tables root va pending in st_ret (true, pending).

Definition vmm_unmap_4k {E} (root va : Z) : st E S bool :=
  let* _ := assert_ (Z.land va 4095 =? 0) in
  let* r := unmap_4k root va [] in
  let* _ := st_when r.1 (flush_pending r.2) in
  st_ret r.1.

(** [Vmm::reclaim_tables] *)
Definition reclaim_tables {E} (root : Z) (pending : list Z) (first_cleared : Z) : st E S (list Z) :=
  let* clones := st_get has_clone_roots in
  if clones then st_ret pending else reclaim_empty_tables root first_cleared pending.

Definition translate {E} (root va : Z) : st E S (option Z) := fun s =>
  if negb (canonical va) then (s, Panic)
  else match translate_addr (mm_mem s) root va with Ok r => (s, Ok r) | _ => (s, Panic) end.

(** The reclamation of a range: once per 2 MiB of addresses, for the first page
    that was cleared there. *)
Definition remaining (pending : list Z) : Z := PENDING_CAPACITY - Z.of_nat (length pending).
Definition is_full (pending : list Z) : bool := PENDING_CAPACITY <=? Z.of_nat (length pending).

Definition flush_if {E} (b : bool) (pending : list Z) : st E S (list Z) :=
  if b then let* _ := flush_pending pending in st_ret [] else st_ret pending.

Definition next_group {E} (root v : Z) (pg : list Z * Z) : st E S (list Z * Z) :=
  let '(pending, group_first) := pg in
  if Z.shiftr v 21 =? Z.shiftr group_first 21 then st_ret pg
  else if group_first =? u64_max then st_ret (pending, v)
  else
    let* pending := flush_if (remaining pending <? 3) pending in
    let* pending := reclaim_tables root pending group_first in
    let* pending := flush_if (is_full pending) pending in
    st_ret (pending, v).

Definition finish_unmap {E} (root : Z) (pg : list Z * Z) : st E S unit :=
  let '(pending, group_first) := pg in
  let* pending := (
    if group_first =? u64_max then st_ret pending
    else
      let* pending := flush_if ((remaining pending <? 3) && negb (bool_decide (pending = []))) pending in
      reclaim_tables root pending group_first) in
  flush_pending pending.

Fixpoint unmap_loop {E} (fuel : nat) (root v end_ : Z) (pg : list Z * Z) : st E S (list Z * Z) :=
  match fuel with
  | O => st_ret pg
  | Datatypes.S fuel =>
      if negb (v <? end_) then st_ret pg
      else
        let* removed := unmap_4k_impl root v in
        let* pg := (if removed then next_group root v pg else st_ret pg) in
        let* v := st_res (u64_add v 4096) in
        let* pending := flush_if (is_full pg.1) pg.1 in
        unmap_loop fuel root v end_ (pending, pg.2)
  end.

Definition range_pages (size : Z) : nat := Z.to_nat ((size + 4095) / 4096).

Definition vmm_unmap {E} (root va size : Z) : st E S unit :=
  let* _ := assert_ (Z.land va 4095 =? 0) in
  let* end_ := st_res (u64_add va size) in
  let* pg := unmap_loop (range_pages size) root va end_ ([], u64_max) in
  finish_unmap root pg.

Fixpoint collect_loop {E} (fuel : nat) (root v end_ : Z) (pg : list Z * Z) (frames : list Z) : st E S (list Z * Z * list Z) :=
  match fuel with
  | O => st_ret (pg, frames)
  | Datatypes.S fuel =>
      if negb (v <? end_) then st_ret (pg, frames)
      else
        let* phys := translate root v in
        let* removed := (match phys with Some _ => unmap_4k_impl root v | None => st_ret false end) in
        let frames := if removed then frames ++ option_list phys else frames in
        let* pg := (if removed then next_group root v pg else st_ret pg) in
        let* v := st_res (u64_add v 4096) in
        let* pending := flush_if (is_full pg.1) pg.1 in
        collect_loop fuel root v end_ (pending, pg.2) frames
  end.

(** The frames that were mapped in the range. *)
Definition unmap_range_collect {E} (root va size : Z) : st E S (list Z) :=
  let* _ := assert_ (Z.land va 4095 =? 0) in
  let* _ := assert_ (Z.land size 4095 =? 0) in
  let* end_ := st_res (u64_add va size) in
  let* r := collect_loop (range_pages size) root va end_ ([], u64_max) [] in
  let* _ := finish_unmap root r.1 in
  st_ret r.2.

(** ** Permissions of user addresses *)

Definition translate_user (m : gmap Z Z) (root va : Z) : option (Z * bool * bool) :=
  let e0 := read_pte m root (vidx 3 va) in
  if negb (has e0 PTE_PRESENT) then None else
  let u0 := has e0 PTE_USER in
  let e1 := read_pte m (pte_frame e0) (vidx 2 va) in
  if negb (has e1 PTE_PRESENT) then None else
  let u1 := u0 && has e1 PTE_USER in
  if has e1 PTE_PS then Some (Z.lor (pte_frame e1) (Z.land va (Z.ones 30)), u1, has e1 PTE_WRITABLE) else
  let e2 := read_pte m (pte_frame e1) (vidx 1 va) in
  if negb (has e2 PTE_PRESENT) then None else
  let u2 := u1 && has e2 PTE_USER in
  if has e2 PTE_PS then Some (Z.lor (pte_frame e2) (Z.land va (Z.ones 21)), u2, has e2 PTE_WRITABLE) else
  let e3 := read_pte m (pte_frame e2) (vidx 0 va) in
  if negb (has e3 PTE_PRESENT) then None
  else Some (Z.lor (pte_frame e3) (Z.land va (Z.ones 12)), u2 && has e3 PTE_USER, has e3 PTE_WRITABLE).

(** The entries of the last page: its indices, [e1], [e2] and [have_e2]. *)
Record Walk := mkWalk { w_i0 : Z; w_i1 : Z; w_i2 : Z; w_e1 : Z; w_e2 : Z; w_have : bool }.

(** The page at [va] under the tables of the page before. *)
Definition check_cached (m : gmap Z Z) (need_writable : bool) (va : Z) (w : Walk) : bool :=
  if has (w_e1 w) PTE_PS then negb (need_writable && negb (has (w_e1 w) PTE_WRITABLE))
  else if w_have w && has (w_e2 w) PTE_PS then negb (need_writable && negb (has (w_e2 w) PTE_WRITABLE))
  else
    let e3 := read_pte m (pte_frame (w_e2 w)) (vidx 0 va) in
    has e3 PTE_PRESENT && negb (need_writable && negb (has e3 PTE_WRITABLE)) && has e3 PTE_USER.

Definition check_walk (m : gmap Z Z) (root : Z) (need_writable : bool) (va : Z) : option Walk :=
  let ok e := has e PTE_PRESENT && has e PTE_USER in
  let wr e := negb (need_writable && negb (has e PTE_WRITABLE)) in
  let e0 := read_pte m root (vidx 3 va) in
  if negb (ok e0) then None else
  let e1 := read_pte m (pte_frame e0) (vidx 2 va) in
  if negb (ok e1) then None else
  if has e1 PTE_PS then if wr e1 then Some (mkWalk (vidx 3 va) (vidx 2 va) (vidx 1 va) e1 0 false) else None else
  let e2 := read_pte m (pte_frame e1) (vidx 1 va) in
  if negb (ok e2) then None else
  if has e2 PTE_PS then if wr e2 then Some (mkWalk (vidx 3 va) (vidx 2 va) (vidx 1 va) e1 e2 true) else None else
  let e3 := read_pte m (pte_frame e2) (vidx 0 va) in
  if ok e3 && wr e3 then Some (mkWalk (vidx 3 va) (vidx 2 va) (vidx 1 va) e1 e2 true) else None.

Definition same_tables (va : Z) (w : Walk) : bool := (w_i0 w =? vidx 3 va) && (w_i1 w =? vidx 2 va) && (w_i2 w =? vidx 1 va).

Fixpoint range_loop (pages : nat) (m : gmap Z Z) (root : Z) (need_writable : bool) (va : Z) (cached : option Walk) : bool :=
  match pages with
  | O => true
  | Datatypes.S pages =>
      let next := (va + 4096) mod 2 ^ 64 in
      match cached with
      | Some w =>
          if same_tables va w then check_cached m need_writable va w && range_loop pages m root need_writable next cached
          else
            match check_walk m root need_writable va with
            | Some w => range_loop pages m root need_writable next (Some w)
            | None => false
            end
      | None =>
          match check_walk m root need_writable va with
          | Some w => range_loop pages m root need_writable next (Some w)
          | None => false
          end
      end
  end.

Definition translate_user_range_ok (m : gmap Z Z) (root ptr len : Z) (need_writable : bool) : res unit bool :=
  if len =? 0 then Ok true
  else
    let? a := u64_add (Z.land ptr 4095) len in
    let? b := u64_add a 4095 in
    Ok (range_loop (Z.to_nat (Z.shiftr b 12)) m root need_writable (Z.land ptr (lnot64 4095)) None).

(** ** Reference counts of frames *)

(** [slot]: the index, if the table has it. *)
Definition slot (s : S) (phys : Z) : option Z :=
  let i := Z.shiftr phys 12 in
  if i <? fr_total (mm_frames s) then Some i else None.

Definition count_at (s : S) (i : Z) : Z := default 0 (mm_counts s !! i).

(** The loop around the exchange runs without contention. *)
Definition share_frame {E} (phys : Z) : st E S unit := fun s =>
  match slot s phys with
  | None => (s, Ok tt)
  | Some i =>
      let cur := count_at s i in
      if cur =? 0 then (set_counts (<[i := 2]> (mm_counts s)) s, Ok tt)
      else
        match u32_add (E := E) cur 1 with
        | Ok n => (set_counts (<[i := n]> (mm_counts s)) s, Ok tt)
        | _ => (s, Panic)
        end
  end.

Definition is_sole_owner (s : S) (phys : Z) : bool :=
  match slot s phys with
  | None => true
  | Some i => (count_at s i =? 0) || (count_at s i =? 1)
  end.

Definition decref_or_free {E} (phys : Z) : st E S unit := fun s =>
  match slot s phys with
  | None => free_frame phys s
  | Some i =>
      let c := count_at s i in
      if c =? 0 then free_frame phys s
      else
        let s := set_counts (<[i := c - 1]> (mm_counts s)) s in
        if c =? 1 then free_frame phys s else (s, Ok tt)
  end.

Definition unshare {E} (phys : Z) : st E S unit := fun s =>
  match slot s phys with
  | None => (s, Ok tt)
  | Some i =>
      let c := count_at s i in
      if 2 <=? c then (set_counts (<[i := if c =? 2 then 0 else c - 1]> (mm_counts s)) s, Ok tt)
      else (s, Ok tt)
  end.

Definition privatize {E} (phys : Z) : st E S unit := fun s =>
  match slot s phys with
  | None => (s, Ok tt)
  | Some i => if count_at s i =? 1 then (set_counts (<[i := 0]> (mm_counts s)) s, Ok tt) else (s, Ok tt)
  end.

(** ** Editing user leaves *)

(** The page table of a 4 KiB page. *)
Definition walk_leaf (m : gmap Z Z) (root va : Z) : option Z :=
  let next e := if negb (has e PTE_PRESENT) || has e PTE_PS then None else Some (pte_frame e) in
  match next (read_pte m root (vidx 3 va)) with
  | None => None
  | Some pdpt =>
      match next (read_pte m pdpt (vidx 2 va)) with
      | None => None
      | Some pd => next (read_pte m pd (vidx 1 va))
      end
  end.

Definition edit_user_leaf {E} (root va : Z) (f : Z -> Z) : st E S bool :=
  let* pt := st_get (fun s => walk_leaf (mm_mem s) root va) in
  match pt with
  | None => st_ret false
  | Some pt =>
      let* old := pte pt (vidx 0 va) in
      if f old =? old then st_ret false
      else let* _ := store (write_pte pt (vidx 0 va) (f old)) in st_ret true
  end.

Definition edit_user_leaf_range {E} (root va pages : Z) (f : Z -> Z) : st E S Z :=
  st_fold (fun changed p =>
    let* off := st_res (u64_mul p 4096) in
    let* a := st_res (u64_add va off) in
    let* c := edit_user_leaf root a f in
    st_ret (if c then changed + 1 else changed)) (seqZ 0 pages) 0.

Definition if_present (f : Z -> Z) (e : Z) : Z := if has e PTE_PRESENT then f e else e.

Definition clear_writable (e : Z) : Z := Z.land e (lnot64 PTE_WRITABLE).
Definition set_writable (e : Z) : Z := Z.lor (Z.lor e PTE_WRITABLE) PTE_ACCESSED.

Definition user_leaf_write_protect {E} (root va : Z) : st E S bool := edit_user_leaf root va (if_present clear_writable).
Definition user_leaf_write_protect_range {E} (root va pages : Z) : st E S Z := edit_user_leaf_range root va pages (if_present clear_writable).
Definition user_leaf_make_writable {E} (root va : Z) : st E S bool := edit_user_leaf root va (if_present set_writable).
Definition user_leaf_make_writable_range {E} (root va pages : Z) : st E S Z := edit_user_leaf_range root va pages (if_present set_writable).

Definition repoint (new_paddr e : Z) : Z :=
  Z.lor (Z.lor (Z.lor (Z.lor (Z.land e 4095) (Z.land new_paddr (lnot64 4095))) PTE_PRESENT) PTE_WRITABLE) PTE_ACCESSED.

Definition user_leaf_repoint_writable {E} (root va new_paddr : Z) : st E S bool := edit_user_leaf root va (repoint new_paddr).

Definition set_pkey (key e : Z) : Z :=
  Z.lor (Z.land e (lnot64 (Z.shiftl 15 PTE_PKEY_SHIFT))) (Z.shiftl (Z.land key 15) PTE_PKEY_SHIFT).

Definition user_leaf_set_pkey_range {E} (root va pages key : Z) : st E S Z := edit_user_leaf_range root va pages (if_present (set_pkey key)).

Definition make_read_only {E} (root va : Z) : st E S unit :=
  if negb (canonical va) then st_panic
  else st_expect (update_flags root (align_down va 4096) (Z.lor (Z.lor PTE_PRESENT PTE_ACCESSED) PTE_NX)).

(** ** Roots *)

Definition register_clone_root {E} (root : Z) : st E S unit := st_upd (fun s => set_clones (mm_clones s ++ [root]) s).

(** [position] and [swap_remove]. *)
Fixpoint position (root : Z) (l : list Z) : option nat :=
  match l with
  | [] => None
  | r :: l => if r =? root then Some O else Datatypes.S <$> position root l
  end.

Definition swap_remove (i : nat) (l : list Z) : list Z :=
  match List.rev l with
  | [] => l
  | last :: _ => if (i =? length l - 1)%nat then take i l else take i l ++ last :: take (length l - i - 2) (drop (Datatypes.S i) l)
  end.

(** Whether it was the last clone. *)
Definition unregister_clone_root {E} (root : Z) : st E S bool := fun s =>
  match position root (mm_clones s) with
  | None => (s, Ok false)
  | Some i => (set_clones (swap_remove i (mm_clones s)) s, Ok (length (mm_clones s) =? 1)%nat)
  end.

Definition vmm_new {E} : st E S Z :=
  let* r := alloc_frame in
  match r with
  | None => st_panic
  | Some root => let* _ := store (zero_frame root) in st_ret root
  end.

Definition clone_high_half {E} (parent_root : Z) : st E S Z :=
  let* r := alloc_frame in
  match r with
  | None => st_panic
  | Some new_root =>
      let* _ := st_res (debug_assert (Z.land new_root 4095 =? 0)) in
      let* _ := store (zero_frame new_root) in
      let* _ := st_for HIGH_HALF (fun i => let* e := pte parent_root i in store (write_pte new_root i e)) in
      let* _ := register_clone_root new_root in
      st_ret new_root
  end.

Definition prepopulate_window {E} (root va : Z) : st E S unit :=
  let* e := pte root (vidx 3 va) in
  if has e PTE_PRESENT then st_ret tt
  else
    let* r := alloc_frame in
    match r with
    | None => st_panic
    | Some frame =>
        let* _ := store (zero_frame frame) in
        let* _ := store (write_pte root (vidx 3 va) (Z.lor (Z.lor frame PTE_PRESENT) 2)) in
        sync_clone_half root
    end.

(** ** Copy on write *)

(** What a clone has allocated and shared so far. *)
Record CowLog := mkCow { cow_tables : list Z; cow_shared : list Z }.

Definition SHIFT (levels : nat) : Z := 12 + 9 * (Z.of_nat levels).

(** Whether the range that is left out covers the entry at [va]. *)
Definition cow_skipped (levels : nat) (skip : option (Z * Z)) (va : Z) : bool :=
  match skip with
  | None => false
  | Some (lo, hi) => if (levels =? 0)%nat then (lo <=? va) && (va <? hi) else hi <=? va
  end.

(** The tables below [levels] levels: 3 at the PML4, 0 at a page table.  The log is
    there after an error as well. *)
Fixpoint cow_walk (levels : nat) (ptbl ctbl base_va : Z) (skip : option (Z * Z)) : CowLog -> st CowLog S CowLog :=
  st_fold (fun log i =>
    let va := Z.lor base_va (Z.shiftl i (SHIFT levels)) in
    if cow_skipped levels skip va then st_ret log else
    let* e := pte ptbl i in
    if negb (has e PTE_PRESENT) then st_ret log else
    match levels with
    | Datatypes.S levels =>
        if has e PTE_PS then st_err log else
        let* r := alloc_frame in
        match r with
        | None => st_err log
        | Some f =>
            let* _ := store (zero_frame f) in
            let log := mkCow (cow_tables log ++ [f]) (cow_shared log) in
            let* _ := store (write_pte ctbl i
              (Z.lor (Z.lor (Z.lor (Z.lor f PTE_PRESENT) PTE_WRITABLE) PTE_ACCESSED) (Z.land e PTE_USER))) in
            cow_walk levels (pte_frame e) f va skip log
        end
    | O =>
        let* _ := store (write_pte ctbl i e) in
        let* _ := share_frame (pte_frame e) in
        st_ret (mkCow (cow_tables log) (cow_shared log ++ [pte_frame e]))
    end) (seqZ 0 512).

Definition clone_user_space_cow (parent_root child_root : Z) (skip : option (Z * Z)) : st unit S unit :=
  st_catch (cow_walk 3 parent_root child_root 0 skip (mkCow [] []))
    (fun _ => st_ret tt)
    (fun log =>
       let* _ := st_for (List.rev (cow_tables log)) free_frame in
       let* _ := st_for (cow_shared log) unshare in
       st_err tt).

(** ** Teardown *)

(** One level of [destroy_root], which takes the entries of [table] apart and
    collects what they refer to; [below] does so for a table that an entry refers
    to. *)
Definition destroy_level {E} (indices : list Z) (huge : bool) (below : Z -> list Z -> st E S (list Z)) (table : Z)
  : list Z -> st E S (list Z) :=
  st_fold (fun frames i =>
    let* e := pte table i in
    if negb (has e PTE_PRESENT) then st_ret frames
    else
      let f := pte_frame e in
      let* frames := (if huge && has e PTE_PS then st_ret frames else below f frames) in
      let* _ := store (write_pte table i 0) in
      st_ret (frames ++ [f])) indices.

Definition destroy_pt {E} (pt : Z) : list Z -> st E S (list Z) := destroy_level (seqZ 0 512) false (fun _ => st_ret) pt.
Definition destroy_pd {E} (pd : Z) : list Z -> st E S (list Z) := destroy_level (seqZ 0 512) true destroy_pt pd.
Definition destroy_pdpt {E} (pdpt : Z) : list Z -> st E S (list Z) := destroy_level (seqZ 0 512) true destroy_pd pdpt.
Definition destroy_low {E} (root : Z) : st E S (list Z) := destroy_level (seqZ 0 256) false destroy_pdpt root [].

(** [sweep_reclaim] on a table whose entries refer to page tables, [levels = 0], or
    to such tables; whether nothing is left in it. *)
Record Sweep := mkSweep { sw_empty : bool; sw_stop : bool; sw_pending : list Z }.

Fixpoint sweep_reclaim {E} (levels : nat) (tbl : Z) (pending : list Z) : st E S (bool * list Z) :=
  let* r := st_fold (fun w i =>
    if sw_stop w then st_ret w else
    let* e := pte tbl i in
    if negb (has e PTE_PRESENT) then st_ret w
    else if has e PTE_PS then st_ret (mkSweep false true (sw_pending w))
    else
      let child := pte_frame e in
      let* r := (match levels with
                 | O => let* b := st_get (fun s => table_is_empty (mm_mem s) child) in st_ret (b, sw_pending w)
                 | Datatypes.S levels => sweep_reclaim levels child (sw_pending w)
                 end) in
      if r.1 then
        let* _ := store (write_pte tbl i 0) in
        st_ret (mkSweep (sw_empty w) (sw_stop w) (r.2 ++ [child]))
      else st_ret (mkSweep false (sw_stop w) r.2)) (seqZ 0 512) (mkSweep true false pending) in
  st_ret (sw_empty r, sw_pending r).

Definition sweep_empty_higher_half_tables {E} (root : Z) : st E S (list Z) :=
  st_fold (fun pending i =>
    let* e := pte root i in
    if negb (has e PTE_PRESENT) || has e PTE_PS then st_ret pending
    else
      let* r := sweep_reclaim 1 (pte_frame e) pending in
      if r.1 then
        let* _ := store (write_pte root i 0) in
        st_ret (r.2 ++ [pte_frame e])
      else st_ret r.2) HIGH_HALF [].

Definition destroy_root {E} (kernel_root root : Z) : st E S unit :=
  let* frames := destroy_low root in
  let* _ := st_for frames decref_or_free in
  let* was_last := unregister_clone_root root in
  let* _ := st_when was_last (
    let* pending := sweep_empty_higher_half_tables kernel_root in
    st_for pending free_frame) in
  free_frame root.
End Vmm.
