(* ===== verification/UserMem.v ===== *)
(** * User address spaces

    Model of kernel/src/mm/usermem.rs (regions, [brk], [mmap], [munmap], [fork],
    demand fill) and of kernel/src/mm/fault.rs (faults of user code), over the page
    tables of Vmm.  [ADDR_SPACES] serialises the operations; the parts of [brk] and
    [munmap] that run after it is released work on pages that no region has any
    more, so one call is one step.

    Addresses of regions are below 2^47, and at least a page for a region with a
    guard page, so sums and the start of a guard page do not overflow. *)

From S2P Require Import Prelude Bits State Vmm.
Local Open Scope Z_scope.

Definition PAGE : Z := 4096.
Definition USER_BUDGET_CEILING_PAGES : Z := 65536.
Definition USER_BUDGET_FLOOR_PAGES : Z := 4096.

Definition EFAULT : Z := -14.
Definition ENOMEM : Z := -12.
Definition EINVAL : Z := -22.

Inductive RegionKind := Image | Stack | Heap | Anon.

#[global] Instance RegionKind_eq_dec : EqDecision RegionKind.
Proof. solve_decision. Defined.

Record Region := mkRegion {
  kind : RegionKind;
  vaddr : Z;
  pages : Z;
  flags : Z;
  guard : bool;
  lazy_ : bool;
  pkey : Z
}.

Definition r_end (r : Region) : Z := vaddr r + pages r * PAGE.
Definition set_span (v n : Z) (r : Region) : Region := mkRegion (kind r) v n (flags r) (guard r) (lazy_ r) (pkey r).
Definition set_key (k : Z) (r : Region) : Region := mkRegion (kind r) (vaddr r) (pages r) (flags r) (guard r) (lazy_ r) k.

Record AddressSpace := mkAsp {
  as_root : Z;
  brk_floor : Z;
  brk_cur : Z;
  stack_top : Z;
  committed : Z;
  budget_pages : Z;
  regions : list Region
}.

Definition set_regions (l : list Region) (a : AddressSpace) : AddressSpace :=
  mkAsp (as_root a) (brk_floor a) (brk_cur a) (stack_top a) (committed a) (budget_pages a) l.
Definition set_committed (n : Z) (a : AddressSpace) : AddressSpace :=
  mkAsp (as_root a) (brk_floor a) (brk_cur a) (stack_top a) n (budget_pages a) (regions a).
Definition set_brk (n : Z) (a : AddressSpace) : AddressSpace :=
  mkAsp (as_root a) (brk_floor a) n (stack_top a) (committed a) (budget_pages a) (regions a).

(** ** Placement *)

Definition page_align_up (x : Z) : option Z :=
  match checked_add_u64 x (PAGE - 1) with
  | Some y => Some (Z.land y (lnot64 (PAGE - 1)))
  | None => None
  end.

Definition coll_span (r : Region) : Z * Z := (vaddr r - (if guard r then PAGE else 0), r_end r).

Definition range_intersects (a alen bstart bend : Z) : bool :=
  (a <? bend) && match checked_add_u64 a alen with Some ae => bstart <? ae | None => true end.

Definition user_ceiling (a : AddressSpace) : Z :=
  match List.find (fun r => bool_decide (kind r = Stack)) (regions a) with
  | Some r => (coll_span r).1
  | None => 0
  end.

Definition FIT_ASLR_SPAN_PAGES : Z := 16384.

(** [rnd] is what [random_u64] returns. *)
Definition random_fit_start (a : AddressSpace) (len rnd : Z) : option Z :=
  match checked_add_u64 (brk_cur a) PAGE with
  | None => None
  | Some lo =>
      if user_ceiling a <=? sat_add_u64 lo len then None
      else
        let span_pages := Z.min ((user_ceiling a - lo - len) / PAGE) FIT_ASLR_SPAN_PAGES in
        if span_pages =? 0 then None else Some (lo + (rnd mod span_pages) * PAGE)
  end.

Definition blocking (a : AddressSpace) (cand len : Z) : option Z :=
  match List.find (fun r => range_intersects cand len (coll_span r).1 (coll_span r).2) (regions a) with
  | Some r => Some (coll_span r).2
  | None => None
  end.

(** Each round passes the end of a region that is in the way. *)
Fixpoint fit_loop (fuel : nat) (a : AddressSpace) (len cand : Z) : option Z :=
  match fuel with
  | O => None
  | Datatypes.S fuel =>
      if user_ceiling a <=? cand then None
      else if user_ceiling a - cand <? len then None
      else
        match blocking a cand len with
        | None => Some cand
        | Some e =>
            match checked_add_u64 e PAGE, checked_add_u64 cand PAGE with
            | Some x, Some y => fit_loop fuel a len (Z.max x y)
            | _, _ => None
            end
        end
  end.

Definition find_fit_from (a : AddressSpace) (npages start : Z) : option Z :=
  fit_loop (Datatypes.S (length (regions a))) a (npages * PAGE) start.

Definition find_fit (a : AddressSpace) (npages rnd : Z) : option Z :=
  match checked_mul_u64 npages PAGE with
  | None => None
  | Some len =>
      let low := match checked_add_u64 (brk_cur a) PAGE with Some s => find_fit_from a npages s | None => None end in
      match random_fit_start a len rnd with
      | Some s => match find_fit_from a npages s with Some v => Some v | None => low end
      | None => low
      end
  end.

Definition collides (a : AddressSpace) (addr len : Z) : bool :=
  existsb (fun r => (addr - PAGE <? (coll_span r).2) && ((coll_span r).1 <? addr + len)) (regions a).

Definition prot_to_flags (prot : Z) : res Z Z :=
  if (prot =? 0) || negb (Z.land prot (lnot64 7) =? 0) then Err EINVAL
  else
    let exec := has prot 4 in
    let write := has prot 2 in
    if exec && write then Err EINVAL
    else
      let f := lor_if (has prot 1) READ USER in
      Ok (if exec then Z.lor f EXECUTE else lor_if write WRITE f).

Section UserMem.
Context `{Profile} {A : Type} `{FrameOps A}.

(** [us_slots] and [us_free] are the table of address spaces. *)
Record Um := mkUm {
  us_mm : Mm A;
  us_slots : list (option AddressSpace);
  us_free : list nat
}.

Notation U := Um.

Definition on_mm {E X} (m : st E (Mm A) X) : st E U X := fun u =>
  let '(s, r) := m (us_mm u) in (mkUm s (us_slots u) (us_free u), r).

Definition space (idx : nat) (u : U) : option AddressSpace :=
  match us_slots u !! idx with Some o => o | None => None end.

Definition put_space {E} (idx : nat) (a : AddressSpace) : st E U unit :=
  st_upd (fun u => mkUm (us_mm u) (<[idx := Some a]> (us_slots u)) (us_free u)).

(** [table.slots.get_mut(idx)], or [EFAULT]. *)
Definition get_space (idx : nat) : st Z U AddressSpace := fun u =>
  match space idx u with Some a => (u, Ok a) | None => (u, Err EFAULT) end.

(** A free slot, or a new one. *)
Definition new_slot {E} (a : AddressSpace) : st E U nat := fun u =>
  match List.rev (us_free u) with
  | i :: _ => (mkUm (us_mm u) (<[i := Some a]> (us_slots u)) (removelast (us_free u)), Ok i)
  | [] => (mkUm (us_mm u) (us_slots u ++ [Some a]) (us_free u), Ok (length (us_slots u)))
  end.

Definition budget_of (free_pages : Z) : Z :=
  let clamped := Z.min (Z.max (free_pages / 16) USER_BUDGET_FLOOR_PAGES) USER_BUDGET_CEILING_PAGES in
  Z.min clamped (Z.max (free_pages / 4) USER_BUDGET_FLOOR_PAGES).

Definition dynamic_budget_pages (u : U) : Z := budget_of (fr_count (mm_frames (us_mm u))).

Definition URW : Z := Z.lor (Z.lor USER READ) WRITE.

(** ** The table *)

Definition register {E} (root image_floor image_top stack_top stack_flags : Z) : st E U nat :=
  let* stack_base := st_res (u64_sub stack_top (8 * PAGE)) in
  let* image := st_res (u64_sub image_top image_floor) in
  let committed := image / PAGE + 8 in
  let* dyn := st_get dynamic_budget_pages in
  new_slot (mkAsp root image_top image_top stack_top committed (Z.min (Z.max dyn (committed + 16)) USER_BUDGET_CEILING_PAGES)
    [mkRegion Image image_floor (image / PAGE) URW false false 0;
     mkRegion Stack stack_base 8 stack_flags true false 0]).

Definition unregister {E} (idx : nat) : st E U unit := st_upd (fun u =>
  match space idx u with
  | Some _ => mkUm (us_mm u) (<[idx := None]> (us_slots u)) (us_free u ++ [idx])
  | None => u
  end).

(** ** Commit and release *)

Fixpoint commit_loop (n : nat) (root va0 va k fl : Z) : st unit (Mm A) unit :=
  match n with
  | O => st_ret tt
  | Datatypes.S n =>
      let* r := alloc_frame in
      match r with
      | None =>
          let* _ := st_when (0 <? k) (
            let* frames := unmap_range_collect root va0 (k * PAGE) in
            st_for frames decref_or_free) in
          st_err tt
      | Some phys =>
          let* _ := store (zero_frame phys) in
          let* _ := vmm_map_4k root va phys fl in
          let* va := st_res (u64_add va PAGE) in
          commit_loop n root va0 va (k + 1) fl
      end
  end.

Definition commit_pages (root va npages fl : Z) : st unit (Mm A) unit := commit_loop (Z.to_nat npages) root va va 0 fl.

Definition release_pages {E} (root va npages : Z) : st E (Mm A) Z :=
  let* frames := unmap_range_collect root va (npages * PAGE) in
  let* _ := st_for frames decref_or_free in
  st_ret (Z.of_nat (length frames)).

Definition commit (root va npages fl : Z) : st Z U unit :=
  st_catch (on_mm (commit_pages root va npages fl)) st_ret (fun _ => st_err ENOMEM).

(** ** [brk] *)

(** The start of the lowest region above the break. *)
Definition growth_boundary (a : AddressSpace) (old : Z) : Z :=
  fold_left (fun b r => if old <? (coll_span r).1 then Z.min b (coll_span r).1 else b) (regions a) u64_max.

Fixpoint set_heap (n : Z) (l : list Region) : option (list Region) :=
  match l with
  | [] => None
  | r :: l => if bool_decide (kind r = Heap) then Some (set_span (vaddr r) n r :: l) else cons r <$> set_heap n l
  end.

Definition grown (a : AddressSpace) (new : Z) : list Region :=
  let n := (new - brk_floor a) / PAGE in
  match set_heap n (regions a) with
  | Some l => l
  | None => regions a ++ [mkRegion Heap (brk_floor a) n URW false false 0]
  end.

Definition shrunk (a : AddressSpace) (new : Z) : list Region :=
  let n := (new - brk_floor a) / PAGE in
  if n =? 0 then List.filter (fun r => negb (bool_decide (kind r = Heap))) (regions a)
  else default (regions a) (set_heap n (regions a)).

Definition brk (idx : nat) (new_break : Z) : st Z U Z :=
  let* a := get_space idx in
  if new_break =? 0 then st_ret (brk_cur a)
  else
    match page_align_up new_break with
    | None => st_err EINVAL
    | Some new =>
        let old := brk_cur a in
        if new <? brk_floor a then st_ret old
        else if new =? old then st_ret old
        else if old <? new then
          if growth_boundary a old <? new then st_err ENOMEM
          else
            let* eff := st_get dynamic_budget_pages in
            let npages := (new - old) / PAGE in
            if sat_sub_u64 eff (committed a) <? npages then st_err ENOMEM
            else
              let* _ := commit (as_root a) old npages URW in
              let* _ := put_space idx (set_regions (grown a new) (set_committed (committed a + npages) (set_brk new a))) in
              st_ret new
        else
          let npages := (old - new) / PAGE in
          let* _ := st_res (debug_assert (npages <=? committed a)) in
          let* c := st_res (u64_sub (committed a) npages) in
          let* _ := put_space idx (set_regions (shrunk a new) (set_committed c (set_brk new a))) in
          let* _ := on_mm (release_pages (as_root a) new npages) in
          st_ret new
    end.

(** ** [mmap] *)

Definition place (a : AddressSpace) (addr len npages rnd : Z) : res Z Z :=
  if addr =? 0 then match find_fit a npages rnd with Some v => Ok v | None => Err ENOMEM end
  else if negb (addr mod PAGE =? 0) || (addr <? PAGE) then Err EINVAL
  else
    match checked_add_u64 addr len with
    | Some e =>
        if user_ceiling a <? e then Err EINVAL
        else if collides a addr len then Err EINVAL else Ok addr
    | None => Err EINVAL
    end.

Definition mmap (idx : nat) (addr len prot rnd : Z) : st Z U Z :=
  let lz := has prot 8 in
  let prot := Z.land prot (lnot64 8) in
  let* a := get_space idx in
  if (len =? 0) || negb (len mod PAGE =? 0) then st_err EINVAL
  else
    let npages := len / PAGE in
    let* fl := st_res (prot_to_flags prot) in
    if lz && negb (fl_contains fl WRITE) then st_err EINVAL
    else
      let* va := st_res (place a addr len npages rnd) in
      let* c := (
        if lz then st_ret (committed a)
        else
          let* eff := st_get dynamic_budget_pages in
          if sat_sub_u64 eff (committed a) <? npages then st_err ENOMEM
          else let* _ := commit (as_root a) va npages fl in st_ret (committed a + npages)) in
      let* _ := put_space idx (set_regions (regions a ++ [mkRegion Anon va npages fl true lz 0]) (set_committed c a)) in
      st_ret va.

(** ** [munmap] *)

Definition overlaps (addr end_ : Z) (r : Region) : bool := negb ((r_end r <=? addr) || (end_ <=? vaddr r)).

(** The indices of the regions in the way; [None] if one is not anonymous. *)
Fixpoint hits_from (i : nat) (addr end_ : Z) (l : list Region) : option (list nat) :=
  match l with
  | [] => Some []
  | r :: l =>
      if negb (overlaps addr end_ r) then hits_from (Datatypes.S i) addr end_ l
      else if negb (bool_decide (kind r = Anon)) then None
      else cons i <$> hits_from (Datatypes.S i) addr end_ l
  end.

Definition region_at (l : list Region) (i : nat) : Region := List.nth i l (mkRegion Image 0 0 0 false false 0).

(** [sort_unstable_by_key] by address. *)
Fixpoint insert_by_addr (l : list Region) (i : nat) (hits : list nat) : list nat :=
  match hits with
  | [] => [i]
  | j :: hits => if vaddr (region_at l i) <? vaddr (region_at l j) then i :: j :: hits else j :: insert_by_addr l i hits
  end.
Definition sort_by_addr (l : list Region) (hits : list nat) : list nat := fold_right (insert_by_addr l) [] hits.

(** Whether the regions cover the range from [cursor] on without a gap. *)
Fixpoint covered (l : list Region) (addr end_ cursor : Z) (hits : list nat) : bool :=
  match hits with
  | [] => negb (cursor <? end_)
  | i :: hits =>
      let r := region_at l i in
      if negb (Z.max (vaddr r) addr =? cursor) then false
      else
        let cursor := Z.min (r_end r) end_ in
        if end_ <=? cursor then true else covered l addr end_ cursor hits
  end.

(** What is left of a region. *)
Definition carve (addr end_ : Z) (r : Region) : list Region :=
  let ov_start := Z.max (vaddr r) addr in
  let ov_end := Z.min (r_end r) end_ in
  if (ov_start =? vaddr r) && (ov_end =? r_end r) then []
  else if ov_start =? vaddr r then [set_span ov_end ((r_end r - ov_end) / PAGE) r]
  else if ov_end =? r_end r then [set_span (vaddr r) ((ov_start - vaddr r) / PAGE) r]
  else
    [set_span (vaddr r) ((ov_start - vaddr r) / PAGE) r;
     mkRegion Anon ov_end ((r_end r - ov_end) / PAGE) (flags r) (1 <=? (ov_end - ov_start) / PAGE) (lazy_ r) (pkey r)].

(** The hits from the last index to the first: each is carved in place. *)
Definition carve_at (addr end_ : Z) (l : list Region) (i : nat) : list Region :=
  take i l ++ carve addr end_ (region_at l i) ++ drop (Datatypes.S i) l.

Definition unmap_span (addr end_ : Z) (r : Region) : Z * Z :=
  (Z.max (vaddr r) addr, (Z.min (r_end r) end_ - Z.max (vaddr r) addr) / PAGE).

Definition munmap (idx : nat) (addr len : Z) : st Z U unit :=
  if (len =? 0) || negb (len mod PAGE =? 0) || negb (addr mod PAGE =? 0) then st_err EINVAL
  else
    match checked_add_u64 addr len with
    | None => st_err EINVAL
    | Some end_ =>
        if end_ <=? addr then st_err EINVAL
        else
          let* a := get_space idx in
          let l := regions a in
          match hits_from 0 addr end_ l with
          | None => st_err EINVAL
          | Some [] => st_err EINVAL
          | Some hits =>
              if negb (covered l addr end_ addr (sort_by_addr l hits)) then st_err EINVAL
              else
                let down := List.rev hits in
                let* _ := put_space idx (set_regions (fold_left (carve_at addr end_) down l) a) in
                let* freed := on_mm (st_fold (fun n i =>
                  let '(v, np) := unmap_span addr end_ (region_at l i) in
                  let* k := release_pages (as_root a) v np in
                  st_ret (n + k)) down 0) in
                let* a := st_get (space idx) in
                match a with
                | None => st_ret tt
                | Some a =>
                    let* _ := st_res (debug_assert (freed <=? committed a)) in
                    put_space idx (set_committed (committed a - Z.min freed (committed a)) a)
                end
          end
    end.

(** ** [fork] *)

Definition writable_regions (a : AddressSpace) : list Region :=
  List.filter (fun r => fl_contains (flags r) WRITE && (0 <? pages r)) (regions a).

(** The pages of the writable regions, before and after a failed clone. *)
Definition protect_all {E} (root : Z) (l : list Region) : st E (Mm A) unit :=
  st_for l (fun r => let* _ := user_leaf_write_protect_range root (vaddr r) (pages r) in st_ret tt).
Definition unprotect_all {E} (root : Z) (l : list Region) : st E (Mm A) unit :=
  st_for l (fun r => let* _ := user_leaf_make_writable_range root (vaddr r) (pages r) in st_ret tt).

Definition fork_as (kernel_root : Z) (parent_vm : nat) (skip_cow : option (Z * Z)) : st Z U (nat * Z) :=
  let* parent := get_space parent_vm in
  let* child_root := on_mm (clone_high_half (as_root parent)) in
  let* _ := on_mm (protect_all (as_root parent) (writable_regions parent)) in
  st_catch (on_mm (clone_user_space_cow (as_root parent) child_root skip_cow))
    (fun _ =>
       let* idx := new_slot (mkAsp child_root (brk_floor parent) (brk_cur parent) (stack_top parent) (committed parent)
                               (budget_pages parent) (regions parent)) in
       st_ret (idx, child_root))
    (fun _ =>
       let* _ := on_mm (unprotect_all (as_root parent) (writable_regions parent)) in
       let* _ := on_mm (destroy_root kernel_root child_root) in
       st_err ENOMEM).

(** ** Faults *)

Definition region_of (a : AddressSpace) (va : Z) : option Region :=
  List.find (fun r => (vaddr r <=? va) && (va <? r_end r)) (regions a).

(** A frame of zeros at [va]; [false] if there is no frame. *)
Definition fill_page {E} (root va fl : Z) : st E (Mm A) bool :=
  let* p := alloc_frame in
  match p with
  | None => st_ret false
  | Some phys =>
      let* _ := store (zero_frame phys) in
      let* _ := vmm_map_4k root va phys fl in
      st_ret true
  end.

Definition demand_fill {E} (vm : nat) (va : Z) : st E U bool :=
  let* a := st_get (space vm) in
  match a with
  | None => st_ret false
  | Some a =>
      match region_of a va with
      | None => st_ret false
      | Some r =>
          if bool_decide (kind r = Image) then st_ret false
          else if negb (fl_contains (flags r) WRITE) then st_ret false
          else
            let* eff := st_get dynamic_budget_pages in
            if eff <? committed a + 1 then st_ret false
            else
              let* filled := on_mm (fill_page (as_root a) va (flags r)) in
              if negb filled then st_ret false
              else
                let* _ := (if pkey r =? 0 then st_ret 0 else on_mm (user_leaf_set_pkey_range (as_root a) va 1 (pkey r))) in
                let* _ := put_space vm (set_committed (committed a + 1) a) in
                st_ret true
      end
  end.

(** The root, and whether the region at [va] is writable. *)
Definition cow_context (vm : nat) (va : Z) (u : U) : option (Z * bool) :=
  match space vm u with
  | None => None
  | Some a => match region_of a va with Some r => Some (as_root a, fl_contains (flags r) WRITE) | None => None end
  end.

(** [cow_resolve] from the translation of the address on. *)
Definition cow_break {E} (root va : Z) : st E (Mm A) bool :=
  let* t := st_get (fun s => translate_user (mm_mem s) root va) in
  match t with
  | None => st_ret false
  | Some (phys, user_ok, leaf_writable) =>
      if negb user_ok || leaf_writable then st_ret true
      else
        let old := Z.land phys (lnot64 4095) in
        let* sole := st_get (fun s => is_sole_owner s old) in
        if sole then
          let* _ := privatize old in
          let* _ := user_leaf_make_writable root va in
          st_ret true
        else
          let* r := alloc_frame in
          match r with
          | None => st_ret false
          | Some new =>
              let* _ := store (copy_frame old new) in
              let* _ := user_leaf_repoint_writable root va new in
              let* _ := decref_or_free old in
              st_ret true
          end
  end.

Definition cow_resolve {E} (vm : nat) (va : Z) : st E U bool :=
  let* c := st_get (cow_context vm va) in
  match c with
  | None => st_ret false
  | Some (root, region_writable) => if negb region_writable then st_ret false else on_mm (cow_break root va)
  end.

(** The bits of the error code of a page fault. *)
Record FaultCode := mkFault { f_protection : bool; f_write : bool; f_malformed : bool }.

Definition resolve_user_fault {E} (vm : option nat) (cr2 : Z) (err : FaultCode) : st E U bool :=
  if f_malformed err then st_ret false
  else
    match vm with
    | None => st_ret false
    | Some vm =>
        if negb (f_protection err) then demand_fill vm (Z.land cr2 (lnot64 4095))
        else if negb (f_write err) then st_ret false
        else cow_resolve vm cr2
    end.

(** The address space of the running task: index 0 stands for none. *)
Definition current_vm (vm : nat) : option nat := if (vm =? 0)%nat then None else Some vm.

(** The address space of a task that is reaped. *)
Definition exit_space (kernel_root : Z) (vm : nat) : st Z U unit :=
  let* a := get_space vm in
  let* _ := on_mm (destroy_root kernel_root (as_root a)) in
  if (vm =? 0)%nat then st_ret tt else unregister vm.

Fixpoint set_pkey_at (addr len key : Z) (l : list Region) : option (Region * list Region) :=
  match l with
  | [] => None
  | r :: l =>
      if (vaddr r =? addr) && (pages r * PAGE =? len) then Some (r, set_key key r :: l)
      else match set_pkey_at addr len key l with Some (x, l) => Some (x, r :: l) | None => None end
  end.

Definition pkey_protect (vm : nat) (addr len key : Z) : st Z U unit :=
  if (len =? 0) || negb (len mod PAGE =? 0) || negb (addr mod PAGE =? 0) then st_err EINVAL
  else
    let* a := get_space vm in
    match set_pkey_at addr len key (regions a) with
    | None => st_err EINVAL
    | Some (r, l) =>
        if negb (bool_decide (kind r = Anon) || bool_decide (kind r = Heap)) then st_err EINVAL
        else
          let* _ := put_space vm (set_regions l a) in
          let* _ := on_mm (user_leaf_set_pkey_range (as_root a) addr (len / PAGE) key) in
          st_ret tt
    end.
End UserMem.
