(* ===== verification/ElfLoad.v ===== *)
(** * Loading programs

    Model of the loader of kernel/src/task/load.rs: [parse_segments],
    [map_segment] and [create_process], over the page tables of Vmm and the address
    spaces of UserMem.  The image is the list of its bytes. *)

From S2P Require Import Prelude Bits State Vmm UserMem.
Local Open Scope Z_scope.

Definition PT_LOAD : Z := 1.
Definition PF_X : Z := 1.
Definition PF_W : Z := 2.
Definition EXPECTED_MACHINE : Z := 62.
Definition USER_STACK_TOP : Z := 140733193388032.
Definition USER_STACK_ASLR_WINDOW : Z := 268435456.
Definition USER_STACK_SIZE : Z := 32768.
Definition USER_IMAGE_MAX : Z := USER_STACK_TOP - USER_STACK_ASLR_WINDOW - USER_STACK_SIZE - 4096.
Definition USER_BOUNDARY : Z := 140737488355328.
Definition ELF_HEADER_SIZE : Z := 64.

Inductive LoadError :=
| TooSmall | BadMagic | NotElf64 | NotLittleEndian | NotExec | WrongMachine | BadPhdrSize | NoPhdrs
| PhOverflow | PhdrOutOfBounds | MemszBelowFilesz | OffsetOverflow | DataOutOfBounds | VaddrOverflow
| OutsideUserImage | WritableExecutable | NoSegments | IncompatiblePermissions | EntryNotExecutable | OutOfMemory.

Definition elen (elf : list Z) : Z := Z.of_nat (length elf).
Definition byte_at (elf : list Z) (i : Z) : Z := List.nth (Z.to_nat i) elf 0.

(** [read_u16], [read_u32], [read_u64]: indexing out of range panics. *)
Definition read_le {E} (n : nat) (elf : list Z) (offset : Z) : res E Z :=
  if (0 <=? offset) && (offset + Z.of_nat n <=? elen elf) then Ok (le_val (take n (drop (Z.to_nat offset) elf))) else Panic.

Record Segment := mkSeg { s_vaddr : Z; s_memsz : Z; s_filesz : Z; s_offset : Z; s_flags : Z }.

Definition seg_page_flags (p_flags : Z) : Z :=
  let f := Z.lor USER READ in
  if has p_flags PF_X then Z.lor f EXECUTE else Z.lor f WRITE.

Definition guard_ (b : bool) (e : LoadError) : res LoadError unit := if b then Ok tt else Err e.

(** One program header: a segment, if it is to be loaded. *)
Definition parse_phdr (elf : list Z) (e_phoff e_phentsize i : Z) : res LoadError (option Segment) :=
  let? off := ok_or (checked_mul_u64 i e_phentsize) PhOverflow in
  let? ph_off := ok_or (checked_add_u64 e_phoff off) PhOverflow in
  let? ph_end := ok_or (checked_add_u64 ph_off e_phentsize) PhOverflow in
  let? _ := guard_ (ph_end <=? elen elf) PhdrOutOfBounds in
  let? ty := read_le 4 elf ph_off in
  if negb (ty =? PT_LOAD) then Ok None
  else
    let? p_offset := read_le 8 elf (ph_off + 8) in
    let? p_vaddr := read_le 8 elf (ph_off + 16) in
    let? p_filesz := read_le 8 elf (ph_off + 32) in
    let? p_memsz := read_le 8 elf (ph_off + 40) in
    let? p_flags := read_le 4 elf (ph_off + 4) in
    let? _ := guard_ (p_filesz <=? p_memsz) MemszBelowFilesz in
    let? end_in_file := ok_or (checked_add_u64 p_offset p_filesz) OffsetOverflow in
    let? _ := guard_ (end_in_file <=? elen elf) DataOutOfBounds in
    let? e := ok_or (checked_add_u64 p_vaddr p_memsz) VaddrOverflow in
    let? _ := guard_ (negb ((p_memsz =? 0) || (p_vaddr <? 4096) || (USER_IMAGE_MAX <? e) || (USER_BOUNDARY <? e))) OutsideUserImage in
    let? _ := guard_ (negb (has p_flags PF_X && has p_flags PF_W)) WritableExecutable in
    Ok (Some (mkSeg p_vaddr p_memsz p_filesz p_offset p_flags)).

Fixpoint parse_phdrs (elf : list Z) (e_phoff e_phentsize : Z) (ixs : list Z) : res LoadError (list Segment) :=
  match ixs with
  | [] => Ok []
  | i :: ixs =>
      let? s := parse_phdr elf e_phoff e_phentsize i in
      let? l := parse_phdrs elf e_phoff e_phentsize ixs in
      Ok (option_list s ++ l)
  end.

Definition page_floor (a : Z) : Z := Z.land a (lnot64 4095).

(** The pages of a segment. *)
Definition seg_start (s : Segment) : Z := page_floor (s_vaddr s).
Definition seg_end (s : Segment) : res LoadError Z :=
  let? v := ok_or (checked_add_u64 (s_vaddr s) (s_memsz s)) VaddrOverflow in
  let? v := ok_or (checked_add_u64 v 4095) VaddrOverflow in
  Ok (page_floor v).

(** Two segments that share a page must have the same permissions. *)
Definition compatible (a b : Segment) : res LoadError unit :=
  let? a_end := seg_end a in
  let? b_end := seg_end b in
  guard_ (negb ((seg_start a <? b_end) && (seg_start b <? a_end)
    && (negb (Z.land (s_flags a) PF_X =? Z.land (s_flags b) PF_X) || negb (Z.land (s_flags a) PF_W =? Z.land (s_flags b) PF_W))))
    IncompatiblePermissions.

Fixpoint all_compatible (a : Segment) (l : list Segment) : res LoadError unit :=
  match l with
  | [] => let? _ := seg_end a in Ok tt
  | b :: l => let? _ := compatible a b in all_compatible a l
  end.

Fixpoint check_segments (l : list Segment) : res LoadError unit :=
  match l with
  | [] => Ok tt
  | a :: l => let? _ := all_compatible a l in check_segments l
  end.

Definition parse_segments (elf : list Z) : res LoadError (list Segment) :=
  let? _ := guard_ (ELF_HEADER_SIZE <=? elen elf) TooSmall in
  let? _ := guard_ (bool_decide (take 4 elf = [127; 69; 76; 70])) BadMagic in
  let? _ := guard_ (byte_at elf 4 =? 2) NotElf64 in
  let? _ := guard_ (byte_at elf 5 =? 1) NotLittleEndian in
  let? e_type := read_le 2 elf 16 in
  let? e_machine := read_le 2 elf 18 in
  let? e_phoff := read_le 8 elf 32 in
  let? e_phentsize := read_le 2 elf 54 in
  let? e_phnum := read_le 2 elf 56 in
  let? _ := guard_ (e_type =? 2) NotExec in
  let? _ := guard_ (e_machine =? EXPECTED_MACHINE) WrongMachine in
  let? _ := guard_ (56 <=? e_phentsize) BadPhdrSize in
  let? _ := guard_ (negb (e_phnum =? 0)) NoPhdrs in
  let? segs := parse_phdrs elf e_phoff e_phentsize (seqZ 0 e_phnum) in
  let? _ := guard_ (negb (bool_decide (segs = []))) NoSegments in
  let? _ := check_segments segs in
  Ok segs.

(** ** Bytes of memory *)

Definition word_of (a : Z) : Z := a - a mod 8.

Definition rd_byte (m : gmap Z Z) (a : Z) : Z := Z.land (Z.shiftr (rd m (word_of a)) (8 * (a mod 8))) 255.

Definition wr_byte (a b : Z) (m : gmap Z Z) : gmap Z Z :=
  let w := rd m (word_of a) in
  let k := 8 * (a mod 8) in
  <[word_of a := Z.lor (Z.land w (lnot64 (Z.shiftl 255 k))) (Z.shiftl b k)]> m.

(** [copy_nonoverlapping(src, dst, n)] *)
Fixpoint wr_bytes (a : Z) (bs : list Z) (m : gmap Z Z) : gmap Z Z :=
  match bs with
  | [] => m
  | b :: bs => wr_bytes (a + 1) bs (wr_byte a b m)
  end.

Section Load.
Context `{Profile} {A : Type} `{FrameOps A}.

Notation S := (Mm A).

(** ** Mapping a segment *)

(** The bytes of the page at [va] that come from the file, and where they go. *)
Definition page_bytes (elf : list Z) (seg : Segment) (va : Z) : Z * list Z :=
  let rel := va - seg_start seg in
  let page_offset := if rel =? 0 then Z.land (s_vaddr seg) 4095 else 0 in
  let seg_off := rel + page_offset in
  (page_offset,
   if seg_off <? s_filesz seg then
     take (Z.to_nat (Z.min (s_filesz seg - seg_off) (4096 - page_offset))) (drop (Z.to_nat (s_offset seg + seg_off)) elf)
   else []).

Definition map_page (root : Z) (elf : list Z) (seg : Segment) (va : Z) : st LoadError S unit :=
  let* t := translate root va in
  let* phys := (
    match t with
    | Some p => st_ret p
    | None =>
        let* r := alloc_frame in
        match r with
        | None => st_err OutOfMemory
        | Some p =>
            let* _ := vmm_map_4k root va p (seg_page_flags (s_flags seg)) in
            let* _ := store (zero_frame p) in
            st_ret p
        end
    end) in
  let '(page_offset, bs) := page_bytes elf seg va in
  store (wr_bytes (phys + page_offset) bs).

Definition seg_pages (seg : Segment) (vend : Z) : list Z :=
  map (fun i => seg_start seg + 4096 * i) (seqZ 0 ((vend - seg_start seg) / 4096)).

Definition map_segment (root : Z) (elf : list Z) (seg : Segment) : st LoadError S unit :=
  let* vend := st_res (seg_end seg) in
  st_for (seg_pages seg vend) (map_page root elf seg).

(** ** A process *)

Definition map_stack (root stack_top : Z) : st LoadError S unit :=
  st_for (map (fun i => stack_top - USER_STACK_SIZE + 4096 * i) (seqZ 0 8)) (fun va =>
    let* r := alloc_frame in
    match r with
    | None => st_err OutOfMemory
    | Some phys =>
        let* _ := vmm_map_4k root va phys URW in
        store (zero_frame phys)
    end).

(** [rnd] is what [random_u64] returns. *)
Definition aslr_stack_top (rnd : Z) : Z := USER_STACK_TOP - (rnd mod (USER_STACK_ASLR_WINDOW / 4096)) * 4096.

Definition entry_ok (e_entry : Z) (segs : list Segment) : bool :=
  existsb (fun s => has (s_flags s) PF_X && (s_vaddr s <=? e_entry) && (e_entry <? sat_add_u64 (s_vaddr s) (s_memsz s))) segs.

(** The extent of the image; [wrapping_add] does not wrap below [USER_IMAGE_MAX]. *)
Definition image_extent (segs : list Segment) : Z * Z :=
  (fold_left (fun m s => Z.min m (seg_start s)) segs u64_max,
   fold_left (fun m s => Z.max m (page_floor (s_vaddr s + s_memsz s + 4095))) segs 0).

(** Load, or take the address space apart. *)
Definition or_destroy {X} (kernel_root root : Z) (m : st LoadError S X) : st LoadError S X :=
  st_catch m st_ret (fun e => let* _ := destroy_root kernel_root root in st_err e).

Definition create_process (kernel_root : Z) (elf : list Z) (rnd : Z) : st LoadError (Um (A := A)) (Z * Z * Z * nat) :=
  let* e_entry := st_res (read_le 8 elf 24) in
  let* segs := st_res (parse_segments elf) in
  if negb (entry_ok e_entry segs) then st_err EntryNotExecutable
  else
    let* root := on_mm (clone_high_half kernel_root) in
    let* _ := on_mm (or_destroy kernel_root root (st_for segs (map_segment root elf))) in
    let stack_top := aslr_stack_top rnd in
    let* _ := on_mm (or_destroy kernel_root root (map_stack root stack_top)) in
    let '(image_floor, image_top) := image_extent segs in
    let* vm := register root image_floor image_top stack_top URW in
    st_ret (root, e_entry, stack_top, vm).
End Load.
