(* ===== verification/VmmFacts.v ===== *)
(** * Page tables: entries, memory and permission checks

    Bits of entries, words of frames, and the batched permission check against the
    walk of a single address. *)

From S2P Require Import Prelude Bits State Vmm.
Local Open Scope Z_scope.

(** ** Bits *)

Lemma has_bit e k : 0 <= k -> has e (2 ^ k) = Z.testbit e k.
Proof.
  intros Hk. unfold has. destruct (Z.testbit e k) eqn:Eb.
  - apply negb_true_iff, Z.eqb_neq. intros E. apply (f_equal (fun z => Z.testbit z k)) in E.
    rewrite Z.land_spec, Eb, Z.pow2_bits_true, Z.bits_0 in E by lia. done.
  - apply negb_false_iff, Z.eqb_eq. apply Z.bits_inj'. intros i Hi. rewrite Z.land_spec, Z.bits_0.
    destruct (decide (i = k)) as [->|]; [by rewrite Eb|]. by rewrite Z.pow2_bits_false, andb_false_r by lia.
Qed.

Lemma has_present e : has e PTE_PRESENT = Z.testbit e 0.
Proof. exact (has_bit e 0 ltac:(lia)). Qed.
Lemma has_writable e : has e PTE_WRITABLE = Z.testbit e 1.
Proof. exact (has_bit e 1 ltac:(lia)). Qed.
Lemma has_user e : has e PTE_USER = Z.testbit e 2.
Proof. exact (has_bit e 2 ltac:(lia)). Qed.
Lemma has_ps e : has e PTE_PS = Z.testbit e 7.
Proof. exact (has_bit e 7 ltac:(lia)). Qed.

Lemma addr_mask_bits i : 0 <= i -> Z.testbit ADDR_MASK i = (12 <=? i) && (i <? 52).
Proof.
  intros Hi. change ADDR_MASK with (Z.shiftl (Z.ones 40) 12). rewrite Z.shiftl_spec by lia.
  destruct (12 <=? i) eqn:E; cbn [andb]; [rewrite testbit_ones by lia; lia|by rewrite Z.testbit_neg_r by lia].
Qed.

Lemma lnot64_bits b i : 0 <= i -> Z.testbit (lnot64 b) i = xorb (Z.testbit b i) (i <? 64).
Proof. intros Hi. unfold lnot64. by rewrite Z.lxor_spec, testbit_ones by lia. Qed.

(** A frame: aligned, and within the bits of an entry. *)
Definition is_frame (f : Z) : Prop := f mod 4096 = 0 /\ 0 <= f < 2 ^ 52.

Lemma is_frame_bits f i : is_frame f -> 0 <= i -> Z.testbit f i = true -> 12 <= i < 52.
Proof.
  intros [Ha Hb] Hi Ht. split.
  - destruct (decide (12 <= i)); [done|]. assert (Z.testbit f i = false) as E; [|congruence].
    replace f with (f / 4096 * 2 ^ 12) by (change (2 ^ 12) with 4096; pose proof (Z.div_mod f 4096); lia).
    by rewrite Z.mul_pow2_bits_low by lia.
  - pose proof (bits_in f i 52 Hb Ht). lia.
Qed.

Lemma is_frame_mask f : is_frame f -> pte_frame f = f.
Proof.
  intros Hf. apply Z.bits_inj'. intros i Hi. unfold pte_frame. rewrite Z.land_spec, addr_mask_bits by done.
  destruct (Z.testbit f i) eqn:E; [|done]. pose proof (is_frame_bits f i Hf Hi E). cbn [andb]. lia.
Qed.

Lemma is_frame_flags f fl i : is_frame f -> 0 <= i < 12 \/ 52 <= i -> Z.testbit (Z.lor f fl) i = Z.testbit fl i.
Proof.
  intros Hf Hi. rewrite Z.lor_spec. destruct (Z.testbit f i) eqn:E; [|done].
  pose proof (is_frame_bits f i Hf ltac:(lia) E). lia.
Qed.

Lemma pte_frame_frame e : 0 <= e -> is_frame (pte_frame e).
Proof.
  intros He. unfold pte_frame. split.
  - change ADDR_MASK with (Z.shiftl (Z.ones 40) 12). change 4096 with (2 ^ 12). rewrite <- Z.land_ones by lia.
    apply Z.bits_inj'. intros i Hi. rewrite !Z.land_spec, Z.bits_0, testbit_ones, Z.shiftl_spec by lia.
    destruct (i <? 12) eqn:E; [|by rewrite andb_false_r]. by rewrite (Z.testbit_neg_r _ (i - 12)), andb_false_r by lia.
  - split; [by apply Z.land_nonneg; left|]. destruct (decide (Z.land e ADDR_MASK = 0)) as [-> |Hz]; [lia|].
    apply Z.log2_lt_pow2; [pose proof (proj2 (Z.land_nonneg e ADDR_MASK) (or_introl He)); lia|].
    assert (Z.log2 (Z.land e ADDR_MASK) <= Z.min (Z.log2 e) (Z.log2 ADDR_MASK)) by (apply Z.log2_land; [lia|done]).
    change (Z.log2 ADDR_MASK) with 51 in *. lia.
Qed.

(** The entry of a frame with flags outside of the address. *)
Definition is_flags (fl : Z) : Prop := 0 <= fl /\ forall i, 12 <= i < 52 -> Z.testbit fl i = false.

Lemma pte_frame_lor f fl : is_frame f -> is_flags fl -> pte_frame (Z.lor f fl) = f.
Proof.
  intros Hf [_ Hfl]. rewrite <- (is_frame_mask f Hf) at 2. apply Z.bits_inj'. intros i Hi. unfold pte_frame.
  rewrite !Z.land_spec, Z.lor_spec, addr_mask_bits by done.
  destruct ((12 <=? i) && (i <? 52)) eqn:E; [|by rewrite !andb_false_r]. rewrite Hfl by lia. by rewrite orb_false_r.
Qed.

Lemma vidx_range l va : 0 <= vidx l va < 512.
Proof. unfold vidx. change 511 with (Z.ones 9). rewrite Z.land_ones by lia. apply Z.mod_pos_bound. lia. Qed.

Lemma land_511 i : 0 <= i < 512 -> Z.land i 511 = i.
Proof. intros Hi. change 511 with (Z.ones 9). rewrite Z.land_ones by lia. apply Z.mod_small. lia. Qed.

(** ** The batched permission check *)

(** What the check means for one address. *)
Definition user_may (m : gmap Z Z) (root : Z) (need_writable : bool) (va : Z) : bool :=
  match translate_user m root va with
  | Some (_, u, w) => u && (negb need_writable || w)
  | None => false
  end.

Lemma check_walk_user m root nw va : bool_decide (is_Some (check_walk m root nw va)) = user_may m root nw va.
Proof.
  unfold check_walk, user_may, translate_user.
  repeat (match goal with |- context [has ?e ?b] => destruct (has e b) eqn:?; cbn [negb andb orb] end); destruct nw; reflexivity.
Qed.

Lemma check_cached_user m root nw va0 va w :
  check_walk m root nw va0 = Some w -> same_tables va w = true -> check_cached m nw va w = user_may m root nw va.
Proof.
  unfold same_tables. intros Hw Hs. apply andb_true_iff in Hs as [[H0 H1]%andb_true_iff H2].
  unfold check_walk in Hw. unfold user_may, translate_user, check_cached.
  assert (w_i0 w = vidx 3 va0 /\ w_i1 w = vidx 2 va0 /\ w_i2 w = vidx 1 va0) as (E0 & E1 & E2).
  { repeat (match type of Hw with context [if ?b then _ else _] => destruct b end; try done); by injection Hw as <-. }
  rewrite E0 in H0. rewrite E1 in H1. rewrite E2 in H2. apply Z.eqb_eq in H0, H1, H2. rewrite <- H0, <- H1, <- H2.
  repeat (match type of Hw with context [has ?e ?b] => destruct (has e b) eqn:?; cbn [negb andb orb] in Hw end; try done);
    destruct nw; cbn [negb andb orb] in *; try done; injection Hw as <-; cbn [w_e1 w_e2 w_have];
    repeat (match goal with H : has _ _ = _ |- _ => rewrite H end; cbn [negb andb orb]); try done;
    repeat (match goal with |- context [has ?e ?b] => destruct (has e b) eqn:?; cbn [negb andb orb] end); reflexivity.
Qed.

Definition page_run (va : Z) (n : nat) : list Z := map (fun i => (va + 4096 * i) mod 2 ^ 64) (seqZ 0 (Z.of_nat n)).

Lemma page_run_S va n : 0 <= va < 2 ^ 64 -> page_run va (S n) = va :: page_run ((va + 4096) mod 2 ^ 64) n.
Proof.
  intros Hva. unfold page_run. rewrite Nat2Z.inj_succ, seqZ_cons by lia. cbn [map]. f_equal; [rewrite Z.mod_small; lia|].
  replace (Z.pred (Z.succ (Z.of_nat n))) with (Z.of_nat n) by lia. change (Z.succ 0) with (1 + 0). rewrite <- (fmap_add_seqZ 1 0 (Z.of_nat n)).
  change (Z.add 1 <$> seqZ 0 (Z.of_nat n)) with (map (Z.add 1) (seqZ 0 (Z.of_nat n))). rewrite map_map.
  apply map_ext. intros i. rewrite Zplus_mod_idemp_l. f_equal. lia.
Qed.

Lemma range_loop_spec m root nw n : forall va cached, 0 <= va < 2 ^ 64 ->
  (forall w, cached = Some w -> exists va0, check_walk m root nw va0 = Some w) ->
  range_loop n m root nw va cached = forallb (user_may m root nw) (page_run va n).
Proof.
  induction n as [|n IH]; intros va cached Hva Hc; [done|]. rewrite page_run_S by done. cbn [range_loop forallb].
  assert (0 <= (va + 4096) mod 2 ^ 64 < 2 ^ 64) as Hn by (apply Z.mod_pos_bound; lia).
  assert (match check_walk m root nw va with Some w => range_loop n m root nw ((va + 4096) mod 2 ^ 64) (Some w) | None => false end
          = user_may m root nw va && forallb (user_may m root nw) (page_run ((va + 4096) mod 2 ^ 64) n)) as Hstep.
  { rewrite <- check_walk_user. destruct (check_walk m root nw va) as [w|] eqn:Ew; [|done]. cbn.
    apply IH; [done|]. intros w' [= <-]. eauto. }
  destruct cached as [w|]; [|exact Hstep]. destruct (same_tables va w) eqn:Es; [|exact Hstep].
  destruct (Hc w eq_refl) as (va0 & Hw). rewrite (check_cached_user m root nw va0 va w Hw Es), IH; [done|done|exact Hc].
Qed.

Lemma vidx_page l a b : 0 <= l -> a / 4096 = b / 4096 -> vidx l a = vidx l b.
Proof.
  intros Hl E. unfold vidx. f_equal. rewrite !Z.shiftr_div_pow2 by lia. rewrite Z.pow_add_r by lia. change (2 ^ 12) with 4096.
  by rewrite <- !Z.div_div, E by lia.
Qed.

Lemma user_may_page m root nw a b : a / 4096 = b / 4096 -> user_may m root nw a = user_may m root nw b.
Proof.
  intros E. unfold user_may, translate_user.
  rewrite (vidx_page 0 a b), (vidx_page 1 a b), (vidx_page 2 a b), (vidx_page 3 a b) by (done || lia).
  repeat (match goal with |- context [if ?c then _ else _] => destruct c end; try done).
Qed.

Lemma page_floor_eq a : 0 <= a < 2 ^ 64 -> Z.land a (lnot64 4095) = 4096 * (a / 4096).
Proof.
  intros Ha. replace (4096 * (a / 4096)) with (a / 4096 * 2 ^ 12) by lia. apply Z.bits_inj'. intros i Hi.
  rewrite Z.land_spec, lnot64_bits by done. change 4095 with (Z.ones 12). rewrite testbit_ones by lia.
  destruct (i <? 12) eqn:E.
  - rewrite Z.mul_pow2_bits_low by lia. replace (i <? 64) with true by lia. apply andb_false_r.
  - rewrite Z.mul_pow2_bits by lia. change 4096 with (2 ^ 12). rewrite Z.div_pow2_bits by lia. replace (i - 12 + 12) with i by lia.
    destruct (i <? 64) eqn:E2; cbn [xorb]; [apply andb_true_r|]. by rewrite (testbit_out 64 a i) by lia.
Qed.

Lemma land_4095 a : Z.land a 4095 = a mod 4096.
Proof. change 4095 with (Z.ones 12). by rewrite Z.land_ones by lia. Qed.

(** C21: a buffer passes the batched check exactly if every address in it is mapped
    for user code, and for writing where that is asked: remembering the upper
    tables of the last page changes no answer. *)
Theorem range_check_exact `{Profile} m root ptr len nw : 0 <= ptr -> 0 < len -> ptr + len <= 2 ^ 63 ->
  exists b, translate_user_range_ok m root ptr len nw = Ok b /\
    (b = true <-> forall a, ptr <= a < ptr + len -> user_may m root nw a = true).
Proof.
  intros Hp Hl He. unfold translate_user_range_ok. replace (len =? 0) with false by lia.
  assert (0 <= ptr mod 4096 < 4096) as Hm by (apply Z.mod_pos_bound; lia). pose proof (Z.div_mod ptr 4096 ltac:(lia)) as Hd.
  unfold u64_add. rewrite land_4095, u64_op_Ok by (unfold u64_max; lia). cbn [res_bind]. rewrite u64_op_Ok by (unfold u64_max; lia). cbn [res_bind].
  eexists. split; [reflexivity|]. rewrite range_loop_spec; [|rewrite page_floor_eq by lia; lia|done].
  rewrite page_floor_eq, forallb_forall by lia. unfold page_run. set (n := Z.shiftr _ 12).
  assert (n = (ptr mod 4096 + len + 4095) / 4096) as En by (unfold n; rewrite Z.shiftr_div_pow2 by lia; reflexivity).
  assert (4096 * n < ptr mod 4096 + len + 4096 /\ ptr mod 4096 + len <= 4096 * n) as Hn.
  { rewrite En. pose proof (Z.div_mod (ptr mod 4096 + len + 4095) 4096 ltac:(lia)).
    pose proof (Z.mod_pos_bound (ptr mod 4096 + len + 4095) 4096 ltac:(lia)). lia. }
  split.
  - intros Hall a Ha. rewrite (user_may_page m root nw a (4096 * (a / 4096))) by (rewrite Z.mul_comm, Z.div_mul by lia; done).
    apply Hall, in_map_iff. exists (a / 4096 - ptr / 4096). pose proof (Z.div_mod a 4096 ltac:(lia)).
    pose proof (Z.mod_pos_bound a 4096 ltac:(lia)). split; [rewrite Z.mod_small; lia|].
    apply list_elem_of_In, elem_of_seqZ. assert (ptr / 4096 <= a / 4096) by (apply Z.div_le_mono; lia). nia.
  - intros Hall x (i & <- & Hi%list_elem_of_In%elem_of_seqZ)%in_map_iff. rewrite Z.mod_small by nia.
    rewrite (user_may_page m root nw _ (Z.max ptr (4096 * (ptr / 4096) + 4096 * i))); [apply Hall; nia|].
    destruct (decide (i = 0)) as [->|]; [|f_equal; nia].
    replace (4096 * (ptr / 4096) + 4096 * 0) with (ptr / 4096 * 4096) by lia. rewrite Z.max_l by lia. by rewrite Z.div_mul by lia.
Qed.
