(* ===== verification/VmmTree.v ===== *)
(** * Page tables: the trees of the address spaces

    The tables of the lower halves of all address spaces are trees that share
    nothing: every table has one place in one of them.  A place determines the
    address of the table and the other way round, so that a change of one entry
    changes what one address of one address space translates to. *)

From S2P Require Import Prelude Bits State Vmm VmmFacts.
Local Open Scope Z_scope.

(** ** Words of frames *)

Lemma entry_at_inj f g i j : is_frame f -> is_frame g -> 0 <= i < 512 -> 0 <= j < 512 ->
  entry_at f i = entry_at g j -> f = g /\ i = j.
Proof.
  intros [Hf _] [Hg _] Hi Hj. unfold entry_at. rewrite !land_511 by done. intros E.
  pose proof (Z.div_mod f 4096 ltac:(lia)). pose proof (Z.div_mod g 4096 ltac:(lia)). nia.
Qed.

Lemma rd_insert m a b v : rd (<[a := v]> m) b = if decide (b = a) then v else rd m b.
Proof. unfold rd. destruct (decide (b = a)) as [->|]; [by rewrite lookup_insert_eq|by rewrite lookup_insert_ne by congruence]. Qed.

Lemma read_write m f i v g j : is_frame f -> is_frame g -> 0 <= i < 512 -> 0 <= j < 512 ->
  read_pte (write_pte f i v m) g j = if decide (g = f /\ j = i) then v else read_pte m g j.
Proof.
  intros Hf Hg Hi Hj. unfold read_pte, write_pte. rewrite rd_insert.
  destruct (decide (g = f /\ j = i)) as [[-> ->]|Hn]; [by rewrite decide_True|]. rewrite decide_False; [done|].
  intros E. apply Hn. by apply entry_at_inj.
Qed.

(** The words of a frame. *)
Definition in_frame (f a : Z) : Prop := exists i, 0 <= i < 512 /\ a = f + 8 * i.

#[global] Instance in_frame_dec f a : Decision (in_frame f a).
Proof.
  refine (cast_if (decide (0 <= (a - f) / 8 < 512 /\ a = f + 8 * ((a - f) / 8)))).
  - exists ((a - f) / 8). intuition.
  - intros (i & Hi & ->). apply n. replace (f + 8 * i - f) with (i * 8) by lia. rewrite Z.div_mul by lia. lia.
Defined.

Lemma fold_insert_out (g k : Z -> Z) l a : forall m : gmap Z Z, (forall i, i ∈ l -> k i <> a) ->
  rd (fold_left (fun m i => <[k i := g i]> m) l m) a = rd m a.
Proof.
  induction l as [|i l IH]; intros m Hn; [done|]. cbn [fold_left]. rewrite IH by (intros; apply Hn; by right).
  rewrite rd_insert, decide_False; [done|]. intros ->. by apply (Hn i); [left|].
Qed.

Lemma fold_insert_in (g k : Z -> Z) l i : forall m : gmap Z Z, (forall i j, i ∈ l -> j ∈ l -> k i = k j -> i = j) -> i ∈ l ->
  rd (fold_left (fun m i => <[k i := g i]> m) l m) (k i) = g i.
Proof.
  induction l as [|j l IH]; intros m Hinj Hi; [by apply not_elem_of_nil in Hi|]. cbn [fold_left].
  destruct (decide (i ∈ l)) as [Hl|Hl]; [apply IH; [intros; apply Hinj; by try right|done]|].
  apply elem_of_cons in Hi as [->|]; [|done]. rewrite fold_insert_out, rd_insert, decide_True; [done|done|].
  intros x Hx E. apply Hl. rewrite (Hinj j x); [done|by left|by right|done].
Qed.

(** Words written all over a frame. *)
Lemma fill_rd (g : Z -> Z) f (m : gmap Z Z) a :
  rd (fold_left (fun m i => <[f + 8 * i := g i]> m) (seqZ 0 512) m) a = if decide (in_frame f a) then g ((a - f) / 8) else rd m a.
Proof.
  destruct (decide (in_frame f a)) as [(i & Hi & ->)|Hn].
  - rewrite (fold_insert_in g (fun i => f + 8 * i)); [f_equal; replace (f + 8 * i - f) with (i * 8) by lia; by rewrite Z.div_mul|lia|].
    apply elem_of_seqZ. lia.
  - rewrite (fold_insert_out g (fun i => f + 8 * i)); [done|]. intros i Hi%elem_of_seqZ <-. apply Hn. exists i. lia.
Qed.

Lemma rd_zero f m a : rd (zero_frame f m) a = if decide (in_frame f a) then 0 else rd m a.
Proof. exact (fill_rd (fun _ => 0) f m a). Qed.

Lemma rd_copy old new m a : rd (copy_frame old new m) a = if decide (in_frame new a) then rd m (old + (a - new)) else rd m a.
Proof.
  unfold copy_frame. rewrite (fill_rd (fun i => rd m (old + 8 * i)) new m a).
  destruct (decide (in_frame new a)) as [(i & Hi & ->)|]; [|done]. f_equal. replace (new + 8 * i - new) with (i * 8) by lia. rewrite Z.div_mul; lia.
Qed.

Lemma entry_in_frame f i : 0 <= i < 512 -> in_frame f (entry_at f i).
Proof. intros Hi. exists i. unfold entry_at. by rewrite land_511. Qed.

Lemma in_frame_inj f g a : is_frame f -> is_frame g -> in_frame f a -> in_frame g a -> f = g.
Proof.
  intros Hf Hg (i & Hi & ->) (j & Hj & E). destruct (entry_at_inj f g i j Hf Hg Hi Hj) as [? _]; [|done].
  unfold entry_at. by rewrite !land_511.
Qed.

Lemma read_zero f m g j : is_frame f -> is_frame g -> 0 <= j < 512 -> read_pte (zero_frame f m) g j = if decide (g = f) then 0 else read_pte m g j.
Proof.
  intros Hf Hg Hj. unfold read_pte. rewrite rd_zero. destruct (decide (g = f)) as [->|Hne].
  - rewrite decide_True; [done|by apply entry_in_frame].
  - rewrite decide_False; [done|]. intros Hin. apply Hne. exact (in_frame_inj g f _ Hg Hf (entry_in_frame g j Hj) Hin).
Qed.

(** ** Places *)

Record Pos := mkPos { p_root : Z; p_level : Z; p_prefix : Z }.

#[global] Instance Pos_eq_dec : EqDecision Pos.
Proof. solve_decision. Defined.

Definition child (q : Pos) (i : Z) : Pos := mkPos (p_root q) (p_level q - 1) (p_prefix q * 512 + i).

(** The indices of a table: of a root, those of the lower half. *)
Definition low_idx (q : Pos) (i : Z) : Prop := 0 <= i < (if p_level q =? 3 then 256 else 512).

Definition next_table (e : Z) : option Z := if has e PTE_PRESENT && negb (has e PTE_PS) then Some (pte_frame e) else None.

(** An entry of a table, and of a page table. *)
Definition is_entry (e : Z) : Prop := 0 <= e < 2 ^ 64 /\ has e PTE_PRESENT = true /\ has e PTE_PS = false.

Record wf (m : gmap Z Z) (own : gmap Z Pos) : Prop := {
  wf_pos f q : own !! f = Some q -> is_frame f /\ 0 <= p_level q <= 3 /\ 0 <= p_prefix q /\ (p_level q = 3 -> q = mkPos f 3 0);
  wf_down f q i : own !! f = Some q -> 0 < p_level q -> low_idx q i ->
    read_pte m f i = 0 \/ is_entry (read_pte m f i) /\ exists g, next_table (read_pte m f i) = Some g /\ own !! g = Some (child q i);
  wf_up f q : own !! f = Some q -> p_level q < 3 -> exists g p i, own !! g = Some p /\ 0 < p_level p /\ low_idx p i /\ q = child p i /\
    next_table (read_pte m g i) = Some f;
  wf_leaf f q i : own !! f = Some q -> p_level q = 0 -> 0 <= i < 512 ->
    read_pte m f i = 0 \/ is_entry (read_pte m f i) /\ own !! pte_frame (read_pte m f i) = None
}.

(** The table of [va] after [n] steps down from the root. *)
Fixpoint tbl (m : gmap Z Z) (r va : Z) (n : nat) : option Z :=
  match n with
  | O => Some r
  | S n => t ← tbl m r va n; next_table (read_pte m t (vidx (3 - Z.of_nat n) va))
  end.

Definition is_root (own : gmap Z Pos) (r : Z) : Prop := own !! r = Some (mkPos r 3 0).
Definition low_va (va : Z) : Prop := 0 <= va < 2 ^ 47.

(** The entry that maps [va]; 0 if there is none. *)
Definition leaf (m : gmap Z Z) (r va : Z) : Z :=
  match tbl m r va 3 with Some t => read_pte m t (vidx 0 va) | None => 0 end.

Lemma walk_leaf_tbl m r va : walk_leaf m r va = tbl m r va 3.
Proof.
  unfold walk_leaf. cbn [tbl]. change (3 - Z.of_nat 0) with 3. change (3 - Z.of_nat 1) with 2. change (3 - Z.of_nat 2) with 1. cbn [mbind option_bind].
  assert (forall e, (if negb (has e PTE_PRESENT) || has e PTE_PS then None else Some (pte_frame e)) = next_table e) as En.
  { intros e. unfold next_table. by destruct (has e PTE_PRESENT), (has e PTE_PS). }
  rewrite En. destruct (next_table (read_pte m r (vidx 3 va))) as [t|]; [|done]. cbn. rewrite En.
  destruct (next_table (read_pte m t (vidx 2 va))) as [t'|]; [|done]. cbn. by rewrite En.
Qed.

Lemma vidx_div l va : 0 <= l -> vidx l va = (va / 2 ^ (12 + 9 * l)) mod 512.
Proof.
  intros Hl. unfold vidx. change 511 with (Z.ones 9). rewrite Z.land_ones, Z.shiftr_div_pow2 by lia. done.
Qed.

(** The prefix of the table at level [l]. *)
Definition pfx (l va : Z) : Z := va / 2 ^ (21 + 9 * l).

Lemma pfx_step l va : 0 <= l -> pfx (l + 1) va * 512 + vidx (l + 1) va = pfx l va.
Proof.
  intros Hl. rewrite vidx_div by lia. unfold pfx. replace (12 + 9 * (l + 1)) with (21 + 9 * l) by lia.
  replace (21 + 9 * (l + 1)) with (21 + 9 * l + 9) by lia. rewrite Z.pow_add_r, <- Z.div_div by lia. change (2 ^ 9) with 512.
  pose proof (Z.div_mod (va / 2 ^ (21 + 9 * l)) 512 ltac:(lia)). lia.
Qed.

Lemma low_top va : low_va va -> pfx 3 va = 0 /\ 0 <= vidx 3 va < 256.
Proof.
  intros [H0 H1]. unfold pfx. rewrite vidx_div by lia. split; [apply Z.div_small; cbn in *; lia|].
  change (2 ^ (12 + 9 * 3)) with (2 ^ 39). assert (0 <= va / 2 ^ 39 < 256); [|rewrite Z.mod_small by lia; lia].
  split; [apply Z.div_pos; lia|]. apply Z.div_lt_upper_bound; [lia|]. cbn in *. lia.
Qed.

Lemma next_table_entry e g : next_table e = Some g -> has e PTE_PRESENT = true /\ has e PTE_PS = false /\ g = pte_frame e.
Proof. unfold next_table. destruct (has e PTE_PRESENT), (has e PTE_PS); try done. by intros [= <-]. Qed.

Lemma has_0 b : has 0 b = false.
Proof. unfold has. by rewrite Z.land_0_l. Qed.

Lemma pos_fun (own : gmap Z Pos) t (p q : Pos) : own !! t = Some p -> own !! t = Some q -> p = q.
Proof. congruence. Qed.

Lemma low_idx_512 q i : low_idx q i -> 0 <= i < 512.
Proof. unfold low_idx. destruct (_ =? 3); lia. Qed.

(** The place below an index is the place of one table at most. *)
Lemma child_inj q q' i j : low_idx q i -> low_idx q' j -> child q i = child q' j -> q = q' /\ i = j.
Proof.
  intros Hi%low_idx_512 Hj%low_idx_512. destruct q as [r l p], q' as [r' l' p']. unfold child. cbn. intros [= -> ? ?].
  assert (l = l') as -> by lia. assert (p = p' /\ i = j) as [-> ->] by lia. done.
Qed.

Section Walks.
Context (m : gmap Z Z) (own : gmap Z Pos) (Hwf : wf m own).

Lemma wf_idx r l p va : p = mkPos r l (pfx l va) -> 0 <= l <= 3 -> low_va va -> low_idx p (vidx l va).
Proof.
  intros -> Hl Hva. unfold low_idx. cbn [p_level]. pose proof (vidx_range l va). destruct (l =? 3) eqn:E; [|lia].
  assert (l = 3) as -> by lia. apply (low_top va Hva).
Qed.

Lemma tbl_own r va n t : is_root own r -> low_va va -> (n <= 3)%nat -> tbl m r va n = Some t ->
  own !! t = Some (mkPos r (3 - Z.of_nat n) (pfx (3 - Z.of_nat n) va)).
Proof.
  intros Hr Hva. revert t. induction n as [|n IH]; intros t Hn Ht; cbn [tbl] in Ht.
  - injection Ht as <-. change (3 - Z.of_nat 0) with 3. by rewrite (proj1 (low_top va Hva)).
  - destruct (tbl m r va n) as [g|] eqn:Eg; [|done]. cbn in Ht. specialize (IH g ltac:(lia) eq_refl).
    destruct (wf_down m own Hwf g _ (vidx (3 - Z.of_nat n) va) IH) as [E0|(_ & t' & Et & Ho)].
    + cbn. lia.
    + eapply wf_idx; [done|lia|done].
    + rewrite E0 in Ht. unfold next_table in Ht. by rewrite has_0 in Ht.
    + rewrite Ht in Et. injection Et as <-. rewrite Ho. unfold child. cbn [p_root p_level p_prefix].
      replace (3 - Z.of_nat n - 1) with (3 - Z.of_nat (S n)) by lia.
      replace (3 - Z.of_nat n) with (3 - Z.of_nat (S n) + 1) by lia. by rewrite pfx_step by lia.
Qed.

Lemma own_tbl r va n t : low_va va -> (n <= 3)%nat -> own !! t = Some (mkPos r (3 - Z.of_nat n) (pfx (3 - Z.of_nat n) va)) ->
  tbl m r va n = Some t.
Proof.
  intros Hva. revert t. induction n as [|n IH]; intros t Hn Ht.
  - destruct (wf_pos m own Hwf t _ Ht) as (_ & _ & _ & Hr). cbn in Hr. specialize (Hr eq_refl). by injection Hr as ->.
  - destruct (wf_up m own Hwf t _ Ht) as (g & p & i & Hg & Hl & Hi & Eq & En); [cbn [p_level]; lia|].
    destruct p as [r' l p]. unfold child in Eq. cbn [p_root p_level p_prefix] in *. injection Eq as <- El Ep.
    assert (l = 3 - Z.of_nat n) as -> by lia.
    assert (0 <= i < 512) as Hi' by (unfold low_idx in Hi; cbn [p_level] in Hi; destruct (_ =? 3); lia).
    pose proof (pfx_step (3 - Z.of_nat (S n)) va ltac:(lia)) as Hp. replace (3 - Z.of_nat (S n) + 1) with (3 - Z.of_nat n) in Hp by lia.
    pose proof (vidx_range (3 - Z.of_nat n) va). assert (p = pfx (3 - Z.of_nat n) va /\ i = vidx (3 - Z.of_nat n) va) as [-> ->] by lia.
    cbn [tbl]. rewrite (IH g) by (lia || done). done.
Qed.

Lemma root_frame r : is_root own r -> is_frame r.
Proof. intros Hr. apply (wf_pos m own Hwf r _ Hr). Qed.

(** An address and the slot of its entry determine each other. *)
Lemma tbl_inj r va r' va' t : is_root own r -> is_root own r' -> low_va va -> low_va va' ->
  tbl m r va 3 = Some t -> tbl m r' va' 3 = Some t -> r = r' /\ va / 2 ^ 21 = va' / 2 ^ 21.
Proof.
  intros Hr Hr' Hva Hva' E E'. apply tbl_own in E, E'; try done. rewrite E in E'. injection E' as -> E'. split; [done|exact E'].
Qed.

Lemma leaf_entry r va : is_root own r -> low_va va ->
  leaf m r va = 0 \/ is_entry (leaf m r va) /\ own !! pte_frame (leaf m r va) = None.
Proof.
  intros Hr Hva. unfold leaf. destruct (tbl m r va 3) as [t|] eqn:Et; [|by left].
  pose proof (tbl_own r va 3 t Hr Hva ltac:(lia) Et) as Ho. exact (wf_leaf m own Hwf t _ _ Ho eq_refl (vidx_range 0 va)).
Qed.
Lemma own_frame t q : own !! t = Some q -> is_frame t.
Proof. intros Ht. apply (wf_pos m own Hwf t q Ht). Qed.

Lemma place_unique t t' q : own !! t = Some q -> own !! t' = Some q -> p_level q < 3 -> t = t'.
Proof.
  intros Ht Ht' Hl. remember (Z.to_nat (3 - p_level q)) as n eqn:En. revert q t t' Ht Ht' Hl En.
  induction n as [|n IH]; intros q t t' Ht Ht' Hl En; [lia|].
  destruct (wf_up m own Hwf t q Ht Hl) as (g & p & i & Hg & Hlp & Hi & Eq & E).
  destruct (wf_up m own Hwf t' q Ht' Hl) as (g' & p' & i' & Hg' & Hlp' & Hi' & Eq' & E').
  destruct (child_inj p p' i i' Hi Hi' ltac:(congruence)) as [<- <-].
  assert (g = g') as <-; [|congruence]. destruct (wf_pos m own Hwf g p Hg) as (_ & Hb & _ & H3).
  destruct (decide (p_level p = 3)) as [E3|].
  - destruct (wf_pos m own Hwf g' p Hg') as (_ & _ & _ & H3'). specialize (H3 E3). specialize (H3' E3). rewrite H3 in H3'. by injection H3'.
  - apply (IH p g g' Hg Hg'); [lia|]. subst q. cbn in *. lia.
Qed.
End Walks.

(** ** Changes of one entry *)

Lemma leaf_spec m own r va : wf m own -> is_root own r -> low_va va ->
  (exists t, own !! t = Some (mkPos r 0 (pfx 0 va)) /\ leaf m r va = read_pte m t (vidx 0 va)) \/
  (forall t, own !! t <> Some (mkPos r 0 (pfx 0 va))) /\ leaf m r va = 0.
Proof.
  intros Hwf Hr Hva. unfold leaf. destruct (tbl m r va 3) as [t|] eqn:Et.
  - left. exists t. split; [exact (tbl_own m own Hwf r va 3 t Hr Hva ltac:(lia) Et)|done].
  - right. split; [|done]. intros t Ht. by rewrite (own_tbl m own Hwf r va 3 t) in Et by (done || lia).
Qed.

Section Steps.
Context (m : gmap Z Z) (own : gmap Z Pos) (Hwf : wf m own).

Definition leaf_value (v : Z) : Prop := v = 0 \/ is_entry v /\ own !! pte_frame v = None.

Lemma set_leaf_wf t q i v : own !! t = Some q -> p_level q = 0 -> 0 <= i < 512 -> leaf_value v -> wf (write_pte t i v m) own.
Proof.
  intros Ht Hl Hi Hv. pose proof (own_frame m own Hwf t q Ht) as Hft.
  assert (forall f p j, own !! f = Some p -> 0 < p_level p -> 0 <= j < 512 -> read_pte (write_pte t i v m) f j = read_pte m f j) as Hup.
  { intros f p j Hf Hp Hj. rewrite read_write by (done || by eapply (own_frame m own)). rewrite decide_False; [done|]. intros [-> _].
    rewrite (pos_fun own t p q Hf Ht) in Hp. lia. }
  constructor.
  - exact (wf_pos m own Hwf).
  - intros f p j Hf Hp Hj. rewrite (Hup f p j Hf Hp (low_idx_512 _ _ Hj)). exact (wf_down m own Hwf f p j Hf Hp Hj).
  - intros f p Hf Hp. destruct (wf_up m own Hwf f p Hf Hp) as (g & p' & j & Hg & Hp' & Hj & Eq & En). exists g, p', j.
    by rewrite (Hup g p' j Hg Hp' (low_idx_512 _ _ Hj)).
  - intros f p j Hf Hp Hj. rewrite read_write by (done || by eapply (own_frame m own)). destruct (decide _) as [_|]; [exact Hv|].
    exact (wf_leaf m own Hwf f p j Hf Hp Hj).
Qed.

Lemma set_leaf_leaf t q i v r va : own !! t = Some q -> p_level q = 0 -> 0 <= i < 512 -> leaf_value v -> is_root own r -> low_va va ->
  leaf (write_pte t i v m) r va = if decide (q = mkPos r 0 (pfx 0 va) /\ i = vidx 0 va) then v else leaf m r va.
Proof.
  intros Ht Hl Hi Hv Hr Hva. pose proof (set_leaf_wf t q i v Ht Hl Hi Hv) as Hwf'. pose proof (own_frame m own Hwf t q Ht) as Hft.
  destruct (leaf_spec m own r va Hwf Hr Hva) as [(u & Hu & ->)|[Hno ->]].
  - destruct (leaf_spec _ own r va Hwf' Hr Hva) as [(u' & Hu' & ->)|[Hno _]]; [|by apply Hno in Hu].
    assert (u' = u) as -> by (eapply (place_unique m own); [done|done|done|cbn; lia]).
    rewrite read_write by (done || apply vidx_range || by eapply (own_frame m own)).
    destruct (decide (u = t /\ vidx 0 va = i)) as [[-> <-]|Hn].
    + rewrite decide_True; [done|]. split; [by eapply pos_fun|done].
    + rewrite decide_False; [done|]. intros [-> ->]. apply Hn. split; [|done]. eapply (place_unique m own); [done|done|done|cbn; lia].
  - destruct (leaf_spec _ own r va Hwf' Hr Hva) as [(u' & Hu' & _)|[_ ->]]; [by apply Hno in Hu'|].
    rewrite decide_False; [done|]. intros [-> _]. by apply Hno in Ht.
Qed.

(** An entry of an upper table that refers to the same table as before. *)
Lemma set_flags_wf t q i v : own !! t = Some q -> 0 < p_level q -> low_idx q i -> read_pte m t i <> 0 -> is_entry v ->
  next_table v = next_table (read_pte m t i) -> wf (write_pte t i v m) own.
Proof.
  intros Ht Hl Hi Hnz Hv Hnx. pose proof (own_frame m own Hwf t q Ht) as Hft. pose proof (low_idx_512 _ _ Hi) as Hi'.
  constructor.
  - exact (wf_pos m own Hwf).
  - intros f p j Hf Hp Hj. rewrite read_write by (done || by eapply low_idx_512 || by eapply (own_frame m own)).
    destruct (decide _) as [[-> ->]|]; [|exact (wf_down m own Hwf f p j Hf Hp Hj)].
    destruct (wf_down m own Hwf t p i Hf Hp Hj) as [|(_ & g & Eg & Hg)]; [done|]. right. split; [done|]. exists g. by rewrite Hnx.
  - intros f p Hf Hp. destruct (wf_up m own Hwf f p Hf Hp) as (g & p' & j & Hg & Hp' & Hj & Eq & En). exists g, p', j.
    rewrite read_write by (done || by eapply low_idx_512 || by eapply (own_frame m own)). destruct (decide _) as [[-> ->]|]; [|done]. by rewrite Hnx.
  - intros f p j Hf Hp Hj. rewrite read_write by (done || by eapply (own_frame m own)). rewrite decide_False; [exact (wf_leaf m own Hwf f p j Hf Hp Hj)|].
    intros [-> _]. rewrite (pos_fun own t p q Hf Ht) in Hp. lia.
Qed.

(** The trees as they were, seen from the leaves. *)
Lemma same_leaf m' own' r va : wf m' own' -> is_root own r -> is_root own' r -> low_va va ->
  (forall t, own !! t = Some (mkPos r 0 (pfx 0 va)) -> own' !! t = own !! t /\ read_pte m' t (vidx 0 va) = read_pte m t (vidx 0 va) \/
     read_pte m t (vidx 0 va) = 0 /\ forall t', own' !! t' = Some (mkPos r 0 (pfx 0 va)) -> read_pte m' t' (vidx 0 va) = 0) ->
  ((forall t, own !! t <> Some (mkPos r 0 (pfx 0 va))) -> forall t', own' !! t' = Some (mkPos r 0 (pfx 0 va)) -> read_pte m' t' (vidx 0 va) = 0) ->
  leaf m' r va = leaf m r va.
Proof.
  intros Hwf' Hr Hr' Hva Hin Hout.
  destruct (leaf_spec m own r va Hwf Hr Hva) as [(t & Ht & ->)|[Hno ->]];
    destruct (leaf_spec m' own' r va Hwf' Hr' Hva) as [(t' & Ht' & ->)|[Hno' ->]].
  - destruct (Hin t Ht) as [[Ho Hrd]|[-> Hz]]; [|by apply Hz].
    rewrite <- Hrd. assert (t' = t) as -> by (rewrite <- Ho in Ht; eapply (place_unique m' own'); [done|done|done|cbn; lia]). done.
  - destruct (Hin t Ht) as [[Ho _]|[-> _]]; [|done]. rewrite <- Ho in Ht. by apply Hno' in Ht.
  - by apply Hout.
  - done.
Qed.

Lemma set_flags_leaf t q i v r va : own !! t = Some q -> 0 < p_level q -> low_idx q i -> read_pte m t i <> 0 -> is_entry v ->
  next_table v = next_table (read_pte m t i) -> is_root own r -> low_va va -> leaf (write_pte t i v m) r va = leaf m r va.
Proof.
  intros Ht Hl Hi Hnz Hv Hnx Hr Hva. eapply same_leaf; [by eapply set_flags_wf|done|done|done| |].
  - intros u Hu. left. split; [done|]. rewrite read_write by (done || apply vidx_range || by eapply (own_frame m own) || by eapply low_idx_512).
    rewrite decide_False; [done|]. intros [-> _]. pose proof (pos_fun own t _ q Hu Ht) as <-. cbn in Hl. lia.
  - intros Hno u Hu. by apply Hno in Hu.
Qed.

(** A new, empty table. *)
Definition link (t i f v : Z) : gmap Z Z := zero_frame f (write_pte t i v m).

Record linkable (t : Z) (q : Pos) (i f v : Z) : Prop := {
  lk_own : own !! t = Some q;
  lk_level : 0 < p_level q;
  lk_idx : low_idx q i;
  lk_free : read_pte m t i = 0;
  lk_frame : is_frame f;
  lk_new : own !! f = None;
  lk_unref : forall g p j, own !! g = Some p -> p_level p = 0 -> 0 <= j < 512 -> pte_frame (read_pte m g j) = f -> read_pte m g j = 0;
  lk_entry : is_entry v;
  lk_next : next_table v = Some f
}.

Lemma link_read t q i f v g j : linkable t q i f v -> is_frame g -> 0 <= j < 512 ->
  read_pte (link t i f v) g j = if decide (g = f) then 0 else if decide (g = t /\ j = i) then v else read_pte m g j.
Proof.
  intros [Ht Hl Hi Hz Hf Hn _ _ _] Hg Hj. unfold link. rewrite read_zero by done. destruct (decide (g = f)); [done|].
  apply read_write; [by eapply (own_frame m own)|done|by eapply low_idx_512|done].
Qed.

(** No table has the place of the new one. *)
Lemma link_place t q i f v u : linkable t q i f v -> own !! u <> Some (child q i).
Proof.
  intros [Ht Hl Hi Hz _ _ _ _ _] Hu. destruct (wf_pos m own Hwf t q Ht) as (_ & Hb & _).
  destruct (wf_up m own Hwf u _ Hu) as (g & p & j & Hg & Hp & Hj & Eq & En); [cbn; lia|].
  destruct (child_inj q p i j Hi Hj Eq) as [<- <-].
  assert (g = t) as ->.
  { destruct (decide (p_level q = 3)) as [E3|]; [|eapply (place_unique m own); [done|done|done|lia]].
    destruct (wf_pos m own Hwf g q Hg) as (_ & _ & _ & H1). destruct (wf_pos m own Hwf t q Ht) as (_ & _ & _ & H2).
    specialize (H1 E3). specialize (H2 E3). rewrite H1 in H2. by injection H2. }
  rewrite Hz in En. unfold next_table in En. by rewrite has_0 in En.
Qed.

Lemma link_wf t q i f v : linkable t q i f v -> wf (link t i f v) (<[f := child q i]> own).
Proof.
  intros HL. pose proof HL as [Ht Hl Hi Hz Hf Hn Hu He Hx]. destruct (wf_pos m own Hwf t q Ht) as (Hft & Hb & Hpx & _).
  assert (t <> f) as Htf by congruence.
  assert (forall g p j, own !! g = Some p -> 0 <= j < 512 -> read_pte (link t i f v) g j = if decide (g = t /\ j = i) then v else read_pte m g j) as Hrd.
  { intros g p j Hg Hj. rewrite (link_read t q i f v g j HL) by (done || by eapply (own_frame m own)). by rewrite decide_False by congruence. }
  assert (forall j, 0 <= j < 512 -> read_pte (link t i f v) f j = 0) as Hrf.
  { intros j Hj. rewrite (link_read t q i f v f j HL Hf Hj). by rewrite decide_True. }
  constructor.
  - intros g p [[<- <-]|[Hg Hp]]%lookup_insert_Some; [|exact (wf_pos m own Hwf g p Hp)]. split; [done|]. cbn.
    apply low_idx_512 in Hi. split_and!; [lia|lia|nia|lia].
  - intros g p j [[<- <-]|[Hg Hp]]%lookup_insert_Some Hlp Hj; [left; by apply Hrf, (low_idx_512 _ _ Hj)|].
    rewrite (Hrd g p j Hp (low_idx_512 _ _ Hj)). destruct (decide _) as [[-> ->]|].
    + right. split; [done|]. exists f. rewrite (pos_fun own t p q Hp Ht). by rewrite lookup_insert_eq.
    + destruct (wf_down m own Hwf g p j Hp Hlp Hj) as [|(He' & x & Ex & Hox)]; [by left|]. right. split; [done|]. exists x.
      split; [done|]. rewrite lookup_insert_ne; [done|]. congruence.
  - intros g p [[<- <-]|[Hg Hp]]%lookup_insert_Some Hlp.
    + exists t, q, i. rewrite lookup_insert_ne by done. rewrite (Hrd t q i Ht (low_idx_512 _ _ Hi)), decide_True by done. done.
    + destruct (wf_up m own Hwf g p Hp Hlp) as (x & p' & j & Hx' & Hp' & Hj & Eq & En). exists x, p', j.
      rewrite lookup_insert_ne by congruence. rewrite (Hrd x p' j Hx' (low_idx_512 _ _ Hj)). rewrite decide_False; [done|].
      intros [-> ->]. rewrite Hz in En. unfold next_table in En. by rewrite has_0 in En.
  - intros g p j [[<- <-]|[Hg Hp]]%lookup_insert_Some Hlp Hj; [left; by apply Hrf|].
    rewrite (Hrd g p j Hp Hj). rewrite decide_False by (intros [-> _]; rewrite (pos_fun own t p q Hp Ht) in Hlp; lia).
    destruct (wf_leaf m own Hwf g p j Hp Hlp Hj) as [|[He' Ho]]; [by left|].
    destruct (decide (pte_frame (read_pte m g j) = f)) as [E|]; [left; exact (Hu g p j Hp Hlp Hj E)|].
    right. split; [done|]. by rewrite lookup_insert_ne by congruence.
Qed.

Lemma link_root t q i f v r : linkable t q i f v -> is_root (<[f := child q i]> own) r <-> is_root own r.
Proof.
  intros [Ht Hl Hi Hz Hf Hn _ _ _]. unfold is_root. destruct (decide (r = f)) as [->|]; [|by rewrite lookup_insert_ne by congruence].
  rewrite lookup_insert_eq, Hn. destruct (wf_pos m own Hwf t q Ht) as (_ & Hb & _). split; [|done]. intros [= _ E _]. lia.
Qed.

Lemma link_leaf t q i f v r va : linkable t q i f v -> is_root own r -> low_va va -> leaf (link t i f v) r va = leaf m r va.
Proof.
  intros HL Hr Hva. pose proof HL as [Ht Hl Hi Hz Hf Hn _ _ _].
  assert (forall u, own !! u = Some (mkPos r 0 (pfx 0 va)) -> u <> t) as Hut.
  { intros u Hu ->. rewrite (pos_fun own t q _ Ht Hu) in Hl. cbn in Hl. lia. }
  eapply same_leaf; [by apply link_wf|done|by apply (link_root t q i f v)|done| |].
  - intros u Hu. left. assert (u <> f) by congruence. rewrite lookup_insert_ne by congruence. split; [done|].
    rewrite (link_read t q i f v u _ HL) by (apply vidx_range || by eapply (own_frame m own)).
    rewrite decide_False by done. rewrite decide_False; [done|]. intros [-> _]. by apply (Hut t).
  - intros Hno u [[<- _]|[_ Hu]]%lookup_insert_Some; [|by apply Hno in Hu].
    rewrite (link_read t q i f v f _ HL Hf (vidx_range 0 va)). by rewrite decide_True.
Qed.

(** An empty table goes. *)
Record unlinkable (t : Z) (q : Pos) (i f : Z) : Prop := {
  ul_own : own !! t = Some q;
  ul_level : 0 < p_level q;
  ul_idx : low_idx q i;
  ul_next : next_table (read_pte m t i) = Some f;
  ul_empty : forall j, 0 <= j < 512 -> read_pte m f j = 0
}.

Lemma unlink_own t q i f : unlinkable t q i f -> own !! f = Some (child q i) /\ f <> t.
Proof.
  intros [Ht Hl Hi Hx _]. destruct (wf_down m own Hwf t q i Ht Hl Hi) as [E|(_ & g & Eg & Hg)].
  - rewrite E in Hx. unfold next_table in Hx. by rewrite has_0 in Hx.
  - rewrite Hx in Eg. injection Eg as <-. split; [done|]. intros ->. rewrite Ht in Hg. injection Hg as Hg. destruct q; unfold child in Hg; cbn in Hg. injection Hg. lia.
Qed.

Lemma unlink_wf t q i f : unlinkable t q i f -> wf (write_pte t i 0 m) (delete f own).
Proof.
  intros HU. destruct (unlink_own t q i f HU) as [Hf Hft]. destruct HU as [Ht Hl Hi Hx Hem]. pose proof (low_idx_512 _ _ Hi) as Hi'.
  pose proof (own_frame m own Hwf t q Ht) as Hfr.
  constructor.
  - intros g p [_ Hg]%lookup_delete_Some. exact (wf_pos m own Hwf g p Hg).
  - intros g p j [Hgf Hg]%lookup_delete_Some Hp Hj.
    rewrite read_write by (done || by eapply low_idx_512 || by eapply (own_frame m own)). destruct (decide _) as [|Hn]; [by left|].
    destruct (wf_down m own Hwf g p j Hg Hp Hj) as [|(He & x & Ex & Ho)]; [by left|]. right. split; [done|]. exists x. split; [done|].
    rewrite lookup_delete_ne; [done|]. intros ->. destruct (child_inj p q j i Hj Hi) as [-> ->]; [by eapply pos_fun|]. apply Hn. split; [|done].
    destruct (decide (p_level q = 3)) as [E3|]; [|eapply (place_unique m own); [done|done|done|destruct (wf_pos m own Hwf t q Ht); lia]].
    destruct (wf_pos m own Hwf g q Hg) as (_ & _ & _ & H1). destruct (wf_pos m own Hwf t q Ht) as (_ & _ & _ & H2).
    specialize (H1 E3). specialize (H2 E3). rewrite H1 in H2. by injection H2.
  - intros g p [Hgf Hg]%lookup_delete_Some Hp. destruct (wf_up m own Hwf g p Hg Hp) as (x & p' & j & Hx' & Hp' & Hj & Eq & En).
    exists x, p', j. pose proof (low_idx_512 _ _ Hj) as Hj'. split; [rewrite lookup_delete_ne; [done|]|].
    + intros <-. rewrite Hem in En by done. unfold next_table in En. by rewrite has_0 in En.
    + rewrite read_write by (done || by eapply (own_frame m own)). rewrite decide_False; [done|]. intros [-> ->]. congruence.
  - intros g p j [Hgf Hg]%lookup_delete_Some Hp Hj. rewrite read_write by (done || by eapply (own_frame m own)).
    rewrite decide_False by (intros [-> _]; pose proof (pos_fun own t p q Hg Ht) as ->; lia).
    destruct (wf_leaf m own Hwf g p j Hg Hp Hj) as [|[He Ho]]; [by left|]. right. split; [done|]. rewrite lookup_delete_None. by right.
Qed.

Lemma unlink_root t q i f r : unlinkable t q i f -> is_root (delete f own) r <-> is_root own r.
Proof.
  intros HU. destruct (unlink_own t q i f HU) as [Hf _]. destruct HU as [Ht Hl Hi Hx Hem]. unfold is_root.
  destruct (decide (r = f)) as [->|]; [|by rewrite lookup_delete_ne by congruence]. rewrite lookup_delete_eq, Hf.
  destruct (wf_pos m own Hwf t q Ht) as (_ & Hb & _). split; [done|]. intros [= _ E _]. lia.
Qed.

Lemma unlink_leaf t q i f r va : unlinkable t q i f -> is_root own r -> low_va va -> leaf (write_pte t i 0 m) r va = leaf m r va.
Proof.
  intros HU Hr Hva. pose proof (unlink_own t q i f HU) as [Hf Hft]. pose proof (unlink_wf t q i f HU) as Hwf'.
  eapply same_leaf; [exact Hwf'|done|by apply (unlink_root t q i f)|done| |].
  - destruct HU as [Ht Hl Hi Hx Hem]. intros u Hu. destruct (decide (u = f)) as [->|Hne].
    + right. split; [apply Hem, vidx_range|]. intros t' [Hn Ht']%lookup_delete_Some. exfalso. apply Hn. eapply (place_unique m own); [done|done|done|cbn; lia].
    + left. rewrite lookup_delete_ne by congruence. split; [done|].
      rewrite read_write by (done || apply vidx_range || by eapply (own_frame m own) || by eapply low_idx_512).
      rewrite decide_False; [done|]. intros [-> _]. pose proof (pos_fun own t _ q Hu Ht) as <-. cbn in Hl. lia.
  - intros Hno t' [_ Ht']%lookup_delete_Some. by apply Hno in Ht'.
Qed.

Lemma empty_table t q : own !! t = Some q -> p_level q < 3 -> table_is_empty m t = true -> forall j, 0 <= j < 512 -> read_pte m t j = 0.
Proof.
  unfold table_is_empty. rewrite forallb_forall. intros Ht Hl Hem j Hj. specialize (Hem j). rewrite <- list_elem_of_In, elem_of_seqZ in Hem.
  specialize (Hem ltac:(lia)). apply negb_true_iff in Hem. destruct (wf_pos m own Hwf t q Ht) as (_ & Hb & _).
  destruct (decide (p_level q = 0)) as [E0|].
  - destruct (wf_leaf m own Hwf t q j Ht E0 Hj) as [|[(_ & He & _) _]]; [done|congruence].
  - destruct (wf_down m own Hwf t q j Ht) as [|((_ & He & _) & _)]; [lia| |done|congruence]. unfold low_idx. replace (p_level q =? 3) with false by lia. lia.
Qed.
End Steps.

(** Memory that differs outside of the tables. *)
Definition same_tbls (own : gmap Z Pos) (m m' : gmap Z Z) : Prop :=
  forall f q i, own !! f = Some q -> 0 <= i < 512 -> read_pte m' f i = read_pte m f i.

Lemma wf_ext m m' own : wf m own -> same_tbls own m m' -> wf m' own.
Proof.
  intros Hwf Hs. constructor.
  - exact (wf_pos m own Hwf).
  - intros f q i Hf Hl Hi. rewrite (Hs f q i Hf (low_idx_512 _ _ Hi)). exact (wf_down m own Hwf f q i Hf Hl Hi).
  - intros f q Hf Hl. destruct (wf_up m own Hwf f q Hf Hl) as (g & p & i & Hg & Hp & Hi & Eq & En). exists g, p, i.
    by rewrite (Hs g p i Hg (low_idx_512 _ _ Hi)).
  - intros f q i Hf Hl Hi. rewrite (Hs f q i Hf Hi). exact (wf_leaf m own Hwf f q i Hf Hl Hi).
Qed.

Lemma leaf_ext m m' own r va : wf m own -> same_tbls own m m' -> is_root own r -> low_va va -> leaf m' r va = leaf m r va.
Proof.
  intros Hwf Hs Hr Hva. eapply same_leaf; [exact Hwf|by eapply wf_ext|done|done|done| |].
  - intros t Ht. left. split; [done|]. exact (Hs t _ _ Ht (vidx_range 0 va)).
  - intros Hno t Ht. by apply Hno in Ht.
Qed.

Lemma same_tbls_out (own : gmap Z Pos) m m' (x : Z) : (forall f q, own !! f = Some q -> is_frame f) -> is_frame x -> own !! x = None ->
  (forall a, ~ in_frame x a -> rd m' a = rd m a) -> same_tbls own m m'.
Proof.
  intros Hfr Hx Hn Hrd f q i Hf Hi. apply Hrd. intros Hin. assert (f = x) as ->; [|congruence].
  exact (in_frame_inj f x _ (Hfr f q Hf) Hx (entry_in_frame f i Hi) Hin).
Qed.

(** ** Roots *)

Lemma new_root_wf m m' own f : wf m own -> same_tbls own m m' -> is_frame f -> own !! f = None ->
  (forall g p j, own !! g = Some p -> p_level p = 0 -> 0 <= j < 512 -> pte_frame (read_pte m g j) = f -> read_pte m g j = 0) ->
  (forall i, 0 <= i < 256 -> read_pte m' f i = 0) -> wf m' (<[f := mkPos f 3 0]> own).
Proof.
  intros Hwf0 Hs Hf Hn Hu Hz. pose proof (wf_ext m m' own Hwf0 Hs) as Hwf. constructor.
  - intros g q [[<- <-]|[Hne Hg]]%lookup_insert_Some; [cbn; split_and!; (done || lia)|exact (wf_pos m' own Hwf g q Hg)].
  - intros g q i [[<- <-]|[Hne Hg]]%lookup_insert_Some Hl Hi; [left; by apply Hz|].
    destruct (wf_down m' own Hwf g q i Hg Hl Hi) as [|(He & x & Ex & Hx)]; [by left|]. right. split; [done|]. exists x. split; [done|].
    rewrite lookup_insert_ne; [done|congruence].
  - intros g q [[<- <-]|[Hne Hg]]%lookup_insert_Some Hl; [cbn in Hl; lia|].
    destruct (wf_up m' own Hwf g q Hg Hl) as (x & p & i & Hx & Hp & Hi & Eq & En). exists x, p, i.
    rewrite lookup_insert_ne by congruence. done.
  - intros g q i [[<- <-]|[Hne Hg]]%lookup_insert_Some Hl Hi; [done|].
    destruct (wf_leaf m' own Hwf g q i Hg Hl Hi) as [|[He Ho]]; [by left|].
    destruct (decide (pte_frame (read_pte m' g i) = f)) as [E|].
    + left. rewrite (Hs g q i Hg Hi) in *. exact (Hu g q i Hg Hl Hi E).
    + right. split; [done|]. by rewrite lookup_insert_ne by congruence.
Qed.

Lemma new_root_leaf m m' own f r va : wf m own -> wf m' (<[f := mkPos f 3 0]> own) -> same_tbls own m m' -> own !! f = None ->
  is_root (<[f := mkPos f 3 0]> own) r -> low_va va -> leaf m' r va = if decide (r = f) then 0 else leaf m r va.
Proof.
  intros Hwf Hwf' Hs Hn Hr Hva. destruct (decide (r = f)) as [->|Hne].
  - destruct (leaf_spec m' _ f va Hwf' Hr Hva) as [(t & Ht & _)|[_ ->]]; [|done]. exfalso.
    apply lookup_insert_Some in Ht as [[_ [=]]|[Hne Ht]].
    destruct (wf_pos m own Hwf t _ Ht) as (_ & Hb & _).
    assert (forall n g q, Z.to_nat (3 - p_level q) = n -> own !! g = Some q -> p_root q = f -> False) as Hno; [|by eapply Hno].
    intros n. induction n as [|n IH]; intros g q En Hg Hrt; destruct (wf_pos m own Hwf g q Hg) as (_ & Hb' & _ & H3).
    + rewrite H3 in Hrt by lia. cbn in Hrt. congruence.
    + destruct (wf_up m own Hwf g q Hg) as (x & p & i & Hx & Hp & Hi & -> & _); [lia|]. apply (IH x p); [cbn in *; lia|done|done].
  - eapply same_leaf; [exact Hwf|exact Hwf'|unfold is_root in *; by rewrite lookup_insert_ne in Hr|done|done| |].
    + intros t Ht. left. assert (t <> f) by congruence. rewrite lookup_insert_ne by congruence. split; [done|]. exact (Hs t _ _ Ht (vidx_range 0 va)).
    + intros Hno t [[_ [=]]|[_ Ht]]%lookup_insert_Some. by apply Hno in Ht.
Qed.

Lemma drop_root_wf m own r : wf m own -> is_root own r -> (forall i, 0 <= i < 256 -> read_pte m r i = 0) -> wf m (delete r own).
Proof.
  intros Hwf Hr Hz. constructor.
  - intros g q [_ Hg]%lookup_delete_Some. exact (wf_pos m own Hwf g q Hg).
  - intros g q i [Hne Hg]%lookup_delete_Some Hl Hi. destruct (wf_down m own Hwf g q i Hg Hl Hi) as [|(He & x & Ex & Hx)]; [by left|].
    right. split; [done|]. exists x. split; [done|]. rewrite lookup_delete_ne; [done|]. intros <-. assert (mkPos r 3 0 = child q i) as Ec by congruence.
    destruct (wf_pos m own Hwf g q Hg) as (_ & Hb & _). apply (f_equal p_level) in Ec. cbn in Ec. lia.
  - intros g q [Hne Hg]%lookup_delete_Some Hl. destruct (wf_up m own Hwf g q Hg Hl) as (x & p & i & Hx & Hp & Hi & Eq & En).
    exists x, p, i. rewrite lookup_delete_ne; [done|]. intros <-. pose proof (pos_fun own r _ _ Hx Hr) as ->.
    rewrite Hz in En by exact Hi. unfold next_table in En. by rewrite has_0 in En.
  - intros g q i [Hne Hg]%lookup_delete_Some Hl Hi. destruct (wf_leaf m own Hwf g q i Hg Hl Hi) as [|[He Ho]]; [by left|].
    right. split; [done|]. rewrite lookup_delete_None. by right.
Qed.
