(* ===== verification/VmmInv.v ===== *)
(** * Page tables: frames and who refers to them

    Every frame of user memory is free, a table, or referred to: by entries of page
    tables and by the kernel code that is working with it.  The counters of
    framecnt say how often, and a writable page is the only reference to its
    frame. *)

From stdpp Require Import gmultiset.
From S2P Require Import Prelude Bits State Vmm VmmFacts VmmTree.
Local Open Scope Z_scope.

#[local] Opaque zero_frame copy_frame table_is_empty.

(** What the frame allocator promises: [managed] frames are those it may hand out,
    [avail] those it has. *)
Class FrameLaws (A : Type) `{FrameOps A} := {
  fr_ok : A -> Prop;
  avail : A -> Z -> Prop;
  managed : A -> Z -> Prop;
  fr_alloc_ok a : fr_ok a -> exists a' r, fr_alloc a = Ok (a', r) /\ fr_ok a' /\ fr_total a' = fr_total a /\
    (forall g, managed a' g <-> managed a g) /\
    match r with
    | Some f => avail a f /\ forall g, avail a' g <-> avail a g /\ g <> f
    | None => a' = a
    end;
  fr_free_ok a f : fr_ok a -> managed a f -> ~ avail a f -> exists a', fr_free a f = Ok a' /\ fr_ok a' /\ fr_total a' = fr_total a /\
    (forall g, managed a' g <-> managed a g) /\ forall g, avail a' g <-> avail a g \/ g = f;
  avail_managed a f : fr_ok a -> avail a f -> managed a f;
  managed_frame a f : fr_ok a -> managed a f -> is_frame f /\ f / 4096 < fr_total a
}.

(** ** References *)

Definition slots (own : gmap Z Pos) : gset (Z * Z) :=
  list_to_set (flat_map (fun p : Z * Pos => if p_level p.2 =? 0 then map (fun i => (p.1, i)) (seqZ 0 512) else []) (map_to_list own)).

Lemma elem_of_slots own t i : (t, i) ∈ slots own <-> exists q, own !! t = Some q /\ p_level q = 0 /\ 0 <= i < 512.
Proof.
  unfold slots. rewrite elem_of_list_to_set, list_elem_of_In, in_flat_map. split.
  - intros ([t' q] & Hin & Hi). cbn in Hi. destruct (p_level q =? 0) eqn:E; [|done].
    apply in_map_iff in Hi as (j & [= <- <-] & Hj). apply list_elem_of_In, elem_of_seqZ in Hj. apply list_elem_of_In, elem_of_map_to_list in Hin.
    exists q. split; [done|]. lia.
  - intros (q & Ht & Hl & Hi). exists (t, q). split; [by apply list_elem_of_In, elem_of_map_to_list|]. cbn. replace (p_level q =? 0) with true by lia.
    apply in_map_iff. exists i. split; [done|]. apply list_elem_of_In, elem_of_seqZ. lia.
Qed.

Definition refers (m : gmap Z Z) (x : Z) (σ : Z * Z) : Prop := read_pte m σ.1 σ.2 <> 0 /\ pte_frame (read_pte m σ.1 σ.2) = x.

Definition refset (m : gmap Z Z) (own : gmap Z Pos) (x : Z) : gset (Z * Z) := filter (refers m x) (slots own).

Lemma elem_of_refset m own x t i : (t, i) ∈ refset m own x <->
  (exists q, own !! t = Some q /\ p_level q = 0 /\ 0 <= i < 512) /\ read_pte m t i <> 0 /\ pte_frame (read_pte m t i) = x.
Proof. unfold refset. rewrite elem_of_filter, elem_of_slots. unfold refers. cbn. tauto. Qed.

(** An entry as a reference to [x]. *)
Definition ref1 (e x : Z) : nat := if decide (e <> 0 /\ pte_frame e = x) then 1 else 0.

Section Inv.
Context {A : Type} `{FrameLaws A}.
Notation S := (Mm A).
Implicit Types (s : S) (own : gmap Z Pos) (D : gmultiset Z).

Definition cnt s (x : Z) : Z := count_at s (Z.shiftr x 12).

(** The references to [x], those in [D] of kernel code. *)
Definition total s own D (x : Z) : nat := (size (refset (mm_mem s) own x) + multiplicity x D)%nat.

Record inv s own D : Prop := {
  i_wf : wf (mm_mem s) own;
  i_fr : fr_ok (mm_frames s);
  i_own f q : own !! f = Some q -> managed (mm_frames s) f /\ ~ avail (mm_frames s) f /\ cnt s f = 0 /\ f ∉ D;
  i_leaf t i : (t, i) ∈ slots own -> read_pte (mm_mem s) t i <> 0 ->
    managed (mm_frames s) (pte_frame (read_pte (mm_mem s) t i)) /\ ~ avail (mm_frames s) (pte_frame (read_pte (mm_mem s) t i));
  i_held x : x ∈ D -> managed (mm_frames s) x /\ ~ avail (mm_frames s) x;
  i_avail x : avail (mm_frames s) x -> cnt s x = 0;
  i_cnt x : managed (mm_frames s) x -> 0 <= cnt s x /\ (cnt s x = 0 -> (total s own D x <= 1)%nat) /\
    (0 < cnt s x -> Z.of_nat (total s own D x) = cnt s x);
  i_excl t i : (t, i) ∈ slots own -> has (read_pte (mm_mem s) t i) PTE_WRITABLE = true ->
    total s own D (pte_frame (read_pte (mm_mem s) t i)) = 1%nat;
  i_clones r : is_root own r -> r ∈ mm_clones s;
  i_small : fr_total (mm_frames s) < 2 ^ 23
}.

Lemma refset_ext m m' own own' x :
  (forall t i, (t, i) ∈ slots own -> (t, i) ∈ slots own' /\ read_pte m' t i = read_pte m t i \/ read_pte m t i = 0) ->
  (forall t i, (t, i) ∈ slots own' -> (t, i) ∈ slots own /\ read_pte m' t i = read_pte m t i \/ read_pte m' t i = 0) ->
  refset m' own' x = refset m own x.
Proof.
  intros H1 H2. apply set_eq. intros [t i]. unfold refset. rewrite !elem_of_filter. unfold refers. cbn. split.
  - intros [[Hn Hx] Hs]. destruct (H2 t i Hs) as [[Hs' E]|]; [|done]. by rewrite <- E.
  - intros [[Hn Hx] Hs]. destruct (H1 t i Hs) as [[Hs' E]|]; [|done]. by rewrite E.
Qed.

Lemma same_tbls_slots own m m' t i : same_tbls own m m' -> (t, i) ∈ slots own -> read_pte m' t i = read_pte m t i.
Proof. intros Hs (q & Ht & _ & Hi)%elem_of_slots. exact (Hs t q i Ht Hi). Qed.

Lemma inv_mem s own D m' : inv s own D -> same_tbls own (mm_mem s) m' -> inv (mkMm m' (mm_frames s) (mm_clones s) (mm_counts s)) own D.
Proof.
  intros [Hwf Hfr Hown Hleaf Hheld Hav Hcnt Hex Hcl Hsm] Hs.
  assert (forall x, refset m' own x = refset (mm_mem s) own x) as Hr.
  { intros x. apply refset_ext; intros t i Hti; left; (split; [done|by apply (same_tbls_slots own)]). }
  assert (forall x, total (mkMm m' (mm_frames s) (mm_clones s) (mm_counts s)) own D x = total s own D x) as Ht.
  { intros x. unfold total. cbn [mm_mem]. by rewrite Hr. }
  constructor; cbn [mm_mem mm_frames mm_clones]; try done.
  - by eapply wf_ext.
  - intros t i Hti. rewrite (same_tbls_slots own (mm_mem s) m' t i Hs Hti). by apply Hleaf.
  - intros x Hx. rewrite Ht. by apply Hcnt.
  - intros t i Hti. rewrite (same_tbls_slots own (mm_mem s) m' t i Hs Hti), Ht. by apply Hex.
Qed.

(** A frame that nothing refers to. *)
Definition unref s own x : Prop := own !! x = None /\ refset (mm_mem s) own x = ∅.

Lemma avail_unref s own D x : inv s own D -> avail (mm_frames s) x -> unref s own x /\ x ∉ D /\ cnt s x = 0.
Proof.
  intros [Hwf Hfr Hown Hleaf Hheld Hav Hcnt Hex Hcl Hsm] Hx. unfold unref. split_and!.
  - destruct (own !! x) eqn:E; [|done]. by destruct (Hown x _ E) as (_ & ? & _).
  - apply set_eq. intros [t i]. rewrite elem_of_refset. split; [|by intros ?%elem_of_empty]. intros (Hq & Hn & E).
    assert ((t, i) ∈ slots own) as Hs by (by apply elem_of_slots). destruct (Hleaf t i Hs Hn) as [_ Hna]. by rewrite E in Hna.
  - intros Hd. by destruct (Hheld x Hd).
  - by apply Hav.
Qed.

Lemma inv_alloc s own D a r : inv s own D -> fr_alloc (mm_frames s) = Ok (a, r) ->
  match r with
  | Some f => inv (set_frames a s) own ({[+ f +]} ⊎ D) /\ unref s own f /\ f ∉ D /\ cnt s f = 0 /\ managed (mm_frames s) f
  | None => set_frames a s = s
  end.
Proof.
  intros Hi Ea. pose proof Hi as [Hwf Hfr Hown Hleaf Hheld Hav Hcnt Hex Hcl Hsm].
  destruct (fr_alloc_ok (mm_frames s) Hfr) as (a' & r' & Ea' & Hok & Htot & Hman & Hr). rewrite Ea in Ea'. injection Ea' as <- <-.
  destruct r as [f|]; [|subst a; by destruct s]. destruct Hr as [Hf Hav'].
  destruct (avail_unref s own D f Hi Hf) as (Hu & Hd & Hc). pose proof (avail_managed _ _ Hfr Hf) as Hm.
  split; [|done]. destruct Hu as [Ho Hrf].
  assert (forall x, total (set_frames a s) own ({[+ f +]} ⊎ D) x = (total s own D x + (if decide (x = f) then 1 else 0))%nat) as Ht.
  { intros x. unfold total. cbn [mm_mem set_frames]. rewrite multiplicity_disj_union. destruct (decide (x = f)) as [->|].
    - rewrite multiplicity_singleton_eq. lia.
    - rewrite multiplicity_singleton_ne by done. lia. }
  assert (total s own D f = 0)%nat as Hz.
  { unfold total. rewrite Hrf, size_empty. apply not_elem_of_multiplicity in Hd. lia. }
  constructor; cbn [mm_mem mm_frames mm_clones set_frames]; try done.
  - intros g q Hg. destruct (Hown g q Hg) as (? & ? & ? & ?). split_and!; [by apply Hman|rewrite Hav'; tauto|done|].
    rewrite gmultiset_elem_of_disj_union, gmultiset_elem_of_singleton. intros [->|]; congruence.
  - intros t i Hti Hn. destruct (Hleaf t i Hti Hn). rewrite Hman, Hav'. tauto.
  - intros x. rewrite gmultiset_elem_of_disj_union, gmultiset_elem_of_singleton, Hman, Hav'. intros [->|Hx]; [tauto|]. destruct (Hheld x Hx). tauto.
  - intros x [Hx _]%Hav'. by apply Hav.
  - intros x Hx%Hman. change (cnt (set_frames a s) x) with (cnt s x). destruct (Hcnt x Hx) as (H1 & H2 & H3). rewrite Ht.
    destruct (decide (x = f)) as [->|]; [|rewrite Nat.add_0_r; done]. rewrite Hz, Hc. split_and!; [lia|lia|lia].
  - intros t i Hti Hw. rewrite Ht. rewrite (Hex t i Hti Hw). rewrite decide_False; [done|]. intros E.
    assert ((t, i) ∈ refset (mm_mem s) own f) as Hin; [|rewrite Hrf in Hin; by apply elem_of_empty in Hin].
    apply elem_of_refset. split; [by apply elem_of_slots|]. split; [|done]. intros E0. by rewrite E0, has_0 in Hw.
  - by rewrite Htot.
Qed.

Lemma size_remove (X : gset (Z * Z)) σ : size X = (size (X ∖ {[σ]}) + (if decide (σ ∈ X) then 1 else 0))%nat.
Proof.
  destruct (decide (σ ∈ X)) as [Hx|Hx].
  - rewrite <- (size_singleton (C := gset (Z * Z)) σ), Nat.add_comm, <- size_union by set_solver. f_equal. apply set_eq. intros τ.
    destruct (decide (τ = σ)); set_solver.
  - rewrite Nat.add_0_r. f_equal. set_solver.
Qed.

Lemma refset_set m own t i q v x : wf m own -> own !! t = Some q -> p_level q = 0 -> 0 <= i < 512 ->
  (size (refset (write_pte t i v m) own x) + ref1 (read_pte m t i) x = size (refset m own x) + ref1 v x)%nat.
Proof.
  intros Hwf Ht Hl Hi. assert ((t, i) ∈ slots own) as Hs by (apply elem_of_slots; eauto). pose proof (own_frame m own Hwf t q Ht) as Hft.
  assert (forall g j, (g, j) ∈ slots own -> read_pte (write_pte t i v m) g j = if decide (g = t /\ j = i) then v else read_pte m g j) as Hrd.
  { intros g j (p & Hg & _ & Hj)%elem_of_slots. by apply read_write; [|by eapply (own_frame m own)|..]. }
  assert (refset (write_pte t i v m) own x ∖ {[(t, i)]} = refset m own x ∖ {[(t, i)]}) as Hd.
  { apply set_eq. intros [g j]. rewrite !elem_of_difference, !elem_of_singleton. unfold refset. rewrite !elem_of_filter. unfold refers. cbn.
    split; intros [[Hr Hg] Hn]; (assert (read_pte (write_pte t i v m) g j = read_pte m g j) as E;
      [rewrite Hrd by done; rewrite decide_False; [done|]; intros [-> ->]; done|]); rewrite E in *; done. }
  rewrite (size_remove (refset (write_pte t i v m) own x) (t, i)), (size_remove (refset m own x) (t, i)), Hd.
  enough ((if decide ((t, i) ∈ refset (write_pte t i v m) own x) then 1 else 0)%nat = ref1 v x /\
          (if decide ((t, i) ∈ refset m own x) then 1 else 0)%nat = ref1 (read_pte m t i) x) as [-> ->] by lia.
  unfold ref1, refset. split; apply decide_ext; rewrite elem_of_filter; unfold refers; cbn; [rewrite Hrd, decide_True by done|]; tauto.
Qed.

Lemma ref1_0 x : ref1 0 x = 0%nat.
Proof. unfold ref1. rewrite decide_False; [done|tauto]. Qed.

Lemma ref1_eq e : e <> 0 -> ref1 e (pte_frame e) = 1%nat.
Proof. intros. unfold ref1. by rewrite decide_True. Qed.

Lemma ref1_ne e x : pte_frame e <> x -> ref1 e x = 0%nat.
Proof. intros. unfold ref1. rewrite decide_False; [done|tauto]. Qed.

(** An entry of a page table changes, and kernel code takes over the reference it
    was, or gives up the one it becomes: no frame gains or loses any. *)
Lemma inv_set_leaf s own D D' t i q v : inv s own D -> own !! t = Some q -> p_level q = 0 -> 0 <= i < 512 ->
  (v = 0 \/ is_entry v /\ own !! pte_frame v = None /\ managed (mm_frames s) (pte_frame v) /\ ~ avail (mm_frames s) (pte_frame v)) ->
  (forall x, multiplicity x D' + ref1 v x = multiplicity x D + ref1 (read_pte (mm_mem s) t i) x)%nat ->
  (has v PTE_WRITABLE = true -> total s own D (pte_frame v) = 1%nat) ->
  inv (upd_mem (write_pte t i v) s) own D'.
Proof.
  intros Hi Ht Hl Hix Hv HD Hw. pose proof Hi as [Hwf Hfr Hown Hleaf Hheld Hav Hcnt Hex Hcl Hsm].
  assert ((t, i) ∈ slots own) as Hs by (apply elem_of_slots; eauto).
  assert (forall x, total (upd_mem (write_pte t i v) s) own D' x = total s own D x) as Htot.
  { intros x. unfold total. cbn [upd_mem mm_mem]. pose proof (refset_set (mm_mem s) own t i q v x Hwf Ht Hl Hix). specialize (HD x). lia. }
  assert (forall g j, (g, j) ∈ slots own -> read_pte (write_pte t i v (mm_mem s)) g j = if decide (g = t /\ j = i) then v else read_pte (mm_mem s) g j) as Hrd.
  { intros g j (p & Hg & _ & Hj)%elem_of_slots. apply read_write; [by eapply (own_frame (mm_mem s) own)|by eapply (own_frame (mm_mem s) own)|done|done]. }
  assert (forall x, x ∈ D' -> x ∈ D \/ read_pte (mm_mem s) t i <> 0 /\ x = pte_frame (read_pte (mm_mem s) t i)) as HinD.
  { intros x Hx. rewrite elem_of_multiplicity in Hx. specialize (HD x). rewrite elem_of_multiplicity.
    unfold ref1 in HD at 2. destruct (decide _) as [[? <-]|]; [by right|]. left. lia. }
  constructor; cbn [upd_mem mm_mem mm_frames mm_clones]; try done.
  - apply (set_leaf_wf _ _ Hwf t q); try done. destruct Hv as [->|(? & ? & _)]; [by left|by right].
  - intros f p Hf. destruct (Hown f p Hf) as (? & ? & ? & Hnd). split_and!; try done. intros [|[Hn ->]]%HinD; [done|].
    destruct (wf_leaf _ _ Hwf t q i Ht Hl Hix) as [|[_ Ho]]; [done|congruence].
  - intros g j Hgj. rewrite (Hrd g j Hgj). destruct (decide _); [|by apply Hleaf]. intros Hn. destruct Hv as [|(_ & _ & ? & ?)]; done.
  - intros x [|[Hn ->]]%HinD; [by apply Hheld|]. by apply Hleaf.
  - intros x Hx. rewrite Htot. by apply Hcnt.
  - intros g j Hgj. rewrite (Hrd g j Hgj), Htot. destruct (decide _); [exact Hw|by apply Hex].
Qed.

(** A frame of kernel code that is not shared. *)
Lemma held_alone s own D f : inv s own ({[+ f +]} ⊎ D) -> cnt s f = 0 ->
  is_frame f /\ own !! f = None /\ refset (mm_mem s) own f = ∅ /\ f ∉ D /\ managed (mm_frames s) f /\ ~ avail (mm_frames s) f.
Proof.
  intros Hi Hc. pose proof Hi as [Hwf Hfr Hown Hleaf Hheld Hav Hcnt Hex Hcl Hsm].
  assert (f ∈ {[+ f +]} ⊎ D) as Hin by (rewrite gmultiset_elem_of_disj_union, gmultiset_elem_of_singleton; by left). destruct (Hheld f Hin) as [Hm Hna].
  destruct (Hcnt f Hm) as (_ & H1 & _). specialize (H1 Hc). unfold total in H1. rewrite multiplicity_disj_union, multiplicity_singleton_eq in H1.
  split_and!; try done.
  - by apply (managed_frame _ _ Hfr Hm).
  - destruct (own !! f) eqn:E; [|done]. by destruct (Hown f _ E) as (_ & _ & _ & []).
  - apply leibniz_equiv, size_empty_iff. lia.
  - rewrite elem_of_multiplicity. lia.
Qed.

Lemma elem_held (D : gmultiset Z) f x : x ∈ D -> x ∈ {[+ f +]} ⊎ D.
Proof. rewrite gmultiset_elem_of_disj_union. by right. Qed.

Lemma inv_link s own D t q i f v : inv s own ({[+ f +]} ⊎ D) -> cnt s f = 0 -> own !! t = Some q -> 0 < p_level q -> low_idx q i ->
  read_pte (mm_mem s) t i = 0 -> is_entry v -> next_table v = Some f ->
  linkable (mm_mem s) own t q i f v /\
  inv (upd_mem (fun m => link m t i f v) s) (<[f := child q i]> own) D.
Proof.
  intros Hi Hc Ht Hl Hix Hz He Hx. pose proof Hi as [Hwf Hfr Hown Hleaf Hheld Hav Hcnt Hex Hcl Hsm].
  destruct (held_alone s own D f Hi Hc) as (Hf & Ho & Hr & Hd & Hm & Hna).
  assert (linkable (mm_mem s) own t q i f v) as HL.
  { constructor; try done. intros g p j Hg Hp Hj E. destruct (decide (read_pte (mm_mem s) g j = 0)) as [|Hn]; [done|].
    assert ((g, j) ∈ refset (mm_mem s) own f) as Hin by (apply elem_of_refset; split; [by exists p|done]). rewrite Hr in Hin. by apply elem_of_empty in Hin. }
  split; [done|].
  assert (forall g j, (g, j) ∈ slots own -> (g, j) ∈ slots (<[f := child q i]> own) /\ read_pte (link (mm_mem s) t i f v) g j = read_pte (mm_mem s) g j) as Hold.
  { intros g j (p & Hg & Hp & Hj)%elem_of_slots. split; [apply elem_of_slots; exists p; rewrite lookup_insert_ne by congruence; done|].
    rewrite (link_read _ own Hwf t q i f v g j HL) by (done || by eapply (own_frame (mm_mem s) own)). rewrite decide_False by congruence.
    rewrite decide_False; [done|]. intros [-> _]. pose proof (pos_fun own t p q Hg Ht) as ->. lia. }
  assert (forall g j, (g, j) ∈ slots (<[f := child q i]> own) -> (g, j) ∈ slots own \/ g = f /\ read_pte (link (mm_mem s) t i f v) g j = 0) as Hnew.
  { intros g j (p & [[<- <-]|[Hne Hg]]%lookup_insert_Some & Hp & Hj)%elem_of_slots.
    - right. split; [done|]. rewrite (link_read _ own Hwf t q i f v f j HL Hf Hj). by rewrite decide_True.
    - left. apply elem_of_slots. eauto. }
  assert (forall x, refset (link (mm_mem s) t i f v) (<[f := child q i]> own) x = refset (mm_mem s) own x) as Hrs.
  { intros x. apply refset_ext; intros g j Hg; [left; by apply Hold|]. destruct (Hnew g j Hg) as [Hg'|[_ ?]]; [left|by right]. split; [done|by apply Hold]. }
  assert (forall x, x <> f -> total (upd_mem (fun m => link m t i f v) s) (<[f := child q i]> own) D x = total s own ({[+ f +]} ⊎ D) x) as Htot.
  { intros x Hxf. unfold total. cbn [upd_mem mm_mem]. rewrite Hrs, multiplicity_disj_union, multiplicity_singleton_ne by done. lia. }
  assert (forall g j, (g, j) ∈ slots own -> read_pte (mm_mem s) g j <> 0 -> pte_frame (read_pte (mm_mem s) g j) <> f) as Hlf.
  { intros g j Hg Hn E. assert ((g, j) ∈ refset (mm_mem s) own f) as Hin by (apply elem_of_refset; split; [by apply elem_of_slots|done]). rewrite Hr in Hin. by apply elem_of_empty in Hin. }
  constructor; cbn [upd_mem mm_mem mm_frames mm_clones]; try done.
  - by apply link_wf.
  - intros g p [[<- <-]|[Hne Hg]]%lookup_insert_Some; [done|]. destruct (Hown g p Hg) as (? & ? & ? & Hn). split_and!; try done. intros HD. apply Hn. by apply elem_held.
  - intros g j Hg. destruct (Hnew g j Hg) as [Hg'|[_ ->]]; [|done]. destruct (Hold g j Hg') as [_ ->]. by apply Hleaf.
  - intros x Hx'. by apply Hheld, elem_held.
  - intros x Hx'. change (cnt (upd_mem _ s) x) with (cnt s x). destruct (decide (x = f)) as [->|Hne]; [|rewrite Htot by done; by apply Hcnt].
    unfold total. cbn [upd_mem mm_mem]. rewrite Hrs, Hr, size_empty, Hc.
    apply not_elem_of_multiplicity in Hd. lia.
  - intros g j Hg. destruct (Hnew g j Hg) as [Hg'|[_ ->]]; [|by rewrite has_0]. destruct (Hold g j Hg') as [_ ->]. intros Hw.
    rewrite Htot; [by apply Hex|]. apply Hlf; [done|]. intros E0. by rewrite E0, has_0 in Hw.
  - intros r Hr'. apply Hcl. by apply (link_root _ _ Hwf t q i f v).
Qed.

(** Tables outside of which nothing is read. *)
Lemma inv_retree s own D m' c' own' D' :
  inv s own D -> wf m' own' ->
  (forall t i, (t, i) ∈ slots own -> (t, i) ∈ slots own' /\ read_pte m' t i = read_pte (mm_mem s) t i \/ read_pte (mm_mem s) t i = 0) ->
  (forall t i, (t, i) ∈ slots own' -> (t, i) ∈ slots own /\ read_pte m' t i = read_pte (mm_mem s) t i \/ read_pte m' t i = 0) ->
  (forall f q, own' !! f = Some q -> managed (mm_frames s) f /\ ~ avail (mm_frames s) f /\ cnt s f = 0 /\ f ∉ D') ->
  (forall x, x ∈ D' -> managed (mm_frames s) x /\ ~ avail (mm_frames s) x) ->
  (forall x, multiplicity x D' = multiplicity x D \/ refset (mm_mem s) own x = ∅ /\ cnt s x = 0 /\ (multiplicity x D' <= 1)%nat) ->
  (forall r, is_root own' r -> r ∈ c') ->
  inv (mkMm m' (mm_frames s) c' (mm_counts s)) own' D'.
Proof.
  intros [Hwf Hfr Hown Hleaf Hheld Hav Hcnt Hex Hcl Hsm] Hwf' Ho Hn Hown' Hheld' HD Hc'.
  assert (forall x, refset m' own' x = refset (mm_mem s) own x) as Hrs by (intros x; by apply refset_ext).
  set (s' := mkMm m' _ _ _). assert (forall x, total s' own' D' x = (size (refset (mm_mem s) own x) + multiplicity x D')%nat) as Ht.
  { intros x. unfold total. cbn. by rewrite Hrs. }
  constructor; try done.
  - intros t i Hti. destruct (Hn t i Hti) as [[Hs E]|E]; cbn [mm_mem mm_frames s']; rewrite E; [by apply Hleaf|done].
  - intros x Hx. change (cnt s' x) with (cnt s x). destruct (Hcnt x Hx) as (H1 & H2 & H3). rewrite Ht.
    destruct (HD x) as [-> |(-> & Hc & Hm)]; [done|]. rewrite size_empty. lia.
  - intros t i Hti. cbn [mm_mem s']. destruct (Hn t i Hti) as [[Hs E]|E]; rewrite E; [|by rewrite has_0]. intros Hw. rewrite Ht.
    destruct (HD (pte_frame (read_pte (mm_mem s) t i))) as [-> |(Er & _)]; [by apply Hex|].
    assert ((t, i) ∈ refset (mm_mem s) own (pte_frame (read_pte (mm_mem s) t i))) as Hin; [|rewrite Er in Hin; by apply elem_of_empty in Hin].
    apply elem_of_refset. split; [by apply elem_of_slots|]. split; [|done]. intros E0. by rewrite E0, has_0 in Hw.
Qed.

Lemma inv_set_flags s own D t q i v : inv s own D -> own !! t = Some q -> 0 < p_level q -> low_idx q i ->
  read_pte (mm_mem s) t i <> 0 -> is_entry v -> next_table v = next_table (read_pte (mm_mem s) t i) ->
  inv (upd_mem (write_pte t i v) s) own D.
Proof.
  intros Hi Ht Hl Hix Hnz He Hx. pose proof Hi as [Hwf Hfr Hown Hleaf Hheld Hav Hcnt Hex Hcl Hsm].
  assert (forall g j, (g, j) ∈ slots own -> read_pte (write_pte t i v (mm_mem s)) g j = read_pte (mm_mem s) g j) as Hrd.
  { intros g j (p & Hg & Hp & Hj)%elem_of_slots.
    rewrite read_write by (done || by eapply (own_frame (mm_mem s) own) || by eapply low_idx_512). rewrite decide_False; [done|].
    intros [-> _]. pose proof (pos_fun own t p q Hg Ht) as ->. lia. }
  eapply inv_retree; [exact Hi|by eapply set_flags_wf|auto|auto|done|done|by left|done].
Qed.

Lemma own_unref s own D f q : inv s own D -> own !! f = Some q -> refset (mm_mem s) own f = ∅.
Proof.
  intros [Hwf Hfr Hown Hleaf Hheld Hav Hcnt Hex Hcl Hsm] Hf. apply set_eq. intros [t i]. rewrite elem_of_refset. split; [|by intros ?%elem_of_empty].
  intros ((p & Ht & Hl & Hi) & Hn & E). destruct (wf_leaf _ _ Hwf t p i Ht Hl Hi) as [|[_ Ho]]; [done|]. congruence.
Qed.

Lemma mult_add (D : gmultiset Z) f x : multiplicity x ({[+ f +]} ⊎ D) = ((if decide (x = f) then 1 else 0) + multiplicity x D)%nat.
Proof.
  rewrite multiplicity_disj_union. destruct (decide (x = f)) as [->|]; [by rewrite multiplicity_singleton_eq|by rewrite multiplicity_singleton_ne].
Qed.

Lemma elem_add (D : gmultiset Z) f x : x ∈ {[+ f +]} ⊎ D <-> x = f \/ x ∈ D.
Proof. by rewrite gmultiset_elem_of_disj_union, gmultiset_elem_of_singleton. Qed.

(** A table that kernel code gives up, or takes. *)
Lemma own_out s own D f q x : inv s own D -> own !! f = Some q ->
  multiplicity x ({[+ f +]} ⊎ D) = multiplicity x D \/ refset (mm_mem s) own x = ∅ /\ cnt s x = 0 /\ (multiplicity x ({[+ f +]} ⊎ D) <= 1)%nat.
Proof.
  intros Hi Hf. rewrite mult_add. destruct (decide (x = f)) as [->|]; [right|by left].
  destruct (i_own _ _ _ Hi f q Hf) as (_ & _ & Hc & Hd). split; [by eapply own_unref|]. apply not_elem_of_multiplicity in Hd. lia.
Qed.

Lemma inv_unlink s own D t q i f : inv s own D -> unlinkable (mm_mem s) own t q i f ->
  inv (upd_mem (write_pte t i 0) s) (delete f own) ({[+ f +]} ⊎ D).
Proof.
  intros Hi HU. pose proof Hi as [Hwf Hfr Hown Hleaf Hheld Hav Hcnt Hex Hcl Hsm]. destruct (unlink_own _ _ Hwf t q i f HU) as [Hf Hft].
  pose proof HU as [Ht Hl Hix Hx Hem].
  assert (forall g j, (g, j) ∈ slots own -> read_pte (write_pte t i 0 (mm_mem s)) g j = read_pte (mm_mem s) g j) as Hrd.
  { intros g j (p & Hg & Hp & Hj)%elem_of_slots.
    rewrite read_write by (done || by eapply (own_frame (mm_mem s) own) || by eapply low_idx_512). rewrite decide_False; [done|].
    intros [-> _]. pose proof (pos_fun own t p q Hg Ht) as ->. lia. }
  eapply inv_retree; [exact Hi|by apply (unlink_wf _ _ Hwf t q)| | | | | |].
  - intros g j Hg. destruct (decide (g = f)) as [->|Hne].
    + right. apply elem_of_slots in Hg as (_ & _ & _ & Hj). by apply Hem.
    + left. split; [|by apply Hrd]. apply elem_of_slots in Hg as (p & Hg & ?). apply elem_of_slots. exists p. by rewrite lookup_delete_ne by congruence.
  - intros g j (p & [Hne Hg]%lookup_delete_Some & Hp & Hj)%elem_of_slots. left.
    assert ((g, j) ∈ slots own) as Hs by (apply elem_of_slots; eauto). split; [done|by apply Hrd].
  - intros g p [Hne Hg]%lookup_delete_Some. destruct (Hown g p Hg) as (? & ? & ? & ?). split_and!; try done. rewrite elem_add. intros [->|]; done.
  - intros x [->|Hx']%elem_add; [|by apply Hheld]. destruct (Hown f _ Hf) as (? & ? & _). done.
  - intros x. by eapply own_out.
  - intros r [_ Hr]%lookup_delete_Some. by apply Hcl.
Qed.

Lemma inv_new_root s own D f m' : inv s own ({[+ f +]} ⊎ D) -> cnt s f = 0 -> same_tbls own (mm_mem s) m' ->
  (forall i, 0 <= i < 256 -> read_pte m' f i = 0) ->
  inv (mkMm m' (mm_frames s) (mm_clones s ++ [f]) (mm_counts s)) (<[f := mkPos f 3 0]> own) D.
Proof.
  intros Hi Hc Hs Hz. destruct (held_alone s own D f Hi Hc) as (Hf & Ho & Hr & Hd & Hm & Hna).
  pose proof Hi as [Hwf Hfr Hown Hleaf Hheld Hav Hcnt Hex Hcl Hsm]. eapply inv_retree; [exact Hi| | | | | | |].
  - eapply new_root_wf; [exact Hwf|done|done|done| |done]. intros g p j Hg Hp Hj E.
    destruct (decide (read_pte (mm_mem s) g j = 0)) as [|Hn]; [done|].
    assert ((g, j) ∈ refset (mm_mem s) own f) as Hin by (apply elem_of_refset; split; [by exists p|done]). rewrite Hr in Hin. by apply elem_of_empty in Hin.
  - intros t i Hti. left. split; [|by apply (same_tbls_slots own)]. apply elem_of_slots in Hti as (p & Ht & ?). apply elem_of_slots. exists p.
    by rewrite lookup_insert_ne by congruence.
  - intros t i (p & [[<- <-]|[Hne Ht]]%lookup_insert_Some & Hp & Hj)%elem_of_slots; [done|]. left.
    assert ((t, i) ∈ slots own) as Hs' by (apply elem_of_slots; eauto). split; [done|by apply (same_tbls_slots own)].
  - intros g p [[<- <-]|[Hne Hg]]%lookup_insert_Some; [done|]. destruct (Hown g p Hg) as (? & ? & ? & Hn). split_and!; try done. intros HD. apply Hn. by apply elem_held.
  - intros x Hx'. by apply Hheld, elem_held.
  - intros x. rewrite mult_add. destruct (decide (x = f)) as [->|]; [right|by left]. apply not_elem_of_multiplicity in Hd. split_and!; [done|done|lia].
  - intros r [[<- _]|[_ Hr']]%lookup_insert_Some; [apply elem_of_app; right; by left|]. apply elem_of_app. left. by apply Hcl.
Qed.

Lemma inv_drop_root s own D r : inv s own D -> is_root own r -> (forall i, 0 <= i < 256 -> read_pte (mm_mem s) r i = 0) ->
  inv s (delete r own) ({[+ r +]} ⊎ D).
Proof.
  intros Hi Hr Hz. pose proof Hi as [Hwf Hfr Hown Hleaf Hheld Hav Hcnt Hex Hcl Hsm].
  assert (forall g j, (g, j) ∈ slots own <-> (g, j) ∈ slots (delete r own)) as Hs.
  { intros g j. rewrite !elem_of_slots. split; intros (p & Hg & Hp & Hj); exists p; (split; [|done]).
    - apply lookup_delete_Some. split; [|done]. intros <-. pose proof (pos_fun own r _ _ Hg Hr) as ->. done.
    - by apply lookup_delete_Some in Hg as [_ ?]. }
  replace s with (mkMm (mm_mem s) (mm_frames s) (mm_clones s) (mm_counts s)) by (by destruct s).
  eapply inv_retree; [exact Hi|by apply drop_root_wf| | | | | |].
  - intros t i Hti. left. split; [by apply Hs|done].
  - intros t i Hti. left. split; [by apply Hs|done].
  - intros g p [Hne Hg]%lookup_delete_Some. destruct (Hown g p Hg) as (? & ? & ? & ?). split_and!; try done. rewrite elem_add. intros [->|]; done.
  - intros x [->|Hx]%elem_add; [|by apply Hheld]. by destruct (Hown r _ Hr) as (? & ? & _).
  - intros x. by eapply own_out.
  - intros x [_ Hx]%lookup_delete_Some. by apply Hcl.
Qed.

(** ** Counters *)

Lemma frame_slot x : is_frame x -> Z.shiftr x 12 = x / 4096 /\ x = 4096 * (x / 4096).
Proof. intros [Hx _]. rewrite Z.shiftr_div_pow2 by lia. split; [done|]. pose proof (Z.div_mod x 4096 ltac:(lia)). lia. Qed.

Lemma cnt_set s f c x : is_frame f -> is_frame x -> cnt (set_counts (<[Z.shiftr f 12 := c]> (mm_counts s)) s) x = if decide (x = f) then c else cnt s x.
Proof.
  intros Hf Hx. unfold cnt, count_at. cbn [mm_counts set_counts]. destruct (decide (x = f)) as [->|Hne]; [by rewrite lookup_insert_eq|].
  rewrite lookup_insert_ne; [done|]. destruct (frame_slot f Hf) as [-> Ef], (frame_slot x Hx) as [-> Ex]. congruence.
Qed.

Lemma slot_managed s own D f : inv s own D -> managed (mm_frames s) f -> slot s f = Some (Z.shiftr f 12).
Proof.
  intros Hi Hm. destruct (managed_frame _ _ (i_fr _ _ _ Hi) Hm) as [Hf Hlt]. unfold slot. destruct (frame_slot f Hf) as [-> _].
  by replace (_ <? _) with true by lia.
Qed.

(** Kernel code takes or gives up references to one frame, and counts them. *)
Lemma inv_count s own D D' f c : inv s own D -> managed (mm_frames s) f -> ~ avail (mm_frames s) f -> own !! f = None ->
  (forall x, x <> f -> multiplicity x D' = multiplicity x D) ->
  0 <= c -> (c = 0 -> (total s own D' f <= 1)%nat) -> (0 < c -> Z.of_nat (total s own D' f) = c) ->
  (total s own D f = 1%nat -> refset (mm_mem s) own f <> ∅ -> total s own D' f = 1%nat \/
     forall t i, (t, i) ∈ slots own -> has (read_pte (mm_mem s) t i) PTE_WRITABLE = true -> pte_frame (read_pte (mm_mem s) t i) <> f) ->
  inv (set_counts (<[Z.shiftr f 12 := c]> (mm_counts s)) s) own D'.
Proof.
  intros [Hwf Hfr Hown Hleaf Hheld Hav Hcnt Hex Hcl Hsm] Hm Hna Ho HD Hge Hz Hp Hw. set (s' := set_counts _ _).
  assert (forall x, managed (mm_frames s) x -> is_frame x) as Hmf by (intros x Hx; by apply (managed_frame _ _ Hfr Hx)).
  assert (forall x, managed (mm_frames s) x -> x <> f -> cnt s' x = cnt s x) as Hc.
  { intros x Hx Hne. unfold s'. rewrite cnt_set, decide_False by auto. done. }
  assert (cnt s' f = c) as Hcf by (unfold s'; rewrite cnt_set, decide_True by auto; done).
  assert (forall x, x <> f -> total s' own D' x = total s own D x) as Ht by (intros x Hx; unfold total; by rewrite HD).
  assert (forall x, x <> f -> x ∈ D' -> x ∈ D) as HinD by (intros x Hx; rewrite !elem_of_multiplicity, HD by done; done).
  constructor; try done.
  - intros g q Hg. destruct (Hown g q Hg) as (? & ? & ? & ?). assert (g <> f) by congruence. split_and!; [done|done|by rewrite Hc|auto].
  - intros x Hx. destruct (decide (x = f)) as [->|]; auto.
  - intros x Hx. destruct (decide (x = f)) as [->|]; [done|]. rewrite Hc; [by apply Hav|by apply (avail_managed _ _ Hfr)|done].
  - intros x Hx. destruct (decide (x = f)) as [->|]; [by rewrite Hcf|]. rewrite Hc, Ht by done. by apply Hcnt.
  - intros t i Hti Hwr. change (mm_mem s') with (mm_mem s) in *. destruct (decide (pte_frame (read_pte (mm_mem s) t i) = f)) as [E|].
    + destruct Hw as [Hw|Hw]; [by rewrite <- E; apply Hex| |by cbn; rewrite E|by apply Hw in Hwr].
      intros Er. assert ((t, i) ∈ refset (mm_mem s) own f) as Hin; [|rewrite Er in Hin; by apply elem_of_empty in Hin].
      apply elem_of_refset. split; [by apply elem_of_slots|]. split; [|done]. intros E0. by rewrite E0, has_0 in Hwr.
    + rewrite Ht by done. by apply Hex.
Qed.

Lemma inv_free s own D f : inv s own ({[+ f +]} ⊎ D) -> cnt s f = 0 -> exists a, fr_free (mm_frames s) f = Ok a /\ inv (set_frames a s) own D.
Proof.
  intros Hi Hc. destruct (held_alone s own D f Hi Hc) as (Hf & Ho & Hr & Hd & Hm & Hna). pose proof Hi as [Hwf Hfr Hown Hleaf Hheld Hav Hcnt Hex Hcl Hsm].
  destruct (fr_free_ok _ f Hfr Hm Hna) as (a & Ea & Hok & Htot & Hman & Hav'). exists a. split; [done|].
  assert (forall x, x <> f -> total s own ({[+ f +]} ⊎ D) x = total s own D x) as Ht.
  { intros x Hx. unfold total. by rewrite mult_add, decide_False. }
  assert (total s own D f = 0)%nat as Hz by (unfold total; rewrite Hr, size_empty; apply not_elem_of_multiplicity in Hd; lia).
  assert (forall t i, (t, i) ∈ slots own -> read_pte (mm_mem s) t i <> 0 -> pte_frame (read_pte (mm_mem s) t i) <> f) as Hlf.
  { intros t i Hti Hn E. assert ((t, i) ∈ refset (mm_mem s) own f) as Hin; [|rewrite Hr in Hin; by apply elem_of_empty in Hin].
    apply elem_of_refset. split; [by apply elem_of_slots|done]. }
  constructor; cbn [mm_mem mm_frames mm_clones set_frames]; try done.
  - intros g q Hg. destruct (Hown g q Hg) as (? & ? & ? & Hgd). assert (g <> f) by congruence. rewrite Hman, Hav'. split_and!; [done|tauto|done|].
    intros Hg'. apply Hgd. by apply elem_held.
  - intros t i Hti Hn. destruct (Hleaf t i Hti Hn). specialize (Hlf t i Hti Hn). rewrite Hman, Hav'. tauto.
  - intros x Hx. destruct (Hheld x (elem_held _ _ _ Hx)). assert (x <> f) by congruence. rewrite Hman, Hav'. tauto.
  - intros x. rewrite Hav'. intros [Hx| ->]; [by apply Hav|done].
  - intros x. rewrite Hman. intros Hx. change (cnt (set_frames a s) x) with (cnt s x). change (total (set_frames a s) own D x) with (total s own D x).
    destruct (decide (x = f)) as [->|Hne]; [rewrite Hz, Hc; lia|]. rewrite <- Ht by done. by apply Hcnt.
  - intros t i Hti Hw. change (total (set_frames a s) own D) with (total s own D). rewrite <- Ht; [by apply Hex|].
    apply Hlf; [done|]. intros E0. by rewrite E0, has_0 in Hw.
  - by rewrite Htot.
Qed.

Lemma held_out s own D f : inv s own D -> f ∈ D -> own !! f = None.
Proof. intros Hi Hf. destruct (own !! f) as [q|] eqn:E; [|done]. by destruct (i_own _ _ _ Hi f q E) as (_ & _ & _ & []). Qed.

Lemma wpp_decref {E} s own D f (Q : unit -> S -> Prop) (R : E -> S -> Prop) : inv s own ({[+ f +]} ⊎ D) ->
  (forall s', mm_mem s' = mm_mem s -> mm_clones s' = mm_clones s -> inv s' own D -> Q tt s') -> wpp (decref_or_free f) Q R s.
Proof.
  intros Hi HQ. assert (f ∈ {[+ f +]} ⊎ D) as Hin by (apply elem_add; by left). destruct (i_held _ _ _ Hi f Hin) as [Hm Hna].
  pose proof (held_out _ _ _ _ Hi Hin) as Ho. destruct (i_cnt _ _ _ Hi f Hm) as (Hc0 & Hc1 & Hc2).
  assert (total s own ({[+ f +]} ⊎ D) f = Datatypes.S (total s own D f)) as Ht by (unfold total; rewrite mult_add, decide_True by done; lia).
  unfold wpp, decref_or_free. rewrite (slot_managed _ _ _ _ Hi Hm). fold (cnt s f). destruct (cnt s f =? 0) eqn:E0.
  - destruct (inv_free s own D f Hi ltac:(lia)) as (a & Ea & Hi'). unfold free_frame. rewrite Ea. by apply HQ.
  - assert (inv (set_counts (<[Z.shiftr f 12 := cnt s f - 1]> (mm_counts s)) s) own (if cnt s f =? 1 then {[+ f +]} ⊎ D else D)) as Hi'.
    { apply (inv_count s own _ _ f _ Hi); try done; destruct (cnt s f =? 1) eqn:E1; try lia.
      intros x Hx. by rewrite mult_add, decide_False. }
    destruct (cnt s f =? 1) eqn:E1; [|by apply HQ]. destruct (inv_free _ own D f Hi') as (a & Ea & Hi'').
    { rewrite cnt_set, decide_True by (done || by apply (managed_frame _ _ (i_fr _ _ _ Hi) Hm)). lia. }
    unfold free_frame. rewrite Ea. by apply HQ.
Qed.

Lemma wpp_alloc_at {E} s own D (Q : option Z -> S -> Prop) (R : E -> S -> Prop) : inv s own D -> Q None s ->
  (forall f a, let s' := set_frames a s in inv s' own ({[+ f +]} ⊎ D) -> cnt s' f = 0 -> Q (Some f) s') ->
  wpp alloc_frame Q R s.
Proof.
  intros Hi HN HS. unfold wpp, alloc_frame. destruct (fr_alloc (mm_frames s)) as [[a r]| |] eqn:Ea; [|done|done].
  pose proof (inv_alloc s own D a r Hi Ea) as Hr. destruct r as [f|]; [|by rewrite Hr]. destruct Hr as (Hi' & _ & _ & Hc & _). by apply HS.
Qed.

Lemma wpp_alloc {E} s own D (Q : option Z -> S -> Prop) (R : E -> S -> Prop) : inv s own D -> Q None s ->
  (forall f s', mm_mem s' = mm_mem s -> mm_clones s' = mm_clones s -> inv s' own ({[+ f +]} ⊎ D) -> cnt s' f = 0 -> Q (Some f) s') ->
  wpp alloc_frame Q R s.
Proof. intros Hi HN HS. apply (wpp_alloc_at s own D); [done|done|]. intros f a s' Hi' Hc. by apply HS. Qed.

(** The last reference to a frame, which is a leaf's. *)
Lemma wpp_privatize {E} s own D f (Q : unit -> S -> Prop) (R : E -> S -> Prop) : inv s own D -> managed (mm_frames s) f -> ~ avail (mm_frames s) f ->
  own !! f = None -> (cnt s f = 0 \/ cnt s f = 1) ->
  (forall s', mm_mem s' = mm_mem s -> mm_clones s' = mm_clones s -> mm_frames s' = mm_frames s -> inv s' own D -> cnt s' f = 0 -> Q tt s') -> wpp (privatize f) Q R s.
Proof.
  intros Hi Hm Hna Ho Hc HQ. unfold wpp, privatize. rewrite (slot_managed _ _ _ _ Hi Hm). fold (cnt s f).
  destruct (cnt s f =? 1) eqn:E1; [|apply HQ; try done; lia]. destruct (i_cnt _ _ _ Hi f Hm) as (_ & _ & Hc2).
  apply HQ; try done.
  - apply (inv_count s own _ _ f _ Hi); try done; [lia|by left].
  - by rewrite cnt_set, decide_True by (done || by apply (managed_frame _ _ (i_fr _ _ _ Hi) Hm)).
Qed.

Lemma size_list_to_set_le {K} `{Countable K} (l : list K) : (size (list_to_set (C := gset K) l) <= length l)%nat.
Proof.
  induction l as [|x l IH]; cbn [list_to_set]; [by rewrite size_empty|]. rewrite size_union_alt, size_singleton. cbn [length].
  assert (size (list_to_set (C := gset K) l ∖ {[x]}) <= size (list_to_set (C := gset K) l))%nat; [|lia]. apply subseteq_size. set_solver.
Qed.

Lemma size_slots own : (size (slots own) <= 512 * size own)%nat.
Proof.
  unfold slots. etrans; [apply size_list_to_set_le|]. rewrite <- length_map_to_list. induction (map_to_list own) as [|p l IH]; [done|].
  cbn [flat_map]. rewrite length_app. cbn [length]. assert (length (if (p_level p.2 =? 0)%Z then map (fun i => (p.1, i)) (seqZ 0 512) else []) <= 512)%nat; [|lia].
  destruct (p_level p.2 =? 0); [|cbn; lia]. rewrite length_map, length_seqZ. lia.
Qed.

Lemma size_own s own D : inv s own D -> Z.of_nat (size own) <= fr_total (mm_frames s) \/ own = ∅.
Proof.
  intros Hi. destruct (decide (own = ∅)) as [|Hne]; [by right|]. left.
  assert (dom own ⊆ list_to_set (C := gset Z) (map (fun i => 4096 * i) (seqZ 0 (fr_total (mm_frames s))))) as Hsub.
  { intros f Hf. apply elem_of_dom in Hf as [q Hq]. destruct (i_own _ _ _ Hi f q Hq) as (Hm & _).
    destruct (managed_frame _ _ (i_fr _ _ _ Hi) Hm) as [Hf Hlt]. apply elem_of_list_to_set, list_elem_of_In, in_map_iff. exists (f / 4096).
    destruct (frame_slot f Hf) as [_ <-]. split; [done|]. apply list_elem_of_In, elem_of_seqZ. destruct Hf as [_ Hf]. split; [apply Z.div_pos; lia|lia]. }
  apply subseteq_size in Hsub. rewrite size_dom in Hsub. etrans; [apply inj_le, Hsub|]. etrans; [apply inj_le, size_list_to_set_le|].
  rewrite length_map, length_seqZ. destruct (map_choose own Hne) as (f & q & Hq). destruct (i_own _ _ _ Hi f q Hq) as (Hm & _).
  destruct (managed_frame _ _ (i_fr _ _ _ Hi) Hm) as [[_ Hf] Hlt]. pose proof (Z.div_pos f 4096 ltac:(lia) ltac:(lia)). lia.
Qed.

Lemma few_refs s own D x : inv s own D -> Z.of_nat (size (refset (mm_mem s) own x)) < 2 ^ 32 - 1.
Proof.
  intros Hi. assert (size (refset (mm_mem s) own x) <= size (slots own))%nat as Hle.
  { apply subseteq_size. intros σ. unfold refset. rewrite elem_of_filter. tauto. }
  pose proof (size_slots own). pose proof (i_small _ _ _ Hi). destruct (size_own s own D Hi) as [Hs| ->]; [lia|]. rewrite map_size_empty in *. lia.
Qed.

(** A leaf is copied into a page table. *)
Lemma wpp_share `{Profile} {E} s own t q i t0 i0 (Q : unit -> S -> Prop) (R : E -> S -> Prop) : inv s own ∅ ->
  own !! t = Some q -> p_level q = 0 -> 0 <= i < 512 -> read_pte (mm_mem s) t i = 0 -> (t0, i0) ∈ slots own ->
  let e := read_pte (mm_mem s) t0 i0 in e <> 0 -> has e PTE_WRITABLE = false ->
  (forall s', mm_mem s' = write_pte t i e (mm_mem s) -> mm_clones s' = mm_clones s -> inv s' own ∅ -> Q tt s') ->
  wpp (let* _ := store (write_pte t i e) in share_frame (pte_frame e)) Q R s.
Proof.
  intros Hi Ht Hl Hix Hz Hsl e Hn Hw HQ. set (f := pte_frame e). pose proof (i_wf _ _ _ Hi) as Hwf.
  destruct (i_leaf _ _ _ Hi t0 i0 Hsl Hn) as [Hm Hna]. destruct (proj1 (elem_of_slots _ _ _) Hsl) as (q0 & Ht0 & Hl0 & Hi0).
  destruct (wf_leaf _ _ Hwf t0 q0 i0 Ht0 Hl0 Hi0) as [|[He Ho]]; [done|]. fold e f in Hm, Hna, He, Ho.
  assert ((t0, i0) ∈ refset (mm_mem s) own f) as Hin by (apply elem_of_refset; split; [by exists q0|done]).
  assert (1 <= size (refset (mm_mem s) own f))%nat as Hpos.
  { destruct (size (refset (mm_mem s) own f)) eqn:Es; [|lia]. apply size_empty_iff in Es. by apply Es in Hin. }
  pose proof (few_refs s own ∅ f Hi) as Hfew. destruct (i_cnt _ _ _ Hi f Hm) as (Hc0 & Hc1 & Hc2).
  assert (total s own ∅ f = size (refset (mm_mem s) own f)) as Ht1 by (unfold total; rewrite multiplicity_empty; lia).
  assert (total s own {[+ f +]} f = Datatypes.S (size (refset (mm_mem s) own f))) as Ht2 by (unfold total; rewrite multiplicity_singleton_eq; lia).
  set (c := if cnt s f =? 0 then 2 else cnt s f + 1).
  assert (inv (set_counts (<[Z.shiftr f 12 := c]> (mm_counts s)) s) own {[+ f +]}) as Hi'.
  { apply (inv_count s own _ _ f _ Hi); try done.
    - intros x Hx. by rewrite multiplicity_empty, multiplicity_singleton_ne.
    - unfold c. destruct (_ =? 0) eqn:E0; lia.
    - unfold c. destruct (_ =? 0) eqn:E0; lia.
    - unfold c. destruct (_ =? 0) eqn:E0; lia.
    - intros Hone _. right. intros g j Hg Hgw Ef. assert ((g, j) ∈ refset (mm_mem s) own f) as Hin'.
      { apply elem_of_refset. split; [by apply elem_of_slots|]. split; [|done]. intros E0. by rewrite E0, has_0 in Hgw. }
      rewrite Ht1 in Hone. pose proof (size_singleton_inv _ _ _ Hone Hin Hin') as [= <- <-]. fold e in Hgw. congruence. }
  assert (inv (upd_mem (write_pte t i e) (set_counts (<[Z.shiftr f 12 := c]> (mm_counts s)) s)) own ∅) as Hi''.
  { apply (inv_set_leaf _ own _ _ t i q e Hi'); try done; [by right| |congruence].
    cbn [mm_mem set_counts]. intros x. rewrite Hz, ref1_0, multiplicity_empty. destruct (decide (x = f)) as [->|Hne].
    - rewrite multiplicity_singleton_eq. unfold f. by rewrite ref1_eq.
    - rewrite multiplicity_singleton_ne by done. by rewrite ref1_ne by (unfold f in Hne; congruence). }
  apply wpp_bind. unfold store. apply wpp_upd. unfold wpp, share_frame. change (slot (upd_mem (write_pte t i e) s) f) with (slot s f).
  rewrite (slot_managed _ _ _ _ Hi Hm). change (count_at (upd_mem (write_pte t i e) s) (Z.shiftr f 12)) with (cnt s f). unfold c in Hi''.
  destruct (cnt s f =? 0) eqn:E0; [by apply HQ|]. unfold u32_add, u32_op. replace ((0 <=? cnt s f + 1) && (cnt s f + 1 <=? u32_max)) with true; [by apply HQ|].
  symmetry. apply andb_true_iff. unfold u32_max. lia.
Qed.
End Inv.
