(* ===== verification/VmmKeep.v ===== *)
(** * Page tables: what the address spaces hold

    The word that an address of an address space holds, what changes of memory and
    of tables leave it alone, and the entries that the code makes. *)

From stdpp Require Import gmultiset.
From S2P Require Import Prelude Bits State Vmm VmmFacts VmmTree VmmInv.
Local Open Scope Z_scope.

#[local] Opaque zero_frame copy_frame table_is_empty.

(** ** Entries *)

Lemma entry_bits v : (forall i, 0 <= i -> Z.testbit v i = true -> i < 64) -> 0 <= v -> v < 2 ^ 64.
Proof.
  intros Hb Hv. destruct (decide (v = 0)) as [->|]; [lia|]. apply Z.log2_lt_pow2; [lia|].
  apply Hb; [apply Z.log2_nonneg|]. apply Z.bit_log2. lia.
Qed.

Lemma u64_bits v i : 0 <= v < 2 ^ 64 -> Z.testbit v i = true -> i < 64.
Proof. intros Hv Hb. pose proof (bits_in v i 64 Hv Hb). lia. Qed.

Lemma lor_u64 a b : 0 <= a < 2 ^ 64 -> 0 <= b < 2 ^ 64 -> 0 <= Z.lor a b < 2 ^ 64.
Proof.
  intros Ha Hb. assert (0 <= Z.lor a b) by (apply Z.lor_nonneg; lia). split; [done|]. apply entry_bits; [|done].
  intros i Hi. rewrite Z.lor_spec. intros [Ht|Ht]%orb_true_iff; [exact (u64_bits a i Ha Ht)|exact (u64_bits b i Hb Ht)].
Qed.

Lemma land_u64 a b : 0 <= a < 2 ^ 64 -> 0 <= Z.land a b < 2 ^ 64.
Proof.
  intros Ha. assert (0 <= Z.land a b) by (apply Z.land_nonneg; lia). split; [done|]. apply entry_bits; [|done].
  intros i Hi. rewrite Z.land_spec. intros [Ht _]%andb_true_iff. exact (u64_bits a i Ha Ht).
Qed.

Lemma frame_u64 f : is_frame f -> 0 <= f < 2 ^ 64.
Proof. intros [_ Hf]. split; [lia|]. etrans; [apply Hf|]. by apply Z.pow_lt_mono_r. Qed.


(** Frame and flags of an entry that has its frame replaced or its flags. *)
Lemma pte_frame_ext e v : (forall i, 12 <= i < 52 -> Z.testbit v i = Z.testbit e i) -> pte_frame v = pte_frame e.
Proof.
  intros Hb. apply Z.bits_inj'. intros i Hi. unfold pte_frame. rewrite !Z.land_spec, addr_mask_bits by done.
  destruct ((12 <=? i) && (i <? 52)) eqn:E; [|by rewrite !andb_false_r]. by rewrite Hb by lia.
Qed.

Lemma pte_frame_bit e i : 0 <= i -> Z.testbit (pte_frame e) i = Z.testbit e i && (12 <=? i) && (i <? 52).
Proof. intros Hi. unfold pte_frame. by rewrite Z.land_spec, addr_mask_bits, andb_assoc. Qed.

Definition table_flags (fl : Z) : Prop := 0 <= fl < 2 ^ 64 /\ is_flags fl /\ has fl PTE_PRESENT = true /\ has fl PTE_PS = false.

(** A new table, or a leaf. *)
Lemma made_entry f fl : is_frame f -> table_flags fl -> is_entry (Z.lor f fl) /\ pte_frame (Z.lor f fl) = f /\
  (forall k, 0 <= k < 12 -> has (Z.lor f fl) (2 ^ k) = has fl (2 ^ k)).
Proof.
  intros Hf (Hr & Hfl & Hp & Hs). split_and!.
  - split; [apply lor_u64; [by apply frame_u64|done]|]. rewrite has_present, has_ps in *. by rewrite !is_frame_flags by (done || lia).
  - by apply pte_frame_lor.
  - intros k Hk. rewrite !has_bit by lia. by apply is_frame_flags; [|lia].
Qed.

Lemma made_table f fl : is_frame f -> table_flags fl -> is_entry (Z.lor f fl) /\ next_table (Z.lor f fl) = Some f.
Proof.
  intros Hf (Hr & Hfl & Hp & Hps). destruct (made_entry f fl Hf) as (He & Hpf & Hb); [done|]. split; [done|]. unfold next_table.
  change PTE_PRESENT with (2 ^ 0) in *. change PTE_PS with (2 ^ 7) in *. rewrite !Hb, Hp, Hps by lia. cbn [andb negb]. by rewrite Hpf.
Qed.

(** [set_flags(flags | insert_flags)] on the entry of a table. *)
Lemma more_flags e fl : is_entry e -> table_flags fl ->
  is_entry (e_set_flags e (Z.lor (e_flags e) fl)) /\ next_table (e_set_flags e (Z.lor (e_flags e) fl)) = next_table e.
Proof.
  intros (Hr & Hp & Hs) (Hfr & [_ Hfl] & Hfp & Hps).
  assert (forall i, 0 <= i -> Z.testbit (e_set_flags e (Z.lor (e_flags e) fl)) i = Z.testbit e i || Z.testbit fl i) as Hb.
  { intros i Hi. unfold e_set_flags, e_flags. rewrite !Z.lor_spec, Z.land_spec, pte_frame_bit, lnot64_bits, addr_mask_bits by done.
    destruct (Z.testbit e i) eqn:Ee; cbn [andb orb]; [|done]. pose proof (u64_bits e i Hr Ee). replace (i <? 64) with true by lia.
    by destruct (12 <=? i), (i <? 52). }
  assert (0 <= e_set_flags e (Z.lor (e_flags e) fl) < 2 ^ 64) as Hv.
  { unfold e_set_flags, e_flags. apply lor_u64; [by apply land_u64|]. apply lor_u64; [by apply land_u64|done]. }
  split; [split; [done|]|].
  - rewrite has_present, has_ps in *. rewrite !Hb by lia. by rewrite Hp, Hs.
  - unfold next_table. rewrite !has_present, !has_ps, !Hb in * by lia. rewrite Hps, orb_false_r, Hp. cbn [orb andb].
    destruct (negb (Z.testbit e 7)); [|done]. f_equal. apply pte_frame_ext. intros i Hi. rewrite Hb, Hfl by lia. apply orb_false_r.
Qed.

(** ** Words of address spaces *)

(** The word of [va] in its frame. *)
Definition word (m : gmap Z Z) (f va : Z) : Z := rd m (f + 8 * ((va / 8) mod 512)).

Definition peek (m : gmap Z Z) (r va : Z) : option Z := if leaf m r va =? 0 then None else Some (word m (pte_frame (leaf m r va)) va).

Lemma word_in f va : in_frame f (f + 8 * ((va / 8) mod 512)).
Proof. exists ((va / 8) mod 512). split; [|done]. apply Z.mod_pos_bound. lia. Qed.

(** Frames that no page has. *)
Definition unread (m : gmap Z Z) (own : gmap Z Pos) (f : Z) : Prop := is_frame f /\ (own !! f <> None \/ refset m own f = ∅).

Lemma leaf_ref m own r va : wf m own -> is_root own r -> low_va va -> leaf m r va <> 0 ->
  exists t, (t, vidx 0 va) ∈ refset m own (pte_frame (leaf m r va)) /\ read_pte m t (vidx 0 va) = leaf m r va.
Proof.
  intros Hwf Hr Hva Hn. destruct (leaf_spec m own r va Hwf Hr Hva) as [(t & Ht & E)|[_ E]]; [|done]. exists t. split; [|done].
  rewrite E in *. apply elem_of_refset. split; [|done]. eexists. split; [exact Ht|]. split; [done|apply vidx_range].
Qed.

Lemma leaf_frame m own r va : wf m own -> is_root own r -> low_va va -> leaf m r va <> 0 ->
  is_frame (pte_frame (leaf m r va)) /\ ~ unread m own (pte_frame (leaf m r va)).
Proof.
  intros Hwf Hr Hva Hn. destruct (leaf_entry m own Hwf r va Hr Hva) as [|[[He _] Ho]]; [done|]. split; [apply pte_frame_frame; lia|].
  intros [_ [?|E]]; [done|]. destruct (leaf_ref m own r va Hwf Hr Hva Hn) as (t & Hin & _). rewrite E in Hin. by apply elem_of_empty in Hin.
Qed.

Lemma peek_out m m' own (X : Z -> Prop) r va : wf m own -> is_root own r -> low_va va -> leaf m' r va = leaf m r va ->
  (forall f, X f -> unread m own f) -> (forall a, (forall f, X f -> ~ in_frame f a) -> rd m' a = rd m a) -> peek m' r va = peek m r va.
Proof.
  intros Hwf Hr Hva E HX Hrd. unfold peek. rewrite E. destruct (leaf m r va =? 0) eqn:E0; [done|]. f_equal. unfold word. apply Hrd.
  intros f Hf Hin. destruct (leaf_frame m own r va Hwf Hr Hva ltac:(lia)) as [Hfr Hu]. apply Hu.
  pose proof (HX f Hf) as [Hff ?]. rewrite (in_frame_inj _ f _ Hfr Hff (word_in _ va) Hin). by apply HX.
Qed.

Section Keep.
Context {A : Type} `{FrameLaws A}.
Notation S := (Mm A).
Implicit Types (s : S) (own : gmap Z Pos) (D : gmultiset Z).

(** The address spaces are there, and hold the same outside of [P]. *)
Record keeps (P : Z -> Z -> Prop) s own s' own' : Prop := {
  k_root r : is_root own r -> is_root own' r;
  k_peek r va : is_root own r -> low_va va -> ~ P r va -> peek (mm_mem s') r va = peek (mm_mem s) r va
}.

Definition nowhere (r va : Z) : Prop := False.

Lemma spaces_refl P s own : keeps P s own s own.
Proof. by constructor. Qed.

Lemma spaces_trans P s own s1 own1 s2 own2 : keeps P s own s1 own1 -> keeps P s1 own1 s2 own2 -> keeps P s own s2 own2.
Proof.
  intros [Hr1 Hp1] [Hr2 Hp2]. constructor; [auto|]. intros r va Hr Hva HP. rewrite (Hp2 r va (Hr1 r Hr) Hva HP). auto.
Qed.

Lemma keeps_mono (P P' : Z -> Z -> Prop) s own s' own' : (forall r va, P r va -> P' r va) -> keeps P s own s' own' -> keeps P' s own s' own'.
Proof. intros HP [Hr Hp]. constructor; [done|]. intros r va Hr' Hva Hn. apply Hp; auto. Qed.

Lemma keeps_none P s own s' own' : keeps nowhere s own s' own' -> keeps P s own s' own'.
Proof. by apply keeps_mono. Qed.

Lemma keeps_mem s own s' : mm_mem s' = mm_mem s -> keeps nowhere s own s' own.
Proof. intros E. constructor; [done|]. by rewrite E. Qed.

(** Kernel code works in a frame of its own. *)
Lemma held_unread s own D f : inv s own ({[+ f +]} ⊎ D) -> cnt s f = 0 -> unread (mm_mem s) own f.
Proof. intros Hi Hc. destruct (held_alone s own D f Hi Hc) as (Hf & _ & Hr & _). split; [done|by right]. Qed.

Lemma held_write s own D f g : inv s own ({[+ f +]} ⊎ D) -> cnt s f = 0 -> (forall m a, ~ in_frame f a -> rd (g m) a = rd m a) ->
  inv (upd_mem g s) own ({[+ f +]} ⊎ D) /\ keeps nowhere s own (upd_mem g s) own /\
  (forall r va, is_root own r -> low_va va -> leaf (g (mm_mem s)) r va = leaf (mm_mem s) r va).
Proof.
  intros Hi Hc Hg. destruct (held_alone s own D f Hi Hc) as (Hf & Ho & Hr & _). pose proof (i_wf _ _ _ Hi) as Hwf.
  assert (same_tbls own (mm_mem s) (g (mm_mem s))) as Hs by (eapply same_tbls_out; [by apply (own_frame _ _ Hwf)|exact Hf|exact Ho|by apply Hg]).
  assert (forall r va, is_root own r -> low_va va -> leaf (g (mm_mem s)) r va = leaf (mm_mem s) r va) as Hl by (intros; by eapply leaf_ext).
  split; [by apply inv_mem|]. split; [|done]. constructor; [done|]. intros r va Hro Hva _.
  apply (peek_out _ _ own (eq f)); auto; [|intros a Ha; apply Hg; by apply Ha]. intros x <-. by apply (held_unread s own D).
Qed.

Lemma table_write_out t i v m a : 0 <= i < 512 -> ~ in_frame t a -> rd (write_pte t i v m) a = rd m a.
Proof.
  intros Hi Ha. unfold write_pte. rewrite rd_insert, decide_False; [done|]. intros ->. by apply Ha, entry_in_frame.
Qed.

Lemma own_unread m own t q : wf m own -> own !! t = Some q -> unread m own t.
Proof. intros Hwf Ht. split; [by apply (own_frame m own Hwf t q)|]. left. by rewrite Ht. Qed.

(** The leaf of one page. *)
Lemma page_pos r va va' : low_va va -> low_va va' ->
  (mkPos r 0 (pfx 0 va) = mkPos r 0 (pfx 0 va') /\ vidx 0 va = vidx 0 va') <-> va / 4096 = va' / 4096.
Proof.
  intros Hva Hva'. rewrite !vidx_div by lia. unfold pfx. change (2 ^ (21 + 9 * 0)) with (4096 * 512). change (2 ^ (12 + 9 * 0)) with 4096.
  rewrite <- !Z.div_div by lia. split.
  - intros [[= E1] E2]. rewrite (Z.div_mod (va / 4096) 512), (Z.div_mod (va' / 4096) 512) by lia. congruence.
  - by intros ->.
Qed.

Definition at_page (r va r' va' : Z) : Prop := r' = r /\ va' / 4096 = va / 4096.

Lemma leaf_set s own D t r va v r' va' : inv s own D -> own !! t = Some (mkPos r 0 (pfx 0 va)) -> leaf_value own v ->
  low_va va -> is_root own r' -> low_va va' ->
  leaf (write_pte t (vidx 0 va) v (mm_mem s)) r' va' = if decide (r' = r /\ va' / 4096 = va / 4096) then v else leaf (mm_mem s) r' va'.
Proof.
  intros Hi Ht Hv Hva Hr' Hva'. rewrite (set_leaf_leaf _ own (i_wf _ _ _ Hi) t _ _ v r' va' Ht) by (done || apply vidx_range).
  apply decide_ext. split.
  - intros [[= -> Ep] Ev]. split; [done|]. symmetry. apply (page_pos r' va va'); [done|done|]. split; [by rewrite Ep|done].
  - intros [-> E]. apply page_pos; [done|done|by symmetry].
Qed.

Lemma peek_set s own D t r va v r' va' : inv s own D -> own !! t = Some (mkPos r 0 (pfx 0 va)) -> leaf_value own v ->
  low_va va -> is_root own r' -> low_va va' ->
  peek (write_pte t (vidx 0 va) v (mm_mem s)) r' va' =
  if decide (at_page r va r' va') then (if v =? 0 then None else Some (word (mm_mem s) (pte_frame v) va')) else peek (mm_mem s) r' va'.
Proof.
  intros Hi Ht Hv Hva Hr' Hva'. pose proof (i_wf _ _ _ Hi) as Hwf. pose proof (leaf_set s own D t r va v r' va' Hi Ht Hv Hva Hr' Hva') as El.
  fold (at_page r va r' va') in El. unfold at_page in *. destruct (decide (r' = r /\ va' / 4096 = va / 4096)) as [Hp|Hp].
  - unfold peek. rewrite El. destruct Hv as [->|[(He & Hpr & _) Ho]]; [done|]. destruct (v =? 0) eqn:E0; [done|]. f_equal. unfold word.
    apply (table_write_out t); [apply vidx_range|]. intros Hin. assert (pte_frame v = t) as E; [|congruence].
    exact (in_frame_inj _ t _ (pte_frame_frame v ltac:(lia)) (own_frame _ _ Hwf t _ Ht) (word_in _ va') Hin).
  - apply (peek_out _ _ own (eq t)); [done|done|done|done| |].
    + intros x <-. by apply (own_unread _ _ t _ Hwf Ht).
    + intros a Ha. apply table_write_out; [apply vidx_range|by apply Ha].
Qed.

Lemma peek_set_keeps s own D t r va v : inv s own D -> own !! t = Some (mkPos r 0 (pfx 0 va)) -> leaf_value own v -> low_va va ->
  keeps (at_page r va) s own (upd_mem (write_pte t (vidx 0 va) v) s) own.
Proof.
  intros Hi Ht Hv Hva. constructor; [done|]. intros r' va' Hr' Hva' Hn. cbn [mm_mem upd_mem].
  rewrite (peek_set s own D t r va v r' va') by done. by rewrite decide_False.
Qed.

(** The page holds what it held: its frame is the same, or a copy. *)
Lemma peek_same_keeps s own D t r va v : inv s own D -> own !! t = Some (mkPos r 0 (pfx 0 va)) -> is_root own r -> low_va va -> 
  is_entry v -> own !! pte_frame v = None -> leaf (mm_mem s) r va <> 0 ->
  (forall va', word (mm_mem s) (pte_frame v) va' = word (mm_mem s) (pte_frame (leaf (mm_mem s) r va)) va') ->
  keeps nowhere s own (upd_mem (write_pte t (vidx 0 va) v) s) own.
Proof.
  intros Hi Ht Hr Hva He Ho Hn Hw. constructor; [done|]. intros r' va' Hr' Hva' _. cbn [mm_mem upd_mem].
  rewrite (peek_set s own D t r va v r' va') by (done || by right). destruct (decide _) as [[-> Hp]|]; [|done].
  assert (leaf (mm_mem s) r va' = leaf (mm_mem s) r va) as El.
  { destruct (proj2 (page_pos r va' va Hva' Hva) Hp) as [Ep Ev]. rewrite <- Ep in Ht. unfold leaf.
    rewrite (own_tbl _ own (i_wf _ _ _ Hi) r va' 3 t) by (done || lia). rewrite Ep in Ht.
    by rewrite (own_tbl _ own (i_wf _ _ _ Hi) r va 3 t), Ev by (done || lia). }
  unfold peek. rewrite El, Hw. destruct (v =? 0) eqn:E0; [|by replace (leaf _ _ _ =? 0) with false by lia].
  assert (v = 0) as -> by lia. by destruct He as (_ & He & _).
Qed.
End Keep.
