(* ===== verification/VmmMap.v ===== *)
(** * Page tables: mapping, unmapping and edits of leaves

    The operations on the lower half keep the invariant, and change one page of one
    address space at most. *)

From stdpp Require Import gmultiset.
From S2P Require Import Prelude Bits State Vmm VmmFacts VmmTree VmmInv VmmKeep.
Local Open Scope Z_scope.

#[local] Opaque zero_frame copy_frame table_is_empty.

Section Map.
Context `{Profile} {A : Type} `{FrameLaws A}.
Notation S := (Mm A).
Implicit Types (s : S) (own : gmap Z Pos) (D : gmultiset Z).

(** Tables are added, or get flags: pages and the frames of kernel code stay. *)
Record grows D s own s' own' : Prop := {
  g_own f q : own !! f = Some q -> own' !! f = Some q;
  g_keep : keeps nowhere s own s' own';
  g_leaf r va : is_root own r -> low_va va -> leaf (mm_mem s') r va = leaf (mm_mem s) r va;
  g_held x a : x ∈ D -> in_frame x a -> rd (mm_mem s') a = rd (mm_mem s) a;
  g_counts : mm_counts s' = mm_counts s;
  g_clones : mm_clones s' = mm_clones s
}.

Lemma grows_refl D s own : grows D s own s own.
Proof. constructor; done || apply spaces_refl. Qed.

Lemma grows_trans D s own s1 own1 s2 own2 : grows D s own s1 own1 -> grows D s1 own1 s2 own2 -> grows D s own s2 own2.
Proof.
  intros [Ho1 Hk1 Hl1 Hh1 Hc1 Hr1] [Ho2 Hk2 Hl2 Hh2 Hc2 Hr2]. constructor; [auto|by eapply spaces_trans| | |congruence|congruence].
  - intros r va Hr Hva. rewrite Hl2 by (auto; by apply (k_root _ _ _ _ _ Hk1)). auto.
  - intros x a Hx Ha. rewrite (Hh2 x a) by done. by apply (Hh1 x a).
Qed.

Lemma held_is_frame s own D x : inv s own D -> x ∈ D -> is_frame x.
Proof. intros Hi Hx. destruct (i_held _ _ _ Hi x Hx) as [Hm _]. by apply (managed_frame _ _ (i_fr _ _ _ Hi) Hm). Qed.

(** Writes to tables and to frames that nothing else has. *)
Lemma grows_write D0 D s own s' own' (X : Z -> Prop) : inv s own D0 -> (forall x, x ∈ D -> x ∈ D0) -> mm_counts s' = mm_counts s -> mm_clones s' = mm_clones s ->
  (forall f q, own !! f = Some q -> own' !! f = Some q) -> 
  (forall r va, is_root own r -> low_va va -> leaf (mm_mem s') r va = leaf (mm_mem s) r va) ->
  (forall f, X f -> unread (mm_mem s) own f /\ f ∉ D) -> (forall a, (forall f, X f -> ~ in_frame f a) -> rd (mm_mem s') a = rd (mm_mem s) a) ->
  grows D s own s' own'.
Proof.
  intros Hi HD Hc Hcl Ho Hl HX Hrd. constructor; [done| |done| |done|done].
  - constructor; [intros r; apply Ho|]. intros r va Hr Hva _.
    apply (peek_out _ _ own X); [apply (i_wf _ _ _ Hi)|done|done|by apply Hl|intros f Hf; by apply HX|done].
  - intros x a Hx Ha. apply Hrd. intros f Hf Hin. destruct (HX f Hf) as [[Hfr _] Hn]. apply Hn.
    by rewrite <- (in_frame_inj x f a (held_is_frame s own D0 x Hi (HD x Hx)) Hfr Ha Hin).
Qed.

Lemma own_not_held s own D t q : inv s own D -> own !! t = Some q -> unread (mm_mem s) own t /\ t ∉ D.
Proof. intros Hi Ht. split; [by apply (own_unread _ _ t q (i_wf _ _ _ Hi))|]. by apply (i_own _ _ _ Hi t q Ht). Qed.

Lemma wpp_allocate {E} s own D (Q : option Z -> S -> Prop) (R : E -> S -> Prop) : inv s own D -> Q None s ->
  (forall f a, let s' := set_frames a s in inv s' own ({[+ f +]} ⊎ D) -> cnt s' f = 0 -> Q (Some f) s') ->
  wpp allocate_frame Q R s.
Proof.
  intros Hi HN HS. apply wpp_bind, (wpp_alloc_at s own D); [done|done|]. intros f a s' Hi' Hc.
  destruct (phys_ok f); [|done]. apply wpp_ret. replace (align_down f 4096) with f; [by apply HS|].
  destruct (held_alone _ own D f Hi' Hc) as ([Hf _] & _). unfold align_down. lia.
Qed.

Lemma e_frame_next e g : next_table e = Some g -> e_frame e = Ok g.
Proof. intros (Hp & Hs & ->)%next_table_entry. unfold e_frame. by rewrite Hp, Hs. Qed.

Lemma grows_mem D s own s' : mm_mem s' = mm_mem s -> mm_counts s' = mm_counts s -> mm_clones s' = mm_clones s -> grows D s own s' own.
Proof. intros Em Ec Er. constructor; try done; [by apply keeps_mem|by rewrite Em|by rewrite Em]. Qed.

Lemma link_grows D s own t q i f v : inv s own ({[+ f +]} ⊎ D) -> cnt s f = 0 -> linkable (mm_mem s) own t q i f v ->
  grows D s own (upd_mem (fun m => link m t i f v) s) (<[f := child q i]> own).
Proof.
  intros Hi Hc HL. destruct (held_alone s own D f Hi Hc) as (Hf & Ho & Hr & Hd & _). pose proof (i_wf _ _ _ Hi) as Hwf.
  pose proof HL as [Ht Hl Hix _ _ _ _ _ _].
  apply (grows_write ({[+ f +]} ⊎ D) D s own _ _ (fun x => x = t \/ x = f) Hi); [apply elem_held|done|done| | | |].
  - intros x p Hx'. by rewrite lookup_insert_ne by congruence.
  - intros r va Hr' Hva. by apply (link_leaf _ own Hwf t q i f).
  - intros x [->| ->]; [|by split; [by apply (held_unread s own D)|]]. destruct (own_not_held s own _ t q Hi Ht) as [? Hn]. split; [done|].
    intros Hx. by apply Hn, elem_held.
  - intros a Ha. cbn [upd_mem mm_mem]. unfold link. rewrite rd_zero, decide_False by (apply Ha; by right).
    apply table_write_out; [by eapply low_idx_512|]. apply Ha. by left.
Qed.

Lemma wpp_next_table s own D t q i fl (Q : Z -> S -> Prop) : inv s own D -> own !! t = Some q -> 0 < p_level q -> low_idx q i -> table_flags fl ->
  (forall g s' own', inv s' own' D -> own' !! g = Some (child q i) -> grows D s own s' own' -> Q g s') ->
  wpp (create_next_table t i fl) Q (fun _ _ => True) s.
Proof.
  intros Hi Ht Hl Hix Hfl HQ. pose proof (i_wf _ _ _ Hi) as Hwf. pose proof (low_idx_512 _ _ Hix) as Hi5.
  pose proof (own_frame _ _ Hwf t q Ht) as Htf. unfold create_next_table. apply wpp_bind, wpp_get, wpp_bind.
  destruct (read_pte (mm_mem s) t i =? 0) eqn:E0.
  - apply wpp_bind, (wpp_allocate s own D); [done|done|]. intros f a s1 Hi1 Hc1. unfold store. apply wpp_bind, wpp_upd, wpp_ret, wpp_bind, wpp_get.
    destruct (held_alone s1 own D f Hi1 Hc1) as (Hf & Ho & Hr & Hd & _). destruct (made_table f fl Hf Hfl) as [He Hx].
    destruct (inv_link s1 own D t q i f _ Hi1 Hc1 Ht Hl Hix ltac:(cbn; lia) He Hx) as [HL Hi2].
    cbn [upd_mem mm_mem]. rewrite read_write, decide_True by done. rewrite (e_frame_next _ _ Hx). cbn [st_when].
    apply wpp_bind, wpp_upd, wpp_ret. apply (HQ f _ _ Hi2); [by rewrite lookup_insert_eq|].
    eapply grows_trans; [apply (grows_mem D s own s1); done|]. by apply link_grows.
  - destruct (wf_down _ _ Hwf t q i Ht Hl Hix) as [|(He & g & Hx & Hg)]; [lia|].
    destruct (more_flags _ fl He Hfl) as [He' Hx'].
    apply wpp_bind, wpp_when; intros _; [unfold store; apply wpp_upd|]; apply wpp_ret, wpp_bind, wpp_get.
    + cbn [upd_mem mm_mem]. rewrite read_write, decide_True by done. rewrite <- Hx' in Hx. rewrite (e_frame_next _ _ Hx). cbn [st_when].
      apply wpp_bind, wpp_ret, wpp_ret. eapply (HQ g _ own); [|done|].
      * apply (inv_set_flags s own D t q); try done. lia.
      * apply (grows_write D D s own _ _ (eq t) Hi); [done|done|done|done| | |].
        -- intros r va Hr Hva. apply (set_flags_leaf _ own Hwf t q); try done. lia.
        -- intros x <-. by eapply own_not_held.
        -- intros a Ha. apply table_write_out; [done|]. by apply Ha.
    + rewrite (e_frame_next _ _ Hx). cbn [st_when]. apply wpp_bind, wpp_ret, wpp_ret. apply (HQ g s own); [done|done|apply grows_refl].
Qed.

(** ** Mapping a page *)

Lemma child_pfx r l va : 0 < l -> child (mkPos r l (pfx l va)) (vidx l va) = mkPos r (l - 1) (pfx (l - 1) va).
Proof.
  intros Hl. unfold child. cbn [p_root p_level p_prefix]. f_equal. pose proof (pfx_step (l - 1) va ltac:(lia)) as E.
  by replace (l - 1 + 1) with l in E by lia.
Qed.

Lemma root_pos own r va : low_va va -> is_root own r -> own !! r = Some (mkPos r 3 (pfx 3 va)).
Proof. intros Hva Hr. by rewrite (proj1 (low_top va Hva)). Qed.

(** The page table of [va]. *)
Lemma wpp_tables {B} s own D r va fl (k : Z -> st MapToError S B) (Q : B -> S -> Prop) :
  inv s own D -> is_root own r -> low_va va -> table_flags fl ->
  (forall t s' own', inv s' own' D -> own' !! t = Some (mkPos r 0 (pfx 0 va)) -> grows D s own s' own' -> wpp (k t) Q (fun _ _ => True) s') ->
  wpp (let* p3 := create_next_table r (vidx 3 va) fl in let* p2 := create_next_table p3 (vidx 2 va) fl in
       let* p1 := create_next_table p2 (vidx 1 va) fl in k p1) Q (fun _ _ => True) s.
Proof.
  intros Hi Hr Hva Hfl Hk. pose proof (root_pos own r va Hva Hr) as Ht.
  apply wpp_bind, (wpp_next_table s own D r (mkPos r 3 (pfx 3 va))); [done|done|done|by eapply wf_idx|done|].
  intros t3 s1 own1 Hi1 Ht3 Hg1. rewrite child_pfx in Ht3 by done.
  apply wpp_bind, (wpp_next_table s1 own1 D t3 (mkPos r 2 (pfx 2 va))); [done|done|done|by eapply wf_idx|done|].
  intros t2 s2 own2 Hi2 Ht2 Hg2. rewrite child_pfx in Ht2 by done.
  apply wpp_bind, (wpp_next_table s2 own2 D t2 (mkPos r 1 (pfx 1 va))); [done|done|done|by eapply wf_idx|done|].
  intros t1 s3 own3 Hi3 Ht1 Hg3. rewrite child_pfx in Ht1 by done.
  apply (Hk t1 s3 own3 Hi3 Ht1). eapply grows_trans; [|exact Hg3]. by eapply grows_trans.
Qed.

Lemma held_word D s own s' own' f va : grows ({[+ f +]} ⊎ D) s own s' own' -> word (mm_mem s') f va = word (mm_mem s) f va.
Proof. intros Hg. apply (g_held _ _ _ _ _ Hg f); [apply elem_add; by left|apply word_in]. Qed.

(** The page at [va] has the frame [f], with the entry [e]. *)
Record mapped r va f e s own s' own' : Prop := {
  mp_keep : keeps (at_page r va) s own s' own';
  mp_peek va' : low_va va' -> va' / 4096 = va / 4096 -> peek (mm_mem s') r va' = Some (word (mm_mem s) f va');
  mp_leaf r' va' : is_root own r' -> low_va va' ->
    leaf (mm_mem s') r' va' = if decide (r' = r /\ va' / 4096 = va / 4096) then e else leaf (mm_mem s) r' va';
  mp_frame : e <> 0 /\ pte_frame e = f;
  mp_word va' : word (mm_mem s') f va' = word (mm_mem s) f va';
  mp_counts : mm_counts s' = mm_counts s;
  mp_clones : mm_clones s' = mm_clones s
}.

Lemma wpp_map_to s own D r va f fl pfl (Q : unit -> S -> Prop) :
  inv s own ({[+ f +]} ⊎ D) -> cnt s f = 0 -> is_root own r -> low_va va -> table_flags fl -> table_flags pfl ->
  (forall s' own', inv s' own' D -> mapped r va f (Z.lor f fl) s own s' own' -> Q tt s') ->
  wpp (map_to_4k r va f fl pfl) Q (fun _ _ => True) s.
Proof.
  intros Hi Hc Hr Hva Hfl Hpfl HQ. apply (wpp_tables s own ({[+ f +]} ⊎ D)); [done|done|done|done|].
  intros t s1 own1 Hi1 Ht Hg. apply wpp_bind, wpp_get. destruct (read_pte (mm_mem s1) t (vidx 0 va) =? 0) eqn:E0; [|done]. cbn [negb].
  assert (cnt s1 f = 0) as Hc1 by (unfold cnt, count_at; by rewrite (g_counts _ _ _ _ _ Hg)).
  destruct (held_alone s1 own1 D f Hi1 Hc1) as (Hf & Ho & Hrf & Hd & Hm & Hna). destruct (made_entry f fl Hf Hfl) as (He & Hpf & _).
  assert (is_root own1 r) as Hr1 by (by apply (k_root _ _ _ _ _ (g_keep _ _ _ _ _ Hg))).
  unfold store. apply wpp_upd, (HQ _ own1).
  - apply (inv_set_leaf s1 own1 ({[+ f +]} ⊎ D) D t (vidx 0 va) _ _ Hi1 Ht); [done|apply vidx_range|right; by rewrite Hpf| |].
    + intros x. assert (read_pte (mm_mem s1) t (vidx 0 va) = 0) as -> by lia. rewrite ref1_0, mult_add.
      destruct (decide (x = f)) as [->|]; [|rewrite ref1_ne; [lia|congruence]].
      pose proof (ref1_eq (Z.lor f fl)) as E1. rewrite Hpf in E1. rewrite E1; [lia|]. intros E. by rewrite E in He; destruct He as (_ & He & _).
    + intros _. rewrite Hpf. unfold total. rewrite Hrf, size_empty, mult_add, decide_True by done. apply not_elem_of_multiplicity in Hd. lia.
  - assert (leaf_value own1 (Z.lor f fl)) as Hv by (right; by rewrite Hpf).
    assert (Z.lor f fl <> 0) as Hnz by (intros E; by rewrite E in He; destruct He as (_ & He & _)). constructor; cbn [mm_mem upd_mem].
    + eapply spaces_trans; [apply keeps_none, Hg|]. by apply (peek_set_keeps s1 own1 ({[+ f +]} ⊎ D)).
    + intros va' Hva' Hp. rewrite (peek_set s1 own1 ({[+ f +]} ⊎ D) t r va), decide_True by done. replace (Z.lor f fl =? 0) with false by lia.
      rewrite Hpf. f_equal. by apply (held_word D s own s1 own1).
    + intros r' va' Hr' Hva'. rewrite (leaf_set s1 own1 ({[+ f +]} ⊎ D) t r va) by (done || by apply (k_root _ _ _ _ _ (g_keep _ _ _ _ _ Hg))).
      by rewrite (g_leaf _ _ _ _ _ Hg r' va' Hr' Hva').
    + done.
    + intros va'. rewrite <- (held_word D s own s1 own1 f va' Hg). unfold word. apply table_write_out; [apply vidx_range|].
      intros Hin. rewrite (in_frame_inj f t _ Hf (own_frame _ _ (i_wf _ _ _ Hi1) t _ Ht) (word_in f va') Hin) in Ho. congruence.
    + apply Hg.
    + apply Hg.
Qed.

Definition flags_b (fl : Z) : bool :=
  (0 <=? fl) && (fl <? 2 ^ 64) && forallb (fun i => negb (Z.testbit fl i)) (seqZ 12 40) && has fl PTE_PRESENT && negb (has fl PTE_PS).

Lemma flags_b_table fl : flags_b fl = true -> table_flags fl.
Proof.
  unfold flags_b. rewrite !andb_true_iff, forallb_forall. intros [[[[? ?] Hb] Hp] Hs]. split; [lia|].
  split; [|split; [done|by apply negb_true_iff]]. split; [lia|].
  intros i Hi. apply negb_true_iff, Hb, list_elem_of_In, elem_of_seqZ. lia.
Qed.

Lemma page_flags_ok flags : table_flags (page_flags_to_x86 flags) /\ table_flags (table_flags_for (page_flags_to_x86 flags)).
Proof.
  unfold page_flags_to_x86. destruct (fl_contains flags WRITE), (fl_contains flags EXECUTE), (fl_contains flags NO_CACHE),
    (fl_contains flags WRITE_COMBINING), (fl_contains flags USER); split; apply flags_b_table; vm_compute; reflexivity.
Qed.

Lemma land_pow2_0 a n : 0 <= n -> (Z.land a (Z.ones n) =? 0) = true -> align_down a (2 ^ n) = a.
Proof. intros Hn E. rewrite Z.land_ones in E by done. unfold align_down. lia. Qed.

Lemma wpp_map_at {E} s own D r va f flags (Q : unit -> S -> Prop) (R : E -> S -> Prop) :
  inv s own ({[+ f +]} ⊎ D) -> cnt s f = 0 -> is_root own r -> low_va va ->
  (forall s' own', inv s' own' D -> mapped r va f (Z.lor f (page_flags_to_x86 flags)) s own s' own' -> Q tt s') ->
  wpp (vmm_map_4k r va f flags) Q R s.
Proof.
  intros Hi Hc Hr Hva HQ. unfold vmm_map_4k, assert_. apply wpp_bind. destruct (Z.land va 4095 =? 0) eqn:Ea; [|done]. apply wpp_ret, wpp_bind.
  destruct (Z.land f 4095 =? 0) eqn:Ef; [|done]. apply wpp_ret. unfold map_4k, map_with. apply wpp_bind, wpp_get.
  destruct (canonical va && phys_ok f); [|done]. cbn [negb]. change 4096 with (2 ^ 12). change 4095 with (Z.ones 12) in *.
  rewrite !land_pow2_0 by (done || lia). destruct (page_flags_ok flags) as [Hlf Htf].
  apply wpp_bind, wpp_expect, (wpp_map_to s own D); [done|done|done|done|done|done|].
  intros s' own' Hi' Hm. unfold new_higher_half_slot. destruct (low_top va Hva) as [_ Hv].
  replace (vidx 3 va <? 256) with true by lia. by apply (HQ s' own').
Qed.

Lemma wpp_map_4k {E} s own D r va f flags (Q : unit -> S -> Prop) (R : E -> S -> Prop) :
  inv s own ({[+ f +]} ⊎ D) -> cnt s f = 0 -> is_root own r -> low_va va ->
  (forall s' own', inv s' own' D -> keeps (at_page r va) s own s' own' -> mm_clones s' = mm_clones s ->
     (forall va', low_va va' -> va' / 4096 = va / 4096 -> peek (mm_mem s') r va' = Some (word (mm_mem s) f va')) -> Q tt s') ->
  wpp (vmm_map_4k r va f flags) Q R s.
Proof.
  intros Hi Hc Hr Hva HQ. apply (wpp_map_at s own D); [done|done|done|done|]. intros s' own' Hi' [? ? _ _ _ _ ?]. by apply (HQ s' own').
Qed.

(** ** Unmapping *)

Lemma e_frame_spec e : e_frame e = match next_table e with Some g => Ok g | None => if has e PTE_PRESENT then Err MappedToHugePage else Err NotMapped end.
Proof. unfold e_frame, next_table. by destruct (has e PTE_PRESENT), (has e PTE_PS). Qed.

Lemma walk_p1_tbl m r va : match walk_p1 m r va with Ok t => tbl m r va 3 = Some t | Err _ => tbl m r va 3 = None | Panic => False end.
Proof.
  unfold walk_p1. cbn [tbl]. change (3 - Z.of_nat 0) with 3. change (3 - Z.of_nat 1) with 2. change (3 - Z.of_nat 2) with 1. cbn [mbind option_bind].
  rewrite e_frame_spec. destruct (next_table (read_pte m r (vidx 3 va))) as [t|]; [|by destruct (has _ _)]. cbn.
  rewrite e_frame_spec. destruct (next_table (read_pte m t (vidx 2 va))) as [u|]; [|by destruct (has _ _)]. cbn.
  rewrite e_frame_spec. destruct (next_table (read_pte m u (vidx 1 va))); [done|by destruct (has _ _)].
Qed.

Lemma upper_entry m own r va n t : wf m own -> is_root own r -> low_va va -> (n < 3)%nat -> tbl m r va n = Some t ->
  has (read_pte m t (vidx (3 - Z.of_nat n) va)) PTE_PRESENT = bool_decide (next_table (read_pte m t (vidx (3 - Z.of_nat n) va)) <> None).
Proof.
  intros Hwf Hr Hva Hn Ht. pose proof (tbl_own m own Hwf r va n t Hr Hva ltac:(lia) Ht) as Ho.
  destruct (wf_down m own Hwf t _ (vidx (3 - Z.of_nat n) va) Ho) as [->|((_ & Hp & Hs) & _)]; [cbn; lia|eapply wf_idx; [done|lia|done]| |].
  - unfold next_table. by rewrite has_0.
  - unfold next_table. by rewrite Hp, Hs.
Qed.

Lemma translate_low m own r va : wf m own -> is_root own r -> low_va va ->
  translate_addr m r va = Ok (if leaf m r va =? 0 then None else Some (pte_frame (leaf m r va) + Z.land va (Z.ones 12))).
Proof.
  intros Hwf Hr Hva. unfold translate_addr, leaf. cbn [tbl]. change (3 - Z.of_nat 0) with 3. change (3 - Z.of_nat 1) with 2. change (3 - Z.of_nat 2) with 1.
  cbn [mbind option_bind].
  pose proof (upper_entry m own r va 0 r Hwf Hr Hva ltac:(lia) eq_refl) as H3. change (3 - Z.of_nat 0) with 3 in H3.
  rewrite e_frame_spec, H3. destruct (next_table (read_pte m r (vidx 3 va))) as [t|] eqn:E3; [|done]. cbn [bool_decide].
  assert (tbl m r va 1 = Some t) as Ht by exact E3. pose proof (upper_entry m own r va 1 t Hwf Hr Hva ltac:(lia) Ht) as H4. change (3 - Z.of_nat 1) with 2 in H4.
  cbn [mbind option_bind]. rewrite e_frame_spec, H4. destruct (next_table (read_pte m t (vidx 2 va))) as [u|] eqn:E4; [|done].
  assert (tbl m r va 2 = Some u) as Hu by (cbn [tbl]; change (3 - Z.of_nat 0) with 3; cbn [mbind option_bind]; by rewrite E3).
  pose proof (upper_entry m own r va 2 u Hwf Hr Hva ltac:(lia) Hu) as H5. change (3 - Z.of_nat 2) with 1 in H5.
  cbn [mbind option_bind]. rewrite e_frame_spec, H5. destruct (next_table (read_pte m u (vidx 1 va))) as [w|] eqn:E5; [|done]. by destruct (_ =? 0).
Qed.

(** The page of [va] is gone, and kernel code has its frame. *)
Lemma wpp_unmap {E} s own D r va (Q : bool -> S -> Prop) (R : E -> S -> Prop) : inv s own D -> is_root own r -> low_va va -> va mod 4096 = 0 ->
  (leaf (mm_mem s) r va = 0 -> Q false s) ->
  (forall s', leaf (mm_mem s) r va <> 0 -> inv s' own ({[+ pte_frame (leaf (mm_mem s) r va) +]} ⊎ D) -> keeps (at_page r va) s own s' own ->
     mm_clones s' = mm_clones s ->
     (forall va', low_va va' -> va' / 4096 = va / 4096 -> peek (mm_mem s') r va' = None) -> Q true s') ->
  wpp (unmap_4k_impl r va) Q R s.
Proof.
  intros Hi Hr Hva Ha HN HS. pose proof (i_wf _ _ _ Hi) as Hwf. unfold unmap_4k_impl. destruct (canonical va); [|done]. cbn [negb].
  replace (align_down va 4096) with va by (unfold align_down; lia). apply wpp_catch. unfold unmap_page. apply wpp_bind. unfold wpp at 1.
  pose proof (walk_p1_tbl (mm_mem s) r va) as Hw. unfold leaf in *. destruct (walk_p1 (mm_mem s) r va) as [t|e|]; [|by rewrite Hw in *; apply HN|done].
  rewrite Hw in *. pose proof (tbl_own _ own Hwf r va 3 t Hr Hva ltac:(lia) Hw) as Ht. change (3 - Z.of_nat 3) with 0 in Ht.
  apply wpp_bind, wpp_get. set (e := read_pte (mm_mem s) t (vidx 0 va)) in *.
  destruct (wf_leaf _ own Hwf t _ (vidx 0 va) Ht eq_refl (vidx_range 0 va)) as [E0|[(Hb & Hp & Hs) Ho]]; fold e in E0 || fold e in Hb, Hp, Hs, Ho.
  - rewrite E0. apply wpp_bind. unfold e_frame. rewrite has_0. by apply HN.
  - assert (e <> 0) as Hn by (intros E0; by rewrite E0, has_0 in Hp).
    apply wpp_bind. unfold e_frame. rewrite Hp, Hs. cbn [negb]. unfold wpp at 1, st_res. unfold store. apply wpp_bind, wpp_upd, wpp_ret, wpp_ret.
    apply HS; [done| | |done|].
    + apply (inv_set_leaf s own D _ t (vidx 0 va) _ 0 Hi Ht); [done|apply vidx_range|by left| |by rewrite has_0].
      intros x. fold e. rewrite ref1_0, mult_add. destruct (decide (x = pte_frame e)) as [->|]; [rewrite ref1_eq by done; lia|rewrite ref1_ne by congruence; lia].
    + apply (peek_set_keeps s own D t r va 0 Hi Ht); [by left|done].
    + intros va' Hva' Hpg. cbn [mm_mem upd_mem]. rewrite (peek_set s own D t r va 0 r va' Hi Ht) by (done || by left). by rewrite decide_True.
Qed.
End Map.
