(* ===== verification/VmmRange.v ===== *)
(** * Page tables: ranges of pages and copy on write

    Commit and release of the pages of a range, the edits of its leaves, and the
    break of a share when a page is written. *)

From stdpp Require Import gmultiset.
From S2P Require Import Prelude Bits State Vmm VmmFacts VmmTree VmmInv VmmKeep VmmMap UserMem.
Local Open Scope Z_scope.

#[local] Opaque zero_frame copy_frame table_is_empty.

Section Range.
Context `{Profile} {A : Type} `{FrameLaws A}.
Notation S := (Mm A).
Implicit Types (s : S) (own : gmap Z Pos) (D : gmultiset Z).

Definition within (r v e r' va' : Z) : Prop := r' = r /\ v <= va' < e.

Lemma within_page r v e r' va' : v mod 4096 = 0 -> e mod 4096 = 0 -> v < e -> at_page r v r' va' -> within r v e r' va'.
Proof.
  intros Hv He Hlt [-> Hp]. split; [done|]. pose proof (Z.div_mod va' 4096 ltac:(lia)). pose proof (Z.div_mod v 4096 ltac:(lia)).
  pose proof (Z.div_mod e 4096 ltac:(lia)). pose proof (Z.mod_pos_bound va' 4096 ltac:(lia)). nia.
Qed.

Lemma leaf_page m r va va' : va / 4096 = va' / 4096 -> leaf m r va = leaf m r va'.
Proof.
  intros Hp. assert (forall l, 0 <= l -> vidx l va = vidx l va') as Hv.
  { intros l Hl. rewrite !vidx_div by done. rewrite Z.pow_add_r by lia. change (2 ^ 12) with 4096. rewrite <- !Z.div_div by lia. by rewrite Hp. }
  unfold leaf. cbn [tbl]. change (3 - Z.of_nat 0) with 3. change (3 - Z.of_nat 1) with 2. change (3 - Z.of_nat 2) with 1. by rewrite !Hv by lia.
Qed.

Lemma root_clones s own D r : inv s own D -> is_root own r -> has_clone_roots s = true.
Proof.
  intros Hi Hr. pose proof (i_clones _ _ _ Hi r Hr) as Hin. unfold has_clone_roots. rewrite bool_decide_eq_false_2; [done|].
  intros E. rewrite E in Hin. by apply not_elem_of_nil in Hin.
Qed.

(** No table is reclaimed while address spaces share the upper half. *)
Lemma wpp_next_group {E} s own D r v g (Q : list Z * Z -> S -> Prop) (R : E -> S -> Prop) : inv s own D -> is_root own r ->
  (forall g, Q ([], g) s) -> wpp (next_group r v ([], g)) Q R s.
Proof.
  intros Hi Hr HQ. unfold next_group. destruct (_ =? _); [apply HQ|]. destruct (g =? u64_max); [apply HQ|].
  cbn [flush_if]. change (remaining [] <? 3) with false. apply wpp_bind, wpp_ret, wpp_bind. unfold reclaim_tables. apply wpp_bind, wpp_get.
  rewrite (root_clones s own D r Hi Hr). apply wpp_ret, wpp_bind. change (is_full []) with false. apply wpp_ret, HQ.
Qed.

Lemma wpp_finish {E} s own D r g (Q : unit -> S -> Prop) (R : E -> S -> Prop) : inv s own D -> is_root own r -> Q tt s -> wpp (finish_unmap r ([], g)) Q R s.
Proof.
  intros Hi Hr HQ. unfold finish_unmap. apply wpp_bind. destruct (g =? u64_max); [done|]. apply wpp_bind. change (remaining [] <? 3) with false. cbn [andb flush_if].
  apply wpp_ret. unfold reclaim_tables. apply wpp_bind, wpp_get. rewrite (root_clones s own D r Hi Hr). done.
Qed.

Definition bag (l : list Z) : gmultiset Z := list_to_set_disj l.

Lemma bag_snoc l f D : bag (l ++ [f]) ⊎ D = {[+ f +]} ⊎ (bag l ⊎ D).
Proof. unfold bag. rewrite list_to_set_disj_app. cbn [list_to_set_disj]. multiset_solver. Qed.

(** Nothing is left of the pages from [v] to [e]. *)
Record cleared (r v e : Z) s own s' : Prop := {
  c_keep : keeps (within r v e) s own s' own;
  c_none va : low_va va -> v <= va < e -> peek (mm_mem s') r va = None;
  c_clones : mm_clones s' = mm_clones s
}.

Lemma cleared_step r v e s own s1 s2 : is_root own r -> v mod 4096 = 0 -> e mod 4096 = 0 -> v < e ->
  keeps (at_page r v) s own s1 own -> (forall va, low_va va -> va / 4096 = v / 4096 -> peek (mm_mem s1) r va = None) -> mm_clones s1 = mm_clones s ->
  cleared r (v + 4096) e s1 own s2 -> cleared r v e s own s2.
Proof.
  intros Hr Hv He Hlt Hk Hn Hc [Hk2 Hn2 Hc2]. constructor.
  - eapply spaces_trans; [eapply keeps_mono; [|exact Hk]|eapply keeps_mono; [|exact Hk2]].
    + intros r' va' Hp. by apply within_page.
    + intros r' va' [-> Hw]. split; [done|]. lia.
  - intros va Hva Hw. destruct (decide (v + 4096 <= va)); [apply Hn2; [done|lia]|].
    rewrite (k_peek _ _ _ _ _ Hk2 r va Hr Hva) by (intros [_ ?]; lia). apply Hn; [done|].
    pose proof (Z.div_mod v 4096 ltac:(lia)). symmetry. apply Z.div_unique with (va - v); lia.
  - congruence.
Qed.

Lemma wpp_collect {E} (n : nat) D r e (R : E -> S -> Prop) own : forall s v g frames (Q : list Z * Z * list Z -> S -> Prop),
  inv s own (bag frames ⊎ D) -> is_root own r -> v mod 4096 = 0 -> e mod 4096 = 0 -> 0 <= v -> e <= 2 ^ 47 -> e - v <= 4096 * Z.of_nat n ->
  (forall g frames s', inv s' own (bag frames ⊎ D) -> cleared r v e s own s' -> Q ([], g, frames) s') ->
  wpp (collect_loop n r v e ([], g) frames) Q R s.
Proof.
  induction n as [|n IH]; intros s v g frames Q Hi Hr Hv He Hge H47 Hn HQ; cbn [collect_loop].
  - apply wpp_ret, HQ; [done|]. constructor; [apply spaces_refl|lia|done].
  - destruct (v <? e) eqn:Ev; cbn [negb]; [|apply wpp_ret, HQ; [done|]; constructor; [apply spaces_refl|lia|done]].
    assert (low_va v) as Hva by (split; lia). apply wpp_bind. unfold wpp at 1, translate.
    destruct (canonical v); [|done]. cbn [negb]. rewrite (translate_low _ own r v (i_wf _ _ _ Hi) Hr Hva).
    assert (forall (b : bool) (s1 : S) (frames' : list Z), inv s1 own (bag frames' ⊎ D) -> keeps (at_page r v) s own s1 own ->
      (forall va, low_va va -> va / 4096 = v / 4096 -> peek (mm_mem s1) r va = None) -> mm_clones s1 = mm_clones s ->
      wpp (let* pg := (if b then next_group r v ([], g) else st_ret ([], g)) in
           let* v := st_res (u64_add v 4096) in let* pending := flush_if (is_full pg.1) pg.1 in collect_loop n r v e (pending, pg.2) frames') Q R s1) as Hrest.
    { intros b s1 frames' Hi1 Hk Hp Hc. apply wpp_bind.
      assert (forall g' : Z, wpp (let* v := st_res (u64_add v 4096) in let* pending := flush_if (is_full ([] : list Z)) [] in collect_loop n r v e (pending, g') frames') Q R s1) as Hg.
      { intros g'. unfold u64_add. rewrite u64_op_Ok by (unfold u64_max; lia). apply wpp_bind. unfold wpp at 1, st_res. apply wpp_bind.
        change (is_full []) with false. apply wpp_ret. apply (IH s1 (v + 4096)); [done|done| |done|lia|done|lia|].
        - rewrite <- Z.add_mod_idemp_r, Z.mod_same, Z.add_0_r by lia. done.
        - intros g2 frames2 s2 Hi2 Hc2. apply HQ; [done|]. by eapply cleared_step; [..|exact Hc2]; try done; lia. }
      destruct b; [apply (wpp_next_group s1 own (bag frames' ⊎ D)); [done|done|exact Hg]|exact (Hg g)]. }
    destruct (leaf (mm_mem s) r v =? 0) eqn:E0.
    + apply wpp_bind, wpp_ret. apply (Hrest false s frames); [done|apply spaces_refl| |done].
      intros va Hva' Hp. unfold peek. rewrite (leaf_page _ r va v Hp). by rewrite E0.
    + apply wpp_bind. apply (wpp_unmap s own (bag frames ⊎ D)); [done|done|done|done| |].
      * intros E1. apply (Hrest false s frames); [done|apply spaces_refl| |done]. lia.
      * intros s1 _ Hi1 Hk Hc Hp. apply (Hrest true s1); [|done|done|done].
        change (inv s1 own (bag (frames ++ [pte_frame (leaf (mm_mem s) r v) + Z.land v (Z.ones 12)]) ⊎ D)). rewrite bag_snoc, Z.land_ones by lia. change (2 ^ 12) with 4096. by rewrite Hv, Z.add_0_r.
Qed.

Lemma bag_cons f l D : bag (f :: l) ⊎ D = {[+ f +]} ⊎ (bag l ⊎ D).
Proof. unfold bag. cbn [list_to_set_disj]. multiset_solver. Qed.

Lemma wpp_decrefs {E} own D l (R : E -> S -> Prop) : forall s (Q : unit -> S -> Prop), inv s own (bag l ⊎ D) ->
  (forall s', mm_mem s' = mm_mem s -> mm_clones s' = mm_clones s -> inv s' own D -> Q tt s') -> wpp (st_for l decref_or_free) Q R s.
Proof.
  induction l as [|f l IH]; intros s Q Hi HQ; cbn [st_for].
  - apply wpp_ret, HQ; [done|done|]. unfold bag in Hi. cbn [list_to_set_disj] in Hi. by rewrite (left_id_L ∅ (⊎)) in Hi.
  - rewrite bag_cons in Hi. apply wpp_bind, (wpp_decref s own (bag l ⊎ D)); [done|]. intros s1 Em Ec Hi1. apply IH; [done|].
    intros s2 Em2 Ec2 Hi2. apply HQ; [congruence|congruence|done].
Qed.

Lemma cleared_mem r v e s own s' s2 : mm_mem s2 = mm_mem s' -> mm_clones s2 = mm_clones s' -> cleared r v e s own s' -> cleared r v e s own s2.
Proof.
  intros Em Ec [Hk Hn Hc]. constructor; [|by rewrite Em|congruence]. eapply spaces_trans; [exact Hk|]. by apply keeps_none, keeps_mem.
Qed.

Lemma wpp_collected {E} s own D r va n (Q : list Z -> S -> Prop) (R : E -> S -> Prop) :
  inv s own D -> is_root own r -> 0 <= va -> 0 <= n -> va + n * 4096 <= 2 ^ 47 ->
  (forall l s', inv s' own (bag l ⊎ D) -> cleared r va (va + n * 4096) s own s' -> Q l s') -> wpp (unmap_range_collect r va (n * 4096)) Q R s.
Proof.
  intros Hi Hr Hva Hn Hb HQ. unfold unmap_range_collect, assert_. apply wpp_bind. destruct (Z.land va 4095 =? 0) eqn:Ea; [|done]. apply wpp_ret, wpp_bind.
  change 4095 with (Z.ones 12) in Ea. rewrite Z.land_ones in Ea by lia. change (2 ^ 12) with 4096 in Ea.
  destruct (Z.land (n * 4096) 4095 =? 0); [|done]. apply wpp_ret, wpp_bind. unfold u64_add. rewrite u64_op_Ok by (unfold u64_max; lia).
  unfold wpp at 1, st_res. apply wpp_bind. apply (wpp_collect _ D r _ _ own); [|done|lia| |done|done| |].
  - unfold bag. cbn [list_to_set_disj]. by rewrite (left_id_L ∅ (⊎)).
  - rewrite Z.mod_add by lia. lia.
  - unfold range_pages. rewrite Z2Nat.id by (apply Z.div_pos; lia). pose proof (Z.div_mod (n * 4096 + 4095) 4096 ltac:(lia)).
    pose proof (Z.mod_pos_bound (n * 4096 + 4095) 4096 ltac:(lia)). lia.
  - intros g l s1 Hi1 Hc. apply wpp_bind, (wpp_finish s1 own (bag l ⊎ D)); [done|done|]. apply wpp_ret. by apply HQ.
Qed.

Lemma wpp_release {E} s own D r va n (Q : Z -> S -> Prop) (R : E -> S -> Prop) :
  inv s own D -> is_root own r -> 0 <= va -> 0 <= n -> va + n * 4096 <= 2 ^ 47 ->
  (forall k s', inv s' own D -> cleared r va (va + n * 4096) s own s' -> Q k s') -> wpp (release_pages r va n) Q R s.
Proof.
  intros Hi Hr Hva Hn Hb HQ. unfold release_pages. change PAGE with 4096. apply wpp_bind, (wpp_collected s own D); try done.
  intros l s1 Hi1 Hc1. apply wpp_bind, (wpp_decrefs own D l _ s1 _ Hi1). intros s2 Em Ec Hi2. apply wpp_ret, HQ; [done|]. by eapply cleared_mem.
Qed.

(** Tables may come, and pages of [P] change. *)
Definition moved (P : Z -> Z -> Prop) D s own s' : Prop :=
  exists own', inv s' own' D /\ keeps P s own s' own' /\ mm_clones s' = mm_clones s.

Lemma moved_step (P P' : Z -> Z -> Prop) D s own s1 own1 s2 : keeps P s own s1 own1 -> mm_clones s1 = mm_clones s ->
  (forall r va, P r va -> P' r va) -> moved P' D s1 own1 s2 -> moved P' D s own s2.
Proof.
  intros Hk Hc HP (own2 & Hi & Hk2 & Hc2). exists own2. split; [done|]. split; [|congruence]. eapply spaces_trans; [|exact Hk2]. by eapply keeps_mono.
Qed.

Lemma moved_mono (P P' : Z -> Z -> Prop) D s own s' : (forall r va, P r va -> P' r va) -> moved P D s own s' -> moved P' D s own s'.
Proof. intros HP (own' & Hi & Hk & Hc). exists own'. split; [done|]. split; [by eapply keeps_mono|done]. Qed.

Definition zeroed (r v e : Z) s : Prop := forall va, low_va va -> v <= va < e -> peek (mm_mem s) r va = Some 0.

Lemma wpp_commit_loop (n : nat) D r va0 fl : forall s own va k, inv s own D -> is_root own r -> 0 <= va0 -> 0 <= k -> va = va0 + k * 4096 ->
  va0 mod 4096 = 0 -> va + Z.of_nat n * 4096 <= 2 ^ 47 -> zeroed r va0 va s ->
  let e := va + Z.of_nat n * 4096 in
  wpp (commit_loop n r va0 va k fl) (fun _ s' => moved (within r va0 e) D s own s' /\ zeroed r va0 e s') (fun _ s' => moved (within r va0 e) D s own s') s.
Proof.
  induction n as [|n IH]; intros s own va k Hi Hr H0' Hk Ev Ha Hb Hz e; cbn [commit_loop].
  - apply wpp_ret. split; [exists own; split; [done|]; split; [apply spaces_refl|done]|]. unfold e. by rewrite Z.mul_0_l, Z.add_0_r.
  - apply wpp_bind, (wpp_alloc s own D); [done| |].
    + apply wpp_bind, wpp_when; intros Ek; [|apply wpp_err; exists own; split; [done|]; split; [apply spaces_refl|done]].
      apply wpp_bind. change PAGE with 4096. apply (wpp_collected s own D); [done|done|done|done|lia|]. intros l s1 Hi1 Hc1.
      apply (wpp_decrefs own D l _ s1 _ Hi1). intros s2 Em Ec Hi2. apply wpp_err.
      destruct (cleared_mem _ _ _ _ _ _ s2 Em Ec Hc1) as [Hk1 _ Hcl]. exists own. split; [done|]. split; [|done]. eapply keeps_mono; [|exact Hk1].
      intros r' va' [-> Hw]. split; [done|]. unfold e. lia.
    + intros f s1 Em Ec Hi1 Hc1. unfold store. apply wpp_bind, wpp_upd.
      destruct (held_write s1 own D f (zero_frame f) Hi1 Hc1) as (Hi2 & Hk2 & _).
      { intros m a Hn. by rewrite rd_zero, decide_False. }
      apply wpp_bind, (wpp_map_4k _ own D); [done|done|done|split; lia|]. intros s3 own3 Hi3 Hk3 Hc3 Hp3.
      apply wpp_bind. unfold u64_add, PAGE. rewrite u64_op_Ok by (unfold u64_max; lia). unfold wpp at 1, st_res.
      assert (keeps (at_page r va) s own s3 own3) as Hk13.
      { eapply spaces_trans; [apply keeps_none, (keeps_mem s own s1 Em)|]. eapply spaces_trans; [apply keeps_none, Hk2|exact Hk3]. }
      assert (is_root own3 r) as Hr3 by (by apply (k_root _ _ _ _ _ Hk13)).
      assert (va mod 4096 = 0) as Hva by (subst va; rewrite Z.mod_add by lia; done).
      assert (forall r' va', at_page r va r' va' -> within r va0 e r' va') as Hin.
      { intros r' va' Hp. destruct (within_page r va (va + 4096) r' va' Hva) as [-> Hw]; [|lia|done|].
        - rewrite <- Z.add_mod_idemp_r, Z.mod_same, Z.add_0_r by lia. done.
        - split; [done|]. unfold e. lia. }
      assert (mm_clones s3 = mm_clones s) as Hcl by (rewrite Hc3; exact Ec).
      replace e with (va + 4096 + Z.of_nat n * 4096) in * by (unfold e; lia).
      eapply wpp_mono; [apply (IH s3 own3 (va + 4096) (k + 1) Hi3 Hr3); try done; try lia| |].
      * intros va' Hva' Hw. destruct (decide (va <= va')).
        -- rewrite (Hp3 va' Hva'); [f_equal; unfold word; cbn [mm_mem upd_mem]; rewrite rd_zero, decide_True; [done|apply word_in]|].
           pose proof (Z.div_mod va 4096 ltac:(lia)). symmetry. apply Z.div_unique with (va' - va); lia.
        -- rewrite (k_peek _ _ _ _ _ Hk13 r va' Hr Hva'); [apply Hz; [done|lia]|]. intros [_ Hp].
           pose proof (Z.div_mod va 4096 ltac:(lia)). pose proof (Z.div_mod va' 4096 ltac:(lia)). pose proof (Z.mod_pos_bound va' 4096 ltac:(lia)). lia.
      * intros ? s4 [Hm4 Hz4]. split; [|done]. by eapply moved_step.
      * intros ? s4 Hm4. by eapply moved_step.
Qed.

Lemma wpp_commit s own D r va n fl : inv s own D -> is_root own r -> 0 <= va -> va mod 4096 = 0 -> 0 <= n -> va + n * 4096 <= 2 ^ 47 ->
  wpp (commit_pages r va n fl) (fun _ s' => moved (within r va (va + n * 4096)) D s own s' /\ zeroed r va (va + n * 4096) s')
    (fun _ s' => moved (within r va (va + n * 4096)) D s own s') s.
Proof.
  intros Hi Hr Hva Ha Hn Hb. unfold commit_pages.
  pose proof (wpp_commit_loop (Z.to_nat n) D r va fl s own va 0 Hi Hr Hva ltac:(lia) ltac:(lia) Ha) as Hw. cbv zeta in Hw. rewrite Z2Nat.id in Hw by done.
  apply Hw; [done|]. intros va' _ Hw'. lia.
Qed.

(** ** Edits of leaves *)

Lemma wpp_edit {E} s own D r va f (Q : bool -> S -> Prop) (R : E -> S -> Prop) : inv s own D -> is_root own r -> low_va va ->
  f 0 = 0 \/ leaf (mm_mem s) r va <> 0 -> (f (leaf (mm_mem s) r va) = leaf (mm_mem s) r va \/ leaf (mm_mem s) r va = 0 -> Q false s) ->
  (forall t, own !! t = Some (mkPos r 0 (pfx 0 va)) -> read_pte (mm_mem s) t (vidx 0 va) = leaf (mm_mem s) r va -> leaf (mm_mem s) r va <> 0 ->
     Q true (upd_mem (write_pte t (vidx 0 va) (f (leaf (mm_mem s) r va))) s)) ->
  wpp (edit_user_leaf r va f) Q R s.
Proof.
  intros Hi Hr Hva Hf HF HT. unfold edit_user_leaf. apply wpp_bind, wpp_get. rewrite walk_leaf_tbl. unfold leaf in *.
  destruct (tbl (mm_mem s) r va 3) as [t|] eqn:Et; [|apply wpp_ret, HF; by right]. pose proof (tbl_own _ own (i_wf _ _ _ Hi) r va 3 t Hr Hva ltac:(lia) Et) as Ht.
  apply wpp_bind, wpp_get. destruct (f (read_pte (mm_mem s) t (vidx 0 va)) =? read_pte (mm_mem s) t (vidx 0 va)) eqn:Ee; [apply wpp_ret, HF; left; lia|].
  unfold store. apply wpp_bind, wpp_upd, wpp_ret. apply (HT t Ht eq_refl). intros E0. destruct Hf as [Hf|Hf]; [|done]. by rewrite E0, Hf in Ee.
Qed.

(** An edit that keeps the frame and does not allow more. *)
Record tame (f : Z -> Z) : Prop := {
  tm_0 : f 0 = 0;
  tm_entry e : is_entry e -> is_entry (f e) /\ pte_frame (f e) = pte_frame e;
  tm_write e : has (f e) PTE_WRITABLE = true -> has e PTE_WRITABLE = true
}.

Lemma leaf_slot own t r va : own !! t = Some (mkPos r 0 (pfx 0 va)) -> (t, vidx 0 va) ∈ slots own.
Proof. intros Ht. apply elem_of_slots. eexists. split; [exact Ht|]. split; [done|apply vidx_range]. Qed.

Lemma entry_nz e : is_entry e -> e <> 0.
Proof. intros (_ & Hp & _) ->. by rewrite has_0 in Hp. Qed.

(** The leaf gets another value for the same frame. *)
Lemma inv_same_frame s own D t r va v : inv s own D -> is_root own r -> low_va va -> own !! t = Some (mkPos r 0 (pfx 0 va)) ->
  let e := read_pte (mm_mem s) t (vidx 0 va) in e = leaf (mm_mem s) r va -> e <> 0 -> is_entry v -> pte_frame v = pte_frame e ->
  (has v PTE_WRITABLE = true -> total s own D (pte_frame e) = 1%nat) ->
  inv (upd_mem (write_pte t (vidx 0 va) v) s) own D /\ keeps nowhere s own (upd_mem (write_pte t (vidx 0 va) v) s) own.
Proof.
  intros Hi Hr Hva Ht e El Hn Hv Hf Hw. pose proof (i_wf _ _ _ Hi) as Hwf.
  destruct (wf_leaf _ own Hwf t _ (vidx 0 va) Ht eq_refl (vidx_range 0 va)) as [|[He Ho]]; [done|]. fold e in He, Ho.
  destruct (i_leaf _ _ _ Hi t (vidx 0 va) (leaf_slot own t r va Ht) Hn) as [Hm Hna]. fold e in Hm, Hna. split.
  - apply (inv_set_leaf s own D D t (vidx 0 va) _ v Hi Ht); [done|apply vidx_range|right; by rewrite Hf| |by rewrite Hf].
    intros x. fold e. unfold ref1. rewrite Hf. do 2 f_equal. apply decide_ext. pose proof (entry_nz v Hv). tauto.
  - apply (peek_same_keeps s own D t r va v Hi Ht Hr Hva Hv); [by rewrite Hf|by rewrite <- El|]. intros va'. by rewrite <- El, Hf.
Qed.

Lemma wpp_tame {E} s own D r va f (R : E -> S -> Prop) : inv s own D -> is_root own r -> low_va va -> tame f ->
  wpp (edit_user_leaf r va f) (fun _ s' => inv s' own D /\ keeps nowhere s own s' own /\ mm_clones s' = mm_clones s /\
    forall r' va', is_root own r' -> low_va va' -> leaf (mm_mem s') r' va' =
      if decide (r' = r /\ va' / 4096 = va / 4096) then f (leaf (mm_mem s) r' va') else leaf (mm_mem s) r' va') R s.
Proof.
  intros Hi Hr Hva [Hf0 Hfe Hfw]. apply (wpp_edit s own D); [done|done|done|by left| |].
  - intros Hsame. split_and!; [done|apply spaces_refl|done|]. intros r' va' Hr' Hva'. destruct (decide _) as [[-> Hp]|]; [|done].
    rewrite (leaf_page _ r va' va Hp). destruct Hsame as [->| ->]; done.
  - intros t Ht El Hn. destruct (wf_leaf _ own (i_wf _ _ _ Hi) t _ (vidx 0 va) Ht eq_refl (vidx_range 0 va)) as [|[He Ho]]; [congruence|].
    rewrite El in *. destruct (Hfe _ He) as [He' Hf'].
    destruct (inv_same_frame s own D t r va (f (leaf (mm_mem s) r va)) Hi Hr Hva Ht El) as [Hi' Hk']; [congruence|done|congruence| |].
    + rewrite El. intros Hw. rewrite <- El. apply (i_excl _ _ _ Hi t (vidx 0 va)); [by eapply leaf_slot|]. rewrite El. by apply Hfw.
    + split_and!; [done|done|done|]. intros r' va' Hr' Hva'. cbn [mm_mem upd_mem].
      rewrite (leaf_set s own D t r va _ r' va' Hi Ht) by (done || right; by rewrite Hf').
      destruct (decide _) as [[-> Hp]|]; [|done]. by rewrite (leaf_page _ r va' va Hp).
Qed.

(** What an edit of pages allows. *)
Definition less s own s' : Prop := forall r va, is_root own r -> low_va va ->
  has (leaf (mm_mem s') r va) PTE_WRITABLE = true -> has (leaf (mm_mem s) r va) PTE_WRITABLE = true.

Definition shut (r : Z) (P : Z -> Prop) s : Prop := forall va, low_va va -> P va -> has (leaf (mm_mem s) r va) PTE_WRITABLE = false.

Definition kills (f : Z -> Z) : Prop := forall e, e = 0 \/ is_entry e -> has (f e) PTE_WRITABLE = false.

Lemma wpp_tame_range {E} s own D r va n f (R : E -> S -> Prop) : inv s own D -> is_root own r -> 0 <= va -> va + n * 4096 <= 2 ^ 47 -> tame f ->
  wpp (edit_user_leaf_range r va n f) (fun _ s' => inv s' own D /\ keeps nowhere s own s' own /\ mm_clones s' = mm_clones s /\ less s own s' /\
    (kills f -> shut r (fun va' => exists p, 0 <= p < n /\ va' / 4096 = (va + p * 4096) / 4096) s')) R s.
Proof.
  intros Hi Hr Hva Hb Hf. unfold edit_user_leaf_range.
  eapply wpp_mono; [apply (wpp_fold _ R (fun l (c : Z) s' => (forall p, p ∈ l -> 0 <= p < n) /\ inv s' own D /\ keeps nowhere s own s' own /\ mm_clones s' = mm_clones s /\
    less s own s' /\ (kills f -> shut r (fun va' => exists p, 0 <= p < n /\ p ∉ l /\ va' / 4096 = (va + p * 4096) / 4096) s')))| |done].
  - split; [intros p ?%elem_of_seqZ; lia|]. split; [done|]. split; [apply spaces_refl|]. split; [done|]. split; [by intros r' va'|].
    intros _ va' Hva' (p & Hp & Hn & _). exfalso. apply Hn, elem_of_seqZ. lia.
  - intros p l c s1 (Hl & Hi1 & Hk1 & Hc1 & Hls & Hsh). assert (0 <= p < n) as Hp by (apply Hl; by left).
    unfold u64_mul, u64_add. apply wpp_bind. rewrite u64_op_Ok by (unfold u64_max; lia). unfold wpp at 1, st_res.
    apply wpp_bind. rewrite u64_op_Ok by (unfold u64_max; lia). unfold wpp at 1, st_res. apply wpp_bind.
    eapply wpp_mono; [apply (wpp_tame s1 own D r (va + p * 4096) f R); [done|done|split; lia|done]| |done].
    intros b s2 (Hi2 & Hk2 & Hc2 & Hlf). apply wpp_ret. split; [intros x Hx; apply Hl; by right|]. split; [done|].
    split; [by eapply spaces_trans|]. split; [congruence|]. split.
    + intros r' va' Hr' Hva'. rewrite Hlf by done. destruct (decide _); [|by apply Hls]. intros Hw. apply Hls; [done|done|]. by apply (tm_write f Hf).
    + intros HK va' Hva' (p' & Hp' & Hn & E'). rewrite Hlf by done. destruct (decide _) as [|Hd].
      { apply HK. destruct (leaf_entry _ own (i_wf _ _ _ Hi1) r va' Hr Hva') as [|[? _]]; [by left|by right]. }
      apply Hsh; [done|done|].
      exists p'. split; [done|]. split; [|done]. intros [->|]%elem_of_cons; [|done]. apply Hd. done.
  - intros c s1 (_ & Hi1 & Hk1 & Hc1 & Hls & Hsh). split_and!; try done. intros HK va' Hva' (p & Hp & Ep). apply Hsh; [done|done|].
    exists p. split; [done|]. split; [apply not_elem_of_nil|done].
Qed.

Lemma bit_tame (f : Z -> Z) (keep : Z -> bool) : (forall e i, 0 <= i -> keep i = true -> Z.testbit (f e) i = Z.testbit e i) ->
  (forall e, 0 <= e < 2 ^ 64 -> 0 <= f e < 2 ^ 64) -> (forall i, 12 <= i < 52 -> keep i = true) -> keep 0 = true -> keep 7 = true ->
  (forall e, Z.testbit (f e) 1 = true -> Z.testbit e 1 = true) -> tame (if_present f).
Proof.
  intros Hb Hr Hk H0' H7 H1'. constructor.
  - unfold if_present. by rewrite has_0.
  - intros e (He & Hp & Hs). unfold if_present. rewrite Hp. split; [split; [by apply Hr|]|].
    + rewrite has_present, has_ps in *. by rewrite !Hb by (done || lia).
    + apply pte_frame_ext. intros i Hi. apply Hb; [lia|by apply Hk].
  - intros e. unfold if_present. destruct (has e PTE_PRESENT); [|done]. rewrite !has_writable. apply H1'.
Qed.

Lemma clear_writable_tame : tame (if_present clear_writable) /\ kills (if_present clear_writable).
Proof.
  split.
  - apply (bit_tame _ (fun i => (i <? 64) && negb (i =? 1))).
    + intros e i Hi Hk. unfold clear_writable. rewrite Z.land_spec, lnot64_bits by done. replace (i <? 64) with true by lia.
      change PTE_WRITABLE with (2 ^ 1). rewrite Z.pow2_bits_false by lia. by rewrite andb_true_r.
    + intros e He. by apply land_u64.
    + lia.
    + done.
    + done.
    + intros e. unfold clear_writable. rewrite Z.land_spec. by intros [? _]%andb_true_iff.
  - intros e [->|(_ & Hp & _)]; unfold if_present; [by rewrite !has_0|]. rewrite Hp, has_writable. unfold clear_writable. rewrite Z.land_spec. by rewrite andb_false_r.
Qed.

Lemma set_pkey_tame key : tame (if_present (set_pkey key)).
Proof.
  apply (bit_tame _ (fun i => (i <? 59))).
  - intros e i Hi Hk. unfold set_pkey. rewrite Z.lor_spec, Z.land_spec, lnot64_bits, !Z.shiftl_spec by done. change PTE_PKEY_SHIFT with 59.
    rewrite !(Z.testbit_neg_r _ (i - 59)) by lia. replace (i <? 64) with true by lia. cbn. by rewrite andb_true_r, orb_false_r.
  - intros e He. unfold set_pkey. apply lor_u64; [by apply land_u64|]. assert (0 <= Z.land key 15 < 16) as Hk.
    { change 15 with (Z.ones 4). rewrite Z.land_ones by lia. apply Z.mod_pos_bound. lia. }
    rewrite Z.shiftl_mul_pow2 by done. change PTE_PKEY_SHIFT with 59. lia.
  - lia.
  - done.
  - done.
  - intros e. unfold set_pkey. rewrite Z.lor_spec, Z.land_spec, Z.shiftl_spec by lia. rewrite (Z.testbit_neg_r _ (1 - PTE_PKEY_SHIFT)) by done.
    rewrite orb_false_r. by intros [? _]%andb_true_iff.
Qed.
End Range.

(** ** Copy on write *)

Lemma translate_user_low m own r va : wf m own -> is_root own r -> low_va va ->
  match translate_user m r va with
  | None => leaf m r va = 0
  | Some (pa, _, w) => leaf m r va <> 0 /\ pa = Z.lor (pte_frame (leaf m r va)) (Z.land va (Z.ones 12)) /\ w = has (leaf m r va) PTE_WRITABLE
  end.
Proof.
  intros Hwf Hr Hva. unfold translate_user, leaf. cbn [tbl]. change (3 - Z.of_nat 0) with 3. change (3 - Z.of_nat 1) with 2. change (3 - Z.of_nat 2) with 1.
  cbn [mbind option_bind].
  pose proof (upper_entry m own r va 0 r Hwf Hr Hva ltac:(lia) eq_refl) as H3. change (3 - Z.of_nat 0) with 3 in H3. rewrite H3.
  destruct (next_table (read_pte m r (vidx 3 va))) as [t|] eqn:E3; [|done]. cbn [bool_decide negb mbind option_bind].
  destruct (next_table_entry _ _ E3) as (_ & _ & <-).
  assert (tbl m r va 1 = Some t) as Ht by exact E3. pose proof (upper_entry m own r va 1 t Hwf Hr Hva ltac:(lia) Ht) as H4. change (3 - Z.of_nat 1) with 2 in H4.
  rewrite H4. destruct (next_table (read_pte m t (vidx 2 va))) as [u|] eqn:E4; [|done]. destruct (next_table_entry _ _ E4) as (_ & -> & <-).
  assert (tbl m r va 2 = Some u) as Hu by (cbn [tbl]; change (3 - Z.of_nat 0) with 3; cbn [mbind option_bind]; by rewrite E3).
  pose proof (upper_entry m own r va 2 u Hwf Hr Hva ltac:(lia) Hu) as H5. change (3 - Z.of_nat 2) with 1 in H5.
  cbn [bool_decide negb mbind option_bind]. rewrite H5. destruct (next_table (read_pte m u (vidx 1 va))) as [w|] eqn:E5; [|done].
  destruct (next_table_entry _ _ E5) as (_ & -> & <-). cbn [bool_decide negb mbind option_bind].
  assert (tbl m r va 3 = Some w) as Hw.
  { cbn [tbl]. change (3 - Z.of_nat 0) with 3. change (3 - Z.of_nat 1) with 2. cbn [mbind option_bind]. rewrite E3. cbn [mbind option_bind]. by rewrite E4. }
  pose proof (tbl_own m own Hwf r va 3 w Hr Hva ltac:(lia) Hw) as Ho.
  destruct (wf_leaf m own Hwf w _ (vidx 0 va) Ho eq_refl (vidx_range 0 va)) as [->|[He _]]; [by rewrite has_0|].
  pose proof (entry_nz _ He). destruct He as (_ & -> & _). done.
Qed.

Lemma phys_page f va : is_frame f -> Z.land (Z.lor f (Z.land va (Z.ones 12))) (lnot64 4095) = f.
Proof.
  intros Hf. apply Z.bits_inj'. intros i Hi. change 4095 with (Z.ones 12).
  rewrite Z.land_spec, Z.lor_spec, Z.land_spec, lnot64_bits, testbit_ones by lia. destruct (Z.testbit f i) eqn:Ef.
  - pose proof (is_frame_bits f i Hf Hi Ef). replace (i <? 12) with false by lia. by replace (i <? 64) with true by lia.
  - destruct (i <? 12) eqn:E12; cbn [orb]; [|by rewrite andb_false_r]. replace (i <? 64) with true by lia. by rewrite andb_false_r.
Qed.

Lemma set_writable_entry e : is_entry e -> is_entry (set_writable e) /\ pte_frame (set_writable e) = pte_frame e.
Proof.
  intros (Hr & Hp & Hs). assert (forall i, 0 <= i -> i <> 1 -> i <> 5 -> Z.testbit (set_writable e) i = Z.testbit e i) as Hb.
  { intros i Hi H1 H5. unfold set_writable. rewrite !Z.lor_spec. change PTE_WRITABLE with (2 ^ 1). change PTE_ACCESSED with (2 ^ 5).
    rewrite !Z.pow2_bits_false by lia. by rewrite !orb_false_r. }
  split; [split|].
  - unfold set_writable. apply lor_u64; [by apply lor_u64|done].
  - rewrite has_present, has_ps in *. by rewrite !Hb by lia.
  - apply pte_frame_ext. intros i Hi. apply Hb; lia.
Qed.

Lemma repoint_entry f e : is_frame f -> is_entry e -> is_entry (repoint f e) /\ pte_frame (repoint f e) = f.
Proof.
  intros Hf (Hr & Hp & Hs). assert (Z.land f (lnot64 4095) = f) as Ef.
  { rewrite <- (phys_page f 0 Hf) at 2. by rewrite Z.land_0_l, Z.lor_0_r. }
  assert (forall i, 0 <= i -> Z.testbit (repoint f e) i = Z.testbit e i && (i <? 12) || Z.testbit f i || (i =? 0) || (i =? 1) || (i =? 5)) as Hb.
  { intros i Hi. unfold repoint. rewrite Ef, !Z.lor_spec, Z.land_spec. change 4095 with (Z.ones 12). rewrite testbit_ones by lia.
    change PTE_PRESENT with (2 ^ 0). change PTE_WRITABLE with (2 ^ 1). change PTE_ACCESSED with (2 ^ 5). rewrite !Z.pow2_bits_eqb by lia.
    by rewrite (Z.eqb_sym 0), (Z.eqb_sym 1), (Z.eqb_sym 5). }
  split; [split|].
  - unfold repoint. rewrite Ef. repeat (apply lor_u64; [|done]). apply lor_u64; [by apply land_u64|by apply frame_u64].
  - rewrite has_present, has_ps in *. rewrite !Hb by lia. rewrite Hp, Hs. split; [by rewrite orb_true_r|].
    destruct (Z.testbit f 7) eqn:E7; [|done]. pose proof (is_frame_bits f 7 Hf ltac:(lia) E7). lia.
  - rewrite <- (is_frame_mask f Hf) at 2. apply pte_frame_ext. intros i Hi. rewrite Hb by lia.
    replace (i <? 12) with false by lia. replace (i =? 0) with false by lia. replace (i =? 1) with false by lia. replace (i =? 5) with false by lia.
    by rewrite andb_false_r, !orb_false_r.
Qed.

Section Cow.
Context `{Profile} {A : Type} `{FrameLaws A}.
Notation S := (Mm A).
Implicit Types (s : S) (own : gmap Z Pos) (D : gmultiset Z).

Record resolved D s own s' : Prop := {
  rs_inv : inv s' own D;
  rs_keep : keeps nowhere s own s' own;
  rs_clones : mm_clones s' = mm_clones s
}.

(** The page may be written where user code may reach it. *)
Definition open_page s s' r va : Prop :=
  match translate_user (mm_mem s) r va with Some (_, true, _) => has (leaf (mm_mem s') r va) PTE_WRITABLE = true | _ => True end.

Lemma word_copy old new m va : word (copy_frame old new m) new va = word m old va.
Proof. unfold word. rewrite rd_copy, decide_True by apply word_in. f_equal. lia. Qed.

Lemma word_copy_out old new m f va : is_frame f -> is_frame new -> f <> new -> word (copy_frame old new m) f va = word m f va.
Proof.
  intros Hf Hn Hne. unfold word. rewrite rd_copy, decide_False; [done|]. intros Hin. apply Hne. exact (in_frame_inj f new _ Hf Hn (word_in f va) Hin).
Qed.

Lemma has_set_writable e : has (set_writable e) PTE_WRITABLE = true.
Proof. rewrite has_writable. unfold set_writable. rewrite !Z.lor_spec. change (Z.testbit PTE_WRITABLE 1) with true. by rewrite orb_true_r. Qed.

Lemma has_repoint f e : has (repoint f e) PTE_WRITABLE = true.
Proof. rewrite has_writable. unfold repoint. rewrite !Z.lor_spec. change (Z.testbit PTE_WRITABLE 1) with true. by rewrite orb_true_r. Qed.

Lemma wpp_make_writable {E} s own D r va (Q : bool -> S -> Prop) (R : E -> S -> Prop) : inv s own D -> is_root own r -> low_va va ->
  let e := leaf (mm_mem s) r va in e <> 0 -> cnt s (pte_frame e) = 0 ->
  (forall b s', resolved D s own s' -> has (leaf (mm_mem s') r va) PTE_WRITABLE = true -> Q b s') -> wpp (user_leaf_make_writable r va) Q R s.
Proof.
  intros Hi Hr Hva e Hn Hc HQ. pose proof (i_wf _ _ _ Hi) as Hwf. destruct (leaf_entry _ own Hwf r va Hr Hva) as [|[He Ho]]; [done|]. fold e in He, Ho.
  pose proof He as (_ & Hp & _). unfold user_leaf_make_writable.
  assert (if_present set_writable e = set_writable e) as Ef by (unfold if_present; by rewrite Hp). destruct (set_writable_entry e He) as [He' Hf'].
  apply (wpp_edit s own D); [done|done|done|by right| |]; fold e.
  - intros [Ee|?]; [|done]. apply HQ; [constructor; [done|apply spaces_refl|done]|]. fold e. rewrite <- Ee, Ef. apply has_set_writable.
  - intros t Ht El _. rewrite Ef. destruct (leaf_ref _ own r va Hwf Hr Hva Hn) as (t' & Hin & _). fold e in Hin.
    destruct (i_leaf _ _ _ Hi t (vidx 0 va) (leaf_slot own t r va Ht) ltac:(congruence)) as [Hm _]. rewrite El in Hm.
    destruct (inv_same_frame s own D t r va (set_writable e) Hi Hr Hva Ht El) as [Hi' Hk']; [congruence|done|congruence| |].
    + intros _. rewrite El. fold e. destruct (i_cnt _ _ _ Hi _ Hm) as (_ & Hone & _). fold e in Hone. specialize (Hone Hc). unfold total in *.
      assert (size (refset (mm_mem s) own (pte_frame e)) <> 0%nat); [|lia]. intros Ez. apply size_empty_iff in Ez. by apply Ez in Hin.
    + apply HQ; [constructor; done|]. cbn [mm_mem upd_mem]. rewrite (leaf_set s own D t r va _ r va Hi Ht) by (done || right; by rewrite Hf').
      rewrite decide_True by done. apply has_set_writable.
Qed.

(** The page moves to a copy of its frame, which kernel code gets. *)
Lemma wpp_repoint {E} s own D r va f (Q : bool -> S -> Prop) (R : E -> S -> Prop) : inv s own ({[+ f +]} ⊎ D) -> cnt s f = 0 -> is_root own r -> low_va va ->
  let e := leaf (mm_mem s) r va in e <> 0 -> (forall va', word (mm_mem s) f va' = word (mm_mem s) (pte_frame e) va') ->
  (forall b s', resolved ({[+ pte_frame e +]} ⊎ D) s own s' -> has (leaf (mm_mem s') r va) PTE_WRITABLE = true -> Q b s') ->
  wpp (user_leaf_repoint_writable r va f) Q R s.
Proof.
  intros Hi Hc Hr Hva e Hn Hw HQ. pose proof (i_wf _ _ _ Hi) as Hwf. destruct (leaf_entry _ own Hwf r va Hr Hva) as [|[He Ho]]; [done|]. fold e in He, Ho.
  destruct (held_alone s own D f Hi Hc) as (Hf & Hof & Hrf & Hd & Hm & Hna). destruct (repoint_entry f e Hf He) as [He' Hf'].
  destruct (leaf_ref _ own r va Hwf Hr Hva Hn) as (t' & Hin & _). fold e in Hin.
  assert (pte_frame e <> f) as Hne by (intros E0; rewrite E0, Hrf in Hin; by apply elem_of_empty in Hin).
  apply (wpp_edit s own ({[+ f +]} ⊎ D)); [done|done|done|by right| |]; fold e.
  - intros [E0|?]; [|done]. rewrite E0 in Hf'. done.
  - intros t Ht El _. fold e in El. apply HQ.
    + constructor; [| |done].
      * apply (inv_set_leaf s own ({[+ f +]} ⊎ D) _ t (vidx 0 va) _ _ Hi Ht); [done|apply vidx_range|right; by rewrite Hf'| |].
        -- intros x. rewrite El, !mult_add. destruct (decide (x = f)) as [->|Hx].
           ++ rewrite decide_False, (ref1_ne e) by congruence. pose proof (ref1_eq (repoint f e) (entry_nz _ He')) as E1. rewrite Hf' in E1. lia.
           ++ rewrite (ref1_ne (repoint f e)) by congruence. destruct (decide (x = pte_frame e)) as [->|]; [rewrite (ref1_eq e Hn); lia|]. rewrite (ref1_ne e) by congruence. lia.
        -- intros _. rewrite Hf'. unfold total. rewrite Hrf, size_empty, mult_add, decide_True by done. apply not_elem_of_multiplicity in Hd. lia.
      * apply (peek_same_keeps s own ({[+ f +]} ⊎ D) t r va _ Hi Ht Hr Hva He'); [by rewrite Hf'|done|]. intros va'. by rewrite Hf'.
    + cbn [mm_mem upd_mem]. rewrite (leaf_set s own ({[+ f +]} ⊎ D) t r va _ r va Hi Ht) by (done || right; by rewrite Hf').
      rewrite decide_True by done. apply has_repoint.
Qed.

Lemma resolved_refl D s own : inv s own D -> resolved D s own s.
Proof. intros Hi. constructor; [done|apply spaces_refl|done]. Qed.

Lemma resolved_step D s own s1 s2 : keeps nowhere s own s1 own -> mm_clones s1 = mm_clones s -> resolved D s1 own s2 -> resolved D s own s2.
Proof. intros Hk Hc [Hi Hk2 Hc2]. constructor; [done|by eapply spaces_trans|congruence]. Qed.

Lemma wpp_cow_break {E} s own D r va (R : E -> S -> Prop) : inv s own D -> is_root own r -> low_va va ->
  wpp (cow_break r va) (fun b s' => resolved D s own s' /\ (b = true -> open_page s s' r va)) R s.
Proof.
  intros Hi Hr Hva. pose proof (i_wf _ _ _ Hi) as Hwf. unfold cow_break. apply wpp_bind, wpp_get.
  pose proof (translate_user_low _ own r va Hwf Hr Hva) as Htr. unfold open_page.
  destruct (translate_user (mm_mem s) r va) as [[[pa u] w]|]; [|apply wpp_ret; split; [by apply resolved_refl|done]].
  destruct Htr as (Hn & -> & ->). set (e := leaf (mm_mem s) r va) in *.
  destruct (negb u || has e PTE_WRITABLE) eqn:Euw; [apply wpp_ret; split; [by apply resolved_refl|]; by destruct u|].
  destruct u; [|discriminate Euw]. cbn [negb orb] in Euw. destruct (leaf_entry _ own Hwf r va Hr Hva) as [E0|[He Ho]]; [case (Hn E0)|]. fold e in He, Ho.
  assert (is_frame (pte_frame e)) as Hf by (apply pte_frame_frame; by destruct He as [[? _] _]). rewrite (phys_page _ va Hf).
  destruct (leaf_ref _ own r va Hwf Hr Hva Hn) as (t & Hin & El). fold e in Hin, El.
  assert ((t, vidx 0 va) ∈ slots own) as Hsl by (apply elem_of_refset in Hin as [? _]; by apply elem_of_slots).
  destruct (i_leaf _ _ _ Hi t _ Hsl) as [Hm Hna]; [by rewrite El|]. rewrite El in Hm, Hna.
  apply wpp_bind, wpp_get. unfold is_sole_owner. rewrite (slot_managed _ _ _ _ Hi Hm). fold (cnt s (pte_frame e)).
  destruct ((cnt s (pte_frame e) =? 0) || (cnt s (pte_frame e) =? 1)) eqn:Es.
  - apply wpp_bind, (wpp_privatize s own D); [done|done|done|done|lia|]. intros s1 Em Ec Ef Hi1 Hc1.
    apply wpp_bind, (wpp_make_writable s1 own D r va); [done|done|done|by rewrite Em|by rewrite Em|]. intros b s2 Hs2 Hw2. apply wpp_ret. split; [|done].
    eapply resolved_step; [|exact Ec|exact Hs2]. by apply keeps_mem.
  - apply wpp_bind, (wpp_alloc s own D); [done|apply wpp_ret; split; [by apply resolved_refl|done]|]. intros f s1 Em Ec Hi1 Hc1.
    destruct (held_alone s1 own D f Hi1 Hc1) as (Hff & Hof & Hrf & _).
    destruct (held_write s1 own D f (copy_frame (pte_frame e) f) Hi1 Hc1) as (Hi2 & Hk2 & Hl2); [intros m a Ha; by rewrite rd_copy, decide_False|].
    assert (leaf (mm_mem (upd_mem (copy_frame (pte_frame e) f) s1)) r va = e) as Ee by (cbn [mm_mem upd_mem]; rewrite Hl2 by done; by rewrite Em).
    assert (pte_frame e <> f) as Hne by (intros E0; rewrite <- E0, Em in Hrf; rewrite Hrf in Hin; by apply elem_of_empty in Hin).
    unfold store. apply wpp_bind, wpp_upd, wpp_bind, (wpp_repoint _ own D r va f); [done|done|done|done|by rewrite Ee| |].
    { intros va'. rewrite Ee. cbn [mm_mem upd_mem]. rewrite word_copy. by rewrite word_copy_out. }
    rewrite Ee. intros b s3 [Hi3 Hk3 Hc3] Hw3. apply wpp_bind, (wpp_decref s3 own D); [done|]. intros s4 Em4 Ec4 Hi4. apply wpp_ret.
    split; [|intros _; by rewrite Em4]. constructor; [done| |cbn in *; congruence].
    eapply spaces_trans; [by apply (keeps_mem s own s1)|]. eapply spaces_trans; [exact Hk2|]. eapply spaces_trans; [exact Hk3|]. by apply keeps_mem.
Qed.
End Cow.
