(* ===== verification/VmmClone.v ===== *)
(** * Page tables: clones of address spaces, and their teardown

    The clone of a root shares the frames of its parent, page by page, outside of
    the range that is left out; the teardown gives back every page and table. *)

From stdpp Require Import gmultiset.
From S2P Require Import Prelude Bits State Vmm VmmFacts VmmTree VmmInv VmmKeep VmmMap UserMem VmmRange.
Local Open Scope Z_scope.

(** ** Addresses *)

Lemma lor_shift p i n k : 0 <= p -> 0 <= i < 2 ^ k -> 0 <= n -> 0 <= k -> Z.lor (p * 2 ^ (n + k)) (Z.shiftl i n) = (p * 2 ^ k + i) * 2 ^ n.
Proof.
  intros Hp Hi Hn Hk. rewrite (Z.pow_add_r 2 n k), Z.shiftl_mul_pow2 by lia.
  replace (p * (2 ^ n * 2 ^ k)) with (Z.shiftl (Z.shiftl p k) n) by (rewrite !Z.shiftl_mul_pow2 by lia; lia).
  rewrite <- !Z.shiftl_mul_pow2 by lia. rewrite <- Z.shiftl_lor. f_equal. rewrite <- Z.lxor_lor, <- Z.add_nocarry_lxor; [rewrite Z.shiftl_mul_pow2 by lia; done|..].
  all: apply Z.bits_inj'; intros j Hj; rewrite Z.land_spec, Z.bits_0, Z.shiftl_spec by done;
    destruct (Z.testbit i j) eqn:Eb; [|by rewrite andb_false_r]; pose proof (bits_in i j k Hi Eb); by rewrite Z.testbit_neg_r by lia.
Qed.

(** The entry of [va] in a table at level [l], as the walk names it. *)
Definition span (l : nat) (va : Z) : Z := va / 2 ^ SHIFT l * 2 ^ SHIFT l.

Lemma span_idx (l : nat) va : span l va = (pfx (Z.of_nat l) va * 512 + vidx (Z.of_nat l) va) * 2 ^ SHIFT l.
Proof.
  unfold span. f_equal. rewrite vidx_div by lia. unfold pfx, SHIFT. replace (21 + 9 * Z.of_nat l) with (12 + 9 * Z.of_nat l + 9) by lia.
  rewrite (Z.pow_add_r 2 (12 + 9 * Z.of_nat l) 9), <- Z.div_div by lia. change (2 ^ 9) with 512. pose proof (Z.div_mod (va / 2 ^ (12 + 9 * Z.of_nat l)) 512 ltac:(lia)). lia.
Qed.

(** Whether the walk copies the page of [va]. *)
Fixpoint copied (l : nat) (skip : option (Z * Z)) (va : Z) : bool :=
  negb (cow_skipped l skip (span l va)) && match l with O => true | Datatypes.S l => copied l skip va end.

(** ** Tables *)

Lemma insert_fold_comm (k : Z -> Z) l a v : forall m : gmap Z Z, (forall i, i ∈ l -> k i <> a) ->
  fold_left (fun m i => <[k i := 0]> m) l (<[a := v]> m) = <[a := v]> (fold_left (fun m i => <[k i := 0]> m) l m).
Proof.
  induction l as [|i l IH]; intros m Hn; [done|]. cbn [fold_left]. rewrite insert_insert_ne by (apply Hn; by left). apply IH. intros j Hj. apply Hn. by right.
Qed.

Lemma zero_write t i v f m : is_frame t -> is_frame f -> t <> f -> 0 <= i < 512 -> write_pte t i v (zero_frame f m) = zero_frame f (write_pte t i v m).
Proof.
  intros Ht Hf Hne Hi. unfold write_pte, zero_frame. symmetry. apply (insert_fold_comm (fun i => f + 8 * i)). intros j Hj%elem_of_seqZ E.
  apply Hne. apply (in_frame_inj t f (entry_at t i) Ht Hf); [by apply entry_in_frame|]. exists j. lia.
Qed.

#[local] Opaque zero_frame copy_frame table_is_empty.

(** Nothing is below an empty entry. *)
Lemma tbl_none m r va n : tbl m r va n = None -> forall k, tbl m r va (n + k) = None.
Proof. intros E k. induction k as [|k IH]; [by rewrite Nat.add_0_r|]. rewrite Nat.add_succ_r. cbn [tbl]. by rewrite IH. Qed.

Lemma leaf_none m own r va (l : nat) t : wf m own -> low_va va -> (l <= 3)%nat -> own !! t = Some (mkPos r (Z.of_nat l) (pfx (Z.of_nat l) va)) ->
  read_pte m t (vidx (Z.of_nat l) va) = 0 -> leaf m r va = 0.
Proof.
  intros Hwf Hva Hl Ht Hz. unfold leaf. assert (tbl m r va (3 - l) = Some t) as Et.
  { apply (own_tbl m own Hwf r va (3 - l) t Hva); [lia|]. by replace (3 - Z.of_nat (3 - l)) with (Z.of_nat l) by lia. }
  destruct l as [|l]; [cbn [Nat.sub] in Et; rewrite Et; exact Hz|].
  assert (tbl m r va (3 - l) = None) as En.
  { replace (3 - l)%nat with (Datatypes.S (3 - Datatypes.S l)) by lia. cbn [tbl]. rewrite Et. cbn [mbind option_bind].
    replace (3 - Z.of_nat (3 - Datatypes.S l)) with (Z.of_nat (Datatypes.S l)) by lia. rewrite Hz. unfold next_table. by rewrite has_0. }
  pose proof (tbl_none m r va _ En l) as E3. replace (3 - l + l)%nat with 3%nat in E3 by lia. by rewrite E3.
Qed.

(** The frames of the two sides, and the leaf of a page table. *)
Lemma leaf_at m own r va t : wf m own -> low_va va -> own !! t = Some (mkPos r 0 (pfx 0 va)) -> leaf m r va = read_pte m t (vidx 0 va).
Proof. intros Hwf Hva Ht. unfold leaf. by rewrite (own_tbl m own Hwf r va 3 t Hva ltac:(lia) Ht). Qed.

Lemma pfx_up (l : nat) va : pfx (Z.of_nat (S l)) va * 512 + vidx (Z.of_nat (S l)) va = pfx (Z.of_nat l) va.
Proof. replace (Z.of_nat (S l)) with (Z.of_nat l + 1) by lia. apply pfx_step. lia. Qed.

Lemma span_at (l : nat) va p i : pfx (Z.of_nat l) va = p -> vidx (Z.of_nat l) va = i -> span l va = (p * 512 + i) * 2 ^ SHIFT l.
Proof. intros <- <-. apply span_idx. Qed.

(** The first address below an entry. *)
Lemma base_va (l : nat) p i : 0 <= p -> 0 <= i < 512 ->
  let va := (p * 512 + i) * 2 ^ SHIFT l in 0 <= va /\ pfx (Z.of_nat l) va = p /\ vidx (Z.of_nat l) va = i.
Proof.
  intros Hp Hi va. assert (0 < 2 ^ SHIFT l) as Hpos by (apply Z.pow_pos_nonneg; unfold SHIFT; lia). assert (va / 2 ^ SHIFT l = p * 512 + i) as Ed by (apply Z.div_mul; lia).
  split; [unfold va; nia|]. split.
  - unfold pfx. replace (21 + 9 * Z.of_nat l) with (SHIFT l + 9) by (unfold SHIFT; lia). rewrite Z.pow_add_r by (unfold SHIFT; lia).
    rewrite <- Z.div_div, Ed by lia. change (2 ^ 9) with 512. symmetry. apply Z.div_unique with i; lia.
  - rewrite vidx_div by lia. fold (SHIFT l). rewrite Ed. symmetry. apply Z.mod_unique with p; lia.
Qed.

Section Clone.
Context `{Profile} {A : Type} `{FrameLaws A}.
Notation S := (Mm A).
Implicit Types (s : S) (own : gmap Z Pos).

(** ** A new root *)

(** Entries of the upper half are copied into [f]. *)
Lemma wpp_high_half {E} s f r (Q : unit -> S -> Prop) (R : E -> S -> Prop) : is_frame f -> (forall i, 0 <= i < 256 -> read_pte (mm_mem s) f i = 0) ->
  (forall s', (forall a, ~ in_frame f a -> rd (mm_mem s') a = rd (mm_mem s) a) -> (forall i, 0 <= i < 256 -> read_pte (mm_mem s') f i = 0) ->
     mm_frames s' = mm_frames s -> mm_clones s' = mm_clones s -> mm_counts s' = mm_counts s -> Q tt s') ->
  wpp (st_for HIGH_HALF (fun i => let* e := pte r i in store (write_pte f i e))) Q R s.
Proof.
  intros Hf Hz HQ.
  eapply wpp_mono; [apply (wpp_for _ R (fun l s' => (forall i, i ∈ l -> 256 <= i < 512) /\ (forall a, ~ in_frame f a -> rd (mm_mem s') a = rd (mm_mem s) a) /\
    (forall i, 0 <= i < 256 -> read_pte (mm_mem s') f i = 0) /\ mm_frames s' = mm_frames s /\ mm_clones s' = mm_clones s /\ mm_counts s' = mm_counts s))| |done].
  - split; [|done]. intros i Hi%elem_of_seqZ. lia.
  - intros i l s1 (Hl & Ho & Hz1 & Hr1). assert (256 <= i < 512) as Hi by (apply Hl; by left). apply wpp_bind, wpp_get. unfold store. apply wpp_upd.
    split; [intros j Hj; apply Hl; by right|]. split; [|split; [|exact Hr1]].
    + intros a Ha. cbn [mm_mem upd_mem]. rewrite table_write_out by (done || lia). by apply Ho.
    + intros j Hj. cbn [mm_mem upd_mem]. rewrite read_write, decide_False by (done || lia). by apply Hz1.
  - intros [] s1 (_ & Ho & Hz1 & Ef & Ecl & Ec). by apply HQ.
Qed.

Lemma wpp_clone_high {E} s own D r (Q : Z -> S -> Prop) (R : E -> S -> Prop) : inv s own D ->
  (forall c s', own !! c = None -> inv s' (<[c := mkPos c 3 0]> own) D -> keeps nowhere s own s' (<[c := mkPos c 3 0]> own) ->
     (forall r' va, is_root own r' -> low_va va -> leaf (mm_mem s') r' va = leaf (mm_mem s) r' va) -> mm_clones s' = mm_clones s ++ [c] ->
     (forall i, 0 <= i < 256 -> read_pte (mm_mem s') c i = 0) -> Q c s') ->
  wpp (clone_high_half r) Q R s.
Proof.
  intros Hi HQ. unfold clone_high_half. apply wpp_bind, (wpp_alloc s own D); [done|done|]. intros f s1 Em Ec Hi1 Hc1.
  destruct (held_alone s1 own D f Hi1 Hc1) as (Hf & Ho & _). pose proof (i_wf _ _ _ Hi1) as Hwf. unfold debug_assert. apply wpp_bind.
  destruct (debug_profile && _); [done|]. unfold wpp at 1, st_res. unfold store. apply wpp_bind, wpp_upd, wpp_bind.
  apply wpp_high_half; [done|intros i Hi'; cbn [mm_mem upd_mem]; by rewrite read_zero, decide_True by (done || lia)|].
  intros s2 Hrd Hz Ef Ecl Ecn. unfold register_clone_root. apply wpp_bind, wpp_upd, wpp_ret.
  assert (forall a, ~ in_frame f a -> rd (mm_mem s2) a = rd (mm_mem s1) a) as Hout.
  { intros a Ha. rewrite Hrd by done. cbn [mm_mem upd_mem]. by rewrite rd_zero, decide_False. }
  assert (same_tbls own (mm_mem s1) (mm_mem s2)) as Hs by (eapply same_tbls_out; [by apply (own_frame _ _ Hwf)|exact Hf|exact Ho|exact Hout]).
  assert (inv (set_clones (mm_clones s2 ++ [f]) s2) (<[f := mkPos f 3 0]> own) D) as Hi2.
  { pose proof (inv_new_root s1 own D f (mm_mem s2) Hi1 Hc1 Hs Hz) as Hi2. unfold set_clones. cbn in Ef, Ecl, Ecn. by rewrite Ef, Ecl, Ecn. }
  assert (forall r' va, is_root own r' -> low_va va -> leaf (mm_mem s2) r' va = leaf (mm_mem s) r' va) as Hl.
  { intros r' va Hr' Hva. rewrite <- Em. by eapply leaf_ext. }
  apply HQ; [done|done| |done|cbn in *; congruence|done].
  constructor; [intros r' Hr'; unfold is_root in *; by rewrite lookup_insert_ne by congruence|]. intros r' va Hr' Hva _. cbn [mm_mem set_clones]. rewrite <- Em.
  apply (peek_out _ _ own (eq f)); [done|done|done|by rewrite Hl, Em|intros x <-; by apply (held_unread s1 own D)|]. intros a Ha. apply Hout. by apply Ha.
Qed.

(** ** The walk *)

Context (skip : option (Z * Z)) (r c : Z) (Hrc : r <> c).

(** The tables below a place of [c] as the walk leaves them, with the entries of
    [todo] to come. *)
Record copy (l : nat) (p ct : Z) (todo : list Z) s own s' own' : Prop := {
  cp_inv : inv s' own' ∅;
  cp_own f q : own !! f = Some q -> own' !! f = Some q;
  cp_keep : keeps (fun r' _ => r' = c) s own s' own';
  cp_clones : mm_clones s' = mm_clones s;
  cp_read g q j : own !! g = Some q -> g <> ct -> 0 <= j < 512 -> read_pte (mm_mem s') g j = read_pte (mm_mem s) g j;
  cp_leaf r' va : is_root own r' -> low_va va -> r' <> c \/ pfx (Z.of_nat l) va <> p -> leaf (mm_mem s') r' va = leaf (mm_mem s) r' va;
  cp_todo i : i ∈ todo -> low_idx (mkPos c (Z.of_nat l) p) i -> read_pte (mm_mem s') ct i = 0;
  cp_done va : low_va va -> pfx (Z.of_nat l) va = p -> vidx (Z.of_nat l) va ∉ todo ->
    leaf (mm_mem s') c va = if copied l skip va then leaf (mm_mem s) r va else 0
}.

(** What a walk starts from. *)
Record start (l : nat) (p pt ct : Z) s own : Prop := {
  sr_level : (l <= 3)%nat;
  sr_inv : inv s own ∅;
  sr_roots : is_root own r /\ is_root own c;
  sr_p : 0 <= p;
  sr_low i : low_idx (mkPos c (Z.of_nat l) p) i -> (p * 512 + i + 1) * 2 ^ SHIFT l <= 2 ^ 47;
  sr_high i : 0 <= i < 512 -> ~ low_idx (mkPos c (Z.of_nat l) p) i -> cow_skipped l skip ((p * 512 + i) * 2 ^ SHIFT l) = true;
  sr_pt : own !! pt = Some (mkPos r (Z.of_nat l) p);
  sr_ct : own !! ct = Some (mkPos c (Z.of_nat l) p);
  sr_empty i : low_idx (mkPos c (Z.of_nat l) p) i -> read_pte (mm_mem s) ct i = 0;
  sr_shut va : low_va va -> pfx (Z.of_nat l) va = p -> copied l skip va = true -> has (leaf (mm_mem s) r va) PTE_WRITABLE = false
}.

Lemma low_va_idx (l : nat) p va : (l <= 3)%nat -> low_va va -> pfx (Z.of_nat l) va = p -> low_idx (mkPos c (Z.of_nat l) p) (vidx (Z.of_nat l) va).
Proof. intros Hl Hva <-. eapply wf_idx; [done|lia|done]. Qed.

Lemma copy_start (l : nat) p pt ct s own : start l p pt ct s own -> copy l p ct (seqZ 0 512) s own s own.
Proof.
  intros [Hl Hi [Hr Hc] Hp Hlow Hh Hpt Hct He Hs]. constructor; [done|done|apply spaces_refl|done|done|done|intros i _; apply He|].
  intros va Hva Ep Hn. exfalso. apply Hn, elem_of_seqZ. pose proof (vidx_range (Z.of_nat l) va). lia.
Qed.

(** An entry that is left out, or not there. *)
Lemma copy_pass (l : nat) p pt ct i todo s own s1 own1 : start l p pt ct s own -> copy l p ct (i :: todo) s own s1 own1 ->
  (cow_skipped l skip ((p * 512 + i) * 2 ^ SHIFT l) = true \/ low_idx (mkPos c (Z.of_nat l) p) i /\ read_pte (mm_mem s1) pt i = 0) ->
  copy l p ct todo s own s1 own1.
Proof.
  intros [Hl Hi [Hr Hc] Hp Hlow Hh Hpt Hct He Hs] [Hi1 Ho1 Hk1 Hc1 Hrd1 Hlf1 Ht1 Hd1] Hcase. constructor; try done.
  - intros j Hj. apply Ht1. by right.
  - intros va Hva Ep Hn. destruct (decide (vidx (Z.of_nat l) va = i)) as [Ei|Hne]; [|apply Hd1; [done|done|by intros [|]%elem_of_cons]].
    pose proof (low_va_idx l p va Hl Hva Ep) as Hix. rewrite Ei in Hix.
    rewrite (leaf_none _ own1 c va l ct (i_wf _ _ _ Hi1) Hva Hl); [|rewrite Ep; by apply Ho1|rewrite Ei; apply Ht1; [by left|done]].
    destruct Hcase as [Hsk|[_ Hz]].
    + replace (copied l skip va) with false; [done|]. destruct l; cbn [copied]; rewrite (span_at _ va p i Ep Ei), Hsk; done.
    + destruct (copied l skip va); [|done]. rewrite <- (Hlf1 r va Hr Hva (or_introl Hrc)).
      rewrite (leaf_none _ own1 r va l pt (i_wf _ _ _ Hi1) Hva Hl); [done|rewrite Ep; by apply Ho1|by rewrite Ei].
Qed.

Lemma base_low (l : nat) p pt ct i s own : start l p pt ct s own -> low_idx (mkPos c (Z.of_nat l) p) i ->
  let va := (p * 512 + i) * 2 ^ SHIFT l in low_va va /\ pfx (Z.of_nat l) va = p /\ vidx (Z.of_nat l) va = i /\ 0 <= i < 512.
Proof.
  intros [Hl Hi [Hr Hc] Hp Hlow Hh Hpt Hct He Hs] Hix va. pose proof (low_idx_512 _ _ Hix) as Hi5. destruct (base_va l p i Hp Hi5) as (H0' & Ep & Ei).
  assert (0 < 2 ^ SHIFT l) as Hpos by (apply Z.pow_pos_nonneg; unfold SHIFT; lia). specialize (Hlow i Hix). split; [|done]. split; [done|]. unfold va. lia.
Qed.

(** A page of the parent. *)
Lemma copy_page p pt ct i todo s own s1 own1 (Q : unit -> S -> Prop) (R : CowLog -> S -> Prop) : start 0 p pt ct s own -> NoDup (i :: todo) ->
  copy 0 p ct (i :: todo) s own s1 own1 -> 0 <= i < 512 -> cow_skipped 0 skip ((p * 512 + i) * 2 ^ SHIFT 0) = false -> read_pte (mm_mem s1) pt i <> 0 ->
  (forall s2 own2, copy 0 p ct todo s own s2 own2 -> Q tt s2) ->
  wpp (let* _ := store (write_pte ct i (read_pte (mm_mem s1) pt i)) in share_frame (pte_frame (read_pte (mm_mem s1) pt i))) Q R s1.
Proof.
  intros Hst Hnd [Hi1 Ho1 Hk1 Hc1 Hrd1 Hlf1 Ht1 Hd1] Hi5 Hsk Hn HQ. pose proof Hst as [Hl Hi [Hr Hc] Hp Hlow Hh Hpt Hct He Hs].
  destruct (base_low 0 p pt ct i s own Hst Hi5) as (Hva & Ep & Ei & _). set (va := (p * 512 + i) * 2 ^ SHIFT 0) in *. change (Z.of_nat 0) with 0 in *.
  pose proof (i_wf _ _ _ Hi1) as Hwf1. pose proof (Ho1 _ _ Hpt) as Hpt1. pose proof (Ho1 _ _ Hct) as Hct1.
  set (e := read_pte (mm_mem s1) pt i) in *.
  assert (leaf (mm_mem s1) r va = e) as El by (rewrite (leaf_at _ own1 r va pt Hwf1 Hva), Ei; [done|by rewrite Ep]).
  assert (copied 0 skip va = true) as Hcp by (cbn [copied]; rewrite (span_at 0 va p i Ep Ei); fold va; by rewrite Hsk).
  apply NoDup_cons in Hnd as [Hni Hnd].
  apply (wpp_share s1 own1 ct _ i pt i _ _ Hi1 Hct1); [done|done|apply Ht1; [by left|done]| |done| |].
  - apply elem_of_slots. eexists. split; [exact Hpt1|done].
  - fold e. rewrite <- El, (Hlf1 r va Hr Hva (or_introl Hrc)). by apply Hs.
  - intros s2 Em Ec Hi2. apply (HQ s2 own1).
    destruct (wf_leaf _ own1 Hwf1 pt _ i Hpt1 eq_refl Hi5) as [|Hv]; [done|].
    assert (own1 !! ct = Some (mkPos c 0 (pfx 0 va))) as Hct2 by (by rewrite Ep).
    assert (forall r' va', is_root own1 r' -> low_va va' -> leaf (mm_mem s2) r' va' = if decide (r' = c /\ va' / 4096 = va / 4096) then e else leaf (mm_mem s1) r' va') as Hset.
    { intros r' va' Hr' Hva'. rewrite Em. pose proof (leaf_set s1 own1 ∅ ct c va e r' va' Hi1 Hct2 (or_intror Hv) Hva Hr' Hva') as Hx. by rewrite Ei in Hx. }
    assert (forall r', is_root own r' -> is_root own1 r') as Hroots by (intros r'; apply Ho1).
    constructor; [done|done| |congruence| | | |].
    + eapply spaces_trans; [exact Hk1|]. pose proof (peek_set_keeps s1 own1 ∅ ct c va e Hi1 Hct2 (or_intror Hv) Hva) as Hk2. rewrite Ei in Hk2.
      constructor; [done|]. intros r' va' Hr' Hva' Hne. rewrite Em. apply (k_peek _ _ _ _ _ Hk2 r' va' Hr' Hva'). intros [-> _]. done.
    + intros g q j Hg Hne Hj. rewrite Em, read_write, decide_False; [by eapply Hrd1|by intros [-> _]|by eapply (own_frame _ _ Hwf1)|
        apply (own_frame _ _ (i_wf _ _ _ Hi) g q Hg)|done|done].
    + intros r' va' Hr' Hva' Hor. rewrite Hset by auto. rewrite decide_False; [by apply Hlf1|]. intros [-> Hpg].
      destruct Hor as [|Hne]; [done|]. destruct (proj2 (page_pos c va' va Hva' Hva) Hpg) as [[= E1] _]. apply Hne. change (Z.of_nat 0) with 0. congruence.
    + intros j Hj Hjx. rewrite Em, read_write, decide_False; [apply Ht1; [by right|done]|intros [_ ->]; done|by eapply (own_frame _ _ Hwf1)|
        by eapply (own_frame _ _ Hwf1)|done|by apply (low_idx_512 _ _ Hjx)].
    + intros va' Hva' Ep' Hni'. change (Z.of_nat 0) with 0 in *. rewrite Hset by auto. destruct (decide _) as [[_ Hpg]|Hne].
      * rewrite <- El, (Hlf1 r va Hr Hva (or_introl Hrc)), (leaf_page _ r va' va Hpg). destruct (proj2 (page_pos c va' va Hva' Hva) Hpg) as [_ Ev].
        assert (copied 0 skip va' = true) as ->; [|done]. cbn [copied]. rewrite (span_at 0 va' p i Ep' (eq_trans Ev Ei)). fold va. by rewrite Hsk.
      * apply Hd1; [done|done|]. intros [Ei'|]%elem_of_cons; [|done]. apply Hne. split; [done|].
        apply (proj1 (page_pos c va' va Hva' Hva)). split; congruence.
Qed.

(** A table of the parent: [s3] has the new, empty table, [s4] what the walk makes
    of it. *)
Lemma copy_below (l : nat) p pt ct i todo f v s own s1 own1 s2 s4 own4 : start (Datatypes.S l) p pt ct s own -> NoDup (i :: todo) ->
  copy (Datatypes.S l) p ct (i :: todo) s own s1 own1 -> low_idx (mkPos c (Z.of_nat (Datatypes.S l)) p) i ->
  cow_skipped (Datatypes.S l) skip ((p * 512 + i) * 2 ^ SHIFT (Datatypes.S l)) = false ->
  mm_mem s2 = mm_mem s1 -> mm_clones s2 = mm_clones s1 -> inv s2 own1 ({[+ f +]} ⊎ ∅) -> cnt s2 f = 0 ->
  let q := mkPos c (Z.of_nat (Datatypes.S l)) p in
  linkable (mm_mem s2) own1 ct q i f v -> let s3 := upd_mem (fun m => link m ct i f v) s2 in let own3 := <[f := child q i]> own1 in
  copy l (p * 512 + i) f [] s3 own3 s4 own4 -> copy (Datatypes.S l) p ct todo s own s4 own4.
Proof.
  intros Hst Hnd [Hi1 Ho1 Hk1 Hc1 Hrd1 Hlf1 Ht1 Hd1] Hix Hsk Em2 Ec2 Hi2 Hcf q HL s3 own3 [Hi4 Ho4 Hk4 Hc4 Hrd4 Hlf4 _ Hd4].
  pose proof Hst as [Hl Hi [Hr Hc] Hp Hlow Hh Hpt Hct He Hs].
  pose proof (link_grows ∅ s2 own1 ct q i f v Hi2 Hcf HL) as Hg. fold s3 own3 in Hg. apply NoDup_cons in Hnd as [Hni Hnd].
  pose proof (low_idx_512 _ _ Hix) as Hi5. pose proof (i_wf _ _ _ Hi2) as Hwf2.
  assert (own1 !! f = None) as Hof by apply HL.
  assert (forall r', is_root own r' -> is_root own1 r' /\ is_root own3 r') as Hroots.
  { intros r' Hr'. assert (is_root own1 r') by (by apply Ho1). split; [done|]. by apply (k_root _ _ _ _ _ (g_keep _ _ _ _ _ Hg)). }
  assert (forall r' va, is_root own r' -> low_va va -> leaf (mm_mem s3) r' va = leaf (mm_mem s1) r' va) as Hl3.
  { intros r' va Hr' Hva. rewrite (g_leaf _ _ _ _ _ Hg r' va) by (done || by apply Hroots). by rewrite Em2. }
  assert (forall va, pfx (Z.of_nat l) va = p * 512 + i <-> pfx (Z.of_nat (Datatypes.S l)) va = p /\ vidx (Z.of_nat (Datatypes.S l)) va = i) as Hpi.
  { intros va. rewrite <- pfx_up. pose proof (vidx_range (Z.of_nat (Datatypes.S l)) va). split; [|intros [-> ->]; done]. lia. }
  assert (forall g p' j, own1 !! g = Some p' -> 0 <= j < 512 -> read_pte (mm_mem s4) g j = if decide (g = ct /\ j = i) then v else read_pte (mm_mem s1) g j) as Hrd.
  { intros g p' j Hg' Hj. assert (g <> f) by congruence. rewrite (Hrd4 g p' j) by (done || by apply (g_own _ _ _ _ _ Hg)).
    cbn [s3 mm_mem upd_mem]. rewrite (link_read _ own1 Hwf2 ct q i f v g j HL), decide_False, Em2 by (done || by eapply (own_frame _ _ Hwf2)). done. }
  change (mm_clones s3) with (mm_clones s2) in Hc4. constructor; [done| | |congruence| | | |].
  - intros g p' Hg'. apply Ho4, (g_own _ _ _ _ _ Hg). by apply Ho1.
  - eapply spaces_trans; [exact Hk1|]. eapply spaces_trans; [|exact Hk4]. apply keeps_none. eapply spaces_trans; [by apply (keeps_mem s1 own1 s2)|apply Hg].
  - intros g p' j Hg' Hne Hj. rewrite (Hrd g p' j) by (done || by apply Ho1). rewrite decide_False by (by intros [-> _]). by eapply Hrd1.
  - intros r' va Hr' Hva Hor. rewrite Hlf4; [rewrite Hl3 by done; by apply Hlf1|by apply Hroots|done|]. destruct Hor as [|Hne]; [by left|]. right. rewrite Hpi. tauto.
  - intros j Hj Hjx. rewrite (Hrd ct q j) by (apply Ho1, Hct || by apply (low_idx_512 _ _ Hjx)). rewrite decide_False; [apply Ht1; [by right|done]|]. intros [_ ->]. done.
  - intros va Hva Ep Hnt. destruct (decide (vidx (Z.of_nat (Datatypes.S l)) va = i)) as [Ei|Hne].
    + rewrite (Hd4 va Hva); [|by apply Hpi|apply not_elem_of_nil]. cbn [copied]. rewrite (span_at _ va p i Ep Ei), Hsk. cbn [negb andb].
      destruct (copied l skip va); [|done]. rewrite Hl3 by done. apply Hlf1; [done|done|by left].
    + rewrite Hlf4; [|by apply Hroots|done|right; rewrite Hpi; tauto]. rewrite Hl3 by done. apply Hd1; [done|done|]. by intros [|]%elem_of_cons.
Qed.

Lemma walk_flags e : table_flags (Z.lor (Z.lor (Z.lor PTE_PRESENT PTE_WRITABLE) PTE_ACCESSED) (Z.land e PTE_USER)).
Proof.
  assert (Z.land e PTE_USER = 0 \/ Z.land e PTE_USER = 4) as [-> | ->]; [|by apply flags_b_table|by apply flags_b_table].
  change PTE_USER with (2 ^ 2). destruct (Z.land e (2 ^ 2) =? 0) eqn:E; [left; lia|right].
  apply Z.bits_inj'. intros j Hj. rewrite Z.land_spec, Z.pow2_bits_eqb by lia. change 4 with (2 ^ 2). rewrite Z.pow2_bits_eqb by lia.
  destruct (2 =? j) eqn:Ej; [|by rewrite andb_false_r]. rewrite andb_true_r. assert (j = 2) as -> by lia. rewrite <- has_bit by lia. unfold has. by rewrite E.
Qed.

Definition copies (l : nat) (p ct : Z) s own (todo : list Z) s' : Prop :=
  NoDup todo /\ (forall i, i ∈ todo -> 0 <= i < 512) /\ exists own', copy l p ct todo s own s' own'.

(** One entry, up to what the walk does with it. *)
Lemma wpp_entry (l : nat) p pt ct i todo (log : CowLog) s own s1 (body : Z -> st CowLog S CowLog) : start l p pt ct s own -> copies l p ct s own (i :: todo) s1 ->
  (forall own1, low_idx (mkPos c (Z.of_nat l) p) i -> cow_skipped l skip ((p * 512 + i) * 2 ^ SHIFT l) = false -> is_entry (read_pte (mm_mem s1) pt i) ->
     NoDup (i :: todo) -> copy l p ct (i :: todo) s own s1 own1 ->
     wpp (body (read_pte (mm_mem s1) pt i)) (fun _ s2 => exists own2, copy l p ct todo s own s2 own2) (fun _ _ => True) s1) ->
  wpp (if cow_skipped l skip (Z.lor (p * 2 ^ (SHIFT l + 9)) (Z.shiftl i (SHIFT l))) then st_ret log else
       let* e := pte pt i in if negb (has e PTE_PRESENT) then st_ret log else body e) (fun _ => copies l p ct s own todo) (fun _ _ => True) s1.
Proof.
  intros Hst (Hnd & Hin & own1 & Hcp) Hbody. pose proof Hst as [Hl Hi [Hr Hc] Hp Hlow Hh Hpt Hct He Hs]. assert (0 <= i < 512) as Hi5 by (apply Hin; by left).
  assert (NoDup todo /\ forall j, j ∈ todo -> 0 <= j < 512) as [Hnd' Hin'].
  { split; [by apply NoDup_cons in Hnd as [_ ?]|]. intros j Hj. apply Hin. by right. }
  rewrite (lor_shift p i (SHIFT l) 9 Hp Hi5) by (unfold SHIFT; lia). change (2 ^ 9) with 512.
  destruct (cow_skipped l skip ((p * 512 + i) * 2 ^ SHIFT l)) eqn:Esk.
  { apply wpp_ret. split; [done|]. split; [done|]. exists own1. eapply copy_pass; [exact Hst|exact Hcp|by left]. }
  assert (low_idx (mkPos c (Z.of_nat l) p) i) as Hix.
  { destruct (decide (0 <= i < if Z.of_nat l =? 3 then 256 else 512)) as [|Hn]; [done|]. by rewrite (Hh i Hi5 Hn) in Esk. }
  apply wpp_bind, wpp_get. pose proof (cp_inv _ _ _ _ _ _ _ _ Hcp) as Hi1. pose proof (cp_own _ _ _ _ _ _ _ _ Hcp pt _ Hpt) as Hpt1.
  assert (read_pte (mm_mem s1) pt i = 0 \/ is_entry (read_pte (mm_mem s1) pt i)) as [E0|Hent].
  { destruct (decide (l = O)) as [->|].
    - destruct (wf_leaf _ _ (i_wf _ _ _ Hi1) pt _ i Hpt1 eq_refl Hi5) as [|[? _]]; [by left|by right].
    - destruct (wf_down _ _ (i_wf _ _ _ Hi1) pt _ i Hpt1) as [|[? _]]; [cbn; lia|exact Hix|by left|by right]. }
  - rewrite E0, has_0. apply wpp_ret. split; [done|]. split; [done|]. exists own1. eapply copy_pass; [exact Hst|exact Hcp|by right].
  - pose proof Hent as (_ & -> & _). cbn [negb]. eapply wpp_mono; [by apply (Hbody own1)|by intros ? s2 ?|done].
Qed.

(** The walk of a table of the parent and the new one of the child. *)
Lemma start_below (l : nat) p pt ct i todo s own s1 own1 f s2 : start (Datatypes.S l) p pt ct s own ->
  copy (Datatypes.S l) p ct (i :: todo) s own s1 own1 -> low_idx (mkPos c (Z.of_nat (Datatypes.S l)) p) i ->
  cow_skipped (Datatypes.S l) skip ((p * 512 + i) * 2 ^ SHIFT (Datatypes.S l)) = false -> let e := read_pte (mm_mem s1) pt i in is_entry e ->
  mm_mem s2 = mm_mem s1 -> inv s2 own1 ({[+ f +]} ⊎ ∅) -> cnt s2 f = 0 ->
  let q := mkPos c (Z.of_nat (Datatypes.S l)) p in
  let v := Z.lor f (Z.lor (Z.lor (Z.lor PTE_PRESENT PTE_WRITABLE) PTE_ACCESSED) (Z.land e PTE_USER)) in
  linkable (mm_mem s2) own1 ct q i f v /\
  start l (p * 512 + i) (pte_frame e) f (upd_mem (fun m => link m ct i f v) s2) (<[f := child q i]> own1) /\
  upd_mem (write_pte ct i (Z.lor (Z.lor (Z.lor (Z.lor f PTE_PRESENT) PTE_WRITABLE) PTE_ACCESSED) (Z.land e PTE_USER))) (upd_mem (zero_frame f) s2) =
  upd_mem (fun m => link m ct i f v) s2.
Proof.
  intros Hst [Hi1 Ho1 Hk1 Hc1 Hrd1 Hlf1 Ht1 Hd1] Hix Hsk e Hent Em Hi2 Hcf q v. pose proof Hst as [Hl Hi [Hr Hc] Hp Hlow Hh Hpt Hct He Hs].
  destruct (held_alone s2 own1 ∅ f Hi2 Hcf) as (Hf & Hof & _). destruct (made_table f _ Hf (walk_flags e)) as [Hv Hx].
  pose proof (low_idx_512 _ _ Hix) as Hi5. pose proof (Ho1 _ _ Hct) as Hct1. pose proof (Ho1 _ _ Hpt) as Hpt1.
  destruct (inv_link s2 own1 ∅ ct q i f v Hi2 Hcf Hct1) as [HL Hi3]; [cbn; lia|done|rewrite Em; apply Ht1; [by left|done]|done|done|].
  pose proof (link_grows ∅ s2 own1 ct q i f v Hi2 Hcf HL) as Hg. pose proof (i_wf _ _ _ Hi2) as Hwf2. split; [done|]. split.
  - constructor.
    + lia.
    + done.
    + split; apply (g_own _ _ _ _ _ Hg), Ho1; done.
    + lia.
    + intros j Hj%low_idx_512. specialize (Hlow i Hix). replace (SHIFT (Datatypes.S l)) with (SHIFT l + 9) in Hlow by (unfold SHIFT; lia).
      rewrite Z.pow_add_r in Hlow by (unfold SHIFT; lia). change (2 ^ 9) with 512 in Hlow.
      assert (0 < 2 ^ SHIFT l) by (apply Z.pow_pos_nonneg; unfold SHIFT; lia). nia.
    + intros j Hj Hn. exfalso. apply Hn. unfold low_idx. cbn [p_level]. by replace (Z.of_nat l =? 3) with false by lia.
    + apply (g_own _ _ _ _ _ Hg). destruct (wf_down _ own1 (i_wf _ _ _ Hi1) pt _ i Hpt1) as [E0|(_ & g & Eg & Hog)]; [cbn; lia|done|by apply entry_nz in E0|].
      destruct (next_table_entry _ _ Eg) as (_ & _ & ->). etrans; [exact Hog|]. unfold child. cbn [p_root p_level p_prefix]. do 2 f_equal. lia.
    + rewrite lookup_insert_eq. unfold child, q. cbn [p_root p_level p_prefix]. do 2 f_equal. lia.
    + intros j Hj%low_idx_512. cbn [mm_mem upd_mem]. rewrite (link_read _ own1 Hwf2 ct q i f v f j HL Hf Hj). by rewrite decide_True.
    + intros va Hva Ep Hcp. assert (pfx (Z.of_nat (Datatypes.S l)) va = p /\ vidx (Z.of_nat (Datatypes.S l)) va = i) as [Ep' Ei].
      { pose proof (pfx_up l va). pose proof (vidx_range (Z.of_nat (Datatypes.S l)) va). lia. }
      rewrite (g_leaf _ _ _ _ _ Hg r va) by (done || by apply Ho1). rewrite Em, (Hlf1 r va Hr Hva (or_introl Hrc)). apply Hs; [done|done|].
      cbn [copied]. rewrite (span_at _ va p i Ep' Ei), Hsk. done.
  - unfold upd_mem. cbn [mm_mem mm_frames mm_clones mm_counts]. f_equal. unfold link. unfold v. rewrite !Z.lor_assoc.
    apply zero_write; [by eapply (own_frame _ _ Hwf2)|done| |done]. congruence.
Qed.

Lemma wpp_cow_walk (l : nat) : forall p pt ct s own log, start l p pt ct s own ->
  wpp (cow_walk l pt ct (p * 2 ^ (SHIFT l + 9)) skip log) (fun _ s' => exists own', copy l p ct [] s own s' own') (fun _ _ => True) s.
Proof.
  induction l as [|l IH]; intros p pt ct s own log Hst; cbn [cow_walk].
  - eapply wpp_mono; [apply (wpp_fold _ (fun _ _ => True) (fun todo _ => copies 0 p ct s own todo))|by intros ? s' (_ & _ & ?)|done].
    + split; [apply NoDup_seqZ|]. split; [intros i ?%elem_of_seqZ; lia|]. exists own. by eapply copy_start.
    + intros i todo log' s1 Hcp. apply (wpp_entry 0 p pt ct i todo log' s own s1); [done|done|]. intros own1 Hix Hsk Hent Hnd Hcp1.
      apply wpp_assoc, (copy_page p pt ct i todo s own s1 own1); [done|done|done|by apply (low_idx_512 _ _ Hix)|done|by apply entry_nz|].
      intros s2 own2 Hcp2. apply wpp_ret. by exists own2.
  - eapply wpp_mono; [apply (wpp_fold _ (fun _ _ => True) (fun todo _ => copies (Datatypes.S l) p ct s own todo))|by intros ? s' (_ & _ & ?)|done].
    + split; [apply NoDup_seqZ|]. split; [intros i ?%elem_of_seqZ; lia|]. exists own. by eapply copy_start.
    + intros i todo log' s1 Hcp. eapply (wpp_entry (Datatypes.S l) p pt ct i todo log' s own s1); [done|done|]. intros own1 Hix Hsk Hent Hnd Hcp1. cbv beta.
      pose proof (start_below l p pt ct i todo s own s1 own1) as Hbelow.
      pose proof Hent as (_ & _ & ->). apply wpp_bind, (wpp_alloc s1 own1 ∅); [apply Hcp1|done|]. intros f s2 Em Ec Hi2 Hcf.
      unfold store. apply wpp_bind, wpp_upd, wpp_bind, wpp_upd.
      destruct (Hbelow f s2 Hst Hcp1 Hix Hsk Hent Em Hi2 Hcf) as (HL & Hst3 & Eq). rewrite Eq.
      rewrite (lor_shift p i (SHIFT (Datatypes.S l)) 9) by (unfold SHIFT; lia || apply Hst || by apply (low_idx_512 _ _ Hix)).
      change (2 ^ 9) with 512. replace (SHIFT (Datatypes.S l)) with (SHIFT l + 9) by (unfold SHIFT; lia).
      eapply wpp_mono; [apply (IH _ _ _ _ _ _ Hst3)| |done]. intros ? s4 (own4 & Hcp4). exists own4. by eapply copy_below.
Qed.

Lemma wpp_clone s own : start 3 0 r c s own ->
  wpp (clone_user_space_cow r c skip) (fun _ s' => exists own', copy 3 0 c [] s own s' own') (fun _ _ => True) s.
Proof.
  intros Hst. unfold clone_user_space_cow. apply wpp_catch. eapply wpp_mono; [apply (wpp_cow_walk 3 0 r c s own (mkCow [] []) Hst)|done|].
  intros log s' _. unfold wpp, st_bind. destruct (st_for (List.rev (cow_tables log)) free_frame s') as [s1 [[]|[]|]]; [|done|done].
  by destruct (st_for (cow_shared log) unshare s1) as [s2 [[]|[]|]].
Qed.

(** What the child of a fork holds. *)
Lemma copy_peek s own s' own' va : start 3 0 r c s own -> copy 3 0 c [] s own s' own' -> low_va va ->
  peek (mm_mem s') c va = if copied 3 skip va then peek (mm_mem s) r va else None.
Proof.
  intros Hst Hcp Hva. destruct (sr_roots _ _ _ _ _ _ Hst) as [Hr Hc]. pose proof (cp_done _ _ _ _ _ _ _ _ Hcp va Hva (proj1 (low_top va Hva)) (not_elem_of_nil _)) as El.
  rewrite <- (k_peek _ _ _ _ _ (cp_keep _ _ _ _ _ _ _ _ Hcp) r va Hr Hva) by (intros E; by apply Hrc).
  unfold peek. rewrite El, (cp_leaf _ _ _ _ _ _ _ _ Hcp r va Hr Hva (or_introl Hrc)). by destruct (copied 3 skip va).
Qed.
End Clone.

(** ** Teardown *)

#[local] Opaque zero_frame copy_frame table_is_empty.

Section Exit.
Context `{Profile} {A : Type} `{FrameLaws A}.
Notation S := (Mm A).
Implicit Types (s : S) (own : gmap Z Pos).
Context (r : Z) (D : gmultiset Z).

(** The table [t] is taken apart, but for the entries of [todo]: [frames] are what
    is to be given back. *)
Record torn (t : Z) (q : Pos) (todo frames : list Z) s own s' own' : Prop := {
  to_inv : inv s' own' (bag frames ⊎ D);
  to_keep : keeps (fun r' _ => r' = r) s own s' own';
  to_clones : mm_clones s' = mm_clones s;
  to_own g p : own !! g = Some p -> p_level q <= p_level p -> own' !! g = Some p;
  to_read g p j : own !! g = Some p -> p_level q <= p_level p -> g <> t -> 0 <= j < 512 -> read_pte (mm_mem s') g j = read_pte (mm_mem s) g j;
  to_done i : low_idx q i -> i ∉ todo -> read_pte (mm_mem s') t i = 0
}.

Lemma torn_start t q frames s own : inv s own (bag frames ⊎ D) -> torn t q (seqZ 0 (if p_level q =? 3 then 256 else 512)) frames s own s own.
Proof.
  intros Hi. constructor; [done|apply spaces_refl|done|done|done|]. intros i Hix Hn. exfalso. apply Hn, elem_of_seqZ. unfold low_idx in Hix. lia.
Qed.

Lemma torn_skip t q i todo frames s own s1 own1 : torn t q (i :: todo) frames s own s1 own1 -> read_pte (mm_mem s1) t i = 0 -> torn t q todo frames s own s1 own1.
Proof.
  intros [Hi Hk Hc Ho Hr Hd] Hz. constructor; try done. intros j Hj Hn. destruct (decide (j = i)) as [->|]; [done|]. apply Hd; [done|]. by intros [|]%elem_of_cons.
Qed.

(** A page goes. *)
Lemma torn_page t q i todo frames s own s1 own1 : own !! t = Some q -> p_level q = 0 -> p_root q = r -> 0 <= i < 512 -> torn t q (i :: todo) frames s own s1 own1 ->
  read_pte (mm_mem s1) t i <> 0 -> torn t q todo (frames ++ [pte_frame (read_pte (mm_mem s1) t i)]) s own (upd_mem (write_pte t i 0) s1) own1.
Proof.
  intros Ht Hl Hrt Hi5 [Hi Hk Hc Ho Hr Hd] Hn. pose proof (i_wf _ _ _ Hi) as Hwf. assert (own1 !! t = Some q) as Ht1 by (apply Ho; [done|lia]).
  pose proof (own_frame _ _ Hwf t q Ht1) as Htf. constructor; [| |done|done| |].
  - rewrite bag_snoc. apply (inv_set_leaf s1 own1 (bag frames ⊎ D) _ t i q 0 Hi Ht1 Hl Hi5); [by left| |by rewrite has_0].
    intros x. rewrite ref1_0, mult_add. destruct (decide (x = _)) as [->|]; [rewrite ref1_eq by done; lia|rewrite ref1_ne by congruence; lia].
  - eapply spaces_trans; [exact Hk|]. constructor; [done|]. intros r' va Hr' Hva Hne. cbn [mm_mem upd_mem].
    apply (peek_out _ _ own1 (eq t)); [done|done|done| |intros x <-; by apply (own_unread _ _ t q Hwf)|intros a Ha; apply table_write_out; [done|by apply Ha]].
    rewrite (set_leaf_leaf _ own1 Hwf t q i 0 r' va Ht1 Hl Hi5) by (done || by left). rewrite decide_False; [done|]. intros [-> _]. done.
  - intros g p j Hg Hlv Hne Hj. cbn [mm_mem upd_mem]. rewrite read_write, decide_False by (done || (by intros [-> _]) || by eapply (own_frame _ _ Hwf), Ho). by eapply Hr.
  - intros j Hj Hnt. cbn [mm_mem upd_mem]. rewrite read_write by (done || by apply (low_idx_512 _ _ Hj)). destruct (decide _) as [|Hji]; [done|].
    apply Hd; [done|]. intros [->|]%elem_of_cons; [by apply Hji|done].
Qed.

(** A table goes, once it is empty. *)
Lemma torn_table t q i f todo frames frames2 s own s1 own1 s2 own2 : own !! t = Some q -> 0 < p_level q -> p_root q = r -> low_idx q i ->
  torn t q (i :: todo) frames s own s1 own1 -> next_table (read_pte (mm_mem s1) t i) = Some f -> own1 !! f = Some (child q i) ->
  torn f (child q i) [] frames2 s1 own1 s2 own2 -> torn t q todo (frames2 ++ [f]) s own (upd_mem (write_pte t i 0) s2) (delete f own2).
Proof.
  intros Ht Hl Hrt Hix [Hi Hk Hc Ho Hr Hd] Hx Hf [Hi2 Hk2 Hc2 Ho2 Hr2 Hd2]. pose proof (low_idx_512 _ _ Hix) as Hi5.
  assert (p_level (child q i) < p_level q) as Hlt by (cbn; lia). assert (own1 !! t = Some q) as Ht1 by (apply Ho; [done|lia]).
  assert (own2 !! t = Some q) as Ht2 by (apply Ho2; [done|lia]). pose proof (i_wf _ _ _ Hi) as Hwf1. pose proof (i_wf _ _ _ Hi2) as Hwf2.
  pose proof (own_frame _ _ Hwf2 t q Ht2) as Htf. assert (p_level q <= 3) as H3 by (apply (wf_pos _ _ Hwf2 t q Ht2)).
  assert (t <> f) as Htf' by (intros <-; pose proof (pos_fun own1 t _ _ Ht1 Hf) as E; rewrite <- E in Hlt; lia).
  assert (own2 !! f = Some (child q i)) as Hf2 by (apply Ho2; [done|lia]).
  assert (unlinkable (mm_mem s2) own2 t q i f) as HU.
  { constructor; [done|done|done|by rewrite (Hr2 t q i Ht1) by (done || lia)|]. intros j Hj. apply Hd2; [|apply not_elem_of_nil].
    unfold low_idx. by replace (p_level (child q i) =? 3) with false by lia. }
  constructor; [| |cbn in *; congruence| | |].
  - rewrite bag_snoc. by apply (inv_unlink s2 own2 (bag frames2 ⊎ D) t q i f).
  - eapply spaces_trans; [exact Hk|]. eapply spaces_trans; [exact Hk2|]. constructor; [intros r'; apply (unlink_root _ own2 Hwf2 t q i f r' HU)|].
    intros r' va Hr' Hva _. cbn [mm_mem upd_mem]. apply (peek_out _ _ own2 (eq t)); [done|done|done|by apply (unlink_leaf _ own2 Hwf2 t q i f)|
      intros x <-; by apply (own_unread _ _ t q Hwf2)|intros a Ha; apply table_write_out; [done|by apply Ha]].
  - intros g p Hg Hlv. assert (own2 !! g = Some p) as Hg2 by (apply Ho2; [by apply Ho|lia]). rewrite lookup_delete_ne; [done|].
    intros ->. pose proof (pos_fun own2 g _ _ Hf2 Hg2) as E. rewrite E in Hlt. lia.
  - intros g p j Hg Hlv Hne Hj. assert (own1 !! g = Some p) as Hg1 by (by apply Ho). cbn [mm_mem upd_mem].
    rewrite read_write, decide_False by (done || (by intros [-> _]) || by eapply (own_frame _ _ Hwf1)).
    rewrite (Hr2 g p j Hg1); [by eapply Hr|lia| |done]. intros ->. pose proof (pos_fun own1 f _ _ Hg1 Hf) as E. rewrite E in Hlv. lia.
  - intros j Hj Hnt. cbn [mm_mem upd_mem]. rewrite read_write by (done || by apply (low_idx_512 _ _ Hj)). destruct (decide _) as [|Hji]; [done|].
    rewrite (Hr2 t q j Ht1) by (done || lia || by apply (low_idx_512 _ _ Hj)). apply Hd; [done|]. intros [->|]%elem_of_cons; [by apply Hji|done].
Qed.

(** ** The levels *)

Definition tears {E} (l : Z) (m : Z -> list Z -> st E S (list Z)) : Prop :=
  forall t q frames s own, inv s own (bag frames ⊎ D) -> own !! t = Some q -> p_level q = l -> p_root q = r ->
    wpp (m t frames) (fun frames' s' => exists own', torn t q [] frames' s own s' own') (fun _ _ => False) s.

Lemma destroy_tears {E} l huge (below : Z -> list Z -> st E S (list Z)) : 0 <= l <= 3 -> (0 < l -> tears (l - 1) below) -> (l = 0 -> huge = false /\ below = fun _ => st_ret) ->
  tears l (destroy_level (seqZ 0 (if l =? 3 then 256 else 512)) huge below).
Proof.
  intros Hl Hb Hb0 t q frames s own Hi Ht Hlq Hrt. unfold destroy_level.
  eapply wpp_mono; [apply (wpp_fold _ (fun _ _ => False) (fun todo frames s' => (forall i, i ∈ todo -> low_idx q i) /\ exists own', torn t q todo frames s own s' own'))|by intros ? s' (_ & ?)|done].
  - split; [intros i ?%elem_of_seqZ; unfold low_idx; rewrite Hlq; lia|]. exists own. rewrite <- Hlq. by apply torn_start.
  - intros i todo fr s1 (Hin & own1 & HT). assert (low_idx q i) as Hix by (apply Hin; by left).
    assert (forall j, j ∈ todo -> low_idx q j) as Hin' by (intros j Hj; apply Hin; by right). apply wpp_bind, wpp_get.
    pose proof (i_wf _ _ _ (to_inv _ _ _ _ _ _ _ _ HT)) as Hwf. assert (own1 !! t = Some q) as Ht1 by (apply (to_own _ _ _ _ _ _ _ _ HT); [done|lia]).
    destruct (decide (l = 0)) as [->|Hl0].
    + destruct (Hb0 eq_refl) as [-> ->]. destruct (wf_leaf _ own1 Hwf t q i Ht1 Hlq (low_idx_512 _ _ Hix)) as [E0|[He _]].
      * rewrite E0, has_0. apply wpp_ret. split; [done|]. exists own1. by eapply torn_skip.
      * pose proof (entry_nz _ He). pose proof He as (_ & -> & _). cbn [negb andb]. apply wpp_bind, wpp_ret. unfold store. apply wpp_bind, wpp_upd, wpp_ret.
        split; [done|]. exists own1. apply torn_page; try done. by apply (low_idx_512 _ _ Hix).
    + destruct (wf_down _ own1 Hwf t q i Ht1 ltac:(lia) Hix) as [E0|(He & f & Hx & Hf)].
      * rewrite E0, has_0. apply wpp_ret. split; [done|]. exists own1. by eapply torn_skip.
      * destruct (next_table_entry _ _ Hx) as (-> & -> & <-). cbn [negb]. rewrite andb_false_r. apply wpp_bind.
        eapply wpp_mono; [apply (Hb ltac:(lia) f (child q i) fr s1 own1); [apply HT|done|cbn; lia|done]| |done].
        intros fr2 s2 (own2 & HT2). unfold store. apply wpp_bind, wpp_upd, wpp_ret. split; [done|]. exists (delete f own2).
        by eapply torn_table; [..|exact HT2]; try done; lia.
Qed.

Lemma low_tears {E} : tears (E := E) 3 (fun t frames => destroy_level (seqZ 0 256) false destroy_pdpt t frames).
Proof.
  assert (tears (E := E) 0 destroy_pt) as H0' by (apply (destroy_tears 0 false); [lia|intros ?; lia|done]).
  assert (tears (E := E) 1 destroy_pd) as H1' by (apply (destroy_tears 1 true); [lia|done|intros ?; lia]).
  assert (tears (E := E) 2 destroy_pdpt) as H2' by (apply (destroy_tears 2 true); [lia|done|intros ?; lia]).
  apply (destroy_tears 3 false); [lia|done|intros ?; lia].
Qed.
End Exit.

(** ** The list of clones *)

Lemma position_split x l i : position x l = Some i -> exists a b, l = a ++ x :: b /\ length a = i.
Proof.
  revert i. induction l as [|y l IH]; intros i; cbn [position]; [done|]. destruct (y =? x) eqn:E.
  - assert (y = x) as -> by lia. intros [= <-]. by exists [], l.
  - destruct (position x l) as [k|]; [|done]. intros [= <-]. destruct (IH k eq_refl) as (a & b & -> & <-). by exists (y :: a), b.
Qed.

Lemma position_none x l : position x l = None -> x ∉ l.
Proof.
  induction l as [|y l IH]; cbn [position]; [intros _; apply not_elem_of_nil|]. destruct (y =? x) eqn:E; [done|].
  destruct (position x l); [done|]. intros _ [->|Hx]%elem_of_cons; [lia|]. by apply IH.
Qed.

Lemma swap_remove_app (a b : list Z) x : swap_remove (length a) (a ++ x :: b) ≡ₚ a ++ b.
Proof.
  unfold swap_remove. destruct (decide (b = [])) as [->|Hb].
  - rewrite rev_app_distr. cbn [rev app]. rewrite length_app. cbn [length]. replace (length a =? length a + 1 - 1)%nat with true by (symmetry; apply Nat.eqb_eq; lia).
    by rewrite take_app_length, app_nil_r.
  - destruct (exists_last Hb) as (b' & z & ->). rewrite rev_app_distr. cbn [rev]. rewrite rev_app_distr. cbn [rev app].
    rewrite length_app. cbn [length]. rewrite length_app. cbn [length].
    replace (length a =? length a + Datatypes.S (length b' + 1) - 1)%nat with false by (symmetry; apply Nat.eqb_neq; lia).
    rewrite take_app_length. replace (drop (Datatypes.S (length a)) (a ++ x :: b' ++ [z])) with (b' ++ [z]).
    + replace (length a + Datatypes.S (length b' + 1) - length a - 2)%nat with (length b') by lia. rewrite take_app_length.
      f_equiv. apply Permutation_cons_append.
    + change (x :: b' ++ [z]) with ([x] ++ (b' ++ [z])). rewrite app_assoc, drop_app_length'; [done|]. rewrite length_app. cbn. lia.
Qed.

Section Destroy.
Context `{Profile} {A : Type} `{FrameLaws A}.
Notation S := (Mm A).
Implicit Types (s : S) (own : gmap Z Pos) (D : gmultiset Z).

Lemma wpp_unregister {E} s own D x (Q : bool -> S -> Prop) (R : E -> S -> Prop) : inv s own D -> ~ is_root own x -> (2 <= length (mm_clones s))%nat -> x ∈ mm_clones s ->
  (forall s', mm_mem s' = mm_mem s -> mm_frames s' = mm_frames s -> mm_counts s' = mm_counts s -> mm_clones s ≡ₚ x :: mm_clones s' -> inv s' own D -> Q false s') ->
  wpp (unregister_clone_root x) Q R s.
Proof.
  intros Hi Hx Hlen Hin HQ. unfold wpp, unregister_clone_root. destruct (position x (mm_clones s)) as [i|] eqn:Ep; [|by apply position_none in Ep].
  replace (length (mm_clones s) =? 1)%nat with false by (symmetry; apply Nat.eqb_neq; lia).
  destruct (position_split _ _ _ Ep) as (a & b & E0 & <-).
  assert (mm_clones s ≡ₚ x :: swap_remove (length a) (mm_clones s)) as Hp by (rewrite E0 at 2; rewrite swap_remove_app, E0; by rewrite Permutation_middle).
  apply HQ; try done. destruct Hi as [Hwf Hfr Hown Hleaf Hheld Hav Hcnt Hex Hcl Hsm]. constructor; try done. intros y Hy. cbn [mm_clones set_clones].
  specialize (Hcl y Hy). rewrite Hp in Hcl. apply elem_of_cons in Hcl as [->|]; done.
Qed.

Lemma wpp_destroy {E} s own D k r (Q : unit -> S -> Prop) : inv s own D -> is_root own r -> (2 <= length (mm_clones s))%nat ->
  (forall s' own', inv s' own' D ->
     (forall r', is_root own r' -> r' <> r -> is_root own' r' /\ forall va, low_va va -> peek (mm_mem s') r' va = peek (mm_mem s) r' va) ->
     mm_clones s ≡ₚ r :: mm_clones s' -> Q tt s') ->
  wpp (E := E) (destroy_root k r) Q (fun _ _ => False) s.
Proof.
  intros Hi Hr Hlen HQ. unfold destroy_root, destroy_low. apply wpp_bind.
  assert (inv s own (bag [] ⊎ D)) as Hi0 by (unfold bag; cbn [list_to_set_disj]; by rewrite (left_id_L ∅ (⊎))).
  eapply wpp_mono; [apply (low_tears (E := E) r D r (mkPos r 3 0) [] s own Hi0 Hr eq_refl eq_refl)| |done].
  intros frames s1 (own1 & [Hi1 Hk1 Hc1 Ho1 _ Hd1]). assert (is_root own1 r) as Hr1 by (by apply Ho1).
  apply wpp_bind, (wpp_decrefs own1 D frames _ s1 _ Hi1). intros s2 Em2 Ec2 Hi2.
  assert (cnt s2 r = 0) as Hcnt by (by apply (i_own _ _ _ Hi2 r _ Hr1)).
  assert (inv s2 (delete r own1) ({[+ r +]} ⊎ D)) as Hi3.
  { apply inv_drop_root; [done|done|]. intros i Hix. rewrite Em2. apply Hd1; [done|apply not_elem_of_nil]. }
  apply wpp_bind, (wpp_unregister s2 _ _ r _ _ Hi3); [unfold is_root; by rewrite lookup_delete_eq|by rewrite Ec2, Hc1|by apply (i_clones _ _ _ Hi2)|].
  intros s3 Em3 Ef3 Ecn3 Hcl3 Hi4. apply wpp_bind. cbn [st_when]. apply wpp_ret.
  destruct (inv_free s3 _ D r Hi4) as (a & Ea & Hi5); [unfold cnt, count_at in *; by rewrite Ecn3|].
  unfold wpp, free_frame. rewrite Ea. apply (HQ _ _ Hi5); [|by rewrite <- Hc1, <- Ec2]. intros r' Hr' Hne. split.
  - unfold is_root. rewrite lookup_delete_ne by congruence. by apply Ho1.
  - intros va Hva. cbn [mm_mem set_frames]. rewrite Em3, Em2. by apply (k_peek _ _ _ _ _ Hk1).
Qed.
End Destroy.
