(* ===== verification/VmmSafe.v ===== *)
(** * Address spaces are isolated

    The memory of the address spaces as a function of root and address, what every
    operation does to it, and that the page tables with shared frames and copy on
    write implement this. *)

From stdpp Require Import gmultiset.
From S2P Require Import Prelude Bits State Vmm VmmFacts VmmTree VmmInv VmmKeep VmmMap UserMem VmmRange VmmClone.
Local Open Scope Z_scope.

#[local] Opaque zero_frame copy_frame table_is_empty.

(** The aligned word that [va] reads in the address space of [r]. *)
Definition load (m : gmap Z Z) (r va : Z) : option Z :=
  match translate_user m r va with
  | Some (pa, _, _) => Some (rd m (Z.land pa (lnot64 7)))
  | None => None
  end.

Lemma phys_word f va : is_frame f -> Z.land (Z.lor f (Z.land va (Z.ones 12))) (lnot64 7) = f + 8 * ((va / 8) mod 512).
Proof.
  intros Hf. assert (Z.land f (8 * ((va / 8) mod 512)) = 0) as Hz.
  { apply Z.bits_inj'. intros i Hi. rewrite Z.land_spec, Z.bits_0. destruct (Z.testbit f i) eqn:E; [|done]. pose proof (is_frame_bits f i Hf Hi E).
    apply (testbit_out 12); [|lia]. pose proof (Z.mod_pos_bound (va / 8) 512 ltac:(lia)). change (2 ^ 12) with (8 * 512). lia. }
  rewrite Z.add_nocarry_lxor, Z.lxor_lor by done. apply Z.bits_inj'. intros i Hi. change 7 with (Z.ones 3). change 8 with (2 ^ 3). change 512 with (2 ^ 9).
  rewrite Z.land_spec, !Z.lor_spec, Z.land_spec, lnot64_bits, !testbit_ones by lia. rewrite (Z.mul_comm (2 ^ 3)), <- Z.shiftl_mul_pow2 by lia.
  rewrite <- Z.land_ones, <- Z.shiftr_div_pow2 by lia. rewrite Z.shiftl_spec by done. destruct (Z.testbit f i) eqn:Ef.
  - pose proof (is_frame_bits f i Hf Hi Ef). replace (i <? 3) with false by lia. by replace (i <? 64) with true by lia.
  - cbn [orb]. destruct (i <? 3) eqn:E3.
    + replace (i <? 64) with true by lia. rewrite andb_false_r. by rewrite Z.testbit_neg_r by lia.
    + rewrite Z.land_spec, Z.shiftr_spec, testbit_ones by lia. replace (i - 3 + 3) with i by lia. replace (i - 3 <? 9) with (i <? 12) by lia.
      destruct (i <? 12) eqn:E12; [|by rewrite andb_false_r]. replace (i <? 64) with true by lia. by rewrite !andb_true_r.
Qed.

Lemma load_peek m own r va : wf m own -> is_root own r -> low_va va -> load m r va = peek m r va.
Proof.
  intros Hwf Hr Hva. unfold load, peek. pose proof (translate_user_low m own r va Hwf Hr Hva) as Ht.
  destruct (translate_user m r va) as [[[pa u] w]|]; [|by rewrite Ht]. destruct Ht as (Hn & -> & _). replace (leaf m r va =? 0) with false by lia.
  unfold word. rewrite phys_word; [done|]. by apply (leaf_frame m own r va).
Qed.

Section Safe.
Context `{Profile} {A : Type} `{FrameLaws A}.
Notation S := (Mm A).
Implicit Types (s : S) (own : gmap Z Pos) (D : gmultiset Z).

(** ** A store by user code *)

Lemma leaf_place s own r va : wf (mm_mem s) own -> is_root own r -> low_va va -> leaf (mm_mem s) r va <> 0 ->
  exists t, own !! t = Some (mkPos r 0 (pfx 0 va)) /\ read_pte (mm_mem s) t (vidx 0 va) = leaf (mm_mem s) r va /\
    (t, vidx 0 va) ∈ refset (mm_mem s) own (pte_frame (leaf (mm_mem s) r va)).
Proof.
  intros Hwf Hr Hva Hn. destruct (leaf_spec _ own r va Hwf Hr Hva) as [(t & Ht & E)|[_ E]]; [|done]. exists t. split; [done|]. split; [done|].
  rewrite E in *. apply elem_of_refset. split; [|done]. eexists. split; [exact Ht|]. split; [done|apply vidx_range].
Qed.

#[global] Instance at_page_dec r va r' va' : Decision (at_page r va r' va').
Proof. unfold at_page. apply _. Defined.

(** A frame with one reference has one page. *)
Lemma leaf_alone s own D r va r' va' : inv s own D -> is_root own r -> is_root own r' -> low_va va -> low_va va' -> leaf (mm_mem s) r va <> 0 ->
  (total s own D (pte_frame (leaf (mm_mem s) r va)) <= 1)%nat -> leaf (mm_mem s) r' va' <> 0 -> pte_frame (leaf (mm_mem s) r' va') = pte_frame (leaf (mm_mem s) r va) ->
  at_page r va r' va'.
Proof.
  intros Hi Hr Hr' Hva Hva' Hn Hone Hn' Ef. pose proof (i_wf _ _ _ Hi) as Hwf.
  destruct (leaf_place s own r va Hwf Hr Hva Hn) as (t & Ht & El & Hin). destruct (leaf_place s own r' va' Hwf Hr' Hva' Hn') as (t' & Ht' & El' & Hin').
  unfold total in Hone. rewrite Ef in Hin'.
  assert (size (refset (mm_mem s) own (pte_frame (leaf (mm_mem s) r va))) = 1%nat) as H1'.
  { destruct (size (refset _ _ _)) eqn:Es; [|lia]. apply size_empty_iff in Es. by apply Es in Hin. }
  pose proof (size_singleton_inv _ _ _ H1' Hin Hin') as [= Et Ev]. subst t'. pose proof (pos_fun own t _ _ Ht' Ht) as [= -> Ep]. split; [done|].
  apply (proj1 (page_pos r va' va Hva' Hva)). split; [by rewrite Ep|done].
Qed.

(** A writable page is the only one with its frame, and so is one whose frame is
    not counted. *)
Lemma writable_one s own D r va : inv s own D -> is_root own r -> low_va va -> has (leaf (mm_mem s) r va) PTE_WRITABLE = true ->
  leaf (mm_mem s) r va <> 0 /\ (total s own D (pte_frame (leaf (mm_mem s) r va)) <= 1)%nat.
Proof.
  intros Hi Hr Hva Hw. assert (leaf (mm_mem s) r va <> 0) as Hn by (intros E; by rewrite E, has_0 in Hw). split; [done|].
  destruct (leaf_place s own r va (i_wf _ _ _ Hi) Hr Hva Hn) as (t & Ht & El & _).
  pose proof (i_excl _ _ _ Hi t (vidx 0 va) (leaf_slot own t r va Ht) ltac:(by rewrite El)) as Hone. rewrite El in Hone. lia.
Qed.

Lemma uncounted_one s own D r va : inv s own D -> is_root own r -> low_va va -> leaf (mm_mem s) r va <> 0 -> cnt s (pte_frame (leaf (mm_mem s) r va)) = 0 ->
  (total s own D (pte_frame (leaf (mm_mem s) r va)) <= 1)%nat.
Proof.
  intros Hi Hr Hva Hn Hc. destruct (leaf_place s own r va (i_wf _ _ _ Hi) Hr Hva Hn) as (t & Ht & El & _).
  destruct (i_leaf _ _ _ Hi t (vidx 0 va) (leaf_slot own t r va Ht) ltac:(by rewrite El)) as [Hm _]. rewrite El in Hm.
  by apply (i_cnt _ _ _ Hi _ Hm).
Qed.

(** A write to the frame of one page. *)
Lemma leaf_write s own D r va g : inv s own D -> is_root own r -> low_va va -> leaf (mm_mem s) r va <> 0 ->
  (total s own D (pte_frame (leaf (mm_mem s) r va)) <= 1)%nat -> (forall a, ~ in_frame (pte_frame (leaf (mm_mem s) r va)) a -> rd (g (mm_mem s)) a = rd (mm_mem s) a) ->
  let s' := upd_mem g s in
  inv s' own D /\ (forall r' va', is_root own r' -> low_va va' -> leaf (mm_mem s') r' va' = leaf (mm_mem s) r' va') /\ keeps (at_page r va) s own s' own.
Proof.
  intros Hi Hr Hva Hn Hone Hg s'. pose proof (i_wf _ _ _ Hi) as Hwf. destruct (leaf_frame _ own r va Hwf Hr Hva Hn) as [Hf _].
  destruct (leaf_entry _ own Hwf r va Hr Hva) as [|[_ Ho]]; [done|].
  assert (same_tbls own (mm_mem s) (g (mm_mem s))) as Hs by (eapply same_tbls_out; [by apply (own_frame _ _ Hwf)|exact Hf|exact Ho|exact Hg]).
  split; [by apply inv_mem|]. split; [intros r' va' Hr' Hva'; by apply (leaf_ext _ _ own)|]. constructor; [done|].
  intros r' va' Hr' Hva' Hne. cbn [s' mm_mem upd_mem]. unfold peek. rewrite (leaf_ext _ _ own r' va' Hwf Hs Hr' Hva'). destruct (leaf (mm_mem s) r' va' =? 0) eqn:E0; [done|].
  f_equal. unfold word. apply Hg. intros Hin. apply Hne. assert (leaf (mm_mem s) r' va' <> 0) as Hn' by lia.
  destruct (leaf_frame _ own r' va' Hwf Hr' Hva' Hn') as [Hf' _]. apply (leaf_alone s own D r va r' va'); try done. exact (in_frame_inj _ _ _ Hf' Hf (word_in _ va') Hin).
Qed.

Lemma div_page va va' : va' / 8 = va / 8 -> va' / 4096 = va / 4096.
Proof. intros E8. change 4096 with (8 * 512). rewrite <- !Z.div_div by lia. by rewrite E8. Qed.

Lemma store_private s own D r va pa v : inv s own D -> is_root own r -> low_va va -> translate_user (mm_mem s) r va = Some (pa, true, true) ->
  let s' := upd_mem (insert (Z.land pa (lnot64 7)) v) s in
  inv s' own D /\ forall r' va', is_root own r' -> low_va va' ->
    peek (mm_mem s') r' va' = if decide (r' = r /\ va' / 8 = va / 8) then Some v else peek (mm_mem s) r' va'.
Proof.
  intros Hi Hr Hva Ht s'. pose proof (i_wf _ _ _ Hi) as Hwf. pose proof (translate_user_low _ own r va Hwf Hr Hva) as Htr. rewrite Ht in Htr.
  destruct Htr as (_ & -> & Hw). destruct (writable_one s own D r va Hi Hr Hva (eq_sym Hw)) as [Hn Hone].
  destruct (leaf_frame _ own r va Hwf Hr Hva Hn) as [Hf _]. unfold s'. rewrite (phys_word _ va Hf). set (e := leaf (mm_mem s) r va) in *.
  destruct (leaf_write s own D r va (insert (pte_frame e + 8 * ((va / 8) mod 512)) v) Hi Hr Hva Hn Hone) as (Hi' & Hl & Hk).
  { intros a Ha. rewrite rd_insert, decide_False; [done|]. intros ->. by apply Ha, word_in. }
  split; [done|]. intros r' va' Hr' Hva'. destruct (decide (at_page r va r' va')) as [[-> Hp]|Hne].
  - unfold peek. rewrite (Hl r va') by done. rewrite (leaf_page _ r va' va Hp). fold e. replace (e =? 0) with false by lia. cbn [mm_mem upd_mem]. unfold word. rewrite rd_insert.
    destruct (decide (r = r /\ va' / 8 = va / 8)) as [[_ E8]|Hne]; [by rewrite decide_True by (by rewrite E8)|]. rewrite decide_False; [done|]. intros E. apply Hne. split; [done|].
    rewrite (Z.div_mod (va' / 8) 512), (Z.div_mod (va / 8) 512), !Z.div_div by lia. change (8 * 512) with 4096. rewrite Hp. f_equal. lia.
  - rewrite (k_peek _ _ _ _ _ Hk) by done. rewrite decide_False; [done|]. intros [-> E8%div_page]. by apply Hne.
Qed.

(** ** Operations *)

(** What happens to the address space of a root: stores of user code, calls that
    commit, release and protect pages, faults on shared pages, forks, the creation
    of an empty address space and its teardown. *)
Inductive Op :=
| Store (va v : Z)
| Commit (va n fl : Z) (ok : bool)
| Fill (va fl : Z) (ok : bool)
| Release (va n : Z)
| Protect (va n : Z)
| Key (va n key : Z)
| Cow (va : Z)
| Fork (regs : list Region) (lo hi c : Z)
| New (c : Z)
| Exit (kernel_root : Z).

Definition user_range (va n : Z) : Prop := 0 <= va /\ va mod 4096 = 0 /\ 0 <= n /\ va + n * 4096 <= 2 ^ 47.

(** [fork_as] on the page tables, when the clone succeeds. *)
Definition fork_pages (root : Z) (regs : list Region) (skip : option (Z * Z)) : st Z S Z :=
  let* child_root := clone_high_half root in
  let* _ := protect_all root regs in
  st_catch (clone_user_space_cow root child_root skip) (fun _ => st_ret child_root) (fun _ => st_err ENOMEM).

(** The regions are where the writable pages are. *)
Definition all_in (regs : list Region) s (w : Z) : Prop :=
  Forall (fun g => user_range (vaddr g) (pages g)) regs /\
  forall va pa u, low_va va -> translate_user (mm_mem s) w va = Some (pa, u, true) -> exists g, g ∈ regs /\ vaddr g <= va < r_end g.

Definition step (w : Z) (o : Op) s s' : Prop :=
  match o with
  | New c => clone_high_half (E := Z) w s = (s', Ok c)
  | _ => w ∈ mm_clones s /\
    match o with
    | Store va v => low_va va /\ exists pa, translate_user (mm_mem s) w va = Some (pa, true, true) /\ s' = upd_mem (insert (Z.land pa (lnot64 7)) v) s
    | Commit va n fl ok => user_range va n /\ commit_pages w va n fl s = (s', if ok then Ok tt else Err tt)
    | Fill va fl ok => low_va va /\ fill_page (E := Z) w va fl s = (s', Ok ok)
    | Release va n => user_range va n /\ exists k, release_pages (E := Z) w va n s = (s', Ok k)
    | Protect va n => user_range va n /\ exists k, user_leaf_write_protect_range (E := Z) w va n s = (s', Ok k)
    | Key va n key => user_range va n /\ exists k, user_leaf_set_pkey_range (E := Z) w va n key s = (s', Ok k)
    | Cow va => low_va va /\ exists b, cow_break (E := Z) w va s = (s', Ok b)
    | Fork regs lo hi c => hi <= 2 ^ 47 /\ all_in regs s w /\ fork_pages w regs (Some (lo, hi)) s = (s', Ok c)
    | New _ => False
    | Exit k => (2 <= length (mm_clones s))%nat /\ destroy_root (E := Z) k w s = (s', Ok tt)
    end
  end.

(** The roots after an operation, and what they hold: [M] and [M'] before and
    after. *)
Definition lives (w : Z) (o : Op) (L L' : Z -> Prop) : Prop :=
  match o with
  | Fork _ _ _ c | New c => ~ L c /\ forall r, L' r <-> L r \/ r = c
  | Exit _ => forall r, L' r <-> L r /\ r <> w
  | _ => forall r, L' r <-> L r
  end.

Definition spec (w : Z) (o : Op) (L : Z -> Prop) (M M' : Z -> Z -> option Z) : Prop :=
  match o with
  | Store va0 v => forall r va, L r -> low_va va -> M' r va = if decide (r = w /\ va / 8 = va0 / 8) then Some v else M r va
  | Commit v n _ ok =>
      (forall r va, L r -> low_va va -> ~ within w v (v + n * 4096) r va -> M' r va = M r va) /\
      (ok = true -> forall va, low_va va -> v <= va < v + n * 4096 -> M' w va = Some 0)
  | Fill v _ ok => forall r va, L r -> low_va va -> M' r va = if decide (ok = true /\ at_page w v r va) then Some 0 else M r va
  | Release v n => forall r va, L r -> low_va va -> M' r va = if decide (r = w /\ v <= va < v + n * 4096) then None else M r va
  | Protect _ _ | Key _ _ _ | Cow _ => forall r va, L r -> low_va va -> M' r va = M r va
  | Fork _ lo hi c =>
      (forall r va, L r -> low_va va -> M' r va = M r va) /\
      forall va, low_va va -> M' c va = if copied 3 (Some (lo, hi)) va then M w va else None
  | New c => (forall r va, L r -> low_va va -> M' r va = M r va) /\ forall va, low_va va -> M' c va = None
  | Exit _ => forall r va, L r -> r <> w -> low_va va -> M' r va = M r va
  end.

(** ** The operations implement this *)

Record alive s own : Prop := {
  al_inv : inv s own ∅;
  al_nodup : NoDup (mm_clones s);
  al_roots r : r ∈ mm_clones s -> is_root own r
}.

Lemma wpp_run {E X} (m : st E S X) (Q : X -> S -> Prop) (R : E -> S -> Prop) s s' x : wpp m Q R s -> m s = (s', x) ->
  match x with Ok a => Q a s' | Err e => R e s' | Panic => True end.
Proof. unfold wpp. intros Hw E0. by rewrite E0 in Hw. Qed.

(** What a step has to leave. *)
Definition fits (w : Z) (o : Op) s s' : Prop :=
  (exists own', alive s' own') /\ lives w o (fun r => r ∈ mm_clones s) (fun r => r ∈ mm_clones s') /\
  spec w o (fun r => r ∈ mm_clones s) (load (mm_mem s)) (load (mm_mem s')).

Lemma load_alive s own r va : alive s own -> r ∈ mm_clones s -> low_va va -> load (mm_mem s) r va = peek (mm_mem s) r va.
Proof. intros [Hi _ Hr] Hin Hva. apply (load_peek _ own); [apply (i_wf _ _ _ Hi)|by apply Hr|done]. Qed.

(** The roots stay. *)
Lemma alive_same s own s' own' : alive s own -> inv s' own' ∅ -> mm_clones s' = mm_clones s -> (forall r, is_root own r -> is_root own' r) -> alive s' own'.
Proof. intros [Hi Hn Hr] Hi' Hc Hk. constructor; [done|by rewrite Hc|]. intros r. rewrite Hc. auto. Qed.

Lemma keeps_load P s own s' own' r va : alive s own -> alive s' own' -> mm_clones s' = mm_clones s -> keeps P s own s' own' ->
  r ∈ mm_clones s -> low_va va -> ~ P r va -> load (mm_mem s') r va = load (mm_mem s) r va.
Proof.
  intros Ha Ha' Hc Hk Hr Hva HP. rewrite (load_alive s' own' r va Ha') by (rewrite ?Hc; done). rewrite (load_alive s own r va Ha) by done.
  apply (k_peek _ _ _ _ _ Hk); [by apply (al_roots _ _ Ha)|done|done].
Qed.

Lemma fits_store w va v s own s' : alive s own -> step w (Store va v) s s' -> fits w (Store va v) s s'.
Proof.
  intros Ha (Hw & Hva & pa & Ht & ->). destruct (store_private s own ∅ w va pa v (al_inv _ _ Ha) (al_roots _ _ Ha w Hw) Hva Ht) as [Hi' Hp].
  pose proof (alive_same s own _ own Ha Hi' eq_refl (fun r Hr => Hr)) as Ha'. split; [by exists own|]. split; [done|].
  intros r va' Hr Hva'. rewrite (load_alive _ own r va' Ha') by done. rewrite (load_alive s own r va' Ha Hr Hva').
  apply Hp; [by apply (al_roots _ _ Ha)|done].
Qed.

Lemma fits_commit w va n fl ok s own s' : alive s own -> step w (Commit va n fl ok) s s' -> fits w (Commit va n fl ok) s s'.
Proof.
  intros Ha (Hw & (Hva & Hal & Hn & Hb) & E0). pose proof (al_roots _ _ Ha w Hw) as Hr.
  pose proof (wpp_run _ _ _ s s' _ (wpp_commit s own ∅ w va n fl (al_inv _ _ Ha) Hr Hva Hal Hn Hb) E0) as Hpost.
  assert (moved (within w va (va + n * 4096)) ∅ s own s' /\ (ok = true -> zeroed w va (va + n * 4096) s')) as [Hm Hz] by (destruct ok; [destruct Hpost; done|done]).
  destruct Hm as (own' & Hi' & Hk & Hc). pose proof (alive_same s own s' own' Ha Hi' Hc (k_root _ _ _ _ _ Hk)) as Ha'.
  split; [by exists own'|]. split; [intros r; by rewrite Hc|]. split.
  - intros r va' Hr' Hva' HP. by eapply keeps_load.
  - intros Hok va' Hva' Hw'. rewrite (load_alive s' own' w va' Ha') by (rewrite ?Hc; done). by apply Hz.
Qed.

Lemma wpp_fill w va fl s own : alive s own -> w ∈ mm_clones s -> low_va va ->
  wpp (fill_page (E := Z) w va fl) (fun ok s' => if ok then exists own', inv s' own' ∅ /\ keeps (at_page w va) s own s' own' /\ mm_clones s' = mm_clones s /\
    (forall va', low_va va' -> va' / 4096 = va / 4096 -> peek (mm_mem s') w va' = Some 0) else s' = s) (fun _ _ => False) s.
Proof.
  intros Ha Hw Hva. pose proof (al_roots _ _ Ha w Hw) as Hr. pose proof (al_inv _ _ Ha) as Hi.
  unfold fill_page. apply wpp_bind, (wpp_alloc s own ∅); [done|done|]. intros f s1 Em Ec Hi1 Hc1. unfold store. apply wpp_bind, wpp_upd.
  destruct (held_write s1 own ∅ f (zero_frame f) Hi1 Hc1) as (Hi2 & Hk2 & _); [intros m a Hn; by rewrite rd_zero, decide_False|].
  apply wpp_bind, (wpp_map_4k _ own ∅); [done|done|done|done|]. intros s3 own3 Hi3 Hk3 Hc3 Hp3. apply wpp_ret. exists own3. split; [done|].
  split; [eapply spaces_trans; [apply keeps_none, (keeps_mem s own s1 Em)|]; eapply spaces_trans; [apply keeps_none, Hk2|exact Hk3]|].
  split; [rewrite Hc3; exact Ec|]. intros va' Hva' Hp. rewrite (Hp3 va' Hva' Hp). f_equal. unfold word. cbn [mm_mem upd_mem]. rewrite rd_zero, decide_True; [done|apply word_in].
Qed.

Lemma fits_fill w va fl ok s own s' : alive s own -> step w (Fill va fl ok) s s' -> fits w (Fill va fl ok) s s'.
Proof.
  intros Ha (Hw & Hva & E0). pose proof (wpp_fill w va fl s own Ha Hw Hva) as Hwp.
  pose proof (wpp_run _ _ _ s s' _ Hwp E0) as Hpost. cbv beta iota in Hpost. destruct ok.
  - destruct Hpost as (own' & Hi' & Hk & Hc & Hz). pose proof (alive_same s own s' own' Ha Hi' Hc (k_root _ _ _ _ _ Hk)) as Ha'.
    split; [by exists own'|]. split; [intros r; by rewrite Hc|]. intros r va' Hr' Hva'. destruct (decide _) as [[_ [-> Hp]]|Hn].
    + rewrite (load_alive s' own' w va' Ha') by (rewrite ?Hc; done). by apply Hz.
    + eapply keeps_load; try done. intros Hp. by apply Hn.
  - subst s'. split; [by exists own|]. split; [done|]. intros r va' Hr' Hva'. by rewrite decide_False by (by intros [? _]).
Qed.

Lemma fits_release w va n s own s' : alive s own -> step w (Release va n) s s' -> fits w (Release va n) s s'.
Proof.
  intros Ha (Hw & (Hva & Hal & Hn & Hb) & k & E0). pose proof (al_roots _ _ Ha w Hw) as Hr.
  assert (wpp (release_pages (E := Z) w va n) (fun _ s' => inv s' own ∅ /\ cleared w va (va + n * 4096) s own s') (fun _ _ => True) s) as Hwp.
  { apply (wpp_release s own ∅); try done. apply (al_inv _ _ Ha). }
  destruct (wpp_run _ _ _ s s' _ Hwp E0) as [Hi' [Hk Hno Hc]]. pose proof (alive_same s own s' own Ha Hi' Hc (fun r Hr => Hr)) as Ha'.
  split; [by exists own|]. split; [intros r; by rewrite Hc|]. intros r va' Hr' Hva'. destruct (decide _) as [[-> Hin]|Hout].
  - rewrite (load_alive s' own w va' Ha') by (rewrite ?Hc; done). by apply Hno.
  - by eapply keeps_load.
Qed.

(** Edits that leave what every page holds. *)
Lemma fits_quiet s own s' : alive s own -> inv s' own ∅ -> keeps nowhere s own s' own -> mm_clones s' = mm_clones s ->
  (exists own', alive s' own') /\ (forall r, r ∈ mm_clones s' <-> r ∈ mm_clones s) /\
  forall r va, r ∈ mm_clones s -> low_va va -> load (mm_mem s') r va = load (mm_mem s) r va.
Proof.
  intros Ha Hi' Hk Hc. pose proof (alive_same s own s' own Ha Hi' Hc (fun r Hr => Hr)) as Ha'. split; [by exists own|].
  split; [intros r; by rewrite Hc|].
  intros r va Hr Hva. apply (keeps_load nowhere s own s' own); try done. by intros [].
Qed.

Lemma fits_protect w va n s own s' : alive s own -> step w (Protect va n) s s' -> fits w (Protect va n) s s'.
Proof.
  intros Ha (Hw & (Hva & Hal & Hn & Hb) & k & E0).
  pose proof (wpp_run _ _ _ s s' _ (wpp_tame_range s own ∅ w va n _ (fun _ _ => True) (al_inv _ _ Ha) (al_roots _ _ Ha w Hw) Hva Hb (proj1 clear_writable_tame)) E0) as (Hi' & Hk & Hc & _).
  by apply (fits_quiet s own s').
Qed.

Lemma fits_key w va n key s own s' : alive s own -> step w (Key va n key) s s' -> fits w (Key va n key) s s'.
Proof.
  intros Ha (Hw & (Hva & Hal & Hn & Hb) & k & E0).
  pose proof (wpp_run _ _ _ s s' _ (wpp_tame_range s own ∅ w va n _ (fun _ _ => True) (al_inv _ _ Ha) (al_roots _ _ Ha w Hw) Hva Hb (set_pkey_tame key)) E0) as (Hi' & Hk & Hc & _).
  by apply (fits_quiet s own s').
Qed.

Lemma fits_cow w va s own s' : alive s own -> step w (Cow va) s s' -> fits w (Cow va) s s'.
Proof.
  intros Ha (Hw & Hva & b & E0).
  destruct (wpp_run _ _ _ s s' _ (wpp_cow_break s own ∅ w va (fun _ _ => True) (al_inv _ _ Ha) (al_roots _ _ Ha w Hw) Hva) E0) as [[Hi' Hk Hc] _].
  by apply (fits_quiet s own s').
Qed.

Lemma fits_exit w k s own s' : alive s own -> step w (Exit k) s s' -> fits w (Exit k) s s'.
Proof.
  intros Ha (Hw & Hlen & E0).
  assert (wpp (destroy_root (E := Z) k w) (fun _ s' => exists own', inv s' own' ∅ /\ mm_clones s ≡ₚ w :: mm_clones s' /\
    forall r', is_root own r' -> r' <> w -> is_root own' r' /\ forall va, low_va va -> peek (mm_mem s') r' va = peek (mm_mem s) r' va) (fun _ _ => False) s) as Hwp.
  { apply (wpp_destroy s own ∅); [apply (al_inv _ _ Ha)|by apply (al_roots _ _ Ha)|done|]. intros s1 own1 Hi1 Hk1 Hc1. by exists own1. }
  destruct (wpp_run _ _ _ s s' _ Hwp E0) as (own' & Hi' & Hp & Hk). pose proof (al_nodup _ _ Ha) as Hnd. rewrite Hp in Hnd. apply NoDup_cons in Hnd as [Hnw Hnd].
  assert (forall r, r ∈ mm_clones s' <-> r ∈ mm_clones s /\ r <> w) as Hl.
  { intros r. rewrite Hp, elem_of_cons. split; [|intros [[|] ?]; done]. intros Hr. split; [by right|]. intros ->. done. }
  assert (alive s' own') as Ha'.
  { constructor; [done|done|]. intros r [Hr Hne]%Hl. apply Hk; [by apply (al_roots _ _ Ha)|done]. }
  split; [by exists own'|]. split; [done|]. intros r va Hr Hne Hva. rewrite (load_alive s' own' r va Ha') by (done || by apply Hl).
  rewrite (load_alive s own r va Ha Hr Hva). apply Hk; [by apply (al_roots _ _ Ha)|done|done].
Qed.

(** ** New address spaces *)

Lemma root_place m own g q : wf m own -> own !! g = Some q -> is_root own (p_root q).
Proof.
  intros Hwf. remember (Z.to_nat (3 - p_level q)) as n eqn:En. revert g q En. induction n as [|n IH]; intros g q En Hg; destruct (wf_pos m own Hwf g q Hg) as (_ & Hb & _ & H3).
  - rewrite H3 in Hg by lia. rewrite H3 by lia. exact Hg.
  - destruct (wf_up m own Hwf g q Hg) as (x & p & i & Hx & Hp & Hi & -> & _); [lia|]. apply (IH x p); [cbn in *; lia|done].
Qed.

(** The root that nothing is below. *)
Lemma fresh_root s own c s' : inv s own ∅ -> own !! c = None -> inv s' (<[c := mkPos c 3 0]> own) ∅ -> forall i, 0 <= i < 256 -> read_pte (mm_mem s') c i = 0.
Proof.
  intros Hi Hc Hi' i Hix. destruct (wf_down _ _ (i_wf _ _ _ Hi') c (mkPos c 3 0) i) as [|(_ & g & _ & Hg)]; [by rewrite lookup_insert_eq|done|done|done|].
  apply lookup_insert_Some in Hg as [[_ [=]]|[_ Hg]]. pose proof (root_place _ own g _ (i_wf _ _ _ Hi) Hg) as Hr. cbn in Hr. unfold is_root in Hr. congruence.
Qed.

Lemma alive_new s own s' own' c : alive s own -> ~ c ∈ mm_clones s -> inv s' own' ∅ -> mm_clones s' = mm_clones s ++ [c] -> is_root own' c ->
  (forall r, is_root own r -> is_root own' r) -> alive s' own'.
Proof.
  intros [Hi Hn Hr] Hc Hi' Hcl Hrc Hk. constructor; [done| |].
  - rewrite Hcl. apply NoDup_app. split; [done|]. split; [|apply NoDup_singleton]. intros x Hx ->%list_elem_of_singleton. done.
  - intros r. rewrite Hcl. intros [Hin| ->%list_elem_of_singleton]%elem_of_app; auto.
Qed.

Lemma new_unknown s own c : alive s own -> own !! c = None -> ~ c ∈ mm_clones s.
Proof. intros Ha Hc Hin. pose proof (al_roots _ _ Ha c Hin) as Hr. unfold is_root in Hr. congruence. Qed.

Lemma fits_new w c s own s' : alive s own -> step w (New c) s s' -> fits w (New c) s s'.
Proof.
  intros Ha E0.
  assert (wpp (clone_high_half (E := Z) w) (fun c s' => own !! c = None /\ inv s' (<[c := mkPos c 3 0]> own) ∅ /\ keeps nowhere s own s' (<[c := mkPos c 3 0]> own) /\
    mm_clones s' = mm_clones s ++ [c]) (fun _ _ => True) s) as Hwp by (apply (wpp_clone_high s own ∅); [apply (al_inv _ _ Ha)|done]).
  destruct (wpp_run _ _ _ s s' _ Hwp E0) as (Hc & Hi' & Hk & Hcl). pose proof (new_unknown s own c Ha Hc) as Hnc.
  assert (alive s' (<[c := mkPos c 3 0]> own)) as Ha' by (eapply alive_new; [exact Ha|exact Hnc|done|done|unfold is_root; by rewrite lookup_insert_eq|apply Hk]).
  assert (forall r, r ∈ mm_clones s' <-> r ∈ mm_clones s \/ r = c) as Hl by (intros r; by rewrite Hcl, elem_of_app, list_elem_of_singleton).
  split; [by eexists|]. split; [done|]. split.
  - intros r va Hr Hva. rewrite (load_alive s' _ r va Ha') by (done || (apply Hl; by left)). rewrite (load_alive s own r va Ha Hr Hva).
    apply (k_peek _ _ _ _ _ Hk); [by apply (al_roots _ _ Ha)|done|by intros []].
  - intros va Hva. rewrite (load_alive s' _ c va Ha') by (done || (apply Hl; by right)). unfold peek.
    rewrite (leaf_none _ _ c va 3 c (i_wf _ _ _ Hi') Hva); [done|lia|change (Z.of_nat 3) with 3; rewrite lookup_insert_eq; by rewrite (proj1 (low_top va Hva))|].
    apply (fresh_root s own); [apply (al_inv _ _ Ha)|done|done|]. apply (low_top va Hva).
Qed.

Lemma wpp_protect_all {E} w regs (R : E -> S -> Prop) own : forall s, inv s own ∅ -> is_root own w -> Forall (fun g => user_range (vaddr g) (pages g)) regs ->
  wpp (protect_all w regs) (fun _ s' => inv s' own ∅ /\ keeps nowhere s own s' own /\ mm_clones s' = mm_clones s /\ less s own s' /\
    forall g, g ∈ regs -> shut w (fun va => vaddr g <= va < r_end g) s') R s.
Proof.
  induction regs as [|g regs IH]; intros s Hi Hr HF; unfold protect_all; cbn [st_for].
  - apply wpp_ret. split; [done|]. split; [apply spaces_refl|]. split; [done|]. split; [by intros r va|]. by intros g ?%not_elem_of_nil.
  - apply Forall_cons in HF as [(Hva & Hal & Hn & Hb) HF]. apply wpp_bind, wpp_bind.
    eapply wpp_mono; [apply (wpp_tame_range s own ∅ w (vaddr g) (pages g) _ R Hi Hr Hva Hb (proj1 clear_writable_tame))| |done].
    intros k s1 (Hi1 & Hk1 & Hc1 & Hls1 & Hsh1). specialize (Hsh1 (proj2 clear_writable_tame)). apply wpp_ret.
    eapply wpp_mono; [apply (IH s1 Hi1 Hr HF)| |done]. intros ? s2 (Hi2 & Hk2 & Hc2 & Hls2 & Hsh2).
    split; [done|]. split; [by eapply spaces_trans|]. split; [congruence|]. split; [intros r va Hr' Hva' Hw; apply Hls1; auto|].
    intros g' [->|Hg']%elem_of_cons; [|by apply Hsh2]. intros va Hva' Hin. apply not_true_is_false. intros Hw. apply Hls2 in Hw; [|done|done].
    rewrite Hsh1 in Hw; [done|done|]. unfold r_end, PAGE in Hin. exists ((va - vaddr g) / 4096).
    pose proof (Z.div_mod (va - vaddr g) 4096 ltac:(lia)) as Hdm. pose proof (Z.mod_pos_bound (va - vaddr g) 4096 ltac:(lia)) as Hmb.
    split; [nia|]. rewrite Z.div_add by lia. pose proof (Z.div_mod (vaddr g) 4096 ltac:(lia)). symmetry. apply Z.div_unique with ((va - vaddr g) mod 4096); lia.
Qed.

(** The clone starts from pages that nobody writes. *)
Lemma fork_start s own regs lo hi w c s1 s2 : alive s own -> w ∈ mm_clones s -> hi <= 2 ^ 47 -> all_in regs s w -> own !! c = None ->
  let own1 := <[c := mkPos c 3 0]> own in
  inv s1 own1 ∅ -> (forall r va, is_root own r -> low_va va -> leaf (mm_mem s1) r va = leaf (mm_mem s) r va) ->
  inv s2 own1 ∅ -> less s1 own1 s2 -> (forall g, g ∈ regs -> shut w (fun va => vaddr g <= va < r_end g) s2) ->
  start (Some (lo, hi)) w c 3 0 w c s2 own1.
Proof.
  intros Ha Hw Hhi [_ Hin] Hc own1 Hi1 Hl1 Hi2 Hls Hsh. pose proof (al_roots _ _ Ha w Hw) as Hr. assert (w <> c) as Hne by (unfold is_root in Hr; congruence).
  assert (is_root own1 w) as Hr1 by (unfold is_root, own1; by rewrite lookup_insert_ne by congruence).
  assert (is_root own1 c) as Hc1 by (unfold is_root, own1; by rewrite lookup_insert_eq). change (Z.of_nat 3) with 3.
  constructor; [lia|done|done|lia| | |done|done| |].
  - intros i Hix. unfold low_idx in Hix. cbn [p_level] in Hix. change (Z.of_nat 3 =? 3) with true in Hix. cbv iota in Hix.
    change (SHIFT 3) with 39. change (2 ^ 47) with (256 * 2 ^ 39). apply Z.mul_le_mono_nonneg_r; lia.
  - intros i Hi Hn. unfold low_idx in Hn. cbn [p_level] in Hn. change (Z.of_nat 3 =? 3) with true in Hn. cbv iota in Hn. unfold cow_skipped. cbn [Nat.eqb].
    change (SHIFT 3) with 39. change (2 ^ 47) with (256 * 2 ^ 39) in Hhi. apply Z.leb_le. etrans; [exact Hhi|]. apply Z.mul_le_mono_nonneg_r; lia.
  - intros i Hi. apply (fresh_root s own); [apply (al_inv _ _ Ha)|done|done|exact Hi].
  - intros va Hva _ _. apply not_true_is_false. intros Hwr. pose proof (Hls w va Hr1 Hva Hwr) as Hw1. rewrite (Hl1 w va Hr Hva) in Hw1.
    pose proof (translate_user_low _ own w va (i_wf _ _ _ (al_inv _ _ Ha)) Hr Hva) as Ht.
    destruct (translate_user (mm_mem s) w va) as [[[pa u] b]|] eqn:Et; [|rewrite Ht, has_0 in Hw1; done]. destruct Ht as (_ & _ & Eb). rewrite Hw1 in Eb. subst b.
    destruct (Hin va pa u Hva Et) as (g & Hg & Hgv). by rewrite (Hsh g Hg va Hva Hgv) in Hwr.
Qed.

Lemma fits_fork w regs lo hi c s own s' : alive s own -> step w (Fork regs lo hi c) s s' -> fits w (Fork regs lo hi c) s s'.
Proof.
  intros Ha (Hw & Hhi & Hall & E0). pose proof (al_roots _ _ Ha w Hw) as Hr. pose proof (al_inv _ _ Ha) as Hi.
  assert (wpp (fork_pages w regs (Some (lo, hi))) (fun c s' => exists s2 own1 own', own !! c = None /\ is_root own1 w /\ start (Some (lo, hi)) w c 3 0 w c s2 own1 /\
    keeps nowhere s own s2 own1 /\ mm_clones s2 = mm_clones s ++ [c] /\ copy (Some (lo, hi)) w c 3 0 c [] s2 own1 s' own') (fun _ _ => True) s) as Hwp.
  { unfold fork_pages. apply wpp_bind, (wpp_clone_high s own ∅); [done|]. intros c' s1 Hc Hi1 Hk1 Hl1 Hcl1 _.
    assert (is_root (<[c' := mkPos c' 3 0]> own) w) as Hr1 by (by apply (k_root _ _ _ _ _ Hk1)). apply wpp_bind.
    eapply wpp_mono; [apply (wpp_protect_all w regs (fun _ _ => True) (<[c' := mkPos c' 3 0]> own) s1 Hi1 Hr1 (proj1 Hall))| |done].
    intros ? s2 (Hi2 & Hk2 & Hc2 & Hls & Hsh). pose proof (fork_start s own regs lo hi w c' s1 s2 Ha Hw Hhi Hall Hc Hi1 Hl1 Hi2 Hls Hsh) as Hst.
    apply wpp_catch. eapply wpp_mono; [apply (wpp_clone (Some (lo, hi)) w c'); [unfold is_root in Hr; congruence|exact Hst]| |done].
    intros ? s3 (own3 & Hcp). apply wpp_ret. exists s2, (<[c' := mkPos c' 3 0]> own), own3. split_and!; try done; [by eapply spaces_trans|congruence]. }
  destruct (wpp_run _ _ _ s s' _ Hwp E0) as (s2 & own1 & own' & Hc & Hr1 & Hst & Hk & Hcl & Hcp).
  assert (w <> c) as Hne by (unfold is_root in Hr; congruence). pose proof (new_unknown s own c Ha Hc) as Hnc.
  assert (mm_clones s' = mm_clones s ++ [c]) as Hcl' by (rewrite (cp_clones _ _ _ _ _ _ _ _ _ _ _ Hcp); done).
  assert (alive s' own') as Ha'.
  { eapply alive_new; [exact Ha|exact Hnc|apply Hcp|done| |].
    - apply (cp_own _ _ _ _ _ _ _ _ _ _ _ Hcp). apply (sr_roots _ _ _ _ _ _ _ _ _ Hst).
    - intros r Hr'. apply (cp_own _ _ _ _ _ _ _ _ _ _ _ Hcp). by apply (k_root _ _ _ _ _ Hk). }
  assert (forall r, r ∈ mm_clones s' <-> r ∈ mm_clones s \/ r = c) as Hl by (intros r; by rewrite Hcl', elem_of_app, list_elem_of_singleton).
  split; [by exists own'|]. split; [done|]. split.
  - intros r va Hin Hva. rewrite (load_alive s' own' r va Ha') by (done || (apply Hl; by left)). rewrite (load_alive s own r va Ha Hin Hva).
    pose proof (al_roots _ _ Ha r Hin) as Hrr. rewrite (k_peek _ _ _ _ _ (cp_keep _ _ _ _ _ _ _ _ _ _ _ Hcp) r va (k_root _ _ _ _ _ Hk r Hrr) Hva) by (intros ->; done).
    apply (k_peek _ _ _ _ _ Hk r va Hrr Hva). by intros [].
  - intros va Hva. rewrite (load_alive s' own' c va Ha') by (done || (apply Hl; by right)). rewrite (load_alive s own w va Ha Hw Hva).
    rewrite (copy_peek _ w c Hne s2 own1 s' own' va Hst Hcp Hva). destruct (copied 3 (Some (lo, hi)) va); [|done].
    apply (k_peek _ _ _ _ _ Hk w va Hr Hva). by intros [].
Qed.

Lemma step_fits w o s own s' : alive s own -> step w o s s' -> fits w o s s'.
Proof.
  destruct o; [apply fits_store|apply fits_commit|apply fits_fill|apply fits_release|apply fits_protect|apply fits_key|apply fits_cow|apply fits_fork|apply fits_new|apply fits_exit].
Qed.

(** ** From boot on *)

(** No address space and no shared frame; memory of less than 32 GiB, so that no
    counter of 32 bits overflows. *)
Record boot s : Prop := {
  bt_clones : mm_clones s = [];
  bt_counts : mm_counts s = ∅;
  bt_frames : fr_ok (mm_frames s);
  bt_small : fr_total (mm_frames s) < 2 ^ 23
}.

Lemma boot_alive s : boot s -> alive s ∅.
Proof.
  intros [Hcl Hcn Hf Hs]. assert (forall x, cnt s x = 0) as Hc by (intros x; unfold cnt, count_at; by rewrite Hcn).
  assert (forall t i, ~ (t, i) ∈ slots ∅) as Hsl by (intros t i; by intros (q & Hq & _)%elem_of_slots).
  assert (forall x, total s ∅ ∅ x = 0%nat) as Ht.
  { intros x. unfold total. assert (refset (mm_mem s) ∅ x = ∅) as ->.
    - apply set_eq. intros [t i]. rewrite elem_of_refset. split; [by intros ((q & Hq & _) & _)|by intros ?%elem_of_empty].
    - rewrite size_empty, multiplicity_empty. lia. }
  constructor; [|by rewrite Hcl; apply NoDup_nil|intros r; rewrite Hcl; by intros ?%not_elem_of_nil].
  constructor; [by constructor|done|done| | | | | |done|done].
  - intros t i Hti. by apply Hsl in Hti.
  - by intros x ?%gmultiset_not_elem_of_empty.
  - intros x _. by rewrite Hc.
  - intros x _. rewrite Hc, Ht. lia.
  - intros t i Hti. by apply Hsl in Hti.
Qed.

Definition any s s' : Prop := exists w o, step w o s s'.
Definition others (r : Z) s s' : Prop := exists w o, w <> r /\ step w o s s'.

Lemma runs_alive s s' : rtc any s s' -> (exists own, alive s own) -> exists own, alive s' own.
Proof. induction 1 as [|s s1 s2 (w & o & Hst) _ IH]; [done|]. intros (own & Ha). apply IH. by destruct (step_fits w o s own s1 Ha Hst). Qed.

Lemma other_kept w o s s' r : fits w o s s' -> r <> w -> r ∈ mm_clones s ->
  r ∈ mm_clones s' /\ forall va, low_va va -> load (mm_mem s') r va = load (mm_mem s) r va.
Proof.
  intros (_ & Hl & Hs) Hne Hr. split.
  - destruct o; cbn in Hl; try (by apply Hl); [apply Hl; by left|apply Hl; by left].
  - intros va Hva. destruct o; cbn in Hs.
    + rewrite Hs by done. by rewrite decide_False by (by intros [-> _]).
    + apply Hs; [done|done|]. by intros [-> _].
    + rewrite Hs by done. by rewrite decide_False by (by intros [_ [-> _]]).
    + rewrite Hs by done. by rewrite decide_False by (by intros [-> _]).
    + by apply Hs.
    + by apply Hs.
    + by apply Hs.
    + by apply Hs.
    + by apply Hs.
    + by apply Hs.
Qed.


(** Isolation.  From boot on, whatever the other address spaces do, in any
    order and number (stores, commits, releases, faults, forks of their own,
    creations and exits), an address space stays and reads the same at every
    address. *)
Theorem address_spaces_isolated s0 s r s' : boot s0 -> rtc any s0 s -> r ∈ mm_clones s -> rtc (others r) s s' ->
  r ∈ mm_clones s' /\ forall va, low_va va -> load (mm_mem s') r va = load (mm_mem s) r va.
Proof.
  intros Hb Hrun Hr Hoth. pose proof (runs_alive s0 s Hrun (ex_intro _ ∅ (boot_alive s0 Hb))) as Ha. clear Hrun Hb.
  induction Hoth as [s|s s1 s2 (w & o & Hne & Hst) _ IH]; [done|]. destruct Ha as (own & Ha). pose proof (step_fits w o s own s1 Ha Hst) as Hf.
  destruct (other_kept w o s s1 r Hf (not_eq_sym Hne) Hr) as [Hr1 Hl1]. destruct (IH Hr1 (proj1 Hf)) as [Hr2 Hl2]. split; [done|].
  intros va Hva. rewrite Hl2 by done. by apply Hl1.
Qed.
End Safe.
