(* ===== verification/VmmBoot.v ===== *)
(** * Page tables on the frame allocator

    The bitmap allocator keeps the promises of [FrameLaws], and runs of the
    operations on it: two processes after a fork, a fault and a store. *)

From stdpp Require Import gmultiset.
From S2P Require Import Prelude Bits PhysAlloc PhysAllocFacts State Vmm VmmFacts VmmTree VmmInv VmmKeep VmmMap UserMem VmmRange VmmClone VmmSafe.
Local Open Scope Z_scope.

(** ** The allocator *)

#[export] Instance frame_ops `{Profile} : FrameOps BitmapAllocator := {
  fr_alloc a := match alloc a with Ok x => Ok x | Err _ => Err tt | Panic => Panic end;
  fr_free a f := match free a f with Ok x => Ok x | Err _ => Err tt | Panic => Panic end;
  fr_count := free_count;
  fr_total := total_frames
}.

(** A frame that the allocator may hand out. *)
Definition mgd (a : BitmapAllocator) (f : Z) : Prop :=
  exists i, f = i * 4096 /\ 0 <= i < total_frames a /\ is_reserved_frame a i = false.

Definition avl (a : BitmapAllocator) (f : Z) : Prop := mgd a f /\ frame_free a (f / 4096).

#[export] Instance frame_laws `{Profile} : FrameLaws BitmapAllocator.
Proof.
  refine {| fr_ok := fun a => PhysAllocFacts.inv a /\ total_frames a <= 2 ^ 40; avail := avl; managed := mgd |}.
  - intros a [Hi Ht]. destruct (alloc_ok a Hi) as (a' & r & E & Hr). exists a', r. cbn. rewrite E. split; [done|].
    destruct r as [f|]; [|destruct Hr as [-> _]; done]. destruct Hr as (i & -> & Hf & Hres & ->).
    split; [split; [by apply inv_take|done]|]. split; [done|]. split; [done|]. split.
    + split; [exists i; by destruct Hf|]. by rewrite Z.div_mul.
    + intros g. unfold avl. rewrite (frame_free_take a i (g / 4096)) by (destruct Hf; lia). change (mgd (take_frame a i) g) with (mgd a g).
      split; [intros [Hm [Hg Hne]]; split; [done|]; intros ->; by rewrite Z.div_mul in Hne|]. intros [[Hm Hg] Hne]. split; [done|]. split; [done|].
      destruct Hm as (j & -> & _). rewrite Z.div_mul by lia. congruence.
  - intros a f [Hi Ht] (i & -> & Hb & Hres) Hna.
    assert (Z.testbit (bitmap a) i = true) as Hbit.
    { apply not_false_is_true. intros E. apply Hna. split; [by exists i|]. by rewrite Z.div_mul. }
    destruct (free_ok a i Hi Hb Hbit Hres) as (a' & E & Hi' & Hbm & Htot & Hks & Hke & _). exists a'. cbn. rewrite E, Htot.
    assert (forall g, mgd a' g <-> mgd a g) as Hm by (intros g; unfold mgd, is_reserved_frame; by rewrite Htot, Hks, Hke).
    split; [done|]. split; [done|]. split; [done|]. split; [done|]. intros g. unfold avl, frame_free. rewrite Hm, Htot, Hbm. split.
    + intros [Hg [Hr Hc]]. destruct (decide (g / 4096 = i)) as [<-|Hne]; [right; destruct Hg as (j & -> & _); by rewrite Z.div_mul|].
      left. split; [done|]. split; [done|]. by rewrite Z.clearbit_neq in Hc by congruence.
    + intros [[Hg [Hr Hc]]| ->].
      * split; [done|]. split; [done|]. by rewrite Z.clearbit_eqb, Hc.
      * rewrite Z.div_mul by lia. split; [by exists i|]. split; [done|]. apply Z.clearbit_eq.
  - by intros a f _ [? _].
  - intros a f [Hi Ht] (i & -> & Hb & _). cbn. rewrite Z.div_mul by lia. split; [|lia]. split; [by rewrite Z.mod_mul|]. lia.
Defined.

(** ** The writable pages of a root *)

Definition row (m : gmap Z Z) (t n : Z) (f : Z -> Z -> bool) : bool :=
  forallb (fun i => if has (read_pte m t i) PTE_PRESENT then f i (read_pte m t i) else true) (seqZ 0 n).

Definition all_in_b (regs : list Region) (m : gmap Z Z) (w : Z) : bool :=
  row m w 256 (fun i3 e0 => row m (pte_frame e0) 512 (fun i2 e1 => negb (has e1 PTE_PS) && row m (pte_frame e1) 512 (fun i1 e2 =>
    negb (has e2 PTE_PS) && row m (pte_frame e2) 512 (fun i0 e3 =>
      let va := (((i3 * 512 + i2) * 512 + i1) * 512 + i0) * 4096 in
      if has e3 PTE_WRITABLE then existsb (fun g => (vaddr g <=? va) && (va + 4096 <=? r_end g)) regs else true)))).

Lemma row_at m t n f i : row m t n f = true -> 0 <= i < n -> has (read_pte m t i) PTE_PRESENT = true -> f i (read_pte m t i) = true.
Proof.
  unfold row. rewrite forallb_forall. intros Hf Hi Hp. specialize (Hf i). rewrite Hp in Hf. apply Hf, list_elem_of_In, elem_of_seqZ. lia.
Qed.

Lemma page_va va : low_va va -> (((vidx 3 va * 512 + vidx 2 va) * 512 + vidx 1 va) * 512 + vidx 0 va) * 4096 = va - va mod 4096.
Proof.
  intros Hva. pose proof (low_top va Hva) as [E3 _]. pose proof (pfx_step 2 va ltac:(lia)) as H2. pose proof (pfx_step 1 va ltac:(lia)) as H1. pose proof (pfx_step 0 va ltac:(lia)) as H0.
  change (2 + 1) with 3 in H2. change (1 + 1) with 2 in H1. change (0 + 1) with 1 in H0. rewrite E3 in H2. rewrite Z.mul_0_l, Z.add_0_l in H2. rewrite H2, H1, H0. rewrite vidx_div by lia. unfold pfx. change (2 ^ (21 + 9 * 0)) with (4096 * 512). change (2 ^ (12 + 9 * 0)) with 4096.
  rewrite <- Z.div_div by lia. pose proof (Z.div_mod (va / 4096) 512 ltac:(lia)). pose proof (Z.div_mod va 4096 ltac:(lia)). lia.
Qed.

Lemma all_in_sound regs {A} (s : Mm A) w : Forall (fun g => user_range (vaddr g) (pages g)) regs -> all_in_b regs (mm_mem s) w = true -> all_in regs s w.
Proof.
  intros HF Hb. split; [done|]. intros va pa u Hva Ht. unfold translate_user in Ht.
  destruct (has (read_pte (mm_mem s) w (vidx 3 va)) PTE_PRESENT) eqn:P0; [|done]. cbn [negb] in Ht.
  apply (row_at _ _ _ _ (vidx 3 va)) in Hb; [|apply (low_top va Hva)|done]. set (e0 := read_pte (mm_mem s) w (vidx 3 va)) in *.
  destruct (has (read_pte (mm_mem s) (pte_frame e0) (vidx 2 va)) PTE_PRESENT) eqn:P1; [|done]. cbn [negb] in Ht.
  apply (row_at _ _ _ _ (vidx 2 va)) in Hb; [|apply vidx_range|done]. set (e1 := read_pte (mm_mem s) (pte_frame e0) (vidx 2 va)) in *.
  apply andb_true_iff in Hb as [S1%negb_true_iff Hb]. rewrite S1 in Ht.
  destruct (has (read_pte (mm_mem s) (pte_frame e1) (vidx 1 va)) PTE_PRESENT) eqn:P2; [|done]. cbn [negb] in Ht.
  apply (row_at _ _ _ _ (vidx 1 va)) in Hb; [|apply vidx_range|done]. set (e2 := read_pte (mm_mem s) (pte_frame e1) (vidx 1 va)) in *.
  apply andb_true_iff in Hb as [S2%negb_true_iff Hb]. rewrite S2 in Ht.
  destruct (has (read_pte (mm_mem s) (pte_frame e2) (vidx 0 va)) PTE_PRESENT) eqn:P3; [|done]. cbn [negb] in Ht. injection Ht as _ _ Hw.
  apply (row_at _ _ _ _ (vidx 0 va)) in Hb; [|apply vidx_range|done]. cbv beta zeta in Hb. rewrite Hw, (page_va va Hva) in Hb.
  apply existsb_exists in Hb as (g & Hg & Hin). exists g. split; [by apply list_elem_of_In|]. pose proof (Z.mod_pos_bound va 4096 ltac:(lia)). lia.
Qed.

(** ** A run

    A process commits two pages, writes 42, and forks; its child writes 7. *)

#[local] Instance run_profile : Profile := true.

Definition parent : Z := 12288.
Definition the_child : Z := 36864.
Definition page : Z := 4194304.
Definition caps : Z * Z := (140733223075840, 140733223092224).
Definition data : list Region := [mkRegion Anon page 2 URW true false 0].

Definition m0 : Mm BitmapAllocator := mkMm ∅ boot_state [] ∅.
Definition m1 : Mm BitmapAllocator := (clone_high_half (E := Z) 0 m0).1.
Definition m2 : Mm BitmapAllocator := (commit_pages parent page 2 URW m1).1.
Definition m3 : Mm BitmapAllocator := upd_mem (insert 16384 42) m2.
Definition m4 : Mm BitmapAllocator := (fork_pages parent data (Some caps) m3).1.
Definition m5 : Mm BitmapAllocator := (cow_break (E := Z) the_child page m4).1.
Definition m6 : Mm BitmapAllocator := upd_mem (insert 270336 7) m5.

#[local] Strategy expand [m1 m2 m3 m4 m5 m6].

Lemma run_eq {E S X} (m : st E S X) s s' x : s' = (m s).1 -> (m s).2 = x -> m s = (s', x).
Proof. by destruct (m s) as [s1 y]; cbn; intros -> ->. Qed.

Lemma m0_boot : boot m0.
Proof. constructor; [done|done|split; [exact boot_state_inv|by vm_compute]|by vm_compute]. Qed.

Lemma page_low : low_va page.
Proof. split; vm_compute; congruence. Qed.

Lemma page_range : user_range page 2.
Proof. split_and!; vm_compute; congruence. Qed.

Lemma run_new : step 0 (New parent) m0 m1.
Proof. refine (run_eq (clone_high_half (E := Z) 0) m0 m1 (Ok parent) eq_refl _). vm_compute. reflexivity. Qed.

Lemma parent_in s l : mm_clones s = l -> existsb (Z.eqb parent) l = true -> parent ∈ mm_clones (A := BitmapAllocator) s.
Proof. intros -> (x & Hx & ->%Z.eqb_eq)%existsb_exists. by apply list_elem_of_In. Qed.

Lemma run_commit : step parent (Commit page 2 URW true) m1 m2.
Proof.
  split; [apply (parent_in m1 [parent]); vm_compute; reflexivity|]. split; [exact page_range|]. refine (run_eq (commit_pages parent page 2 URW) m1 m2 (Ok tt) eq_refl _).
  vm_compute. reflexivity.
Qed.

Lemma run_store : step parent (Store page 42) m2 m3.
Proof.
  split; [apply (parent_in m2 [parent]); vm_compute; reflexivity|]. split; [exact page_low|]. exists 16384.
  split; [vm_compute; reflexivity|]. reflexivity.
Qed.

Lemma run_fork : step parent (Fork data caps.1 caps.2 the_child) m3 m4.
Proof.
  split; [apply (parent_in m3 [parent]); vm_compute; reflexivity|]. split; [vm_compute; congruence|]. split.
  - apply all_in_sound; [|vm_compute; reflexivity]. constructor; [exact page_range|constructor].
  - refine (run_eq (fork_pages parent data (Some caps)) m3 m4 (Ok the_child) eq_refl _). vm_compute. reflexivity.
Qed.

Lemma child_in s l : mm_clones s = l -> existsb (Z.eqb the_child) l = true -> the_child ∈ mm_clones (A := BitmapAllocator) s.
Proof. intros -> (x & Hx & ->%Z.eqb_eq)%existsb_exists. by apply list_elem_of_In. Qed.

Lemma run_cow_eq : cow_break (E := Z) the_child page m4 = (m5, Ok true).
Proof. unfold m5. refine (run_eq (cow_break (E := Z) the_child page) m4 _ (Ok true) eq_refl _). vm_compute. reflexivity. Qed.

Lemma run_cow : step the_child (Cow page) m4 m5.
Proof.
  refine (conj _ (conj page_low (ex_intro _ true run_cow_eq))). apply (child_in m4 [parent; the_child]); vm_compute; reflexivity.
Qed.

Lemma run_child_store : step the_child (Store page 7) m5 m6.
Proof.
  split; [apply (child_in m5 [parent; the_child]); vm_compute; reflexivity|]. split; [exact page_low|]. exists 270336.
  split; [vm_compute; reflexivity|]. reflexivity.
Qed.

Lemma run_to_m3 : rtc any m0 m3.
Proof.
  eapply rtc_l; [by exists 0, (New parent); exact run_new|]. eapply rtc_l; [exists parent, (Commit page 2 URW true); exact run_commit|].
  eapply rtc_l; [exists parent, (Store page 42); exact run_store|]. apply rtc_refl.
Qed.

Lemma run_to_m4 : rtc any m0 m4.
Proof. eapply rtc_r; [exact run_to_m3|]. exists parent, (Fork data caps.1 caps.2 the_child). exact run_fork. Qed.




(** The parent does not see what the child writes. *)
Lemma address_spaces_isolated_witness : boot m0 /\ rtc any m0 m4 /\ parent ∈ mm_clones m4 /\ rtc (others parent) m4 m6 /\
  load (mm_mem m6) parent page = load (mm_mem m4) parent page.
Proof.
  assert (parent ∈ mm_clones m4) as Hin by (apply (parent_in m4 [parent; the_child]); vm_compute; reflexivity).
  assert (rtc (others parent) m4 m6) as Hrun.
  { eapply rtc_l; [exists the_child, (Cow page); split; [discriminate|exact run_cow]|].
    eapply rtc_l; [exists the_child, (Store page 7); split; [discriminate|exact run_child_store]|]. apply rtc_refl. }
  split; [exact m0_boot|]. split; [exact run_to_m4|]. split; [exact Hin|]. split; [exact Hrun|].
  exact (proj2 (address_spaces_isolated m0 m4 parent m6 m0_boot run_to_m4 Hin Hrun) page page_low).
Defined.

(** The buffer of the two pages of the parent. *)
Lemma range_check_exact_witness : (0 <= page /\ 0 < 8192 /\ page + 8192 <= 2 ^ 63) /\
  exists b, translate_user_range_ok (mm_mem m2) parent page 8192 true = Ok b /\
    (b = true <-> forall a, page <= a < page + 8192 -> user_may (mm_mem m2) parent true a = true).
Proof.
  assert (0 <= page /\ 0 < 8192 /\ page + 8192 <= 2 ^ 63) as H by (unfold page; lia).
  refine (conj H _). destruct H as (H1 & H2 & H3). exact (range_check_exact (mm_mem m2) parent page 8192 true H1 H2 H3).
Defined.

(** They may be written; the page after them is not there. *)
Lemma range_run : translate_user_range_ok (mm_mem m2) parent page 8192 true = Ok true /\
  translate_user_range_ok (mm_mem m2) parent page 8193 true = Ok false.
Proof. split; vm_compute; reflexivity. Qed.
