(* ===== verification/UserMemSafe.v ===== *)
(** * User address spaces: calls of one process do not reach another

    What [brk], [mmap], [munmap], [pkey_protect], [fork] and faults do to the page
    tables are operations of the address space of the caller, within the user half;
    so they leave the regions and the memory of every other process alone. *)

From Stdlib Require Import Sorted.
From stdpp Require Import gmultiset.
From S2P Require Import Prelude Bits State Vmm VmmFacts VmmTree VmmInv VmmKeep VmmMap UserMem VmmRange VmmClone VmmSafe.
Local Open Scope Z_scope.

(** ** Regions *)

Definition in_user (r : Region) : Prop := user_range (vaddr r) (pages r).

Record sane (a : AddressSpace) : Prop := {
  sn_brk : 0 <= brk_floor a <= brk_cur a /\ brk_cur a <= 2 ^ 47;
  sn_align : brk_floor a mod 4096 = 0 /\ brk_cur a mod 4096 = 0;
  sn_regions : Forall in_user (regions a);
  sn_heap : Forall (fun r => kind r = Heap -> vaddr r = brk_floor a) (regions a)
}.

Lemma r_end_range r : in_user r -> 0 <= vaddr r <= r_end r /\ r_end r <= 2 ^ 47 /\ r_end r mod 4096 = 0 /\ vaddr r mod 4096 = 0.
Proof. intros (Hv & Ha & Hp & Hb). unfold r_end, PAGE. split; [lia|]. split; [done|]. split; [|done]. rewrite Z.mod_add by lia. done. Qed.

Lemma page_up_ok x y : 0 <= x <= 2 ^ 47 -> page_align_up x = Some y -> y mod 4096 = 0 /\ x <= y <= 2 ^ 47.
Proof.
  intros Hx. unfold page_align_up, checked_add_u64, PAGE. destruct (_ <=? _); [|done]. intros [= <-]. change (4096 - 1) with 4095.
  rewrite page_floor_eq by lia. pose proof (Z.div_mod (x + 4095) 4096 ltac:(lia)). pose proof (Z.mod_pos_bound (x + 4095) 4096 ltac:(lia)).
  split; [rewrite Z.mul_comm; apply Z.mod_mul; lia|]. split; [lia|]. change (2 ^ 47) with (4096 * 2 ^ 35) in *. lia.
Qed.

(** ** Placement *)

Lemma ceiling_low a : sane a -> user_ceiling a <= 2 ^ 47.
Proof.
  intros [_ _ Hr _]. unfold user_ceiling. destruct (List.find _ (regions a)) as [r|] eqn:E; [|lia]. apply find_some in E as [Hin _].
  rewrite Forall_forall in Hr. destruct (r_end_range r (Hr r (proj2 (list_elem_of_In _ _) Hin))) as (? & ? & _). cbn. unfold PAGE. destruct (guard r); lia.
Qed.

(** The regions that may still be in the way of a search at [cand]. *)
Definition ahead (a : AddressSpace) (cand : Z) : nat := length (List.filter (fun r => cand <? (coll_span r).2) (regions a)).

Lemma filter_less {X} (f g : X -> bool) l x : (forall y, f y = true -> g y = true) -> In x l -> g x = true -> f x = false ->
  (length (List.filter f l) < length (List.filter g l))%nat.
Proof.
  intros Hfg Hin Hg Hf. assert (forall l, length (List.filter f l) <= length (List.filter g l))%nat as Hle.
  { clear -Hfg. induction l as [|y l IH]; [done|]. cbn. destruct (f y) eqn:E; [rewrite (Hfg y E)|destruct (g y)]; cbn; lia. }
  induction l as [|y l IH]; [done|]. destruct Hin as [->|Hin]; cbn.
  - rewrite Hf, Hg. cbn. specialize (Hle l). lia.
  - specialize (IH Hin). destruct (f y) eqn:E; [rewrite (Hfg y E)|destruct (g y)]; cbn; lia.
Qed.

Lemma blocking_ahead a cand len e x y : blocking a cand len = Some e -> checked_add_u64 e PAGE = Some x -> checked_add_u64 cand PAGE = Some y ->
  (ahead a (Z.max x y) < ahead a cand)%nat.
Proof.
  unfold blocking. destruct (List.find _ (regions a)) as [r|] eqn:E; [|done]. intros [= <-] Hx Hy. apply find_some in E as [Hin Hi].
  unfold checked_add_u64, PAGE in *. destruct (_ <=? _); [|done]. destruct (_ <=? _); [|done]. injection Hx as <-. injection Hy as <-.
  unfold range_intersects in Hi. apply andb_true_iff in Hi as [Hi _]. unfold ahead. eapply filter_less; [|exact Hin|exact Hi|apply Z.ltb_ge; cbn; lia]. intros z Hz. apply Z.ltb_lt in Hz. apply Z.ltb_lt. lia.
Qed.

(** One more round than regions is enough. *)
Lemma fit_fuel a len n : forall cand k, (ahead a cand < n)%nat -> fit_loop (n + k) a len cand = fit_loop n a len cand.
Proof.
  induction n as [|n IH]; intros cand k Hn; [lia|]. cbn [fit_loop Nat.add]. destruct (_ <=? _); [done|]. destruct (_ <? _); [done|].
  destruct (blocking a cand len) as [e|] eqn:Eb; [|done]. destruct (checked_add_u64 e PAGE) as [x|] eqn:Ex; [|done].
  destruct (checked_add_u64 cand PAGE) as [y|] eqn:Ey; [|done]. apply IH. pose proof (blocking_ahead a cand len e x y Eb Ex Ey). lia.
Qed.

Lemma blocking_end a cand len e : sane a -> blocking a cand len = Some e -> e mod 4096 = 0.
Proof.
  intros [_ _ Hr _]. unfold blocking. destruct (List.find _ (regions a)) as [r|] eqn:E; [|done]. intros [= <-]. apply find_some in E as [Hin _].
  rewrite Forall_forall in Hr. by destruct (r_end_range r (Hr r (proj2 (list_elem_of_In _ _) Hin))) as (_ & _ & ? & _).
Qed.

Lemma next_page_mod x y : checked_add_u64 x PAGE = Some y -> y = x + 4096 /\ (x mod 4096 = 0 -> y mod 4096 = 0).
Proof.
  unfold checked_add_u64, PAGE. destruct (_ <=? _); [|done]. intros [= <-]. split; [done|]. intros Hx. rewrite <- Z.add_mod_idemp_r, Z.mod_same, Z.add_0_r by lia. done.
Qed.

Lemma fit_loop_ok a len n : sane a -> forall cand v, 0 <= cand -> cand mod 4096 = 0 -> fit_loop n a len cand = Some v ->
  cand <= v /\ v mod 4096 = 0 /\ v + len <= user_ceiling a /\ blocking a v len = None.
Proof.
  intros Ha. induction n as [|n IH]; intros cand v H0 Hc; cbn [fit_loop]; [done|]. destruct (_ <=? _) eqn:E1; [done|]. destruct (_ <? _) eqn:E2; [done|].
  destruct (blocking a cand len) as [e|] eqn:Eb; [|intros [= <-]; split_and!; [lia|done|lia|done]].
  destruct (checked_add_u64 e PAGE) as [x|] eqn:Ex; [|done]. destruct (checked_add_u64 cand PAGE) as [y|] eqn:Ey; [|done].
  destruct (next_page_mod _ _ Ex) as [-> Hx]. destruct (next_page_mod _ _ Ey) as [-> Hy]. specialize (Hx (blocking_end a cand len e Ha Eb)). specialize (Hy Hc).
  intros Hf. destruct (IH (Z.max (e + 4096) (cand + 4096)) v) as (? & ? & ? & ?); [lia| |exact Hf|split_and!; try done; lia].
  destruct (Z.max_spec (e + 4096) (cand + 4096)) as [[_ ->]|[_ ->]]; done.
Qed.

Lemma span_pos c lo len : c <= 2 ^ 47 -> sat_add_u64 lo len < c -> 0 <= c - lo - len.
Proof.
  intros Hc Hs. assert (c <= 140737488355328) as Hc' by exact Hc. clear Hc.
  assert (sat_add_u64 lo len = Z.min (lo + len) 18446744073709551615) as E by reflexivity. rewrite E in Hs. lia.
Qed.

Lemma span_mod c lo len rnd : 0 <= rnd -> c <= 2 ^ 47 -> sat_add_u64 lo len < c -> Z.min ((c - lo - len) / 4096) 16384 <> 0 ->
  0 <= rnd mod Z.min ((c - lo - len) / 4096) 16384.
Proof.
  intros Hr Hc Hs Hn. pose proof (span_pos c lo len Hc Hs) as Hp. clear Hc Hs. apply Z.mod_pos_bound.
  assert (0 <= (c - lo - len) / 4096) by (apply Z.div_pos; lia). lia.
Qed.

Lemma random_start_ok a len rnd v : sane a -> 0 <= rnd -> random_fit_start a len rnd = Some v -> 0 <= v /\ v mod 4096 = 0.
Proof.
  intros Ha Hr. pose proof (ceiling_low a Ha) as Hcl. destruct Ha as [[Hb _] [_ Hal] _ _]. unfold random_fit_start.
  destruct (checked_add_u64 (brk_cur a) PAGE) as [lo|] eqn:El; [|done]. destruct (next_page_mod _ _ El) as [Elo Hlo]. specialize (Hlo Hal).
  destruct (_ <=? _) eqn:E1; [done|]. destruct (_ =? 0) eqn:E0; [done|]. intros [= <-].
  pose proof (span_mod _ lo len rnd Hr Hcl (proj1 (Z.leb_gt _ _) E1) (proj1 (Z.eqb_neq _ _) E0)) as Hm. split; [unfold PAGE, FIT_ASLR_SPAN_PAGES; lia|].
  unfold PAGE. rewrite Z.mod_add by lia. done.
Qed.

(** What [mmap] picks, or takes from the caller. *)
Lemma place_ok a addr len npages rnd v : sane a -> 0 <= addr -> 0 < len -> len = npages * PAGE -> 0 <= rnd -> place a addr len npages rnd = Ok v -> user_range v npages.
Proof.
  intros Ha H0 Hl El Hr. unfold place. pose proof (ceiling_low a Ha) as Hc. unfold PAGE in El. destruct (addr =? 0) eqn:E0.
  - unfold find_fit, find_fit_from. destruct (checked_mul_u64 npages PAGE) as [l|] eqn:Em; [|done].
    assert (forall start, 0 <= start -> start mod 4096 = 0 -> forall v, fit_loop (S (length (regions a))) a (npages * PAGE) start = Some v -> user_range v npages) as Hfit.
    { intros start Hs Hsa x Hx. destruct (fit_loop_ok a _ _ Ha start x Hs Hsa Hx) as (? & ? & ? & _). unfold PAGE in *. split_and!; lia. }
    assert (forall x, match checked_add_u64 (brk_cur a) PAGE with Some s => fit_loop (S (length (regions a))) a (npages * PAGE) s | None => None end = Some x -> user_range x npages) as Hlow.
    { intros x. destruct (checked_add_u64 (brk_cur a) PAGE) as [lo|] eqn:Elo; [|done]. destruct (next_page_mod _ _ Elo) as [-> Hm]. destruct (sn_brk _ Ha) as [? _].
      apply Hfit; [lia|apply Hm, Ha]. }
    destruct (random_fit_start a l rnd) as [st|] eqn:Er.
    + destruct (random_start_ok a l rnd st Ha Hr Er) as [Hs1 Hs2]. destruct (fit_loop _ a _ st) as [x|] eqn:Ef; [intros [= <-]; by apply (Hfit st)|].
      destruct (match checked_add_u64 _ _ with Some _ => _ | None => _ end) as [x|] eqn:Ex; [|done]. intros [= <-]. by apply Hlow.
    + destruct (match checked_add_u64 _ _ with Some _ => _ | None => _ end) as [x|] eqn:Ex; [|done]. intros [= <-]. by apply Hlow.
  - destruct (negb _ || _) eqn:E1; [done|]. destruct (checked_add_u64 addr len) as [e|] eqn:Ee; [|done]. destruct (_ <? e) eqn:E2; [done|].
    destruct (collides a addr len); [done|]. intros [= <-]. unfold checked_add_u64 in Ee. destruct (_ <=? _); [|done]. injection Ee as <-.
    unfold PAGE in *. split_and!; lia.
Qed.

(** ** Regions after a call *)

Lemma regions_sane a l : sane a -> Forall in_user l -> Forall (fun r => kind r = Heap -> vaddr r = brk_floor a) l -> sane (set_regions l a).
Proof. intros [Hb Hal _ _] Hl Hh. by constructor. Qed.

Lemma committed_sane n a : sane a -> sane (set_committed n a).
Proof. intros [? ? ? ?]. by constructor. Qed.

Lemma brk_sane b a l : sane a -> brk_floor a <= b <= 2 ^ 47 -> b mod 4096 = 0 -> Forall in_user l -> Forall (fun r => kind r = Heap -> vaddr r = brk_floor a) l ->
  sane (set_regions l (set_brk b a)).
Proof. intros [[Hb Hb'] [Hf Hal] _ _] Hr Hm Hl Hh. constructor; cbn; try done; lia. Qed.

Lemma heap_span a n l l' : Forall in_user l -> Forall (fun r => kind r = Heap -> vaddr r = brk_floor a) l -> set_heap n l = Some l' -> user_range (brk_floor a) n ->
  Forall in_user l' /\ Forall (fun r => kind r = Heap -> vaddr r = brk_floor a) l'.
Proof.
  intros Hl Hh Es Hn. revert l' Es. induction l as [|r l IH]; intros l'; cbn [set_heap]; [done|]. apply Forall_cons in Hl as [Hr Hl]. apply Forall_cons in Hh as [Hk Hh].
  destruct (bool_decide_reflect (kind r = Heap)) as [Ek|].
  - intros [= <-]. split; apply Forall_cons; (split; [|done]); unfold in_user; cbn; [by rewrite (Hk Ek)|by rewrite (Hk Ek)].
  - destruct (set_heap n l) as [x|]; [|done]. intros [= <-]. destruct (IH Hl Hh x eq_refl) as [? ?]. split; by apply Forall_cons.
Qed.

Lemma span_pages lo hi : 0 <= lo <= hi -> hi <= 2 ^ 47 -> lo mod 4096 = 0 -> hi mod 4096 = 0 ->
  user_range lo ((hi - lo) / PAGE) /\ lo + (hi - lo) / PAGE * 4096 = hi.
Proof.
  intros Hl Hh Hlm Hhm. unfold PAGE. assert ((hi - lo) mod 4096 = 0) as Hm by (rewrite Zminus_mod, Hhm, Hlm; done).
  pose proof (Z.div_mod (hi - lo) 4096 ltac:(lia)). assert (0 <= (hi - lo) / 4096) by (apply Z.div_pos; lia). split; [split_and!|]; (done || lia).
Qed.

Lemma grown_sane a b : sane a -> brk_floor a <= b <= 2 ^ 47 -> b mod 4096 = 0 -> Forall in_user (grown a b) /\ Forall (fun r => kind r = Heap -> vaddr r = brk_floor a) (grown a b).
Proof.
  intros Ha Hb Hm. destruct (sn_brk _ Ha) as [[? ?] ?]. destruct (sn_align _ Ha) as [? ?]. destruct (span_pages (brk_floor a) b) as [Hs _]; [lia|lia|done|done|].
  unfold grown. destruct (set_heap _ (regions a)) as [l|] eqn:E; [eapply heap_span; [apply Ha|apply Ha|exact E|exact Hs]|].
  split; apply Forall_app; (split; [apply Ha|]); by apply Forall_singleton.
Qed.

Lemma shrunk_sane a b : sane a -> brk_floor a <= b <= 2 ^ 47 -> b mod 4096 = 0 -> Forall in_user (shrunk a b) /\ Forall (fun r => kind r = Heap -> vaddr r = brk_floor a) (shrunk a b).
Proof.
  intros Ha Hb Hm. destruct (sn_brk _ Ha) as [[? ?] ?]. destruct (sn_align _ Ha) as [? ?]. destruct (span_pages (brk_floor a) b) as [Hs _]; [lia|lia|done|done|].
  unfold shrunk. destruct (_ =? 0).
  - assert (forall (P : Region -> Prop) f l, Forall P l -> Forall P (List.filter f l)) as Hfl.
    { intros P f l HP. rewrite Forall_forall in *. intros x Hx. apply HP. apply list_elem_of_In in Hx. apply list_elem_of_In. by apply filter_In in Hx as [? _]. }
    split; apply Hfl, Ha.
  - destruct (set_heap _ (regions a)) as [l|] eqn:E; cbn [default]; [eapply heap_span; [apply Ha|apply Ha|exact E|exact Hs]|]. split; apply Ha.
Qed.

(** What is left of the regions in the way of [munmap]. *)
Lemma carve_user addr end_ r : in_user r -> addr mod 4096 = 0 -> end_ mod 4096 = 0 -> 0 <= addr < end_ -> overlaps addr end_ r = true -> kind r = Anon ->
  Forall in_user (carve addr end_ r) /\ Forall (fun r => kind r = Anon) (carve addr end_ r).
Proof.
  intros Hr Ha He Hae Ho Hk. destruct (r_end_range r Hr) as ((Hv & Hv') & Hb & Hre & Hva). unfold overlaps in Ho.
  assert (Z.max (vaddr r) addr mod 4096 = 0) as Hs by (destruct (Z.max_spec (vaddr r) addr) as [[_ ->]|[_ ->]]; done).
  assert (Z.min (r_end r) end_ mod 4096 = 0) as Hm by (destruct (Z.min_spec (r_end r) end_) as [[_ ->]|[_ ->]]; done).
  destruct (span_pages (Z.min (r_end r) end_) (r_end r)) as [Hhi _]; [lia|lia|done|done|].
  destruct (span_pages (vaddr r) (Z.max (vaddr r) addr)) as [Hlo _]; [lia|lia|done|done|].
  unfold carve. destruct (_ && _); [done|]. destruct (_ =? _); [|destruct (_ =? _)]; split; repeat apply Forall_cons_2; (apply Forall_nil_2 || done).
Qed.

Lemma hits_spec addr end_ l : forall k hits, hits_from k addr end_ l = Some hits ->
  StronglySorted lt hits /\ Forall (fun i => (k <= i < k + length l)%nat /\ overlaps addr end_ (region_at l (i - k)) = true /\ kind (region_at l (i - k)) = Anon) hits.
Proof.
  induction l as [|r l IH]; intros k hits; cbn [hits_from]; [intros [= <-]; split; constructor|].
  assert (forall hits, StronglySorted lt hits /\ Forall (fun i => (Datatypes.S k <= i < Datatypes.S k + length l)%nat /\ overlaps addr end_ (region_at l (i - Datatypes.S k)) = true /\
    kind (region_at l (i - Datatypes.S k)) = Anon) hits -> Forall (fun i => (k < i)%nat /\ (k <= i < k + length (r :: l))%nat /\
    overlaps addr end_ (region_at (r :: l) (i - k)) = true /\ kind (region_at (r :: l) (i - k)) = Anon) hits) as Hlift.
  { intros h [_ Hh]. eapply Forall_impl; [exact Hh|]. intros i (Hi & Hov & Hki). replace (i - k)%nat with (Datatypes.S (i - Datatypes.S k)) by lia. cbn [length] in *. split; [lia|]. split; [lia|]. done. }
  destruct (overlaps addr end_ r) eqn:Eo; cbn [negb].
  - destruct (bool_decide_reflect (kind r = Anon)) as [Ek|]; cbn [negb]; [|done]. destruct (hits_from (Datatypes.S k) addr end_ l) as [h|] eqn:Eh; [|done]. intros [= <-].
    pose proof (IH _ _ Eh) as Hh. specialize (Hlift h Hh). destruct Hh as [Hso _]. split.
    + constructor; [done|]. eapply Forall_impl; [exact Hlift|]. by intros i [? _].
    + constructor; [rewrite Nat.sub_diag; cbn; split; [lia|done]|]. eapply Forall_impl; [exact Hlift|]. by intros i [_ ?].
  - intros Eh. pose proof (IH _ _ Eh) as Hh. specialize (Hlift hits Hh). destruct Hh as [Hso _]. split; [done|]. eapply Forall_impl; [exact Hlift|]. by intros i [_ ?].
Qed.

Lemma carve_at_user (P : Region -> Prop) addr end_ l i : Forall P l -> Forall P (carve addr end_ (region_at l i)) -> Forall P (carve_at addr end_ l i).
Proof. intros Hl Hc. unfold carve_at. apply Forall_app. split; [by apply Forall_take|]. apply Forall_app. split; [done|by apply Forall_drop]. Qed.

Lemma region_at_take l l' i n : take n l = take n l' -> (i < n)%nat -> region_at l i = region_at l' i.
Proof. intros E Hi. unfold region_at. rewrite !nth_lookup. f_equal. rewrite <- (lookup_take_lt l n i Hi), <- (lookup_take_lt l' n i Hi). by rewrite E. Qed.

(** From the last index to the first: the regions below are where they were. *)
Lemma carve_fold_user (P : Region -> Prop) addr end_ l0 hits : StronglySorted lt hits -> Forall (fun i => (i < length l0)%nat /\ Forall P (carve addr end_ (region_at l0 i))) hits ->
  Forall P l0 -> Forall P (fold_left (carve_at addr end_) (List.rev hits) l0).
Proof.
  intros Hs Hh Hl. rewrite <- fold_left_rev_right, rev_involutive.
  enough (Forall P (foldr (fun i l => carve_at addr end_ l i) l0 hits) /\ forall n, Forall (fun i => n <= i)%nat hits -> take n (foldr (fun i l => carve_at addr end_ l i) l0 hits) = take n l0) as [? _] by done.
  induction hits as [|i hits IH]; [done|]. apply StronglySorted_inv in Hs as [Hs Hlt]. apply Forall_cons in Hh as [[Hi Hc] Hh]. destruct (IH Hs Hh) as [HF Ht]. cbn [foldr].
  set (L := foldr _ l0 hits) in *. assert (take (Datatypes.S i) L = take (Datatypes.S i) l0) as Ei by (apply Ht; eapply Forall_impl; [exact Hlt|]; cbn; lia).
  assert (i < length L)%nat as HL by (apply (f_equal length) in Ei; rewrite !length_take in Ei; lia). split.
  - apply carve_at_user; [done|]. by rewrite (region_at_take _ l0 i (Datatypes.S i) Ei) by lia.
  - intros n Hn. apply Forall_cons in Hn as [Hni Hn]. unfold carve_at. rewrite take_app_le by (rewrite length_take; lia). rewrite take_take, Nat.min_l by lia. by apply Ht.
Qed.

(** ** Calls and the operations they are made of *)

Section Calls.
Context `{Profile} {A : Type} `{FrameLaws A}.
Notation S := (Mm A).
Notation U := (Um (A := A)).
Implicit Types (u : U) (s : S).

Definition own_step (w : Z) s s' : Prop := exists o, (forall k, o <> Exit k) /\ step w o s s'.

Definition live (w : Z) s : Prop := w ∈ mm_clones s /\ exists own, alive s own.

Lemma live_step w s s' : live w s -> own_step w s s' -> live w s'.
Proof.
  intros [Hw (own & Ha)] (o & Hne & Hst). destruct (step_fits w o s own s' Ha Hst) as (Ha' & Hl & _). split; [|done].
  destruct o; cbn in Hl; try (by apply Hl); try (by apply Hl; left). by destruct (Hne kernel_root).
Qed.

(** A call of [vm], whose root is [w]. *)
Record acts (vm : nat) (w : Z) u u' : Prop := {
  ac_run : rtc (own_step w) (us_mm u) (us_mm u');
  ac_live : live w (us_mm u');
  ac_free : us_free u' = us_free u;
  ac_slots i : i <> vm -> us_slots u' !! i = us_slots u !! i;
  ac_self : exists a', space vm u' = Some a' /\ as_root a' = w /\ sane a'
}.

Lemma acts_refl vm a u : space vm u = Some a -> sane a -> live (as_root a) (us_mm u) -> acts vm (as_root a) u u.
Proof. intros Hs Ha Hl. constructor; try done. by exists a. Qed.

Lemma acts_step vm w u u1 s' : acts vm w u u1 -> own_step w (us_mm u1) s' -> acts vm w u (mkUm s' (us_slots u1) (us_free u1)).
Proof.
  intros [Hr Hl Hf Hs Ha] Hst. constructor; [by eapply rtc_r|by eapply live_step|done|done|done].
Qed.

Lemma space_put vm a u i : space vm u <> None -> space i (mkUm (us_mm u) (<[vm := Some a]> (us_slots u)) (us_free u)) = if decide (i = vm) then Some a else space i u.
Proof.
  intros Hn. unfold space in *. cbn [us_slots]. destruct (decide (i = vm)) as [->|Hne]; [|by rewrite list_lookup_insert_ne by congruence].
  destruct (us_slots u !! vm) as [o|] eqn:E; [|done]. by rewrite list_lookup_insert_eq by (by eapply lookup_lt_Some).
Qed.

Lemma acts_put vm w u u1 a' : acts vm w u u1 -> as_root a' = w -> sane a' -> acts vm w u (mkUm (us_mm u1) (<[vm := Some a']> (us_slots u1)) (us_free u1)).
Proof.
  intros [Hr Hl Hf Hs (a & Ea & _)] Hw Ha. constructor; [done|done|done| |].
  - intros i Hi. cbn [us_slots]. rewrite list_lookup_insert_ne by congruence. by apply Hs.
  - exists a'. rewrite space_put by congruence. by rewrite decide_True.
Qed.

Lemma wpp_on_mm {E X} (m : st E S X) (Q : X -> U -> Prop) (R : E -> U -> Prop) u :
  (forall x s', m (us_mm u) = (s', Ok x) -> Q x (mkUm s' (us_slots u) (us_free u))) ->
  (forall e s', m (us_mm u) = (s', Err e) -> R e (mkUm s' (us_slots u) (us_free u))) -> wpp (on_mm m) Q R u.
Proof. intros HQ HR. unfold wpp, on_mm. destruct (m (us_mm u)) as [s' [x|e|]] eqn:E0; [by apply HQ|by apply HR|done]. Qed.

Lemma wpp_put {E} vm a (Q : unit -> U -> Prop) (R : E -> U -> Prop) u : Q tt (mkUm (us_mm u) (<[vm := Some a]> (us_slots u)) (us_free u)) -> wpp (put_space vm a) Q R u.
Proof. done. Qed.

Lemma wpp_get_space vm (Q : AddressSpace -> U -> Prop) (R : Z -> U -> Prop) u a : space vm u = Some a -> Q a u -> wpp (get_space vm) Q R u.
Proof. intros Hs HQ. unfold wpp, get_space. by rewrite Hs. Qed.

(** Pages committed or released by the caller. *)
Lemma wpp_commit_call vm w u u1 va n fl (Q : unit -> U -> Prop) (R : Z -> U -> Prop) : acts vm w u u1 -> live w (us_mm u1) -> user_range va n ->
  (forall u2, acts vm w u u2 -> us_slots u2 = us_slots u1 -> Q tt u2) -> (forall u2, acts vm w u u2 -> R ENOMEM u2) -> wpp (commit w va n fl) Q R u1.
Proof.
  intros Hac [Hw _] Hr HQ HR. unfold commit. apply wpp_catch, wpp_on_mm.
  - intros [] s' E0. apply wpp_ret, HQ; [|done]. apply (acts_step vm w u u1 s' Hac). by exists (Commit va n fl true).
  - intros [] s' E0. apply wpp_err, HR. apply (acts_step vm w u u1 s' Hac). by exists (Commit va n fl false).
Qed.

Lemma wpp_release_step w va n s : live w s -> user_range va n ->
  wpp (release_pages (E := Z) w va n) (fun _ s' => own_step w s s') (fun _ _ => False) s.
Proof.
  intros [Hw (own & Ha)] Hr. unfold wpp. destruct (release_pages (E := Z) w va n s) as [s' [k|e|]] eqn:E0; [| |done].
  - exists (Release va n). split; [done|]. split; [done|]. split; [done|by exists k].
  - destruct Hr as (? & ? & ? & ?). assert (wpp (release_pages (E := Z) w va n) (fun _ _ => True) (fun _ _ => False) s) as Hwp.
    { apply (wpp_release _ own ∅); try done; [apply (al_inv _ _ Ha)|by apply (al_roots _ _ Ha)]. }
    exact (wpp_run _ _ _ _ _ _ Hwp E0).
Qed.

Lemma wpp_release_call vm w u u1 va n (Q : Z -> U -> Prop) (R : Z -> U -> Prop) : acts vm w u u1 -> user_range va n ->
  (forall k u2, acts vm w u u2 -> us_slots u2 = us_slots u1 -> Q k u2) -> wpp (on_mm (release_pages w va n)) Q R u1.
Proof.
  intros Hac Hr HQ. pose proof (wpp_release_step w va n (us_mm u1) (ac_live _ _ _ _ Hac) Hr) as Hw. apply wpp_on_mm; intros x s' E0; pose proof (wpp_run _ _ _ _ _ _ Hw E0) as Hst; [|done].
  apply HQ; [|done]. by apply acts_step.
Qed.

Definition call_ok {X} (vm : nat) (m : st Z U X) : Prop := forall u a, space vm u = Some a -> sane a -> live (as_root a) (us_mm u) ->
  wpp m (fun _ u' => acts vm (as_root a) u u') (fun _ u' => acts vm (as_root a) u u') u.

Lemma brk_ok vm new_break : 0 <= new_break <= 2 ^ 47 -> call_ok vm (brk vm new_break).
Proof.
  intros Hnb u a Hs Ha Hl. pose proof (acts_refl vm a u Hs Ha Hl) as H0'. unfold brk. apply wpp_bind, (wpp_get_space vm _ _ u a Hs).
  destruct (new_break =? 0); [exact H0'|]. destruct (page_align_up new_break) as [new|] eqn:Ep; [|exact H0']. destruct (page_up_ok _ _ Hnb Ep) as [Hm [_ Hn]].
  destruct (new <? brk_floor a) eqn:E1; [exact H0'|]. destruct (new =? brk_cur a) eqn:E2; [exact H0'|]. destruct (sn_brk _ Ha) as [[? ?] ?]. destruct (sn_align _ Ha) as [Hf Hc].
  destruct (brk_cur a <? new) eqn:E3.
  - destruct (growth_boundary a (brk_cur a) <? new); [exact H0'|]. apply wpp_bind, wpp_get. destruct (sat_sub_u64 _ _ <? _); [exact H0'|]. destruct (span_pages (brk_cur a) new) as [Hr Ee]; [lia|lia|done|done|].
    destruct (grown_sane a new Ha) as [Hg1 Hg2]; [lia|done|]. apply wpp_bind, (wpp_commit_call vm (as_root a) u u); [done|done|done| |done].
    intros u2 Hac Es2. apply wpp_bind, wpp_put, wpp_ret, acts_put; [done|done|]. by apply (brk_sane new (set_committed _ a)); [apply committed_sane|cbn; lia|..].
  - unfold debug_assert. apply wpp_bind. destruct (debug_profile && _); [done|]. unfold wpp at 1, st_res.
    apply wpp_bind, wpp_res; [|done]. intros c _. destruct (shrunk_sane a new Ha) as [Hg1 Hg2]; [lia|done|].
    apply wpp_bind, wpp_put. assert (acts vm (as_root a) u (mkUm (us_mm u) (<[vm := Some (set_regions (shrunk a new) (set_committed c (set_brk new a)))]> (us_slots u)) (us_free u))) as Hac.
    { apply acts_put; [done|done|]. by apply (brk_sane new (set_committed c a)); [apply committed_sane|cbn; lia|..]. }
    destruct (span_pages new (brk_cur a)) as [Hr Ee]; [lia|lia|done|done|].
    apply wpp_bind, (wpp_release_call vm (as_root a) u); [done|done|]. intros k u2 Hac2 _. by apply wpp_ret.
Qed.

Lemma mmap_ok vm addr len prot rnd : 0 <= addr -> 0 <= len -> 0 <= rnd -> call_ok vm (mmap vm addr len prot rnd).
Proof.
  intros Hadr Hlen Hrnd u a Hs Ha Hl. pose proof (acts_refl vm a u Hs Ha Hl) as H0'. unfold mmap. apply wpp_bind, (wpp_get_space vm _ _ u a Hs).
  destruct ((len =? 0) || negb (len mod PAGE =? 0)) eqn:E1; [exact H0'|]. apply wpp_bind, wpp_res; [|by intros e _]. intros fl _.
  destruct (has prot 8 && negb (fl_contains fl WRITE)); [exact H0'|]. apply wpp_bind, wpp_res; [|by intros e _]. intros va Hp.
  assert (len = len / PAGE * PAGE) as El by (unfold PAGE in *; pose proof (Z.div_mod len 4096 ltac:(lia)); lia).
  pose proof (place_ok a addr len (len / PAGE) rnd va Ha Hadr ltac:(lia) El Hrnd Hp) as Hr. apply wpp_bind.
  assert (forall c u2, acts vm (as_root a) u u2 ->
    wpp (E := Z) (let* _ := put_space vm (set_regions (regions a ++ [mkRegion Anon va (len / PAGE) fl true (has prot 8) 0]) (set_committed c a)) in st_ret va)
      (fun _ u' => acts vm (as_root a) u u') (fun _ u' => acts vm (as_root a) u u') u2) as Hrest.
  { intros c u2 Hac. apply wpp_bind, wpp_put, wpp_ret, acts_put; [done|done|]. apply regions_sane; [by apply committed_sane| |]; apply Forall_app; (split; [apply Ha|]); by apply Forall_singleton. }
  destruct (has prot 8); [by apply wpp_ret, Hrest|]. apply wpp_bind, wpp_get. destruct (sat_sub_u64 _ _ <? _); [exact H0'|].
  apply wpp_bind, (wpp_commit_call vm (as_root a) u u); [done|done|done| |done]. intros u2 Hac _. by apply wpp_ret, Hrest.
Qed.

Lemma release_all w (f : nat -> Z * Z) l s : live w s -> Forall (fun i => user_range (f i).1 (f i).2) l -> forall n,
  wpp (st_fold (fun n i => let '(v, np) := f i in let* k := release_pages (E := Z) w v np in st_ret (n + k)) l n)
    (fun _ s' => rtc (own_step w) s s' /\ live w s') (fun _ _ => False) s.
Proof.
  revert s. induction l as [|i l IH]; intros s Hl HF n; cbn [st_fold]; [apply wpp_ret; split; [apply rtc_refl|done]|].
  apply Forall_cons in HF as [Hi HF]. destruct (f i) as [v np]. cbn [fst snd] in Hi.
  apply wpp_bind, wpp_bind. eapply wpp_mono; [by apply wpp_release_step| |done]. intros k s1 Hst. apply wpp_ret.
  eapply wpp_mono; [apply (IH s1); [by eapply live_step|done]| |done]. intros ? s2 [Hr Hl2]. split; [exact (rtc_l _ _ _ _ Hst Hr)|done].
Qed.

Lemma acts_run vm w u u1 s' : acts vm w u u1 -> rtc (own_step w) (us_mm u1) s' -> live w s' -> acts vm w u (mkUm s' (us_slots u1) (us_free u1)).
Proof. intros [Hr Hl Hf Hs Ha] Hrun Hl'. constructor; [by etrans|done|done|done|done]. Qed.

Lemma overlap_span addr end_ r : in_user r -> addr mod 4096 = 0 -> end_ mod 4096 = 0 -> 0 <= addr < end_ -> overlaps addr end_ r = true ->
  user_range (unmap_span addr end_ r).1 (unmap_span addr end_ r).2.
Proof.
  intros Hr Ha He Hae Ho. destruct (r_end_range r Hr) as ((Hv & Hv') & Hb & Hre & Hva). unfold overlaps in Ho.
  assert (Z.max (vaddr r) addr mod 4096 = 0) as Hs by (destruct (Z.max_spec (vaddr r) addr) as [[_ ->]|[_ ->]]; done).
  assert (Z.min (r_end r) end_ mod 4096 = 0) as Hm by (destruct (Z.min_spec (r_end r) end_) as [[_ ->]|[_ ->]]; done).
  apply span_pages; [lia|lia|done|done].
Qed.

Lemma region_in l i : (i < length l)%nat -> region_at l i ∈ l.
Proof. intros Hi. unfold region_at. apply list_elem_of_In, nth_In, Hi. Qed.

Lemma munmap_ok vm addr len : 0 <= addr -> 0 <= len -> call_ok vm (munmap vm addr len).
Proof.
  intros Hadr Hlen u a Hs Ha Hl. pose proof (acts_refl vm a u Hs Ha Hl) as H0'. unfold munmap.
  destruct ((len =? 0) || negb (len mod PAGE =? 0) || negb (addr mod PAGE =? 0)) eqn:E1; [exact H0'|].
  destruct (checked_add_u64 addr len) as [end_|] eqn:Ee; [|exact H0']. unfold checked_add_u64 in Ee. destruct (addr + len <=? u64_max); [|done]. injection Ee as <-.
  destruct (addr + len <=? addr) eqn:E2; [exact H0'|]. apply wpp_bind, (wpp_get_space vm _ _ u a Hs).
  assert (addr mod 4096 = 0 /\ (addr + len) mod 4096 = 0) as [Hm1 Hm2].
  { unfold PAGE in E1. split; [lia|]. rewrite Z.add_mod by lia. replace (addr mod 4096) with 0 by lia. replace (len mod 4096) with 0 by lia. done. }
  destruct (hits_from 0 addr (addr + len) (regions a)) as [hits|] eqn:Eh; [|exact H0']. destruct (hits_spec _ _ _ _ _ Eh) as [Hso Hh].
  assert (Forall (fun i => (i < length (regions a))%nat /\ in_user (region_at (regions a) i) /\ overlaps addr (addr + len) (region_at (regions a) i) = true /\
    kind (region_at (regions a) i) = Anon) hits) as Hhit.
  { eapply Forall_impl; [exact Hh|]. intros i (Hi & Ho & Hk). rewrite Nat.sub_0_r in Ho, Hk. cbn in Hi. split; [lia|]. split; [|done].
    pose proof (sn_regions _ Ha) as Hr. rewrite Forall_forall in Hr. apply Hr, region_in. lia. }
  destruct hits as [|h hits']; [exact H0'|]. set (hits := h :: hits') in *. destruct (covered _ _ _ _ _); cbn [negb]; [|exact H0'].
  apply wpp_bind, wpp_put. set (u1 := mkUm _ _ _).
  assert (acts vm (as_root a) u u1) as Hac.
  { apply acts_put; [done|done|]. apply regions_sane; [done| |]; (apply carve_fold_user; [done| |apply Ha]); eapply Forall_impl; try exact Hhit; intros i (Hi & Hu & Ho & Hk);
      (split; [done|]); destruct (carve_user addr (addr + len) _ Hu Hm1 Hm2 ltac:(lia) Ho Hk) as [Hc1 Hc2]; [done|]. eapply Forall_impl; [exact Hc2|]. intros r Hra Hrh. congruence. }
  assert (wpp (on_mm (st_fold (fun n i => let '(v, np) := unmap_span addr (addr + len) (region_at (regions a) i) in
    let* k := release_pages (E := Z) (as_root a) v np in st_ret (n + k)) (List.rev hits) 0)) (fun _ u' => acts vm (as_root a) u u') (fun _ _ => False) u1) as Hrel.
  { unfold wpp, on_mm. pose proof (release_all (as_root a) (fun i => unmap_span addr (addr + len) (region_at (regions a) i)) (List.rev hits) (us_mm u1) (ac_live _ _ _ _ Hac)) as Hw.
    specialize (Hw ltac:(apply Forall_rev; eapply Forall_impl; [exact Hhit|]; intros i (_ & Hu & Ho & _); by apply overlap_span; [..|lia|]) 0). unfold wpp in Hw.
    destruct (st_fold _ _ _ (us_mm u1)) as [s' [k|e|]]; [|done|done]. destruct Hw as [Hr' Hl']. by apply (acts_run vm (as_root a) u u1). }
  apply wpp_bind. eapply wpp_mono; [exact Hrel| |done]. intros freed u2 Hac2. apply wpp_bind, wpp_get.
  destruct (ac_self _ _ _ _ Hac2) as (a2 & Es2 & Er2 & Hs2). rewrite Es2. apply wpp_bind. unfold debug_assert. destruct (debug_profile && _); [done|].
  unfold wpp at 1, st_res. apply wpp_put, acts_put; [done|done|by apply committed_sane].
Qed.

Lemma set_pkey_at_sane addr len key l r l' (P : Region -> Prop) : set_pkey_at addr len key l = Some (r, l') -> (forall r, P r -> P (set_key key r)) ->
  Forall P l -> Forall P l' /\ r ∈ l /\ vaddr r = addr /\ pages r * PAGE = len.
Proof.
  intros E HP. revert r l' E. induction l as [|x l IH]; intros r l'; cbn [set_pkey_at]; [done|]. intros E [Hx Hl]%Forall_cons.
  destruct ((vaddr x =? addr) && (pages x * PAGE =? len)) eqn:Em.
  - injection E as <- <-. split; [apply Forall_cons_2; auto|]. split; [by left|]. lia.
  - destruct (set_pkey_at addr len key l) as [[y l1]|]; [|done]. injection E as <- <-.
    destruct (IH y l1 eq_refl Hl) as (? & ? & ?). split; [by apply Forall_cons_2|]. split; [by right|done].
Qed.

Lemma wpp_key_call vm w u u1 va n key (Q : Z -> U -> Prop) (R : Z -> U -> Prop) : acts vm w u u1 -> user_range va n ->
  (forall k u2, acts vm w u u2 -> us_slots u2 = us_slots u1 -> Q k u2) -> wpp (on_mm (user_leaf_set_pkey_range w va n key)) Q R u1.
Proof.
  intros Hac Hr HQ. destruct (ac_live _ _ _ _ Hac) as [Hw (own & Ha)]. destruct (Hr) as (Hva & _ & _ & Hb).
  pose proof (wpp_tame_range (E := Z) (us_mm u1) own ∅ w va n _ (fun _ _ => False) (al_inv _ _ Ha) (al_roots _ _ Ha w Hw) Hva Hb (set_pkey_tame key)) as Hwp.
  apply wpp_on_mm; intros x s' E0; [|case (wpp_run _ _ _ _ _ _ Hwp E0)].
  apply HQ; [|done]. apply acts_step; [done|]. exists (Key va n key). split; [done|]. split; [done|]. split; [done|by exists x].
Qed.

Lemma pkey_ok vm addr len key : 0 <= len -> call_ok vm (pkey_protect vm addr len key).
Proof.
  intros Hlen u a Hs Ha Hl. pose proof (acts_refl vm a u Hs Ha Hl) as H0'. unfold pkey_protect.
  destruct ((len =? 0) || negb (len mod PAGE =? 0) || negb (addr mod PAGE =? 0)) eqn:E1; [exact H0'|]. apply wpp_bind, (wpp_get_space vm _ _ u a Hs).
  destruct (set_pkey_at addr len key (regions a)) as [[r l]|] eqn:Ep; [|exact H0']. destruct (negb (bool_decide (kind r = Anon) || _)); [exact H0'|].
  destruct (set_pkey_at_sane addr len key _ r l in_user Ep ltac:(done) (sn_regions _ Ha)) as (Hu & Hin & Hv & Hp).
  destruct (set_pkey_at_sane addr len key _ r l (fun r => kind r = Heap -> vaddr r = brk_floor a) Ep ltac:(done) (sn_heap _ Ha)) as (Hh & _).
  apply wpp_bind, wpp_put, wpp_bind, (wpp_key_call vm (as_root a) u); [apply acts_put; [done|done|by apply regions_sane]| |].
  - pose proof (sn_regions _ Ha) as Hr. rewrite Forall_forall in Hr. specialize (Hr r Hin). unfold in_user in Hr. rewrite Hv in Hr.
    replace (len / PAGE) with (pages r); [done|]. rewrite <- Hp. unfold PAGE. by rewrite Z.div_mul.
  - intros k u2 Hac _. by apply wpp_ret.
Qed.

(** The page of an address. *)
Lemma fault_page cr2 : low_va cr2 -> user_range (Z.land cr2 (lnot64 4095)) 1 /\ low_va (Z.land cr2 (lnot64 4095)).
Proof.
  intros [H0' H1']. rewrite page_floor_eq by lia. pose proof (Z.div_mod cr2 4096 ltac:(lia)). pose proof (Z.mod_pos_bound cr2 4096 ltac:(lia)).
  assert (4096 * (cr2 / 4096) + 4096 <= 2 ^ 47) by (change (2 ^ 47) with (4096 * 2 ^ 35) in *; lia).
  split; [split_and!; [lia|rewrite Z.mul_comm; apply Z.mod_mul; lia|lia|lia]|split; lia].
Qed.

Lemma fault_ok vm cr2 err : low_va cr2 -> call_ok vm (resolve_user_fault (Some vm) cr2 err).
Proof.
  intros Hva u a Hs Ha Hl. pose proof (acts_refl vm a u Hs Ha Hl) as H0'. destruct (fault_page cr2 Hva) as [Hr Hlow]. destruct Hl as [Hw (own & Hal)].
  unfold resolve_user_fault. destruct (f_malformed err); [exact H0'|]. destruct (f_protection err); cbn [negb].
  - destruct (f_write err); cbn [negb]; [|exact H0']. unfold cow_resolve. apply wpp_bind, wpp_get. unfold cow_context. rewrite Hs.
    destruct (region_of a cr2) as [r|]; [|exact H0']. destruct (fl_contains (flags r) WRITE); cbn [negb]; [|exact H0'].
    pose proof (wpp_cow_break (E := Z) (us_mm u) own ∅ (as_root a) cr2 (fun _ _ => False) (al_inv _ _ Hal) (al_roots _ _ Hal _ Hw) Hva) as Hwp.
    apply wpp_on_mm; intros b s' E0; [|by pose proof (wpp_run _ _ _ _ _ _ Hwp E0)]. apply (acts_step vm _ u u s' H0'). exists (Cow cr2). split; [done|].
    split; [done|]. split; [done|by exists b].
  - unfold demand_fill. apply wpp_bind, wpp_get. rewrite Hs. set (va := Z.land cr2 (lnot64 4095)) in *. destruct (region_of a va) as [r|]; [|exact H0'].
    destruct (bool_decide (kind r = Image)); [exact H0'|]. destruct (fl_contains (flags r) WRITE); cbn [negb]; [|exact H0']. apply wpp_bind, wpp_get.
    destruct (_ <? committed a + 1); [exact H0'|]. apply wpp_bind, wpp_on_mm.
    + intros b s' E0. assert (acts vm (as_root a) u (mkUm s' (us_slots u) (us_free u))) as Hac.
      { apply (acts_step vm _ u u s' H0'). exists (Fill va (flags r) b). done. }
      destruct b; cbn [negb]; [|exact Hac]. apply wpp_bind. destruct (pkey r =? 0); [|apply (wpp_key_call vm (as_root a) u); [done|done|intros k u2 Hac2 _]];
        [apply wpp_ret|]; (apply wpp_bind, wpp_put, wpp_ret, acts_put; [done|done|by apply committed_sane]).
    + intros e s' E0. case (wpp_run _ _ _ _ _ _ (wpp_fill (as_root a) va (flags r) (us_mm u) own Hal Hw Hlow) E0).
Qed.

(** ** Processes *)

(** The table of address spaces, over memory with the invariant. *)
Record good u : Prop := {
  gd_alive : exists own, alive (us_mm u) own;
  gd_space i a : space i u = Some a -> sane a /\ as_root a ∈ mm_clones (us_mm u);
  gd_apart i j a b : space i u = Some a -> space j u = Some b -> as_root a = as_root b -> i = j;
  gd_free : NoDup (us_free u) /\ forall i, i ∈ us_free u -> us_slots u !! i = Some None
}.

Inductive Call :=
| Brk (new_break : Z)
| Mmap (addr len prot rnd : Z)
| Munmap (addr len : Z)
| Pkey (addr len key : Z)
| Fault (cr2 : Z) (err : FaultCode).

(** A call of process [vm] that comes back, with a result or an error. *)
Definition returns {X} (m : st Z U X) u u' : Prop := exists r, m u = (u', r) /\ r <> Panic.

Definition calls (vm : nat) (c : Call) u u' : Prop :=
  match c with
  | Brk n => 0 <= n <= 2 ^ 47 /\ returns (brk vm n) u u'
  | Mmap addr len prot rnd => 0 <= addr /\ 0 <= len /\ 0 <= rnd /\ returns (mmap vm addr len prot rnd) u u'
  | Munmap addr len => 0 <= addr /\ 0 <= len /\ returns (munmap vm addr len) u u'
  | Pkey addr len key => 0 <= len /\ returns (pkey_protect vm addr len key) u u'
  | Fault cr2 err => low_va cr2 /\ returns (resolve_user_fault (Some vm) cr2 err) u u'
  end.

Inductive process (vm : nat) u u' : Prop :=
| pr_call c : calls vm c u u' -> process vm u u'
| pr_store a va v s' : space vm u = Some a -> step (as_root a) (Store va v) (us_mm u) s' -> u' = mkUm s' (us_slots u) (us_free u) -> process vm u u'
| pr_fork a k lo hi idx c : space vm u = Some a -> hi <= 2 ^ 47 -> all_in (writable_regions a) (us_mm u) (as_root a) ->
    fork_as k vm (Some (lo, hi)) u = (u', Ok (idx, c)) -> process vm u u'
| pr_exit k : vm <> 0%nat -> (2 <= length (mm_clones (us_mm u)))%nat -> exit_space k vm u = (u', Ok tt) -> process vm u u'.

Lemma good_live u vm a : good u -> space vm u = Some a -> sane a /\ live (as_root a) (us_mm u).
Proof.
  intros Hg Hs. destruct (gd_space _ Hg vm a Hs) as [Ha Hr]. split; [done|]. split; [done|]. apply (gd_alive _ Hg).
Qed.

(** What every other process still has. *)
Definition spared (vm : nat) u u' : Prop := good u' /\ forall i a, i <> vm -> space i u = Some a ->
  space i u' = Some a /\ forall va, low_va va -> load (mm_mem (us_mm u')) (as_root a) va = load (mm_mem (us_mm u)) (as_root a) va.

Lemma steps_spared w s s' : rtc (own_step w) s s' -> (exists own, alive s own) -> (exists own, alive s' own) /\
  forall r, r <> w -> r ∈ mm_clones s -> r ∈ mm_clones s' /\ forall va, low_va va -> load (mm_mem s') r va = load (mm_mem s) r va.
Proof.
  induction 1 as [s|s s1 s2 (o & Hne & Hst) Hr IH]; [done|]. intros (own & Ha). pose proof (step_fits w o s own s1 Ha Hst) as Hf.
  destruct (IH (proj1 Hf)) as [Hal Hk]. split; [done|]. intros r Hrw Hin.
  destruct (other_kept w o s s1 r Hf Hrw Hin) as [Hin1 Hl1]. destruct (Hk r Hrw Hin1) as [Hin2 Hl2]. split; [done|].
  intros va Hva. rewrite Hl2 by done. by apply Hl1.
Qed.

Lemma acts_spared vm a u u' : good u -> space vm u = Some a -> acts vm (as_root a) u u' -> spared vm u u'.
Proof.
  intros Hg Hs [Hr Hl Hf Hsl (a' & Ha' & Hw & Hsn)]. destruct (good_live u vm a Hg Hs) as [_ [Hin Hal]]. destruct (steps_spared _ _ _ Hr Hal) as [Hal' Hk].
  assert (forall i, i <> vm -> space i u' = space i u) as Heq by (intros i Hi; unfold space; by rewrite Hsl).
  assert (forall i b, i <> vm -> space i u = Some b -> as_root b <> as_root a) as Hroot by (intros i b Hi Hb E0; by destruct Hi; eapply (gd_apart _ Hg)).
  split.
  - constructor.
    + done.
    + intros i b Hb. destruct (decide (i = vm)) as [->|Hi]; [rewrite Ha' in Hb; injection Hb as <-; split; [done|rewrite Hw; apply Hl]|].
      rewrite Heq in Hb by done. destruct (gd_space _ Hg i b Hb) as [Hsb Hrb]. split; [done|]. by apply (Hk _ (Hroot i b Hi Hb)).
    + intros i j b c Hb Hc E0. destruct (decide (i = vm)) as [->|Hi], (decide (j = vm)) as [->|Hj]; [done|..].
      * rewrite Heq in Hc by done. rewrite Ha' in Hb. injection Hb as <-. case (Hroot j c Hj Hc). congruence.
      * rewrite Heq in Hb by done. rewrite Ha' in Hc. injection Hc as <-. case (Hroot i b Hi Hb). congruence.
      * rewrite Heq in Hb, Hc by done. by eapply (gd_apart _ Hg).
    + rewrite Hf. destruct (gd_free _ Hg) as [Hnd Hfr]. split; [done|]. intros i Hi. rewrite Hsl; [by apply Hfr|]. intros ->.
      unfold space in Hs. by rewrite (Hfr vm Hi) in Hs.
  - intros i b Hi Hb. rewrite Heq by done. split; [done|]. apply (Hk _ (Hroot i b Hi Hb)), (gd_space _ Hg i b Hb).
Qed.

Lemma returns_spared {X} vm (m : st Z U X) u u' a : good u -> space vm u = Some a -> call_ok vm m -> returns m u u' -> spared vm u u'.
Proof.
  intros Hg Hs Hm (r & E0 & Hr). destruct (good_live u vm a Hg Hs) as [Ha Hl]. apply (acts_spared vm a u u' Hg Hs). specialize (Hm u a Hs Ha Hl).
  unfold wpp in Hm. rewrite E0 in Hm. by destruct r.
Qed.

Lemma good_spared vm u : good u -> spared vm u u.
Proof. done. Qed.

(** Without an address space a call does nothing. *)
Lemma no_space {X} vm (k : AddressSpace -> st Z U X) u : space vm u = None -> st_bind (get_space vm) k u = (u, Err EFAULT).
Proof. intros Hs. unfold st_bind, get_space. by rewrite Hs. Qed.

Lemma returns_no_space {X} vm (k : AddressSpace -> st Z U X) u u' : space vm u = None -> returns (st_bind (get_space vm) k) u u' -> u' = u.
Proof. intros Hs (r & E0 & _). rewrite no_space in E0 by done. congruence. Qed.

Lemma call_spared vm c u u' : good u -> calls vm c u u' -> spared vm u u'.
Proof.
  intros Hg Hc. destruct (space vm u) as [a|] eqn:Hs.
  - destruct c; cbn in Hc; destruct_and?; (eapply returns_spared; [done|done| |done]);
      [by apply brk_ok|by apply mmap_ok|by apply munmap_ok|by apply pkey_ok|by apply fault_ok].
  - assert (u' = u) as ->; [|by apply good_spared]. destruct c; cbn in Hc; destruct_and?.
    + by eapply returns_no_space.
    + by eapply returns_no_space.
    + match goal with Hx : returns _ _ _ |- _ => destruct Hx as (r & E0 & _) end. unfold munmap in E0. destruct (_ || _); [by injection E0|].
      destruct (checked_add_u64 addr len) as [e|]; [|by injection E0]. destruct (e <=? addr); [by injection E0|]. rewrite no_space in E0 by done. by injection E0.
    + match goal with Hx : returns _ _ _ |- _ => destruct Hx as (r & E0 & _) end. unfold pkey_protect in E0. destruct (_ || _); [by injection E0|].
      rewrite no_space in E0 by done. by injection E0.
    + match goal with Hx : returns _ _ _ |- _ => destruct Hx as (r & E0 & _) end. unfold resolve_user_fault, demand_fill, cow_resolve, st_bind, st_get, cow_context in E0.
      destruct (f_malformed err), (f_protection err), (f_write err); cbn [negb] in E0; rewrite ?Hs in E0; by injection E0.
Qed.

(** A successful fork: the pages, then a slot. *)
Lemma fork_split k vm skip u u' idx c a : space vm u = Some a -> fork_as k vm skip u = (u', Ok (idx, c)) -> exists s',
  fork_pages (as_root a) (writable_regions a) skip (us_mm u) = (s', Ok c) /\
  new_slot (E := Z) (mkAsp c (brk_floor a) (brk_cur a) (stack_top a) (committed a) (budget_pages a) (regions a)) (mkUm s' (us_slots u) (us_free u)) = (u', Ok idx).
Proof.
  intros Hs. unfold fork_as, fork_pages, get_space, st_bind, on_mm, st_catch. rewrite Hs.
  destruct (clone_high_half (as_root a) (us_mm u)) as [s1 [c'|e|]]; [|done|done]. cbn [us_mm us_slots us_free].
  destruct (protect_all (as_root a) (writable_regions a) s1) as [s2 [[]|e|]]; [|done|done]. cbn [us_mm us_slots us_free].
  destruct (clone_user_space_cow (as_root a) c' skip s2) as [s3 [[]|e|]]; cbn [us_mm us_slots us_free]; [| |done].
  - unfold new_slot at 1. intros E0. exists s3. unfold new_slot. cbn [us_mm us_slots us_free] in *. destruct (rev (us_free u)); injection E0 as <- <- <-; done.
  - destruct (unprotect_all (as_root a) (writable_regions a) s3) as [s4 [[]|?|]]; [|done|done]. cbn [us_mm us_slots us_free].
    by destruct (destroy_root k c' s4) as [s5 [[]|?|]].
Qed.

Lemma slot_spec {E} u a u' idx : NoDup (us_free u) -> (forall i, i ∈ us_free u -> us_slots u !! i = Some None) -> new_slot (E := E) a u = (u', Ok idx) ->
  us_mm u' = us_mm u /\ space idx u = None /\ (forall i, space i u' = if decide (i = idx) then Some a else space i u) /\
  NoDup (us_free u') /\ forall i, i ∈ us_free u' -> us_slots u' !! i = Some None.
Proof.
  unfold new_slot, space. intros Hnd Hfr. destruct (rev (us_free u)) as [|j l] eqn:Er; intros E0; injection E0 as <- <-; cbn [us_mm us_slots us_free].
  - apply (f_equal (@rev nat)) in Er. rewrite rev_involutive in Er. cbn in Er. rewrite Er in *. split; [done|].
    split; [by rewrite lookup_ge_None_2|]. split; [|split; [done|by intros i ?%elem_of_nil]]. intros i. destruct (decide (i = length (us_slots u))) as [->|Hi].
    + by rewrite list_lookup_middle.
    + destruct (decide (i < length (us_slots u))%nat); [by rewrite lookup_app_l|]. rewrite !lookup_ge_None_2; [done|lia|rewrite length_app; cbn; lia].
  - apply (f_equal (@rev nat)) in Er. rewrite rev_involutive in Er. cbn in Er. rewrite Er in *. rewrite removelast_last. split; [done|].
    apply NoDup_app in Hnd as (Hnd & Hx & _). assert (us_slots u !! j = Some None) as Hj by (apply Hfr, elem_of_app; right; by apply list_elem_of_singleton).
    split; [by rewrite Hj|]. split; [|split; [done|]].
    + intros i. destruct (decide (i = j)) as [->|Hi]; [|by rewrite list_lookup_insert_ne by congruence].
      by rewrite list_lookup_insert_eq by (by eapply lookup_lt_Some).
    + intros i Hi. rewrite list_lookup_insert_ne by (intros ->; apply (Hx i Hi); by apply list_elem_of_singleton). apply Hfr, elem_of_app. by left.
Qed.

Lemma slot_good {E} u a u' idx : good u -> sane a -> as_root a ∈ mm_clones (us_mm u) -> (forall i b, space i u = Some b -> as_root b <> as_root a) ->
  new_slot (E := E) a u = (u', Ok idx) -> good u' /\ us_mm u' = us_mm u /\ forall i b, space i u = Some b -> space i u' = Some b.
Proof.
  intros Hg Ha Hin Hnew E0. destruct (gd_free _ Hg) as [Hnd Hfr]. destruct (slot_spec u a u' idx Hnd Hfr E0) as (Hm & Hno & Hsp & Hfree).
  split; [|split; [done|]].
  - constructor; [rewrite Hm; apply Hg| | |done].
    + intros i b. rewrite Hsp, Hm. destruct (decide (i = idx)); [intros [= <-]; done|]. apply (gd_space _ Hg).
    + intros i j b b'. rewrite !Hsp. destruct (decide (i = idx)) as [->|Hi], (decide (j = idx)) as [->|Hj]; [done|..].
      * intros [= <-] Hb' E1. case (Hnew j b' Hb'). done.
      * intros Hb [= <-] E1. case (Hnew i b Hb). done.
      * apply (gd_apart _ Hg).
  - intros i b Hb. rewrite Hsp, decide_False; [done|]. intros ->. by rewrite Hno in Hb.
Qed.

Lemma fork_spared vm a k lo hi idx c u u' : good u -> space vm u = Some a -> hi <= 2 ^ 47 -> all_in (writable_regions a) (us_mm u) (as_root a) ->
  fork_as k vm (Some (lo, hi)) u = (u', Ok (idx, c)) -> spared vm u u'.
Proof.
  intros Hg Hs Hhi Hall E0. destruct (good_live u vm a Hg Hs) as [Ha [Hin (own & Hal)]].
  destruct (fork_split k vm _ u u' idx c a Hs E0) as (s' & Ef & Es). assert (step (as_root a) (Fork (writable_regions a) lo hi c) (us_mm u) s') as Hst by done.
  destruct (step_fits _ _ _ _ _ Hal Hst) as (_ & [Hnc Hcl] & _). pose proof (acts_refl vm a u Hs Ha (conj Hin (ex_intro _ own Hal))) as Hac.
  destruct (acts_spared vm a u (mkUm s' (us_slots u) (us_free u)) Hg Hs) as [Hg1 Hk1]; [apply (acts_step vm _ u u s' Hac); by exists (Fork (writable_regions a) lo hi c)|].
  assert (forall i b, space i u = Some b -> as_root b <> c) as Hnew by (intros i b Hb E1; apply Hnc; rewrite <- E1; apply (gd_space _ Hg i b Hb)).
  assert (sane (mkAsp c (brk_floor a) (brk_cur a) (stack_top a) (committed a) (budget_pages a) (regions a))) as Ha' by (by destruct Ha).
  destruct (slot_good _ _ u' idx Hg1 Ha' (proj2 (Hcl c) (or_intror eq_refl)) Hnew Es) as (Hg2 & Em & Hk2). split; [done|].
  intros i b Hi Hb. destruct (Hk1 i b Hi Hb) as [Hb1 Hl1]. split; [by apply Hk2|]. by rewrite Em.
Qed.

Lemma exit_spared vm k u u' : good u -> vm <> 0%nat -> (2 <= length (mm_clones (us_mm u)))%nat -> exit_space k vm u = (u', Ok tt) -> spared vm u u'.
Proof.
  intros Hg Hvm0 Hlen E0. unfold exit_space in E0. destruct (space vm u) as [a|] eqn:Hs; [|by rewrite no_space in E0]. destruct (good_live u vm a Hg Hs) as [Ha [Hin (own & Hal)]].
  unfold st_bind, get_space, on_mm in E0. rewrite Hs in E0. destruct (destroy_root k (as_root a) (us_mm u)) as [s' [[]|?|]] eqn:Ed; [|done|done].
  apply Nat.eqb_neq in Hvm0. rewrite Hvm0 in E0. unfold unregister, st_upd in E0. change (space vm (mkUm s' (us_slots u) (us_free u))) with (space vm u) in E0. rewrite Hs in E0. injection E0 as <-. cbn [us_mm us_slots us_free].
  assert (step (as_root a) (Exit k) (us_mm u) s') as Hst by done. pose proof (step_fits _ _ _ _ _ Hal Hst) as Hf.
  assert (us_slots u !! vm = Some (Some a)) as Hvm by (unfold space in Hs; by destruct (us_slots u !! vm) as [[?|]|]; simplify_eq).
  set (u' := mkUm s' _ _). assert (forall i, space i u' = if decide (i = vm) then None else space i u) as Hsp.
  { intros i. unfold space, u'. cbn [us_slots]. destruct (decide (i = vm)) as [->|Hi]; [by rewrite list_lookup_insert_eq by (by eapply lookup_lt_Some)|].
    by rewrite list_lookup_insert_ne by congruence. }
  assert (forall i b, i <> vm -> space i u = Some b -> as_root b <> as_root a /\ as_root b ∈ mm_clones (us_mm u)) as Hroot.
  { intros i b Hi Hb. split; [intros E1; by destruct Hi; eapply (gd_apart _ Hg)|apply (gd_space _ Hg i b Hb)]. }
  split; [constructor|].
  - apply Hf.
  - intros i b. rewrite Hsp. destruct (decide (i = vm)) as [->|Hi]; [done|]. intros Hb. split; [apply (gd_space _ Hg i b Hb)|].
    destruct (Hroot i b Hi Hb) as [Hne Hc]. apply (other_kept _ _ _ _ _ Hf Hne Hc).
  - intros i j b c. rewrite !Hsp. destruct (decide (i = vm)), (decide (j = vm)); try done. apply (gd_apart _ Hg).
  - destruct (gd_free _ Hg) as [Hnd Hfr]. unfold u'. cbn [us_slots us_free]. split.
    + apply NoDup_app. split; [done|]. split; [|apply NoDup_singleton]. intros i Hi ->%list_elem_of_singleton. rewrite (Hfr vm Hi) in Hvm. done.
    + intros i [Hi| ->%list_elem_of_singleton]%elem_of_app; [|by rewrite list_lookup_insert_eq by (by eapply lookup_lt_Some)].
      rewrite list_lookup_insert_ne; [by apply Hfr|]. intros ->. rewrite (Hfr i Hi) in Hvm. done.
  - intros i b Hi Hb. rewrite Hsp, decide_False by done. split; [done|]. destruct (Hroot i b Hi Hb) as [Hne Hc]. apply (other_kept _ _ _ _ _ Hf Hne Hc).
Qed.

Lemma process_spared vm u u' : good u -> process vm u u' -> spared vm u u'.
Proof.
  intros Hg [c Hc|a va v s' Hs Hst ->|a k lo hi idx c Hs Hhi Hall E0|k Hvm0 Hlen E0].
  - by eapply call_spared.
  - destruct (good_live u vm a Hg Hs) as [Ha Hl]. apply (acts_spared vm a u _ Hg Hs), (acts_step vm _ u u s' (acts_refl vm a u Hs Ha Hl)). by exists (Store va v).
  - by eapply fork_spared.
  - by eapply exit_spared.
Qed.
End Calls.
