(* ===== verification/ElfLoadSafe.v ===== *)
(** * Loading programs: what the new process sees

    Pages of the image and of the stack in the new address space, byte by byte, and
    that the address spaces that are there keep what they hold. *)

From stdpp Require Import gmultiset.
From S2P Require Import Prelude Bits State Vmm VmmFacts VmmTree VmmInv VmmKeep VmmMap UserMem VmmRange VmmClone VmmSafe UserMemSafe ElfLoad.
Local Open Scope Z_scope.

#[local] Opaque zero_frame copy_frame table_is_empty.

(** ** Parsing *)

(** No panic, and [P] of the result. *)
Definition sound {E X} (r : res E X) (P : X -> Prop) : Prop := match r with Ok x => P x | Err _ => True | Panic => False end.

Lemma sound_bind {E X Y} (r : res E X) (k : X -> res E Y) (P : X -> Prop) (P' : Y -> Prop) : sound r P -> (forall x, P x -> sound (k x) P') -> sound (res_bind r k) P'.
Proof. destruct r; cbn; auto. Qed.

Lemma sound_guard b e {X} (k : unit -> res LoadError X) P : (b = true -> sound (k tt) P) -> sound (res_bind (guard_ b e) k) P.
Proof. intros Hk. destruct b; cbn; auto. Qed.

Lemma sound_ok_or {X Y} (o : option X) e (k : X -> res LoadError Y) P : (forall x, o = Some x -> sound (k x) P) -> sound (res_bind (ok_or o e) k) P.
Proof. intros Hk. destruct o; cbn; auto. Qed.

Lemma sound_read {E X} n elf off (k : Z -> res E X) P : bytes_ok elf -> 0 <= off -> off + Z.of_nat n <= elen elf ->
  (forall v, 0 <= v < 256 ^ Z.of_nat n -> sound (k v) P) -> sound (res_bind (read_le n elf off) k) P.
Proof.
  intros Hok Ho Hl Hk. unfold read_le. replace ((0 <=? off) && (off + Z.of_nat n <=? elen elf)) with true by lia. cbn [res_bind]. apply Hk.
  assert (bytes_ok (take n (drop (Z.to_nat off) elf))) as Hb by (by apply Forall_take, Forall_drop). pose proof (le_val_bound _ Hb) as Hv.
  replace (length (take n (drop (Z.to_nat off) elf))) with n in Hv; [done|]. unfold elen in Hl. rewrite length_take, length_drop. lia.
Qed.

(** A segment that may be loaded: in the user image, with its bytes in the file, and
    not both writable and executable. *)
Record seg_ok (elf : list Z) (seg : Segment) : Prop := {
  so_vaddr : 4096 <= s_vaddr seg;
  so_memsz : 0 < s_memsz seg;
  so_end : s_vaddr seg + s_memsz seg <= USER_IMAGE_MAX;
  so_filesz : 0 <= s_filesz seg <= s_memsz seg;
  so_offset : 0 <= s_offset seg /\ s_offset seg + s_filesz seg <= elen elf;
  so_wx : has (s_flags seg) PF_X && has (s_flags seg) PF_W = false
}.

Lemma parse_phdr_safe elf phoff es i : bytes_ok elf -> 0 <= phoff -> 56 <= es -> 0 <= i ->
  sound (parse_phdr elf phoff es i) (fun s => match s with Some s => seg_ok elf s | None => True end).
Proof.
  intros Hok Hp He Hi. unfold parse_phdr. apply sound_ok_or. intros off Eo. apply sound_ok_or. intros po Ep. apply sound_ok_or. intros pe Ee. apply sound_guard. intros Hg.
  apply checked_mul_Some in Eo as [-> _]. apply checked_add_Some in Ep as [-> _]. apply checked_add_Some in Ee as [-> _]. assert (0 <= i * es) by (apply Z.mul_nonneg_nonneg; lia). set (po := phoff + i * es) in *.
  apply sound_read; [done|lia|lia|]. intros ty _. destruct (negb (ty =? PT_LOAD)); [done|].
  apply sound_read; [done|lia|lia|]. intros offset Hoff. apply sound_read; [done|lia|lia|]. intros vaddr Hva. apply sound_read; [done|lia|lia|]. intros filesz Hfs.
  apply sound_read; [done|lia|lia|]. intros memsz Hms. apply sound_read; [done|lia|lia|]. intros flags Hfl.
  apply sound_guard. intros H1. apply sound_ok_or. intros ef Ef. apply sound_guard. intros H2. apply sound_ok_or. intros ve Ev. apply sound_guard. intros H3. apply sound_guard. intros H4.
  apply checked_add_Some in Ef as [-> _]. apply checked_add_Some in Ev as [-> _]. cbn [sound].
  apply negb_true_iff, orb_false_iff in H3 as [H3 _]. apply orb_false_iff in H3 as [H3 H5]. apply orb_false_iff in H3 as [H3 H6].
  constructor; cbn [s_vaddr s_memsz s_filesz s_offset s_flags]; lia.
Qed.

Lemma parse_phdrs_safe elf phoff es l : bytes_ok elf -> 0 <= phoff -> 56 <= es -> Forall (fun i => 0 <= i) l -> sound (parse_phdrs elf phoff es l) (Forall (seg_ok elf)).
Proof.
  intros Hok Hp He. induction 1 as [|i l Hi _ IH]; cbn [parse_phdrs]; [by apply Forall_nil|]. eapply sound_bind; [by apply parse_phdr_safe|]. intros s Hs.
  eapply sound_bind; [exact IH|]. intros segs Hsegs. cbn [sound]. destruct s as [s|]; [by apply Forall_cons_2|done].
Qed.

(** Segments on one page have the same permissions. *)
Definition agree (a b : Segment) : Prop := forall va ea eb, seg_end a = Ok ea -> seg_end b = Ok eb -> seg_start a <= va < ea -> seg_start b <= va < eb ->
  Z.land (s_flags a) PF_X = Z.land (s_flags b) PF_X /\ Z.land (s_flags a) PF_W = Z.land (s_flags b) PF_W.

Lemma seg_end_safe seg : sound (seg_end seg) (fun e => seg_end seg = Ok e).
Proof.
  unfold seg_end at 1. apply sound_ok_or. intros v Ev. apply sound_ok_or. intros w Ew. cbn [sound]. unfold seg_end. by rewrite Ev; cbn; rewrite Ew.
Qed.

Lemma compatible_safe a b : sound (compatible a b) (fun _ => agree a b).
Proof.
  unfold compatible. eapply sound_bind; [apply seg_end_safe|]. intros ea Ea. eapply sound_bind; [apply seg_end_safe|]. intros eb Eb. unfold guard_.
  destruct (negb _) eqn:E0; [|done]. cbn [sound]. intros va ea' eb' Ea' Eb' Ha Hb. rewrite Ea in Ea'. rewrite Eb in Eb'. injection Ea' as <-. injection Eb' as <-. 
  apply negb_true_iff, andb_false_iff in E0 as [E0|E0]; [lia|]. apply orb_false_iff in E0 as [E1 E2]. apply negb_false_iff, Z.eqb_eq in E1. by apply negb_false_iff, Z.eqb_eq in E2.
Qed.

Lemma all_compatible_safe a l : sound (all_compatible a l) (fun _ => Forall (agree a) l).
Proof.
  induction l as [|b l IH]; cbn [all_compatible]; [eapply sound_bind; [apply seg_end_safe|]; intros e _; by apply Forall_nil|].
  eapply sound_bind; [apply compatible_safe|]. intros ? Hab. destruct (all_compatible a l); [|done|done]. by apply Forall_cons_2.
Qed.

Lemma check_segments_safe l : sound (check_segments l) (fun _ => ForallOrdPairs agree l).
Proof.
  induction l as [|a l IH]; cbn [check_segments]; [constructor|]. eapply sound_bind; [apply all_compatible_safe|]. intros ? Ha. destruct (check_segments l); [|done|done].
  constructor; [|done]. by apply Forall_forall, list.Forall_forall.
Qed.

Lemma parse_segments_safe elf : bytes_ok elf -> sound (parse_segments elf) (fun segs => segs <> [] /\ Forall (seg_ok elf) segs /\ ForallOrdPairs agree segs).
Proof.
  intros Hok. unfold parse_segments. apply sound_guard. intros Hlen. unfold ELF_HEADER_SIZE in Hlen. do 3 (apply sound_guard; intros _).
  do 5 (apply sound_read; [done|lia|lia|]; intros ? ?). do 2 (apply sound_guard; intros _). apply sound_guard. intros Hes. apply sound_guard. intros _.
  eapply sound_bind; [apply parse_phdrs_safe; [done|lia|lia|]|].
  - apply list.Forall_forall. intros i Hi%elem_of_seqZ. lia.
  - intros segs Hsegs. apply sound_guard. intros Hne%negb_true_iff%bool_decide_eq_false. eapply sound_bind; [apply check_segments_safe|]. intros ? Hag. done.
Qed.

(** ** Bytes *)

Definition byte_of (w k : Z) : Z := Z.land (Z.shiftr w (8 * k)) 255.

Lemma byte_of_bit w k i : 0 <= k -> 0 <= i -> Z.testbit (byte_of w k) i = (i <? 8) && Z.testbit w (i + 8 * k).
Proof. intros Hk Hi. unfold byte_of. change 255 with (Z.ones 8). by rewrite Z.land_spec, Z.shiftr_spec, testbit_ones, andb_comm by lia. Qed.

Lemma rd_byte_of m a : rd_byte m a = byte_of (rd m (word_of a)) (a mod 8).
Proof. done. Qed.

(** A byte of a word, and the others. *)
Lemma byte_set w j b k : 0 <= j < 8 -> 0 <= k < 8 -> 0 <= b < 256 ->
  byte_of (Z.lor (Z.land w (lnot64 (Z.shiftl 255 (8 * j)))) (Z.shiftl b (8 * j))) k = if decide (k = j) then b else byte_of w k.
Proof.
  intros Hj Hk Hb. assert (forall i, 8 <= i -> Z.testbit b i = false) as Hout by (intros i Hi; apply (testbit_out 8); [|done]; change (2 ^ 8) with 256; lia).
  apply Z.bits_inj'. intros i Hi. rewrite byte_of_bit, Z.lor_spec, Z.land_spec, lnot64_bits, !Z.shiftl_spec by lia. change 255 with (Z.ones 8).
  destruct (decide (k = j)) as [->|Hne].
  - replace (i + 8 * j - 8 * j) with i by lia. destruct (i <? 8) eqn:Ei; [|by rewrite Hout by lia]. rewrite testbit_ones by lia. rewrite Ei.
    replace (i + 8 * j <? 64) with true by lia. by rewrite andb_false_r.
  - rewrite byte_of_bit by lia. destruct (i <? 8) eqn:Ei; [|done]. cbn [andb]. replace (i + 8 * k <? 64) with true by lia.
    destruct (decide (i + 8 * k - 8 * j < 0)); [rewrite !(Z.testbit_neg_r _ (i + 8 * k - 8 * j)) by lia; by rewrite andb_true_r, orb_false_r|].
    rewrite testbit_ones by lia. replace (i + 8 * k - 8 * j <? 8) with false by lia. rewrite Hout by lia. by rewrite andb_true_r, orb_false_r.
Qed.

Lemma word_byte a x : word_of x = word_of a -> x mod 8 = a mod 8 -> x = a.
Proof. unfold word_of. lia. Qed.

Lemma rd_wr_byte a b m x : 0 <= b < 256 -> rd_byte (wr_byte a b m) x = if decide (x = a) then b else rd_byte m x.
Proof.
  intros Hb. pose proof (Z.mod_pos_bound a 8 ltac:(lia)). pose proof (Z.mod_pos_bound x 8 ltac:(lia)). rewrite !rd_byte_of. unfold wr_byte. rewrite rd_insert.
  destruct (decide (word_of x = word_of a)) as [Ew|Hne]; [|rewrite decide_False; [done|by intros ->]]. rewrite byte_set by done. rewrite Ew.
  destruct (decide (x mod 8 = a mod 8)) as [Em|Hm]; [rewrite decide_True; [done|by apply word_byte]|]. rewrite decide_False; [done|by intros ->].
Qed.

Lemma rd_wr_bytes bs : forall a m x, bytes_ok bs -> rd_byte (wr_bytes a bs m) x = if decide (a <= x < a + elen bs) then byte_at bs (x - a) else rd_byte m x.
Proof.
  induction bs as [|b bs IH]; intros a m x Hok; cbn [wr_bytes]; [rewrite decide_False by (unfold elen; cbn; lia); done|].
  apply Forall_cons in Hok as [Hb Hok]. unfold byte_ok in Hb. rewrite IH by done. rewrite rd_wr_byte by lia. unfold elen, byte_at. cbn [length].
  destruct (decide (x = a)) as [->|Hne]; [rewrite decide_False, decide_True by lia; by rewrite Z.sub_diag|].
  destruct (decide (a + 1 <= x < a + 1 + Z.of_nat (length bs))); [|by rewrite decide_False by lia]. rewrite decide_True by lia.
  by replace (Z.to_nat (x - a)) with (S (Z.to_nat (x - (a + 1)))) by lia.
Qed.

(** They are words of one frame. *)
Lemma wr_bytes_out bs : forall f off m a, is_frame f -> 0 <= off -> off + elen bs <= 4096 -> ~ in_frame f a -> rd (wr_bytes (f + off) bs m) a = rd m a.
Proof.
  induction bs as [|b bs IH]; intros f off m a Hf Ho Hl Ha; cbn [wr_bytes]; [done|]. unfold elen in *. cbn [length] in Hl. rewrite <- Z.add_assoc, IH by (done || lia).
  unfold wr_byte. rewrite rd_insert, decide_False; [done|]. intros ->. apply Ha. exists (off / 8). destruct Hf as [Hf _].
  pose proof (Z.div_mod off 8 ltac:(lia)). pose proof (Z.mod_pos_bound off 8 ltac:(lia)). split; [split; [by apply Z.div_pos|lia]|].
  unfold word_of. replace ((f + off) mod 8) with (off mod 8); [lia|]. rewrite <- (Z.mod_add off (512 * (f / 4096)) 8) by lia. f_equal.
  pose proof (Z.div_mod f 4096 ltac:(lia)). lia.
Qed.

(** ** Pages *)

(** What user code finds at [va]: the byte, and whether the page may be written and
    executed. *)
Definition view (m : gmap Z Z) (r va : Z) : option (Z * bool * bool) :=
  let e := leaf m r va in
  if e =? 0 then None else Some (rd_byte m (pte_frame e + va mod 4096), has e PTE_WRITABLE, negb (has e PTE_NX)).

Lemma word_bytes m f va : is_frame f -> byte_of (word m f va) (va mod 8) = rd_byte m (f + va mod 4096).
Proof.
  intros [Hf _]. rewrite rd_byte_of. pose proof (Z.div_mod f 4096 ltac:(lia)) as Ef. pose proof (Z.div_mod va 4096 ltac:(lia)) as Ev.
  assert ((f + va mod 4096) mod 8 = va mod 8) as Em.
  { rewrite Ev at 2. replace (4096 * (va / 4096) + va mod 4096) with (f + va mod 4096 + (512 * (va / 4096 - f / 4096)) * 8) by lia. by rewrite Z.mod_add by lia. }
  rewrite Em. f_equal. unfold word, word_of. rewrite Em. f_equal.
  pose proof (Z.div_mod va 8 ltac:(lia)). pose proof (Z.div_mod (va / 8) 512 ltac:(lia)) as E5. rewrite Z.div_div in E5 by lia. change (8 * 512) with 4096 in E5. lia.
Qed.

Definition page_perms (fl : Z) : bool * bool := (fl_contains fl WRITE, fl_contains fl EXECUTE).

Lemma entry_perms f fl : is_frame f -> let e := Z.lor f (page_flags_to_x86 fl) in
  has e PTE_WRITABLE = fl_contains fl WRITE /\ negb (has e PTE_NX) = fl_contains fl EXECUTE.
Proof.
  intros Hf e. change PTE_WRITABLE with (2 ^ 1). change PTE_NX with (2 ^ 63). unfold e. rewrite !has_bit, !is_frame_flags by (done || lia). rewrite <- !has_bit by lia.
  unfold page_flags_to_x86. by destruct (fl_contains fl WRITE), (fl_contains fl EXECUTE), (fl_contains fl NO_CACHE), (fl_contains fl WRITE_COMBINING), (fl_contains fl USER).
Qed.

Section Load.
Context `{Profile} {A : Type} `{FrameLaws A}.
Notation S := (Mm A).
Implicit Types (s : S) (own : gmap Z Pos).

(** No frame of [r] is shared. *)
Definition private (r : Z) s : Prop := forall va, low_va va -> leaf (mm_mem s) r va <> 0 -> cnt s (pte_frame (leaf (mm_mem s) r va)) = 0.

(** Work on the address space of [r]. *)
Record stage (r : Z) s own s' own' : Prop := {
  sg_inv : inv s' own' ∅;
  sg_keep : keeps (fun r' _ => r' = r) s own s' own';
  sg_clones : mm_clones s' = mm_clones s;
  sg_private : private r s'
}.

Lemma stage_refl r s own : inv s own ∅ -> private r s -> stage r s own s own.
Proof. intros Hi Hp. constructor; [done|apply spaces_refl|done|done]. Qed.

Lemma stage_trans r s own s1 own1 s2 own2 : stage r s own s1 own1 -> stage r s1 own1 s2 own2 -> stage r s own s2 own2.
Proof. intros [? ? ? ?] [? ? ? ?]. constructor; [done|by eapply spaces_trans|congruence|done]. Qed.

Lemma stage_mem r s own s1 s2 own2 : mm_mem s1 = mm_mem s -> mm_clones s1 = mm_clones s -> stage r s1 own s2 own2 -> stage r s own s2 own2.
Proof. intros Em Ec [? Hk ? ?]. constructor; [done|eapply spaces_trans; [apply keeps_none, (keeps_mem s own s1 Em)|exact Hk]|congruence|done]. Qed.

Lemma page_kept r va s own s' own' : keeps (at_page r va) s own s' own' -> keeps (fun r' _ => r' = r) s own s' own'.
Proof. apply keeps_mono. by intros r' va' [-> _]. Qed.

Lemma view_same m m' own r va : wf m own -> is_root own r -> low_va va -> leaf m' r va = leaf m r va -> peek m' r va = peek m r va -> view m' r va = view m r va.
Proof.
  intros Hwf Hr Hva El. unfold peek, view. rewrite El. destruct (leaf m r va =? 0) eqn:E0; [done|]. intros [= Ew].
  destruct (leaf_frame m own r va Hwf Hr Hva ltac:(lia)) as [Hf _]. by rewrite <- !word_bytes, Ew by done.
Qed.

(** A write to a page. *)
Lemma private_write r va s own g : inv s own ∅ -> is_root own r -> private r s -> low_va va -> leaf (mm_mem s) r va <> 0 ->
  (forall a, ~ in_frame (pte_frame (leaf (mm_mem s) r va)) a -> rd (g (mm_mem s)) a = rd (mm_mem s) a) ->
  stage r s own (upd_mem g s) own /\ (forall va', low_va va' -> leaf (g (mm_mem s)) r va' = leaf (mm_mem s) r va') /\
  forall va', low_va va' -> va' / 4096 <> va / 4096 -> view (g (mm_mem s)) r va' = view (mm_mem s) r va'.
Proof.
  intros Hi Hr Hp Hva Hn Hg. destruct (leaf_write s own ∅ r va g Hi Hr Hva Hn) as (Hi' & Hl & Hk); [by apply uncounted_one; auto|done|].
  split; [|split; [intros va' Hva'; by apply (Hl r va')|]].
  - constructor; [done|by eapply page_kept|done|]. intros va' Hva'. rewrite (Hl r va' Hr Hva'). apply (Hp va' Hva').
  - intros va' Hva' Hne. apply (view_same _ _ own); [apply (i_wf _ _ _ Hi)|done|done|by apply (Hl r va')|]. apply (k_peek _ _ _ _ _ Hk r va' Hr Hva'). by intros [_ ?].
Qed.

(** A new page of zeros. *)
Definition new_page {E} (r va f fl : Z) : st E S unit := let* _ := vmm_map_4k r va f fl in store (zero_frame f).

Lemma wpp_new_page {E} s own r va f fl (Q : unit -> S -> Prop) (R : E -> S -> Prop) : inv s own ({[+ f +]} ⊎ ∅) -> cnt s f = 0 -> is_root own r -> low_va va -> private r s ->
  (forall s' own', stage r s own s' own' -> pte_frame (leaf (mm_mem s') r va) = f -> leaf (mm_mem s') r va <> 0 -> (forall va', low_va va' ->
     view (mm_mem s') r va' = if decide (va' / 4096 = va / 4096) then Some (0, (page_perms fl).1, (page_perms fl).2) else view (mm_mem s) r va') -> Q tt s') ->
  wpp (new_page r va f fl) Q R s.
Proof.
  intros Hi Hc Hr Hva Hp HQ. unfold new_page. apply wpp_bind, (wpp_map_at s own ∅); [done|done|done|done|].
  intros s1 own1 Hi1 [Hk Hpk Hl [Hnz Hf] Hw Hcn Hcl]. unfold store. apply wpp_upd.
  assert (is_root own1 r) as Hr1 by (by apply (k_root _ _ _ _ _ Hk)). set (e := Z.lor f _) in *.
  assert (leaf (mm_mem s1) r va = e) as El by (by rewrite Hl, decide_True by done).
  assert (private r s1) as Hp1.
  { intros va' Hva'. rewrite (Hl r va' Hr Hva'). unfold cnt, count_at. rewrite Hcn. destruct (decide _) as [_|_]; [intros _; by rewrite Hf|apply (Hp va' Hva')]. }
  assert (forall a, ~ in_frame (pte_frame (leaf (mm_mem s1) r va)) a -> rd (zero_frame f (mm_mem s1)) a = rd (mm_mem s1) a) as Hg by (intros a; rewrite El, Hf; intros Ha; by rewrite rd_zero, decide_False).
  destruct (private_write r va s1 own1 (zero_frame f) Hi1 Hr1 Hp1 Hva ltac:(congruence) Hg) as (Hst & Hl2 & Hv2).
  assert (is_frame f) as Hff by (by destruct (held_alone s own ∅ f Hi Hc)).
  apply (HQ _ own1); cbn [mm_mem upd_mem].
  - eapply stage_trans; [|exact Hst]. constructor; [done|by eapply page_kept|done|done].
  - by rewrite Hl2, El by done.
  - by rewrite Hl2, El by done.
  - intros va' Hva'. destruct (decide (va' / 4096 = va / 4096)) as [Epg|Hne].
    + unfold view. rewrite Hl2, (Hl r va' Hr Hva'), decide_True by done. replace (e =? 0) with false by lia. destruct (entry_perms f fl Hff) as [Ew Ex]. fold e in Ew, Ex. rewrite Ew, Ex, Hf.
      rewrite <- word_bytes by done. unfold word. rewrite rd_zero, decide_True by apply word_in. by unfold byte_of; rewrite Z.shiftr_0_l.
    + rewrite (Hv2 va' Hva' Hne). apply (view_same _ _ own); [apply (i_wf _ _ _ Hi)|done|done|by rewrite (Hl r va' Hr Hva'), decide_False by naive_solver|].
      apply (k_peek _ _ _ _ _ Hk r va' Hr Hva'). by intros [_ ?].
Qed.

(** ** The image *)

(** What a page of a segment adds to what is there. *)
Definition place (elf : list Z) (seg : Segment) (va : Z) (M : Z -> option (Z * bool * bool)) (va' : Z) : option (Z * bool * bool) :=
  if decide (va' / 4096 = va / 4096) then
    let '(b, w, x) := default (0, (page_perms (seg_page_flags (s_flags seg))).1, (page_perms (seg_page_flags (s_flags seg))).2) (M va') in
    let '(po, bs) := page_bytes elf seg va in
    Some (if decide (po <= va' mod 4096 < po + elen bs) then byte_at bs (va' mod 4096 - po) else b, w, x)
  else M va'.

Lemma page_bytes_ok elf seg va : bytes_ok elf -> let '(po, bs) := page_bytes elf seg va in bytes_ok bs /\ 0 <= po /\ po + elen bs <= 4096.
Proof.
  intros Hok. unfold page_bytes. set (po := if _ =? 0 then _ else _). assert (0 <= po < 4096) as Hpo.
  { unfold po. destruct (_ =? 0); [|lia]. rewrite land_4095. by apply Z.mod_pos_bound. }
  destruct (_ <? s_filesz seg); [|unfold elen; cbn; split; [constructor|lia]]. split; [by apply Forall_take, Forall_drop|]. split; [lia|].
  unfold elen. rewrite length_take. lia.
Qed.

Lemma wpp_fill_page r elf seg va s own f (Q : unit -> S -> Prop) (R : LoadError -> S -> Prop) : inv s own ∅ -> is_root own r -> private r s -> low_va va -> bytes_ok elf ->
  leaf (mm_mem s) r va <> 0 -> pte_frame (leaf (mm_mem s) r va) = f ->
  (forall s', stage r s own s' own -> (forall va', low_va va' -> view (mm_mem s') r va' = place elf seg va (view (mm_mem s) r) va') -> Q tt s') ->
  wpp (let '(po, bs) := page_bytes elf seg va in store (wr_bytes (f + po) bs)) Q R s.
Proof.
  intros Hi Hr Hp Hva Hok Hn Hf HQ. pose proof (page_bytes_ok elf seg va Hok) as Hpb. destruct (page_bytes elf seg va) as [po bs] eqn:Epb. destruct Hpb as (Hbs & Hpo & Hlen).
  destruct (leaf_frame _ own r va (i_wf _ _ _ Hi) Hr Hva Hn) as [Hff _]. rewrite Hf in Hff.
  destruct (private_write r va s own (wr_bytes (f + po) bs) Hi Hr Hp Hva Hn) as (Hst & Hl & Hv); [intros a; rewrite Hf; by apply wr_bytes_out|].
  unfold store. apply wpp_upd, HQ; [done|]. intros va' Hva'. unfold place. cbn [mm_mem upd_mem]. destruct (decide (va' / 4096 = va / 4096)) as [Epg|Hne]; [|by apply Hv].
  assert (leaf (mm_mem s) r va' = leaf (mm_mem s) r va) as El by (by apply leaf_page). unfold view. rewrite (Hl va' Hva'), El. replace (leaf (mm_mem s) r va =? 0) with false by lia.
  cbn [default]. rewrite Epb, Hf, rd_wr_bytes by done. do 3 f_equal. pose proof (Z.mod_pos_bound va' 4096 ltac:(lia)).
  destruct (decide (f + po <= _ < _)); [rewrite decide_True by lia; f_equal; lia|by rewrite decide_False by lia].
Qed.

Lemma wpp_map_page r elf seg va s own (Q : unit -> S -> Prop) (R : LoadError -> S -> Prop) : inv s own ∅ -> is_root own r -> private r s -> low_va va -> va mod 4096 = 0 -> bytes_ok elf ->
  (forall s' own', stage r s own s' own' -> (forall va', low_va va' -> view (mm_mem s') r va' = place elf seg va (view (mm_mem s) r) va') -> Q tt s') ->
  (forall s' own', stage r s own s' own' -> R OutOfMemory s') -> wpp (map_page r elf seg va) Q R s.
Proof.
  intros Hi Hr Hp Hva Hal Hok HQ HR. unfold map_page. apply wpp_bind. unfold wpp at 1, translate. destruct (canonical va); [|done]. cbn [negb].
  rewrite (translate_low _ own r va (i_wf _ _ _ Hi) Hr Hva). destruct (leaf (mm_mem s) r va =? 0) eqn:E0.
  - apply wpp_bind, wpp_bind, (wpp_alloc_at s own ∅); [done|by apply (HR s own), stage_refl|]. intros f a s1 Hi1 Hc1.
    apply wpp_assoc, (wpp_new_page s1 own); [done|done|done|done|done|]. intros s2 own2 Hst2 Hf2 Hn2 Hv2. apply wpp_ret.
    assert (is_root own2 r) as Hr2 by (by apply (k_root _ _ _ _ _ (sg_keep _ _ _ _ _ Hst2))).
    apply (wpp_fill_page r elf seg va s2 own2 f); [apply Hst2|done|apply Hst2|done|done|done|done|]. intros s3 Hst3 Hv3. apply (HQ s3 own2).
    + eapply stage_trans; [|exact Hst3]. by apply (stage_mem r s own s1).
    + intros va' Hva'. rewrite Hv3 by done. unfold place. rewrite Hv2 by done. destruct (decide (va' / 4096 = va / 4096)) as [Epg|]; [|done].
      assert (view (mm_mem s) r va' = None) as ->; [|done]. unfold view. by rewrite (leaf_page _ r va' va Epg), E0.
  - apply wpp_bind, wpp_ret. rewrite Z.land_ones by lia. change (2 ^ 12) with 4096. rewrite Hal, Z.add_0_r.
    apply (wpp_fill_page r elf seg va s own); try done; [lia|]. intros s' Hst Hv. by apply (HQ s' own).
Qed.

(** A loop that builds the address space of [r]: [G x] is what one round does to
    what user code finds. *)
Definition builds {X} (r : Z) (G : X -> (Z -> option (Z * bool * bool)) -> Z -> option (Z * bool * bool)) (f : st LoadError S unit) (l : list X) : Prop :=
  forall s own, inv s own ∅ -> is_root own r -> private r s ->
  wpp f (fun _ s' => exists own', stage r s own s' own' /\ forall va, low_va va -> view (mm_mem s') r va = fold_left (fun M x => G x M) l (view (mm_mem s) r) va)
    (fun _ s' => exists own', stage r s own s' own') s.

Definition pointwise {X} (G : X -> (Z -> option (Z * bool * bool)) -> Z -> option (Z * bool * bool)) : Prop :=
  forall x M M' va, M va = M' va -> G x M va = G x M' va.

Lemma fold_pointwise {X} (G : X -> (Z -> option (Z * bool * bool)) -> Z -> option (Z * bool * bool)) l : pointwise G -> pointwise (fun (_ : unit) M => fold_left (fun M x => G x M) l M).
Proof. intros HG _. induction l as [|x l IH]; intros M M' va E0; [done|]. cbn [fold_left]. apply IH. by apply HG. Qed.

Lemma builds_for {X} r G (f : X -> st LoadError S unit) l : pointwise G -> (forall x, x ∈ l -> builds r G (f x) [x]) -> builds r G (st_for l f) l.
Proof.
  intros HG. induction l as [|x l IH]; intros Hf s own Hi Hr Hp; cbn [st_for]; [apply wpp_ret; exists own; split; [by apply stage_refl|done]|].
  apply wpp_bind. eapply wpp_mono; [apply (Hf x ltac:(by left) s own Hi Hr Hp)| |done]. intros _ s1 (own1 & Hst1 & Hv1).
  assert (is_root own1 r) as Hr1 by (by apply (k_root _ _ _ _ _ (sg_keep _ _ _ _ _ Hst1))).
  eapply wpp_mono; [apply (IH (fun y Hy => Hf y ltac:(by right)) s1 own1 (sg_inv _ _ _ _ _ Hst1) Hr1 (sg_private _ _ _ _ _ Hst1))| |].
  - intros _ s2 (own2 & Hst2 & Hv2). exists own2. split; [by eapply stage_trans|]. intros va Hva. rewrite Hv2 by done. cbn [fold_left].
    apply (fold_pointwise G l HG tt). by apply Hv1.
  - intros e s2 (own2 & Hst2). exists own2. by eapply stage_trans.
Qed.

Lemma place_pointwise elf seg : pointwise (place elf seg).
Proof. intros va M M' va' E0. unfold place. by rewrite E0. Qed.

(** The pages of a segment, and those of the stack. *)
Definition place_segment (elf : list Z) (seg : Segment) (M : Z -> option (Z * bool * bool)) : Z -> option (Z * bool * bool) :=
  match seg_end seg with Ok vend => fold_left (fun M va => place elf seg va M) (seg_pages seg vend) M | _ => M end.

Lemma segment_pointwise elf : pointwise (place_segment elf).
Proof.
  intros seg M M' va E0. unfold place_segment. destruct (seg_end seg) as [vend| |]; [|done|done]. exact (fold_pointwise _ _ (place_pointwise elf seg) tt M M' va E0).
Qed.

Definition seg_low (seg : Segment) : Prop := 0 <= s_vaddr seg /\ 0 <= s_memsz seg /\ s_vaddr seg + s_memsz seg <= USER_IMAGE_MAX.

Lemma seg_end_eq seg vend : seg_low seg -> seg_end seg = Ok vend ->
  seg_start seg = 4096 * (s_vaddr seg / 4096) /\ vend = 4096 * ((s_vaddr seg + s_memsz seg + 4095) / 4096) /\ 0 <= seg_start seg /\ vend < 2 ^ 47.
Proof.
  intros (Hv & Hm & Hx). change USER_IMAGE_MAX with 140732924915712 in Hx. unfold seg_end, ok_or, checked_add_u64, res_bind.
  destruct (s_vaddr seg + s_memsz seg <=? u64_max); [|done]. destruct (_ + 4095 <=? u64_max); [|done]. intros [= <-]. unfold seg_start, page_floor. rewrite !page_floor_eq by lia.
  assert (0 <= s_vaddr seg / 4096) by (by apply Z.div_pos). assert (4096 * ((s_vaddr seg + s_memsz seg + 4095) / 4096) <= s_vaddr seg + s_memsz seg + 4095) by (apply Z.mul_div_le; lia).
  split_and!; [done|done|lia|lia].
Qed.

Lemma seg_page_low seg vend va : seg_low seg -> seg_end seg = Ok vend -> va ∈ seg_pages seg vend -> low_va va /\ va mod 4096 = 0 /\ seg_start seg <= va < vend.
Proof.
  intros Hlow Ev. destruct (seg_end_eq seg vend Hlow Ev) as (Es & Ee & H0' & H1'). unfold seg_pages. intros (i & -> & Hi%elem_of_seqZ)%list_elem_of_fmap.
  rewrite Es, Ee in *. set (p := s_vaddr seg / 4096) in *. set (q := (_ + 4095) / 4096) in *. replace (4096 * q - 4096 * p) with ((q - p) * 4096) in Hi by lia. rewrite Z.div_mul in Hi by lia.
  split; [split; lia|]. split; [|lia]. replace (4096 * p + 4096 * i) with ((p + i) * 4096) by lia. by apply Z.mod_mul.
Qed.

Lemma map_segment_builds r elf seg : bytes_ok elf -> seg_low seg -> builds r (place_segment elf) (map_segment r elf seg) [seg].
Proof.
  intros Hok Hlow s own Hi Hr Hp. unfold map_segment, place_segment. cbn [fold_left]. apply wpp_bind, wpp_res; [|intros e _; exists own; by apply stage_refl].
  intros vend Ev. rewrite Ev. apply (builds_for r (place elf seg)); try done; [apply place_pointwise|]. intros va Hin s1 own1 Hi1 Hr1 Hp1.
  destruct (seg_page_low seg vend va Hlow Ev Hin) as (Hva & Hal & _). cbn [fold_left].
  apply (wpp_map_page r elf seg va s1 own1); try done; [intros s' own' Hst Hv; by exists own'|intros s' own' Hst; by exists own'].
Qed.

Definition place_zero (va : Z) (M : Z -> option (Z * bool * bool)) (va' : Z) : option (Z * bool * bool) :=
  if decide (va' / 4096 = va / 4096) then Some (0, true, false) else M va'.

Definition stack_pages (stack_top : Z) : list Z := map (fun i => stack_top - USER_STACK_SIZE + 4096 * i) (seqZ 0 8).

Lemma map_stack_builds r top : USER_STACK_SIZE <= top < 2 ^ 47 -> builds r place_zero (map_stack r top) (stack_pages top).
Proof.
  intros Htop. apply builds_for; [intros va M M' va' E0; unfold place_zero; by rewrite E0|]. intros va Hin s own Hi Hr Hp.
  assert (low_va va) as Hva by (unfold stack_pages in Hin; apply list_elem_of_fmap in Hin as (i & -> & Hj%elem_of_seqZ); unfold USER_STACK_SIZE in *; split; lia).
  apply wpp_bind, (wpp_alloc_at s own ∅); [done|exists own; by apply stage_refl|]. intros f a s1 Hi1 Hc1.
  apply (wpp_new_page s1 own); [done|done|done|done|done|]. intros s2 own2 Hst2 _ _ Hv2. exists own2. split; [by apply (stage_mem r s own s1)|exact Hv2].
Qed.

(** ** What is where *)

Notation Cells := (Z -> option (Z * bool * bool)).

(** One round of the loop concerns [va]. *)
Lemma fold_none {X} (G : X -> Cells -> Cells) l M va : (forall x M, x ∈ l -> G x M va = M va) -> fold_left (fun M x => G x M) l M va = M va.
Proof. revert M. induction l as [|x l IH]; intros M Hn; [done|]. cbn [fold_left]. rewrite IH by (intros y M' Hy; apply Hn; by right). apply Hn. by left. Qed.

Lemma fold_one {X} (G : X -> Cells -> Cells) l x M va : pointwise G -> NoDup l -> x ∈ l -> (forall y M, y ∈ l -> y <> x -> G y M va = M va) ->
  fold_left (fun M x => G x M) l M va = G x M va.
Proof.
  intros HG Hnd Hx Hn. apply list_elem_of_split in Hx as (l1 & l2 & ->). rewrite fold_left_app. cbn [fold_left]. apply NoDup_app in Hnd as (_ & Hd & Hnd). apply NoDup_cons in Hnd as [Hx2 _].
  rewrite fold_none.
  - apply HG. apply fold_none. intros y M' Hy. apply Hn; [apply elem_of_app; by left|]. intros ->. apply (Hd x Hy). by left.
  - intros y M' Hy. apply Hn; [apply elem_of_app; right; by right|]. intros ->. done.
Qed.

(** A segment covers its pages. *)
Definition covers_page (seg : Segment) (va : Z) : Prop := exists vend, seg_end seg = Ok vend /\ seg_start seg <= va < vend.

Lemma segment_out elf seg M va : seg_low seg -> ~ covers_page seg va -> place_segment elf seg M va = M va.
Proof.
  intros Hlow Hn. unfold place_segment. destruct (seg_end seg) as [vend| |] eqn:Ev; [|done|done]. apply fold_none. intros p M' Hp.
  destruct (seg_page_low seg vend p Hlow Ev Hp) as (_ & Hal & Hr). unfold place. rewrite decide_False; [done|]. intros Epg. apply Hn. exists vend. split; [done|].
  destruct (seg_end_eq seg vend Hlow Ev) as (Es & Ee & _). pose proof (Z.div_mod va 4096 ltac:(lia)). pose proof (Z.mod_pos_bound va 4096 ltac:(lia)). pose proof (Z.div_mod p 4096 ltac:(lia)). lia.
Qed.

Definition page_of (va : Z) : Z := 4096 * (va / 4096).

Lemma segment_in elf seg M va : seg_low seg -> covers_page seg va -> place_segment elf seg M va = place elf seg (page_of va) M va.
Proof.
  intros Hlow (vend & Ev & Hr). unfold place_segment. rewrite Ev. destruct (seg_end_eq seg vend Hlow Ev) as (Es & Ee & _).
  apply (fold_one (fun p M => place elf seg p M)); [apply place_pointwise| | |].
  - unfold seg_pages. apply NoDup_fmap_2; [intros x y; lia|apply NoDup_seqZ].
  - unfold seg_pages. apply list_elem_of_fmap. exists (va / 4096 - s_vaddr seg / 4096). unfold page_of. split; [lia|]. apply elem_of_seqZ. rewrite Es, Ee in *.
    set (p := s_vaddr seg / 4096) in *. set (q := (_ + 4095) / 4096) in *. replace (4096 * q - 4096 * p) with ((q - p) * 4096) by lia. rewrite Z.div_mul by lia.
    pose proof (Z.div_mod va 4096 ltac:(lia)). pose proof (Z.mod_pos_bound va 4096 ltac:(lia)). lia.
  - intros p M' Hp Hne. destruct (seg_page_low seg vend p Hlow Ev Hp) as (_ & Hal & _). unfold place. rewrite decide_False; [done|]. intros Epg. apply Hne. unfold page_of.
    pose proof (Z.div_mod p 4096 ltac:(lia)). lia.
Qed.

(** What the format asks for: the bytes of the file, then zeros. *)
Definition image_byte (elf : list Z) (seg : Segment) (va : Z) : Z :=
  let i := va - s_vaddr seg in if i <? s_filesz seg then byte_at elf (s_offset seg + i) else 0.

Lemma place_image elf seg va M : seg_ok elf seg -> s_vaddr seg mod 4096 = 0 -> covers_page seg va -> M va = None ->
  place elf seg (page_of va) M va = Some (image_byte elf seg va, negb (has (s_flags seg) PF_X), has (s_flags seg) PF_X).
Proof.
  intros Hok Hal (vend & Ev & Hr) HM. destruct Hok as [Hv Hm He Hf Ho _]. assert (seg_low seg) as Hlow by (split_and!; lia).
  destruct (seg_end_eq seg vend Hlow Ev) as (Es & _). pose proof (Z.div_mod (s_vaddr seg) 4096 ltac:(lia)) as Hd. rewrite Hal, Z.add_0_r in Hd. rewrite <- Hd in Es.
  pose proof (Z.div_mod va 4096 ltac:(lia)). pose proof (Z.mod_pos_bound va 4096 ltac:(lia)).
  unfold place. rewrite decide_True by (unfold page_of; rewrite Z.mul_comm, Z.div_mul; lia). rewrite HM. cbn [default]. unfold page_bytes, page_of. rewrite Es, land_4095, Hal.
  replace (if 4096 * (va / 4096) - s_vaddr seg =? 0 then 0 else 0) with 0 by (by destruct (_ =? 0)). rewrite Z.add_0_r, Z.sub_0_r. unfold image_byte.
  assert (page_perms (seg_page_flags (s_flags seg)) = (negb (has (s_flags seg) PF_X), has (s_flags seg) PF_X)) as -> by (unfold seg_page_flags; by destruct (has (s_flags seg) PF_X)).
  cbn [fst snd]. f_equal. f_equal. f_equal. set (p := 4096 * (va / 4096) - s_vaddr seg) in *. set (k := va mod 4096) in *. replace (va - s_vaddr seg) with (p + k) by lia.
  assert (0 <= p) by lia. destruct (p <? s_filesz seg) eqn:Ep; [|replace (p + k <? s_filesz seg) with false by lia; by rewrite decide_False by (unfold elen; cbn; lia)].
  unfold elen in *. rewrite length_take, length_drop. destruct (p + k <? s_filesz seg) eqn:Ek; [|by rewrite decide_False by lia]. rewrite decide_True by lia.
  unfold byte_at. rewrite !nth_lookup, lookup_take_lt, lookup_drop by lia. do 2 f_equal. lia.
Qed.

(** Segments with pages of their own. *)
Definition apart (a b : Segment) : Prop := forall va, covers_page a va -> ~ covers_page b va.

Definition tidy (segs : list Segment) : Prop := Forall (fun g => s_vaddr g mod 4096 = 0) segs /\ ForallOrdPairs apart segs.

Lemma tidy_other segs seg : ForallOrdPairs apart segs -> seg ∈ segs -> forall va y, covers_page seg va -> y ∈ segs -> y <> seg -> ~ covers_page y va.
Proof.
  intros Hd Hin va y Hc Hy Hne Hcy. rewrite list_elem_of_In in Hin, Hy. destruct (ForallOrdPairs_In Hd _ _ Hin Hy) as [?|[Ha|Ha]]; [congruence|by apply (Ha va)|by apply (Ha va)].
Qed.

Lemma seg_covers elf seg va : seg_ok elf seg -> s_vaddr seg <= va < s_vaddr seg + s_memsz seg -> covers_page seg va.
Proof.
  intros [Hv Hm He _ _ _] Hva. assert (seg_low seg) as Hlow by (split_and!; lia). change USER_IMAGE_MAX with 140732924915712 in He. assert (exists vend, seg_end seg = Ok vend) as (vend & Ev).
  { unfold seg_end, ok_or, checked_add_u64, res_bind. replace (s_vaddr seg + s_memsz seg <=? u64_max) with true by (unfold u64_max; lia).
    replace (s_vaddr seg + s_memsz seg + 4095 <=? u64_max) with true by (unfold u64_max; lia). by eexists. }
  exists vend. split; [done|]. destruct (seg_end_eq seg vend Hlow Ev) as (-> & -> & _). mlia.
Qed.

Lemma tidy_nodup elf segs : Forall (seg_ok elf) segs -> ForallOrdPairs apart segs -> NoDup segs.
Proof.
  intros Hok. induction 1 as [|a l Ha _ IH]; [constructor|]. apply Forall_cons in Hok as [Hoka Hok]. constructor; [|by apply IH]. intros Hin.
  rewrite list.Forall_forall in Ha. specialize (Ha a Hin). apply (Ha (s_vaddr a)); (apply (seg_covers elf); [done|destruct Hoka; lia]).
Qed.

Lemma seg_ok_low elf seg : seg_ok elf seg -> seg_low seg.
Proof. intros [? ? ? _ _ _]. split_and!; lia. Qed.

(** The image of a program whose segments start on pages of their own. *)
Lemma image_placed elf segs seg va : Forall (seg_ok elf) segs -> tidy segs -> seg ∈ segs -> covers_page seg va ->
  fold_left (fun M g => place_segment elf g M) segs (fun _ => None) va = Some (image_byte elf seg va, negb (has (s_flags seg) PF_X), has (s_flags seg) PF_X).
Proof.
  intros Hok [Hal Hd] Hin Hc. assert (forall g, g ∈ segs -> seg_low g) as Hlow by (intros g Hgs; rewrite list.Forall_forall in Hok; by apply (seg_ok_low elf), Hok).
  rewrite (fold_one (place_segment elf) segs seg _ va (segment_pointwise elf) (tidy_nodup elf segs Hok Hd) Hin).
  - rewrite segment_in by auto. rewrite list.Forall_forall in Hok, Hal. apply place_image; [by apply Hok|by apply Hal|done|done].
  - intros y M Hy Hne. apply segment_out; [by apply Hlow|]. exact (tidy_other segs seg Hd Hin va y Hc Hy Hne).
Qed.

Lemma image_none elf segs va : Forall (seg_ok elf) segs -> (forall seg, seg ∈ segs -> ~ covers_page seg va) ->
  fold_left (fun M g => place_segment elf g M) segs (fun _ => None) va = None.
Proof.
  intros Hok Hn. rewrite fold_none; [done|]. intros seg M Hs. apply segment_out; [|by apply Hn]. rewrite list.Forall_forall in Hok. by apply (seg_ok_low elf), Hok.
Qed.

(** The pages of the stack, above those of any image. *)
Lemma stack_in top M va : top mod 4096 = 0 -> fold_left (fun M p => place_zero p M) (stack_pages top) M va =
  if decide (top - USER_STACK_SIZE <= va < top) then Some (0, true, false) else M va.
Proof.
  intros Htop. unfold stack_pages, USER_STACK_SIZE. pose proof (Z.div_mod top 4096 ltac:(lia)) as Hd. rewrite Htop, Z.add_0_r in Hd. destruct (decide (top - 32768 <= va < top)) as [Hr|Hr].
  - rewrite (fold_one place_zero _ (page_of va)); [unfold place_zero, page_of; rewrite decide_True; [done|mlia]| | | |].
    + intros p M' M'' va' E0. unfold place_zero. by rewrite E0.
    + apply NoDup_fmap_2; [intros x y; lia|apply NoDup_seqZ].
    + apply list_elem_of_fmap. exists (va / 4096 - (top / 4096 - 8)). unfold page_of. split; [mlia|]. apply elem_of_seqZ. mlia.
    + intros p M' (i & -> & Hi%elem_of_seqZ)%list_elem_of_fmap Hne. unfold place_zero. rewrite decide_False; [done|]. intros Epg. apply Hne. unfold page_of. mlia.
  - apply fold_none. intros p M' (i & -> & Hi%elem_of_seqZ)%list_elem_of_fmap. unfold place_zero. rewrite decide_False; [done|]. intros Epg. mlia.
Qed.

(** No page is both writable and executable. *)
Definition no_wx (M : Cells) : Prop := forall va b w x, M va = Some (b, w, x) -> w && x = false.

Lemma fold_no_wx {X} (G : X -> Cells -> Cells) l M : (forall x M, no_wx M -> no_wx (G x M)) -> no_wx M -> no_wx (fold_left (fun M x => G x M) l M).
Proof. intros HG. revert M. induction l as [|x l IH]; intros M HM; [done|]. cbn [fold_left]. by apply IH, HG. Qed.

Lemma place_no_wx elf seg va M : no_wx M -> no_wx (place elf seg va M).
Proof.
  intros HM va' b w x. unfold place. destruct (decide _); [|apply HM]. destruct (page_bytes elf seg va) as [po bs]. destruct (M va') as [[[b0 w0] x0]|] eqn:E0; cbn [default].
  - intros [= _ <- <-]. by apply (HM va' b0).
  - intros [= _ <- <-]. unfold seg_page_flags. by destruct (has (s_flags seg) PF_X).
Qed.

Lemma program_no_wx elf segs top : no_wx (fold_left (fun M p => place_zero p M) (stack_pages top) (fold_left (fun M g => place_segment elf g M) segs (fun _ => None))).
Proof.
  apply fold_no_wx; [intros p M HM va b w x; unfold place_zero; destruct (decide _); [by intros [= _ <- <-]|apply HM]|]. apply fold_no_wx; [|done].
  intros g M HM. unfold place_segment. destruct (seg_end g) as [vend| |]; [|done|done]. apply fold_no_wx; [|done]. intros p M' HM'. by apply place_no_wx.
Qed.

(** ** The extent of the image *)

Definition floor_of (segs : list Segment) : Z := fold_left (fun m g => Z.min m (seg_start g)) segs u64_max.
Definition top_of (segs : list Segment) : Z := fold_left (fun m g => Z.max m (page_floor (s_vaddr g + s_memsz g + 4095))) segs 0.

Definition paged (x : Z) : Prop := x mod 4096 = 0.

Lemma fold_bounds (f : Z -> Segment -> Z) (P : Z -> Prop) segs m : (forall m g, g ∈ segs -> P m -> P (f m g)) -> P m -> P (fold_left f segs m).
Proof.
  revert m. induction segs as [|g l IH]; intros m Hf Hm; [done|]. cbn [fold_left]. apply IH; [intros m' g' Hg'; apply Hf; by right|]. apply Hf; [by left|done].
Qed.

Lemma seg_start_ok elf g : seg_ok elf g -> 0 <= seg_start g < USER_IMAGE_MAX /\ paged (seg_start g).
Proof.
  intros [Hv Hm He _ _ _]. unfold seg_start, page_floor, paged. change USER_IMAGE_MAX with 140732924915712 in *. rewrite page_floor_eq by lia. mlia.
Qed.

Lemma seg_top_ok elf g : seg_ok elf g -> let t := page_floor (s_vaddr g + s_memsz g + 4095) in seg_start g < t <= USER_IMAGE_MAX /\ paged t.
Proof.
  intros [Hv Hm He _ _ _]. unfold seg_start, page_floor, paged. change USER_IMAGE_MAX with 140732924915712 in *. rewrite !page_floor_eq by lia. mlia.
Qed.

Lemma extent_ok elf segs : Forall (seg_ok elf) segs -> segs <> [] ->
  0 <= floor_of segs <= top_of segs /\ top_of segs <= USER_IMAGE_MAX /\ paged (floor_of segs) /\ paged (top_of segs).
Proof.
  intros Hok Hne. destruct segs as [|g l]; [done|]. unfold floor_of, top_of. cbn [fold_left]. apply Forall_cons in Hok as [Hg Hl]. rewrite list.Forall_forall in Hl.
  destruct (seg_start_ok elf g Hg) as [[Hs0 Hs1] Hsp]. destruct (seg_top_ok elf g Hg) as [[Ht0 Ht1] Htp]. change USER_IMAGE_MAX with 140732924915712 in *.
  set (t := page_floor _) in *. replace (Z.min u64_max (seg_start g)) with (seg_start g) by (unfold u64_max; lia). replace (Z.max 0 t) with t by lia.
  assert ((fun x => 0 <= x <= seg_start g /\ paged x) (fold_left (fun m g => Z.min m (seg_start g)) l (seg_start g))) as [Hf Hfp].
  { apply fold_bounds; [|split; [lia|done]]. intros m h Hh [Hm Hmp]. destruct (seg_start_ok elf h (Hl h Hh)) as [[? ?] ?]. destruct (Z.min_spec m (seg_start h)) as [[? ->]|[? ->]]; (split; [lia|done]). }
  assert ((fun x => t <= x <= 140732924915712 /\ paged x) (fold_left (fun m g => Z.max m (page_floor (s_vaddr g + s_memsz g + 4095))) l t)) as [Hx Hxp].
  { apply fold_bounds; [|split; [lia|done]]. intros m h Hh [Hm Hmp]. destruct (seg_top_ok elf h (Hl h Hh)) as [[? ?] ?]. change USER_IMAGE_MAX with 140732924915712 in *.
    destruct (Z.max_spec m (page_floor (s_vaddr h + s_memsz h + 4095))) as [[? ->]|[? ->]]; (split; [lia|done]). }
  split; [lia|]. split; [lia|done].
Qed.

(** ** A new address space *)

(** [create_process] on the page tables. *)
Definition load_pages (kernel_root : Z) (elf : list Z) (segs : list Segment) (top : Z) : st LoadError S Z :=
  let* root := clone_high_half kernel_root in
  let* _ := or_destroy kernel_root root (st_for segs (map_segment root elf)) in
  let* _ := or_destroy kernel_root root (map_stack root top) in
  st_ret root.

(** The address space of [c] is new, over those of [s]. *)
Record begun (c : Z) s own s' own' : Prop := {
  bg_new : own !! c = None;
  bg_alive : alive s' own';
  bg_keep : keeps (fun r _ => r = c) s own s' own';
  bg_clones : mm_clones s' = mm_clones s ++ [c];
  bg_private : private c s'
}.

Lemma begun_root c s own s' own' : begun c s own s' own' -> is_root own' c.
Proof. intros Hb. apply (al_roots _ _ (bg_alive _ _ _ _ _ Hb)). rewrite (bg_clones _ _ _ _ _ Hb). apply elem_of_app. right. by apply list_elem_of_singleton. Qed.

Lemma begun_stage c s own s1 own1 s2 own2 : begun c s own s1 own1 -> stage c s1 own1 s2 own2 -> begun c s own s2 own2.
Proof.
  intros [Hn Ha Hk Hc Hp] [Hi2 Hk2 Hc2 Hp2]. constructor; [done| |by eapply spaces_trans|congruence|done]. eapply alive_same; [exact Ha|done|done|apply Hk2].
Qed.

(** The others, once it is there, and once it is gone again. *)
Definition all_kept s s' : Prop := (exists own', alive s' own') /\
  forall r, r ∈ mm_clones s -> r ∈ mm_clones s' /\ forall va, low_va va -> load (mm_mem s') r va = load (mm_mem s) r va.

Lemma begun_kept c s own s' own' : alive s own -> begun c s own s' own' -> all_kept s s'.
Proof.
  intros Ha [Hn Ha' Hk Hc Hp]. split; [by exists own'|]. intros r Hr. assert (r ∈ mm_clones s') as Hr' by (rewrite Hc; apply elem_of_app; by left). split; [done|].
  intros va Hva. rewrite (load_alive s' own' r va Ha' Hr' Hva), (load_alive s own r va Ha Hr Hva). pose proof (al_roots _ _ Ha r Hr) as Hro.
  apply (k_peek _ _ _ _ _ Hk); [done|done|]. intros ->. unfold is_root in Hro. congruence.
Qed.

Lemma wpp_undo k c s own s1 own1 (e : LoadError) : alive s own -> begun c s own s1 own1 -> mm_clones s <> [] ->
  wpp (let* _ := destroy_root k c in st_err (A := unit) e) (fun _ _ => False) (fun _ s' => all_kept s s') s1.
Proof.
  intros Ha Hb Hne. pose proof (begun_root _ _ _ _ _ Hb) as Hr. pose proof Hb as [Hn Ha1 Hk1 Hc1 _].
  apply wpp_bind. eapply wpp_mono; [apply (wpp_destroy s1 own1 ∅ k c (fun _ s' => all_kept s s')); [apply Ha1|done|rewrite Hc1, length_app; cbn; destruct (mm_clones s); [done|cbn; lia]|]|by intros ? s2 ?|done].
  intros s2 own2 Hi2 Hk2 Hp2. assert (forall r, r ∈ mm_clones s -> r <> c) as Hrc by (intros r Hin ->; by apply (new_unknown s own c Ha Hn)).
  assert (mm_clones s2 ≡ₚ mm_clones s) as Hcl.
  { apply (Permutation_cons_inv (a := c)). rewrite <- Hp2, Hc1. symmetry. apply Permutation_cons_append. }
  assert (forall r, r ∈ mm_clones s -> r ∈ mm_clones s2) as Hin2 by (intros r; by rewrite Hcl).
  assert (alive s2 own2) as Ha2.
  { constructor; [done|rewrite Hcl; apply Ha|]. intros r. rewrite Hcl. intros Hin. apply Hk2; [apply (k_root _ _ _ _ _ Hk1), (al_roots _ _ Ha r Hin)|by apply Hrc]. }
  split; [by exists own2|]. intros r Hin. split; [by apply Hin2|]. intros va Hva. rewrite (load_alive s2 own2 r va Ha2 (Hin2 r Hin) Hva), (load_alive s own r va Ha Hin Hva).
  pose proof (al_roots _ _ Ha r Hin) as Hro. pose proof (k_root _ _ _ _ _ Hk1 r Hro) as Hro1. rewrite (proj2 (Hk2 r Hro1 (Hrc r Hin)) va Hva).
  apply (k_peek _ _ _ _ _ Hk1); [done|done|by apply Hrc].
Qed.

Lemma wpp_begin k s own (Q : Z -> S -> Prop) (R : LoadError -> S -> Prop) : alive s own ->
  (forall c s' own', begun c s own s' own' -> (forall va, low_va va -> view (mm_mem s') c va = None) -> Q c s') -> wpp (clone_high_half k) Q R s.
Proof.
  intros Ha HQ. apply (wpp_clone_high s own ∅); [apply Ha|]. intros c s' Hc Hi' Hk Hl Hcl Hz. set (own' := <[c := mkPos c 3 0]> own) in *.
  assert (is_root own' c) as Hr by (unfold is_root, own'; by rewrite lookup_insert_eq).
  assert (forall va, low_va va -> leaf (mm_mem s') c va = 0) as Hno.
  { intros va Hva. apply (leaf_none _ own' c va 3 c (i_wf _ _ _ Hi') Hva); [lia|exact (root_pos own' c va Hva Hr)|]. apply Hz, (low_top va Hva). }
  apply (HQ c s' own'); [|intros va Hva; unfold view; by rewrite (Hno va Hva)]. constructor; [done| |by apply keeps_none|done|intros va Hva Hn; by rewrite (Hno va Hva) in Hn].
  eapply alive_new; [exact Ha|by apply (new_unknown s own)|done|done|done|apply Hk].
Qed.

Lemma wpp_or_destroy {X} k c s own s1 own1 (G : X -> Cells -> Cells) m l : alive s own -> begun c s own s1 own1 -> builds c G m l ->
  wpp (or_destroy k c m) (fun _ s' => exists own', begun c s own s' own' /\ forall va, low_va va -> view (mm_mem s') c va = fold_left (fun M x => G x M) l (view (mm_mem s1) c) va)
    (fun _ s' => mm_clones s <> [] -> all_kept s s') s1.
Proof.
  intros Ha Hb Hm. unfold or_destroy. apply wpp_catch. eapply wpp_mono; [apply (Hm s1 own1); [apply Hb|by eapply begun_root|apply Hb]| |].
  - intros [] s2 (own2 & Hst & Hv). apply wpp_ret. exists own2. split; [by eapply begun_stage|done].
  - intros e s2 (own2 & Hst). pose proof (begun_stage _ _ _ _ _ _ _ Hb Hst) as Hb2. destruct (mm_clones s) as [|x l0] eqn:Ecl.
    + unfold wpp, st_bind. by destruct (destroy_root k c s2) as [s3 [[]|?|]].
    + eapply wpp_mono; [apply (wpp_undo k c s own s2 own2 e Ha Hb2); by rewrite Ecl|done|done].
Qed.

(** The pages of a program, in a new address space. *)
Definition program (elf : list Z) (segs : list Segment) (top : Z) : Cells :=
  fold_left (fun M p => place_zero p M) (stack_pages top) (fold_left (fun M g => place_segment elf g M) segs (fun _ => None)).

Lemma wpp_load_pages k elf segs top s own : alive s own -> bytes_ok elf -> Forall seg_low segs -> USER_STACK_SIZE <= top < 2 ^ 47 ->
  wpp (load_pages k elf segs top) (fun c s' => exists own', begun c s own s' own' /\ forall va, low_va va -> view (mm_mem s') c va = program elf segs top va)
    (fun _ s' => mm_clones s <> [] -> all_kept s s') s.
Proof.
  intros Ha Hok Hlow Htop. unfold load_pages. apply wpp_bind, (wpp_begin k s own); [done|]. intros c s1 own1 Hb1 Hv1.
  assert (builds c (place_segment elf) (st_for segs (map_segment c elf)) segs) as Hm.
  { apply builds_for; [apply segment_pointwise|]. intros g Hg. rewrite list.Forall_forall in Hlow. by apply map_segment_builds; [|apply Hlow]. }
  apply wpp_bind. eapply wpp_mono; [apply (wpp_or_destroy k c s own s1 own1 _ _ _ Ha Hb1 Hm)| |done]. intros _ s2 (own2 & Hb2 & Hv2).
  apply wpp_bind. eapply wpp_mono; [apply (wpp_or_destroy k c s own s2 own2 _ _ _ Ha Hb2 (map_stack_builds c top Htop))| |done]. intros _ s3 (own3 & Hb3 & Hv3).
  apply wpp_ret. exists own3. split; [done|]. intros va Hva. rewrite Hv3 by done. unfold program.
  assert (pointwise place_zero) as Hz by (intros p M M' va' E0; unfold place_zero; by rewrite E0). apply (fold_pointwise place_zero _ Hz tt). rewrite Hv2 by done.
  apply (fold_pointwise _ _ (segment_pointwise elf) tt). by apply Hv1.
Qed.

(** ** The process *)

Notation U := (Um (A := A)).

Definition spawned (u u' : U) : Prop := good u' /\ forall i a, space i u = Some a ->
  space i u' = Some a /\ forall va, low_va va -> load (mm_mem (us_mm u')) (as_root a) va = load (mm_mem (us_mm u)) (as_root a) va.

Lemma kept_spawned u s' : good u -> all_kept (us_mm u) s' -> spawned u (mkUm s' (us_slots u) (us_free u)).
Proof.
  intros Hg [Hal Hk]. split.
  - constructor; [done| |apply (gd_apart _ Hg)|apply (gd_free _ Hg)]. intros i a Hs. destruct (gd_space _ Hg i a Hs) as [Ha Hr]. split; [done|]. by apply (Hk _ Hr).
  - intros i a Hs. split; [done|]. apply Hk, (gd_space _ Hg i a Hs).
Qed.

Lemma slot_spawned {E} u u1 a u' idx : good u -> spawned u u1 -> (forall i b, space i u1 = Some b -> space i u = Some b) -> sane a -> as_root a ∈ mm_clones (us_mm u1) -> ~ as_root a ∈ mm_clones (us_mm u) ->
  new_slot (E := E) a u1 = (u', Ok idx) -> spawned u u' /\ us_mm u' = us_mm u1 /\ space idx u' = Some a.
Proof.
  intros Hg [Hg1 Hk1] Hback Ha Hin Hout E0. assert (forall i b, space i u1 = Some b -> as_root b <> as_root a) as Hnew.
  { intros i b Hb E1. apply Hout. rewrite <- E1. apply (gd_space _ Hg i b (Hback i b Hb)). }
  destruct (slot_good u1 a u' idx Hg1 Ha Hin Hnew E0) as (Hg2 & Em & Hk2). split; [|split; [done|]].
  - split; [done|]. intros i b Hb. destruct (Hk1 i b Hb) as [Hb1 Hl1]. split; [by apply Hk2|]. by rewrite Em.
  - destruct (gd_free _ Hg1) as [Hnd Hfr]. destruct (slot_spec u1 a u' idx Hnd Hfr E0) as (_ & _ & Hsp & _). by rewrite Hsp, decide_True.
Qed.

(** The parts of [create_process]: nothing, or the pages and then a slot. *)
Lemma create_run k elf rnd (u u' : U) r : create_process k elf rnd u = (u', r) -> r <> Panic ->
  (exists e, r = Err e /\ u' = u) \/ exists segs s', parse_segments elf = Ok segs /\
  ((exists e, load_pages k elf segs (aslr_stack_top rnd) (us_mm u) = (s', Err e) /\ r = Err e /\ u' = mkUm s' (us_slots u) (us_free u)) \/
   exists root entry vm, load_pages k elf segs (aslr_stack_top rnd) (us_mm u) = (s', Ok root) /\ entry_ok entry segs = true /\
     register (E := LoadError) root (floor_of segs) (top_of segs) (aslr_stack_top rnd) URW (mkUm s' (us_slots u) (us_free u)) = (u', Ok vm) /\
     r = Ok (root, entry, aslr_stack_top rnd, vm)).
Proof.
  unfold create_process, load_pages, st_bind, st_res, on_mm. destruct (read_le 8 elf 24) as [entry|e|]; [|by intros [= <- <-]; left; exists e|by intros [= <- <-]].
  destruct (parse_segments elf) as [segs|e|] eqn:Ep; [|by intros [= <- <-]; left; exists e|by intros [= <- <-]].
  destruct (entry_ok entry segs) eqn:Ee; [|by intros [= <- <-]; left; eexists]. cbn [negb]. intros E0 Hr. right. exists segs. revert E0.
  destruct (clone_high_half k (us_mm u)) as [s1 [c|e|]]; cbn [us_mm us_slots us_free]; [|by intros [= <- <-]; exists s1; split; [done|]; left; exists e|intros [= <- <-]; done].
  destruct (or_destroy k c (st_for segs (map_segment c elf)) s1) as [s2 [[]|e|]]; cbn [us_mm us_slots us_free]; [|by intros [= <- <-]; exists s2; split; [done|]; left; exists e|intros [= <- <-]; done].
  destruct (or_destroy k c (map_stack c (aslr_stack_top rnd)) s2) as [s3 [[]|e|]]; cbn [us_mm us_slots us_free]; [|by intros [= <- <-]; exists s3; split; [done|]; left; exists e|intros [= <- <-]; done].
  unfold image_extent. fold (floor_of segs). fold (top_of segs). cbn [st_ret]. destruct (register c _ _ _ URW _) as [u4 [vm|e|]] eqn:Er; [| |intros [= <- <-]; done].
  - intros [= <- <-]. exists s3. split; [done|]. right. exists c, entry, vm. done.
  - exfalso. assert (forall z e, u64_op (E := LoadError) z <> Err e) as Hno by (intros z e'; unfold u64_op; destruct (_ && _); [done|]; by destruct debug_profile).
    revert Er. unfold register, st_bind, st_res, u64_sub, st_get, new_slot. destruct (u64_op (aslr_stack_top rnd - _)) as [x|e'|] eqn:E1; [|by case (Hno _ _ E1)|done].
    destruct (u64_op (top_of segs - _)) as [y|e'|] eqn:E2; [|by case (Hno _ _ E2)|done]. by destruct (rev _).
Qed.

Lemma stack_top_ok rnd : let top := aslr_stack_top rnd in USER_IMAGE_MAX + 4096 + USER_STACK_SIZE <= top <= USER_STACK_TOP /\ paged top.
Proof.
  unfold aslr_stack_top, paged. change (USER_STACK_ASLR_WINDOW / 4096) with 65536. pose proof (Z.mod_pos_bound rnd 65536 ltac:(lia)). set (p := rnd mod 65536) in *.
  change USER_STACK_TOP with (34358689792 * 4096). change USER_IMAGE_MAX with 140732924915712. unfold USER_STACK_SIZE. split; [lia|]. rewrite <- Z.mul_sub_distr_r. by apply Z.mod_mul.
Qed.

(** The record of the new process. *)
Definition first_space (root floor itop top budget : Z) : AddressSpace :=
  mkAsp root itop itop top ((itop - floor) / 4096 + 8) budget
    [mkRegion Image floor ((itop - floor) / 4096) URW false false 0; mkRegion Stack (top - 8 * 4096) 8 URW true false 0].

Lemma first_sane root floor itop top budget : 0 <= floor <= itop -> itop <= USER_IMAGE_MAX -> paged floor -> paged itop -> USER_STACK_SIZE <= top <= USER_STACK_TOP -> paged top ->
  sane (first_space root floor itop top budget).
Proof.
  unfold paged. intros Hf Hi Hpf Hpi Ht Hpt. change USER_IMAGE_MAX with 140732924915712 in Hi. change USER_STACK_TOP with 140733193388032 in Ht. unfold USER_STACK_SIZE in Ht.
  constructor; cbn [first_space brk_floor brk_cur regions]; [lia|done| |].
  - repeat apply Forall_cons_2; [| |by apply Forall_nil_2]; unfold in_user, user_range; cbn [vaddr pages]; split_and!; try mlia.
  - repeat apply Forall_cons_2; [| |by apply Forall_nil_2]; done.
Qed.

Lemma register_run {E} root floor itop top (u u' : U) vm : 0 <= floor <= itop -> itop <= USER_IMAGE_MAX -> USER_STACK_SIZE <= top <= USER_STACK_TOP ->
  register (E := E) root floor itop top URW u = (u', Ok vm) -> exists budget, new_slot (E := E) (first_space root floor itop top budget) u = (u', Ok vm).
Proof.
  intros Hf Hi Ht. change USER_IMAGE_MAX with 140732924915712 in Hi. change USER_STACK_TOP with 140733193388032 in Ht. unfold USER_STACK_SIZE in Ht.
  unfold register, st_bind, st_res, u64_sub, st_get, PAGE. rewrite !u64_op_Ok by (unfold u64_max; lia). intros E0. eexists. exact E0.
Qed.

Lemma create_spawned k elf rnd (u u' : U) r : good u -> bytes_ok elf -> create_process k elf rnd u = (u', r) -> r <> Panic -> (mm_clones (us_mm u) <> [] \/ exists x, r = Ok x) -> spawned u u' /\
  (forall root entry top vm, r = Ok (root, entry, top, vm) -> exists segs a, parse_segments elf = Ok segs /\ entry_ok entry segs = true /\ top = aslr_stack_top rnd /\
     space vm u' = Some a /\ as_root a = root /\ forall va, low_va va -> view (mm_mem (us_mm u')) root va = program elf segs top va).
Proof.
  intros Hg Hok E0 Hnp Hcase. destruct (gd_alive _ Hg) as (own & Ha). destruct (create_run k elf rnd u u' r E0 Hnp) as [(e & -> & ->)|(segs & s' & Ep & Hrun)]; [by split|].
  pose proof (parse_segments_safe elf Hok) as Hsafe. rewrite Ep in Hsafe. destruct Hsafe as (Hne & Hsegs & _). destruct (stack_top_ok rnd) as [Ht Htp].
  change USER_STACK_TOP with 140733193388032 in Ht. change USER_IMAGE_MAX with 140732924915712 in Ht. unfold USER_STACK_SIZE in Ht.
  assert (USER_STACK_SIZE <= aslr_stack_top rnd <= USER_STACK_TOP) as Htt by (unfold USER_STACK_SIZE, USER_STACK_TOP; lia).
  assert (Forall seg_low segs) as Hlow by (apply (Forall_impl _ _ _ Hsegs); intros g Hgs; by apply (seg_ok_low elf)).
  pose proof (wpp_load_pages k elf segs (aslr_stack_top rnd) (us_mm u) own Ha Hok Hlow ltac:(unfold USER_STACK_SIZE; lia)) as Hw.
  destruct Hrun as [(e & El & -> & ->)|(root & entry & vm & El & Hent & Er & ->)].
  - pose proof (wpp_run _ _ _ _ _ _ Hw El) as Hk. split; [|done]. apply kept_spawned; [done|]. apply Hk. by destruct Hcase as [?|(x & ?)].
  - destruct (wpp_run _ _ _ _ _ _ Hw El) as (own' & Hb & Hv). destruct (extent_ok elf segs Hsegs Hne) as (Hf1 & Hf2 & Hf3 & Hf4). pose proof (begun_root _ _ _ _ _ Hb) as Hroot.
    destruct (register_run root _ _ _ _ u' vm Hf1 Hf2 Htt Er) as (budget & Es).
    destruct (slot_spawned (E := LoadError) u (mkUm s' (us_slots u) (us_free u)) _ u' vm Hg (kept_spawned u s' Hg (begun_kept _ _ _ _ _ Ha Hb)) ltac:(done)
      (first_sane root _ _ _ budget Hf1 Hf2 Hf3 Hf4 Htt Htp)) as (Hsp & Em & Hs); [| |exact Es|].
    + apply (i_clones _ _ _ (al_inv _ _ (bg_alive _ _ _ _ _ Hb))), Hroot.
    + apply (new_unknown _ own); [done|apply Hb].
    + split; [done|]. intros root' entry' top' vm' [= <- <- <- <-]. exists segs. eexists. split_and!; [done|done|done|exact Hs|done|]. rewrite Em. exact Hv.
Qed.
End Load.
