(* ===== verification/Processes.v ===== *)
(** * Processes

    The system from boot on: programs are loaded, processes call the kernel, fault,
    store, fork and exit, in any order.  What a new process finds in its memory, and
    that no process reaches another. *)

From stdpp Require Import gmultiset.
From S2P Require Import Prelude Bits PhysAlloc State Vmm VmmFacts VmmTree VmmInv VmmKeep VmmMap UserMem VmmRange VmmClone VmmSafe VmmBoot UserMemSafe ElfLoad ElfLoadSafe.
Local Open Scope Z_scope.

(** What user code finds at [va]: the byte, and whether the page may be written and
    executed. *)
Definition sees (m : gmap Z Z) (root va : Z) : option (Z * bool * bool) :=
  match translate_user m root va, walk_leaf m root va with
  | Some (pa, _, w), Some t => Some (rd_byte m pa, w, negb (has (read_pte m t (vidx 0 va)) PTE_NX))
  | _, _ => None
  end.

Lemma sees_view m own r va : wf m own -> is_root own r -> low_va va -> sees m r va = view m r va.
Proof.
  intros Hwf Hr Hva. unfold sees, view. rewrite walk_leaf_tbl. pose proof (translate_user_low m own r va Hwf Hr Hva) as Ht. unfold leaf in *.
  destruct (translate_user m r va) as [[[pa b] w]|]; [|by rewrite Ht]. destruct Ht as (Hn & -> & ->). pose proof (leaf_frame m own r va Hwf Hr Hva) as Hf. unfold leaf in Hf.
  destruct (tbl m r va 3) as [t|]; [|done]. replace (_ =? 0) with false by lia. destruct (Hf Hn) as [Hfr _]. do 4 f_equal.
  assert (Z.land (pte_frame (read_pte m t (vidx 0 va))) (va mod 4096) = 0) as Hz.
  { apply Z.bits_inj'. intros i Hi. rewrite Z.land_spec, Z.bits_0. destruct (Z.testbit _ i) eqn:Eb; [|done]. pose proof (is_frame_bits _ i Hfr Hi Eb). apply (testbit_out 12); [|lia].
    apply Z.mod_pos_bound. lia. }
  rewrite Z.land_ones by lia. change (2 ^ 12) with 4096. by rewrite <- Z.lxor_lor, <- Z.add_nocarry_lxor by done.
Qed.

Lemma entry_executable entry segs : entry_ok entry segs = true -> exists g, g ∈ segs /\ has (s_flags g) PF_X = true /\ s_vaddr g <= entry < s_vaddr g + s_memsz g.
Proof.
  unfold entry_ok. intros (g & Hin & Hg)%existsb_exists. exists g. split; [by apply list_elem_of_In|]. apply andb_true_iff in Hg as [Hg H3]. apply andb_true_iff in Hg as [H1 H2].
  unfold sat_add_u64 in H3. split; [done|lia].
Qed.

Section Processes.
Context `{Profile} {A : Type} `{FrameLaws A}.
Notation U := (Um (A := A)).
Implicit Types (u : U).

(** Memory at boot, and no process. *)
Definition start u : Prop := boot (us_mm u) /\ us_slots u = [] /\ us_free u = [].

(** A program is loaded, or is not; what a failed load undoes is not the only
    address space. *)
Definition spawn u u' : Prop := exists k elf rnd r, bytes_ok elf /\ create_process k elf rnd u = (u', r) /\ r <> Panic /\ (mm_clones (us_mm u) <> [] \/ exists x, r = Ok x).

Definition event u u' : Prop := spawn u u' \/ exists vm, process vm u u'.
Definition event_of_others (i : nat) u u' : Prop := spawn u u' \/ exists vm, vm <> i /\ process vm u u'.

Lemma start_good u : start u -> good u.
Proof.
  intros (Hb & Es & Ef). constructor; [exists ∅; by apply boot_alive| | |rewrite Ef; split; [constructor|by intros i ?%elem_of_nil]]; unfold space; rewrite Es; done.
Qed.

Lemma spawn_spawned u u' : good u -> spawn u u' -> spawned u u'.
Proof. intros Hg (k & elf & rnd & r & Hok & E0 & Hnp & Hcase). by destruct (create_spawned k elf rnd u u' r Hg Hok E0 Hnp Hcase). Qed.

Lemma reach_good u0 u : start u0 -> rtc event u0 u -> good u.
Proof.
  intros Hs Hrun. apply start_good in Hs. induction Hrun as [u|u u1 u2 [Hsp|(vm & Hp)] _ IH]; [done| |]; apply IH; [by apply (spawn_spawned u)|by apply (process_spared vm u)].
Qed.

(** C1: Isolation of processes.  From boot on, whatever programs are loaded and
    whatever the other processes do, in any order and number (calls of [brk], [mmap],
    [munmap] and [pkey_protect], page faults, stores, successful forks, exits), a
    process keeps its regions, its break and its budget, and reads the same at every
    address of the user half.  The steps are those that do not stop the kernel.  A
    fork is one that succeeds, of a process whose writable pages are in its writable
    regions; an exit is of a process other than the first one, and not of the last
    address space, which a failed load is not either. *)
Theorem processes_isolated u0 u i a u' : start u0 -> rtc event u0 u -> space i u = Some a -> rtc (event_of_others i) u u' ->
  space i u' = Some a /\ forall va, low_va va -> load (mm_mem (us_mm u')) (as_root a) va = load (mm_mem (us_mm u)) (as_root a) va.
Proof.
  intros Hst Hreach Hs Hrun. pose proof (reach_good u0 u Hst Hreach) as Hg. clear Hst Hreach. induction Hrun as [u|u u1 u2 Hev _ IH]; [done|].
  assert (good u1 /\ space i u1 = Some a /\ forall va, low_va va -> load (mm_mem (us_mm u1)) (as_root a) va = load (mm_mem (us_mm u)) (as_root a) va) as (Hg1 & Hs1 & Hl1).
  { destruct Hev as [Hsp|(vm & Hne & Hp)]; [destruct (spawn_spawned u u1 Hg Hsp) as [Hg1 Hk]|destruct (process_spared vm u u1 Hg Hp) as [Hg1 Hk]]; split; auto. }
  destruct (IH Hs1 Hg1) as [Hs2 Hl2]. split; [done|]. intros va Hva. rewrite Hl2 by done. by apply Hl1.
Qed.

(** C7: A loaded program.  When [create_process] succeeds, the entry point is in an
    executable segment; user code of the new process finds 32 KiB of zeros for its
    stack, and no page that is both writable and executable; and if the segments
    start on pages of their own, it finds at every address of a segment the byte of
    the file, or zero beyond the file's bytes, and nothing outside of the pages of
    segments and stack.  Executable segments are mapped executable and read-only; all
    others are mapped writable and not executable, also those the file marks as
    read-only. *)
Theorem program_loaded u0 u k elf rnd u' root entry top vm : start u0 -> rtc event u0 u -> bytes_ok elf -> create_process k elf rnd u = (u', Ok (root, entry, top, vm)) ->
  let m := mm_mem (us_mm u') in exists segs, parse_segments elf = Ok segs /\
  (exists g, g ∈ segs /\ has (s_flags g) PF_X = true /\ s_vaddr g <= entry < s_vaddr g + s_memsz g) /\
  (forall va, top - USER_STACK_SIZE <= va < top -> sees m root va = Some (0, true, false)) /\
  (forall va b w x, low_va va -> sees m root va = Some (b, w, x) -> w && x = false) /\
  (tidy segs ->
    (forall g va, g ∈ segs -> s_vaddr g <= va < s_vaddr g + s_memsz g ->
       sees m root va = Some (if va - s_vaddr g <? s_filesz g then byte_at elf (s_offset g + (va - s_vaddr g)) else 0, negb (has (s_flags g) PF_X), has (s_flags g) PF_X)) /\
    (forall va, low_va va -> (forall g, g ∈ segs -> ~ covers_page g va) -> ~ top - USER_STACK_SIZE <= va < top -> sees m root va = None)).
Proof.
  intros Hst Hreach Hok E0 m. pose proof (reach_good u0 u Hst Hreach) as Hg. destruct (create_spawned k elf rnd u u' _ Hg Hok E0 ltac:(done) ltac:(by right; eexists)) as [[Hg' _] Hrun].
  destruct (Hrun root entry top vm eq_refl) as (segs & a & Ep & Hent & Htop & Hs & Ha & Hv). destruct (good_live u' vm a Hg' Hs) as [_ [Hin (own & Hal)]]. rewrite Ha in Hin.
  assert (forall va, low_va va -> sees m root va = program elf segs top va) as Hsees.
  { intros va Hva. rewrite (sees_view m own root va (i_wf _ _ _ (al_inv _ _ Hal)) (al_roots _ _ Hal root Hin) Hva). by apply Hv. }
  pose proof (parse_segments_safe elf Hok) as Hsafe. rewrite Ep in Hsafe. destruct Hsafe as (_ & Hsegs & _). pose proof (stack_top_ok rnd) as [Ht Htp]. rewrite <- Htop in Ht, Htp.
  change USER_IMAGE_MAX with 140732924915712 in Ht. change USER_STACK_TOP with 140733193388032 in Ht. unfold USER_STACK_SIZE in *.
  exists segs. split; [done|]. split; [by apply entry_executable|]. split; [|split; [|intros Htidy; split]].
  - intros va Hva. rewrite Hsees by (split; lia). unfold program. rewrite stack_in, decide_True by done. done.
  - intros va b w x Hva. rewrite Hsees by done. apply program_no_wx.
  - intros g va Hgs Hva. assert (seg_ok elf g) as Hg1 by (rewrite list.Forall_forall in Hsegs; by apply Hsegs). pose proof (so_end _ _ Hg1) as He. pose proof (so_vaddr _ _ Hg1).
    change USER_IMAGE_MAX with 140732924915712 in He. rewrite Hsees by (split; lia). unfold program. rewrite stack_in, decide_False by (done || unfold USER_STACK_SIZE; lia).
    apply image_placed; [done|done|done|by apply (seg_covers elf)].
  - intros va Hva Hout Hns. rewrite Hsees by done. unfold program. rewrite stack_in, decide_False by done. by apply (image_none elf).
Qed.
End Processes.

(** ** A run *)

#[local] Existing Instance run_profile.

(** A program of two segments: eight bytes of code, and a page of data that begins
    with eight bytes of the file. *)
Definition phdr (p_flags offset vaddr filesz memsz : Z) : list Z :=
  le_bytes 4 PT_LOAD ++ le_bytes 4 p_flags ++ le_bytes 8 offset ++ le_bytes 8 vaddr ++ le_bytes 8 vaddr ++ le_bytes 8 filesz ++ le_bytes 8 memsz ++ le_bytes 8 4096.

Definition hello : list Z :=
  [127; 69; 76; 70; 2; 1; 1; 0] ++ le_bytes 8 0 ++ le_bytes 2 2 ++ le_bytes 2 62 ++ le_bytes 4 1 ++ le_bytes 8 4194304 ++ le_bytes 8 64 ++ le_bytes 8 0 ++
  le_bytes 4 0 ++ le_bytes 2 64 ++ le_bytes 2 56 ++ le_bytes 2 2 ++ le_bytes 2 0 ++ le_bytes 2 0 ++ le_bytes 2 0 ++
  phdr 5 176 4194304 8 8 ++ phdr 6 184 4198400 8 4096 ++
  [144; 144; 15; 5; 244; 235; 253; 195] ++ [104; 101; 108; 108; 111; 10; 33; 33].

Definition text : Segment := mkSeg 4194304 8 8 176 5.
Definition var : Segment := mkSeg 4198400 4096 8 184 6.

Lemma hello_bytes : bytes_ok hello.
Proof. unfold bytes_ok, byte_ok. apply (bool_decide_unpack _). vm_compute. done. Qed.

Lemma hello_segments : parse_segments hello = Ok [text; var].
Proof. vm_compute. reflexivity. Qed.

Lemma hello_tidy : tidy [text; var].
Proof.
  split; [repeat (apply Forall_cons_2; [vm_compute; reflexivity|]); apply Forall_nil_2|]. repeat constructor. intros va (e & E0 & Hr) (e' & E0' & Hr').
  vm_compute in E0, E0'. injection E0 as <-. injection E0' as <-. change (seg_start text) with 4194304 in Hr. change (seg_start var) with 4198400 in Hr'. lia.
Qed.

(** It is loaded twice; the second process forks; its child writes to the data,
    and exits. *)
Definition v0 : Um (A := BitmapAllocator) := mkUm m0 [] [].
Definition v1 : Um (A := BitmapAllocator) := (create_process 0 hello 5 v0).1.
Definition v2 : Um (A := BitmapAllocator) := (create_process 0 hello 7 v1).1.
Definition v3 : Um (A := BitmapAllocator) := (fork_as 0 1 (Some caps) v2).1.
Definition v4 : Um (A := BitmapAllocator) := (resolve_user_fault (E := Z) (Some 2%nat) 4198400 (mkFault true true false) v3).1.
Definition v5 : Um (A := BitmapAllocator) := (exit_space 0 2 v4).1.

Definition asp_of (root top : Z) : AddressSpace := first_space root 4194304 4202496 top 4096.

Lemma v0_start : start v0.
Proof. split; [exact m0_boot|done]. Qed.

Lemma v1_run : create_process 0 hello 5 v0 = (v1, Ok (12288, 4194304, 140733193367552, 0%nat)).
Proof. unfold v1. refine (run_eq (create_process 0 hello 5) v0 _ _ eq_refl _). vm_compute. reflexivity. Qed.

Lemma v2_run : create_process 0 hello 7 v1 = (v2, Ok (299008, 4194304, 140733193359360, 1%nat)).
Proof. unfold v2. refine (run_eq (create_process 0 hello 7) v1 _ _ eq_refl _). vm_compute. reflexivity. Qed.

Lemma v3_run : fork_as 0 1 (Some caps) v2 = (v3, Ok (2%nat, 368640)).
Proof. unfold v3. refine (run_eq (fork_as 0 1 (Some caps)) v2 _ _ eq_refl _). vm_compute. reflexivity. Qed.

Lemma v4_run : resolve_user_fault (E := Z) (Some 2%nat) 4198400 (mkFault true true false) v3 = (v4, Ok true).
Proof. unfold v4. refine (run_eq (resolve_user_fault (E := Z) (Some 2%nat) 4198400 (mkFault true true false)) v3 _ _ eq_refl _). vm_compute. reflexivity. Qed.

Lemma v5_run : exit_space 0 2 v4 = (v5, Ok tt).
Proof. unfold v5. refine (run_eq (exit_space 0 2) v4 _ _ eq_refl _). vm_compute. reflexivity. Qed.

Lemma spawn_ok {A} `{Profile, FrameOps A} k elf rnd (u u' : Um (A := A)) x : bytes_ok elf -> create_process k elf rnd u = (u', Ok x) -> spawn u u'.
Proof. intros Hok E0. exists k, elf, rnd, (Ok x). split; [done|]. split; [done|]. split; [done|]. right. by exists x. Qed.

Lemma v1_reached : rtc event v0 v1.
Proof. exact (rtc_once _ _ (or_introl (spawn_ok 0 hello 5 v0 v1 _ hello_bytes v1_run))). Qed.

Lemma v3_forked : process 1 v2 v3.
Proof.
  apply (pr_fork 1 v2 v3 (asp_of 299008 140733193359360) 0 caps.1 caps.2 2 368640); [vm_compute; reflexivity|vm_compute; congruence| |exact v3_run].
  apply all_in_sound; [|vm_compute; reflexivity]. repeat (apply Forall_cons_2; [split_and!; vm_compute; congruence|]). apply Forall_nil_2.
Qed.

Lemma v4_faulted : process 2 v3 v4.
Proof. apply (pr_call 2 v3 v4 (Fault 4198400 (mkFault true true false))). split; [split; lia|]. exists (Ok true). split; [exact v4_run|discriminate]. Qed.

Lemma v5_exited : process 2 v4 v5.
Proof. apply (pr_exit 2 v4 v5 0); [discriminate|vm_compute; lia|exact v5_run]. Qed.

(** The first process is not affected. *)
Lemma processes_isolated_witness : start v0 /\ rtc event v0 v1 /\ space 0 v1 = Some (asp_of 12288 140733193367552) /\ rtc (event_of_others 0) v1 v5 /\
  space 0 v5 = Some (asp_of 12288 140733193367552) /\ load (mm_mem (us_mm v5)) 12288 4198400 = load (mm_mem (us_mm v1)) 12288 4198400.
Proof.
  assert (rtc (event_of_others 0) v1 v5) as Hrun.
  { refine (rtc_l _ v1 v2 v5 (or_introl (spawn_ok 0 hello 7 v1 v2 _ hello_bytes v2_run)) _).
    refine (rtc_l _ v2 v3 v5 (or_intror (ex_intro _ 1%nat (conj _ v3_forked))) _); [discriminate|].
    refine (rtc_l _ v3 v4 v5 (or_intror (ex_intro _ 2%nat (conj _ v4_faulted))) _); [discriminate|].
    refine (rtc_l _ v4 v5 v5 (or_intror (ex_intro _ 2%nat (conj _ v5_exited))) (rtc_refl _ _)). discriminate. }
  assert (space 0 v1 = Some (asp_of 12288 140733193367552)) as Hs by (vm_compute; reflexivity).
  destruct (processes_isolated v0 v1 0 (asp_of 12288 140733193367552) v5 v0_start v1_reached Hs Hrun) as [Hs' Hl].
  refine (conj v0_start (conj v1_reached (conj Hs (conj Hrun (conj Hs' _))))). apply (Hl 4198400). split; lia.
Defined.

(** The second byte of the data, and the third of the code. *)
Lemma program_loaded_witness : start v0 /\ rtc event v0 v0 /\ bytes_ok hello /\ create_process 0 hello 5 v0 = (v1, Ok (12288, 4194304, 140733193367552, 0%nat)) /\
  tidy [text; var] /\ sees (mm_mem (us_mm v1)) 12288 4198401 = Some (101, true, false) /\ sees (mm_mem (us_mm v1)) 12288 4194306 = Some (15, false, true).
Proof.
  refine (conj v0_start (conj (rtc_refl _ _) (conj hello_bytes (conj v1_run (conj hello_tidy _))))).
  destruct (program_loaded v0 v0 0 hello 5 v1 12288 4194304 140733193367552 0 v0_start (rtc_refl _ _) hello_bytes v1_run) as (segs & Ep & _ & _ & _ & Himg).
  rewrite hello_segments in Ep. injection Ep as <-. destruct (Himg hello_tidy) as [Hat _]. split.
  - refine (eq_trans (Hat var 4198401 _ _) _); [right; left|cbn; lia|vm_compute; reflexivity].
  - refine (eq_trans (Hat text 4194306 _ _) _); [left|cbn; lia|vm_compute; reflexivity].
Defined.

(** C31: Validation of programs.  Whatever the bytes of the image, [parse_segments]
    does not panic, and the segments it accepts lie above the first page and below
    the stacks, have their bytes in the file, are not both writable and executable,
    and have the same permissions where they share a page. *)
Theorem segments_validated elf : bytes_ok elf ->
  match parse_segments elf with
  | Ok segs => segs <> [] /\ Forall (seg_ok elf) segs /\ ForallOrdPairs agree segs
  | Err _ => True
  | Panic => False
  end.
Proof. exact (parse_segments_safe elf). Qed.

Lemma segments_validated_witness : bytes_ok hello /\ seg_ok hello text.
Proof.
  refine (conj hello_bytes _). pose proof (segments_validated hello hello_bytes) as Hv. rewrite hello_segments in Hv. destruct Hv as (_ & Hok & _).
  apply Forall_cons in Hok as [Ht _]. exact Ht.
Defined.

(** The first process has index 0, which stands for no address space: its calls of
    [brk], [mmap] and [munmap] are refused, and its faults are not resolved. *)
Theorem first_process_unserved {A} `{Profile, FrameLaws A} k elf rnd (u u' : Um (A := A)) root entry top vm : start u -> bytes_ok elf ->
  create_process k elf rnd u = (u', Ok (root, entry, top, vm)) -> current_vm vm = None.
Proof.
  intros (_ & Es & Ef) _ E0. destruct (create_run k elf rnd u u' _ E0 ltac:(done)) as [(e & [=] & _)|(segs & s' & _ & [(e & _ & [=] & _)|(r & en & vm' & _ & _ & Er & E1)])].
  injection E1 as _ _ _ ->. revert Er. unfold register, st_bind, st_res, st_get, new_slot. rewrite Es, Ef. cbn [us_free us_slots rev].
  destruct (u64_sub _ _) as [x|e|]; [|done|done]. destruct (u64_sub _ _) as [y|e|]; [|done|done]. by intros [= _ <-].
Qed.

(** ** Where the code does not do what it means to *)

(** A write to the code of the program is resolved: the region of the image counts
    as writable, so that the page is made writable, and stays executable. *)
Theorem code_made_writable :
  let '(u, r) := resolve_user_fault (E := Z) (Some 1%nat) 4194304 (mkFault true true false) v2 in
  sees (mm_mem (us_mm v2)) 299008 4194304 = Some (144, false, true) /\ r = Ok true /\ sees (mm_mem (us_mm u)) 299008 4194304 = Some (144, true, true).
Proof. vm_compute. split_and!; reflexivity. Qed.

(** A region may be mapped with its guard page at the break; the break then grows
    into it, and the kernel panics. *)
Theorem brk_into_region : let '(u, r) := mmap 1 4206592 4096 3 0 v2 in r = Ok 4206592 /\ (brk 1 4210688 u).2 = Panic.
Proof. vm_compute. split; reflexivity. Qed.

(** A fork that runs out of frames gives frames of the parent back, which still maps
    them: with four frames left, the clone fails, and [destroy_root] walks the tables
    that were freed. *)
Definition exhaust (n : Z) : st Z (Um (A := BitmapAllocator)) unit := st_for (seqZ 0 n) (fun _ => let* _ := on_mm alloc_frame in st_ret tt).

Theorem failed_fork_frees_parent :
  let u := (exhaust 35 v2).1 in
  let '(u', r) := fork_as 0 1 (Some caps) u in
  fr_count (mm_frames (us_mm u)) = 4 /\ r = Err ENOMEM /\ fr_count (mm_frames (us_mm u')) = 9 /\
  translate_user (mm_mem (us_mm u')) 299008 4198400 = Some (319488, true, true) /\ is_used (mm_frames (us_mm u')) (319488 / 4096) = false.
Proof. vm_compute. split_and!; reflexivity. Qed.

(** A segment that does not start on a page loses its first bytes: with an address
    four bytes into the page, the fifth byte comes first. *)
Theorem unaligned_segment_shifted : page_bytes hello (mkSeg 4198404 4092 8 184 6) 4198400 = (4, [111; 10; 33; 33]) /\ byte_at hello 184 = 104.
Proof. vm_compute. split; reflexivity. Qed.
